(* ===== verification/_CoqProject ===== *)
-Q . S2P
Prelude.v
Ordered.v
Text.v
Protocol.v
Wire.v
Validate.v
TychoFeed.v
Tracker.v
Codec.v
RedisEntry.v
Replay.v
RedisStore.v
Recovery.v
Writer.v
Publisher.v
PublisherModes.v
PublisherLog.v
PublisherOrder.v
Store.v
StorePools.v
StoreLife.v
StoreQuery.v
Health.v
Readiness.v
Requests.v
Reassembly.v
Processor.v
Consumer.v
Supervisor.v
ConsumerDemo.v
Guards.v
Deadlock.v
Supervision.v
RecoveryFeed.v
RawMessage.v
SnapshotExport.v
ExportSplit.v
ExportMerge.v
ExportChunks.v
ExportDemo.v
RawCompaction.v
SharedAccounts.v
SnapshotCache.v
CompactionFacts.v
CacheDecoded.v
CacheRaw.v
CacheDemo.v
RecoveryWork.v
RecoveryFacts.v
RecoveryDemo.v
SnapshotArtifact.v
ArtifactFacts.v
SnapshotSessions.v
SessionFacts.v
ServiceSnapshots.v
ServiceDemo.v
RouteTypes.v
RouteNormalize.v
RouteAllocFacts.v
RouteResimulate.v
RouteSimFacts.v
RouteCalldata.v
RouteEncode.v
RouteFacts.v
RouteProps.v
RouteDemo.v
QuoteTypes.v
QuoteSlippage.v
QuotePools.v
QuoteRun.v
QuoteRequest.v
QuoteLadder.v
QuoteFacts.v
QuotePrepare.v
QuoteAnswers.v
QuoteProps.v
QuoteDemo.v
TokenFetch.v
TokenProps.v
FeedStream.v
