(* ===== verification/Prelude.v ===== *)
(** * dsolver-simulator: verification of the broadcaster, the replay pipeline and the answers

    The repository runs two kinds of process.  A broadcaster follows the Tycho feeds,
    keeps the state of every pool and publishes what changes as the entries of one Redis
    stream; simulators download a snapshot over HTTP, follow the stream from the boundary
    handed out with it and answer quotes from the state they rebuild.  One broadcaster at a
    time writes: a token and a generation counter in Redis, checked by Lua scripts, fence
    out every other one.  This development models the wire contract the two sides share,
    the writing side down to the scripts, the reading side up to the state that the
    requests of a simulator read, and the quotes and routes those requests are answered
    with.

    ** Parts, files and sources

    All paths are under [src/crates].

    - [Prelude]: results, the state-and-error monad [stateR] with its inversion and
      rewriting lemmas, [moves R m] (every run of [m] stays within the relation [R]) with
      its hint database, lists and options.  [Ordered]: total orders, stable sorting,
      [BTreeMap] and [BTreeSet].  [Text]: the string functions of Rust's standard library
      on bytes, and decimal numbers.
    - [Protocol]: [simulator-core/src/models/protocol.rs].
    - [Wire], [Validate], [Codec], [TychoFeed], [Tracker]:
      [simulator-core/src/broadcaster.rs], in this order: the data, its validation and
      constructors, its decoding, the messages built from Tycho's updates, and the
      subscription tracker.
    - [RedisEntry]: [simulator-core/src/broadcaster/redis_streams.rs], the flat record of an
      envelope in the stream.
    - [Replay]: [broadcaster-replay-client/src], checkpoints, Redis replies, batches, polls
      and snapshot downloads.
    - [runtime/src/broadcaster/redis_publisher.rs] in five files.  [RedisStore]: the Lua
      scripts over an abstract Redis.  [Recovery]: errors, sizes, fragments and the entries
      of a recovery transaction.  [Writer]: the trait [RedisStreamWriter] and
      [TokioRedisStreamWriter] over a connection that loses commands and replies.
      [Publisher]: the publisher's state and every operation on it.  [PublisherModes],
      [PublisherLog] and [PublisherOrder] hold the publisher's theorems: modes and phases
      under every operation, what reaches the log, and the order of the log over a
      publisher's life.
    - [runtime/src/models/state.rs] and [tokens.rs] in [Store], a state store with its
      updates, resets, publication and queries.  [StorePools], [StoreLife] and [StoreQuery]
      hold its theorems: one update, the states a store can reach, and what is published
      and found.  [Health]: [stream_health.rs] and the status of a subscription.
      [Readiness]: readiness, admission and the status page of [AppState], with theorems in
      [Requests].
    - [runtime/src/broadcaster/redis_subscription.rs] and its two submodules:
      [Reassembly] (raw snapshot fragments), [Processor] (one backend), [Consumer] (the
      assembly of a recovery, its commit and the replay loop) and [Supervisor] (bootstrap,
      restarts, rounds).  [ConsumerDemo] is a concrete consumer for the witnesses;
      [Guards], [Deadlock] and [Supervision] prove who holds the rebuild locks, for one
      backend, for a replay loop and for the supervisor; [RecoveryFeed] takes a recovery
      from the publisher's entries to the consumer's commit.
    - [runtime/src/broadcaster/state.rs]: [RawMessage] has the fields of a raw message,
      [SnapshotExport] the fragments, chunks and exports.  [ExportSplit] says
      what the fragments of a message hold, [ExportMerge] what the consumer's
      [Reassembly] makes of them, [ExportChunks] what an export holds and who can follow it;
      [ExportDemo] is a concrete snapshot.  The cache is in [RawCompaction] (folding raw
      messages into their snapshots), [SharedAccounts] (reconciling the views of an account)
      and [SnapshotCache] (the upstream status, staging, committing, recoveries, status),
      its theorems in [CompactionFacts], [CacheDecoded] (decoded updates)
      and [CacheRaw] (raw messages and replacements), its witnesses in [CacheDemo].
    - [runtime/src/broadcaster/service.rs]: [RecoveryWork] has the feed handler and the
      workers of a recovery as events over the state they share, with theorems in
      [RecoveryFacts] and a run in [RecoveryDemo]; [SnapshotArtifact] the candidates and
      artifacts of snapshots, with theorems in [ArtifactFacts]; [SnapshotSessions] the
      sessions that serve them, with theorems in [SessionFacts]; [ServiceSnapshots] what
      services capture, install and report.  [ServiceDemo] has the witnesses.
    - [runtime/src/stream.rs]: [FeedStream] has the supervisors that build a feed, hand what
      it yields to the service and restart it, with their theorem and a run.
    - The lookups of [runtime/src/models/tokens.rs], with the broadcaster's side of them
      ([broadcaster/app.rs] and [rpc/src/handlers/broadcaster.rs]): [TokenFetch] has them as
      tasks that share a table, channels and permits, [TokenProps] the invariants of
      every run, the theorems, the witnesses and two runs with dropped lookups.
    - [runtime/src/services/encode.rs] and its submodules: [RouteTypes] has the requests,
      routes and errors ([model.rs], [error.rs], [backend.rs], [wire.rs], [request.rs], and
      the pair policies of [models/erc4626.rs]), [RouteNormalize] allocation and
      normalisation, [RouteResimulate] the simulation of a route against the state of the
      server, [RouteCalldata] the swaps, calldata and interactions, [RouteEncode] the whole
      request, the service's timeout and the classification of failures ([response.rs]).
      Theorems are in [RouteAllocFacts], [RouteSimFacts], [RouteFacts]
      and [RouteProps]; [RouteDemo] encodes a concrete route.
    - [runtime/src/services/quotes.rs] and [quote_service.rs]: [QuoteTypes] has the data of
      quotes ([simulator-core/src/models/messages.rs], [factories.rs], the slippage part of
      [runtime/src/config/mod.rs] and [simulation_executor.rs]), [QuoteSlippage] the
      arithmetic of slippage, [QuotePools] the pools of a pair and the simulation of one of
      them, [QuoteRun] the state of a request with its classification and the collection of
      tasks, [QuoteRequest] the request from parsing to the fence on native state, and the
      service with its timeout.  Theorems are in [QuoteLadder] (slippage), [QuoteFacts] (one
      pool), [QuotePrepare] (up to the execution), [QuoteAnswers] (collection and
      classification) and [QuoteProps]; [QuoteDemo] answers a concrete request.

    How the parts meet: [Publisher] is written against the class [RedisStreamWriter] and
    proved against its laws, which [Writer] discharges for [TokioRedisStreamWriter] from
    the laws of the abstract Redis; an entry is [RedisEntry]'s record of [Wire]'s envelope,
    which [Replay] decodes and [Tracker] checks against the session; a [Processor] runs the
    tracker and puts what it lets through into its [Store], whose readiness, with the status
    and health the consumer keeps, is what [Readiness] admits requests by; [RouteEncode] and
    [QuoteRequest] answer them from what the stores have published.

    ** How code becomes definitions

    Structs are records whose fields carry a short prefix, enums inductive types with the
    source's constructors; [u64], [u32] and [usize] are [N] with checked, saturating and
    wrapping arithmetic written out at 64 or 32 bits; strings are their UTF-8 bytes.
    [Result] is [result], [anyhow::Error] a record of its contexts and root cause, and
    functions that change state run in [stateR].  Maps and sets whose iteration order
    matters are ordered ([BTreeMap]) or association lists in an arbitrary order
    ([HashMap]); the theorems quantify over that order.

    The consumer owns its backends: a store, a status and a health are fields of the
    processor that changes them, and the two rebuild locks, the token cache and the shared
    Tycho database are the fields of [World].  A lock is a flag; waiting for one that is
    held ends the run as [Blocked], which the theorems exclude, and a guard that goes out
    of scope is released where Rust drops it.

    Locks and tasks: an operation of the publisher holds its lock to the end, so operations
    follow one another; where a running operation waits, other tasks take turns from the
    schedule [sys_schedule], which is arbitrary.  In [Writer], each command has a [turn]:
    what other clients do before it, and whether it is executed and its reply arrives.

    Outside code is a parameter: the [tycho] crates ([TychoTypes]), [serde_json]
    ([SerdeJson], a decoded text has the structure that was encoded), Keccak ([Keccak]),
    Redis ([RedisStore], [RedisServer]) and the [redis] crate ([RedisCrate], [RedisLink]),
    tokens of components ([TychoTokens]), the order of hash sets ([HashOrder]), raw
    synchroniser messages, their fields, those of the states and accounts they hold, and
    their merge ([RawMessages], [TychoFields], [TychoState], [SyncFields], [AccountLaws],
    [MergeLaws]), the JSON of a list ([ListJson]), the stream decoder with its database
    ([TychoEngine]), snapshots in JSON ([SnapshotJson]), labels of sessions ([LabelJson]),
    the clock, random numbers and timers ([PublisherEnv]), chains and the text of numbers and
    bytes ([RouteApi]), simulations and market makers' clients ([RouteSim]), the encoder of
    solutions and ABI encoding ([RouteEncoder]), gas, limits and attributes of pools
    ([QuoteApi], with the round trip of numbers as text in [QuoteApiLaws]), the fields of
    tokens and the replies of a token server ([TokenFields], [TychoTokenReply], [TokenLaws]).
    Each has a class of laws that states its documented behaviour
    where a theorem relies on it, and a demonstration instance the witnesses run on.

    ** What is proved

    - Sessions: the tracker refines the protocol of snapshot and live messages, and accepts
      exactly its complete sessions; refused calls change nothing.
    - Contract: constructors accept exactly well-formed messages; messages built from
      Tycho's updates hold exactly the entries of each backend whatever the order of its
      maps; decoding accepts what the constructors built.
    - Entries: an entry round-trips through its text fields; building one fails exactly for
      the envelopes that cannot be published.
    - Replay: a session that does not fail has applied every message once, in order; empty
      polls are caught up, pending or a gap according to the stream's own ids.
    - Fence: one writer per generation, superseded writers shut out, promotions that
      survive lost replies and never reuse a generation, recoveries that never displace
      another writer.
    - Writer: an acknowledged append is stored, and made at most once while no other client
      acts; errors tell a taken
      fence from a missing one; the publisher's contract is implemented.
    - Recovery transactions: fragments that rejoin, sizes exact, entries laid out without a
      gap; publishing one succeeds with the payloads held back right behind it, or fails
      keeping them queued in order; draining is first in first out, ends, and the queue
      is bounded.
    - Publisher: every accepted payload is in the stream at the cursor, or is refused because
      it cannot be normalised or is too large, or the publisher has halted; sequence numbers and state versions grow over its whole life; phases move
      forward only; a retired publisher writes nothing; retries end; the startup handoff
      comes first in a new stream.
    - Stores: what is published is well formed under every operation; an update does to the
      map of pools what its entries say; a token pair finds exactly the pools that trade
      it; a reset removes exactly the protocols named; a generation names one state.
    - Requests: a subscription is ready exactly after it has caught up; a request that is
      let in reads the published state; the status page, the admission and the pool
      lookups agree; waiting for readiness returns.
    - Consumer: no deadlock, and a rebuild lock is held exactly by a rebuild under way,
      whatever happens to the connection; a recovery arrives at the commit as the publisher
      was given it, with the stores it replaces fenced and no other.
    - Snapshots: the fragments of a message stay within the byte limit and the consumer
      rebuilds the message from them; an export holds the state of every backend, bounded,
      once and in order, and is followed to the end exactly when no backend is left out.
    - Cache: a decoded update is refused or does exactly what it says, and its assertions
      never fire; raw messages stay one per protocol, with agreeing accounts as long as no
      message fails while it is merged; folding leaves only what has nothing to go into; a
      replacement is served from when its protocols are aligned at one block, all at once.
      One example states a defect: a message that is staged fails half merged and leaves the
      views of an account different ([commit_fails_half_merged]).
    - Service: under every interleaving an active recovery has one owner, its transaction
      rebuilds the cache it was published from, and a failed one publishes nothing more; a
      candidate's measures bound the artifact that is promoted; sessions are bounded and
      serve their artifact whole until they expire or are disconnected.
    - Routes: an amount is divided without loss and normalisation accepts exactly chains
      from the input token to the output token; amounts flow from hop to hop of a simulated
      route; its swaps run, for the router as for the simulation, in one order; an encoded
      route spends the amount and yields the minimum asked for, from pools that were pinned
      or looked up in a ready backend, through exactly the approvals and the call it needs.
      One theorem states a defect: a rebuild lock is lost when another backend's lock is
      taken ([rebuild_guard_forgets_vm]); and so does one example: a hint keeps a native pool
      from the checks of its backend ([hint_hides_native_pool]).
    - Tokens: a lookup returns a token of its address or what its fetch was answered; lookups
      end, and share one fetch per address while none is dropped.  Two examples state what
      dropped ones leave behind ([dropped_remover_keeps_error] and
      [dropped_owner_multiplies_fetches]).
    - Feeds: a supervisor reports each connection and its end once, hands over each update
      that is due exactly once, and follows a stream only below the limits of its failures.
    - Quotes: a request is answered exactly when its own tasks have ended or it is cancelled;
      its responses are what published pools answered for
      two different tokens they trade, from native state that is still served, within the
      slippage configured; the answer is classified by what it holds, a complete one covers
      every candidate, and the order in which tasks end does not change it.  Three examples
      state defects: a sum of slippages that leaves 32 bits ([slippage_sum_wraps]), a
      cancellation reported as missing liquidity
      ([cancelled_scheduling_reports_no_liquidity]), and an answer without the VM pools that
      is complete, where the documentation says partial ([skipped_pools_are_complete]).

    ** Bounds and fuel

    [dec_digits] and [decimal_digits] take 20 digits, enough for 64 bits.  Chunk entries
    are built in at most 4 attempts, as in the code.  Fragments take the length of the text
    as fuel, each being non-empty.  Lua numbers are exact up to [lua_exact] = 10^14, and
    the theorems on generations assume them below it.  Appends retry [append_fuel] turns,
    two more than the milliseconds of the retry window, each turn but the last taking at
    least one; draining takes [drain_fuel] turns, what is queued, what can still arrive and
    one; both are proved enough.  [pause_feeds_until_writer_verified] waits as long as it
    takes: its fuel is an argument, and no theorem says that it returns.
    [wait_for_readiness] takes [poll_fuel] polls, one per interval of the wait and two more,
    proved enough.  The supervisor is a step per event, and its theorems hold after any
    number of them.  Cutting the slots of an account takes a turn per slot, proved enough.

    ** Not modelled, and why

    Metrics, logs and tracing; opening connections and HTTP transport (replies are
    arguments); the random writer token (an argument); building a decoder, sleeping and
    jitter in the consumer and the feed supervisors.  Each readiness of [AppState] is read
    at one instant, without what changes between the reads it makes; the encoding of a
    route waits for each of them in turn, and for each store it asks.  Of the
    broadcaster's service: its HTTP handlers, its application loop, the heartbeat and the
    feed of decoded updates, which call the cache and the publisher and decide nothing.
    Of the configuration, only that of slippage is modelled: the rest reads values and
    checks them one by one.  The token lists of market makers are downloads.  Of the
    quotes, the summaries that are logged are left out; the tasks of a request end in any
    order, and what its cancellation shows at each check is an argument.  The state a
    route or a quote reads is that of the server at each of its waits, in any sequence of
    states; the locks they wait for are granted.  The simulations themselves are those of
    the [tycho] crates, the analysis tool is offline reporting, and the HTTP handlers are
    glue over the services. *)

From stdpp Require Export base list strings gmap sorting.
From Stdlib Require Export NArith Lia.

Declare Scope sim_scope.
Delimit Scope sim_scope with sim.
Open Scope sim_scope.

(** ** Results *)

(** Rust's [Result<A, E>], the error type first so that [result E] is a monad. *)
Inductive result (E A : Type) : Type :=
| Ok (a : A)
| Err (e : E).
Arguments Ok {E A} a.
Arguments Err {E A} e.

#[export] Instance result_ret {E} : MRet (result E) := λ A a, Ok a.
#[export] Instance result_bind {E} : MBind (result E) := λ A B f r,
  match r with Ok a => f a | Err e => Err e end.
#[export] Instance result_fmap {E} : FMap (result E) := λ A B f r,
  match r with Ok a => Ok (f a) | Err e => Err e end.

#[export] Instance result_eq_dec {E A} `{EqDecision E, EqDecision A} :
  EqDecision (result E A).
Proof. solve_decision. Defined.

(** [Result::map_err]. *)
Definition map_err {E E' A} (f : E → E') (r : result E A) : result E' A :=
  match r with Ok a => Ok a | Err e => Err (f e) end.

(** [Option::ok_or]. *)
Definition ok_or {E A} (o : option A) (e : E) : result E A :=
  match o with Some a => Ok a | None => Err e end.

(** [Result::ok]. *)
Definition result_ok {E A} (r : result E A) : option A :=
  match r with Ok a => Some a | Err _ => None end.

Definition is_ok {E A} (r : result E A) : bool :=
  match r with Ok _ => true | Err _ => false end.

(** [if !cond { return Err(e) }]. *)
Definition ensure {E} (b : bool) (e : E) : result E unit :=
  if b then Ok tt else Err e.

(** A [for] loop whose body returns early with [?]. *)
Fixpoint for_each {E A} (f : A → result E unit) (l : list A) : result E unit :=
  match l with
  | [] => Ok tt
  | x :: l' => f x ;; for_each f l'
  end.

(** A [for] loop that threads an accumulator and may return early. *)
Fixpoint fold_result {E A S} (f : S → A → result E S) (s : S) (l : list A) :
    result E S :=
  match l with
  | [] => Ok s
  | x :: l' => s' ← f s x; fold_result f s' l'
  end.

Lemma bind_ok {E A B} (r : result E A) (f : A → result E B) b :
  (r ≫= f) = Ok b ↔ ∃ a, r = Ok a ∧ f a = Ok b.
Proof.
  destruct r; simpl; split.
  - eauto.
  - by intros (? & [= ->] & ?).
  - done.
  - by intros (? & ? & _).
Qed.

Lemma ok_bind {E A B} (f : A → result E B) a : (Ok a ≫= f) = f a.
Proof. done. Qed.

Lemma bind_err {E A B} (r : result E A) (f : A → result E B) e :
  (r ≫= f) = Err e ↔ r = Err e ∨ ∃ a, r = Ok a ∧ f a = Err e.
Proof. destruct r; simpl; naive_solver. Qed.

Lemma seq_ok {E B} (r : result E unit) (k : result E B) b :
  (r ;; k) = Ok b ↔ r = Ok tt ∧ k = Ok b.
Proof. destruct r as [[]|]; simpl; naive_solver. Qed.

Lemma ensure_ok {E} b (e : E) : ensure b e = Ok tt ↔ b = true.
Proof. destruct b; naive_solver. Qed.

Lemma ok_or_ok {E A} (o : option A) (e : E) a : ok_or o e = Ok a ↔ o = Some a.
Proof. destruct o; naive_solver. Qed.

Lemma for_each_ok {E A} (f : A → result E unit) l :
  for_each f l = Ok tt ↔ Forall (λ x, f x = Ok tt) l.
Proof.
  induction l as [|x l IH]; simpl; [by split|].
  rewrite seq_ok, IH, Forall_cons. done.
Qed.

(** The error of a loop is the error of its first failing element. *)
Lemma for_each_err {E A} (f : A → result E unit) l e :
  for_each f l = Err e ↔
  ∃ pre x post, l = pre ++ x :: post ∧
    Forall (λ y, f y = Ok tt) pre ∧ f x = Err e.
Proof.
  induction l as [|x l IH]; simpl.
  { split; [done|]. by intros ([] & ? & ? & [=] & _). }
  rewrite bind_err. setoid_rewrite IH. split.
  - intros [Hx|([] & Hx & pre & y & post & -> & Hpre & Hy)].
    + by exists [], x, l.
    + exists (x :: pre), y, post. split_and!; [done|by constructor|done].
  - intros ([|z pre] & y & post & [= -> ->] & Hpre & Hy).
    + by left.
    + right. exists tt. apply Forall_cons in Hpre as [??].
      split; [done|]. by exists pre, y, post.
Qed.

Lemma for_each_total {E A} (f : A → result E unit) l :
  for_each f l = Ok tt ∨ ∃ e, for_each f l = Err e.
Proof. destruct (for_each f l) as [[]|]; eauto. Qed.

Lemma fold_result_app {E A S} (f : S → A → result E S) s l1 l2 :
  fold_result f s (l1 ++ l2) = (fold_result f s l1 ≫= λ s', fold_result f s' l2).
Proof.
  revert s. induction l1 as [|x l1 IH]; intros s; simpl; [done|].
  destruct (f s x); simpl; [apply IH|done].
Qed.

(** An invariant of the turns of a loop that have succeeded, with what they have taken. *)
Lemma fold_result_inv {E A S} (f : S → A → result E S) (P : list A → S → Prop) l s s' :
  fold_result f s l = Ok s' → P [] s →
  (∀ done x s1 s2, (∃ rest, l = done ++ x :: rest) → P done s1 → f s1 x = Ok s2 →
     P (done ++ [x]) s2) →
  P l s'.
Proof.
  intros Hf H0 Hstep. revert s s' H0 Hf Hstep. induction l as [|x l IH] using rev_ind;
    intros s s' H0 Hf Hstep; [by injection Hf as <-|].
  rewrite fold_result_app in Hf. apply bind_ok in Hf as (s1 & H1 & Hx). simpl in Hx.
  apply bind_ok in Hx as (s2 & Hx & [= <-]). apply (Hstep l x s1 s2); [by exists []| |done].
  apply (IH s s1); [done|done|]. intros don y s3 s4 [rest ->]. apply Hstep.
  exists (rest ++ [x]). by rewrite <- app_assoc.
Qed.

(** Invert a successful chain of binds, one step at a time. *)
Ltac invert_ok H :=
  repeat first
    [ apply bind_ok in H as (? & ? & H)
    | apply seq_ok in H as [? H] ].

(** Case analysis on the outermost test of a hypothesis. *)
Ltac split_if H := match type of H with (if ?b then _ else _) = _ => destruct b eqn:? end.

(** A fold keeps what each of its steps keeps. *)
Lemma foldl_inv {A S} (P : S → Prop) (f : S → A → S) l s :
  P s → (∀ s x, x ∈ l → P s → P (f s x)) → P (foldl f s l).
Proof.
  revert s. induction l as [|x l IH]; intros s Hs Hf; simpl; [done|].
  apply IH; [apply Hf; [left|done]|]. intros s' y Hy. apply Hf. by right.
Qed.

(** ** A state and error monad

    Code that takes [&mut self] and returns a [Result]: the state is returned on
    the error path too, so that what an early return leaves behind is visible. *)
Definition stateR (S E A : Type) : Type := S → result E A * S.

#[export] Instance stateR_ret {S E} : MRet (stateR S E) := λ A a s, (Ok a, s).
#[export] Instance stateR_bind {S E} : MBind (stateR S E) := λ A B f m s,
  match m s with
  | (Ok a, s') => f a s'
  | (Err e, s') => (Err e, s')
  end.

Definition gets {S E A} (f : S → A) : stateR S E A := λ s, (Ok (f s), s).
Definition put {S E} (s : S) : stateR S E unit := λ _, (Ok tt, s).
Definition modify {S E} (f : S → S) : stateR S E unit := λ s, (Ok tt, f s).
Definition lift {S E A} (r : result E A) : stateR S E A := λ s, (r, s).
Definition throw {S E A} (e : E) : stateR S E A := λ s, (Err e, s).

Section stateR_laws.
Context {S E : Type}.

Lemma stateR_bind_ok {A B} (m : stateR S E A) (f : A → stateR S E B) s b s' :
  (m ≫= f) s = (Ok b, s') ↔ ∃ a s1, m s = (Ok a, s1) ∧ f a s1 = (Ok b, s').
Proof.
  unfold mbind, stateR_bind. destruct (m s) as [[a|e] s1]; split.
  - eauto.
  - by intros (? & ? & [= -> ->] & ?).
  - done.
  - by intros (? & ? & ? & _).
Qed.

Lemma gets_bind {A B} (g : S → A) (k : A → stateR S E B) s :
  (gets g ≫= k) s = k (g s) s.
Proof. done. Qed.

Lemma ret_bind {A B} (a : A) (k : A → stateR S E B) s :
  ((mret a : stateR S E A) ≫= k) s = k a s.
Proof. done. Qed.

Lemma bind_run {A B} (m : stateR S E A) (k : A → stateR S E B) s a s' :
  m s = (Ok a, s') → (m ≫= k) s = k a s'.
Proof. unfold mbind, stateR_bind. by intros ->. Qed.

Lemma bind_run_err {A B} (m : stateR S E A) (k : A → stateR S E B) s e s' :
  m s = (Err e, s') → (m ≫= k) s = (Err e, s').
Proof. unfold mbind, stateR_bind. by intros ->. Qed.

Lemma modify_bind {B} (g : S → S) (k : unit → stateR S E B) s :
  (modify g ≫= k) s = k tt (g s).
Proof. done. Qed.

Lemma lift_bind_ok {A B} (r : result E A) (k : A → stateR S E B) s b s' :
  (lift r ≫= k) s = (Ok b, s') ↔ ∃ a, r = Ok a ∧ k a s = (Ok b, s').
Proof.
  unfold mbind, stateR_bind, lift. destruct r as [a|e]; split; [by eauto| |done|].
  - by intros (? & [= ->] & ?).
  - by intros (? & ? & _).
Qed.

Lemma lift_seq_ok {B} (r : result E unit) (k : stateR S E B) s b s' :
  (lift r ;; k) s = (Ok b, s') ↔ r = Ok tt ∧ k s = (Ok b, s').
Proof. rewrite lift_bind_ok. split; [by intros ([] & ? & ?)|by exists tt]. Qed.

Lemma lift_bind {A B} (r : result E A) (k : A → stateR S E B) s :
  (lift r ≫= k) s = match r with Ok a => k a s | Err e => (Err e, s) end.
Proof. by destruct r. Qed.

Lemma throw_bind {A B} (e : E) (k : A → stateR S E B) s : (throw e ≫= k) s = (Err e, s).
Proof. done. Qed.

(** A run of two steps: the first fails, or the second starts where it ended. *)
Lemma bind_inv {A B} (m : stateR S E A) (k : A → stateR S E B) s r s' :
  (m ≫= k) s = (r, s') →
  (∃ a s1, m s = (Ok a, s1) ∧ k a s1 = (r, s')) ∨ (∃ e, m s = (Err e, s') ∧ r = Err e).
Proof.
  unfold mbind, stateR_bind. destruct (m s) as [[a|e] s1].
  - intros Hk. left. by exists a, s1.
  - intros [= <- <-]. right. by exists e.
Qed.

Lemma mret_ok {A} (a b : A) (s s' : S) :
  (mret a : stateR S E A) s = (Ok b, s') ↔ b = a ∧ s' = s.
Proof. split; [by intros [= -> ->]|by intros [-> ->]]. Qed.

Lemma throw_ok {A} (e : E) (s : S) (a : A) s' : throw e s = (Ok a, s') ↔ False.
Proof. done. Qed.

(** Every run of [m] stays within the relation [R]. *)
Definition moves {A} (R : S → S → Prop) (m : stateR S E A) : Prop :=
  ∀ s r s', m s = (r, s') → R s s'.

Section moves.
Context (R : S → S → Prop) `{!PreOrder R}.

Lemma moves_lift {A} (r : result E A) : moves R (lift r).
Proof. intros s r' s' [= _ <-]. reflexivity. Qed.
Lemma moves_gets {A} (g : S → A) : moves R (gets g).
Proof. intros s r' s' [= _ <-]. reflexivity. Qed.
Lemma moves_ret {A} (a : A) : moves R (mret a : stateR S E A).
Proof. intros s r' s' [= _ <-]. reflexivity. Qed.
Lemma moves_throw {A} (e : E) : moves R (throw e : stateR S E A).
Proof. intros s r' s' [= _ <-]. reflexivity. Qed.
Lemma moves_modify (g : S → S) : (∀ s, R s (g s)) → moves R (modify g).
Proof. intros Hg s r' s' [= _ <-]. apply Hg. Qed.
Lemma moves_bind {A B} (m : stateR S E A) (k : A → stateR S E B) :
  moves R m → (∀ a, moves R (k a)) → moves R (m ≫= k).
Proof.
  intros Hm Hk s r s' [(a & s1 & E1 & E2)|(e & E1 & _)]%bind_inv.
  - etransitivity; [by eapply Hm|by eapply Hk].
  - by eapply Hm.
Qed.
End moves.

(** Operations whose error paths leave the state as it was. *)
Definition err_frame {A} (m : stateR S E A) : Prop :=
  ∀ s e s', m s = (Err e, s') → s' = s.
Definition read_only {A} (m : stateR S E A) : Prop :=
  ∀ s r s', m s = (r, s') → s' = s.
Definition no_err {A} (m : stateR S E A) : Prop :=
  ∀ s, ∃ a s', m s = (Ok a, s').

Lemma read_only_lift {A} (r : result E A) : read_only (lift r).
Proof. by intros s r' s' [= _ ->]. Qed.
Lemma read_only_gets {A} (g : S → A) : read_only (gets g).
Proof. by intros s r' s' [= _ ->]. Qed.
Lemma read_only_throw {A} (e : E) : read_only (throw e : stateR S E A).
Proof. by intros s r' s' [= _ ->]. Qed.
Lemma read_only_err_frame {A} (m : stateR S E A) : read_only m → err_frame m.
Proof. intros Hm s e s' E'. by eapply Hm. Qed.
Lemma no_err_err_frame {A} (m : stateR S E A) : no_err m → err_frame m.
Proof. intros Hm s e s' E'. destruct (Hm s) as (a & s1 & E1). congruence. Qed.
Lemma no_err_modify (g : S → S) : no_err (modify g).
Proof. intros s. by exists tt, (g s). Qed.
Lemma no_err_ret {A} (a : A) : no_err (mret a : stateR S E A).
Proof. intros s. by exists a, s. Qed.
Lemma no_err_bind {A B} (m : stateR S E A) (k : A → stateR S E B) :
  no_err m → (∀ a, no_err (k a)) → no_err (m ≫= k).
Proof.
  intros Hm Hk s. destruct (Hm s) as (a & s1 & E1), (Hk a s1) as (b & s2 & E2).
  exists b, s2. unfold mbind, stateR_bind. by rewrite E1.
Qed.
Lemma err_frame_bind {A B} (m : stateR S E A) (k : A → stateR S E B) :
  read_only m → (∀ a, err_frame (k a)) → err_frame (m ≫= k).
Proof.
  intros Hm Hk s e s'. unfold mbind, stateR_bind.
  destruct (m s) as [[a|e'] s1] eqn:E1; apply Hm in E1 as ->.
  - apply Hk.
  - by intros [= _ ->].
Qed.
End stateR_laws.

(** ** Triples

    [triple P m Q X]: from a state in [P], [m] ends with a value in [Q] or with an error
    in [X]. *)

Definition triple {S E A} (P : S → Prop) (m : stateR S E A) (Q : A → S → Prop)
    (X : E → S → Prop) : Prop :=
  ∀ s, P s → match m s with (Ok a, s') => Q a s' | (Err e, s') => X e s' end.

Section triple.
Context {S E : Type} (X : E → S → Prop).

Lemma triple_ret {A} (a : A) (P : S → Prop) (Q : A → S → Prop) :
  (∀ s, P s → Q a s) → triple P (mret a) Q X.
Proof. intros HQ s Hs. by apply HQ. Qed.

Lemma triple_bind {A B} (P : S → Prop) (Q : A → S → Prop) (U : B → S → Prop)
    (m : stateR S E A) (k : A → stateR S E B) :
  triple P m Q X → (∀ a, triple (Q a) (k a) U X) → triple P (m ≫= k) U X.
Proof.
  intros Hm Hk s Hs. specialize (Hm s Hs). unfold mbind, stateR_bind.
  destruct (m s) as [[a|e] s']; [by apply Hk|done].
Qed.

Lemma triple_gets {A} (g : S → A) (P : S → Prop) :
  triple P (gets g) (λ a s, a = g s ∧ P s) X.
Proof. by intros s Hs. Qed.

Lemma triple_modify (g : S → S) (P : S → Prop) (Q : unit → S → Prop) :
  (∀ s, P s → Q tt (g s)) → triple P (modify g) Q X.
Proof. intros HQ s Hs. by apply HQ. Qed.

Lemma triple_throw {A} (e : E) (P : S → Prop) (Q : A → S → Prop) :
  (∀ s, P s → X e s) → triple P (throw e) Q X.
Proof. intros HX s Hs. by apply HX. Qed.

Lemma triple_lift {A} (r : result E A) (P : S → Prop) (Q : A → S → Prop) :
  (∀ s a, P s → r = Ok a → Q a s) → (∀ s e, P s → r = Err e → X e s) →
  triple P (lift r) Q X.
Proof. intros HQ HX s Hs. unfold lift. destruct r as [a|e]; [by apply HQ|by apply HX]. Qed.

Lemma triple_conseq {A} (P P' : S → Prop) (Q Q' : A → S → Prop) (m : stateR S E A) :
  triple P m Q X → (∀ s, P' s → P s) → (∀ a s, Q a s → Q' a s) → triple P' m Q' X.
Proof.
  intros Hm HP HQ s Hs. specialize (Hm s (HP s Hs)).
  destruct (m s) as [[a|e] s']; [by apply HQ|done].
Qed.

Lemma triple_pure {A} (P : S → Prop) (Q : A → S → Prop) (m : stateR S E A) :
  (∀ s, P s → triple (λ s', s' = s) m Q X) → triple P m Q X.
Proof. intros Hm s Hs. by apply (Hm s Hs s). Qed.
End triple.

Lemma triple_error {S E A} (P : S → Prop) (Q : A → S → Prop) (X X' : E → S → Prop)
    (m : stateR S E A) :
  triple P m Q X → (∀ e s, X e s → X' e s) → triple P m Q X'.
Proof.
  intros Hm HX s Hs. specialize (Hm s Hs). destruct (m s) as [[a|e] s']; [done|by apply HX].
Qed.

(** ** Machine integers

    Unsigned integers are [N]; their width shows in the operations that can
    overflow. *)
Abbreviation u64 := N (only parsing).
Abbreviation u32 := N (only parsing).
Abbreviation usize := N (only parsing).

Definition u64_max : N := 18446744073709551615.
Definition u32_max : N := 4294967295.

(** [u64::checked_add]; [usize] has the same width on the 64-bit targets. *)
Definition checked_add (a b : N) : option N :=
  if (a + b <=? u64_max)%N then Some (a + b)%N else None.

Definition saturating_add (a b : N) : N := N.min (a + b) u64_max.
Definition saturating_mul (a b : N) : N := N.min (a * b) u64_max.
Definition saturating_sub (a b : N) : N := (a - b)%N.

(** [u32::try_from]. *)
Definition u32_try_from (n : N) : option N :=
  if (n <=? u32_max)%N then Some n else None.

Lemma checked_add_Some a b c :
  checked_add a b = Some c ↔ c = (a + b)%N ∧ (a + b ≤ u64_max)%N.
Proof.
  unfold checked_add. destruct (N.leb_spec (a + b) u64_max); split;
    intros Hx; simplify_eq; try done; try (destruct Hx; subst; done); lia.
Qed.

Lemma checked_add_None a b : checked_add a b = None ↔ (u64_max < a + b)%N.
Proof. unfold checked_add. destruct (N.leb_spec (a + b) u64_max); split; (done || lia). Qed.

Lemma u32_try_from_Some n m : u32_try_from n = Some m ↔ m = n ∧ (n ≤ u32_max)%N.
Proof.
  unfold u32_try_from. destruct (N.leb_spec n u32_max); split;
    intros Hx; simplify_eq; try done; try (destruct Hx; subst; done); lia.
Qed.

(** A [Duration], in nanoseconds: a [u64] of seconds and the rest. *)
Abbreviation Duration := N (only parsing).
Definition DURATION_MAX : Duration := u64_max * 1000000000 + 999999999.
Definition from_millis (ms : u64) : Duration := ms * 1000000.
Definition from_secs (s : u64) : Duration := s * 1000000000.
Definition as_millis (d : Duration) : N := d / 1000000.
Definition duration_saturating_add (a b : Duration) : Duration := N.min (a + b) DURATION_MAX.
Definition duration_saturating_mul (a : Duration) (k : u32) : Duration :=
  N.min (a * k) DURATION_MAX.

(** ** Hints *)

(** [frame] proves that the error paths of an operation change nothing: reads and
    checks first, the writes last. *)
Create HintDb frame.
#[export] Hint Resolve read_only_lift read_only_gets read_only_throw
  no_err_modify no_err_ret : frame.
#[export] Hint Resolve no_err_bind err_frame_bind | 2 : frame.
#[export] Hint Resolve read_only_err_frame no_err_err_frame | 5 : frame.

(** [moves] finds its way through a composed operation; the primitives of a component
    are added to it with the component. *)
Create HintDb moves.
#[export] Hint Resolve moves_lift moves_gets moves_ret moves_throw : moves.

Ltac solve_moves :=
  repeat first [ apply moves_bind; [apply _| |intros ?]
               | solve [eauto with moves typeclass_instances]
               | case_match ].

Ltac solve_frame :=
  repeat first [ apply err_frame_bind; [by eauto with frame|intros ?]
               | case_match
               | solve [eauto 10 with frame] ].

(** Case analysis on every boolean test and match of the goal, in order. *)
Ltac case_all := repeat (case_match; simplify_eq/=; try done).
