(* ===== verification/Ordered.v ===== *)
(** * Ordered collections

    Total orders as a class, the stable sort behind [slice::sort] and
    [sort_by_key], and [BTreeMap] / [BTreeSet]: a map keyed in a total order whose
    iteration yields the keys in increasing order. *)

From S2P Require Import Prelude.

(** ** Total orders *)

Class TotalOrder (K : Type) := {
  leb : K → K → bool;
  leb_total : ∀ a b, leb a b = true ∨ leb b a = true;
  leb_trans : ∀ a b c, leb a b = true → leb b c = true → leb a c = true;
  leb_antisym : ∀ a b, leb a b = true → leb b a = true → a = b;
}.

Definition ltb {K} `{TotalOrder K} (a b : K) : bool := leb a b && negb (leb b a).

Lemma leb_refl {K} `{TotalOrder K} a : leb a a = true.
Proof. by destruct (leb_total a a). Qed.

Lemma leb_false {K} `{TotalOrder K} a b : leb a b = false → leb b a = true.
Proof. destruct (leb_total a b) as [E|E]; congruence. Qed.

#[export] Program Instance N_TotalOrder : TotalOrder N := {| leb := N.leb |}.
Next Obligation. intros a b. rewrite !N.leb_le. lia. Qed.
Next Obligation. intros a b c. rewrite !N.leb_le. lia. Qed.
Next Obligation. intros a b. rewrite !N.leb_le. lia. Qed.

(** ** Stable sort by key *)

Section sort.
Context {A K : Type} `{TotalOrder K} (key : A → K).

Fixpoint insert_by_key (x : A) (l : list A) : list A :=
  match l with
  | [] => [x]
  | y :: l' => if leb (key x) (key y) then x :: l else y :: insert_by_key x l'
  end.

Definition sort_by_key (l : list A) : list A := foldr insert_by_key [] l.

Definition key_le (x y : A) : Prop := leb (key x) (key y) = true.

Lemma insert_by_key_perm x l : insert_by_key x l ≡ₚ x :: l.
Proof.
  induction l as [|y l IH]; simpl; [done|].
  case_match; [done|]. rewrite IH. apply Permutation_swap.
Qed.

Lemma sort_by_key_perm l : sort_by_key l ≡ₚ l.
Proof. induction l as [|x l IH]; simpl; [done|]. by rewrite insert_by_key_perm, IH. Qed.

Lemma insert_by_key_sorted x l :
  StronglySorted key_le l → StronglySorted key_le (insert_by_key x l).
Proof.
  induction 1 as [|y l Hs IH Hy]; simpl; [by repeat constructor|].
  destruct (leb (key x) (key y)) eqn:E.
  - constructor; [by constructor|]. constructor; [done|].
    eapply Forall_impl; [apply Hy|]. intros z Hz. by eapply leb_trans.
  - constructor; [done|]. rewrite insert_by_key_perm. constructor; [|done].
    by apply leb_false.
Qed.

Lemma sort_by_key_sorted l : StronglySorted key_le (sort_by_key l).
Proof. induction l; simpl; [constructor|by apply insert_by_key_sorted]. Qed.

(** Sorting a sorted slice changes nothing. *)
Lemma sort_by_key_id l : StronglySorted key_le l → sort_by_key l = l.
Proof.
  induction 1 as [|x l Hs IH Hx]; simpl; [done|]. rewrite IH.
  destruct l as [|y l]; simpl; [done|].
  apply Forall_cons in Hx as [Hx _]. unfold key_le in Hx. by rewrite Hx.
Qed.

(** Elements with one key keep their relative order. *)
Lemma sort_by_key_stable `{EqDecision K} (k : K) l :
  filter (λ x, key x = k) (sort_by_key l) = filter (λ x, key x = k) l.
Proof.
  induction l as [|x l IH]; simpl; [done|].
  rewrite filter_cons, <- IH. clear IH. induction (sort_by_key l) as [|y s IH]; simpl.
  { by rewrite filter_cons. }
  destruct (leb (key x) (key y)) eqn:E; rewrite !filter_cons; [done|].
  rewrite IH. case_decide as Hx; case_decide as Hy; try done.
  exfalso. subst k. rewrite Hy, leb_refl in E. done.
Qed.

Lemma sorted_NoDup_unique l1 l2 :
  StronglySorted key_le l1 → StronglySorted key_le l2 →
  NoDup (key <$> l1) → l1 ≡ₚ l2 → l1 = l2.
Proof.
  intros Hs1. revert l2. induction Hs1 as [|x l1 Hs1 IH Hx]; intros l2 Hs2 Hnd Hp.
  { by apply Permutation_nil_l in Hp. }
  destruct Hs2 as [|y l2 Hs2 Hy].
  { by apply Permutation_nil_r in Hp. }
  apply NoDup_cons in Hnd as [Hnin Hnd].
  assert (x = y) as ->.
  { assert (Hxy : x ∈ y :: l2) by (rewrite <- Hp; left).
    assert (Hyx : y ∈ x :: l1) by (rewrite Hp; left).
    apply elem_of_cons in Hxy as [?|Hxy]; [done|].
    apply elem_of_cons in Hyx as [?|Hyx]; [done|].
    rewrite Forall_forall in Hx, Hy.
    destruct Hnin. apply list_elem_of_fmap. exists y. split; [|done].
    apply leb_antisym; [by apply Hx|by apply Hy]. }
  f_equal. apply IH; [done..|]. by apply Permutation_cons_inv in Hp.
Qed.

(** With distinct keys the sorted slice depends only on the multiset. *)
Lemma sort_by_key_det l1 l2 :
  NoDup (key <$> l1) → l1 ≡ₚ l2 → sort_by_key l1 = sort_by_key l2.
Proof.
  intros Hnd Hp. apply sorted_NoDup_unique.
  - apply sort_by_key_sorted.
  - apply sort_by_key_sorted.
  - by rewrite sort_by_key_perm.
  - by rewrite !sort_by_key_perm.
Qed.
End sort.

Arguments sort_by_key : simpl never.

(** [slice::sort] on values that are their own key. *)
Abbreviation sort := (sort_by_key id).

(** ** BTreeMap *)

Abbreviation btree K V := (gmap K V) (only parsing).

Section btree.
Context {K V : Type} `{Countable K, TotalOrder K}.

(** Iteration in key order. *)
Definition bt_iter (m : btree K V) : list (K * V) := sort_by_key fst (map_to_list m).
Definition bt_keys (m : btree K V) : list K := (bt_iter m).*1.
Definition bt_values (m : btree K V) : list V := (bt_iter m).*2.

(** [m.entry(k).or_default()] followed by an in-place update. *)
Definition bt_entry_update (dflt : V) (f : V → V) (k : K) (m : btree K V) : btree K V :=
  <[k := f (default dflt (m !! k))]> m.

Lemma elem_of_bt_iter m k v : (k, v) ∈ bt_iter m ↔ m !! k = Some v.
Proof. unfold bt_iter. rewrite sort_by_key_perm. apply elem_of_map_to_list. Qed.

Lemma elem_of_bt_keys m k : k ∈ bt_keys m ↔ is_Some (m !! k).
Proof.
  unfold bt_keys. rewrite list_elem_of_fmap. split.
  - intros ([k' v] & -> & Hin). apply elem_of_bt_iter in Hin. by exists v.
  - intros [v Hv]. exists (k, v). by rewrite elem_of_bt_iter.
Qed.

Lemma elem_of_bt_values m v : v ∈ bt_values m ↔ ∃ k, m !! k = Some v.
Proof.
  unfold bt_values. rewrite list_elem_of_fmap. split.
  - intros ([k v'] & -> & Hin). apply elem_of_bt_iter in Hin. by exists k.
  - intros [k Hv]. exists (k, v). by rewrite elem_of_bt_iter.
Qed.

Lemma bt_iter_sorted m : StronglySorted (key_le fst) (bt_iter m).
Proof. apply sort_by_key_sorted. Qed.

Lemma NoDup_bt_keys m : NoDup (bt_keys m).
Proof.
  unfold bt_keys, bt_iter. rewrite sort_by_key_perm. apply NoDup_fst_map_to_list.
Qed.

Lemma bt_iter_empty : bt_iter ∅ = [].
Proof. unfold bt_iter. by rewrite map_to_list_empty. Qed.

Lemma bt_iter_nil m : bt_iter m = [] ↔ m = ∅.
Proof.
  split; [|intros ->; apply bt_iter_empty]. intros Hm.
  apply map_to_list_empty_iff. apply Permutation_nil_r.
  by rewrite <- (sort_by_key_perm fst), <- Hm.
Qed.

Lemma bt_entry_update_eq d f k (m : btree K V) :
  bt_entry_update d f k m !! k = Some (f (default d (m !! k))).
Proof. apply lookup_insert_eq. Qed.

Lemma bt_entry_update_ne d f k k' (m : btree K V) :
  k ≠ k' → bt_entry_update d f k m !! k' = m !! k'.
Proof. apply lookup_insert_ne. Qed.

(** Over a finite key space the iteration is a scan of the keys in order. *)
Lemma bt_iter_scan (ks : list K) (m : btree K V) :
  StronglySorted (key_le id) ks → NoDup ks → (∀ k, k ∈ ks) →
  bt_iter m = omap (λ k, (k,.) <$> m !! k) ks.
Proof.
  intros Hs Hnd Hall.
  assert (∀ (l : list K) k v, (k, v) ∈ omap (λ k, (k,.) <$> m !! k) l ↔ k ∈ l ∧ m !! k = Some v) as Hin.
  { intros l k v. rewrite list_elem_of_omap. split.
    - intros (k' & Hk' & E). apply fmap_Some in E as (v' & Hv & [= -> ->]). done.
    - intros [Hk Hv]. exists k. split; [done|]. by rewrite Hv. }
  assert (NoDup (omap (λ k, (k,.) <$> m !! k) ks).*1) as Hkeys.
  { clear Hs Hall. induction Hnd as [|k l Hk Hnd IH]; csimpl; [constructor|].
    destruct (m !! k) as [v|] eqn:E; csimpl; [|done]. constructor; [|done].
    intros Hk'. apply list_elem_of_fmap in Hk' as ([k' v'] & -> & Hk').
    by apply Hin in Hk' as [? _]. }
  symmetry. apply (sorted_NoDup_unique fst); [|apply bt_iter_sorted|done|].
  - clear Hall Hin Hkeys. induction Hs as [|k l Hs IH Hk]; simpl; [constructor|].
    apply NoDup_cons in Hnd as [? Hnd].
    destruct (m !! k) as [v|]; simpl; [|by apply IH].
    constructor; [by apply IH|]. rewrite Forall_forall in Hk. apply Forall_forall.
    intros [k' v'] E. apply list_elem_of_omap in E as (k2 & Hk2 & E).
    apply fmap_Some in E as (v2 & _ & [= -> ->]). by apply Hk.
  - apply NoDup_Permutation.
    + by apply (NoDup_fmap_1 fst).
    + apply (NoDup_fmap_1 fst). apply NoDup_bt_keys.
    + intros [k v]. rewrite Hin, elem_of_bt_iter. naive_solver.
Qed.
End btree.
