(* ===== verification/Text.v ===== *)
(** * Text: the string operations of the Rust standard library the code uses

    A Rust [String] is its sequence of UTF-8 bytes, here [string]: byte order is
    [str]'s [Ord], and the operations below are the byte-level meaning of
    [trim().is_empty()], [to_ascii_lowercase], [replace], [split], [split_once],
    [rsplit_once], [contains], [to_string] and [parse] on unsigned integers. *)

From Stdlib Require Ascii.
Export (notations) Stdlib.Strings.Ascii.
From S2P Require Import Prelude Ordered.

Abbreviation ascii := Ascii.ascii.

Open Scope string_scope.
Open Scope list_scope.

Definition byte_of (c : ascii) : N := Ascii.N_of_ascii c.

Definition dash : ascii := "-"%char.
Definition comma : ascii := ","%char.

(** ** Order *)

Fixpoint str_leb (a b : string) : bool :=
  match a, b with
  | EmptyString, _ => true
  | String _ _, EmptyString => false
  | String x a', String y b' =>
      if (byte_of x <? byte_of y)%N then true
      else if (byte_of y <? byte_of x)%N then false
      else str_leb a' b'
  end.

Lemma byte_of_inj x y : byte_of x = byte_of y → x = y.
Proof.
  unfold byte_of. intros E. rewrite <- (Ascii.ascii_N_embedding x), E.
  apply Ascii.ascii_N_embedding.
Qed.

#[export] Program Instance string_TotalOrder : TotalOrder string := {| leb := str_leb |}.
Next Obligation.
  induction a as [|x a IH]; intros [|y b]; simpl; auto.
  destruct (N.ltb_spec (byte_of x) (byte_of y)), (N.ltb_spec (byte_of y) (byte_of x)); auto.
Qed.
Next Obligation.
  induction a as [|x a IH]; intros [|y b] [|z c]; simpl; try done.
  destruct (N.ltb_spec (byte_of x) (byte_of y)), (N.ltb_spec (byte_of y) (byte_of x)),
    (N.ltb_spec (byte_of y) (byte_of z)), (N.ltb_spec (byte_of z) (byte_of y)),
    (N.ltb_spec (byte_of x) (byte_of z)), (N.ltb_spec (byte_of z) (byte_of x));
    try done; try lia. apply IH.
Qed.
Next Obligation.
  induction a as [|x a IH]; intros [|y b]; simpl; try done.
  destruct (N.ltb_spec (byte_of x) (byte_of y)), (N.ltb_spec (byte_of y) (byte_of x));
    try done; try lia.
  intros ? ?. f_equal; [apply byte_of_inj; lia|by apply IH].
Qed.

(** ** Whitespace *)

(** The one-byte code points with the Unicode property [White_Space]. *)
Definition ascii_whitespace (c : ascii) : bool :=
  let b := byte_of c in ((9 <=? b) && (b <=? 13))%N || (b =? 32)%N.

(** The two- and three-byte ones: U+0085, U+00A0, U+1680, U+2000 to U+200A,
    U+2028, U+2029, U+202F, U+205F and U+3000. *)
Definition wide_whitespace2 (a b : ascii) : bool :=
  (byte_of a =? 194)%N && ((byte_of b =? 133)%N || (byte_of b =? 160)%N).

Definition wide_whitespace3 (a b c : ascii) : bool :=
  let x := byte_of a in let y := byte_of b in let z := byte_of c in
  ((x =? 225) && (y =? 154) && (z =? 128))%N
  || ((x =? 226) && (y =? 128) &&
       (((128 <=? z) && (z <=? 138)) || (z =? 168) || (z =? 169) || (z =? 175)))%N
  || ((x =? 226) && (y =? 129) && (z =? 159))%N
  || ((x =? 227) && (y =? 128) && (z =? 128))%N.

(** [s.trim().is_empty()]. *)
Fixpoint str_blank (s : string) : bool :=
  match s with
  | EmptyString => true
  | String a r1 =>
      if ascii_whitespace a then str_blank r1
      else match r1 with
           | EmptyString => false
           | String b r2 =>
               if wide_whitespace2 a b then str_blank r2
               else match r2 with
                    | EmptyString => false
                    | String c r3 => wide_whitespace3 a b c && str_blank r3
                    end
           end
  end.

(** ** Characters *)

Fixpoint str_map (f : ascii → ascii) (s : string) : string :=
  match s with
  | EmptyString => EmptyString
  | String c s' => String (f c) (str_map f s')
  end.

(** [to_ascii_lowercase]. *)
Definition ascii_lower (c : ascii) : ascii :=
  let b := byte_of c in
  if ((65 <=? b) && (b <=? 90))%N then Ascii.ascii_of_N (b + 32) else c.
Definition to_ascii_lowercase : string → string := str_map ascii_lower.

(** [s.replace(from, "x")] for a set of one-byte characters and one-byte target. *)
Definition replace_chars (from : list ascii) (to : ascii) : string → string :=
  str_map (λ c, if decide (c ∈ from) then to else c).

Fixpoint str_elem (c : ascii) (s : string) : bool :=
  match s with
  | EmptyString => false
  | String d s' => bool_decide (c = d) || str_elem c s'
  end.

(** ** Searching and splitting *)

(** [hay.contains(needle)]. *)
Fixpoint str_contains (needle hay : string) : bool :=
  String.prefix needle hay ||
  match hay with EmptyString => false | String _ hay' => str_contains needle hay' end.

(** [s.split_once(c)]: around the first occurrence. *)
Fixpoint split_once (c : ascii) (s : string) : option (string * string) :=
  match s with
  | EmptyString => None
  | String d s' =>
      if bool_decide (c = d) then Some (EmptyString, s')
      else match split_once c s' with
           | Some (l, r) => Some (String d l, r)
           | None => None
           end
  end.

(** [s.rsplit_once(c)]: around the last occurrence. *)
Fixpoint rsplit_once (c : ascii) (s : string) : option (string * string) :=
  match s with
  | EmptyString => None
  | String d s' =>
      match rsplit_once c s' with
      | Some (l, r) => Some (String d l, r)
      | None => if bool_decide (c = d) then Some (EmptyString, s') else None
      end
  end.

(** [s.split(c)]. *)
Fixpoint str_split (c : ascii) (s : string) : list string :=
  match s with
  | EmptyString => [EmptyString]
  | String d s' =>
      if bool_decide (c = d) then EmptyString :: str_split c s'
      else match str_split c s' with
           | p :: ps => String d p :: ps
           | [] => [String d EmptyString]
           end
  end.

(** [parts.join(sep)]. *)
Fixpoint str_join (sep : string) (l : list string) : string :=
  match l with
  | [] => ""
  | [x] => x
  | x :: l' => x +:+ sep +:+ str_join sep l'
  end.

Lemma str_elem_app c a b : str_elem c (a +:+ b) = str_elem c a || str_elem c b.
Proof. induction a as [|d a IH]; simpl; [done|]. by rewrite IH, orb_assoc. Qed.

Lemma split_once_app c a b :
  str_elem c a = false → split_once c (a +:+ String c b) = Some (a, b).
Proof.
  induction a as [|d a IH]; simpl.
  - by rewrite bool_decide_true.
  - intros [Hd Ha]%orb_false_iff. by rewrite Hd, IH.
Qed.

Lemma rsplit_once_None c b : str_elem c b = false → rsplit_once c b = None.
Proof.
  induction b as [|d b IH]; simpl; [done|].
  intros [Hd Hb]%orb_false_iff. by rewrite IH, Hd.
Qed.

Lemma rsplit_once_app c a b :
  str_elem c b = false → rsplit_once c (a +:+ String c b) = Some (a, b).
Proof.
  intros Hb. induction a as [|d a IH]; simpl.
  - by rewrite rsplit_once_None, bool_decide_true.
  - by rewrite IH.
Qed.

Lemma str_split_single c a : str_elem c a = false → str_split c a = [a].
Proof.
  induction a as [|d a IH]; simpl; [done|].
  intros [Hd Ha]%orb_false_iff. by rewrite Hd, IH.
Qed.

Lemma str_split_app c a b :
  str_elem c a = false → str_split c (a +:+ String c b) = a :: str_split c b.
Proof.
  induction a as [|d a IH]; simpl.
  - by rewrite bool_decide_true.
  - intros [Hd Ha]%orb_false_iff. by rewrite Hd, IH.
Qed.

(** Splitting undoes joining when no part holds the separator. *)
Lemma str_split_join c l :
  l ≠ [] → Forall (λ s, str_elem c s = false) l →
  str_split c (str_join (String c EmptyString) l) = l.
Proof.
  induction l as [|x [|y l] IH]; intros Hne Hall; [done| |].
  - apply Forall_cons in Hall as [Hx _]. by apply str_split_single.
  - apply Forall_cons in Hall as [Hx Hall].
    change (str_join _ (x :: y :: l)) with (x +:+ String c (str_join (String c "") (y :: l))).
    rewrite str_split_app by done. f_equal. by apply IH.
Qed.

Lemma str_app_cons x a b : String x a +:+ b = String x (a +:+ b).
Proof. done. Qed.

Lemma str_app_assoc a b c : (a +:+ b) +:+ c = a +:+ b +:+ c.
Proof. induction a as [|x a IH]; [done|]. by rewrite !str_app_cons, IH. Qed.

Lemma str_app_inj_l a b c : a +:+ b = a +:+ c → b = c.
Proof. induction a as [|x a IH]; [done|]. rewrite !str_app_cons. intros [= ?]. auto. Qed.

(** A [match] on string literals, tried in order. *)
Fixpoint str_match {A} (s : string) (table : list (string * A)) : option A :=
  match table with
  | [] => None
  | (p, a) :: t => if String.eqb s p then Some a else str_match s t
  end.

Lemma str_match_Some {A} s (table : list (string * A)) a :
  str_match s table = Some a → (s, a) ∈ table.
Proof.
  induction table as [|[p b] t IH]; simpl; [done|].
  destruct (String.eqb_spec s p) as [->|]; [intros [= ->]; left|right; auto].
Qed.

Lemma str_match_None {A} s (table : list (string * A)) :
  str_match s table = None ↔ s ∉ table.*1.
Proof.
  induction table as [|[p b] t IH]; csimpl; [set_solver|].
  rewrite not_elem_of_cons, <- IH. destruct (String.eqb_spec s p); naive_solver.
Qed.

(** ** Decimal *)

Definition digit_char (d : N) : ascii := Ascii.ascii_of_N (48 + d).

Definition digit_val (c : ascii) : option N :=
  let b := byte_of c in
  if ((48 <=? b) && (b <=? 57))%N then Some (b - 48)%N else None.

(** The digits of [n] in front of [acc]; [fuel] bounds their number. *)
Fixpoint dec_digits (fuel : nat) (n : N) (acc : string) : string :=
  match fuel with
  | O => acc
  | S fuel' =>
      let acc' := String (digit_char (n mod 10)) acc in
      if (n <? 10)%N then acc' else dec_digits fuel' (n / 10) acc'
  end.

(** [n.to_string()], and [{n}] in a format string: twenty digits hold any [u64]. *)
Definition u64_to_string (n : N) : string := dec_digits 20 n "".

(** The digit loop of [u64::from_str], which fails as soon as the value leaves
    the width. *)
Fixpoint parse_digits (acc : N) (s : string) : option N :=
  match s with
  | EmptyString => Some acc
  | String c s' =>
      match digit_val c with
      | None => None
      | Some d =>
          let v := (acc * 10 + d)%N in
          if (v <=? u64_max)%N then parse_digits v s' else None
      end
  end.

(** [s.parse::<u64>()]: an optional plus sign and at least one digit. *)
Definition parse_u64 (s : string) : option N :=
  match s with
  | EmptyString => None
  | String c r =>
      if bool_decide (c = "+"%char)
      then match r with EmptyString => None | _ => parse_digits 0 r end
      else parse_digits 0 s
  end.

(** The [Display] text of the [ParseIntError], for a text [parse_u64] refuses. *)
Fixpoint parse_digits_error (acc : N) (s : string) : string :=
  match s with
  | EmptyString => ""
  | String c s' =>
      match digit_val c with
      | None => "invalid digit found in string"
      | Some d =>
          let v := (acc * 10 + d)%N in
          if (v <=? u64_max)%N then parse_digits_error v s'
          else "number too large to fit in target type"
      end
  end.

Definition parse_u64_error (s : string) : string :=
  match s with
  | EmptyString => "cannot parse integer from empty string"
  | String c r =>
      if bool_decide (c = "+"%char)
      then match r with
           | EmptyString => "invalid digit found in string"
           | _ => parse_digits_error 0 r
           end
      else parse_digits_error 0 s
  end.

(** [s.parse::<u64>()] with its error text. *)
Definition parse_u64_result (s : string) : result string N :=
  match parse_u64 s with Some n => Ok n | None => Err (parse_u64_error s) end.

Lemma parse_u64_result_ok s n : parse_u64_result s = Ok n ↔ parse_u64 s = Some n.
Proof. unfold parse_u64_result. destruct (parse_u64 s); naive_solver. Qed.

Lemma digit_byte d : (d < 10)%N → byte_of (digit_char d) = (48 + d)%N.
Proof. intros Hd. unfold byte_of, digit_char. apply Ascii.N_ascii_embedding. lia. Qed.

Lemma digit_val_char d : (d < 10)%N → digit_val (digit_char d) = Some d.
Proof.
  intros Hd. unfold digit_val. rewrite digit_byte by done.
  destruct (N.leb_spec 48 (48 + d)), (N.leb_spec (48 + d) 57); simpl; try lia. f_equal. lia.
Qed.

Lemma parse_dec_digits fuel n acc :
  (n < 10 ^ N.of_nat fuel)%N → (n ≤ u64_max)%N →
  parse_digits 0 (dec_digits fuel n acc) = parse_digits n acc.
Proof.
  revert n acc. induction fuel as [|fuel IH]; intros n acc Hn Hmax.
  { change (10 ^ N.of_nat 0)%N with 1%N in Hn. simpl. f_equal. lia. }
  pose proof (N.div_mod n 10 ltac:(lia)) as Hdm.
  pose proof (N.mod_lt n 10 ltac:(lia)) as Hlt.
  cbn [dec_digits]. destruct (N.ltb_spec n 10) as [Hs|Hb].
  - cbn [parse_digits]. rewrite digit_val_char by done.
    rewrite N.mod_small by done. rewrite N.mul_0_l, N.add_0_l.
    by rewrite (proj2 (N.leb_le _ _) Hmax).
  - rewrite IH.
    + cbn [parse_digits]. rewrite digit_val_char by done.
      replace (n / 10 * 10 + n mod 10)%N with n by lia.
      by rewrite (proj2 (N.leb_le _ _) Hmax).
    + apply N.Div0.div_lt_upper_bound.
      replace (N.of_nat (S fuel)) with (N.succ (N.of_nat fuel)) in Hn by lia.
      by rewrite N.pow_succ_r' in Hn.
    + transitivity n; [|done]. apply N.Div0.div_le_upper_bound. lia.
Qed.

Lemma dec_digits_elem c fuel n acc :
  (byte_of c < 48 ∨ 57 < byte_of c)%N →
  str_elem c (dec_digits fuel n acc) = str_elem c acc.
Proof.
  intros Hc. revert n acc. induction fuel as [|fuel IH]; intros n acc; [done|].
  pose proof (N.mod_lt n 10 ltac:(lia)) as Hlt.
  assert (str_elem c (String (digit_char (n mod 10)) acc) = str_elem c acc) as Hd.
  { simpl. rewrite bool_decide_false; [done|].
    intros ->. rewrite digit_byte in Hc by done. pose proof (N.le_0_l (n mod 10)). lia. }
  cbn [dec_digits]. case_match; [done|]. by rewrite IH.
Qed.

Lemma dec_digits_head fuel n acc :
  ∃ d r, (d < 10)%N ∧ dec_digits (S fuel) n acc = String (digit_char d) r.
Proof.
  revert n acc. induction fuel as [|fuel IH]; intros n acc.
  - pose proof (N.mod_lt n 10 ltac:(lia)). simpl. case_match; by eauto.
  - cbn [dec_digits]. case_match; [|apply IH].
    pose proof (N.mod_lt n 10 ltac:(lia)). by eauto.
Qed.

Lemma u64_to_string_head n :
  ∃ d r, (d < 10)%N ∧ u64_to_string n = String (digit_char d) r.
Proof. apply dec_digits_head. Qed.

(** A decimal text holds no separator of the wire formats. *)
Lemma u64_to_string_no c n :
  (byte_of c < 48 ∨ 57 < byte_of c)%N → str_elem c (u64_to_string n) = false.
Proof. intros Hc. unfold u64_to_string. by rewrite dec_digits_elem. Qed.

(** Parsing undoes printing on the whole width. *)
Lemma parse_u64_to_string n :
  (n ≤ u64_max)%N → parse_u64 (u64_to_string n) = Some n.
Proof.
  intros Hn. destruct (u64_to_string_head n) as (d & r & Hd & Heq).
  unfold parse_u64. rewrite Heq. rewrite bool_decide_false.
  - rewrite <- Heq. unfold u64_to_string. rewrite parse_dec_digits; [done| |done].
    eapply N.le_lt_trans; [apply Hn|done].
  - intros E. apply (f_equal byte_of) in E. rewrite digit_byte in E by done.
    change (byte_of "+") with 43%N in E. lia.
Qed.

Lemma u64_to_string_inj n m :
  (n ≤ u64_max)%N → (m ≤ u64_max)%N → u64_to_string n = u64_to_string m → n = m.
Proof.
  intros Hn Hm E. apply (f_equal parse_u64) in E.
  rewrite !parse_u64_to_string in E by done. by injection E.
Qed.

Lemma digit_not_blank d s : (d < 10)%N → str_blank (String (digit_char d) s) = false.
Proof.
  intros Hd. assert (48 ≤ byte_of (digit_char d) ∧ byte_of (digit_char d) ≤ 57)%N as Hb.
  { rewrite digit_byte by done. lia. }
  generalize dependent (digit_char d). intros c Hb. simpl.
  assert (ascii_whitespace c = false) as ->.
  { unfold ascii_whitespace. destruct (N.leb_spec 9 (byte_of c)), (N.leb_spec (byte_of c) 13),
      (N.eqb_spec (byte_of c) 32); simpl; (done || lia). }
  destruct s as [|b s]; [done|].
  assert (wide_whitespace2 c b = false) as ->.
  { unfold wide_whitespace2. destruct (N.eqb_spec (byte_of c) 194); simpl; (done || lia). }
  destruct s as [|x s]; [done|].
  unfold wide_whitespace3.
  rewrite (proj2 (N.eqb_neq (byte_of c) 225)), (proj2 (N.eqb_neq (byte_of c) 226)),
    (proj2 (N.eqb_neq (byte_of c) 227)) by lia. done.
Qed.

Lemma u64_to_string_not_blank n : str_blank (u64_to_string n) = false.
Proof. destruct (u64_to_string_head n) as (d & r & Hd & ->). by apply digit_not_blank. Qed.

Lemma parse_digits_bound acc s n :
  (acc ≤ u64_max)%N → parse_digits acc s = Some n → (n ≤ u64_max)%N.
Proof.
  revert acc. induction s as [|c s IH]; intros acc Ha Hp; cbn [parse_digits] in Hp.
  { by injection Hp as <-. }
  destruct (digit_val c) as [d|]; [|done]. cbv zeta in Hp.
  destruct (N.leb_spec (acc * 10 + d) u64_max); [|done]. by eapply IH.
Qed.

Lemma parse_u64_max s n : parse_u64 s = Some n → (n ≤ u64_max)%N.
Proof.
  unfold parse_u64. destruct s as [|c r]; [done|]. case_bool_decide.
  - destruct r; [done|]. apply parse_digits_bound. lia.
  - apply parse_digits_bound. lia.
Qed.

(** ** Occurrences across a concatenation *)

Lemma str_contains_app_r needle u s :
  str_contains needle s = true → str_contains needle (u +:+ s) = true.
Proof.
  intros Hs. induction u as [|c u IH]; [done|]. rewrite str_app_cons. cbn [str_contains].
  by rewrite IH, orb_true_r.
Qed.

(** [needle] differs from [u] before either ends. *)
Fixpoint misfit (needle u : string) : bool :=
  match needle, u with
  | String a needle', String b u' => if bool_decide (a = b) then misfit needle' u' else true
  | _, _ => false
  end.
(** No occurrence of [needle] starts in [u], whatever follows. *)
Fixpoint never_starts (needle u : string) : bool :=
  match u with
  | EmptyString => true
  | String _ u' => misfit needle u && never_starts needle u'
  end.

Lemma misfit_prefix needle u s : misfit needle u = true → String.prefix needle (u +:+ s) = false.
Proof.
  revert u. induction needle as [|a needle IH]; intros [|b u] Hm; try done.
  rewrite str_app_cons. cbn [misfit String.prefix] in *.
  case_bool_decide as E; destruct (Ascii.ascii_dec a b); try done. by apply IH.
Qed.

Lemma str_contains_skip needle u s :
  never_starts needle u = true → str_contains needle (u +:+ s) = str_contains needle s.
Proof.
  induction u as [|c u IH]; [done|]. cbn [never_starts]. intros [Hm Hu]%andb_true_iff.
  apply (misfit_prefix _ _ s) in Hm. rewrite str_app_cons in *. cbn [str_contains].
  rewrite Hm, orb_false_l. by apply IH.
Qed.
