(* ===== verification/Protocol.v ===== *)
(** * Protocol kinds and the Tycho types the code reads

    [simulator-core/src/models/protocol.rs]: the enumeration of protocols, its
    three name tables and the name normalisation.  The types of the
    [tycho-simulation] crates are the class [TychoTypes]. *)

From S2P Require Import Prelude Ordered Text.

(** ** The Tycho crates

    What the code reads of the third-party types, and nothing else: a component
    has two protocol names, a block header the six fields copied by
    [BroadcasterBlockRef::from] and a [block_number_or_timestamp], a state message
    a header.  The simulation states are opaque. *)
Abbreviation Bytes := string.

Class TychoTypes := {
  ProtocolComponent : Type;
  protocol_system : ProtocolComponent → string;
  protocol_type_name : ProtocolComponent → string;
  ProtocolSim : Type;
  BlockHeader : Type;
  bh_hash : BlockHeader → Bytes;
  bh_number : BlockHeader → u64;
  bh_parent_hash : BlockHeader → Bytes;
  bh_revert : BlockHeader → bool;
  bh_timestamp : BlockHeader → u64;
  bh_partial_block_index : BlockHeader → option u32;
  block_number_or_timestamp : BlockHeader → u64;
  StateSyncMessage : Type;
  ssm_header : StateSyncMessage → BlockHeader;
}.

(** [SynchronizerState], matched exhaustively by the code. *)
Inductive SynchronizerState `{TychoTypes} : Type :=
| SyncStarted
| SyncReady (header : BlockHeader)
| SyncDelayed (header : BlockHeader)
| SyncStale (header : BlockHeader)
| SyncAdvanced (header : BlockHeader)
| SyncEnded (reason : string).

(** A concrete instance, for the witnesses: headers are records, states are
    numbers, components are pairs of names. *)
Record DemoHeader := {
  demo_hash : string;
  demo_number : N;
  demo_partial : option N;
}.

Definition demo_tycho : TychoTypes := {|
  ProtocolComponent := string * string;
  protocol_system := fst;
  protocol_type_name := snd;
  ProtocolSim := N;
  BlockHeader := DemoHeader;
  bh_hash := demo_hash;
  bh_number := demo_number;
  bh_parent_hash := λ _, "";
  bh_revert := λ _, false;
  bh_timestamp := λ h, (12 * demo_number h)%N;
  bh_partial_block_index := demo_partial;
  block_number_or_timestamp := demo_number;
  StateSyncMessage := DemoHeader;
  ssm_header := id;
|}.

(** ** Protocol kinds *)

Inductive ProtocolKind :=
| UniswapV2
| UniswapV3
| UniswapV4
| AerodromeSlipstreams
| Curve
| PancakeswapV2
| PancakeswapV3
| EkuboV2
| SushiswapV2
| MaverickV2
| BalancerV2
| FluidV1
| Rocketpool
| EkuboV3
| ERC4626
| Hashflow
| Bebop
| Liquorice.

#[export] Instance ProtocolKind_eq_dec : EqDecision ProtocolKind.
Proof. solve_decision. Defined.

Definition ProtocolKind_ALL : list ProtocolKind :=
  [UniswapV2; UniswapV3; UniswapV4; AerodromeSlipstreams; Curve; PancakeswapV2;
   PancakeswapV3; EkuboV2; SushiswapV2; MaverickV2; BalancerV2; FluidV1; Rocketpool;
   EkuboV3; ERC4626; Hashflow; Bebop; Liquorice].

Definition ProtocolKind_as_str (kind : ProtocolKind) : string :=
  match kind with
  | UniswapV2 => "uniswap_v2"
  | UniswapV3 => "uniswap_v3"
  | UniswapV4 => "uniswap_v4"
  | AerodromeSlipstreams => "aerodrome_slipstreams"
  | Curve => "vm:curve"
  | PancakeswapV2 => "pancakeswap_v2"
  | PancakeswapV3 => "pancakeswap_v3"
  | EkuboV2 => "ekubo_v2"
  | SushiswapV2 => "sushiswap_v2"
  | MaverickV2 => "vm:maverick_v2"
  | BalancerV2 => "vm:balancer_v2"
  | FluidV1 => "fluid_v1"
  | Rocketpool => "rocketpool"
  | EkuboV3 => "ekubo_v3"
  | ERC4626 => "erc4626"
  | Hashflow => "rfq:hashflow"
  | Bebop => "rfq:bebop"
  | Liquorice => "rfq:liquorice"
  end.

Definition normalize_proto_name (name : string) : string :=
  replace_chars ["-"; " "]%char "_" (to_ascii_lowercase name).

Definition from_protocol_type_name (name : string) : option ProtocolKind :=
  str_match name
    [("uniswap_v2_pool", UniswapV2);
     ("sushiswap_v2_pool", SushiswapV2);
     ("pancakeswap_v2_pool", PancakeswapV2);
     ("uniswap_v3_pool", UniswapV3);
     ("pancakeswap_v3_pool", PancakeswapV3);
     ("uniswap_v4_pool", UniswapV4);
     ("ekubo_v2_pool", EkuboV2);
     ("ekubo_v3_pool", EkuboV3);
     ("fluid_dex_pool", FluidV1);
     ("curve_pool", Curve);
     ("balancer_v2_pool", BalancerV2);
     ("maverick_v2_pool", MaverickV2);
     ("erc4626_pool", ERC4626);
     ("hashflow_pool", Hashflow);
     ("bebop_pool", Bebop);
     ("liquorice_pool", Liquorice)].

Definition from_protocol_system (name : string) : option ProtocolKind :=
  str_match name
    [("uniswap_v2", UniswapV2);
     ("sushiswap_v2", SushiswapV2);
     ("pancakeswap_v2", PancakeswapV2);
     ("uniswap_v3", UniswapV3);
     ("pancakeswap_v3", PancakeswapV3);
     ("uniswap_v4", UniswapV4);
     ("aerodrome_slipstreams", AerodromeSlipstreams);
     ("ekubo_v2", EkuboV2);
     ("ekubo_v3", EkuboV3);
     ("fluid_v1", FluidV1);
     ("rocketpool", Rocketpool);
     ("vm:curve", Curve);
     ("vm:balancer_v2", BalancerV2);
     ("vm:maverick_v2", MaverickV2);
     ("erc4626", ERC4626);
     ("rfq:hashflow", Hashflow);
     ("rfq:bebop", Bebop);
     ("rfq:liquorice", Liquorice)].

Definition ProtocolKind_from_component `{TychoTypes} (component : ProtocolComponent) :
    option ProtocolKind :=
  let system_name := normalize_proto_name (protocol_system component) in
  match from_protocol_system system_name with
  | Some kind => Some kind
  | None =>
      let type_name := normalize_proto_name (protocol_type_name component) in
      from_protocol_type_name type_name
  end.

Definition ProtocolKind_from_sync_state_key (protocol : string) : option ProtocolKind :=
  from_protocol_system (normalize_proto_name protocol).

Definition ProtocolKind_from_protocol_hint (protocol : string) : option ProtocolKind :=
  let name := normalize_proto_name protocol in
  match from_protocol_system name with
  | Some kind => Some kind
  | None => from_protocol_type_name name
  end.

(** ** Lemmas *)

(** The name table inverts [as_str]: a system name is recognised exactly when it
    is the canonical name of the kind. *)
Lemma from_protocol_system_iff name kind :
  from_protocol_system name = Some kind ↔ name = ProtocolKind_as_str kind.
Proof.
  split; [|intros ->; by destruct kind].
  intros E%str_match_Some. rewrite list_elem_of_In in E. simpl in E.
  repeat destruct E as [[= <- <-]|E]; done.
Qed.

Lemma ascii_lower_idem c : ascii_lower (ascii_lower c) = ascii_lower c.
Proof. by destruct c as [[] [] [] [] [] [] [] []]. Qed.

Lemma str_map_map f g s : str_map f (str_map g s) = str_map (λ c, f (g c)) s.
Proof. induction s; simpl; congruence. Qed.

Lemma str_map_ext f g s : (∀ c, f c = g c) → str_map f s = str_map g s.
Proof. intros E. induction s; simpl; congruence. Qed.

Lemma normalize_proto_name_idem name :
  normalize_proto_name (normalize_proto_name name) = normalize_proto_name name.
Proof.
  unfold normalize_proto_name, replace_chars, to_ascii_lowercase. rewrite !str_map_map.
  apply str_map_ext. intros c. by destruct c as [[] [] [] [] [] [] [] []].
Qed.

Lemma as_str_normal kind :
  normalize_proto_name (ProtocolKind_as_str kind) = ProtocolKind_as_str kind.
Proof. by destruct kind. Qed.

Lemma from_sync_state_key_normalize name :
  ProtocolKind_from_sync_state_key (normalize_proto_name name) =
  ProtocolKind_from_sync_state_key name.
Proof. unfold ProtocolKind_from_sync_state_key. by rewrite normalize_proto_name_idem. Qed.

Lemma from_sync_state_key_as_str kind :
  ProtocolKind_from_sync_state_key (ProtocolKind_as_str kind) = Some kind.
Proof.
  unfold ProtocolKind_from_sync_state_key.
  by rewrite as_str_normal, from_protocol_system_iff.
Qed.

(** ** Properties *)

(** A synchronisation key names a protocol exactly when, normalised, it is that
    protocol's canonical name, so every kind has one name and no name two kinds. *)
Lemma sync_state_key_iff name kind :
  ProtocolKind_from_sync_state_key name = Some kind ↔
  normalize_proto_name name = ProtocolKind_as_str kind.
Proof. apply from_protocol_system_iff. Qed.
