(* ===== verification/Wire.v ===== *)
(** * The broadcaster wire contract: data

    [simulator-core/src/broadcaster.rs]: backends, message kinds, payloads,
    envelopes and the contract errors with their texts.  Rust structs are records
    whose fields carry a short prefix for the struct. *)

From S2P Require Import Prelude Ordered Text Protocol.

(** ** Backends *)

Inductive BroadcasterBackend := Native | Vm | Rfq.

#[export] Instance BroadcasterBackend_eq_dec : EqDecision BroadcasterBackend.
Proof. solve_decision. Defined.

(** The derived [Ord]: declaration order. *)
Definition BroadcasterBackend_rank (b : BroadcasterBackend) : N :=
  match b with Native => 0 | Vm => 1 | Rfq => 2 end.

#[export] Instance BroadcasterBackend_order : TotalOrder BroadcasterBackend.
Proof.
  refine {| leb a b := N.leb (BroadcasterBackend_rank a) (BroadcasterBackend_rank b) |}.
  - intros [] []; auto.
  - by intros [] [] [].
  - by intros [] [].
Defined.

#[export] Instance BroadcasterBackend_countable : Countable BroadcasterBackend.
Proof.
  refine {| encode b := match b with Native => 1 | Vm => 2 | Rfq => 3 end%positive;
            decode p := match p with
                        | 1 => Some Native | 2 => Some Vm | _ => Some Rfq
                        end%positive |}.
  by intros [].
Defined.

Definition BroadcasterBackend_as_str (b : BroadcasterBackend) : string :=
  match b with Native => "native" | Vm => "vm" | Rfq => "rfq" end.

(** [{backend:?}]. *)
Definition BroadcasterBackend_debug (b : BroadcasterBackend) : string :=
  match b with Native => "Native" | Vm => "Vm" | Rfq => "Rfq" end.

(** ** Message kinds *)

Inductive BroadcasterMessageKind :=
| KSnapshotStart
| KSnapshotChunk
| KSnapshotEnd
| KRecoveryStart
| KRecoveryChunk
| KRecoveryCatchUp
| KRecoveryCommit
| KUpdate
| KHeartbeat
| KProgress.

#[export] Instance BroadcasterMessageKind_eq_dec : EqDecision BroadcasterMessageKind.
Proof. solve_decision. Defined.

Definition BroadcasterMessageKind_as_str (k : BroadcasterMessageKind) : string :=
  match k with
  | KSnapshotStart => "snapshot_start"
  | KSnapshotChunk => "snapshot_chunk"
  | KSnapshotEnd => "snapshot_end"
  | KRecoveryStart => "recovery_start"
  | KRecoveryChunk => "recovery_chunk"
  | KRecoveryCatchUp => "recovery_catch_up"
  | KRecoveryCommit => "recovery_commit"
  | KUpdate => "update"
  | KHeartbeat => "heartbeat"
  | KProgress => "progress"
  end.

(** ** Synchronisation status *)

Inductive BroadcasterProtocolSyncStatusKind :=
| StatusStarted | StatusReady | StatusDelayed | StatusStale | StatusAdvanced | StatusEnded.

#[export] Instance BroadcasterProtocolSyncStatusKind_eq_dec :
  EqDecision BroadcasterProtocolSyncStatusKind.
Proof. solve_decision. Defined.

Record BroadcasterBlockRef := {
  br_hash : Bytes;
  br_number : u64;
  br_parent_hash : Bytes;
  br_revert : bool;
  br_timestamp : u64;
  br_partial_block_index : option u32;
}.

Record BroadcasterProtocolSyncStatus := {
  sst_kind : BroadcasterProtocolSyncStatusKind;
  sst_block : option BroadcasterBlockRef;
  sst_reason : option string;
}.

Section wire.
Context `{TychoTypes}.

Definition BroadcasterBlockRef_from (block : BlockHeader) : BroadcasterBlockRef := {|
  br_hash := bh_hash block;
  br_number := bh_number block;
  br_parent_hash := bh_parent_hash block;
  br_revert := bh_revert block;
  br_timestamp := bh_timestamp block;
  br_partial_block_index := bh_partial_block_index block;
|}.

Definition from_synchronizer_state (state : SynchronizerState) :
    BroadcasterProtocolSyncStatus :=
  match state with
  | SyncStarted =>
      {| sst_kind := StatusStarted; sst_block := None; sst_reason := None |}
  | SyncReady block =>
      {| sst_kind := StatusReady; sst_block := Some (BroadcasterBlockRef_from block);
         sst_reason := None |}
  | SyncDelayed block =>
      {| sst_kind := StatusDelayed; sst_block := Some (BroadcasterBlockRef_from block);
         sst_reason := None |}
  | SyncStale block =>
      {| sst_kind := StatusStale; sst_block := Some (BroadcasterBlockRef_from block);
         sst_reason := None |}
  | SyncAdvanced block =>
      {| sst_kind := StatusAdvanced; sst_block := Some (BroadcasterBlockRef_from block);
         sst_reason := None |}
  | SyncEnded reason =>
      {| sst_kind := StatusEnded; sst_block := None; sst_reason := Some reason |}
  end.

(** ** Entries *)

Record BroadcasterStateEntry := {
  se_component_id : string;
  se_component : ProtocolComponent;
  se_state : ProtocolSim;
}.

Record BroadcasterStateDelta := {
  sd_component_id : string;
  sd_backend : BroadcasterBackend;
  sd_state : ProtocolSim;
}.

Record BroadcasterRemovedPair := {
  rp_component_id : string;
  rp_component : ProtocolComponent;
}.

Record BroadcasterProtocolMessage := {
  pm_protocol : string;
  pm_sync_state : SynchronizerState;
  pm_message : StateSyncMessage;
}.

Record BroadcasterBackendHead := {
  bh_backend : BroadcasterBackend;
  bh_block_number : u64;
}.

(** ** Partitions *)

Record BroadcasterSnapshotPartition := {
  sp_backend : BroadcasterBackend;
  sp_block_number : u64;
  sp_messages : list BroadcasterProtocolMessage;
  sp_states : list BroadcasterStateEntry;
  sp_sync_statuses : btree string BroadcasterProtocolSyncStatus;
}.

Record BroadcasterUpdatePartition := {
  up_backend : BroadcasterBackend;
  up_block_number : u64;
  up_messages : list BroadcasterProtocolMessage;
  up_new_pairs : list BroadcasterStateEntry;
  up_updated_states : list BroadcasterStateDelta;
  up_removed_pairs : list BroadcasterRemovedPair;
  up_sync_statuses : btree string BroadcasterProtocolSyncStatus;
}.

(** ** Payloads *)

Record BroadcasterSnapshotStart := {
  ss_snapshot_id : string;
  ss_chain_id : u64;
  ss_backends : list BroadcasterBackend;
  ss_total_chunks : u32;
}.

Record BroadcasterSnapshotChunk := {
  sc_snapshot_id : string;
  sc_chunk_index : u32;
  sc_partitions : list BroadcasterSnapshotPartition;
}.

Record BroadcasterSnapshotEnd := { sn_snapshot_id : string }.

Record BroadcasterRecoveryManifest := {
  rm_recovery_id : string;
  rm_target_state_version : u64;
  rm_backends : list BroadcasterBackend;
  rm_chunk_count : u32;
  rm_replacement_encoded_bytes : u64;
  rm_chunk_encoded_bytes : list u64;
  rm_chunk_digests : list string;
  rm_replacement_digest : string;
  rm_buffer_a_count : u32;
  rm_commit_watermark : u64;
}.

Record BroadcasterRecoveryStart := { rs_manifest : BroadcasterRecoveryManifest }.

Record BroadcasterRecoveryChunk := {
  rc_recovery_id : string;
  rc_target_state_version : u64;
  rc_backends : list BroadcasterBackend;
  rc_chunk_index : u32;
  rc_encoded_bytes : u64;
  rc_digest : string;
  rc_payload_fragment : string;
}.

Record BroadcasterUpdateMessage := { um_partitions : list BroadcasterUpdatePartition }.

Record BroadcasterRecoveryCatchUp := {
  cu_recovery_id : string;
  cu_target_state_version : u64;
  cu_block_index : u32;
  cu_update : BroadcasterUpdateMessage;
}.

Record BroadcasterRecoveryCommit := {
  rt_recovery_id : string;
  rt_target_state_version : u64;
  rt_backends : list BroadcasterBackend;
  rt_replacement_digest : string;
  rt_buffer_a_count : u32;
  rt_commit_watermark : u64;
}.

Record BroadcasterHeartbeat := {
  hb_chain_id : u64;
  hb_snapshot_id : string;
  hb_backend_heads : list BroadcasterBackendHead;
}.

Record BroadcasterProgress := {
  pg_chain_id : u64;
  pg_snapshot_id : string;
  pg_backends : list BroadcasterBackend;
  pg_reason : string;
}.

Inductive BroadcasterPayload :=
| SnapshotStart (start : BroadcasterSnapshotStart)
| SnapshotChunk (chunk : BroadcasterSnapshotChunk)
| SnapshotEnd (end_ : BroadcasterSnapshotEnd)
| RecoveryStart (start : BroadcasterRecoveryStart)
| RecoveryChunk (chunk : BroadcasterRecoveryChunk)
| RecoveryCatchUp (catch_up : BroadcasterRecoveryCatchUp)
| RecoveryCommit (commit : BroadcasterRecoveryCommit)
| Update (update : BroadcasterUpdateMessage)
| Heartbeat (heartbeat : BroadcasterHeartbeat)
| Progress (progress : BroadcasterProgress).

Definition BroadcasterPayload_kind (payload : BroadcasterPayload) : BroadcasterMessageKind :=
  match payload with
  | SnapshotStart _ => KSnapshotStart
  | SnapshotChunk _ => KSnapshotChunk
  | SnapshotEnd _ => KSnapshotEnd
  | RecoveryStart _ => KRecoveryStart
  | RecoveryChunk _ => KRecoveryChunk
  | RecoveryCatchUp _ => KRecoveryCatchUp
  | RecoveryCommit _ => KRecoveryCommit
  | Update _ => KUpdate
  | Heartbeat _ => KHeartbeat
  | Progress _ => KProgress
  end.

Record BroadcasterEnvelope := {
  env_stream_id : string;
  env_message_seq : u64;
  env_payload : BroadcasterPayload;
}.

Definition BroadcasterEnvelope_kind (envelope : BroadcasterEnvelope) :
    BroadcasterMessageKind :=
  BroadcasterPayload_kind (env_payload envelope).
End wire.

(** ** Contract errors *)

Inductive BroadcasterContractError :=
| ExpectedSnapshotStart (found : BroadcasterMessageKind)
| UnexpectedStreamId (expected found : string)
| UnexpectedChainId (expected found : u64)
| UnexpectedMessageSeq (expected found : u64)
| MessageSequenceOverflow (message_seq : u64)
| UnexpectedSnapshotStart (state : string)
| UnexpectedSnapshotChunk
| UnexpectedSnapshotEnd
| UnexpectedRecoveryMessage (kind : BroadcasterMessageKind)
| UnexpectedSnapshotId (expected found : string)
| UnexpectedChunkIndex (expected found : u32)
| ExtraSnapshotChunk (total_chunks found : u32)
| SnapshotIncomplete (expected_chunks observed_chunks : u32)
| MissingDeclaredSnapshotBackends (missing : list BroadcasterBackend)
| UpdateBeforeSnapshotComplete
| HeartbeatBeforeSnapshotComplete
| ProgressBeforeSnapshotComplete
| RedisReplayBoundaryBeforeSnapshotComplete (state : string)
| EmptyUpdate
| ProgressReasonEmpty
| RecoveryManifestInvalid (reason : string)
| EmptyUpdatePartition (backend : BroadcasterBackend)
| DuplicateBackendEntry (context : string) (backend : BroadcasterBackend)
| UndeclaredBackendEntry (context : string) (backend : BroadcasterBackend)
| NewPairMissingState (component_id : string)
| UnknownComponentProtocol (component_id : string)
| UnsupportedComponentProtocol (component_id protocol : string)
| StateBackendMissing (component_id : string)
| UnknownSyncStateProtocol (protocol : string)
| UnsupportedSyncStateProtocol (protocol : string)
| PartitionContentBackendMismatch (context entry : string)
    (partition_backend entry_backend : BroadcasterBackend)
| RedisEntryEmptyField (field : string)
| RedisEntryUnexpectedField (field : string)
| RedisUnsupportedSchemaVersion (found : string)
| RedisEntryMissingSnapshotId (kind : BroadcasterMessageKind)
| RedisMessageSequenceZero
| RedisSnapshotPayloadUnsupported (kind : BroadcasterMessageKind)
| RedisBackendScopeInvalid (backend_scope : string)
| RedisPayloadJsonInvalid (message : string)
| RedisPayloadKindMismatch (expected found : BroadcasterMessageKind)
| RedisBlockNumberMismatch (entry_block_number payload_block_number : u64)
| RedisObservedTimestampMismatch
    (entry_observed_timestamp_ms payload_observed_timestamp_ms : u64)
| InvalidRedisEntryId (entry_id : string)
| TokenChainMismatch (expected actual : u64).

#[export] Instance BroadcasterContractError_eq_dec : EqDecision BroadcasterContractError.
Proof. solve_decision. Defined.

Abbreviation contract := (result BroadcasterContractError).

(** ** Error texts: [impl Display for BroadcasterContractError] *)

Definition fmt_unexpected_message_seq (expected found : u64) : string :=
  "unexpected message sequence: expected " +:+ u64_to_string expected
    +:+ ", found " +:+ u64_to_string found.

Definition fmt_unexpected_snapshot_id (expected found : string) : string :=
  "unexpected snapshot id: expected " +:+ expected +:+ ", found " +:+ found.

Definition fmt_unexpected_chunk_index (expected found : u32) : string :=
  "unexpected snapshot chunk index: expected " +:+ u64_to_string expected
    +:+ ", found " +:+ u64_to_string found.

Definition fmt_snapshot_incomplete (expected_chunks observed_chunks : u32) : string :=
  "snapshot incomplete: expected " +:+ u64_to_string expected_chunks
    +:+ " chunks, observed " +:+ u64_to_string observed_chunks.

Definition fmt_unsupported_component_protocol (component_id protocol : string) : string :=
  "component " +:+ component_id +:+ " uses unsupported broadcaster protocol " +:+ protocol.

Definition fmt_missing_declared_snapshot_backends (missing : list BroadcasterBackend) :
    string :=
  "snapshot is missing declared backends: "
    +:+ str_join ", " (map BroadcasterBackend_as_str missing).

Definition fmt_duplicate_backend_entry (context : string) (backend : BroadcasterBackend) :
    string :=
  "duplicate backend entry " +:+ BroadcasterBackend_debug backend +:+ " in " +:+ context.

Definition fmt_undeclared_backend_entry (context : string) (backend : BroadcasterBackend) :
    string :=
  "backend entry " +:+ BroadcasterBackend_debug backend +:+ " in " +:+ context
    +:+ " was not declared in snapshot_start.backends".

Definition fmt_partition_content_backend_mismatch (context entry : string)
    (partition_backend entry_backend : BroadcasterBackend) : string :=
  context +:+ " entry " +:+ entry +:+ " belongs to "
    +:+ BroadcasterBackend_debug entry_backend +:+ " but partition backend is "
    +:+ BroadcasterBackend_debug partition_backend.

Definition fmt_unknown_component_protocol (component_id : string) : string :=
  "component " +:+ component_id +:+ " could not be classified for the broadcaster".

Definition fmt_state_backend_missing (component_id : string) : string :=
  "state " +:+ component_id +:+ " is missing a known broadcaster backend".

Definition fmt_unknown_sync_state_protocol (protocol : string) : string :=
  "sync state " +:+ protocol +:+ " could not be classified for the broadcaster".

Definition fmt_unsupported_sync_state_protocol (protocol : string) : string :=
  "sync state " +:+ protocol +:+ " uses an unsupported broadcaster backend".

Definition fmt_redis_contract_error (error : BroadcasterContractError) : string :=
  match error with
  | RedisEntryEmptyField field =>
      "redis stream field " +:+ field +:+ " must not be empty"
  | RedisEntryUnexpectedField field =>
      "redis stream field " +:+ field +:+ " is not allowed for this payload"
  | RedisUnsupportedSchemaVersion found =>
      "unsupported redis schema version: " +:+ found
  | RedisEntryMissingSnapshotId kind =>
      "redis " +:+ BroadcasterMessageKind_as_str kind +:+ " entry requires snapshot_id"
  | RedisMessageSequenceZero => "redis message_seq must start at 1"
  | RedisSnapshotPayloadUnsupported kind =>
      "redis stream does not support " +:+ BroadcasterMessageKind_as_str kind
        +:+ " payloads in V1"
  | RedisBackendScopeInvalid backend_scope =>
      "invalid redis backend_scope: " +:+ backend_scope
  | RedisPayloadJsonInvalid message =>
      "redis payload_json is invalid: " +:+ message
  | RedisPayloadKindMismatch expected found =>
      "redis payload kind mismatch: expected " +:+ BroadcasterMessageKind_as_str expected
        +:+ ", found " +:+ BroadcasterMessageKind_as_str found
  | RedisBlockNumberMismatch entry_block_number payload_block_number =>
      "redis block_number mismatch: entry " +:+ u64_to_string entry_block_number
        +:+ ", payload " +:+ u64_to_string payload_block_number
  | RedisObservedTimestampMismatch entry_observed_timestamp_ms payload_observed_timestamp_ms =>
      "redis observed_timestamp_ms mismatch: entry "
        +:+ u64_to_string entry_observed_timestamp_ms
        +:+ ", payload " +:+ u64_to_string payload_observed_timestamp_ms
  | InvalidRedisEntryId entry_id => "invalid redis stream entry id: " +:+ entry_id
  | _ => "redis contract error"
  end.

Definition fmt_protocol_classification_error (error : BroadcasterContractError) : string :=
  match error with
  | UnknownComponentProtocol component_id => fmt_unknown_component_protocol component_id
  | UnsupportedComponentProtocol component_id protocol =>
      fmt_unsupported_component_protocol component_id protocol
  | StateBackendMissing component_id => fmt_state_backend_missing component_id
  | UnknownSyncStateProtocol protocol => fmt_unknown_sync_state_protocol protocol
  | UnsupportedSyncStateProtocol protocol => fmt_unsupported_sync_state_protocol protocol
  | _ => "protocol classification error"
  end.

Definition fmt_snapshot_flow_error (error : BroadcasterContractError) : string :=
  match error with
  | UnexpectedSnapshotStart state => "unexpected snapshot_start while in " +:+ state
  | UnexpectedSnapshotChunk => "unexpected snapshot_chunk while live"
  | UnexpectedSnapshotEnd => "unexpected snapshot_end while live"
  | UnexpectedSnapshotId expected found => fmt_unexpected_snapshot_id expected found
  | UnexpectedChunkIndex expected found => fmt_unexpected_chunk_index expected found
  | ExtraSnapshotChunk total_chunks found =>
      "received extra snapshot chunk " +:+ u64_to_string found
        +:+ " after declared total of " +:+ u64_to_string total_chunks
  | SnapshotIncomplete expected_chunks observed_chunks =>
      fmt_snapshot_incomplete expected_chunks observed_chunks
  | MissingDeclaredSnapshotBackends missing => fmt_missing_declared_snapshot_backends missing
  | _ => "snapshot flow error"
  end.

Definition BroadcasterContractError_fmt (error : BroadcasterContractError) : string :=
  match error with
  | ExpectedSnapshotStart found =>
      "expected snapshot_start, found " +:+ BroadcasterMessageKind_as_str found
  | UnexpectedStreamId expected found =>
      "unexpected stream id: expected " +:+ expected +:+ ", found " +:+ found
  | UnexpectedChainId expected found =>
      "unexpected chain id: expected " +:+ u64_to_string expected
        +:+ ", found " +:+ u64_to_string found
  | UnexpectedMessageSeq expected found => fmt_unexpected_message_seq expected found
  | MessageSequenceOverflow message_seq =>
      "message sequence overflow at " +:+ u64_to_string message_seq
  | UnexpectedSnapshotStart _ | UnexpectedSnapshotChunk | UnexpectedSnapshotEnd
  | UnexpectedSnapshotId _ _ | UnexpectedChunkIndex _ _ | ExtraSnapshotChunk _ _
  | SnapshotIncomplete _ _ | MissingDeclaredSnapshotBackends _ =>
      fmt_snapshot_flow_error error
  | UnexpectedRecoveryMessage kind =>
      "unexpected " +:+ BroadcasterMessageKind_as_str kind
        +:+ " outside a Redis recovery transaction"
  | UpdateBeforeSnapshotComplete => "received update before snapshot bootstrap completed"
  | HeartbeatBeforeSnapshotComplete =>
      "received heartbeat before snapshot bootstrap completed"
  | ProgressBeforeSnapshotComplete => "received progress before snapshot bootstrap completed"
  | RedisReplayBoundaryBeforeSnapshotComplete state =>
      "redis replay boundary requires completed snapshot bootstrap, current state is "
        +:+ state
  | EmptyUpdate => "update message must contain at least one partition"
  | ProgressReasonEmpty => "progress reason must not be empty"
  | RecoveryManifestInvalid reason => "invalid broadcaster recovery payload: " +:+ reason
  | EmptyUpdatePartition backend =>
      "update partition for " +:+ BroadcasterBackend_debug backend
        +:+ " must contain state or sync data"
  | DuplicateBackendEntry context backend => fmt_duplicate_backend_entry context backend
  | UndeclaredBackendEntry context backend => fmt_undeclared_backend_entry context backend
  | NewPairMissingState component_id =>
      "new pair " +:+ component_id +:+ " is missing its state payload"
  | UnknownComponentProtocol _ | UnsupportedComponentProtocol _ _ | StateBackendMissing _
  | UnknownSyncStateProtocol _ | UnsupportedSyncStateProtocol _ =>
      fmt_protocol_classification_error error
  | PartitionContentBackendMismatch context entry partition_backend entry_backend =>
      fmt_partition_content_backend_mismatch context entry partition_backend entry_backend
  | RedisEntryEmptyField _ | RedisEntryUnexpectedField _ | RedisUnsupportedSchemaVersion _
  | RedisEntryMissingSnapshotId _ | RedisMessageSequenceZero
  | RedisSnapshotPayloadUnsupported _ | RedisBackendScopeInvalid _
  | RedisPayloadJsonInvalid _ | RedisPayloadKindMismatch _ _
  | RedisBlockNumberMismatch _ _ | RedisObservedTimestampMismatch _ _
  | InvalidRedisEntryId _ => fmt_redis_contract_error error
  | TokenChainMismatch expected actual =>
      "token chain id mismatch: expected " +:+ u64_to_string expected
        +:+ ", got " +:+ u64_to_string actual
  end.
