(* ===== verification/Validate.v ===== *)
(** * The broadcaster wire contract: validation and constructors

    [simulator-core/src/broadcaster.rs]: the [validate_*] and [ensure_*] helpers,
    the validating constructors of the payloads and the [deserialize_unique_*]
    hooks run when a payload is decoded. *)

From S2P Require Import Prelude Ordered Text Protocol Wire.

(** ** Identity checks *)

Definition ensure_stream_id (expected found : string) : contract unit :=
  ensure (String.eqb expected found) (UnexpectedStreamId expected found).

Definition ensure_chain_id (expected found : u64) : contract unit :=
  ensure (N.eqb expected found) (UnexpectedChainId expected found).

Definition ensure_snapshot_id (expected found : string) : contract unit :=
  ensure (String.eqb expected found) (UnexpectedSnapshotId expected found).

Definition ensure_message_seq (expected : option u64) (found : u64) : contract unit :=
  ensure (bool_decide (expected = Some found))
    (UnexpectedMessageSeq (default found expected) found).

Definition next_message_seq (message_seq : u64) : contract u64 :=
  ok_or (checked_add message_seq 1) (MessageSequenceOverflow message_seq).

(** ** Classification *)

Definition backend_for_kind (kind : ProtocolKind) : BroadcasterBackend :=
  match kind with
  | Curve | BalancerV2 | MaverickV2 => Vm
  | Hashflow | Bebop | Liquorice => Rfq
  | _ => Native
  end.

Definition backend_for_component `{TychoTypes} (component_id : string)
    (component : ProtocolComponent) : contract BroadcasterBackend :=
  match ProtocolKind_from_component component with
  | None => Err (UnknownComponentProtocol component_id)
  | Some kind => Ok (backend_for_kind kind)
  end.

Definition backend_for_sync_state (protocol : string) : contract BroadcasterBackend :=
  match ProtocolKind_from_sync_state_key protocol with
  | None => Err (UnknownSyncStateProtocol protocol)
  | Some kind => Ok (backend_for_kind kind)
  end.

(** ** Backend lists *)

(** The loop over a [HashSet] of the backends seen so far. *)
Fixpoint unique_backend_loop (context : string) (seen : gset BroadcasterBackend)
    (backends : list BroadcasterBackend) : contract unit :=
  match backends with
  | [] => Ok tt
  | backend :: rest =>
      if decide (backend ∈ seen) then Err (DuplicateBackendEntry context backend)
      else unique_backend_loop context ({[backend]} ∪ seen) rest
  end.

Definition validate_unique_backend_entries (context : string)
    (backends : list BroadcasterBackend) : contract unit :=
  unique_backend_loop context ∅ backends.

Definition validate_declared_backend_entries (context : string)
    (backends : list BroadcasterBackend) (declared_backends : gset BroadcasterBackend) :
    contract unit :=
  for_each (λ backend,
    ensure (bool_decide (backend ∈ declared_backends))
      (UndeclaredBackendEntry context backend)) backends.

Definition ensure_all_declared_backends_observed
    (declared_backends observed_backends : gset BroadcasterBackend) : contract unit :=
  let missing := sort (elements (declared_backends ∖ observed_backends)) in
  match missing with
  | [] => Ok tt
  | _ => Err (MissingDeclaredSnapshotBackends missing)
  end.

Definition validate_partition_content_backend (context entry : string)
    (partition_backend entry_backend : BroadcasterBackend) : contract unit :=
  ensure (bool_decide (partition_backend = entry_backend))
    (PartitionContentBackendMismatch context entry partition_backend entry_backend).

Definition validate_unique_backends (context : string) (backends : list BroadcasterBackend) :
    contract unit :=
  validate_unique_backend_entries context backends.

Definition validate_snapshot_start_backends (backends : list BroadcasterBackend) :
    contract unit :=
  validate_unique_backends "snapshot_start.backends" backends.

Definition validate_progress_backends (backends : list BroadcasterBackend) : contract unit :=
  validate_unique_backends "progress.backends" backends.

Definition validate_declared_progress_backends (backends : list BroadcasterBackend)
    (declared_backends : gset BroadcasterBackend) : contract unit :=
  validate_declared_backend_entries "progress.backends" backends declared_backends.

(** ** Recovery payloads *)

Definition recovery_error {A} (reason : string) : contract A :=
  Err (RecoveryManifestInvalid reason).

Definition require_recovery_text (field value : string) : contract unit :=
  if str_blank value then recovery_error (field +:+ " must not be empty") else Ok tt.

Definition require_recovery_version (target_state_version : u64) : contract unit :=
  if (target_state_version =? 0)%N
  then recovery_error "target_state_version must be greater than zero"
  else Ok tt.

Definition validate_recovery_backends (backends : list BroadcasterBackend) : contract unit :=
  match backends with
  | [] => recovery_error "backends must not be empty"
  | _ => validate_unique_backends "recovery.backends" backends
  end.

(** [vec.len() as u64]. *)
Definition len {A} (l : list A) : usize := N.of_nat (length l).

Definition validate_recovery_manifest (manifest : BroadcasterRecoveryManifest) :
    contract unit :=
  require_recovery_text "recovery_id" (rm_recovery_id manifest) ;;
  require_recovery_version (rm_target_state_version manifest) ;;
  validate_recovery_backends (rm_backends manifest) ;;
  if (rm_chunk_count manifest =? 0)%N then
    recovery_error "chunk_count must be greater than zero"
  else if negb (rm_chunk_count manifest =? len (rm_chunk_encoded_bytes manifest))%N then
    recovery_error "chunk_count does not match chunk_encoded_bytes"
  else if negb (rm_chunk_count manifest =? len (rm_chunk_digests manifest))%N then
    recovery_error "chunk_count does not match chunk_digests"
  else if (rm_replacement_encoded_bytes manifest =? 0)%N then
    recovery_error "replacement_encoded_bytes must be greater than zero"
  else if bool_decide (0%N ∈ rm_chunk_encoded_bytes manifest) then
    recovery_error "chunk_encoded_bytes values must be greater than zero"
  else
    for_each (require_recovery_text "chunk_digest") (rm_chunk_digests manifest) ;;
    require_recovery_text "replacement_digest" (rm_replacement_digest manifest) ;;
    if (rm_commit_watermark manifest =? 0)%N then
      recovery_error "commit_watermark must be greater than zero"
    else Ok tt.

Definition validate_recovery_chunk (chunk : BroadcasterRecoveryChunk) : contract unit :=
  require_recovery_text "recovery_id" (rc_recovery_id chunk) ;;
  require_recovery_version (rc_target_state_version chunk) ;;
  validate_recovery_backends (rc_backends chunk) ;;
  if (rc_encoded_bytes chunk =? 0)%N then
    recovery_error "encoded_bytes must be greater than zero"
  else
    require_recovery_text "digest" (rc_digest chunk) ;;
    require_recovery_text "payload_fragment" (rc_payload_fragment chunk).

Definition validate_recovery_commit (commit : BroadcasterRecoveryCommit) : contract unit :=
  require_recovery_text "recovery_id" (rt_recovery_id commit) ;;
  require_recovery_version (rt_target_state_version commit) ;;
  validate_recovery_backends (rt_backends commit) ;;
  require_recovery_text "replacement_digest" (rt_replacement_digest commit) ;;
  if (rt_commit_watermark commit =? 0)%N then
    recovery_error "commit_watermark must be greater than zero"
  else Ok tt.

Section partitions.
Context `{TychoTypes}.

(** ** Partitions *)

Definition BroadcasterUpdatePartition_is_empty (p : BroadcasterUpdatePartition) : bool :=
  bool_decide (length (up_messages p) = 0)
  && bool_decide (length (up_new_pairs p) = 0)
  && bool_decide (length (up_updated_states p) = 0)
  && bool_decide (length (up_removed_pairs p) = 0)
  && bool_decide (size (up_sync_statuses p) = 0).

Definition validate_non_empty_update_partitions
    (partitions : list BroadcasterUpdatePartition) : contract unit :=
  for_each (λ p,
    if BroadcasterUpdatePartition_is_empty p
    then Err (EmptyUpdatePartition (up_backend p)) else Ok tt) partitions.

Definition validate_unique_partition_backends (context : string)
    (partitions : list BroadcasterSnapshotPartition) : contract unit :=
  validate_unique_backend_entries context (map sp_backend partitions).

Definition validate_unique_update_backends (context : string)
    (partitions : list BroadcasterUpdatePartition) : contract unit :=
  validate_unique_backend_entries context (map up_backend partitions).

Definition validate_unique_backend_heads (context : string)
    (heads : list BroadcasterBackendHead) : contract unit :=
  validate_unique_backend_entries context (map bh_backend heads).

Definition validate_heartbeat_backend_heads (heads : list BroadcasterBackendHead) :
    contract unit :=
  validate_unique_backend_heads "heartbeat.backend_heads" heads.

(** The entry named [entry] classified by [r] belongs to the partition. *)
Definition check_content (context entry : string) (partition_backend : BroadcasterBackend)
    (r : contract BroadcasterBackend) : contract unit :=
  backend ← r;
  validate_partition_content_backend context entry partition_backend backend.

Definition validate_snapshot_partition_content (partition : BroadcasterSnapshotPartition) :
    contract unit :=
  for_each (λ message,
    check_content "snapshot_chunk.partitions.messages" (pm_protocol message)
      (sp_backend partition) (backend_for_sync_state (pm_protocol message)))
    (sp_messages partition) ;;
  for_each (λ state,
    check_content "snapshot_chunk.partitions.states" (se_component_id state)
      (sp_backend partition)
      (backend_for_component (se_component_id state) (se_component state)))
    (sp_states partition) ;;
  for_each (λ protocol,
    check_content "snapshot_chunk.partitions.sync_statuses" protocol
      (sp_backend partition) (backend_for_sync_state protocol))
    (bt_keys (sp_sync_statuses partition)).

Definition validate_snapshot_partition_contents
    (partitions : list BroadcasterSnapshotPartition) : contract unit :=
  for_each validate_snapshot_partition_content partitions.

Definition validate_update_partition_content (partition : BroadcasterUpdatePartition) :
    contract unit :=
  for_each (λ message,
    check_content "update.partitions.messages" (pm_protocol message)
      (up_backend partition) (backend_for_sync_state (pm_protocol message)))
    (up_messages partition) ;;
  for_each (λ state,
    check_content "update.partitions.new_pairs" (se_component_id state)
      (up_backend partition)
      (backend_for_component (se_component_id state) (se_component state)))
    (up_new_pairs partition) ;;
  for_each (λ state,
    check_content "update.partitions.updated_states" (sd_component_id state)
      (up_backend partition) (Ok (sd_backend state)))
    (up_updated_states partition) ;;
  for_each (λ removed,
    check_content "update.partitions.removed_pairs" (rp_component_id removed)
      (up_backend partition)
      (backend_for_component (rp_component_id removed) (rp_component removed)))
    (up_removed_pairs partition) ;;
  for_each (λ protocol,
    check_content "update.partitions.sync_statuses" protocol
      (up_backend partition) (backend_for_sync_state protocol))
    (bt_keys (up_sync_statuses partition)).

Definition validate_update_partition_contents
    (partitions : list BroadcasterUpdatePartition) : contract unit :=
  for_each validate_update_partition_content partitions.

Definition validate_snapshot_chunk_partitions
    (partitions : list BroadcasterSnapshotPartition) : contract unit :=
  validate_unique_partition_backends "snapshot_chunk.partitions" partitions ;;
  validate_snapshot_partition_contents partitions.

Definition validate_update_partitions (partitions : list BroadcasterUpdatePartition) :
    contract unit :=
  match partitions with
  | [] => Err EmptyUpdate
  | _ =>
      validate_unique_update_backends "update.partitions" partitions ;;
      validate_non_empty_update_partitions partitions ;;
      validate_update_partition_contents partitions
  end.

Definition validate_declared_snapshot_chunk_backends
    (partitions : list BroadcasterSnapshotPartition)
    (declared_backends : gset BroadcasterBackend) : contract unit :=
  validate_declared_backend_entries "snapshot_chunk.partitions"
    (map sp_backend partitions) declared_backends.

Definition validate_declared_update_backends
    (partitions : list BroadcasterUpdatePartition)
    (declared_backends : gset BroadcasterBackend) : contract unit :=
  validate_declared_backend_entries "update.partitions"
    (map up_backend partitions) declared_backends.

Definition validate_declared_heartbeat_backends (heads : list BroadcasterBackendHead)
    (declared_backends : gset BroadcasterBackend) : contract unit :=
  validate_declared_backend_entries "heartbeat.backend_heads"
    (map bh_backend heads) declared_backends.

Definition validate_recovery_catch_up (catch_up : BroadcasterRecoveryCatchUp) :
    contract unit :=
  require_recovery_text "recovery_id" (cu_recovery_id catch_up) ;;
  require_recovery_version (cu_target_state_version catch_up) ;;
  validate_update_partitions (um_partitions (cu_update catch_up)).

(** ** Constructors *)

Definition BroadcasterSnapshotStart_new (snapshot_id : string) (chain_id : u64)
    (backends : list BroadcasterBackend) (total_chunks : u32) :
    contract BroadcasterSnapshotStart :=
  let backends := sort backends in
  validate_snapshot_start_backends backends ;;
  Ok {| ss_snapshot_id := snapshot_id; ss_chain_id := chain_id;
        ss_backends := backends; ss_total_chunks := total_chunks |}.

Definition BroadcasterSnapshotChunk_new (snapshot_id : string) (chunk_index : u32)
    (partitions : list BroadcasterSnapshotPartition) : contract BroadcasterSnapshotChunk :=
  let partitions := sort_by_key sp_backend partitions in
  validate_snapshot_chunk_partitions partitions ;;
  Ok {| sc_snapshot_id := snapshot_id; sc_chunk_index := chunk_index;
        sc_partitions := partitions |}.

Definition BroadcasterSnapshotPartition_new (backend : BroadcasterBackend)
    (block_number : u64) (states : list BroadcasterStateEntry)
    (sync_statuses : btree string BroadcasterProtocolSyncStatus) :
    BroadcasterSnapshotPartition :=
  let states := sort_by_key se_component_id states in
  {| sp_backend := backend; sp_block_number := block_number; sp_messages := [];
     sp_states := states; sp_sync_statuses := sync_statuses |}.

Definition BroadcasterSnapshotPartition_with_messages (backend : BroadcasterBackend)
    (block_number : u64) (messages : list BroadcasterProtocolMessage)
    (sync_statuses : btree string BroadcasterProtocolSyncStatus) :
    BroadcasterSnapshotPartition :=
  {| sp_backend := backend; sp_block_number := block_number; sp_messages := messages;
     sp_states := []; sp_sync_statuses := sync_statuses |}.

Definition BroadcasterRecoveryManifest_new (recovery_id : string)
    (target_state_version : u64) (backends : list BroadcasterBackend)
    (replacement_encoded_bytes : u64) (chunk_encoded_bytes : list u64)
    (chunk_digests : list string) (replacement_digest : string)
    (buffer_a_count : u32) (commit_watermark : u64) :
    contract BroadcasterRecoveryManifest :=
  let backends := sort backends in
  chunk_count ← ok_or (u32_try_from (len chunk_encoded_bytes))
                  (RecoveryManifestInvalid "chunk count exceeds u32");
  let manifest := {|
    rm_recovery_id := recovery_id;
    rm_target_state_version := target_state_version;
    rm_backends := backends;
    rm_chunk_count := chunk_count;
    rm_replacement_encoded_bytes := replacement_encoded_bytes;
    rm_chunk_encoded_bytes := chunk_encoded_bytes;
    rm_chunk_digests := chunk_digests;
    rm_replacement_digest := replacement_digest;
    rm_buffer_a_count := buffer_a_count;
    rm_commit_watermark := commit_watermark |} in
  validate_recovery_manifest manifest ;;
  Ok manifest.

Definition BroadcasterRecoveryStart_new (manifest : BroadcasterRecoveryManifest) :
    contract BroadcasterRecoveryStart :=
  validate_recovery_manifest manifest ;;
  Ok {| rs_manifest := manifest |}.

Definition BroadcasterRecoveryChunk_new (recovery_id : string)
    (target_state_version : u64) (backends : list BroadcasterBackend) (chunk_index : u32)
    (encoded_bytes : u64) (digest payload_fragment : string) :
    contract BroadcasterRecoveryChunk :=
  let backends := sort backends in
  let chunk := {|
    rc_recovery_id := recovery_id;
    rc_target_state_version := target_state_version;
    rc_backends := backends;
    rc_chunk_index := chunk_index;
    rc_encoded_bytes := encoded_bytes;
    rc_digest := digest;
    rc_payload_fragment := payload_fragment |} in
  validate_recovery_chunk chunk ;;
  Ok chunk.

Definition BroadcasterRecoveryCatchUp_new (recovery_id : string)
    (target_state_version : u64) (block_index : u32) (update : BroadcasterUpdateMessage) :
    contract BroadcasterRecoveryCatchUp :=
  let catch_up := {|
    cu_recovery_id := recovery_id;
    cu_target_state_version := target_state_version;
    cu_block_index := block_index;
    cu_update := update |} in
  validate_recovery_catch_up catch_up ;;
  Ok catch_up.

Definition BroadcasterRecoveryCommit_new (recovery_id : string)
    (target_state_version : u64) (backends : list BroadcasterBackend)
    (replacement_digest : string) (buffer_a_count : u32) (commit_watermark : u64) :
    contract BroadcasterRecoveryCommit :=
  let backends := sort backends in
  let commit := {|
    rt_recovery_id := recovery_id;
    rt_target_state_version := target_state_version;
    rt_backends := backends;
    rt_replacement_digest := replacement_digest;
    rt_buffer_a_count := buffer_a_count;
    rt_commit_watermark := commit_watermark |} in
  validate_recovery_commit commit ;;
  Ok commit.

Definition BroadcasterUpdateMessage_new (partitions : list BroadcasterUpdatePartition) :
    contract BroadcasterUpdateMessage :=
  let partitions := sort_by_key up_backend partitions in
  validate_update_partitions partitions ;;
  Ok {| um_partitions := partitions |}.

Definition BroadcasterUpdatePartition_new (backend : BroadcasterBackend)
    (block_number : u64) (new_pairs : list BroadcasterStateEntry)
    (updated_states : list BroadcasterStateDelta)
    (removed_pairs : list BroadcasterRemovedPair)
    (sync_statuses : btree string BroadcasterProtocolSyncStatus) :
    BroadcasterUpdatePartition :=
  let new_pairs := sort_by_key se_component_id new_pairs in
  let updated_states := sort_by_key sd_component_id updated_states in
  let removed_pairs := sort_by_key rp_component_id removed_pairs in
  {| up_backend := backend; up_block_number := block_number; up_messages := [];
     up_new_pairs := new_pairs; up_updated_states := updated_states;
     up_removed_pairs := removed_pairs; up_sync_statuses := sync_statuses |}.

Definition BroadcasterUpdatePartition_with_messages (backend : BroadcasterBackend)
    (block_number : u64) (messages : list BroadcasterProtocolMessage)
    (sync_statuses : btree string BroadcasterProtocolSyncStatus) :
    BroadcasterUpdatePartition :=
  {| up_backend := backend; up_block_number := block_number; up_messages := messages;
     up_new_pairs := []; up_updated_states := []; up_removed_pairs := [];
     up_sync_statuses := sync_statuses |}.

Definition BroadcasterHeartbeat_new (chain_id : u64) (snapshot_id : string)
    (backend_heads : list BroadcasterBackendHead) : contract BroadcasterHeartbeat :=
  let backend_heads := sort_by_key bh_backend backend_heads in
  validate_heartbeat_backend_heads backend_heads ;;
  Ok {| hb_chain_id := chain_id; hb_snapshot_id := snapshot_id;
        hb_backend_heads := backend_heads |}.

Definition BroadcasterProgress_new (chain_id : u64) (snapshot_id : string)
    (backends : list BroadcasterBackend) (reason : string) :
    contract BroadcasterProgress :=
  let backends := sort backends in
  validate_progress_backends backends ;;
  if str_blank reason then Err ProgressReasonEmpty
  else Ok {| pg_chain_id := chain_id; pg_snapshot_id := snapshot_id;
             pg_backends := backends; pg_reason := reason |}.

(** ** Decoding hooks

    [#[serde(deserialize_with = ...)]]: the vector as it is on the wire is
    sorted and validated. *)

Definition deserialize_unique_backends (backends : list BroadcasterBackend) :
    contract (list BroadcasterBackend) :=
  let backends := sort backends in
  validate_snapshot_start_backends backends ;; Ok backends.

Definition deserialize_unique_snapshot_partitions
    (partitions : list BroadcasterSnapshotPartition) :
    contract (list BroadcasterSnapshotPartition) :=
  let partitions := sort_by_key sp_backend partitions in
  validate_snapshot_chunk_partitions partitions ;; Ok partitions.

Definition deserialize_unique_update_partitions
    (partitions : list BroadcasterUpdatePartition) :
    contract (list BroadcasterUpdatePartition) :=
  let partitions := sort_by_key up_backend partitions in
  validate_update_partitions partitions ;; Ok partitions.

Definition deserialize_unique_backend_heads (heads : list BroadcasterBackendHead) :
    contract (list BroadcasterBackendHead) :=
  let heads := sort_by_key bh_backend heads in
  validate_heartbeat_backend_heads heads ;; Ok heads.

Definition deserialize_unique_progress_backends (backends : list BroadcasterBackend) :
    contract (list BroadcasterBackend) :=
  let backends := sort backends in
  validate_progress_backends backends ;; Ok backends.

Definition deserialize_unique_recovery_backends (backends : list BroadcasterBackend) :
    contract (list BroadcasterBackend) :=
  let backends := sort backends in
  validate_recovery_backends backends ;; Ok backends.
End partitions.

(** ** What the checks establish *)

Lemma ensure_stream_id_ok e f : ensure_stream_id e f = Ok tt ↔ e = f.
Proof. unfold ensure_stream_id. rewrite ensure_ok. apply String.eqb_eq. Qed.

Lemma ensure_snapshot_id_ok e f : ensure_snapshot_id e f = Ok tt ↔ e = f.
Proof. unfold ensure_snapshot_id. rewrite ensure_ok. apply String.eqb_eq. Qed.

Lemma ensure_chain_id_ok e f : ensure_chain_id e f = Ok tt ↔ e = f.
Proof. unfold ensure_chain_id. rewrite ensure_ok. apply N.eqb_eq. Qed.

Lemma ensure_message_seq_ok e f : ensure_message_seq e f = Ok tt ↔ e = Some f.
Proof. unfold ensure_message_seq. rewrite ensure_ok. apply bool_decide_eq_true. Qed.

Lemma next_message_seq_ok n m :
  next_message_seq n = Ok m ↔ m = (n + 1)%N ∧ (n + 1 ≤ u64_max)%N.
Proof. unfold next_message_seq. rewrite ok_or_ok. apply checked_add_Some. Qed.

Lemma unique_backend_loop_ok context seen backends :
  unique_backend_loop context seen backends = Ok tt ↔
  NoDup backends ∧ Forall (λ b, b ∉ seen) backends.
Proof.
  revert seen. induction backends as [|b bs IH]; intros seen; simpl.
  { split; [by repeat constructor|done]. }
  rewrite NoDup_cons, Forall_cons. case_decide as Hb; [naive_solver|].
  rewrite IH, !Forall_forall. set_solver.
Qed.

Lemma unique_backend_loop_total context seen backends :
  unique_backend_loop context seen backends = Ok tt ∨
  ∃ b, b ∈ backends ∧
    unique_backend_loop context seen backends = Err (DuplicateBackendEntry context b).
Proof.
  revert seen. induction backends as [|b bs IH]; intros seen; simpl; [by left|].
  case_decide; [right; exists b; set_solver|].
  destruct (IH ({[b]} ∪ seen)) as [?|(b' & ? & ?)]; [by left|right; exists b'; set_solver].
Qed.

Lemma validate_unique_backend_entries_ok context backends :
  validate_unique_backend_entries context backends = Ok tt ↔ NoDup backends.
Proof.
  unfold validate_unique_backend_entries. rewrite unique_backend_loop_ok.
  rewrite Forall_forall. set_solver.
Qed.

Lemma validate_declared_backend_entries_ok context backends declared :
  validate_declared_backend_entries context backends declared = Ok tt ↔
  ∀ b, b ∈ backends → b ∈ declared.
Proof.
  unfold validate_declared_backend_entries. rewrite for_each_ok, Forall_forall.
  setoid_rewrite ensure_ok. setoid_rewrite bool_decide_eq_true. done.
Qed.

Lemma ensure_all_declared_ok declared observed :
  ensure_all_declared_backends_observed declared observed = Ok tt ↔
  declared ⊆ observed.
Proof.
  unfold ensure_all_declared_backends_observed.
  destruct (sort (elements (declared ∖ observed))) as [|b l] eqn:E; split; try done.
  - intros _ x Hx. destruct (decide (x ∈ observed)) as [|Hno]; [done|exfalso].
    assert (x ∈ elements (declared ∖ observed)) as Hin by set_solver.
    by rewrite <- (sort_by_key_perm id), E in Hin; apply elem_of_nil in Hin.
  - intros Hsub. exfalso.
    assert (b ∈ elements (declared ∖ observed)) as Hin.
    { rewrite <- (sort_by_key_perm id), E. left. }
    set_solver.
Qed.

Lemma require_recovery_text_ok field value :
  require_recovery_text field value = Ok tt ↔ str_blank value = false.
Proof. unfold require_recovery_text, recovery_error. destruct (str_blank value); naive_solver. Qed.

Lemma require_recovery_version_ok v : require_recovery_version v = Ok tt ↔ (0 < v)%N.
Proof.
  unfold require_recovery_version, recovery_error.
  destruct (N.eqb_spec v 0); split; (done || lia).
Qed.

Lemma validate_recovery_backends_ok backends :
  validate_recovery_backends backends = Ok tt ↔ backends ≠ [] ∧ NoDup backends.
Proof.
  unfold validate_recovery_backends, recovery_error, validate_unique_backends.
  destruct backends; [naive_solver|].
  rewrite validate_unique_backend_entries_ok. naive_solver.
Qed.

(** What a recovery manifest promises its consumers. *)
Definition manifest_valid (m : BroadcasterRecoveryManifest) : Prop :=
  str_blank (rm_recovery_id m) = false ∧ (0 < rm_target_state_version m)%N ∧
  rm_backends m ≠ [] ∧ NoDup (rm_backends m) ∧
  (0 < rm_chunk_count m)%N ∧
  rm_chunk_count m = len (rm_chunk_encoded_bytes m) ∧
  rm_chunk_count m = len (rm_chunk_digests m) ∧
  (0 < rm_replacement_encoded_bytes m)%N ∧
  Forall (λ n, 0 < n)%N (rm_chunk_encoded_bytes m) ∧
  Forall (λ d, str_blank d = false) (rm_chunk_digests m) ∧
  str_blank (rm_replacement_digest m) = false ∧ (0 < rm_commit_watermark m)%N.

Lemma pos_list_not_in (l : list N) : 0%N ∉ l ↔ Forall (λ n, 0 < n)%N l.
Proof.
  rewrite Forall_forall. split.
  - intros Hno n Hn. destruct (decide (n = 0%N)) as [->|]; [done|lia].
  - intros Hall Hin. specialize (Hall _ Hin). lia.
Qed.

Lemma validate_recovery_manifest_ok m :
  validate_recovery_manifest m = Ok tt ↔ manifest_valid m.
Proof.
  unfold validate_recovery_manifest, manifest_valid, recovery_error.
  rewrite !seq_ok, require_recovery_text_ok, require_recovery_version_ok,
    validate_recovery_backends_ok, <- pos_list_not_in.
  destruct (N.eqb_spec (rm_chunk_count m) 0);
    [split; [naive_solver|intros; exfalso; intuition lia]|].
  destruct (N.eqb_spec (rm_chunk_count m) (len (rm_chunk_encoded_bytes m))); simpl;
    [|naive_solver].
  destruct (N.eqb_spec (rm_chunk_count m) (len (rm_chunk_digests m))); simpl; [|naive_solver].
  destruct (N.eqb_spec (rm_replacement_encoded_bytes m) 0);
    [split; [naive_solver|intros; exfalso; intuition lia]|].
  case_bool_decide; [naive_solver|]. rewrite !seq_ok, for_each_ok, require_recovery_text_ok.
  setoid_rewrite require_recovery_text_ok.
  destruct (N.eqb_spec (rm_commit_watermark m) 0);
    [split; [naive_solver|intros; exfalso; intuition lia]|].
  assert (0 < rm_chunk_count m)%N by lia. assert (0 < rm_replacement_encoded_bytes m)%N by lia.
  assert (0 < rm_commit_watermark m)%N by lia. naive_solver.
Qed.

Section partition_facts.
Context `{TychoTypes}.

Lemma check_content_ok context entry pb (r : contract BroadcasterBackend) :
  check_content context entry pb r = Ok tt ↔ r = Ok pb.
Proof.
  unfold check_content, validate_partition_content_backend. rewrite bind_ok.
  setoid_rewrite ensure_ok. setoid_rewrite bool_decide_eq_true. naive_solver.
Qed.

(** Every entry of an update partition is classified to the partition's backend. *)
Record update_content_ok (p : BroadcasterUpdatePartition) : Prop := {
  uc_messages : ∀ m, m ∈ up_messages p →
    backend_for_sync_state (pm_protocol m) = Ok (up_backend p);
  uc_new_pairs : ∀ e, e ∈ up_new_pairs p →
    backend_for_component (se_component_id e) (se_component e) = Ok (up_backend p);
  uc_updated : ∀ d, d ∈ up_updated_states p → sd_backend d = up_backend p;
  uc_removed : ∀ e, e ∈ up_removed_pairs p →
    backend_for_component (rp_component_id e) (rp_component e) = Ok (up_backend p);
  uc_statuses : ∀ k s, up_sync_statuses p !! k = Some s →
    backend_for_sync_state k = Ok (up_backend p);
}.

Lemma validate_update_partition_content_ok p :
  validate_update_partition_content p = Ok tt ↔ update_content_ok p.
Proof.
  unfold validate_update_partition_content. rewrite !seq_ok, !for_each_ok, !Forall_forall.
  setoid_rewrite check_content_ok. setoid_rewrite elem_of_bt_keys. split.
  - intros (? & ? & Hd & ? & Hs). split; [done|done| |done|].
    + intros d Hin. by injection (Hd d Hin).
    + intros k s Hk. apply Hs. by exists s.
  - intros [? ? Hd ? Hs]. split_and!; [done|done| |done|].
    + intros d Hin. by rewrite (Hd d Hin).
    + intros k [s Hk]. by eapply Hs.
Qed.

(** The well-formed updates: at least one partition, one per backend, none
    empty, each holding only entries of its backend. *)
Record update_valid (ps : list BroadcasterUpdatePartition) : Prop := {
  uv_non_empty : ps ≠ [];
  uv_unique : NoDup (map up_backend ps);
  uv_filled : Forall (λ p, BroadcasterUpdatePartition_is_empty p = false) ps;
  uv_content : Forall update_content_ok ps;
}.

Lemma validate_update_partitions_ok ps :
  validate_update_partitions ps = Ok tt ↔ update_valid ps.
Proof.
  unfold validate_update_partitions. destruct ps as [|p ps].
  { split; [done|by intros []]. }
  set (l := p :: ps).
  rewrite !seq_ok. unfold validate_unique_update_backends,
    validate_non_empty_update_partitions, validate_update_partition_contents.
  rewrite validate_unique_backend_entries_ok, !for_each_ok.
  setoid_rewrite validate_update_partition_content_ok. split.
  - intros (? & Hf & ?). split; try done. eapply Forall_impl; [apply Hf|].
    intros x. simpl. by case_match.
  - intros [? ? Hf ?]. split_and!; try done. eapply Forall_impl; [apply Hf|].
    intros x. simpl. by intros ->.
Qed.

Record snapshot_content_ok (p : BroadcasterSnapshotPartition) : Prop := {
  sco_messages : ∀ m, m ∈ sp_messages p →
    backend_for_sync_state (pm_protocol m) = Ok (sp_backend p);
  sco_states : ∀ e, e ∈ sp_states p →
    backend_for_component (se_component_id e) (se_component e) = Ok (sp_backend p);
  sco_statuses : ∀ k s, sp_sync_statuses p !! k = Some s →
    backend_for_sync_state k = Ok (sp_backend p);
}.

Lemma validate_snapshot_partition_content_ok p :
  validate_snapshot_partition_content p = Ok tt ↔ snapshot_content_ok p.
Proof.
  unfold validate_snapshot_partition_content. rewrite !seq_ok, !for_each_ok, !Forall_forall.
  setoid_rewrite check_content_ok. setoid_rewrite elem_of_bt_keys. split.
  - intros (? & ? & Hs). split; [done|done|]. intros k s Hk. apply Hs. by exists s.
  - intros [? ? Hs]. split_and!; [done|done|]. intros k [s Hk]. by eapply Hs.
Qed.

Lemma validate_snapshot_chunk_partitions_ok ps :
  validate_snapshot_chunk_partitions ps = Ok tt ↔
  NoDup (map sp_backend ps) ∧ Forall snapshot_content_ok ps.
Proof.
  unfold validate_snapshot_chunk_partitions, validate_unique_partition_backends,
    validate_snapshot_partition_contents.
  rewrite seq_ok, validate_unique_backend_entries_ok, for_each_ok.
  by setoid_rewrite validate_snapshot_partition_content_ok.
Qed.

(** Validity does not depend on the order of the partitions. *)
#[export] Instance update_valid_perm : Proper ((≡ₚ) ==> iff) update_valid.
Proof.
  intros l1 l2 Hp. split; intros [Hne Hnd Hf Hc]; split.
  - intros ->. by apply Permutation_nil_r in Hp.
  - by rewrite <- Hp.
  - by rewrite <- Hp.
  - by rewrite <- Hp.
  - intros ->. by apply Permutation_nil_l in Hp.
  - by rewrite Hp.
  - by rewrite Hp.
  - by rewrite Hp.
Qed.

Lemma BroadcasterUpdateMessage_new_ok ps um :
  BroadcasterUpdateMessage_new ps = Ok um ↔
  update_valid ps ∧ um = {| um_partitions := sort_by_key up_backend ps |}.
Proof.
  unfold BroadcasterUpdateMessage_new. rewrite seq_ok, validate_update_partitions_ok.
  assert (update_valid (sort_by_key up_backend ps) ↔ update_valid ps) as ->
    by by rewrite sort_by_key_perm.
  naive_solver.
Qed.

Lemma update_decode_fixpoint ps :
  update_valid ps → StronglySorted (key_le up_backend) ps →
  deserialize_unique_update_partitions ps = Ok ps.
Proof.
  intros Hv Hs. unfold deserialize_unique_update_partitions.
  rewrite (sort_by_key_id up_backend) by done. apply seq_ok.
  by rewrite validate_update_partitions_ok.
Qed.
End partition_facts.

(** ** Properties *)

(** The backend of a recognised synchronisation key is the one its canonical name
    announces: [vm:] names are VM pools, [rfq:] names RFQ makers, all others native. *)
Lemma backend_follows_prefix name kind :
  ProtocolKind_from_sync_state_key name = Some kind →
  backend_for_sync_state name =
    Ok (if String.prefix "vm:" (ProtocolKind_as_str kind) then Vm
        else if String.prefix "rfq:" (ProtocolKind_as_str kind) then Rfq else Native).
Proof. intros Hk. unfold backend_for_sync_state. rewrite Hk. by destruct kind. Qed.

(** An update message can be built exactly from well-formed partitions, at least
    one, one per backend, none empty, each holding only entries of its backend, and
    it holds them in backend order. *)
Theorem update_message_new_iff `{TychoTypes} ps um :
  BroadcasterUpdateMessage_new ps = Ok um ↔
  update_valid ps ∧ um = {| um_partitions := sort_by_key up_backend ps |}.
Proof. apply BroadcasterUpdateMessage_new_ok. Qed.

(** A recovery manifest passes validation exactly when it keeps its promises: it is
    identified, versioned and scoped, and announces at least one chunk, each with a
    size and a digest, a replacement and a commit. *)
Lemma recovery_manifest_valid_iff m :
  validate_recovery_manifest m = Ok tt ↔ manifest_valid m.
Proof. apply validate_recovery_manifest_ok. Qed.

(** ** Witnesses *)
