(* ===== verification/TychoFeed.v ===== *)
(** * From Tycho updates and feed messages to broadcaster updates

    [simulator-core/src/broadcaster.rs]: [BroadcasterUpdateMessage::from_tycho_update],
    [from_tycho_feed_message], [complete_native_block] and
    [complete_broadcaster_partition_block].  A Rust [HashMap] iterates in an
    arbitrary order: it is an association list with distinct keys, in the order the
    map happens to iterate, and the theorems quantify over that order. *)

From S2P Require Import Prelude Ordered Text Protocol Wire Validate.

Abbreviation hashmap V := (list (string * V)) (only parsing).

Fixpoint hm_get {V} (k : string) (m : hashmap V) : option V :=
  match m with
  | [] => None
  | (k', v) :: m' => if String.eqb k k' then Some v else hm_get k m'
  end.

Definition hm_contains_key {V} (k : string) (m : hashmap V) : bool :=
  match hm_get k m with Some _ => true | None => false end.

(** Two iteration orders of one map. *)
Definition hm_same {V} (m1 m2 : hashmap V) : Prop := NoDup m1.*1 ∧ m1 ≡ₚ m2.

Section tycho.
Context `{TychoTypes}.

Record TychoUpdate := {
  tu_block_number_or_timestamp : u64;
  tu_states : hashmap ProtocolSim;
  tu_new_pairs : hashmap ProtocolComponent;
  tu_removed_pairs : hashmap ProtocolComponent;
  tu_sync_states : hashmap SynchronizerState;
}.

Record FeedMessage := {
  fm_state_msgs : hashmap StateSyncMessage;
  fm_sync_states : hashmap SynchronizerState;
}.

Record UpdatePartitionBuilder := {
  ub_new_pairs : list BroadcasterStateEntry;
  ub_updated_states : list BroadcasterStateDelta;
  ub_removed_pairs : list BroadcasterRemovedPair;
  ub_sync_statuses : btree string BroadcasterProtocolSyncStatus;
}.

Definition UpdatePartitionBuilder_default : UpdatePartitionBuilder :=
  {| ub_new_pairs := []; ub_updated_states := []; ub_removed_pairs := [];
     ub_sync_statuses := ∅ |}.

Definition UpdatePartitionBuilder_is_empty (b : UpdatePartitionBuilder) : bool :=
  bool_decide (length (ub_new_pairs b) = 0)
  && bool_decide (length (ub_updated_states b) = 0)
  && bool_decide (length (ub_removed_pairs b) = 0)
  && bool_decide (size (ub_sync_statuses b) = 0).

Definition push_new_pair (e : BroadcasterStateEntry) (b : UpdatePartitionBuilder) :=
  {| ub_new_pairs := ub_new_pairs b ++ [e]; ub_updated_states := ub_updated_states b;
     ub_removed_pairs := ub_removed_pairs b; ub_sync_statuses := ub_sync_statuses b |}.
Definition push_updated_state (d : BroadcasterStateDelta) (b : UpdatePartitionBuilder) :=
  {| ub_new_pairs := ub_new_pairs b; ub_updated_states := ub_updated_states b ++ [d];
     ub_removed_pairs := ub_removed_pairs b; ub_sync_statuses := ub_sync_statuses b |}.
Definition push_removed_pair (r : BroadcasterRemovedPair) (b : UpdatePartitionBuilder) :=
  {| ub_new_pairs := ub_new_pairs b; ub_updated_states := ub_updated_states b;
     ub_removed_pairs := ub_removed_pairs b ++ [r]; ub_sync_statuses := ub_sync_statuses b |}.
Definition insert_sync_status (ks : string * BroadcasterProtocolSyncStatus)
    (b : UpdatePartitionBuilder) :=
  {| ub_new_pairs := ub_new_pairs b; ub_updated_states := ub_updated_states b;
     ub_removed_pairs := ub_removed_pairs b;
     ub_sync_statuses := <[ks.1 := ks.2]> (ub_sync_statuses b) |}.

Abbreviation builders := (btree BroadcasterBackend UpdatePartitionBuilder).
Abbreviation builder_entry := (bt_entry_update UpdatePartitionBuilder_default).

(** The closure of the final [filter_map]. *)
Definition emit_partition (block_number : u64)
    (x : BroadcasterBackend * UpdatePartitionBuilder) : option BroadcasterUpdatePartition :=
  let (backend, partition) := x in
  if UpdatePartitionBuilder_is_empty partition then None
  else Some (BroadcasterUpdatePartition_new backend block_number
               (ub_new_pairs partition) (ub_updated_states partition)
               (ub_removed_pairs partition) (ub_sync_statuses partition)).

Definition from_tycho_update (update : TychoUpdate)
    (known_backends : gmap string BroadcasterBackend) : contract BroadcasterUpdateMessage :=
  partitions ← fold_result (λ (partitions : builders) '(component_id, component),
      state ← ok_or (hm_get component_id (tu_states update))
                (NewPairMissingState component_id);
      backend ← backend_for_component component_id component;
      Ok (builder_entry
            (push_new_pair {| se_component_id := component_id;
                              se_component := component; se_state := state |})
            backend partitions))
    ∅ (tu_new_pairs update);
  partitions ← fold_result (λ (partitions : builders) '(component_id, state),
      if hm_contains_key component_id (tu_new_pairs update) then Ok partitions
      else
        backend ← ok_or (known_backends !! component_id) (StateBackendMissing component_id);
        Ok (builder_entry
              (push_updated_state {| sd_component_id := component_id;
                                     sd_backend := backend; sd_state := state |})
              backend partitions))
    partitions (tu_states update);
  partitions ← fold_result (λ (partitions : builders) '(component_id, component),
      backend ← backend_for_component component_id component;
      Ok (builder_entry
            (push_removed_pair {| rp_component_id := component_id;
                                  rp_component := component |})
            backend partitions))
    partitions (tu_removed_pairs update);
  partitions ← fold_result (λ (partitions : builders) '(protocol, status),
      backend ← backend_for_sync_state protocol;
      Ok (builder_entry
            (insert_sync_status (protocol, from_synchronizer_state status))
            backend partitions))
    partitions (tu_sync_states update);
  let partitions := omap (emit_partition (tu_block_number_or_timestamp update)) (bt_iter partitions) in
  BroadcasterUpdateMessage_new partitions.

(** ** Feed messages *)

Definition sync_state_block_number (state : SynchronizerState) : option u64 :=
  match state with
  | SyncReady header | SyncDelayed header | SyncStale header | SyncAdvanced header =>
      Some (block_number_or_timestamp header)
  | SyncStarted | SyncEnded _ => None
  end.

(** [iter().max()]. *)
Definition list_max (l : list N) : option N :=
  match l with
  | [] => None
  | x :: l' => Some (foldl N.max x l')
  end.

(** The three maps the first two loops fill. *)
Record FeedMaps := {
  fp_partitions : btree BroadcasterBackend (list BroadcasterProtocolMessage);
  fp_sync_statuses :
    btree BroadcasterBackend (btree string BroadcasterProtocolSyncStatus);
  fp_block_numbers : btree BroadcasterBackend u64;
}.

Definition feed_partition (maps : FeedMaps) (backend : BroadcasterBackend) :
    option BroadcasterUpdatePartition :=
  let messages := default [] (fp_partitions maps !! backend) in
  let statuses := default ∅ (fp_sync_statuses maps !! backend) in
  if bool_decide (length messages = 0) && bool_decide (size statuses = 0) then None
  else
    let block_number :=
      default 0%N
        (match list_max (map (λ m, block_number_or_timestamp (ssm_header (pm_message m)))
                           messages) with
         | Some n => Some n
         | None => fp_block_numbers maps !! backend
         end) in
    Some (BroadcasterUpdatePartition_with_messages backend block_number messages statuses).

Definition from_tycho_feed_message (feed : FeedMessage) : contract BroadcasterUpdateMessage :=
  maps ← fold_result (λ maps '(protocol, status),
      backend ← backend_for_sync_state protocol;
      let block_numbers :=
        match sync_state_block_number status with
        | Some block_number =>
            match fp_block_numbers maps !! backend with
            | Some current => <[backend := N.max current block_number]> (fp_block_numbers maps)
            | None => <[backend := block_number]> (fp_block_numbers maps)
            end
        | None => fp_block_numbers maps
        end in
      Ok {| fp_partitions := fp_partitions maps;
            fp_sync_statuses :=
              bt_entry_update ∅ <[protocol := from_synchronizer_state status]> backend
                (fp_sync_statuses maps);
            fp_block_numbers := block_numbers |})
    {| fp_partitions := ∅; fp_sync_statuses := ∅; fp_block_numbers := ∅ |}
    (fm_sync_states feed);
  maps ← fold_result (λ maps '(protocol, message),
      backend ← backend_for_sync_state protocol;
      let sync_state := default SyncStarted (hm_get protocol (fm_sync_states feed)) in
      Ok {| fp_partitions :=
              bt_entry_update []
                (λ l, l ++ [{| pm_protocol := protocol; pm_sync_state := sync_state;
                               pm_message := message |}])
                backend (fp_partitions maps);
            fp_sync_statuses := fp_sync_statuses maps;
            fp_block_numbers := fp_block_numbers maps |})
    maps (fm_state_msgs feed);
  let partition_backends :=
    sort (elements (dom (fp_partitions maps) ∪ dom (fp_sync_statuses maps)
                      : gset BroadcasterBackend)) in
  BroadcasterUpdateMessage_new (omap (feed_partition maps) partition_backends).

(** ** Block completeness *)

(** The closure [observe]: its captured [expected_hash] is threaded. *)
Definition observe_block (block_number : u64) (expected_hash : option Bytes)
    (number : u64) (hash : Bytes) (partial_block_index : option u32) :
    bool * option Bytes :=
  if negb (number =? block_number)%N || bool_decide (is_Some partial_block_index) then
    (false, expected_hash)
  else
    match expected_hash with
    | Some expected => (String.eqb expected hash, expected_hash)
    | None => (true, Some hash)
    end.

Definition observe_header (block_number : u64) (expected_hash : option Bytes)
    (header : BlockHeader) : bool * option Bytes :=
  observe_block block_number expected_hash (bh_number header) (bh_hash header)
    (bh_partial_block_index header).

Fixpoint observe_messages (block_number : u64) (expected_hash : option Bytes)
    (messages : list BroadcasterProtocolMessage) : option (option Bytes) :=
  match messages with
  | [] => Some expected_hash
  | message :: rest =>
      match observe_header block_number expected_hash (ssm_header (pm_message message)) with
      | (false, _) => None
      | (true, expected_hash) =>
          match pm_sync_state message with
          | SyncReady sync_header =>
              match observe_header block_number expected_hash sync_header with
              | (false, _) => None
              | (true, expected_hash) => observe_messages block_number expected_hash rest
              end
          | _ => None
          end
      end
  end.

Fixpoint observe_statuses (block_number : u64) (expected_hash : option Bytes)
    (statuses : list BroadcasterProtocolSyncStatus) : option (option Bytes) :=
  match statuses with
  | [] => Some expected_hash
  | status :: rest =>
      if negb (bool_decide (sst_kind status = StatusReady)) then None
      else
        match sst_block status with
        | None => None
        | Some block =>
            match observe_block block_number expected_hash (br_number block)
                    (br_hash block) (br_partial_block_index block) with
            | (false, _) => None
            | (true, expected_hash) => observe_statuses block_number expected_hash rest
            end
        end
  end.

Definition complete_broadcaster_partition_block (block_number : u64)
    (messages : list BroadcasterProtocolMessage)
    (sync_statuses : btree string BroadcasterProtocolSyncStatus) : option u64 :=
  if bool_decide (length messages = 0) && bool_decide (size sync_statuses = 0) then None
  else
    match observe_messages block_number None messages with
    | None => None
    | Some expected_hash =>
        match observe_statuses block_number expected_hash (bt_values sync_statuses) with
        | None => None
        | Some _ => Some block_number
        end
    end.

Definition BroadcasterUpdatePartition_complete_native_block
    (p : BroadcasterUpdatePartition) : option u64 :=
  if bool_decide (up_backend p = Native)
  then complete_broadcaster_partition_block (up_block_number p) (up_messages p)
         (up_sync_statuses p)
  else None.

Definition BroadcasterUpdateMessage_complete_native_block
    (u : BroadcasterUpdateMessage) : option u64 :=
  p ← list_find (λ p, up_backend p = Native) (um_partitions u);
  BroadcasterUpdatePartition_complete_native_block p.2.
End tycho.

(** ** Block completeness, specified *)

Section complete.
Context `{TychoTypes}.

Definition header_at (block_number : u64) (h : Bytes) (header : BlockHeader) : Prop :=
  bh_number header = block_number ∧ bh_partial_block_index header = None ∧
  bh_hash header = h.

Definition message_at (block_number : u64) (h : Bytes) (m : BroadcasterProtocolMessage) :
    Prop :=
  header_at block_number h (ssm_header (pm_message m)) ∧
  ∃ sync_header, pm_sync_state m = SyncReady sync_header ∧
    header_at block_number h sync_header.

Definition status_at (block_number : u64) (h : Bytes)
    (st : BroadcasterProtocolSyncStatus) : Prop :=
  sst_kind st = StatusReady ∧
  ∃ block, sst_block st = Some block ∧ br_number block = block_number ∧
    br_partial_block_index block = None ∧ br_hash block = h.

(** One observation followed by the rest of the loop, once a hash is expected
    and for the first one. *)
Lemma observe_block_some {B} bn h n h' p (k : option Bytes → option B) r :
  match observe_block bn (Some h) n h' p with
  | (false, _) => None
  | (true, e) => k e
  end = Some r ↔
  (n = bn ∧ p = None ∧ h' = h) ∧ k (Some h) = Some r.
Proof.
  unfold observe_block. destruct (N.eqb_spec n bn); simpl; [|naive_solver].
  destruct p as [i|]; simpl; [naive_solver|].
  destruct (String.eqb_spec h h'); naive_solver.
Qed.

Lemma observe_block_none {B} bn n h' p (k : option Bytes → option B) r :
  match observe_block bn None n h' p with
  | (false, _) => None
  | (true, e) => k e
  end = Some r ↔
  match observe_block bn (Some h') n h' p with
  | (false, _) => None
  | (true, e) => k e
  end = Some r.
Proof.
  unfold observe_block. destruct (negb _ || _); [done|].
  by rewrite String.eqb_refl.
Qed.

Lemma observe_messages_some bn h ms e' :
  observe_messages bn (Some h) ms = Some e' ↔
  Forall (message_at bn h) ms ∧ e' = Some h.
Proof.
  induction ms as [|m ms IH]; simpl; [naive_solver|].
  unfold observe_header. rewrite observe_block_some, Forall_cons.
  unfold message_at, header_at at 1.
  destruct (pm_sync_state m) as [|sh|sh|sh|sh|r]; try naive_solver.
  rewrite observe_block_some, IH. unfold header_at. naive_solver.
Qed.

Lemma observe_messages_none bn m ms e' :
  observe_messages bn None (m :: ms) = Some e' ↔
  ∃ h, Forall (message_at bn h) (m :: ms) ∧ e' = Some h.
Proof.
  transitivity (observe_messages bn (Some (bh_hash (ssm_header (pm_message m)))) (m :: ms)
    = Some e').
  { simpl. unfold observe_header. apply observe_block_none. }
  rewrite observe_messages_some. split; [by eauto|].
  intros (h & Hm & ->). pose proof Hm as [[(_ & _ & ->) _] _]%Forall_cons. done.
Qed.

Lemma observe_statuses_some bn h sts e' :
  observe_statuses bn (Some h) sts = Some e' ↔
  Forall (status_at bn h) sts ∧ e' = Some h.
Proof.
  induction sts as [|s sts IH]; simpl; [naive_solver|].
  rewrite Forall_cons. unfold status_at at 1.
  case_bool_decide; simpl; [|naive_solver].
  destruct (sst_block s) as [b|]; [|naive_solver].
  rewrite observe_block_some, IH. naive_solver.
Qed.

Lemma observe_statuses_none bn s sts e' :
  observe_statuses bn None (s :: sts) = Some e' ↔
  ∃ h, Forall (status_at bn h) (s :: sts) ∧ e' = Some h.
Proof.
  destruct (sst_block s) as [b|] eqn:Eb.
  - transitivity (observe_statuses bn (Some (br_hash b)) (s :: sts) = Some e').
    { simpl. rewrite Eb. destruct (negb _); [done|]. apply observe_block_none. }
    rewrite observe_statuses_some. split; [by eauto|].
    intros (h & Hm & ->). pose proof Hm as [(_ & b' & Hb & _ & _ & <-) _]%Forall_cons.
    rewrite Eb in Hb. by injection Hb as <-.
  - simpl. rewrite Eb. split; [by destruct (negb _)|].
    intros (h & Hm & ->). apply Forall_cons in Hm as [(_ & b' & Hb & _) _]. congruence.
Qed.

Lemma bt_values_Forall (P : BroadcasterProtocolSyncStatus → Prop)
    (m : btree string BroadcasterProtocolSyncStatus) :
  Forall P (bt_values m) ↔ ∀ k s, m !! k = Some s → P s.
Proof.
  rewrite Forall_forall. split.
  - intros Hall k s Hk. apply Hall, elem_of_bt_values. by exists k.
  - intros Hall s [k Hk]%elem_of_bt_values. by eapply Hall.
Qed.

Lemma bt_values_nil (m : btree string BroadcasterProtocolSyncStatus) :
  bt_values m = [] ↔ m = ∅.
Proof.
  unfold bt_values. rewrite <- bt_iter_nil. split; [apply fmap_nil_inv|by intros ->].
Qed.

Lemma observe_all_iff bn ms sts :
  (∃ e e', observe_messages bn None ms = Some e ∧ observe_statuses bn e sts = Some e') ↔
  ∃ h, Forall (message_at bn h) ms ∧ Forall (status_at bn h) sts.
Proof.
  destruct ms as [|m ms]; [destruct sts as [|s sts]|].
  - split; [exists ""; split; constructor|by exists None, None].
  - split.
    + intros (e & e' & [= <-] & E). apply observe_statuses_none in E as (h & ? & _).
      by exists h.
    + intros (h & _ & Hs). exists None, (Some h). split; [done|].
      apply observe_statuses_none. eauto.
  - split.
    + intros (e & e' & E1 & E2). apply observe_messages_none in E1 as (h & ? & ->).
      apply observe_statuses_some in E2 as [? _]. by exists h.
    + intros (h & Hm & Hs). exists (Some h), (Some h). split.
      * apply observe_messages_none. eauto.
      * by apply observe_statuses_some.
Qed.

Lemma complete_block_ok bn ms
    (sts : btree string BroadcasterProtocolSyncStatus) b :
  complete_broadcaster_partition_block bn ms sts = Some b ↔
  b = bn ∧ (ms ≠ [] ∨ sts ≠ ∅) ∧
  ∃ h, (∀ m, m ∈ ms → message_at bn h m) ∧ (∀ k st, sts !! k = Some st → status_at bn h st).
Proof.
  setoid_rewrite <- bt_values_Forall. setoid_rewrite <- Forall_forall.
  rewrite <- observe_all_iff. unfold complete_broadcaster_partition_block.
  destruct (bool_decide (length ms = 0) && bool_decide (size sts = 0)) eqn:Ee.
  - split; [done|]. intros (_ & Hne & _).
    apply andb_true_iff in Ee as [Hm%bool_decide_eq_true Hs%bool_decide_eq_true].
    apply length_zero_iff_nil in Hm. apply map_size_empty_iff in Hs. tauto.
  - assert (ms ≠ [] ∨ sts ≠ ∅) as Hne.
    { destruct ms as [|]; [right|by left]. intros ->. by rewrite map_size_empty in Ee. }
    destruct (observe_messages bn None ms) as [e|]; [|naive_solver].
    destruct (observe_statuses bn e (bt_values sts)) as [e'|] eqn:E2; naive_solver.
Qed.
End complete.

(** ** [from_tycho_update], specified *)

(** The loops of [from_tycho_update] group classified items by backend. *)
Section group.
Context `{TychoTypes} {X Y : Type}.
Context (item : X → contract (option (BroadcasterBackend * Y))).

Definition gather (b : BroadcasterBackend) (xs : list X) : list Y :=
  omap (λ x, match item x with
             | Ok (Some (b', y)) => if decide (b' = b) then Some y else None
             | _ => None
             end) xs.
#[local] Arguments gather : simpl never.

Lemma gather_cons b x xs :
  gather b (x :: xs) =
  match item x with
  | Ok (Some (b', y)) => if decide (b' = b) then y :: gather b xs else gather b xs
  | _ => gather b xs
  end.
Proof.
  unfold gather. cbn. destruct (item x) as [[[b' y]|]|]; try done. by case_decide.
Qed.

Lemma elem_of_gather b xs y :
  y ∈ gather b xs ↔ ∃ x, x ∈ xs ∧ item x = Ok (Some (b, y)).
Proof.
  unfold gather. rewrite list_elem_of_omap. split.
  - intros (x & Hx & E). exists x. split; [done|].
    destruct (item x) as [[[b' y']|]|]; try done. case_decide; naive_solver.
  - intros (x & Hx & E). exists x. rewrite E. by rewrite decide_True.
Qed.

Lemma gather_perm b xs1 xs2 : xs1 ≡ₚ xs2 → gather b xs1 ≡ₚ gather b xs2.
Proof. intros Hp. unfold gather. by rewrite Hp. Qed.

Lemma gather_NoDup {K} (kx : X → K) (ky : Y → K) b xs :
  (∀ x y, item x = Ok (Some (b, y)) → ky y = kx x) →
  NoDup (kx <$> xs) → NoDup (ky <$> gather b xs).
Proof.
  intros Hk. induction xs as [|x xs IH]; [constructor|].
  rewrite fmap_cons, gather_cons. intros [Hx Hnd]%NoDup_cons.
  destruct (item x) as [[[b' y]|]|] eqn:E; [|by apply IH..].
  case_decide as Hb; [|by apply IH]. subst.
  rewrite fmap_cons. constructor; [|by apply IH].
  intros (y' & Hy & Hin)%list_elem_of_fmap. apply elem_of_gather in Hin as (x' & Hx' & E').
  apply Hx, list_elem_of_fmap. exists x'. split; [|done].
  by rewrite <- (Hk _ _ E), Hy, (Hk _ _ E').
Qed.

Context (add : Y → UpdatePartitionBuilder → UpdatePartitionBuilder).

Definition group_step (m : btree BroadcasterBackend UpdatePartitionBuilder) (x : X) :
    contract (btree BroadcasterBackend UpdatePartitionBuilder) :=
  o ← item x;
  match o with
  | None => Ok m
  | Some (b, y) => Ok (bt_entry_update UpdatePartitionBuilder_default (add y) b m)
  end.

Definition part (m : btree BroadcasterBackend UpdatePartitionBuilder)
    (b : BroadcasterBackend) : UpdatePartitionBuilder :=
  default UpdatePartitionBuilder_default (m !! b).

Lemma group_step_eq m x :
  group_step m x =
  match item x with
  | Ok (Some (b, y)) => Ok (bt_entry_update UpdatePartitionBuilder_default (add y) b m)
  | Ok None => Ok m
  | Err e => Err e
  end.
Proof. unfold group_step. by destruct (item x) as [[[??]|]|]. Qed.

Lemma group_ok xs m :
  (∃ m', fold_result group_step m xs = Ok m') ↔ Forall (λ x, is_ok (item x) = true) xs.
Proof.
  revert m. induction xs as [|x xs IH]; intros m; simpl; [split; by eauto|].
  rewrite Forall_cons, group_step_eq.
  destruct (item x) as [[[b y]|]|e]; simpl; [rewrite IH; tauto..|].
  split; [by intros [? ?]|by intros [? _]].
Qed.

Lemma group_part m xs m' b :
  fold_result group_step m xs = Ok m' →
  part m' b = foldl (λ v y, add y v) (part m b) (gather b xs).
Proof.
  revert m. induction xs as [|x xs IH]; intros m; simpl; [by intros [= ->]|].
  rewrite group_step_eq.
  destruct (item x) as [[[b' y]|]|e] eqn:E; simpl; [| |done].
  - intros Hr. apply IH in Hr. rewrite Hr, gather_cons, E.
    case_decide as Hb; simpl; unfold part.
    + subst. by rewrite bt_entry_update_eq.
    + by rewrite bt_entry_update_ne.
  - intros Hr. apply IH in Hr. by rewrite Hr, gather_cons, E.
Qed.

End group.

Lemma fold_result_ext {E A S} (f g : S → A → result E S) s l :
  (∀ s x, f s x = g s x) → fold_result f s l = fold_result g s l.
Proof.
  intros Hfg. revert s. induction l as [|x l IH]; intros s; simpl; [done|].
  rewrite Hfg. destruct (g s x); simpl; [apply IH|done].
Qed.

Lemma hm_get_Some {V} (m : hashmap V) k v :
  NoDup m.*1 → hm_get k m = Some v ↔ (k, v) ∈ m.
Proof.
  induction m as [|[k' v'] m IH]; csimpl; [set_solver|].
  intros [Hk Hnd]%NoDup_cons. rewrite elem_of_cons.
  destruct (String.eqb_spec k k') as [->|Hne].
  - split; [intros [= ->]; by left|]. intros [[= ->]|Hin]; [done|].
    destruct Hk. apply list_elem_of_fmap. by exists (k', v).
  - rewrite IH by done. naive_solver.
Qed.

(** A lookup does not depend on the iteration order. *)
Lemma hm_get_same {V} (m1 m2 : hashmap V) k : hm_same m1 m2 → hm_get k m1 = hm_get k m2.
Proof.
  intros [Hnd Hp]. assert (NoDup m2.*1) as Hnd2 by by rewrite <- Hp.
  apply option_eq. intros v. rewrite !hm_get_Some by done. by rewrite Hp.
Qed.

Section from_update.
Context `{TychoTypes}.

Definition new_item (u : TychoUpdate) (x : string * ProtocolComponent) :
    contract (option (BroadcasterBackend * BroadcasterStateEntry)) :=
  state ← ok_or (hm_get x.1 (tu_states u)) (NewPairMissingState x.1);
  backend ← backend_for_component x.1 x.2;
  Ok (Some (backend, {| se_component_id := x.1; se_component := x.2; se_state := state |})).

Definition state_item (u : TychoUpdate) (known : gmap string BroadcasterBackend)
    (x : string * ProtocolSim) :
    contract (option (BroadcasterBackend * BroadcasterStateDelta)) :=
  if hm_contains_key x.1 (tu_new_pairs u) then Ok None
  else
    backend ← ok_or (known !! x.1) (StateBackendMissing x.1);
    Ok (Some (backend, {| sd_component_id := x.1; sd_backend := backend; sd_state := x.2 |})).

Definition removed_item (x : string * ProtocolComponent) :
    contract (option (BroadcasterBackend * BroadcasterRemovedPair)) :=
  backend ← backend_for_component x.1 x.2;
  Ok (Some (backend, {| rp_component_id := x.1; rp_component := x.2 |})).

Definition sync_item (x : string * SynchronizerState) :
    contract (option (BroadcasterBackend * (string * BroadcasterProtocolSyncStatus))) :=
  backend ← backend_for_sync_state x.1;
  Ok (Some (backend, (x.1, from_synchronizer_state x.2))).

(** What the code must be able to classify. *)
Definition tycho_classified (u : TychoUpdate) (known : gmap string BroadcasterBackend) :
    Prop :=
  Forall (λ x, is_ok (new_item u x) = true) (tu_new_pairs u) ∧
  Forall (λ x, is_ok (state_item u known x) = true) (tu_states u) ∧
  Forall (λ x, is_ok (removed_item x) = true) (tu_removed_pairs u) ∧
  Forall (λ x, is_ok (sync_item x) = true) (tu_sync_states u).

(** The partition of one backend: exactly the entries classified to it. *)
Definition tycho_builder (u : TychoUpdate) (known : gmap string BroadcasterBackend)
    (b : BroadcasterBackend) : UpdatePartitionBuilder := {|
  ub_new_pairs := gather (new_item u) b (tu_new_pairs u);
  ub_updated_states := gather (state_item u known) b (tu_states u);
  ub_removed_pairs := gather removed_item b (tu_removed_pairs u);
  ub_sync_statuses :=
    foldl (λ m ks, <[ks.1 := ks.2]> m) ∅ (gather sync_item b (tu_sync_states u));
|}.

Definition tycho_partition (u : TychoUpdate) (known : gmap string BroadcasterBackend)
    (b : BroadcasterBackend) : option BroadcasterUpdatePartition :=
  emit_partition (tu_block_number_or_timestamp u) (b, tycho_builder u known b).

Definition tycho_partitions (u : TychoUpdate) (known : gmap string BroadcasterBackend) :
    list BroadcasterUpdatePartition :=
  omap (tycho_partition u known) [Native; Vm; Rfq].

Lemma foldl_push_new ys v :
  foldl (λ v y, push_new_pair y v) v ys =
  {| ub_new_pairs := ub_new_pairs v ++ ys; ub_updated_states := ub_updated_states v;
     ub_removed_pairs := ub_removed_pairs v; ub_sync_statuses := ub_sync_statuses v |}.
Proof.
  revert v. induction ys as [|y ys IH]; intros [n s r t]; simpl; [by rewrite app_nil_r|].
  rewrite IH. unfold push_new_pair. simpl. by rewrite <- app_assoc.
Qed.

Lemma foldl_push_updated ys v :
  foldl (λ v y, push_updated_state y v) v ys =
  {| ub_new_pairs := ub_new_pairs v; ub_updated_states := ub_updated_states v ++ ys;
     ub_removed_pairs := ub_removed_pairs v; ub_sync_statuses := ub_sync_statuses v |}.
Proof.
  revert v. induction ys as [|y ys IH]; intros [n s r t]; simpl; [by rewrite app_nil_r|].
  rewrite IH. unfold push_updated_state. simpl. by rewrite <- app_assoc.
Qed.

Lemma foldl_push_removed ys v :
  foldl (λ v y, push_removed_pair y v) v ys =
  {| ub_new_pairs := ub_new_pairs v; ub_updated_states := ub_updated_states v;
     ub_removed_pairs := ub_removed_pairs v ++ ys; ub_sync_statuses := ub_sync_statuses v |}.
Proof.
  revert v. induction ys as [|y ys IH]; intros [n s r t]; simpl; [by rewrite app_nil_r|].
  rewrite IH. unfold push_removed_pair. simpl. by rewrite <- app_assoc.
Qed.

Lemma foldl_insert_sync ys v :
  foldl (λ v y, insert_sync_status y v) v ys =
  {| ub_new_pairs := ub_new_pairs v; ub_updated_states := ub_updated_states v;
     ub_removed_pairs := ub_removed_pairs v;
     ub_sync_statuses := foldl (λ m ks, <[ks.1 := ks.2]> m) (ub_sync_statuses v) ys |}.
Proof.
  revert v. induction ys as [|y ys IH]; intros [n s r t]; simpl; [done|]. by rewrite IH.
Qed.

(** The four loops, run together. *)
Definition tycho_loops (u : TychoUpdate) (known : gmap string BroadcasterBackend) :
    contract (btree BroadcasterBackend UpdatePartitionBuilder) :=
  m ← fold_result (group_step (new_item u) push_new_pair) ∅ (tu_new_pairs u);
  m ← fold_result (group_step (state_item u known) push_updated_state) m (tu_states u);
  m ← fold_result (group_step removed_item push_removed_pair) m (tu_removed_pairs u);
  fold_result (group_step sync_item insert_sync_status) m (tu_sync_states u).

Lemma tycho_loops_ok u known :
  (∃ m, tycho_loops u known = Ok m) ↔ tycho_classified u known.
Proof.
  unfold tycho_loops, tycho_classified.
  rewrite <- (group_ok (new_item u) push_new_pair _ ∅). split.
  - intros [m Hm]. repeat (apply bind_ok in Hm as (? & ? & Hm)).
    split_and!; [by eauto|eapply group_ok; by eauto|eapply group_ok; by eauto|].
    eapply group_ok. by eauto.
  - intros ([m1 ->] & H2 & H3 & H4).
    apply (group_ok _ push_updated_state _ m1) in H2 as [m2 E2].
    apply (group_ok _ push_removed_pair _ m2) in H3 as [m3 E3].
    apply (group_ok _ insert_sync_status _ m3) in H4 as [m4 E4].
    exists m4. simpl. rewrite E2. simpl. rewrite E3. simpl. exact E4.
Qed.

Lemma tycho_loops_part u known m b :
  tycho_loops u known = Ok m → part m b = tycho_builder u known b.
Proof.
  unfold tycho_loops. intros Hm.
  apply bind_ok in Hm as (m1 & H1 & Hm). apply bind_ok in Hm as (m2 & H2 & Hm).
  apply bind_ok in Hm as (m3 & H3 & H4).
  apply (group_part _ _ _ _ _ b) in H1, H2, H3, H4.
  rewrite H4, foldl_insert_sync, H3, foldl_push_removed, H2, foldl_push_updated,
    H1, foldl_push_new. done.
Qed.

Lemma from_tycho_update_loops u known :
  from_tycho_update u known =
  (m ← tycho_loops u known;
   BroadcasterUpdateMessage_new
     (omap (emit_partition (tu_block_number_or_timestamp u)) (bt_iter m))).
Proof.
  unfold from_tycho_update, tycho_loops.
  erewrite (fold_result_ext _ (group_step (new_item u) push_new_pair)).
  2: { intros m [id c]. unfold group_step, new_item. simpl.
       destruct (hm_get id _); [|done]. simpl. by destruct (backend_for_component id c). }
  destruct (fold_result _ ∅ _) as [m1|]; [|done]. simpl.
  erewrite (fold_result_ext _ (group_step (state_item u known) push_updated_state)).
  2: { intros m [id c]. unfold group_step, state_item. simpl.
       destruct (hm_contains_key id _); [done|]. by destruct (known !! id). }
  destruct (fold_result _ m1 _) as [m2|]; [|done]. simpl.
  erewrite (fold_result_ext _ (group_step removed_item push_removed_pair)).
  2: { intros m [id c]. unfold group_step, removed_item. simpl.
       by destruct (backend_for_component id c). }
  destruct (fold_result _ m2 _) as [m3|]; [|done]. simpl.
  erewrite (fold_result_ext _ (group_step sync_item insert_sync_status)).
  2: { intros m [id c]. unfold group_step, sync_item. simpl.
       by destruct (backend_for_sync_state id). }
  done.
Qed.
End from_update.

Lemma backends_sorted : StronglySorted (key_le id) [Native; Vm; Rfq].
Proof. repeat constructor. Qed.

Lemma backends_NoDup : NoDup [Native; Vm; Rfq].
Proof. apply (bool_decide_unpack (NoDup [Native; Vm; Rfq])). by vm_compute. Qed.

Lemma backends_all (b : BroadcasterBackend) : b ∈ [Native; Vm; Rfq].
Proof. destruct b; set_solver. Qed.

(** A partition list read off the three backends in order is sorted and unique. *)
Lemma omap_backends_keys {A} (f : BroadcasterBackend → option A) (key : A → BroadcasterBackend) :
  (∀ b x, f b = Some x → key x = b) →
  StronglySorted (key_le key) (omap f [Native; Vm; Rfq]) ∧
  NoDup (map key (omap f [Native; Vm; Rfq])).
Proof.
  intros Hk. simpl.
  destruct (f Native) as [x|] eqn:E1, (f Vm) as [y|] eqn:E2, (f Rfq) as [z|] eqn:E3; simpl;
    (split; [repeat constructor; unfold key_le|]);
    rewrite ?(Hk _ _ E1), ?(Hk _ _ E2), ?(Hk _ _ E3); try done;
    apply (bool_decide_unpack (NoDup _)); by vm_compute.
Qed.

Lemma foldl_insert_lookup {V} (l : list (string * V)) (m : gmap string V) k v :
  foldl (λ m ks, <[ks.1 := ks.2]> m) m l !! k = Some v → (k, v) ∈ l ∨ m !! k = Some v.
Proof.
  revert m. induction l as [|[k' v'] l IH]; intros m; simpl; [by right|].
  intros [Hin|Hm]%IH; [left; by right|].
  destruct (decide (k' = k)) as [->|Hne].
  - rewrite lookup_insert_eq in Hm. injection Hm as ->. left. left.
  - rewrite lookup_insert_ne in Hm by done. by right.
Qed.

Lemma foldl_insert_perm {V} (l1 l2 : list (string * V)) :
  NoDup l1.*1 → l1 ≡ₚ l2 →
  foldl (λ m ks, <[ks.1 := ks.2]> m) (∅ : gmap string V) l1 =
  foldl (λ m ks, <[ks.1 := ks.2]> m) ∅ l2.
Proof.
  assert (∀ (l : list (string * V)) (m : gmap string V), NoDup l.*1 →
    (∀ k, k ∈ l.*1 → m !! k = None) →
    foldl (λ m ks, <[ks.1 := ks.2]> m) m l = (list_to_map l : gmap string V) ∪ m) as Heq.
  { induction l as [|[k v] l IH]; intros m; csimpl; [by rewrite (left_id_L ∅ _)|].
    intros [Hk Hnd]%NoDup_cons Hm. rewrite IH; [|done|].
    - rewrite <- insert_union_r, insert_union_l; [done|].
      by apply not_elem_of_list_to_map.
    - intros k' Hk'. rewrite lookup_insert_ne by set_solver. apply Hm. set_solver. }
  intros Hnd Hp. rewrite !Heq; try done.
  - f_equal. by apply list_to_map_proper.
  - by rewrite <- Hp.
Qed.

Lemma list_omap_omap {A B C} (f : A → option B) (g : B → option C) (l : list A) :
  omap g (omap f l) = omap (λ x, f x ≫= g) l.
Proof. induction l as [|x l IH]; [done|]. cbn. destruct (f x); cbn; by rewrite IH. Qed.

Lemma list_omap_ext_id {A B} (f g : A → option B) (l : list A) :
  (∀ x, f x = g x) → omap f l = omap g l.
Proof. intros Hfg. induction l as [|x l IH]; [done|]. cbn. by rewrite Hfg, IH. Qed.

Section from_update_facts.
Context `{TychoTypes}.

Lemma tycho_partition_backend u known b p :
  tycho_partition u known b = Some p → up_backend p = b.
Proof. unfold tycho_partition, emit_partition. case_match; [done|]. by intros [= <-]. Qed.

Lemma sort_nil_iff {A K} `{TotalOrder K} (key : A → K) l :
  length (sort_by_key key l) = length l.
Proof. by rewrite sort_by_key_perm. Qed.

Lemma tycho_partition_filled u known b p :
  tycho_partition u known b = Some p → BroadcasterUpdatePartition_is_empty p = false.
Proof.
  unfold tycho_partition, emit_partition.
  destruct (UpdatePartitionBuilder_is_empty _) eqn:E; [done|].
  intros [= <-]. unfold BroadcasterUpdatePartition_is_empty, UpdatePartitionBuilder_is_empty
    in *. cbn in *. by rewrite !sort_nil_iff.
Qed.

Lemma tycho_partition_content u known b p :
  tycho_partition u known b = Some p → update_content_ok p.
Proof.
  unfold tycho_partition, emit_partition. case_match; [done|]. intros [= <-].
  split; cbn.
  - by intros m Hm%elem_of_nil.
  - intros e He. rewrite sort_by_key_perm in He.
    apply elem_of_gather in He as (x & _ & E). unfold new_item in E.
    apply bind_ok in E as (st & _ & E). apply bind_ok in E as (b' & Hb & [= -> <-]). done.
  - intros d Hd. rewrite sort_by_key_perm in Hd.
    apply elem_of_gather in Hd as (x & _ & E). unfold state_item in E.
    case_match; [done|]. by apply bind_ok in E as (b' & _ & [= -> <-]).
  - intros e He. rewrite sort_by_key_perm in He.
    apply elem_of_gather in He as (x & _ & E). unfold removed_item in E.
    by apply bind_ok in E as (b' & Hb & [= -> <-]).
  - intros k s Hk. apply foldl_insert_lookup in Hk as [Hin|Hin].
    + apply elem_of_gather in Hin as (x & _ & E). unfold sync_item in E.
      by apply bind_ok in E as (b' & Hb & [= -> <- _]).
    + by rewrite lookup_empty in Hin.
Qed.

Lemma tycho_partitions_valid u known :
  tycho_partitions u known ≠ [] → update_valid (tycho_partitions u known).
Proof.
  intros Hne. unfold tycho_partitions in *. split.
  - done.
  - apply omap_backends_keys. apply tycho_partition_backend.
  - apply Forall_forall. intros p (b & _ & Hp)%list_elem_of_omap.
    by eapply tycho_partition_filled.
  - apply Forall_forall. intros p (b & _ & Hp)%list_elem_of_omap.
    by eapply tycho_partition_content.
Qed.

Lemma emit_default bn b :
  emit_partition bn (b, UpdatePartitionBuilder_default) = None.
Proof. done. Qed.

Lemma from_tycho_update_emit u known m :
  tycho_loops u known = Ok m →
  omap (emit_partition (tu_block_number_or_timestamp u)) (bt_iter m) =
  tycho_partitions u known.
Proof.
  intros Hm. rewrite (bt_iter_scan [Native; Vm; Rfq])
    by eauto using backends_sorted, backends_NoDup, backends_all.
  unfold tycho_partitions. rewrite list_omap_omap. apply list_omap_ext_id. intros b.
  unfold tycho_partition. rewrite <- (tycho_loops_part _ _ _ b Hm). unfold part.
  by destruct (m !! b).
Qed.

Lemma from_tycho_update_ok u known msg :
  from_tycho_update u known = Ok msg ↔
  tycho_classified u known ∧ tycho_partitions u known ≠ [] ∧
  msg = {| um_partitions := tycho_partitions u known |}.
Proof.
  rewrite from_tycho_update_loops, bind_ok, <- tycho_loops_ok. split.
  - intros (m & Hm & Hnew). rewrite (from_tycho_update_emit u known m) in Hnew by done.
    apply BroadcasterUpdateMessage_new_ok in Hnew as [Hv ->].
    split_and!; [by eauto|by destruct Hv|]. f_equal.
    apply sort_by_key_id, omap_backends_keys, tycho_partition_backend.
  - intros ([m Hm] & Hne & ->). exists m. split; [done|].
    rewrite (from_tycho_update_emit u known m) by done.
    apply BroadcasterUpdateMessage_new_ok. split; [by apply tycho_partitions_valid|].
    f_equal. symmetry. apply sort_by_key_id, omap_backends_keys, tycho_partition_backend.
Qed.

Definition tycho_same (u1 u2 : TychoUpdate) : Prop :=
  tu_block_number_or_timestamp u1 = tu_block_number_or_timestamp u2 ∧
  hm_same (tu_states u1) (tu_states u2) ∧ hm_same (tu_new_pairs u1) (tu_new_pairs u2) ∧
  hm_same (tu_removed_pairs u1) (tu_removed_pairs u2) ∧
  hm_same (tu_sync_states u1) (tu_sync_states u2).

Lemma new_item_same u1 u2 x : tycho_same u1 u2 → new_item u1 x = new_item u2 x.
Proof. intros (_ & Hs & _). unfold new_item. by rewrite (hm_get_same _ _ _ Hs). Qed.

Lemma state_item_same u1 u2 known x :
  tycho_same u1 u2 → state_item u1 known x = state_item u2 known x.
Proof.
  intros (_ & _ & Hs & _). unfold state_item, hm_contains_key.
  by rewrite (hm_get_same _ _ _ Hs).
Qed.

Lemma gather_ext {X Y} (f g : X → contract (option (BroadcasterBackend * Y))) b xs :
  (∀ x, f x = g x) → gather f b xs = gather g b xs.
Proof.
  intros Hfg. induction xs as [|x xs IH]; [done|]. rewrite !gather_cons, Hfg, IH. done.
Qed.

Lemma gather_sorted_same {X Y} (item : string * X → contract (option (BroadcasterBackend * Y)))
    (key : Y → string) b (l1 l2 : hashmap X) :
  (∀ x y, item x = Ok (Some (b, y)) → key y = x.1) → hm_same l1 l2 →
  sort_by_key key (gather item b l1) = sort_by_key key (gather item b l2).
Proof.
  intros Hk [Hnd Hp]. apply sort_by_key_det; [|by apply gather_perm].
  by eapply (gather_NoDup item fst).
Qed.

Lemma tycho_partition_same u1 u2 known b :
  tycho_same u1 u2 → tycho_partition u1 known b = tycho_partition u2 known b.
Proof.
  intros Hsame. pose proof Hsame as (Hbn & Hst & Hnew & Hrem & Hsync).
  unfold tycho_partition, emit_partition, BroadcasterUpdatePartition_new,
    UpdatePartitionBuilder_is_empty. cbn.
  rewrite (gather_ext _ (new_item u2) _ (tu_new_pairs u1)) by eauto using new_item_same.
  rewrite (gather_ext _ (state_item u2 known) _ (tu_states u1))
    by eauto using state_item_same.
  rewrite (gather_sorted_same (new_item u2) se_component_id b _ (tu_new_pairs u2)); [|
    |done].
  2: { intros x y E. unfold new_item in E. apply bind_ok in E as (? & _ & E).
       by apply bind_ok in E as (? & _ & [= _ <-]). }
  rewrite (gather_sorted_same (state_item u2 known) sd_component_id b _ (tu_states u2)); [|
    |done].
  2: { intros x y E. unfold state_item in E. case_match; [done|].
       by apply bind_ok in E as (? & _ & [= _ <-]). }
  rewrite (gather_sorted_same removed_item rp_component_id b _ (tu_removed_pairs u2)); [|
    |done].
  2: { intros x y E. unfold removed_item in E. by apply bind_ok in E as (? & _ & [= _ <-]). }
  rewrite (foldl_insert_perm _ (gather sync_item b (tu_sync_states u2))).
  2: { destruct Hsync as [Hnd _]. eapply (gather_NoDup sync_item fst); [|done].
       intros x y E. unfold sync_item in E. by apply bind_ok in E as (? & _ & [= _ <-]). }
  2: { destruct Hsync. by apply gather_perm. }
  destruct Hnew as [_ Hnew], Hst as [_ Hst], Hrem as [_ Hrem].
  rewrite (Permutation_length (gather_perm (new_item u2) b _ _ Hnew)),
    (Permutation_length (gather_perm (state_item u2 known) b _ _ Hst)),
    (Permutation_length (gather_perm removed_item b _ _ Hrem)), Hbn. done.
Qed.

Lemma tycho_classified_same u1 u2 known :
  tycho_same u1 u2 → tycho_classified u1 known ↔ tycho_classified u2 known.
Proof.
  intros Hsame. pose proof Hsame as (_ & [_ Hst] & [_ Hnew] & [_ Hrem] & [_ Hsync]).
  unfold tycho_classified. rewrite Hst, Hnew, Hrem, Hsync.
  setoid_rewrite (λ x, new_item_same u1 u2 x Hsame).
  by setoid_rewrite (λ x, state_item_same u1 u2 known x Hsame).
Qed.

Lemma from_tycho_update_same u1 u2 known :
  tycho_same u1 u2 →
  result_ok (from_tycho_update u1 known) = result_ok (from_tycho_update u2 known).
Proof.
  intros Hsame.
  assert (tycho_partitions u1 known = tycho_partitions u2 known) as Hps.
  { apply list_omap_ext_id. intros b. by apply tycho_partition_same. }
  apply option_eq. intros msg.
  assert (∀ u, result_ok (from_tycho_update u known) = Some msg ↔
               from_tycho_update u known = Ok msg) as Hok.
  { intros u. destruct (from_tycho_update u known); naive_solver. }
  rewrite !Hok, !from_tycho_update_ok, Hps, (tycho_classified_same _ _ _ Hsame). done.
Qed.
End from_update_facts.

(** ** Properties *)

(** An update becomes a broadcaster message exactly when everything in it can be
    classified and something is left to say; the message then has one partition per
    backend with content, in backend order, holding exactly the entries of that
    backend. *)
Theorem from_tycho_update_iff `{TychoTypes} u known msg :
  from_tycho_update u known = Ok msg ↔
  tycho_classified u known ∧ tycho_partitions u known ≠ [] ∧
  msg = {| um_partitions := tycho_partitions u known |}.
Proof. apply from_tycho_update_ok. Qed.

(** The message does not depend on the iteration order of the update's hash maps. *)
Theorem from_tycho_update_order_independent `{TychoTypes} u1 u2 known :
  tycho_same u1 u2 →
  result_ok (from_tycho_update u1 known) = result_ok (from_tycho_update u2 known).
Proof. apply from_tycho_update_same. Qed.

(** A partition names a complete block exactly when it is not empty and all its
    messages, synchronisation headers and statuses agree on one full block of its own
    number. *)
Theorem complete_broadcaster_partition_block_iff `{TychoTypes} bn ms
    (sts : btree string BroadcasterProtocolSyncStatus) b :
  complete_broadcaster_partition_block bn ms sts = Some b ↔
  b = bn ∧ (ms ≠ [] ∨ sts ≠ ∅) ∧
  ∃ h, (∀ m, m ∈ ms → message_at bn h m) ∧ (∀ k st, sts !! k = Some st → status_at bn h st).
Proof. apply complete_block_ok. Qed.

(** ** Witnesses *)

Definition demo_tycho_update (states : list (string * N)) : @TychoUpdate demo_tycho :=
  @Build_TychoUpdate demo_tycho 17 states [("pool-b", ("vm:curve", "curve_pool"))] []
    [("uniswap_v2", @SyncReady demo_tycho
        {| demo_hash := "0xabc"; demo_number := 17; demo_partial := None |})].

Definition demo_known : gmap string BroadcasterBackend := <["pool-a" := Native]> ∅.

Lemma from_tycho_update_order_independent_witness :
  is_ok (from_tycho_update (demo_tycho_update [("pool-a", 1%N); ("pool-b", 2%N)]) demo_known)
    = true ∧
  result_ok (from_tycho_update (demo_tycho_update [("pool-a", 1%N); ("pool-b", 2%N)]) demo_known) =
  result_ok (from_tycho_update (demo_tycho_update [("pool-b", 2%N); ("pool-a", 1%N)]) demo_known).
Proof.
  split; [by vm_compute|].
  apply (@from_tycho_update_order_independent demo_tycho
           (demo_tycho_update [("pool-a", 1%N); ("pool-b", 2%N)])
           (demo_tycho_update [("pool-b", 2%N); ("pool-a", 1%N)]) demo_known).
  split_and!; [done|..]; split; try apply Permutation_swap; try done;
    apply (bool_decide_unpack _); by vm_compute.
Defined.
