(* ===== verification/Tracker.v ===== *)
(** * The subscription tracker

    [simulator-core/src/broadcaster.rs]: [BroadcasterSubscriptionState] and
    [BroadcasterSubscriptionTracker], the state machine every consumer of the
    broadcaster runs over the envelopes it receives: a snapshot (start, chunks,
    end) and then live updates, heartbeats and progress messages, in one gapless
    message sequence. *)

From S2P Require Import Prelude Ordered Text Protocol Wire Validate.

(** The fields of the [Snapshot] variant, [SnapshotObservationState] in the code. *)
Record SnapshotObservationState := {
  so_stream_id : string;
  so_chain_id : u64;
  so_snapshot_id : string;
  so_declared_backends : gset BroadcasterBackend;
  so_observed_backends : gset BroadcasterBackend;
  so_next_chunk_index : u32;
  so_total_chunks : u32;
}.

Record LiveState := {
  lv_stream_id : string;
  lv_chain_id : u64;
  lv_snapshot_id : string;
  lv_declared_backends : gset BroadcasterBackend;
}.

Inductive BroadcasterSubscriptionState :=
| AwaitingSnapshot
| Snapshot (s : SnapshotObservationState)
| Live (l : LiveState).

Definition BroadcasterSubscriptionState_label (s : BroadcasterSubscriptionState) : string :=
  match s with
  | AwaitingSnapshot => "awaiting_snapshot"
  | Snapshot _ => "snapshot"
  | Live _ => "live"
  end.

Inductive BroadcasterSubscriptionEvent :=
| SnapshotStarted (snapshot_id : string)
| SnapshotChunkAccepted (snapshot_id : string) (chunk_index : u32)
| SnapshotCompleted (snapshot_id : string)
| UpdateAccepted
| HeartbeatAccepted
| ProgressAccepted.

Record BroadcasterSubscriptionTracker := {
  tr_state : BroadcasterSubscriptionState;
  tr_next_message_seq : option u64;
}.

Definition tracker_new : BroadcasterSubscriptionTracker :=
  {| tr_state := AwaitingSnapshot; tr_next_message_seq := None |}.

(** [reset_for_reconnect]. *)
Definition reset_for_reconnect (t : BroadcasterSubscriptionTracker) :
    BroadcasterSubscriptionTracker :=
  {| tr_state := AwaitingSnapshot; tr_next_message_seq := None |}.

Abbreviation trackerM := (stateR BroadcasterSubscriptionTracker BroadcasterContractError).

Definition set_state (s : BroadcasterSubscriptionState) : trackerM unit :=
  modify (λ t, {| tr_state := s; tr_next_message_seq := tr_next_message_seq t |}).

Definition set_next_message_seq (n : option u64) : trackerM unit :=
  modify (λ t, {| tr_state := tr_state t; tr_next_message_seq := n |}).

(** What the tracker reads of a replay boundary; the boundary itself is in
    [RedisEntry]. *)
Definition align_live_replay_boundary (boundary_stream_id boundary_snapshot_id : string)
    (exclusive_message_seq : u64) : trackerM unit :=
  st ← gets tr_state;
  match st with
  | Live l =>
      lift (ensure_stream_id (lv_stream_id l) boundary_stream_id) ;;
      lift (ensure_snapshot_id (lv_snapshot_id l) boundary_snapshot_id) ;;
      next ← lift (next_message_seq exclusive_message_seq);
      set_next_message_seq (Some next)
  | st => throw (RedisReplayBoundaryBeforeSnapshotComplete
                   (BroadcasterSubscriptionState_label st))
  end.

Section tracker.
Context `{TychoTypes}.

Definition skip_live_delta (envelope : BroadcasterEnvelope) : trackerM unit :=
  st ← gets tr_state;
  match st with
  | Live l =>
      lift (ensure_stream_id (lv_stream_id l) (env_stream_id envelope)) ;;
      expected ← gets tr_next_message_seq;
      lift (ensure_message_seq expected (env_message_seq envelope)) ;;
      next_seq ← lift (next_message_seq (env_message_seq envelope));
      match env_payload envelope with
      | SnapshotStart _ =>
          throw (UnexpectedSnapshotStart (BroadcasterSubscriptionState_label st))
      | SnapshotChunk _ => throw UnexpectedSnapshotChunk
      | SnapshotEnd _ => throw UnexpectedSnapshotEnd
      | RecoveryStart _ | RecoveryChunk _ | RecoveryCatchUp _ | RecoveryCommit _ =>
          throw (UnexpectedRecoveryMessage (BroadcasterEnvelope_kind envelope))
      | Update _ | Heartbeat _ | Progress _ => set_next_message_seq (Some next_seq)
      end
  | st => throw (RedisReplayBoundaryBeforeSnapshotComplete
                   (BroadcasterSubscriptionState_label st))
  end.

Definition observe_awaiting_snapshot (envelope : BroadcasterEnvelope) :
    trackerM BroadcasterSubscriptionEvent :=
  match env_payload envelope with
  | SnapshotStart start =>
      lift (validate_snapshot_start_backends (ss_backends start)) ;;
      next_seq ← lift (next_message_seq (env_message_seq envelope));
      set_state (Snapshot {|
        so_stream_id := env_stream_id envelope;
        so_chain_id := ss_chain_id start;
        so_snapshot_id := ss_snapshot_id start;
        so_declared_backends := list_to_set (ss_backends start);
        so_observed_backends := ∅;
        so_next_chunk_index := 0;
        so_total_chunks := ss_total_chunks start |}) ;;
      set_next_message_seq (Some next_seq) ;;
      mret (SnapshotStarted (ss_snapshot_id start))
  | _ => throw (ExpectedSnapshotStart (BroadcasterEnvelope_kind envelope))
  end.

Definition observe_snapshot (envelope : BroadcasterEnvelope)
    (snapshot : SnapshotObservationState) : trackerM BroadcasterSubscriptionEvent :=
  lift (ensure_stream_id (so_stream_id snapshot) (env_stream_id envelope)) ;;
  expected ← gets tr_next_message_seq;
  lift (ensure_message_seq expected (env_message_seq envelope)) ;;
  next_seq ← lift (next_message_seq (env_message_seq envelope));
  match env_payload envelope with
  | SnapshotStart _ =>
      st ← gets tr_state;
      throw (UnexpectedSnapshotStart (BroadcasterSubscriptionState_label st))
  | SnapshotChunk chunk =>
      if negb (String.eqb (sc_snapshot_id chunk) (so_snapshot_id snapshot)) then
        throw (UnexpectedSnapshotId (so_snapshot_id snapshot) (sc_snapshot_id chunk))
      else if (so_total_chunks snapshot <=? so_next_chunk_index snapshot)%N then
        throw (ExtraSnapshotChunk (so_total_chunks snapshot) (sc_chunk_index chunk))
      else
        lift (validate_snapshot_chunk_partitions (sc_partitions chunk)) ;;
        lift (validate_declared_snapshot_chunk_backends (sc_partitions chunk)
                (so_declared_backends snapshot)) ;;
        if negb (sc_chunk_index chunk =? so_next_chunk_index snapshot)%N then
          throw (UnexpectedChunkIndex (so_next_chunk_index snapshot) (sc_chunk_index chunk))
        else
          set_state (Snapshot {|
            so_stream_id := so_stream_id snapshot;
            so_chain_id := so_chain_id snapshot;
            so_snapshot_id := so_snapshot_id snapshot;
            so_declared_backends := so_declared_backends snapshot;
            so_observed_backends :=
              so_observed_backends snapshot
              ∪ list_to_set (map sp_backend (sc_partitions chunk));
            so_next_chunk_index := so_next_chunk_index snapshot + 1;
            so_total_chunks := so_total_chunks snapshot |}) ;;
          set_next_message_seq (Some next_seq) ;;
          mret (SnapshotChunkAccepted (sc_snapshot_id chunk) (sc_chunk_index chunk))
  | SnapshotEnd end_ =>
      if negb (String.eqb (sn_snapshot_id end_) (so_snapshot_id snapshot)) then
        throw (UnexpectedSnapshotId (so_snapshot_id snapshot) (sn_snapshot_id end_))
      else if negb (so_next_chunk_index snapshot =? so_total_chunks snapshot)%N then
        throw (SnapshotIncomplete (so_total_chunks snapshot) (so_next_chunk_index snapshot))
      else
        lift (ensure_all_declared_backends_observed (so_declared_backends snapshot)
                (so_observed_backends snapshot)) ;;
        set_state (Live {|
          lv_stream_id := so_stream_id snapshot;
          lv_chain_id := so_chain_id snapshot;
          lv_snapshot_id := so_snapshot_id snapshot;
          lv_declared_backends := so_declared_backends snapshot |}) ;;
        set_next_message_seq (Some next_seq) ;;
        mret (SnapshotCompleted (sn_snapshot_id end_))
  | RecoveryStart _ | RecoveryChunk _ | RecoveryCatchUp _ | RecoveryCommit _ =>
      throw (UnexpectedRecoveryMessage (BroadcasterEnvelope_kind envelope))
  | Update _ => throw UpdateBeforeSnapshotComplete
  | Heartbeat _ => throw HeartbeatBeforeSnapshotComplete
  | Progress _ => throw ProgressBeforeSnapshotComplete
  end.

Definition observe_live (envelope : BroadcasterEnvelope) (live : LiveState) :
    trackerM BroadcasterSubscriptionEvent :=
  lift (ensure_stream_id (lv_stream_id live) (env_stream_id envelope)) ;;
  expected ← gets tr_next_message_seq;
  lift (ensure_message_seq expected (env_message_seq envelope)) ;;
  next_seq ← lift (next_message_seq (env_message_seq envelope));
  match env_payload envelope with
  | SnapshotStart _ =>
      st ← gets tr_state;
      throw (UnexpectedSnapshotStart (BroadcasterSubscriptionState_label st))
  | SnapshotChunk _ => throw UnexpectedSnapshotChunk
  | SnapshotEnd _ => throw UnexpectedSnapshotEnd
  | RecoveryStart _ | RecoveryChunk _ | RecoveryCatchUp _ | RecoveryCommit _ =>
      throw (UnexpectedRecoveryMessage (BroadcasterEnvelope_kind envelope))
  | Update update =>
      lift (validate_update_partitions (um_partitions update)) ;;
      lift (validate_declared_update_backends (um_partitions update)
              (lv_declared_backends live)) ;;
      set_next_message_seq (Some next_seq) ;;
      mret UpdateAccepted
  | Heartbeat heartbeat =>
      lift (validate_heartbeat_backend_heads (hb_backend_heads heartbeat)) ;;
      lift (validate_declared_heartbeat_backends (hb_backend_heads heartbeat)
              (lv_declared_backends live)) ;;
      lift (ensure_chain_id (lv_chain_id live) (hb_chain_id heartbeat)) ;;
      lift (ensure_snapshot_id (lv_snapshot_id live) (hb_snapshot_id heartbeat)) ;;
      set_next_message_seq (Some next_seq) ;;
      mret HeartbeatAccepted
  | Progress progress =>
      lift (validate_progress_backends (pg_backends progress)) ;;
      lift (validate_declared_progress_backends (pg_backends progress)
              (lv_declared_backends live)) ;;
      lift (ensure_chain_id (lv_chain_id live) (pg_chain_id progress)) ;;
      lift (ensure_snapshot_id (lv_snapshot_id live) (pg_snapshot_id progress)) ;;
      set_next_message_seq (Some next_seq) ;;
      mret ProgressAccepted
  end.

Definition observe (envelope : BroadcasterEnvelope) :
    trackerM BroadcasterSubscriptionEvent :=
  st ← gets tr_state;
  match st with
  | AwaitingSnapshot => observe_awaiting_snapshot envelope
  | Snapshot snapshot => observe_snapshot envelope snapshot
  | Live live => observe_live envelope live
  end.
End tracker.

(** ** Specification: the accepted steps *)

Section spec.
Context `{TychoTypes}.
Implicit Types (e : BroadcasterEnvelope) (t : BroadcasterSubscriptionTracker).

(** The envelope continues the stream at the expected sequence number. *)
Definition continues (stream_id : string) t e : Prop :=
  env_stream_id e = stream_id ∧
  tr_next_message_seq t = Some (env_message_seq e) ∧
  (env_message_seq e + 1 ≤ u64_max)%N.

Definition chunk_ok (snapshot_id : string) (declared : gset BroadcasterBackend)
    (index : N) (c : BroadcasterSnapshotChunk) : Prop :=
  sc_snapshot_id c = snapshot_id ∧ sc_chunk_index c = index ∧
  NoDup (map sp_backend (sc_partitions c)) ∧
  Forall snapshot_content_ok (sc_partitions c) ∧
  (∀ p, p ∈ sc_partitions c → sp_backend p ∈ declared).

(** The messages a live consumer accepts, with the event of each. *)
Definition live_accepts (l : LiveState) (p : BroadcasterPayload) :
    BroadcasterSubscriptionEvent → Prop :=
  match p with
  | Update u => λ ev, ev = UpdateAccepted ∧ update_valid (um_partitions u) ∧
      (∀ p, p ∈ um_partitions u → up_backend p ∈ lv_declared_backends l)
  | Heartbeat h => λ ev, ev = HeartbeatAccepted ∧ NoDup (map bh_backend (hb_backend_heads h)) ∧
      (∀ x, x ∈ hb_backend_heads h → bh_backend x ∈ lv_declared_backends l) ∧
      hb_chain_id h = lv_chain_id l ∧ hb_snapshot_id h = lv_snapshot_id l
  | Progress g => λ ev, ev = ProgressAccepted ∧ NoDup (pg_backends g) ∧
      (∀ b, b ∈ pg_backends g → b ∈ lv_declared_backends l) ∧
      pg_chain_id g = lv_chain_id l ∧ pg_snapshot_id g = lv_snapshot_id l
  | _ => λ _, False
  end.

Definition started (e : BroadcasterEnvelope) (start : BroadcasterSnapshotStart) :
    SnapshotObservationState := {|
  so_stream_id := env_stream_id e;
  so_chain_id := ss_chain_id start;
  so_snapshot_id := ss_snapshot_id start;
  so_declared_backends := list_to_set (ss_backends start);
  so_observed_backends := ∅;
  so_next_chunk_index := 0;
  so_total_chunks := ss_total_chunks start |}.

Definition chunk_backends (c : BroadcasterSnapshotChunk) : gset BroadcasterBackend :=
  list_to_set (map sp_backend (sc_partitions c)).

Definition chunked (s : SnapshotObservationState) (c : BroadcasterSnapshotChunk) :
    SnapshotObservationState := {|
  so_stream_id := so_stream_id s;
  so_chain_id := so_chain_id s;
  so_snapshot_id := so_snapshot_id s;
  so_declared_backends := so_declared_backends s;
  so_observed_backends := so_observed_backends s ∪ chunk_backends c;
  so_next_chunk_index := so_next_chunk_index s + 1;
  so_total_chunks := so_total_chunks s |}.

Definition completed (s : SnapshotObservationState) : LiveState := {|
  lv_stream_id := so_stream_id s;
  lv_chain_id := so_chain_id s;
  lv_snapshot_id := so_snapshot_id s;
  lv_declared_backends := so_declared_backends s |}.

Definition moved (s : BroadcasterSubscriptionState) e : BroadcasterSubscriptionTracker :=
  {| tr_state := s; tr_next_message_seq := Some (env_message_seq e + 1)%N |}.

(** The protocol as a step relation. *)
Inductive tracker_step t e : BroadcasterSubscriptionEvent →
    BroadcasterSubscriptionTracker → Prop :=
| step_start start :
    tr_state t = AwaitingSnapshot → env_payload e = SnapshotStart start →
    NoDup (ss_backends start) → (env_message_seq e + 1 ≤ u64_max)%N →
    tracker_step t e (SnapshotStarted (ss_snapshot_id start)) (moved (Snapshot (started e start)) e)
| step_chunk s c :
    tr_state t = Snapshot s → env_payload e = SnapshotChunk c →
    continues (so_stream_id s) t e →
    (so_next_chunk_index s < so_total_chunks s)%N →
    chunk_ok (so_snapshot_id s) (so_declared_backends s) (so_next_chunk_index s) c →
    tracker_step t e (SnapshotChunkAccepted (sc_snapshot_id c) (sc_chunk_index c))
      (moved (Snapshot (chunked s c)) e)
| step_end s n :
    tr_state t = Snapshot s → env_payload e = SnapshotEnd n →
    continues (so_stream_id s) t e →
    sn_snapshot_id n = so_snapshot_id s →
    so_next_chunk_index s = so_total_chunks s →
    so_declared_backends s ⊆ so_observed_backends s →
    tracker_step t e (SnapshotCompleted (sn_snapshot_id n)) (moved (Live (completed s)) e)
| step_live l ev :
    tr_state t = Live l → continues (lv_stream_id l) t e →
    live_accepts l (env_payload e) ev →
    tracker_step t e ev (moved (Live l) e).

(** ** Refinement *)

Lemma in_map_iff_forall {A} (f : A → BroadcasterBackend) (l : list A) (P : BroadcasterBackend → Prop) :
  (∀ b, b ∈ map f l → P b) ↔ (∀ x, x ∈ l → P (f x)).
Proof.
  split.
  - intros Hall x Hx. apply Hall, list_elem_of_fmap. by exists x.
  - intros Hall b (x & -> & Hx)%list_elem_of_fmap. by apply Hall.
Qed.

Lemma continues_checks {B} stream_id t e (k : N → trackerM B) b t' :
  (lift (ensure_stream_id stream_id (env_stream_id e)) ;;
   expected ← gets tr_next_message_seq;
   lift (ensure_message_seq expected (env_message_seq e)) ;;
   next_seq ← lift (next_message_seq (env_message_seq e));
   k next_seq) t = (Ok b, t') ↔
  continues stream_id t e ∧ k (env_message_seq e + 1)%N t = (Ok b, t').
Proof.
  rewrite lift_seq_ok, gets_bind, lift_seq_ok, lift_bind_ok, ensure_stream_id_ok,
    ensure_message_seq_ok.
  setoid_rewrite next_message_seq_ok. unfold continues. naive_solver.
Qed.

Lemma observe_awaiting_snapshot_ok e t ev t' :
  tr_state t = AwaitingSnapshot →
  observe_awaiting_snapshot e t = (Ok ev, t') ↔ tracker_step t e ev t'.
Proof.
  intros Ht. unfold observe_awaiting_snapshot. split.
  - destruct (env_payload e) as [start| | | | | | | | |] eqn:Ep; try done.
    rewrite lift_seq_ok, lift_bind_ok. unfold validate_snapshot_start_backends,
      validate_unique_backends. rewrite validate_unique_backend_entries_ok.
    intros (Hnd & n & Hn & [= <- <-]). apply next_message_seq_ok in Hn as [-> Hn].
    destruct t. simpl in *. by apply (step_start _ e start).
  - destruct 1; try congruence. rewrite H1, lift_seq_ok, lift_bind_ok.
    unfold validate_snapshot_start_backends, validate_unique_backends.
    rewrite validate_unique_backend_entries_ok. split; [done|].
    exists (env_message_seq e + 1)%N. by rewrite next_message_seq_ok.
Qed.

Lemma observe_chunk_ok e s c n t ev t' :
  (if negb (String.eqb (sc_snapshot_id c) (so_snapshot_id s)) then
     throw (UnexpectedSnapshotId (so_snapshot_id s) (sc_snapshot_id c))
   else if (so_total_chunks s <=? so_next_chunk_index s)%N then
     throw (ExtraSnapshotChunk (so_total_chunks s) (sc_chunk_index c))
   else
     lift (validate_snapshot_chunk_partitions (sc_partitions c)) ;;
     lift (validate_declared_snapshot_chunk_backends (sc_partitions c)
             (so_declared_backends s)) ;;
     if negb (sc_chunk_index c =? so_next_chunk_index s)%N then
       throw (UnexpectedChunkIndex (so_next_chunk_index s) (sc_chunk_index c))
     else
       set_state (Snapshot (chunked s c)) ;;
       set_next_message_seq (Some n) ;;
       mret (SnapshotChunkAccepted (sc_snapshot_id c) (sc_chunk_index c))) t = (Ok ev, t') ↔
  (so_next_chunk_index s < so_total_chunks s)%N ∧
  chunk_ok (so_snapshot_id s) (so_declared_backends s) (so_next_chunk_index s) c ∧
  ev = SnapshotChunkAccepted (sc_snapshot_id c) (sc_chunk_index c) ∧
  t' = {| tr_state := Snapshot (chunked s c); tr_next_message_seq := Some n |}.
Proof.
  unfold chunk_ok.
  destruct (String.eqb_spec (sc_snapshot_id c) (so_snapshot_id s)); simpl; [|naive_solver].
  destruct (N.leb_spec (so_total_chunks s) (so_next_chunk_index s)); [naive_solver lia|].
  rewrite !lift_seq_ok, validate_snapshot_chunk_partitions_ok.
  unfold validate_declared_snapshot_chunk_backends.
  rewrite validate_declared_backend_entries_ok, in_map_iff_forall.
  destruct (N.eqb_spec (sc_chunk_index c) (so_next_chunk_index s)); simpl; [|naive_solver].
  unfold set_state, set_next_message_seq. rewrite !modify_bind. simpl.
  split; [intros (? & ? & [= <- <-])|intros (? & ? & -> & ->)]; naive_solver.
Qed.

Lemma observe_end_ok e s n m t ev t' :
  (if negb (String.eqb (sn_snapshot_id n) (so_snapshot_id s)) then
     throw (UnexpectedSnapshotId (so_snapshot_id s) (sn_snapshot_id n))
   else if negb (so_next_chunk_index s =? so_total_chunks s)%N then
     throw (SnapshotIncomplete (so_total_chunks s) (so_next_chunk_index s))
   else
     lift (ensure_all_declared_backends_observed (so_declared_backends s)
             (so_observed_backends s)) ;;
     set_state (Live (completed s)) ;;
     set_next_message_seq (Some m) ;;
     mret (SnapshotCompleted (sn_snapshot_id n))) t = (Ok ev, t') ↔
  sn_snapshot_id n = so_snapshot_id s ∧ so_next_chunk_index s = so_total_chunks s ∧
  so_declared_backends s ⊆ so_observed_backends s ∧
  ev = SnapshotCompleted (sn_snapshot_id n) ∧
  t' = {| tr_state := Live (completed s); tr_next_message_seq := Some m |}.
Proof.
  destruct (String.eqb_spec (sn_snapshot_id n) (so_snapshot_id s)); simpl; [|naive_solver].
  destruct (N.eqb_spec (so_next_chunk_index s) (so_total_chunks s)); simpl; [|naive_solver].
  rewrite lift_seq_ok, ensure_all_declared_ok.
  unfold set_state, set_next_message_seq. rewrite !modify_bind. simpl.
  split; [intros (? & [= <- <-])|intros (? & ? & ? & -> & ->)]; naive_solver.
Qed.

Lemma observe_snapshot_ok e s t ev t' :
  tr_state t = Snapshot s →
  observe_snapshot e s t = (Ok ev, t') ↔ tracker_step t e ev t'.
Proof.
  intros Ht. unfold observe_snapshot. rewrite continues_checks. split.
  - intros [Hc Hk]. destruct (env_payload e) eqn:Ep; try done.
    + apply observe_chunk_ok in Hk as (? & ? & -> & ->); [|done]. by eapply step_chunk.
    + apply observe_end_ok in Hk as (? & ? & ? & -> & ->); [|done]. by eapply step_end.
  - destruct 1 as [? E|s' c E Ep|s' n E Ep|? ? E]; rewrite Ht in E; try done;
      injection E as <-; (split; [done|]); rewrite Ep.
    + by apply observe_chunk_ok.
    + by apply observe_end_ok.
Qed.

Lemma observe_live_ok e l t ev t' :
  tr_state t = Live l →
  observe_live e l t = (Ok ev, t') ↔ tracker_step t e ev t'.
Proof.
  intros Ht. unfold observe_live. rewrite continues_checks.
  transitivity (continues (lv_stream_id l) t e ∧ live_accepts l (env_payload e) ev ∧
                t' = moved (Live l) e).
  - apply and_iff_compat_l. destruct t as [ts tn]. simpl in Ht. subst ts.
    destruct (env_payload e); simpl; try (by split; [done|intros [[] _]]);
      unfold set_next_message_seq, validate_declared_update_backends,
        validate_heartbeat_backend_heads, validate_unique_backend_heads,
        validate_declared_heartbeat_backends, validate_progress_backends,
        validate_unique_backends, validate_declared_progress_backends;
      rewrite !lift_seq_ok, modify_bind, mret_ok, ?validate_update_partitions_ok,
        ?validate_unique_backend_entries_ok, validate_declared_backend_entries_ok,
        ?in_map_iff_forall, ?ensure_chain_id_ok, ?ensure_snapshot_id_ok;
      unfold moved; simpl; intuition congruence.
  - split.
    + intros (? & ? & ->). by eapply step_live.
    + destruct 1 as [? E|s' c E Ep|s' n E Ep|? ? E]; rewrite Ht in E; try done.
      by injection E as <-.
Qed.

Lemma observe_step_iff e t ev t' :
  observe e t = (Ok ev, t') ↔ tracker_step t e ev t'.
Proof.
  unfold observe. rewrite gets_bind. destruct (tr_state t) eqn:E.
  - by apply observe_awaiting_snapshot_ok.
  - by apply observe_snapshot_ok.
  - by apply observe_live_ok.
Qed.

Lemma observe_frame e : err_frame (observe e).
Proof.
  unfold observe, observe_awaiting_snapshot, observe_snapshot, observe_live,
    set_state, set_next_message_seq. solve_frame.
Qed.

Lemma skip_live_delta_frame e : err_frame (skip_live_delta e).
Proof. unfold skip_live_delta, set_next_message_seq. solve_frame. Qed.

Lemma align_frame sid snap seq : err_frame (align_live_replay_boundary sid snap seq).
Proof. unfold align_live_replay_boundary, set_next_message_seq. solve_frame. Qed.
End spec.

(** ** Whole sessions *)

Section session.
Context `{TychoTypes}.
Implicit Types (e : BroadcasterEnvelope) (es : list BroadcasterEnvelope).

(** Feeding envelopes to a tracker, all of them accepted. *)
Inductive tracker_run : BroadcasterSubscriptionTracker → list BroadcasterEnvelope →
    BroadcasterSubscriptionTracker → Prop :=
| run_nil t : tracker_run t [] t
| run_cons t e ev t1 es t2 :
    observe e t = (Ok ev, t1) → tracker_run t1 es t2 → tracker_run t (e :: es) t2.

Fixpoint consecutive (stream_id : string) (n : N) es : Prop :=
  match es with
  | [] => True
  | e :: es =>
      env_stream_id e = stream_id ∧ env_message_seq e = n ∧ (n + 1 ≤ u64_max)%N ∧
      consecutive stream_id (n + 1) es
  end.

Fixpoint chunk_run (snapshot_id : string) (declared : gset BroadcasterBackend)
    (index : N) es : Prop :=
  match es with
  | [] => True
  | e :: es =>
      (∃ c, env_payload e = SnapshotChunk c ∧ chunk_ok snapshot_id declared index c) ∧
      chunk_run snapshot_id declared (index + 1) es
  end.

Definition payload_backends (p : BroadcasterPayload) : gset BroadcasterBackend :=
  match p with SnapshotChunk c => chunk_backends c | _ => ∅ end.

Fixpoint covered es : gset BroadcasterBackend :=
  match es with
  | [] => ∅
  | e :: es => payload_backends (env_payload e) ∪ covered es
  end.

Definition live_ok (l : LiveState) e : Prop := ∃ ev, live_accepts l (env_payload e) ev.

(** Chunks, the end marker and the live messages that lead from a snapshot in
    progress to the live state. *)
Definition session_tail (s : SnapshotObservationState) (n : N) es : Prop :=
  ∃ chunks e_end lives, es = chunks ++ e_end :: lives ∧
    consecutive (so_stream_id s) n es ∧
    chunk_run (so_snapshot_id s) (so_declared_backends s) (so_next_chunk_index s) chunks ∧
    (so_next_chunk_index s + len chunks = so_total_chunks s)%N ∧
    env_payload e_end = SnapshotEnd {| sn_snapshot_id := so_snapshot_id s |} ∧
    so_declared_backends s ⊆ so_observed_backends s ∪ covered chunks ∧
    Forall (live_ok (completed s)) lives.

(** A complete session as the broadcaster sends it. *)
Definition valid_session es : Prop :=
  ∃ e0 start rest, es = e0 :: rest ∧ env_payload e0 = SnapshotStart start ∧
    NoDup (ss_backends start) ∧ (env_message_seq e0 + 1 ≤ u64_max)%N ∧
    session_tail (started e0 start) (env_message_seq e0 + 1) rest.

Lemma len_cons {A} (x : A) l : len (x :: l) = (len l + 1)%N.
Proof. unfold len. simpl. lia. Qed.

Lemma run_cons_iff t e es t2 :
  tracker_run t (e :: es) t2 ↔ ∃ ev t1, tracker_step t e ev t1 ∧ tracker_run t1 es t2.
Proof.
  setoid_rewrite <- observe_step_iff. split.
  - intros Hr. inversion Hr; subst. by eauto.
  - intros (ev & t1 & ? & ?). by eapply run_cons.
Qed.

Lemma run_nil_iff t t2 : tracker_run t [] t2 ↔ t2 = t.
Proof. split; [by inversion 1|intros ->; constructor]. Qed.

Lemma run_live l n es t :
  tracker_run {| tr_state := Live l; tr_next_message_seq := Some n |} es t ↔
  consecutive (lv_stream_id l) n es ∧ Forall (live_ok l) es ∧
  t = {| tr_state := Live l; tr_next_message_seq := Some (n + len es)%N |}.
Proof.
  revert n. induction es as [|e es IH]; intros n.
  { rewrite run_nil_iff. unfold len. simpl. rewrite N.add_0_r. naive_solver. }
  rewrite run_cons_iff, Forall_cons, len_cons. simpl. split.
  - intros (ev & t1 & Hs & Hr). destruct Hs as [? E|? ? E|? ? E|l' ev E Hc Ha]; try done.
    injection E as <-. destruct Hc as (Hsid & [= ->] & Hmax).
    apply IH in Hr as (? & ? & ->). split_and!; try done; [by exists ev|].
    f_equal. f_equal. lia.
  - intros ((Hsid & Hseq & Hmax & Hc) & ([ev Ha] & Hf) & ->).
    exists ev, (moved (Live l) e). split.
    + eapply step_live; [done| |done]. unfold continues. simpl. by subst.
    + unfold moved. rewrite Hseq. apply IH. split_and!; try done. f_equal. f_equal. lia.
Qed.

Lemma session_tail_chunk s n e c es :
  env_payload e = SnapshotChunk c →
  session_tail s n (e :: es) ↔
  env_stream_id e = so_stream_id s ∧ env_message_seq e = n ∧ (n + 1 ≤ u64_max)%N ∧
  (so_next_chunk_index s < so_total_chunks s)%N ∧
  chunk_ok (so_snapshot_id s) (so_declared_backends s) (so_next_chunk_index s) c ∧
  session_tail (chunked s c) (n + 1) es.
Proof.
  intros Ep. split.
  - intros (chunks & e_end & lives & Hes & Hc & Hch & Hlen & Hend & Hcov & Hl).
    destruct chunks as [|e' chunks]; [simpl in Hes; injection Hes as -> ->; congruence|].
    injection Hes as <- ->. simpl in Hc, Hch, Hcov. rewrite len_cons in Hlen.
    destruct Hch as [(c' & Ep' & Hok) Hch]. rewrite Ep in Ep'. injection Ep' as <-.
    destruct_and! Hc. split_and!; try done; [lia|].
    exists chunks, e_end, lives. simpl. split_and!; try done; [lia|].
    rewrite Ep in Hcov. simpl in Hcov. set_solver.
  - intros (? & ? & ? & ? & ? & chunks & e_end & lives & -> & Hc & Hch & Hlen & Hend & Hcov & Hl).
    exists (e :: chunks), e_end, lives. simpl in *. rewrite len_cons, Ep. simpl.
    split_and!; try done; [by exists c|lia|set_solver].
Qed.

Lemma session_tail_end s n e es m :
  env_payload e = SnapshotEnd m →
  session_tail s n (e :: es) ↔
  consecutive (so_stream_id s) n (e :: es) ∧ sn_snapshot_id m = so_snapshot_id s ∧
  so_next_chunk_index s = so_total_chunks s ∧
  so_declared_backends s ⊆ so_observed_backends s ∧
  Forall (live_ok (completed s)) es.
Proof.
  intros Ep. split.
  - intros (chunks & e_end & lives & Hes & Hc & Hch & Hlen & Hend & Hcov & Hl).
    destruct chunks as [|e' chunks].
    + simpl in Hes. injection Hes as <- <-. rewrite Ep in Hend. injection Hend as ->.
      simpl in Hcov. unfold len in Hlen. simpl in Hlen. split_and!; try done; [lia|set_solver].
    + injection Hes as <- ->. destruct Hch as [(c & Ec & _) _]. congruence.
  - intros (Hc & Hid & Hn & Hd & Hl). exists [], e, es. unfold len. simpl.
    split_and!; try done; try apply Hc; [lia| |set_solver].
    rewrite Ep. f_equal. destruct m. simpl in *. by subst.
Qed.

Lemma run_snapshot s n es t l :
  tr_state t = Live l →
  tracker_run {| tr_state := Snapshot s; tr_next_message_seq := Some n |} es t ↔
  session_tail s n es ∧ t = {| tr_state := Live (completed s);
                               tr_next_message_seq := Some (n + len es)%N |}.
Proof.
  intros Ht. revert s n. induction es as [|e es IH]; intros s n.
  { rewrite run_nil_iff. split; [intros ->; done|].
    intros [([] & ? & ? & ? & _) _]; done. }
  rewrite run_cons_iff, len_cons. split.
  - intros (ev & t1 & Hs & Hr).
    destruct Hs as [? E|s' c E Ep (Hsid & [= ->] & Hmax) Hlt Hok
                   |s' m E Ep (Hsid & [= ->] & Hmax) Hid Hn Hd|l' ev E]; try done;
      injection E as <-.
    + apply IH in Hr as [Htail ->]. split; [by apply (session_tail_chunk _ _ _ c)|].
      simpl. f_equal. f_equal. lia.
    + apply run_live in Hr as (Hc & Hl & ->). split; [|f_equal; f_equal; lia].
      apply (session_tail_end _ _ _ _ m Ep). by split_and!.
  - intros [Htail ->].
    pose proof Htail as (chunks & e_end & lives & Hes & _ & Hch & _ & Hend & _).
    destruct chunks as [|e' chunks]; injection Hes as <- Hes.
    + apply (session_tail_end _ _ _ _ _ Hend) in Htail as (Hc & Hid & Hn & Hd & Hl).
      destruct Hc as (? & Hseq & ? & Hc). subst n.
      eexists _, _. split; [eapply step_end; try done|].
      apply run_live. split_and!; try done. f_equal. f_equal. lia.
    + destruct Hch as [(c & Ep & _) _].
      apply (session_tail_chunk _ _ _ _ _ Ep) in Htail as (? & Hseq & ? & ? & ? & Htail).
      subst n. eexists _, _. split; [eapply step_chunk; try done|].
      apply IH. split; [done|]. f_equal. f_equal. lia.
Qed.

Lemma session_live es :
  (∃ t l, tracker_run tracker_new es t ∧ tr_state t = Live l) ↔ valid_session es.
Proof.
  split.
  - intros (t & l & Hr & Ht). destruct es as [|e0 rest].
    { apply run_nil_iff in Hr as ->. done. }
    apply run_cons_iff in Hr as (ev & t1 & Hs & Hr).
    destruct Hs as [start E Ep Hnd Hmax| | |]; try done.
    apply (run_snapshot _ _ _ _ _ Ht) in Hr as [Htail _].
    by exists e0, start, rest.
  - intros (e0 & start & rest & -> & Ep & Hnd & Hmax & Htail).
    exists {| tr_state := Live (completed (started e0 start));
              tr_next_message_seq := Some (env_message_seq e0 + 1 + len rest)%N |}.
    eexists. split; [|done]. apply run_cons_iff. eexists _, _.
    split; [by eapply step_start|].
    by apply (run_snapshot _ _ _ _ (completed (started e0 start))).
Qed.

(** The consistency of the tracker's own state. *)
Definition tracker_inv (t : BroadcasterSubscriptionTracker) : Prop :=
  match tr_state t with
  | AwaitingSnapshot => tr_next_message_seq t = None
  | Snapshot s =>
      is_Some (tr_next_message_seq t) ∧
      (so_next_chunk_index s ≤ so_total_chunks s)%N ∧
      so_observed_backends s ⊆ so_declared_backends s
  | Live _ => is_Some (tr_next_message_seq t)
  end.

(** One call of the public interface. *)
Inductive tracker_call : BroadcasterSubscriptionTracker → BroadcasterSubscriptionTracker →
    Prop :=
| call_observe e t r t' : observe e t = (r, t') → tracker_call t t'
| call_skip e t r t' : skip_live_delta e t = (r, t') → tracker_call t t'
| call_align sid snap seq t r t' :
    align_live_replay_boundary sid snap seq t = (r, t') → tracker_call t t'
| call_reset t : tracker_call t (reset_for_reconnect t).

Lemma tracker_step_inv t e ev t' :
  tracker_step t e ev t' → tracker_inv t → tracker_inv t'.
Proof.
  unfold tracker_inv.
  destruct 1 as [start E Ep|s c E Ep Hc Hlt Hok|s m E Ep Hc|l ev E Hc Ha]; rewrite E; simpl.
  - intros _. split_and!; [by eauto|lia|set_solver].
  - intros (_ & Hle & Hsub). split_and!; [by eauto|lia|].
    destruct Hok as (_ & _ & _ & _ & Hdecl). unfold chunk_backends.
    apply union_subseteq. split; [done|]. intros b Hb.
    apply elem_of_list_to_set, list_elem_of_fmap in Hb as (p & -> & Hp). by apply Hdecl.
  - by eauto.
  - by eauto.
Qed.

Lemma tracker_inv_calls t :
  rtc tracker_call tracker_new t → tracker_inv t.
Proof.
  intros Hr. refine (rtc_ind_r (λ t, tracker_inv t) tracker_new _ _ t Hr); [done|].
  clear t Hr. intros t t' _ Hcall Hinv.
  destruct Hcall as [e t [ev|err] t' Ho|e t [u|err] t' Ho|sid snap seq t [u|err] t' Ho|t].
  - apply observe_step_iff in Ho. by eapply tracker_step_inv.
  - by apply observe_frame in Ho as ->.
  - revert Ho. unfold skip_live_delta. rewrite gets_bind.
    destruct (tr_state t) eqn:E; try done. rewrite lift_seq_ok, gets_bind, lift_seq_ok,
      lift_bind_ok. intros (_ & _ & n & _ & Ho).
    destruct (env_payload e); try done; inversion Ho; subst;
      unfold tracker_inv; simpl; rewrite E; by eauto.
  - by apply skip_live_delta_frame in Ho as ->.
  - revert Ho. unfold align_live_replay_boundary. rewrite gets_bind.
    destruct (tr_state t) eqn:E; try done. rewrite !lift_seq_ok, lift_bind_ok.
    intros (_ & _ & n & _ & Ho). inversion Ho; subst.
    unfold tracker_inv; simpl; rewrite E; by eauto.
  - by apply align_frame in Ho as ->.
  - done.
Qed.
End session.

(** ** Properties *)

(** C1: the subscription tracker implements its protocol: an envelope is accepted, with
    an event and a next state, exactly when the protocol has that step. *)
Theorem observe_refines `{TychoTypes} e t ev t' :
  observe e t = (Ok ev, t') ↔ tracker_step t e ev t'.
Proof. apply observe_step_iff. Qed.

(** A run of envelopes is accepted and ends live exactly when it is a complete
    session: a snapshot start, all declared chunks in order, the end with every
    declared backend seen, then only messages of declared backends for the same chain
    and snapshot, all of one stream and without a gap in the sequence. *)
Theorem session_reaches_live_iff `{TychoTypes} es :
  (∃ t l, tracker_run tracker_new es t ∧ tr_state t = Live l) ↔ valid_session es.
Proof. apply session_live. Qed.

(** A refused envelope, skip or alignment leaves the tracker as it was. *)
Theorem tracker_errors_change_nothing `{TychoTypes} t err t' :
  (∀ e, observe e t = (Err err, t') → t' = t) ∧
  (∀ e, skip_live_delta e t = (Err err, t') → t' = t) ∧
  (∀ sid snap seq, align_live_replay_boundary sid snap seq t = (Err err, t') → t' = t).
Proof.
  split_and!; [intros e; apply observe_frame|intros e; apply skip_live_delta_frame|].
  intros sid snap seq. apply align_frame.
Qed.

(** In every state the tracker's calls can reach, a stream in progress has an
    expected sequence number, no more chunks were taken than declared, and every
    backend seen was declared. *)
Theorem tracker_inv_reachable `{TychoTypes} t :
  rtc tracker_call tracker_new t → tracker_inv t.
Proof. apply tracker_inv_calls. Qed.

(** ** Witnesses *)

Definition demo_start : @BroadcasterEnvelope demo_tycho := {|
  env_stream_id := "chain-1-stream-7"; env_message_seq := 1;
  env_payload := SnapshotStart {| ss_snapshot_id := "chain-1-snapshot-7"; ss_chain_id := 1;
                                  ss_backends := [Native]; ss_total_chunks := 1 |} |}.

Lemma tracker_inv_reachable_witness :
  tracker_inv (observe demo_start tracker_new).2.
Proof.
  apply (@tracker_inv_reachable demo_tycho). eapply rtc_once.
  eapply (@call_observe demo_tycho demo_start). apply surjective_pairing.
Defined.
