(* ===== verification/Codec.v ===== *)
(** * Envelopes as JSON

    What [serde] derives for [BroadcasterEnvelope]: the [deserialize_with] hooks of
    the payload fields run over the structure on the wire.  The JSON text itself is
    [serde_json]'s: the class [SerdeJson], whose only law is that a decoded text
    has the structure that was encoded.  Serialised simulation states may lose
    private fields (RFQ credentials, for one), which is the function [wire_sim]. *)

From S2P Require Import Prelude Ordered Text Protocol Wire Validate.

(** ** Decoding hooks of a payload *)

Section decode.
Context `{TychoTypes}.

Definition decode_manifest (m : BroadcasterRecoveryManifest) :
    contract BroadcasterRecoveryManifest :=
  backends ← deserialize_unique_recovery_backends (rm_backends m);
  Ok {| rm_recovery_id := rm_recovery_id m;
        rm_target_state_version := rm_target_state_version m;
        rm_backends := backends;
        rm_chunk_count := rm_chunk_count m;
        rm_replacement_encoded_bytes := rm_replacement_encoded_bytes m;
        rm_chunk_encoded_bytes := rm_chunk_encoded_bytes m;
        rm_chunk_digests := rm_chunk_digests m;
        rm_replacement_digest := rm_replacement_digest m;
        rm_buffer_a_count := rm_buffer_a_count m;
        rm_commit_watermark := rm_commit_watermark m |}.

Definition decode_update (u : BroadcasterUpdateMessage) : contract BroadcasterUpdateMessage :=
  partitions ← deserialize_unique_update_partitions (um_partitions u);
  Ok {| um_partitions := partitions |}.

Definition decode_payload (payload : BroadcasterPayload) : contract BroadcasterPayload :=
  match payload with
  | SnapshotStart s =>
      backends ← deserialize_unique_backends (ss_backends s);
      Ok (SnapshotStart {| ss_snapshot_id := ss_snapshot_id s; ss_chain_id := ss_chain_id s;
                           ss_backends := backends; ss_total_chunks := ss_total_chunks s |})
  | SnapshotChunk c =>
      partitions ← deserialize_unique_snapshot_partitions (sc_partitions c);
      Ok (SnapshotChunk {| sc_snapshot_id := sc_snapshot_id c;
                           sc_chunk_index := sc_chunk_index c;
                           sc_partitions := partitions |})
  | SnapshotEnd n => Ok (SnapshotEnd n)
  | RecoveryStart s =>
      manifest ← decode_manifest (rs_manifest s);
      Ok (RecoveryStart {| rs_manifest := manifest |})
  | RecoveryChunk c =>
      backends ← deserialize_unique_recovery_backends (rc_backends c);
      Ok (RecoveryChunk {| rc_recovery_id := rc_recovery_id c;
                           rc_target_state_version := rc_target_state_version c;
                           rc_backends := backends;
                           rc_chunk_index := rc_chunk_index c;
                           rc_encoded_bytes := rc_encoded_bytes c;
                           rc_digest := rc_digest c;
                           rc_payload_fragment := rc_payload_fragment c |})
  | RecoveryCatchUp c =>
      update ← decode_update (cu_update c);
      Ok (RecoveryCatchUp {| cu_recovery_id := cu_recovery_id c;
                             cu_target_state_version := cu_target_state_version c;
                             cu_block_index := cu_block_index c;
                             cu_update := update |})
  | RecoveryCommit c =>
      backends ← deserialize_unique_recovery_backends (rt_backends c);
      Ok (RecoveryCommit {| rt_recovery_id := rt_recovery_id c;
                            rt_target_state_version := rt_target_state_version c;
                            rt_backends := backends;
                            rt_replacement_digest := rt_replacement_digest c;
                            rt_buffer_a_count := rt_buffer_a_count c;
                            rt_commit_watermark := rt_commit_watermark c |})
  | Update u => update ← decode_update u; Ok (Update update)
  | Heartbeat h =>
      heads ← deserialize_unique_backend_heads (hb_backend_heads h);
      Ok (Heartbeat {| hb_chain_id := hb_chain_id h; hb_snapshot_id := hb_snapshot_id h;
                       hb_backend_heads := heads |})
  | Progress p =>
      backends ← deserialize_unique_progress_backends (pg_backends p);
      Ok (Progress {| pg_chain_id := pg_chain_id p; pg_snapshot_id := pg_snapshot_id p;
                      pg_backends := backends; pg_reason := pg_reason p |})
  end.

Definition decode_envelope (e : BroadcasterEnvelope) : contract BroadcasterEnvelope :=
  payload ← decode_payload (env_payload e);
  Ok {| env_stream_id := env_stream_id e; env_message_seq := env_message_seq e;
        env_payload := payload |}.

(** A payload in the form its constructor gives it: decoding changes nothing. *)
Definition canonical (p : BroadcasterPayload) : Prop := decode_payload p = Ok p.

(** ** What serialisation keeps of a state *)

Section wire_map.
Context (f : ProtocolSim → ProtocolSim).

Definition map_entry (e : BroadcasterStateEntry) : BroadcasterStateEntry :=
  {| se_component_id := se_component_id e; se_component := se_component e;
     se_state := f (se_state e) |}.
Definition map_delta (d : BroadcasterStateDelta) : BroadcasterStateDelta :=
  {| sd_component_id := sd_component_id d; sd_backend := sd_backend d;
     sd_state := f (sd_state d) |}.
Definition map_snapshot_partition (p : BroadcasterSnapshotPartition) :
    BroadcasterSnapshotPartition :=
  {| sp_backend := sp_backend p; sp_block_number := sp_block_number p;
     sp_messages := sp_messages p; sp_states := map map_entry (sp_states p);
     sp_sync_statuses := sp_sync_statuses p |}.
Definition map_update_partition (p : BroadcasterUpdatePartition) :
    BroadcasterUpdatePartition :=
  {| up_backend := up_backend p; up_block_number := up_block_number p;
     up_messages := up_messages p; up_new_pairs := map map_entry (up_new_pairs p);
     up_updated_states := map map_delta (up_updated_states p);
     up_removed_pairs := up_removed_pairs p; up_sync_statuses := up_sync_statuses p |}.
Definition map_update (u : BroadcasterUpdateMessage) : BroadcasterUpdateMessage :=
  {| um_partitions := map map_update_partition (um_partitions u) |}.
Definition map_payload (p : BroadcasterPayload) : BroadcasterPayload :=
  match p with
  | SnapshotChunk c =>
      SnapshotChunk {| sc_snapshot_id := sc_snapshot_id c;
                       sc_chunk_index := sc_chunk_index c;
                       sc_partitions := map map_snapshot_partition (sc_partitions c) |}
  | RecoveryCatchUp c =>
      RecoveryCatchUp {| cu_recovery_id := cu_recovery_id c;
                         cu_target_state_version := cu_target_state_version c;
                         cu_block_index := cu_block_index c;
                         cu_update := map_update (cu_update c) |}
  | Update u => Update (map_update u)
  | p => p
  end.
Definition map_envelope (e : BroadcasterEnvelope) : BroadcasterEnvelope :=
  {| env_stream_id := env_stream_id e; env_message_seq := env_message_seq e;
     env_payload := map_payload (env_payload e) |}.
End wire_map.

(** [partitions] is skipped when empty and has no default, so an empty update
    has no readable encoding. *)
Definition encodable (p : BroadcasterPayload) : Prop :=
  match p with
  | Update u => um_partitions u ≠ []
  | RecoveryCatchUp c => um_partitions (cu_update c) ≠ []
  | _ => True
  end.
End decode.

(** ** [serde_json] *)

Class SerdeJson `{TychoTypes} := {
  (* [serde_json::to_string(&envelope)] *)
  json_of_envelope : BroadcasterEnvelope → result string string;
  (* [serde_json::from_str], up to the structure of the envelope *)
  raw_envelope_of_json : string → result string BroadcasterEnvelope;
  wire_sim : ProtocolSim → ProtocolSim;
}.

Class SerdeJsonLaws `{SerdeJson} := {
  raw_envelope_of_json_of_envelope e s :
    encodable (env_payload e) → json_of_envelope e = Ok s →
    raw_envelope_of_json s = Ok (map_envelope wire_sim e);
  json_of_envelope_not_blank e s :
    json_of_envelope e = Ok s → str_blank s = false;
}.

(** [serde_json::from_str::<BroadcasterEnvelope>]. *)
Definition envelope_of_json `{SerdeJson} (s : string) : result string BroadcasterEnvelope :=
  raw ← raw_envelope_of_json s;
  map_err BroadcasterContractError_fmt (decode_envelope raw).

(** ** Canonical payloads *)

Section canonical.
Context `{TychoTypes}.

Lemma sort_sort {A K} `{TotalOrder K} (key : A → K) l :
  sort_by_key key (sort_by_key key l) = sort_by_key key l.
Proof. apply sort_by_key_id, sort_by_key_sorted. Qed.

Lemma sort_map {A B K} `{TotalOrder K} (ka : A → K) (kb : B → K) (g : A → B) l :
  (∀ a, kb (g a) = ka a) → sort_by_key kb (map g l) = map g (sort_by_key ka l).
Proof.
  intros Hk. unfold sort_by_key. induction l as [|x l IH]; [done|]. simpl. rewrite IH.
  clear IH. induction (foldr (insert_by_key ka) [] l) as [|y s IH]; [done|].
  simpl. rewrite !Hk. case_match; [done|]. simpl. by rewrite IH.
Qed.

(** Everything a constructor accepts is canonical. *)
Lemma SnapshotStart_new_canonical id chain bs n s :
  BroadcasterSnapshotStart_new id chain bs n = Ok s → canonical (SnapshotStart s).
Proof.
  intros Hn. apply seq_ok in Hn as [Hv [= <-]]. unfold canonical. simpl.
  unfold deserialize_unique_backends. rewrite sort_sort, Hv. done.
Qed.

Lemma SnapshotChunk_new_canonical id i ps c :
  BroadcasterSnapshotChunk_new id i ps = Ok c → canonical (SnapshotChunk c).
Proof.
  intros Hn. apply seq_ok in Hn as [Hv [= <-]]. unfold canonical. simpl.
  unfold deserialize_unique_snapshot_partitions. rewrite sort_sort, Hv. done.
Qed.

Lemma Update_new_canonical ps u :
  BroadcasterUpdateMessage_new ps = Ok u → canonical (Update u).
Proof.
  intros Hn. apply seq_ok in Hn as [Hv [= <-]]. unfold canonical. simpl.
  unfold decode_update, deserialize_unique_update_partitions. simpl.
  rewrite sort_sort, Hv. done.
Qed.

Lemma Heartbeat_new_canonical chain id heads h :
  BroadcasterHeartbeat_new chain id heads = Ok h → canonical (Heartbeat h).
Proof.
  intros Hn. apply seq_ok in Hn as [Hv [= <-]]. unfold canonical. simpl.
  unfold deserialize_unique_backend_heads. rewrite sort_sort, Hv. done.
Qed.

Lemma Progress_new_canonical chain id bs reason p :
  BroadcasterProgress_new chain id bs reason = Ok p → canonical (Progress p).
Proof.
  intros Hn. apply seq_ok in Hn as [Hv Hn]. destruct (str_blank reason); [done|].
  injection Hn as <-. unfold canonical. simpl.
  unfold deserialize_unique_progress_backends. rewrite sort_sort, Hv. done.
Qed.

Lemma RecoveryManifest_new_canonical a b c d e f g h i m :
  BroadcasterRecoveryManifest_new a b c d e f g h i = Ok m →
  canonical (RecoveryStart {| rs_manifest := m |}) ∧ manifest_valid m.
Proof.
  intros Hn. apply bind_ok in Hn as (n & _ & Hn). apply seq_ok in Hn as [Hv [= <-]].
  apply validate_recovery_manifest_ok in Hv. split; [|done].
  destruct Hv as (_ & _ & Hne & Hnd & _). simpl in Hne, Hnd.
  unfold canonical. simpl. unfold decode_manifest, deserialize_unique_recovery_backends.
  simpl. rewrite sort_sort. rewrite (proj2 (validate_recovery_backends_ok _)); done.
Qed.

Lemma RecoveryChunk_new_canonical a b c d e f g x :
  BroadcasterRecoveryChunk_new a b c d e f g = Ok x → canonical (RecoveryChunk x).
Proof.
  intros Hn. apply seq_ok in Hn as [Hv [= <-]]. unfold validate_recovery_chunk in Hv.
  rewrite !seq_ok in Hv. destruct Hv as (_ & _ & Hv & _). unfold canonical. simpl in *.
  unfold deserialize_unique_recovery_backends. rewrite sort_sort, Hv. done.
Qed.

Lemma RecoveryCommit_new_canonical a b c d e f x :
  BroadcasterRecoveryCommit_new a b c d e f = Ok x → canonical (RecoveryCommit x).
Proof.
  intros Hn. apply seq_ok in Hn as [Hv [= <-]]. unfold validate_recovery_commit in Hv.
  rewrite !seq_ok in Hv. destruct Hv as (_ & _ & Hv & _). unfold canonical. simpl in *.
  unfold deserialize_unique_recovery_backends. rewrite sort_sort, Hv. done.
Qed.
End canonical.

(** ** Validation does not look at simulation states *)

Section wire_map_facts.
Context `{TychoTypes} (f : ProtocolSim → ProtocolSim).

Lemma for_each_map {E A B} (g : A → B) (h : B → result E unit) l :
  for_each h (map g l) = for_each (λ x, h (g x)) l.
Proof. induction l as [|x l IH]; [done|]. simpl. by rewrite IH. Qed.

Lemma for_each_ext {E A} (g h : A → result E unit) l :
  (∀ x, g x = h x) → for_each g l = for_each h l.
Proof. intros Hgh. induction l as [|x l IH]; [done|]. simpl. by rewrite Hgh, IH. Qed.

Lemma map_update_partition_backends ps :
  map up_backend (map (map_update_partition f) ps) = map up_backend ps.
Proof. rewrite map_map. done. Qed.

Lemma validate_update_partitions_map ps :
  validate_update_partitions (map (map_update_partition f) ps) =
  validate_update_partitions ps.
Proof.
  unfold validate_update_partitions, validate_unique_update_backends,
    validate_non_empty_update_partitions, validate_update_partition_contents.
  rewrite map_update_partition_backends, !for_each_map.
  assert (∀ p, validate_update_partition_content (map_update_partition f p) =
               validate_update_partition_content p) as Hc.
  { intros p. unfold validate_update_partition_content. simpl. by rewrite !for_each_map. }
  assert (∀ p, BroadcasterUpdatePartition_is_empty (map_update_partition f p) =
               BroadcasterUpdatePartition_is_empty p) as Hm.
  { intros p. unfold BroadcasterUpdatePartition_is_empty. simpl. by rewrite !length_map. }
  rewrite (for_each_ext _ _ _ Hc).
  erewrite (for_each_ext (λ x, if BroadcasterUpdatePartition_is_empty _ then _ else _));
    [|intros p; rewrite Hm; done].
  by destruct ps.
Qed.

Lemma decode_update_map u :
  decode_update (map_update f u) = map_update f <$> decode_update u.
Proof.
  unfold decode_update, deserialize_unique_update_partitions. simpl.
  rewrite (sort_map up_backend up_backend) by done.
  rewrite validate_update_partitions_map.
  by destruct (validate_update_partitions _).
Qed.

Lemma decode_update_canonical u : decode_update u = Ok u ↔ canonical (Update u).
Proof. unfold canonical. simpl. destruct (decode_update u); naive_solver. Qed.

Lemma canonical_map_update u : canonical (Update u) → canonical (Update (map_update f u)).
Proof.
  rewrite <- !decode_update_canonical, decode_update_map. by intros ->.
Qed.

Lemma map_payload_kind p :
  BroadcasterPayload_kind (map_payload f p) = BroadcasterPayload_kind p.
Proof. by destruct p. Qed.
End wire_map_facts.

(** ** Properties *)

(** Decoding gives back what the constructors built: the hooks that sort and check
    a payload when it is read accept every payload a constructor accepted, and leave
    it as it is. *)
Theorem constructed_payloads_are_canonical `{TychoTypes} :
  (∀ id chain bs n s, BroadcasterSnapshotStart_new id chain bs n = Ok s →
     decode_payload (SnapshotStart s) = Ok (SnapshotStart s)) ∧
  (∀ id i ps c, BroadcasterSnapshotChunk_new id i ps = Ok c →
     decode_payload (SnapshotChunk c) = Ok (SnapshotChunk c)) ∧
  (∀ ps u, BroadcasterUpdateMessage_new ps = Ok u → decode_payload (Update u) = Ok (Update u)) ∧
  (∀ chain id heads h, BroadcasterHeartbeat_new chain id heads = Ok h →
     decode_payload (Heartbeat h) = Ok (Heartbeat h)) ∧
  (∀ chain id bs reason p, BroadcasterProgress_new chain id bs reason = Ok p →
     decode_payload (Progress p) = Ok (Progress p)) ∧
  (∀ id v bs nb cs ds rd ba wm m,
     BroadcasterRecoveryManifest_new id v bs nb cs ds rd ba wm = Ok m →
     decode_payload (RecoveryStart {| rs_manifest := m |}) =
       Ok (RecoveryStart {| rs_manifest := m |})) ∧
  (∀ id v bs i n d f c, BroadcasterRecoveryChunk_new id v bs i n d f = Ok c →
     decode_payload (RecoveryChunk c) = Ok (RecoveryChunk c)) ∧
  (∀ id v bs d n wm c, BroadcasterRecoveryCommit_new id v bs d n wm = Ok c →
     decode_payload (RecoveryCommit c) = Ok (RecoveryCommit c)).
Proof.
  split_and!; intros *; [apply SnapshotStart_new_canonical|apply SnapshotChunk_new_canonical|
    apply Update_new_canonical|apply Heartbeat_new_canonical|apply Progress_new_canonical|
    by intros [? _]%RecoveryManifest_new_canonical|apply RecoveryChunk_new_canonical|
    apply RecoveryCommit_new_canonical].
Qed.

(** ** A concrete codec, for the witnesses

    Every envelope over [demo_tycho] is countable; its text is the binary code of
    its number between braces. *)

Fixpoint bits_of (p : positive) : string :=
  match p with
  | xH => ""
  | xO p => String "0" (bits_of p)
  | xI p => String "1" (bits_of p)
  end.

Fixpoint of_bits (s : string) : option positive :=
  match s with
  | EmptyString => Some xH
  | String c s' =>
      p ← of_bits s';
      if bool_decide (c = "0"%char) then Some (xO p)
      else if bool_decide (c = "1"%char) then Some (xI p) else None
  end.

Lemma of_bits_of p : of_bits (bits_of p) = Some p.
Proof. induction p as [p IH|p IH|]; simpl; [by rewrite IH..|done]. Qed.

Section demo_countable.
#[local] Existing Instance demo_tycho.

#[global] Instance DemoHeader_eq_dec : EqDecision DemoHeader.
Proof. solve_decision. Defined.
#[global] Instance DemoHeader_countable : Countable DemoHeader.
Proof.
  refine (inj_countable' (λ h, (demo_hash h, demo_number h, demo_partial h))
            (λ '(a, b, c), {| demo_hash := a; demo_number := b; demo_partial := c |}) _).
  by intros [].
Defined.

#[global] Instance demo_component_eq_dec : EqDecision ProtocolComponent.
Proof. change (EqDecision (string * string)). apply _. Defined.
#[global] Instance demo_component_countable : Countable ProtocolComponent.
Proof. exact (prod_countable : Countable (string * string)). Defined.
#[global] Instance demo_sim_eq_dec : EqDecision ProtocolSim.
Proof. change (EqDecision N). apply _. Defined.
#[global] Instance demo_sim_countable : Countable ProtocolSim.
Proof. exact (N_countable). Defined.
#[global] Instance demo_block_eq_dec : EqDecision BlockHeader.
Proof. change (EqDecision DemoHeader). apply _. Defined.
#[global] Instance demo_block_countable : Countable BlockHeader.
Proof. exact DemoHeader_countable. Defined.
#[global] Instance demo_message_eq_dec : EqDecision StateSyncMessage.
Proof. change (EqDecision DemoHeader). apply _. Defined.
#[global] Instance demo_message_countable : Countable StateSyncMessage.
Proof. exact DemoHeader_countable. Defined.

#[global] Instance SynchronizerState_eq_dec : EqDecision SynchronizerState.
Proof. solve_decision. Defined.
#[global] Instance SynchronizerState_countable : Countable SynchronizerState.
Proof.
  refine (inj_countable'
    (λ s, match s with
          | SyncStarted => (0%N, None, "") | SyncReady h => (1%N, Some h, "")
          | SyncDelayed h => (2%N, Some h, "") | SyncStale h => (3%N, Some h, "")
          | SyncAdvanced h => (4%N, Some h, "") | SyncEnded r => (5%N, None, r)
          end)
    (λ '(k, h, r), match k, h with
                   | 1%N, Some h => SyncReady h | 2%N, Some h => SyncDelayed h
                   | 3%N, Some h => SyncStale h | 4%N, Some h => SyncAdvanced h
                   | 5%N, _ => SyncEnded r | _, _ => SyncStarted
                   end) _).
  by intros [].
Defined.

#[global] Instance status_kind_countable : Countable BroadcasterProtocolSyncStatusKind.
Proof.
  refine (inj_countable'
    (λ k, match k with StatusStarted => 0 | StatusReady => 1 | StatusDelayed => 2
                     | StatusStale => 3 | StatusAdvanced => 4 | StatusEnded => 5 end)
    (λ n, match n with 0 => StatusStarted | 1 => StatusReady | 2 => StatusDelayed
                     | 3 => StatusStale | 4 => StatusAdvanced | _ => StatusEnded end) _).
  by intros [].
Defined.

#[global] Instance block_ref_eq_dec : EqDecision BroadcasterBlockRef.
Proof. solve_decision. Defined.
#[global] Instance block_ref_countable : Countable BroadcasterBlockRef.
Proof.
  refine (inj_countable'
    (λ b, (br_hash b, br_number b, br_parent_hash b, br_revert b, br_timestamp b,
           br_partial_block_index b))
    (λ '(a, b, c, d, e, f),
      {| br_hash := a; br_number := b; br_parent_hash := c; br_revert := d;
         br_timestamp := e; br_partial_block_index := f |}) _).
  by intros [].
Defined.

#[global] Instance sync_status_eq_dec : EqDecision BroadcasterProtocolSyncStatus.
Proof. solve_decision. Defined.
#[global] Instance sync_status_countable : Countable BroadcasterProtocolSyncStatus.
Proof.
  refine (inj_countable' (λ s, (sst_kind s, sst_block s, sst_reason s))
    (λ '(a, b, c), {| sst_kind := a; sst_block := b; sst_reason := c |}) _).
  by intros [].
Defined.
End demo_countable.

(** *** Partitions *)

Section demo_partitions.
#[local] Existing Instance demo_tycho.

#[global] Instance state_entry_eq_dec : EqDecision BroadcasterStateEntry.
Proof. solve_decision. Defined.
#[global] Instance state_entry_countable : Countable BroadcasterStateEntry.
Proof.
  refine (inj_countable' (λ s, (se_component_id s, se_component s, se_state s))
    (λ '(a, b, c), {| se_component_id := a; se_component := b; se_state := c |}) _).
  by intros [].
Defined.
#[global] Instance state_delta_eq_dec : EqDecision BroadcasterStateDelta.
Proof. solve_decision. Defined.
#[global] Instance state_delta_countable : Countable BroadcasterStateDelta.
Proof.
  refine (inj_countable' (λ s, (sd_component_id s, sd_backend s, sd_state s))
    (λ '(a, b, c), {| sd_component_id := a; sd_backend := b; sd_state := c |}) _).
  by intros [].
Defined.
#[global] Instance removed_pair_eq_dec : EqDecision BroadcasterRemovedPair.
Proof. solve_decision. Defined.
#[global] Instance removed_pair_countable : Countable BroadcasterRemovedPair.
Proof.
  refine (inj_countable' (λ s, (rp_component_id s, rp_component s))
    (λ '(a, b), {| rp_component_id := a; rp_component := b |}) _).
  by intros [].
Defined.
#[global] Instance protocol_message_eq_dec : EqDecision BroadcasterProtocolMessage.
Proof. solve_decision. Defined.
#[global] Instance protocol_message_countable : Countable BroadcasterProtocolMessage.
Proof.
  refine (inj_countable' (λ s, (pm_protocol s, pm_sync_state s, pm_message s))
    (λ '(a, b, c), {| pm_protocol := a; pm_sync_state := b; pm_message := c |}) _).
  by intros [].
Defined.
#[global] Instance backend_head_eq_dec : EqDecision BroadcasterBackendHead.
Proof. solve_decision. Defined.
#[global] Instance backend_head_countable : Countable BroadcasterBackendHead.
Proof.
  refine (inj_countable' (λ s, (bh_backend s, bh_block_number s))
    (λ '(a, b), {| bh_backend := a; bh_block_number := b |}) _).
  by intros [].
Defined.
#[global] Instance snapshot_partition_eq_dec : EqDecision BroadcasterSnapshotPartition.
Proof. solve_decision. Defined.
#[global] Instance snapshot_partition_countable : Countable BroadcasterSnapshotPartition.
Proof.
  refine (inj_countable' (λ s, (sp_backend s, sp_block_number s, sp_messages s, sp_states s,
                                sp_sync_statuses s))
    (λ '(a, b, c, d, e), {| sp_backend := a; sp_block_number := b; sp_messages := c;
                            sp_states := d; sp_sync_statuses := e |}) _).
  by intros [].
Defined.
#[global] Instance update_partition_eq_dec : EqDecision BroadcasterUpdatePartition.
Proof. solve_decision. Defined.
#[global] Instance update_partition_countable : Countable BroadcasterUpdatePartition.
Proof.
  refine (inj_countable' (λ s, (up_backend s, up_block_number s, up_messages s, up_new_pairs s,
                                up_updated_states s, up_removed_pairs s, up_sync_statuses s))
    (λ '(a, b, c, d, e, f, g),
      {| up_backend := a; up_block_number := b; up_messages := c; up_new_pairs := d;
         up_updated_states := e; up_removed_pairs := f; up_sync_statuses := g |}) _).
  by intros [].
Defined.
End demo_partitions.

(** *** Payloads *)

#[global] Instance snapshot_start_eq_dec : EqDecision BroadcasterSnapshotStart.
Proof. solve_decision. Defined.
#[global] Instance snapshot_start_countable : Countable BroadcasterSnapshotStart.
Proof.
  refine (inj_countable' (λ s, (ss_snapshot_id s, ss_chain_id s, ss_backends s, ss_total_chunks s))
    (λ '(a, b, c, d), {| ss_snapshot_id := a; ss_chain_id := b; ss_backends := c;
                         ss_total_chunks := d |}) _).
  by intros [].
Defined.
#[global] Instance snapshot_end_eq_dec : EqDecision BroadcasterSnapshotEnd.
Proof. solve_decision. Defined.
#[global] Instance snapshot_end_countable : Countable BroadcasterSnapshotEnd.
Proof.
  refine (inj_countable' sn_snapshot_id (λ a, {| sn_snapshot_id := a |}) _). by intros [].
Defined.
#[global] Instance manifest_eq_dec : EqDecision BroadcasterRecoveryManifest.
Proof. solve_decision. Defined.
#[global] Instance manifest_countable : Countable BroadcasterRecoveryManifest.
Proof.
  refine (inj_countable'
    (λ m, (rm_recovery_id m, rm_target_state_version m, rm_backends m, rm_chunk_count m,
           rm_replacement_encoded_bytes m, rm_chunk_encoded_bytes m, rm_chunk_digests m,
           rm_replacement_digest m, rm_buffer_a_count m, rm_commit_watermark m))
    (λ '(a, b, c, d, e, f, g, h, i, j),
      {| rm_recovery_id := a; rm_target_state_version := b; rm_backends := c;
         rm_chunk_count := d; rm_replacement_encoded_bytes := e; rm_chunk_encoded_bytes := f;
         rm_chunk_digests := g; rm_replacement_digest := h; rm_buffer_a_count := i;
         rm_commit_watermark := j |}) _).
  by intros [].
Defined.
#[global] Instance recovery_chunk_eq_dec : EqDecision BroadcasterRecoveryChunk.
Proof. solve_decision. Defined.
#[global] Instance recovery_chunk_countable : Countable BroadcasterRecoveryChunk.
Proof.
  refine (inj_countable'
    (λ m, (rc_recovery_id m, rc_target_state_version m, rc_backends m, rc_chunk_index m,
           rc_encoded_bytes m, rc_digest m, rc_payload_fragment m))
    (λ '(a, b, c, d, e, f, g),
      {| rc_recovery_id := a; rc_target_state_version := b; rc_backends := c;
         rc_chunk_index := d; rc_encoded_bytes := e; rc_digest := f;
         rc_payload_fragment := g |}) _).
  by intros [].
Defined.
#[global] Instance recovery_commit_eq_dec : EqDecision BroadcasterRecoveryCommit.
Proof. solve_decision. Defined.
#[global] Instance recovery_commit_countable : Countable BroadcasterRecoveryCommit.
Proof.
  refine (inj_countable'
    (λ m, (rt_recovery_id m, rt_target_state_version m, rt_backends m, rt_replacement_digest m,
           rt_buffer_a_count m, rt_commit_watermark m))
    (λ '(a, b, c, d, e, f),
      {| rt_recovery_id := a; rt_target_state_version := b; rt_backends := c;
         rt_replacement_digest := d; rt_buffer_a_count := e; rt_commit_watermark := f |}) _).
  by intros [].
Defined.
#[global] Instance progress_eq_dec : EqDecision BroadcasterProgress.
Proof. solve_decision. Defined.
#[global] Instance progress_countable : Countable BroadcasterProgress.
Proof.
  refine (inj_countable' (λ m, (pg_chain_id m, pg_snapshot_id m, pg_backends m, pg_reason m))
    (λ '(a, b, c, d), {| pg_chain_id := a; pg_snapshot_id := b; pg_backends := c;
                         pg_reason := d |}) _).
  by intros [].
Defined.

Section demo_payloads.
#[local] Existing Instance demo_tycho.

#[global] Instance payload_eq_dec : EqDecision BroadcasterPayload.
Proof.
  assert (EqDecision BroadcasterSnapshotChunk) by solve_decision.
  assert (EqDecision BroadcasterRecoveryStart) by solve_decision.
  assert (EqDecision BroadcasterUpdateMessage) by solve_decision.
  assert (EqDecision BroadcasterRecoveryCatchUp) by solve_decision.
  assert (EqDecision BroadcasterHeartbeat) by solve_decision.
  solve_decision.
Defined.

(** A payload as nested sums of tuples. *)
Definition payload_code (p : BroadcasterPayload) :=
  match p with
  | SnapshotStart s => inl (inl (inl (inl s)))
  | SnapshotChunk c =>
      inl (inl (inl (inr (sc_snapshot_id c, sc_chunk_index c, sc_partitions c))))
  | SnapshotEnd n => inl (inl (inr n))
  | RecoveryStart s => inl (inr (inl (rs_manifest s)))
  | RecoveryChunk c => inl (inr (inr c))
  | RecoveryCatchUp c =>
      inr (inl (inl (inl (cu_recovery_id c, cu_target_state_version c, cu_block_index c,
                          um_partitions (cu_update c)))))
  | RecoveryCommit c => inr (inl (inl (inr c)))
  | Update u => inr (inl (inr (um_partitions u)))
  | Heartbeat h => inr (inr (inl (hb_chain_id h, hb_snapshot_id h, hb_backend_heads h)))
  | Progress p => inr (inr (inr p))
  end.

#[global] Instance payload_countable : Countable BroadcasterPayload.
Proof.
  refine (inj_countable' payload_code
    (λ c, match c with
          | inl (inl (inl (inl s))) => SnapshotStart s
          | inl (inl (inl (inr (a, b, c)))) =>
              SnapshotChunk {| sc_snapshot_id := a; sc_chunk_index := b; sc_partitions := c |}
          | inl (inl (inr n)) => SnapshotEnd n
          | inl (inr (inl m)) => RecoveryStart {| rs_manifest := m |}
          | inl (inr (inr c)) => RecoveryChunk c
          | inr (inl (inl (inl (a, b, c, d)))) =>
              RecoveryCatchUp {| cu_recovery_id := a; cu_target_state_version := b;
                                 cu_block_index := c; cu_update := {| um_partitions := d |} |}
          | inr (inl (inl (inr c))) => RecoveryCommit c
          | inr (inl (inr ps)) => Update {| um_partitions := ps |}
          | inr (inr (inl (a, b, c))) =>
              Heartbeat {| hb_chain_id := a; hb_snapshot_id := b; hb_backend_heads := c |}
          | inr (inr (inr p)) => Progress p
          end) _).
  by intros [[]|[]|[]|[]|[]|[? ? ? []]|[]|[]|[]|[]].
Defined.

#[global] Instance envelope_eq_dec : EqDecision BroadcasterEnvelope.
Proof. solve_decision. Defined.
#[global] Instance envelope_countable : Countable BroadcasterEnvelope.
Proof.
  refine (inj_countable' (λ e, (env_stream_id e, env_message_seq e, env_payload e))
    (λ '(a, b, c), {| env_stream_id := a; env_message_seq := b; env_payload := c |}) _).
  by intros [].
Defined.

Definition demo_json (e : BroadcasterEnvelope) : string :=
  String "{" (bits_of (encode e)).

Definition demo_of_json (s : string) : option BroadcasterEnvelope :=
  match s with
  | String "{" bits => p ← of_bits bits; decode p
  | _ => None
  end.
End demo_payloads.

Definition demo_serde : @SerdeJson demo_tycho := {|
  json_of_envelope e := Ok (demo_json e);
  raw_envelope_of_json s := ok_or (demo_of_json s) "expected an envelope";
  wire_sim := id;
|}.

Lemma map_id_list {A} (f : A → A) l : (∀ x, f x = x) → map f l = l.
Proof. intros Hf. induction l as [|x l IH]; [done|]. simpl. by rewrite Hf, IH. Qed.

Lemma map_envelope_id e : @map_envelope demo_tycho id e = e.
Proof.
  assert (∀ p, @map_update_partition demo_tycho id p = p) as Hu.
  { intros [? ? ? np us ? ?]. unfold map_update_partition. simpl.
    by rewrite !map_id_list by by intros []. }
  assert (∀ p, @map_snapshot_partition demo_tycho id p = p) as Hs.
  { intros [? ? ? st ?]. unfold map_snapshot_partition. simpl.
    by rewrite !map_id_list by by intros []. }
  destruct e as [st n [s|[a b c]|n'|s|c|[a b c [ps]]|c|[ps]|h|p]]; unfold map_envelope; simpl;
    unfold map_update; simpl; rewrite ?(map_id_list _ _ Hu), ?(map_id_list _ _ Hs); done.
Qed.

Lemma demo_serde_laws : @SerdeJsonLaws demo_tycho demo_serde.
Proof.
  split.
  - intros e s _ [= <-]. simpl. rewrite of_bits_of. simpl. rewrite decode_encode. simpl.
    by rewrite map_envelope_id.
  - intros e s [= <-]. unfold demo_json.
    match goal with |- context [bits_of ?p] => generalize (bits_of p) end.
    by intros [|c [|c' t]].
Qed.

Definition demo_progress : BroadcasterProgress := {|
  pg_chain_id := 1; pg_snapshot_id := "chain-1-snapshot-7";
  pg_backends := [Native; Rfq]; pg_reason := "writer_promoted" |}.

Definition demo_envelope (seq : N) : @BroadcasterEnvelope demo_tycho := {|
  env_stream_id := "chain-1-stream-7"; env_message_seq := seq;
  env_payload := Progress demo_progress |}.
