(* ===== verification/RedisEntry.v ===== *)
(** * Redis stream entries

    [simulator-core/src/broadcaster/redis_streams.rs]: the flat record stored for
    one broadcaster envelope, its validation against the envelope it carries, its
    text fields, and the replay boundary handed out with a snapshot session. *)

From S2P Require Import Prelude Ordered Text Protocol Wire Validate Codec.

Definition REDIS_STREAM_SCHEMA_VERSION : string := "1".

Record BroadcasterRedisStreamEntry := {
  schema_version : string;
  chain_id : u64;
  stream_id : string;
  message_seq : u64;
  state_version : u64;
  kind : BroadcasterMessageKind;
  snapshot_id : option string;
  backend_scope : string;
  block_number : option u64;
  observed_timestamp_ms : option u64;
  published_at_ms : u64;
  payload_json : string;
}.

(** ** Backend scopes *)

Definition required_redis_field (field value : string) : contract string :=
  if str_blank value then Err (RedisEntryEmptyField field) else Ok value.

(** The insertions into a [BTreeSet], which refuse a second occurrence. *)
Fixpoint redis_scope_insert (unique : gset BroadcasterBackend)
    (backends : list BroadcasterBackend) : contract (gset BroadcasterBackend) :=
  match backends with
  | [] => Ok unique
  | backend :: rest =>
      if decide (backend ∈ unique)
      then Err (DuplicateBackendEntry "redis_entry.backend_scope" backend)
      else redis_scope_insert ({[backend]} ∪ unique) rest
  end.

Definition redis_scope_push (scope : string) (backend : BroadcasterBackend) : string :=
  let scope := if String.eqb scope "" then scope else scope +:+ String comma "" in
  scope +:+ BroadcasterBackend_as_str backend.

Definition redis_backend_scope (backends : list BroadcasterBackend) : contract string :=
  if bool_decide (backends = []) then Err (RedisEntryEmptyField "backend_scope")
  else
    unique ← redis_scope_insert ∅ backends;
    Ok (foldl redis_scope_push "" (sort (elements unique))).

Definition parse_redis_backend (value : string) : contract BroadcasterBackend :=
  match str_match value [("native", Native); ("vm", Vm); ("rfq", Rfq)] with
  | Some backend => Ok backend
  | None => Err (RedisBackendScopeInvalid value)
  end.

Definition parse_redis_backend_step (backends : list BroadcasterBackend) (value : string) :
    contract (list BroadcasterBackend) :=
  backend ← parse_redis_backend value;
  if bool_decide (backend ∈ backends)
  then Err (DuplicateBackendEntry "redis_entry.backend_scope" backend)
  else Ok (backends ++ [backend]).

Definition parse_redis_backend_scope (backend_scope : string) :
    contract (list BroadcasterBackend) :=
  _ ← required_redis_field "backend_scope" backend_scope;
  backends ← fold_result parse_redis_backend_step [] (str_split comma backend_scope);
  expected ← redis_backend_scope backends;
  if String.eqb backend_scope expected then Ok backends
  else Err (RedisBackendScopeInvalid backend_scope).

Definition ensure_redis_backend_scope (entry_backends payload_backends : list BroadcasterBackend) :
    contract unit :=
  entry_scope ← redis_backend_scope entry_backends;
  let payload_scope := default "" (result_ok (redis_backend_scope payload_backends)) in
  ensure (String.eqb entry_scope payload_scope) (RedisBackendScopeInvalid entry_scope).

(** ** Field checks *)

Definition redis_entry_requires_snapshot_id (kind : BroadcasterMessageKind) : bool :=
  match kind with KHeartbeat | KProgress => true | _ => false end.

Definition ensure_redis_schema_version (schema_version : string) : contract unit :=
  ensure (String.eqb schema_version REDIS_STREAM_SCHEMA_VERSION)
    (RedisUnsupportedSchemaVersion schema_version).

Definition ensure_redis_message_seq (message_seq : u64) : contract unit :=
  if (message_seq =? 0)%N then Err RedisMessageSequenceZero else Ok tt.

Definition ensure_redis_delta_kind (kind : BroadcasterMessageKind) : contract unit :=
  match kind with
  | KRecoveryStart | KRecoveryChunk | KRecoveryCatchUp | KRecoveryCommit
  | KUpdate | KHeartbeat | KProgress => Ok tt
  | KSnapshotStart | KSnapshotChunk | KSnapshotEnd =>
      Err (RedisSnapshotPayloadUnsupported kind)
  end.

Definition ensure_redis_snapshot_id (entry_snapshot_id : option string)
    (payload_snapshot_id : string) : contract unit :=
  match entry_snapshot_id with
  | None => Err (RedisEntryMissingSnapshotId KSnapshotStart)
  | Some entry_snapshot_id => ensure_snapshot_id entry_snapshot_id payload_snapshot_id
  end.

(** ** What the entry repeats of its payload *)

Section payload.
Context `{TychoTypes}.

Definition is_chain_backend (b : BroadcasterBackend) : bool :=
  match b with Native | Vm => true | Rfq => false end.

Definition redis_payload_chain_block_numbers (payload : BroadcasterPayload) : list u64 :=
  match payload with
  | Update update =>
      map up_block_number
        (base.filter (λ p, is_chain_backend (up_backend p) = true) (um_partitions update))
  | RecoveryCatchUp catch_up =>
      map up_block_number
        (base.filter (λ p, is_chain_backend (up_backend p) = true)
           (um_partitions (cu_update catch_up)))
  | _ => []
  end.

Definition redis_payload_global_block_number (block_numbers : list u64) : option u64 :=
  match block_numbers with
  | [] => None
  | first_block_number :: remaining =>
      if forallb (N.eqb first_block_number) remaining then Some first_block_number else None
  end.

Definition redis_entry_block_number (payload : BroadcasterPayload) : option u64 :=
  redis_payload_global_block_number (redis_payload_chain_block_numbers payload).

(** [iter().find(|p| p.backend == Rfq).map(|p| p.block_number)]. *)
Definition rfq_block_number {A} (backend : A → BroadcasterBackend) (number : A → u64)
    (l : list A) : option u64 :=
  number <$> List.find (λ p, bool_decide (backend p = Rfq)) l.

Definition redis_entry_observed_timestamp_ms (payload : BroadcasterPayload) : option u64 :=
  match payload with
  | Update update => rfq_block_number up_backend up_block_number (um_partitions update)
  | RecoveryCatchUp catch_up =>
      rfq_block_number up_backend up_block_number (um_partitions (cu_update catch_up))
  | Heartbeat heartbeat =>
      rfq_block_number bh_backend bh_block_number (hb_backend_heads heartbeat)
  | _ => None
  end.

Definition redis_payload_snapshot_id (payload : BroadcasterPayload) : option string :=
  match payload with
  | Heartbeat heartbeat => Some (hb_snapshot_id heartbeat)
  | Progress progress => Some (pg_snapshot_id progress)
  | _ => None
  end.

Definition redis_payload_chain_id (payload : BroadcasterPayload) : option u64 :=
  match payload with
  | Heartbeat heartbeat => Some (hb_chain_id heartbeat)
  | Progress progress => Some (pg_chain_id progress)
  | _ => None
  end.

Definition redis_target_state_version (payload : BroadcasterPayload) : option u64 :=
  match payload with
  | RecoveryStart start => Some (rm_target_state_version (rs_manifest start))
  | RecoveryChunk chunk => Some (rc_target_state_version chunk)
  | RecoveryCatchUp catch_up => Some (cu_target_state_version catch_up)
  | RecoveryCommit commit => Some (rt_target_state_version commit)
  | _ => None
  end.

Definition redis_update_backend_scope (partitions : list BroadcasterUpdatePartition) :
    contract (option (list BroadcasterBackend)) :=
  let backends := map up_backend partitions in
  match backends with
  | [] => Ok (Some backends)
  | _ =>
      scope ← redis_backend_scope backends;
      Some <$> parse_redis_backend_scope scope
  end.

Definition redis_payload_backend_scope (payload : BroadcasterPayload) :
    contract (option (list BroadcasterBackend)) :=
  match payload with
  | Update update => redis_update_backend_scope (um_partitions update)
  | RecoveryStart start =>
      validate_recovery_manifest (rs_manifest start) ;;
      Ok (Some (rm_backends (rs_manifest start)))
  | RecoveryChunk chunk => validate_recovery_chunk chunk ;; Ok (Some (rc_backends chunk))
  | RecoveryCatchUp catch_up =>
      validate_recovery_catch_up catch_up ;;
      redis_update_backend_scope (um_partitions (cu_update catch_up))
  | RecoveryCommit commit =>
      validate_recovery_commit commit ;; Ok (Some (rt_backends commit))
  | Heartbeat heartbeat => Ok (Some (map bh_backend (hb_backend_heads heartbeat)))
  | Progress progress => Ok (Some (pg_backends progress))
  | SnapshotStart _ | SnapshotChunk _ | SnapshotEnd _ => Ok None
  end.

(** ** Comparing the entry with its payload *)

Definition ensure_redis_payload_block_number (entry_block_number : option u64)
    (payload : BroadcasterPayload) : contract unit :=
  match entry_block_number, redis_entry_block_number payload with
  | Some e, Some p => if (e =? p)%N then Ok tt else Err (RedisBlockNumberMismatch e p)
  | Some _, None => Err (RedisEntryUnexpectedField "block_number")
  | None, Some _ => Err (RedisEntryEmptyField "block_number")
  | None, None => Ok tt
  end.

Definition ensure_redis_payload_observed_timestamp_ms
    (entry_observed_timestamp_ms : option u64) (payload : BroadcasterPayload) :
    contract unit :=
  match entry_observed_timestamp_ms, redis_entry_observed_timestamp_ms payload with
  | Some e, Some p =>
      if (e =? p)%N then Ok tt else Err (RedisObservedTimestampMismatch e p)
  | Some _, None => Err (RedisEntryUnexpectedField "observed_timestamp_ms")
  | None, Some _ => Err (RedisEntryEmptyField "observed_timestamp_ms")
  | None, None => Ok tt
  end.

Definition ensure_redis_payload_state_version (state_version : u64)
    (payload : BroadcasterPayload) : contract unit :=
  let target_state_version := redis_target_state_version payload in
  ensure (match target_state_version with
          | None => true
          | Some target => (target =? state_version)%N
          end)
    (RedisPayloadJsonInvalid
       ("Redis entry state_version " +:+ u64_to_string state_version
          +:+ " does not match recovery target "
          +:+ u64_to_string (default 0%N target_state_version))).
End payload.

(** ** Validation and construction *)

Section entry.
Context `{SerdeJson}.

Definition parse_redis_payload_json (payload_json : string) :
    contract BroadcasterEnvelope :=
  map_err RedisPayloadJsonInvalid (envelope_of_json payload_json).

Definition entry_validate_payload (self : BroadcasterRedisStreamEntry)
    (backends : list BroadcasterBackend) : contract unit :=
  envelope ← parse_redis_payload_json (payload_json self);
  ensure_stream_id (stream_id self) (env_stream_id envelope) ;;
  ensure_message_seq (Some (message_seq self)) (env_message_seq envelope) ;;
  ensure (bool_decide (BroadcasterEnvelope_kind envelope = kind self))
    (RedisPayloadKindMismatch (kind self) (BroadcasterEnvelope_kind envelope)) ;;
  match redis_payload_snapshot_id (env_payload envelope) with
  | Some payload_snapshot_id =>
      ensure_redis_snapshot_id (snapshot_id self) payload_snapshot_id
  | None => Ok tt
  end ;;
  match redis_payload_chain_id (env_payload envelope) with
  | Some payload_chain_id => ensure_chain_id (chain_id self) payload_chain_id
  | None => Ok tt
  end ;;
  payload_scope ← redis_payload_backend_scope (env_payload envelope);
  match payload_scope with
  | Some payload_backends => ensure_redis_backend_scope backends payload_backends
  | None => Ok tt
  end ;;
  ensure_redis_payload_block_number (block_number self) (env_payload envelope) ;;
  ensure_redis_payload_observed_timestamp_ms (observed_timestamp_ms self)
    (env_payload envelope) ;;
  ensure_redis_payload_state_version (state_version self) (env_payload envelope) ;;
  Ok tt.

Definition entry_validate (self : BroadcasterRedisStreamEntry) : contract unit :=
  ensure_redis_schema_version (schema_version self) ;;
  _ ← required_redis_field "stream_id" (stream_id self);
  _ ← required_redis_field "payload_json" (payload_json self);
  ensure_redis_message_seq (message_seq self) ;;
  ensure_redis_delta_kind (kind self) ;;
  backends ← parse_redis_backend_scope (backend_scope self);
  match snapshot_id self with
  | Some snapshot_id => _ ← required_redis_field "snapshot_id" snapshot_id; Ok tt
  | None => Ok tt
  end ;;
  if bool_decide (snapshot_id self = None) && redis_entry_requires_snapshot_id (kind self)
  then Err (RedisEntryMissingSnapshotId (kind self))
  else entry_validate_payload self backends.

Definition from_envelope_at (chain_id : u64) (envelope : BroadcasterEnvelope)
    (published_at_ms state_version : u64) : contract BroadcasterRedisStreamEntry :=
  ensure_redis_delta_kind (BroadcasterEnvelope_kind envelope) ;;
  scope ← redis_payload_backend_scope (env_payload envelope);
  let backends := default [] scope in
  payload_json ← map_err RedisPayloadJsonInvalid (json_of_envelope envelope);
  stream_id ← required_redis_field "stream_id" (env_stream_id envelope);
  backend_scope ← redis_backend_scope backends;
  let entry := {|
    schema_version := REDIS_STREAM_SCHEMA_VERSION;
    chain_id := chain_id;
    stream_id := stream_id;
    message_seq := env_message_seq envelope;
    state_version := state_version;
    kind := BroadcasterEnvelope_kind envelope;
    snapshot_id := redis_payload_snapshot_id (env_payload envelope);
    backend_scope := backend_scope;
    block_number := redis_entry_block_number (env_payload envelope);
    observed_timestamp_ms := redis_entry_observed_timestamp_ms (env_payload envelope);
    published_at_ms := published_at_ms;
    payload_json := payload_json;
  |} in
  entry_validate entry ;;
  Ok entry.

Definition from_envelope (chain_id : u64) (envelope : BroadcasterEnvelope)
    (state_version : u64) : contract BroadcasterRedisStreamEntry :=
  from_envelope_at chain_id envelope 0 state_version.
End entry.

(** ** Text fields

    [Serialize] and [Deserialize]: every number travels as a decimal string,
    absent options are left out, unknown fields are refused. *)

Definition u64_string_serialize (value : u64) : string := u64_to_string value.

Definition entry_fields (e : BroadcasterRedisStreamEntry) : list (string * string) :=
  [("schema_version", schema_version e);
   ("chain_id", u64_string_serialize (chain_id e));
   ("stream_id", stream_id e);
   ("message_seq", u64_string_serialize (message_seq e));
   ("state_version", u64_string_serialize (state_version e));
   ("kind", BroadcasterMessageKind_as_str (kind e))]
  ++ option_list (pair "snapshot_id" <$> snapshot_id e)
  ++ [("backend_scope", backend_scope e)]
  ++ option_list (pair "block_number" <$> (u64_string_serialize <$> block_number e))
  ++ option_list
       (pair "observed_timestamp_ms" <$> (u64_string_serialize <$> observed_timestamp_ms e))
  ++ [("published_at_ms", u64_string_serialize (published_at_ms e));
      ("payload_json", payload_json e)].

Definition entry_field_names : list string :=
  ["schema_version"; "chain_id"; "stream_id"; "message_seq"; "state_version"; "kind";
   "snapshot_id"; "backend_scope"; "block_number"; "observed_timestamp_ms";
   "published_at_ms"; "payload_json"].

Definition all_message_kinds : list BroadcasterMessageKind :=
  [KSnapshotStart; KSnapshotChunk; KSnapshotEnd; KRecoveryStart; KRecoveryChunk;
   KRecoveryCatchUp; KRecoveryCommit; KUpdate; KHeartbeat; KProgress].

(** The derived [Deserialize] of [BroadcasterMessageKind], in snake case. *)
Definition BroadcasterMessageKind_of_str (s : string) : option BroadcasterMessageKind :=
  str_match s (map (λ k, (BroadcasterMessageKind_as_str k, k)) all_message_kinds).

(** Why a field map is not an entry.  When several fields are at fault the code
    reports one of them; the model fixes the order of [entry_field_names]. *)
Inductive EntryDecodeError :=
| UnknownField
| MissingField (field : string)
| UnknownVariant (value : string)
| ExpectedU64String
| ExpectedOptionalU64String
| EntryContract (error : BroadcasterContractError).

#[export] Instance EntryDecodeError_eq_dec : EqDecision EntryDecodeError.
Proof. solve_decision. Defined.

Section decode_fields.
Context (fields : gmap string string).

Definition wire_string (field : string) : result EntryDecodeError string :=
  ok_or (fields !! field) (MissingField field).

Definition wire_u64 (field : string) : result EntryDecodeError u64 :=
  value ← wire_string field;
  ok_or (parse_u64 value) ExpectedU64String.

Definition wire_optional_u64 (field : string) : result EntryDecodeError (option u64) :=
  match fields !! field with
  | None => Ok None
  | Some value => Some <$> ok_or (parse_u64 value) ExpectedOptionalU64String
  end.

Definition wire_kind : result EntryDecodeError BroadcasterMessageKind :=
  value ← wire_string "kind";
  ok_or (BroadcasterMessageKind_of_str value) (UnknownVariant value).

Definition wire_entry : result EntryDecodeError BroadcasterRedisStreamEntry :=
  ensure (bool_decide (dom fields ⊆ (list_to_set entry_field_names : gset string)))
    UnknownField ;;
  schema_version ← wire_string "schema_version";
  chain_id ← wire_u64 "chain_id";
  stream_id ← wire_string "stream_id";
  message_seq ← wire_u64 "message_seq";
  state_version ← wire_u64 "state_version";
  kind ← wire_kind;
  backend_scope ← wire_string "backend_scope";
  block_number ← wire_optional_u64 "block_number";
  observed_timestamp_ms ← wire_optional_u64 "observed_timestamp_ms";
  published_at_ms ← wire_u64 "published_at_ms";
  payload_json ← wire_string "payload_json";
  Ok {| schema_version := schema_version; chain_id := chain_id; stream_id := stream_id;
        message_seq := message_seq; state_version := state_version; kind := kind;
        snapshot_id := fields !! "snapshot_id"; backend_scope := backend_scope;
        block_number := block_number; observed_timestamp_ms := observed_timestamp_ms;
        published_at_ms := published_at_ms; payload_json := payload_json |}.
End decode_fields.

Definition entry_deserialize `{SerdeJson} (fields : gmap string string) :
    result EntryDecodeError BroadcasterRedisStreamEntry :=
  entry ← wire_entry fields;
  map_err EntryContract (entry_validate entry) ;;
  Ok entry.

(** ** Replay boundaries *)

Record BroadcasterRedisReplayBoundary := {
  bd_stream_key : string;
  bd_stream_id : string;
  bd_snapshot_id : string;
  bd_generation : u64;
  bd_exclusive_message_seq : u64;
  bd_state_version : u64;
}.

#[export] Instance BroadcasterRedisReplayBoundary_eq_dec :
  EqDecision BroadcasterRedisReplayBoundary.
Proof. solve_decision. Defined.

Definition redis_boundary_generation (generation : u64) : contract u64 :=
  if (generation =? 0)%N
  then Err (InvalidRedisEntryId (u64_to_string generation +:+ "-0"))
  else Ok generation.

Definition BroadcasterRedisReplayBoundary_new (stream_key stream_id snapshot_id : string)
    (generation exclusive_message_seq state_version : u64) :
    contract BroadcasterRedisReplayBoundary :=
  stream_key ← required_redis_field "stream_key" stream_key;
  stream_id ← required_redis_field "stream_id" stream_id;
  snapshot_id ← required_redis_field "snapshot_id" snapshot_id;
  generation ← redis_boundary_generation generation;
  Ok {| bd_stream_key := stream_key; bd_stream_id := stream_id;
        bd_snapshot_id := snapshot_id; bd_generation := generation;
        bd_exclusive_message_seq := exclusive_message_seq;
        bd_state_version := state_version |}.

(** [format!("{generation}-{message_seq}")]. *)
Definition entry_id_text (generation message_seq : u64) : string :=
  u64_to_string generation +:+ String dash (u64_to_string message_seq).

Definition exclusive_entry_id (self : BroadcasterRedisReplayBoundary) : string :=
  entry_id_text (bd_generation self) (bd_exclusive_message_seq self).

(** ** Facts: backend scopes *)

Lemma required_redis_field_ok field value v :
  required_redis_field field value = Ok v ↔ v = value ∧ str_blank value = false.
Proof. unfold required_redis_field. destruct (str_blank value); naive_solver. Qed.

Lemma redis_scope_insert_ok backends unique u :
  redis_scope_insert unique backends = Ok u ↔
  NoDup backends ∧ (∀ b, b ∈ backends → b ∉ unique) ∧ u = list_to_set backends ∪ unique.
Proof.
  revert unique. induction backends as [|b bs IH]; intros unique; simpl.
  - split.
    + intros [= <-]. split_and!; [constructor|set_solver|set_solver].
    + intros (_ & _ & ->). f_equal. set_solver.
  - destruct (decide (b ∈ unique)) as [Hb|Hb].
    + split; [done|]. intros (_ & Hn & _). by destruct (Hn b ltac:(left)).
    + rewrite IH, NoDup_cons. split.
      * intros (Hnd & Hd & ->). split_and!; [|done| |set_solver].
        -- intros Hin. apply (Hd _ Hin). set_solver.
        -- intros b' [->|Hb']%elem_of_cons; [done|]. intros Hu. apply (Hd _ Hb'). set_solver.
      * intros ([Hni Hnd] & Hd & ->). split_and!; [done| |set_solver].
        intros b' Hb' [->%elem_of_singleton|Hu]%elem_of_union; [done|].
        apply (Hd b'); [by right|done].
Qed.

Lemma backend_as_str_inj a b : BroadcasterBackend_as_str a = BroadcasterBackend_as_str b → a = b.
Proof. by destruct a, b. Qed.

Lemma backend_as_str_no_comma b : str_elem comma (BroadcasterBackend_as_str b) = false.
Proof. by destruct b. Qed.

Definition scope_text (backends : list BroadcasterBackend) : string :=
  str_join (String comma "") (map BroadcasterBackend_as_str backends).

Lemma foldl_scope_push scope bs :
  scope ≠ "" →
  foldl redis_scope_push scope bs =
  scope +:+ (if bool_decide (bs = []) then "" else String comma (scope_text bs)).
Proof.
  revert scope. induction bs as [|b bs IH]; intros scope Hs.
  { simpl. clear Hs. induction scope as [|c s IHs]; [done|]. rewrite str_app_cons. by f_equal. }
  cbn [foldl]. rewrite IH.
  - rewrite (bool_decide_false (b :: bs = [])) by done. unfold redis_scope_push.
    destruct (String.eqb_spec scope ""); [done|]. rewrite !str_app_assoc. f_equal.
    rewrite str_app_cons. f_equal. change ("" +:+ ?x) with x.
    destruct bs as [|b' bs]; [rewrite bool_decide_true by done; by destruct b|].
    rewrite bool_decide_false by done. done.
  - unfold redis_scope_push. by destruct (String.eqb_spec scope ""), scope, b.
Qed.

Lemma foldl_scope_text bs : foldl redis_scope_push "" bs = scope_text bs.
Proof.
  destruct bs as [|b bs]; [done|]. cbn [foldl].
  change (redis_scope_push "" b) with ("" +:+ BroadcasterBackend_as_str b).
  change ("" +:+ ?x) with x. rewrite foldl_scope_push by (by destruct b).
  destruct bs as [|b' bs]; [rewrite bool_decide_true by done; by destruct b|].
  rewrite bool_decide_false by done. done.
Qed.

(** The scope of a list of backends: the names of its elements in declaration
    order, comma separated; no element twice. *)
Lemma redis_backend_scope_ok bs s :
  redis_backend_scope bs = Ok s ↔ bs ≠ [] ∧ NoDup bs ∧ s = scope_text (sort bs).
Proof.
  unfold redis_backend_scope. destruct (decide (bs = [])) as [->|Hne]; [naive_solver|].
  rewrite bool_decide_false, bind_ok by done.
  assert (∀ u : gset BroadcasterBackend, u = list_to_set bs ∪ ∅ → NoDup bs → sort (elements u) = sort bs) as Hsort.
  { intros u -> Hnd. apply sort_by_key_det.
    - rewrite list_fmap_id. apply NoDup_elements.
    - by rewrite union_empty_r_L, elements_list_to_set. }
  split.
  - intros (u & (Hnd & _ & Hu)%redis_scope_insert_ok & [= <-]).
    rewrite foldl_scope_text, (Hsort u) by done. done.
  - intros (_ & Hnd & ->). exists (list_to_set bs ∪ ∅). split.
    + apply redis_scope_insert_ok. split_and!; [done|set_solver|done].
    + by rewrite foldl_scope_text, Hsort.
Qed.

Lemma parse_redis_backend_ok value b :
  parse_redis_backend value = Ok b ↔ value = BroadcasterBackend_as_str b.
Proof.
  unfold parse_redis_backend. split.
  - destruct (str_match value _) as [b'|] eqn:E; [|done]. intros [= ->].
    apply str_match_Some in E. rewrite !elem_of_cons, elem_of_nil in E.
    naive_solver.
  - intros ->. by destruct b.
Qed.

Lemma parse_steps_ok values acc bs :
  fold_result parse_redis_backend_step acc values = Ok bs ↔
  ∃ new, bs = acc ++ new ∧ values = map BroadcasterBackend_as_str new ∧
    NoDup new ∧ ∀ b, b ∈ new → b ∉ acc.
Proof.
  revert acc. induction values as [|v values IH]; intros acc; cbn [fold_result].
  - split.
    + intros [= ->]. exists []. rewrite app_nil_r. split_and!; [done|done|constructor|set_solver].
    + intros ([|] & -> & [=] & _). by rewrite app_nil_r.
  - rewrite bind_ok. unfold parse_redis_backend_step. split.
    + intros (acc' & Hstep & Hrest). apply bind_ok in Hstep as (b & Hb & Hstep).
      apply parse_redis_backend_ok in Hb as ->.
      case_bool_decide as Hin; [done|]. injection Hstep as <-.
      apply IH in Hrest as (new & -> & -> & Hnd & Hnew). exists (b :: new).
      split_and!; [by rewrite <- app_assoc|done| |set_solver].
      apply NoDup_cons. split; [|done]. intros Hb. apply (Hnew _ Hb). set_solver.
    + intros ([|b new] & -> & [= -> ->] & Hnd & Hnew). apply NoDup_cons in Hnd as [Hni Hnd].
      exists (acc ++ [b]). split.
      * apply bind_ok. exists b. split; [by apply parse_redis_backend_ok|].
        rewrite bool_decide_false; [done|]. apply Hnew. left.
      * apply IH. exists new. split_and!; [by rewrite <- app_assoc|done|done|set_solver].
Qed.

Lemma map_as_str_inj bs cs :
  map BroadcasterBackend_as_str bs = map BroadcasterBackend_as_str cs → bs = cs.
Proof.
  revert cs. induction bs as [|b bs IH]; intros [|c cs]; try done.
  intros [= Hb%backend_as_str_inj Hbs]. f_equal; auto.
Qed.

Lemma scope_text_split bs : bs ≠ [] → str_split comma (scope_text bs) = map BroadcasterBackend_as_str bs.
Proof.
  intros Hne. apply str_split_join; [by destruct bs|].
  apply Forall_forall. intros s (b & -> & _)%list_elem_of_fmap. apply backend_as_str_no_comma.
Qed.

Lemma scope_text_not_blank bs : bs ≠ [] → str_blank (scope_text bs) = false.
Proof. destruct bs as [|[] [|b bs]]; done. Qed.

(** Reading a scope accepts exactly what writing one produces. *)
Lemma parse_redis_backend_scope_ok s bs :
  parse_redis_backend_scope s = Ok bs ↔ redis_backend_scope bs = Ok s ∧ sort bs = bs.
Proof.
  unfold parse_redis_backend_scope. rewrite bind_ok.
  setoid_rewrite bind_ok. setoid_rewrite bind_ok.
  setoid_rewrite required_redis_field_ok. setoid_rewrite parse_steps_ok. split.
  - intros (? & [_ Hblank] & bs' & (new & -> & Hsplit & Hnd & _) & expected & Hexp & Heq).
    simpl in *. destruct (String.eqb_spec s expected) as [->|]; [|done]. injection Heq as ->.
    split; [done|]. apply redis_backend_scope_ok in Hexp as (Hne & _ & ->).
    rewrite scope_text_split in Hsplit.
    + by apply map_as_str_inj.
    + intros Hs. pose proof (sort_by_key_perm id bs) as Hp. rewrite Hs in Hp.
      by apply Permutation_nil_l in Hp.
  - intros [Hs Hsort]. exists s. pose proof Hs as (Hne & Hnd & Htext)%redis_backend_scope_ok.
    rewrite Hsort in Htext. subst s. split; [split; [done|by apply scope_text_not_blank]|].
    exists bs. split.
    + exists bs. split_and!; [done|by apply scope_text_split|done|set_solver].
    + exists (scope_text bs). by rewrite String.eqb_refl.
Qed.

Lemma ensure_redis_backend_scope_ok bs s payload_bs :
  redis_backend_scope bs = Ok s →
  ensure_redis_backend_scope bs payload_bs = Ok tt ↔ redis_backend_scope payload_bs = Ok s.
Proof.
  intros Hs. unfold ensure_redis_backend_scope. rewrite Hs.
  change (ensure (String.eqb s (default "" (result_ok (redis_backend_scope payload_bs))))
            (RedisBackendScopeInvalid s) = Ok tt ↔ redis_backend_scope payload_bs = Ok s).
  rewrite ensure_ok, String.eqb_eq. apply redis_backend_scope_ok in Hs as (Hne & _ & Hs).
  assert (s ≠ "") as Hs0.
  { intros ->. apply (f_equal str_blank) in Hs. rewrite scope_text_not_blank in Hs; [done|].
    intros E. pose proof (sort_by_key_perm id bs) as Hp. rewrite E in Hp.
    by apply Permutation_nil_l in Hp. }
  destruct (redis_backend_scope payload_bs); simpl; naive_solver.
Qed.

(** ** Facts: entries *)

Definition is_delta_kind (k : BroadcasterMessageKind) : bool :=
  match k with KSnapshotStart | KSnapshotChunk | KSnapshotEnd => false | _ => true end.

Lemma ensure_redis_delta_kind_ok k : ensure_redis_delta_kind k = Ok tt ↔ is_delta_kind k = true.
Proof. by destruct k. Qed.

Lemma ensure_redis_message_seq_ok n : ensure_redis_message_seq n = Ok tt ↔ n ≠ 0%N.
Proof. unfold ensure_redis_message_seq. destruct (N.eqb_spec n 0); naive_solver. Qed.

(** The two numbers an entry lifts out of its payload are compared the same way. *)
Lemma number_agrees (eo po : option N) (mis : N → N → BroadcasterContractError) unexp empty :
  match eo, po with
  | Some e, Some p => if (e =? p)%N then Ok tt else Err (mis e p)
  | Some _, None => Err unexp
  | None, Some _ => Err empty
  | None, None => Ok tt
  end = Ok tt ↔ eo = po.
Proof.
  destruct eo as [e|], po as [p|]; try (split; congruence).
  destruct (N.eqb_spec e p); split; congruence.
Qed.

Lemma option_check_ok {A} (o : option A) (f : A → contract unit) :
  match o with Some a => f a | None => Ok tt end = Ok tt ↔ ∀ a, o = Some a → f a = Ok tt.
Proof. destruct o; naive_solver. Qed.

Section entry_facts.
Context `{SerdeJson}.

(** The entry repeats its envelope: identity, kind, ids, scope, block number,
    timestamp and state version all come from the payload. *)
Record entry_describes (e : BroadcasterRedisStreamEntry) (env : BroadcasterEnvelope) :
    Prop := {
  describes_stream : stream_id e = env_stream_id env;
  describes_seq : message_seq e = env_message_seq env;
  describes_kind : kind e = BroadcasterEnvelope_kind env;
  describes_snapshot : ∀ id,
    redis_payload_snapshot_id (env_payload env) = Some id → snapshot_id e = Some id;
  describes_chain : ∀ c, redis_payload_chain_id (env_payload env) = Some c → chain_id e = c;
  describes_scope : ∃ bs, redis_payload_backend_scope (env_payload env) = Ok (Some bs) ∧
    redis_backend_scope bs = Ok (backend_scope e);
  describes_block : block_number e = redis_entry_block_number (env_payload env);
  describes_timestamp :
    observed_timestamp_ms e = redis_entry_observed_timestamp_ms (env_payload env);
  describes_version : ∀ v,
    redis_target_state_version (env_payload env) = Some v → state_version e = v;
}.

Record entry_valid (e : BroadcasterRedisStreamEntry) : Prop := {
  valid_schema : schema_version e = REDIS_STREAM_SCHEMA_VERSION;
  valid_stream : str_blank (stream_id e) = false;
  valid_payload : str_blank (payload_json e) = false;
  valid_seq : message_seq e ≠ 0%N;
  valid_kind : is_delta_kind (kind e) = true;
  valid_snapshot : ∀ id, snapshot_id e = Some id → str_blank id = false;
  valid_envelope : ∃ env, envelope_of_json (payload_json e) = Ok env ∧ entry_describes e env;
}.

Lemma ensure_redis_payload_state_version_ok v p :
  ensure_redis_payload_state_version v p = Ok tt ↔
  ∀ t, redis_target_state_version p = Some t → v = t.
Proof.
  unfold ensure_redis_payload_state_version. rewrite ensure_ok.
  destruct (redis_target_state_version p) as [t|]; [|naive_solver].
  rewrite N.eqb_eq. naive_solver.
Qed.

Lemma block_number_ok o p :
  ensure_redis_payload_block_number o p = Ok tt ↔ o = redis_entry_block_number p.
Proof. apply number_agrees. Qed.

Lemma timestamp_ok o p :
  ensure_redis_payload_observed_timestamp_ms o p = Ok tt ↔
  o = redis_entry_observed_timestamp_ms p.
Proof. apply number_agrees. Qed.

Lemma ensure_redis_snapshot_id_ok o id :
  ensure_redis_snapshot_id o id = Ok tt ↔ o = Some id.
Proof.
  unfold ensure_redis_snapshot_id. destruct o; [|naive_solver].
  rewrite ensure_snapshot_id_ok. naive_solver.
Qed.

Lemma delta_scope p :
  is_delta_kind (BroadcasterPayload_kind p) = true →
  redis_payload_backend_scope p ≠ Ok None.
Proof.
  intros Hk Hs.
  assert (∀ ps, redis_update_backend_scope ps ≠ Ok None) as Hup.
  { intros ps Hps. unfold redis_update_backend_scope in Hps. destruct (map up_backend ps); [done|].
    apply bind_ok in Hps as (s & _ & Hps). by destruct (parse_redis_backend_scope s). }
  destruct p; try done; simpl in Hs;
    try (apply seq_ok in Hs as [_ Hs]); first [done | by apply Hup in Hs].
Qed.

Lemma entry_validate_payload_ok e bs :
  is_delta_kind (kind e) = true → redis_backend_scope bs = Ok (backend_scope e) →
  entry_validate_payload e bs = Ok tt ↔
  ∃ env, envelope_of_json (payload_json e) = Ok env ∧ entry_describes e env.
Proof.
  intros Hkind Hbs. unfold entry_validate_payload, parse_redis_payload_json.
  rewrite bind_ok. apply exist_proper. intros env.
  rewrite !seq_ok, ensure_stream_id_ok, ensure_message_seq_ok, ensure_ok,
    bool_decide_eq_true, !option_check_ok, bind_ok.
  setoid_rewrite ensure_redis_snapshot_id_ok. setoid_rewrite ensure_chain_id_ok.
  setoid_rewrite seq_ok. setoid_rewrite seq_ok. setoid_rewrite seq_ok. setoid_rewrite seq_ok.
  setoid_rewrite option_check_ok.
  setoid_rewrite (ensure_redis_backend_scope_ok _ _ _ Hbs).
  setoid_rewrite block_number_ok. setoid_rewrite timestamp_ok.
  setoid_rewrite ensure_redis_payload_state_version_ok.
  split.
  - intros (Henv & Hst & [= Hseq] & Hk & Hsn & Hch & o & Ho & Hsc & Hbn & Hts & Hver & _).
    split; [by destruct (envelope_of_json _); naive_solver|].
    assert (o ≠ None) as Hne.
    { intros ->. apply (delta_scope (env_payload env)); [|done].
      change (is_delta_kind (BroadcasterEnvelope_kind env) = true). by rewrite Hk. }
    destruct o as [pbs|]; [|done]. split; try done.
    exists pbs. split; [done|]. by apply Hsc.
  - intros [Henv [Hst Hseq Hk Hsn Hch (pbs & Ho & Hsc) Hbn Hts Hver]].
    rewrite Henv. split_and!; try done; [congruence|].
    exists (Some pbs). split_and!; try done. naive_solver.
Qed.

(** Validation accepts exactly the entries that describe a decodable envelope. *)
Lemma entry_validate_ok e : entry_validate e = Ok tt ↔ entry_valid e.
Proof.
  unfold entry_validate, ensure_redis_schema_version.
  rewrite seq_ok, ensure_ok, String.eqb_eq, !bind_ok.
  setoid_rewrite bind_ok. setoid_rewrite required_redis_field_ok.
  setoid_rewrite seq_ok. setoid_rewrite seq_ok. setoid_rewrite bind_ok.
  setoid_rewrite seq_ok. setoid_rewrite ensure_redis_message_seq_ok.
  setoid_rewrite ensure_redis_delta_kind_ok. setoid_rewrite parse_redis_backend_scope_ok.
  setoid_rewrite option_check_ok. setoid_rewrite bind_ok.
  setoid_rewrite required_redis_field_ok.
  split.
  - intros (Hsch & ? & [_ Hst] & ? & [_ Hpj] & Hseq & Hk & bs & [Hbs _] & Hsn & Hrest).
    destruct (bool_decide _ && _) eqn:Eb; [done|].
    apply entry_validate_payload_ok in Hrest; [|done..].
    split; try done. intros id Hid. destruct (Hsn id Hid) as (? & [_ ?] & _). done.
  - intros [Hsch Hst Hpj Hseq Hk Hsn (env & Henv & Hd)].
    destruct (describes_scope _ _ Hd) as (pbs & Hps & Hscope).
    pose proof Hscope as (Hne & Hnd & Htext)%redis_backend_scope_ok.
    assert (redis_backend_scope (sort pbs) = Ok (backend_scope e)) as Hsorted.
    { apply redis_backend_scope_ok. split_and!.
      - intros E. pose proof (sort_by_key_perm id pbs) as Hp. rewrite E in Hp.
        by apply Permutation_nil_l in Hp.
      - by rewrite sort_by_key_perm.
      - by rewrite sort_sort. }
    split; [done|]. exists (stream_id e). split; [done|]. exists (payload_json e).
    split; [done|]. split_and!; [done..|]. exists (sort pbs). split_and!; [done|apply sort_sort| |].
    + intros id Hid. exists id. split; [|done]. split; [done|by apply Hsn].
    + destruct (bool_decide _ && _) eqn:Eb.
      * apply andb_true_iff in Eb as [Hnone Hreq]. apply bool_decide_eq_true in Hnone.
        exfalso. destruct Hd as [_ _ Hkd Hsnd _ _ _ _ _]. rewrite Hkd in Hreq.
        unfold BroadcasterEnvelope_kind in Hreq.
        destruct (env_payload env); try done; by erewrite Hsnd in Hnone.
      * apply entry_validate_payload_ok; [done|done|]. by exists env.
Qed.
End entry_facts.

(** ** Facts: fields *)

Lemma lookup_list_to_map_str {A} (l : list (string * A)) k :
  (list_to_map l : gmap string A) !! k = str_match k l.
Proof.
  induction l as [|[k' v] l IH]; simpl; [apply lookup_empty|].
  destruct (String.eqb_spec k k') as [->|Hne]; [apply lookup_insert_eq|].
  by rewrite lookup_insert_ne.
Qed.

(** The numbers of an entry fit their Rust type. *)
Definition entry_width (e : BroadcasterRedisStreamEntry) : Prop :=
  (chain_id e ≤ u64_max)%N ∧ (message_seq e ≤ u64_max)%N ∧ (state_version e ≤ u64_max)%N ∧
  (published_at_ms e ≤ u64_max)%N ∧
  (∀ n, block_number e = Some n → (n ≤ u64_max)%N) ∧
  (∀ n, observed_timestamp_ms e = Some n → (n ≤ u64_max)%N).

Lemma BroadcasterMessageKind_of_as_str k :
  BroadcasterMessageKind_of_str (BroadcasterMessageKind_as_str k) = Some k.
Proof. by destruct k. Qed.

Lemma wire_entry_fields e :
  entry_width e → wire_entry (list_to_map (entry_fields e)) = Ok e.
Proof.
  intros (Hc & Hm & Hv & Hp & Hb & Ht).
  unfold wire_entry, wire_u64, wire_optional_u64, wire_kind, wire_string.
  rewrite !lookup_list_to_map_str.
  rewrite bool_decide_true.
  2:{ rewrite dom_list_to_map_L. intros k.
      rewrite !elem_of_list_to_set. revert k. apply Forall_forall.
      unfold entry_fields. destruct (snapshot_id e), (block_number e), (observed_timestamp_ms e);
        eapply bool_decide_unpack; vm_compute; exact I. }
  destruct e as [sv c st m v k sn sc bn ts p pj]. cbn in Hc, Hm, Hv, Hp, Hb, Ht.
  pose proof (BroadcasterMessageKind_of_as_str k) as Hk.
  unfold u64_string_serialize, entry_fields.
  pose proof (parse_u64_to_string _ Hc) as Ec. pose proof (parse_u64_to_string _ Hm) as Em.
  pose proof (parse_u64_to_string _ Hv) as Ev. pose proof (parse_u64_to_string _ Hp) as Ep.
  assert (∀ n, bn = Some n → parse_u64 (u64_to_string n) = Some n) as Eb.
  { intros n Hn. apply parse_u64_to_string, Hb, Hn. }
  assert (∀ n, ts = Some n → parse_u64 (u64_to_string n) = Some n) as Et.
  { intros n Hn. apply parse_u64_to_string, Ht, Hn. }
  unfold u64_string_serialize.
  Opaque parse_u64 u64_to_string BroadcasterMessageKind_of_str BroadcasterMessageKind_as_str.
  destruct sn, bn as [bn|], ts as [ts|]; simpl;
    rewrite ?Ec, ?Em, ?Ev, ?Ep; simpl; rewrite Hk; simpl;
    rewrite ?(Eb _ eq_refl); simpl; rewrite ?(Et _ eq_refl); simpl; rewrite ?Ep; done.
  Transparent parse_u64 u64_to_string BroadcasterMessageKind_of_str BroadcasterMessageKind_as_str.
Qed.

(** ** Facts: publishing *)

Section publish.
Context `{SerdeJsonLaws}.

Lemma map_filter_backends f ps :
  map up_block_number
    (base.filter (λ p, is_chain_backend (up_backend p) = true)
       (map (map_update_partition f) ps)) =
  map up_block_number (base.filter (λ p, is_chain_backend (up_backend p) = true) ps).
Proof.
  induction ps as [|p ps IH]; [done|]. cbn [map]. rewrite !filter_cons.
  change (up_backend (map_update_partition f p)) with (up_backend p).
  case_decide; [|done]. cbn [map]. by rewrite IH.
Qed.

Lemma map_find_rfq f ps :
  rfq_block_number up_backend up_block_number (map (map_update_partition f) ps) =
  rfq_block_number up_backend up_block_number ps.
Proof.
  unfold rfq_block_number. induction ps as [|p ps IH]; [done|]. simpl.
  case_bool_decide; [done|apply IH].
Qed.

Lemma map_scope f ps :
  redis_update_backend_scope (map (map_update_partition f) ps) = redis_update_backend_scope ps.
Proof. unfold redis_update_backend_scope. by rewrite map_update_partition_backends. Qed.

(** Nothing an entry repeats depends on the simulation states. *)
Lemma metadata_map_payload f p :
  redis_payload_snapshot_id (map_payload f p) = redis_payload_snapshot_id p ∧
  redis_payload_chain_id (map_payload f p) = redis_payload_chain_id p ∧
  redis_payload_backend_scope (map_payload f p) = redis_payload_backend_scope p ∧
  redis_entry_block_number (map_payload f p) = redis_entry_block_number p ∧
  redis_entry_observed_timestamp_ms (map_payload f p) =
    redis_entry_observed_timestamp_ms p ∧
  redis_target_state_version (map_payload f p) = redis_target_state_version p.
Proof.
  unfold redis_entry_block_number.
  destruct p; split_and!; simpl; try done;
    rewrite ?map_filter_backends, ?map_find_rfq, ?map_scope; try done.
  unfold validate_recovery_catch_up. simpl.
  by rewrite validate_update_partitions_map.
Qed.

Lemma envelope_of_json_encoded e s :
  encodable (env_payload e) → canonical (map_payload wire_sim (env_payload e)) →
  json_of_envelope e = Ok s → envelope_of_json s = Ok (map_envelope wire_sim e).
Proof.
  intros Henc Hcan Hs. unfold envelope_of_json.
  rewrite (raw_envelope_of_json_of_envelope _ _ Henc Hs). cbn.
  unfold decode_envelope. cbn. by rewrite Hcan.
Qed.

Lemma canonical_map_payload f p :
  is_delta_kind (BroadcasterPayload_kind p) = true → canonical p → canonical (map_payload f p).
Proof.
  destruct p as [| | | | |c| |u| |]; try done; intros _.
  - intros Hc. assert (canonical (Update (cu_update c))) as Hu.
    { apply decode_update_canonical. unfold canonical in Hc. simpl in Hc.
      destruct (decode_update (cu_update c)) as [u|]; [|done]. injection Hc as Hc.
      by rewrite <- Hc. }
    apply (canonical_map_update f), decode_update_canonical in Hu.
    unfold canonical. simpl. by rewrite Hu.
  - apply canonical_map_update.
Qed.

Lemma map_err_ok {E E' A} (f : E → E') (r : result E A) a :
  map_err f r = Ok a ↔ r = Ok a.
Proof. destruct r; naive_solver. Qed.

(** The entry [from_envelope_at] writes, once every check has passed. *)
Definition entry_of (chain : u64) (env : BroadcasterEnvelope) (published version : u64)
    (scope json : string) : BroadcasterRedisStreamEntry := {|
  schema_version := REDIS_STREAM_SCHEMA_VERSION;
  chain_id := chain;
  stream_id := env_stream_id env;
  message_seq := env_message_seq env;
  state_version := version;
  kind := BroadcasterEnvelope_kind env;
  snapshot_id := redis_payload_snapshot_id (env_payload env);
  backend_scope := scope;
  block_number := redis_entry_block_number (env_payload env);
  observed_timestamp_ms := redis_entry_observed_timestamp_ms (env_payload env);
  published_at_ms := published;
  payload_json := json;
|}.

Lemma from_envelope_at_inv chain env published version e :
  from_envelope_at chain env published version = Ok e ↔
  is_delta_kind (BroadcasterEnvelope_kind env) = true ∧
  ∃ bs scope json,
    redis_payload_backend_scope (env_payload env) = Ok (Some bs) ∧
    redis_backend_scope bs = Ok scope ∧ json_of_envelope env = Ok json ∧
    str_blank (env_stream_id env) = false ∧
    e = entry_of chain env published version scope json ∧ entry_valid e.
Proof.
  unfold from_envelope_at. rewrite seq_ok, ensure_redis_delta_kind_ok.
  rewrite bind_ok. split.
  - intros (Hk & o & Ho & Hrest). split; [done|]. apply bind_ok in Hrest as (json & Hj%map_err_ok & Hrest).
    apply bind_ok in Hrest as (st & [-> Hst]%required_redis_field_ok & Hrest).
    apply bind_ok in Hrest as (scope & Hs & Hrest).
    apply seq_ok in Hrest as [Hval [= <-]]. apply entry_validate_ok in Hval.
    destruct o as [bs|]; [|by apply delta_scope in Hk].
    exists bs, scope, json. done.
  - intros (Hk & bs & scope & json & Ho & Hs & Hj & Hst & -> & Hval).
    split; [done|]. exists (Some bs). split; [done|]. 
    apply bind_ok. exists json. split; [by apply map_err_ok|].
    apply bind_ok. exists (env_stream_id env). split; [by apply required_redis_field_ok|].
    apply bind_ok. exists scope. split; [done|].
    apply seq_ok. split; [|done]. by apply entry_validate_ok.
Qed.

(** What an envelope has to satisfy to be published under a chain and version. *)
Record publishable (chain version : u64) (env : BroadcasterEnvelope) : Prop := {
  publishable_kind : is_delta_kind (BroadcasterEnvelope_kind env) = true;
  publishable_stream : str_blank (env_stream_id env) = false;
  publishable_seq : env_message_seq env ≠ 0%N;
  publishable_scope : ∃ bs scope,
    redis_payload_backend_scope (env_payload env) = Ok (Some bs) ∧
    redis_backend_scope bs = Ok scope;
  publishable_snapshot : ∀ id,
    redis_payload_snapshot_id (env_payload env) = Some id → str_blank id = false;
  publishable_chain : ∀ c, redis_payload_chain_id (env_payload env) = Some c → c = chain;
  publishable_version : ∀ v,
    redis_target_state_version (env_payload env) = Some v → v = version;
  publishable_json : ∃ json, json_of_envelope env = Ok json;
}.

Lemma from_envelope_at_publishable chain env published version :
  encodable (env_payload env) → canonical (env_payload env) →
  (∃ e, from_envelope_at chain env published version = Ok e) ↔ publishable chain version env.
Proof.
  intros Henc Hcan.
  destruct (metadata_map_payload wire_sim (env_payload env)) as (M1 & M2 & M3 & M4 & M5 & M6).
  setoid_rewrite from_envelope_at_inv. split.
  - intros (e & Hk & bs & scope & json & Ho & Hs & Hj & Hst & -> & Hval).
    destruct Hval as [_ _ _ Hseq _ Hsn (env' & Henv' & [_ _ _ _ Hch _ _ _ Hver])].
    cbn [payload_json entry_of] in Henv'.
    assert (canonical (map_payload wire_sim (env_payload env))) as Hcan'
      by by apply canonical_map_payload.
    rewrite (envelope_of_json_encoded env json) in Henv' by done. injection Henv' as <-.
    cbn in Hch, Hver, Hsn, Hseq. rewrite M2 in Hch. rewrite M6 in Hver.
    split; try done; [by eauto|..|by eauto].
    + intros c Hc. symmetry. by apply Hch.
    + intros v Hv. symmetry. by apply Hver.
  - intros [Hk Hst Hseq (bs & scope & Ho & Hs) Hsn Hch Hver (json & Hj)].
    exists (entry_of chain env published version scope json). split; [done|].
    exists bs, scope, json. split_and!; try done. split; try done.
    + by eapply json_of_envelope_not_blank.
    + exists (map_envelope wire_sim env). split.
      * apply envelope_of_json_encoded; [done| |done]. by apply canonical_map_payload.
      * split; cbn; rewrite ?M1, ?M2, ?M3, ?M4, ?M5, ?M6; try done.
        -- unfold BroadcasterEnvelope_kind. cbn. by rewrite map_payload_kind.
        -- intros c Hc. symmetry. by apply Hch.
        -- by exists bs.
        -- intros v Hv. symmetry. by apply Hver.
Qed.
End publish.

(** ** Properties *)

(** Reading a backend scope accepts exactly the texts that writing one produces,
    and returns the backends in declaration order: no empty scope, no repetition,
    no other spelling or order. *)
Lemma parse_redis_backend_scope_iff s bs :
  parse_redis_backend_scope s = Ok bs ↔
  bs ≠ [] ∧ NoDup bs ∧ sort bs = bs ∧ s = scope_text bs.
Proof.
  rewrite parse_redis_backend_scope_ok, redis_backend_scope_ok. split.
  - intros [(? & ? & ->) Hs]. by rewrite Hs.
  - intros (? & ? & Hs & ->). by rewrite Hs.
Qed.

(** A field map decodes to a stream entry exactly when its fields spell that
    entry and the entry describes the envelope it carries: same stream, sequence,
    kind, snapshot id, chain, backend scope, block number, timestamp and state
    version. *)
Theorem entry_deserialize_iff `{SerdeJson} fields e :
  entry_deserialize fields = Ok e ↔ wire_entry fields = Ok e ∧ entry_valid e.
Proof.
  unfold entry_deserialize. rewrite bind_ok. setoid_rewrite seq_ok.
  setoid_rewrite map_err_ok. setoid_rewrite entry_validate_ok. naive_solver.
Qed.

(** An envelope in constructor form is published exactly when it is a delta with a
    usable stream id, sequence, scope and snapshot id, for the chain and the state
    version it names: the entry's own validation never refuses what was built from
    such an envelope. *)
Theorem from_envelope_at_total_iff `{SerdeJsonLaws} chain env published version :
  encodable (env_payload env) → canonical (env_payload env) →
  (∃ e, from_envelope_at chain env published version = Ok e) ↔ publishable chain version env.
Proof. apply from_envelope_at_publishable. Qed.

(** C4: what the publisher writes the consumer reads: the text fields of a published
    entry decode to the same entry, whose payload decodes to the published envelope
    up to what serialisation drops from simulation states. *)
Theorem published_entry_roundtrip `{SerdeJsonLaws} chain env published version e :
  encodable (env_payload env) → canonical (env_payload env) → entry_width e →
  from_envelope_at chain env published version = Ok e →
  entry_deserialize (list_to_map (entry_fields e)) = Ok e ∧
  envelope_of_json (payload_json e) = Ok (map_envelope wire_sim env).
Proof.
  intros Henc Hcan Hw Hpub. pose proof Hpub as (Hk & bs & scope & json & _ & _ & Hj & _ & He & Hval)
    %from_envelope_at_inv.
  split.
  - unfold entry_deserialize. rewrite wire_entry_fields by done. cbn.
    rewrite (proj2 (entry_validate_ok e)) by done. done.
  - subst e. apply envelope_of_json_encoded; [done| |done]. by apply canonical_map_payload.
Qed.

(** ** Witnesses *)

Definition demo_entry : BroadcasterRedisStreamEntry := {|
  schema_version := "1"; chain_id := 1; stream_id := "chain-1-stream-7"; message_seq := 3;
  state_version := 12; kind := KProgress; snapshot_id := Some "chain-1-snapshot-7";
  backend_scope := "native,rfq"; block_number := None; observed_timestamp_ms := None;
  published_at_ms := 1000; payload_json := demo_json (demo_envelope 3) |}.

Lemma from_envelope_at_total_iff_witness :
  ∃ e, @from_envelope_at demo_tycho demo_serde 1 (demo_envelope 3) 1000 12 = Ok e.
Proof.
  apply (@from_envelope_at_total_iff demo_tycho demo_serde demo_serde_laws); [done|done|].
  split; try done; simpl.
  - by exists [Native; Rfq], "native,rfq".
  - by intros id [= <-].
  - by intros c [= <-].
  - by eexists.
Defined.

Lemma published_entry_roundtrip_witness :
  @entry_deserialize demo_tycho demo_serde (list_to_map (entry_fields demo_entry)) =
    Ok demo_entry ∧
  @envelope_of_json demo_tycho demo_serde (demo_json (demo_envelope 3)) = Ok (map_envelope id (demo_envelope 3)).
Proof.
  apply (@published_entry_roundtrip demo_tycho demo_serde demo_serde_laws
           1 (demo_envelope 3) 1000 12 demo_entry); [done|done| |by vm_compute].
  by repeat split.
Defined.
