(* ===== verification/Replay.v ===== *)
(** * The broadcaster replay client

    [broadcaster-replay-client]: reading the Redis stream after a snapshot.  The
    checkpoint arithmetic ([checkpoint.rs]), the decoding of Redis replies
    ([reader.rs]), batches and polls ([client.rs]), snapshot downloads
    ([snapshot.rs], [url.rs]) and the error texts ([error.rs]).  The replies of
    Redis and of the HTTP server are arguments. *)

From S2P Require Import Prelude Ordered Text Protocol Wire Validate Codec RedisEntry.

(** ** Errors *)

Inductive BroadcasterReplayClientError :=
| InvalidBroadcasterUrl (message : string)
| RedisConnect (message : string)
| RedisRead (message : string)
| RedisReadTransport (message : string)
| RedisInspect (message : string)
| RedisInspectTransport (message : string)
| RedisDecode (message : string)
| RedisGap (message : string)
| HttpRequest (operation url message : string)
| HttpStatus (operation url : string) (status : N)
| HttpBody (operation url message : string)
| JsonDecode (operation url message : string).

Definition BroadcasterReplayClientError_fmt (error : BroadcasterReplayClientError) : string :=
  match error with
  | InvalidBroadcasterUrl message => "invalid broadcaster URL: " +:+ message
  | RedisConnect message => "failed to connect to broadcaster Redis: " +:+ message
  | RedisRead message => "Redis XREAD failed: " +:+ message
  | RedisReadTransport message => "Redis XREAD transport failed: " +:+ message
  | RedisInspect message => "Redis XINFO STREAM failed: " +:+ message
  | RedisInspectTransport message => "Redis XINFO STREAM transport failed: " +:+ message
  | RedisDecode message => "failed to decode Redis stream entry: " +:+ message
  | RedisGap message => message
  | HttpRequest operation url message =>
      "failed to " +:+ operation +:+ " at " +:+ url +:+ ": " +:+ message
  | HttpStatus operation url status =>
      operation +:+ " at " +:+ url +:+ " failed with HTTP " +:+ u64_to_string status
  | HttpBody operation url message =>
      "failed to read " +:+ operation +:+ " response from " +:+ url +:+ ": " +:+ message
  | JsonDecode operation url message =>
      "failed to decode " +:+ operation +:+ " response from " +:+ url +:+ ": " +:+ message
  end.

Abbreviation replay := (result BroadcasterReplayClientError).

Definition redis_gap {A} (message : string) : replay A := Err (RedisGap message).

(** ** Entry ids *)

Record RedisEntryIdParts := { millis : u64; sequence : u64 }.

#[export] Instance RedisEntryIdParts_eq_dec : EqDecision RedisEntryIdParts.
Proof. solve_decision. Defined.

(** The derived [Ord]: lexicographic. *)
Definition id_ltb (a b : RedisEntryIdParts) : bool :=
  (millis a <? millis b)%N || ((millis a =? millis b) && (sequence a <? sequence b))%N.

Definition id_lt (a b : RedisEntryIdParts) : Prop :=
  (millis a < millis b ∨ millis a = millis b ∧ sequence a < sequence b)%N.
Definition id_le (a b : RedisEntryIdParts) : Prop := id_lt a b ∨ a = b.

Definition parse_redis_entry_id (entry_id : string) : replay RedisEntryIdParts :=
  match split_once dash entry_id with
  | None => redis_gap ("invalid Redis stream entry id: " +:+ entry_id)
  | Some (millis, sequence) =>
      let invalid error :=
        RedisGap ("invalid Redis stream entry id " +:+ entry_id +:+ ": " +:+ error) in
      millis ← map_err invalid (parse_u64_result millis);
      sequence ← map_err invalid (parse_u64_result sequence);
      Ok {| millis := millis; sequence := sequence |}
  end.

Definition redis_entry_id (generation message_seq : u64) : string :=
  entry_id_text generation message_seq.

(** ** Checkpoints *)

Record ReplayCheckpoint := {
  boundary : BroadcasterRedisReplayBoundary;
  entry_id : string;
  last_message_seq : u64;
  expected_chain_id : u64;
}.

Definition ReplayCheckpoint_new (boundary : BroadcasterRedisReplayBoundary)
    (expected_chain_id : u64) : ReplayCheckpoint := {|
  entry_id := exclusive_entry_id boundary;
  last_message_seq := bd_exclusive_message_seq boundary;
  boundary := boundary;
  expected_chain_id := expected_chain_id;
|}.

Record RedisStreamMessage := {
  msg_entry_id : string;
  msg_entry : BroadcasterRedisStreamEntry;
}.

Record RedisStreamInfo := {
  last_generated_entry_id : string;
  first_entry_id : option string;
  last_entry_id : option string;
}.

Definition message_seq_overflow {A} : replay A :=
  redis_gap "Redis replay message_seq overflow".

Definition ensure_next_message (self : ReplayCheckpoint) (message : RedisStreamMessage) :
    replay unit :=
  let e := msg_entry message in
  let b := boundary self in
  if negb (String.eqb (stream_id e) (bd_stream_id b)) then
    redis_gap ("Redis replay gap: expected stream_id " +:+ bd_stream_id b
                 +:+ ", got " +:+ stream_id e)
  else if negb (chain_id e =? expected_chain_id self)%N then
    redis_gap ("Redis replay gap: expected chain_id "
                 +:+ u64_to_string (expected_chain_id self)
                 +:+ ", got " +:+ u64_to_string (chain_id e))
  else if (message_seq e <=? last_message_seq self)%N then
    redis_gap ("Redis replay gap: got stale message_seq " +:+ u64_to_string (message_seq e)
                 +:+ " after " +:+ entry_id self +:+ " at " +:+ msg_entry_id message)
  else
    match checked_add (last_message_seq self) 1 with
    | None => message_seq_overflow
    | Some expected_seq =>
        if negb (message_seq e =? expected_seq)%N then
          redis_gap ("Redis replay gap: expected message_seq " +:+ u64_to_string expected_seq
                       +:+ " after " +:+ entry_id self +:+ ", got "
                       +:+ u64_to_string (message_seq e) +:+ " at " +:+ msg_entry_id message)
        else
          let expected_entry_id := redis_entry_id (bd_generation b) expected_seq in
          if negb (String.eqb (msg_entry_id message) expected_entry_id) then
            redis_gap ("Redis replay gap: expected entry id " +:+ expected_entry_id
                         +:+ ", got " +:+ msg_entry_id message)
          else
            match snapshot_id e with
            | Some snapshot_id =>
                if negb (String.eqb snapshot_id (bd_snapshot_id b)) then
                  redis_gap ("Redis replay gap: expected snapshot_id " +:+ bd_snapshot_id b
                               +:+ ", got " +:+ snapshot_id)
                else Ok tt
            | None => Ok tt
            end
    end.

Definition after_applied (self : ReplayCheckpoint) (message : RedisStreamMessage) :
    ReplayCheckpoint := {|
  entry_id := msg_entry_id message;
  last_message_seq := message_seq (msg_entry message);
  boundary := boundary self;
  expected_chain_id := expected_chain_id self;
|}.

Inductive RedisEmptyPollAction := CaughtUp | Pending.

Definition redis_empty_poll_action (checkpoint : ReplayCheckpoint)
    (stream_info : option RedisStreamInfo) : replay RedisEmptyPollAction :=
  match stream_info with
  | None =>
      if (last_message_seq checkpoint =? 0)%N then Ok CaughtUp
      else redis_gap ("Redis replay gap: stream disappeared after checkpoint "
                        +:+ entry_id checkpoint)
  | Some info =>
      let last_generated := last_generated_entry_id info in
      checkpoint_entry_id ← parse_redis_entry_id (entry_id checkpoint);
      last_generated_entry_id ← parse_redis_entry_id last_generated;
      if id_ltb last_generated_entry_id checkpoint_entry_id then
        redis_gap ("Redis replay gap: stream moved backwards from checkpoint "
                     +:+ entry_id checkpoint +:+ " to last generated " +:+ last_generated)
      else if bool_decide (last_generated_entry_id = checkpoint_entry_id) then Ok CaughtUp
      else
        expected_seq ← ok_or (checked_add (last_message_seq checkpoint) 1)
                         (RedisGap "Redis replay message_seq overflow");
        let expected_entry_id :=
          redis_entry_id (bd_generation (boundary checkpoint)) expected_seq in
        expected_entry_id_parts ← parse_redis_entry_id expected_entry_id;
        first_entry_id ← ok_or (first_entry_id info)
          (RedisGap ("Redis replay gap: stream generated " +:+ last_generated
                       +:+ " after checkpoint " +:+ entry_id checkpoint
                       +:+ " but retained no entries"));
        last_entry_id ← ok_or (last_entry_id info)
          (RedisGap ("Redis replay gap: stream generated " +:+ last_generated
                       +:+ " after checkpoint " +:+ entry_id checkpoint
                       +:+ " but retained no last entry"));
        first_entry_id_parts ← parse_redis_entry_id first_entry_id;
        if id_ltb expected_entry_id_parts first_entry_id_parts then
          redis_gap ("Redis replay gap: first retained entry " +:+ first_entry_id
                       +:+ " is after expected entry " +:+ expected_entry_id)
        else
          last_entry_id_parts ← parse_redis_entry_id last_entry_id;
          if negb (id_ltb checkpoint_entry_id last_entry_id_parts) then
            redis_gap ("Redis replay gap: stream generated " +:+ last_generated
                         +:+ " after checkpoint " +:+ entry_id checkpoint
                         +:+ " but last retained entry is " +:+ last_entry_id)
          else Ok Pending
  end.

(** ** Redis replies *)

(** What the code reads of the [redis] crate: values convert to strings or fail with
    a text; errors carry a detail, a kind and a retry method. *)
Class RedisCrate := {
  RedisValue : Type;
  from_redis_value : RedisValue → result string string;
  RedisError : Type;
  redis_error_text : RedisError → string;
  redis_error_detail : RedisError → option string;
  redis_error_authentication_failed : RedisError → bool;
  redis_error_no_retry : RedisError → bool;
  (* the text [serde_json] gives a field map it cannot decode *)
  entry_decode_error_text : EntryDecodeError → string;
}.

Section reader.
Context `{SerdeJson} `{RedisCrate}.

Record StreamId := { sid_id : string; sid_map : gmap string RedisValue }.
Record StreamKey := { sk_key : string; sk_ids : list StreamId }.
Record StreamReadReply := { srr_keys : list StreamKey }.
Record StreamInfoStreamReply := {
  sir_length : usize;
  sir_last_generated_id : string;
  sir_first_entry_id : string;
  sir_last_entry_id : string;
}.

Definition redis_stream_field (value : gmap string string)
    (field_value : string * RedisValue) : replay (gmap string string) :=
  let '(field, redis_value) := field_value in
  v ← map_err (λ error,
        RedisDecode ("Redis stream field " +:+ field +:+ " is not a string: " +:+ error))
        (from_redis_value redis_value);
  Ok (<[field := v]> value).

Definition redis_stream_message (stream_id : StreamId) : replay RedisStreamMessage :=
  value ← fold_result redis_stream_field ∅ (map_to_list (sid_map stream_id));
  entry ← map_err (λ error, RedisDecode (entry_decode_error_text error))
            (entry_deserialize value);
  Ok {| msg_entry_id := sid_id stream_id; msg_entry := entry |}.

Definition redis_stream_key_messages (expected_stream_key : string)
    (messages : list RedisStreamMessage) (key : StreamKey) :
    replay (list RedisStreamMessage) :=
  if negb (String.eqb (sk_key key) expected_stream_key) then
    Err (RedisDecode ("Redis XREAD returned stream key " +:+ sk_key key
                        +:+ ", expected " +:+ expected_stream_key))
  else
    fold_result (λ messages stream_id,
      message ← redis_stream_message stream_id;
      Ok (messages ++ [message])) messages (sk_ids key).

Definition redis_stream_messages (expected_stream_key : string)
    (reply : StreamReadReply) : replay (list RedisStreamMessage) :=
  fold_result (redis_stream_key_messages expected_stream_key) [] (srr_keys reply).

Definition redis_transport_failure (error : RedisError) : bool :=
  if redis_error_authentication_failed error then false
  else negb (redis_error_no_retry error).

Definition redis_stream_missing_key (error : RedisError) : bool :=
  match redis_error_detail error with
  | Some detail => str_contains "no such key" detail
  | None => false
  end.

Definition redis_xread_messages (expected_stream_key : string)
    (reply : result RedisError (option StreamReadReply)) :
    replay (list RedisStreamMessage) :=
  match reply with
  | Ok (Some reply) => redis_stream_messages expected_stream_key reply
  | Ok None => Ok []
  | Err error =>
      if redis_transport_failure error
      then Err (RedisReadTransport (redis_error_text error))
      else Err (RedisRead (redis_error_text error))
  end.

Definition redis_stream_info_entry_id (length : usize) (entry_id : string) :
    replay (option string) :=
  if (length =? 0)%N then Ok None
  else if String.eqb entry_id ""
  then Err (RedisInspect "Redis XINFO STREAM omitted a retained entry id")
  else Ok (Some entry_id).

Definition redis_stream_info_from_reply (reply : StreamInfoStreamReply) :
    replay RedisStreamInfo :=
  first ← redis_stream_info_entry_id (sir_length reply) (sir_first_entry_id reply);
  last ← redis_stream_info_entry_id (sir_length reply) (sir_last_entry_id reply);
  Ok {| last_generated_entry_id := sir_last_generated_id reply;
        first_entry_id := first; last_entry_id := last |}.

Definition redis_stream_info (reply : result RedisError StreamInfoStreamReply) :
    replay (option RedisStreamInfo) :=
  match reply with
  | Ok reply => Some <$> redis_stream_info_from_reply reply
  | Err error =>
      if redis_stream_missing_key error then Ok None
      else if redis_transport_failure error
      then Err (RedisInspectTransport (redis_error_text error))
      else Err (RedisInspect (redis_error_text error))
  end.

(** ** Batches and polls *)

Record ReplayMessage := {
  rmsg_entry_id : string;
  rmsg_entry : BroadcasterRedisStreamEntry;
  rmsg_envelope : BroadcasterEnvelope;
  rmsg_checkpoint_after : ReplayCheckpoint;
}.

Record ReplayBatch := {
  items : list ReplayMessage;
  caught_up_after_batch : bool;
}.

Inductive ReplayPoll :=
| PollBatch (batch : ReplayBatch)
| PollCaughtUp (checkpoint : ReplayCheckpoint)
| PollPending.

Definition checkpoint_after (self : ReplayBatch) : option ReplayCheckpoint :=
  rmsg_checkpoint_after <$> last (items self).

(** One turn of the loop over the messages: the items so far and the checkpoint
    after them. *)
Definition replay_batch_step (acc : list ReplayMessage * ReplayCheckpoint)
    (message : RedisStreamMessage) : replay (list ReplayMessage * ReplayCheckpoint) :=
  let '(items, next_checkpoint) := acc in
  envelope ← map_err (λ error,
      RedisDecode ("failed to decode broadcaster Redis payload at "
                     +:+ msg_entry_id message +:+ ": " +:+ error))
    (envelope_of_json (payload_json (msg_entry message)));
  ensure_next_message next_checkpoint message ;;
  let checkpoint_after := after_applied next_checkpoint message in
  Ok (items ++ [{| rmsg_entry_id := msg_entry_id message; rmsg_entry := msg_entry message;
                   rmsg_envelope := envelope;
                   rmsg_checkpoint_after := checkpoint_after |}], checkpoint_after).

Definition build_replay_batch (checkpoint : ReplayCheckpoint)
    (messages : list RedisStreamMessage) (caught_up_after_batch : bool) :
    replay ReplayBatch :=
  r ← fold_result replay_batch_step ([], checkpoint) messages;
  Ok {| items := r.1; caught_up_after_batch := caught_up_after_batch |}.

Record BroadcasterReplayConfig := {
  cfg_broadcaster_url : string;
  cfg_redis_url : string;
  cfg_block_ms : u64;
  cfg_read_count : u64;
  cfg_request_timeout : Duration;
}.

(** The Redis server: its answers to [XREAD] (stream, last id, block, count) and
    to [XINFO STREAM]. *)
Record RedisServer := {
  xread : string → string → u64 → u64 → result RedisError (option StreamReadReply);
  xinfo_stream : string → result RedisError StreamInfoStreamReply;
}.

Definition read_after (redis : RedisServer) (stream_key after_entry_id : string)
    (block_ms read_count : u64) : replay (list RedisStreamMessage) :=
  redis_xread_messages stream_key (xread redis stream_key after_entry_id block_ms read_count).

Definition stream_info (redis : RedisServer) (stream_key : string) :
    replay (option RedisStreamInfo) :=
  redis_stream_info (xinfo_stream redis stream_key).

Definition read_next (config : BroadcasterReplayConfig) (redis : RedisServer)
    (checkpoint : ReplayCheckpoint) : replay ReplayPoll :=
  messages ← read_after redis (bd_stream_key (boundary checkpoint)) (entry_id checkpoint)
               (cfg_block_ms config) (cfg_read_count config);
  let caught_up_after_batch := (len messages <? cfg_read_count config)%N in
  match messages with
  | [] =>
      info ← stream_info redis (bd_stream_key (boundary checkpoint));
      action ← redis_empty_poll_action checkpoint info;
      Ok (match action with
          | CaughtUp => PollCaughtUp checkpoint
          | Pending => PollPending
          end)
  | _ => PollBatch <$> build_replay_batch checkpoint messages caught_up_after_batch
  end.
End reader.

Definition REDIS_BLOCKING_READ_TIMEOUT_MARGIN : Duration := from_secs 2.

Definition blocking_read_timeout (block_ms : u64) : Duration :=
  duration_saturating_add (from_millis block_ms) REDIS_BLOCKING_READ_TIMEOUT_MARGIN.

(** ** Facts: entry ids *)

Lemma parse_entry_id_text g s :
  (g ≤ u64_max)%N → (s ≤ u64_max)%N →
  parse_redis_entry_id (entry_id_text g s) = Ok {| millis := g; sequence := s |}.
Proof.
  intros Hg Hs. unfold parse_redis_entry_id, entry_id_text.
  rewrite split_once_app by (apply u64_to_string_no; left; done).
  rewrite (proj2 (parse_u64_result_ok _ _) (parse_u64_to_string _ Hg)).
  by rewrite (proj2 (parse_u64_result_ok _ _) (parse_u64_to_string _ Hs)).
Qed.

Lemma id_ltb_lt a b : id_ltb a b = true ↔ id_lt a b.
Proof.
  unfold id_ltb, id_lt. rewrite orb_true_iff, andb_true_iff, !N.ltb_lt, N.eqb_eq. done.
Qed.

Lemma id_ltb_ge a b : id_ltb a b = false ↔ id_le b a.
Proof.
  rewrite <- not_true_iff_false, id_ltb_lt. unfold id_le, id_lt. destruct a, b; simpl.
  split.
  - intros Hn. destruct (decide (millis1 < millis0)%N); [auto|].
    assert (millis0 = millis1) as -> by lia.
    destruct (decide (sequence1 < sequence0)%N); [auto|]. right. f_equal; lia.
  - intros [Hl|[= -> ->]]; lia.
Qed.

(** ** Facts: checkpoints *)

(** The checkpoint [n] messages later. *)
Definition checkpoint_at (self : ReplayCheckpoint) (n : N) : ReplayCheckpoint :=
  if (n =? 0)%N then self
  else {| entry_id := entry_id_text (bd_generation (boundary self)) (last_message_seq self + n);
          last_message_seq := last_message_seq self + n;
          boundary := boundary self;
          expected_chain_id := expected_chain_id self |}.

(** [message] is the one a consumer at [self] waits for. *)
Record follows (self : ReplayCheckpoint) (message : RedisStreamMessage) : Prop := {
  follows_stream : stream_id (msg_entry message) = bd_stream_id (boundary self);
  follows_chain : chain_id (msg_entry message) = expected_chain_id self;
  follows_seq : message_seq (msg_entry message) = (last_message_seq self + 1)%N;
  follows_width : (last_message_seq self + 1 ≤ u64_max)%N;
  follows_id : msg_entry_id message =
    entry_id_text (bd_generation (boundary self)) (last_message_seq self + 1);
  follows_snapshot : ∀ id,
    snapshot_id (msg_entry message) = Some id → id = bd_snapshot_id (boundary self);
}.

Lemma ensure_next_message_ok self m : ensure_next_message self m = Ok tt ↔ follows self m.
Proof.
  unfold ensure_next_message, redis_gap, message_seq_overflow, redis_entry_id. split.
  - destruct (String.eqb_spec (stream_id (msg_entry m)) (bd_stream_id (boundary self)));
      [cbn [negb]|done].
    destruct (N.eqb_spec (chain_id (msg_entry m)) (expected_chain_id self)); [cbn [negb]|done].
    destruct (N.leb_spec (message_seq (msg_entry m)) (last_message_seq self)); [done|].
    destruct (checked_add _ _) as [x|] eqn:Ex; [|done].
    apply checked_add_Some in Ex as [-> Hw].
    destruct (N.eqb_spec (message_seq (msg_entry m)) (last_message_seq self + 1));
      [cbn [negb]|done].
    destruct (String.eqb_spec (msg_entry_id m)
                (entry_id_text (bd_generation (boundary self)) (last_message_seq self + 1)));
      [cbn [negb]|done].
    intros Hsn. split; try done. intros id Hid. rewrite Hid in Hsn.
    by destruct (String.eqb_spec id (bd_snapshot_id (boundary self))).
  - intros [-> -> -> Hw -> Hsn]. rewrite String.eqb_refl, N.eqb_refl. cbn [negb].
    destruct (N.leb_spec (last_message_seq self + 1) (last_message_seq self)); [lia|].
    rewrite (proj2 (checked_add_Some _ _ _) (conj eq_refl Hw)).
    rewrite N.eqb_refl, String.eqb_refl. cbn [negb].
    destruct (snapshot_id (msg_entry m)) as [id|]; [|done].
    by rewrite (Hsn id eq_refl), String.eqb_refl.
Qed.

Lemma after_applied_at self m : follows self m → after_applied self m = checkpoint_at self 1.
Proof. intros [_ _ Hs _ Hid _]. unfold after_applied, checkpoint_at. simpl. by rewrite Hs, Hid. Qed.

Lemma checkpoint_at_at self n m :
  checkpoint_at (checkpoint_at self n) m = checkpoint_at self (n + m).
Proof.
  unfold checkpoint_at. destruct (N.eqb_spec n 0) as [->|Hn].
  { by rewrite N.add_0_l. }
  destruct (N.eqb_spec m 0) as [->|Hm].
  { rewrite N.add_0_r. by destruct (N.eqb_spec n 0). }
  destruct (N.eqb_spec (n + m) 0); [lia|]. simpl. by rewrite N.add_assoc.
Qed.

(** ** Facts: batches *)

Section batch_facts.
Context `{SerdeJson} `{RedisCrate}.

(** The item made of the message in place [i] of a batch. *)
Definition batch_item (self : ReplayCheckpoint) (i : nat) (message : RedisStreamMessage)
    (item : ReplayMessage) : Prop :=
  follows (checkpoint_at self (N.of_nat i)) message ∧
  rmsg_entry_id item = msg_entry_id message ∧ rmsg_entry item = msg_entry message ∧
  envelope_of_json (payload_json (msg_entry message)) = Ok (rmsg_envelope item) ∧
  rmsg_checkpoint_after item = checkpoint_at self (N.of_nat i + 1).

Fixpoint batch_from (self : ReplayCheckpoint) (i : nat) (messages : list RedisStreamMessage)
    (its : list ReplayMessage) : Prop :=
  match messages, its with
  | [], [] => True
  | m :: ms, it :: its => batch_item self i m it ∧ batch_from self (S i) ms its
  | _, _ => False
  end.

Lemma replay_batch_step_ok self i acc m r :
  replay_batch_step (acc, checkpoint_at self (N.of_nat i)) m = Ok r ↔
  ∃ it, r = (acc ++ [it], checkpoint_at self (N.of_nat (S i))) ∧ batch_item self i m it.
Proof.
  unfold replay_batch_step, batch_item.
  rewrite bind_ok. setoid_rewrite seq_ok. setoid_rewrite map_err_ok.
  setoid_rewrite ensure_next_message_ok.
  replace (N.of_nat i + 1)%N with (N.of_nat (S i)) by lia.
  assert (follows (checkpoint_at self (N.of_nat i)) m →
          after_applied (checkpoint_at self (N.of_nat i)) m =
          checkpoint_at self (N.of_nat (S i))) as Hafter.
  { intros Hf. rewrite after_applied_at, checkpoint_at_at by done. f_equal. lia. }
  split.
  - intros (env & Henv & Hf & [= <-]). rewrite (Hafter Hf). eexists. by split.
  - intros ([id e env cp] & -> & Hf & Hid & He & Henv & Hcp). simpl in *. subst.
    exists env. split_and!; [done|done|]. by rewrite (Hafter Hf).
Qed.

Lemma replay_batch_loop_ok self i acc ms r :
  fold_result replay_batch_step (acc, checkpoint_at self (N.of_nat i)) ms = Ok r ↔
  ∃ its, r = (acc ++ its, checkpoint_at self (N.of_nat (i + length ms))) ∧
    batch_from self i ms its.
Proof.
  revert i acc. induction ms as [|m ms IH]; intros i acc; cbn [fold_result].
  - rewrite Nat.add_0_r. split.
    + intros [= <-]. exists []. by rewrite app_nil_r.
    + intros ([|] & -> & Hb); [|done]. by rewrite app_nil_r.
  - rewrite bind_ok. setoid_rewrite replay_batch_step_ok. cbn [length].
    replace (i + S (length ms)) with (S i + length ms) by lia. split.
    + intros (? & (it & -> & Hit) & Hr). apply IH in Hr as (its & -> & Hits).
      exists (it :: its). split; [by rewrite <- app_assoc|done].
    + intros ([|it its] & -> & Hb); [done|]. destruct Hb as [Hit Hits]. eexists. split.
      * by exists it.
      * apply IH. exists its. by rewrite <- app_assoc.
Qed.

Lemma build_replay_batch_ok self ms flag b :
  build_replay_batch self ms flag = Ok b ↔
  caught_up_after_batch b = flag ∧ batch_from self 0 ms (items b).
Proof.
  unfold build_replay_batch. rewrite bind_ok.
  change self with (checkpoint_at self (N.of_nat 0)) at 1.
  setoid_rewrite replay_batch_loop_ok. split.
  - intros (? & (its & -> & Hits) & [= <-]). done.
  - destruct b as [its fl]. simpl. intros [-> Hits]. eexists. split; [by exists its|done].
Qed.

Lemma batch_from_lookup self i ms its :
  batch_from self i ms its ↔
  length its = length ms ∧
  ∀ k m, ms !! k = Some m → ∃ it, its !! k = Some it ∧ batch_item self (i + k) m it.
Proof.
  revert i its. induction ms as [|m ms IH]; intros i [|it its]; simpl.
  - split; [by intros|done].
  - split; [done|]. by intros [? _].
  - split; [done|]. by intros [? _].
  - rewrite IH. split.
    + intros (Hit & Hlen & Hits). split; [by f_equal|].
      intros [|k] m' Hm'; simpl in *.
      * injection Hm' as <-. exists it. by rewrite Nat.add_0_r.
      * rewrite Nat.add_succ_r. by apply Hits.
    + intros ([= Hlen] & Hits). split; [|split; [done|]].
      * destruct (Hits 0 m eq_refl) as (it' & [= <-] & Hit). by rewrite Nat.add_0_r in Hit.
      * intros k m' Hm'. replace (S i + k) with (i + S k) by lia. by apply (Hits (S k)).
Qed.

Lemma batch_from_last self i ms its it :
  batch_from self i ms its → last its = Some it →
  rmsg_checkpoint_after it = checkpoint_at self (N.of_nat (i + length its)).
Proof.
  intros Hb Hl. apply batch_from_lookup in Hb as [Hlen Hb].
  rewrite last_lookup in Hl. destruct its as [|it0 its]; [done|]. simpl in Hl, Hlen.
  destruct (ms !! length its) as [m|] eqn:Em.
  - destruct (Hb _ _ Em) as (it' & Hit' & Hitem). simplify_eq.
    destruct Hitem as (_ & _ & _ & _ & ->). f_equal. simpl. lia.
  - apply lookup_ge_None in Em. lia.
Qed.
End batch_facts.

(** ** Following a stream *)

Section follow.
Context `{SerdeJson} `{RedisCrate}.

(** A consumer's session: one poll per element of [servers], each against whatever
    Redis answers at that time, each from the checkpoint the last one left. *)
Fixpoint follow_stream (config : BroadcasterReplayConfig) (servers : list RedisServer)
    (checkpoint : ReplayCheckpoint) : replay (list ReplayMessage * ReplayCheckpoint) :=
  match servers with
  | [] => Ok ([], checkpoint)
  | redis :: servers =>
      poll ← read_next config redis checkpoint;
      match poll with
      | PollBatch batch =>
          rest ← follow_stream config servers (default checkpoint (checkpoint_after batch));
          Ok (items batch ++ rest.1, rest.2)
      | PollCaughtUp checkpoint => follow_stream config servers checkpoint
      | PollPending => follow_stream config servers checkpoint
      end
  end.

Lemma read_next_ok config redis cp poll :
  read_next config redis cp = Ok poll →
  match poll with
  | PollBatch b => items b ≠ [] ∧ ∃ ms, batch_from cp 0 ms (items b)
  | PollCaughtUp cp' => cp' = cp
  | PollPending => True
  end.
Proof.
  unfold read_next. intros Hr. apply bind_ok in Hr as (ms & _ & Hr). destruct ms as [|m ms].
  - apply bind_ok in Hr as (info & _ & Hr). apply bind_ok in Hr as ([] & _ & [= <-]); done.
  - destruct (build_replay_batch _ _ _) as [b|] eqn:Eb; [|done]. injection Hr as <-.
    apply build_replay_batch_ok in Eb as [_ Hb]. split; [|by eexists].
    by destruct (items b).
Qed.

(** The place of an item in a session that started at [self]. *)
Definition session_item (self : ReplayCheckpoint) (i : nat) (it : ReplayMessage) : Prop :=
  ∃ m, batch_item self i m it.

Lemma batch_item_shift self n i m it :
  batch_item (checkpoint_at self (N.of_nat n)) i m it ↔ batch_item self (n + i) m it.
Proof.
  unfold batch_item. rewrite !checkpoint_at_at.
  replace (N.of_nat n + N.of_nat i)%N with (N.of_nat (n + i)) by lia.
  by replace (N.of_nat n + (N.of_nat i + 1))%N with (N.of_nat (n + i) + 1)%N by lia.
Qed.

Lemma follow_stream_items config servers cp its cp' :
  follow_stream config servers cp = Ok (its, cp') →
  cp' = checkpoint_at cp (len its) ∧
  ∀ i it, its !! i = Some it → session_item cp i it.
Proof.
  revert cp its cp'. induction servers as [|redis servers IH]; intros cp its cp' Hf;
    cbn [follow_stream] in Hf.
  { injection Hf as <- <-. by split. }
  apply bind_ok in Hf as (poll & Hpoll%read_next_ok & Hf). destruct poll as [b|cp1|].
  - destruct Hpoll as [Hne (ms & Hb)]. apply bind_ok in Hf as ([its2 cp2] & Hrest & [= <- <-]).
    assert (default cp (checkpoint_after b) = checkpoint_at cp (len (items b))) as Hcp.
    { unfold checkpoint_after. destruct (last (items b)) as [it|] eqn:El.
      - simpl. eapply batch_from_last in El; [|done]. done.
      - by apply last_None in El. }
    rewrite Hcp in Hrest. apply IH in Hrest as [-> Hits]. split.
    + rewrite checkpoint_at_at. f_equal. unfold len. rewrite length_app. simpl. lia.
    + intros i it [Hit|[Hge Hit]]%lookup_app_Some.
      * apply batch_from_lookup in Hb as [Hlen Hb].
        destruct (ms !! i) as [m|] eqn:Em.
        -- destruct (Hb _ _ Em) as (it' & Hit' & Hitem). simplify_eq. by exists m.
        -- apply lookup_ge_None in Em. apply lookup_lt_Some in Hit. lia.
      * destruct (Hits _ _ Hit) as (m & Hm). exists m.
        apply batch_item_shift in Hm. by replace (length (items b) + (i - length (items b)))
          with i in Hm by lia.
  - subst. by apply IH.
  - by apply IH.
Qed.
End follow.

(** ** Empty polls *)

(** A checkpoint whose id is that of its last message. *)
Record checkpoint_wf (self : ReplayCheckpoint) : Prop := {
  wf_id : entry_id self =
    entry_id_text (bd_generation (boundary self)) (last_message_seq self);
  wf_generation : (bd_generation (boundary self) ≤ u64_max)%N;
  wf_seq : (last_message_seq self ≤ u64_max)%N;
}.

Definition here (self : ReplayCheckpoint) : RedisEntryIdParts :=
  {| millis := bd_generation (boundary self); sequence := last_message_seq self |}.
Definition next (self : ReplayCheckpoint) : RedisEntryIdParts :=
  {| millis := bd_generation (boundary self); sequence := last_message_seq self + 1 |}.

Lemma id_lt_next cp x : id_lt (here cp) x ↔ id_le (next cp) x.
Proof.
  unfold id_le, id_lt, here, next. destruct x as [m s]; simpl. split.
  - intros [?|[-> ?]]; [by left; left|].
    destruct (decide (s = last_message_seq cp + 1)%N) as [->|]; [by right|]. left. right. lia.
  - intros [[?|[-> ?]]|[= <- <-]]; lia.
Qed.

Lemma id_le_lt a b : id_le a b → ¬ id_lt b a.
Proof. unfold id_le, id_lt. destruct a, b; simpl. intros [?|[= -> ->]]; lia. Qed.

Lemma ltb_true a b : id_lt a b → id_ltb a b = true.
Proof. by rewrite id_ltb_lt. Qed.
Lemma ltb_false a b : id_le b a → id_ltb a b = false.
Proof. by rewrite id_ltb_ge. Qed.

Lemma empty_poll_caught_up cp info :
  checkpoint_wf cp →
  redis_empty_poll_action cp (Some info) = Ok CaughtUp ↔
  parse_redis_entry_id (last_generated_entry_id info) = Ok (here cp).
Proof.
  intros [Hid Hg Hs]. unfold redis_empty_poll_action. rewrite Hid, parse_entry_id_text by done.
  cbn. destruct (parse_redis_entry_id (last_generated_entry_id info)) as [lg|e]; [|done]. cbn.
  destruct (id_ltb lg _) eqn:Elt.
  { split; [done|]. intros [= ->]. apply id_ltb_lt in Elt. unfold id_lt in Elt. simpl in Elt. lia. }
  case_bool_decide as Heq; [by rewrite Heq|].
  split; [|intros [= ->]; done]. intros Hr. exfalso.
  repeat (apply bind_ok in Hr as (? & _ & Hr)).
  split_if Hr; [done|]. apply bind_ok in Hr as (? & _ & Hr). by split_if Hr.
Qed.

Lemma empty_poll_pending cp info :
  checkpoint_wf cp →
  redis_empty_poll_action cp (Some info) = Ok Pending ↔
  ∃ lg first last f l,
    parse_redis_entry_id (last_generated_entry_id info) = Ok lg ∧
    first_entry_id info = Some first ∧ last_entry_id info = Some last ∧
    parse_redis_entry_id first = Ok f ∧ parse_redis_entry_id last = Ok l ∧
    (last_message_seq cp + 1 ≤ u64_max)%N ∧
    id_lt (here cp) lg ∧ id_le f (next cp) ∧ id_le (next cp) l.
Proof.
  intros [Hid Hg Hs]. unfold redis_empty_poll_action. rewrite Hid, parse_entry_id_text by done.
  rewrite ok_bind. fold (here cp). split.
  - intros Hr. apply bind_ok in Hr as (lg & Hlg & Hr).
    destruct (id_ltb lg (here cp)) eqn:Elt; [done|]. apply id_ltb_ge in Elt.
    case_bool_decide as Heq; [done|].
    apply bind_ok in Hr as (seq & Hseq & Hr). apply ok_or_ok, checked_add_Some in Hseq as [-> Hw].
    unfold redis_entry_id in Hr. rewrite parse_entry_id_text in Hr by done.
    rewrite ok_bind in Hr. fold (next cp) in Hr.
    apply bind_ok in Hr as (first & Hf%ok_or_ok & Hr).
    apply bind_ok in Hr as (last & Hl%ok_or_ok & Hr).
    apply bind_ok in Hr as (f & Hpf & Hr).
    destruct (id_ltb (next cp) f) eqn:Ef; [done|]. apply id_ltb_ge in Ef.
    apply bind_ok in Hr as (l & Hpl & Hr).
    destruct (id_ltb (here cp) l) eqn:El; [|done]. apply id_ltb_lt, id_lt_next in El.
    exists lg, first, last, f, l. split_and!; try done. by destruct Elt as [|<-].
  - intros (lg & first & last & f & l & Hlg & Hf & Hl & Hpf & Hpl & Hw & Hlt & Hfn & Hnl).
    rewrite Hlg, ok_bind, ltb_false by (by left).
    rewrite bool_decide_false by (intros ->; by eapply id_le_lt; [right|]).
    rewrite (proj2 (checked_add_Some _ _ _) (conj eq_refl Hw)). cbn.
    unfold redis_entry_id. rewrite parse_entry_id_text by done. cbn. fold (next cp).
    rewrite Hf, Hl. cbn. rewrite Hpf. cbn. rewrite ltb_false by done.
    rewrite Hpl. cbn. by rewrite ltb_true by by apply id_lt_next.
Qed.

(** ** Delivery of published entries *)

Section delivery.
Context `{SerdeJsonLaws} `{RedisCrate}.

(** A stored entry holds the text fields of [e] as Redis strings. *)
Definition stored_as (s : StreamId) (e : BroadcasterRedisStreamEntry) : Prop :=
  ∀ k, from_redis_value <$> sid_map s !! k =
       Ok <$> (list_to_map (entry_fields e) : gmap string string) !! k.

Lemma redis_stream_fields_fold (g : string → string) l (acc : gmap string string) :
  (∀ k r, (k, r) ∈ l → from_redis_value r = Ok (g k)) →
  ∃ v, fold_result redis_stream_field acc l = Ok v ∧
    ∀ k, v !! k = if decide (k ∈ l.*1) then Some (g k) else acc !! k.
Proof.
  revert acc. induction l as [|[k r] l IH]; intros acc Hl; cbn [fold_result].
  { exists acc. split; [done|]. intros k. rewrite decide_False; [done|set_solver]. }
  assert (redis_stream_field acc (k, r) = Ok (<[k := g k]> acc)) as ->.
  { unfold redis_stream_field. by rewrite (Hl k r) by left. }
  rewrite ok_bind.
  destruct (IH (<[k := g k]> acc)) as (v & -> & Hv).
  { intros k' r' Hin. apply Hl. by right. }
  exists v. split; [done|]. intros k'. rewrite Hv. csimpl.
  destruct (decide (k' ∈ l.*1)) as [Hin|Hni].
  { rewrite decide_True; [done|by right]. }
  destruct (decide (k' = k)) as [->|Hne].
  - rewrite decide_True by left. apply lookup_insert_eq.
  - rewrite decide_False by (by intros [?|?]%elem_of_cons). by rewrite lookup_insert_ne.
Qed.

Lemma redis_stream_fields_stored s e :
  stored_as s e →
  fold_result redis_stream_field ∅ (map_to_list (sid_map s)) =
  Ok (list_to_map (entry_fields e)).
Proof.
  unfold stored_as. generalize (list_to_map (entry_fields e) : gmap string string).
  intros t Hst.
  destruct (redis_stream_fields_fold (λ k, default "" (t !! k)) (map_to_list (sid_map s)) ∅)
    as (v & -> & Hv).
  { intros k r Hin%elem_of_map_to_list. specialize (Hst k). rewrite Hin in Hst.
    destruct (t !! k); simpl in *; congruence. }
  f_equal. apply map_eq. intros k. rewrite Hv. specialize (Hst k).
  case_decide as Hin.
  - apply list_elem_of_fmap in Hin as ([k' r] & -> & Hin%elem_of_map_to_list). simpl in *.
    rewrite Hin in Hst. simpl in Hst. by destruct (t !! k').
  - rewrite lookup_empty. destruct (sid_map s !! k) as [r|] eqn:Er.
    + destruct Hin. apply list_elem_of_fmap. exists (k, r). split; [done|].
      by apply elem_of_map_to_list.
    + simpl in Hst. by destruct (t !! k).
Qed.

Lemma redis_stream_message_stored s e :
  stored_as s e → entry_width e → entry_valid e →
  redis_stream_message s = Ok {| msg_entry_id := sid_id s; msg_entry := e |}.
Proof.
  intros Hst Hw Hv. unfold redis_stream_message. rewrite (redis_stream_fields_stored _ _ Hst).
  rewrite ok_bind. unfold entry_deserialize. rewrite wire_entry_fields, ok_bind by done.
  by rewrite (proj2 (entry_validate_ok e) Hv).
Qed.

(** A publication: the envelope, the time and version it was published under, the
    entry built from it, and how Redis stores that entry. *)
Record publication := {
  pub_envelope : BroadcasterEnvelope;
  pub_at : u64;
  pub_version : u64;
  pub_entry : BroadcasterRedisStreamEntry;
  pub_stored : StreamId;
}.

(** The [i]-th publication after the checkpoint, in the checkpoint's stream. *)
Record published_at (cp : ReplayCheckpoint) (i : nat) (p : publication) : Prop := {
  published_built : from_envelope_at (expected_chain_id cp) (pub_envelope p) (pub_at p)
                      (pub_version p) = Ok (pub_entry p);
  published_encodable : encodable (env_payload (pub_envelope p));
  published_canonical : canonical (env_payload (pub_envelope p));
  published_width : entry_width (pub_entry p);
  published_stream : env_stream_id (pub_envelope p) = bd_stream_id (boundary cp);
  published_seq : env_message_seq (pub_envelope p) =
    (last_message_seq cp + N.of_nat i + 1)%N;
  published_snapshot : ∀ id, redis_payload_snapshot_id (env_payload (pub_envelope p)) = Some id →
    id = bd_snapshot_id (boundary cp);
  published_stored : stored_as (pub_stored p) (pub_entry p);
  published_id : sid_id (pub_stored p) =
    entry_id_text (bd_generation (boundary cp)) (env_message_seq (pub_envelope p));
}.

Lemma published_message cp i p :
  published_at cp i p →
  redis_stream_message (pub_stored p) =
    Ok {| msg_entry_id := sid_id (pub_stored p); msg_entry := pub_entry p |} ∧
  follows (checkpoint_at cp (N.of_nat i))
    {| msg_entry_id := sid_id (pub_stored p); msg_entry := pub_entry p |} ∧
  envelope_of_json (payload_json (pub_entry p)) =
    Ok (map_envelope wire_sim (pub_envelope p)).
Proof.
  intros [Hb Henc Hcan Hw Hst Hseq Hsn Hsto Hid].
  pose proof Hb as (Hk & bs & scope & json & _ & _ & Hj & _ & He & Hval)%from_envelope_at_inv.
  split_and!.
  - by apply redis_stream_message_stored.
  - assert (boundary (checkpoint_at cp (N.of_nat i)) = boundary cp ∧
            expected_chain_id (checkpoint_at cp (N.of_nat i)) = expected_chain_id cp ∧
            last_message_seq (checkpoint_at cp (N.of_nat i)) =
              (last_message_seq cp + N.of_nat i)%N) as (Eb & Ec & El).
    { unfold checkpoint_at. destruct (N.eqb_spec (N.of_nat i) 0) as [->|]; [|done].
      by rewrite N.add_0_r. }
    rewrite Hseq in Hid. destruct Hw as (_ & Hw & _). rewrite He in Hw, Hval |- *. simpl in Hw.
    split; cbn; rewrite ?Eb, ?Ec, ?El; try done. by rewrite <- Hseq.
  - subst. rewrite He. cbn. apply envelope_of_json_encoded; [done| |done].
    by apply canonical_map_payload.
Qed.

Lemma redis_stream_messages_stored key pubs ms :
  Forall2 (λ p m, redis_stream_message (pub_stored p) = Ok m) pubs ms →
  redis_stream_messages key
    {| srr_keys := [{| sk_key := key; sk_ids := map pub_stored pubs |}] |} = Ok ms.
Proof.
  intros Hall. unfold redis_stream_messages. cbn [fold_result srr_keys].
  unfold redis_stream_key_messages. cbn [sk_key sk_ids]. rewrite String.eqb_refl. cbn [negb].
  assert (∀ acc, fold_result (λ ms s, m ← redis_stream_message s; Ok (ms ++ [m])) acc
                   (map pub_stored pubs) = Ok (acc ++ ms)) as Hfold.
  { induction Hall as [|p m pubs ms Hm Hall IH]; intros acc; cbn [map fold_result].
    { by rewrite app_nil_r. }
    rewrite Hm. cbn. rewrite IH. by rewrite <- app_assoc. }
  by rewrite Hfold.
Qed.

Lemma published_batch cp i pubs :
  (∀ k p, pubs !! k = Some p → published_at cp (i + k) p) →
  ∃ ms its, Forall2 (λ p m, redis_stream_message (pub_stored p) = Ok m) pubs ms ∧
    batch_from cp i ms its ∧
    map rmsg_envelope its = map (λ p, map_envelope wire_sim (pub_envelope p)) pubs ∧
    map rmsg_entry its = map pub_entry pubs.
Proof.
  revert i. induction pubs as [|p pubs IH]; intros i Hp; [by exists [], []|].
  destruct (IH (S i)) as (ms & its & Hms & Hb & He & Hn).
  { intros k q Hq. replace (S i + k) with (i + S k) by lia. by apply Hp. }
  specialize (Hp 0 p eq_refl). rewrite Nat.add_0_r in Hp.
  destruct (published_message _ _ _ Hp) as (Hm & Hf & Henv).
  exists ({| msg_entry_id := sid_id (pub_stored p); msg_entry := pub_entry p |} :: ms).
  exists ({| rmsg_entry_id := sid_id (pub_stored p); rmsg_entry := pub_entry p;
             rmsg_envelope := map_envelope wire_sim (pub_envelope p);
             rmsg_checkpoint_after := checkpoint_at cp (N.of_nat i + 1) |} :: its).
  split_and!; [by constructor|by split|by simpl; f_equal|by simpl; f_equal].
Qed.

Lemma read_next_published config redis cp pubs :
  pubs ≠ [] →
  (∀ k p, pubs !! k = Some p → published_at cp k p) →
  xread redis (bd_stream_key (boundary cp)) (entry_id cp) (cfg_block_ms config)
      (cfg_read_count config) =
    Ok (Some {| srr_keys := [{| sk_key := bd_stream_key (boundary cp);
                                sk_ids := map pub_stored pubs |}] |}) →
  ∃ batch, read_next config redis cp = Ok (PollBatch batch) ∧
    map rmsg_envelope (items batch) = map (λ p, map_envelope wire_sim (pub_envelope p)) pubs ∧
    map rmsg_entry (items batch) = map pub_entry pubs ∧
    checkpoint_after batch = Some (checkpoint_at cp (len pubs)).
Proof.
  intros Hne Hp Hx. destruct (published_batch cp 0 pubs Hp) as (ms & its & Hms & Hb & He & Hn).
  pose proof Hb as [Hlen _]%batch_from_lookup. pose proof (Forall2_length _ _ _ Hms) as Hlp.
  unfold read_next, read_after, redis_xread_messages.
  rewrite Hx, (redis_stream_messages_stored _ _ _ Hms), ok_bind.
  destruct ms as [|m ms]; [by destruct pubs|].
  set (flag := (_ <? _)%N).
  destruct (build_replay_batch cp (m :: ms) flag) as [b|e] eqn:Eb.
  - apply build_replay_batch_ok in Eb as [_ Hb'].
    assert (items b = its) as Hits.
    { apply list_eq. intros i. apply batch_from_lookup in Hb as [L1 H3], Hb' as [L2 H4].
      destruct ((m :: ms) !! i) as [x|] eqn:Ei.
      - destruct (H3 _ _ Ei) as ([] & -> & I1), (H4 _ _ Ei) as ([] & -> & I2).
        destruct I1 as (_ & ? & ? & ? & ?), I2 as (_ & ? & ? & ? & ?). simpl in *.
        simplify_eq. congruence.
      - apply lookup_ge_None in Ei.
        rewrite !(proj2 (lookup_ge_None _ _)) by (rewrite ?L1, ?L2; lia). done. }
    exists b. rewrite Hits. split_and!; [done|done|done|].
    unfold checkpoint_after. rewrite Hits. destruct (last its) as [it|] eqn:El.
    + simpl. f_equal. rewrite (batch_from_last _ _ _ _ _ Hb El). unfold len. f_equal. lia.
    + apply last_None in El as ->. simpl in Hlen. lia.
  - exfalso. assert (build_replay_batch cp (m :: ms) flag =
      Ok {| items := its; caught_up_after_batch := flag |}); [|congruence].
    by apply build_replay_batch_ok.
Qed.
End delivery.

(** ** Snapshot downloads *)

(** What the code uses of [reqwest]: URLs, and the answers to requests. *)
Class HttpCrate := {
  Url : Type;
  url_parse : string → result string Url;
  url_scheme : Url → string;
  url_path : Url → string;
  url_set_path : string → Url → Url;
  url_clear_query : Url → Url;
  url_to_string : Url → string;
}.

Fixpoint trim_start_matches (c : ascii) (s : string) : string :=
  match s with
  | EmptyString => EmptyString
  | String d s' => if bool_decide (c = d) then trim_start_matches c s' else s
  end.

(** [s.trim_end_matches(c)]: nothing when the rest of the text is only [c]. *)
Fixpoint trim_end_matches (c : ascii) (s : string) : string :=
  match s with
  | EmptyString => EmptyString
  | String d s' =>
      let t := trim_end_matches c s' in
      if String.eqb t "" && bool_decide (c = d) then EmptyString else String d t
  end.

Definition slash : ascii := "/"%char.

Definition prefixed_path (prefix relative_path : string) : string :=
  let relative_path := trim_start_matches slash relative_path in
  if String.eqb prefix "" then "/" +:+ relative_path
  else prefix +:+ "/" +:+ relative_path.

Section snapshot.
Context `{HttpCrate}.

Definition broadcaster_path_prefix (url : Url) : string :=
  trim_end_matches slash (url_path url).

Definition derive_broadcaster_http_url (base_url relative_path : string) : replay string :=
  url ← map_err InvalidBroadcasterUrl (url_parse base_url);
  if String.eqb (url_scheme url) "http" || String.eqb (url_scheme url) "https" then
    let http_path := prefixed_path (broadcaster_path_prefix url) relative_path in
    Ok (url_to_string (url_clear_query (url_set_path http_path url)))
  else
    Err (InvalidBroadcasterUrl ("TYCHO_BROADCASTER_URL must use http or https, got "
                                  +:+ url_scheme url)).

Definition BROADCASTER_SNAPSHOT_SESSIONS_PATH : string := "snapshot-sessions".

Definition broadcaster_snapshot_payload_path (session_id : u64) (index : u32) : string :=
  BROADCASTER_SNAPSHOT_SESSIONS_PATH +:+ "/" +:+ u64_to_string session_id
    +:+ "/payloads/" +:+ u64_to_string index.

(** A response: its status and its body, or why the body could not be read. *)
Record Response := { status : N; body : result string string }.

Definition status_is_success (status : N) : bool := (200 <=? status)%N && (status <? 300)%N.

Definition decode_success_json {T} (from_json : string → result string T)
    (response : Response) (url operation : string) : replay T :=
  if negb (status_is_success (status response))
  then Err (HttpStatus operation url (status response))
  else
    body ← map_err (HttpBody operation url) (body response);
    map_err (JsonDecode operation url) (from_json body).

(** [client.get(&url).send()]: a response, or why there was none. *)
Definition fetch_broadcaster_snapshot_payload `{SerdeJson}
    (get : string → result string Response) (broadcaster_url : string)
    (session_id : u64) (index : u32) : replay BroadcasterEnvelope :=
  payload_url ← derive_broadcaster_http_url broadcaster_url
                  (broadcaster_snapshot_payload_path session_id index);
  let operation := "fetch broadcaster snapshot payload" in
  response ← map_err (HttpRequest operation payload_url) (get payload_url);
  decode_success_json envelope_of_json response payload_url operation.

(** The items the stream yields: [buffered] keeps the order of the indices,
    whatever the order in which the requests finish. *)
Definition ordered_payload_fetches {Payload Error} (payload_count : u32)
    (fetch : u32 → result Error Payload) : list (result Error Payload) :=
  map (λ i, fetch (N.of_nat i)) (seq 0 (N.to_nat payload_count)).

Definition fetch_broadcaster_snapshot_payloads `{SerdeJson}
    (get : string → result string Response) (broadcaster_url : string)
    (session_id : u64) (payload_count : u32) : list (replay BroadcasterEnvelope) :=
  ordered_payload_fetches payload_count
    (fetch_broadcaster_snapshot_payload get broadcaster_url session_id).
End snapshot.

(** ** Properties *)

(** C3: whatever Redis answers, poll after poll, a session that does not fail has
    applied every message after its checkpoint exactly once and in order: item [i] has
    the next sequence number, entry id, stream and chain, carries its decoded payload,
    and leaves the checkpoint just after it. *)
Theorem follow_stream_contiguous `{SerdeJson} `{RedisCrate} config servers cp its cp' :
  follow_stream config servers cp = Ok (its, cp') →
  cp' = checkpoint_at cp (len its) ∧
  ∀ i it, its !! i = Some it →
    message_seq (rmsg_entry it) = (last_message_seq (checkpoint_at cp (N.of_nat i)) + 1)%N ∧
    rmsg_entry_id it = entry_id_text (bd_generation (boundary (checkpoint_at cp (N.of_nat i))))
                         (last_message_seq (checkpoint_at cp (N.of_nat i)) + 1) ∧
    stream_id (rmsg_entry it) = bd_stream_id (boundary (checkpoint_at cp (N.of_nat i))) ∧
    chain_id (rmsg_entry it) = expected_chain_id (checkpoint_at cp (N.of_nat i)) ∧
    envelope_of_json (payload_json (rmsg_entry it)) = Ok (rmsg_envelope it) ∧
    rmsg_checkpoint_after it = checkpoint_at cp (N.of_nat i + 1).
Proof.
  intros Hf. destruct (follow_stream_items _ _ _ _ _ Hf) as [Hcp Hits]. split; [done|].
  intros i it Hit. destruct (Hits i it Hit) as (m & [Hst Hch Hseq _ Hid _] & E1 & E2 & Henv & Hcpa).
  by rewrite E1, E2.
Qed.

(** An empty poll is resolved from the stream's own ids: caught up exactly when
    nothing was generated after the checkpoint; worth another poll exactly when
    something was, and what is retained reaches from no later than the next expected
    entry to at least that entry.  Everything else is reported as a gap. *)
Theorem empty_poll_iff cp info :
  checkpoint_wf cp →
  (redis_empty_poll_action cp (Some info) = Ok CaughtUp ↔
   parse_redis_entry_id (last_generated_entry_id info) = Ok (here cp)) ∧
  (redis_empty_poll_action cp (Some info) = Ok Pending ↔
   ∃ lg first last f l,
     parse_redis_entry_id (last_generated_entry_id info) = Ok lg ∧
     first_entry_id info = Some first ∧ last_entry_id info = Some last ∧
     parse_redis_entry_id first = Ok f ∧ parse_redis_entry_id last = Ok l ∧
     (last_message_seq cp + 1 ≤ u64_max)%N ∧
     id_lt (here cp) lg ∧ id_le f (next cp) ∧ id_le (next cp) l) ∧
  (redis_empty_poll_action cp None = Ok CaughtUp ↔ last_message_seq cp = 0%N).
Proof.
  intros Hwf. split_and!; [by apply empty_poll_caught_up|by apply empty_poll_pending|].
  unfold redis_empty_poll_action, redis_gap.
  destruct (N.eqb_spec (last_message_seq cp) 0); naive_solver.
Qed.

(** What the publisher stored after a checkpoint is delivered: when Redis returns
    the entries built from a run of envelopes, the poll succeeds and yields those
    envelopes in order, with the checkpoint after the last of them. *)
Theorem read_next_delivers_published `{SerdeJsonLaws} `{RedisCrate} config redis cp pubs :
  pubs ≠ [] →
  (∀ k p, pubs !! k = Some p → published_at cp k p) →
  xread redis (bd_stream_key (boundary cp)) (entry_id cp) (cfg_block_ms config)
      (cfg_read_count config) =
    Ok (Some {| srr_keys := [{| sk_key := bd_stream_key (boundary cp);
                                sk_ids := map pub_stored pubs |}] |}) →
  ∃ batch, read_next config redis cp = Ok (PollBatch batch) ∧
    map rmsg_envelope (items batch) = map (λ p, map_envelope wire_sim (pub_envelope p)) pubs ∧
    map rmsg_entry (items batch) = map pub_entry pubs ∧
    checkpoint_after batch = Some (checkpoint_at cp (len pubs)).
Proof. apply read_next_published. Qed.

(** ** Witnesses *)

Definition demo_redis : RedisCrate := {|
  RedisValue := string;
  from_redis_value := Ok;
  RedisError := string;
  redis_error_text := id;
  redis_error_detail := Some;
  redis_error_authentication_failed := λ _, false;
  redis_error_no_retry := λ _, true;
  entry_decode_error_text := λ _, "cannot decode";
|}.

Definition demo_config : BroadcasterReplayConfig := {|
  cfg_broadcaster_url := "http://broadcaster"; cfg_redis_url := "redis://redis";
  cfg_block_ms := 1000; cfg_read_count := 100; cfg_request_timeout := from_secs 5 |}.

Definition demo_boundary : BroadcasterRedisReplayBoundary := {|
  bd_stream_key := "events"; bd_stream_id := "chain-1-stream-7";
  bd_snapshot_id := "chain-1-snapshot-7"; bd_generation := 7;
  bd_exclusive_message_seq := 2; bd_state_version := 11 |}.

Definition demo_checkpoint : ReplayCheckpoint := ReplayCheckpoint_new demo_boundary 1.

Definition demo_stored : @StreamId demo_redis :=
  @Build_StreamId demo_redis "7-3" (list_to_map (entry_fields demo_entry)).

Definition demo_server : @RedisServer demo_redis :=
  @Build_RedisServer demo_redis
    (λ _ after _ _,
      if String.eqb after "7-2"
      then Ok (Some {| srr_keys := [{| sk_key := "events"; sk_ids := [demo_stored] |}] |})
      else Ok None)
    (λ _, Ok {| sir_length := 1; sir_last_generated_id := "7-3";
                sir_first_entry_id := "7-3"; sir_last_entry_id := "7-3" |}).

Definition demo_follow :=
  @follow_stream demo_tycho demo_serde demo_redis demo_config [demo_server; demo_server]
    demo_checkpoint.

Definition demo_items := match demo_follow with Ok (its, _) => its | Err _ => [] end.

Lemma follow_stream_contiguous_witness :
  length demo_items = 1 ∧
  ∀ i it, demo_items !! i = Some it →
    message_seq (rmsg_entry it) =
      (last_message_seq (checkpoint_at demo_checkpoint (N.of_nat i)) + 1)%N.
Proof.
  split; [by vm_compute|]. intros i it Hit.
  apply (@follow_stream_contiguous demo_tycho demo_serde demo_redis demo_config
           [demo_server; demo_server] demo_checkpoint demo_items
           (checkpoint_at demo_checkpoint 1)); [by vm_compute|done].
Defined.

Lemma empty_poll_iff_witness :
  redis_empty_poll_action demo_checkpoint
    (Some {| last_generated_entry_id := "7-2"; first_entry_id := Some "7-1";
             last_entry_id := Some "7-2" |}) = Ok CaughtUp.
Proof. apply empty_poll_iff; [by split; vm_compute|by vm_compute]. Defined.

Lemma read_next_delivers_published_witness :
  ∃ batch, @read_next demo_tycho demo_serde demo_redis demo_config demo_server
             demo_checkpoint = Ok (PollBatch batch) ∧
    map rmsg_entry (items batch) = [demo_entry].
Proof.
  destruct (@read_next_delivers_published demo_tycho demo_serde demo_serde_laws demo_redis
              demo_config demo_server demo_checkpoint
              [{| pub_envelope := demo_envelope 3; pub_at := 1000; pub_version := 12;
                  pub_entry := demo_entry; pub_stored := demo_stored |}])
    as (b & Hb & _ & He & _).
  - discriminate.
  - intros [|k] p Hp; [|discriminate]. injection Hp as <-. split.
    + vm_compute. reflexivity.
    + exact I.
    + vm_compute. reflexivity.
    + by repeat split.
    + vm_compute. reflexivity.
    + vm_compute. reflexivity.
    + intros id [= <-]. vm_compute. reflexivity.
    + intros k. simpl. by destruct (_ !! k).
    + vm_compute. reflexivity.
  - vm_compute. reflexivity.
  - exists b. split; [exact Hb|exact He].
Defined.
