(* ===== verification/RedisStore.v ===== *)
(** * The writer fence in Redis

    [runtime/src/broadcaster/redis_publisher.rs]: the Lua scripts that promote a
    writer, append behind its fence, renew and verify its lease and inspect the
    stream.  Each script runs atomically in Redis; the Redis commands themselves are
    the class [RedisStore], with the documented behaviour the scripts rely on as the
    laws [RedisStoreLaws]. *)

From S2P Require Import Prelude Ordered Text Wire Validate RedisEntry Replay.

(** ** Redis *)

(** The commands the scripts issue.  [XINFO STREAM] gives the last generated id and
    the id of the first retained entry; [XRANGE key id id COUNT 1] the entries found,
    an id with its fields in the order they were added. *)
Class RedisStore := {
  db : Type;
  r_get : string → db → option string;
  r_set : string → string → db → db;
  r_set_px : string → string → u64 → db → db;
  r_incr : string → db → result string N * db;
  r_pexpire : string → u64 → db → db;
  r_xadd : string → option string → string → list (string * string) → db →
           result string string * db;
  r_xrange : string → string → db →
             result string (list (string * list (string * string)));
  r_xinfo : string → db → result string (string * option string);
  (* what a key's elapsed time to live does *)
  r_expire : string → db → db;
  (* Lua's [tostring] on a number of more than fourteen digits *)
  lua_g14 : N → string;
}.

(** The texts the scripts answer with. *)
Definition STALE_WRITER_TOKEN : string := "stale Redis broadcaster writer token".
Definition STALE_WRITER_GENERATION : string := "stale Redis broadcaster writer generation".
Definition MISSING_WRITER_FENCE : string := "missing Redis broadcaster writer fence".
Definition MISSING_WRITER_GENERATION : string := "missing Redis broadcaster writer generation".
Definition GENERATION_PLACEHOLDER : string := "__GENERATION__".

(** ** Lua *)

(** [tostring] of a number: "%.14g", exact below 10^14. *)
Definition lua_exact : N := 100000000000000.
Definition lua_tostring `{RedisStore} (n : N) : string :=
  if (n <? lua_exact)%N then u64_to_string n else lua_g14 n.

Fixpoint all_digits (s : string) : bool :=
  match s with
  | EmptyString => true
  | String c s' => match digit_val c with Some _ => all_digits s' | None => false end
  end.

(** [tonumber] on the texts the scripts write: decimal digits. *)
Definition lua_tonumber (s : string) : option N :=
  if String.eqb s "" then None else if all_digits s then parse_digits 0 s else None.

(** [string.match(last_id, "^(%d+)-")]. *)
Definition lua_match_generation (last_id : string) : option string :=
  match split_once dash last_id with
  | Some (generation, _) =>
      if String.eqb generation "" then None
      else if all_digits generation then Some generation else None
  | None => None
  end.

(** [string.gsub(s, pat, rep)] for a pattern without special characters: [skip]
    characters of a match are still to be dropped. *)
Fixpoint gsub_from (pat rep : string) (skip : nat) (s : string) : string :=
  match s with
  | EmptyString => EmptyString
  | String c s' =>
      match skip with
      | S skip' => gsub_from pat rep skip' s'
      | O =>
          if negb (String.eqb pat "") && String.prefix pat s
          then rep +:+ gsub_from pat rep (String.length pat - 1) s'
          else String c (gsub_from pat rep 0 s')
      end
  end.
Definition lua_gsub (s pat rep : string) : string := gsub_from pat rep 0 s.

(** ** Scripts *)

Section scripts.
Context `{RedisStore}.

(** A script: [redis.call] stops it with the error, and what was written stays. *)
Abbreviation script A := (stateR db string A).

Definition error_reply {A} (message : string) : script A := throw message.
Definition call_get (key : string) : script (option string) := gets (r_get key).
Definition call_xrange (stream_key entry_id : string) :
    script (list (string * list (string * string))) :=
  λ d, (r_xrange stream_key entry_id d, d).
Definition call_set (key value : string) : script unit := modify (r_set key value).
Definition call_pexpire (key : string) (ttl : u64) : script unit := modify (r_pexpire key ttl).

(** [{"XADD", stream_key}], then the optional [MAXLEN ~ maxlen], the id, the fields. *)
Definition call_xadd (stream_key maxlen entry_id : string) (fields : list (string * string)) :
    script string :=
  r_xadd stream_key (if String.eqb maxlen "" then None else Some maxlen) entry_id fields.

(** The highest generation of the stream, zero when there is no stream. *)
Definition stream_generation (stream_key : string) : script N :=
  info ← gets (r_xinfo stream_key);
  match info with
  | Err err => if str_contains "no such key" err then mret 0%N else error_reply err
  | Ok (last_id, _) =>
      match lua_match_generation last_id with
      | None => mret 0%N
      | Some generation =>
          match lua_tonumber generation with
          | Some n => mret n
          | None => error_reply "attempt to compare nil with number"
          end
      end
  end.

(** A retry of a normal promotion whose reply was lost. *)
Definition promotion_reply (stream_key writer_key generation_key writer_token : string)
    (lease_ttl_ms : u64) : script (option (string * string)) :=
  current_writer_token ← call_get writer_key;
  generation ← call_get generation_key;
  let current_generation := default "" generation in
  if bool_decide (current_writer_token = Some writer_token)
     && negb (String.eqb current_generation "") then
    let entry_id := current_generation +:+ "-1" in
    marker ← call_xrange stream_key entry_id;
    if bool_decide (length marker = 1) then
      call_pexpire writer_key lease_ttl_ms ;;
      mret (Some (current_generation, entry_id))
    else mret None
  else mret None.

(** The checks of a recovery promotion. *)
Definition promotion_recovery_checks (writer_key generation_key expected_writer_token
    expected_generation : string) : script unit :=
  current_writer_token ← call_get writer_key;
  generation ← call_get generation_key;
  let current_generation := default "" generation in
  if match current_writer_token with
     | Some token => negb (String.eqb token expected_writer_token)
     | None => false
     end
  then error_reply STALE_WRITER_TOKEN
  else if negb (String.eqb current_generation "")
          && negb (String.eqb current_generation expected_generation)
  then error_reply STALE_WRITER_GENERATION
  else if String.eqb current_generation ""
  then call_set generation_key expected_generation
  else mret tt.

(** The part common to both promotions: a generation above the key's and the
    stream's, the token, and the marker entry. *)
Definition promotion_advance (stream_key writer_key generation_key writer_token : string)
    (lease_ttl_ms : u64) (maxlen : string) (marker_fields : list (string * string)) :
    script (string * string) :=
  generation_text ← call_get generation_key;
  current_generation ← (match lua_tonumber (default "0" generation_text) with
                        | Some n => mret n
                        | None => error_reply "attempt to compare nil with number"
                        end);
  stream_generation ← stream_generation stream_key;
  (if (current_generation <? stream_generation)%N
   then call_set generation_key (u64_to_string stream_generation) else mret tt) ;;
  generation ← r_incr generation_key;
  modify (r_set_px writer_key writer_token lease_ttl_ms) ;;
  let entry_id := lua_tostring generation +:+ "-1" in
  _ ← call_xadd stream_key maxlen entry_id
        (map (λ fv, (fv.1, lua_gsub fv.2 GENERATION_PLACEHOLDER (lua_tostring generation)))
           marker_fields);
  mret (lua_tostring generation, entry_id).

Definition PROMOTE_WRITER_SCRIPT (stream_key writer_key generation_key writer_token : string)
    (lease_ttl_ms : u64) (maxlen expected_writer_token expected_generation : string)
    (marker_fields : list (string * string)) : script (string * string) :=
  reply ← (if String.eqb expected_writer_token ""
           then promotion_reply stream_key writer_key generation_key writer_token lease_ttl_ms
           else mret None);
  match reply with
  | Some reply => mret reply
  | None =>
      (if String.eqb expected_writer_token "" then mret tt
       else promotion_recovery_checks writer_key generation_key expected_writer_token
              expected_generation) ;;
      promotion_advance stream_key writer_key generation_key writer_token lease_ttl_ms maxlen
        marker_fields
  end.

(** The fence: the caller owns the token and the generation. *)
Definition check_writer (writer_key generation_key writer_token generation : string) :
    script unit :=
  current_writer_token ← call_get writer_key;
  match current_writer_token with
  | None => error_reply MISSING_WRITER_FENCE
  | Some token =>
      if negb (String.eqb token writer_token) then error_reply STALE_WRITER_TOKEN
      else
        current ← call_get generation_key;
        let current_generation := default "" current in
        if String.eqb current_generation "" then error_reply MISSING_WRITER_GENERATION
        else if negb (String.eqb current_generation generation)
        then error_reply STALE_WRITER_GENERATION
        else mret tt
  end.

Definition APPEND_FENCED_SCRIPT (stream_key writer_key generation_key writer_token
    generation : string) (lease_ttl_ms : u64) (maxlen entry_id : string)
    (fields : list (string * string)) : script string :=
  check_writer writer_key generation_key writer_token generation ;;
  call_pexpire writer_key lease_ttl_ms ;;
  call_xadd stream_key maxlen entry_id fields.

Definition RENEW_WRITER_SCRIPT (writer_key generation_key writer_token generation : string)
    (lease_ttl_ms : u64) : script string :=
  check_writer writer_key generation_key writer_token generation ;;
  call_pexpire writer_key lease_ttl_ms ;;
  mret "OK".

Definition VERIFY_WRITER_SCRIPT (writer_key generation_key writer_token generation : string) :
    script string :=
  check_writer writer_key generation_key writer_token generation ;;
  mret "OK".

Definition INSPECT_WRITER_SCRIPT (writer_key generation_key stream_key writer_token
    generation : string) : script (string * string * string) :=
  current_writer_token ← call_get writer_key;
  if negb (bool_decide (current_writer_token = Some writer_token))
  then error_reply STALE_WRITER_TOKEN
  else
    current ← call_get generation_key;
    let current_generation := default "" current in
    if negb (String.eqb current_generation generation)
    then error_reply STALE_WRITER_GENERATION
    else
      info ← gets (r_xinfo stream_key);
      match info with
      | Err err => error_reply err
      | Ok (last_id, first_id) => mret (current_generation, default "" first_id, last_id)
      end.
End scripts.

(** ** Keys *)

Definition redis_writer_key (stream_key : string) : string := stream_key +:+ ":writer".
Definition redis_writer_generation_key (stream_key : string) : string :=
  stream_key +:+ ":writer_generation".

(** ** What Redis documents *)

(** [XADD] takes only ids above the last generated one, and a refused command
    changes nothing; [INCR] counts from the decimal text of the key, or from zero;
    [PEXPIRE] with a positive time and the other commands leave other values alone. *)
Class RedisStoreLaws `{RedisStore} := {
  get_set k v d : r_get k (r_set k v d) = Some v;
  get_set_ne k k' v d : k ≠ k' → r_get k' (r_set k v d) = r_get k' d;
  get_set_px k v t d : (0 < t)%N → r_get k (r_set_px k v t d) = Some v;
  get_set_px_ne k k' v t d : k ≠ k' → r_get k' (r_set_px k v t d) = r_get k' d;
  get_pexpire k k' t d : (0 < t)%N → r_get k' (r_pexpire k t d) = r_get k' d;
  get_expire k d : r_get k (r_expire k d) = None;
  get_expire_ne k k' d : k ≠ k' → r_get k' (r_expire k d) = r_get k' d;
  incr_ok k n d :
    r_get k d = Some (u64_to_string n) ∨ r_get k d = None ∧ n = 0%N → (n < lua_exact)%N →
    ∃ d', r_incr k d = (Ok (n + 1)%N, d') ∧ r_get k d' = Some (u64_to_string (n + 1)) ∧
      (∀ k', k' ≠ k → r_get k' d' = r_get k' d) ∧ (∀ s, s ≠ k → r_xinfo s d' = r_xinfo s d);
  xadd_get s m id f d k : k ≠ s → r_get k (r_xadd s m id f d).2 = r_get k d;
  xadd_ok s m id f d r d' :
    r_xadd s m id f d = (Ok r, d') →
    r = id ∧ (∃ first, r_xinfo s d' = Ok (id, first)) ∧
    (∀ last first a b, r_xinfo s d = Ok (last, first) → parse_redis_entry_id last = Ok a →
       parse_redis_entry_id id = Ok b → id_lt a b) ∧
    (m ≠ Some "0" → r_xrange s id d' = Ok [(id, f)]);
  xadd_err s m id f d e d' : r_xadd s m id f d = (Err e, d') → r_xinfo s d' = r_xinfo s d;
  xadd_err_range s m id f d e d' i :
    r_xadd s m id f d = (Err e, d') → r_xrange s i d' = r_xrange s i d;
  incr_value k n d r d' :
    r_get k d = Some (u64_to_string n) → (n ≤ u64_max)%N → r_incr k d = (Ok r, d') →
    r = (n + 1)%N;
  xinfo_set s k v d : k ≠ s → r_xinfo s (r_set k v d) = r_xinfo s d;
  xinfo_set_px s k v t d : k ≠ s → r_xinfo s (r_set_px k v t d) = r_xinfo s d;
  xinfo_pexpire s k t d : k ≠ s → r_xinfo s (r_pexpire k t d) = r_xinfo s d;
  xinfo_expire s k d : k ≠ s → r_xinfo s (r_expire k d) = r_xinfo s d;
  xrange_pexpire s id k t d : k ≠ s → r_xrange s id (r_pexpire k t d) = r_xrange s id d;
  (* "%.14g" turns to an exponent there *)
  g14_not_decimal n : (lua_exact ≤ n)%N → parse_u64 (lua_g14 n) = None;
}.

(** ** Facts: texts *)

Lemma length_str_app a b : String.length (a +:+ b) = String.length a + String.length b.
Proof. induction a as [|c a IH]; [done|]. rewrite str_app_cons. simpl. by rewrite IH. Qed.

(** The ownership keys of a stream differ from it and from each other. *)
Lemma stream_keys_distinct sk :
  redis_writer_key sk ≠ sk ∧ redis_writer_generation_key sk ≠ sk ∧
  redis_writer_key sk ≠ redis_writer_generation_key sk.
Proof.
  unfold redis_writer_key, redis_writer_generation_key.
  split_and!; intros E; apply (f_equal String.length) in E;
    rewrite ?length_str_app in E; simpl in E; lia.
Qed.

Lemma all_digits_dec fuel n acc : all_digits acc = true → all_digits (dec_digits fuel n acc) = true.
Proof.
  revert n acc. induction fuel as [|fuel IH]; intros n acc Ha; [done|].
  assert (all_digits (String (digit_char (n mod 10)) acc) = true) as Hd.
  { pose proof (N.mod_lt n 10 ltac:(lia)). cbn [all_digits]. by rewrite digit_val_char. }
  cbn [dec_digits]. case_match; [done|]. by apply IH.
Qed.

Lemma u64_to_string_ne_nil n : u64_to_string n ≠ "".
Proof. intros E. pose proof (u64_to_string_not_blank n) as Hb. by rewrite E in Hb. Qed.

Lemma parse_digits_u64 n : (n ≤ u64_max)%N → parse_digits 0 (u64_to_string n) = Some n.
Proof.
  intros Hn. unfold u64_to_string. rewrite parse_dec_digits; [done| |done].
  eapply N.le_lt_trans; [apply Hn|done].
Qed.

Lemma lua_tonumber_text n : (n ≤ u64_max)%N → lua_tonumber (u64_to_string n) = Some n.
Proof.
  intros Hn. unfold lua_tonumber.
  destruct (String.eqb_spec (u64_to_string n) ""); [by destruct (u64_to_string_ne_nil n)|].
  unfold u64_to_string at 1. rewrite all_digits_dec by done. by apply parse_digits_u64.
Qed.

Lemma lua_match_entry_id g s : lua_match_generation (entry_id_text g s) = Some (u64_to_string g).
Proof.
  unfold lua_match_generation, entry_id_text.
  rewrite split_once_app by (apply u64_to_string_no; left; done).
  destruct (String.eqb_spec (u64_to_string g) ""); [by destruct (u64_to_string_ne_nil g)|].
  unfold u64_to_string at 1. by rewrite all_digits_dec.
Qed.

Lemma exact_le n : (n < lua_exact)%N → (n ≤ u64_max)%N.
Proof. unfold lua_exact, u64_max. lia. Qed.

Lemma exact_text `{RedisStore} n : (n < lua_exact)%N → lua_tostring n = u64_to_string n.
Proof. intros Hn. unfold lua_tostring. by destruct (N.ltb_spec n lua_exact); [|lia]. Qed.

Lemma entry_id_first g : u64_to_string g +:+ "-1" = entry_id_text g 1.
Proof. done. Qed.

(** ** Facts: the fence *)

Section fence.
Context `{RedisStoreLaws} (sk : string) (ttl : u64) (ttl_pos : (0 < ttl)%N).

Abbreviation wk := (redis_writer_key sk).
Abbreviation gk := (redis_writer_generation_key sk).

Definition owner (d : db) (token : string) (g : N) : Prop :=
  r_get wk d = Some token ∧ r_get gk d = Some (u64_to_string g).

#[local] Instance owner_dec d token g : Decision (owner d token g).
Proof. unfold owner. apply _. Defined.

Lemma wk_gk : wk ≠ gk. Proof. apply stream_keys_distinct. Qed.
Lemma wk_sk : wk ≠ sk. Proof. apply stream_keys_distinct. Qed.
Lemma gk_sk : gk ≠ sk. Proof. apply stream_keys_distinct. Qed.
Hint Resolve wk_gk wk_sk gk_sk not_eq_sym : core.

Lemma check_writer_spec token g d :
  (owner d token g ∧ check_writer wk gk token (u64_to_string g) d = (Ok tt, d)) ∨
  (¬ owner d token g ∧ ∃ e, check_writer wk gk token (u64_to_string g) d = (Err e, d) ∧
     e ∈ [MISSING_WRITER_FENCE; STALE_WRITER_TOKEN; MISSING_WRITER_GENERATION;
          STALE_WRITER_GENERATION]).
Proof.
  unfold owner, check_writer, call_get, error_reply. rewrite gets_bind.
  destruct (r_get wk d) as [t|] eqn:Et; [|right].
  - destruct (String.eqb_spec t token) as [->|Hne]; cbn [negb]; [|right].
    + rewrite gets_bind. cbv zeta.
      destruct (r_get gk d) as [c|] eqn:Ec; cbn [default from_option id]; [|right].
      * destruct (String.eqb_spec c ""); [right|].
        -- subst. split; [|eexists; split; [done|set_solver]].
           intros [_ [= E]]. by destruct (u64_to_string_ne_nil g).
        -- destruct (String.eqb_spec c (u64_to_string g)) as [->|Hne]; [by left|right].
           split; [naive_solver|]. eexists. split; [done|set_solver].
      * split; [naive_solver|]. eexists. split; [done|set_solver].
    + split; [naive_solver|]. eexists. split; [done|set_solver].
  - split; [naive_solver|]. eexists. split; [done|set_solver].
Qed.

(** [script ;; k] after a successful check. *)
Lemma checked_run {A} token g d (k : stateR db string A) :
  (owner d token g ∧ (check_writer wk gk token (u64_to_string g) ;; k) d = k d) ∨
  (¬ owner d token g ∧ ∃ e, (check_writer wk gk token (u64_to_string g) ;; k) d = (Err e, d)).
Proof.
  unfold mbind, stateR_bind.
  destruct (check_writer_spec token g d) as [[Ho ->]|(Ho & e & -> & _)]; [by left|].
  right. split; [done|]. by exists e.
Qed.

Lemma owner_pexpire d token g : owner (r_pexpire wk ttl d) token g ↔ owner d token g.
Proof. unfold owner. by rewrite !get_pexpire. Qed.

Lemma xadd_owner d m id f token g :
  owner (call_xadd sk m id f d).2 token g ↔ owner d token g.
Proof. unfold owner, call_xadd. by rewrite !xadd_get by auto. Qed.

(** An append runs only behind its fence, and leaves the fence as it is. *)
Lemma append_fenced_spec token g m id f d r d' :
  APPEND_FENCED_SCRIPT sk wk gk token (u64_to_string g) ttl m id f d = (r, d') →
  (¬ owner d token g ∧ d' = d ∧ ∃ e, r = Err e) ∨
  (owner d token g ∧ owner d' token g ∧
   ((∃ first, r = Ok id ∧ r_xinfo sk d' = Ok (id, first)) ∨
    (∃ e, r = Err e ∧ r_xinfo sk d' = r_xinfo sk d))).
Proof.
  unfold APPEND_FENCED_SCRIPT. intros Ha.
  destruct (checked_run token g d (call_pexpire wk ttl ;; call_xadd sk m id f))
    as [[Ho E]|(Ho & e & E)]; rewrite E in Ha; clear E; [right|left].
  - change ((call_pexpire wk ttl ;; call_xadd sk m id f) d)
      with (call_xadd sk m id f (r_pexpire wk ttl d)) in Ha.
    split; [done|]. split.
    + replace d' with (call_xadd sk m id f (r_pexpire wk ttl d)).2 by by rewrite Ha.
      by apply xadd_owner, owner_pexpire.
    + destruct r as [r|e].
      * left. apply xadd_ok in Ha as (-> & (first & Hx) & _). by exists first.
      * right. exists e. split; [done|]. apply xadd_err in Ha as ->.
        by apply xinfo_pexpire.
  - injection Ha as <- <-. split; [done|]. split; [done|by exists e].
Qed.

(** The generation key holds [n], or nothing yet. *)
Definition keyed (n : N) (d : db) : Prop :=
  r_get gk d = Some (u64_to_string n) ∨ r_get gk d = None ∧ n = 0%N.
(** The stream's last entry is of generation [m]; zero when there is no stream. *)
Definition stream_at (m : N) (d : db) : Prop :=
  (∃ s first, r_xinfo sk d = Ok (entry_id_text m s, first)) ∨
  (m = 0%N ∧ ∃ e, r_xinfo sk d = Err e ∧ str_contains "no such key" e = true).

Lemma stream_generation_run {A} m d (k : N → stateR db string A) :
  stream_at m d → (m ≤ u64_max)%N → (stream_generation sk ≫= k) d = k m d.
Proof.
  intros Hst Hm. unfold stream_generation, mbind, stateR_bind, gets.
  destruct Hst as [(s & first & ->)|(-> & e & -> & ->)]; [|done].
  rewrite lua_match_entry_id, lua_tonumber_text by done. done.
Qed.

Lemma lua_tonumber_keyed n d :
  keyed n d → (n ≤ u64_max)%N → lua_tonumber (default "0" (r_get gk d)) = Some n.
Proof. intros [->|[-> ->]] Hn; [by apply lua_tonumber_text|done]. Qed.

(** The next generation is above the key's and the stream's; the token moves with
    it, and the marker is the first entry of the generation. *)
Lemma promotion_advance_spec token maxlen fields n m d r d' :
  keyed n d → stream_at m d → (N.max n m + 1 < lua_exact)%N →
  promotion_advance sk wk gk token ttl maxlen fields d = (r, d') →
  let g := (N.max n m + 1)%N in
  owner d' token g ∧
  ((r = Ok (u64_to_string g, entry_id_text g 1) ∧
    (∃ first, r_xinfo sk d' = Ok (entry_id_text g 1, first)) ∧
    (maxlen ≠ "0" → ∃ fs, r_xrange sk (entry_id_text g 1) d' =
                            Ok [(entry_id_text g 1, fs)])) ∨
   (∃ e, r = Err e ∧ r_xinfo sk d' = r_xinfo sk d)).
Proof.
  intros Hn Hm Hb Hrun. cbv zeta. assert (n < lua_exact ∧ m < lua_exact)%N as [Hn' Hm'] by lia.
  unfold promotion_advance, call_get in Hrun. rewrite gets_bind in Hrun.
  rewrite (lua_tonumber_keyed n d Hn) in Hrun by by apply exact_le.
  rewrite ret_bind in Hrun.
  rewrite (stream_generation_run m d _ Hm) in Hrun by by apply exact_le.
  set (d1 := if (n <? m)%N then r_set gk (u64_to_string m) d else d).
  assert (keyed (N.max n m) d1 ∧ r_xinfo sk d1 = r_xinfo sk d) as [Hk1 Hx1].
  { unfold d1. destruct (N.ltb_spec n m).
    - rewrite N.max_r by lia. split; [left; by rewrite get_set|by rewrite xinfo_set by auto].
    - by rewrite N.max_l by lia. }
  destruct (incr_ok gk (N.max n m) d1) as (d2 & Hincr & Hg2 & Hf2 & Hx2); [done|lia|].
  set (g := (N.max n m + 1)%N) in *.
  set (d3 := r_set_px wk token ttl d2).
  set (fs := map (λ fv, (fv.1, lua_gsub fv.2 GENERATION_PLACEHOLDER (lua_tostring g))) fields).
  rewrite (bind_run _ _ d tt d1) in Hrun by by unfold d1; destruct (n <? m)%N.
  rewrite (bind_run _ _ d1 _ d2 Hincr), modify_bind in Hrun. fold g d3 in Hrun. cbv zeta in Hrun.
  fold fs in Hrun. rename Hrun into Hrun'.
  rewrite exact_text, entry_id_first in Hrun' by done.
  assert (owner d3 token g) as Ho3.
  { unfold owner, d3. rewrite get_set_px, get_set_px_ne by auto. done. }
  assert (r_xinfo sk d3 = r_xinfo sk d) as Hx3.
  { unfold d3. rewrite xinfo_set_px, Hx2 by auto. done. }
  unfold mbind, stateR_bind in Hrun'.
  pose proof (xadd_owner d3 maxlen (entry_id_text g 1) fs token g) as Ho4.
  destruct (call_xadd sk maxlen (entry_id_text g 1) fs d3) as [[id|e] d4] eqn:Ex;
    injection Hrun' as <- <-; simpl in Ho4; (split; [by apply Ho4|]).
  - left. unfold call_xadd in Ex. apply xadd_ok in Ex as (_ & Hfirst & _ & Hr).
    split_and!; [done|done|]. intros Hmax. exists fs. apply Hr.
    destruct (String.eqb_spec maxlen ""); congruence.
  - right. exists e. split; [done|]. unfold call_xadd in Ex.
    by rewrite (xadd_err _ _ _ _ _ _ _ Ex).
Qed.

(** ** Promotions *)

(** [promote_locked]'s command: recovery expects the process's own token and its
    last generation. *)
Definition promote_script (token : string) (recovering : option N) (maxlen : string)
    (fields : list (string * string)) : stateR db string (string * string) :=
  PROMOTE_WRITER_SCRIPT sk wk gk token ttl maxlen
    (match recovering with Some _ => token | None => "" end)
    (match recovering with Some g => u64_to_string g | None => "" end) fields.

(** Reading the reply of an earlier promotion changes nothing but the lease. *)
Lemma promotion_reply_spec token d :
  (∃ e, promotion_reply sk wk gk token ttl d = (Err e, d)) ∨
  promotion_reply sk wk gk token ttl d = (Ok None, d) ∨
  (∃ g, r_get wk d = Some token ∧ r_get gk d = Some g ∧
     promotion_reply sk wk gk token ttl d = (Ok (Some (g, g +:+ "-1")), r_pexpire wk ttl d)).
Proof.
  unfold promotion_reply, call_get. rewrite !gets_bind. cbv zeta.
  destruct (bool_decide _ && _) eqn:Eb; [|by right; left].
  apply andb_true_iff in Eb as [Ht%bool_decide_eq_true Hg%negb_true_iff].
  destruct (r_get gk d) as [g|] eqn:Eg; [|done]. cbn [default from_option id].
  unfold call_xrange, mbind, stateR_bind. cbn.
  destruct (r_xrange sk (g +:+ "-1") d) as [marker|e]; [|by left; exists e].
  case_bool_decide; [|by right; left]. right. right. by exists g.
Qed.

Lemma promotion_reply_fresh token d :
  r_get wk d ≠ Some token → promotion_reply sk wk gk token ttl d = (Ok None, d).
Proof.
  intros Hne. unfold promotion_reply, call_get. rewrite !gets_bind. cbv zeta.
  by rewrite bool_decide_false.
Qed.

(** The checks of a recovery pass only for the fence's own process or an expired
    fence, and restore a lost generation key. *)
Lemma recovery_checks_spec token g d :
  (∃ e, promotion_recovery_checks wk gk token (u64_to_string g) d = (Err e, d)) ∨
  ((r_get wk d = None ∨ r_get wk d = Some token) ∧
   ((r_get gk d = Some (u64_to_string g) ∧
     promotion_recovery_checks wk gk token (u64_to_string g) d = (Ok tt, d)) ∨
    (default "" (r_get gk d) = "" ∧
     promotion_recovery_checks wk gk token (u64_to_string g) d =
       (Ok tt, r_set gk (u64_to_string g) d)))).
Proof.
  unfold promotion_recovery_checks, call_get. rewrite !gets_bind. cbv zeta.
  destruct (match r_get wk d with Some _ => _ | None => _ end) eqn:Ew;
    [left; by eexists|].
  assert (r_get wk d = None ∨ r_get wk d = Some token) as Hw.
  { destruct (r_get wk d) as [t|]; [right|by left].
    apply negb_false_iff, String.eqb_eq in Ew. by rewrite Ew. }
  destruct (String.eqb_spec (default "" (r_get gk d)) "") as [E|Hne].
  { right. split; [done|]. right. split; [done|]. by rewrite E. }
  destruct (String.eqb_spec (default "" (r_get gk d)) (u64_to_string g)) as [E|Hne'].
  - right. split; [done|]. left. destruct (r_get gk d); simpl in *; [|done].
    by rewrite E.
  - left. by eexists.
Qed.

(** ** Runs *)

(** The generation key holds [n], and no entry of the stream is of a later
    generation. *)
Definition fence_at (n : N) (d : db) : Prop :=
  r_get gk d = Some (u64_to_string n) ∧ ∃ m, (m ≤ n)%N ∧ stream_at m d.

Lemma stream_at_ext m d d' : r_xinfo sk d' = r_xinfo sk d → stream_at m d → stream_at m d'.
Proof. unfold stream_at. by intros ->. Qed.

Lemma fence_at_ext n d d' :
  r_get gk d' = r_get gk d → r_xinfo sk d' = r_xinfo sk d → fence_at n d → fence_at n d'.
Proof.
  intros Hg Hx [Hn (m & Hm & Hst)]. split; [by rewrite Hg|]. exists m.
  split; [done|]. by eapply stream_at_ext.
Qed.

Lemma advance_step n d token maxlen fields r d' :
  fence_at n d → (n + 1 < lua_exact)%N →
  promotion_advance sk wk gk token ttl maxlen fields d = (r, d') →
  fence_at (n + 1) d' ∧ owner d' token (n + 1) ∧
  (∀ reply, r = Ok reply → reply = (u64_to_string (n + 1), entry_id_text (n + 1) 1)).
Proof.
  intros [Hn (m & Hm & Hst)] Hb Hrun.
  apply (promotion_advance_spec token maxlen fields n m) in Hrun as [Ho Hr];
    [|by left|done|by rewrite N.max_l].
  rewrite N.max_l in Ho, Hr by done. split_and!; [|done|].
  - split; [apply Ho|]. destruct Hr as [(_ & (first & Hx) & _)|(e & _ & Hx)].
    + exists (n + 1)%N. split; [done|]. left. by exists 1%N, first.
    + exists m. split; [lia|]. by eapply stream_at_ext.
  - intros reply ->. destruct Hr as [([= ->] & _)|(e & [=] & _)]. done.
Qed.

Lemma promote_step n d token recovering maxlen fields r d' :
  fence_at n d → (n + 1 < lua_exact)%N →
  promote_script token recovering maxlen fields d = (r, d') →
  (fence_at n d' ∧ r_get wk d' = r_get wk d) ∨
  (fence_at (n + 1) d' ∧ owner d' token (n + 1)).
Proof.
  intros Hf Hb Hrun. pose proof Hf as [Hn _].
  unfold promote_script, PROMOTE_WRITER_SCRIPT in Hrun.
  set (expected := match recovering with Some _ => token | None => "" end) in *.
  destruct (String.eqb_spec expected "") as [He|He].
  - destruct (promotion_reply_spec token d) as [(e & E)|[E|(g & Hw & Hg & E)]].
    + rewrite (bind_run_err _ _ _ _ _ E) in Hrun. injection Hrun as <- <-. by left.
    + rewrite (bind_run _ _ _ _ _ E), ret_bind in Hrun. right.
      apply (advance_step n) in Hrun; tauto.
    + rewrite (bind_run _ _ _ _ _ E) in Hrun. injection Hrun as <- <-. left. split.
      * apply (fence_at_ext n d); [by rewrite get_pexpire|by rewrite xinfo_pexpire by auto|done].
      * by rewrite get_pexpire.
  - rewrite ret_bind in Hrun. destruct recovering as [g|]; [|done].
    unfold expected in Hrun.
    destruct (recovery_checks_spec token g d) as [(e & E)|(_ & [[Hg E]|[Hg E]])].
    + rewrite (bind_run_err _ _ _ _ _ E) in Hrun. injection Hrun as <- <-. by left.
    + rewrite (bind_run _ _ _ _ _ E) in Hrun. right. apply (advance_step n) in Hrun; tauto.
    + rewrite Hn in Hg. by destruct (u64_to_string_ne_nil n).
Qed.

Lemma stream_generation_ok d n d' :
  stream_generation sk d = (Ok n, d') → d' = d ∧ (n ≤ u64_max)%N.
Proof.
  unfold stream_generation. rewrite gets_bind. destruct (r_xinfo sk d) as [[last first]|e].
  - destruct (lua_match_generation last) as [s|]; 
      [|intros [= <- <-]; split; [done|apply N.le_0_l]].
    unfold lua_tonumber. destruct (String.eqb s ""); [done|]. destruct (all_digits s); [|done].
    destruct (parse_digits 0 s) as [k|] eqn:Ek; [|done]. intros [= <- <-].
    split; [done|]. apply (parse_digits_bound 0 s k); [apply N.le_0_l|done].
  - destruct (str_contains "no such key" e); [|done]. intros [= <- <-].
    split; [done|apply N.le_0_l].
Qed.

Lemma advance_reply_later token g maxlen fields d a b r d' :
  (g ≤ u64_max)%N → r_get gk d = Some (u64_to_string g) →
  promotion_advance sk wk gk token ttl maxlen fields d = (Ok (a, b), d') →
  parse_u64 a = Some r → (g < r)%N.
Proof.
  intros Hg Hk Hrun Ha. unfold promotion_advance, call_get in Hrun. rewrite gets_bind, Hk in Hrun.
  cbn [default from_option id] in Hrun. rewrite lua_tonumber_text, ret_bind in Hrun by done.
  apply stateR_bind_ok in Hrun as (m & d1 & Hm & Hrun).
  apply stream_generation_ok in Hm as [-> Hmb].
  set (d1 := if (g <? m)%N then r_set gk (u64_to_string m) d else d).
  assert (r_get gk d1 = Some (u64_to_string (N.max g m))) as Hk1.
  { unfold d1. destruct (N.ltb_spec g m); [rewrite N.max_r by lia; apply get_set|].
    by rewrite N.max_l by lia. }
  rewrite (bind_run _ _ d tt d1) in Hrun by by unfold d1; destruct (g <? m)%N.
  apply stateR_bind_ok in Hrun as (n & d2 & Hincr & Hrun).
  apply (incr_value _ _ _ _ _ Hk1) in Hincr as ->; [|lia].
  rewrite modify_bind in Hrun. cbv zeta in Hrun.
  apply stateR_bind_ok in Hrun as (? & ? & _ & [[= -> _] _]%mret_ok).
  unfold lua_tostring in Ha. revert Ha.
  destruct (N.ltb_spec (N.max g m + 1) lua_exact); intros Ha.
  - rewrite parse_u64_to_string in Ha; [injection Ha as <-; lia|by apply exact_le].
  - by rewrite g14_not_decimal in Ha.
Qed.

(** Whatever the data, a recovering promotion that answers does so with a later
    generation than the caller's. *)
Lemma recovery_reply_later token g maxlen fields d a b r d' :
  token ≠ "" → (g ≤ u64_max)%N →
  promote_script token (Some g) maxlen fields d = (Ok (a, b), d') →
  parse_u64 a = Some r → (g < r)%N.
Proof.
  intros Htok Hg Hrun Ha. unfold promote_script, PROMOTE_WRITER_SCRIPT in Hrun.
  destruct (String.eqb_spec token ""); [done|]. rewrite ret_bind in Hrun.
  assert (∃ d1, r_get gk d1 = Some (u64_to_string g) ∧
    promotion_advance sk wk gk token ttl maxlen fields d1 = (Ok (a, b), d')) as (d1 & Hd1 & Hadv).
  { destruct (recovery_checks_spec token g d) as [(e & E)|(_ & [[Hk E]|[_ E]])].
    - by rewrite (bind_run_err _ _ _ _ _ E) in Hrun.
    - rewrite (bind_run _ _ _ _ _ E) in Hrun. by exists d.
    - rewrite (bind_run _ _ _ _ _ E) in Hrun. eexists. split; [apply get_set|done]. }
  by eapply advance_reply_later.
Qed.

(** A promotion whose reply was lost, sent again. *)
Lemma promote_retry token maxlen fields n m d reply d' :
  keyed n d → stream_at m d → (N.max n m + 1 < lua_exact)%N →
  r_get wk d ≠ Some token → maxlen ≠ "0" →
  promote_script token None maxlen fields d = (Ok reply, d') →
  promote_script token None maxlen fields d' = (Ok reply, r_pexpire wk ttl d').
Proof.
  intros Hn Hm Hb Hne Hmax Hrun. unfold promote_script, PROMOTE_WRITER_SCRIPT in Hrun |- *.
  simpl in Hrun |- *.
  rewrite (bind_run _ _ _ _ _ (promotion_reply_fresh token d Hne)) in Hrun.
  rewrite ret_bind in Hrun.
  apply (promotion_advance_spec token maxlen fields n m) in Hrun as [[Hw Hg] Hr];
    [|done..].
  destruct Hr as [([= ->] & _ & Hrange)|(e & [=] & _)]. destruct (Hrange Hmax) as [fs Hfs].
  enough (promotion_reply sk wk gk token ttl d' =
          (Ok (Some (u64_to_string (N.max n m + 1), entry_id_text (N.max n m + 1) 1)),
           r_pexpire wk ttl d')) as Hreply
    by by rewrite (bind_run _ _ _ _ _ Hreply).
  unfold promotion_reply, call_get. rewrite !gets_bind. cbv zeta. rewrite Hw, Hg. cbn [default from_option id].
  rewrite bool_decide_true by done.
  destruct (String.eqb_spec (u64_to_string (N.max n m + 1)) "") as [E|_];
    [by destruct (u64_to_string_ne_nil (N.max n m + 1))|]. cbn [negb andb].
  rewrite entry_id_first. unfold call_xrange, mbind, stateR_bind. by rewrite Hfs.
Qed.

(** What can happen to the stream between two commands of a process: the scripts
    of any process, whatever token and generation it claims, and the elapse of the
    writer's lease.  Entries carry ids of the generation they claim. *)
Inductive writer_op :=
| OpPromote (token : string) (recovering : option N) (maxlen : string)
    (fields : list (string * string))
| OpAppend (token : string) (g : N) (maxlen : string) (seq : N)
    (fields : list (string * string))
| OpRenew (token : string) (g : N)
| OpVerify (token : string) (g : N)
| OpExpire.

Definition append_script (token : string) (g : N) (maxlen : string) (seq : N)
    (fields : list (string * string)) : stateR db string string :=
  APPEND_FENCED_SCRIPT sk wk gk token (u64_to_string g) ttl maxlen (entry_id_text g seq) fields.

Definition run_op (op : writer_op) (d : db) : db :=
  match op with
  | OpPromote token recovering maxlen fields =>
      (promote_script token recovering maxlen fields d).2
  | OpAppend token g maxlen seq fields => (append_script token g maxlen seq fields d).2
  | OpRenew token g => (RENEW_WRITER_SCRIPT wk gk token (u64_to_string g) ttl d).2
  | OpVerify token g => (VERIFY_WRITER_SCRIPT wk gk token (u64_to_string g) d).2
  | OpExpire => r_expire wk d
  end.

Definition run_ops (ops : list writer_op) (d : db) : db := foldl (flip run_op) d ops.

(** The token of generation [n] can only be lost, not replaced, while the generation
    stays. *)
Definition same_holder (d d' : db) : Prop := ∀ t, r_get wk d' = Some t → r_get wk d = Some t.

Lemma owner_generation n d token g :
  fence_at n d → (n < lua_exact)%N → (g < lua_exact)%N → owner d token g → g = n.
Proof.
  intros [Hn _] Hb Hg [_ Ho]. rewrite Hn in Ho. injection Ho as Ho.
  symmetry. apply u64_to_string_inj; [by apply exact_le..|done].
Qed.

Lemma run_op_step n d op :
  fence_at n d → (n + 1 < lua_exact)%N →
  (∀ token g m seq f, op = OpAppend token g m seq f → (g < lua_exact)%N) →
  ∃ n', (n ≤ n' ≤ n + 1)%N ∧ fence_at n' (run_op op d) ∧
    (n' = n → same_holder d (run_op op d)).
Proof.
  intros Hf Hb Hop. destruct op as [token rec m f|token g m seq f|token g|token g|]; simpl.
  - destruct (promote_script token rec m f d) as [r d'] eqn:E. simpl.
    apply (promote_step n) in E as [[Hf' Hw]|[Hf' Ho]]; [| |done|done].
    + exists n. split_and!; [lia|lia|done|]. intros _ t. by rewrite Hw.
    + exists (n + 1)%N. split_and!; [lia|lia|done|lia].
  - destruct (append_script token g m seq f d) as [r d'] eqn:E. simpl. exists n.
    split; [lia|]. unfold append_script in E.
    apply append_fenced_spec in E as [(_ & -> & _)|(Ho & [Hw Hg] & Hr)];
      [by split; [|intros _ t]|].
    pose proof (Hop _ _ _ _ _ eq_refl) as Hgb.
    pose proof (owner_generation n d token g Hf ltac:(lia) Hgb Ho) as ->.
    destruct Ho as [Hw0 _]. split.
    + split; [done|]. destruct Hr as [(first & _ & Hx)|(e & _ & Hx)].
      * exists n. split; [done|]. left. by exists seq, first.
      * destruct Hf as [_ (k & Hk & Hst)]. exists k. split; [done|]. by eapply stream_at_ext.
    + intros _ t. by rewrite Hw, Hw0.
  - exists n. split; [lia|].
    destruct (checked_run token g d (call_pexpire wk ttl ;; mret "OK")) as [[_ E]|(_ & e & E)];
      unfold RENEW_WRITER_SCRIPT; rewrite E; [|by split; [|intros _ t]].
    unfold call_pexpire. rewrite modify_bind. cbn [mret stateR_ret snd]. split.
    + apply (fence_at_ext n d); [by rewrite get_pexpire|by rewrite xinfo_pexpire by auto|done].
    + intros _ t. by rewrite get_pexpire.
  - exists n. split; [lia|].
    destruct (checked_run token g d (mret "OK")) as [[_ E]|(_ & e & E)];
      unfold VERIFY_WRITER_SCRIPT; rewrite E; (split; [done|by intros _ t]).
  - exists n. split; [lia|]. split.
    + apply (fence_at_ext n d); [by rewrite get_expire_ne by auto|by rewrite xinfo_expire by auto|done].
    + intros _ t. by rewrite get_expire.
Qed.

(** The entries of a run belong to generations Lua prints exactly. *)
Definition op_bounded (op : writer_op) : Prop :=
  match op with OpAppend _ g _ _ _ => (g < lua_exact)%N | _ => True end.

Lemma run_ops_fence ops n d :
  fence_at n d → (n + len ops < lua_exact)%N → Forall op_bounded ops →
  ∃ n', (n ≤ n' < lua_exact)%N ∧ fence_at n' (run_ops ops d) ∧
    (n' = n → same_holder d (run_ops ops d)).
Proof.
  revert n d. induction ops as [|op ops IH]; intros n d Hf Hb Hall.
  { unfold len in Hb. simpl in Hb. exists n. split_and!; [lia|lia|done|by intros _ t]. }
  apply Forall_cons in Hall as [Hop Hall]. unfold len in Hb. simpl in Hb.
  destruct (run_op_step n d op) as (n1 & Hn1 & Hf1 & Hs1); [done|lia|by intros * ->|].
  destruct (IH n1 (run_op op d)) as (n2 & Hn2 & Hf2 & Hs2); [done|unfold len; lia|done|].
  exists n2. split_and!; [lia|lia|done|]. intros -> t Ht.
  apply Hs1; [lia|]. apply Hs2; [lia|done].
Qed.
End fence.

(** ** A concrete Redis, for the witnesses *)

Record demo_db := {
  demo_keys : gmap string string;
  demo_streams : gmap string (string * list (string * list (string * string)));
}.

Definition demo_set (k v : string) (d : demo_db) : demo_db :=
  {| demo_keys := <[k := v]> (demo_keys d); demo_streams := demo_streams d |}.

Definition demo_incr (k : string) (d : demo_db) : result string N * demo_db :=
  match parse_u64 (default "0" (demo_keys d !! k)) with
  | Some n => (Ok (n + 1)%N, demo_set k (u64_to_string (n + 1)) d)
  | None => (Err "ERR value is not an integer or out of range", d)
  end.

Definition demo_add (s id : string) (f : list (string * string))
    (es : list (string * list (string * string))) (d : demo_db) : demo_db :=
  {| demo_keys := demo_keys d; demo_streams := <[s := (id, es ++ [(id, f)])]> (demo_streams d) |}.

Definition demo_xadd (s : string) (m : option string) (id : string)
    (f : list (string * string)) (d : demo_db) : result string string * demo_db :=
  match parse_redis_entry_id id, demo_streams d !! s with
  | Ok _, None => (Ok id, demo_add s id f [] d)
  | Ok b, Some (last, ids) =>
      match parse_redis_entry_id last with
      | Ok a =>
          if id_ltb a b then (Ok id, demo_add s id f ids d)
          else (Err "ERR The ID specified in XADD is equal or smaller", d)
      | Err _ => (Err "ERR stream", d)
      end
  | Err _, _ => (Err "ERR Invalid stream ID specified as stream command argument", d)
  end.

Definition demo_xinfo (s : string) (d : demo_db) : result string (string * option string) :=
  match demo_streams d !! s with
  | None => Err "ERR no such key"
  | Some (last, es) => Ok (last, head es.*1)
  end.

Definition demo_store : RedisStore := {|
  db := demo_db;
  r_get k d := demo_keys d !! k;
  r_set := demo_set;
  r_set_px k v _ := demo_set k v;
  r_incr := demo_incr;
  r_pexpire _ _ d := d;
  r_xadd := demo_xadd;
  r_xrange s id d :=
    Ok (match demo_streams d !! s with
        | Some (_, es) => take 1 (filter (λ e, e.1 = id) (reverse es))
        | None => []
        end);
  r_xinfo := demo_xinfo;
  r_expire k d :=
    {| demo_keys := delete k (demo_keys d); demo_streams := demo_streams d |};
  lua_g14 n := "1e+14";
|}.

Lemma demo_xadd_ok s m id f d r d' :
  demo_xadd s m id f d = (Ok r, d') →
  r = id ∧ ∃ ids, d' = demo_add s id f ids d ∧
    (∀ last first a b, demo_xinfo s d = Ok (last, first) → parse_redis_entry_id last = Ok a →
       parse_redis_entry_id id = Ok b → id_lt a b).
Proof.
  unfold demo_xadd, demo_xinfo. intros Hx.
  destruct (parse_redis_entry_id id) as [b|]; [|done].
  destruct (demo_streams d !! s) as [[last ids]|].
  - destruct (parse_redis_entry_id last) as [a|] eqn:Ea; [|done].
    destruct (id_ltb a b) eqn:Eb; [|done]. injection Hx as <- <-. split; [done|].
    exists ids. split; [done|]. intros last' first a' b' [= <- <-] Ha [= <-].
    rewrite Ea in Ha. injection Ha as <-. by apply id_ltb_lt.
  - injection Hx as <- <-. split; [done|]. by exists [].
Qed.

Lemma demo_xadd_err s m id f d e d' : demo_xadd s m id f d = (Err e, d') → d' = d.
Proof.
  unfold demo_xadd. intros Hx.
  destruct (parse_redis_entry_id id), (demo_streams d !! s) as [[last ids]|];
    try (by injection Hx as _ <-); try done.
  destruct (parse_redis_entry_id last); [|by injection Hx as _ <-].
  destruct (id_ltb _ _); [done|by injection Hx as _ <-].
Qed.

Lemma demo_store_laws : @RedisStoreLaws demo_store.
Proof.
  split; simpl; try done.
  - intros k v d. apply lookup_insert_eq.
  - intros k k' v d Hne. by apply lookup_insert_ne.
  - intros k v t d _. apply lookup_insert_eq.
  - intros k k' v t d Hne. by apply lookup_insert_ne.
  - intros k d. apply lookup_delete_eq.
  - intros k k' d Hne. by apply lookup_delete_ne.
  - intros k n d Hn Hb. exists (demo_set k (u64_to_string (n + 1)) d).
    assert (parse_u64 (default "0" (demo_keys d !! k)) = Some n) as Hp.
    { destruct Hn as [->|[-> ->]]; [|done]. by apply parse_u64_to_string, exact_le. }
    unfold demo_incr. rewrite Hp. split_and!; [done|apply lookup_insert_eq| |done].
    intros k' Hne. by apply lookup_insert_ne.
  - intros s m id f d k _. unfold demo_xadd.
    destruct (parse_redis_entry_id id), (demo_streams d !! s) as [[last ids]|]; try done.
    destruct (parse_redis_entry_id last); [|done]. by destruct (id_ltb _ _).
  - intros s m id f d r d' (-> & ids & -> & Hlt)%demo_xadd_ok.
    split_and!; [done| |done|].
    + eexists. unfold demo_xinfo, demo_add. simpl. by rewrite lookup_insert_eq.
    + intros _. unfold demo_add. simpl. rewrite lookup_insert_eq.
      rewrite reverse_app, filter_app, reverse_singleton, filter_cons_True, filter_nil by done.
      done.
  - intros s m id f d e d' Hx. by rewrite (demo_xadd_err _ _ _ _ _ _ _ Hx).
  - intros s m id f d e d' i Hx. by rewrite (demo_xadd_err _ _ _ _ _ _ _ Hx).
  - intros k n d r d' Hn Hle. unfold demo_incr. rewrite Hn. cbn [default from_option id].
    by rewrite parse_u64_to_string by done; intros [= <- _].
Qed.

(** ** Properties *)

(** An append reaches the stream only while its writer holds the token and the
    current generation; refused by the fence it changes nothing, admitted it leaves
    the fence in place, and its entry is the last of the stream. *)
Lemma append_needs_fence `{RedisStoreLaws} sk ttl token g maxlen seq fields d r d' :
  (0 < ttl)%N →
  append_script sk ttl token g maxlen seq fields d = (r, d') →
  (¬ owner sk d token g ∧ d' = d ∧ ∃ e, r = Err e) ∨
  (owner sk d token g ∧ owner sk d' token g ∧
   ((∃ first, r = Ok (entry_id_text g seq) ∧
       r_xinfo sk d' = Ok (entry_id_text g seq, first)) ∨
    (∃ e, r = Err e ∧ r_xinfo sk d' = r_xinfo sk d))).
Proof. intros Httl. by apply append_fenced_spec. Qed.

(** A new writer gets the generation after both the counter and the stream's last
    entry, even when the counter was lost; the token, the counter and the marker
    entry move together. *)
Theorem promotion_takes_next_generation `{RedisStoreLaws} sk ttl token maxlen fields n m d
    reply d' :
  (0 < ttl)%N → keyed sk n d → stream_at sk m d → (N.max n m + 1 < lua_exact)%N →
  r_get (redis_writer_key sk) d ≠ Some token →
  promote_script sk ttl token None maxlen fields d = (Ok reply, d') →
  let g := (N.max n m + 1)%N in
  reply = (u64_to_string g, entry_id_text g 1) ∧ owner sk d' token g ∧ fence_at sk g d' ∧
  ∃ first, r_xinfo sk d' = Ok (entry_id_text g 1, first).
Proof.
  intros Httl Hn Hm Hb Hne Hrun. cbv zeta. unfold promote_script, PROMOTE_WRITER_SCRIPT in Hrun.
  simpl in Hrun. rewrite (bind_run _ _ _ _ _ (promotion_reply_fresh sk ttl token d Hne)) in Hrun.
  rewrite ret_bind in Hrun.
  apply (promotion_advance_spec sk ttl Httl token maxlen fields n m) in Hrun as [Ho Hr]; [|done..].
  destruct Hr as [([= ->] & (first & Hx) & _)|(e & [=] & _)].
  split_and!; [done|done| |by exists first].
  split; [apply Ho|]. eexists. split; [done|]. left. by exists 1%N, first.
Qed.

(** A promotion retried after a lost reply returns the reply of the first one: no
    second generation, no second marker. *)
Lemma promotion_retry_same_reply `{RedisStoreLaws} sk ttl token maxlen fields n m d reply d' :
  (0 < ttl)%N → keyed sk n d → stream_at sk m d → (N.max n m + 1 < lua_exact)%N →
  r_get (redis_writer_key sk) d ≠ Some token → maxlen ≠ "0" →
  promote_script sk ttl token None maxlen fields d = (Ok reply, d') →
  promote_script sk ttl token None maxlen fields d' =
    (Ok reply, r_pexpire (redis_writer_key sk) ttl d').
Proof. intros Httl Hn Hm Hb Hne Hmax. by apply (promote_retry sk ttl Httl) with n m. Qed.

(** A recovering process never displaces another writer: its promotion goes
    through only over its own or an expired lease, with the counter at its own last
    generation or lost, and then takes a later generation. *)
Theorem recovery_promotion_guard `{RedisStoreLaws} sk ttl token g maxlen fields m d reply d' :
  (0 < ttl)%N → token ≠ "" → r_get (redis_writer_generation_key sk) d ≠ Some "" →
  stream_at sk m d → (N.max g m + 1 < lua_exact)%N →
  promote_script sk ttl token (Some g) maxlen fields d = (Ok reply, d') →
  (r_get (redis_writer_key sk) d = None ∨ r_get (redis_writer_key sk) d = Some token) ∧
  (r_get (redis_writer_generation_key sk) d = None ∨
   r_get (redis_writer_generation_key sk) d = Some (u64_to_string g)) ∧
  reply = (u64_to_string (N.max g m + 1), entry_id_text (N.max g m + 1) 1) ∧
  owner sk d' token (N.max g m + 1).
Proof.
  intros Httl Htok Hnil Hm Hb Hrun. unfold promote_script, PROMOTE_WRITER_SCRIPT in Hrun.
  destruct (String.eqb_spec token ""); [done|]. rewrite ret_bind in Hrun.
  destruct (recovery_checks_spec sk token g d) as [(e & E)|(Hw & Hg)].
  { by rewrite (bind_run_err _ _ _ _ _ E) in Hrun. }
  split; [done|].
  assert (∃ d1, promotion_advance sk (redis_writer_key sk) (redis_writer_generation_key sk)
                  token ttl maxlen fields d1 = (Ok reply, d') ∧
            keyed sk g d1 ∧ stream_at sk m d1 ∧
            (r_get (redis_writer_generation_key sk) d = None ∨
             r_get (redis_writer_generation_key sk) d = Some (u64_to_string g)))
    as (d1 & Hadv & Hk & Hs & Hgk).
  { destruct Hg as [[Hg E]|[Hg E]]; rewrite (bind_run _ _ _ _ _ E) in Hrun.
    - exists d. split_and!; [done|by left|done|by right].
    - eexists. split; [done|]. split; [left; apply get_set|]. split.
      + eapply stream_at_ext; [|done]. apply xinfo_set, stream_keys_distinct.
      + left. destruct (r_get _ d); simpl in *; congruence. }
  split; [done|].
  apply (promotion_advance_spec sk ttl Httl token maxlen fields g m) in Hadv as [Ho Hr]; [|done..].
  by destruct Hr as [([= ->] & _)|(e & [=] & _)].
Qed.

(** C2: one writer per generation: whatever promotions, appends, renewals and lease
    expiries any process causes after a promotion, an append of that generation
    succeeds only for the promoted token. *)
Theorem single_writer_per_generation `{RedisStoreLaws} sk ttl ops token g d token' maxlen seq
    fields id d' :
  (0 < ttl)%N → fence_at sk g d → owner sk d token g →
  (g + len ops < lua_exact)%N → Forall op_bounded ops →
  append_script sk ttl token' g maxlen seq fields (run_ops sk ttl ops d) = (Ok id, d') →
  token' = token.
Proof.
  intros Httl Hf [Hw Hg] Hb Hall Happ.
  destruct (run_ops_fence sk ttl Httl ops g d Hf Hb Hall) as (n' & Hn' & Hf' & Hsame).
  apply append_fenced_spec in Happ as [(_ & _ & e & [=])|(Ho & _)]; [|done].
  assert (g = n') as <- by by eapply owner_generation; [..|done]; try done; lia.
  destruct Ho as [Ho _]. apply Hsame in Ho; [|done]. congruence.
Qed.

(** Fenced out for good: once the counter is past a generation, no run of
    operations lets an append of that generation through again, and the attempt
    leaves Redis as it was. *)
Theorem superseded_writer_is_fenced_out `{RedisStoreLaws} sk ttl ops n g d token maxlen seq
    fields r d' :
  (0 < ttl)%N → fence_at sk n d → (g < n)%N →
  (n + len ops < lua_exact)%N → Forall op_bounded ops →
  append_script sk ttl token g maxlen seq fields (run_ops sk ttl ops d) = (r, d') →
  d' = run_ops sk ttl ops d ∧ ∃ e, r = Err e.
Proof.
  intros Httl Hf Hlt Hb Hall Happ.
  destruct (run_ops_fence sk ttl Httl ops n d Hf Hb Hall) as (n' & Hn' & Hf' & _).
  apply append_fenced_spec in Happ as [(_ & -> & e & ->)|(Ho & _)]; [by split; [|exists e]| |done].
  exfalso. assert (g = n') as -> by by eapply owner_generation; [..|done]; try done; lia. lia.
Qed.

(** ** Witnesses *)

Definition demo_empty : demo_db := {| demo_keys := ∅; demo_streams := ∅ |}.

Definition demo_promoted : demo_db :=
  (@promote_script demo_store "events" 30000 "writer-a" None "" [("kind", "progress")]
     demo_empty).2.

(** A second writer takes over, after which the first one still tries. *)
Definition demo_ops : list (@writer_op) :=
  [OpAppend "writer-a" 1 "" 2 [("kind", "heartbeat")];
   OpPromote "writer-b" None "" [("kind", "progress")];
   OpAppend "writer-b" 2 "" 2 [("kind", "update")]; OpExpire].

Lemma promotion_takes_next_generation_witness :
  @owner demo_store "events" demo_promoted "writer-a" 1.
Proof.
  destruct (@promotion_takes_next_generation demo_store demo_store_laws "events" 30000 "writer-a"
              "" [("kind", "progress")] 0 0 demo_empty ("1", "1-1") demo_promoted)
    as (_ & Ho & _); [lia|by right|right|vm_compute; done|by vm_compute|by vm_compute|exact Ho].
  split; [done|]. exists "ERR no such key". by split; vm_compute.
Defined.

(** The lease of generation 1 has expired. *)
Definition demo_lapsed : demo_db := @r_expire demo_store "events:writer" demo_promoted.

Lemma recovery_promotion_guard_witness :
  @owner demo_store "events"
    (@promote_script demo_store "events" 30000 "writer-a" (Some 1%N) "" [] demo_lapsed).2
    "writer-a" 2.
Proof.
  eapply (@recovery_promotion_guard demo_store demo_store_laws "events" 30000 "writer-a" 1 "" []
            1 demo_lapsed ("2", "2-1"));
    [lia|done|by vm_compute|left|vm_compute; done|by vm_compute].
  exists 1%N, (Some "1-1"). by vm_compute.
Defined.

Lemma demo_promoted_fence : @fence_at demo_store "events" 1 demo_promoted.
Proof.
  split; [by vm_compute|]. exists 1%N. split; [done|]. left. exists 1%N, (Some "1-1").
  by vm_compute.
Defined.

(** After a renewal of generation 1, its writer appends and another token does not. *)
Lemma single_writer_per_generation_witness :
  let d := @run_ops demo_store "events" 30000 [OpRenew "writer-a" 1] demo_promoted in
  (@append_script demo_store "events" 30000 "writer-a" 1 "" 2 [] d).1 = Ok "1-2" ∧
  (@append_script demo_store "events" 30000 "writer-b" 1 "" 2 [] d).1 ≠ Ok "1-2".
Proof.
  cbv zeta. split; [by vm_compute|]. intros E.
  assert ("writer-b" = "writer-a") as Heq; [|discriminate Heq].
  refine (@single_writer_per_generation demo_store demo_store_laws "events" 30000
            [OpRenew "writer-a" 1] "writer-a" 1 demo_promoted "writer-b" "" 2 [] "1-2"
            (@append_script demo_store "events" 30000 "writer-b" 1 "" 2 []
               (@run_ops demo_store "events" 30000 [OpRenew "writer-a" 1] demo_promoted)).2
            _ demo_promoted_fence _ _ _ _);
    [lia|by split; vm_compute|by vm_compute| |rewrite <-E; by apply surjective_pairing].
  by repeat constructor.
Defined.

Definition demo_taken_over : demo_db :=
  @run_ops demo_store "events" 30000 demo_ops demo_promoted.

Lemma superseded_writer_is_fenced_out_witness :
  @append_script demo_store "events" 30000 "writer-a" 1 "" 3 [] demo_taken_over =
    (Err "missing Redis broadcaster writer fence", demo_taken_over).
Proof.
  set (d2 := @run_ops demo_store "events" 30000 (firstn 2 demo_ops) demo_promoted).
  destruct (@append_script demo_store "events" 30000 "writer-a" 1 "" 3 [] demo_taken_over)
    as [r d'] eqn:E.
  destruct (@superseded_writer_is_fenced_out demo_store demo_store_laws "events" 30000
              (skipn 2 demo_ops) 2 1 d2 "writer-a" "" 3 [] r d') as [-> _].
  - lia.
  - split; [by vm_compute|]. exists 2%N. split; [done|]. left. exists 1%N, (Some "1-1").
    by vm_compute.
  - lia.
  - by vm_compute.
  - by repeat constructor.
  - exact E.
  - vm_compute in E. injection E as <-. reflexivity.
Defined.
