(* ===== verification/Recovery.v ===== *)
(** * Recovery transactions and entry sizes

    [runtime/src/broadcaster/redis_publisher.rs], the parts that prepare entries: the
    publisher's errors and configuration, the names of streams and snapshots, the
    size of an [XADD] on the wire, the fragments of a replacement snapshot and the
    whole run of entries of a recovery transaction. *)

From S2P Require Import Prelude Ordered Text Protocol Wire Validate Codec RedisEntry Replay.

(** ** Errors

    An [anyhow::Error]: the contexts, outermost first, and the root, which the code
    may look at with [downcast_ref]. *)

Inductive RootError :=
| Message (message : string)
| Contract (error : BroadcasterContractError)
| OversizedRedisEntry (kind : BroadcasterMessageKind) (encoded_bytes limit_bytes : usize)
| RecoveryPublicationCancelled
| RecoveryCommitAdoptionUncertain (message : string).

Record AnyhowError := { error_context : list string; error_root : RootError }.

Abbreviation anyhow := (result AnyhowError).

Definition RootError_fmt (root : RootError) : string :=
  match root with
  | Message message => message
  | Contract error => BroadcasterContractError_fmt error
  | OversizedRedisEntry kind encoded_bytes limit_bytes =>
      "encoded Redis " +:+ BroadcasterMessageKind_as_str kind +:+ " entry is "
        +:+ u64_to_string encoded_bytes +:+ " bytes, above the "
        +:+ u64_to_string limit_bytes +:+ " byte limit"
  | RecoveryPublicationCancelled =>
      "Redis broadcaster recovery publication was cancelled"
  | RecoveryCommitAdoptionUncertain message =>
      "Redis recovery commit may be authoritative but could not be adopted: " +:+ message
  end.

(** [format!("{error:#}")], and [error.to_string()]. *)
Definition error_chain (error : AnyhowError) : string :=
  str_join ": " (error_context error ++ [RootError_fmt (error_root error)]).
Definition error_to_string (error : AnyhowError) : string :=
  default (RootError_fmt (error_root error)) (head (error_context error)).

Definition anyhow_error (message : string) : AnyhowError :=
  {| error_context := []; error_root := Message message |}.
Definition anyhow_bail {A} (message : string) : anyhow A := Err (anyhow_error message).
Definition from_contract {A} (r : contract A) : anyhow A :=
  map_err (λ e, {| error_context := []; error_root := Contract e |}) r.
Definition with_context {A} (context : string) (r : anyhow A) : anyhow A :=
  map_err (λ e, {| error_context := context :: error_context e; error_root := error_root e |}) r.
(** [parse::<u64>().with_context(..)]. *)
Definition parse_u64_context (context s : string) : anyhow u64 :=
  with_context context (map_err anyhow_error (parse_u64_result s)).

Definition STALE_WRITER_MESSAGE : string := "stale Redis broadcaster writer".
Definition MISSING_FENCE_MESSAGE : string := "missing Redis broadcaster writer fence".
Definition APPEND_EXHAUSTED_MESSAGE : string :=
  "Redis broadcaster stream append retry window exhausted".

Definition is_stale_writer_error (error : AnyhowError) : bool :=
  str_contains STALE_WRITER_MESSAGE (error_chain error).

(** ** Configuration and names *)

Record BroadcasterRedisPublisherConfig := {
  stream_key : string;
  config_chain_id : u64;
  append_retry_window : Duration;
  maxlen : option u64;
  writer_lease_ttl : Duration;
  recovery_max_buffered_native_blocks : usize;
}.

Definition MIN_WRITER_LEASE_TTL : Duration := from_secs 30.
Definition WRITER_LEASE_HEARTBEAT_MULTIPLIER : u32 := 3.
Definition RECOVERY_REDIS_ENTRY_MAX_BYTES : usize := 4 * 1024 * 1024.
Definition LIVE_REDIS_ENTRY_MAX_BYTES : usize := 8 * 1024 * 1024.
Definition RECOVERY_FRAGMENT_TARGET_BYTES : usize := 3500000.
Definition MAX_PENDING_RECOVERY_PAYLOADS : usize := 1024.

Definition writer_lease_ttl_for_heartbeat_interval (heartbeat_interval : Duration) : Duration :=
  N.max (duration_saturating_mul heartbeat_interval WRITER_LEASE_HEARTBEAT_MULTIPLIER)
    MIN_WRITER_LEASE_TTL.

Definition lease_ttl_ms (lease_ttl : Duration) : u64 := N.min (as_millis lease_ttl) u64_max.

Definition format_redis_stream_id (chain_id generation : u64) : string :=
  "chain-" +:+ u64_to_string chain_id +:+ "-stream-" +:+ u64_to_string generation.
Definition format_redis_snapshot_id (chain_id generation : u64) : string :=
  "chain-" +:+ u64_to_string chain_id +:+ "-snapshot-" +:+ u64_to_string generation.

(** [generation.saturating_mul(1u64 << 48)]. *)
Definition state_version_base (generation : u64) : u64 :=
  saturating_mul generation (N.shiftl 1 48).

Definition backends_dedup_step (b : BroadcasterBackend) (acc : list BroadcasterBackend) :
    list BroadcasterBackend :=
  match acc with
  | c :: _ => if decide (b = c) then acc else b :: acc
  | [] => [b]
  end.
(** [backends.sort(); backends.dedup()]. *)
Definition backends_from_base_heads (base_heads : list BroadcasterBackendHead) :
    list BroadcasterBackend :=
  foldr backends_dedup_step [] (sort (map bh_backend base_heads)).

(** The id under which the publisher stores an entry: the stream's generation and the
    message sequence. *)
Definition publisher_redis_entry_id (entry : BroadcasterRedisStreamEntry) : anyhow string :=
  match rsplit_once dash (stream_id entry) with
  | None => anyhow_bail "Redis broadcaster stream_id is missing generation"
  | Some (_, generation) =>
      g ← parse_u64_context
            ("Redis broadcaster stream_id has invalid generation: " +:+ generation) generation;
      Ok (entry_id_text g (message_seq entry))
  end.

Definition publisher_parse_redis_entry_id (entry_id : string) : anyhow (u64 * u64) :=
  match split_once dash entry_id with
  | None => anyhow_bail ("invalid Redis stream entry id: " +:+ entry_id)
  | Some (generation, sequence) =>
      g ← parse_u64_context ("invalid Redis stream generation in " +:+ entry_id) generation;
      s ← parse_u64_context ("invalid Redis stream sequence in " +:+ entry_id) sequence;
      Ok (g, s)
  end.

(** ** Sizes *)

(** The loop of [decimal_digits]; a [usize] has at most twenty digits. *)
Fixpoint decimal_digits_from (fuel : nat) (value digits : usize) : usize :=
  match fuel with
  | O => digits
  | S fuel' =>
      if (10 <=? value)%N then decimal_digits_from fuel' (value / 10) (digits + 1) else digits
  end.
Definition decimal_digits (value : usize) : usize := decimal_digits_from 20 value 1.

Definition str_len (s : string) : usize := N.of_nat (String.length s).

Definition resp_bulk_string_size (length : usize) : usize :=
  1 + decimal_digits length + 2 + length + 2.

Definition resp_array_size (arguments : list string) : usize :=
  foldl (λ total argument, saturating_add total (resp_bulk_string_size (str_len argument)))
    (1 + decimal_digits (len arguments) + 2)%N arguments.

(** [redis_entry_fields]: every value of the serialised entry is a string. *)
Definition redis_entry_fields (entry : BroadcasterRedisStreamEntry) : list (string * string) :=
  entry_fields entry.

Definition xadd_arguments (stream_key : string) (maxlen : option u64) (entry_id : string)
    (fields : list (string * string)) : list string :=
  ["XADD"; stream_key]
  ++ match maxlen with Some maxlen => ["MAXLEN"; "~"; u64_to_string maxlen] | None => [] end
  ++ [entry_id]
  ++ concat (map (λ fv, [fv.1; fv.2]) fields).

Definition replay_entry_encoded_size (stream_key : string) (maxlen : option u64)
    (entry : BroadcasterRedisStreamEntry) : anyhow usize :=
  entry_id ← publisher_redis_entry_id entry;
  Ok (resp_array_size (xadd_arguments stream_key maxlen entry_id (redis_entry_fields entry))).

Definition redis_entry_encoded_size (config : BroadcasterRedisPublisherConfig)
    (entry : BroadcasterRedisStreamEntry) : anyhow usize :=
  replay_entry_encoded_size (stream_key config) (maxlen config) entry.

Definition ensure_redis_entry_size (config : BroadcasterRedisPublisherConfig)
    (entry : BroadcasterRedisStreamEntry) (limit_bytes : usize) : anyhow usize :=
  encoded_bytes ← redis_entry_encoded_size config entry;
  if (limit_bytes <? encoded_bytes)%N
  then Err {| error_context := [];
              error_root := OversizedRedisEntry (kind entry) encoded_bytes limit_bytes |}
  else Ok encoded_bytes.

(** ** Fragments *)

Record PreparedRecoveryFragment := { fragment_payload : string; fragment_digest : string }.

(** A byte that does not continue a UTF-8 character. *)
Definition is_char_start (c : ascii) : bool :=
  let b := byte_of c in (b <? 128)%N || (192 <=? b)%N.

(** [s.is_char_boundary(index)]. *)
Definition is_char_boundary (s : string) (index : nat) : bool :=
  bool_decide (index = 0) || bool_decide (index = String.length s) ||
  match String.get index s with Some c => is_char_start c | None => false end.

(** [while end > offset && !is_char_boundary(end) { end -= 1 }]. *)
Fixpoint fragment_end (s : string) (offset : nat) (end_ : nat) : nat :=
  match end_ with
  | O => O
  | S end' =>
      if bool_decide (offset < end_) && negb (is_char_boundary s end_)
      then fragment_end s offset end' else end_
  end.

(** [keccak256] of the bytes, in hexadecimal. *)
Class Keccak := { digest_bytes : string → string }.

Section fragments.
Context `{Keccak} (target : usize) (replacement_json : string).

Fixpoint fragments_from (fuel : nat) (offset : nat) : anyhow (list PreparedRecoveryFragment) :=
  match fuel with
  | O => Ok []
  | S fuel' =>
      if bool_decide (offset < String.length replacement_json) then
        let end_ := fragment_end replacement_json offset
                      (N.to_nat (N.min (saturating_add (N.of_nat offset) target)
                                   (str_len replacement_json))) in
        if bool_decide (end_ = offset)
        then anyhow_bail "broadcaster recovery fragment boundary is not valid UTF-8"
        else
          let payload := String.substring offset (end_ - offset) replacement_json in
          rest ← fragments_from fuel' end_;
          Ok ({| fragment_payload := payload; fragment_digest := digest_bytes payload |}
                :: rest)
      else Ok []
  end.
End fragments.

(** Each turn consumes at least one byte, so the length of the text is fuel enough. *)
Definition prepare_recovery_fragments `{Keccak} (replacement_json : string) :
    anyhow (list PreparedRecoveryFragment) :=
  if String.eqb replacement_json ""
  then anyhow_bail "broadcaster recovery replacement must not be empty"
  else fragments_from RECOVERY_FRAGMENT_TARGET_BYTES replacement_json
         (String.length replacement_json) 0.

(** ** Chunk entries *)

Record BroadcasterRecoveryTransaction `{TychoTypes} := {
  tx_recovery_id : string;
  tx_backends : list BroadcasterBackend;
  tx_replacement_json : string;
  tx_buffer_a : list BroadcasterUpdateMessage;
}.

Record RecoveryEntryScope := {
  scope_recovery_id : string;
  scope_target_state_version : u64;
  scope_backends : list BroadcasterBackend;
}.

(** [u32::try_from(usize)?]. *)
Definition u32_of_usize (n : usize) : anyhow u32 :=
  ok_or (u32_try_from n) (anyhow_error "out of range integral type conversion attempted").

(** [checked_add] in a chain of [and_then], then [ok_or_else]. *)
Definition checked_sum (message : string) (terms : list u64) (start : u64) : anyhow u64 :=
  ok_or (foldl (λ acc t, acc ≫= λ a, checked_add a t) (Some start) terms) (anyhow_error message).

Section entries.
Context `{SerdeJson} `{Keccak}.
(** [current_time_ms()] when the entry of a sequence number is built, per attempt. *)
Context (clock : u64 → nat → u64).
Context (config : BroadcasterRedisPublisherConfig) (stream_id : string).

Definition recovery_entry (attempt : nat) (message_seq : u64) (payload : BroadcasterPayload)
    (state_version : u64) : anyhow BroadcasterRedisStreamEntry :=
  from_contract (from_envelope_at (config_chain_id config)
    {| env_stream_id := stream_id; env_message_seq := message_seq; env_payload := payload |}
    (clock message_seq attempt) state_version).

Definition recovery_chunk_payload (scope : RecoveryEntryScope) (chunk_index : usize)
    (fragment : PreparedRecoveryFragment) (encoded_bytes : usize) :
    anyhow BroadcasterRecoveryChunk :=
  index ← u32_of_usize chunk_index;
  from_contract (BroadcasterRecoveryChunk_new (scope_recovery_id scope)
    (scope_target_state_version scope) (scope_backends scope) index encoded_bytes
    (fragment_digest fragment) (fragment_payload fragment)).

(** At most four attempts to find the size that the entry states of itself. *)
Fixpoint chunk_entry_attempts (attempts : nat) (message_seq : u64)
    (scope : RecoveryEntryScope) (chunk_index : usize)
    (fragment : PreparedRecoveryFragment) (encoded_bytes : usize) :
    anyhow (BroadcasterRedisStreamEntry * usize) :=
  match attempts with
  | O => anyhow_bail "broadcaster recovery chunk encoded size did not converge"
  | S attempts' =>
      chunk ← recovery_chunk_payload scope chunk_index fragment encoded_bytes;
      entry ← recovery_entry attempts message_seq (RecoveryChunk chunk)
                (scope_target_state_version scope);
      measured ← redis_entry_encoded_size config entry;
      if (measured =? encoded_bytes)%N then
        _ ← ensure_redis_entry_size config entry RECOVERY_REDIS_ENTRY_MAX_BYTES;
        Ok (entry, measured)
      else chunk_entry_attempts attempts' message_seq scope chunk_index fragment measured
  end.

Definition build_recovery_chunk_entry (message_seq : u64) (scope : RecoveryEntryScope)
    (chunk_index : usize) (fragment : PreparedRecoveryFragment) :
    anyhow (BroadcasterRedisStreamEntry * usize) :=
  chunk_entry_attempts 4 message_seq scope chunk_index fragment 1.

(** ** The entries of a transaction: [publish_recovery], up to the first append *)

Fixpoint recovery_chunk_entries (next_message_seq : u64) (scope : RecoveryEntryScope)
    (chunk_index : nat) (fragments : list PreparedRecoveryFragment) :
    anyhow (list (BroadcasterRedisStreamEntry * usize)) :=
  match fragments with
  | [] => Ok []
  | fragment :: rest =>
      message_seq ← checked_sum "Redis broadcaster recovery chunk sequence overflow"
                      [1; N.of_nat chunk_index]%N next_message_seq;
      entry ← build_recovery_chunk_entry message_seq scope (N.of_nat chunk_index) fragment;
      entries ← recovery_chunk_entries next_message_seq scope (S chunk_index) rest;
      Ok (entry :: entries)
  end.

Fixpoint recovery_catch_up_entries (next_message_seq : u64) (chunk_count : usize)
    (scope : RecoveryEntryScope) (block_index : nat)
    (buffer_a : list BroadcasterUpdateMessage) : anyhow (list BroadcasterRedisStreamEntry) :=
  match buffer_a with
  | [] => Ok []
  | update :: rest =>
      message_seq ← checked_sum "Redis broadcaster Buffer A sequence overflow"
                      [1; chunk_count; N.of_nat block_index]%N next_message_seq;
      index ← u32_of_usize (N.of_nat block_index);
      catch_up ← from_contract (BroadcasterRecoveryCatchUp_new (scope_recovery_id scope)
                   (scope_target_state_version scope) index update);
      entry ← recovery_entry 0 message_seq (RecoveryCatchUp catch_up)
                (scope_target_state_version scope);
      _ ← ensure_redis_entry_size config entry RECOVERY_REDIS_ENTRY_MAX_BYTES;
      entries ← recovery_catch_up_entries next_message_seq chunk_count scope (S block_index)
                  rest;
      Ok (entry :: entries)
  end.

Definition recovery_commit_watermark (next_message_seq : u64) (chunk_count buffer_a_count : usize) :
    anyhow u64 :=
  checked_sum "Redis broadcaster recovery message_seq overflow"
    [chunk_count; buffer_a_count; 1]%N next_message_seq.

Definition recovery_entries (next_message_seq target_state_version : u64)
    (transaction : BroadcasterRecoveryTransaction)
    (fragments : list PreparedRecoveryFragment) : anyhow (list BroadcasterRedisStreamEntry) :=
  let chunk_count := len fragments in
  let buffer_a_count := len (tx_buffer_a transaction) in
  commit_watermark ← recovery_commit_watermark next_message_seq chunk_count buffer_a_count;
  let scope := {| scope_recovery_id := tx_recovery_id transaction;
                  scope_target_state_version := target_state_version;
                  scope_backends := tx_backends transaction |} in
  chunks ← recovery_chunk_entries next_message_seq scope 0 fragments;
  let replacement_digest := digest_bytes (tx_replacement_json transaction) in
  buffer_count ← u32_of_usize buffer_a_count;
  manifest ← from_contract (BroadcasterRecoveryManifest_new (tx_recovery_id transaction)
               target_state_version (tx_backends transaction)
               (str_len (tx_replacement_json transaction)) chunks.*2
               (map fragment_digest fragments) replacement_digest buffer_count
               commit_watermark);
  start ← from_contract (BroadcasterRecoveryStart_new manifest);
  start_entry ← recovery_entry 0 next_message_seq (RecoveryStart start) target_state_version;
  _ ← ensure_redis_entry_size config start_entry RECOVERY_REDIS_ENTRY_MAX_BYTES;
  buffer_a_entries ← recovery_catch_up_entries next_message_seq chunk_count scope 0
                       (tx_buffer_a transaction);
  commit ← from_contract (BroadcasterRecoveryCommit_new (tx_recovery_id transaction)
             target_state_version (tx_backends transaction) replacement_digest buffer_count
             commit_watermark);
  commit_entry ← recovery_entry 0 commit_watermark (RecoveryCommit commit)
                   target_state_version;
  _ ← ensure_redis_entry_size config commit_entry RECOVERY_REDIS_ENTRY_MAX_BYTES;
  Ok (start_entry :: chunks.*1 ++ buffer_a_entries ++ [commit_entry]).

(** The encoded size of the whole transaction. *)
Definition recovery_encoded_bytes (entries : list BroadcasterRedisStreamEntry) : anyhow usize :=
  fold_result (λ total entry,
    size ← redis_entry_encoded_size config entry;
    ok_or (checked_add total size) (anyhow_error "recovery byte count overflow")) 0%N entries.
End entries.

(** ** Facts: sizes *)

Lemma decimal_digits_from_length fuel n d acc :
  (n < 10 ^ N.of_nat (S fuel))%N →
  (decimal_digits_from (S fuel) n d + str_len acc + 1 =
   d + str_len (dec_digits (S fuel) n acc))%N.
Proof.
  revert n d acc. induction fuel as [|fuel IH]; intros n d acc Hn.
  - change (10 ^ N.of_nat 1)%N with 10%N in Hn. simpl.
    destruct (N.leb_spec 10 n); [lia|]. destruct (N.ltb_spec n 10); [|lia].
    unfold str_len. simpl. lia.
  - remember (S fuel) as f. simpl.
    destruct (N.leb_spec 10 n), (N.ltb_spec n 10); try lia.
    + specialize (IH (n / 10)%N (d + 1)%N (String (digit_char (n mod 10)) acc)).
      unfold str_len in *. simpl in IH. subst f. rewrite !Nat2N.inj_succ in Hn, IH.
      assert (n / 10 < 10 ^ N.succ (N.of_nat fuel))%N as Hd.
      { apply N.Div0.div_lt_upper_bound. by rewrite <- N.pow_succ_r'. }
      specialize (IH Hd). lia.
    + unfold str_len. simpl. lia.
Qed.

Lemma decimal_digits_length n : (n ≤ u64_max)%N → decimal_digits n = str_len (u64_to_string n).
Proof.
  intros Hn. unfold decimal_digits, u64_to_string.
  assert (n < 10 ^ N.of_nat 20)%N as Hb by (eapply N.le_lt_trans; [apply Hn|by vm_compute]).
  pose proof (decimal_digits_from_length 19 n 1 "" Hb) as H.
  change (str_len "") with 0%N in H. lia.
Qed.

(** The Redis protocol: an array of bulk strings. *)
Definition crlf : string := String "013"%char (String "010"%char "").
Definition resp_bulk_string (s : string) : string :=
  "$" +:+ u64_to_string (str_len s) +:+ crlf +:+ s +:+ crlf.
Definition resp_array (arguments : list string) : string :=
  "*" +:+ u64_to_string (len arguments) +:+ crlf
    +:+ foldr (λ s rest, resp_bulk_string s +:+ rest) "" arguments.

Lemma str_len_app a b : str_len (a +:+ b) = (str_len a + str_len b)%N.
Proof.
  unfold str_len. induction a as [|c a IH]; [done|]. rewrite str_app_cons. simpl. lia.
Qed.

Lemma resp_bulk_string_length s :
  (str_len s ≤ u64_max)%N → str_len (resp_bulk_string s) = resp_bulk_string_size (str_len s).
Proof.
  intros Hs. unfold resp_bulk_string, resp_bulk_string_size.
  rewrite !str_len_app, decimal_digits_length by done.
  change (str_len "$") with 1%N. change (str_len crlf) with 2%N. lia.
Qed.

Lemma resp_array_size_fold arguments total :
  (total + str_len (foldr (λ s rest, resp_bulk_string s +:+ rest) "" arguments) ≤ u64_max)%N →
  foldl (λ total argument, saturating_add total (resp_bulk_string_size (str_len argument)))
    total arguments =
  (total + str_len (foldr (λ s rest, resp_bulk_string s +:+ rest) "" arguments))%N.
Proof.
  revert total. induction arguments as [|s arguments IH]; intros total Hb; simpl.
  { change (str_len "") with 0%N. lia. }
  simpl in Hb. rewrite str_len_app in Hb |- *.
  assert (str_len s ≤ str_len (resp_bulk_string s))%N.
  { unfold resp_bulk_string. rewrite !str_len_app. lia. }
  rewrite resp_bulk_string_length in Hb |- * by lia.
  rewrite IH; unfold saturating_add; rewrite N.min_l by lia; lia.
Qed.

Lemma resp_array_size_length arguments :
  (str_len (resp_array arguments) ≤ u64_max)%N → (len arguments ≤ u64_max)%N →
  resp_array_size arguments = str_len (resp_array arguments).
Proof.
  intros Hb Hl. unfold resp_array_size, resp_array in *. rewrite !str_len_app in Hb |- *.
  rewrite decimal_digits_length by done.
  change (str_len "*") with 1%N in *. change (str_len crlf) with 2%N in *.
  rewrite resp_array_size_fold; lia.
Qed.

Local Open Scope nat_scope.

(** ** Facts: fragments *)

(** What Rust guarantees of a [String]: UTF-8 characters have at most four bytes, so a
    boundary is never more than three bytes back. *)
Definition utf8_spaced (s : string) : Prop :=
  ∀ i, i ≤ String.length s → ∃ j, j ≤ i ∧ i ≤ j + 3 ∧ is_char_boundary s j = true.

Lemma fragment_end_spec s offset end_ :
  offset ≤ end_ →
  let e := fragment_end s offset end_ in
  offset ≤ e ∧ e ≤ end_ ∧ (e = offset ∨ is_char_boundary s e = true) ∧
  ∀ j, offset < j → j ≤ end_ → is_char_boundary s j = true → j ≤ e.
Proof.
  intros Hle. induction end_ as [|end_ IH].
  - simpl. split_and!; [lia|lia|left; lia|lia].
  - cbn [fragment_end]. cbv zeta.
    destruct (bool_decide (offset < S end_)) eqn:Elt;
      [apply bool_decide_eq_true in Elt|apply bool_decide_eq_false in Elt].
    + destruct (is_char_boundary s (S end_)) eqn:Eb; cbn [negb andb].
      * split_and!; [lia|lia|by right|lia].
      * destruct IH as (H1 & H2 & H3 & H4); [lia|]. split_and!; [done|lia|done|].
        intros j Hj Hj' Hb. apply H4; [done| |done].
        destruct (decide (j = S end_)) as [->|]; [congruence|lia].
    + cbn [andb]. split_and!; [lia|lia|left; lia|lia].
Qed.

Lemma substring_app n m s : n ≤ m → m ≤ String.length s →
  String.substring 0 m s = String.substring 0 n s +:+ String.substring n (m - n) s.
Proof.
  revert n m. induction s as [|c s IH]; intros n m Hn Hm; simpl in Hm.
  { assert (m = 0) as -> by lia. assert (n = 0) as -> by lia. done. }
  destruct m as [|m]; [by assert (n = 0) as -> by lia|].
  destruct n as [|n].
  - rewrite Nat.sub_0_r. done.
  - cbn [String.substring]. rewrite str_app_cons. f_equal. simpl.
    rewrite (IH n m) by lia. done.
Qed.

Lemma substring_length n m s :
  n + m ≤ String.length s → String.length (String.substring n m s) = m.
Proof.
  revert n m. induction s as [|c s IH]; intros n m Hm; simpl in Hm.
  { assert (n = 0) as -> by lia. assert (m = 0) as -> by lia. done. }
  destruct n as [|n], m as [|m]; simpl; [done| |apply (IH n 0)|apply (IH n (S m))]; try lia.
  f_equal. apply (IH 0 m). lia.
Qed.

Lemma substring_all s : String.substring 0 (String.length s) s = s.
Proof. induction s as [|c s IH]; [done|]. simpl. by rewrite IH. Qed.

Section fragment_facts.
Context `{Keccak} (target : usize) (s : string).
Context (target_ge : (4 ≤ target)%N) (spaced : utf8_spaced s).
Context (width : (str_len s ≤ u64_max)%N).

Definition fragment_ok (f : PreparedRecoveryFragment) : Prop :=
  fragment_payload f ≠ "" ∧ (str_len (fragment_payload f) ≤ target)%N ∧
  fragment_digest f = digest_bytes (fragment_payload f).

Lemma fragments_from_ok fuel offset :
  String.length s - offset ≤ fuel → offset ≤ String.length s →
  ∃ fs, fragments_from target s fuel offset = Ok fs ∧ Forall fragment_ok fs ∧
    String.substring 0 offset s +:+ foldr (λ f rest, fragment_payload f +:+ rest) "" fs = s.
Proof.
  assert (∀ x, x +:+ "" = x) as Hnil.
  { induction x as [|c x IHx]; [done|]. by rewrite str_app_cons, IHx. }
  revert offset. induction fuel as [|fuel IH]; intros offset Hf Ho; cbn [fragments_from].
  { assert (offset = String.length s) as -> by lia. exists []. split_and!; [done|done|].
    simpl. by rewrite Hnil, substring_all. }
  destruct (decide (offset < String.length s)) as [Hlt|Hge].
  2:{ rewrite bool_decide_false by lia. assert (offset = String.length s) as -> by lia.
      exists []. split_and!; [done|done|]. simpl. by rewrite Hnil, substring_all. }
  rewrite bool_decide_true by lia.
  set (e0 := N.to_nat _).
  assert (offset < e0 ∧ e0 ≤ String.length s ∧ (offset + 4 ≤ e0 ∨ e0 = String.length s) ∧
          (N.of_nat e0 ≤ N.of_nat offset + target)%N) as (He0 & He1 & He2 & He3).
  { unfold e0, saturating_add, str_len, u64_max in *. lia. }
  destruct (fragment_end_spec s offset e0) as (E1 & E2 & E3 & E4); [lia|].
  set (e := fragment_end s offset e0) in *.
  assert (offset < e) as Hpos.
  { destruct (spaced e0 ltac:(lia)) as (j & Hj1 & Hj2 & Hj).
    destruct He2 as [He2|He2].
    - specialize (E4 j ltac:(lia) Hj1 Hj). lia.
    - assert (is_char_boundary s e0 = true) as Hb.
      { unfold is_char_boundary. rewrite (bool_decide_true (e0 = String.length s)) by done.
        by rewrite orb_true_r. }
      specialize (E4 e0 He0 ltac:(lia) Hb). lia. }
  rewrite bool_decide_false by lia.
  destruct (IH e) as (fs & -> & Hall & Hcat); [lia|lia|].
  eexists. split; [done|]. split.
  - constructor; [|done]. unfold fragment_ok. simpl.
    assert (String.length (String.substring offset (e - offset) s) = e - offset) as Hl.
    { apply substring_length. lia. }
    split_and!; [|unfold str_len; rewrite Hl; lia|done].
    intros E. rewrite E in Hl. simpl in Hl. lia.
  - cbn [foldr fragment_payload]. rewrite <- str_app_assoc, <- substring_app by lia. done.
Qed.
End fragment_facts.

(** ** Facts: ids *)

Lemma parse_u64_context_ok ctx s n : parse_u64_context ctx s = Ok n ↔ parse_u64 s = Some n.
Proof.
  unfold parse_u64_context, with_context. rewrite !map_err_ok. apply parse_u64_result_ok.
Qed.

Lemma format_redis_stream_id_split chain generation :
  rsplit_once dash (format_redis_stream_id chain generation) =
  Some ("chain-" +:+ u64_to_string chain +:+ "-stream", u64_to_string generation).
Proof.
  unfold format_redis_stream_id.
  replace ("chain-" +:+ u64_to_string chain +:+ "-stream-" +:+ u64_to_string generation)
    with (("chain-" +:+ u64_to_string chain +:+ "-stream") +:+
            String dash (u64_to_string generation)).
  - apply rsplit_once_app, u64_to_string_no. left. done.
  - by rewrite !str_app_assoc.
Qed.

Lemma publisher_redis_entry_id_ok chain generation e :
  (generation ≤ u64_max)%N → stream_id e = format_redis_stream_id chain generation →
  publisher_redis_entry_id e = Ok (entry_id_text generation (message_seq e)).
Proof.
  intros Hg Hs. unfold publisher_redis_entry_id. rewrite Hs, format_redis_stream_id_split.
  by rewrite (proj2 (parse_u64_context_ok _ _ _) (parse_u64_to_string _ Hg)).
Qed.

(** ** Facts: the entries of a transaction *)

Lemma u32_of_usize_ok n m : u32_of_usize n = Ok m → m = n.
Proof. unfold u32_of_usize. rewrite ok_or_ok, u32_try_from_Some. by intros [-> _]. Qed.

Lemma checked_sum_ok msg terms start n :
  checked_sum msg terms start = Ok n → n = foldl N.add start terms.
Proof.
  unfold checked_sum. rewrite ok_or_ok.
  assert (∀ acc, foldl (λ acc t, acc ≫= λ a, checked_add a t) acc terms = Some n →
            ∃ a, acc = Some a ∧ n = foldl N.add a terms) as Hgen.
  { induction terms as [|t terms IH]; intros acc Hn; simpl in *.
    - by exists n.
    - apply IH in Hn as (a & Ha & ->). destruct acc as [b|]; [|done]. simpl in Ha.
      apply checked_add_Some in Ha as [-> _]. by exists b. }
  intros (a & [= <-] & ->)%Hgen. done.
Qed.

Lemma from_contract_ok {A} (r : contract A) a : from_contract r = Ok a ↔ r = Ok a.
Proof. apply map_err_ok. Qed.

Section layout.
Context `{SerdeJson} `{Keccak}.
Context (clock : u64 → nat → u64).
Context (config : BroadcasterRedisPublisherConfig) (stream : string).

(** [e] is the entry of [payload], under a sequence number and state version. *)
Definition built (version seq : u64) (payload : BroadcasterPayload)
    (e : BroadcasterRedisStreamEntry) : Prop :=
  ∃ t, from_envelope_at (config_chain_id config)
         {| env_stream_id := stream; env_message_seq := seq; env_payload := payload |} t version
       = Ok e.

(** Its size is within the limit of recovery entries. *)
Definition fits (e : BroadcasterRedisStreamEntry) : Prop :=
  ∃ n, redis_entry_encoded_size config e = Ok n ∧ (n ≤ RECOVERY_REDIS_ENTRY_MAX_BYTES)%N.

Lemma built_fields version seq payload e :
  built version seq payload e →
  message_seq e = seq ∧ stream_id e = stream ∧ state_version e = version ∧
  kind e = BroadcasterPayload_kind payload.
Proof.
  intros (t & (_ & bs & scope & json & _ & _ & _ & _ & -> & _)%from_envelope_at_inv). done.
Qed.

Lemma recovery_entry_ok attempt seq payload version e :
  recovery_entry clock config stream attempt seq payload version = Ok e →
  built version seq payload e.
Proof. intros Hr%from_contract_ok. by eexists. Qed.

Lemma ensure_size_ok e limit n :
  ensure_redis_entry_size config e limit = Ok n ↔
  redis_entry_encoded_size config e = Ok n ∧ (n ≤ limit)%N.
Proof.
  unfold ensure_redis_entry_size. rewrite bind_ok. split.
  - intros (m & Hm & Hn). destruct (N.ltb_spec limit m); [done|]. by injection Hn as <-.
  - intros [Hn Hle]. exists n. split; [done|]. by destruct (N.ltb_spec limit n); [lia|].
Qed.

(** A chunk of the transaction: its place, its fragment and its own size. *)
Record chunk_entry (scope : RecoveryEntryScope) (seq : u64) (index : usize)
    (f : PreparedRecoveryFragment) (e : BroadcasterRedisStreamEntry) (n : usize)
    (chunk : BroadcasterRecoveryChunk) : Prop := {
  chunk_built : built (scope_target_state_version scope) seq (RecoveryChunk chunk) e;
  chunk_index_is : rc_chunk_index chunk = index;
  chunk_id_is : rc_recovery_id chunk = scope_recovery_id scope;
  chunk_version_is : rc_target_state_version chunk = scope_target_state_version scope;
  chunk_backends_are : rc_backends chunk = sort (scope_backends scope);
  chunk_digest_is : rc_digest chunk = fragment_digest f;
  chunk_fragment_is : rc_payload_fragment chunk = fragment_payload f;
  chunk_size_is : rc_encoded_bytes chunk = n;
  chunk_measured : redis_entry_encoded_size config e = Ok n;
  chunk_fits : (n ≤ RECOVERY_REDIS_ENTRY_MAX_BYTES)%N;
  chunk_canonical : canonical (RecoveryChunk chunk);
}.

Lemma chunk_entry_attempts_ok attempts seq scope index f n0 e n :
  chunk_entry_attempts clock config stream attempts seq scope index f n0 = Ok (e, n) →
  ∃ chunk, chunk_entry scope seq index f e n chunk.
Proof.
  revert n0. induction attempts as [|attempts IH]; intros n0 Hr; [done|].
  cbn [chunk_entry_attempts] in Hr.
  apply bind_ok in Hr as (chunk & Hc & Hr). apply bind_ok in Hr as (e' & He & Hr).
  apply bind_ok in Hr as (m & Hm & Hr). destruct (N.eqb_spec m n0) as [->|]; [|by eapply IH].
  apply bind_ok in Hr as (n' & Hn & [= -> ->]). apply ensure_size_ok in Hn as [Hm' Hle'].
  assert (n' = n) as -> by congruence.
  apply bind_ok in Hc as (i & ->%u32_of_usize_ok & Hc%from_contract_ok).
  pose proof (RecoveryChunk_new_canonical _ _ _ _ _ _ _ _ Hc) as Hcan.
  apply seq_ok in Hc as [_ [= <-]].
  apply recovery_entry_ok in He. eexists. by split.
Qed.

Lemma recovery_chunk_entries_ok next scope i frags entries :
  recovery_chunk_entries clock config stream next scope i frags = Ok entries →
  length entries = length frags ∧
  ∀ k f, frags !! k = Some f → ∃ e n chunk, entries !! k = Some (e, n) ∧
    chunk_entry scope (next + 1 + N.of_nat (i + k)) (N.of_nat (i + k)) f e n chunk.
Proof.
  revert i entries. induction frags as [|f frags IH]; intros i entries Hr;
    cbn [recovery_chunk_entries] in Hr.
  { injection Hr as <-. by split. }
  apply bind_ok in Hr as (seq & Hseq%checked_sum_ok & Hr).
  apply bind_ok in Hr as ([e n] & He & Hr). apply bind_ok in Hr as (es & Hes & [= <-]).
  apply IH in Hes as [Hlen Hes]. split; [by simpl; f_equal|].
  intros [|k] f' Hf'; simpl in Hf'.
  - injection Hf' as <-. apply chunk_entry_attempts_ok in He as (chunk & Hc).
    exists e, n, chunk. split; [done|]. rewrite Nat.add_0_r. simpl in Hseq. by rewrite Hseq in Hc.
  - destruct (Hes k f' Hf') as (e' & n' & c' & Hk & Hc). exists e', n', c'. split; [done|].
    by rewrite Nat.add_succ_r.
Qed.

Lemma recovery_catch_up_entries_ok next count scope i buffer entries :
  recovery_catch_up_entries clock config stream next count scope i buffer = Ok entries →
  length entries = length buffer ∧
  ∀ k u, buffer !! k = Some u → ∃ e c, entries !! k = Some e ∧ fits e ∧
    built (scope_target_state_version scope) (next + 1 + count + N.of_nat (i + k))
      (RecoveryCatchUp c) e ∧
    c = {| cu_recovery_id := scope_recovery_id scope;
           cu_target_state_version := scope_target_state_version scope;
           cu_block_index := N.of_nat (i + k); cu_update := u |}.
Proof.
  revert i entries. induction buffer as [|u buffer IH]; intros i entries Hr;
    cbn [recovery_catch_up_entries] in Hr.
  { injection Hr as <-. by split. }
  apply bind_ok in Hr as (seq & Hseq%checked_sum_ok & Hr).
  apply bind_ok in Hr as (index & ->%u32_of_usize_ok & Hr).
  apply bind_ok in Hr as (c & Hc%from_contract_ok & Hr).
  apply bind_ok in Hr as (e & He%recovery_entry_ok & Hr).
  apply bind_ok in Hr as (n & Hn%ensure_size_ok & Hr).
  apply bind_ok in Hr as (es & Hes & [= <-]).
  apply seq_ok in Hc as [_ [= <-]].
  apply IH in Hes as [Hlen Hes]. split; [by simpl; f_equal|].
  intros [|k] u' Hu'; simpl in Hu'.
  - injection Hu' as <-. eexists e, _. split; [done|]. split; [by exists n|].
    rewrite Nat.add_0_r. simpl in Hseq. by rewrite Hseq in He.
  - destruct (Hes k u' Hu') as (e' & c' & Hk & Hf & Hb & ->). eexists e', _.
    split; [done|]. rewrite Nat.add_succ_r. done.
Qed.
End layout.

(** ** Properties *)

(** What a consumer can rely on in the run of entries of one recovery. *)
Record recovery_layout `{SerdeJson} `{Keccak} (config : BroadcasterRedisPublisherConfig)
    (stream : string) (next version : u64) (tx : BroadcasterRecoveryTransaction)
    (fragments : list PreparedRecoveryFragment) (entries : list BroadcasterRedisStreamEntry)
    (manifest : BroadcasterRecoveryManifest) (commit : BroadcasterRecoveryCommit) : Prop := {
  (* one entry per message, numbered without a gap from the next sequence *)
  layout_length : length entries = length fragments + length (tx_buffer_a tx) + 2;
  layout_entry : ∀ i e, entries !! i = Some e →
    message_seq e = (next + N.of_nat i)%N ∧ stream_id e = stream ∧
    state_version e = version ∧ fits config e;
  (* the start carries a valid manifest of what follows *)
  layout_manifest : manifest_valid manifest;
  layout_start : ∃ e, entries !! 0 = Some e ∧
    built config stream version next (RecoveryStart {| rs_manifest := manifest |}) e;
  layout_digests : rm_chunk_digests manifest = map fragment_digest fragments;
  layout_replacement : rm_replacement_digest manifest = digest_bytes (tx_replacement_json tx) ∧
    rm_replacement_encoded_bytes manifest = str_len (tx_replacement_json tx);
  layout_watermark : rm_commit_watermark manifest =
    (next + N.of_nat (length fragments) + N.of_nat (length (tx_buffer_a tx)) + 1)%N;
  (* the chunks carry the fragments in order, each stating its own size *)
  layout_chunk : ∀ k f, fragments !! k = Some f → ∃ e n chunk,
    entries !! S k = Some e ∧ rm_chunk_encoded_bytes manifest !! k = Some n ∧
    chunk_entry config stream
      {| scope_recovery_id := tx_recovery_id tx; scope_target_state_version := version;
         scope_backends := tx_backends tx |}
      (next + 1 + N.of_nat k) (N.of_nat k) f e n chunk;
  (* then the buffered blocks in order *)
  layout_catch_up : ∀ k u, tx_buffer_a tx !! k = Some u → ∃ e,
    entries !! (1 + length fragments + k) = Some e ∧
    built config stream version
      (next + 1 + N.of_nat (length fragments) + N.of_nat k)
      (RecoveryCatchUp {| cu_recovery_id := tx_recovery_id tx;
                          cu_target_state_version := version;
                          cu_block_index := N.of_nat k; cu_update := u |}) e;
  (* and the commit closes the run at the announced watermark *)
  layout_commit : ∃ e, last entries = Some e ∧
    built config stream version (rm_commit_watermark manifest) (RecoveryCommit commit) e;
  layout_commit_watermark : rt_commit_watermark commit = rm_commit_watermark manifest;
  layout_commit_digest : rt_replacement_digest commit = rm_replacement_digest manifest;
  (* both name the transaction and count what is between them *)
  layout_identity : rm_recovery_id manifest = tx_recovery_id tx ∧
    rm_target_state_version manifest = version ∧ rm_backends manifest = sort (tx_backends tx) ∧
    rm_chunk_count manifest = len fragments ∧ rm_buffer_a_count manifest = len (tx_buffer_a tx);
  layout_commit_identity : rt_recovery_id commit = tx_recovery_id tx ∧
    rt_target_state_version commit = version ∧ rt_backends commit = sort (tx_backends tx) ∧
    rt_buffer_a_count commit = len (tx_buffer_a tx);
  layout_canonical : canonical (RecoveryStart {| rs_manifest := manifest |}) ∧
    canonical (RecoveryCommit commit);
}.

Section layout_proof.
Context `{SerdeJson} `{Keccak} (clock : u64 → nat → u64)
  (config : BroadcasterRedisPublisherConfig) (stream : string).

Lemma built_entry version seq payload e i next :
  built config stream version seq payload e → fits config e →
  seq = (next + N.of_nat i)%N →
  message_seq e = (next + N.of_nat i)%N ∧ stream_id e = stream ∧
  state_version e = version ∧ fits config e.
Proof. intros (-> & -> & -> & _)%built_fields ? ->. done. Qed.

Lemma recovery_entries_layout next version tx fragments entries :
  recovery_entries clock config stream next version tx fragments = Ok entries →
  ∃ manifest commit,
    recovery_layout config stream next version tx fragments entries manifest commit.
Proof.
  unfold recovery_entries. intros Hr.
  apply bind_ok in Hr as (wm & Hwm%checked_sum_ok & Hr).
  apply bind_ok in Hr as (chunks & Hchunks & Hr).
  apply bind_ok in Hr as (bc & Hbc%u32_of_usize_ok & Hr).
  apply bind_ok in Hr as (manifest & Hm%from_contract_ok & Hr).
  apply bind_ok in Hr as (start & Hs%from_contract_ok & Hr).
  apply bind_ok in Hr as (se & Hse%recovery_entry_ok & Hr).
  apply bind_ok in Hr as (sn & Hsn%ensure_size_ok & Hr).
  apply bind_ok in Hr as (cus & Hcus & Hr).
  apply bind_ok in Hr as (commit & Hc%from_contract_ok & Hr).
  apply bind_ok in Hr as (ce & Hce%recovery_entry_ok & Hr).
  apply bind_ok in Hr as (cn & Hcn%ensure_size_ok & [= <-]).
  apply recovery_chunk_entries_ok in Hchunks as [Hlc Hchunks].
  apply recovery_catch_up_entries_ok in Hcus as [Hlb Hcus].
  pose proof (RecoveryManifest_new_canonical _ _ _ _ _ _ _ _ _ _ Hm) as [Hmcan Hvalid].
  pose proof (RecoveryCommit_new_canonical _ _ _ _ _ _ _ Hc) as Hccan.
  apply bind_ok in Hm as (n & Hn & Hm). apply seq_ok in Hm as [_ [= Hm]].
  apply seq_ok in Hs as [_ [= Hs]]. apply seq_ok in Hc as [_ [= Hc]].
  apply ok_or_ok, u32_try_from_Some in Hn as [Hn _].
  unfold len in *. simpl in Hwm, Hchunks, Hcus.
  exists manifest, commit. subst start.
  assert (length chunks.*1 = length fragments) as Hlc1 by by rewrite length_fmap.
  split.
  - cbn [length]. rewrite !length_app, Hlc1, Hlb. cbn [length]. lia.
  - intros [|i] e He; cbn [lookup list_lookup] in He.
    { injection He as <-. eapply built_entry; [done|by exists sn|lia]. }
    apply lookup_app_Some in He as [He|[Hge He]].
    + destruct (fragments !! i) as [f|] eqn:Ef.
      * destruct (Hchunks i f Ef) as (e' & n' & chunk & Hk & [Hb _ _ _ _ _ _ _ Hn' Hle]).
        rewrite list_lookup_fmap, Hk in He. injection He as <-.
        eapply built_entry; [done|by exists n'|lia].
      * apply lookup_ge_None in Ef. apply lookup_lt_Some in He. lia.
    + apply lookup_app_Some in He as [He|[Hge' He]].
      * destruct (tx_buffer_a tx !! (i - length chunks.*1)) as [u|] eqn:Eu.
        -- destruct (Hcus _ _ Eu) as (e' & c & Hk & Hf & Hb & _). rewrite Hk in He.
           injection He as <-. eapply built_entry; [done|done|lia].
        -- apply lookup_ge_None in Eu. apply lookup_lt_Some in He. lia.
      * apply list_lookup_singleton_Some in He as [Hi <-].
        eapply built_entry; [done|by exists cn|lia].
  - done.
  - exists se. done.
  - by rewrite <- Hm.
  - by rewrite <- Hm.
  - rewrite <- Hm. simpl. lia.
  - intros k f Hf. destruct (Hchunks k f Hf) as (e & n' & chunk & Hk & Hce').
    exists e, n', chunk. split_and!; [|by rewrite <- Hm; simpl; rewrite list_lookup_fmap, Hk|done].
    cbn [lookup list_lookup]. apply lookup_app_l_Some. by rewrite list_lookup_fmap, Hk.
  - intros k u Hu. destruct (Hcus k u Hu) as (e & c & Hk & _ & Hb & ->). exists e.
    split; [|done]. replace (1 + length fragments + k) with (S (length chunks.*1 + k)) by lia.
    apply lookup_app_Some. right. split; [lia|]. apply lookup_app_l_Some.
    by replace (length chunks.*1 + k - length chunks.*1) with k by lia.
  - exists ce. split; [|by rewrite <- Hm; simpl].
    change (se :: ?l) with ([se] ++ l). rewrite app_assoc, app_assoc. apply last_snoc.
  - by rewrite <- Hc, <- Hm.
  - by rewrite <- Hc, <- Hm.
  - rewrite <- Hm. cbn. rewrite Hn. split_and!; try done.
    by rewrite length_fmap, Hlc.
  - by rewrite <- Hc.
  - done.
Qed.
End layout_proof.

(** The run of entries of a recovery is complete and self-describing: numbered
    without a gap, opened by a valid manifest, followed by every fragment of the
    replacement with its digest and exact size and by every buffered block, closed by
    a commit at the announced watermark, and every entry within the size limit. *)
Theorem recovery_transaction_layout `{SerdeJson} `{Keccak} clock config stream next version tx
    fragments entries :
  recovery_entries clock config stream next version tx fragments = Ok entries →
  ∃ manifest commit,
    recovery_layout config stream next version tx fragments entries manifest commit.
Proof. apply recovery_entries_layout. Qed.

Lemma fragments_rejoin `{Keccak} (s : string) :
  s ≠ "" → utf8_spaced s → (str_len s ≤ u64_max)%N →
  ∃ fs, prepare_recovery_fragments s = Ok fs ∧
    foldr (λ f rest, fragment_payload f +:+ rest) "" fs = s ∧
    Forall (fragment_ok RECOVERY_FRAGMENT_TARGET_BYTES) fs.
Proof.
  intros Hne Hsp Hw. unfold prepare_recovery_fragments.
  destruct (String.eqb_spec s ""); [done|].
  destruct (fragments_from_ok RECOVERY_FRAGMENT_TARGET_BYTES s ltac:(done) Hsp Hw
              (String.length s) 0) as (fs & Hfs & Hok & Hcat); [lia|lia|].
  exists fs. split_and!; [done| |done]. by destruct s.
Qed.

(** A replacement snapshot is cut into fragments that put together give it back;
    each is non-empty, within the target size and carries its own digest.  The cut
    always succeeds, and ends. *)
Theorem recovery_fragments_rejoin `{Keccak} (s : string) :
  s ≠ "" → utf8_spaced s → (str_len s ≤ u64_max)%N →
  ∃ fs, prepare_recovery_fragments s = Ok fs ∧
    foldr (λ f rest, fragment_payload f +:+ rest) "" fs = s ∧
    Forall (fragment_ok RECOVERY_FRAGMENT_TARGET_BYTES) fs.
Proof. apply fragments_rejoin. Qed.

(** The size the publisher computes for a command is the length of the command in
    the Redis protocol, as long as it fits the machine word. *)
Theorem resp_size_exact arguments :
  (str_len (resp_array arguments) ≤ u64_max)%N → (len arguments ≤ u64_max)%N →
  resp_array_size arguments = str_len (resp_array arguments).
Proof. apply resp_array_size_length. Qed.

(** The id under which an entry of a generation's stream is appended is the one
    the replay client waits for, and both parsers read the two numbers back. *)
Theorem entry_id_agreement chain generation seq e :
  (generation ≤ u64_max)%N → (seq ≤ u64_max)%N →
  stream_id e = format_redis_stream_id chain generation → message_seq e = seq →
  publisher_redis_entry_id e = Ok (redis_entry_id generation seq) ∧
  publisher_parse_redis_entry_id (redis_entry_id generation seq) = Ok (generation, seq) ∧
  parse_redis_entry_id (redis_entry_id generation seq) =
    Ok {| millis := generation; sequence := seq |}.
Proof.
  intros Hg Hs Hst <-. split_and!.
  - by eapply publisher_redis_entry_id_ok.
  - unfold publisher_parse_redis_entry_id, redis_entry_id, entry_id_text.
    rewrite split_once_app by (apply u64_to_string_no; left; done).
    rewrite (proj2 (parse_u64_context_ok _ _ _) (parse_u64_to_string _ Hg)).
    by rewrite (proj2 (parse_u64_context_ok _ _ _) (parse_u64_to_string _ Hs)).
  - by apply parse_entry_id_text.
Qed.

(** ** Witnesses *)

Definition demo_keccak : Keccak := {| digest_bytes s := "d" +:+ u64_to_string (str_len s) |}.

Definition demo_publisher_config : BroadcasterRedisPublisherConfig := {|
  stream_key := "events"; config_chain_id := 1; append_retry_window := from_secs 1;
  maxlen := Some 1000%N; writer_lease_ttl := from_secs 30;
  recovery_max_buffered_native_blocks := 32 |}.

Definition demo_update : @BroadcasterUpdateMessage demo_tycho := {|
  um_partitions := [@Build_BroadcasterUpdatePartition demo_tycho Native 17 []
                      [@Build_BroadcasterStateEntry demo_tycho "pool" ("uniswap_v2", "") 5%N]
                      [] [] ∅] |}.

Definition demo_transaction : @BroadcasterRecoveryTransaction demo_tycho :=
  @Build_BroadcasterRecoveryTransaction demo_tycho "recovery-1" [Native; Rfq] "{}"
    [demo_update].

Definition demo_fragments : list PreparedRecoveryFragment :=
  [{| fragment_payload := "{}"; fragment_digest := "d2" |}].

Definition demo_recovery_entries : anyhow (list BroadcasterRedisStreamEntry) :=
  @recovery_entries demo_tycho demo_serde demo_keccak (λ _ _, 1000%N) demo_publisher_config
    "chain-1-stream-7" 5 12 demo_transaction demo_fragments.

Lemma recovery_transaction_layout_witness :
  ∃ entries, demo_recovery_entries = Ok entries ∧ map message_seq entries = [5; 6; 7; 8]%N ∧
    ∃ manifest commit, @recovery_layout demo_tycho demo_serde demo_keccak demo_publisher_config
      "chain-1-stream-7" 5 12 demo_transaction demo_fragments entries manifest commit.
Proof.
  assert (is_ok demo_recovery_entries = true) as Hok by (vm_compute; reflexivity).
  destruct demo_recovery_entries as [entries|e] eqn:E; [|discriminate Hok]. clear Hok.
  exists entries. split; [reflexivity|]. split.
  - assert (result_ok (map message_seq <$> demo_recovery_entries) = Some [5; 6; 7; 8]%N) as Hs
      by by vm_compute.
    rewrite E in Hs. by injection Hs.
  - exact (@recovery_transaction_layout demo_tycho demo_serde demo_keccak _ _ _ _ _ _ _ _ E).
Defined.

Lemma recovery_fragments_rejoin_witness :
  ∃ fs, @prepare_recovery_fragments demo_keccak "{}" = Ok fs ∧
    foldr (λ f rest, fragment_payload f +:+ rest) "" fs = "{}".
Proof.
  destruct (@recovery_fragments_rejoin demo_keccak "{}") as (fs & Hfs & Hcat & _).
  - done.
  - intros i Hi. exists i. split_and!; [lia|lia|]. simpl in Hi.
    destruct i as [|[|[|i]]]; [done..|lia].
  - by vm_compute.
  - by exists fs.
Defined.

Lemma resp_size_exact_witness :
  resp_array_size ["XADD"; "events"; "7-3"] = str_len (resp_array ["XADD"; "events"; "7-3"]).
Proof. apply resp_size_exact; by vm_compute. Defined.

Lemma entry_id_agreement_witness :
  publisher_redis_entry_id demo_entry = Ok "7-3".
Proof.
  refine (proj1 (entry_id_agreement 1 7 3 demo_entry _ _ _ _)); by vm_compute.
Defined.
