(* ===== verification/Writer.v ===== *)
(** * The Redis stream writer

    [runtime/src/broadcaster/redis_publisher.rs]: the trait [RedisStreamWriter] the
    publisher is written against, as a class with the default methods of the trait
    and the contract [RedisStreamWriterLaws] the publisher's theorems use; and
    [TokioRedisStreamWriter], which sends the scripts of [RedisStore] over a
    connection that may lose a command or its reply. *)

From S2P Require Import Prelude Ordered Text Protocol Wire Validate Codec RedisEntry Replay.
From S2P Require Import RedisStore Recovery.

(** ** Commands *)

Record RedisPromotionCommand := {
  pc_stream_key : string;
  pc_writer_key : string;
  pc_writer_generation_key : string;
  pc_maxlen : option u64;
  pc_writer_token : string;
  pc_expected_writer_token : option string;
  pc_expected_generation : option u64;
  pc_lease_ttl : Duration;
  pc_normal_marker_fields : list (string * string);
}.

Record RedisAppendCommand := {
  ac_stream_key : string;
  ac_writer_key : string;
  ac_writer_generation_key : string;
  ac_maxlen : option u64;
  ac_writer_token : string;
  ac_generation : u64;
  ac_lease_ttl : Duration;
  ac_entry : BroadcasterRedisStreamEntry;
}.

Record RedisRenewCommand := {
  rn_writer_key : string;
  rn_writer_generation_key : string;
  rn_writer_token : string;
  rn_generation : u64;
  rn_lease_ttl : Duration;
}.

Record RedisVerifyCommand := {
  vc_writer_key : string;
  vc_writer_generation_key : string;
  vc_writer_token : string;
  vc_generation : u64;
  vc_lease_ttl : Duration;
}.

Record RedisInspectCommand := {
  ic_stream_key : string;
  ic_writer_key : string;
  ic_writer_generation_key : string;
  ic_writer_token : string;
  ic_generation : u64;
}.

Record RedisWriterInspection := {
  insp_generation : u64;
  insp_first_entry_id : option string;
  insp_last_entry_id : option string;
}.

Record RedisPromotionResult := { pr_generation : u64; pr_entry_id : string }.

(** ** The trait *)

(** [world] is everything outside the process that a call may read or change. *)
Class RedisStreamWriter := {
  world : Type;
  w_promote : RedisPromotionCommand → world → anyhow RedisPromotionResult * world;
  w_append_fenced : RedisAppendCommand → world → anyhow string * world;
  w_renew_writer : RedisRenewCommand → world → anyhow unit * world;
  w_verify_writer : RedisVerifyCommand → world → anyhow unit * world;
  w_inspect_writer : RedisInspectCommand → world → anyhow RedisWriterInspection * world;
}.

(** The default methods: a writer that implements none of them. *)
Section defaults.
Context {W : Type}.

Definition default_promote (command : RedisPromotionCommand) (w : W) :
    anyhow RedisPromotionResult * W :=
  (anyhow_bail "Redis writer does not support active writer promotion", w).

Definition default_append_fenced (command : RedisAppendCommand) (w : W) : anyhow string * W :=
  (anyhow_bail "Redis writer does not support fenced appends", w).

Definition default_renew_writer (command : RedisRenewCommand) (w : W) : anyhow unit * W :=
  (anyhow_bail "Redis writer does not support active writer lease renewal", w).

Definition default_verify_writer (renew : RedisRenewCommand → W → anyhow unit * W)
    (command : RedisVerifyCommand) (w : W) : anyhow unit * W :=
  renew {| rn_writer_key := vc_writer_key command;
           rn_writer_generation_key := vc_writer_generation_key command;
           rn_writer_token := vc_writer_token command;
           rn_generation := vc_generation command;
           rn_lease_ttl := vc_lease_ttl command |} w.

Definition default_inspect_writer (command : RedisInspectCommand) (w : W) :
    anyhow RedisWriterInspection * W :=
  (Ok {| insp_generation := ic_generation command;
         insp_first_entry_id := Some (u64_to_string (ic_generation command) +:+ "-1");
         insp_last_entry_id := None |}, w).
End defaults.

(** What the publisher relies on: an acknowledged append went under the entry's own id,
    a recovering promotion takes a later generation, and a generation is a machine word. *)
Class RedisStreamWriterLaws `{RedisStreamWriter} := {
  append_fenced_id c w id w' :
    w_append_fenced c w = (Ok id, w') → publisher_redis_entry_id (ac_entry c) = Ok id;
  promote_recovery_generation c w r w' token g :
    pc_writer_key c = redis_writer_key (pc_stream_key c) →
    pc_writer_generation_key c = redis_writer_generation_key (pc_stream_key c) →
    pc_expected_writer_token c = Some token → pc_writer_token c = token →
    token ≠ "" →
    pc_expected_generation c = Some g → (g ≤ u64_max)%N → (0 < lease_ttl_ms (pc_lease_ttl c))%N →
    w_promote c w = (Ok r, w') → (g < pr_generation r)%N;
  promote_generation_bound c w r w' :
    w_promote c w = (Ok r, w') → (pr_generation r ≤ u64_max)%N;
}.

(** ** The connection *)

(** What becomes of a command: executed and answered; executed, the reply lost; or
    never executed. *)
Inductive delivery :=
| Delivered
| ReplyLost (error : string)
| NotExecuted (error : string).

(** The [redis] crate: the text of an error the server answers with, and the reply of
    [XRANGE] as a [StreamRangeReply]. *)
Class RedisLink `{RedisStore} `{RedisCrate} := {
  server_error_text : string → string;
  range_reply : list (string * list (string * string)) → result string (list StreamId);
}.

(** Before a command, other clients may have changed the data. *)
Record turn `{RedisStore} := { turn_others : db → db; turn_delivery : delivery }.

Record connection `{RedisStore} := { link_db : db; link_turns : list turn }.

Section tokio.
Context `{RedisLink}.

(** The next turn: the data it finds, what becomes of the command, the turns after it.
    With no turn left to take, the process is alone and the server answers. *)
Definition turn_data (c : connection) : db :=
  match link_turns c with [] => link_db c | t :: _ => turn_others t (link_db c) end.
Definition turn_fate (c : connection) : delivery :=
  match link_turns c with [] => Delivered | t :: _ => turn_delivery t end.
Definition turns_left (c : connection) : list turn := tail (link_turns c).

(** [query_async]. *)
Definition query {A} (script : stateR db string A) (c : connection) :
    result string A * connection :=
  match turn_fate c with
  | Delivered =>
      let (r, d) := script (turn_data c) in
      (map_err server_error_text r, {| link_db := d; link_turns := turns_left c |})
  | ReplyLost error =>
      (Err error, {| link_db := (script (turn_data c)).2; link_turns := turns_left c |})
  | NotExecuted error => (Err error, {| link_db := turn_data c; link_turns := turns_left c |})
  end.

(** [Err(error).context(..)] on a [RedisError]. *)
Definition redis_context {A} (context error : string) : anyhow A :=
  with_context context (anyhow_bail error).

Definition maxlen_text (maxlen : option u64) : string := default "" (u64_to_string <$> maxlen).

(** [redis_promotion_command], sent. *)
Definition redis_promotion_command (request : RedisPromotionCommand) :
    connection → result string (list string) * connection :=
  query (pair_reply ← PROMOTE_WRITER_SCRIPT (pc_stream_key request) (pc_writer_key request)
           (pc_writer_generation_key request) (pc_writer_token request)
           (lease_ttl_ms (pc_lease_ttl request)) (maxlen_text (pc_maxlen request))
           (default "" (pc_expected_writer_token request))
           (default "" (u64_to_string <$> pc_expected_generation request))
           (pc_normal_marker_fields request);
         mret [pair_reply.1; pair_reply.2]).

Definition promotion_result (reply : list string) : anyhow RedisPromotionResult :=
  match reply with
  | [generation; entry_id] =>
      g ← parse_u64_context
            ("Redis active writer promotion returned invalid generation: " +:+ generation)
            generation;
      Ok {| pr_generation := g; pr_entry_id := entry_id |}
  | _ => anyhow_bail "Redis active writer promotion returned invalid reply"
  end.

(** The command is sent a second time after an error, unless it is a recovery. *)
Definition tokio_promote (request : RedisPromotionCommand) (c : connection) :
    anyhow RedisPromotionResult * connection :=
  match redis_promotion_command request c with
  | (Ok reply, c') => (promotion_result reply, c')
  | (Err first_error, c') =>
      match pc_expected_writer_token request with
      | None =>
          match redis_promotion_command request c' with
          | (Ok reply, c'') => (promotion_result reply, c'')
          | (Err error, c'') =>
              (redis_context ("Redis active writer promotion retry failed after: "
                                +:+ first_error) error, c'')
          end
      | Some _ => (redis_context "Redis active writer promotion failed" first_error, c')
      end
  end.

(** The fields of [redis_stream_entry_matches_reply]'s loop. *)
Fixpoint fields_match (existing : gmap string RedisValue)
    (expected_fields : list (string * string)) : anyhow bool :=
  match expected_fields with
  | [] => Ok true
  | (field, expected_value) :: rest =>
      match existing !! field with
      | None => Ok false
      | Some value =>
          actual_value ← with_context
                           ("Redis XRANGE returned invalid value for field " +:+ field)
                           (map_err anyhow_error (from_redis_value value));
          if String.eqb actual_value expected_value then fields_match existing rest else Ok false
      end
  end.

Definition redis_stream_entry_matches_reply (reply : list StreamId) (entry_id : string)
    (expected_fields : list (string * string)) : anyhow bool :=
  match reply with
  | [] => Ok false
  | existing :: others =>
      if negb (bool_decide (others = []))
         || negb (String.eqb (sid_id existing) entry_id)
         || negb (bool_decide (size (sid_map existing) = length expected_fields))
      then Ok false
      else fields_match (sid_map existing) expected_fields
  end.

(** [XRANGE stream_key entry_id entry_id COUNT 1], and the comparison. *)
Definition redis_stream_entry_matches (stream_key entry_id : string)
    (expected_fields : list (string * string)) (c : connection) : anyhow bool * connection :=
  match query (call_xrange stream_key entry_id) c with
  | (Err error, c') =>
      (redis_context "Redis XRANGE failed while checking XADD result" error, c')
  | (Ok entries, c') =>
      (match range_reply entries with
       | Err error => redis_context "Redis XRANGE failed while checking XADD result" error
       | Ok reply => redis_stream_entry_matches_reply reply entry_id expected_fields
       end, c')
  end.

(** A failed append may have reached the stream: it is looked up before it is reported. *)
Definition tokio_append_fenced (request : RedisAppendCommand) (c : connection) :
    anyhow string * connection :=
  match publisher_redis_entry_id (ac_entry request) with
  | Err error => (Err error, c)
  | Ok entry_id =>
      let fields := redis_entry_fields (ac_entry request) in
      match query (APPEND_FENCED_SCRIPT (ac_stream_key request) (ac_writer_key request)
                     (ac_writer_generation_key request) (ac_writer_token request)
                     (u64_to_string (ac_generation request))
                     (lease_ttl_ms (ac_lease_ttl request)) (maxlen_text (ac_maxlen request))
                     entry_id fields) c with
      | (Ok entry_id, c') => (Ok entry_id, c')
      | (Err error, c') =>
          match redis_stream_entry_matches (ac_stream_key request) entry_id fields c' with
          | (Err failure, c'') => (Err failure, c'')
          | (Ok true, c'') => (Ok entry_id, c'')
          | (Ok false, c'') => (redis_context "Redis XADD failed" error, c'')
          end
      end
  end.

Definition tokio_renew_writer (request : RedisRenewCommand) (c : connection) :
    anyhow unit * connection :=
  match query (RENEW_WRITER_SCRIPT (rn_writer_key request) (rn_writer_generation_key request)
                 (rn_writer_token request) (u64_to_string (rn_generation request))
                 (lease_ttl_ms (rn_lease_ttl request))) c with
  | (Ok _, c') => (Ok tt, c')
  | (Err error, c') => (redis_context "Redis active writer lease renewal failed" error, c')
  end.

Definition tokio_verify_writer (request : RedisVerifyCommand) (c : connection) :
    anyhow unit * connection :=
  match query (VERIFY_WRITER_SCRIPT (vc_writer_key request) (vc_writer_generation_key request)
                 (vc_writer_token request) (u64_to_string (vc_generation request))) c with
  | (Ok _, c') => (Ok tt, c')
  | (Err error, c') => (redis_context "Redis active writer verification failed" error, c')
  end.

Definition non_empty (s : string) : option string := if String.eqb s "" then None else Some s.

Definition inspection_result (reply : list string) : anyhow RedisWriterInspection :=
  match reply with
  | [generation; first_entry_id; last_entry_id] =>
      g ← parse_u64_context "Redis writer generation is invalid" generation;
      Ok {| insp_generation := g; insp_first_entry_id := non_empty first_entry_id;
            insp_last_entry_id := non_empty last_entry_id |}
  | _ => anyhow_bail "Redis active writer inspection returned invalid reply"
  end.

Definition tokio_inspect_writer (request : RedisInspectCommand) (c : connection) :
    anyhow RedisWriterInspection * connection :=
  match query (reply ← INSPECT_WRITER_SCRIPT (ic_writer_key request)
                 (ic_writer_generation_key request) (ic_stream_key request)
                 (ic_writer_token request) (u64_to_string (ic_generation request));
               mret [reply.1.1; reply.1.2; reply.2]) c with
  | (Ok reply, c') => (inspection_result reply, c')
  | (Err error, c') => (redis_context "Redis active writer inspection failed" error, c')
  end.

Definition TokioRedisStreamWriter : RedisStreamWriter := {|
  world := connection;
  w_promote := tokio_promote;
  w_append_fenced := tokio_append_fenced;
  w_renew_writer := tokio_renew_writer;
  w_verify_writer := tokio_verify_writer;
  w_inspect_writer := tokio_inspect_writer;
|}.
End tokio.

(** ** The connection's laws *)

(** A [HashMap] built from the fields of an entry: the last of a repeated name wins. *)
Definition fields_map (fields : list (string * string)) : gmap string string :=
  list_to_map (reverse fields).

Definition reply_of `{RedisCrate} (e : string * list (string * string)) (s : StreamId) : Prop :=
  sid_id s = e.1 ∧ ∀ k, from_redis_value <$> sid_map s !! k = Ok <$> fields_map e.2 !! k.

(** The client library wraps the server's text without hiding or adding the phrases the
    publisher looks for, and decodes every entry. *)
Class RedisLinkLaws `{RedisLink} := {
  server_error_text_contains needle s :
    needle ∈ [STALE_WRITER_MESSAGE; MISSING_FENCE_MESSAGE] →
    str_contains needle (server_error_text s) = str_contains needle s;
  range_reply_entries es : ∃ ids, range_reply es = Ok ids ∧ Forall2 reply_of es ids;
}.

(** ** Facts: looking an entry up *)

Lemma entry_fields_NoDup e : NoDup (entry_fields e).*1.
Proof.
  unfold entry_fields. destruct (snapshot_id e), (block_number e), (observed_timestamp_ms e);
    eapply bool_decide_unpack; vm_compute; exact I.
Qed.

Section lookup.
Context `{RedisLinkLaws}.

Lemma fields_match_ok existing fields :
  fields_match existing fields = Ok true ↔
  ∀ k v, (k, v) ∈ fields → from_redis_value <$> existing !! k = Some (Ok v).
Proof.
  induction fields as [|[k v] fields IH]; cbn [fields_match].
  { split; [|done]. intros _ k v Hin. by apply elem_of_nil in Hin. }
  split.
  - destruct (existing !! k) as [r|] eqn:Ek; [|done].
    intros (v' & Hv & Hm)%bind_ok. destruct (String.eqb_spec v' v) as [->|]; [|done].
    unfold with_context in Hv. destruct (from_redis_value r) as [v''|] eqn:Er; [|done].
    injection Hv as ->. intros k' v' [[= -> ->]|Hin]%elem_of_cons.
    + by rewrite Ek, <- Er.
    + by apply IH.
  - intros Hall. pose proof (Hall k v ltac:(by left)) as Hk.
    destruct (existing !! k) as [r|]; [|done]. injection Hk as Hr. rewrite Hr.
    unfold with_context. cbn [map_err]. rewrite ok_bind, String.eqb_refl.
    apply IH. intros k' v' Hin. apply Hall. by right.
Qed.

Lemma reply_of_size e s : reply_of e s → size (sid_map s) = size (fields_map e.2).
Proof.
  intros [_ Hs]. rewrite <- !size_dom. f_equal. apply set_eq. intros k.
  rewrite !elem_of_dom. specialize (Hs k).
  destruct (sid_map s !! k), (fields_map e.2 !! k); try done; split; by eauto.
Qed.

Lemma fields_map_lookup fields k v :
  NoDup fields.*1 → fields_map fields !! k = Some v ↔ (k, v) ∈ fields.
Proof.
  intros Hd. unfold fields_map. rewrite <- elem_of_list_to_map.
  - by rewrite elem_of_reverse.
  - by rewrite fmap_reverse, reverse_Permutation.
Qed.

Lemma fields_map_size fields : NoDup fields.*1 → size (fields_map fields) = length fields.
Proof.
  intros Hd. unfold fields_map. rewrite <- length_map_to_list, map_to_list_to_map.
  - apply length_reverse.
  - by rewrite fmap_reverse, reverse_Permutation.
Qed.

(** The comparison succeeds exactly for the entry of that id with those fields. *)
Lemma matches_reply_ok es reply id fields :
  Forall2 reply_of es reply → NoDup fields.*1 →
  redis_stream_entry_matches_reply reply id fields = Ok true ↔
  ∃ fs, es = [(id, fs)] ∧ fields_map fs = fields_map fields.
Proof.
  intros Hes Hd. unfold redis_stream_entry_matches_reply. split.
  - destruct reply as [|s others]; [done|].
    destruct (_ || _ || _) eqn:Eb; [done|].
    apply orb_false_iff in Eb as [[Ho Hi]%orb_false_iff Hs].
    apply negb_false_iff, bool_decide_eq_true in Ho as ->.
    apply negb_false_iff, String.eqb_eq in Hi. apply negb_false_iff, bool_decide_eq_true in Hs.
    inversion Hes as [|[id' fs] ? es' ? Hrep Hes']; subst. inversion Hes'; subst. clear Hes Hes'.
    intros Hm. exists fs. pose proof (reply_of_size _ _ Hrep) as Hsz.
    destruct Hrep as [-> Hrep]. split; [done|]. symmetry. apply map_subseteq_size_eq.
    + apply map_subseteq_spec. intros k v Hk. apply fields_map_lookup in Hk; [|done].
      pose proof (proj1 (fields_match_ok _ _) Hm k v Hk) as Hv. specialize (Hrep k).
      cbn [snd] in *. rewrite Hv in Hrep. destruct (fields_map fs !! k); [|done].
      by injection Hrep as ->.
    + cbn [snd] in Hsz. by rewrite <- Hsz, Hs, fields_map_size.
  - intros (fs & -> & Hfs). inversion Hes as [|? s ? ? Hrep Hes']; subst.
    inversion Hes'; subst. pose proof (reply_of_size _ _ Hrep) as Hsz. destruct Hrep as [Hi Hrep].
    cbn [fst snd] in *. rewrite Hi, String.eqb_refl, bool_decide_true by done.
    rewrite Hfs, fields_map_size in Hsz by done. rewrite bool_decide_true by done.
    cbn [negb orb]. apply fields_match_ok. intros k v Hk.
    apply fields_map_lookup in Hk; [|done]. by rewrite Hrep, Hfs, Hk.
Qed.
End lookup.

(** ** Facts: appends *)

Section appends.
Context `{RedisLinkLaws} `{!RedisStoreLaws}.

(** The server's part of an append: refused, or an [XADD] whose result it is. *)
Lemma append_fenced_script sk wk gk token g ttl m id f d r d' :
  APPEND_FENCED_SCRIPT sk wk gk token g ttl m id f d = (r, d') →
  ((∃ e, r = Err e) ∧ d' = d) ∨
  call_xadd sk m id f (r_pexpire wk ttl d) = (r, d').
Proof.
  unfold APPEND_FENCED_SCRIPT. unfold mbind at 1, stateR_bind at 1.
  assert (∀ e d1, check_writer wk gk token g d = (e, d1) → d1 = d) as Hread.
  { intros e d1. unfold check_writer, call_get, error_reply. rewrite gets_bind.
    destruct (r_get wk d) as [t|]; [|by intros [= _ ->]].
    destruct (negb _); [by intros [= _ ->]|]. rewrite gets_bind. cbv zeta.
    repeat case_match; by intros [= _ ->]. }
  destruct (check_writer wk gk token g d) as [[[]|e] d1] eqn:Ec;
    pose proof (Hread _ _ eq_refl) as ->; intros Hrun.
  - right. unfold call_pexpire in Hrun. by rewrite modify_bind in Hrun.
  - left. injection Hrun as <- <-. split; [by exists e|done].
Qed.

(** The script of an append command. *)
Definition append_command (request : RedisAppendCommand) (id : string) :
    stateR db string string :=
  APPEND_FENCED_SCRIPT (ac_stream_key request) (ac_writer_key request)
    (ac_writer_generation_key request) (ac_writer_token request)
    (u64_to_string (ac_generation request)) (lease_ttl_ms (ac_lease_ttl request))
    (maxlen_text (ac_maxlen request)) id (redis_entry_fields (ac_entry request)).

Definition stored_in (sk id : string) (fields : list (string * string)) (d : db) : Prop :=
  ∃ fs, r_xrange sk id d = Ok [(id, fs)] ∧ fields_map fs = fields_map fields.

(** A bound that keeps at least the entry just added, within its width. *)
Definition maxlen_keeps (m : option u64) : Prop :=
  match m with Some n => (0 < n ≤ u64_max)%N | None => True end.

Lemma maxlen_text_keeps m : maxlen_keeps m →
  (if String.eqb (maxlen_text m) "" then None else Some (maxlen_text m)) ≠ Some "0".
Proof.
  intros Hm. destruct m as [n|]; [|done]. cbn in Hm.
  change (maxlen_text (Some n)) with (u64_to_string n).
  destruct (String.eqb _ ""); [done|]. intros [= E].
  assert (n = 0%N) as ->; [|lia]. apply u64_to_string_inj; [lia|done|done].
Qed.

Lemma call_xadd_ok sk m id f d r d' :
  maxlen_keeps m → call_xadd sk (maxlen_text m) id f d = (Ok r, d') →
  r = id ∧ r_xrange sk id d' = Ok [(id, f)] ∧ ∃ first, r_xinfo sk d' = Ok (id, first).
Proof.
  intros Hm Hx. unfold call_xadd in Hx. apply xadd_ok in Hx as (-> & Hfirst & _ & Hr).
  split_and!; [done| |done]. by apply Hr, maxlen_text_keeps.
Qed.

Lemma append_command_ok request id d r d' :
  maxlen_keeps (ac_maxlen request) → append_command request id d = (Ok r, d') →
  r = id ∧ r_xrange (ac_stream_key request) id d' =
    Ok [(id, redis_entry_fields (ac_entry request))].
Proof.
  intros Hm [[[e [=]] _]|Hx]%append_fenced_script.
  apply call_xadd_ok in Hx as (-> & Hr & _); done.
Qed.

Lemma query_ok {A} (script : stateR db string A) c a c' :
  query script c = (Ok a, c') →
  turn_fate c = Delivered ∧ script (turn_data c) = (Ok a, link_db c') ∧
  link_turns c' = turns_left c.
Proof.
  unfold query. destruct (turn_fate c); [|done|done].
  destruct (script (turn_data c)) as [[b|e] d] eqn:Es; [|done]. by intros [= -> <-].
Qed.

Lemma query_err {A} (script : stateR db string A) c e c' :
  query script c = (Err e, c') → link_turns c' = turns_left c ∧
  (link_db c' = turn_data c ∨ link_db c' = (script (turn_data c)).2).
Proof.
  unfold query. destruct (turn_fate c).
  - destruct (script (turn_data c)) as [[b|e'] d] eqn:Es; [done|]. intros [= _ <-]. by split; [|right].
  - intros [= _ <-]. by split; [|right].
  - intros [= _ <-]. by split; [|left].
Qed.

(** Looking an entry up changes nothing, and finds what is there. *)
Lemma entry_matches_ok sk id fields c c' :
  NoDup fields.*1 → redis_stream_entry_matches sk id fields c = (Ok true, c') →
  stored_in sk id fields (link_db c').
Proof.
  intros Hd. unfold redis_stream_entry_matches.
  destruct (query _ c) as [[es|e] c1] eqn:Eq; [|done].
  apply query_ok in Eq as (_ & [= Hes Hdb] & _).
  destruct (range_reply_entries es) as (reply & -> & Hreply). intros [= Hm <-].
  unfold stored_in. rewrite <- Hdb, Hes. destruct (matches_reply_ok es reply id fields Hreply Hd) as [Hfs _].
  destruct (Hfs Hm) as (fs & -> & ?). by exists fs.
Qed.

Lemma tokio_append_ok request c id c' :
  maxlen_keeps (ac_maxlen request) → tokio_append_fenced request c = (Ok id, c') →
  publisher_redis_entry_id (ac_entry request) = Ok id ∧
  stored_in (ac_stream_key request) id (redis_entry_fields (ac_entry request)) (link_db c').
Proof.
  intros Hm. unfold tokio_append_fenced.
  destruct (publisher_redis_entry_id _) as [id0|e]; [|done]. cbv zeta.
  fold (append_command request id0).
  destruct (query (append_command request id0) c) as [[r|e] c1] eqn:Eq.
  - intros [= <- <-]. apply query_ok in Eq as (_ & Hrun & _).
    apply append_command_ok in Hrun as [-> Hr]; [|done]. split; [done|]. by eexists.
  - destruct (redis_stream_entry_matches _ _ _ c1) as [[[]|e2] c2] eqn:Em; [|done|done].
    intros [= <- <-]. split; [done|]. eapply entry_matches_ok, Em. apply entry_fields_NoDup.
Qed.
End appends.

(** ** Facts: retries *)

Section retries.
Context `{RedisLinkLaws} `{!RedisStoreLaws} (request : RedisAppendCommand) (id : string).
Context (keys_differ : ac_writer_key request ≠ ac_stream_key request).
Context (keeps : maxlen_keeps (ac_maxlen request)).

Abbreviation sk := (ac_stream_key request).

(** No other client acts between the commands. *)
Definition quiet (c : connection) : Prop :=
  Forall (λ t, ∀ d, turn_others t d = d) (link_turns c).

(** The entry is in the stream, and is its last. *)
Definition landed (d : db) : Prop :=
  r_xrange sk id d = Ok [(id, redis_entry_fields (ac_entry request))] ∧
  ∃ first, r_xinfo sk d = Ok (id, first).
Definition untouched (d0 d : db) : Prop :=
  r_xrange sk id d = r_xrange sk id d0 ∧ r_xinfo sk d = r_xinfo sk d0.

Lemma quiet_data c : quiet c → turn_data c = link_db c.
Proof. unfold quiet, turn_data. intros Hq. destruct Hq; [done|]. by auto. Qed.

Lemma quiet_left c c' : quiet c → link_turns c' = turns_left c → quiet c'.
Proof. unfold quiet, turns_left. intros Hq ->. by destruct Hq. Qed.

Lemma untouched_trans d0 d1 d2 : untouched d0 d1 → untouched d1 d2 → untouched d0 d2.
Proof. unfold untouched. intros [-> ->]. done. Qed.

Lemma landed_untouched d d' : landed d → untouched d d' → landed d'.
Proof. unfold landed, untouched. intros [? ?] [-> ->]. done. Qed.

(** Executed once more, the command lands or leaves the stream alone. *)
Lemma append_command_step d r d' :
  append_command request id d = (r, d') →
  (r = Ok id ∧ landed d') ∨ ((∃ e, r = Err e) ∧ untouched d d').
Proof.
  intros [[He ->]|Hx]%append_fenced_script; [by right|].
  destruct r as [r|e].
  - left. apply call_xadd_ok in Hx as (-> & Hr & Hfirst); [|done]. done.
  - right. split; [by exists e|]. unfold call_xadd in Hx. unfold untouched.
    rewrite (xadd_err_range _ _ _ _ _ _ _ id Hx), (xadd_err _ _ _ _ _ _ _ Hx).
    by rewrite xrange_pexpire, xinfo_pexpire by done.
Qed.

(** Landed, it cannot land again. *)
Lemma append_command_landed parts d r d' :
  parse_redis_entry_id id = Ok parts → landed d → append_command request id d = (r, d') →
  ∃ e, r = Err e.
Proof.
  intros Hp [_ (first & Hx0)] [[He ->]|Hx]%append_fenced_script; [done|].
  destruct r as [r|e]; [|by exists e]. unfold call_xadd in Hx.
  apply xadd_ok in Hx as (_ & _ & Hlt & _). rewrite xinfo_pexpire in Hlt by done.
  specialize (Hlt id first parts parts Hx0 Hp Hp). unfold id_lt in Hlt. lia.
Qed.

Lemma append_query_step c r c' :
  quiet c → query (append_command request id) c = (r, c') →
  quiet c' ∧
  ((r = Ok id ∧ landed (link_db c')) ∨
   ((∃ e, r = Err e) ∧ (untouched (link_db c) (link_db c') ∨ landed (link_db c')))).
Proof.
  intros Hq. pose proof (quiet_data c Hq) as Hd. destruct r as [r|e]; intros Hr.
  - apply query_ok in Hr as (_ & Hrun & Hl). split; [by eapply quiet_left|]. left.
    apply append_command_step in Hrun as [[[= ->] ?]|[[e [=]] _]]. done.
  - apply query_err in Hr as [Hl Hdb]. split; [by eapply quiet_left|]. right.
    split; [by exists e|]. rewrite Hd in Hdb. destruct Hdb as [->|Hrun]; [by left|].
    destruct (append_command request id (link_db c)) as [r d'] eqn:Ea. cbn in Hrun. subst d'.
    apply append_command_step in Ea as [[_ ?]|[_ ?]]; by auto.
Qed.

Lemma entry_matches_step fields c r c' :
  quiet c → redis_stream_entry_matches sk id fields c = (r, c') →
  quiet c' ∧ link_db c' = link_db c ∧
  (r_xrange sk id (link_db c) = Ok [] → r ≠ Ok true).
Proof.
  intros Hq. pose proof (quiet_data c Hq) as Hd. unfold redis_stream_entry_matches.
  destruct (query (call_xrange sk id) c) as [[es|e] c1] eqn:Eq.
  - intros [= <- <-]. apply query_ok in Eq as (_ & [= Hes Hdb] & Hl).
    split_and!; [by eapply quiet_left|by rewrite <- Hd|].
    rewrite Hd in Hes. rewrite Hes. intros [= ->].
    destruct (range_reply_entries []) as (reply & -> & Hreply). by inversion Hreply.
  - intros [= <- <-]. apply query_err in Eq as [Hl Hdb].
    split_and!; [by eapply quiet_left| |done]. by destruct Hdb as [->| ->].
Qed.

Lemma tokio_append_step c r c' :
  publisher_redis_entry_id (ac_entry request) = Ok id → quiet c →
  tokio_append_fenced request c = (r, c') →
  quiet c' ∧
  (landed (link_db c') ∨
   (untouched (link_db c) (link_db c') ∧
    (r_xrange sk id (link_db c) = Ok [] → ∀ id', r ≠ Ok id'))).
Proof.
  intros Hid Hq. unfold tokio_append_fenced. rewrite Hid. cbv zeta.
  fold (append_command request id).
  destruct (query (append_command request id) c) as [r1 c1] eqn:Eq.
  apply append_query_step in Eq as [Hq1 [[-> Hl]|[[e ->] Hu]]]; [|..|done].
  { intros [= <- <-]. split; [done|by left]. }
  destruct (redis_stream_entry_matches _ _ _ c1) as [m c2] eqn:Em.
  apply entry_matches_step in Em as (Hq2 & Hdb & Hm); [|done]. intros Hr.
  assert (c' = c2) as -> by (destruct m as [[]|]; congruence). split; [done|].
  rewrite Hdb. destruct Hu as [Hu|Hl]; [right|by left]. split; [done|].
  intros Hnone id'. destruct Hu as [Hu _]. rewrite <- Hu in Hnone. specialize (Hm Hnone).
  destruct m as [[]|]; [done|..]; injection Hr as <-; done.
Qed.

Lemma tokio_append_landed parts c :
  publisher_redis_entry_id (ac_entry request) = Ok id → parse_redis_entry_id id = Ok parts →
  link_turns c = [] → landed (link_db c) →
  ∃ c', tokio_append_fenced request c = (Ok id, c') ∧ landed (link_db c').
Proof.
  intros Hid Hp Ht Hl. unfold tokio_append_fenced. rewrite Hid. cbv zeta.
  fold (append_command request id). assert (quiet c) as Hq by (unfold quiet; by rewrite Ht).
  destruct (query (append_command request id) c) as [r1 c1] eqn:Eq.
  assert (∃ e, r1 = Err e ∧ landed (link_db c1) ∧ link_turns c1 = []) as (e & -> & Hl1 & Ht1).
  { unfold query, turn_fate, turn_data, turns_left in Eq. rewrite Ht in Eq.
    destruct (append_command request id (link_db c)) as [r d] eqn:Ea.
    pose proof (append_command_landed parts _ _ _ Hp Hl Ea) as [e ->].
    injection Eq as <- <-. eexists. split_and!; [done| |done].
    apply append_command_step in Ea as [[[=] _]|[_ Hu]]. by eapply landed_untouched. }
  unfold redis_stream_entry_matches, query, turn_fate, turn_data, turns_left. rewrite Ht1.
  unfold call_xrange. cbn [map_err]. pose proof Hl1 as [-> _]. cbn [map_err].
  destruct (range_reply_entries [(id, redis_entry_fields (ac_entry request))])
    as (reply & -> & Hreply).
  rewrite (proj2 (matches_reply_ok _ _ id _ Hreply (entry_fields_NoDup _)));
    [|by eexists]. by eexists.
Qed.

(** Sent again and again, whatever the answers. *)
Fixpoint append_attempts (n : nat) (c : connection) : list (anyhow string) * connection :=
  match n with
  | O => ([], c)
  | S n' =>
      let (r, c1) := tokio_append_fenced request c in
      let (rs, c2) := append_attempts n' c1 in (r :: rs, c2)
  end.

Lemma append_attempts_once n c rs c' :
  publisher_redis_entry_id (ac_entry request) = Ok id → quiet c →
  append_attempts n c = (rs, c') →
  quiet c' ∧
  (landed (link_db c') ∨
   (untouched (link_db c) (link_db c') ∧
    (r_xrange sk id (link_db c) = Ok [] → ∀ id', Ok id' ∉ rs))) ∧
  (landed (link_db c) → landed (link_db c')).
Proof.
  intros Hid. revert c rs. induction n as [|n IH]; intros c rs Hq Hr; cbn [append_attempts] in Hr.
  { injection Hr as <- <-. split_and!; [done| |done]. right. split; [done|].
    intros _ id' Hin. by apply elem_of_nil in Hin. }
  destruct (tokio_append_fenced request c) as [r c1] eqn:E1.
  destruct (append_attempts n c1) as [rs' c2] eqn:E2. injection Hr as <- <-.
  apply tokio_append_step in E1 as [Hq1 Hs1]; [|done|done].
  apply IH in E2 as (Hq2 & Hs2 & Hkeep); [|done]. split_and!; [done|..].
  - destruct Hs1 as [Hl|[Hu1 Hno1]]; [by left; apply Hkeep|].
    destruct Hs2 as [Hl|[Hu2 Hno2]]; [by left|right].
    split; [by eapply untouched_trans|]. intros Hnone id' [Heq|Hin]%elem_of_cons.
    + by apply (Hno1 Hnone id').
    + apply (Hno2 ltac:(destruct Hu1 as [-> _]; done) id' Hin).
  - intros Hl. apply Hkeep. destruct Hs1 as [?|[Hu _]]; [done|]. by eapply landed_untouched.
Qed.
End retries.

(** ** Facts: promotions *)

Section promotions.
Context `{RedisLinkLaws} `{!RedisStoreLaws}.

(** The command [promote_locked] sends for a stream. *)
Definition promotion_of (sk token : string) (recovering maxlen : option u64) (ttl : Duration)
    (fields : list (string * string)) : RedisPromotionCommand := {|
  pc_stream_key := sk;
  pc_writer_key := redis_writer_key sk;
  pc_writer_generation_key := redis_writer_generation_key sk;
  pc_maxlen := maxlen;
  pc_writer_token := token;
  pc_expected_writer_token := (λ _, token) <$> recovering;
  pc_expected_generation := recovering;
  pc_lease_ttl := ttl;
  pc_normal_marker_fields := fields;
|}.

Lemma query_ext {A} (f g : stateR db string A) c : (∀ d, f d = g d) → query f c = query g c.
Proof. intros Hfg. unfold query. by rewrite !Hfg. Qed.

Lemma promotion_query sk token recovering maxlen ttl fields d :
  (reply ← PROMOTE_WRITER_SCRIPT sk (redis_writer_key sk) (redis_writer_generation_key sk) token
             (lease_ttl_ms ttl) (maxlen_text maxlen) (default "" ((λ _, token) <$> recovering))
             (default "" (u64_to_string <$> recovering)) fields;
   mret [reply.1; reply.2]) d =
  match promote_script sk (lease_ttl_ms ttl) token recovering (maxlen_text maxlen) fields d with
  | (Ok reply, d') => (Ok [reply.1; reply.2], d')
  | (Err e, d') => (Err e, d')
  end.
Proof. unfold promote_script. by destruct recovering. Qed.

Lemma promotion_command_query sk token recovering maxlen ttl fields c :
  redis_promotion_command (promotion_of sk token recovering maxlen ttl fields) c =
  query (λ d,
    match promote_script sk (lease_ttl_ms ttl) token recovering (maxlen_text maxlen) fields d with
    | (Ok reply, d') => (Ok [reply.1; reply.2], d')
    | (Err e, d') => (Err e, d')
    end) c.
Proof. apply query_ext. intros d. apply promotion_query. Qed.

Lemma promotion_result_ok a b r :
  promotion_result [a; b] = Ok r ↔ parse_u64 a = Some (pr_generation r) ∧ b = pr_entry_id r.
Proof.
  unfold promotion_result. rewrite bind_ok. unfold parse_u64_context, with_context. split.
  - intros (g & Hg & [= <-]). split; [|done].
    destruct (parse_u64_result a) as [g'|] eqn:Ep; [|done]. injection Hg as ->.
    by apply parse_u64_result_ok.
  - intros [Hg ->]. exists (pr_generation r). apply parse_u64_result_ok in Hg. rewrite Hg.
    by destruct r.
Qed.

Lemma tokio_promote_recovery c request c' r token g :
  pc_writer_key request = redis_writer_key (pc_stream_key request) →
  pc_writer_generation_key request = redis_writer_generation_key (pc_stream_key request) →
  pc_expected_writer_token request = Some token → pc_writer_token request = token →
  token ≠ "" → pc_expected_generation request = Some g → (g ≤ u64_max)%N →
  (0 < lease_ttl_ms (pc_lease_ttl request))%N →
  tokio_promote request c = (Ok r, c') → (g < pr_generation r)%N.
Proof.
  intros Hwk Hgk Htok Hown Hne Hgen Hg Httl. unfold tokio_promote, redis_promotion_command.
  rewrite Hwk, Hgk, Htok, Hown, Hgen.
  pose proof (promotion_query (pc_stream_key request) token (Some g) (pc_maxlen request)
                (pc_lease_ttl request) (pc_normal_marker_fields request)) as Hscript.
  cbn [fmap option_fmap option_map default from_option id] in Hscript |- *.
  destruct (query _ c) as [[reply|e] c1] eqn:Eq; [|done].
  apply query_ok in Eq as (_ & Hrun & _). rewrite Hscript in Hrun.
  destruct (promote_script _ _ _ _ _ _ _) as [[[a b]|e] d] eqn:Ep; [|done].
  injection Hrun as <- _. intros [= Hr _]. apply promotion_result_ok in Hr as [Ha _].
  by eapply recovery_reply_later.
Qed.

Lemma promotion_result_bound reply r : promotion_result reply = Ok r → (pr_generation r ≤ u64_max)%N.
Proof.
  destruct reply as [|a [|b [|? ?]]]; try done. intros [Ha _]%promotion_result_ok.
  revert Ha. unfold parse_u64. intros Ha. by apply parse_u64_max in Ha.
Qed.

Lemma tokio_promote_bound request c r c' :
  tokio_promote request c = (Ok r, c') → (pr_generation r ≤ u64_max)%N.
Proof.
  unfold tokio_promote. destruct (redis_promotion_command request c) as [[reply|e] c1].
  { intros [= Hr _]. by eapply promotion_result_bound. }
  destruct (pc_expected_writer_token request); [done|].
  destruct (redis_promotion_command request c1) as [[reply|e'] c2]; [|done].
  intros [= Hr _]. by eapply promotion_result_bound.
Qed.

#[export] Instance tokio_writer_laws : @RedisStreamWriterLaws TokioRedisStreamWriter.
Proof.
  split.
  - intros request c id c' Ha. cbn in Ha. unfold tokio_append_fenced in Ha.
    destruct (publisher_redis_entry_id _) as [id0|e]; [|done]. cbv zeta in Ha.
    fold (append_command request id0) in Ha.
    destruct (query (append_command request id0) c) as [[r|e] c1] eqn:Eq.
    + injection Ha as <- _. apply query_ok in Eq as (_ & Hrun & _).
      apply append_fenced_script in Hrun as [[[e [=]] _]|Hx].
      unfold call_xadd in Hx. by apply xadd_ok in Hx as (-> & _).
    + destruct (redis_stream_entry_matches _ _ _ c1) as [[[]|e2] c2]; [|done|done].
      by injection Ha as <- _.
  - intros request c r c' token g. cbn. apply tokio_promote_recovery.
  - intros request c r c'. cbn. apply tokio_promote_bound.
Qed.

(** A first reply that is lost makes no difference to a promotion. *)
Lemma promote_after_lost_reply sk token maxlen ttl fields n m d reply d' error :
  (0 < lease_ttl_ms ttl)%N → maxlen_keeps maxlen →
  keyed sk n d → stream_at sk m d → (N.max n m + 1 < lua_exact)%N →
  r_get (redis_writer_key sk) d ≠ Some token →
  promote_script sk (lease_ttl_ms ttl) token None (maxlen_text maxlen) fields d =
    (Ok reply, d') →
  let lost := {| turn_others := λ d, d; turn_delivery := ReplyLost error |} in
  let request := promotion_of sk token None maxlen ttl fields in
  (tokio_promote request {| link_db := d; link_turns := [lost] |}).1 =
    promotion_result [reply.1; reply.2] ∧
  (tokio_promote request {| link_db := d; link_turns := [] |}).1 =
    promotion_result [reply.1; reply.2] ∧
  link_db (tokio_promote request {| link_db := d; link_turns := [lost] |}).2 =
    r_pexpire (redis_writer_key sk) (lease_ttl_ms ttl) d'.
Proof.
  intros Httl Hmax Hn Hm Hb Hfresh Hrun. cbv zeta.
  assert (maxlen_text maxlen ≠ "0") as Hzero.
  { apply maxlen_text_keeps in Hmax. intros E. by rewrite E in Hmax. }
  pose proof (promote_retry sk _ Httl token _ fields n m d reply d' Hn Hm Hb Hfresh Hzero Hrun)
    as Hagain.
  unfold tokio_promote. rewrite !promotion_command_query.
  unfold query, turn_fate, turn_data, turns_left. cbn [link_turns link_db turn_delivery turn_others].
  rewrite Hrun. cbn [map_err fst snd tail promotion_of pc_expected_writer_token fmap option_fmap
                     option_map].
  rewrite promotion_command_query. unfold query, turn_fate, turn_data, turns_left.
  cbn [link_turns link_db]. by rewrite Hagain.
Qed.
End promotions.

(** ** Facts: what a refusal of the fence looks like to the publisher *)

Section refusals.
Context `{RedisLinkLaws}.

(** Another writer's token, or this writer's under another generation. *)
Definition fence_taken (writer_key generation_key token : string) (g : u64) (d : db) : Prop :=
  (∃ t, r_get writer_key d = Some t ∧ t ≠ token) ∨
  (r_get writer_key d = Some token ∧
   ∃ t, r_get generation_key d = Some t ∧ t ≠ "" ∧ t ≠ u64_to_string g).

(** What the publisher reads off an error: retired, or the fence gone. *)
Definition reads_as (taken absent : Prop) (text : string) : Prop :=
  (str_contains STALE_WRITER_MESSAGE text = true ↔ taken) ∧
  (str_contains MISSING_FENCE_MESSAGE text = true ↔ absent).

Lemma reads_as_intro (stale missing : bool) taken absent text :
  str_contains STALE_WRITER_MESSAGE text = stale →
  str_contains MISSING_FENCE_MESSAGE text = missing →
  (if stale then taken else ¬ taken) → (if missing then absent else ¬ absent) →
  reads_as taken absent text.
Proof. unfold reads_as. intros -> ->. destruct stale, missing; naive_solver. Qed.

Lemma check_writer_outcome wk gk token g d :
  ∃ r, check_writer wk gk token (u64_to_string g) d = (r, d) ∧
    match r with
    | Ok _ => r_get wk d = Some token ∧ r_get gk d = Some (u64_to_string g)
    | Err e => reads_as (fence_taken wk gk token g d) (r_get wk d = None) e
    end.
Proof.
  unfold check_writer, call_get, error_reply, fence_taken. rewrite gets_bind.
  destruct (r_get wk d) as [t|].
  2:{ eexists. split; [done|]. apply (reads_as_intro false true); naive_solver. }
  destruct (String.eqb_spec t token) as [->|Hne]; cbn [negb].
  2:{ eexists. split; [done|]. apply (reads_as_intro true false); [done|done| |done].
      left. by exists t. }
  rewrite gets_bind. cbv zeta. destruct (r_get gk d) as [c|]; cbn [default from_option id].
  2:{ eexists. split; [done|]. apply (reads_as_intro false false); [done|done| |done].
      naive_solver. }
  destruct (String.eqb_spec c "") as [->|Hc].
  { eexists. split; [done|]. apply (reads_as_intro false false); [done|done| |done].
    naive_solver. }
  destruct (String.eqb_spec c (u64_to_string g)) as [->|Hne]; cbn [negb].
  { eexists. by split. }
  eexists. split; [done|]. apply (reads_as_intro true false); [done|done| |done].
  right. split; [done|]. by exists c.
Qed.

Lemma redis_context_contains needle context text :
  needle ∈ [STALE_WRITER_MESSAGE; MISSING_FENCE_MESSAGE] →
  never_starts needle (context +:+ ": ") = true →
  ∀ error, redis_context (A := unit) context (server_error_text text) = Err error →
  str_contains needle (error_chain error) = str_contains needle text.
Proof.
  intros Hin Hctx error [= <-]. unfold error_chain. cbn [error_context error_root app str_join].
  cbn [RootError_fmt]. rewrite <- str_app_assoc, str_contains_skip by done.
  by apply server_error_text_contains.
Qed.

(** A probe of the fence, over a connection that delivers it. *)
Lemma probe_outcome {A} wk gk token g (rest : stateR db string A) context c
    (r : anyhow unit) c' :
  turn_fate c = Delivered →
  (∀ d, ∃ a d', rest d = (Ok a, d')) →
  (∀ needle, needle ∈ [STALE_WRITER_MESSAGE; MISSING_FENCE_MESSAGE] →
     never_starts needle (context +:+ ": ") = true) →
  match query (check_writer wk gk token (u64_to_string g) ;; rest) c with
  | (Ok _, c') => (Ok tt, c')
  | (Err error, c') => (redis_context context error, c')
  end = (r, c') →
  match r with
  | Ok _ => r_get wk (turn_data c) = Some token ∧
            r_get gk (turn_data c) = Some (u64_to_string g)
  | Err error => reads_as (fence_taken wk gk token g (turn_data c))
                   (r_get wk (turn_data c) = None) (error_chain error)
  end.
Proof.
  intros Hf Hrest Hctx. unfold query. rewrite Hf. unfold mbind at 1, stateR_bind at 1.
  destruct (check_writer_outcome wk gk token g (turn_data c)) as (o & -> & Ho).
  destruct o as [[]|e].
  - destruct (Hrest (turn_data c)) as (a & d' & ->). cbn [map_err]. by intros [= <- _].
  - cbn [map_err]. intros [= Hr _]. destruct r as [|error]; [done|].
    unfold reads_as in *. by rewrite !(redis_context_contains _ context e) by
      (done || set_solver || (apply Hctx; set_solver)).
Qed.
End refusals.

(** ** Claims *)

(** An append the writer acknowledges is in the stream: under the entry's own id,
    with the entry's fields and nothing else, even when the acknowledgement was
    reconstructed after an error. *)
Theorem acknowledged_append_is_stored `{RedisLinkLaws} `{!RedisStoreLaws} request c id c' :
  maxlen_keeps (ac_maxlen request) → tokio_append_fenced request c = (Ok id, c') →
  publisher_redis_entry_id (ac_entry request) = Ok id ∧
  stored_in (ac_stream_key request) id (redis_entry_fields (ac_entry request)) (link_db c').
Proof. apply tokio_append_ok. Qed.

(** C40: while no other client touches the database ([quiet]), and with a stream trimmed,
    if at all, to at least one entry and kept under another key than the writer's token,
    an append whose entry has a well-formed identifier and is not yet in the stream is
    made at most once.  Sent any number of times over a connection that loses commands and
    replies, the entry is either the last of the stream, once, or the stream is untouched
    and no attempt was acknowledged; and once the entry is there, a further attempt over a
    connection that delivers the command and its reply ([link_turns c' = []]) acknowledges
    it without adding it again. *)
Theorem append_at_most_once `{RedisLinkLaws} `{!RedisStoreLaws} request id parts n c rs c' :
  ac_writer_key request ≠ ac_stream_key request → maxlen_keeps (ac_maxlen request) →
  publisher_redis_entry_id (ac_entry request) = Ok id → parse_redis_entry_id id = Ok parts →
  quiet c → r_xrange (ac_stream_key request) id (link_db c) = Ok [] →
  append_attempts request n c = (rs, c') →
  (untouched request id (link_db c) (link_db c') ∧ ∀ id', Ok id' ∉ rs) ∨
  (landed request id (link_db c') ∧
   (link_turns c' = [] → ∃ c'', tokio_append_fenced request c' = (Ok id, c'') ∧
                          landed request id (link_db c''))).
Proof.
  intros Hk Hm Hid Hp Hq Hnone Hrun.
  apply (append_attempts_once request id Hk Hm) in Hrun as (_ & [Hl|[Hu Hno]] & _); [| |done..].
  - right. split; [done|]. intros Ht. by eapply tokio_append_landed.
  - left. split; [done|]. by apply Hno.
Qed.

(** A promotion whose first reply is lost gives the caller what it would have given
    had the reply arrived, and takes no second generation. *)
Theorem promotion_survives_lost_reply `{RedisLinkLaws} `{!RedisStoreLaws} sk token maxlen ttl
    fields n m d reply d' error :
  (0 < lease_ttl_ms ttl)%N → maxlen_keeps maxlen →
  keyed sk n d → stream_at sk m d → (N.max n m + 1 < lua_exact)%N →
  r_get (redis_writer_key sk) d ≠ Some token →
  promote_script sk (lease_ttl_ms ttl) token None (maxlen_text maxlen) fields d =
    (Ok reply, d') →
  let lost := {| turn_others := λ d, d; turn_delivery := ReplyLost error |} in
  let request := promotion_of sk token None maxlen ttl fields in
  (tokio_promote request {| link_db := d; link_turns := [lost] |}).1 =
    promotion_result [reply.1; reply.2] ∧
  (tokio_promote request {| link_db := d; link_turns := [] |}).1 =
    promotion_result [reply.1; reply.2] ∧
  link_db (tokio_promote request {| link_db := d; link_turns := [lost] |}).2 =
    r_pexpire (redis_writer_key sk) (lease_ttl_ms ttl) d'.
Proof. intros Httl Hmax Hn Hm. by eapply promote_after_lost_reply. Qed.

(** Over a connection that delivers, verifying or renewing the lease succeeds only
    for the owner of the generation, and the error tells the two other cases apart: it
    reads as a stale writer exactly when another token or generation is in place, and as
    a missing fence exactly when there is no token at all. *)
Theorem fence_probe_classified `{RedisLinkLaws} c wk gk token g ttl r :
  turn_fate c = Delivered →
  (tokio_verify_writer {| vc_writer_key := wk; vc_writer_generation_key := gk;
      vc_writer_token := token; vc_generation := g; vc_lease_ttl := ttl |} c).1 = r ∨
  (tokio_renew_writer {| rn_writer_key := wk; rn_writer_generation_key := gk;
      rn_writer_token := token; rn_generation := g; rn_lease_ttl := ttl |} c).1 = r →
  match r with
  | Ok _ => r_get wk (turn_data c) = Some token ∧
            r_get gk (turn_data c) = Some (u64_to_string g)
  | Err error =>
      (is_stale_writer_error error = true ↔ fence_taken wk gk token g (turn_data c)) ∧
      (str_contains MISSING_FENCE_MESSAGE (error_chain error) = true ↔
       r_get wk (turn_data c) = None)
  end.
Proof.
  intros Hf [<-|<-].
  - unfold tokio_verify_writer, VERIFY_WRITER_SCRIPT. cbn.
    destruct (match query _ c with (Ok _, _) => _ | (Err _, _) => _ end) as [r c'] eqn:Er.
    apply probe_outcome in Er; [done|done|by eexists _, _|].
    intros needle [->|[->|[]%elem_of_nil]%elem_of_cons]%elem_of_cons; by vm_compute.
  - unfold tokio_renew_writer, RENEW_WRITER_SCRIPT. cbn.
    destruct (match query _ c with (Ok _, _) => _ | (Err _, _) => _ end) as [r c'] eqn:Er.
    apply probe_outcome in Er; [done|done|by eexists _, _|].
    intros needle [->|[->|[]%elem_of_nil]%elem_of_cons]%elem_of_cons; by vm_compute.
Qed.

(** [TokioRedisStreamWriter] keeps the contract the publisher is proved against, on
    any connection and with other clients acting in between. *)
Theorem tokio_implements_writer_contract `{RedisLinkLaws} `{!RedisStoreLaws} :
  @RedisStreamWriterLaws TokioRedisStreamWriter.
Proof. apply tokio_writer_laws. Qed.

(** ** Witnesses *)

Definition demo_link : @RedisLink demo_store demo_redis :=
  @Build_RedisLink demo_store demo_redis
    (λ s, "An error was signalled by the server - ResponseError: " +:+ s)
    (λ es, Ok (map (λ e, @Build_StreamId demo_redis e.1 (fields_map e.2)) es)).

Lemma demo_link_laws : @RedisLinkLaws demo_store demo_redis demo_link.
Proof.
  split.
  - intros needle s [->|[->|[]%elem_of_nil]%elem_of_cons]%elem_of_cons;
      (apply str_contains_skip; by vm_compute).
  - intros es. eexists. split; [done|]. induction es as [|e es IH]; constructor; [|done].
    split; [done|]. intros k. cbn. by destruct (fields_map e.2 !! k).
Qed.

(** Generation 7 of the stream, two entries in. *)
Definition demo_seven : demo_db := {|
  demo_keys := <["events:writer" := "writer-a"]> (<["events:writer_generation" := "7"]> ∅);
  demo_streams := <["events" := ("7-2", [("7-1", []); ("7-2", [])])]> ∅;
|}.

Definition demo_append : RedisAppendCommand := {|
  ac_stream_key := "events"; ac_writer_key := "events:writer";
  ac_writer_generation_key := "events:writer_generation"; ac_maxlen := Some 1000%N;
  ac_writer_token := "writer-a"; ac_generation := 7; ac_lease_ttl := from_secs 30;
  ac_entry := demo_entry;
|}.

Definition demo_turn (fate : delivery) : @turn demo_store :=
  @Build_turn demo_store (λ d, d) fate.

(** Executed with its reply lost, then a lookup that fails, then a command that is never
    executed and a lookup that fails too. *)
Definition demo_connection : @connection demo_store :=
  @Build_connection demo_store demo_seven
    (map demo_turn [ReplyLost "timed out"; NotExecuted "broken pipe";
                    NotExecuted "connection refused"; ReplyLost "timed out"]).

Definition demo_attempts :=
  @append_attempts demo_store demo_redis demo_link demo_append 2 demo_connection.

Lemma append_at_most_once_witness :
  demo_attempts.1 !! 0 = Some (redis_context "Redis XRANGE failed while checking XADD result"
                                 "broken pipe") ∧
  ∃ c'', @tokio_append_fenced demo_store demo_redis demo_link demo_append demo_attempts.2 =
         (Ok "7-3", c'').
Proof.
  split; [by vm_compute|].
  destruct (@append_at_most_once demo_store demo_redis demo_link demo_link_laws
              demo_store_laws demo_append "7-3" {| millis := 7; sequence := 3 |} 2 demo_connection
              demo_attempts.1 demo_attempts.2) as [[[Hr _] _]|[_ Hagain]].
  - discriminate.
  - by split.
  - vm_compute. reflexivity.
  - vm_compute. reflexivity.
  - by repeat constructor.
  - vm_compute. reflexivity.
  - apply surjective_pairing.
  - apply (f_equal (λ r, match r with Ok found => length found | Err _ => 0 end)) in Hr.
    vm_compute in Hr. discriminate Hr.
  - destruct Hagain as (c'' & Hc & _); [|exists c''; exact Hc].
    apply nil_length_inv. vm_compute. reflexivity.
Defined.

Definition demo_acknowledged :=
  @tokio_append_fenced demo_store demo_redis demo_link demo_append
    (@Build_connection demo_store demo_seven [demo_turn (ReplyLost "timed out")]).

Lemma acknowledged_append_is_stored_witness :
  @stored_in demo_store "events" "7-3" (redis_entry_fields demo_entry)
    (link_db demo_acknowledged.2).
Proof.
  assert (demo_acknowledged.1 = Ok "7-3") as Hok by (vm_compute; reflexivity).
  refine (proj2 (@acknowledged_append_is_stored demo_store demo_redis demo_link demo_link_laws
            demo_store_laws demo_append
            (@Build_connection demo_store demo_seven [demo_turn (ReplyLost "timed out")]) "7-3"
            demo_acknowledged.2 _ _)); [by split|].
  rewrite <- Hok. apply surjective_pairing.
Defined.

Lemma promotion_survives_lost_reply_witness :
  (@tokio_promote demo_store demo_redis demo_link
     (promotion_of "events" "writer-a" None None (from_secs 30) [("kind", "progress")])
     (@Build_connection demo_store demo_empty [demo_turn (ReplyLost "timed out")])).1 =
  Ok {| pr_generation := 1; pr_entry_id := "1-1" |}.
Proof.
  destruct (@promotion_survives_lost_reply demo_store demo_redis demo_link demo_link_laws
              demo_store_laws "events" "writer-a" None (from_secs 30) [("kind", "progress")]
              0 0 demo_empty ("1", "1-1") demo_promoted "timed out") as [Hlost _].
  - by vm_compute.
  - done.
  - by right.
  - right. split; [done|]. exists "ERR no such key". by split; vm_compute.
  - by vm_compute.
  - by vm_compute.
  - by vm_compute.
  - etransitivity; [exact Hlost|]. by vm_compute.
Defined.

Lemma fence_probe_classified_witness :
  ∃ error,
    (@tokio_verify_writer demo_store demo_redis demo_link
       {| vc_writer_key := "events:writer"; vc_writer_generation_key := "events:writer_generation";
          vc_writer_token := "writer-b"; vc_generation := 7; vc_lease_ttl := from_secs 30 |}
       (@Build_connection demo_store demo_seven [])).1 = Err error ∧
    is_stale_writer_error error = true.
Proof.
  eexists. split; [by vm_compute|].
  apply (@fence_probe_classified demo_store demo_redis demo_link demo_link_laws
           (@Build_connection demo_store demo_seven []) "events:writer" "events:writer_generation"
           "writer-b" 7 (from_secs 30)
           (Err {| error_context := ["Redis active writer verification failed"];
                   error_root := Message ("An error was signalled by the server - ResponseError: "
                                            +:+ STALE_WRITER_TOKEN) |})).
  - done.
  - left. by vm_compute.
  - left. exists "writer-a". by split; vm_compute.
Defined.

Lemma tokio_implements_writer_contract_witness :
  @RedisStreamWriterLaws (@TokioRedisStreamWriter demo_store demo_redis demo_link).
Proof.
  exact (@tokio_implements_writer_contract demo_store demo_redis demo_link demo_link_laws
           demo_store_laws).
Defined.
