(* ===== verification/Publisher.v ===== *)
(** * The Redis publisher

    [runtime/src/broadcaster/redis_publisher.rs]: [BroadcasterRedisPublisher], the
    single process that turns accepted payloads into the entries of the stream.  Its
    state behind the lock [inner], the recovery gate, the startup handoff, the
    deployment phase, and every operation on them, over any [RedisStreamWriter].

    Locks: an operation holds [inner] from its first access to its return, so that
    operations follow one another; what may run in between is what takes other locks
    only, the list [sys_schedule] of [ConcurrentOp]s, a batch for each point where a
    running operation waits. *)

From S2P Require Import Prelude Ordered Text Protocol Wire Validate TychoFeed Codec RedisEntry.
From S2P Require Import Replay RedisStore Recovery Writer.

(** ** Phases and modes *)

Inductive BroadcasterDeploymentPhase :=
| PhaseWarming
| PhaseCandidateBuilding
| PhasePromoting
| PhaseArtifactFinalizing
| PhaseHandoffDraining
| PhaseAdmitted
| PhaseRetired
| PhaseFatal
| PhaseShuttingDown.

Definition BroadcasterDeploymentPhase_as_str (phase : BroadcasterDeploymentPhase) : string :=
  match phase with
  | PhaseWarming => "warming"
  | PhaseCandidateBuilding => "candidate_building"
  | PhasePromoting => "promoting"
  | PhaseArtifactFinalizing => "artifact_finalizing"
  | PhaseHandoffDraining => "handoff_draining"
  | PhaseAdmitted => "admitted"
  | PhaseRetired => "retired"
  | PhaseFatal => "fatal"
  | PhaseShuttingDown => "shutting_down"
  end.

Definition is_admitted (phase : BroadcasterDeploymentPhase) : bool :=
  match phase with PhaseAdmitted => true | _ => false end.

Definition is_terminal (phase : BroadcasterDeploymentPhase) : bool :=
  match phase with PhaseRetired | PhaseFatal | PhaseShuttingDown => true | _ => false end.

Record BroadcasterDeploymentAdmissionSnapshot := {
  adm_admitted : bool;
  adm_phase : BroadcasterDeploymentPhase;
  adm_last_error : option string;
}.

Definition BroadcasterDeploymentAdmissionSnapshot_new (phase : BroadcasterDeploymentPhase)
    (last_error : option string) : BroadcasterDeploymentAdmissionSnapshot :=
  {| adm_admitted := is_admitted phase; adm_phase := phase; adm_last_error := last_error |}.

(** The closure of [set_deployment_phase]. *)
Definition next_admission (phase : BroadcasterDeploymentPhase) (last_error : option string)
    (current : BroadcasterDeploymentAdmissionSnapshot) : BroadcasterDeploymentAdmissionSnapshot :=
  if is_terminal (adm_phase current) || (adm_admitted current && negb (is_terminal phase))
  then current
  else BroadcasterDeploymentAdmissionSnapshot_new phase last_error.

Inductive BroadcasterRedisPublisherMode := Passive | Active | Retired | Unhealthy.

#[export] Instance mode_eq_dec : EqDecision BroadcasterRedisPublisherMode.
Proof. solve_decision. Defined.

Definition BroadcasterRedisPublisherMode_as_str (mode : BroadcasterRedisPublisherMode) : string :=
  match mode with
  | Passive => "passive"
  | Active => "active"
  | Retired => "retired"
  | Unhealthy => "unhealthy"
  end.

Definition is_healthy (mode : BroadcasterRedisPublisherMode) : bool :=
  match mode with Passive | Active => true | Retired | Unhealthy => false end.

(** ** State *)

Section state.
Context `{TychoTypes}.

Record StartupHandoffBuffer := {
  sh_id : u64;
  sh_started_at : N;
  sh_payloads : list BroadcasterPayload;
  sh_complete_native_blocks : gset N;
  sh_cancelled : bool;
  sh_frozen : bool;
}.

Record FrozenStartupHandoff := { fh_id : u64; fh_payloads : list BroadcasterPayload }.

Record BroadcasterRedisPublisherState := {
  ps_mode : BroadcasterRedisPublisherMode;
  ps_generation : u64;
  ps_stream_id : string;
  ps_snapshot_id : string;
  ps_next_message_seq : u64;
  ps_committed_state_version : u64;
  ps_next_state_version : u64;
  ps_latest_entry_id : option string;
  ps_append_success_count : u64;
  ps_append_failure_count : u64;
  ps_retry_exhaustion_count : u64;
  ps_last_error : option string;
  ps_startup_handoff : option StartupHandoffBuffer;
}.

(** [complete_native_blocks] is a set, [pending_payloads] a queue; the flag shared with
    the recovery worker is a name in [sys_flags]. *)
Record QueuedPublisherPayload := { qp_payload : BroadcasterPayload; qp_accepted_at : N }.

Record PublisherRecoveryGate := {
  open_recovery_id : option string;
  gate_cancelled : option N;
  complete_native_blocks : gset N;
  pending_payloads : list QueuedPublisherPayload;
  max_pending_payloads : usize;
}.

Definition PublisherRecoveryGate_default : PublisherRecoveryGate :=
  {| open_recovery_id := None; gate_cancelled := None; complete_native_blocks := ∅;
     pending_payloads := []; max_pending_payloads := 0 |}.

Record FeedGateState := { pause_epoch : u64; paused : bool }.

(** The setters of the fields that operations write. *)
Definition set_mode (m : BroadcasterRedisPublisherMode) (s : BroadcasterRedisPublisherState) :=
  {| ps_mode := m; ps_generation := ps_generation s; ps_stream_id := ps_stream_id s;
     ps_snapshot_id := ps_snapshot_id s; ps_next_message_seq := ps_next_message_seq s;
     ps_committed_state_version := ps_committed_state_version s;
     ps_next_state_version := ps_next_state_version s;
     ps_latest_entry_id := ps_latest_entry_id s;
     ps_append_success_count := ps_append_success_count s;
     ps_append_failure_count := ps_append_failure_count s;
     ps_retry_exhaustion_count := ps_retry_exhaustion_count s;
     ps_last_error := ps_last_error s; ps_startup_handoff := ps_startup_handoff s |}.

Definition set_last_error (e : option string) (s : BroadcasterRedisPublisherState) :=
  {| ps_mode := ps_mode s; ps_generation := ps_generation s; ps_stream_id := ps_stream_id s;
     ps_snapshot_id := ps_snapshot_id s; ps_next_message_seq := ps_next_message_seq s;
     ps_committed_state_version := ps_committed_state_version s;
     ps_next_state_version := ps_next_state_version s;
     ps_latest_entry_id := ps_latest_entry_id s;
     ps_append_success_count := ps_append_success_count s;
     ps_append_failure_count := ps_append_failure_count s;
     ps_retry_exhaustion_count := ps_retry_exhaustion_count s;
     ps_last_error := e; ps_startup_handoff := ps_startup_handoff s |}.

Definition set_tail (next_message_seq : u64) (latest_entry_id : string)
    (s : BroadcasterRedisPublisherState) :=
  {| ps_mode := ps_mode s; ps_generation := ps_generation s; ps_stream_id := ps_stream_id s;
     ps_snapshot_id := ps_snapshot_id s; ps_next_message_seq := next_message_seq;
     ps_committed_state_version := ps_committed_state_version s;
     ps_next_state_version := ps_next_state_version s;
     ps_latest_entry_id := Some latest_entry_id;
     ps_append_success_count := ps_append_success_count s;
     ps_append_failure_count := ps_append_failure_count s;
     ps_retry_exhaustion_count := ps_retry_exhaustion_count s;
     ps_last_error := ps_last_error s; ps_startup_handoff := ps_startup_handoff s |}.

Definition set_versions (committed next : u64) (s : BroadcasterRedisPublisherState) :=
  {| ps_mode := ps_mode s; ps_generation := ps_generation s; ps_stream_id := ps_stream_id s;
     ps_snapshot_id := ps_snapshot_id s; ps_next_message_seq := ps_next_message_seq s;
     ps_committed_state_version := committed; ps_next_state_version := next;
     ps_latest_entry_id := ps_latest_entry_id s;
     ps_append_success_count := ps_append_success_count s;
     ps_append_failure_count := ps_append_failure_count s;
     ps_retry_exhaustion_count := ps_retry_exhaustion_count s;
     ps_last_error := ps_last_error s; ps_startup_handoff := ps_startup_handoff s |}.

Definition set_counts (success failure exhausted : u64) (s : BroadcasterRedisPublisherState) :=
  {| ps_mode := ps_mode s; ps_generation := ps_generation s; ps_stream_id := ps_stream_id s;
     ps_snapshot_id := ps_snapshot_id s; ps_next_message_seq := ps_next_message_seq s;
     ps_committed_state_version := ps_committed_state_version s;
     ps_next_state_version := ps_next_state_version s;
     ps_latest_entry_id := ps_latest_entry_id s;
     ps_append_success_count := success; ps_append_failure_count := failure;
     ps_retry_exhaustion_count := exhausted;
     ps_last_error := ps_last_error s; ps_startup_handoff := ps_startup_handoff s |}.

Definition set_handoff (b : option StartupHandoffBuffer) (s : BroadcasterRedisPublisherState) :=
  {| ps_mode := ps_mode s; ps_generation := ps_generation s; ps_stream_id := ps_stream_id s;
     ps_snapshot_id := ps_snapshot_id s; ps_next_message_seq := ps_next_message_seq s;
     ps_committed_state_version := ps_committed_state_version s;
     ps_next_state_version := ps_next_state_version s;
     ps_latest_entry_id := ps_latest_entry_id s;
     ps_append_success_count := ps_append_success_count s;
     ps_append_failure_count := ps_append_failure_count s;
     ps_retry_exhaustion_count := ps_retry_exhaustion_count s;
     ps_last_error := ps_last_error s; ps_startup_handoff := b |}.

(** ** [impl BroadcasterRedisPublisherState] *)

Definition count_exhausted (s : BroadcasterRedisPublisherState) :=
  set_counts (ps_append_success_count s) (ps_append_failure_count s)
    (saturating_add (ps_retry_exhaustion_count s) 1) s.

Definition record_append_success (entry_id : string) (next_message_seq : u64)
    (s : BroadcasterRedisPublisherState) : BroadcasterRedisPublisherState :=
  set_last_error None
    (set_tail next_message_seq entry_id
       (set_counts (saturating_add (ps_append_success_count s) 1) (ps_append_failure_count s)
          (ps_retry_exhaustion_count s) s)).

Definition record_append_failure (s : BroadcasterRedisPublisherState) :
    BroadcasterRedisPublisherState :=
  set_counts (ps_append_success_count s) (saturating_add (ps_append_failure_count s) 1)
    (ps_retry_exhaustion_count s) s.

Definition record_unhealthy (last_error : string) (retry_exhausted : bool)
    (s : BroadcasterRedisPublisherState) : BroadcasterRedisPublisherState :=
  set_last_error (Some last_error)
    (set_mode Unhealthy (if retry_exhausted then count_exhausted s else s)).

Definition record_retired (last_error : string) (s : BroadcasterRedisPublisherState) :
    BroadcasterRedisPublisherState :=
  set_last_error (Some last_error) (set_mode Retired s).

Definition activate_generation (chain_id generation : u64) (s : BroadcasterRedisPublisherState) :
    BroadcasterRedisPublisherState :=
  {| ps_mode := Active;
     ps_generation := generation;
     ps_stream_id := format_redis_stream_id chain_id generation;
     ps_snapshot_id := format_redis_snapshot_id chain_id generation;
     ps_next_message_seq := 2;
     ps_committed_state_version := state_version_base generation;
     ps_next_state_version := state_version_base generation;
     ps_latest_entry_id := Some (u64_to_string generation +:+ "-1");
     ps_append_success_count := ps_append_success_count s;
     ps_append_failure_count := ps_append_failure_count s;
     ps_retry_exhaustion_count := ps_retry_exhaustion_count s;
     ps_last_error := None;
     ps_startup_handoff := ps_startup_handoff s |}.

Definition allocate_state_version (s : BroadcasterRedisPublisherState) :
    anyhow (u64 * BroadcasterRedisPublisherState) :=
  next ← ok_or (checked_add (ps_next_state_version s) 1)
           (anyhow_error "Redis broadcaster state version overflow");
  Ok (next, set_versions (ps_committed_state_version s) next s).
End state.

(** ** Payloads *)

Section payloads.
Context `{TychoTypes}.

(** The free function [complete_native_block]. *)
Definition payload_complete_native_block (payload : BroadcasterPayload) : option N :=
  match payload with
  | Update update => BroadcasterUpdateMessage_complete_native_block update
  | _ => None
  end.

Definition queued_complete_native_blocks (pending_payloads : list QueuedPublisherPayload) :
    gset N :=
  list_to_set (omap (λ queued, payload_complete_native_block (qp_payload queued))
                 pending_payloads).

(** The closure of [retain_mut]: what is left of a queued payload, if anything. *)
Definition trim_queued (backends : list BroadcasterBackend) (queued : QueuedPublisherPayload) :
    option QueuedPublisherPayload :=
  match qp_payload queued with
  | Update update =>
      match filter (λ p, up_backend p ∉ backends) (um_partitions update) with
      | [] => None
      | partitions => Some {| qp_payload := Update {| um_partitions := partitions |};
                              qp_accepted_at := qp_accepted_at queued |}
      end
  | _ => Some queued
  end.

Definition trim_queued_target_backends (pending_payloads : list QueuedPublisherPayload)
    (backends : list BroadcasterBackend) : list QueuedPublisherPayload :=
  omap (trim_queued backends) pending_payloads.

Definition normalize_live_payload (payload : BroadcasterPayload) (snapshot_id : string) :
    anyhow BroadcasterPayload :=
  match payload with
  | Update _ => Ok payload
  | Heartbeat h =>
      Heartbeat <$> from_contract (BroadcasterHeartbeat_new (hb_chain_id h) snapshot_id
                                     (hb_backend_heads h))
  | Progress p =>
      Progress <$> from_contract (BroadcasterProgress_new (pg_chain_id p) snapshot_id
                                    (pg_backends p) (pg_reason p))
  | _ => anyhow_bail "Redis broadcaster live payload cannot be a snapshot or recovery message"
  end.

Definition is_heartbeat (payload : BroadcasterPayload) : bool :=
  match payload with Heartbeat _ => true | _ => false end.
Definition is_update (payload : BroadcasterPayload) : bool :=
  match payload with Update _ => true | _ => false end.

Definition is_recovery_kind (kind : BroadcasterMessageKind) : bool :=
  match kind with
  | KRecoveryStart | KRecoveryChunk | KRecoveryCatchUp | KRecoveryCommit => true
  | _ => false
  end.

(** ** The recovery gate, open *)

Definition push_pending (now : N) (payload : BroadcasterPayload) (gate : PublisherRecoveryGate) :
    PublisherRecoveryGate :=
  let pending := pending_payloads gate ++ [{| qp_payload := payload; qp_accepted_at := now |}] in
  {| open_recovery_id := open_recovery_id gate; gate_cancelled := gate_cancelled gate;
     complete_native_blocks := complete_native_blocks gate; pending_payloads := pending;
     max_pending_payloads := N.max (max_pending_payloads gate) (len pending) |}.

Definition note_native_block (block_number : N) (gate : PublisherRecoveryGate) :
    PublisherRecoveryGate :=
  {| open_recovery_id := open_recovery_id gate; gate_cancelled := gate_cancelled gate;
     complete_native_blocks := {[ block_number ]} ∪ complete_native_blocks gate;
     pending_payloads := pending_payloads gate;
     max_pending_payloads := max_pending_payloads gate |}.

(** [cancelled.store(true)] on the flag the gate holds, if any. *)
Definition raise_flag (flag : option N) (flags : gmap N bool) : gmap N bool :=
  match flag with Some flag => <[flag := true]> flags | None => flags end.

(** The branch of [publish_accepted_payload] for an open reservation. *)
Definition gate_accept (limit : usize) (now : N) (payload : BroadcasterPayload)
    (gate : PublisherRecoveryGate) (flags : gmap N bool) :
    anyhow unit * PublisherRecoveryGate * gmap N bool :=
  if is_heartbeat payload then (Ok tt, gate, flags)
  else
    let '(gate, flags) :=
      match payload_complete_native_block payload with
      | Some block_number =>
          let gate := note_native_block block_number gate in
          (gate, if (limit <=? N.of_nat (size (complete_native_blocks gate)))%N
                 then raise_flag (gate_cancelled gate) flags else flags)
      | None => (gate, flags)
      end in
    if (len (pending_payloads gate) <? MAX_PENDING_RECOVERY_PAYLOADS)%N
    then (Ok tt, push_pending now payload gate, flags)
    else (anyhow_bail "Redis broadcaster recovery payload queue is full", gate, flags).
End payloads.

(** ** The process and its environment *)

(** Clocks, randomness and timers.  [entry_times] is [current_time_ms] for the entries
    of one recovery, by sequence number and attempt; a timed-out future is dropped where
    it was, so that what it had done to the world by then stays. *)
Class PublisherEnv `{RedisStreamWriter} := {
  instant_now : world → N * world;
  system_time : world → option Duration * world;
  entry_times : world → (u64 → nat → u64) * world;
  gen_range : u64 → world → u64 * world;
  sleep : Duration → world → world;
  timeout : ∀ A, Duration → (world → A * world) → world → option A * world;
}.
Arguments timeout {_ _ A} _ _ _.

Section publisher.
Context `{SerdeJson} `{Keccak} `{PublisherEnv}.
Context (config : BroadcasterRedisPublisherConfig) (writer_token : string).

Record BroadcasterRedisPublisherStatus := {
  st_healthy : bool;
  st_mode : string;
  st_stream_key : string;
  st_stream_id : string;
  st_snapshot_id : string;
  st_latest_entry_id : option string;
  st_replay_boundary : option BroadcasterRedisReplayBoundary;
  st_append_success_count : u64;
  st_append_failure_count : u64;
  st_retry_exhaustion_count : u64;
  st_last_error : option string;
}.

(** What can run while an operation holds [inner]: a payload accepted into an open gate
    (with the time it is accepted), a recovery worker's flag raised, a phase set from
    outside, the end of [recover_writer]. *)
Inductive ConcurrentOp :=
| CAccept (payload : BroadcasterPayload) (now : N)
| CCancel (flag : N)
| CPhase (phase : BroadcasterDeploymentPhase) (last_error : option string)
| CResetGate.

(** [sys_log] is history, read by no operation: the entries acknowledged so far. *)
Record sys := {
  sys_inner : BroadcasterRedisPublisherState;
  sys_gate : PublisherRecoveryGate;
  sys_next_recovery_id : u64;
  sys_next_startup_handoff_id : u64;
  sys_feed_gate : FeedGateState;
  sys_admission : BroadcasterDeploymentAdmissionSnapshot;
  sys_last_status : BroadcasterRedisPublisherStatus;
  sys_flags : gmap N bool;
  sys_schedule : list (list ConcurrentOp);
  sys_world : world;
  sys_log : list BroadcasterRedisStreamEntry;
}.

Definition with_inner (f : BroadcasterRedisPublisherState → BroadcasterRedisPublisherState)
    (s : sys) : sys :=
  {| sys_inner := f (sys_inner s); sys_gate := sys_gate s;
     sys_next_recovery_id := sys_next_recovery_id s;
     sys_next_startup_handoff_id := sys_next_startup_handoff_id s;
     sys_feed_gate := sys_feed_gate s; sys_admission := sys_admission s;
     sys_last_status := sys_last_status s; sys_flags := sys_flags s;
     sys_schedule := sys_schedule s; sys_world := sys_world s; sys_log := sys_log s |}.

Definition with_gate (gate : PublisherRecoveryGate) (flags : gmap N bool) (s : sys) : sys :=
  {| sys_inner := sys_inner s; sys_gate := gate;
     sys_next_recovery_id := sys_next_recovery_id s;
     sys_next_startup_handoff_id := sys_next_startup_handoff_id s;
     sys_feed_gate := sys_feed_gate s; sys_admission := sys_admission s;
     sys_last_status := sys_last_status s; sys_flags := flags;
     sys_schedule := sys_schedule s; sys_world := sys_world s; sys_log := sys_log s |}.

Definition with_ids (recovery handoff : u64) (s : sys) : sys :=
  {| sys_inner := sys_inner s; sys_gate := sys_gate s; sys_next_recovery_id := recovery;
     sys_next_startup_handoff_id := handoff;
     sys_feed_gate := sys_feed_gate s; sys_admission := sys_admission s;
     sys_last_status := sys_last_status s; sys_flags := sys_flags s;
     sys_schedule := sys_schedule s; sys_world := sys_world s; sys_log := sys_log s |}.

Definition with_feed_gate (f : FeedGateState → FeedGateState) (s : sys) : sys :=
  {| sys_inner := sys_inner s; sys_gate := sys_gate s;
     sys_next_recovery_id := sys_next_recovery_id s;
     sys_next_startup_handoff_id := sys_next_startup_handoff_id s;
     sys_feed_gate := f (sys_feed_gate s); sys_admission := sys_admission s;
     sys_last_status := sys_last_status s; sys_flags := sys_flags s;
     sys_schedule := sys_schedule s; sys_world := sys_world s; sys_log := sys_log s |}.

Definition with_admission
    (f : BroadcasterDeploymentAdmissionSnapshot → BroadcasterDeploymentAdmissionSnapshot)
    (s : sys) : sys :=
  {| sys_inner := sys_inner s; sys_gate := sys_gate s;
     sys_next_recovery_id := sys_next_recovery_id s;
     sys_next_startup_handoff_id := sys_next_startup_handoff_id s;
     sys_feed_gate := sys_feed_gate s; sys_admission := f (sys_admission s);
     sys_last_status := sys_last_status s; sys_flags := sys_flags s;
     sys_schedule := sys_schedule s; sys_world := sys_world s; sys_log := sys_log s |}.

Definition with_last_status (status : BroadcasterRedisPublisherStatus) (s : sys) : sys :=
  {| sys_inner := sys_inner s; sys_gate := sys_gate s;
     sys_next_recovery_id := sys_next_recovery_id s;
     sys_next_startup_handoff_id := sys_next_startup_handoff_id s;
     sys_feed_gate := sys_feed_gate s; sys_admission := sys_admission s;
     sys_last_status := status; sys_flags := sys_flags s;
     sys_schedule := sys_schedule s; sys_world := sys_world s; sys_log := sys_log s |}.

Definition with_schedule (schedule : list (list ConcurrentOp)) (s : sys) : sys :=
  {| sys_inner := sys_inner s; sys_gate := sys_gate s;
     sys_next_recovery_id := sys_next_recovery_id s;
     sys_next_startup_handoff_id := sys_next_startup_handoff_id s;
     sys_feed_gate := sys_feed_gate s; sys_admission := sys_admission s;
     sys_last_status := sys_last_status s; sys_flags := sys_flags s;
     sys_schedule := schedule; sys_world := sys_world s; sys_log := sys_log s |}.

Definition with_world (w : world) (s : sys) : sys :=
  {| sys_inner := sys_inner s; sys_gate := sys_gate s;
     sys_next_recovery_id := sys_next_recovery_id s;
     sys_next_startup_handoff_id := sys_next_startup_handoff_id s;
     sys_feed_gate := sys_feed_gate s; sys_admission := sys_admission s;
     sys_last_status := sys_last_status s; sys_flags := sys_flags s;
     sys_schedule := sys_schedule s; sys_world := w; sys_log := sys_log s |}.

Definition with_log (entry : BroadcasterRedisStreamEntry) (s : sys) : sys :=
  {| sys_inner := sys_inner s; sys_gate := sys_gate s;
     sys_next_recovery_id := sys_next_recovery_id s;
     sys_next_startup_handoff_id := sys_next_startup_handoff_id s;
     sys_feed_gate := sys_feed_gate s; sys_admission := sys_admission s;
     sys_last_status := sys_last_status s; sys_flags := sys_flags s;
     sys_schedule := sys_schedule s; sys_world := sys_world s;
     sys_log := sys_log s ++ [entry] |}.

(** ** The monad of operations *)

Abbreviation M := (stateR sys AnyhowError).

Definition inner {A} (f : BroadcasterRedisPublisherState → A) : M A := gets (λ s, f (sys_inner s)).
Definition modify_inner (f : BroadcasterRedisPublisherState → BroadcasterRedisPublisherState) :
    M unit := modify (with_inner f).
Definition call {A} (f : world → A * world) : M A :=
  λ s, let (a, w) := f (sys_world s) in (Ok a, with_world w s).
Definition bail {A} (message : string) : M A := throw (anyhow_error message).
(** [anyhow::ensure!]. *)
Definition ensure_that (b : bool) (message : string) : M unit :=
  if b then mret tt else bail message.
(** A result that is matched on rather than returned with [?]. *)
Definition attempt {A} (m : M A) : M (anyhow A) := λ s, let (r, s') := m s in (Ok r, s').

Definition set_deployment_phase (phase : BroadcasterDeploymentPhase) (last_error : option string) :
    M unit := modify (with_admission (next_admission phase last_error)).

(** [current_time_ms]. *)
Definition current_time_ms (w : world) : u64 * world :=
  let (since_epoch, w) := system_time w in
  (match since_epoch with Some d => (as_millis d) mod 2 ^ 64 | None => 0%N end, w)%N.

(** [started_at.elapsed()]. *)
Definition elapsed (started_at : N) : M Duration :=
  now ← call instant_now; mret (saturating_sub now started_at).

(** The other tasks' turn. *)
Definition run_concurrent (s : sys) (op : ConcurrentOp) : sys :=
  match op with
  | CAccept payload now =>
      match open_recovery_id (sys_gate s) with
      | Some _ =>
          let '(_, gate, flags) :=
            gate_accept (recovery_max_buffered_native_blocks config) now payload (sys_gate s)
              (sys_flags s) in
          with_gate gate flags s
      | None => s (* it waits for [inner] *)
      end
  | CCancel flag => with_gate (sys_gate s) (<[flag := true]> (sys_flags s)) s
  | CPhase phase last_error => with_admission (next_admission phase last_error) s
  | CResetGate => with_gate PublisherRecoveryGate_default (sys_flags s) s
  end.

Definition interleave : M unit :=
  modify (λ s,
    match sys_schedule s with
    | [] => s
    | batch :: schedule => foldl run_concurrent (with_schedule schedule s) batch
    end).

(** ** Commands *)

Definition append_request (generation : u64) (entry : BroadcasterRedisStreamEntry) :
    RedisAppendCommand := {|
  ac_stream_key := stream_key config;
  ac_writer_key := redis_writer_key (stream_key config);
  ac_writer_generation_key := redis_writer_generation_key (stream_key config);
  ac_maxlen := maxlen config;
  ac_writer_token := writer_token;
  ac_generation := generation;
  ac_lease_ttl := writer_lease_ttl config;
  ac_entry := entry;
|}.

Definition renew_request (generation : u64) : RedisRenewCommand := {|
  rn_writer_key := redis_writer_key (stream_key config);
  rn_writer_generation_key := redis_writer_generation_key (stream_key config);
  rn_writer_token := writer_token;
  rn_generation := generation;
  rn_lease_ttl := writer_lease_ttl config;
|}.

Definition verify_request (generation : u64) : RedisVerifyCommand := {|
  vc_writer_key := redis_writer_key (stream_key config);
  vc_writer_generation_key := redis_writer_generation_key (stream_key config);
  vc_writer_token := writer_token;
  vc_generation := generation;
  vc_lease_ttl := writer_lease_ttl config;
|}.

Definition inspect_request (generation : u64) : RedisInspectCommand := {|
  ic_stream_key := stream_key config;
  ic_writer_key := redis_writer_key (stream_key config);
  ic_writer_generation_key := redis_writer_generation_key (stream_key config);
  ic_writer_token := writer_token;
  ic_generation := generation;
|}.

(** ** Retries *)

Definition RETRY_BACKOFF_BASE : Duration := from_millis 5.
Definition RETRY_BACKOFF_CAP : Duration := from_millis 200.
Definition WRITER_PROBE_TIMEOUT : Duration := from_secs 2.
Definition STATUS_VERIFY_TIMEOUT : Duration := from_secs 2.
Definition STARTUP_HANDOFF_ABORT_AFTER : Duration := from_secs 60.

Definition remaining_retry_window (started_at : N) (retry_window : Duration) :
    M (option Duration) :=
  spent ← elapsed started_at;
  let remaining := saturating_sub retry_window spent in
  mret (if (remaining =? 0)%N then None else Some remaining).

Definition retry_backoff (attempts : u64) : Duration :=
  let multiplier := N.shiftl 1 (N.min (saturating_sub attempts 1) 5) in
  N.min (duration_saturating_mul RETRY_BACKOFF_BASE multiplier) RETRY_BACKOFF_CAP.

Definition sleep_before_retry (started_at : N) (retry_window : Duration) (attempts : u64) :
    M unit :=
  spent ← elapsed started_at;
  let remaining := saturating_sub retry_window spent in
  if (remaining =? 0)%N then mret tt
  else
    let backoff := N.min (retry_backoff attempts) remaining in
    let max_delay_ms := N.max (as_millis backoff) 1 in
    delay_ms ← call (gen_range max_delay_ms);
    call (λ w, (tt, sleep (from_millis delay_ms) w)).

(** Metrics and logs apart, a failed write is counted. *)
Definition record_write_failure : M unit := modify_inner record_append_failure.

(** The loop of [append_with_retry]; [None] when the fuel runs out. *)
Fixpoint append_loop (fuel : nat) (entry : BroadcasterRedisStreamEntry) (started_at : N)
    (attempts : u64) (last_error : option string) : M (option string) :=
  match fuel with
  | O => mret None
  | S fuel' =>
      window ← remaining_retry_window started_at (append_retry_window config);
      match window with
      | None =>
          record_write_failure ;;
          bail (default APPEND_EXHAUSTED_MESSAGE last_error)
      | Some remaining =>
          let attempts := saturating_add attempts 1 in
          generation ← inner ps_generation;
          reply ← call (timeout remaining (w_append_fenced (append_request generation entry)));
          match reply with
          | None => record_write_failure ;; bail APPEND_EXHAUSTED_MESSAGE
          | Some (Ok entry_id) => mret (Some entry_id)
          | Some (Err error) =>
              if is_stale_writer_error error then record_write_failure ;; throw error
              else
                spent ← elapsed started_at;
                if (append_retry_window config <=? spent)%N
                then record_write_failure ;; throw error
                else
                  sleep_before_retry started_at (append_retry_window config) attempts ;;
                  append_loop fuel' entry started_at attempts (Some (error_to_string error))
          end
      end
  end.

(** Every turn but the last lasts at least a millisecond. *)
Definition append_fuel : nat := N.to_nat (as_millis (append_retry_window config)) + 2.

Definition append_with_retry (entry : BroadcasterRedisStreamEntry) : M string :=
  started_at ← call instant_now;
  reply ← append_loop append_fuel entry started_at 0 None;
  match reply with
  | Some entry_id => mret entry_id
  | None => bail "out of fuel"
  end.

(** ** Appending *)

Definition append_entry_locked (entry : BroadcasterRedisStreamEntry) : M string :=
  next_message_seq ← inner ps_next_message_seq;
  if negb (message_seq entry =? next_message_seq)%N
  then bail ("Redis broadcaster prepared entry sequence mismatch: expected "
               +:+ u64_to_string next_message_seq +:+ ", found "
               +:+ u64_to_string (message_seq entry))
  else
    next ← lift (ok_or (checked_add (message_seq entry) 1)
                   (anyhow_error "Redis broadcaster message_seq overflow"));
    reply ← attempt (append_with_retry entry);
    entry_id ← lift (with_context ("failed to append Redis broadcaster message_seq "
                                     +:+ u64_to_string (message_seq entry)) reply);
    modify_inner (record_append_success entry_id next) ;;
    modify (with_log entry) ;;
    mret entry_id.

Definition allocate_state_version_locked : M u64 :=
  state ← inner id;
  allocated ← lift (allocate_state_version state);
  modify_inner (λ _, allocated.2) ;;
  mret allocated.1.

Definition commit_state_version (version : u64) (s : BroadcasterRedisPublisherState) :
    BroadcasterRedisPublisherState :=
  set_versions version (ps_next_state_version s) s.

Definition append_live_payload_locked (payload : BroadcasterPayload) :
    M (BroadcasterRedisStreamEntry * string) :=
  let advances_state := is_update payload in
  state_version ← (if advances_state then allocate_state_version_locked
                   else inner ps_committed_state_version);
  state ← inner id;
  now ← call current_time_ms;
  entry ← lift (from_contract (from_envelope_at (config_chain_id config)
            {| env_stream_id := ps_stream_id state;
               env_message_seq := ps_next_message_seq state; env_payload := payload |}
            now state_version));
  _ ← lift (ensure_redis_entry_size config entry
              (if is_recovery_kind (kind entry) then RECOVERY_REDIS_ENTRY_MAX_BYTES
               else LIVE_REDIS_ENTRY_MAX_BYTES));
  entry_id ← append_entry_locked entry;
  (if advances_state then modify_inner (commit_state_version state_version) else mret tt) ;;
  mret (entry, entry_id).

Definition replay_boundary_of (state : BroadcasterRedisPublisherState) :
    anyhow BroadcasterRedisReplayBoundary :=
  from_contract (BroadcasterRedisReplayBoundary_new (stream_key config) (ps_stream_id state)
    (ps_snapshot_id state) (ps_generation state)
    (saturating_sub (ps_next_message_seq state) 1) (ps_committed_state_version state)).

Definition replay_boundary_locked : M BroadcasterRedisReplayBoundary :=
  state ← inner id; lift (replay_boundary_of state).

(** [ensure_active_publisher]. *)
Definition ensure_active_publisher (state : BroadcasterRedisPublisherState) : anyhow unit :=
  match ps_mode state, ps_last_error state with
  | Active, None => Ok tt
  | Passive, _ => anyhow_bail "Redis broadcaster publisher is passive"
  | Retired, _ =>
      anyhow_bail "Redis broadcaster publisher is retired; this process is no longer the active writer"
  | (Unhealthy | Active), error =>
      anyhow_bail ("Redis broadcaster publisher is unhealthy: "
                     +:+ default "publisher is unhealthy" error)
  end.

(** [record_publisher_error]. *)
Definition record_publisher_error (append_failures_before : u64) (error : AnyhowError) : M unit :=
  modify_inner (λ state,
    let message := error_chain error in
    if is_stale_writer_error error then record_retired message state
    else record_unhealthy message
           (append_failures_before <? ps_append_failure_count state)%N state).

(** ** The startup handoff *)

Definition begin_startup_handoff : M u64 :=
  mode ← inner ps_mode;
  ensure_that (bool_decide (mode = Passive))
    "startup handoff requires a passive Redis publisher" ;;
  id ← gets sys_next_startup_handoff_id;
  modify (λ s, with_ids (sys_next_recovery_id s) ((id + 1) mod 2 ^ 64)%N s) ;;
  now ← call instant_now;
  modify_inner (set_handoff (Some
    {| sh_id := id; sh_started_at := now; sh_payloads := []; sh_complete_native_blocks := ∅;
       sh_cancelled := false; sh_frozen := false |})) ;;
  set_deployment_phase PhaseCandidateBuilding None ;;
  mret id.

Definition abort_startup_handoff (id : u64) (error : string) : M unit :=
  modify_inner (λ state,
    match ps_startup_handoff state with
    | Some buffer => if (sh_id buffer =? id)%N then set_handoff None state else state
    | None => state
    end) ;;
  set_deployment_phase PhaseWarming (Some error).

Definition cancel_handoff (b : StartupHandoffBuffer) : StartupHandoffBuffer :=
  {| sh_id := sh_id b; sh_started_at := sh_started_at b; sh_payloads := sh_payloads b;
     sh_complete_native_blocks := sh_complete_native_blocks b; sh_cancelled := true;
     sh_frozen := sh_frozen b |}.
Definition freeze_handoff (b : StartupHandoffBuffer) : StartupHandoffBuffer :=
  {| sh_id := sh_id b; sh_started_at := sh_started_at b; sh_payloads := [];
     sh_complete_native_blocks := sh_complete_native_blocks b; sh_cancelled := sh_cancelled b;
     sh_frozen := true |}.

(** The time and block bounds of a startup handoff. *)
Definition handoff_expired (buffer : StartupHandoffBuffer) : M bool :=
  spent ← elapsed (sh_started_at buffer);
  mret ((STARTUP_HANDOFF_ABORT_AFTER <=? spent)%N
        || (recovery_max_buffered_native_blocks config
              <=? N.of_nat (size (sh_complete_native_blocks buffer)))%N).

Definition freeze_startup_handoff (id : u64) : M FrozenStartupHandoff :=
  mode ← inner ps_mode;
  ensure_that (bool_decide (mode = Passive))
    "startup handoff can only freeze a passive publisher" ;;
  handoff ← inner ps_startup_handoff;
  match handoff with
  | Some buffer =>
      ensure_that (sh_id buffer =? id)%N "startup handoff candidate is no longer current" ;;
      expired ← handoff_expired buffer;
      let buffer := if (expired : bool) then cancel_handoff buffer else buffer in
      modify_inner (set_handoff (Some buffer)) ;;
      ensure_that (negb (sh_cancelled buffer))
        ("startup handoff exceeded the configured "
           +:+ u64_to_string (recovery_max_buffered_native_blocks config)
           +:+ " native-block or 60-second bound") ;;
      ensure_that (negb (sh_frozen buffer)) "startup handoff is already frozen" ;;
      modify_inner (set_handoff (Some (freeze_handoff buffer))) ;;
      mret {| fh_id := id; fh_payloads := sh_payloads buffer |}
  | None => bail "startup handoff candidate is no longer current"
  end.

(** The [for] loop of [drain_startup_handoff]. *)
Fixpoint drain_handoff_payloads (append_failures_before : u64)
    (payloads : list BroadcasterPayload) : M unit :=
  match payloads with
  | [] => mret tt
  | payload :: rest =>
      snapshot_id ← inner ps_snapshot_id;
      payload ← lift (normalize_live_payload payload snapshot_id);
      reply ← attempt (append_live_payload_locked payload);
      match reply with
      | Ok _ => drain_handoff_payloads append_failures_before rest
      | Err error =>
          let message := error_chain error in
          (if is_stale_writer_error error then
             modify_inner (record_retired message) ;;
             set_deployment_phase PhaseRetired (Some message)
           else
             modify_inner (λ state,
               if (append_failures_before <? ps_append_failure_count state)%N
               then count_exhausted state else state) ;;
             modify_inner (record_retired message) ;;
             set_deployment_phase PhaseFatal (Some message)) ;;
          throw error
      end
  end.

Definition drain_startup_handoff (handoff : FrozenStartupHandoff) : M unit :=
  set_deployment_phase PhaseHandoffDraining None ;;
  state ← inner id;
  ensure_that (bool_decide (ps_mode state = Active))
    "startup handoff drain requires the promoted Redis writer" ;;
  ensure_that (match ps_startup_handoff state with
               | Some buffer => (sh_id buffer =? fh_id handoff)%N && sh_frozen buffer
               | None => false
               end) "startup handoff drain no longer matches the frozen candidate" ;;
  drain_handoff_payloads (ps_append_failure_count state) (fh_payloads handoff) ;;
  modify_inner (set_handoff None).

Definition admit_deployment : M unit := set_deployment_phase PhaseAdmitted None.
Definition begin_shutdown : M unit := set_deployment_phase PhaseShuttingDown None.

(** ** Recovery reservations and accepted payloads *)

(** [cancelled] names the flag shared with the recovery worker. *)
Definition begin_recovery (backends : list BroadcasterBackend) (cancelled : N) : M string :=
  sequence ← gets sys_next_recovery_id;
  modify (λ s, with_ids ((sequence + 1) mod 2 ^ 64)%N (sys_next_startup_handoff_id s) s) ;;
  let recovery_id := "recovery-" +:+ u64_to_string sequence in
  modify (λ s,
    let gate := sys_gate s in
    let (pending, max_pending) :=
      match open_recovery_id gate with
      | None => (pending_payloads gate, 0%N)
      | Some _ => (trim_queued_target_backends (pending_payloads gate) backends,
                   max_pending_payloads gate)
      end in
    let blocks := queued_complete_native_blocks pending in
    with_gate
      {| open_recovery_id := Some recovery_id; gate_cancelled := Some cancelled;
         complete_native_blocks := blocks; pending_payloads := pending;
         max_pending_payloads := max_pending |}
      (if (recovery_max_buffered_native_blocks config <=? N.of_nat (size blocks))%N
       then <[cancelled := true]> (sys_flags s) else sys_flags s) s) ;;
  mret recovery_id.

(** The branch of a passive publisher. *)
Definition accept_into_handoff (payload : BroadcasterPayload) : M unit :=
  handoff ← inner ps_startup_handoff;
  match handoff with
  | None => mret tt
  | Some buffer =>
      ensure_that (negb (sh_frozen buffer))
        "startup handoff cannot accept publications after it is frozen" ;;
      let blocks := match payload_complete_native_block payload with
                    | Some b => {[ b ]} ∪ sh_complete_native_blocks buffer
                    | None => sh_complete_native_blocks buffer
                    end in
      let buffer := {| sh_id := sh_id buffer; sh_started_at := sh_started_at buffer;
                       sh_payloads := sh_payloads buffer; sh_complete_native_blocks := blocks;
                       sh_cancelled := sh_cancelled buffer; sh_frozen := sh_frozen buffer |} in
      expired ← handoff_expired buffer;
      modify_inner (set_handoff (Some
        (if (expired : bool) || sh_cancelled buffer
         then {| sh_id := sh_id buffer; sh_started_at := sh_started_at buffer;
                 sh_payloads := if expired then [] else sh_payloads buffer;
                 sh_complete_native_blocks := blocks; sh_cancelled := true;
                 sh_frozen := sh_frozen buffer |}
         else {| sh_id := sh_id buffer; sh_started_at := sh_started_at buffer;
                 sh_payloads := sh_payloads buffer ++ [payload];
                 sh_complete_native_blocks := blocks; sh_cancelled := false;
                 sh_frozen := sh_frozen buffer |})))
  end.

(** The branch of an active publisher. *)
Definition publish_active_payload (payload : BroadcasterPayload) : M unit :=
  state ← inner id;
  payload ← lift (normalize_live_payload payload (ps_snapshot_id state));
  reply ← attempt (append_live_payload_locked payload);
  match reply with
  | Ok _ => mret tt
  | Err error =>
      match error_root error with
      | OversizedRedisEntry _ _ _ => throw error
      | _ =>
          let message := error_chain error in
          (if is_stale_writer_error error then
             modify_inner (record_retired message) ;;
             set_deployment_phase PhaseRetired (Some message)
           else
             modify_inner (λ now,
               record_unhealthy message
                 (ps_append_failure_count state <? ps_append_failure_count now)%N now)) ;;
          throw error
      end
  end.

Definition publisher_unhealthy {A} (error : string) : M A :=
  bail ("Redis broadcaster publisher is unhealthy; writer recovery is required before publishing more deltas: "
          +:+ error).

(** The branch of an open reservation. *)
Definition accept_into_gate (payload : BroadcasterPayload) (now : N) : M unit :=
  λ s, let '(reply, gate, flags) :=
         gate_accept (recovery_max_buffered_native_blocks config) now payload (sys_gate s)
           (sys_flags s) in
       (reply, with_gate gate flags s).

Definition publish_accepted_payload (payload : BroadcasterPayload) : M unit :=
  gate ← gets sys_gate;
  match open_recovery_id gate with
  | Some _ =>
      if is_heartbeat payload then mret tt
      else
        now ← call instant_now;
        accept_into_gate payload now
  | None =>
      state ← inner id;
      match ps_mode state, ps_last_error state with
      | Passive, _ => accept_into_handoff payload
      | Retired, _ =>
          bail "Redis broadcaster publisher is retired; this process is no longer the active writer"
      | Unhealthy, error => publisher_unhealthy (default "publisher is unhealthy" error)
      | Active, Some error => publisher_unhealthy error
      | Active, None => publish_active_payload payload
      end
  end.

(** ** Draining the gate *)

Definition set_pending (pending : list QueuedPublisherPayload) (s : sys) : sys :=
  let gate := sys_gate s in
  with_gate {| open_recovery_id := open_recovery_id gate; gate_cancelled := gate_cancelled gate;
               complete_native_blocks := complete_native_blocks gate;
               pending_payloads := pending;
               max_pending_payloads := max_pending_payloads gate |} (sys_flags s) s.

Definition close_gate (s : sys) : sys :=
  let gate := sys_gate s in
  with_gate {| open_recovery_id := None; gate_cancelled := None; complete_native_blocks := ∅;
               pending_payloads := pending_payloads gate;
               max_pending_payloads := max_pending_payloads gate |} (sys_flags s) s.

(** The loop of [drain_pending_payloads_locked]; [None] when the fuel runs out. *)
Fixpoint drain_loop (fuel : nat) : M (option unit) :=
  match fuel with
  | O => mret None
  | S fuel' =>
      interleave ;;
      gate ← gets sys_gate;
      match pending_payloads gate with
      | [] => modify close_gate ;; mret (Some tt)
      | queued :: rest =>
          modify (set_pending rest) ;;
          snapshot_id ← inner ps_snapshot_id;
          payload ← lift (normalize_live_payload (qp_payload queued) snapshot_id);
          interleave ;;
          reply ← attempt (append_live_payload_locked payload);
          match reply with
          | Ok _ => drain_loop fuel'
          | Err error =>
              modify (λ s, set_pending
                ({| qp_payload := payload; qp_accepted_at := qp_accepted_at queued |}
                   :: pending_payloads (sys_gate s)) s) ;;
              throw error
          end
      end
  end.

Definition is_accept (op : ConcurrentOp) : bool := match op with CAccept _ _ => true | _ => false end.

(** What is queued, what can still be, and the turn that finds the queue empty. *)
Definition drain_fuel (s : sys) : nat :=
  length (pending_payloads (sys_gate s))
    + length (filter (λ op, is_accept op = true) (concat (sys_schedule s))) + 1.

Definition drain_pending_payloads_locked : M unit :=
  fuel ← gets drain_fuel;
  done ← drain_loop fuel;
  match done with Some _ => mret tt | None => bail "out of fuel" end.

(** ** Recoveries *)

Definition ensure_recovery_not_cancelled (cancelled : N) : M unit :=
  flags ← gets sys_flags;
  if default false (flags !! cancelled)
  then throw {| error_context := []; error_root := RecoveryPublicationCancelled |}
  else mret tt.

Definition is_commit_kind (kind : BroadcasterMessageKind) : bool :=
  match kind with KRecoveryCommit => true | _ => false end.

(** The [for] loop that appends the entries of a transaction. *)
Fixpoint append_recovery_entries (cancelled : N) (append_failures_before : u64)
    (commit_entry_id : option string) (entries : list BroadcasterRedisStreamEntry) :
    M (option string) :=
  match entries with
  | [] => mret commit_entry_id
  | entry :: rest =>
      interleave ;;
      ensure_recovery_not_cancelled cancelled ;;
      reply ← attempt (append_entry_locked entry);
      match reply with
      | Ok entry_id =>
          append_recovery_entries cancelled append_failures_before (Some entry_id) rest
      | Err error =>
          record_publisher_error append_failures_before error ;;
          mode ← inner ps_mode;
          (if bool_decide (mode = Retired)
           then set_deployment_phase PhaseRetired (Some (error_chain error)) else mret tt) ;;
          if is_commit_kind (kind entry) && negb (is_stale_writer_error error)
          then throw {| error_context := [];
                        error_root := RecoveryCommitAdoptionUncertain (error_chain error) |}
          else throw error
      end
  end.

Record BroadcasterRecoveryPublication := {
  pub_recovery_id : string;
  pub_target_state_version : u64;
  pub_commit_entry_id : string;
  pub_replay_boundary : BroadcasterRedisReplayBoundary;
  pub_encoded_bytes : usize;
  pub_chunk_count : usize;
  pub_buffer_a_count : usize;
}.

Definition publish_recovery (transaction : BroadcasterRecoveryTransaction) (cancelled : N) :
    M BroadcasterRecoveryPublication :=
  ensure_recovery_not_cancelled cancelled ;;
  fragments ← lift (prepare_recovery_fragments (tx_replacement_json transaction));
  let recovery_id := tx_recovery_id transaction in
  gate ← gets sys_gate;
  ensure_that (bool_decide (open_recovery_id gate = Some recovery_id))
    ("Redis recovery reservation " +:+ recovery_id +:+ " is no longer active") ;;
  state ← inner id;
  lift (ensure_active_publisher state) ;;
  interleave ;;
  ensure_recovery_not_cancelled cancelled ;;
  target_state_version ← allocate_state_version_locked;
  times ← call entry_times;
  state ← inner id;
  entries ← lift (recovery_entries times config (ps_stream_id state)
              (ps_next_message_seq state) target_state_version transaction fragments);
  encoded_bytes ← lift (recovery_encoded_bytes config entries);
  commit_entry_id ← append_recovery_entries cancelled (ps_append_failure_count state) None
                      entries;
  commit_entry_id ← lift (ok_or commit_entry_id
                      (anyhow_error "Redis recovery committed no entries"));
  modify_inner (commit_state_version target_state_version) ;;
  drain_pending_payloads_locked ;;
  replay_boundary ← replay_boundary_locked;
  mret {| pub_recovery_id := recovery_id; pub_target_state_version := target_state_version;
          pub_commit_entry_id := commit_entry_id; pub_replay_boundary := replay_boundary;
          pub_encoded_bytes := encoded_bytes; pub_chunk_count := len fragments;
          pub_buffer_a_count := len (tx_buffer_a transaction) |}.

Definition self_fence (reason : string) : M unit :=
  modify_inner (record_retired reason) ;;
  set_deployment_phase PhaseFatal (Some reason).

(** ** Promotion *)

Definition generation_marker_template_fields (now : u64) (backends : list BroadcasterBackend)
    (reason : string) : anyhow (list (string * string)) :=
  let chain := u64_to_string (config_chain_id config) in
  let stream_id := "chain-" +:+ chain +:+ "-stream-" +:+ GENERATION_PLACEHOLDER in
  let snapshot_id := "chain-" +:+ chain +:+ "-snapshot-" +:+ GENERATION_PLACEHOLDER in
  marker ← from_contract (BroadcasterProgress_new (config_chain_id config) snapshot_id backends
             reason);
  entry ← from_contract (from_envelope_at (config_chain_id config)
            {| env_stream_id := stream_id; env_message_seq := 1; env_payload := Progress marker |}
            now 0);
  Ok (redis_entry_fields entry).

Definition promote_request (recovering : option u64) (marker_fields : list (string * string)) :
    RedisPromotionCommand :=
  promotion_of (stream_key config) writer_token recovering (maxlen config)
    (writer_lease_ttl config) marker_fields.

Definition promote_locked (backends : list BroadcasterBackend) (reason : string)
    (recovering : bool) : M BroadcasterRedisReplayBoundary :=
  state ← inner id;
  if bool_decide (ps_mode state = Retired)
     || (recovering && negb (bool_decide (ps_mode state = Unhealthy)))
  then bail ("Redis broadcaster publisher cannot promote a writer generation from mode "
               +:+ BroadcasterRedisPublisherMode_as_str (ps_mode state))
  else
    now ← call current_time_ms;
    marker_fields ← lift (generation_marker_template_fields now backends reason);
    promotion ← call (w_promote (promote_request
                  (if recovering then Some (ps_generation state) else None) marker_fields));
    match promotion with
    | Ok promotion =>
        modify_inner (activate_generation (config_chain_id config) (pr_generation promotion)) ;;
        replay_boundary_locked
    | Err error =>
        let message := error_chain error in
        (if is_stale_writer_error error then
           modify_inner (record_retired message) ;;
           set_deployment_phase PhaseRetired (Some message)
         else if recovering then modify_inner (record_unhealthy message false)
         else modify_inner (λ state, set_last_error (Some message) (set_mode Passive state))) ;;
        throw error
    end.

Definition promote (base_heads : list BroadcasterBackendHead) (reason : string) :
    M BroadcasterRedisReplayBoundary :=
  promote_locked (backends_from_base_heads base_heads) reason false.

Definition recover_writer (base_heads : list BroadcasterBackendHead) (reason : string) :
    M BroadcasterRedisReplayBoundary :=
  boundary ← promote_locked (backends_from_base_heads base_heads) reason true;
  modify (λ s, with_gate PublisherRecoveryGate_default (sys_flags s) s) ;;
  mret boundary.

(** ** The lease *)

(** The checks of [verify_writer_fence_locked] before it asks Redis. *)
Definition verify_precondition (context : string) (state : BroadcasterRedisPublisherState) :
    anyhow unit :=
  match ps_mode state, ps_last_error state with
  | Passive, _ =>
      anyhow_bail ("Redis broadcaster " +:+ context
                     +:+ " is unavailable while publisher mode is passive")
  | Retired, _ =>
      anyhow_bail "Redis broadcaster publisher is retired; this process is no longer the active writer"
  | Unhealthy, error =>
      anyhow_bail ("Redis broadcaster publisher is unhealthy; " +:+ context
                     +:+ " is unavailable: " +:+ default "publisher is unhealthy" error)
  | Active, Some error =>
      anyhow_bail ("Redis broadcaster " +:+ context
                     +:+ " is unavailable while publisher is unhealthy: " +:+ error)
  | Active, None => Ok tt
  end.

Definition probe_writer (renew_lease : bool) (generation : u64) : world → anyhow unit * world :=
  if renew_lease then w_renew_writer (renew_request generation)
  else w_verify_writer (verify_request generation).

(** What it does with the answer. *)
Definition finish_verification (verification : anyhow unit) : M unit :=
  match verification with
  | Ok _ => modify_inner (set_last_error None)
  | Err error =>
      let message := error_chain error in
      (if is_stale_writer_error error then
         modify_inner (record_retired message) ;;
         set_deployment_phase PhaseRetired (Some message)
       else modify_inner (record_unhealthy message false)) ;;
      throw error
  end.

Definition verify_writer_fence_locked (context : string) (renew_lease : bool) : M unit :=
  state ← inner id;
  lift (verify_precondition context state) ;;
  verification ← call (probe_writer renew_lease (ps_generation state));
  finish_verification verification.

(** [timeout(..).await.map_err(..).and_then(..)]. *)
Definition flatten_timeout {A} (message : string) (reply : option (anyhow A)) : anyhow A :=
  match reply with Some r => r | None => anyhow_bail message end.

Definition resync_stream_tail_locked : M unit :=
  state ← inner id;
  reply ← call (timeout WRITER_PROBE_TIMEOUT
            (w_inspect_writer (inspect_request (ps_generation state))));
  inspection ← lift (with_context
    "Redis stream tail resync failed before reactivating the publisher"
    (flatten_timeout "Redis stream tail resync timed out" reply));
  if negb (insp_generation inspection =? ps_generation state)%N then mret tt
  else
    match insp_last_entry_id inspection with
    | None => mret tt
    | Some last_entry_id =>
        parts ← lift (publisher_parse_redis_entry_id last_entry_id);
        let '(generation, sequence) := parts in
        if negb (generation =? ps_generation state)%N
           || (sequence <? ps_next_message_seq state)%N
        then mret tt
        else
          next ← lift (ok_or (checked_add sequence 1)
            (anyhow_error "Redis broadcaster message_seq overflow during tail resync"));
          modify_inner (set_tail next last_entry_id)
    end.

Definition renew_lease : M unit :=
  state ← inner id;
  match ps_mode state with
  | Passive => mret tt
  | Retired => bail "Redis broadcaster publisher is retired; writer lease cannot be renewed"
  | Active => verify_writer_fence_locked "active writer lease renewal" true
  | Unhealthy =>
      result ← call (w_renew_writer (renew_request (ps_generation state)));
      match result with
      | Ok _ =>
          resync_stream_tail_locked ;;
          modify_inner (λ state, set_last_error None (set_mode Active state))
      | Err error =>
          (if is_stale_writer_error error then
             modify_inner (record_retired (error_chain error)) ;;
             set_deployment_phase PhaseRetired (Some (error_chain error))
           else mret tt) ;;
          throw error
      end
  end.

Definition recovery_gate_is_open : M bool := gets (λ s, bool_decide (is_Some (open_recovery_id (sys_gate s)))).

Definition writer_fence_is_absent : M bool :=
  state ← inner id;
  if negb (bool_decide (ps_mode state = Unhealthy)) then mret false
  else
    reply ← call (timeout WRITER_PROBE_TIMEOUT
              (w_verify_writer (verify_request (ps_generation state))));
    mret match reply with
         | None | Some (Ok _) => false
         | Some (Err error) => str_contains MISSING_FENCE_MESSAGE (error_chain error)
         end.

Definition verify_active_writer : M unit :=
  verify_writer_fence_locked "active writer verification" false.

Definition replay_boundary : M BroadcasterRedisReplayBoundary :=
  verify_writer_fence_locked "replay boundary" false ;;
  replay_boundary_locked.

(** ** Status *)

Definition status_snapshot_of (state : BroadcasterRedisPublisherState) :
    BroadcasterRedisPublisherStatus :=
  let no_error := bool_decide (ps_last_error state = None) in
  {| st_healthy := is_healthy (ps_mode state) && no_error;
     st_mode := BroadcasterRedisPublisherMode_as_str (ps_mode state);
     st_stream_key := stream_key config;
     st_stream_id := ps_stream_id state;
     st_snapshot_id := ps_snapshot_id state;
     st_latest_entry_id := ps_latest_entry_id state;
     st_replay_boundary :=
       if bool_decide (ps_mode state = Active) && no_error
       then result_ok (replay_boundary_of state) else None;
     st_append_success_count := ps_append_success_count state;
     st_append_failure_count := ps_append_failure_count state;
     st_retry_exhaustion_count := ps_retry_exhaustion_count state;
     st_last_error := ps_last_error state |}.

Definition cache_current_status : M BroadcasterRedisPublisherStatus :=
  state ← inner id;
  let status := status_snapshot_of state in
  modify (with_last_status status) ;;
  mret status.

(** [lock_free]: whether [inner.try_lock()] succeeds. *)
Definition status_snapshot (lock_free : bool) : M BroadcasterRedisPublisherStatus :=
  if lock_free then cache_current_status else gets sys_last_status.

Definition verified_status_snapshot (lock_free : bool) : M BroadcasterRedisPublisherStatus :=
  if lock_free then
    state ← inner id;
    (if bool_decide (ps_mode state = Active) && bool_decide (ps_last_error state = None) then
       reply ← call (timeout STATUS_VERIFY_TIMEOUT (probe_writer false (ps_generation state)));
       match reply with
       | Some verification => _ ← attempt (finish_verification verification); mret tt
       | None => mret tt
       end
     else mret tt) ;;
    cache_current_status
  else gets sys_last_status.

(** Whether a boundary handed out earlier can still be replayed from. *)
Definition replay_boundary_is_retained (lock_free : bool)
    (boundary : BroadcasterRedisReplayBoundary) : M bool :=
  status ← status_snapshot lock_free;
  match st_replay_boundary status with
  | None => mret false
  | Some current_boundary =>
      if negb (String.eqb (st_mode status) (BroadcasterRedisPublisherMode_as_str Active))
         || negb (bd_generation boundary =? bd_generation current_boundary)%N
         || negb (String.eqb (bd_stream_id boundary) (st_stream_id status))
         || negb (String.eqb (bd_snapshot_id boundary) (st_snapshot_id status))
      then mret false
      else
        reply ← call (timeout STATUS_VERIFY_TIMEOUT
                  (w_inspect_writer (inspect_request (bd_generation boundary))));
        inspection ← lift (flatten_timeout "Redis replay-boundary inspection timed out" reply);
        if negb (insp_generation inspection =? bd_generation boundary)%N then mret false
        else
          match insp_first_entry_id inspection with
          | None => mret (bd_exclusive_message_seq boundary =? 0)%N
          | Some first_entry_id =>
              first ← lift (publisher_parse_redis_entry_id first_entry_id);
              let next := saturating_add (bd_exclusive_message_seq boundary) 1 in
              mret ((first.1 <? bd_generation boundary)%N
                    || ((first.1 =? bd_generation boundary)%N && (first.2 <=? next)%N))
          end
  end.

(** ** Feeds *)

Definition pause_feeds (state : FeedGateState) : FeedGateState :=
  {| pause_epoch := saturating_add (pause_epoch state) 1; paused := true |}.
Definition resume_feeds (state : FeedGateState) : FeedGateState :=
  {| pause_epoch := pause_epoch state; paused := false |}.

(** The loop of [pause_feeds_until_writer_verified] waits as long as the fence cannot be
    verified: [None] when [fuel] turns were not enough. *)
Fixpoint verified_loop (fuel : nat) : M (option unit) :=
  match fuel with
  | O => mret None
  | S fuel' =>
      mode ← inner ps_mode;
      if bool_decide (mode = Retired)
      then bail "Redis broadcaster writer was fenced while feeds were paused"
      else
        renewed ← attempt renew_lease;
        match renewed with
        | Ok _ => modify (with_feed_gate resume_feeds) ;; mret (Some tt)
        | Err _ =>
            call (λ w, (tt, sleep (from_millis 250) w)) ;;
            verified_loop fuel'
        end
  end.

Definition pause_feeds_until_writer_verified (fuel : nat) : M (option unit) :=
  modify (with_feed_gate pause_feeds) ;;
  verified_loop fuel.

(** Payloads queued, the longest queue, and the age of the oldest in milliseconds. *)
Definition pending_recovery_payload_stats : M (usize * usize * option u64) :=
  gate ← gets sys_gate;
  match pending_payloads gate with
  | [] => mret (0%N, max_pending_payloads gate, None)
  | queued :: _ =>
      age ← elapsed (qp_accepted_at queued);
      mret (len (pending_payloads gate), max_pending_payloads gate,
            Some ((as_millis age) mod 2 ^ 64)%N)
  end.

(** ** A new publisher *)

Definition initial_phase (mode : BroadcasterRedisPublisherMode) : BroadcasterDeploymentPhase :=
  match mode with
  | Active => PhaseAdmitted
  | Retired => PhaseRetired
  | Passive | Unhealthy => PhaseWarming
  end.

Definition initial_state (generation : u64) (mode : BroadcasterRedisPublisherMode) :
    BroadcasterRedisPublisherState := {|
  ps_mode := mode;
  ps_generation := generation;
  ps_stream_id := format_redis_stream_id (config_chain_id config) generation;
  ps_snapshot_id := format_redis_snapshot_id (config_chain_id config) generation;
  ps_next_message_seq := 1;
  ps_committed_state_version := state_version_base generation;
  ps_next_state_version := state_version_base generation;
  ps_latest_entry_id := None;
  ps_append_success_count := 0;
  ps_append_failure_count := 0;
  ps_retry_exhaustion_count := 0;
  ps_last_error := None;
  ps_startup_handoff := None;
|}.

(** [new_with_mode]; the world, the flags of other tasks and what they will do are the
    environment's. *)
Definition new_with_mode (generation : u64) (mode : BroadcasterRedisPublisherMode)
    (flags : gmap N bool) (schedule : list (list ConcurrentOp)) (w : world) : sys := {|
  sys_inner := initial_state generation mode;
  sys_gate := PublisherRecoveryGate_default;
  sys_next_recovery_id := 1;
  sys_next_startup_handoff_id := 1;
  sys_feed_gate := {| pause_epoch := 0; paused := false |};
  sys_admission := BroadcasterDeploymentAdmissionSnapshot_new (initial_phase mode) None;
  sys_last_status :=
    {| st_healthy := is_healthy mode; st_mode := BroadcasterRedisPublisherMode_as_str mode;
       st_stream_key := stream_key config;
       st_stream_id := format_redis_stream_id (config_chain_id config) generation;
       st_snapshot_id := format_redis_snapshot_id (config_chain_id config) generation;
       st_latest_entry_id := None; st_replay_boundary := None; st_append_success_count := 0;
       st_append_failure_count := 0; st_retry_exhaustion_count := 0; st_last_error := None |};
  sys_flags := flags;
  sys_schedule := schedule;
  sys_world := w;
  sys_log := [];
|}.

Definition BroadcasterRedisPublisher_new := new_with_mode 1 Passive.
End publisher.
