(* ===== verification/PublisherModes.v ===== *)
(** * The publisher's modes and phases

    What every operation of [Publisher] does to the publisher's mode, its deployment
    phase and its log, and that the retries of an append come to an end. *)

From S2P Require Import Prelude Ordered Text Protocol Wire Validate TychoFeed Codec RedisEntry.
From S2P Require Import Replay RedisStore Recovery Writer Publisher.

(** ** Facts: running the operations *)

Section running.
Context `{PublisherEnv} `{TychoTypes}.

Abbreviation M := (stateR sys AnyhowError).

Lemma call_bind {A B} (f : world → A * world) (k : A → M B) s :
  (call f ≫= k) s = k (f (sys_world s)).1 (with_world (f (sys_world s)).2 s).
Proof. unfold mbind, stateR_bind, call. by destruct (f (sys_world s)). Qed.

Lemma attempt_bind {A B} (m : M A) (k : anyhow A → M B) s :
  (attempt m ≫= k) s = k (m s).1 (m s).2.
Proof. unfold mbind, stateR_bind, attempt. by destruct (m s). Qed.

Lemma inner_bind {A B} (f : BroadcasterRedisPublisherState → A) (k : A → M B) s :
  (inner f ≫= k) s = k (f (sys_inner s)) s.
Proof. done. Qed.

Lemma modify_inner_bind {B} f (k : unit → M B) s :
  (modify_inner f ≫= k) s = k tt (with_inner f s).
Proof. done. Qed.

Lemma phase_bind {B} phase error (k : unit → M B) s :
  (set_deployment_phase phase error ≫= k) s =
  k tt (with_admission (next_admission phase error) s).
Proof. done. Qed.

Lemma ensure_that_bind {B} b message (k : unit → M B) s :
  (ensure_that b message ≫= k) s =
  if b then k tt s else (Err (anyhow_error message), s).
Proof. by destruct b. Qed.

Lemma elapsed_bind {B} started (k : N → M B) s :
  (elapsed started ≫= k) s =
  k (saturating_sub (instant_now (sys_world s)).1 started)
    (with_world (instant_now (sys_world s)).2 s).
Proof. unfold elapsed, mbind, stateR_bind, call. by destruct (instant_now (sys_world s)). Qed.

(** Relations the primitive steps stay within. *)
Section primitives.
Context (R : sys → sys → Prop) `{!PreOrder R}.

Lemma moves_call {A} (f : world → A * world) : (∀ w s, R s (with_world w s)) → moves R (call f).
Proof.
  intros Hw s r s' Hr. unfold call in Hr. destruct (f (sys_world s)) as [a w].
  injection Hr as _ <-. apply Hw.
Qed.
Lemma moves_attempt {A} (m : M A) : moves R m → moves R (attempt m).
Proof.
  intros Hm s r s' Hr. unfold attempt in Hr. destruct (m s) as [r1 s1] eqn:E.
  injection Hr as _ <-. by eapply Hm.
Qed.
Lemma moves_ensure b message : moves R (ensure_that b message).
Proof. destruct b; [apply (moves_ret R)|apply (moves_throw R)]; done. Qed.
End primitives.
End running.

#[export] Hint Resolve moves_ensure moves_attempt : moves.

(** ** Every operation *)

Section operations.
Context `{SerdeJson} `{Keccak} `{PublisherEnv}.
Context (config : BroadcasterRedisPublisherConfig) (writer_token : string).

Abbreviation M := (stateR sys AnyhowError).

(** The calls the rest of the service makes, and the turn of its other tasks. *)
Inductive publisher_op :=
| DoBeginHandoff
| DoAbortHandoff (id : u64) (error : string)
| DoFreezeHandoff (id : u64)
| DoDrainHandoff (handoff : FrozenStartupHandoff)
| DoSetPhase (phase : BroadcasterDeploymentPhase) (error : option string)
| DoBeginRecovery (backends : list BroadcasterBackend) (cancelled : N)
| DoPublish (payload : BroadcasterPayload)
| DoPublishRecovery (transaction : BroadcasterRecoveryTransaction) (cancelled : N)
| DoSelfFence (reason : string)
| DoPromote (base_heads : list BroadcasterBackendHead) (reason : string)
| DoRecoverWriter (base_heads : list BroadcasterBackendHead) (reason : string)
| DoRenewLease
| DoProbeFence
| DoVerifyWriter
| DoReplayBoundary
| DoStatus (lock_free : bool)
| DoVerifiedStatus (lock_free : bool)
| DoBoundaryRetained (lock_free : bool) (boundary : BroadcasterRedisReplayBoundary)
| DoPauseFeeds (fuel : nat)
| DoConcurrent.

Definition run {A} (m : M A) (s : sys) : sys := (m s).2.

Definition perform (op : publisher_op) (s : sys) : sys :=
  match op with
  | DoBeginHandoff => run begin_startup_handoff s
  | DoAbortHandoff id error => run (abort_startup_handoff id error) s
  | DoFreezeHandoff id => run (freeze_startup_handoff config id) s
  | DoDrainHandoff handoff => run (drain_startup_handoff config writer_token handoff) s
  | DoSetPhase phase error => run (set_deployment_phase phase error) s
  | DoBeginRecovery backends cancelled => run (begin_recovery config backends cancelled) s
  | DoPublish payload => run (publish_accepted_payload config writer_token payload) s
  | DoPublishRecovery transaction cancelled =>
      run (publish_recovery config writer_token transaction cancelled) s
  | DoSelfFence reason => run (self_fence reason) s
  | DoPromote base_heads reason => run (promote config writer_token base_heads reason) s
  | DoRecoverWriter base_heads reason =>
      run (recover_writer config writer_token base_heads reason) s
  | DoRenewLease => run (renew_lease config writer_token) s
  | DoProbeFence => run (writer_fence_is_absent config writer_token) s
  | DoVerifyWriter => run (verify_active_writer config writer_token) s
  | DoReplayBoundary => run (replay_boundary config writer_token) s
  | DoStatus lock_free => run (status_snapshot config lock_free) s
  | DoVerifiedStatus lock_free => run (verified_status_snapshot config writer_token lock_free) s
  | DoBoundaryRetained lock_free boundary =>
      run (replay_boundary_is_retained config writer_token lock_free boundary) s
  | DoPauseFeeds fuel => run (pause_feeds_until_writer_verified config writer_token fuel) s
  | DoConcurrent => run (interleave config) s
  end.

Lemma moves_run {A} (R : sys → sys → Prop) (m : M A) s : moves R m → R s (run m s).
Proof. intros Hm. unfold run. destruct (m s) as [r s'] eqn:E. by eapply Hm. Qed.

(** ** Phases *)

(** A phase is left only for good: a terminal one never, an admitted one only for a
    terminal one, and the flag says what the phase says. *)
Definition admission_step (a a' : BroadcasterDeploymentAdmissionSnapshot) : Prop :=
  a' = a ∨
  (is_terminal (adm_phase a) = false ∧
   (adm_admitted a = true → is_terminal (adm_phase a') = true) ∧
   adm_admitted a' = is_admitted (adm_phase a')).

#[local] Instance admission_step_preorder : PreOrder admission_step.
Proof.
  split; [by left|]. intros a b c [->|(Ha & Hab & Hb)] [->|(Hb' & Hbc & Hc)]; unfold admission_step.
  - by left.
  - by right.
  - by right.
  - right. split_and!; [done| |done]. intros Had. by rewrite (Hab Had) in Hb'.
Qed.

Definition phase_moves (s s' : sys) : Prop := admission_step (sys_admission s) (sys_admission s').

#[local] Instance phase_moves_preorder : PreOrder phase_moves.
Proof.
  split; [intros s; unfold phase_moves; reflexivity|].
  intros a b c Hab Hbc. unfold phase_moves in *. by etransitivity.
Qed.

Lemma next_admission_step phase error a : admission_step a (next_admission phase error a).
Proof.
  unfold next_admission. destruct (is_terminal (adm_phase a)) eqn:Et; [by left|].
  destruct (adm_admitted a && negb (is_terminal phase)) eqn:Ea; cbn [orb]; [by left|].
  right. split_and!; [done| |done]. intros Had. rewrite Had in Ea. cbn in *.
  by destruct (is_terminal phase).
Qed.

Lemma phase_world w s : phase_moves s (with_world w s). Proof. by left. Qed.
Lemma phase_set phase error : moves phase_moves (set_deployment_phase phase error).
Proof. apply moves_modify. intros s. apply next_admission_step. Qed.
Lemma phase_modify_inner f : moves phase_moves (modify_inner f).
Proof. apply moves_modify. intros s. by left. Qed.
Lemma phase_call {A} (f : world → A * world) : moves phase_moves (call f).
Proof. apply moves_call. intros. by left. Qed.
Lemma phase_inner {A} (f : BroadcasterRedisPublisherState → A) : moves phase_moves (inner f).
Proof. apply (moves_gets phase_moves). Qed.
Lemma phase_other (f : sys → sys) :
  (∀ s, sys_admission (f s) = sys_admission s) → moves phase_moves (modify f : M unit).
Proof. intros Hf. apply moves_modify. intros s. left. by rewrite Hf. Qed.
Hint Resolve phase_set phase_modify_inner phase_call phase_inner : moves.
Hint Extern 2 (moves phase_moves (modify _)) => (apply phase_other; intros ?; repeat case_match; done) : moves.

Lemma run_concurrent_admission s op : phase_moves s (run_concurrent config s op).
Proof.
  destruct op as [payload now|flag|phase error|]; cbn; [|by left|apply next_admission_step|by left].
  destruct (open_recovery_id (sys_gate s)); [|by left].
  destruct (gate_accept _ _ _ _ _) as [[??]?]. by left.
Qed.

Lemma phase_interleave : moves phase_moves (interleave config).
Proof.
  apply moves_modify. intros s. destruct (sys_schedule s) as [|batch schedule]; [by left|].
  assert (phase_moves s (with_schedule schedule s)) as Hs by by left. revert Hs.
  generalize (with_schedule schedule s). revert batch. intros batch s1 Hs1.
  etransitivity; [exact Hs1|]. clear Hs1 s. revert s1.
  induction batch as [|op batch IH]; [reflexivity|].
  intros s. cbn [foldl]. etransitivity; [apply run_concurrent_admission|apply IH].
Qed.
Hint Resolve phase_interleave : moves.

(** Every composed operation, from its parts. *)
Ltac solve_phase :=
  repeat first [ solve [eauto 3 with moves typeclass_instances]
               | apply moves_attempt
               | apply moves_bind; [apply _| |intros ?]
               | case_match ].

Lemma phase_append_loop fuel entry started attempts last_error :
  moves phase_moves (append_loop config writer_token fuel entry started attempts last_error).
Proof.
  revert attempts last_error. induction fuel as [|fuel IH]; intros attempts last_error;
    cbn [append_loop]; [by eauto with moves typeclass_instances|].
  unfold remaining_retry_window, elapsed, record_write_failure, sleep_before_retry, bail.
  solve_phase.
Qed.
Hint Resolve phase_append_loop : moves.

Lemma phase_append_entry entry : moves phase_moves (append_entry_locked config writer_token entry).
Proof. unfold append_entry_locked, append_with_retry, bail. solve_phase. Qed.
Hint Resolve phase_append_entry : moves.

Lemma phase_append_live payload :
  moves phase_moves (append_live_payload_locked config writer_token payload).
Proof. unfold append_live_payload_locked, allocate_state_version_locked. solve_phase. Qed.
Hint Resolve phase_append_live : moves.

Lemma phase_drain_handoff before payloads :
  moves phase_moves (drain_handoff_payloads config writer_token before payloads).
Proof.
  induction payloads as [|payload payloads IH]; cbn [drain_handoff_payloads]; [|cbv zeta];
    solve_phase.
Qed.

Lemma phase_drain_loop fuel : moves phase_moves (drain_loop config writer_token fuel).
Proof. induction fuel as [|fuel IH]; cbn [drain_loop]; solve_phase. Qed.

Lemma phase_append_recovery cancelled before commit entries :
  moves phase_moves
    (append_recovery_entries config writer_token cancelled before commit entries).
Proof.
  revert commit. induction entries as [|entry entries IH]; intros commit;
    cbn [append_recovery_entries]; unfold ensure_recovery_not_cancelled, record_publisher_error;
    solve_phase.
Qed.

Lemma phase_verify context renew :
  moves phase_moves (verify_writer_fence_locked config writer_token context renew).
Proof. unfold verify_writer_fence_locked, finish_verification. cbv zeta. solve_phase. Qed.

Lemma phase_renew : moves phase_moves (renew_lease config writer_token).
Proof.
  unfold renew_lease, resync_stream_tail_locked, bail. pose proof phase_verify. solve_phase.
Qed.

Lemma phase_promote backends reason recovering :
  moves phase_moves (promote_locked config writer_token backends reason recovering).
Proof. unfold promote_locked, replay_boundary_locked, bail. cbv zeta. solve_phase. Qed.

Lemma phase_verified_loop fuel : moves phase_moves (verified_loop config writer_token fuel).
Proof.
  pose proof phase_renew. induction fuel as [|fuel IH]; cbn [verified_loop]; unfold bail;
    solve_phase.
Qed.
Hint Resolve phase_drain_handoff phase_drain_loop phase_append_recovery phase_verify phase_renew
  phase_promote phase_verified_loop : moves.

Lemma phase_publish payload :
  moves phase_moves (publish_accepted_payload config writer_token payload).
Proof.
  unfold publish_accepted_payload, accept_into_handoff, handoff_expired, elapsed,
    publish_active_payload, publisher_unhealthy, bail. cbv zeta.
  assert (∀ payload now, moves phase_moves (accept_into_gate config payload now)).
  { intros p now s r s' Hr. unfold accept_into_gate in Hr.
    destruct (gate_accept _ _ _ _ _) as [[??]?]. injection Hr as _ <-. by left. }
  solve_phase.
Qed.

Lemma phase_publish_recovery transaction cancelled :
  moves phase_moves (publish_recovery config writer_token transaction cancelled).
Proof.
  unfold publish_recovery, ensure_recovery_not_cancelled, allocate_state_version_locked,
    drain_pending_payloads_locked, replay_boundary_locked, bail. solve_phase.
Qed.
Hint Resolve phase_publish phase_publish_recovery : moves.

Lemma perform_phase op s : phase_moves s (perform op s).
Proof.
  destruct op; unfold perform; apply (moves_run phase_moves);
    unfold begin_startup_handoff, abort_startup_handoff, freeze_startup_handoff, handoff_expired,
      elapsed, drain_startup_handoff, begin_recovery, self_fence, promote, recover_writer,
      writer_fence_is_absent, verify_active_writer, replay_boundary, replay_boundary_locked,
      replay_boundary_is_retained, status_snapshot, verified_status_snapshot,
      cache_current_status, finish_verification, pause_feeds_until_writer_verified, bail;
    cbv zeta; solve_phase.
Qed.

(** ** Retirement *)

(** Retired, with nothing appended since [s]. *)
Definition silent (s s' : sys) : Prop :=
  ps_mode (sys_inner s') = Retired ∧ sys_log s' = sys_log s.

Definition retired_moves (s s' : sys) : Prop := ps_mode (sys_inner s) = Retired → silent s s'.

#[local] Instance retired_moves_preorder : PreOrder retired_moves.
Proof.
  split; [by intros s|]. intros a b c Hab Hbc Ha. destruct (Hab Ha) as [Hb Elb].
  destruct (Hbc Hb) as [Hc Elc]. split; [done|congruence].
Qed.

Lemma retired_inner f :
  (∀ st, ps_mode st = Retired → ps_mode (f st) = Retired) →
  moves retired_moves (modify_inner f).
Proof. intros Hf. apply moves_modify. intros s Hs. split; [by apply Hf|done]. Qed.
Lemma retired_other (f : sys → sys) :
  (∀ s, sys_inner (f s) = sys_inner s ∧ sys_log (f s) = sys_log s) →
  moves retired_moves (modify f : M unit).
Proof.
  intros Hf. apply moves_modify. intros s Hs. destruct (Hf s) as [Ei El].
  split; [by rewrite Ei|done].
Qed.
Lemma retired_call {A} (f : world → A * world) : moves retired_moves (call f).
Proof. by apply moves_call. Qed.
Lemma retired_read {A} (f : BroadcasterRedisPublisherState → A) : moves retired_moves (inner f).
Proof. apply (moves_gets retired_moves). Qed.
Lemma retired_phase phase error : moves retired_moves (set_deployment_phase phase error).
Proof. by apply retired_other. Qed.
Hint Resolve retired_call retired_read retired_phase : moves.
Hint Extern 2 (moves retired_moves (modify_inner _)) =>
  (apply retired_inner; intros st Hst; cbn; repeat case_match; done) : moves.
Hint Extern 2 (moves retired_moves (modify _)) =>
  (apply retired_other; intros st; cbn; repeat case_match; done) : moves.

(** Reads that leave everything as it is. *)
Lemma ensure_recovery_not_cancelled_run cancelled s r s' :
  ensure_recovery_not_cancelled cancelled s = (r, s') → s' = s.
Proof.
  unfold ensure_recovery_not_cancelled. rewrite gets_bind. by case_match; intros [= _ <-].
Qed.

Lemma publish_retired payload s :
  ps_mode (sys_inner s) = Retired → open_recovery_id (sys_gate s) = None →
  ∃ e, publish_accepted_payload config writer_token payload s = (Err e, s).
Proof.
  intros Hs Hg. unfold publish_accepted_payload. rewrite gets_bind, Hg, inner_bind.
  cbn [id]. rewrite Hs. by eexists.
Qed.

Lemma publish_recovery_retired transaction cancelled s :
  ps_mode (sys_inner s) = Retired →
  ∃ e, publish_recovery config writer_token transaction cancelled s = (Err e, s).
Proof.
  intros Hs. destruct (publish_recovery _ _ _ _ s) as [r s'] eqn:Hr.
  unfold publish_recovery in Hr.
  apply bind_inv in Hr as [([] & s1 & E%ensure_recovery_not_cancelled_run & Hr)|(e & E & ->)].
  2:{ apply ensure_recovery_not_cancelled_run in E as ->. by eexists. }
  subst s1. rewrite lift_bind in Hr.
  destruct (prepare_recovery_fragments _) as [fragments|e]; [|injection Hr as <- <-; by eexists].
  rewrite gets_bind, ensure_that_bind, inner_bind, lift_bind in Hr.
  destruct (bool_decide _); [|injection Hr as <- <-; by eexists].
  unfold ensure_active_publisher in Hr. cbn [id] in Hr. rewrite Hs in Hr.
  injection Hr as <- <-. by eexists.
Qed.

Lemma verify_retired context renew s :
  ps_mode (sys_inner s) = Retired →
  ∃ e, verify_writer_fence_locked config writer_token context renew s = (Err e, s).
Proof.
  intros Hs. unfold verify_writer_fence_locked. rewrite inner_bind, lift_bind.
  unfold verify_precondition. cbn [id]. rewrite Hs. by eexists.
Qed.

Lemma promote_retired backends reason recovering s :
  ps_mode (sys_inner s) = Retired →
  ∃ e, promote_locked config writer_token backends reason recovering s = (Err e, s).
Proof.
  intros Hs. unfold promote_locked. rewrite inner_bind. cbn [id].
  rewrite Hs, bool_decide_true by done. by eexists.
Qed.

Lemma silent_run {A} (m : M A) s :
  ps_mode (sys_inner s) = Retired → (∃ e, m s = (Err e, s)) → silent s (run m s).
Proof. intros Hs [e E]. unfold run. by rewrite E. Qed.

Lemma silent_moves {A} (m : M A) s :
  moves retired_moves m → ps_mode (sys_inner s) = Retired → silent s (run m s).
Proof. intros Hm. apply (moves_run retired_moves _ _ Hm). Qed.

(** An operation that a check of the mode refuses before anything else. *)
Lemma silent_mode_check {B} message (k : unit → M B) mode s :
  ps_mode (sys_inner s) = Retired → mode ≠ Retired →
  silent s (run (m ← inner ps_mode; ensure_that (bool_decide (m = mode)) message ≫= k) s).
Proof.
  intros Hs Hm. apply silent_run; [done|]. rewrite inner_bind, ensure_that_bind, Hs.
  rewrite bool_decide_false by done. by eexists.
Qed.

Lemma interleave_retired : moves retired_moves (interleave config).
Proof.
  apply retired_other. intros s. destruct (sys_schedule s) as [|batch schedule]; [done|].
  change (sys_inner s) with (sys_inner (with_schedule schedule s)).
  change (sys_log s) with (sys_log (with_schedule schedule s)).
  generalize (with_schedule schedule s). clear s. induction batch as [|op batch IH]; [done|].
  intros s. cbn [foldl]. destruct (IH (run_concurrent config s op)) as [-> ->].
  destruct op as [payload now|flag|phase error|]; cbn; [|done..].
  destruct (open_recovery_id (sys_gate s)); [|done]. by destruct (gate_accept _ _ _ _ _) as [[??]?].
Qed.

Lemma status_retired lock_free : moves retired_moves (status_snapshot config lock_free).
Proof.
  unfold status_snapshot, cache_current_status. destruct lock_free; cbv zeta;
    repeat first [solve [eauto 3 with moves typeclass_instances]
                 |apply moves_bind; [apply _| |intros ?]].
Qed.

Lemma verified_status_retired lock_free s :
  ps_mode (sys_inner s) = Retired →
  silent s (run (verified_status_snapshot config writer_token lock_free) s).
Proof.
  intros Hs. unfold verified_status_snapshot. destruct lock_free; [|by split].
  unfold run. rewrite inner_bind. cbn [id]. rewrite Hs, bool_decide_false by done. cbn [andb].
  rewrite ret_bind. by apply (silent_moves _ _ (status_retired true)).
Qed.

Lemma boundary_retained_retired lock_free boundary :
  moves retired_moves (replay_boundary_is_retained config writer_token lock_free boundary).
Proof.
  pose proof status_retired. unfold replay_boundary_is_retained.
  repeat first [solve [eauto 3 with moves typeclass_instances]
               |apply moves_bind; [apply _| |intros ?]|case_match].
Qed.

Lemma accept_retired payload s :
  ps_mode (sys_inner s) = Retired →
  silent s (run (publish_accepted_payload config writer_token payload) s).
Proof.
  intros Hs. destruct (open_recovery_id (sys_gate s)) eqn:Eg.
  2:{ by apply silent_run, publish_retired. }
  unfold run, publish_accepted_payload. rewrite gets_bind, Eg.
  destruct (is_heartbeat payload); [done|]. rewrite call_bind. unfold accept_into_gate.
  by destruct (gate_accept _ _ _ _ _) as [[??]?].
Qed.

Lemma perform_retired op s : retired_moves s (perform op s).
Proof.
  intros Hs. destruct op; unfold perform.
  - by apply silent_mode_check.
  - apply silent_moves; [|done]. unfold abort_startup_handoff.
    repeat first [solve [eauto 3 with moves typeclass_instances]
                 |apply moves_bind; [apply _| |intros ?]].
  - by apply silent_mode_check.
  - unfold run, drain_startup_handoff. rewrite phase_bind, inner_bind, ensure_that_bind.
    cbn [sys_inner with_admission id]. by rewrite Hs, bool_decide_false by done.
  - apply silent_moves; [|done]. apply retired_phase.
  - apply silent_moves; [|done]. unfold begin_recovery.
    repeat first [solve [eauto 3 with moves typeclass_instances]
                 |apply moves_bind; [apply _| |intros ?]].
  - by apply accept_retired.
  - by apply silent_run, publish_recovery_retired.
  - by split.
  - by apply silent_run, promote_retired.
  - destruct (promote_retired (backends_from_base_heads base_heads) reason true s Hs) as [e E].
    apply silent_run; [done|]. exists e. unfold recover_writer. by apply bind_run_err.
  - apply silent_run; [done|]. unfold renew_lease. rewrite inner_bind. cbn [id]. rewrite Hs.
    by eexists.
  - unfold run, writer_fence_is_absent. rewrite inner_bind. cbn [id].
    by rewrite Hs, bool_decide_false by done.
  - by apply silent_run, verify_retired.
  - destruct (verify_retired "replay boundary" false s Hs) as [e E].
    apply silent_run; [done|]. exists e. unfold replay_boundary. by apply bind_run_err.
  - by apply (silent_moves _ _ (status_retired lock_free)).
  - by apply verified_status_retired.
  - by apply (silent_moves _ _ (boundary_retained_retired lock_free boundary)).
  - unfold run, pause_feeds_until_writer_verified. rewrite modify_bind.
    destruct fuel as [|fuel]; [done|]. cbn [verified_loop]. rewrite inner_bind.
    cbn [sys_inner with_feed_gate]. by rewrite Hs, bool_decide_true by done.
  - by apply (silent_moves _ _ interleave_retired).
Qed.
End operations.

(** ** Time *)

(** [clock] is the latest time the world has shown.  It never goes back, a sleep lasts
    at least what was asked for, a random number is in its range, and a future that
    finishes in time has done exactly what it does. *)
Class PublisherEnvLaws `{PublisherEnv} := {
  clock : world → N;
  instant_now_clock w : (clock w ≤ (instant_now w).1 ∧ (instant_now w).1 ≤ clock (instant_now w).2)%N;
  sleep_clock d w : (clock w + d ≤ clock (sleep d w))%N;
  gen_range_bounds m w : (1 ≤ m)%N → (1 ≤ (gen_range m w).1 ≤ m)%N;
  gen_range_clock m w : (clock w ≤ clock (gen_range m w).2)%N;
  append_clock c w : (clock w ≤ clock (w_append_fenced c w).2)%N;
  timeout_clock A d (f : world → A * world) w :
    (∀ w, clock w ≤ clock (f w).2)%N → (clock w ≤ clock (timeout d f w).2)%N;
  timeout_done A d (f : world → A * world) w a w' : timeout d f w = (Some a, w') → f w = (a, w');
}.

Section retries.
Context `{SerdeJson} `{Keccak} `{PublisherEnvLaws}.
Context (config : BroadcasterRedisPublisherConfig) (writer_token : string).
Context (entry : BroadcasterRedisStreamEntry) (started_at : N).

Abbreviation window := (append_retry_window config).
Abbreviation loop := (append_loop config writer_token).

(** The window is over. *)
Definition overdue (s : sys) : Prop := (started_at + window ≤ clock (sys_world s))%N.
(** [turns] turns of at least a millisecond have passed. *)
Definition waited (turns : nat) (s : sys) : Prop :=
  (started_at + N.of_nat turns * 1000000 ≤ clock (sys_world s))%N.

Lemma elapsed_overdue s spent :
  spent = saturating_sub (instant_now (sys_world s)).1 started_at →
  overdue s → (window ≤ spent)%N.
Proof.
  unfold overdue, saturating_sub. intros -> Ho.
  pose proof (instant_now_clock (sys_world s)). lia.
Qed.

Lemma loop_overdue fuel attempts last_error s :
  overdue s → (1 ≤ fuel)%nat → ∃ e s', loop fuel entry started_at attempts last_error s = (Err e, s').
Proof.
  intros Ho Hf. destruct fuel as [|fuel]; [lia|]. cbn [append_loop].
  unfold mbind at 1, stateR_bind at 1, remaining_retry_window. rewrite elapsed_bind.
  pose proof (elapsed_overdue s _ eq_refl Ho) as Hs.
  cbv zeta. rewrite (proj2 (N.eqb_eq _ _)) by (unfold saturating_sub in *; lia).
  unfold record_write_failure. cbn [mret stateR_ret]. rewrite modify_inner_bind. by eexists _, _.
Qed.

(** After a sleep, another millisecond has passed or the window is over. *)
Lemma sleep_waited turns attempts s r s' :
  waited turns s → sleep_before_retry started_at window attempts s = (r, s') →
  r = Ok tt ∧ (waited (S turns) s' ∨ overdue s').
Proof.
  unfold sleep_before_retry. rewrite elapsed_bind. cbv zeta. intros Hw Hr.
  pose proof (instant_now_clock (sys_world s)) as [Hn1 Hn2].
  set (spent := saturating_sub _ started_at) in *.
  destruct (N.eqb_spec (saturating_sub window spent) 0) as [Hz|Hz].
  - injection Hr as <- <-. split; [done|]. right. unfold overdue, saturating_sub in *.
    cbn [sys_world with_world]. unfold waited in Hw. subst spent. lia.
  - rewrite call_bind in Hr. unfold call in Hr. injection Hr as <- <-. split; [done|]. left.
    unfold waited in *. cbn [sys_world with_world] in *.
    set (m := N.max _ 1) in *. set (w1 := (instant_now (sys_world s)).2) in *.
    pose proof (gen_range_bounds m w1 ltac:(lia)) as [Hr1 _].
    pose proof (gen_range_clock m w1) as Hg.
    pose proof (sleep_clock (from_millis (gen_range m w1).1) (gen_range m w1).2) as Hs.
    unfold from_millis in *. lia.
Qed.

Lemma loop_ends fuel turns attempts last_error s :
  waited turns s → (turns ≤ N.to_nat (as_millis window) + 1)%nat →
  (N.to_nat (as_millis window) + 2 ≤ fuel + turns)%nat →
  (loop fuel entry started_at attempts last_error s).1 ≠ Ok None.
Proof.
  revert turns attempts last_error s. induction fuel as [|fuel IH];
    intros turns attempts last_error s Hw Ht Hf; [lia|].
  cbn [append_loop]. unfold mbind at 1, stateR_bind at 1, remaining_retry_window.
  rewrite elapsed_bind. cbn [mret stateR_ret].
  pose proof (instant_now_clock (sys_world s)) as [Hn1 Hn2].
  set (s1 := with_world (instant_now (sys_world s)).2 s) in *.
  set (spent := saturating_sub _ started_at) in *. cbv zeta.
  destruct (N.eqb_spec (saturating_sub window spent) 0) as [Hz|Hz]; [done|].
  assert (turns ≤ N.to_nat (as_millis window))%nat as Hturn.
  { unfold waited, saturating_sub, as_millis in *. subst spent.
    assert (N.of_nat turns ≤ window / 1000000)%N; [|lia].
    apply N.div_le_lower_bound; lia. }
  rewrite inner_bind, call_bind.
  set (request := append_request config writer_token (ps_generation (sys_inner s1)) entry) in *.
  pose proof (timeout_clock _ (saturating_sub window spent) (w_append_fenced request)
                (sys_world s1) (append_clock request)) as Hc.
  destruct (timeout _ (w_append_fenced request) (sys_world s1)) as [reply w2]; cbn [fst snd] in *.
  destruct reply as [[entry_id|error]|]; [done| |done].
  destruct (is_stale_writer_error error); [done|]. rewrite elapsed_bind.
  pose proof (instant_now_clock w2) as [Hn3 Hn4]. cbn [sys_world with_world].
  destruct (_ <=? _)%N; [done|].
  set (s2 := with_world (instant_now w2).2 (with_world w2 s1)).
  assert (waited turns s2) as Hw2.
  { unfold waited in *. subst s2 s1. cbn [sys_world with_world] in *. lia. }
  unfold mbind, stateR_bind.
  destruct (sleep_before_retry started_at window _ s2) as [r s3] eqn:Es.
  apply sleep_waited with (turns := turns) in Es as [-> [Hw3|Ho]]; [| |done].
  - apply IH with (S turns); [done|lia|lia].
  - destruct (loop_overdue fuel (saturating_add attempts 1) (Some (error_to_string error)) s3 Ho)
      as (e & s4 & ->); [lia|done].
Qed.
End retries.

Lemma append_with_retry_loop `{PublisherEnvLaws} `{TychoTypes} config writer_token entry s :
  (append_loop config writer_token (append_fuel config) entry (instant_now (sys_world s)).1 0 None
     (with_world (instant_now (sys_world s)).2 s)).1 ≠ Ok None.
Proof.
  apply loop_ends with 0%nat.
  - unfold waited. cbn [sys_world with_world]. pose proof (instant_now_clock (sys_world s)). lia.
  - lia.
  - unfold append_fuel. lia.
Qed.

(** More fuel changes nothing. *)
Lemma bind_mono {S E A B} (m : stateR S E A) (k k' : A → stateR S E B) s r s' :
  (m ≫= k) s = (r, s') →
  (∀ a s1, k a s1 = (r, s') → k' a s1 = (r, s')) → (m ≫= k') s = (r, s').
Proof.
  intros [(a & s1 & E1 & E2)|(e & E1 & ->)]%bind_inv Hk.
  - rewrite (bind_run _ _ _ _ _ E1). by apply Hk.
  - by apply bind_run_err.
Qed.

Lemma append_loop_mono `{PublisherEnv} `{TychoTypes} config writer_token fuel entry started
    attempts last_error s r s' :
  append_loop config writer_token fuel entry started attempts last_error s = (r, s') →
  r ≠ Ok None →
  append_loop config writer_token (S fuel) entry started attempts last_error s = (r, s').
Proof.
  intros Hr Hne. revert attempts last_error s Hr.
  induction fuel as [|fuel IH]; intros attempts last_error s Hr; [injection Hr as <- <-; by destruct Hne|].
  rename fuel into n. cbn [append_loop] in Hr. remember (S n) as fuel eqn:Ef. cbn [append_loop].
  subst fuel.
  eapply bind_mono; [exact Hr|]. clear Hr s. intros [remaining|] s Hr; [|done]. cbv zeta in *.
  eapply bind_mono; [exact Hr|]. clear Hr s. intros generation s Hr.
  eapply bind_mono; [exact Hr|]. clear Hr s. intros [[entry_id|error]|] s Hr; [exact Hr| |exact Hr].
  revert Hr. destruct (is_stale_writer_error error); intros Hr; [exact Hr|].
  eapply bind_mono; [exact Hr|]. clear Hr s. intros spent s. cbv beta zeta.
  destruct (append_retry_window config <=? spent)%N; intros Hr; [exact Hr|].
  eapply bind_mono; [exact Hr|]. clear Hr s. intros [] s Hr. by apply IH.
Qed.

(** ** Claims *)

(** The retries of an append come to an end: whatever Redis answers and however long
    it takes, the loop returns an id or an error within the number of turns its window
    allows, and a larger bound on the turns makes no difference. *)
Theorem append_with_retry_ends `{PublisherEnvLaws} `{TychoTypes} config writer_token entry s extra :
  let s0 := with_world (instant_now (sys_world s)).2 s in
  let started := (instant_now (sys_world s)).1 in
  (append_loop config writer_token (append_fuel config) entry started 0 None s0).1 ≠ Ok None ∧
  append_loop config writer_token (append_fuel config + extra) entry started 0 None s0 =
  append_loop config writer_token (append_fuel config) entry started 0 None s0.
Proof.
  cbv zeta. pose proof (append_with_retry_loop config writer_token entry s) as Hne.
  split; [done|]. induction extra as [|extra IH]; [by rewrite Nat.add_0_r|].
  rewrite Nat.add_succ_r. destruct (append_loop _ _ (append_fuel config) _ _ _ _ _) as [r s'].
  by apply append_loop_mono.
Qed.

(** The deployment phase only moves forward: under every operation, a terminal phase
    stays, an admitted deployment stays admitted or becomes terminal, and the admitted
    flag says what the phase says. *)
Theorem deployment_phase_forward `{SerdeJson} `{Keccak} `{PublisherEnv} config writer_token ops s :
  let a := sys_admission s in
  let a' := sys_admission (foldl (λ s op, perform config writer_token op s) s ops) in
  (adm_admitted a = is_admitted (adm_phase a) → adm_admitted a' = is_admitted (adm_phase a')) ∧
  (is_terminal (adm_phase a) = true → a' = a) ∧
  (adm_admitted a = true → a' = a ∨ is_terminal (adm_phase a') = true).
Proof.
  cbv zeta. assert (admission_step (sys_admission s)
    (sys_admission (foldl (λ s op, perform config writer_token op s) s ops))) as Hstep.
  { revert s. induction ops as [|op ops IH]; intros s; [by left|]. cbn [foldl].
    eapply (@PreOrder_Transitive _ _ admission_step_preorder); [apply perform_phase|apply IH]. }
  destruct Hstep as [->|(Ht & Had & Hflag)]; [by auto|]. split_and!.
  - done.
  - by rewrite Ht.
  - intros Ha. right. by apply Had.
Qed.

(** A retired publisher is silent for good: after the fence was lost, no operation
    makes it a writer again, and nothing it does appends an entry. *)
Theorem retired_publisher_is_silent `{SerdeJson} `{Keccak} `{PublisherEnv} config writer_token
    ops s :
  ps_mode (sys_inner s) = Retired →
  let s' := foldl (λ s op, perform config writer_token op s) s ops in
  ps_mode (sys_inner s') = Retired ∧ sys_log s' = sys_log s.
Proof.
  cbv zeta. revert s. induction ops as [|op ops IH]; intros s Hs; [done|]. cbn [foldl].
  destruct (perform_retired config writer_token op s Hs) as [Hm Hl].
  destruct (IH _ Hm) as [Hm' Hl']. split; [done|congruence].
Qed.

(** ** A demonstration environment *)

(** The demonstration connection, and a clock that every command moves on. *)
Definition demo_tick {A} (f : @connection demo_store → A * @connection demo_store)
    (w : N * @connection demo_store) : A * (N * @connection demo_store) :=
  ((f w.2).1, (w.1 + 1000000, (f w.2).2)%N).

Definition demo_tokio : RedisStreamWriter := @TokioRedisStreamWriter demo_store demo_redis demo_link.

Definition demo_writer : RedisStreamWriter := {|
  world := N * @connection demo_store;
  w_promote c := demo_tick (@w_promote demo_tokio c);
  w_append_fenced c := demo_tick (@w_append_fenced demo_tokio c);
  w_renew_writer c := demo_tick (@w_renew_writer demo_tokio c);
  w_verify_writer c := demo_tick (@w_verify_writer demo_tokio c);
  w_inspect_writer c := demo_tick (@w_inspect_writer demo_tokio c);
|}.

Lemma demo_writer_laws : @RedisStreamWriterLaws demo_writer.
Proof.
  destruct (@tokio_writer_laws demo_store demo_redis demo_link demo_store_laws)
    as [Ha Hp Hb].
  split.
  - intros c w id w' [= E1 _]. eapply Ha. rewrite <- E1. apply surjective_pairing.
  - intros c w r w' token g H1 H2 H3 H4 H5 H6 H7 H8 [= E1 _]. eapply Hp; try eassumption.
    rewrite <- E1. apply surjective_pairing.
  - intros c w r w' [= E1 _]. eapply Hb. rewrite <- E1. apply surjective_pairing.
Qed.

(** Sleeping takes as long as it says, and nothing is timed out. *)
Definition demo_env : @PublisherEnv demo_writer :=
  @Build_PublisherEnv demo_writer
    (λ w, (w.1, w))
    (λ w, (Some w.1, w))
    (λ w, (λ _ _, 1000%N, w))
    (λ m w, (m, w))
    (λ d w, (w.1 + d, w.2)%N)
    (λ A d f w, (Some (f w).1, (f w).2)).

Lemma demo_env_laws : @PublisherEnvLaws demo_writer demo_env.
Proof.
  apply (@Build_PublisherEnvLaws demo_writer demo_env (λ w, w.1)).
  - intros w. cbn. lia.
  - intros d w. cbn. lia.
  - intros m w Hm. cbn. lia.
  - intros m w. cbn. lia.
  - intros c w. cbn. lia.
  - intros A d f w Hf. cbn. apply Hf.
  - intros A d f w a w' [= <- <-]. apply surjective_pairing.
Qed.

Definition demo_perform :=
  @perform demo_tycho demo_serde demo_keccak demo_writer demo_env demo_publisher_config "writer-a".

(** A publisher over an empty Redis, with what other tasks are going to do. *)
Definition demo_new schedule : @sys demo_tycho demo_writer :=
  @BroadcasterRedisPublisher_new demo_tycho demo_writer demo_publisher_config ∅ schedule
    (0%N, @Build_connection demo_store demo_empty []).

Definition demo_heads : list BroadcasterBackendHead :=
  [{| bh_backend := Native; bh_block_number := 17 |}; {| bh_backend := Rfq; bh_block_number := 17 |}].

(** Promoted, an active publisher of the first generation. *)
Definition demo_active schedule : @sys demo_tycho demo_writer :=
  demo_perform (DoPromote demo_heads "startup") (demo_new schedule).

(** ** Witnesses *)

Definition demo_started := with_world (@instant_now demo_writer demo_env (sys_world (demo_active []))).2
  (demo_active []).

Lemma append_with_retry_ends_witness :
  (@append_loop demo_tycho demo_writer demo_env demo_publisher_config "writer-a"
     (append_fuel demo_publisher_config) demo_entry
     (@instant_now demo_writer demo_env (sys_world (demo_active []))).1 0 None demo_started).1 ≠ Ok None.
Proof.
  exact (proj1 (@append_with_retry_ends demo_writer demo_env demo_env_laws demo_tycho
                  demo_publisher_config "writer-a" demo_entry (demo_active []) 0)).
Defined.

(** A publisher that fenced itself: the lease is not renewed, and what is accepted
    after that goes nowhere. *)
Definition demo_retired : @sys demo_tycho demo_writer :=
  demo_perform (DoSelfFence "stopping") (demo_active []).

Lemma retired_publisher_is_silent_witness :
  ps_mode (sys_inner (demo_perform (DoPublish (Update demo_update))
                        (demo_perform DoRenewLease demo_retired))) = Retired.
Proof.
  apply (@retired_publisher_is_silent demo_tycho demo_serde demo_keccak demo_writer demo_env
           demo_publisher_config "writer-a" [DoRenewLease; DoPublish (Update demo_update)] demo_retired).
  by vm_compute.
Defined.
