(* ===== verification/PublisherLog.v ===== *)
(** * The publisher's log

    What reaches the stream: the outcome of every append, live, drained or of a recovery,
    and the order of the entries acknowledged over the life of a publisher. *)

From S2P Require Import Prelude Ordered Text Protocol Wire Validate TychoFeed Codec RedisEntry.
From S2P Require Import Replay RedisStore Recovery Writer Publisher PublisherModes.

(** ** Facts: one append *)

Section appends.
Context `{SerdeJson} `{Keccak} `{PublisherEnv}.
Context (config : BroadcasterRedisPublisherConfig) (writer_token : string).

Abbreviation M := (stateR sys AnyhowError).

Definition with_failures (n : u64) (st : BroadcasterRedisPublisherState) :
    BroadcasterRedisPublisherState :=
  set_counts (ps_append_success_count st) n (ps_retry_exhaustion_count st) st.

(** Only the world and the count of failures have changed. *)
Definition tried (s s' : sys) : Prop :=
  ∃ w n, s' = with_inner (with_failures n) (with_world w s).

#[local] Instance tried_preorder : PreOrder tried.
Proof.
  split.
  - intros s. exists (sys_world s), (ps_append_failure_count (sys_inner s)).
    by destruct s as [[] ? ? ? ? ? ? ? ? ? ?].
  - intros a b c (w & n & ->) (w' & n' & ->). by exists w', n'.
Qed.

Lemma tried_call {A} (f : world → A * world) : moves tried (call f).
Proof.
  apply moves_call. intros w s. exists w, (ps_append_failure_count (sys_inner s)).
  by destruct s as [[] ? ? ? ? ? ? ? ? ? ?].
Qed.
Lemma tried_inner {A} (f : BroadcasterRedisPublisherState → A) : moves tried (inner f).
Proof. apply (moves_gets tried). Qed.
Lemma tried_failure : moves tried record_write_failure.
Proof.
  apply moves_modify. intros s. eexists (sys_world s), _. by destruct s.
Qed.
Hint Resolve tried_call tried_inner tried_failure : moves.

Ltac solve_tried :=
  repeat first [ solve [eauto 3 with moves typeclass_instances]
               | apply moves_bind; [apply _| |intros ?]
               | case_match ].

Lemma tried_loop fuel entry started attempts last_error :
  moves tried (append_loop config writer_token fuel entry started attempts last_error).
Proof.
  revert attempts last_error. induction fuel as [|fuel IH]; intros attempts last_error;
    cbn [append_loop]; [by eauto with moves typeclass_instances|].
  unfold remaining_retry_window, elapsed, sleep_before_retry, bail. cbv zeta. solve_tried.
Qed.
Hint Resolve tried_loop : moves.

Lemma tried_append entry : moves tried (append_with_retry config writer_token entry).
Proof. unfold append_with_retry, bail. solve_tried. Qed.

(** The state after an acknowledged append. *)
Definition acknowledged (e : BroadcasterRedisStreamEntry) (id : string) (s : sys) : sys :=
  with_log e (with_inner (record_append_success id (message_seq e + 1)) s).

Lemma append_entry_inv entry s r s' :
  append_entry_locked config writer_token entry s = (r, s') →
  match r with
  | Ok id => message_seq entry = ps_next_message_seq (sys_inner s) ∧
             (message_seq entry + 1 ≤ u64_max)%N ∧
             ∃ s1, tried s s1 ∧ s' = acknowledged entry id s1
  | Err _ => tried s s'
  end.
Proof.
  unfold append_entry_locked. rewrite inner_bind.
  destruct (N.eqb_spec (message_seq entry) (ps_next_message_seq (sys_inner s))) as [Heq|Hne];
    cbn [negb]; [|by intros [= <- <-]].
  rewrite lift_bind. unfold checked_add.
  destruct (_ <=? _)%N eqn:Hle; cbn [ok_or]; [|by intros [= <- <-]]. apply N.leb_le in Hle.
  rewrite attempt_bind. pose proof (tried_append entry s) as Ht.
  destruct (append_with_retry config writer_token entry s) as [reply s1]. cbn [fst snd].
  specialize (Ht _ _ eq_refl). rewrite lift_bind.
  destruct reply as [id|error]; unfold with_context, map_err; [|by intros [= <- <-]].
  rewrite modify_inner_bind. intros [= <- <-]. split_and!; [done|done|]. by exists s1.
Qed.

(** What the publisher publishes as, and everything outside [inner], world and log. *)
Definition writer_of (st : BroadcasterRedisPublisherState) :=
  (ps_mode st, ps_generation st, ps_stream_id st, ps_snapshot_id st, ps_startup_handoff st).
Definition frame (s : sys) :=
  (sys_gate s, sys_flags s, sys_schedule s, sys_admission s, sys_feed_gate s,
   sys_next_recovery_id s, sys_next_startup_handoff_id s, sys_last_status s).

(** An update takes the next state version, everything else the committed one. *)
Definition live_version (payload : BroadcasterPayload) (st : BroadcasterRedisPublisherState) : u64 :=
  if is_update payload then (ps_next_state_version st + 1)%N else ps_committed_state_version st.

(** [e] is [payload], at the cursor, and the cursor has moved past it. *)
Record live_appended (payload : BroadcasterPayload) (e : BroadcasterRedisStreamEntry) (s s' : sys) :
    Prop := {
  la_built : built config (ps_stream_id (sys_inner s)) (live_version payload (sys_inner s))
               (ps_next_message_seq (sys_inner s)) payload e;
  la_log : sys_log s' = sys_log s ++ [e];
  la_seq : ps_next_message_seq (sys_inner s') = (ps_next_message_seq (sys_inner s) + 1)%N;
  la_committed : ps_committed_state_version (sys_inner s') = live_version payload (sys_inner s);
  la_next_version : ps_next_state_version (sys_inner s') =
    if is_update payload then live_version payload (sys_inner s)
    else ps_next_state_version (sys_inner s);
  la_writer : writer_of (sys_inner s') = writer_of (sys_inner s);
  la_error : ps_last_error (sys_inner s') = None;
  la_frame : frame s' = frame s;
}.

(** Nothing was acknowledged and the cursor stands; a state version may be spent. *)
Record live_failed (payload : BroadcasterPayload) (s s' : sys) : Prop := {
  lf_log : sys_log s' = sys_log s;
  lf_seq : ps_next_message_seq (sys_inner s') = ps_next_message_seq (sys_inner s);
  lf_committed : ps_committed_state_version (sys_inner s') = ps_committed_state_version (sys_inner s);
  lf_next_version : ps_next_state_version (sys_inner s') = ps_next_state_version (sys_inner s) ∨
    (is_update payload = true ∧
     ps_next_state_version (sys_inner s') = (ps_next_state_version (sys_inner s) + 1)%N);
  lf_writer : writer_of (sys_inner s') = writer_of (sys_inner s);
  lf_error : ps_last_error (sys_inner s') = ps_last_error (sys_inner s);
  lf_frame : frame s' = frame s;
}.

Definition with_next_version (version : u64) (s : sys) : sys :=
  with_inner (λ _, set_versions (ps_committed_state_version (sys_inner s)) version (sys_inner s)) s.

Lemma allocate_bind {B} (k : u64 → M B) s :
  (allocate_state_version_locked ≫= k) s =
  let next := (ps_next_state_version (sys_inner s) + 1)%N in
  if (next <=? u64_max)%N then k next (with_next_version next s)
  else (Err (anyhow_error "Redis broadcaster state version overflow"), s).
Proof.
  cbv zeta. unfold allocate_state_version_locked, allocate_state_version, checked_add, mbind,
    stateR_bind, inner, gets, lift. cbn [id]. by destruct (_ <=? _)%N.
Qed.

(** After the version is settled. *)
Definition append_at (payload : BroadcasterPayload) (state_version : u64) :
    M (BroadcasterRedisStreamEntry * string) :=
  state ← inner id;
  now ← call current_time_ms;
  entry ← lift (from_contract (from_envelope_at (config_chain_id config)
            {| env_stream_id := ps_stream_id state;
               env_message_seq := ps_next_message_seq state; env_payload := payload |}
            now state_version));
  _ ← lift (ensure_redis_entry_size config entry
              (if is_recovery_kind (kind entry) then RECOVERY_REDIS_ENTRY_MAX_BYTES
               else LIVE_REDIS_ENTRY_MAX_BYTES));
  entry_id ← append_entry_locked config writer_token entry;
  (if is_update payload then modify_inner (commit_state_version state_version) else mret tt) ;;
  mret (entry, entry_id).

Lemma append_at_inv payload version s r s' :
  append_at payload version s = (r, s') →
  match r with
  | Ok (e, id) =>
      built config (ps_stream_id (sys_inner s)) version (ps_next_message_seq (sys_inner s)) payload e ∧
      (ps_next_message_seq (sys_inner s) + 1 ≤ u64_max)%N ∧
      ∃ s1, tried s s1 ∧
        s' = if is_update payload
             then with_inner (commit_state_version version) (acknowledged e id s1)
             else acknowledged e id s1
  | Err _ => tried s s'
  end.
Proof.
  unfold append_at. rewrite inner_bind, call_bind. cbn [id].
  set (s1 := with_world _ s). assert (tried s s1) as Hnow.
  { apply (tried_call current_time_ms s (Ok (current_time_ms (sys_world s)).1) s1).
    unfold call. by destruct (current_time_ms (sys_world s)). }
  rewrite lift_bind.
  destruct (from_contract _) as [e|error] eqn:He; [|by intros [= <- <-]].
  apply from_contract_ok in He. rewrite lift_bind.
  destruct (ensure_redis_entry_size _ _ _) as [n|error]; [|by intros [= <- <-]].
  unfold mbind at 1, stateR_bind at 1.
  destruct (append_entry_locked config writer_token e s1) as [[id|error] s2] eqn:Ea;
    apply append_entry_inv in Ea; [|intros [= <- <-]; by etransitivity].
  destruct Ea as (Hseq & Hmax & s3 & Hs3 & ->). intros Hr.
  assert (built config (ps_stream_id (sys_inner s)) version (ps_next_message_seq (sys_inner s))
            payload e) as Hb by (eexists; exact He).
  pose proof (built_fields _ _ _ _ _ _ Hb) as (Hs & _). rewrite Hs in Hmax.
  destruct (is_update payload); injection Hr as <- <-;
    (split_and!; [done|done|exists s3; split; [by etransitivity|done]]).
Qed.

Lemma append_live_at payload s :
  append_live_payload_locked config writer_token payload s =
  (if is_update payload then allocate_state_version_locked ≫= append_at payload
   else inner ps_committed_state_version ≫= append_at payload) s.
Proof. unfold append_live_payload_locked, append_at. cbv zeta. by destruct (is_update payload). Qed.

Lemma append_live_inv payload s r s' :
  append_live_payload_locked config writer_token payload s = (r, s') →
  match r with
  | Ok (e, _) => live_appended payload e s s'
  | Err _ => live_failed payload s s'
  end.
Proof.
  rewrite append_live_at. destruct (is_update payload) eqn:Eu.
  - rewrite allocate_bind. cbv zeta.
    destruct (_ <=? _)%N; [|intros [= <- <-]; split; auto].
    intros Hr%append_at_inv. destruct r as [[e id]|error].
    + rewrite Eu in Hr. destruct Hr as (Hb & Hmax & s1 & (w & n & ->) & ->).
      pose proof (built_fields _ _ _ _ _ _ Hb) as (Hs & _).
      split; unfold live_version; rewrite ?Eu; try done. cbn. by rewrite Hs.
    + destruct Hr as (w & n & ->). split; auto.
  - rewrite inner_bind. intros Hr%append_at_inv. destruct r as [[e id]|error].
    + rewrite Eu in Hr. destruct Hr as (Hb & Hmax & s1 & (w & n & ->) & ->).
      pose proof (built_fields _ _ _ _ _ _ Hb) as (Hs & _).
      split; unfold live_version; rewrite ?Eu; try done. cbn. by rewrite Hs.
    + destruct Hr as (w & n & ->). split; auto.
Qed.
End appends.

(** ** Facts: runs of live payloads *)

Record cursor := { c_seq : u64; c_committed : u64; c_next : u64 }.

Section runs.
Context `{SerdeJson} `{Keccak}.
Context (config : BroadcasterRedisPublisherConfig).

Definition cursor_of (st : BroadcasterRedisPublisherState) : cursor := {|
  c_seq := ps_next_message_seq st;
  c_committed := ps_committed_state_version st;
  c_next := ps_next_state_version st;
|}.

Definition version_at (payload : BroadcasterPayload) (c : cursor) : u64 :=
  if is_update payload then (c_next c + 1)%N else c_committed c.

Definition advance (payload : BroadcasterPayload) (c : cursor) : cursor := {|
  c_seq := (c_seq c + 1)%N;
  c_committed := version_at payload c;
  c_next := if is_update payload then version_at payload c else c_next c;
|}.

(** The entries of accepted payloads, in order, from one cursor to another. *)
Inductive live_run (stream snapshot : string) :
    cursor → list BroadcasterPayload → list BroadcasterRedisStreamEntry → cursor → Prop :=
| run_nil c : live_run stream snapshot c [] [] c
| run_cons c payload normal e payloads es c' :
    normalize_live_payload payload snapshot = Ok normal →
    built config stream (version_at normal c) (c_seq c) normal e →
    live_run stream snapshot (advance normal c) payloads es c' →
    live_run stream snapshot c (payload :: payloads) (e :: es) c'.

Lemma live_run_app stream snapshot c ps es c1 ps' es' c2 :
  live_run stream snapshot c ps es c1 → live_run stream snapshot c1 ps' es' c2 →
  live_run stream snapshot c (ps ++ ps') (es ++ es') c2.
Proof. induction 1; intros Hrun; [done|]. cbn. econstructor; eauto. Qed.

Lemma live_run_entry stream snapshot c ps es c' i e :
  live_run stream snapshot c ps es c' → es !! i = Some e →
  stream_id e = stream ∧ message_seq e = (c_seq c + N.of_nat i)%N.
Proof.
  intros Hrun. revert i. induction Hrun as [|c p n e' ps es c' Hn Hb Hrun IH]; intros i Hi; [done|].
  destruct i as [|i]; cbn in Hi.
  - injection Hi as ->. apply built_fields in Hb as (-> & -> & _). split; [done|lia].
  - apply IH in Hi as [-> ->]. split; [done|]. cbn. lia.
Qed.

Lemma live_run_seq stream snapshot c ps es c' :
  live_run stream snapshot c ps es c' →
  length es = length ps ∧ c_seq c' = (c_seq c + N.of_nat (length ps))%N.
Proof.
  induction 1 as [|c p n e ps es c' Hn Hb Hrun [IH1 IH2]]; cbn; [split; [done|lia]|].
  rewrite IH1, IH2. cbn. split; [done|lia].
Qed.
End runs.

(** ** Facts: the queue *)

Section queue.
Context `{SerdeJson} `{Keccak} `{PublisherEnv}.
Context (config : BroadcasterRedisPublisherConfig) (writer_token : string).

Abbreviation M := (stateR sys AnyhowError).

(** The payloads waiting in the gate, and the ones other tasks bring. *)
Definition queued (s : sys) : list BroadcasterPayload :=
  map qp_payload (pending_payloads (sys_gate s)).
Definition arrival (op : ConcurrentOp) : option BroadcasterPayload :=
  match op with
  | CAccept payload _ => if is_heartbeat payload then None else Some payload
  | _ => None
  end.
Definition arrivals (ops : list ConcurrentOp) : list BroadcasterPayload := omap arrival ops.

(** What a publisher with the gate open can expect of other tasks: [recover_writer] is
    not called, since its caller waits for the recovery to end first. *)
Definition gate_kept (op : ConcurrentOp) : bool :=
  match op with CResetGate => false | _ => true end.

Definition accepts (ops : list ConcurrentOp) : nat :=
  length (filter (λ op, is_accept op = true) ops).

(** Everything but the gate, the flags, the schedule and the phase. *)
Definition outside (s : sys) :=
  (sys_inner s, sys_world s, sys_log s, sys_feed_gate s, sys_next_recovery_id s,
   sys_next_startup_handoff_id s, sys_last_status s).

Definition batch_of (s : sys) : list ConcurrentOp := default [] (head (sys_schedule s)).
Definition after_batch (s : sys) : sys :=
  foldl (run_concurrent config) (with_schedule (tail (sys_schedule s)) s) (batch_of s).

Lemma interleave_bind {B} (k : unit → M B) s :
  (interleave config ≫= k) s = k tt (after_batch s).
Proof.
  unfold interleave, mbind, stateR_bind, modify, after_batch, batch_of.
  destruct (sys_schedule s) eqn:Es; [|done]. cbn. rewrite <- Es. by destruct s.
Qed.

Lemma run_concurrent_outside s op :
  outside (run_concurrent config s op) = outside s ∧
  sys_schedule (run_concurrent config s op) = sys_schedule s.
Proof.
  destruct op; cbn; try done. destruct (open_recovery_id (sys_gate s)); [|done].
  by destruct (gate_accept _ _ _ _ _) as [[??]?].
Qed.

Lemma after_batch_outside s :
  outside (after_batch s) = outside s ∧ sys_schedule (after_batch s) = tail (sys_schedule s).
Proof.
  unfold after_batch. change (outside s) with (outside (with_schedule (tail (sys_schedule s)) s)).
  change (tail (sys_schedule s)) with (sys_schedule (with_schedule (tail (sys_schedule s)) s)) at 4.
  generalize (with_schedule (tail (sys_schedule s)) s). induction (batch_of s) as [|op ops IH];
    intros s1; [done|]. cbn [foldl]. destruct (IH (run_concurrent config s1 op)) as [-> ->].
  apply run_concurrent_outside.
Qed.

(** What accepting does to the queue. *)
Lemma gate_accept_queue limit now payload gate flags :
  let gate' := (gate_accept limit now payload gate flags).1.2 in
  open_recovery_id gate' = open_recovery_id gate ∧
  map qp_payload (pending_payloads gate') =
    map qp_payload (pending_payloads gate) ++
      (if is_heartbeat payload || (MAX_PENDING_RECOVERY_PAYLOADS <=? len (pending_payloads gate))%N
       then [] else [payload]).
Proof.
  cbv zeta. unfold gate_accept. destruct (is_heartbeat payload); cbn [orb];
    [by rewrite app_nil_r|].
  rewrite (N.leb_antisym (len (pending_payloads gate))).
  destruct (payload_complete_native_block payload) as [block|]; cbv beta iota zeta;
    cbn [note_native_block pending_payloads];
    destruct (_ <? _)%N; cbn; rewrite ?map_app, ?app_nil_r; done.
Qed.

Lemma run_concurrent_queue s op :
  is_Some (open_recovery_id (sys_gate s)) → gate_kept op = true →
  (len (pending_payloads (sys_gate s)) + N.of_nat (length (arrivals [op]))
     ≤ MAX_PENDING_RECOVERY_PAYLOADS)%N →
  open_recovery_id (sys_gate (run_concurrent config s op)) = open_recovery_id (sys_gate s) ∧
  queued (run_concurrent config s op) = queued s ++ arrivals [op].
Proof.
  intros [id Hopen] Hkept Hlen. destruct op as [payload now|flag|phase error|]; [|cbn..];
    [|by rewrite ?app_nil_r..|done].
  cbn [run_concurrent]. rewrite Hopen.
  pose proof (gate_accept_queue (recovery_max_buffered_native_blocks config) now payload
                (sys_gate s) (sys_flags s)) as [Ho Hq].
  destruct (gate_accept _ _ _ _ _) as [[reply gate] flags]. cbn [fst snd] in *.
  unfold queued. cbn [with_gate sys_gate]. rewrite Hq, Ho. split; [done|]. f_equal.
  unfold arrivals in *. cbn in *. destruct (is_heartbeat payload); [done|]. cbn [orb length] in *.
  destruct (N.leb_spec MAX_PENDING_RECOVERY_PAYLOADS (len (pending_payloads (sys_gate s)))); [lia|done].
Qed.
End queue.

(** ** Facts: draining *)

Section drain.
Context `{SerdeJson} `{Keccak} `{PublisherEnv}.
Context (config : BroadcasterRedisPublisherConfig) (writer_token : string).

Abbreviation M := (stateR sys AnyhowError).
Abbreviation gate_open s := (is_Some (open_recovery_id (sys_gate s))).
Abbreviation waiting s := (length (pending_payloads (sys_gate s))).

Lemma len_queued s : len (pending_payloads (sys_gate s)) = len (queued s).
Proof. unfold queued, len. by rewrite length_map. Qed.

Lemma arrivals_app a b : arrivals (a ++ b) = arrivals a ++ arrivals b.
Proof. apply omap_app. Qed.

Lemma batch_queue ops s :
  gate_open s → Forall (λ op, gate_kept op = true) ops →
  (len (queued s) + len (arrivals ops) ≤ MAX_PENDING_RECOVERY_PAYLOADS)%N →
  let s' := foldl (run_concurrent config) s ops in
  open_recovery_id (sys_gate s') = open_recovery_id (sys_gate s) ∧
  queued s' = queued s ++ arrivals ops.
Proof.
  cbv zeta. intros Hopen Hops. revert s Hopen.
  induction Hops as [|op ops Hop Hops IH]; intros s Hopen Hlen;
    [by rewrite app_nil_r|].
  change (op :: ops) with ([op] ++ ops) in *. rewrite arrivals_app in Hlen.
  unfold len in Hlen. rewrite length_app in Hlen.
  destruct (run_concurrent_queue config s op) as [Ho Hq]; [done|done| |].
  { rewrite len_queued. unfold len. lia. }
  cbn [foldl app]. destruct (IH (run_concurrent config s op)) as [Ho' Hq'].
  - by rewrite Ho.
  - unfold len. rewrite Hq, length_app. lia.
  - rewrite Ho', Hq', Ho, Hq. change (op :: ops) with ([op] ++ ops).
    by rewrite arrivals_app, app_assoc.
Qed.

(** Ready to drain: the gate is open and stays so, with room for what is to come. *)
Definition drainable (s : sys) : Prop :=
  gate_open s ∧ Forall (λ op, gate_kept op = true) (concat (sys_schedule s)) ∧
  (len (queued s) + len (arrivals (concat (sys_schedule s))) ≤ MAX_PENDING_RECOVERY_PAYLOADS)%N.

Lemma concat_batch s : concat (sys_schedule s) = batch_of s ++ concat (tail (sys_schedule s)).
Proof. unfold batch_of. by destruct (sys_schedule s). Qed.

Lemma after_batch_queue s :
  drainable s →
  open_recovery_id (sys_gate (after_batch config s)) = open_recovery_id (sys_gate s) ∧
  queued (after_batch config s) = queued s ++ arrivals (batch_of s) ∧
  drainable (after_batch config s).
Proof.
  intros (Hopen & Hkept & Hlen). rewrite concat_batch in Hkept, Hlen.
  apply Forall_app in Hkept as [Hb Hrest]. rewrite arrivals_app in Hlen.
  unfold len in Hlen. rewrite length_app in Hlen.
  destruct (batch_queue (batch_of s) (with_schedule (tail (sys_schedule s)) s)) as [Ho Hq];
    [done|done|unfold len; change (queued (with_schedule _ s)) with (queued s); lia|].
  fold (after_batch config s) in Ho, Hq. split_and!; [done|done|].
  destruct (after_batch_outside config s) as [_ Hs]. split_and!; [by rewrite Ho|by rewrite Hs|].
  rewrite Hs, Hq. unfold len. rewrite length_app.
  change (queued (with_schedule _ s)) with (queued s). lia.
Qed.

(** Whatever the other tasks do, no more can wait than was waiting and has come. *)
Definition pressure (s : sys) : nat := (waiting s + accepts (concat (sys_schedule s)))%nat.

Lemma run_concurrent_pressure s op :
  (waiting (run_concurrent config s op) ≤ waiting s + accepts [op])%nat.
Proof.
  destruct op as [payload now|flag|phase error|]; [|cbn; lia..].
  replace (accepts [CAccept payload now]) with 1%nat by done. cbn [run_concurrent].
  destruct (open_recovery_id (sys_gate s)); [|lia].
  pose proof (gate_accept_queue (recovery_max_buffered_native_blocks config) now payload
                (sys_gate s) (sys_flags s)) as [_ Hq].
  destruct (gate_accept _ _ _ _ _) as [[reply gate] flags]. cbn [fst snd] in *.
  apply (f_equal length) in Hq. rewrite length_app, !length_map in Hq.
  cbn [with_gate sys_gate]. destruct (_ || _); cbn [length] in Hq; lia.
Qed.

Lemma accepts_app a b : accepts (a ++ b) = (accepts a + accepts b)%nat.
Proof. unfold accepts. by rewrite filter_app, length_app. Qed.

Lemma after_batch_pressure s : (pressure (after_batch config s) ≤ pressure s)%nat.
Proof.
  unfold pressure. rewrite (proj2 (after_batch_outside config s)), (concat_batch s), accepts_app.
  enough (∀ ops s, waiting (foldl (run_concurrent config) s ops) ≤ waiting s + accepts ops)%nat as Hle.
  { specialize (Hle (batch_of s) (with_schedule (tail (sys_schedule s)) s)).
    change (waiting (with_schedule _ s)) with (waiting s) in Hle. unfold after_batch. lia. }
  clear s. induction ops as [|op ops IH]; intros s; [cbn; lia|]. cbn [foldl].
  specialize (IH (run_concurrent config s op)). pose proof (run_concurrent_pressure s op).
  change (op :: ops) with ([op] ++ ops). rewrite accepts_app. lia.
Qed.

Lemma live_frame payload s r s' :
  append_live_payload_locked config writer_token payload s = (r, s') → frame s' = frame s.
Proof. intros Hr%append_live_inv. destruct r as [[]|]; apply Hr. Qed.

Lemma frame_pressure s s' : frame s' = frame s → pressure s' = pressure s.
Proof. intros [=]. unfold pressure. congruence. Qed.

Lemma drain_loop_ends fuel s :
  (pressure s < fuel)%nat → (drain_loop config writer_token fuel s).1 ≠ Ok None.
Proof.
  revert s. induction fuel as [|fuel IH]; intros s Hs; [lia|]. cbn [drain_loop].
  rewrite interleave_bind, gets_bind. pose proof (after_batch_pressure s) as Hp.
  destruct (pending_payloads _) as [|queued rest] eqn:Eq; [done|].
  set (s1 := after_batch config s) in *. unfold mbind at 1, stateR_bind at 1, modify.
  assert (pressure (set_pending rest s1) < pressure s1)%nat as Hlt.
  { unfold pressure. rewrite Eq. cbn [set_pending with_gate sys_gate sys_schedule pending_payloads length]. lia. }
  rewrite inner_bind, lift_bind. destruct (normalize_live_payload _ _) as [payload|error]; [|done].
  rewrite interleave_bind, attempt_bind. pose proof (after_batch_pressure (set_pending rest s1)) as Hp2.
  destruct (append_live_payload_locked _ _ _ _) as [[[e id]|error] s2] eqn:Ea; cbn [fst snd]; [|done].
  apply IH. apply live_frame, frame_pressure in Ea. lia.
Qed.

(** The runs of a publisher's own stream. *)
Definition own_run (s : sys) := live_run config (ps_stream_id (sys_inner s)) (ps_snapshot_id (sys_inner s)).

Definition schedule_spent (s : sys) (ops : list ConcurrentOp) (s' : sys) : Prop :=
  ∃ batches, sys_schedule s = batches ++ sys_schedule s' ∧ ops = concat batches.

Lemma schedule_spent_batch s : schedule_spent s (batch_of s) (after_batch config s).
Proof.
  unfold schedule_spent, batch_of. rewrite (proj2 (after_batch_outside config s)).
  destruct (sys_schedule s) as [|batch schedule]; [by exists []|].
  exists [batch]. split; [done|]. cbn. by rewrite app_nil_r.
Qed.

Lemma schedule_spent_trans a ops b ops' c :
  schedule_spent a ops b → schedule_spent b ops' c → schedule_spent a (ops ++ ops') c.
Proof.
  intros (bs & Hb & ->) (bs' & Hc & ->). exists (bs ++ bs'). rewrite Hb, Hc, concat_app.
  split; [by rewrite app_assoc|done].
Qed.

(** All that was waiting or came while draining is in the log, in order, and the gate is
    closed on an empty queue. *)
Record drained (s : sys) (ops : list ConcurrentOp) (es : list BroadcasterRedisStreamEntry)
    (s' : sys) : Prop := {
  dr_spent : schedule_spent s ops s';
  dr_run : own_run s (cursor_of (sys_inner s)) (queued s ++ arrivals ops) es (cursor_of (sys_inner s'));
  dr_log : sys_log s' = sys_log s ++ es;
  dr_queue : queued s' = [];
  dr_closed : open_recovery_id (sys_gate s') = None;
  dr_writer : writer_of (sys_inner s') = writer_of (sys_inner s);
}.

(** Draining stopped at [payload]: what came before it is in the log, what comes after it
    still waits, behind it unless it could not be normalised; the gate stays open. *)
Record stopped (s : sys) (ops : list ConcurrentOp) (sent : list BroadcasterPayload)
    (payload : BroadcasterPayload) (rest : list BroadcasterPayload)
    (es : list BroadcasterRedisStreamEntry) (s' : sys) : Prop := {
  sp_spent : schedule_spent s ops s';
  sp_split : queued s ++ arrivals ops = sent ++ payload :: rest;
  sp_run : ∃ c', own_run s (cursor_of (sys_inner s)) sent es c' ∧
    ps_next_message_seq (sys_inner s') = c_seq c' ∧
    ps_committed_state_version (sys_inner s') = c_committed c';
  sp_log : sys_log s' = sys_log s ++ es;
  sp_queue : match normalize_live_payload payload (ps_snapshot_id (sys_inner s)) with
             | Ok normal => queued s' = normal :: rest
             | Err _ => queued s' = rest
             end;
  sp_open : open_recovery_id (sys_gate s') = open_recovery_id (sys_gate s);
  sp_writer : writer_of (sys_inner s') = writer_of (sys_inner s);
}.

Lemma live_appended_advance payload e s s' :
  live_appended config payload e s s' →
  cursor_of (sys_inner s') = advance payload (cursor_of (sys_inner s)).
Proof.
  intros [_ _ Hs Hc Hn _ _ _]. unfold cursor_of, advance, version_at. rewrite Hs, Hc, Hn. cbn.
  unfold live_version. by destruct (is_update payload).
Qed.

Lemma writer_of_names st st' :
  writer_of st' = writer_of st → ps_stream_id st' = ps_stream_id st ∧ ps_snapshot_id st' = ps_snapshot_id st.
Proof. by intros [= _ _ -> ->]. Qed.

(** A turn that publishes the head of the queue, before the rest of the drain. *)
Lemma drain_turn s queued1 rest normal e id s3 :
  drainable s → pending_payloads (sys_gate (after_batch config s)) = queued1 :: rest →
  normalize_live_payload (qp_payload queued1) (ps_snapshot_id (sys_inner s)) = Ok normal →
  append_live_payload_locked config writer_token normal
    (after_batch config (set_pending rest (after_batch config s))) = (Ok (e, id), s3) →
  ∃ ops, drainable s3 ∧ schedule_spent s ops s3 ∧
    queued s ++ arrivals ops = qp_payload queued1 :: queued s3 ∧
    own_run s (cursor_of (sys_inner s)) [qp_payload queued1] [e] (cursor_of (sys_inner s3)) ∧
    sys_log s3 = sys_log s ++ [e] ∧ open_recovery_id (sys_gate s3) = open_recovery_id (sys_gate s) ∧
    writer_of (sys_inner s3) = writer_of (sys_inner s).
Proof.
  intros Hd Hp Hn Happ. destruct (after_batch_queue s Hd) as (Ho1 & Hq1 & Hd1).
  pose proof (after_batch_outside config s) as [Hout1 _].
  pose proof (schedule_spent_batch s) as Hs1. set (s1 := after_batch config s) in *.
  assert (drainable (set_pending rest s1)) as Hd1'.
  { destruct Hd1 as (Ha & Hb & Hc). split_and!; [done|done|]. unfold queued, len in *.
    rewrite Hp in Hc. cbn [set_pending with_gate sys_gate sys_schedule pending_payloads map length] in *.
    lia. }
  destruct (after_batch_queue _ Hd1') as (Ho2 & Hq2 & Hd2).
  pose proof (after_batch_outside config (set_pending rest s1)) as [Hout2 _].
  pose proof (schedule_spent_batch (set_pending rest s1)) as Hs2.
  set (s2 := after_batch config (set_pending rest s1)) in *.
  pose proof (append_live_inv _ _ _ _ _ _ Happ) as Hl. cbn in Hl.
  pose proof (la_frame _ _ _ _ _ Hl) as [= Eg Ef Es Ea _ _ _ _].
  exists (batch_of s ++ batch_of (set_pending rest s1)).
  injection Hout1 as Ei1 _ El1 _ _ _ _. injection Hout2 as Ei2 _ El2 _ _ _ _.
  cbn in Ei2, El2. rewrite Ei1 in Ei2. rewrite El1 in El2.
  split_and!.
  - destruct Hd2 as (Ha & Hb & Hc). unfold drainable, queued in *. by rewrite Eg, Es.
  - eapply schedule_spent_trans; [exact Hs1|]. destruct Hs2 as (bs & Hb & ->).
    exists bs. split; [|done]. by rewrite Es.
  - rewrite arrivals_app, app_assoc, <- Hq1. unfold queued at 2. rewrite Eg.
    change (map qp_payload (pending_payloads (sys_gate s2))) with (queued s2). rewrite Hq2.
    unfold queued. rewrite Hp. done.
  - rewrite (live_appended_advance _ _ _ _ Hl). rewrite Ei2.
    eapply run_cons; [done| |apply run_nil].
    pose proof (la_built _ _ _ _ _ Hl) as Hb. by rewrite Ei2 in Hb.
  - by rewrite (la_log _ _ _ _ _ Hl), El2.
  - by rewrite Eg, Ho2.
  - by rewrite (la_writer _ _ _ _ _ Hl), Ei2.
Qed.

(** A turn that stops. *)
Lemma stopped_turn s queued1 rest s3 :
  drainable s → pending_payloads (sys_gate (after_batch config s)) = queued1 :: rest →
  match normalize_live_payload (qp_payload queued1) (ps_snapshot_id (sys_inner s)) with
  | Ok normal => ∃ e s2,
      append_live_payload_locked config writer_token normal
        (after_batch config (set_pending rest (after_batch config s))) = (Err e, s2) ∧
      s3 = set_pending ({| qp_payload := normal; qp_accepted_at := qp_accepted_at queued1 |}
                          :: pending_payloads (sys_gate s2)) s2
  | Err _ => s3 = set_pending rest (after_batch config s)
  end →
  ∃ ops payload rest', stopped s ops [] payload rest' [] s3.
Proof.
  intros Hd Hp Hn. destruct (after_batch_queue s Hd) as (Ho1 & Hq1 & Hd1).
  pose proof (after_batch_outside config s) as [Hout1 _].
  pose proof (schedule_spent_batch s) as Hs1. set (s1 := after_batch config s) in *.
  injection Hout1 as Ei1 _ El1 _ _ _ _.
  assert (queued s1 = qp_payload queued1 :: map qp_payload rest) as Hq.
  { unfold queued. by rewrite Hp. }
  destruct (normalize_live_payload _ _) as [normal|error] eqn:En.
  - destruct Hn as (e & s4 & Happ & ->).
    assert (drainable (set_pending rest s1)) as Hd1'.
    { destruct Hd1 as (Ha & Hb & Hc). split_and!; [done|done|]. unfold queued, len in *.
      rewrite Hp in Hc. cbn [set_pending with_gate sys_gate sys_schedule pending_payloads map length] in *.
      lia. }
    destruct (after_batch_queue _ Hd1') as (Ho2 & Hq2 & Hd2).
    pose proof (after_batch_outside config (set_pending rest s1)) as [Hout2 _].
    pose proof (schedule_spent_batch (set_pending rest s1)) as Hs2.
    set (s2 := after_batch config (set_pending rest s1)) in *.
    injection Hout2 as Ei2 _ El2 _ _ _ _. cbn in Ei2, El2. rewrite Ei1 in Ei2. rewrite El1 in El2.
    apply append_live_inv in Happ. destruct Happ as [Hl Hs Hc Hv Hw He Hf].
    injection Hf as Eg Ef Es _ _ _ _ _. rewrite Ei2 in *.
    eexists (batch_of s ++ batch_of (set_pending rest s1)), (qp_payload queued1), (queued s4).
    split.
    + eapply schedule_spent_trans; [exact Hs1|]. destruct Hs2 as (bs & Hb & ->).
      exists bs. split; [|done]. by rewrite <- Es in Hb.
    + rewrite arrivals_app, app_assoc, <- Hq1, Hq. unfold queued. rewrite Eg. cbn [app]. f_equal.
      change (map qp_payload (pending_payloads (sys_gate s2))) with (queued s2). by rewrite Hq2.
    + exists (cursor_of (sys_inner s)). split_and!; [apply run_nil|done|done].
    + by rewrite app_nil_r, <- El2.
    + by rewrite En.
    + change (open_recovery_id (sys_gate s4) = open_recovery_id (sys_gate s)). rewrite Eg, Ho2. exact Ho1.
    + done.
  - subst s3. eexists (batch_of s), (qp_payload queued1), (map qp_payload rest).
    split.
    + done.
    + by rewrite <- Hq1, Hq.
    + exists (cursor_of (sys_inner s)). split_and!; [apply run_nil|cbn; by rewrite Ei1..].
    + by rewrite app_nil_r, <- El1.
    + by rewrite En.
    + done.
    + cbn. by rewrite Ei1.
Qed.

Lemma drain_loop_outcome fuel s r s' :
  drainable s → drain_loop config writer_token fuel s = (r, s') → r ≠ Ok None →
  match r with
  | Ok _ => ∃ ops es, drained s ops es s'
  | Err _ => ∃ ops sent payload rest es, stopped s ops sent payload rest es s'
  end.
Proof.
  intros Hd Hr Hne. revert s Hd Hr. induction fuel as [|fuel IH]; intros s Hd;
    [by intros [= <- <-]|]. cbn [drain_loop].
  rewrite interleave_bind, gets_bind.
  destruct (pending_payloads _) as [|queued1 rest] eqn:Ep.
  { intros [= <- <-]. destruct (after_batch_queue s Hd) as (Ho & Hq & _).
    pose proof (after_batch_outside config s) as [[= Ei Ew El _ _ _ _] _].
    assert (queued (after_batch config s) = []) as Hnil by (unfold queued; by rewrite Ep).
    exists (batch_of s), []. split; cbn.
    - apply schedule_spent_batch.
    - rewrite <- Hq, Hnil, Ei. apply run_nil.
    - by rewrite app_nil_r.
    - done.
    - done.
    - by rewrite Ei. }
  unfold mbind at 1, stateR_bind at 1, modify. rewrite inner_bind, lift_bind.
  pose proof (stopped_turn s queued1 rest) as Hstop.
  pose proof (λ normal e id s3, drain_turn s queued1 rest normal e id s3 Hd Ep) as Hturn.
  change (sys_inner (set_pending rest (after_batch config s)))
    with (sys_inner (after_batch config s)).
  pose proof (after_batch_outside config s) as [[= -> _ _ _ _ _ _] _].
  destruct (normalize_live_payload _ _) as [normal|error].
  - rewrite interleave_bind, attempt_bind.
    destruct (append_live_payload_locked _ _ _ _) as [[[e id]|error] s3] eqn:Ea; cbn [fst snd].
    + destruct (Hturn normal e id s3 eq_refl Ea) as (ops & Hd3 & Hs3 & Hq3 & Hr3 & Hl3 & Ho3 & Hw3).
      destruct (writer_of_names _ _ Hw3) as [En1 En2].
      intros Hr. apply IH in Hr; [|done].
      destruct r as [?|?].
      * destruct Hr as (ops' & es & [Hsp Hrun Hlog Hq Hc Hw]). exists (ops ++ ops'), (e :: es).
        split.
        -- by eapply schedule_spent_trans.
        -- rewrite arrivals_app, app_assoc, Hq3. unfold own_run in *. rewrite En1, En2 in Hrun.
           by eapply (live_run_app _ _ _ _ [_] [_]).
        -- by rewrite Hlog, Hl3, <- app_assoc.
        -- done.
        -- done.
        -- congruence.
      * destruct Hr as (ops' & sent & p & rest' & es & [Hsp Hsplit Hrun Hlog Hq Ho Hw]).
        exists (ops ++ ops'), (qp_payload queued1 :: sent), p, rest', (e :: es).
        split.
        -- by eapply schedule_spent_trans.
        -- rewrite arrivals_app, app_assoc, Hq3. cbn. by rewrite Hsplit.
        -- destruct Hrun as (c' & Hrun & Hseq & Hcom). exists c'. split_and!; [|done|done].
           unfold own_run in *. rewrite En1, En2 in Hrun.
           by eapply (live_run_app _ _ _ _ [_] [_]).
        -- by rewrite Hlog, Hl3, <- app_assoc.
        -- by rewrite En2 in Hq.
        -- by rewrite Ho, Ho3.
        -- congruence.
    + intros [= <- <-].
      edestruct Hstop as (ops & p & rest' & Hst); [done|done|by eexists _, _|].
      by exists ops, [], p, rest', [].
  - intros [= <- <-]. destruct (Hstop _ Hd Ep eq_refl) as (ops & p & rest' & Hst).
    by exists ops, [], p, rest', [].
Qed.

Lemma drain_pending_outcome s r s' :
  drainable s → drain_pending_payloads_locked config writer_token s = (r, s') →
  match r with
  | Ok _ => ∃ ops es, drained s ops es s'
  | Err _ => ∃ ops sent payload rest es, stopped s ops sent payload rest es s'
  end.
Proof.
  unfold drain_pending_payloads_locked. rewrite gets_bind. intros Hd.
  pose proof (drain_loop_ends (drain_fuel s) s) as Hends.
  destruct (drain_loop _ _ _ s) as [reply s1] eqn:El. unfold mbind, stateR_bind. rewrite El.
  assert (reply ≠ Ok None) as Hne.
  { apply Hends. unfold pressure, drain_fuel, accepts. lia. }
  apply drain_loop_outcome in El; [|done|done].
  destruct reply as [[[]|]|error]; [|done|]; intros [= <- <-]; exact El.
Qed.

(** The gate, as other tasks leave it. *)
Record gate_fed (s : sys) (ops : list ConcurrentOp) (s' : sys) : Prop := {
  gf_spent : schedule_spent s ops s';
  gf_queue : queued s' = queued s ++ arrivals ops;
  gf_open : open_recovery_id (sys_gate s') = open_recovery_id (sys_gate s);
  gf_drainable : drainable s';
}.

Lemma gate_fed_batch s : drainable s → gate_fed s (batch_of s) (after_batch config s).
Proof.
  intros (Ho & Hq & Hd)%after_batch_queue. split; [apply schedule_spent_batch|done..].
Qed.

Lemma gate_fed_same s s' :
  drainable s → sys_gate s' = sys_gate s → sys_schedule s' = sys_schedule s → gate_fed s [] s'.
Proof.
  intros (Ha & Hb & Hc) Eg Es.
  split; [exists []; by rewrite Es|unfold queued; by rewrite Eg, app_nil_r|by rewrite Eg|].
  unfold drainable, queued in *. by rewrite Eg, Es.
Qed.

Lemma gate_fed_trans a ops b ops' c :
  gate_fed a ops b → gate_fed b ops' c → gate_fed a (ops ++ ops') c.
Proof.
  intros [Hs Hq Ho Hd] [Hs' Hq' Ho' Hd']. split; [by eapply schedule_spent_trans| |congruence|done].
  by rewrite Hq', Hq, arrivals_app, app_assoc.
Qed.

Lemma gate_fed_drainable s ops s' : gate_fed s ops s' → drainable s'.
Proof. by intros []. Qed.

(** The part of the state that a stream's identity and versions are. *)
Definition versions_of (st : BroadcasterRedisPublisherState) :=
  (ps_generation st, ps_stream_id st, ps_snapshot_id st, ps_startup_handoff st,
   ps_committed_state_version st, ps_next_state_version st).

(** [sent] is in the log, numbered from the cursor, and other tasks have run [ops]. *)
Record entries_sent (s : sys) (ops : list ConcurrentOp) (sent : list BroadcasterRedisStreamEntry)
    (s' : sys) : Prop := {
  es_log : sys_log s' = sys_log s ++ sent;
  es_seq : ps_next_message_seq (sys_inner s') =
    (ps_next_message_seq (sys_inner s) + N.of_nat (length sent))%N;
  es_number : ∀ i e, sent !! i = Some e →
    message_seq e = (ps_next_message_seq (sys_inner s) + N.of_nat i)%N;
  es_versions : versions_of (sys_inner s') = versions_of (sys_inner s);
  es_mode : ps_mode (sys_inner s') = Passive → ps_mode (sys_inner s) = Passive;
  es_gate : drainable s → gate_fed s ops s';
}.

Lemma entries_sent_nil s s' ops :
  sys_log s' = sys_log s → ps_next_message_seq (sys_inner s') = ps_next_message_seq (sys_inner s) →
  versions_of (sys_inner s') = versions_of (sys_inner s) →
  (ps_mode (sys_inner s') = Passive → ps_mode (sys_inner s) = Passive) →
  (drainable s → gate_fed s ops s') → entries_sent s ops [] s'.
Proof. intros Hl Hn Hv Hm Hg. split; [by rewrite app_nil_r|rewrite Hn; cbn; lia|done..]. Qed.

Lemma entries_sent_trans a ops sent b ops' sent' c :
  entries_sent a ops sent b → entries_sent b ops' sent' c →
  entries_sent a (ops ++ ops') (sent ++ sent') c.
Proof.
  intros [Hl Hn He Hv Hm Hg] [Hl' Hn' He' Hv' Hm' Hg']. split.
  - by rewrite Hl', Hl, app_assoc.
  - rewrite Hn', Hn, length_app. lia.
  - intros i e [Hi|[Hlen Hi]]%lookup_app_Some; [by apply He|]. apply He' in Hi. lia.
  - congruence.
  - auto.
  - intros Hd. specialize (Hg Hd). eapply gate_fed_trans; [exact Hg|].
    apply Hg'. by apply gate_fed_drainable in Hg.
Qed.

Lemma tried_sent s s' : tried s s' → entries_sent s [] [] s'.
Proof. intros (w & n & ->). apply entries_sent_nil; try done. intros Hd. by apply gate_fed_same. Qed.

Lemma append_entry_sent entry s r s' :
  append_entry_locked config writer_token entry s = (r, s') →
  entries_sent s [] (match r with Ok _ => [entry] | Err _ => [] end) s' ∧
  match r with
  | Ok _ => ps_mode (sys_inner s') = ps_mode (sys_inner s) ∧ ps_last_error (sys_inner s') = None
  | Err _ => True
  end.
Proof.
  intros Ha%append_entry_inv. destruct r as [id|error]; [|by split; [apply tried_sent|]].
  destruct Ha as (Hseq & _ & s1 & (w & n & ->) & ->). split; [|done]. split; try done.
  - cbn. lia.
  - intros [|i] e; [|done]. intros [= <-]. lia.
  - intros Hd. by apply gate_fed_same.
Qed.

Lemma after_batch_sent s : entries_sent s (batch_of s) [] (after_batch config s).
Proof.
  pose proof (after_batch_outside config s) as [[= Ei Ew El _ _ _ _] _].
  apply entries_sent_nil; rewrite ?Ei; try done. by intros Hd%gate_fed_batch.
Qed.

(** A failed transaction marks the publisher, and nothing else. *)
Lemma failed_sent before error s :
  ∃ s', entries_sent s [] [] s' ∧ ps_mode (sys_inner s') ≠ Active ∧
  ∀ B (k : M B),
    (record_publisher_error before error ;;
     mode ← inner ps_mode;
     (if bool_decide (mode = Retired)
      then set_deployment_phase PhaseRetired (Some (error_chain error)) else mret tt) ;;
     k) s = k s'.
Proof.
  set (s1 := (record_publisher_error before error s).2).
  assert (entries_sent s [] [] s1 ∧ ps_mode (sys_inner s1) ≠ Active) as [Hs Hm].
  { split; [apply entries_sent_nil|]; subst s1; cbn; destruct (is_stale_writer_error error); try done;
      try (unfold record_unhealthy, count_exhausted; by destruct (_ <? _)%N).
    all: intros Hd; by apply gate_fed_same. }
  destruct (decide (ps_mode (sys_inner s1) = Retired)) as [Hr|Hr].
  - exists (with_admission (next_admission PhaseRetired (Some (error_chain error))) s1).
    split_and!; [|done|].
    + eapply (entries_sent_trans _ [] [] _ [] []); [exact Hs|].
      apply entries_sent_nil; try done. intros Hd. by apply gate_fed_same.
    + intros B k. unfold record_publisher_error. rewrite modify_inner_bind, inner_bind.
      fold s1. by rewrite bool_decide_true.
  - exists s1. split_and!; [done..|]. intros B k. unfold record_publisher_error.
    rewrite modify_inner_bind, inner_bind. fold s1. by rewrite bool_decide_false.
Qed.

Lemma recovery_sent cancelled before commit entries s r s' :
  append_recovery_entries config writer_token cancelled before commit entries s = (r, s') →
  ∃ ops sent, entries_sent s ops sent s' ∧
  match r with
  | Ok _ => sent = entries ∧ ps_mode (sys_inner s') = ps_mode (sys_inner s) ∧
            (ps_last_error (sys_inner s) = None → ps_last_error (sys_inner s') = None)
  | Err _ => ∃ rest, entries = sent ++ rest
  end.
Proof.
  revert commit s. induction entries as [|entry entries IH]; intros commit s;
    cbn [append_recovery_entries].
  { intros [= <- <-]. exists [], []. split; [|done]. apply entries_sent_nil; try done.
    intros Hd. by apply gate_fed_same. }
  rewrite interleave_bind. pose proof (after_batch_sent s) as Hb.
  pose proof (after_batch_outside config s) as [[= Ei _ _ _ _ _ _] _].
  unfold mbind at 1, stateR_bind at 1.
  destruct (ensure_recovery_not_cancelled cancelled _) as [[[]|error] s1] eqn:Ec;
    apply ensure_recovery_not_cancelled_run in Ec as ->;
    [|intros [= <- <-]; exists (batch_of s), []; split; [done|by eexists]].
  rewrite attempt_bind.
  destruct (append_entry_locked config writer_token entry (after_batch config s)) as [[id|error] s1]
    eqn:Ea; apply append_entry_sent in Ea as [Hs Hok]; cbn [fst snd] in *.
  - destruct Hok as [Hm He]. rewrite Ei in Hm.
    intros Hr. apply IH in Hr as (ops & sent & Hs' & Hr).
    exists ((batch_of s ++ []) ++ ops), (([] ++ [entry]) ++ sent). split.
    + eapply entries_sent_trans; [by eapply entries_sent_trans|done].
    + cbn. destruct r as [c|error].
      * destruct Hr as (-> & Hm' & He'). split_and!; [done|congruence|auto].
      * destruct Hr as [rest ->]. by exists rest.
  - destruct (failed_sent before error s1) as (s2 & Hf & _ & Hk). rewrite Hk. intros Hr.
    exists ((batch_of s ++ []) ++ []), (([] ++ []) ++ []).
    assert (entries_sent s ((batch_of s ++ []) ++ []) (([] ++ []) ++ []) s2) as Hall.
    { eapply entries_sent_trans; [by eapply entries_sent_trans|done]. }
    destruct (_ && _); injection Hr as <- <-; (split; [done|by eexists]).
Qed.

Lemma ensure_not_cancelled_bind {B} cancelled (k : unit → M B) s :
  (ensure_recovery_not_cancelled cancelled ≫= k) s =
  if default false (sys_flags s !! cancelled)
  then (Err {| error_context := []; error_root := RecoveryPublicationCancelled |}, s) else k tt s.
Proof.
  unfold ensure_recovery_not_cancelled, mbind, stateR_bind, gets. by destruct (default _ _).
Qed.

(** After the version is allocated: what is left of [publish_recovery]. *)
Definition publish_entries (transaction : BroadcasterRecoveryTransaction)
    (fragments : list PreparedRecoveryFragment) (target : u64) (cancelled : N) :
    M BroadcasterRecoveryPublication :=
  times ← call entry_times;
  state ← inner id;
  entries ← lift (recovery_entries times config (ps_stream_id state)
              (ps_next_message_seq state) target transaction fragments);
  encoded_bytes ← lift (recovery_encoded_bytes config entries);
  commit_entry_id ← append_recovery_entries config writer_token cancelled
                      (ps_append_failure_count state) None entries;
  commit_entry_id ← lift (ok_or commit_entry_id
                      (anyhow_error "Redis recovery committed no entries"));
  modify_inner (commit_state_version target) ;;
  drain_pending_payloads_locked config writer_token ;;
  replay_boundary ← replay_boundary_locked config;
  mret {| pub_recovery_id := tx_recovery_id transaction; pub_target_state_version := target;
          pub_commit_entry_id := commit_entry_id; pub_replay_boundary := replay_boundary;
          pub_encoded_bytes := encoded_bytes; pub_chunk_count := len fragments;
          pub_buffer_a_count := len (tx_buffer_a transaction) |}.

Definition after_commit (s : sys) (target : u64) (count : nat) : cursor := {|
  c_seq := (ps_next_message_seq (sys_inner s) + N.of_nat count)%N;
  c_committed := target;
  c_next := ps_next_state_version (sys_inner s);
|}.

(** How far it gets: all entries and then some of the queue, or some of the entries. *)
Inductive publication (s : sys) (transaction : BroadcasterRecoveryTransaction)
    (fragments : list PreparedRecoveryFragment) (target : u64) (ops : list ConcurrentOp)
    (s' : sys) : option BroadcasterRecoveryPublication → Prop :=
| pub_refused : gate_fed s ops s' → sys_log s' = sys_log s →
    publication s transaction fragments target ops s' None
| pub_entries times entries sent rest :
    recovery_entries times config (ps_stream_id (sys_inner s)) (ps_next_message_seq (sys_inner s))
      target transaction fragments = Ok entries →
    entries = sent ++ rest → sys_log s' = sys_log s ++ sent → gate_fed s ops s' →
    publication s transaction fragments target ops s' None
| pub_committed times entries ops1 ops2 s1 sent payload rest es :
    recovery_entries times config (ps_stream_id (sys_inner s)) (ps_next_message_seq (sys_inner s))
      target transaction fragments = Ok entries →
    ops = ops1 ++ ops2 → gate_fed s ops1 s1 →
    writer_of (sys_inner s1) = writer_of (sys_inner s) → sys_log s1 = sys_log s ++ entries →
    cursor_of (sys_inner s1) = after_commit s target (length entries) →
    stopped s1 ops2 sent payload rest es s' →
    publication s transaction fragments target ops s' None
| pub_done times entries ops1 ops2 s1 es boundary pub :
    recovery_entries times config (ps_stream_id (sys_inner s)) (ps_next_message_seq (sys_inner s))
      target transaction fragments = Ok entries →
    ops = ops1 ++ ops2 → gate_fed s ops1 s1 →
    writer_of (sys_inner s1) = writer_of (sys_inner s) → sys_log s1 = sys_log s ++ entries →
    cursor_of (sys_inner s1) = after_commit s target (length entries) →
    drained s1 ops2 es s' →
    replay_boundary_of config (sys_inner s') = boundary →
    match boundary with
    | Ok boundary => ∃ p, pub = Some p ∧ pub_replay_boundary p = boundary ∧
                          pub_target_state_version p = target
    | Err _ => pub = None
    end →
    publication s transaction fragments target ops s' pub.

Lemma publish_entries_outcome transaction fragments target cancelled s r s' :
  drainable s → publish_entries transaction fragments target cancelled s = (r, s') →
  ∃ ops, publication s transaction fragments target ops s' (result_ok r).
Proof.
  intros Hd. unfold publish_entries. rewrite call_bind, inner_bind. cbv beta.
  set (s0 := with_world _ s). change (id (sys_inner s0)) with (sys_inner s).
  rewrite lift_bind. set (times := (entry_times (sys_world s)).1).
  destruct (recovery_entries _ _ _ _ _ _ _) as [entries|error] eqn:Hentries.
  2: { intros [= <- <-]. exists []. apply pub_refused; [apply gate_fed_same; [exact Hd|reflexivity|reflexivity]|reflexivity]. }
  rewrite lift_bind. destruct (recovery_encoded_bytes _ _) as [bytes|error].
  2: { intros [= <- <-]. exists []. apply pub_refused; [apply gate_fed_same; [exact Hd|reflexivity|reflexivity]|reflexivity]. }
  unfold mbind at 1, stateR_bind at 1.
  destruct (append_recovery_entries _ _ _ _ _ _ s0) as [[commit|error] s1] eqn:Ea;
    apply recovery_sent in Ea as (ops1 & sent & [Hl Hn _ Hv _ Hg] & Hres); specialize (Hg Hd);
    apply (gate_fed_trans s [] s0) in Hg; try (by apply gate_fed_same); cbn [app] in Hg.
  2: { intros [= <- <-]. destruct Hres as [rest Hrest]. exists ops1. eapply pub_entries; [exact Hentries|exact Hrest|exact Hl|exact Hg]. }
  destruct Hres as (-> & Hm & _). rewrite lift_bind.
  destruct commit as [commit|]; cbn [ok_or].
  2: { intros [= <- <-]. exists ops1. eapply pub_entries; [exact Hentries|by rewrite app_nil_r|exact Hl|exact Hg]. }
  rewrite modify_inner_bind. set (s2 := with_inner _ s1).
  assert (gate_fed s ops1 s2) as Hg2.
  { rewrite <- (app_nil_r ops1). eapply gate_fed_trans; [exact Hg|].
    apply gate_fed_same; [by eapply gate_fed_drainable|done..]. }
  assert (writer_of (sys_inner s2) = writer_of (sys_inner s) ∧
          cursor_of (sys_inner s2) = after_commit s target (length entries)) as [Hw Hc].
  { change (sys_inner s0) with (sys_inner s) in *. injection Hv as E1 E2 E3 E4 E5 E6. split; [unfold writer_of; cbn; congruence|].
    unfold cursor_of, after_commit. cbn. by rewrite Hn, E6. }
  unfold mbind at 1, stateR_bind at 1.
  destruct (drain_pending_payloads_locked _ _ s2) as [[[]|error] s3] eqn:Ed;
    apply drain_pending_outcome in Ed; [|by eapply gate_fed_drainable| |by eapply gate_fed_drainable].
  - destruct Ed as (ops2 & es & Hdr). unfold replay_boundary_locked, mbind, stateR_bind, inner, gets.
    cbn [id]. unfold lift. intros Hr. exists (ops1 ++ ops2).
    assert (s' = s3) as -> by (destruct (replay_boundary_of _ _); by injection Hr as _ ->).
    eapply pub_done; [exact Hentries|done|exact Hg2|exact Hw|exact Hl|exact Hc|exact Hdr|done|].
    destruct (replay_boundary_of _ _); injection Hr as <-; [by eexists|done].
  - intros [= <- <-]. destruct Ed as (ops2 & sent & p & rest & es & Hst). exists (ops1 ++ ops2).
    by eapply pub_committed.
Qed.

Definition allocated (s : sys) : sys :=
  with_next_version (ps_next_state_version (sys_inner s) + 1)%N (after_batch config s).

Lemma allocated_fed s : drainable s → gate_fed s (batch_of s) (allocated s).
Proof.
  intros Hd. rewrite <- (app_nil_r (batch_of s)). eapply gate_fed_trans; [by apply gate_fed_batch|].
  apply gate_fed_same; [|done..]. by apply after_batch_queue.
Qed.

Lemma allocated_inner s :
  sys_inner (allocated s) =
    set_versions (ps_committed_state_version (sys_inner s)) (ps_next_state_version (sys_inner s) + 1)
      (sys_inner s) ∧
  sys_log (allocated s) = sys_log s.
Proof.
  unfold allocated. cbn. by pose proof (after_batch_outside config s) as [[= -> _ -> _ _ _ _] _].
Qed.

(** [publish_recovery] is refused before it allocates, or publishes the transaction. *)
Lemma publish_recovery_steps transaction cancelled s r s' :
  publish_recovery config writer_token transaction cancelled s = (r, s') →
  ((s' = s ∨ s' = after_batch config s) ∧ result_ok r = None) ∨
  (∃ fragments, prepare_recovery_fragments (tx_replacement_json transaction) = Ok fragments ∧
    ensure_active_publisher (sys_inner s) = Ok tt ∧
    publish_entries transaction fragments (ps_next_state_version (sys_inner s) + 1) cancelled
      (allocated s) = (r, s')).
Proof.
  unfold publish_recovery. rewrite ensure_not_cancelled_bind.
  destruct (default _ _); [intros [= <- <-]; auto|]. rewrite lift_bind.
  destruct (prepare_recovery_fragments _) as [fragments|error] eqn:Ef; [|intros [= <- <-]; auto].
  rewrite gets_bind, ensure_that_bind. case_bool_decide; [|intros [= <- <-]; auto].
  rewrite inner_bind, lift_bind. change (id (sys_inner s)) with (sys_inner s).
  destruct (ensure_active_publisher _) as [[]|] eqn:Ea; [|intros [= <- <-]; auto].
  rewrite interleave_bind, ensure_not_cancelled_bind.
  pose proof (after_batch_outside config s) as [[= Ei _ El _ _ _ _] _].
  destruct (default _ _); [intros [= <- <-]; auto|].
  rewrite allocate_bind, Ei. cbv zeta. destruct (_ <=? _)%N; [|intros [= <- <-]; auto].
  intros Hr. right. exists fragments. split_and!; [done|done|]. exact Hr.
Qed.

Lemma refused_fed s s' :
  drainable s → s' = s ∨ s' = after_batch config s →
  ∃ ops, gate_fed s ops s' ∧ sys_log s' = sys_log s.
Proof.
  intros Hd [->| ->].
  - exists []. split; [by apply gate_fed_same|done].
  - exists (batch_of s). split; [by apply gate_fed_batch|].
    by pose proof (after_batch_outside config s) as [[= _ _ -> _ _ _ _] _].
Qed.

(** The state at the commit, seen from the start. *)
Lemma committed_start s target s1 ops1 (entries : list BroadcasterRedisStreamEntry) :
  target = (ps_next_state_version (sys_inner s) + 1)%N → drainable s →
  gate_fed (allocated s) ops1 s1 → writer_of (sys_inner s1) = writer_of (sys_inner (allocated s)) →
  cursor_of (sys_inner s1) = after_commit (allocated s) target (length entries) →
  gate_fed s (batch_of s ++ ops1) s1 ∧ writer_of (sys_inner s1) = writer_of (sys_inner s) ∧
  cursor_of (sys_inner s1) =
    {| c_seq := ps_next_message_seq (sys_inner s) + N.of_nat (length entries);
       c_committed := target; c_next := target |}%N.
Proof.
  intros -> Hd Hg Hw Hc. destruct (allocated_inner s) as [Ei _].
  split_and!; [eapply gate_fed_trans; [by apply allocated_fed|done]| |].
  - by rewrite Hw, Ei.
  - rewrite Hc. unfold after_commit. by rewrite Ei.
Qed.

Lemma drained_start s ops1 s1 ops2 es s' :
  gate_fed s ops1 s1 → writer_of (sys_inner s1) = writer_of (sys_inner s) →
  drained s1 ops2 es s' →
  schedule_spent s (ops1 ++ ops2) s' ∧
  own_run s (cursor_of (sys_inner s1)) (queued s ++ arrivals (ops1 ++ ops2)) es
    (cursor_of (sys_inner s')) ∧
  queued s' = [] ∧ open_recovery_id (sys_gate s') = None.
Proof.
  intros [Hs Hq Ho _] Hw [Hs' Hr _ Hq' Hc' _]. split_and!; [by eapply schedule_spent_trans| |done..].
  rewrite arrivals_app, app_assoc, <- Hq. unfold own_run in *.
  by destruct (writer_of_names _ _ Hw) as [<- <-].
Qed.

(** What a failed recovery leaves of what was waiting and came: the part after [published],
    the first of it as it is normalised for the stream, or dropped if it cannot be. *)
Definition kept_from (s : sys) (ops : list ConcurrentOp) (published : list BroadcasterPayload)
    (s' : sys) : Prop :=
  queued s ++ arrivals ops = published ++ queued s' ∨
  ∃ payload rest, queued s ++ arrivals ops = published ++ payload :: rest ∧
    match normalize_live_payload payload (ps_snapshot_id (sys_inner s)) with
    | Ok normal => queued s' = normal :: rest
    | Err _ => queued s' = rest
    end.

Lemma kept_fed s ops s' : gate_fed s ops s' → kept_from s ops [] s'.
Proof. intros [_ Hq _ _]. by left. Qed.

Lemma stopped_start s ops1 s1 ops2 sent payload rest es s' :
  gate_fed s ops1 s1 → writer_of (sys_inner s1) = writer_of (sys_inner s) →
  stopped s1 ops2 sent payload rest es s' →
  schedule_spent s (ops1 ++ ops2) s' ∧ kept_from s (ops1 ++ ops2) sent s' ∧
  open_recovery_id (sys_gate s') = open_recovery_id (sys_gate s) ∧
  ∃ c', own_run s (cursor_of (sys_inner s1)) sent es c'.
Proof.
  intros [Hs Hq Ho _] Hw [Hs' Hsplit (c' & Hr & _) _ Hq' Ho' _].
  destruct (writer_of_names _ _ Hw) as [En1 En2].
  split_and!; [by eapply schedule_spent_trans| |congruence|].
  - right. exists payload, rest. rewrite arrivals_app, app_assoc, <- Hq. by rewrite En2 in Hq'.
  - exists c'. unfold own_run in *. by rewrite En1, En2 in Hr.
Qed.

(** Where a failed recovery stands: before its commit, or after it. *)
Record recovery_failed (s : sys) (transaction : BroadcasterRecoveryTransaction)
    (ops : list ConcurrentOp) (entries : list BroadcasterRedisStreamEntry)
    (published : list BroadcasterPayload) (es : list BroadcasterRedisStreamEntry) (s' : sys) :
    Prop := {
  rf_spent : schedule_spent s ops s';
  rf_log : sys_log s' = sys_log s ++ entries ++ es;
  rf_kept : kept_from s ops published s';
  rf_commit : published = [] ∧ es = [] ∨
    ∃ fragments times c',
      prepare_recovery_fragments (tx_replacement_json transaction) = Ok fragments ∧
      recovery_entries times config (ps_stream_id (sys_inner s)) (ps_next_message_seq (sys_inner s))
        (ps_next_state_version (sys_inner s) + 1) transaction fragments = Ok entries ∧
      own_run s {| c_seq := ps_next_message_seq (sys_inner s) + N.of_nat (length entries);
                   c_committed := ps_next_state_version (sys_inner s) + 1;
                   c_next := ps_next_state_version (sys_inner s) + 1 |}%N published es c';
  rf_open : open_recovery_id (sys_gate s') = open_recovery_id (sys_gate s) ∨
    is_ok (replay_boundary_of config (sys_inner s')) = false;
}.

Lemma fed_failed s transaction ops entries s' :
  gate_fed s ops s' → sys_log s' = sys_log s ++ entries →
  recovery_failed s transaction ops entries [] [] s'.
Proof.
  intros Hg Hl. split; [apply Hg|by rewrite app_nil_r|by apply kept_fed|by left|left; apply Hg].
Qed.

Lemma publication_failed s transaction fragments ops s' :
  drainable s → prepare_recovery_fragments (tx_replacement_json transaction) = Ok fragments →
  publication (allocated s) transaction fragments (ps_next_state_version (sys_inner s) + 1) ops s' None →
  ∃ ops entries published es, recovery_failed s transaction ops entries published es s'.
Proof.
  intros Hd Hf Hpub. destruct (allocated_inner s) as [Ei El]. pose proof (allocated_fed s Hd) as Hga.
  inversion Hpub as [Hg Hl|times entries sent rest He Hsplit Hl Hg
    |times entries ops1 ops2 s1 sent payload rest es He Hops Hg Hw Hl Hc Hst
    |times entries ops1 ops2 s1 es boundary pub' He Hops Hg Hw Hl Hc Hdr Hb Hp];
    subst; try rewrite El in *; try rewrite Ei in He.
  - eexists _, [], [], []. apply fed_failed; [by eapply gate_fed_trans|]. by rewrite app_nil_r.
  - eexists _, sent, [], []. apply fed_failed; [by eapply gate_fed_trans|done].
  - destruct (committed_start s _ s1 ops1 entries eq_refl Hd Hg Hw Hc) as (Hg1 & Hw1 & Hc1).
    destruct (stopped_start s _ s1 ops2 _ _ _ _ s' Hg1 Hw1 Hst) as (Hs & Hk & Ho & c' & Hr).
    eexists _, entries, sent, es. split; [exact Hs| |exact Hk| |by left].
    + by rewrite (sp_log _ _ _ _ _ _ _ Hst), Hl, app_assoc.
    + right. exists fragments, times, c'. by rewrite Hc1 in Hr.
  - destruct (committed_start s _ s1 ops1 entries eq_refl Hd Hg Hw Hc) as (Hg1 & Hw1 & Hc1).
    destruct (drained_start s _ s1 ops2 es s' Hg1 Hw1 Hdr) as (Hs & Hr & Hq & Ho).
    eexists _, entries, _, es. split; [exact Hs| | | |right].
    + by rewrite (dr_log _ _ _ _ Hdr), Hl, app_assoc.
    + left. by rewrite Hq, app_nil_r.
    + right. exists fragments, times, (cursor_of (sys_inner s')). by rewrite Hc1 in Hr.
    + destruct (replay_boundary_of _ _); [|done]. by destruct Hp as (? & [=] & _).
Qed.
End drain.

(** ** Claims *)

(** Draining the gate ends: every turn takes a payload off the queue, and what other
    tasks can still bring is bounded, whether they are accepted, refused, or reset the
    gate. *)
Theorem drain_loop_terminates `{SerdeJson} `{Keccak} `{PublisherEnv} config writer_token s :
  drain_fuel s = S (pressure s) ∧ (drain_loop config writer_token (drain_fuel s) s).1 ≠ Ok None.
Proof.
  assert (drain_fuel s = S (pressure s)) as Heq by (unfold pressure, drain_fuel, accepts; lia).
  split; [done|]. apply drain_loop_ends. lia.
Qed.

(** The payloads held back by a recovery are published first in, first out, together
    with the ones accepted while draining, at consecutive sequence numbers and with their
    state versions; then the gate is closed on an empty queue.  When an append fails, the
    payload it was for is put back in front of the rest, and the gate stays open. *)
Theorem drain_is_fifo `{SerdeJson} `{Keccak} `{PublisherEnv} config writer_token s r s' :
  drainable s → drain_pending_payloads_locked config writer_token s = (r, s') →
  match r with
  | Ok _ => ∃ ops es, drained config s ops es s'
  | Err _ => ∃ ops sent payload rest es, stopped config s ops sent payload rest es s'
  end.
Proof. apply drain_pending_outcome. Qed.

(** C5: a recovery that succeeds appends its transaction in one piece, at the next state
    version, and right after its commit exactly the payloads held back since, in the
    order they were accepted; the gate is closed and the boundary returned is the tail. *)
Theorem publish_recovery_succeeds `{SerdeJson} `{Keccak} `{PublisherEnv} config writer_token
    transaction cancelled s pub s' :
  drainable s → publish_recovery config writer_token transaction cancelled s = (Ok pub, s') →
  let target := (ps_next_state_version (sys_inner s) + 1)%N in
  ∃ fragments times entries ops es,
    prepare_recovery_fragments (tx_replacement_json transaction) = Ok fragments ∧
    recovery_entries times config (ps_stream_id (sys_inner s)) (ps_next_message_seq (sys_inner s))
      target transaction fragments = Ok entries ∧
    sys_log s' = sys_log s ++ entries ++ es ∧
    live_run config (ps_stream_id (sys_inner s)) (ps_snapshot_id (sys_inner s))
      {| c_seq := ps_next_message_seq (sys_inner s) + N.of_nat (length entries);
         c_committed := target; c_next := target |}%N
      (queued s ++ arrivals ops) es (cursor_of (sys_inner s')) ∧
    schedule_spent s ops s' ∧ queued s' = [] ∧ open_recovery_id (sys_gate s') = None ∧
    pub_target_state_version pub = target ∧
    replay_boundary_of config (sys_inner s') = Ok (pub_replay_boundary pub).
Proof.
  cbv zeta. intros Hd [[_ [=]]|(fragments & Hf & _ & Hr)]%publish_recovery_steps.
  pose proof (gate_fed_drainable _ _ _ (allocated_fed config s Hd)) as Hda.
  apply publish_entries_outcome in Hr as (ops & Hpub); [|done]. cbn [result_ok] in Hpub.
  inversion Hpub as [| | |times entries ops1 ops2 s1 es boundary pub' He Hops Hg Hw Hl Hc Hdr Hb Hp].
  subst. destruct (allocated_inner config s) as [Ei El]. rewrite Ei in He.
  destruct (committed_start config s _ s1 ops1 entries eq_refl Hd Hg Hw Hc) as (Hg1 & Hw1 & Hc1).
  destruct (drained_start config s _ s1 ops2 es s' Hg1 Hw1 Hdr) as (Hs & Hrun & Hq & Ho).
  destruct (replay_boundary_of config (sys_inner s')) as [boundary|] eqn:Eb; [|done].
  destruct Hp as (p & [= <-] & <- & Ht).
  exists fragments, times, entries, ((batch_of s ++ ops1) ++ ops2), es.
  rewrite Hc1 in Hrun. split_and!; try done. by rewrite (dr_log _ _ _ _ _ Hdr), Hl, El, app_assoc.
Qed.

(** A recovery that fails loses nothing that was waiting for it: the reservation stays
    open and the payloads held back stay queued in order, except the first ones if the
    transaction was committed in full and they were published right after it. *)
Theorem publish_recovery_failure_keeps_queue `{SerdeJson} `{Keccak} `{PublisherEnv} config
    writer_token transaction cancelled s e s' :
  drainable s → publish_recovery config writer_token transaction cancelled s = (Err e, s') →
  ∃ ops entries published es, recovery_failed config s transaction ops entries published es s'.
Proof.
  intros Hd [[Hs _]|(fragments & Hf & _ & Hr)]%publish_recovery_steps.
  - destruct (refused_fed config s s' Hd Hs) as (ops & Hg & Hl). exists ops, [], [], []. apply fed_failed; [done|]. by rewrite app_nil_r.
  - pose proof (gate_fed_drainable _ _ _ (allocated_fed config s Hd)) as Hda.
    apply publish_entries_outcome in Hr as (ops & Hpub); [|done].
    by eapply publication_failed.
Qed.

(** ** Witnesses *)

#[local] Existing Instances demo_tycho demo_serde demo_keccak demo_writer demo_env.

(** A recovery is reserved, a payload waits for it, and [schedule] is to come. *)
Definition demo_recovering schedule : @sys demo_tycho demo_writer :=
  demo_perform (DoPublish (Update demo_update))
    (demo_perform (DoBeginRecovery [Native; Rfq] 0) (demo_active schedule)).

Definition demo_arrival : list (list (@ConcurrentOp demo_tycho)) :=
  [[]; []; [CAccept (Update demo_update) 5]; [CCancel 1]].

Lemma drainable_intro `{PublisherEnv} `{TychoTypes} (s : sys) :
  bool_decide (is_Some (open_recovery_id (sys_gate s))) &&
  forallb gate_kept (concat (sys_schedule s)) &&
  (len (queued s) + len (arrivals (concat (sys_schedule s))) <=? MAX_PENDING_RECOVERY_PAYLOADS)%N = true →
  drainable s.
Proof.
  intros [[Ho%bool_decide_eq_true Hk]%andb_true_iff Hl%N.leb_le]%andb_true_iff.
  split_and!; [done| |done]. apply List.Forall_forall. by apply List.forallb_forall.
Qed.

Definition demo_drain :=
  drain_pending_payloads_locked demo_publisher_config "writer-a" (demo_recovering demo_arrival).

Lemma drain_is_fifo_witness :
  ∃ ops es, drained demo_publisher_config
    (demo_recovering demo_arrival) ops es demo_drain.2.
Proof.
  assert (is_ok demo_drain.1 = true) as Hok by (vm_compute; reflexivity).
  pose proof (drain_is_fifo demo_publisher_config "writer-a" (demo_recovering demo_arrival) demo_drain.1 demo_drain.2
    ltac:(apply drainable_intro; vm_compute; reflexivity) (surjective_pairing _)) as Hd.
  destruct demo_drain.1; [exact Hd|discriminate Hok].
Defined.

Definition demo_publish schedule :=
  publish_recovery demo_publisher_config "writer-a" demo_transaction 0 (demo_recovering schedule).

Lemma publish_recovery_succeeds_witness :
  queued (demo_publish demo_arrival).2 = [] ∧
  open_recovery_id (sys_gate (demo_publish demo_arrival).2) = None.
Proof.
  destruct (demo_publish demo_arrival).1 as [pub|e] eqn:Er.
  2: { apply (f_equal is_ok) in Er. vm_compute in Er. discriminate Er. }
  destruct (publish_recovery_succeeds demo_publisher_config "writer-a" demo_transaction 0 (demo_recovering demo_arrival) pub
    (demo_publish demo_arrival).2 ltac:(apply drainable_intro; vm_compute; reflexivity)
    ltac:(rewrite <- Er; apply surjective_pairing)) as (? & ? & ? & ? & ? & _ & _ & _ & _ & _ & Hq & Ho & _).
  by split.
Defined.

(** The recovery worker gives up after the first entry is sent. *)
Definition demo_cancelled : list (list (@ConcurrentOp demo_tycho)) := [[]; []; [CCancel 0]].

Lemma publish_recovery_failure_keeps_queue_witness :
  ∃ ops entries published es,
    recovery_failed demo_publisher_config
      (demo_recovering demo_cancelled) demo_transaction ops entries published es
      (demo_publish demo_cancelled).2.
Proof.
  destruct (demo_publish demo_cancelled).1 as [pub|e] eqn:Er.
  { apply (f_equal is_ok) in Er. vm_compute in Er. discriminate Er. }
  apply (publish_recovery_failure_keeps_queue demo_publisher_config "writer-a" demo_transaction 0 (demo_recovering demo_cancelled) e
    (demo_publish demo_cancelled).2).
  - apply drainable_intro. vm_compute. reflexivity.
  - rewrite <- Er. apply surjective_pairing.
Defined.
