(* ===== verification/PublisherOrder.v ===== *)
(** * What a publisher does over its life

    Live payloads and the startup handoff, the order of the log under every operation, and
    the bound on what waits behind a recovery. *)

From S2P Require Import Prelude Ordered Text Protocol Wire Validate TychoFeed Codec RedisEntry.
From S2P Require Import Replay RedisStore Recovery Writer Publisher PublisherModes PublisherLog.

(** ** Facts: live payloads and the handoff *)

Section live.
Context `{SerdeJson} `{Keccak} `{PublisherEnv}.
Context (config : BroadcasterRedisPublisherConfig) (writer_token : string).

Abbreviation M := (stateR sys AnyhowError).

(** Not an active publisher any more, and why. *)
Definition halted (s' : sys) : Prop :=
  (ps_mode (sys_inner s') = Retired ∨ ps_mode (sys_inner s') = Unhealthy) ∧
  is_Some (ps_last_error (sys_inner s')).

Definition oversized (error : AnyhowError) : bool :=
  match error_root error with OversizedRedisEntry _ _ _ => true | _ => false end.

(** The outcome of a payload for the stream: in the log at the cursor; refused before it
    is sent; or the publisher has halted, the cursor where it was. *)
Definition publish_outcome (payload : BroadcasterPayload) (s : sys) (r : anyhow unit) (s' : sys) :
    Prop :=
  match normalize_live_payload payload (ps_snapshot_id (sys_inner s)), r with
  | Ok normal, Ok _ => ∃ e, live_appended config normal e s s'
  | Ok normal, Err error =>
      if oversized error then live_failed normal s s'
      else sys_log s' = sys_log s ∧ halted s' ∧
           ps_next_message_seq (sys_inner s') = ps_next_message_seq (sys_inner s) ∧
           ps_committed_state_version (sys_inner s') = ps_committed_state_version (sys_inner s)
  | Err _, Ok _ => False
  | Err error, Err error' => error' = error ∧ s' = s
  end.

Lemma publish_active_outcome payload s r s' :
  publish_active_payload config writer_token payload s = (r, s') → publish_outcome payload s r s'.
Proof.
  unfold publish_active_payload, publish_outcome. rewrite inner_bind, lift_bind.
  change (id (sys_inner s)) with (sys_inner s).
  destruct (normalize_live_payload _ _) as [normal|error]; [|by intros [= <- <-]].
  rewrite attempt_bind.
  destruct (append_live_payload_locked _ _ _ s) as [[[e id]|error] s1] eqn:Ea; cbn [fst snd];
    apply append_live_inv in Ea.
  { intros [= <- <-]. by exists e. }
  destruct Ea as [Hl Hs Hc Hv Hw He Hf].
  destruct (error_root error) eqn:Eroot.
  all: try (intros [= <- <-]; unfold oversized; rewrite Eroot; by split).
  all: destruct (is_stale_writer_error error); unfold halted; intros [= <- <-]; unfold oversized;
    rewrite Eroot; cbn; try (destruct (_ <? _)%N; cbn); by eauto 6.
Qed.

(** ** The startup handoff *)

Definition handoff_stopped (payload : BroadcasterPayload) (s s' : sys) : Prop :=
  (ps_mode (sys_inner s') = ps_mode (sys_inner s) ∧
   is_ok (normalize_live_payload payload (ps_snapshot_id (sys_inner s))) = false) ∨
  (ps_mode (sys_inner s') = Retired ∧ is_terminal (adm_phase (sys_admission s')) = true).

Lemma terminal_phase phase error s :
  is_terminal phase = true →
  is_terminal (adm_phase (sys_admission (with_admission (next_admission phase error) s))) = true.
Proof.
  intros Ht. cbn [with_admission sys_admission]. unfold next_admission.
  destruct (is_terminal (adm_phase (sys_admission s))) eqn:E; [done|]. rewrite Ht. cbn [negb orb].
  by rewrite andb_false_r.
Qed.

Lemma drain_handoff_outcome before payloads s r s' :
  drain_handoff_payloads config writer_token before payloads s = (r, s') →
  ∃ sent es c',
    own_run config s (cursor_of (sys_inner s)) sent es c' ∧ sys_log s' = sys_log s ++ es ∧
    match r with
    | Ok _ => sent = payloads ∧ c' = cursor_of (sys_inner s') ∧
              writer_of (sys_inner s') = writer_of (sys_inner s)
    | Err _ => ∃ payload rest, payloads = sent ++ payload :: rest ∧ handoff_stopped payload s s'
    end.
Proof.
  revert s. induction payloads as [|payload payloads IH]; intros s; cbn [drain_handoff_payloads].
  { intros [= <- <-]. exists [], [], (cursor_of (sys_inner s)).
    split_and!; [apply run_nil|by rewrite app_nil_r|done..]. }
  rewrite inner_bind, lift_bind.
  destruct (normalize_live_payload _ _) as [normal|error] eqn:En.
  2: { intros [= <- <-]. exists [], [], (cursor_of (sys_inner s)).
       split_and!; [apply run_nil|by rewrite app_nil_r|]. exists payload, payloads.
       split; [done|]. left. by rewrite En. }
  rewrite attempt_bind.
  destruct (append_live_payload_locked _ _ _ s) as [[[e id]|error] s1] eqn:Ea; cbn [fst snd];
    apply append_live_inv in Ea.
  - pose proof (live_appended_advance _ _ _ _ _ Ea) as Hc.
    pose proof (la_writer _ _ _ _ _ Ea) as Hw. destruct (writer_of_names _ _ Hw) as [En1 En2].
    intros (sent & es & c' & Hrun & Hl & Hr)%IH. exists (payload :: sent), (e :: es), c'.
    unfold own_run in *. rewrite Hc, En1, En2 in Hrun.
    split_and!; [by eapply run_cons; [|exact (la_built _ _ _ _ _ Ea)|]| |].
    + by rewrite Hl, (la_log _ _ _ _ _ Ea), <- app_assoc.
    + destruct r as [?|?].
      * destruct Hr as (-> & -> & Hw'). split_and!; [done..|congruence].
      * destruct Hr as (p & rest & -> & Hst). exists p, rest. split; [done|].
        unfold handoff_stopped in *. injection Hw as Hm _ _ _ _. by rewrite Hm, En2 in Hst.
  - cbv zeta. intros Hr. exists [], [], (cursor_of (sys_inner s)).
    split; [apply run_nil|]. rewrite app_nil_r.
    assert (sys_log s' = sys_log s ∧ ps_mode (sys_inner s') = Retired ∧
            is_terminal (adm_phase (sys_admission s')) = true ∧ ∃ e, r = Err e)
      as (-> & Hm & Ht & e & ->).
    { rewrite <- (lf_log _ _ _ Ea). revert Hr. destruct (is_stale_writer_error error).
      all: intros [= <- <-]; split_and!; [done|done|by apply terminal_phase|by eexists]. }
    split; [done|]. exists payload, payloads. split; [done|]. by right.
Qed.
End live.

(** ** Facts: the order of the log *)

Section order.
Context `{SerdeJson} `{Keccak} `{PublisherEnv}.
Context (config : BroadcasterRedisPublisherConfig) (writer_token : string).

Abbreviation M := (stateR sys AnyhowError).

(** Within a stream sequence numbers grow, and an update has a state version no entry
    before it has. *)
Definition before (a b : BroadcasterRedisStreamEntry) : Prop :=
  stream_id a = stream_id b →
  (message_seq a < message_seq b)%N ∧ (kind b = KUpdate → (state_version a < state_version b)%N).

Definition below (st : BroadcasterRedisPublisherState) (e : BroadcasterRedisStreamEntry) : Prop :=
  stream_id e = ps_stream_id st →
  (message_seq e < ps_next_message_seq st)%N ∧ (state_version e ≤ ps_next_state_version st)%N.

Definition known (st : BroadcasterRedisPublisherState) (e : BroadcasterRedisStreamEntry) : Prop :=
  ∃ g, (g ≤ ps_generation st)%N ∧ stream_id e = format_redis_stream_id (config_chain_id config) g.

Record log_inv (s : sys) : Prop := {
  li_passive : ps_mode (sys_inner s) = Passive → sys_log s = [];
  li_committed : (ps_committed_state_version (sys_inner s) ≤ ps_next_state_version (sys_inner s))%N;
  li_stream : ps_stream_id (sys_inner s) =
    format_redis_stream_id (config_chain_id config) (ps_generation (sys_inner s));
  li_generation : (ps_generation (sys_inner s) ≤ u64_max)%N;
  li_known : Forall (known (sys_inner s)) (sys_log s);
  li_below : Forall (below (sys_inner s)) (sys_log s);
  li_ordered : StronglySorted before (sys_log s);
}.

Definition log_keeps (s s' : sys) : Prop := log_inv s → log_inv s'.
Definition active_keeps (s s' : sys) : Prop :=
  ps_mode (sys_inner s) ≠ Passive → log_inv s → ps_mode (sys_inner s') ≠ Passive ∧ log_inv s'.

#[local] Instance log_keeps_preorder : PreOrder log_keeps.
Proof. split; unfold log_keeps; red; auto. Qed.
#[local] Instance active_keeps_preorder : PreOrder active_keeps.
Proof.
  split; unfold active_keeps; [by intros s|]. intros a b c Hab Hbc Hm Hi.
  destruct (Hab Hm Hi) as [Hm' Hi']. auto.
Qed.

(** Nothing is appended, and the cursor only moves on. *)
Record quiet (s s' : sys) : Prop := {
  qt_log : sys_log s' = sys_log s;
  qt_stream : ps_stream_id (sys_inner s') = ps_stream_id (sys_inner s);
  qt_generation : ps_generation (sys_inner s') = ps_generation (sys_inner s);
  qt_seq : (ps_next_message_seq (sys_inner s) ≤ ps_next_message_seq (sys_inner s'))%N;
  qt_version : (ps_next_state_version (sys_inner s) ≤ ps_next_state_version (sys_inner s'))%N;
  qt_committed :
    (ps_committed_state_version (sys_inner s) ≤ ps_next_state_version (sys_inner s))%N →
    (ps_committed_state_version (sys_inner s') ≤ ps_next_state_version (sys_inner s'))%N;
  qt_mode : ps_mode (sys_inner s') = Passive → ps_mode (sys_inner s) = Passive;
}.

#[local] Instance quiet_preorder : PreOrder quiet.
Proof.
  split; [by intros s; split|]. intros a b c [] []. split; try congruence; try lia; auto.
Qed.

Lemma quiet_log_keeps s s' : quiet s s' → log_keeps s s'.
Proof.
  intros [El Est Eg Hseq Hver Hcom Hmode] [Hp Hc Hst Hg Hk Hb Ho]. split; rewrite ?El, ?Est, ?Eg; auto.
  - eapply Forall_impl; [exact Hk|]. intros e (g & Hle & He). exists g. by rewrite Eg.
  - eapply Forall_impl; [exact Hb|]. intros e He Hs. rewrite Est in Hs.
    destruct (He Hs) as [??]. split; lia.
Qed.

Lemma quiet_active_keeps s s' : quiet s s' → active_keeps s s'.
Proof. intros Hq Hm Hi. split; [by intros Hp%(qt_mode _ _ Hq)|by apply quiet_log_keeps in Hq; auto]. Qed.

Lemma quiet_same s s' : sys_inner s' = sys_inner s → sys_log s' = sys_log s → quiet s s'.
Proof. intros Ei El. split; rewrite ?Ei; done || lia. Qed.

(** New entries of the publisher's own stream. *)
Lemma log_inv_extend s s' es :
  log_inv s → ps_mode (sys_inner s') ≠ Passive →
  sys_log s' = sys_log s ++ es → ps_stream_id (sys_inner s') = ps_stream_id (sys_inner s) →
  ps_generation (sys_inner s') = ps_generation (sys_inner s) →
  (ps_next_message_seq (sys_inner s) ≤ ps_next_message_seq (sys_inner s'))%N →
  (ps_next_state_version (sys_inner s) ≤ ps_next_state_version (sys_inner s'))%N →
  (ps_committed_state_version (sys_inner s') ≤ ps_next_state_version (sys_inner s'))%N →
  Forall (λ e, stream_id e = ps_stream_id (sys_inner s)) es → Forall (below (sys_inner s')) es →
  Forall (λ e, (ps_next_message_seq (sys_inner s) ≤ message_seq e)%N ∧
               (kind e = KUpdate → (ps_next_state_version (sys_inner s) < state_version e)%N)) es →
  StronglySorted before es → log_inv s'.
Proof.
  intros [Hp Hc Hst Hg Hk Hb Ho] Hm El Est Eg Hseq Hver Hcom Hes Hbes Hfresh Hsorted.
  split; rewrite ?Est, ?Eg; [done|done|done|done|..].
  - rewrite El. apply Forall_app. split.
    + eapply Forall_impl; [exact Hk|]. intros e (g & Hle & He). exists g. by rewrite Eg.
    + eapply Forall_impl; [exact Hes|]. intros e He. exists (ps_generation (sys_inner s)).
      rewrite Eg. split; [lia|by rewrite He, Hst].
  - rewrite El. apply Forall_app. split; [|done].
    eapply Forall_impl; [exact Hb|]. intros e He Hs. rewrite Est in Hs.
    destruct (He Hs) as [??]. split; lia.
  - rewrite El. apply StronglySorted_app. split_and!; [|done|done].
    intros a b Ha Hb' Hab. rewrite Forall_forall in Hb, Hes, Hfresh.
    destruct (Hb a Ha) as [H1a H2a]; [by rewrite Hab, Hes|].
    destruct (Hfresh b Hb') as [H1b H2b]. split; [lia|]. intros Hu%H2b. lia.
Qed.

Lemma live_kept payload e s s' : live_appended config payload e s s' → active_keeps s s'.
Proof.
  intros [Hbuilt El Hs Hc Hn Hw _ _] Hm Hi. injection Hw as Em Eg Est _ _.
  assert (ps_mode (sys_inner s') ≠ Passive) as Hm' by congruence. split; [done|].
  apply built_fields in Hbuilt as (E1 & E2 & E3 & E4). pose proof (li_committed _ Hi) as Hcom.
  unfold live_version in *. destruct (is_update payload) eqn:Eu.
  all: eapply log_inv_extend with (es := [e]); try done; try lia.
  all: rewrite ?Forall_singleton; try (by rewrite E2).
  - intros _. lia.
  - split; [lia|]. intros _. lia.
  - by repeat constructor.
  - intros _. lia.
  - split; [lia|]. intros Hk. rewrite E4 in Hk. by destruct payload.
  - by repeat constructor.
Qed.

Lemma failed_kept payload s s' : live_failed payload s s' → active_keeps s s'.
Proof.
  intros [El Hs Hc Hn Hw _ _]. injection Hw as Em Eg Est _ _. apply quiet_active_keeps.
  split; [done|done|done|lia|destruct Hn as [|[]]; lia|destruct Hn as [|[]]; lia|congruence].
Qed.

Lemma append_live_kept payload :
  moves active_keeps (append_live_payload_locked config writer_token payload).
Proof.
  intros s r s' Hr%append_live_inv. destruct r as [[e id]|error];
    [by eapply live_kept|by eapply failed_kept].
Qed.

(** ** Facts: operations that append nothing *)

Definition quiet_inner (f : BroadcasterRedisPublisherState → BroadcasterRedisPublisherState) : Prop :=
  ∀ st, ps_stream_id (f st) = ps_stream_id st ∧ ps_generation (f st) = ps_generation st ∧
    ps_next_message_seq (f st) = ps_next_message_seq st ∧
    ps_next_state_version (f st) = ps_next_state_version st ∧
    ps_committed_state_version (f st) = ps_committed_state_version st ∧
    (ps_mode (f st) = Passive → ps_mode st = Passive).

Lemma quiet_modify_inner f : quiet_inner f → moves quiet (modify_inner f).
Proof.
  intros Hf. apply moves_modify. intros s.
  destruct (Hf (sys_inner s)) as (E1 & E2 & E3 & E4 & E5 & E6).
  split; cbn; rewrite ?E1, ?E2, ?E3, ?E4, ?E5; done || lia.
Qed.
Lemma quiet_call {A} (f : world → A * world) : moves quiet (call f).
Proof. apply moves_call. intros w s. by apply quiet_same. Qed.
Lemma quiet_read {A} (f : BroadcasterRedisPublisherState → A) : moves quiet (inner f).
Proof. apply (moves_gets quiet). Qed.
Lemma quiet_other (f : sys → sys) :
  (∀ s, sys_inner (f s) = sys_inner s ∧ sys_log (f s) = sys_log s) → moves quiet (modify f : M unit).
Proof. intros Hf. apply moves_modify. intros s. destruct (Hf s). by apply quiet_same. Qed.
Lemma quiet_phase phase error : moves quiet (set_deployment_phase phase error).
Proof. by apply quiet_other. Qed.
Hint Resolve quiet_call quiet_read quiet_phase : moves.
Hint Extern 2 (moves quiet (modify_inner _)) =>
  (apply quiet_modify_inner; intros st; cbn; repeat case_match; done) : moves.
Hint Extern 2 (moves quiet (modify _)) =>
  (apply quiet_other; intros st; cbn; repeat case_match; done) : moves.

Ltac solve_quiet :=
  repeat first [ solve [eauto 3 with moves typeclass_instances]
               | apply moves_attempt
               | apply moves_bind; [apply _| |intros ?]
               | case_match ].

Lemma after_batch_quiet s : quiet s (after_batch config s).
Proof. pose proof (after_batch_outside config s) as [[= Ei _ El _ _ _ _] _]. by apply quiet_same. Qed.

Lemma quiet_interleave : moves quiet (interleave config).
Proof.
  intros s r s' Hr. pose proof (interleave_bind config (λ _, mret tt : M unit) s) as Hb.
  unfold mbind, stateR_bind in Hb. rewrite Hr in Hb.
  assert (s' = after_batch config s) as ->.
  { destruct r as [[]|]; by injection Hb. }
  apply after_batch_quiet.
Qed.

Lemma quiet_accept payload now : moves quiet (accept_into_gate config payload now).
Proof.
  intros s r s' Hr. unfold accept_into_gate in Hr. destruct (gate_accept _ _ _ _ _) as [[??]?].
  injection Hr as _ <-. by apply quiet_same.
Qed.
Hint Resolve quiet_interleave quiet_accept : moves.

Lemma quiet_verify context renew :
  moves quiet (verify_writer_fence_locked config writer_token context renew).
Proof. unfold verify_writer_fence_locked, finish_verification. cbv zeta. solve_quiet. Qed.

(** The tail found in Redis is never behind the cursor it replaces. *)
Lemma quiet_resync : moves quiet (resync_stream_tail_locked config writer_token).
Proof.
  intros s r s'. unfold resync_stream_tail_locked. rewrite inner_bind, call_bind, lift_bind.
  set (s1 := with_world _ s). assert (quiet s s1) as Hs1 by by apply quiet_same.
  change (id (sys_inner s)) with (sys_inner s1).
  destruct (with_context _ _) as [inspection|error]; [|by intros [= _ <-]].
  destruct (negb _); [by intros [= _ <-]|]. destruct (insp_last_entry_id inspection);
    [|by intros [= _ <-]].
  rewrite lift_bind. destruct (publisher_parse_redis_entry_id _) as [[generation sequence]|];
    [|by intros [= _ <-]].
  destruct (_ || _) eqn:Eb; [by intros [= _ <-]|]. rewrite lift_bind. unfold checked_add.
  destruct (_ <=? _)%N; cbn [ok_or]; [|by intros [= _ <-]].
  apply orb_false_iff in Eb as [_ Hge%N.ltb_ge].
  unfold modify_inner, modify. intros [= _ <-].
  etransitivity; [exact Hs1|]. split; try done; cbn in *; lia.
Qed.
Hint Resolve quiet_verify quiet_resync : moves.

Lemma quiet_renew : moves quiet (renew_lease config writer_token).
Proof. unfold renew_lease, bail. solve_quiet. Qed.
Hint Resolve quiet_renew : moves.

Lemma quiet_verified_loop fuel : moves quiet (verified_loop config writer_token fuel).
Proof. induction fuel as [|fuel IH]; cbn [verified_loop]; unfold bail; solve_quiet. Qed.
Hint Resolve quiet_verified_loop : moves.

(** ** Facts: operations that append *)

Lemma moves_weaken {A} (R R' : sys → sys → Prop) (m : M A) :
  (∀ s s', R s s' → R' s s') → moves R m → moves R' m.
Proof. intros HR Hm s r s' Hr. by eapply HR, Hm. Qed.

Lemma quiet_active {A} (m : M A) : moves quiet m → moves active_keeps m.
Proof. apply moves_weaken, quiet_active_keeps. Qed.

Lemma drain_loop_kept fuel : moves active_keeps (drain_loop config writer_token fuel).
Proof.
  induction fuel as [|fuel IH]; cbn [drain_loop]; [by apply (moves_ret active_keeps)|].
  repeat first
    [ exact IH | apply append_live_kept | apply moves_attempt
    | solve [apply quiet_active; solve_quiet]
    | apply moves_bind; [apply _| |intros ?]
    | case_match ].
Qed.

Lemma drain_handoff_kept before payloads :
  moves active_keeps (drain_handoff_payloads config writer_token before payloads).
Proof.
  induction payloads as [|payload payloads IH]; cbn [drain_handoff_payloads];
    [by apply (moves_ret active_keeps)|]. cbv zeta.
  repeat first
    [ exact IH | apply append_live_kept | apply moves_attempt
    | solve [apply quiet_active; solve_quiet]
    | apply moves_bind; [apply _| |intros ?]
    | case_match ].
Qed.

Lemma publish_active_kept payload :
  moves active_keeps (publish_active_payload config writer_token payload).
Proof.
  unfold publish_active_payload. cbv zeta.
  repeat first
    [ apply append_live_kept | apply moves_attempt
    | solve [apply quiet_active; solve_quiet]
    | apply moves_bind; [apply _| |intros ?]
    | case_match ].
Qed.

(** ** Facts: recoveries and promotions *)

Lemma layout_not_update stream next version transaction fragments entries manifest commit i e :
  recovery_layout config stream next version transaction fragments entries manifest commit →
  entries !! i = Some e → kind e ≠ KUpdate.
Proof.
  intros Hl Hi. pose proof (layout_length _ _ _ _ _ _ _ _ _ Hl) as Hlen.
  pose proof (lookup_lt_Some _ _ _ Hi) as Hlt.
  destruct i as [|i].
  { destruct (layout_start _ _ _ _ _ _ _ _ _ Hl) as (e' & He & (_ & _ & _ & Hk)%built_fields).
    rewrite Hi in He. injection He as <-. by rewrite Hk. }
  destruct (decide (i < length fragments)%nat) as [Hf|Hf].
  { apply lookup_lt_is_Some in Hf as [f Hf].
    destruct (layout_chunk _ _ _ _ _ _ _ _ _ Hl i f Hf) as (e' & n & chunk & He & _ & Hc).
    rewrite Hi in He. injection He as <-.
    apply chunk_built, built_fields in Hc as (_ & _ & _ & Hk). by rewrite Hk. }
  destruct (decide (i - length fragments < length (tx_buffer_a transaction))%nat) as [Hb|Hb].
  { apply lookup_lt_is_Some in Hb as [u Hb].
    destruct (layout_catch_up _ _ _ _ _ _ _ _ _ Hl _ u Hb) as (e' & He & (_ & _ & _ & Hk)%built_fields).
    replace (1 + length fragments + (i - length fragments))%nat with (S i) in He by lia.
    rewrite Hi in He. injection He as <-. by rewrite Hk. }
  destruct (layout_commit _ _ _ _ _ _ _ _ _ Hl) as (e' & He & (_ & _ & _ & Hk)%built_fields).
  rewrite last_lookup in He. replace (pred (length entries)) with (S i) in He by lia.
  rewrite Hi in He. injection He as <-. by rewrite Hk.
Qed.

(** What a run of recovery entries does to the log. *)
Lemma entries_sent_kept s ops sent s' entries rest times transaction fragments target :
  entries_sent s ops sent s' → entries = sent ++ rest →
  recovery_entries times config (ps_stream_id (sys_inner s)) (ps_next_message_seq (sys_inner s))
    target transaction fragments = Ok entries →
  (target ≤ ps_next_state_version (sys_inner s))%N → active_keeps s s'.
Proof.
  intros [El Hseq Hnum Hv Hmode _] -> He Htarget Hm Hi.
  apply recovery_entries_layout in He as (manifest & commit & Hl).
  injection Hv as Eg Est _ _ Ec En.
  assert (ps_mode (sys_inner s') ≠ Passive) as Hm' by auto. split; [done|].
  assert (∀ i e, sent !! i = Some e →
    message_seq e = (ps_next_message_seq (sys_inner s) + N.of_nat i)%N ∧
    stream_id e = ps_stream_id (sys_inner s) ∧ state_version e = target ∧ kind e ≠ KUpdate) as Hall.
  { intros i e Hsent. pose proof (lookup_app_l_Some _ rest _ _ Hsent) as Happ.
    destruct (layout_entry _ _ _ _ _ _ _ _ _ Hl i e Happ) as (? & ? & ? & _).
    split_and!; [done..|]. by eapply layout_not_update. }
  pose proof (li_committed _ Hi) as Hcom.
  eapply log_inv_extend; try done; try lia.
  - rewrite Forall_lookup. intros i e (_ & -> & _ & _)%Hall. done.
  - rewrite Forall_lookup. intros i e Hsent _. pose proof (lookup_lt_Some _ _ _ Hsent).
    apply Hall in Hsent as (-> & _ & -> & _). lia.
  - rewrite Forall_lookup. intros i e (-> & _ & _ & Hk)%Hall. split; [lia|done].
  - clear -Hall. revert Hall. generalize (ps_next_message_seq (sys_inner s)).
    induction sent as [|e sent IH]; intros next Hall; constructor.
    + apply (IH (next + 1)%N). intros i e' He'. apply (Hall (S i)) in He' as (-> & ? & ? & ?).
      split_and!; [lia|done..].
    + rewrite Forall_lookup. intros i e' He'. apply (Hall (S i)) in He' as (Hs & _ & _ & Hk).
      destruct (Hall 0%nat e eq_refl) as (Hs0 & _). split; [lia|done].
Qed.

Lemma publish_entries_kept transaction fragments target cancelled s r s' :
  publish_entries config writer_token transaction fragments target cancelled s = (r, s') →
  (target ≤ ps_next_state_version (sys_inner s))%N → active_keeps s s'.
Proof.
  unfold publish_entries. rewrite call_bind, inner_bind. cbv beta.
  set (s0 := with_world _ s). change (id (sys_inner s0)) with (sys_inner s0).
  intros Hr Htarget. assert (active_keeps s s0) as Hs0 by by apply quiet_active_keeps, quiet_same.
  etransitivity; [exact Hs0|]. change (sys_inner s) with (sys_inner s0) in Htarget.
  clear Hs0. revert Hr. generalize (entry_times (sys_world s)).1 as times. clearbody s0. clear s.
  intros times. rewrite lift_bind.
  destruct (recovery_entries _ _ _ _ _ _ _) as [entries|error] eqn:He; [|by intros [= <- <-]].
  rewrite lift_bind. destruct (recovery_encoded_bytes _ _) as [bytes|error]; [|by intros [= <- <-]].
  unfold mbind at 1, stateR_bind at 1.
  destruct (append_recovery_entries _ _ _ _ _ _ s0) as [[commit|error] s1] eqn:Ea;
    apply recovery_sent in Ea as (ops & sent & Hsent & Hres).
  2: { intros [= <- <-]. destruct Hres as [rest Hrest]. by eapply entries_sent_kept. }
  destruct Hres as (-> & _).
  assert (active_keeps s0 s1) as Hk1.
  { eapply entries_sent_kept; [exact Hsent|symmetry; apply app_nil_r|exact He|done]. }
  rewrite lift_bind. destruct commit as [commit|]; cbn [ok_or]; [|by intros [= <- <-]].
  rewrite modify_inner_bind. set (s2 := with_inner _ s1).
  assert (active_keeps s1 s2) as Hk2.
  { apply quiet_active_keeps. split; try done. cbn. intros _.
    pose proof (es_versions _ _ _ _ Hsent) as [= _ _ _ _ _ ->]. done. }
  intros Hr. etransitivity; [exact Hk1|]. etransitivity; [exact Hk2|].
  assert (moves active_keeps (drain_pending_payloads_locked config writer_token ;;
    replay_boundary ← replay_boundary_locked config;
    mret {| pub_recovery_id := tx_recovery_id transaction; pub_target_state_version := target;
          pub_commit_entry_id := commit; pub_replay_boundary := replay_boundary;
          pub_encoded_bytes := bytes; pub_chunk_count := len fragments;
          pub_buffer_a_count := len (tx_buffer_a transaction) |})) as Hmoves; [|by eapply Hmoves].
  unfold drain_pending_payloads_locked, replay_boundary_locked, bail.
  repeat first
    [ apply drain_loop_kept
    | solve [apply quiet_active; solve_quiet]
    | apply moves_bind; [apply _| |intros ?]
    | case_match ].
Qed.

Lemma publish_recovery_kept transaction cancelled s :
  log_keeps s (run (publish_recovery config writer_token transaction cancelled) s).
Proof.
  unfold run. destruct (publish_recovery _ _ _ _ s) as [r s'] eqn:Hr.
  apply publish_recovery_steps in Hr as [[[->| ->] _]|(fragments & _ & Ha & Hr)].
  - reflexivity.
  - apply quiet_log_keeps, after_batch_quiet.
  - intros Hi. pose proof (allocated_inner config s) as [Ei El].
    assert (ps_mode (sys_inner s) ≠ Passive) as Hm.
    { intros Hp. revert Ha. unfold ensure_active_publisher. by rewrite Hp. }
    destruct (publish_entries_kept _ _ _ _ _ _ _ Hr) as [_ Hi'].
    + rewrite Ei. cbn. lia.
    + by rewrite Ei.
    + apply (quiet_log_keeps s); [|done]. split; rewrite ?Ei, ?El; cbn; try done; lia.
    + exact Hi'.
Qed.

Lemma stream_id_inj chain g g' :
  (g ≤ u64_max)%N → (g' ≤ u64_max)%N →
  format_redis_stream_id chain g = format_redis_stream_id chain g' → g = g'.
Proof.
  intros Hg Hg' Heq. pose proof (format_redis_stream_id_split chain g) as Hs. rewrite Heq in Hs.
  rewrite format_redis_stream_id_split in Hs. injection Hs as Hs. by apply u64_to_string_inj.
Qed.

(** A generation with no entries yet. *)
Lemma activate_kept generation s s' :
  sys_log s' = sys_log s →
  sys_inner s' = activate_generation (config_chain_id config) generation (sys_inner s) →
  (generation ≤ u64_max)%N →
  ps_mode (sys_inner s) = Passive ∨ (ps_generation (sys_inner s) < generation)%N → log_keeps s s'.
Proof.
  intros El Ei Hmax Hnew [Hp Hc Hst Hg Hk Hb Ho]. split; rewrite ?El, ?Ei; cbn; try done.
  - destruct Hnew as [->%Hp|Hlt]; [done|]. eapply Forall_impl; [exact Hk|].
    intros e (g & Hle & He). exists g. split; [cbn; lia|done].
  - destruct Hnew as [->%Hp|Hlt]; [done|]. eapply Forall_impl; [exact Hk|].
    intros e (g & Hle & He) Hse. cbn in Hse. rewrite He in Hse. apply stream_id_inj in Hse; lia.
Qed.

Lemma promote_kept `{!RedisStreamWriterLaws} backends reason recovering s r s' :
  writer_token ≠ "" → (0 < lease_ttl_ms (writer_lease_ttl config))%N →
  (recovering = false → ps_mode (sys_inner s) = Passive) →
  promote_locked config writer_token backends reason recovering s = (r, s') → log_keeps s s'.
Proof.
  intros Htok Httl Hpassive. unfold promote_locked. rewrite inner_bind.
  change (id (sys_inner s)) with (sys_inner s).
  destruct (_ || _) eqn:Eguard; [by intros [= <- <-]|].
  apply orb_false_iff in Eguard as [_ Eguard].
  rewrite call_bind, lift_bind. set (s1 := with_world _ s).
  assert (quiet s s1) as Hs1 by by apply quiet_same.
  destruct (generation_marker_template_fields _ _ _ _) as [fields|error];
    [|intros [= <- <-]; by apply quiet_log_keeps].
  rewrite call_bind. set (s2 := with_world _ s1).
  assert (quiet s s2) as Hs2 by by apply quiet_same.
  destruct (w_promote _ _) as [[promotion|error] w] eqn:Ep; cbn [fst].
  - rewrite modify_inner_bind. unfold replay_boundary_locked, inner, gets, mbind, stateR_bind, lift.
    intros Hr. assert (s' = with_inner
      (activate_generation (config_chain_id config) (pr_generation promotion)) s2) as ->
      by (by injection Hr).
    intros Hi. apply (activate_kept (pr_generation promotion) s); try done.
    + by eapply promote_generation_bound.
    + destruct recovering; [right|left; by apply Hpassive].
      eapply promote_recovery_generation; [..|exact Ep]; try done. by apply li_generation.
  - cbv zeta. intros Hr. apply quiet_log_keeps.
    assert (ps_mode (sys_inner s') = Passive → ps_mode (sys_inner s) = Passive) as Hm.
    { revert Hr. destruct (is_stale_writer_error error); [by intros [= <- <-]|].
      destruct recovering; [by intros [= <- <-]|]. by intros _ _; apply Hpassive. }
    revert Hr. destruct (is_stale_writer_error error); [|destruct recovering];
      intros [= <- <-]; split; done || lia.
Qed.

Lemma active_after_check {A} (m : M A) s :
  moves active_keeps m → ps_mode (sys_inner s) = Active → log_keeps s (run m s).
Proof.
  intros Hm Ha Hi. unfold run. destruct (m s) as [r s'] eqn:E. cbn.
  destruct (Hm _ _ _ E) as [_ ?]; [by rewrite Ha|done..].
Qed.

Lemma drain_handoff_log_kept handoff s :
  log_keeps s (run (drain_startup_handoff config writer_token handoff) s).
Proof.
  unfold run, drain_startup_handoff. rewrite phase_bind, inner_bind.
  set (s1 := with_admission _ s). change (id (sys_inner s1)) with (sys_inner s).
  assert (log_keeps s s1) as Hs1 by by apply quiet_log_keeps, quiet_same.
  rewrite ensure_that_bind. case_bool_decide as Hm; [|done]. rewrite ensure_that_bind.
  destruct (match ps_startup_handoff (sys_inner s) with Some _ => _ | None => false end); [|done].
  etransitivity; [exact Hs1|]. apply (active_after_check (A := unit)); [|done].
  apply moves_bind; [apply _|apply drain_handoff_kept|]. intros _. apply quiet_active. solve_quiet.
Qed.

Lemma publish_log_kept payload s :
  log_keeps s (run (publish_accepted_payload config writer_token payload) s).
Proof.
  assert (∀ A (m : M A), moves quiet m → log_keeps s (run m s)) as Hq.
  { intros A m Hm. apply quiet_log_keeps. by apply (moves_run quiet). }
  unfold publish_accepted_payload. unfold run. rewrite gets_bind.
  destruct (open_recovery_id (sys_gate s)).
  { apply (Hq _ (if is_heartbeat payload then mret tt else _)). solve_quiet. }
  rewrite inner_bind. change (id (sys_inner s)) with (sys_inner s).
  destruct (ps_mode (sys_inner s)) eqn:Em, (ps_last_error (sys_inner s)) eqn:Ee;
    try reflexivity.
  - apply (Hq _ (accept_into_handoff config payload)).
    unfold accept_into_handoff, handoff_expired, elapsed. cbv zeta. solve_quiet.
  - apply (Hq _ (accept_into_handoff config payload)).
    unfold accept_into_handoff, handoff_expired, elapsed. cbv zeta. solve_quiet.
  - apply (active_after_check (publish_active_payload config writer_token payload));
      [apply publish_active_kept|done].
Qed.

Lemma perform_kept `{!RedisStreamWriterLaws} op s :
  writer_token ≠ "" → (0 < lease_ttl_ms (writer_lease_ttl config))%N →
  (∀ backends reason, op = DoPromote backends reason → ps_mode (sys_inner s) = Passive) →
  log_keeps s (perform config writer_token op s).
Proof.
  intros Htok Httl Hpromote.
  assert (∀ A (m : M A), moves quiet m → log_keeps s (run m s)) as Hq.
  { intros A m Hm. apply quiet_log_keeps. by apply (moves_run quiet). }
  destruct op; unfold perform;
    try (apply Hq;
      unfold begin_startup_handoff, abort_startup_handoff, freeze_startup_handoff, handoff_expired,
        elapsed, begin_recovery, self_fence, writer_fence_is_absent, verify_active_writer,
        replay_boundary, replay_boundary_locked, replay_boundary_is_retained, status_snapshot,
        verified_status_snapshot, cache_current_status, finish_verification,
        pause_feeds_until_writer_verified, bail; cbv zeta; solve_quiet; fail).
  - apply drain_handoff_log_kept.
  - apply publish_log_kept.
  - apply publish_recovery_kept.
  - unfold run, promote. destruct (promote_locked _ _ _ _ _ s) as [r s'] eqn:E.
    eapply promote_kept; [done..|intros _; by eapply Hpromote|exact E].
  - unfold run, recover_writer. apply (moves_run log_keeps).
    apply moves_bind; [apply _|intros s1 r s' E; eapply promote_kept; [..|exact E]; done|].
    intros boundary. apply (moves_weaken quiet); [apply quiet_log_keeps|solve_quiet].
Qed.
End order.

(** ** Facts: the bound on the queue *)

Section bound.
Context `{SerdeJson} `{Keccak} `{PublisherEnv}.
Context (config : BroadcasterRedisPublisherConfig) (writer_token : string).

Abbreviation M := (stateR sys AnyhowError).
Abbreviation waiting s := (len (pending_payloads (sys_gate s))).

(** Accepting never fills the queue past its limit; a payload put back can. *)
Definition bounded (limit : N) (s s' : sys) : Prop := (waiting s ≤ limit → waiting s' ≤ limit)%N.

#[local] Instance bounded_preorder limit : PreOrder (bounded limit).
Proof. split; unfold bounded; red; auto. Qed.

Lemma bounded_same limit s s' : sys_gate s' = sys_gate s → bounded limit s s'.
Proof. unfold bounded. by intros ->. Qed.

Lemma bounded_call limit {A} (f : world → A * world) : moves (bounded limit) (call f).
Proof. apply moves_call. intros w s. by apply bounded_same. Qed.
Lemma bounded_read limit {A} (f : BroadcasterRedisPublisherState → A) :
  moves (bounded limit) (inner f).
Proof. apply (moves_gets (bounded limit)). Qed.
Lemma bounded_inner limit f : moves (bounded limit) (modify_inner f).
Proof. apply moves_modify. intros s. by apply bounded_same. Qed.
Lemma bounded_phase limit phase error : moves (bounded limit) (set_deployment_phase phase error).
Proof. apply moves_modify. intros s. by apply bounded_same. Qed.
Lemma bounded_other limit (f : sys → sys) :
  (∀ s, (waiting (f s) ≤ waiting s)%N) → moves (bounded limit) (modify f : M unit).
Proof. intros Hf. apply moves_modify. intros s. specialize (Hf s). unfold bounded. lia. Qed.

Lemma omap_length {A B} (f : A → option B) (l : list A) : (length (omap f l) ≤ length l)%nat.
Proof. induction l as [|a l IH]; cbn; [done|]. destruct (f a); cbn; lia. Qed.

Hint Resolve bounded_call bounded_read bounded_inner bounded_phase : moves.
Hint Extern 2 (moves (bounded _) (modify _)) =>
  (apply bounded_other; intros st; unfold len; cbn; repeat case_match; cbn; lia) : moves.

Ltac solve_bounded :=
  repeat first [ solve [eauto 3 with moves typeclass_instances]
               | apply moves_attempt
               | apply moves_bind; [apply _| |intros ?]
               | case_match ].

Lemma gate_accept_bound block_limit limit now payload gate flags :
  (MAX_PENDING_RECOVERY_PAYLOADS ≤ limit → len (pending_payloads gate) ≤ limit →
   len (pending_payloads (gate_accept block_limit now payload gate flags).1.2) ≤ limit)%N.
Proof.
  intros Hl Hg. pose proof (gate_accept_queue block_limit now payload gate flags) as [_ Hq].
  apply (f_equal length) in Hq. rewrite length_app, !length_map in Hq. unfold len in *.
  destruct (is_heartbeat payload); cbn [orb length] in Hq; [lia|].
  destruct (N.leb_spec MAX_PENDING_RECOVERY_PAYLOADS (N.of_nat (length (pending_payloads gate))));
    cbn [length] in Hq; lia.
Qed.

Lemma bounded_accept limit payload now :
  (MAX_PENDING_RECOVERY_PAYLOADS ≤ limit)%N →
  moves (bounded limit) (accept_into_gate config payload now).
Proof.
  intros Hl s r s' Hr Hs. unfold accept_into_gate in Hr.
  pose proof (gate_accept_bound (recovery_max_buffered_native_blocks config) limit now payload
                (sys_gate s) (sys_flags s) Hl Hs) as Hb.
  destruct (gate_accept _ _ _ _ _) as [[??]?]. by injection Hr as _ <-.
Qed.

Lemma bounded_batch limit s :
  (MAX_PENDING_RECOVERY_PAYLOADS ≤ limit)%N → bounded limit s (after_batch config s).
Proof.
  intros Hl. unfold after_batch.
  trans (with_schedule (tail (sys_schedule s)) s); [by apply bounded_same|].
  generalize (with_schedule (tail (sys_schedule s)) s). induction (batch_of s) as [|op ops IH];
    intros s1; [done|]. cbn [foldl]. etransitivity; [|apply IH]. clear IH.
  destruct op as [payload now|flag|phase error|]; cbn [run_concurrent]; try by apply bounded_same.
  - destruct (open_recovery_id (sys_gate s1)); [|done]. intros Hs.
    pose proof (gate_accept_bound (recovery_max_buffered_native_blocks config) limit now payload
                  (sys_gate s1) (sys_flags s1) Hl Hs) as Hb.
    by destruct (gate_accept _ _ _ _ _) as [[??]?].
  - unfold bounded, len. cbn. lia.
Qed.

Lemma bounded_interleave limit :
  (MAX_PENDING_RECOVERY_PAYLOADS ≤ limit)%N → moves (bounded limit) (interleave config).
Proof.
  intros Hl s r s' Hr. pose proof (interleave_bind config (λ _, mret tt : M unit) s) as Hb.
  unfold mbind, stateR_bind in Hb. rewrite Hr in Hb.
  assert (s' = after_batch config s) as -> by (destruct r as [[]|]; by injection Hb).
  by apply bounded_batch.
Qed.

Lemma bounded_append_live limit payload :
  moves (bounded limit) (append_live_payload_locked config writer_token payload).
Proof.
  intros s r s' Hr%live_frame. injection Hr as Hg _ _ _ _ _ _ _. by apply bounded_same.
Qed.

Lemma bounded_append_entry limit entry :
  moves (bounded limit) (append_entry_locked config writer_token entry).
Proof.
  intros s r s' Hr%append_entry_inv. apply bounded_same.
  destruct r; [destruct Hr as (_ & _ & s1 & (w & n & ->) & ->)|destruct Hr as (w & n & ->)]; done.
Qed.

Abbreviation most := (MAX_PENDING_RECOVERY_PAYLOADS + 1)%N.

(** One can be put back while the queue was filled up behind it. *)
Lemma bounded_drain fuel : moves (bounded most) (drain_loop config writer_token fuel).
Proof.
  induction fuel as [|fuel IH]; intros s r s'; cbn [drain_loop]; [by intros [= <- <-]|].
  rewrite interleave_bind, gets_bind.
  pose proof (bounded_batch most s ltac:(lia)) as Hb. set (s1 := after_batch config s) in *.
  destruct (pending_payloads (sys_gate s1)) as [|queued rest] eqn:Ep.
  { intros [= <- <-] Hs. specialize (Hb Hs). by unfold len; cbn in *; rewrite Ep; cbn; lia. }
  unfold mbind at 1, stateR_bind at 1, modify. rewrite inner_bind, lift_bind.
  assert (waiting s ≤ most → waiting (set_pending rest s1) ≤ MAX_PENDING_RECOVERY_PAYLOADS)%N as Hpop.
  { intros Hs. specialize (Hb Hs). unfold len in *. rewrite Ep in Hb. cbn [length] in Hb.
    cbn [set_pending with_gate sys_gate pending_payloads]. lia. }
  destruct (normalize_live_payload _ _) as [normal|error].
  2: { intros [= <- <-] Hs. specialize (Hpop Hs). lia. }
  rewrite interleave_bind, attempt_bind.
  pose proof (bounded_batch MAX_PENDING_RECOVERY_PAYLOADS (set_pending rest s1) ltac:(lia)) as Hb2.
  destruct (append_live_payload_locked _ _ _ _) as [[[e id]|error] s3] eqn:Ea; cbn [fst snd];
    apply live_frame in Ea; injection Ea as Hg _ _ _ _ _ _ _.
  - intros Hr Hs. apply (IH _ _ _ Hr). rewrite Hg. specialize (Hb2 (Hpop Hs)). lia.
  - intros [= <- <-] Hs. specialize (Hb2 (Hpop Hs)). unfold len in *.
    cbn [set_pending with_gate sys_gate pending_payloads length]. rewrite Hg. lia.
Qed.

Hint Extern 2 (moves (bounded _) (interleave _)) => (apply bounded_interleave; lia) : moves.
Hint Extern 2 (moves (bounded _) (accept_into_gate _ _ _)) => (apply bounded_accept; lia) : moves.
Hint Resolve bounded_append_live bounded_append_entry bounded_drain : moves.

Lemma bounded_append_recovery cancelled append_failures commit entries :
  moves (bounded most)
    (append_recovery_entries config writer_token cancelled append_failures commit entries).
Proof.
  revert commit. induction entries as [|entry entries IH]; intros commit;
    cbn [append_recovery_entries]; unfold ensure_recovery_not_cancelled, record_publisher_error;
    solve_bounded.
Qed.

Lemma bounded_drain_handoff append_failures payloads :
  moves (bounded most) (drain_handoff_payloads config writer_token append_failures payloads).
Proof.
  induction payloads as [|payload payloads IH]; cbn [drain_handoff_payloads]; [|cbv zeta];
    solve_bounded.
Qed.

Lemma bounded_verify context renew :
  moves (bounded most) (verify_writer_fence_locked config writer_token context renew).
Proof. unfold verify_writer_fence_locked, finish_verification. cbv zeta. solve_bounded. Qed.
Hint Resolve bounded_append_recovery bounded_drain_handoff bounded_verify : moves.

Lemma bounded_renew : moves (bounded most) (renew_lease config writer_token).
Proof. unfold renew_lease, resync_stream_tail_locked, bail. solve_bounded. Qed.
Hint Resolve bounded_renew : moves.

Lemma bounded_verified_loop fuel : moves (bounded most) (verified_loop config writer_token fuel).
Proof. induction fuel as [|fuel IH]; cbn [verified_loop]; unfold bail; solve_bounded. Qed.

Lemma bounded_promote backends reason recovering :
  moves (bounded most) (promote_locked config writer_token backends reason recovering).
Proof. unfold promote_locked, replay_boundary_locked, bail. cbv zeta. solve_bounded. Qed.
Hint Resolve bounded_verified_loop bounded_promote : moves.

Lemma bounded_begin backends cancelled :
  moves (bounded most) (begin_recovery config backends cancelled).
Proof.
  unfold begin_recovery. cbv zeta. solve_bounded. apply bounded_other. intros s.
  unfold len. destruct (open_recovery_id (sys_gate s)); cbn; [|lia].
  pose proof (omap_length (trim_queued backends) (pending_payloads (sys_gate s))).
  unfold trim_queued_target_backends. lia.
Qed.

Lemma bounded_publish payload :
  moves (bounded most) (publish_accepted_payload config writer_token payload).
Proof.
  unfold publish_accepted_payload, accept_into_handoff, handoff_expired, elapsed,
    publish_active_payload, publisher_unhealthy, bail. cbv zeta. solve_bounded.
Qed.

Lemma bounded_publish_recovery transaction cancelled :
  moves (bounded most) (publish_recovery config writer_token transaction cancelled).
Proof.
  unfold publish_recovery, ensure_recovery_not_cancelled, allocate_state_version_locked,
    drain_pending_payloads_locked, replay_boundary_locked, bail. solve_bounded.
Qed.
Hint Resolve bounded_begin bounded_publish bounded_publish_recovery : moves.

Lemma perform_bounded op s : bounded most s (perform config writer_token op s).
Proof.
  destruct op; unfold perform; apply (moves_run (bounded most));
    unfold begin_startup_handoff, abort_startup_handoff, freeze_startup_handoff, handoff_expired,
      elapsed, drain_startup_handoff, self_fence, promote, recover_writer, writer_fence_is_absent,
      verify_active_writer, replay_boundary, replay_boundary_locked, replay_boundary_is_retained,
      status_snapshot, verified_status_snapshot, cache_current_status, finish_verification,
      pause_feeds_until_writer_verified, bail; cbv zeta; solve_bounded.
Qed.
End bound.

(** ** The life of a publisher *)

(** The process promotes only its passive publisher; everything else can be asked of it
    at any time. *)
Inductive publisher_reachable `{SerdeJson} `{Keccak} `{PublisherEnv}
    (config : BroadcasterRedisPublisherConfig) (writer_token : string) : sys → Prop :=
| reachable_new flags schedule w :
    publisher_reachable config writer_token (BroadcasterRedisPublisher_new config flags schedule w)
| reachable_op op s :
    publisher_reachable config writer_token s →
    (∀ backends reason, op = DoPromote backends reason → ps_mode (sys_inner s) = Passive) →
    publisher_reachable config writer_token (perform config writer_token op s).

Lemma reachable_inv `{SerdeJson} `{Keccak} `{PublisherEnv} `{!RedisStreamWriterLaws} config
    writer_token s :
  writer_token ≠ "" → (0 < lease_ttl_ms (writer_lease_ttl config))%N →
  publisher_reachable config writer_token s → log_inv config s.
Proof.
  intros Htok Httl. induction 1 as [flags schedule w|op s Hs IH Hop].
  - by split; cbn; try constructor.
  - by apply perform_kept.
Qed.

(** ** Claims *)

(** C7: an active publisher, with no recovery gate open and no error recorded, either puts
    an accepted payload in the stream, at its cursor and with its state version, or halts
    before the next one: an append that was not acknowledged leaves no active publisher
    behind, so that nothing is published past a hole.  Two payloads are refused and passed
    over instead: one that cannot be normalised, which changes nothing at all and is
    reported with the error of the normalisation, and one whose entry is too large to be
    sent, which leaves the log, the cursor, the writer and the committed version as they
    were. *)
Theorem published_or_halted `{SerdeJson} `{Keccak} `{PublisherEnv} config writer_token payload s r
    s' :
  open_recovery_id (sys_gate s) = None → ps_mode (sys_inner s) = Active →
  ps_last_error (sys_inner s) = None →
  publish_accepted_payload config writer_token payload s = (r, s') →
  publish_outcome config payload s r s'.
Proof.
  intros Hgate Hm He. unfold publish_accepted_payload. rewrite gets_bind, Hgate, inner_bind.
  change (id (sys_inner s)) with (sys_inner s). rewrite Hm, He. apply publish_active_outcome.
Qed.

(** The payloads frozen before a promotion are the first the new stream carries, in
    the order they were accepted; a drain that fails has published a part of them, in
    order, and unless the next one could not be normalised it retires the publisher and
    ends the deployment. *)
Theorem startup_handoff_drained `{SerdeJson} `{Keccak} `{PublisherEnv} config writer_token handoff
    s r s' :
  drain_startup_handoff config writer_token handoff s = (r, s') →
  match r with
  | Ok _ => ps_startup_handoff (sys_inner s') = None ∧ ps_mode (sys_inner s') = Active ∧
      ∃ es, live_run config (ps_stream_id (sys_inner s)) (ps_snapshot_id (sys_inner s))
              (cursor_of (sys_inner s)) (fh_payloads handoff) es (cursor_of (sys_inner s')) ∧
            sys_log s' = sys_log s ++ es
  | Err _ => (sys_inner s' = sys_inner s ∧ sys_log s' = sys_log s) ∨
      ∃ sent payload rest es c',
        fh_payloads handoff = sent ++ payload :: rest ∧
        live_run config (ps_stream_id (sys_inner s)) (ps_snapshot_id (sys_inner s))
          (cursor_of (sys_inner s)) sent es c' ∧
        sys_log s' = sys_log s ++ es ∧ handoff_stopped payload s s'
  end.
Proof.
  unfold drain_startup_handoff. rewrite phase_bind, inner_bind. set (s1 := with_admission _ s).
  rewrite ensure_that_bind. change (id (sys_inner s1)) with (sys_inner s).
  case_bool_decide as Hm; [|intros [= <- <-]; by left]. rewrite ensure_that_bind.
  destruct (match ps_startup_handoff (sys_inner s) with Some _ => _ | None => false end);
    [|intros [= <- <-]; by left].
  unfold mbind, stateR_bind.
  destruct (drain_handoff_payloads _ _ _ _ s1) as [[[]|error] s2] eqn:Ed;
    apply drain_handoff_outcome in Ed as (sent & es & c' & Hrun & Hl & Hr).
  - intros [= <- <-]. destruct Hr as (-> & -> & Hw). injection Hw as Ew _ _ _ _.
    split_and!; [done|cbn; by rewrite Ew|]. by exists es.
  - intros [= <- <-]. right. destruct Hr as (payload & rest & Hsplit & Hst).
    by exists sent, payload, rest, es, c'.
Qed.

(** C6: over the life of a publisher, through promotions, recoveries, lost leases and
    failures of any kind, the entries it was acknowledged carry growing sequence numbers
    within their stream, every update a state version above all entries before it, and
    the cursor stands above them all; a passive publisher has written nothing. *)
Theorem publisher_log_ordered `{SerdeJson} `{Keccak} `{PublisherEnv} `{!RedisStreamWriterLaws}
    config writer_token s :
  writer_token ≠ "" → (0 < lease_ttl_ms (writer_lease_ttl config))%N →
  publisher_reachable config writer_token s →
  StronglySorted before (sys_log s) ∧ Forall (below (sys_inner s)) (sys_log s) ∧
  (ps_mode (sys_inner s) = Passive → sys_log s = []).
Proof. intros Htok Httl Hs. by destruct (reachable_inv config writer_token s Htok Httl Hs). Qed.

(** However many payloads come while a recovery is published, at most 1,024 are
    accepted to wait, and one more only where a failed one was put back. *)
Theorem recovery_queue_bounded `{SerdeJson} `{Keccak} `{PublisherEnv} config writer_token s :
  publisher_reachable config writer_token s →
  (len (pending_payloads (sys_gate s)) ≤ MAX_PENDING_RECOVERY_PAYLOADS + 1)%N.
Proof.
  induction 1 as [flags schedule w|op s Hs IH Hop]; [done|]. by apply perform_bounded.
Qed.

(** ** Witnesses *)

#[local] Existing Instances demo_tycho demo_serde demo_keccak demo_writer demo_env.

Definition demo_published :=
  publish_accepted_payload demo_publisher_config "writer-a" (Update demo_update) (demo_active []).

Lemma published_or_halted_witness :
  is_ok demo_published.1 = true ∧ sys_log demo_published.2 ≠ [].
Proof.
  assert (is_ok demo_published.1 = true) as Hok by (vm_compute; reflexivity). split; [exact Hok|].
  pose proof (published_or_halted demo_publisher_config "writer-a" (Update demo_update)
    (demo_active []) demo_published.1 demo_published.2 ltac:(vm_compute; reflexivity)
    ltac:(vm_compute; reflexivity) ltac:(vm_compute; reflexivity) (surjective_pairing _)) as Hp.
  unfold publish_outcome in Hp. cbn [normalize_live_payload] in Hp.
  destruct demo_published.1; [|discriminate Hok]. destruct Hp as [e Hp].
  rewrite (la_log _ _ _ _ _ Hp). destruct (sys_log (demo_active [])); discriminate.
Defined.

(** Two payloads are accepted while passive, frozen, and drained after the promotion. *)
Definition demo_frozen : @sys demo_tycho demo_writer :=
  demo_perform (DoPromote demo_heads "startup")
    (demo_perform (DoFreezeHandoff 1)
       (demo_perform (DoPublish (Update demo_update))
          (demo_perform (DoPublish (Update demo_update))
             (demo_perform DoBeginHandoff (demo_new []))))).

Definition demo_handoff : @FrozenStartupHandoff demo_tycho :=
  {| fh_id := 1; fh_payloads := [Update demo_update; Update demo_update] |}.

Definition demo_drained :=
  drain_startup_handoff demo_publisher_config "writer-a" demo_handoff demo_frozen.

Lemma startup_handoff_drained_witness : ps_mode (sys_inner demo_drained.2) = Active.
Proof.
  assert (is_ok demo_drained.1 = true) as Hok by (vm_compute; reflexivity).
  pose proof (startup_handoff_drained demo_publisher_config "writer-a" demo_handoff demo_frozen
    demo_drained.1 demo_drained.2 (surjective_pairing _)) as Hd.
  destruct demo_drained.1; [|discriminate Hok]. exact (proj1 (proj2 Hd)).
Defined.

Lemma demo_active_reachable :
  publisher_reachable demo_publisher_config "writer-a"
    (demo_perform (DoPublish (Update demo_update)) (demo_active [])).
Proof.
  apply reachable_op; [|done]. apply reachable_op; [apply reachable_new|]. by intros.
Qed.

Lemma publisher_log_ordered_witness :
  StronglySorted before
    (sys_log (demo_perform (DoPublish (Update demo_update)) (demo_active []))).
Proof.
  exact (proj1 (@publisher_log_ordered demo_tycho demo_serde demo_keccak demo_writer demo_env
    demo_writer_laws demo_publisher_config "writer-a" _ ltac:(done) ltac:(vm_compute; reflexivity)
    demo_active_reachable)).
Defined.

Lemma recovery_queue_bounded_witness :
  (len (pending_payloads (sys_gate
     (demo_perform (DoPublish (Update demo_update)) (demo_active []))))
   ≤ MAX_PENDING_RECOVERY_PAYLOADS + 1)%N.
Proof. exact (recovery_queue_bounded demo_publisher_config "writer-a" _ demo_active_reachable). Defined.
