(* ===== verification/Store.v ===== *)
(** * The published state of a backend

    [runtime/src/models/state.rs]: [PublishedStateStore] and [StateStore], with the
    cache part of [runtime/src/models/tokens.rs].  A published state is immutable
    (an [Arc] in the code): an operation builds a replacement and publishes it, and a
    pin is a published state kept by a request.  The token store is shared by the
    stores of all backends, so it is an argument and a result of the operations that
    write to it.  A map that is iterated is an association list, or iterates in the
    arbitrary order of [HashOrder]. *)

From S2P Require Import Prelude Ordered Text Protocol.
From S2P Require Import Wire Validate TychoFeed.

(** ** Outside types *)

(** The tokens of a component: an address, and metadata nothing here reads. *)
Class TychoTokens `{TychoTypes} := {
  Token : Type;
  token_address : Token → Bytes;
  component_tokens : ProtocolComponent → list Token;
}.

#[export] Instance ProtocolKind_countable : Countable ProtocolKind.
Proof.
  apply (inj_countable ProtocolKind_as_str from_protocol_system).
  intros kind. by apply from_protocol_system_iff.
Defined.

(** The order in which hash maps and sets iterate. *)
Class HashOrder := {
  hm_entries : ∀ {A}, gmap string A → list (string * A);
  kind_entries : ∀ {A}, gmap ProtocolKind A → list (ProtocolKind * A);
  hs_elements : gset string → list string;
}.

Class HashOrderLaws `{HashOrder} := {
  hm_entries_perm : ∀ {A} (m : gmap string A), hm_entries m ≡ₚ map_to_list m;
  kind_entries_perm : ∀ {A} (m : gmap ProtocolKind A), kind_entries m ≡ₚ map_to_list m;
  hs_elements_perm : ∀ s, hs_elements s ≡ₚ elements s;
}.

(** ** Tokens *)

Section tokens.
Context `{TychoTokens}.

(** The caches of [TokenStore] and the wrapped native token of its chain. *)
Record TokenStore := {
  ts_tokens : gmap Bytes Token;
  ts_initial_tokens : gmap Bytes Token;
  ts_chain_wrapped_native : Bytes;
}.

(** Twenty zero bytes. *)
Definition native_token_address : Bytes :=
  String.concat "" (replicate 20 (String Ascii.zero "")).

Definition initial_snapshot (ts : TokenStore) : gmap Bytes Token := ts_initial_tokens ts.
Definition TokenStore_snapshot (ts : TokenStore) : gmap Bytes Token := ts_tokens ts.
Definition TokenStore_get (ts : TokenStore) (address : Bytes) : option Token :=
  ts_tokens ts !! address.

Definition wrapped_native_token (ts : TokenStore) : option Bytes :=
  let address := ts_chain_wrapped_native ts in
  if bool_decide (address ≠ native_token_address) then Some address else None.

(** [entry(token.address).or_insert(token)]. *)
Definition or_insert_token (tokens : gmap Bytes Token) (token : Token) : gmap Bytes Token :=
  match tokens !! token_address token with
  | Some _ => tokens
  | None => <[token_address token := token]> tokens
  end.

Definition insert_batch (ts : TokenStore) (tokens : list Token) : TokenStore :=
  {| ts_tokens := foldl or_insert_token (ts_tokens ts) tokens;
     ts_initial_tokens := ts_initial_tokens ts;
     ts_chain_wrapped_native := ts_chain_wrapped_native ts |}.
End tokens.

(** ** The published state *)

(** A simulation and its component. *)
Abbreviation PoolEntry := (ProtocolSim * ProtocolComponent)%type.

Section store.
Context `{TychoTokens}.

Record PublishedStateStore := {
  ps_version : u64;
  ps_request_generation : u64;
  ps_requests_allowed : bool;
  ps_shards : gmap ProtocolKind (gmap string PoolEntry);
  ps_id_to_kind : gmap string ProtocolKind;
  ps_token_index : gmap Bytes (gset string);
  ps_tokens : gmap Bytes Token;
  ps_wrapped_native_token : option Bytes;
  ps_block_number : u64;
  ps_ready : bool;
}.

Definition empty (tokens : gmap Bytes Token) (wrapped_native_token : option Bytes) :
    PublishedStateStore :=
  {| ps_version := 0; ps_request_generation := 0; ps_requests_allowed := false;
     ps_shards := foldl (λ shards kind, <[kind := ∅]> shards) ∅ ProtocolKind_ALL;
     ps_id_to_kind := ∅; ps_token_index := ∅; ps_tokens := tokens;
     ps_wrapped_native_token := wrapped_native_token; ps_block_number := 0;
     ps_ready := false |}.

(** Field assignments. *)
Definition set_version (v : u64) (p : PublishedStateStore) : PublishedStateStore :=
  {| ps_version := v; ps_request_generation := ps_request_generation p;
     ps_requests_allowed := ps_requests_allowed p; ps_shards := ps_shards p;
     ps_id_to_kind := ps_id_to_kind p; ps_token_index := ps_token_index p;
     ps_tokens := ps_tokens p; ps_wrapped_native_token := ps_wrapped_native_token p;
     ps_block_number := ps_block_number p; ps_ready := ps_ready p |}.
Definition set_request_generation (g : u64) (p : PublishedStateStore) : PublishedStateStore :=
  {| ps_version := ps_version p; ps_request_generation := g;
     ps_requests_allowed := ps_requests_allowed p; ps_shards := ps_shards p;
     ps_id_to_kind := ps_id_to_kind p; ps_token_index := ps_token_index p;
     ps_tokens := ps_tokens p; ps_wrapped_native_token := ps_wrapped_native_token p;
     ps_block_number := ps_block_number p; ps_ready := ps_ready p |}.
Definition set_requests_allowed (b : bool) (p : PublishedStateStore) : PublishedStateStore :=
  {| ps_version := ps_version p; ps_request_generation := ps_request_generation p;
     ps_requests_allowed := b; ps_shards := ps_shards p;
     ps_id_to_kind := ps_id_to_kind p; ps_token_index := ps_token_index p;
     ps_tokens := ps_tokens p; ps_wrapped_native_token := ps_wrapped_native_token p;
     ps_block_number := ps_block_number p; ps_ready := ps_ready p |}.
Definition set_pools (shards : gmap ProtocolKind (gmap string PoolEntry))
    (id_to_kind : gmap string ProtocolKind) (token_index : gmap Bytes (gset string))
    (p : PublishedStateStore) : PublishedStateStore :=
  {| ps_version := ps_version p; ps_request_generation := ps_request_generation p;
     ps_requests_allowed := ps_requests_allowed p; ps_shards := shards;
     ps_id_to_kind := id_to_kind; ps_token_index := token_index;
     ps_tokens := ps_tokens p; ps_wrapped_native_token := ps_wrapped_native_token p;
     ps_block_number := ps_block_number p; ps_ready := ps_ready p |}.
Definition set_tokens (tokens : gmap Bytes Token) (p : PublishedStateStore) :
    PublishedStateStore :=
  {| ps_version := ps_version p; ps_request_generation := ps_request_generation p;
     ps_requests_allowed := ps_requests_allowed p; ps_shards := ps_shards p;
     ps_id_to_kind := ps_id_to_kind p; ps_token_index := ps_token_index p;
     ps_tokens := tokens; ps_wrapped_native_token := ps_wrapped_native_token p;
     ps_block_number := ps_block_number p; ps_ready := ps_ready p |}.
Definition set_block_number (n : u64) (p : PublishedStateStore) : PublishedStateStore :=
  {| ps_version := ps_version p; ps_request_generation := ps_request_generation p;
     ps_requests_allowed := ps_requests_allowed p; ps_shards := ps_shards p;
     ps_id_to_kind := ps_id_to_kind p; ps_token_index := ps_token_index p;
     ps_tokens := ps_tokens p; ps_wrapped_native_token := ps_wrapped_native_token p;
     ps_block_number := n; ps_ready := ps_ready p |}.
Definition set_ready (b : bool) (p : PublishedStateStore) : PublishedStateStore :=
  {| ps_version := ps_version p; ps_request_generation := ps_request_generation p;
     ps_requests_allowed := ps_requests_allowed p; ps_shards := ps_shards p;
     ps_id_to_kind := ps_id_to_kind p; ps_token_index := ps_token_index p;
     ps_tokens := ps_tokens p; ps_wrapped_native_token := ps_wrapped_native_token p;
     ps_block_number := ps_block_number p; ps_ready := b |}.

(** ** Reading a published state *)

Definition pool_by_id_from_published (p : PublishedStateStore) (id : string) :
    option PoolEntry :=
  kind ← ps_id_to_kind p !! id;
  shard ← ps_shards p !! kind;
  shard !! id.

Definition total_states (p : PublishedStateStore) : nat := size (ps_id_to_kind p).
Definition has_pool (p : PublishedStateStore) (id : string) : bool :=
  bool_decide (is_Some (ps_id_to_kind p !! id)).

Definition ids_for_token (p : PublishedStateStore) (token : Bytes) : option (gset string) :=
  let native_address := native_token_address in
  let needs_native := bool_decide (ps_wrapped_native_token p = Some token) in
  let needs_wrapped := bool_decide (token = native_address) in
  let ids := default ∅ (ps_token_index p !! token) in
  let ids :=
    if needs_native then
      match ps_token_index p !! native_address with
      | Some native_ids => ids ∪ native_ids
      | None => ids
      end
    else ids in
  let ids :=
    if needs_wrapped then
      match ps_wrapped_native_token p with
      | Some wrapped_address =>
          match ps_token_index p !! wrapped_address with
          | Some wrapped_ids => ids ∪ wrapped_ids
          | None => ids
          end
      | None => ids
      end
    else ids in
  if bool_decide (ids = ∅) then None else Some ids.

Section order.
Context `{HashOrder}.

Definition intersect_pool_ids (left right : gset string) : list string :=
  let '(smaller, larger) :=
    if bool_decide (size left ≤ size right)%nat then (left, right) else (right, left) in
  filter (λ id, id ∈ larger) (hs_elements smaller).

Definition pool_entries_for_ids (p : PublishedStateStore) (ids : list string) :
    list (string * PoolEntry) :=
  omap (λ id, (λ entry, (id, entry)) <$> pool_by_id_from_published p id) ids.

Definition matching_pools_from_published (p : PublishedStateStore)
    (token_in token_out : Bytes) : list (string * PoolEntry) :=
  let exact :=
    match ps_token_index p !! token_in, ps_token_index p !! token_out with
    | Some token_in_ids, Some token_out_ids =>
        pool_entries_for_ids p (intersect_pool_ids token_in_ids token_out_ids)
    | _, _ => []
    end in
  if negb (bool_decide (length exact = 0%nat)) then exact
  else
    match ids_for_token p token_in, ids_for_token p token_out with
    | Some token_in_ids, Some token_out_ids =>
        pool_entries_for_ids p (intersect_pool_ids token_in_ids token_out_ids)
    | _, _ => []
    end.
End order.

(** ** Applying an update *)

Record UpdateAccumulator := {
  ua_new_pairs_count : nat;
  ua_new_pairs_missing_state : nat;
  ua_unknown_protocol_new_pairs : nat;
  ua_updated_states : nat;
  ua_updates_for_unknown_pair : nat;
  ua_states_missing_in_shard : nat;
  ua_removed_pairs_count : nat;
  ua_removed_unknown_pair : nat;
  ua_anomaly_samples : list string;
  ua_tokens_to_cache : list Token;
}.

Definition UpdateAccumulator_default : UpdateAccumulator :=
  {| ua_new_pairs_count := 0; ua_new_pairs_missing_state := 0;
     ua_unknown_protocol_new_pairs := 0; ua_updated_states := 0;
     ua_updates_for_unknown_pair := 0; ua_states_missing_in_shard := 0;
     ua_removed_pairs_count := 0; ua_removed_unknown_pair := 0;
     ua_anomaly_samples := []; ua_tokens_to_cache := [] |}.

Definition UPDATE_ANOMALY_SAMPLE_CAP : nat := 6.

Definition add_anomaly_sample (samples : list string) (kind value : string) : list string :=
  if bool_decide (UPDATE_ANOMALY_SAMPLE_CAP ≤ length samples)%nat then samples
  else samples ++ [(kind ++ ":" ++ value)%string].

(** The anomalies: each increments its counter and records a sample. *)
Inductive Anomaly :=
| NewPairMissingStateAnomaly
| UnknownProtocolAnomaly
| UnknownPairUpdateAnomaly
| MissingInShardAnomaly
| RemovedUnknownPairAnomaly.

Definition record_anomaly (a : Anomaly) (value : string) (ua : UpdateAccumulator) :
    UpdateAccumulator :=
  let bump b n := if (b : bool) then S n else n in
  let kind :=
    match a with
    | NewPairMissingStateAnomaly => "new_pairs_missing_state"
    | UnknownProtocolAnomaly => "unknown_protocol_new_pairs"
    | UnknownPairUpdateAnomaly => "updates_for_unknown_pair"
    | MissingInShardAnomaly => "states_missing_in_shard"
    | RemovedUnknownPairAnomaly => "removed_unknown_pair"
    end in
  {| ua_new_pairs_count := ua_new_pairs_count ua;
     ua_new_pairs_missing_state :=
       bump (match a with NewPairMissingStateAnomaly => true | _ => false end)
         (ua_new_pairs_missing_state ua);
     ua_unknown_protocol_new_pairs :=
       bump (match a with UnknownProtocolAnomaly => true | _ => false end)
         (ua_unknown_protocol_new_pairs ua);
     ua_updated_states := ua_updated_states ua;
     ua_updates_for_unknown_pair :=
       bump (match a with UnknownPairUpdateAnomaly => true | _ => false end)
         (ua_updates_for_unknown_pair ua);
     ua_states_missing_in_shard :=
       bump (match a with MissingInShardAnomaly => true | _ => false end)
         (ua_states_missing_in_shard ua);
     ua_removed_pairs_count := ua_removed_pairs_count ua;
     ua_removed_unknown_pair :=
       bump (match a with RemovedUnknownPairAnomaly => true | _ => false end)
         (ua_removed_unknown_pair ua);
     ua_anomaly_samples := add_anomaly_sample (ua_anomaly_samples ua) kind value;
     ua_tokens_to_cache := ua_tokens_to_cache ua |}.

Definition count_new_pair (tokens : list Token) (ua : UpdateAccumulator) : UpdateAccumulator :=
  {| ua_new_pairs_count := S (ua_new_pairs_count ua);
     ua_new_pairs_missing_state := ua_new_pairs_missing_state ua;
     ua_unknown_protocol_new_pairs := ua_unknown_protocol_new_pairs ua;
     ua_updated_states := ua_updated_states ua;
     ua_updates_for_unknown_pair := ua_updates_for_unknown_pair ua;
     ua_states_missing_in_shard := ua_states_missing_in_shard ua;
     ua_removed_pairs_count := ua_removed_pairs_count ua;
     ua_removed_unknown_pair := ua_removed_unknown_pair ua;
     ua_anomaly_samples := ua_anomaly_samples ua;
     ua_tokens_to_cache := ua_tokens_to_cache ua ++ tokens |}.
Definition count_updated_state (ua : UpdateAccumulator) : UpdateAccumulator :=
  {| ua_new_pairs_count := ua_new_pairs_count ua;
     ua_new_pairs_missing_state := ua_new_pairs_missing_state ua;
     ua_unknown_protocol_new_pairs := ua_unknown_protocol_new_pairs ua;
     ua_updated_states := S (ua_updated_states ua);
     ua_updates_for_unknown_pair := ua_updates_for_unknown_pair ua;
     ua_states_missing_in_shard := ua_states_missing_in_shard ua;
     ua_removed_pairs_count := ua_removed_pairs_count ua;
     ua_removed_unknown_pair := ua_removed_unknown_pair ua;
     ua_anomaly_samples := ua_anomaly_samples ua;
     ua_tokens_to_cache := ua_tokens_to_cache ua |}.
Definition count_removed_pair (ua : UpdateAccumulator) : UpdateAccumulator :=
  {| ua_new_pairs_count := ua_new_pairs_count ua;
     ua_new_pairs_missing_state := ua_new_pairs_missing_state ua;
     ua_unknown_protocol_new_pairs := ua_unknown_protocol_new_pairs ua;
     ua_updated_states := ua_updated_states ua;
     ua_updates_for_unknown_pair := ua_updates_for_unknown_pair ua;
     ua_states_missing_in_shard := ua_states_missing_in_shard ua;
     ua_removed_pairs_count := S (ua_removed_pairs_count ua);
     ua_removed_unknown_pair := ua_removed_unknown_pair ua;
     ua_anomaly_samples := ua_anomaly_samples ua;
     ua_tokens_to_cache := ua_tokens_to_cache ua |}.

(** [HashMap::remove]. *)
Definition hm_remove {V} (k : string) (m : hashmap V) : hashmap V :=
  filter (λ kv, kv.1 ≠ k) m.

(** [token_index.entry(address).or_default().insert(id)]. *)
Definition index_insert (id : string) (index : gmap Bytes (gset string)) (token : Token) :
    gmap Bytes (gset string) :=
  <[token_address token := {[id]} ∪ default ∅ (index !! token_address token)]> index.

Definition index_remove (id : string) (index : gmap Bytes (gset string)) (token : Token) :
    gmap Bytes (gset string) :=
  match index !! token_address token with
  | Some pool_ids =>
      let pool_ids := pool_ids ∖ {[id]} in
      if bool_decide (pool_ids = ∅) then delete (token_address token) index
      else <[token_address token := pool_ids]> index
  | None => index
  end.

(** The bodies of the three loops. *)
Definition apply_new_pair
    (x : PublishedStateStore * hashmap ProtocolSim * UpdateAccumulator)
    (pair : string * ProtocolComponent) :
    PublishedStateStore * hashmap ProtocolSim * UpdateAccumulator :=
  let '(published, states, stats) := x in
  let '(id, component) := pair in
  match ProtocolKind_from_component component with
  | None => (published, states, record_anomaly UnknownProtocolAnomaly id stats)
  | Some kind =>
      match hm_get id states with
      | None => (published, states, record_anomaly NewPairMissingStateAnomaly id stats)
      | Some state =>
          let states := hm_remove id states in
          match ps_shards published !! kind with
          | None => (published, states, record_anomaly UnknownProtocolAnomaly id stats)
          | Some shard =>
              (set_pools
                 (<[kind := <[id := (state, component)]> shard]> (ps_shards published))
                 (<[id := kind]> (ps_id_to_kind published))
                 (foldl (index_insert id) (ps_token_index published)
                    (component_tokens component))
                 published,
               states,
               count_new_pair (component_tokens component) stats)
          end
      end
  end.

Definition apply_new_pairs (published : PublishedStateStore)
    (new_pairs : hashmap ProtocolComponent) (states : hashmap ProtocolSim)
    (stats : UpdateAccumulator) :
    PublishedStateStore * hashmap ProtocolSim * UpdateAccumulator :=
  foldl apply_new_pair (published, states, stats) new_pairs.

Definition apply_state_update (x : PublishedStateStore * UpdateAccumulator)
    (entry : string * ProtocolSim) : PublishedStateStore * UpdateAccumulator :=
  let '(published, stats) := x in
  let '(id, state) := entry in
  match ps_id_to_kind published !! id with
  | None => (published, record_anomaly UnknownPairUpdateAnomaly id stats)
  | Some kind =>
      match ps_shards published !! kind with
      | None => (published, record_anomaly MissingInShardAnomaly id stats)
      | Some shard =>
          match shard !! id with
          | Some (_, component) =>
              (set_pools (<[kind := <[id := (state, component)]> shard]> (ps_shards published))
                 (ps_id_to_kind published) (ps_token_index published) published,
               count_updated_state stats)
          | None => (published, record_anomaly MissingInShardAnomaly id stats)
          end
      end
  end.

Definition apply_state_updates (published : PublishedStateStore)
    (states : hashmap ProtocolSim) (stats : UpdateAccumulator) :
    PublishedStateStore * UpdateAccumulator :=
  foldl apply_state_update (published, stats) states.

Definition apply_removed_pair (x : PublishedStateStore * UpdateAccumulator)
    (pair : string * ProtocolComponent) : PublishedStateStore * UpdateAccumulator :=
  let '(published, stats) := x in
  let '(id, component) := pair in
  let index := foldl (index_remove id) (ps_token_index published) (component_tokens component) in
  match ps_id_to_kind published !! id with
  | Some kind =>
      let id_to_kind := delete id (ps_id_to_kind published) in
      match ps_shards published !! kind with
      | Some shard =>
          (set_pools (<[kind := delete id shard]> (ps_shards published)) id_to_kind index
             published, count_removed_pair stats)
      | None => (set_pools (ps_shards published) id_to_kind index published, stats)
      end
  | None =>
      (set_pools (ps_shards published) (ps_id_to_kind published) index published,
       record_anomaly RemovedUnknownPairAnomaly id stats)
  end.

Definition apply_removed_pairs (published : PublishedStateStore)
    (removed_pairs : hashmap ProtocolComponent) (stats : UpdateAccumulator) :
    PublishedStateStore * UpdateAccumulator :=
  foldl apply_removed_pair (published, stats) removed_pairs.

Record UpdateMetrics := {
  um_block_number : u64;
  um_updated_states : nat;
  um_new_pairs : nat;
  um_removed_pairs : nat;
  um_total_pairs : nat;
  um_new_pairs_missing_state : nat;
  um_unknown_protocol_new_pairs : nat;
  um_updates_for_unknown_pair : nat;
  um_states_missing_in_shard : nat;
  um_removed_unknown_pair : nat;
  um_anomaly_samples : list string;
}.

Definition has_anomalies (m : UpdateMetrics) : bool :=
  bool_decide (0 < um_new_pairs_missing_state m)%nat
  || bool_decide (0 < um_unknown_protocol_new_pairs m)%nat
  || bool_decide (0 < um_updates_for_unknown_pair m)%nat
  || bool_decide (0 < um_states_missing_in_shard m)%nat
  || bool_decide (0 < um_removed_unknown_pair m)%nat.

(** ** The store *)

Record StateStore := {
  ss_publish_tokens_to_store : bool;
  ss_published : PublishedStateStore;
  ss_ready_tx : bool;
}.

Definition new_with_token_publication (tokens : TokenStore)
    (initial_tokens : gmap Bytes Token) (publish_tokens_to_store : bool) : StateStore :=
  {| ss_publish_tokens_to_store := publish_tokens_to_store;
     ss_published := empty initial_tokens (wrapped_native_token tokens);
     ss_ready_tx := false |}.

Definition StateStore_new (tokens : TokenStore) : StateStore :=
  new_with_token_publication tokens (initial_snapshot tokens) true.
Definition new_private_with_snapshot (tokens : TokenStore) (initial : gmap Bytes Token) :
    StateStore :=
  new_with_token_publication tokens initial false.

Definition pin (s : StateStore) : PublishedStateStore := ss_published s.
Definition store_state_version (s : StateStore) : u64 := ps_version (ss_published s).
Definition is_ready (s : StateStore) : bool := ss_ready_tx s.
Definition request_snapshot (s : StateStore) : bool * bool * u64 :=
  (ps_ready (ss_published s), ps_requests_allowed (ss_published s),
   ps_request_generation (ss_published s)).

Definition publish (replacement : PublishedStateStore) (s : StateStore) : StateStore :=
  let current := ss_published s in
  let replacement :=
    set_request_generation (saturating_add (ps_request_generation current) 1) replacement in
  let ready := ps_ready replacement in
  let previous_ready := ps_ready current in
  {| ss_publish_tokens_to_store := ss_publish_tokens_to_store s;
     ss_published := replacement;
     ss_ready_tx := if Bool.eqb previous_ready ready then ss_ready_tx s else ready |}.

Definition fence_requests (s : StateStore) : StateStore :=
  publish (set_requests_allowed false (ss_published s)) s.

Definition align_bootstrap_state_version (version : u64) (s : StateStore) : StateStore :=
  let replacement := set_version version (ss_published s) in
  publish (set_requests_allowed (ps_ready replacement) replacement) s.

Definition reset (s : StateStore) : StateStore :=
  let current := ss_published s in
  publish (set_version (saturating_add (ps_version current) 1)
             (empty (ps_tokens current) (ps_wrapped_native_token current))) s.

Section order.
Context `{HashOrder}.

Definition rebuild_indexes (p : PublishedStateStore) : PublishedStateStore :=
  let '(id_to_kind, index) :=
    foldl (λ x '(kind, shard),
        foldl (λ '(id_to_kind, index) '(id, entry),
            (<[id := kind]> id_to_kind,
             foldl (index_insert id) index (component_tokens (entry : PoolEntry).2)))
          x (hm_entries shard))
      (∅, ∅) (kind_entries (ps_shards p)) in
  set_pools (ps_shards p) id_to_kind index p.

Definition reset_protocols (protocols : list ProtocolKind) (s : StateStore) : StateStore :=
  if bool_decide (length protocols = 0%nat) then s
  else if bool_decide (length ProtocolKind_ALL ≤ length protocols)%nat then reset s
  else
    let current := ss_published s in
    let '(shards, any_cleared) :=
      foldl (λ '(shards, any_cleared) kind,
          match shards !! kind with
          | Some _ => (<[kind := ∅]> shards, true)
          | None => (shards, any_cleared)
          end)
        (ps_shards current, false) protocols in
    if negb any_cleared then s
    else
      let replacement :=
        rebuild_indexes
          (set_pools shards (ps_id_to_kind current) (ps_token_index current) current) in
      let replacement := set_version (saturating_add (ps_version current) 1) replacement in
      let replacement :=
        set_ready (negb (bool_decide (size (ps_id_to_kind replacement) = 0%nat))) replacement in
      publish (set_requests_allowed (ps_ready replacement) replacement) s.
End order.

Definition apply_update_locked (update : TychoUpdate) (current : PublishedStateStore)
    (state_version : u64) (tokens : TokenStore) (s : StateStore) :
    UpdateMetrics * TokenStore * StateStore :=
  let replacement := set_version state_version current in
  let block_number := tu_block_number_or_timestamp update in
  let replacement := set_block_number block_number replacement in
  let stats := UpdateAccumulator_default in
  let '(replacement, states, stats) :=
    apply_new_pairs replacement (tu_new_pairs update) (tu_states update) stats in
  let '(replacement, stats) := apply_state_updates replacement states stats in
  let '(replacement, stats) :=
    apply_removed_pairs replacement (tu_removed_pairs update) stats in
  let tokens :=
    if ss_publish_tokens_to_store s
       && negb (bool_decide (length (ua_tokens_to_cache stats) = 0%nat))
    then insert_batch tokens (ua_tokens_to_cache stats) else tokens in
  let replacement :=
    set_tokens (foldl or_insert_token (ps_tokens replacement) (ua_tokens_to_cache stats))
      replacement in
  let total_pairs := size (ps_id_to_kind replacement) in
  let replacement := set_ready (bool_decide (0 < total_pairs)%nat) replacement in
  let replacement := set_requests_allowed (ps_ready replacement) replacement in
  ({| um_block_number := block_number;
      um_updated_states := ua_updated_states stats;
      um_new_pairs := ua_new_pairs_count stats;
      um_removed_pairs := ua_removed_pairs_count stats;
      um_total_pairs := total_pairs;
      um_new_pairs_missing_state := ua_new_pairs_missing_state stats;
      um_unknown_protocol_new_pairs := ua_unknown_protocol_new_pairs stats;
      um_updates_for_unknown_pair := ua_updates_for_unknown_pair stats;
      um_states_missing_in_shard := ua_states_missing_in_shard stats;
      um_removed_unknown_pair := ua_removed_unknown_pair stats;
      um_anomaly_samples := ua_anomaly_samples stats |},
   tokens, publish replacement s).

Definition apply_update (update : TychoUpdate) (tokens : TokenStore) (s : StateStore) :
    UpdateMetrics * TokenStore * StateStore :=
  let current := ss_published s in
  apply_update_locked update current (saturating_add (ps_version current) 1) tokens s.

(** The errors of the two checks on versions. *)
Inductive StoreError :=
| StateVersionNotNewer (state_version current_version : u64)
| CandidateNotNewer (target_version current_version : u64).

Definition apply_update_at_version (update : TychoUpdate) (state_version : u64)
    (tokens : TokenStore) (s : StateStore) :
    result StoreError (UpdateMetrics * TokenStore * StateStore) :=
  let current := ss_published s in
  _ ← ensure (ps_version current <? state_version)%N
        (StateVersionNotNewer state_version (ps_version current));
  Ok (apply_update_locked update current state_version tokens s).

Definition publish_candidate `{HashOrder} (candidate : PublishedStateStore)
    (target_version : u64) (tokens : TokenStore) (s : StateStore) :
    result StoreError (TokenStore * StateStore) :=
  let current_version := ps_version (ss_published s) in
  _ ← ensure (current_version <? target_version)%N
        (CandidateNotNewer target_version current_version);
  let replacement := set_version target_version candidate in
  let replacement := set_requests_allowed (ps_ready replacement) replacement in
  let values := (hm_entries (ps_tokens replacement)).*2 in
  Ok (insert_batch tokens values, publish replacement s).
End store.

(** ** A concrete instance, for the witnesses *)

(** A token is its address; the tokens of a component are the letters of its type
    name. *)
Definition demo_component_tokens (c : string * string) : list string :=
  (λ a, String a "") <$> String.list_ascii_of_string c.2.

Definition demo_tokens : @TychoTokens demo_tycho :=
  @Build_TychoTokens demo_tycho string id demo_component_tokens.

Definition demo_order : HashOrder := {|
  hm_entries := λ A m, map_to_list m;
  kind_entries := λ A m, map_to_list m;
  hs_elements := elements;
|}.

Definition demo_order_laws : @HashOrderLaws demo_order.
Proof. by split. Defined.
