(* ===== verification/StorePools.v ===== *)
(** * The pools of a published state

    What [Store] computes, over the map from identifiers to pools that a published
    state stands for ([pool_by_id_from_published]): the invariant that ties shards,
    kinds, token index and cached tokens together, an update as a function on that map,
    and the counters it reports. *)

From S2P Require Import Prelude Ordered Text Protocol.
From S2P Require Import Wire Validate TychoFeed Store.

(** ** Hash maps as lists *)

Section hashmaps.
Context {V : Type}.
Implicit Types m : hashmap V.

Lemma hm_get_None k m : hm_get k m = None ↔ k ∉ m.*1.
Proof.
  induction m as [|[k' v'] m IH]; simpl; [by set_solver|].
  destruct (String.eqb_spec k k'); set_solver.
Qed.

Lemma hm_remove_cons k k1 v m :
  hm_remove k ((k1, v) :: m) =
  if decide (k1 = k) then hm_remove k m else (k1, v) :: hm_remove k m.
Proof.
  unfold hm_remove. rewrite filter_cons. cbn [fst].
  destruct (decide (k1 = k)) as [->|?]; [by rewrite decide_False by naive_solver|].
  by rewrite decide_True.
Qed.

Lemma hm_get_remove k k' m :
  hm_get k (hm_remove k' m) = if decide (k = k') then None else hm_get k m.
Proof.
  induction m as [|[k1 v] m IH]; [by case_decide|]. rewrite hm_remove_cons. cbn [hm_get].
  destruct (decide (k1 = k')) as [E|Hk1]; cbn [hm_get]; rewrite IH;
    destruct (String.eqb_spec k k1), (decide (k = k')); simplify_eq; done.
Qed.

Lemma hm_remove_keys k m x : x ∈ (hm_remove k m).*1 ↔ x ≠ k ∧ x ∈ m.*1.
Proof.
  induction m as [|[k1 v] m IH]; [set_solver|]. rewrite hm_remove_cons.
  cbn [fmap list_fmap fst]. case_decide; cbn [fmap list_fmap fst];
    rewrite ?elem_of_cons; unfold fmap in IH; rewrite IH; naive_solver.
Qed.

Lemma hm_remove_NoDup k m : NoDup m.*1 → NoDup (hm_remove k m).*1.
Proof.
  induction m as [|[k1 v] m IH]; [done|]. rewrite hm_remove_cons.
  cbn [fmap list_fmap fst]. intros [Hnin Hnd]%NoDup_cons.
  case_decide; [by apply IH|]. cbn [fmap list_fmap fst].
  apply NoDup_cons. split; [|by apply IH]. intros Hin. by apply hm_remove_keys in Hin as [_ ?].
Qed.

Lemma hm_remove_notin k m : k ∉ m.*1 → hm_remove k m = m.
Proof.
  induction m as [|[k1 v] m IH]; [done|]. rewrite hm_remove_cons.
  cbn [fmap list_fmap fst]. intros [Hne Hnin]%not_elem_of_cons.
  rewrite decide_False by congruence. by rewrite IH.
Qed.

Lemma hm_remove_length k m v :
  NoDup m.*1 → hm_get k m = Some v → length m = S (length (hm_remove k m)).
Proof.
  induction m as [|[k1 w] m IH]; cbn [hm_get]; [done|]. rewrite hm_remove_cons.
  cbn [fmap list_fmap fst length]. intros [Hnin Hnd]%NoDup_cons.
  destruct (String.eqb_spec k k1) as [->|Hne].
  - intros _. rewrite decide_True by done. by rewrite hm_remove_notin.
  - intros Hget. rewrite decide_False by congruence. cbn [length]. by rewrite <- IH.
Qed.

Lemma hm_contains_key_elem k m : hm_contains_key k m = true ↔ k ∈ m.*1.
Proof.
  unfold hm_contains_key. destruct (hm_get k m) eqn:E.
  - split; [|done]. intros _. destruct (decide (k ∈ m.*1)) as [|Hn]; [done|].
    apply hm_get_None in Hn. congruence.
  - apply hm_get_None in E. naive_solver.
Qed.
End hashmaps.

(** ** The token index *)

Section index.
Context `{TychoTokens}.

Definition index_ids (index : gmap Bytes (gset string)) (a : Bytes) : gset string :=
  default ∅ (index !! a).

Definition addresses (ts : list Token) : list Bytes := token_address <$> ts.

Lemma addresses_cons t ts : addresses (t :: ts) = token_address t :: addresses ts.
Proof. done. Qed.

Definition no_empty_set (index : gmap Bytes (gset string)) : Prop :=
  ∀ a ids, index !! a = Some ids → ids ≠ ∅.

Lemma index_insert_ids id index t a id' :
  id' ∈ index_ids (index_insert id index t) a ↔
  id' ∈ index_ids index a ∨ id' = id ∧ a = token_address t.
Proof.
  unfold index_ids, index_insert. destruct (decide (a = token_address t)) as [->|].
  - rewrite lookup_insert_eq. cbn. set_solver.
  - rewrite lookup_insert_ne by done. naive_solver.
Qed.

Lemma index_remove_ids id index t a id' :
  id' ∈ index_ids (index_remove id index t) a ↔
  id' ∈ index_ids index a ∧ ¬ (id' = id ∧ a = token_address t).
Proof.
  unfold index_ids, index_remove.
  destruct (index !! token_address t) as [ids|] eqn:E.
  - case_bool_decide as Hids; (destruct (decide (a = token_address t)) as [->|]);
      rewrite ?lookup_delete_eq, ?lookup_insert_eq, ?E; cbn;
      rewrite ?lookup_delete_ne, ?lookup_insert_ne by done;
      [set_solver|naive_solver|set_solver|naive_solver].
  - destruct (decide (a = token_address t)) as [->|]; [rewrite E; set_solver|naive_solver].
Qed.

Lemma index_inserts_ids id ts index a id' :
  id' ∈ index_ids (foldl (index_insert id) index ts) a ↔
  id' ∈ index_ids index a ∨ id' = id ∧ a ∈ addresses ts.
Proof.
  revert index. induction ts as [|t ts IH]; intros index; cbn [foldl].
  { set_solver. }
  rewrite IH, index_insert_ids. rewrite addresses_cons, elem_of_cons. naive_solver.
Qed.

Lemma index_removes_ids id ts index a id' :
  id' ∈ index_ids (foldl (index_remove id) index ts) a ↔
  id' ∈ index_ids index a ∧ ¬ (id' = id ∧ a ∈ addresses ts).
Proof.
  revert index. induction ts as [|t ts IH]; intros index; cbn [foldl].
  { set_solver. }
  rewrite IH, index_remove_ids. rewrite addresses_cons, elem_of_cons. naive_solver.
Qed.

Lemma index_inserts_nonempty id ts index :
  no_empty_set index → no_empty_set (foldl (index_insert id) index ts).
Proof.
  revert index. induction ts as [|t ts IH]; intros index Hi; [done|].
  apply IH. intros a ids. unfold index_insert.
  destruct (decide (a = token_address t)) as [->|].
  - rewrite lookup_insert_eq. intros [= <-]. set_solver.
  - rewrite lookup_insert_ne by done. apply Hi.
Qed.

Lemma index_removes_nonempty id ts index :
  no_empty_set index → no_empty_set (foldl (index_remove id) index ts).
Proof.
  revert index. induction ts as [|t ts IH]; intros index Hi; [done|].
  apply IH. intros a ids. unfold index_remove.
  destruct (index !! token_address t) as [ids'|] eqn:E; [|apply Hi].
  case_bool_decide as Hids; (destruct (decide (a = token_address t)) as [->|]);
    rewrite ?lookup_delete_eq, ?lookup_insert_eq;
    rewrite ?lookup_delete_ne, ?lookup_insert_ne by done; [done|apply Hi| |apply Hi].
  intros [= <-]. done.
Qed.

Lemma or_insert_tokens_dom ts (m : gmap Bytes Token) a :
  is_Some (foldl or_insert_token m ts !! a) ↔ is_Some (m !! a) ∨ a ∈ addresses ts.
Proof.
  revert m. induction ts as [|t ts IH]; intros m; cbn [foldl].
  { set_solver. }
  rewrite IH. rewrite addresses_cons, elem_of_cons. unfold or_insert_token.
  destruct (m !! token_address t) eqn:E; [naive_solver|].
  destruct (decide (a = token_address t)) as [->|].
  - rewrite lookup_insert_eq, E. split; [by auto|]. by intros _; left.
  - rewrite lookup_insert_ne by done. naive_solver.
Qed.

(** The first of two tokens with one address stays. *)
Lemma or_insert_tokens_keep ts (m : gmap Bytes Token) a t :
  m !! a = Some t → foldl or_insert_token m ts !! a = Some t.
Proof.
  revert m. induction ts as [|t' ts IH]; intros m Hm; [done|].
  apply IH. unfold or_insert_token. destruct (m !! token_address t') eqn:E; [done|].
  rewrite lookup_insert_ne; [done|congruence].
Qed.
End index.

(** ** The invariant *)

Section invariant.
Context `{TychoTokens}.

Abbreviation pool_of := pool_by_id_from_published.

(** The indexes describe the shards. *)
Record pools_wf (p : PublishedStateStore) : Prop := {
  wf_shards : ∀ kind, is_Some (ps_shards p !! kind);
  wf_known : ∀ id, is_Some (ps_id_to_kind p !! id) → is_Some (pool_of p id);
  wf_indexed : ∀ id e a, pool_of p id = Some e → a ∈ addresses (component_tokens e.2) →
    id ∈ index_ids (ps_token_index p) a;
  wf_index_nonempty : no_empty_set (ps_token_index p);
}.

(** The tokens of every pool are in the cache, or about to be. *)
Definition shard_of (p : PublishedStateStore) (kind : ProtocolKind) (id : string) :
    option PoolEntry :=
  shard ← ps_shards p !! kind; shard !! id.

Definition tokens_cover (p : PublishedStateStore) (extra : list Token) : Prop :=
  ∀ kind id e a, shard_of p kind id = Some e → a ∈ addresses (component_tokens e.2) →
    is_Some (ps_tokens p !! a) ∨ a ∈ addresses extra.

Record published_wf (p : PublishedStateStore) : Prop := {
  pw_pools : pools_wf p;
  pw_tokens : tokens_cover p [];
  pw_ready : ps_ready p = bool_decide (0 < size (ps_id_to_kind p))%nat;
  pw_requests : ps_requests_allowed p = true → ps_ready p = true;
}.

Lemma pool_of_kind p id e :
  pool_of p id = Some e ↔
  ∃ kind shard, ps_id_to_kind p !! id = Some kind ∧ ps_shards p !! kind = Some shard ∧
    shard !! id = Some e.
Proof.
  unfold pool_by_id_from_published.
  destruct (ps_id_to_kind p !! id) as [kind|]; simpl; [|naive_solver].
  destruct (ps_shards p !! kind) as [shard|] eqn:E; simpl; naive_solver.
Qed.

Lemma shard_of_insert p kind shard id e ik ix kind' id' :
  ps_shards p !! kind = Some shard →
  shard_of (set_pools (<[kind := <[id := e]> shard]> (ps_shards p)) ik ix p) kind' id' =
  if decide (kind' = kind ∧ id' = id) then Some e else shard_of p kind' id'.
Proof.
  intros Hs. unfold shard_of. cbn [set_pools ps_shards].
  destruct (decide (kind' = kind)) as [->|].
  - rewrite lookup_insert_eq, Hs. cbn. destruct (decide (id' = id)) as [->|].
    + by rewrite lookup_insert_eq, decide_True.
    + rewrite lookup_insert_ne, decide_False; naive_solver.
  - rewrite lookup_insert_ne, decide_False; naive_solver.
Qed.

Lemma shard_of_delete p kind shard id ik ix kind' id' :
  ps_shards p !! kind = Some shard →
  shard_of (set_pools (<[kind := delete id shard]> (ps_shards p)) ik ix p) kind' id' =
  if decide (kind' = kind ∧ id' = id) then None else shard_of p kind' id'.
Proof.
  intros Hs. unfold shard_of. cbn [set_pools ps_shards].
  destruct (decide (kind' = kind)) as [->|].
  - rewrite lookup_insert_eq, Hs. cbn. destruct (decide (id' = id)) as [->|].
    + by rewrite lookup_delete_eq, decide_True.
    + rewrite lookup_delete_ne, decide_False; naive_solver.
  - rewrite lookup_insert_ne, decide_False; naive_solver.
Qed.

Lemma pool_of_shard p id :
  pool_of p id = kind ← ps_id_to_kind p !! id; shard_of p kind id.
Proof. done. Qed.

Lemma pool_of_known p id : is_Some (pool_of p id) → is_Some (ps_id_to_kind p !! id).
Proof. intros [e (kind & ? & ? & _)%pool_of_kind]. eauto. Qed.

Lemma wf_lookup p id kind :
  pools_wf p → ps_id_to_kind p !! id = Some kind →
  ∃ shard e, ps_shards p !! kind = Some shard ∧ shard !! id = Some e ∧ pool_of p id = Some e.
Proof.
  intros Hwf Hk. destruct (wf_known _ Hwf id) as [e He]; [by eexists|].
  assert (Hp := He). apply pool_of_kind in Hp as (kind' & shard & ? & ? & ?). naive_solver.
Qed.

(** The map of pools after one entry is written or removed. *)
Lemma pool_of_insert p id kind shard e index id' :
  ps_shards p !! kind = Some shard →
  pool_of (set_pools (<[kind := <[id := e]> shard]> (ps_shards p))
             (<[id := kind]> (ps_id_to_kind p)) index p) id' =
  if decide (id' = id) then Some e else pool_of p id'.
Proof.
  intros Hs. unfold pool_by_id_from_published. cbn [set_pools ps_shards ps_id_to_kind].
  case_decide as Hid; [subst|].
  - rewrite lookup_insert_eq. cbn. rewrite lookup_insert_eq. cbn. by rewrite lookup_insert_eq.
  - rewrite lookup_insert_ne by done. destruct (ps_id_to_kind p !! id') as [kind'|]; cbn; [|done].
    destruct (decide (kind' = kind)) as [->|]; [|by rewrite lookup_insert_ne by done].
    rewrite lookup_insert_eq, Hs. cbn. by rewrite lookup_insert_ne.
Qed.

Lemma pool_of_update p id kind shard e index id' :
  ps_id_to_kind p !! id = Some kind → ps_shards p !! kind = Some shard →
  pool_of (set_pools (<[kind := <[id := e]> shard]> (ps_shards p))
             (ps_id_to_kind p) index p) id' =
  if decide (id' = id) then Some e else pool_of p id'.
Proof.
  intros Hk Hs. rewrite <- (pool_of_insert p id kind shard e index id') by done.
  by rewrite (insert_id (ps_id_to_kind p) id kind).
Qed.

Lemma pool_of_delete p id kind shard index id' :
  ps_shards p !! kind = Some shard →
  pool_of (set_pools (<[kind := delete id shard]> (ps_shards p))
             (delete id (ps_id_to_kind p)) index p) id' =
  if decide (id' = id) then None else pool_of p id'.
Proof.
  intros Hs. unfold pool_by_id_from_published. cbn [set_pools ps_shards ps_id_to_kind].
  case_decide as Hid; [subst|].
  - by rewrite lookup_delete_eq.
  - rewrite lookup_delete_ne by done. destruct (ps_id_to_kind p !! id') as [kind'|]; cbn; [|done].
    destruct (decide (kind' = kind)) as [->|]; [|by rewrite lookup_insert_ne by done].
    rewrite lookup_insert_eq, Hs. cbn. by rewrite lookup_delete_ne.
Qed.

Lemma pool_of_index p index id :
  pool_of (set_pools (ps_shards p) (ps_id_to_kind p) index p) id = pool_of p id.
Proof. done. Qed.

Lemma shards_insert (shards : gmap ProtocolKind (gmap string PoolEntry)) kind shard k :
  (∀ k, is_Some (shards !! k)) → is_Some (<[kind := shard]> shards !! k).
Proof.
  intros Hs. destruct (decide (k = kind)) as [->|].
  - rewrite lookup_insert_eq. by eexists.
  - by rewrite lookup_insert_ne.
Qed.

(** The three writes keep the invariant. *)
Lemma pools_wf_insert p id kind shard st c :
  pools_wf p → ps_shards p !! kind = Some shard →
  pools_wf (set_pools (<[kind := <[id := (st, c)]> shard]> (ps_shards p))
              (<[id := kind]> (ps_id_to_kind p))
              (foldl (index_insert id) (ps_token_index p) (component_tokens c)) p).
Proof.
  intros [Hsh Hkn Hix Hne] Hs. split.
  - intros k. by apply shards_insert.
  - intros id' Hid'. rewrite pool_of_insert by done. case_decide as E; [by eexists|].
    apply Hkn. cbn in Hid'. by rewrite lookup_insert_ne in Hid' by done.
  - intros id' e a. rewrite pool_of_insert by done. cbn [set_pools ps_token_index].
    rewrite index_inserts_ids. case_decide as E; [naive_solver|]. intros He Ha.
    left. by eapply Hix.
  - by apply index_inserts_nonempty.
Qed.

Lemma pools_wf_update p id kind shard st st' c :
  pools_wf p → ps_id_to_kind p !! id = Some kind → ps_shards p !! kind = Some shard →
  shard !! id = Some (st, c) →
  pools_wf (set_pools (<[kind := <[id := (st', c)]> shard]> (ps_shards p))
              (ps_id_to_kind p) (ps_token_index p) p).
Proof.
  intros [Hsh Hkn Hix Hne] Hk Hs He. split.
  - intros k. by apply shards_insert.
  - intros id' Hid'. rewrite (pool_of_update p id kind) by done.
    case_decide; [by eexists|by apply Hkn].
  - intros id' e a. rewrite (pool_of_update p id kind) by done.
    case_decide as E; [subst|apply Hix]. intros [= <-]. apply (Hix id (st, c)).
    apply pool_of_kind. eauto.
  - done.
Qed.

Lemma pools_wf_delete p id kind shard c :
  pools_wf p → ps_shards p !! kind = Some shard →
  pools_wf (set_pools (<[kind := delete id shard]> (ps_shards p))
              (delete id (ps_id_to_kind p))
              (foldl (index_remove id) (ps_token_index p) (component_tokens c)) p).
Proof.
  intros [Hsh Hkn Hix Hne] Hs. split.
  - intros k. by apply shards_insert.
  - intros id' Hid'. rewrite pool_of_delete by done. cbn in Hid'.
    case_decide as E; [subst; by rewrite lookup_delete_eq in Hid'; destruct Hid'|].
    apply Hkn. by rewrite lookup_delete_ne in Hid' by done.
  - intros id' e a. rewrite pool_of_delete by done. case_decide; [done|].
    intros He Ha. cbn [set_pools ps_token_index]. rewrite index_removes_ids.
    split; [by eapply Hix|naive_solver].
  - by apply index_removes_nonempty.
Qed.

Lemma pools_wf_index_remove p id ts :
  pools_wf p → ps_id_to_kind p !! id = None →
  pools_wf (set_pools (ps_shards p) (ps_id_to_kind p)
              (foldl (index_remove id) (ps_token_index p) ts) p).
Proof.
  intros [Hsh Hkn Hix Hne] Hk. split; [done|done| |by apply index_removes_nonempty].
  intros id' e a He Ha. cbn [set_pools ps_token_index]. rewrite index_removes_ids.
  split; [by eapply Hix|]. intros [-> _].
  destruct (pool_of_known p id) as [k ?]; [by eexists|congruence].
Qed.
End invariant.

(** ** The loops *)

Section loops.
Context `{TychoTokens}.

Abbreviation pool_of := pool_by_id_from_published.

(** Only the pools and their indexes differ. *)
Definition pools_only (p p' : PublishedStateStore) : Prop :=
  ∃ shards id_to_kind index, p' = set_pools shards id_to_kind index p.

#[export] Instance pools_only_preorder : PreOrder pools_only.
Proof.
  split.
  - intros p. exists (ps_shards p), (ps_id_to_kind p), (ps_token_index p). by destruct p.
  - intros p p1 p2 (? & ? & ? & ->) (? & ? & ? & ->). do 3 eexists. done.
Qed.

Lemma pools_only_set p a b c : pools_only p (set_pools a b c p).
Proof. by do 3 eexists. Qed.

(** The number of anomalies counted, and the samples kept of them. *)
Definition anomalies (ua : UpdateAccumulator) : nat :=
  ua_new_pairs_missing_state ua + ua_unknown_protocol_new_pairs ua
  + ua_updates_for_unknown_pair ua + ua_states_missing_in_shard ua
  + ua_removed_unknown_pair ua.

Definition samples_ok (ua : UpdateAccumulator) : Prop :=
  length (ua_anomaly_samples ua) = (UPDATE_ANOMALY_SAMPLE_CAP `min` anomalies ua)%nat.

Lemma add_anomaly_sample_length samples kind value n :
  length samples = (UPDATE_ANOMALY_SAMPLE_CAP `min` n)%nat →
  length (add_anomaly_sample samples kind value) =
  (UPDATE_ANOMALY_SAMPLE_CAP `min` S n)%nat.
Proof.
  unfold add_anomaly_sample, UPDATE_ANOMALY_SAMPLE_CAP. intros E.
  case_bool_decide; rewrite ?length_app; cbn [length]; lia.
Qed.

Lemma record_anomaly_total a value ua : anomalies (record_anomaly a value ua) = S (anomalies ua).
Proof. unfold anomalies. destruct a; cbn; lia. Qed.

Lemma record_anomaly_samples a value ua :
  samples_ok ua → samples_ok (record_anomaly a value ua).
Proof.
  unfold samples_ok. intros E. rewrite record_anomaly_total.
  by apply add_anomaly_sample_length.
Qed.

(** A new pair enters the store with its state when its protocol is known. *)
Definition admitted (news : hashmap ProtocolComponent) (states : hashmap ProtocolSim)
    (id : string) : option PoolEntry :=
  match hm_get id news, hm_get id states with
  | Some c, Some s =>
      if bool_decide (is_Some (ProtocolKind_from_component c)) then Some (s, c) else None
  | _, _ => None
  end.

(** What holds after the first loop. *)
Record new_pairs_done (p : PublishedStateStore) (news : hashmap ProtocolComponent)
    (states : hashmap ProtocolSim) (ua : UpdateAccumulator)
    (p' : PublishedStateStore) (states' : hashmap ProtocolSim) (ua' : UpdateAccumulator) :
    Prop := {
  np_frame : pools_only p p';
  np_wf : pools_wf p';
  np_cover : tokens_cover p' (ua_tokens_to_cache ua');
  np_nodup : NoDup states'.*1;
  np_pools : ∀ id, pool_of p' id = match admitted news states id with
                                   | Some e => Some e
                                   | None => pool_of p id
                                   end;
  np_states : ∀ id, hm_get id states' = match admitted news states id with
                                        | Some _ => None
                                        | None => hm_get id states
                                        end;
  np_pairs : (ua_new_pairs_count ua' + ua_new_pairs_missing_state ua'
              + ua_unknown_protocol_new_pairs ua'
              = ua_new_pairs_count ua + ua_new_pairs_missing_state ua
                + ua_unknown_protocol_new_pairs ua + length news)%nat;
  np_consumed : (ua_new_pairs_count ua' + length states'
                 = ua_new_pairs_count ua + length states)%nat;
  np_others : ua_updated_states ua' = ua_updated_states ua ∧
    ua_updates_for_unknown_pair ua' = ua_updates_for_unknown_pair ua ∧
    ua_states_missing_in_shard ua' = ua_states_missing_in_shard ua ∧
    ua_removed_pairs_count ua' = ua_removed_pairs_count ua ∧
    ua_removed_unknown_pair ua' = ua_removed_unknown_pair ua;
  np_samples : samples_ok ua → samples_ok ua';
}.

Lemma admitted_nil states id : admitted [] states id = None.
Proof. done. Qed.

Lemma admitted_one id c states id' :
  admitted [(id, c)] states id' =
  if decide (id' = id) then
    match hm_get id states with
    | Some s =>
        if bool_decide (is_Some (ProtocolKind_from_component c)) then Some (s, c) else None
    | None => None
    end
  else None.
Proof.
  unfold admitted. cbn [hm_get]. destruct (String.eqb_spec id' id) as [->|?].
  - by rewrite decide_True.
  - by rewrite decide_False.
Qed.

Lemma apply_new_pair_done p id c states ua :
  pools_wf p → tokens_cover p (ua_tokens_to_cache ua) → NoDup states.*1 →
  let '(p', states', ua') := apply_new_pair (p, states, ua) (id, c) in
  new_pairs_done p [(id, c)] states ua p' states' ua'.
Proof.
  intros Hwf Hcov Hnd. cbn [apply_new_pair].
  assert (Hskip : ∀ a, admitted [(id, c)] states id = None →
    a = NewPairMissingStateAnomaly ∨ a = UnknownProtocolAnomaly →
    new_pairs_done p [(id, c)] states ua p states (record_anomaly a id ua)).
  { intros a Ha Hk.
    assert (Hn : ∀ id', admitted [(id, c)] states id' = None).
    { intros id'. destruct (decide (id' = id)) as [->|Hne]; [done|].
      by rewrite admitted_one, decide_False. }
    split; try done; try (intros id'; by rewrite Hn); try by apply record_anomaly_samples.
    - by destruct Hk as [-> | ->]; cbn; lia.
    - by destruct Hk as [-> | ->]. }
  assert (Hadm := admitted_one id c states id). rewrite decide_True in Hadm by done.
  destruct (ProtocolKind_from_component c) as [kind|]; [|apply Hskip; [|by right]].
  2:{ rewrite Hadm. by destruct (hm_get id states). }
  destruct (hm_get id states) as [s|] eqn:Es; [|apply Hskip; [done|by left]].
  destruct (wf_shards _ Hwf kind) as [shard Hs]. rewrite Hs.
  rewrite bool_decide_eq_true_2 in Hadm by eauto.
  assert (Hn : ∀ id', admitted [(id, c)] states id' =
            if decide (id' = id) then Some (s, c) else None).
  { intros id'. case_decide; [by subst|]. by rewrite admitted_one, decide_False. }
  split.
  - apply pools_only_set.
  - by apply pools_wf_insert.
  - intros kind' id' e a. rewrite shard_of_insert by done. cbn [set_pools ps_tokens
      count_new_pair ua_tokens_to_cache]. unfold addresses. rewrite fmap_app, elem_of_app.
    case_decide; [naive_solver|]. intros He Ha. destruct (Hcov kind' id' e a He Ha); auto.
  - by apply hm_remove_NoDup.
  - intros id'. rewrite Hn, pool_of_insert by done. by case_decide.
  - intros id'. rewrite Hn, hm_get_remove. by case_decide.
  - cbn. lia.
  - cbn. rewrite (hm_remove_length id states s) by done. lia.
  - done.
  - done.
Qed.

Lemma admitted_cons id c news states states' id' :
  id ∉ news.*1 →
  (∀ i, hm_get i states' = match admitted [(id, c)] states i with
                           | Some _ => None | None => hm_get i states end) →
  admitted ((id, c) :: news) states id' =
  match admitted [(id, c)] states id' with
  | Some e => Some e
  | None => admitted news states' id'
  end.
Proof.
  intros Hnin Hst. unfold admitted at 3. rewrite Hst. rewrite !admitted_one.
  unfold admitted. cbn [hm_get].
  destruct (String.eqb_spec id' id) as [->|Hne].
  - rewrite decide_True by done. apply hm_get_None in Hnin as ->.
    by repeat case_match.
  - rewrite decide_False by done. done.
Qed.

Lemma apply_new_pairs_done news p states ua :
  pools_wf p → tokens_cover p (ua_tokens_to_cache ua) → NoDup states.*1 → NoDup news.*1 →
  let '(p', states', ua') := apply_new_pairs p news states ua in
  new_pairs_done p news states ua p' states' ua'.
Proof.
  unfold apply_new_pairs.
  induction news as [|[id c] news IH] in p, states, ua |- *; intros Hwf Hcov Hnd Hnews.
  { cbn. split; try done; cbn; lia. }
  apply NoDup_cons in Hnews as [Hnin Hnews]. cbn [fst] in Hnin. cbn [foldl].
  assert (Hone := apply_new_pair_done p id c states ua Hwf Hcov Hnd).
  destruct (apply_new_pair (p, states, ua) (id, c)) as [[p1 states1] ua1].
  destruct Hone as [Hf1 Hw1 Hc1 Hn1 Hp1 Hs1 Hnum1 Hcon1 Hoth1 Hsam1].
  specialize (IH p1 states1 ua1 Hw1 Hc1 Hn1 Hnews).
  destruct (foldl apply_new_pair (p1, states1, ua1) news) as [[p2 states2] ua2].
  destruct IH as [Hf2 Hw2 Hc2 Hn2 Hp2 Hs2 Hnum2 Hcon2 Hoth2 Hsam2].
  split; try done; try (cbn [length] in *; lia).
  - by etransitivity.
  - intros i. rewrite Hp2, Hp1, (admitted_cons id c news states states1 i Hnin Hs1).
    destruct (admitted [(id, c)] states i) eqn:E; [|done].
    assert (i = id) as ->.
    { rewrite admitted_one in E. by case_decide. }
    unfold admitted. by apply hm_get_None in Hnin as ->.
  - intros i. rewrite Hs2, Hs1, (admitted_cons id c news states states1 i Hnin Hs1).
    destruct (admitted [(id, c)] states i) eqn:E; [|done]. by case_match.
  - naive_solver congruence.
Qed.

(** After the second loop. *)
Definition restated (states : hashmap ProtocolSim) (id : string) (old : option PoolEntry) :
    option PoolEntry :=
  match hm_get id states with
  | Some s => (λ e : PoolEntry, (s, e.2)) <$> old
  | None => old
  end.

Record updates_done (p : PublishedStateStore) (states : hashmap ProtocolSim)
    (ua : UpdateAccumulator) (p' : PublishedStateStore) (ua' : UpdateAccumulator) : Prop := {
  su_frame : pools_only p p';
  su_wf : pools_wf p';
  su_tokens : ua_tokens_to_cache ua' = ua_tokens_to_cache ua;
  su_cover : tokens_cover p' (ua_tokens_to_cache ua');
  su_kinds : ps_id_to_kind p' = ps_id_to_kind p;
  su_pools : ∀ id, pool_of p' id = restated states id (pool_of p id);
  su_count : (ua_updated_states ua' + ua_updates_for_unknown_pair ua'
              = ua_updated_states ua + ua_updates_for_unknown_pair ua + length states)%nat;
  su_others : ua_new_pairs_count ua' = ua_new_pairs_count ua ∧
    ua_new_pairs_missing_state ua' = ua_new_pairs_missing_state ua ∧
    ua_unknown_protocol_new_pairs ua' = ua_unknown_protocol_new_pairs ua ∧
    ua_states_missing_in_shard ua' = ua_states_missing_in_shard ua ∧
    ua_removed_pairs_count ua' = ua_removed_pairs_count ua ∧
    ua_removed_unknown_pair ua' = ua_removed_unknown_pair ua;
  su_samples : samples_ok ua → samples_ok ua';
}.

Lemma restated_one id s id' old :
  restated [(id, s)] id' old =
  if decide (id' = id) then (λ e : PoolEntry, (s, e.2)) <$> old else old.
Proof.
  unfold restated. cbn [hm_get]. destruct (String.eqb_spec id' id) as [->|?].
  - by rewrite decide_True.
  - by rewrite decide_False.
Qed.

Lemma restated_cons id s states id' old :
  id ∉ states.*1 →
  restated ((id, s) :: states) id' old = restated states id' (restated [(id, s)] id' old).
Proof.
  intros Hnin. rewrite restated_one. unfold restated. cbn [hm_get].
  destruct (String.eqb_spec id' id) as [->|Hne].
  - rewrite decide_True by done. by apply hm_get_None in Hnin as ->.
  - by rewrite decide_False.
Qed.

Lemma apply_state_update_done p id s ua :
  pools_wf p → tokens_cover p (ua_tokens_to_cache ua) →
  let '(p', ua') := apply_state_update (p, ua) (id, s) in
  updates_done p [(id, s)] ua p' ua'.
Proof.
  intros Hwf Hcov. cbn [apply_state_update].
  destruct (ps_id_to_kind p !! id) as [kind|] eqn:Ek.
  - destruct (wf_lookup p id kind Hwf Ek) as (shard & [s0 c] & Hs & He & Hp). rewrite Hs, He.
    split.
    + apply pools_only_set.
    + by eapply pools_wf_update.
    + done.
    + intros kind' id' e a. rewrite shard_of_insert by done.
      case_decide as E; [|apply Hcov]. destruct E as [-> ->]. intros [= <-].
      apply (Hcov kind id (s0, c)). unfold shard_of. by rewrite Hs.
    + done.
    + intros id'. rewrite restated_one, (pool_of_update p id kind) by done.
      case_decide; [subst; by rewrite Hp|done].
    + cbn. lia.
    + done.
    + done.
  - split; try done.
    + intros id'. rewrite restated_one. case_decide as E; [subst|done].
      unfold pool_by_id_from_published. by rewrite Ek.
    + cbn. lia.
    + apply record_anomaly_samples.
Qed.

Lemma apply_state_updates_done states p ua :
  pools_wf p → tokens_cover p (ua_tokens_to_cache ua) → NoDup states.*1 →
  let '(p', ua') := apply_state_updates p states ua in updates_done p states ua p' ua'.
Proof.
  unfold apply_state_updates.
  induction states as [|[id s] states IH] in p, ua |- *; intros Hwf Hcov Hnd.
  { cbn. split; try done; cbn; lia. }
  apply NoDup_cons in Hnd as [Hnin Hnd]. cbn [fst] in Hnin. cbn [foldl].
  assert (Hone := apply_state_update_done p id s ua Hwf Hcov).
  destruct (apply_state_update (p, ua) (id, s)) as [p1 ua1].
  destruct Hone as [Hf1 Hw1 Ht1 Hc1 Hk1 Hp1 Hnum1 Hoth1 Hsam1].
  specialize (IH p1 ua1 Hw1 Hc1 Hnd).
  destruct (foldl apply_state_update (p1, ua1) states) as [p2 ua2].
  destruct IH as [Hf2 Hw2 Ht2 Hc2 Hk2 Hp2 Hnum2 Hoth2 Hsam2].
  split; try done; try (cbn [length] in *; lia); try congruence.
  - by etransitivity.
  - intros i. by rewrite Hp2, Hp1, <- restated_cons.
  - auto.
Qed.

(** After the third. *)
Record removals_done (p : PublishedStateStore) (removed : hashmap ProtocolComponent)
    (ua : UpdateAccumulator) (p' : PublishedStateStore) (ua' : UpdateAccumulator) : Prop := {
  rp_frame : pools_only p p';
  rp_wf : pools_wf p';
  rp_tokens : ua_tokens_to_cache ua' = ua_tokens_to_cache ua;
  rp_cover : tokens_cover p' (ua_tokens_to_cache ua');
  rp_pools : ∀ id, pool_of p' id = if decide (id ∈ removed.*1) then None else pool_of p id;
  rp_count : (ua_removed_pairs_count ua' + ua_removed_unknown_pair ua'
              = ua_removed_pairs_count ua + ua_removed_unknown_pair ua + length removed)%nat;
  rp_others : ua_new_pairs_count ua' = ua_new_pairs_count ua ∧
    ua_new_pairs_missing_state ua' = ua_new_pairs_missing_state ua ∧
    ua_unknown_protocol_new_pairs ua' = ua_unknown_protocol_new_pairs ua ∧
    ua_states_missing_in_shard ua' = ua_states_missing_in_shard ua ∧
    ua_updated_states ua' = ua_updated_states ua ∧
    ua_updates_for_unknown_pair ua' = ua_updates_for_unknown_pair ua;
  rp_samples : samples_ok ua → samples_ok ua';
}.

Lemma apply_removed_pair_done p id c ua :
  pools_wf p → tokens_cover p (ua_tokens_to_cache ua) →
  let '(p', ua') := apply_removed_pair (p, ua) (id, c) in
  removals_done p [(id, c)] ua p' ua'.
Proof.
  intros Hwf Hcov. cbn [apply_removed_pair].
  assert (Hone : ∀ id' (old : option PoolEntry),
    (if decide (id' ∈ [(id, c)].*1) then None else old) =
    if decide (id' = id) then None else old).
  { intros id' old. cbn [fmap list_fmap fst].
    destruct (decide (id' = id)) as [->|Hne].
    - by rewrite decide_True by set_solver.
    - by rewrite decide_False by set_solver. }
  destruct (ps_id_to_kind p !! id) as [kind|] eqn:Ek.
  - destruct (wf_lookup p id kind Hwf Ek) as (shard & [s0 c0] & Hs & He & Hp). rewrite Hs.
    split.
    + apply pools_only_set.
    + by apply pools_wf_delete.
    + done.
    + intros kind' id' e a. rewrite shard_of_delete by done. case_decide; [done|]. apply Hcov.
    + intros id'. by rewrite Hone, pool_of_delete.
    + cbn. lia.
    + done.
    + done.
  - split; try done.
    + apply pools_only_set.
    + by apply pools_wf_index_remove.
    + intros id'. rewrite Hone. case_decide as E; [subst|done].
      unfold pool_by_id_from_published. cbn. by rewrite Ek.
    + cbn. lia.
    + apply record_anomaly_samples.
Qed.

Lemma apply_removed_pairs_done removed p ua :
  pools_wf p → tokens_cover p (ua_tokens_to_cache ua) →
  let '(p', ua') := apply_removed_pairs p removed ua in removals_done p removed ua p' ua'.
Proof.
  unfold apply_removed_pairs.
  induction removed as [|[id c] removed IH] in p, ua |- *; intros Hwf Hcov.
  { cbn. split; try done; cbn; lia. }
  cbn [foldl]. assert (Hone := apply_removed_pair_done p id c ua Hwf Hcov).
  destruct (apply_removed_pair (p, ua) (id, c)) as [p1 ua1].
  destruct Hone as [Hf1 Hw1 Ht1 Hc1 Hp1 Hnum1 Hoth1 Hsam1].
  specialize (IH p1 ua1 Hw1 Hc1).
  destruct (foldl apply_removed_pair (p1, ua1) removed) as [p2 ua2].
  destruct IH as [Hf2 Hw2 Ht2 Hc2 Hp2 Hnum2 Hoth2 Hsam2].
  split; try done; try (cbn [length] in *; lia); try congruence.
  - by etransitivity.
  - intros i. rewrite Hp2, Hp1. cbn [fmap list_fmap fst].
    repeat case_decide; set_solver.
  - auto.
Qed.
End loops.

(** ** A whole update *)

Section update.
Context `{TychoTokens}.

Abbreviation pool_of := pool_by_id_from_published.

(** The three maps of an update have distinct keys. *)
Definition update_maps (u : TychoUpdate) : Prop :=
  NoDup (tu_new_pairs u).*1 ∧ NoDup (tu_states u).*1 ∧ NoDup (tu_removed_pairs u).*1.

(** What an update does to one identifier. *)
Definition updated_pool (u : TychoUpdate) (id : string) (old : option PoolEntry) :
    option PoolEntry :=
  if decide (id ∈ (tu_removed_pairs u).*1) then None
  else
    match admitted (tu_new_pairs u) (tu_states u) id with
    | Some e => Some e
    | None => restated (tu_states u) id old
    end.

(** What it reports. *)
Record metrics_ok (u : TychoUpdate) (total : nat) (m : UpdateMetrics) : Prop := {
  mo_block : um_block_number m = tu_block_number_or_timestamp u;
  mo_total : um_total_pairs m = total;
  mo_pairs : (um_new_pairs m + um_new_pairs_missing_state m
              + um_unknown_protocol_new_pairs m)%nat = length (tu_new_pairs u);
  mo_states : (um_new_pairs m + um_updated_states m
               + um_updates_for_unknown_pair m)%nat = length (tu_states u);
  mo_removed : (um_removed_pairs m + um_removed_unknown_pair m)%nat
               = length (tu_removed_pairs u);
  mo_shards : um_states_missing_in_shard m = 0%nat;
  mo_samples : length (um_anomaly_samples m) =
    (UPDATE_ANOMALY_SAMPLE_CAP `min`
       (um_new_pairs_missing_state m + um_unknown_protocol_new_pairs m
        + um_updates_for_unknown_pair m + um_removed_unknown_pair m))%nat;
}.

(** What the whole update guarantees. *)
Record update_done (u : TychoUpdate) (current : PublishedStateStore) (version : u64)
    (s : StateStore) (m : UpdateMetrics) (s' : StateStore) : Prop := {
  ud_wf : published_wf (ss_published s');
  ud_pools : ∀ id, pool_of (ss_published s') id = updated_pool u id (pool_of current id);
  ud_version : ps_version (ss_published s') = version;
  ud_block : ps_block_number (ss_published s') = tu_block_number_or_timestamp u;
  ud_requests : ps_requests_allowed (ss_published s') = ps_ready (ss_published s');
  ud_tokens : ∀ a t, ps_tokens current !! a = Some t →
    ps_tokens (ss_published s') !! a = Some t;
  ud_wrapped : ps_wrapped_native_token (ss_published s') = ps_wrapped_native_token current;
  ud_generation : ps_request_generation (ss_published s') =
    saturating_add (ps_request_generation (ss_published s)) 1;
  ud_metrics : metrics_ok u (total_states (ss_published s')) m;
}.

(** The pools and their indexes are those of the loops; the rest is rewritten. *)
Lemma pools_wf_proper p p' :
  ps_shards p' = ps_shards p → ps_id_to_kind p' = ps_id_to_kind p →
  ps_token_index p' = ps_token_index p → pools_wf p → pools_wf p'.
Proof.
  destruct p, p'. cbn. intros -> -> ->. intros [Hsh Hkn Hix Hne]. by split.
Qed.

Lemma tokens_cover_cached p p' extra :
  ps_shards p' = ps_shards p →
  ps_tokens p' = foldl or_insert_token (ps_tokens p) extra →
  tokens_cover p extra → tokens_cover p' [].
Proof.
  unfold tokens_cover, shard_of. intros -> -> Hc kind id e a He Ha. left.
  apply or_insert_tokens_dom. by eapply Hc.
Qed.

Lemma apply_update_locked_done u current version tokens s :
  pools_wf current → tokens_cover current [] → update_maps u →
  let '(m, _, s') := apply_update_locked u current version tokens s in
  update_done u current version s m s'.
Proof.
  intros Hwf Hcov (Hnew & Hst & Hrem). unfold apply_update_locked.
  set (p0 := set_block_number _ _).
  assert (Hw0 : pools_wf p0) by (by apply (pools_wf_proper current)).
  assert (H1 := apply_new_pairs_done (tu_new_pairs u) p0 (tu_states u)
    UpdateAccumulator_default Hw0 Hcov Hst Hnew).
  destruct (apply_new_pairs _ _ _ _) as [[p1 st1] ua1].
  destruct H1 as [(?&?&?& ->) Hw1 Hc1 Hn1 Hp1 Hs1 Hnum1 Hcon1 Hoth1 Hsam1].
  set (p1 := set_pools _ _ _ p0) in *.
  assert (H2 := apply_state_updates_done st1 p1 ua1 Hw1 Hc1 Hn1).
  destruct (apply_state_updates _ _ _) as [p2 ua2].
  destruct H2 as [(?&?&?& ->) Hw2 Ht2 Hc2 Hk2 Hp2 Hnum2 Hoth2 Hsam2].
  set (p2 := set_pools _ _ _ p1) in *.
  assert (H3 := apply_removed_pairs_done (tu_removed_pairs u) p2 ua2 Hw2 Hc2).
  destruct (apply_removed_pairs _ _ _) as [p3 ua3].
  destruct H3 as [(?&?&?& ->) Hw3 Ht3 Hc3 Hp3 Hnum3 Hoth3 Hsam3].
  set (p3 := set_pools _ _ _ p2) in *.
  cbn in Hnum1, Hcon1, Hoth1.
  split.
  - split; [by apply (pools_wf_proper p3)| |done|done].
    by apply (tokens_cover_cached p3 _ (ua_tokens_to_cache ua3)).
  - intros id. change (pool_of p3 id = updated_pool u id (pool_of p0 id)).
    rewrite Hp3, Hp2, Hp1. unfold updated_pool. case_decide; [done|].
    unfold restated at 1. rewrite Hs1. by destruct (admitted _ _ id).
  - done.
  - done.
  - done.
  - intros a t Ha. by apply or_insert_tokens_keep.
  - done.
  - done.
  - assert (Hz : samples_ok UpdateAccumulator_default) by done.
    apply Hsam1, Hsam2, Hsam3 in Hz. unfold samples_ok, anomalies in Hz.
    split; cbn -[Nat.min UPDATE_ANOMALY_SAMPLE_CAP]; try done; lia.
Qed.
End update.
