(* ===== verification/StoreLife.v ===== *)
(** * The life of a state store

    The operations of [Store] as steps, in any order and with any arguments: the
    invariant of every published state, what an update, a reset and a candidate leave
    behind, the pools found for a pair of tokens, and the generations that let a request
    know whether the state it has pinned is still the published one. *)

From S2P Require Import Prelude Ordered Text Protocol.
From S2P Require Import Wire Validate TychoFeed Store StorePools.

(** ** Rebuilding the indexes *)

Section rebuild.
Context `{TychoTokens, HashOrderLaws}.

Abbreviation pool_of := pool_by_id_from_published.
Abbreviation entry := (ProtocolKind * (string * PoolEntry))%type.

(** The entries of the shards, in the order the loops visit them. *)
Definition visited (shards : gmap ProtocolKind (gmap string PoolEntry)) : list entry :=
  kind_entries shards ≫= λ '(kind, shard), (λ ie, (kind, ie)) <$> hm_entries shard.

Definition visit (x : gmap string ProtocolKind * gmap Bytes (gset string)) (v : entry) :
    gmap string ProtocolKind * gmap Bytes (gset string) :=
  (<[v.2.1 := v.1]> x.1, foldl (index_insert v.2.1) x.2 (component_tokens v.2.2.2)).

Lemma visited_elem shards kind id e :
  (kind, (id, e)) ∈ visited shards ↔
  ∃ shard, shards !! kind = Some shard ∧ shard !! id = Some e.
Proof.
  unfold visited. rewrite list_elem_of_bind. split.
  - intros ([kind' shard] & Hin & Hk).
    apply list_elem_of_fmap in Hin as ([id' e'] & [= -> -> ->] & Hin).
    rewrite hm_entries_perm, elem_of_map_to_list in Hin.
    rewrite kind_entries_perm, elem_of_map_to_list in Hk. eauto.
  - intros (shard & Hk & Hid). exists (kind, shard). split.
    + apply list_elem_of_fmap. exists (id, e).
      by rewrite hm_entries_perm, elem_of_map_to_list.
    + by rewrite kind_entries_perm, elem_of_map_to_list.
Qed.

Lemma rebuild_visit p :
  rebuild_indexes p =
  set_pools (ps_shards p) (foldl visit (∅, ∅) (visited (ps_shards p))).1
    (foldl visit (∅, ∅) (visited (ps_shards p))).2 p.
Proof.
  unfold rebuild_indexes, visited.
  set (f := λ x '(kind, shard), _). set (x0 := (∅, ∅)).
  assert (Hf : ∀ l x, foldl f x l =
    foldl visit x (l ≫= λ '(kind, shard), (λ ie, (kind, ie)) <$> hm_entries shard)).
  { induction l as [|[kind shard] l IH]; intros x; [done|].
    cbn [foldl mbind list_bind]. rewrite foldl_app, IH. f_equal. unfold f.
    generalize (hm_entries shard) as l'. intros l'. revert x.
    induction l' as [|[id e] l' IH']; intros [ik ix]; [done|]. cbn. apply IH'. }
  rewrite Hf. by destruct (foldl visit x0 _).
Qed.

Lemma visits_kinds l x id :
  match (foldl visit x l).1 !! id with
  | Some kind => x.1 !! id = Some kind ∨ ∃ e, (kind, (id, e)) ∈ l
  | None => x.1 !! id = None ∧ ∀ kind e, (kind, (id, e)) ∉ l
  end.
Proof.
  induction l as [|[kind [id' e']] l IH] in x |- *; cbn [foldl].
  { destruct (x.1 !! id); [by left|]. split; [done|]. set_solver. }
  specialize (IH (visit x (kind, (id', e')))). cbn in IH.
  destruct ((foldl visit _ l).1 !! id) as [kind2|].
  - destruct IH as [IH|[e He]]; [|right; exists e; set_solver].
    destruct (decide (id' = id)) as [->|].
    + rewrite lookup_insert_eq in IH. injection IH as [= <-]. right. exists e'. set_solver.
    + rewrite lookup_insert_ne in IH by done. by left.
  - destruct IH as [IH Hl]. apply lookup_insert_None in IH as [IH Hne]. split; [done|].
    intros k e. rewrite elem_of_cons. intros [[= -> -> ->]|Hin]; [done|by eapply Hl].
Qed.

Lemma visits_index l x id a :
  id ∈ index_ids (foldl visit x l).2 a ↔
  id ∈ index_ids x.2 a ∨
  ∃ kind e, (kind, (id, e)) ∈ l ∧ a ∈ addresses (component_tokens e.2).
Proof.
  induction l as [|[kind [id' e']] l IH] in x |- *; cbn [foldl].
  { set_solver. }
  rewrite IH. cbn [visit snd fst]. rewrite index_inserts_ids. setoid_rewrite elem_of_cons.
  naive_solver.
Qed.

Lemma visits_nonempty l x : no_empty_set x.2 → no_empty_set (foldl visit x l).2.
Proof.
  induction l as [|v l IH] in x |- *; [done|]. intros Hx. apply IH.
  by apply index_inserts_nonempty.
Qed.

Lemma index_ids_empty a : index_ids ∅ a = ∅.
Proof. done. Qed.

Lemma rebuild_kind p id kind :
  ps_id_to_kind (rebuild_indexes p) !! id = Some kind → is_Some (shard_of p kind id).
Proof.
  rewrite rebuild_visit. cbn [set_pools ps_id_to_kind]. intros Hk.
  assert (Hv := visits_kinds (visited (ps_shards p)) (∅, ∅) id). rewrite Hk in Hv.
  destruct Hv as [[=]|[e He]].
  apply visited_elem in He as (shard & Hs & He). exists e. unfold shard_of. by rewrite Hs.
Qed.

Lemma rebuild_known p kind id :
  is_Some (shard_of p kind id) → is_Some (ps_id_to_kind (rebuild_indexes p) !! id).
Proof.
  rewrite rebuild_visit. cbn [set_pools ps_id_to_kind]. intros [e He].
  assert (Hv := visits_kinds (visited (ps_shards p)) (∅, ∅) id).
  destruct (_ !! id); [by eexists|]. destruct Hv as [_ Hv].
  destruct (Hv kind e). apply visited_elem. unfold shard_of in He.
  destruct (ps_shards p !! kind) eqn:Es; [|done]. eauto.
Qed.

Lemma rebuild_index p id a :
  id ∈ index_ids (ps_token_index (rebuild_indexes p)) a ↔
  ∃ kind e, shard_of p kind id = Some e ∧ a ∈ addresses (component_tokens e.2).
Proof.
  rewrite rebuild_visit. cbn [set_pools ps_token_index]. rewrite visits_index.
  cbn [snd]. rewrite index_ids_empty. setoid_rewrite visited_elem. split.
  - intros [?|(kind & e & (shard & Hs & He) & Ha)]; [set_solver|].
    exists kind, e. unfold shard_of. by rewrite Hs.
  - intros (kind & e & He & Ha). right. exists kind, e. split; [|done].
    unfold shard_of in He. destruct (ps_shards p !! kind) eqn:Es; [|done]. eauto.
Qed.

Lemma rebuild_frame p : pools_only p (rebuild_indexes p).
Proof. rewrite rebuild_visit. apply pools_only_set. Qed.

Lemma rebuild_shards p : ps_shards (rebuild_indexes p) = ps_shards p.
Proof. by rewrite rebuild_visit. Qed.

Lemma rebuild_wf p : (∀ kind, is_Some (ps_shards p !! kind)) → pools_wf (rebuild_indexes p).
Proof.
  intros Hs. assert (Hsh : ∀ kind id, shard_of (rebuild_indexes p) kind id = shard_of p kind id).
  { intros kind id. unfold shard_of. by rewrite rebuild_shards. }
  split.
  - intros kind. by rewrite rebuild_shards.
  - intros id [kind Hk]. rewrite pool_of_shard, Hk. cbn. rewrite Hsh. by apply rebuild_kind.
  - intros id e a. rewrite pool_of_shard.
    destruct (_ !! id) as [kind|] eqn:Hk; cbn; [|done]. rewrite Hsh. intros He Ha.
    apply rebuild_index. eauto.
  - rewrite rebuild_visit. by apply visits_nonempty.
Qed.
End rebuild.

(** ** Operations as steps *)

Section life.
Context `{TychoTokens, HashOrderLaws}.

Abbreviation pool_of := pool_by_id_from_published.

(** One operation; [candidates] are the states a candidate may be, [updates] the updates
    that may come. *)
Inductive store_step (candidates : PublishedStateStore → Prop) (updates : TychoUpdate → Prop)
    (s : StateStore) : StateStore → Prop :=
| StepFence : store_step candidates updates s (fence_requests s)
| StepAlign version :
    store_step candidates updates s (align_bootstrap_state_version version s)
| StepReset : store_step candidates updates s (reset s)
| StepResetProtocols protocols :
    store_step candidates updates s (reset_protocols protocols s)
| StepUpdate u tokens :
    updates u → update_maps u →
    store_step candidates updates s (apply_update u tokens s).2
| StepUpdateAt u version tokens x :
    updates u → update_maps u → apply_update_at_version u version tokens s = Ok x →
    store_step candidates updates s x.2
| StepCandidate candidate version tokens x :
    candidates candidate → publish_candidate candidate version tokens s = Ok x →
    store_step candidates updates s x.2.

(** The stores a program can have: a candidate is what another of them published. *)
Inductive reachable (updates : TychoUpdate → Prop) : StateStore → Prop :=
| ReachNew tokens initial publish_tokens :
    reachable updates (new_with_token_publication tokens initial publish_tokens)
| ReachStep s s' :
    reachable updates s → store_step (λ _, False) updates s s' → reachable updates s'
| ReachCandidate s c version tokens x :
    reachable updates s → reachable updates c →
    publish_candidate (ss_published c) version tokens s = Ok x → reachable updates x.2.

Definition any_update : TychoUpdate → Prop := λ _, True.

(** *** Clearing protocols *)

Lemma clear_loop ks (shards : gmap ProtocolKind (gmap string PoolEntry)) b :
  (∀ k, is_Some (shards !! k)) →
  let '(shards', cleared) :=
    foldl (λ '(shards, any_cleared) kind,
        match shards !! kind with
        | Some _ => (<[kind := ∅]> shards, true)
        | None => (shards, any_cleared)
        end) (shards, b) ks in
  (∀ k, shards' !! k = if decide (k ∈ ks) then Some ∅ else shards !! k) ∧
  cleared = b || negb (bool_decide (length ks = 0%nat)).
Proof.
  induction ks as [|kind ks IH] in shards, b |- *; intros Hs; cbn [foldl].
  { rewrite orb_false_r. split; [|done]. intros k. by rewrite decide_False by set_solver. }
  destruct (Hs kind) as [shard E]. rewrite E.
  specialize (IH (<[kind := ∅]> shards) true).
  destruct (foldl _ (<[kind := ∅]> shards, true) ks) as [shards' cleared].
  destruct IH as [IH ->]; [intros k; by apply shards_insert|].
  split; [|by destruct b].
  intros k. rewrite IH. destruct (decide (k = kind)) as [->|Hne].
  - rewrite (decide_True (P := kind ∈ kind :: ks)) by set_solver.
    case_decide; [done|]. by rewrite lookup_insert_eq.
  - rewrite lookup_insert_ne by done.
    destruct (decide (k ∈ ks)); [by rewrite decide_True by set_solver|].
    by rewrite decide_False by set_solver.
Qed.

Lemma reset_protocols_partial ks s :
  (∀ k, is_Some (ps_shards (ss_published s) !! k)) →
  ks ≠ [] → (length ks < length ProtocolKind_ALL)%nat →
  ∃ shards,
    (∀ k, shards !! k = if decide (k ∈ ks) then Some ∅ else ps_shards (ss_published s) !! k) ∧
    let current := ss_published s in
    let rebuilt :=
      rebuild_indexes
        (set_pools shards (ps_id_to_kind current) (ps_token_index current) current) in
    let ready := negb (bool_decide (size (ps_id_to_kind rebuilt) = 0%nat)) in
    reset_protocols ks s =
    publish (set_requests_allowed ready
               (set_ready ready
                  (set_version (saturating_add (ps_version current) 1) rebuilt))) s.
Proof.
  intros Hs Hne Hlen. unfold reset_protocols.
  rewrite bool_decide_eq_false_2 by (by destruct ks).
  rewrite bool_decide_eq_false_2 by lia.
  assert (Hc := clear_loop ks (ps_shards (ss_published s)) false Hs).
  destruct (foldl _ _ ks) as [shards cleared]. destruct Hc as [Hsh ->].
  exists shards. split; [done|]. cbn zeta.
  rewrite bool_decide_eq_false_2 by (by destruct ks). done.
Qed.

(** *** The invariant *)

Lemma empty_shards tokens w kind : ps_shards (empty tokens w) !! kind = Some ∅.
Proof. by destruct kind. Qed.

Lemma empty_wf tokens w : published_wf (empty tokens w).
Proof.
  split; try done. split; try done.
  - intros kind. rewrite empty_shards. by eexists.
  - by intros id [? ?].
  - intros kind id e a. unfold shard_of. by rewrite empty_shards.
Qed.

Definition store_wf (s : StateStore) : Prop :=
  published_wf (ss_published s) ∧ ss_ready_tx s = ps_ready (ss_published s).

(** A replacement that only differs from a well-formed state in its version, its
    generation and its gate. *)
Lemma published_wf_proper p p' :
  ps_shards p' = ps_shards p → ps_id_to_kind p' = ps_id_to_kind p →
  ps_token_index p' = ps_token_index p → ps_tokens p' = ps_tokens p →
  ps_ready p' = ps_ready p →
  (ps_requests_allowed p' = true → ps_ready p' = true) →
  published_wf p → published_wf p'.
Proof.
  intros Hs Hk Hi Ht Hr Hq [Hw Hc Hrd Hrq]. split; [by apply (pools_wf_proper p)| | |done].
  - by apply (tokens_cover_cached p _ []).
  - by rewrite Hr, Hk.
Qed.

Lemma publish_ready_tx replacement s :
  ss_ready_tx s = ps_ready (ss_published s) →
  ss_ready_tx (publish replacement s) = ps_ready (ss_published (publish replacement s)).
Proof.
  unfold publish. cbn. intros ->.
  by destruct (Bool.eqb _ _) eqn:E; [apply Bool.eqb_prop in E|].
Qed.

Lemma publish_wf replacement s :
  published_wf replacement → store_wf s → store_wf (publish replacement s).
Proof.
  intros Hr [_ Ht]. split; [|by apply publish_ready_tx].
  apply (published_wf_proper replacement); try done. apply Hr.
Qed.

Lemma reset_wf s : store_wf s → store_wf (reset s).
Proof.
  intros Hs. apply publish_wf; [|done].
  by apply (published_wf_proper (empty (ps_tokens (ss_published s))
    (ps_wrapped_native_token (ss_published s)))); try apply empty_wf.
Qed.

Lemma reset_protocols_wf ks s : store_wf s → store_wf (reset_protocols ks s).
Proof.
  intros Hs. assert (Hsh := wf_shards _ (pw_pools _ (proj1 Hs))).
  destruct (decide (ks = [])) as [->|Hne]; [done|].
  destruct (decide (length ks < length ProtocolKind_ALL)%nat) as [Hlen|Hlen].
  - destruct (reset_protocols_partial ks s Hsh Hne Hlen) as (shards & Hcl & ->).
    apply publish_wf; [|done].
    assert (Hall : ∀ k, is_Some (shards !! k)).
    { intros k. rewrite Hcl. case_decide; [by eexists|done]. }
    set (cleared := set_pools shards _ _ _).
    split.
    + by apply (pools_wf_proper (rebuild_indexes cleared)); [..|apply rebuild_wf].
    + intros kind id e a He Ha. cbn.
      assert (Hc := pw_tokens _ (proj1 Hs) kind id e a). revert He.
      unfold shard_of. cbn [set_requests_allowed set_ready set_version ps_shards].
      rewrite rebuild_shards. cbn [cleared set_pools ps_shards]. rewrite Hcl.
      case_decide; [done|]. intros He. rewrite rebuild_visit. by apply Hc.
    + cbn. case_bool_decide; case_bool_decide; (done || lia).
    + done.
  - unfold reset_protocols. rewrite bool_decide_eq_false_2 by (by destruct ks).
    rewrite bool_decide_eq_true_2 by lia. by apply reset_wf.
Qed.

Lemma apply_update_publishes u current version tokens s :
  ∃ replacement, (apply_update_locked u current version tokens s).2 = publish replacement s.
Proof.
  unfold apply_update_locked. destruct (apply_new_pairs _ _ _ _) as [[? ?] ?].
  destruct (apply_state_updates _ _ _). destruct (apply_removed_pairs _ _ _).
  by eexists.
Qed.

Lemma apply_update_wf u current version tokens s :
  store_wf s → published_wf current → update_maps u →
  store_wf (apply_update_locked u current version tokens s).2.
Proof.
  intros Hs Hc Hu.
  assert (Hd := apply_update_locked_done u current version tokens s
                  (pw_pools _ Hc) (pw_tokens _ Hc) Hu).
  assert (Ht : ss_ready_tx (apply_update_locked u current version tokens s).2 =
    ps_ready (ss_published (apply_update_locked u current version tokens s).2)).
  { destruct (apply_update_publishes u current version tokens s) as [r ->].
    apply publish_ready_tx, Hs. }
  destruct (apply_update_locked u current version tokens s) as [[m ts] s'].
  split; [apply Hd|done].
Qed.

Lemma candidate_wf c version tokens s x :
  published_wf c → store_wf s → publish_candidate c version tokens s = Ok x → store_wf x.2.
Proof.
  intros Hc Hs. unfold publish_candidate. intros E. invert_ok E.
  injection E as <-. apply publish_wf; [|done]. by apply (published_wf_proper c).
Qed.

Lemma step_wf candidates updates s s' :
  (∀ c, candidates c → published_wf c) → store_wf s → store_step candidates updates s s' →
  store_wf s'.
Proof.
  intros Hc Hs Hstep. assert (Hp := proj1 Hs).
  destruct Hstep as [| | | |u tokens ? Hu|u version tokens x ? Hu Hx|c version tokens x Hcand Hx].
  - apply publish_wf; [|done]. by apply (published_wf_proper (ss_published s)).
  - apply publish_wf; [|done]. by apply (published_wf_proper (ss_published s)).
  - by apply reset_wf.
  - by apply reset_protocols_wf.
  - by apply apply_update_wf.
  - unfold apply_update_at_version in Hx. invert_ok Hx.
    injection Hx as <-. by apply apply_update_wf.
  - exact (candidate_wf c version tokens s x (Hc c Hcand) Hs Hx).
Qed.

Lemma reachable_wf updates s : reachable updates s → store_wf s.
Proof.
  induction 1 as [|s s' _ IH Hst|s c version tokens x _ IHs _ IHc Hx].
  - split; [apply empty_wf|done].
  - by apply (step_wf (λ _, False) updates s).
  - exact (candidate_wf (ss_published c) version tokens s x (proj1 IHc) IHs Hx).
Qed.
End life.

(** ** Pools that do not change *)

Section catalog.
Context `{TychoTokens, HashOrderLaws}.
Context (catalog : string → ProtocolComponent).

Abbreviation pool_of := pool_by_id_from_published.
Abbreviation pool_addresses c := (addresses (component_tokens c)).

(** An identifier always names the same pool: its protocol and its tokens are those of
    the catalog, whatever update announces or removes it. *)
Definition conforms (id : string) (c : ProtocolComponent) : Prop :=
  ProtocolKind_from_component c = ProtocolKind_from_component (catalog id) ∧
  pool_addresses c = pool_addresses (catalog id).

Definition conforming (u : TychoUpdate) : Prop :=
  ∀ id c, (id, c) ∈ tu_new_pairs u ∨ (id, c) ∈ tu_removed_pairs u → conforms id c.

Record cataloged (p : PublishedStateStore) : Prop := {
  cg_kind : ∀ kind id e, shard_of p kind id = Some e →
    ps_id_to_kind p !! id = Some kind ∧
    ProtocolKind_from_component (catalog id) = Some kind ∧
    pool_addresses e.2 = pool_addresses (catalog id);
  cg_index : ∀ a id, id ∈ index_ids (ps_token_index p) a →
    is_Some (ps_id_to_kind p !! id) ∧ a ∈ pool_addresses (catalog id);
}.

Definition cataloged_wf (p : PublishedStateStore) (extra : list Token) : Prop :=
  pools_wf p ∧ tokens_cover p extra ∧ cataloged p.

Lemma new_pair_cataloged id c p states ua :
  conforms id c → cataloged_wf p (ua_tokens_to_cache ua) → NoDup states.*1 →
  let '(p', states', ua') := apply_new_pair (p, states, ua) (id, c) in
  cataloged_wf p' (ua_tokens_to_cache ua') ∧ NoDup states'.*1.
Proof.
  intros [Hk Ha] (Hw & Hc & Hg) Hnd.
  assert (Hd := apply_new_pair_done p id c states ua Hw Hc Hnd). revert Hd.
  assert (Hskip : ∀ sts a, new_pairs_done p [(id, c)] states ua p sts (record_anomaly a id ua) →
    cataloged_wf p (ua_tokens_to_cache (record_anomaly a id ua)) ∧ NoDup sts.*1).
  { intros sts a Hd. split; [|apply Hd]. split; [done|]. split; [apply Hd|done]. }
  cbn [apply_new_pair].
  destruct (ProtocolKind_from_component c) as [kind|]; [|apply Hskip].
  destruct (hm_get id states) as [s|]; [|apply Hskip].
  destruct (wf_shards _ Hw kind) as [shard Hs]. rewrite Hs.
  intros Hd. split; [|apply Hd]. split; [apply Hd|]. split; [apply Hd|]. split.
  - intros kind' id' e. rewrite shard_of_insert by done. cbn [set_pools ps_id_to_kind].
    case_decide as E; [destruct E as [-> ->]|].
    + intros [= <-]. by rewrite lookup_insert_eq.
    + intros He. apply Hg in He as (H1' & H2' & H3'). split; [|done].
      destruct (decide (id' = id)) as [->|]; [|by rewrite lookup_insert_ne].
      exfalso. apply E. split; [congruence|done].
  - intros a id'. cbn [set_pools ps_token_index ps_id_to_kind]. rewrite index_inserts_ids.
    intros [Hin|[-> Hin]]; [|split; [|by rewrite <- Ha]].
    + destruct (cg_index _ Hg _ _ Hin) as [Hid ?]. split; [|done].
      destruct (decide (id' = id)) as [->|]; [|by rewrite lookup_insert_ne].
      rewrite lookup_insert_eq. by eexists.
    + rewrite lookup_insert_eq. by eexists.
Qed.

Lemma state_update_cataloged id s p ua :
  cataloged_wf p (ua_tokens_to_cache ua) →
  let '(p', ua') := apply_state_update (p, ua) (id, s) in
  cataloged_wf p' (ua_tokens_to_cache ua').
Proof.
  intros (Hw & Hc & Hg).
  assert (Hd := apply_state_update_done p id s ua Hw Hc). revert Hd.
  cbn [apply_state_update].
  destruct (ps_id_to_kind p !! id) as [kind|] eqn:Ek.
  - destruct (wf_lookup p id kind Hw Ek) as (shard & [s0 c] & Hs & He & Hp). rewrite Hs, He.
    intros Hd. split; [apply Hd|]. split; [apply Hd|]. split; [|apply Hg].
    intros kind' id' e. rewrite shard_of_insert by done.
    case_decide as E; [destruct E as [-> ->]|apply Hg].
    intros [= <-]. apply (cg_kind _ Hg kind id (s0, c)). unfold shard_of. by rewrite Hs.
  - intros Hd. split; [apply Hd|]. split; [apply Hd|done].
Qed.

Lemma removed_pair_cataloged id c p ua :
  conforms id c → cataloged_wf p (ua_tokens_to_cache ua) →
  let '(p', ua') := apply_removed_pair (p, ua) (id, c) in
  cataloged_wf p' (ua_tokens_to_cache ua').
Proof.
  intros [Hk Ha] (Hw & Hc & Hg).
  assert (Hd := apply_removed_pair_done p id c ua Hw Hc). revert Hd.
  assert (Hix : ∀ a id',
    id' ∈ index_ids (foldl (index_remove id) (ps_token_index p) (component_tokens c)) a →
    id' ≠ id ∧ is_Some (ps_id_to_kind p !! id') ∧ a ∈ pool_addresses (catalog id')).
  { intros a id' [Hin Hne]%index_removes_ids. apply Hg in Hin as [? Hin]. split; [|done].
    intros ->. apply Hne. by rewrite Ha. }
  cbn [apply_removed_pair].
  destruct (ps_id_to_kind p !! id) as [kind|] eqn:Ek.
  - destruct (wf_lookup p id kind Hw Ek) as (shard & [s0 c0] & Hs & He & Hp). rewrite Hs.
    intros Hd. split; [apply Hd|]. split; [apply Hd|]. split.
    + intros kind' id' e. rewrite shard_of_delete by done. case_decide as E; [done|].
      intros He'. apply Hg in He' as (Hk' & ? & ?). split; [|done].
      cbn [set_pools ps_id_to_kind]. rewrite lookup_delete_ne; [done|].
      intros ->. apply E. split; [congruence|done].
    + intros a id' (? & ? & ?)%Hix. cbn [set_pools ps_id_to_kind].
      by rewrite lookup_delete_ne.
  - intros Hd. split; [apply Hd|]. split; [apply Hd|]. split; [apply Hg|].
    by intros a id' (? & ? & ?)%Hix.
Qed.

Lemma update_cataloged u current version tokens s :
  conforming u → update_maps u → published_wf current → cataloged current →
  cataloged (ss_published (apply_update_locked u current version tokens s).2).
Proof.
  intros Hu (_ & Hst & _) Hc Hg. unfold apply_update_locked.
  set (p0 := set_block_number _ _).
  assert (H1' : let '(p1, st1, ua1) := apply_new_pairs p0 (tu_new_pairs u) (tu_states u)
                   UpdateAccumulator_default in
    cataloged_wf p1 (ua_tokens_to_cache ua1) ∧ NoDup st1.*1).
  { unfold apply_new_pairs. apply foldl_inv.
    - split; [|done]. split; [by apply (pools_wf_proper current), Hc|].
      split; [apply Hc|]. by destruct Hg.
    - intros [[p st] ua] [id c] Hin [Hp Hn]. apply new_pair_cataloged; [|done..].
      apply Hu. by left. }
  destruct (apply_new_pairs _ _ _ _) as [[p1 st1] ua1]. destruct H1' as [H1' Hn1].
  assert (H2' : let '(p2, ua2) := apply_state_updates p1 st1 ua1 in
    cataloged_wf p2 (ua_tokens_to_cache ua2)).
  { unfold apply_state_updates. apply foldl_inv; [done|].
    intros [p ua] [id st] _. apply state_update_cataloged. }
  destruct (apply_state_updates _ _ _) as [p2 ua2].
  assert (H3' : let '(p3, ua3) := apply_removed_pairs p2 (tu_removed_pairs u) ua2 in
    cataloged_wf p3 (ua_tokens_to_cache ua3)).
  { unfold apply_removed_pairs. apply foldl_inv; [done|].
    intros [p ua] [id c] Hin. apply removed_pair_cataloged. apply Hu. by right. }
  destruct (apply_removed_pairs _ _ _) as [p3 ua3].
  destruct H3' as (_ & _ & [Hk Hi]). by split.
Qed.

Lemma rebuild_cataloged p :
  (∀ kind id e, shard_of p kind id = Some e →
    ProtocolKind_from_component (catalog id) = Some kind ∧
    pool_addresses e.2 = pool_addresses (catalog id)) →
  cataloged (rebuild_indexes p).
Proof.
  intros Hg. split.
  - intros kind id e. unfold shard_of. rewrite rebuild_shards. intros He.
    destruct (Hg kind id e He) as [Hk Ha]. split_and!; [|done..].
    destruct (rebuild_known p kind id) as [kind' Hk']; [by eexists|]. rewrite Hk'.
    destruct (rebuild_kind p id kind' Hk') as [e' He'].
    apply Hg in He' as [? _]. congruence.
  - intros a id (kind & e & He & Ha)%rebuild_index. split.
    + eapply rebuild_known. by eexists.
    + apply Hg in He as [_ <-]. done.
Qed.

(** As many distinct protocols as there are is every protocol. *)
Lemma all_protocols (ks : list ProtocolKind) kind :
  NoDup ks → (length ProtocolKind_ALL ≤ length ks)%nat → kind ∈ ks.
Proof.
  intros Hnd%NoDup_ListNoDup Hlen.
  assert (Hin : incl ProtocolKind_ALL ks).
  { apply NoDup_length_incl; [done..|]. intros k _.
    apply list_elem_of_In. destruct k; set_solver. }
  apply list_elem_of_In, Hin, list_elem_of_In. destruct kind; set_solver.
Qed.

(** The catalog says in which shard a pool is. *)
Lemma cataloged_pool p id :
  cataloged p →
  pool_of p id =
  match ProtocolKind_from_component (catalog id) with
  | Some kind => shard_of p kind id
  | None => None
  end.
Proof.
  intros Hg. apply option_eq. intros e. rewrite pool_of_shard. split.
  - destruct (ps_id_to_kind p !! id) as [kind|] eqn:Ek; [|done]. cbn. intros He.
    assert (Hc := He). by apply Hg in Hc as (_ & -> & _).
  - destruct (ProtocolKind_from_component (catalog id)) as [kind|]; [|done].
    intros He. assert (Hc := He). by apply Hg in Hc as (-> & _).
Qed.

Lemma reset_protocols_cataloged ks s :
  store_wf s → cataloged (ss_published s) →
  cataloged (ss_published (reset_protocols ks s)) ∧
  (NoDup ks → ∀ id, pool_of (ss_published (reset_protocols ks s)) id =
    match ProtocolKind_from_component (catalog id) with
    | Some kind => if decide (kind ∈ ks) then None else pool_of (ss_published s) id
    | None => None
    end).
Proof.
  intros Hs Hg. assert (Hsh := wf_shards _ (pw_pools _ (proj1 Hs))).
  destruct (decide (ks = [])) as [->|Hne].
  { split; [done|]. intros _ id. change (reset_protocols [] s) with s.
    rewrite (cataloged_pool _ id Hg). by case_match. }
  destruct (decide (length ks < length ProtocolKind_ALL)%nat) as [Hlen|Hlen].
  - destruct (reset_protocols_partial ks s Hsh Hne Hlen) as (shards & Hcl & ->).
    set (cleared := set_pools shards _ _ _).
    assert (Hsc : ∀ kind id, shard_of cleared kind id =
      if decide (kind ∈ ks) then None else shard_of (ss_published s) kind id).
    { intros kind id. unfold shard_of. cbn [cleared set_pools ps_shards]. rewrite Hcl.
      by case_decide. }
    assert (Hrc : cataloged (rebuild_indexes cleared)).
    { apply rebuild_cataloged. intros kind id e. rewrite Hsc. case_decide; [done|].
      intros He. by apply Hg in He as (_ & ? & ?). }
    split; [destruct Hrc as [Hk Hi]; by split|]. intros _ id.
    etransitivity; [exact (cataloged_pool _ id Hrc)|]. rewrite (cataloged_pool _ id Hg).
    destruct (ProtocolKind_from_component _) as [kind|]; [|done].
    rewrite <- Hsc. unfold shard_of. by rewrite rebuild_shards.
  - unfold reset_protocols. rewrite bool_decide_eq_false_2 by (by destruct ks).
    rewrite bool_decide_eq_true_2 by lia. split.
    + split; [|done]. intros kind id e. unfold shard_of. cbn [reset publish ss_published
        set_request_generation set_version ps_shards]. by rewrite empty_shards.
    + intros Hnd id. case_match; [|done]. rewrite decide_True; [done|].
      apply all_protocols; [done|lia].
Qed.

Lemma new_cataloged ts initial publish_tokens :
  cataloged (ss_published (new_with_token_publication ts initial publish_tokens)).
Proof.
  split; [|done]. intros kind id e. unfold shard_of.
  cbn [new_with_token_publication ss_published]. by rewrite empty_shards.
Qed.

Lemma step_cataloged s s' :
  store_wf s → cataloged (ss_published s) → store_step (λ _, False) conforming s s' →
  cataloged (ss_published s').
Proof.
  intros Hs Hg Hstep.
  destruct Hstep as [| | |ks|u tokens ? Hu|u version tokens x ? Hu Hx|c version tokens x Hcand Hx].
  - by destruct Hg.
  - by destruct Hg.
  - split; [|done]. intros kind id e. unfold shard_of. cbn [reset publish ss_published
      set_request_generation set_version ps_shards]. by rewrite empty_shards.
  - by apply reset_protocols_cataloged.
  - by apply update_cataloged; [..|apply Hs|].
  - unfold apply_update_at_version in Hx. invert_ok Hx. injection Hx as <-.
    by apply update_cataloged; [..|apply Hs|].
  - done.
Qed.

Lemma reachable_cataloged s : reachable conforming s → cataloged (ss_published s).
Proof.
  induction 1 as [|s s' Hr IH Hst|s c version tokens x _ IHs _ IHc Hx].
  - apply new_cataloged.
  - eapply step_cataloged; [by eapply reachable_wf|done..].
  - unfold publish_candidate in Hx. invert_ok Hx. injection Hx as <-. by destruct IHc.
Qed.
End catalog.
