(* ===== verification/StoreQuery.v ===== *)
(** * What requests see of a state store

    The theorems on [StateStore]: every published state is consistent, an update and a
    reset do to the pools what they say, a pair of tokens finds the pools that trade it,
    and a request whose generation is still the published one has pinned that very
    state. *)

From S2P Require Import Prelude Ordered Text Protocol.
From S2P Require Import Wire Validate TychoFeed.
From S2P Require Import Store StorePools StoreLife.

(** ** Pools for a pair of tokens *)

Section matching.
Context `{TychoTokens, HashOrderLaws}.

Abbreviation pool_of := pool_by_id_from_published.

(** The pool [id] trades the token at [a]. *)
Definition trades (p : PublishedStateStore) (a : Bytes) (id : string) : Prop :=
  ∃ e, pool_of p id = Some e ∧ a ∈ addresses (component_tokens e.2).

(** A token and what stands for it: the native token and its wrapped form. *)
Definition alias (p : PublishedStateStore) (a b : Bytes) : Prop :=
  a = b ∨ (ps_wrapped_native_token p = Some a ∧ b = native_token_address) ∨
  (a = native_token_address ∧ ps_wrapped_native_token p = Some b).

Definition trades_alias (p : PublishedStateStore) (a : Bytes) (id : string) : Prop :=
  ∃ b, alias p a b ∧ trades p b id.

(** The pools found, by identifier. *)
Definition found (p : PublishedStateStore) (P : string → Prop)
    (r : list (string * PoolEntry)) : Prop :=
  NoDup r.*1 ∧ ∀ id e, (id, e) ∈ r ↔ pool_of p id = Some e ∧ P id.

Lemma index_trades catalog p a id :
  pools_wf p → cataloged catalog p → id ∈ index_ids (ps_token_index p) a ↔ trades p a id.
Proof.
  intros Hw Hg. split.
  - intros Hin. apply Hg in Hin as [Hid Ha].
    destruct (wf_known _ Hw id Hid) as [e He]. exists e. split; [done|].
    rewrite pool_of_shard in He. destruct (_ !! id) as [kind|]; [|done]. cbn in He.
    apply Hg in He as (_ & _ & ->). done.
  - intros (e & He & Ha). by eapply wf_indexed.
Qed.

Lemma intersect_elem l r id : id ∈ intersect_pool_ids l r ↔ id ∈ l ∧ id ∈ r.
Proof.
  unfold intersect_pool_ids. case_bool_decide; rewrite list_elem_of_filter, hs_elements_perm,
    elem_of_elements; tauto.
Qed.

Lemma intersect_NoDup l r : NoDup (intersect_pool_ids l r).
Proof.
  unfold intersect_pool_ids. case_bool_decide; apply NoDup_filter; rewrite hs_elements_perm;
    apply NoDup_elements.
Qed.

Lemma pool_entries_found p ids :
  NoDup ids → found p (λ id, id ∈ ids) (pool_entries_for_ids p ids).
Proof.
  intros Hnd. split.
  - unfold pool_entries_for_ids. induction ids as [|id ids IH]; [by constructor|].
    apply NoDup_cons in Hnd as [Hnin Hnd]. cbn.
    destruct (pool_of p id) as [e|]; cbn; [|by apply IH].
    apply NoDup_cons. split; [|by apply IH]. rewrite list_elem_of_fmap.
    intros ([id' e'] & -> & Hin). apply list_elem_of_omap in Hin as (id2 & Hin & E).
    destruct (pool_of p id2); simplify_eq/=. done.
  - intros id e. unfold pool_entries_for_ids. rewrite list_elem_of_omap. split.
    + intros (id' & Hin & E). destruct (pool_of p id') eqn:E'; simplify_eq/=. done.
    + intros [E Hin]. exists id. by rewrite E.
Qed.

#[export] Instance found_proper p :
  Proper (pointwise_relation _ iff ==> eq ==> iff) (found p).
Proof.
  intros P Q HPQ r _ <-. unfold found. split; (intros [Hn Hf]; split; [done|]);
    intros id e; rewrite Hf; specialize (HPQ id); tauto.
Qed.

(** The candidates of two sets of identifiers. *)
Lemma intersect_found p l r :
  found p (λ id, id ∈ l ∧ id ∈ r) (pool_entries_for_ids p (intersect_pool_ids l r)).
Proof.
  setoid_rewrite <- intersect_elem. apply pool_entries_found, intersect_NoDup.
Qed.

Lemma ids_for_token_elem p a id :
  id ∈ default ∅ (ids_for_token p a) ↔
  ∃ b, alias p a b ∧ id ∈ index_ids (ps_token_index p) b.
Proof.
  set (native := index_ids (ps_token_index p) native_token_address).
  set (wrapped := match ps_wrapped_native_token p with
                  | Some w => index_ids (ps_token_index p) w | None => ∅ end).
  assert (E : default ∅ (ids_for_token p a) =
    index_ids (ps_token_index p) a
    ∪ (if bool_decide (ps_wrapped_native_token p = Some a) then native else ∅)
    ∪ (if bool_decide (a = native_token_address) then wrapped else ∅)).
  { assert (Hd : ∀ ids : gset string,
      default ∅ (if bool_decide (ids = ∅) then None else Some ids) = ids).
    { intros ids. by case_bool_decide. }
    unfold ids_for_token. rewrite Hd. unfold native, wrapped, index_ids. apply set_eq. intros i.
    repeat case_match; simplify_eq/=; set_solver. }
  rewrite E, !elem_of_union. unfold alias. split.
  - intros [[Hin|Hin]|Hin]; [by exists a; auto| |].
    + case_bool_decide; [|set_solver]. exists native_token_address. auto.
    + case_bool_decide; [|set_solver]. unfold wrapped in Hin.
      destruct (ps_wrapped_native_token p) as [w|]; [|set_solver]. exists w. auto.
  - intros (b & [<-|[[Hw ->]|[-> Hw]]] & Hin); [by auto| |].
    + left; right. by rewrite bool_decide_eq_true_2.
    + right. rewrite bool_decide_eq_true_2 by done. unfold wrapped. by rewrite Hw.
Qed.
End matching.

(** ** Generations *)

Section generations.
Context `{TychoTokens, HashOrderLaws}.

Abbreviation generation s := (ps_request_generation (ss_published s)).

Definition any_candidate : PublishedStateStore → Prop := λ _, True.

(** From one store to a later one. *)
Abbreviation later := (rtc (store_step any_candidate any_update)).

(** An operation publishes once, or changes nothing. *)
Lemma reset_protocols_publishes ks s :
  reset_protocols ks s = s ∨ ∃ r, reset_protocols ks s = publish r s.
Proof.
  unfold reset_protocols. case_bool_decide; [by left|].
  case_bool_decide; [right; by eexists|].
  destruct (foldl _ _ _) as [shards cleared]. destruct cleared; [right; by eexists|by left].
Qed.

Lemma step_publishes candidates updates s s' :
  store_step candidates updates s s' → s' = s ∨ ∃ r, s' = publish r s.
Proof.
  destruct 1 as [| | |ks|u tokens ? Hu|u version tokens x ? Hu Hx|c version tokens x Hcand Hx].
  - right. by eexists.
  - right. by eexists.
  - right. by eexists.
  - apply reset_protocols_publishes.
  - right. apply apply_update_publishes.
  - unfold apply_update_at_version in Hx. invert_ok Hx. injection Hx as <-.
    right. apply apply_update_publishes.
  - unfold publish_candidate in Hx. invert_ok Hx. injection Hx as <-. right. by eexists.
Qed.

Lemma step_generation candidates updates s s' :
  store_step candidates updates s s' →
  s' = s ∨ generation s' = saturating_add (generation s) 1.
Proof. intros [->|[r ->]]%step_publishes; [by left|by right]. Qed.

(** Below its limit the generation of a store identifies what it has published. *)
Lemma later_generation s s' :
  later s s' → (generation s' < u64_max)%N →
  s' = s ∨ (generation s < generation s')%N.
Proof.
  induction 1 as [s|s s1 s' Hst _ IH]; [by left|]. intros Hmax.
  apply step_generation in Hst as [->|Hst]; [by apply IH|]. unfold saturating_add in Hst.
  right. destruct (IH Hmax) as [->|?]; lia.
Qed.
End generations.

(** ** Properties *)

Section properties.
Context `{TychoTokens, HashOrderLaws}.

Abbreviation pool_of := pool_by_id_from_published.

(** C38: Whatever operations run, with whatever arguments and in whatever order, what a
    state store has published is consistent: every known identifier has its pool in the
    shard of its kind, every token of a pool leads to it through the index and is cached,
    no index entry is empty, the store is ready exactly when it has a pool, requests are
    only let in when it is ready, and the ready flag that waiters watch is the published
    one. *)
Theorem published_state_consistent (updates : TychoUpdate → Prop) (s : StateStore)
    (Hr : reachable updates s) :
  published_wf (ss_published s) ∧ is_ready s = ps_ready (ss_published s).
Proof. exact (reachable_wf updates s Hr). Qed.

(** C39: An update turns the map of pools into the one its entries describe, whatever
    order its maps iterate in: removed identifiers are gone, new pairs of a known protocol
    that come with a state are in, known pools have the new states, all others are as
    before; and its counters account for every entry it was given. *)
Theorem update_refines_pools (updates : TychoUpdate → Prop) (s : StateStore) (u : TychoUpdate)
    (tokens : TokenStore) (Hr : reachable updates s) (Hu : update_maps u) :
  let '(m, _, s') := apply_update u tokens s in
  update_done u (ss_published s) (saturating_add (store_state_version s) 1) s m s'.
Proof.
  apply reachable_wf in Hr as [[Hw Hc _ _] _]. by apply apply_update_locked_done.
Qed.

(** While its generation is below the limit of its counter, a store that shows the
    generation a request pinned still has that very state published: no operation in
    between has published anything. *)
Theorem generation_identifies_state (s s' : StateStore)
    (Hl : rtc (store_step any_candidate any_update) s s')
    (Hmax : (ps_request_generation (pin s') < u64_max)%N)
    (Hg : ps_request_generation (pin s') = ps_request_generation (pin s)) :
  pin s' = pin s.
Proof.
  destruct (later_generation s s' Hl Hmax) as [->|Hlt]; [done|].
  exfalso. unfold pin in Hg. lia.
Qed.

(** When every identifier always names the same pool, a pair of tokens finds, each
    once, exactly the pools that trade both of them; if there is none, exactly those that
    trade both up to the native token and its wrapped form. *)
Theorem matching_pools_exact (catalog : string → ProtocolComponent) (s : StateStore)
    (token_in token_out : Bytes) (Hr : reachable (conforming catalog) s) :
  let p := ss_published s in
  let r := matching_pools_from_published p token_in token_out in
  ((∃ id, trades p token_in id ∧ trades p token_out id) →
     found p (λ id, trades p token_in id ∧ trades p token_out id) r) ∧
  ((¬ ∃ id, trades p token_in id ∧ trades p token_out id) →
     found p (λ id, trades_alias p token_in id ∧ trades_alias p token_out id) r).
Proof.
  cbn zeta. set (p := ss_published s).
  assert (Hw : pools_wf p) by apply (reachable_wf _ _ Hr).
  assert (Hg := reachable_cataloged catalog s Hr). fold p in Hg.
  assert (Hi := λ a id, index_trades catalog p a id Hw Hg).
  unfold matching_pools_from_published.
  match goal with |- context [length ?x = 0%nat] => set (exact := x) end.
  assert (He : found p (λ id, trades p token_in id ∧ trades p token_out id) exact).
  { unfold exact. setoid_rewrite <- Hi. unfold index_ids.
    destruct (ps_token_index p !! token_in) as [l|], (ps_token_index p !! token_out) as [r|];
      cbn; [|split; [constructor|set_solver]..].
    apply intersect_found. }
  clearbody exact. case_bool_decide as Hlen; cbn [negb]; split.
  - intros (id & (e & Hid & Ha) & Hb). destruct exact; [|done].
    destruct He as [_ He]. assert (Hin : (id, e) ∈ @nil (string * PoolEntry)); [|set_solver].
    apply He. split; [done|]. split; [by exists e|done].
  - intros _. unfold trades_alias. setoid_rewrite <- Hi. setoid_rewrite <- ids_for_token_elem.
    destruct (ids_for_token p token_in) as [l|], (ids_for_token p token_out) as [r|]; cbn;
      [|split; [constructor|set_solver]..].
    apply intersect_found.
  - done.
  - intros Hn. destruct exact as [|[id e] ?]; [done|]. destruct Hn. exists id.
    destruct He as [_ He]. apply (He id e). left.
Qed.

(** Resetting protocols removes exactly their pools and keeps every other one,
    when every identifier always names the same pool. *)
Theorem reset_protocols_exact (catalog : string → ProtocolComponent) (s : StateStore)
    (protocols : list ProtocolKind) (Hr : reachable (conforming catalog) s)
    (Hnd : NoDup protocols) (id : string) :
  pool_of (ss_published (reset_protocols protocols s)) id =
  match ProtocolKind_from_component (catalog id) with
  | Some kind =>
      if bool_decide (kind ∈ protocols) then None else pool_of (ss_published s) id
  | None => None
  end.
Proof.
  destruct (reset_protocols_cataloged catalog protocols s) as [_ Hp];
    [by eapply reachable_wf|by apply reachable_cataloged|].
  rewrite (Hp Hnd). case_match; [|done]. by case_decide; case_bool_decide.
Qed.
End properties.

(** ** Witnesses *)

#[local] Existing Instances demo_tycho demo_tokens demo_order demo_order_laws.

Definition demo_store : TokenStore :=
  {| ts_tokens := ∅; ts_initial_tokens := ∅; ts_chain_wrapped_native := "W" |}.

Definition demo_catalog (id : string) : ProtocolComponent :=
  if String.eqb id "p1" then ("uniswap_v2", "AB") else ("vm:curve", "BC").

Definition demo_update : TychoUpdate :=
  {| tu_block_number_or_timestamp := 7;
     tu_states := [("p1", 11%N); ("p2", 12%N); ("p9", 19%N)];
     tu_new_pairs := [("p1", ("uniswap_v2", "AB")); ("p2", ("vm:curve", "BC"))];
     tu_removed_pairs := [];
     tu_sync_states := [] |}.

Definition demo_first : StateStore := StateStore_new demo_store.
Definition demo_second : StateStore := (apply_update demo_update demo_store demo_first).2.

Lemma demo_update_maps : update_maps demo_update.
Proof. split_and!; apply (bool_decide_unpack _); by vm_compute. Qed.

Lemma demo_second_reachable (updates : TychoUpdate → Prop) :
  updates demo_update → reachable updates demo_second.
Proof.
  intros Hu. apply (ReachStep updates demo_first); [apply ReachNew|].
  by apply StepUpdate; [|apply demo_update_maps].
Qed.

Lemma demo_conforming : conforming demo_catalog demo_update.
Proof.
  intros id c [Hin|Hin]; [|set_solver]. cbn in Hin.
  apply elem_of_cons in Hin as [[= -> ->]|Hin]; [by split|].
  apply elem_of_cons in Hin as [[= -> ->]|Hin]; [by split|set_solver].
Qed.

Lemma published_state_consistent_witness :
  total_states (ss_published demo_second) = 2%nat ∧
  published_wf (ss_published demo_second) ∧
  is_ready demo_second = ps_ready (ss_published demo_second).
Proof.
  split; [by vm_compute|].
  apply (published_state_consistent any_update). by apply demo_second_reachable.
Defined.

Lemma update_refines_pools_witness :
  um_updates_for_unknown_pair (apply_update demo_update demo_store demo_first).1.1 = 1%nat ∧
  let '(m, _, s') := apply_update demo_update demo_store demo_first in
  update_done demo_update (ss_published demo_first)
    (saturating_add (store_state_version demo_first) 1) demo_first m s'.
Proof.
  split; [by vm_compute|].
  apply (update_refines_pools any_update); [apply ReachNew|apply demo_update_maps].
Defined.

Lemma generation_identifies_state_witness :
  ps_request_generation (pin demo_second) = 1%N ∧
  pin (reset_protocols [] demo_second) = pin demo_second.
Proof.
  split; [by vm_compute|].
  apply generation_identifies_state; [|by vm_compute|done].
  apply rtc_once, StepResetProtocols.
Defined.

Lemma matching_pools_exact_witness :
  let p := ss_published demo_second in
  matching_pools_from_published p "A" "B" = [("p1", (11%N, ("uniswap_v2", "AB")))] ∧
  found p (λ id, trades p "A" id ∧ trades p "B" id) (matching_pools_from_published p "A" "B").
Proof.
  cbn zeta. split; [by vm_compute|].
  apply (matching_pools_exact demo_catalog).
  - apply demo_second_reachable, demo_conforming.
  - exists "p1". split; exists (11%N, ("uniswap_v2", "AB")); (split; [by vm_compute|]);
      apply (bool_decide_unpack _); by vm_compute.
Defined.

Lemma reset_protocols_exact_witness :
  pool_by_id_from_published (ss_published (reset_protocols [Curve] demo_second)) "p2" = None ∧
  pool_by_id_from_published (ss_published (reset_protocols [Curve] demo_second)) "p1" =
  match ProtocolKind_from_component (demo_catalog "p1") with
  | Some kind =>
      if bool_decide (kind ∈ [Curve]) then None
      else pool_by_id_from_published (ss_published demo_second) "p1"
  | None => None
  end.
Proof.
  split; [by vm_compute|].
  apply (reset_protocols_exact demo_catalog).
  - apply demo_second_reachable, demo_conforming.
  - apply NoDup_singleton.
Defined.
