(* ===== verification/Health.v ===== *)
(** * Subscription status and stream health

    [BroadcasterSubscriptionStatus] of [runtime/src/models/state.rs] and [StreamHealth]
    of [runtime/src/models/stream_health.rs]: the two records the consumer of the stream
    writes and the readiness decisions read.  Each operation holds the record's lock to
    its end, so it is a function on the record; an [Instant] is the nanoseconds of a
    monotonic clock, given to the operations that read it. *)

From S2P Require Import Prelude Ordered Text Protocol.
From S2P Require Import Wire Validate RedisEntry.

Abbreviation Instant := N (only parsing).

(** [now.saturating_duration_since(earlier)]. *)
Definition saturating_duration_since (now earlier : Instant) : Duration := (now - earlier)%N.

(** [duration.as_millis() as u64]. *)
Definition as_millis_u64 (d : Duration) : u64 := (as_millis d mod (u64_max + 1))%N.

(** ** Subscription status *)

Inductive RedisTransportStatus :=
| Connecting
| Connected
| Retrying
| Failed.

#[export] Instance RedisTransportStatus_eq_dec : EqDecision RedisTransportStatus.
Proof. solve_decision. Defined.

Definition RedisTransportStatus_label (status : RedisTransportStatus) : string :=
  match status with
  | Connecting => "connecting"
  | Connected => "connected"
  | Retrying => "retrying"
  | Failed => "failed"
  end.

Record BroadcasterSubscriptionStatusData := {
  bs_connected : bool;
  bs_bootstrap_complete : bool;
  bs_stream_id : option string;
  bs_snapshot_id : option string;
  bs_redis_replay_boundary : option BroadcasterRedisReplayBoundary;
  bs_redis_replay_checkpoint : option string;
  bs_redis_replay_caught_up : bool;
  bs_redis_gap_reason : option string;
  bs_redis_transport_status : RedisTransportStatus;
  bs_redis_transport_retry_count : u64;
  bs_redis_transport_last_error : option string;
  bs_publisher_to_consumer_delay_ms : option u64;
  bs_restart_count : u64;
  bs_last_error : option string;
}.

Definition subscription_default : BroadcasterSubscriptionStatusData :=
  {| bs_connected := false; bs_bootstrap_complete := false; bs_stream_id := None;
     bs_snapshot_id := None; bs_redis_replay_boundary := None;
     bs_redis_replay_checkpoint := None; bs_redis_replay_caught_up := false;
     bs_redis_gap_reason := None; bs_redis_transport_status := Connecting;
     bs_redis_transport_retry_count := 0; bs_redis_transport_last_error := None;
     bs_publisher_to_consumer_delay_ms := None; bs_restart_count := 0;
     bs_last_error := None |}.

Definition mark_connected (s : BroadcasterSubscriptionStatusData) :
    BroadcasterSubscriptionStatusData :=
  {| bs_connected := true; bs_bootstrap_complete := false; bs_stream_id := None;
     bs_snapshot_id := None; bs_redis_replay_boundary := None;
     bs_redis_replay_checkpoint := None; bs_redis_replay_caught_up := false;
     bs_redis_gap_reason := None; bs_redis_transport_status := Connecting;
     bs_redis_transport_retry_count := 0; bs_redis_transport_last_error := None;
     bs_publisher_to_consumer_delay_ms := None; bs_restart_count := bs_restart_count s;
     bs_last_error := None |}.

Definition mark_snapshot_started (stream_id snapshot_id : string)
    (s : BroadcasterSubscriptionStatusData) : BroadcasterSubscriptionStatusData :=
  {| bs_connected := true; bs_bootstrap_complete := false;
     bs_stream_id := Some stream_id; bs_snapshot_id := Some snapshot_id;
     bs_redis_replay_boundary := None; bs_redis_replay_checkpoint := None;
     bs_redis_replay_caught_up := false; bs_redis_gap_reason := None;
     bs_redis_transport_status := Connecting; bs_redis_transport_retry_count := 0;
     bs_redis_transport_last_error := None; bs_publisher_to_consumer_delay_ms := None;
     bs_restart_count := bs_restart_count s; bs_last_error := None |}.

Definition mark_bootstrap_complete_with_redis_boundary
    (boundary : BroadcasterRedisReplayBoundary)
    (s : BroadcasterSubscriptionStatusData) : BroadcasterSubscriptionStatusData :=
  {| bs_connected := true; bs_bootstrap_complete := true; bs_stream_id := bs_stream_id s;
     bs_snapshot_id := bs_snapshot_id s; bs_redis_replay_boundary := Some boundary;
     bs_redis_replay_checkpoint := Some (exclusive_entry_id boundary);
     bs_redis_replay_caught_up := false; bs_redis_gap_reason := None;
     bs_redis_transport_status := Connected; bs_redis_transport_retry_count := 0;
     bs_redis_transport_last_error := None; bs_publisher_to_consumer_delay_ms := None;
     bs_restart_count := bs_restart_count s; bs_last_error := None |}.

Definition mark_recovery_started (s : BroadcasterSubscriptionStatusData) :
    BroadcasterSubscriptionStatusData :=
  {| bs_connected := true; bs_bootstrap_complete := false;
     bs_stream_id := bs_stream_id s; bs_snapshot_id := bs_snapshot_id s;
     bs_redis_replay_boundary := bs_redis_replay_boundary s;
     bs_redis_replay_checkpoint := bs_redis_replay_checkpoint s;
     bs_redis_replay_caught_up := false; bs_redis_gap_reason := None;
     bs_redis_transport_status := Connected;
     bs_redis_transport_retry_count := bs_redis_transport_retry_count s;
     bs_redis_transport_last_error := None; bs_publisher_to_consumer_delay_ms := None;
     bs_restart_count := bs_restart_count s; bs_last_error := None |}.

Definition mark_redis_replay_checkpoint (checkpoint : string)
    (s : BroadcasterSubscriptionStatusData) : BroadcasterSubscriptionStatusData :=
  {| bs_connected := bs_connected s; bs_bootstrap_complete := bs_bootstrap_complete s;
     bs_stream_id := bs_stream_id s; bs_snapshot_id := bs_snapshot_id s;
     bs_redis_replay_boundary := bs_redis_replay_boundary s;
     bs_redis_replay_checkpoint := Some checkpoint;
     bs_redis_replay_caught_up := bs_redis_replay_caught_up s;
     bs_redis_gap_reason := None;
     bs_redis_transport_status := bs_redis_transport_status s;
     bs_redis_transport_retry_count := bs_redis_transport_retry_count s;
     bs_redis_transport_last_error := bs_redis_transport_last_error s;
     bs_publisher_to_consumer_delay_ms := bs_publisher_to_consumer_delay_ms s;
     bs_restart_count := bs_restart_count s; bs_last_error := bs_last_error s |}.

Definition mark_redis_catch_up_checkpoint (checkpoint : string)
    (s : BroadcasterSubscriptionStatusData) : BroadcasterSubscriptionStatusData :=
  {| bs_connected := bs_connected s; bs_bootstrap_complete := bs_bootstrap_complete s;
     bs_stream_id := bs_stream_id s; bs_snapshot_id := bs_snapshot_id s;
     bs_redis_replay_boundary := bs_redis_replay_boundary s;
     bs_redis_replay_checkpoint := Some checkpoint; bs_redis_replay_caught_up := true;
     bs_redis_gap_reason := None;
     bs_redis_transport_status := bs_redis_transport_status s;
     bs_redis_transport_retry_count := bs_redis_transport_retry_count s;
     bs_redis_transport_last_error := bs_redis_transport_last_error s;
     bs_publisher_to_consumer_delay_ms := bs_publisher_to_consumer_delay_ms s;
     bs_restart_count := bs_restart_count s; bs_last_error := bs_last_error s |}.

Definition mark_redis_gap (reason : string) (s : BroadcasterSubscriptionStatusData) :
    BroadcasterSubscriptionStatusData :=
  {| bs_connected := bs_connected s; bs_bootstrap_complete := bs_bootstrap_complete s;
     bs_stream_id := bs_stream_id s; bs_snapshot_id := bs_snapshot_id s;
     bs_redis_replay_boundary := bs_redis_replay_boundary s;
     bs_redis_replay_checkpoint := bs_redis_replay_checkpoint s;
     bs_redis_replay_caught_up := false; bs_redis_gap_reason := Some reason;
     bs_redis_transport_status := bs_redis_transport_status s;
     bs_redis_transport_retry_count := bs_redis_transport_retry_count s;
     bs_redis_transport_last_error := bs_redis_transport_last_error s;
     bs_publisher_to_consumer_delay_ms := bs_publisher_to_consumer_delay_ms s;
     bs_restart_count := bs_restart_count s; bs_last_error := bs_last_error s |}.

Definition mark_redis_transport_error (error : string)
    (s : BroadcasterSubscriptionStatusData) : BroadcasterSubscriptionStatusData :=
  {| bs_connected := bs_connected s; bs_bootstrap_complete := bs_bootstrap_complete s;
     bs_stream_id := bs_stream_id s; bs_snapshot_id := bs_snapshot_id s;
     bs_redis_replay_boundary := bs_redis_replay_boundary s;
     bs_redis_replay_checkpoint := bs_redis_replay_checkpoint s;
     bs_redis_replay_caught_up := bs_redis_replay_caught_up s;
     bs_redis_gap_reason := bs_redis_gap_reason s; bs_redis_transport_status := Retrying;
     bs_redis_transport_retry_count := saturating_add (bs_redis_transport_retry_count s) 1;
     bs_redis_transport_last_error := Some error;
     bs_publisher_to_consumer_delay_ms := bs_publisher_to_consumer_delay_ms s;
     bs_restart_count := bs_restart_count s; bs_last_error := bs_last_error s |}.

Definition mark_redis_transport_recovered (s : BroadcasterSubscriptionStatusData) :
    BroadcasterSubscriptionStatusData :=
  {| bs_connected := bs_connected s; bs_bootstrap_complete := bs_bootstrap_complete s;
     bs_stream_id := bs_stream_id s; bs_snapshot_id := bs_snapshot_id s;
     bs_redis_replay_boundary := bs_redis_replay_boundary s;
     bs_redis_replay_checkpoint := bs_redis_replay_checkpoint s;
     bs_redis_replay_caught_up := bs_redis_replay_caught_up s;
     bs_redis_gap_reason := bs_redis_gap_reason s;
     bs_redis_transport_status := Connected;
     bs_redis_transport_retry_count := bs_redis_transport_retry_count s;
     bs_redis_transport_last_error := None;
     bs_publisher_to_consumer_delay_ms := bs_publisher_to_consumer_delay_ms s;
     bs_restart_count := bs_restart_count s; bs_last_error := bs_last_error s |}.

Definition mark_redis_transport_failed (error : string)
    (s : BroadcasterSubscriptionStatusData) : BroadcasterSubscriptionStatusData :=
  {| bs_connected := bs_connected s; bs_bootstrap_complete := bs_bootstrap_complete s;
     bs_stream_id := bs_stream_id s; bs_snapshot_id := bs_snapshot_id s;
     bs_redis_replay_boundary := bs_redis_replay_boundary s;
     bs_redis_replay_checkpoint := bs_redis_replay_checkpoint s;
     bs_redis_replay_caught_up := bs_redis_replay_caught_up s;
     bs_redis_gap_reason := bs_redis_gap_reason s; bs_redis_transport_status := Failed;
     bs_redis_transport_retry_count := bs_redis_transport_retry_count s;
     bs_redis_transport_last_error := Some error;
     bs_publisher_to_consumer_delay_ms := bs_publisher_to_consumer_delay_ms s;
     bs_restart_count := bs_restart_count s; bs_last_error := bs_last_error s |}.

(** [now_ms]: the system clock, in milliseconds. *)
Definition record_publisher_to_consumer_delay (now_ms published_at_ms : u64)
    (s : BroadcasterSubscriptionStatusData) : BroadcasterSubscriptionStatusData :=
  {| bs_connected := bs_connected s; bs_bootstrap_complete := bs_bootstrap_complete s;
     bs_stream_id := bs_stream_id s; bs_snapshot_id := bs_snapshot_id s;
     bs_redis_replay_boundary := bs_redis_replay_boundary s;
     bs_redis_replay_checkpoint := bs_redis_replay_checkpoint s;
     bs_redis_replay_caught_up := bs_redis_replay_caught_up s;
     bs_redis_gap_reason := bs_redis_gap_reason s;
     bs_redis_transport_status := bs_redis_transport_status s;
     bs_redis_transport_retry_count := bs_redis_transport_retry_count s;
     bs_redis_transport_last_error := bs_redis_transport_last_error s;
     bs_publisher_to_consumer_delay_ms := Some (saturating_sub now_ms published_at_ms);
     bs_restart_count := bs_restart_count s; bs_last_error := bs_last_error s |}.

Definition mark_disconnected (error : option string)
    (s : BroadcasterSubscriptionStatusData) : BroadcasterSubscriptionStatusData :=
  {| bs_connected := false; bs_bootstrap_complete := false; bs_stream_id := None;
     bs_snapshot_id := None; bs_redis_replay_boundary := None;
     bs_redis_replay_checkpoint := None; bs_redis_replay_caught_up := false;
     bs_redis_gap_reason := None; bs_redis_transport_status := Connecting;
     bs_redis_transport_retry_count := 0; bs_redis_transport_last_error := None;
     bs_publisher_to_consumer_delay_ms := None;
     bs_restart_count := saturating_add (bs_restart_count s) 1;
     bs_last_error := error |}.

(** ** Stream health *)

Record StreamHealthData := {
  sh_started_at : option Instant;
  sh_last_update_at : option Instant;
  sh_last_block : u64;
  sh_missing_block_burst : u64;
  sh_missing_block_total : u64;
  sh_missing_block_window_start : option Instant;
  sh_error_burst : u64;
  sh_error_total : u64;
  sh_error_window_start : option Instant;
  sh_advanced_burst : u64;
  sh_advanced_total : u64;
  sh_advanced_window_start : option Instant;
  sh_restart_count : u64;
  sh_last_error : option string;
}.

Definition health_default : StreamHealthData :=
  {| sh_started_at := None; sh_last_update_at := None; sh_last_block := 0;
     sh_missing_block_burst := 0; sh_missing_block_total := 0;
     sh_missing_block_window_start := None; sh_error_burst := 0; sh_error_total := 0;
     sh_error_window_start := None; sh_advanced_burst := 0; sh_advanced_total := 0;
     sh_advanced_window_start := None; sh_restart_count := 0; sh_last_error := None |}.

Definition mark_started (now : Instant) (h : StreamHealthData) : StreamHealthData :=
  {| sh_started_at := Some now; sh_last_update_at := None; sh_last_block := 0;
     sh_missing_block_burst := sh_missing_block_burst h;
     sh_missing_block_total := sh_missing_block_total h;
     sh_missing_block_window_start := sh_missing_block_window_start h;
     sh_error_burst := sh_error_burst h; sh_error_total := sh_error_total h;
     sh_error_window_start := sh_error_window_start h;
     sh_advanced_burst := sh_advanced_burst h; sh_advanced_total := sh_advanced_total h;
     sh_advanced_window_start := sh_advanced_window_start h;
     sh_restart_count := sh_restart_count h; sh_last_error := sh_last_error h |}.

Definition mark_started_preserving_head (now : Instant) (h : StreamHealthData) : StreamHealthData :=
  {| sh_started_at := Some now; sh_last_update_at := None;
     sh_last_block := sh_last_block h;
     sh_missing_block_burst := sh_missing_block_burst h;
     sh_missing_block_total := sh_missing_block_total h;
     sh_missing_block_window_start := sh_missing_block_window_start h;
     sh_error_burst := sh_error_burst h; sh_error_total := sh_error_total h;
     sh_error_window_start := sh_error_window_start h;
     sh_advanced_burst := sh_advanced_burst h; sh_advanced_total := sh_advanced_total h;
     sh_advanced_window_start := sh_advanced_window_start h;
     sh_restart_count := sh_restart_count h; sh_last_error := sh_last_error h |}.

Definition record_update (now : Instant) (block : u64) (h : StreamHealthData) : StreamHealthData :=
  {| sh_started_at := sh_started_at h; sh_last_update_at := Some now;
     sh_last_block := block; sh_missing_block_burst := sh_missing_block_burst h;
     sh_missing_block_total := sh_missing_block_total h;
     sh_missing_block_window_start := sh_missing_block_window_start h;
     sh_error_burst := sh_error_burst h; sh_error_total := sh_error_total h;
     sh_error_window_start := sh_error_window_start h;
     sh_advanced_burst := sh_advanced_burst h; sh_advanced_total := sh_advanced_total h;
     sh_advanced_window_start := sh_advanced_window_start h;
     sh_restart_count := sh_restart_count h; sh_last_error := sh_last_error h |}.

Definition record_progress (now : Instant) (block : u64) (h : StreamHealthData) :
    StreamHealthData :=
  if (sh_last_block h <? block)%N then record_update now block h else h.

Record BurstUpdate := {
  bu_burst_count : u64;
  bu_total_count : u64;
  bu_window_started : bool;
}.

(** The shared body of the two bursts: a window older than [window] is closed, and an
    event outside a window opens one. *)
Definition burst_window (now : Instant) (window : Duration) (burst : u64)
    (start : option Instant) : u64 * option Instant * bool :=
  let '(burst, start) :=
    match start with
    | Some st =>
        if (window <? saturating_duration_since now st)%N then (0%N, None) else (burst, start)
    | None => (burst, start)
    end in
  let started := bool_decide (start = None) in
  let start := if started then Some now else start in
  (saturating_add burst 1, start, started).

Definition record_missing_block (now : Instant) (window : Duration) (h : StreamHealthData) :
    BurstUpdate * StreamHealthData :=
  let total := saturating_add (sh_missing_block_total h) 1 in
  let '(burst, start, started) :=
    burst_window now window (sh_missing_block_burst h) (sh_missing_block_window_start h) in
  ({| bu_burst_count := burst; bu_total_count := total; bu_window_started := started |},
   {| sh_started_at := sh_started_at h; sh_last_update_at := sh_last_update_at h;
     sh_last_block := sh_last_block h; sh_missing_block_burst := burst;
     sh_missing_block_total := total; sh_missing_block_window_start := start;
     sh_error_burst := sh_error_burst h; sh_error_total := sh_error_total h;
     sh_error_window_start := sh_error_window_start h;
     sh_advanced_burst := sh_advanced_burst h; sh_advanced_total := sh_advanced_total h;
     sh_advanced_window_start := sh_advanced_window_start h;
     sh_restart_count := sh_restart_count h; sh_last_error := sh_last_error h |}).

Definition record_error (now : Instant) (window : Duration) (h : StreamHealthData) :
    BurstUpdate * StreamHealthData :=
  let total := saturating_add (sh_error_total h) 1 in
  let '(burst, start, started) :=
    burst_window now window (sh_error_burst h) (sh_error_window_start h) in
  ({| bu_burst_count := burst; bu_total_count := total; bu_window_started := started |},
   {| sh_started_at := sh_started_at h; sh_last_update_at := sh_last_update_at h;
     sh_last_block := sh_last_block h;
     sh_missing_block_burst := sh_missing_block_burst h;
     sh_missing_block_total := sh_missing_block_total h;
     sh_missing_block_window_start := sh_missing_block_window_start h;
     sh_error_burst := burst; sh_error_total := total; sh_error_window_start := start;
     sh_advanced_burst := sh_advanced_burst h; sh_advanced_total := sh_advanced_total h;
     sh_advanced_window_start := sh_advanced_window_start h;
     sh_restart_count := sh_restart_count h; sh_last_error := sh_last_error h |}).

Record AdvancedUpdate := {
  au_burst_count : u64;
  au_total_count : u64;
  au_window_started : bool;
  au_elapsed : Duration;
}.

Definition record_advanced (now : Instant) (h : StreamHealthData) :
    AdvancedUpdate * StreamHealthData :=
  let total := saturating_add (sh_advanced_total h) 1 in
  let started := bool_decide (sh_advanced_window_start h = None) in
  let start := if started then Some now else sh_advanced_window_start h in
  let burst := saturating_add (if started then 0%N else sh_advanced_burst h) 1 in
  let elapsed := from_option (saturating_duration_since now) 0%N start in
  ({| au_burst_count := burst; au_total_count := total; au_window_started := started;
      au_elapsed := elapsed |},
   {| sh_started_at := sh_started_at h; sh_last_update_at := sh_last_update_at h;
     sh_last_block := sh_last_block h;
     sh_missing_block_burst := sh_missing_block_burst h;
     sh_missing_block_total := sh_missing_block_total h;
     sh_missing_block_window_start := sh_missing_block_window_start h;
     sh_error_burst := sh_error_burst h; sh_error_total := sh_error_total h;
     sh_error_window_start := sh_error_window_start h; sh_advanced_burst := burst;
     sh_advanced_total := total; sh_advanced_window_start := start;
     sh_restart_count := sh_restart_count h; sh_last_error := sh_last_error h |}).

Definition clear_advanced (h : StreamHealthData) : StreamHealthData :=
  {| sh_started_at := sh_started_at h; sh_last_update_at := sh_last_update_at h;
     sh_last_block := sh_last_block h;
     sh_missing_block_burst := sh_missing_block_burst h;
     sh_missing_block_total := sh_missing_block_total h;
     sh_missing_block_window_start := sh_missing_block_window_start h;
     sh_error_burst := sh_error_burst h; sh_error_total := sh_error_total h;
     sh_error_window_start := sh_error_window_start h; sh_advanced_burst := 0;
     sh_advanced_total := sh_advanced_total h; sh_advanced_window_start := None;
     sh_restart_count := sh_restart_count h; sh_last_error := sh_last_error h |}.

Definition increment_restart (h : StreamHealthData) : u64 * StreamHealthData :=
  let restart_count := saturating_add (sh_restart_count h) 1 in
  (restart_count,
   {| sh_started_at := sh_started_at h; sh_last_update_at := sh_last_update_at h;
     sh_last_block := sh_last_block h;
     sh_missing_block_burst := sh_missing_block_burst h;
     sh_missing_block_total := sh_missing_block_total h;
     sh_missing_block_window_start := sh_missing_block_window_start h;
     sh_error_burst := sh_error_burst h; sh_error_total := sh_error_total h;
     sh_error_window_start := sh_error_window_start h;
     sh_advanced_burst := sh_advanced_burst h; sh_advanced_total := sh_advanced_total h;
     sh_advanced_window_start := sh_advanced_window_start h;
     sh_restart_count := restart_count; sh_last_error := sh_last_error h |}).

Definition reset_bursts (h : StreamHealthData) : StreamHealthData :=
  {| sh_started_at := sh_started_at h; sh_last_update_at := sh_last_update_at h;
     sh_last_block := sh_last_block h; sh_missing_block_burst := 0;
     sh_missing_block_total := sh_missing_block_total h;
     sh_missing_block_window_start := None; sh_error_burst := 0;
     sh_error_total := sh_error_total h; sh_error_window_start := None;
     sh_advanced_burst := 0; sh_advanced_total := sh_advanced_total h;
     sh_advanced_window_start := None; sh_restart_count := sh_restart_count h;
     sh_last_error := sh_last_error h |}.

Definition set_last_error (message : option string) (h : StreamHealthData) : StreamHealthData :=
  {| sh_started_at := sh_started_at h; sh_last_update_at := sh_last_update_at h;
     sh_last_block := sh_last_block h;
     sh_missing_block_burst := sh_missing_block_burst h;
     sh_missing_block_total := sh_missing_block_total h;
     sh_missing_block_window_start := sh_missing_block_window_start h;
     sh_error_burst := sh_error_burst h; sh_error_total := sh_error_total h;
     sh_error_window_start := sh_error_window_start h;
     sh_advanced_burst := sh_advanced_burst h; sh_advanced_total := sh_advanced_total h;
     sh_advanced_window_start := sh_advanced_window_start h;
     sh_restart_count := sh_restart_count h; sh_last_error := message |}.

Definition started_age_ms (now : Instant) (h : StreamHealthData) : option u64 :=
  (λ instant, as_millis_u64 (saturating_duration_since now instant)) <$> sh_started_at h.

Definition last_update_age_ms (now : Instant) (h : StreamHealthData) : option u64 :=
  (λ instant, as_millis_u64 (saturating_duration_since now instant)) <$> sh_last_update_at h.

Definition has_received_update (h : StreamHealthData) : bool :=
  bool_decide (is_Some (sh_last_update_at h)).
