(* ===== verification/Readiness.v ===== *)
(** * Readiness of a simulator

    The readiness half of [runtime/src/models/state.rs]: which backends may answer, why
    one may not, the status page, and the checks of requests and encodings.  An operation
    of [AppState] reads the three stores, the subscriptions and the stream healths it is
    given, at the time [now]. *)

From S2P Require Import Prelude Ordered Text Protocol.
From S2P Require Import Wire Validate RedisEntry.
From S2P Require Import TychoFeed Store Health.

(** ** Labels *)

Inductive NativeReadiness :=
| NativeReady
| NativeWarmingUp
| NativeStale.

Definition NativeReadiness_label (r : NativeReadiness) : string :=
  match r with
  | NativeReady => "ready"
  | NativeWarmingUp => "warming_up"
  | NativeStale => "stale"
  end.

Inductive VmReadiness :=
| VmDisabled
| VmWarmingUp
| VmRebuilding
| VmReady
| VmStale.

Definition VmReadiness_label (r : VmReadiness) : string :=
  match r with
  | VmDisabled => "disabled"
  | VmWarmingUp => "warming_up"
  | VmRebuilding => "rebuilding"
  | VmReady => "ready"
  | VmStale => "stale"
  end.

Inductive RfqReadiness :=
| RfqDisabled
| RfqWarmingUp
| RfqRebuilding
| RfqReady
| RfqStale.

Definition RfqReadiness_label (r : RfqReadiness) : string :=
  match r with
  | RfqDisabled => "disabled"
  | RfqWarmingUp => "warming_up"
  | RfqRebuilding => "rebuilding"
  | RfqReady => "ready"
  | RfqStale => "stale"
  end.

Inductive SimulatorServiceStatus :=
| ServiceReady
| ServiceWarmingUp
| ServiceStale.

Definition SimulatorServiceStatus_label (r : SimulatorServiceStatus) : string :=
  match r with
  | ServiceReady => "ready"
  | ServiceWarmingUp => "warming_up"
  | ServiceStale => "stale"
  end.

Inductive SimulatorBackendKind :=
| KindNative
| KindVm
| KindRfq.

Definition SimulatorBackendKind_label (k : SimulatorBackendKind) : string :=
  match k with
  | KindNative => "native"
  | KindVm => "vm"
  | KindRfq => "rfq"
  end.

Inductive SimulatorBackendReadiness :=
| BackendDisabled
| BackendWarmingUp
| BackendRebuilding
| BackendReady
| BackendStale.

#[export] Instance SimulatorBackendReadiness_eq_dec : EqDecision SimulatorBackendReadiness.
Proof. solve_decision. Defined.

Definition SimulatorBackendReadiness_label (r : SimulatorBackendReadiness) : string :=
  match r with
  | BackendDisabled => "disabled"
  | BackendWarmingUp => "warming_up"
  | BackendRebuilding => "rebuilding"
  | BackendReady => "ready"
  | BackendStale => "stale"
  end.

Inductive SimulatorReadinessReason :=
| DisabledByConfig
| BroadcasterDisconnected
| SnapshotBootstrapping
| RedisReplayCatchingUp
| RedisReplayGap
| StateWarmingUp
| RebuildingReason
| StaleReason.

Definition SimulatorReadinessReason_label (r : SimulatorReadinessReason) : string :=
  match r with
  | DisabledByConfig => "disabled_by_config"
  | BroadcasterDisconnected => "broadcaster_disconnected"
  | SnapshotBootstrapping => "snapshot_bootstrapping"
  | RedisReplayCatchingUp => "redis_replay_catching_up"
  | RedisReplayGap => "redis_replay_gap"
  | StateWarmingUp => "state_warming_up"
  | RebuildingReason => "rebuilding"
  | StaleReason => "stale"
  end.

Inductive EncodeAvailability :=
| EncodeReady
| EncodeNativeWarmingUp
| EncodeNativeStale
| EncodeVmDisabled
| EncodeVmWarmingUp
| EncodeVmRebuilding
| EncodeVmStale
| EncodeRfqDisabled
| EncodeRfqWarmingUp
| EncodeRfqRebuilding
| EncodeRfqStale.

Definition availability_message (a : EncodeAvailability) : option string :=
  match a with
  | EncodeReady => None
  | EncodeNativeWarmingUp => Some "Encode unavailable: native state warming up"
  | EncodeNativeStale => Some "Encode unavailable: native state stale"
  | EncodeVmDisabled => Some "Encode unavailable: VM pools disabled for requested route"
  | EncodeRfqDisabled => Some "Encode unavailable: RFQ pools disabled for requested route"
  | EncodeVmWarmingUp => Some "Encode unavailable: VM state warming up for requested route"
  | EncodeRfqWarmingUp => Some "Encode unavailable: RFQ state warming up for requested route"
  | EncodeVmRebuilding => Some "Encode unavailable: VM state rebuilding for requested route"
  | EncodeRfqRebuilding => Some "Encode unavailable: RFQ state rebuilding for requested route"
  | EncodeVmStale => Some "Encode unavailable: VM state stale for requested route"
  | EncodeRfqStale => Some "Encode unavailable: RFQ state stale for requested route"
  end.

(** ** Decisions on one backend *)

Definition is_update_stale (last_update_age_ms : option u64) (readiness_stale_ms : u64) : bool :=
  match last_update_age_ms with
  | Some age => (readiness_stale_ms <=? age)%N
  | None => true
  end.

Definition subscription_readiness_reason (subscription : BroadcasterSubscriptionStatusData) :
    option SimulatorReadinessReason :=
  if bool_decide (is_Some (bs_redis_gap_reason subscription)) then Some RedisReplayGap
  else if negb (bs_connected subscription) then Some BroadcasterDisconnected
  else if negb (bs_bootstrap_complete subscription) then Some SnapshotBootstrapping
  else if negb (bs_redis_replay_caught_up subscription) then Some RedisReplayCatchingUp
  else None.

Definition is_none {A} (o : option A) : bool :=
  match o with Some _ => false | None => true end.

Definition or_else {A} (a b : option A) : option A :=
  match a with Some _ => a | None => b end.

Record VmStreamStatus := {
  vs_rebuilding : bool;
  vs_restart_count : u64;
  vs_last_error : option string;
  vs_rebuild_started_at : option Instant;
}.

Record SimulatorBackendStatusSnapshot := {
  st_kind : SimulatorBackendKind;
  st_enabled : bool;
  st_readiness : SimulatorBackendReadiness;
  st_reason : option SimulatorReadinessReason;
  st_block_number : option u64;
  st_update_timestamp : option u64;
  st_pool_count : nat;
  st_restart_count : u64;
  st_last_error : option string;
  st_rebuild_duration_ms : option u64;
  st_last_update_age_ms : option u64;
  st_publisher_to_consumer_delay_ms : option u64;
  st_subscription : option BroadcasterSubscriptionStatusData;
}.

Definition service_status_from_backends (backends : list SimulatorBackendStatusSnapshot) :
    SimulatorServiceStatus :=
  match from_option st_readiness BackendWarmingUp (head backends) with
  | BackendReady => ServiceReady
  | BackendStale => ServiceStale
  | _ => ServiceWarmingUp
  end.

Section app.
Context `{TychoTokens}.

Record AppState := {
  app_chain_id : u64;
  app_native_subscription : BroadcasterSubscriptionStatusData;
  app_vm_subscription : BroadcasterSubscriptionStatusData;
  app_rfq_subscription : BroadcasterSubscriptionStatusData;
  app_native_state_store : StateStore;
  app_vm_state_store : StateStore;
  app_rfq_state_store : StateStore;
  app_native_stream_health : StreamHealthData;
  app_vm_stream_health : StreamHealthData;
  app_rfq_stream_health : StreamHealthData;
  app_vm_stream : VmStreamStatus;
  app_configured_vm : bool;
  app_configured_rfq : bool;
  app_enable_vm_pools : bool;
  app_enable_rfq_pools : bool;
  app_native_progress_lease : Duration;
  app_optional_backend_stale : Duration;
}.

Section now.
Context (now : Instant) (app : AppState).

Definition native_broadcaster_bootstrap_ready : bool :=
  is_none (subscription_readiness_reason (app_native_subscription app)).
Definition vm_broadcaster_bootstrap_ready : bool :=
  is_none (subscription_readiness_reason (app_vm_subscription app)).
Definition rfq_broadcaster_bootstrap_ready : bool :=
  is_none (subscription_readiness_reason (app_rfq_subscription app)).

Definition optional_backend_stale_ms : u64 := as_millis_u64 (app_optional_backend_stale app).
Definition native_progress_lease_ms : u64 := as_millis_u64 (app_native_progress_lease app).

Definition native_update_age_ms : option u64 :=
  last_update_age_ms now (app_native_stream_health app).
Definition vm_update_age_ms : option u64 := last_update_age_ms now (app_vm_stream_health app).
Definition rfq_update_age_ms : option u64 := last_update_age_ms now (app_rfq_stream_health app).

Definition store_block (s : StateStore) : u64 := ps_block_number (ss_published s).
Definition store_pools (s : StateStore) : nat := total_states (ss_published s).

Definition native_readiness : NativeReadiness :=
  if negb native_broadcaster_bootstrap_ready then NativeWarmingUp
  else
    let '(state_ready, requests_allowed, _) := request_snapshot (app_native_state_store app) in
    if negb state_ready || negb requests_allowed then NativeWarmingUp
    else if is_update_stale native_update_age_ms native_progress_lease_ms then NativeStale
    else NativeReady.

Definition native_request_is_current (pinned_generation : u64) : bool :=
  if negb native_broadcaster_bootstrap_ready then false
  else if is_update_stale native_update_age_ms native_progress_lease_ms then false
  else
    let '(state_ready, requests_allowed, current_generation) :=
      request_snapshot (app_native_state_store app) in
    state_ready && requests_allowed && (current_generation =? pinned_generation)%N.

Definition vm_readiness : VmReadiness :=
  if negb (app_enable_vm_pools app) then VmDisabled
  else if vs_rebuilding (app_vm_stream app) then VmRebuilding
  else if negb vm_broadcaster_bootstrap_ready then VmWarmingUp
  else if negb (is_ready (app_vm_state_store app)) then VmWarmingUp
  else if is_update_stale vm_update_age_ms optional_backend_stale_ms then VmStale
  else VmReady.

Definition rfq_readiness : RfqReadiness :=
  if negb (app_enable_rfq_pools app) then RfqDisabled
  else if negb rfq_broadcaster_bootstrap_ready then RfqWarmingUp
  else if negb (is_ready (app_rfq_state_store app)) then RfqWarmingUp
  else if is_update_stale rfq_update_age_ms optional_backend_stale_ms then RfqStale
  else RfqReady.

Definition app_is_ready : bool :=
  match native_readiness with NativeReady => true | _ => false end.
Definition vm_ready : bool := match vm_readiness with VmReady => true | _ => false end.
Definition rfq_ready : bool := match rfq_readiness with RfqReady => true | _ => false end.

Definition current_vm_block : option u64 :=
  if negb vm_ready then None else Some (store_block (app_vm_state_store app)).
Definition current_rfq_update_timestamp : option u64 :=
  if negb rfq_ready then None else Some (store_block (app_rfq_state_store app)).

Definition total_pools : nat :=
  store_pools (app_native_state_store app) + store_pools (app_vm_state_store app)
  + store_pools (app_rfq_state_store app).

(** ** The status page *)

Definition native_status_snapshot : SimulatorBackendStatusSnapshot :=
  let subscription := app_native_subscription app in
  let subscription_reason := subscription_readiness_reason subscription in
  let last_update_age_ms := native_update_age_ms in
  let '(state_ready, requests_allowed, _) := request_snapshot (app_native_state_store app) in
  let readiness :=
    if negb (is_none subscription_reason) || negb state_ready || negb requests_allowed then
      BackendWarmingUp
    else if is_update_stale last_update_age_ms native_progress_lease_ms then BackendStale
    else BackendReady in
  let reason :=
    match readiness with
    | BackendWarmingUp => or_else subscription_reason (Some StateWarmingUp)
    | BackendStale => Some StaleReason
    | BackendReady | BackendDisabled | BackendRebuilding => None
    end in
  {| st_kind := KindNative; st_enabled := true; st_readiness := readiness;
     st_reason := reason;
     st_block_number := Some (store_block (app_native_state_store app));
     st_update_timestamp := None;
     st_pool_count := store_pools (app_native_state_store app);
     st_restart_count := sh_restart_count (app_native_stream_health app);
     st_last_error :=
       or_else (bs_last_error subscription) (sh_last_error (app_native_stream_health app));
     st_rebuild_duration_ms := None; st_last_update_age_ms := last_update_age_ms;
     st_publisher_to_consumer_delay_ms := bs_publisher_to_consumer_delay_ms subscription;
     st_subscription := Some subscription |}.

Definition vm_status_snapshot : SimulatorBackendStatusSnapshot :=
  let subscription := app_vm_subscription app in
  let subscription_reason := subscription_readiness_reason subscription in
  let stream_status := app_vm_stream app in
  let last_update_age_ms := vm_update_age_ms in
  let readiness :=
    if negb (app_enable_vm_pools app) then BackendDisabled
    else if vs_rebuilding stream_status then BackendRebuilding
    else if negb (is_none subscription_reason) || negb (is_ready (app_vm_state_store app)) then
      BackendWarmingUp
    else if is_update_stale last_update_age_ms optional_backend_stale_ms then BackendStale
    else BackendReady in
  let reason :=
    match readiness with
    | BackendDisabled => Some DisabledByConfig
    | BackendRebuilding => Some RebuildingReason
    | BackendWarmingUp => or_else subscription_reason (Some StateWarmingUp)
    | BackendStale => Some StaleReason
    | BackendReady => None
    end in
  {| st_kind := KindVm; st_enabled := app_enable_vm_pools app; st_readiness := readiness;
     st_reason := reason;
     st_block_number :=
       if app_enable_vm_pools app then Some (store_block (app_vm_state_store app)) else None;
     st_update_timestamp := None;
     st_pool_count := store_pools (app_vm_state_store app);
     st_restart_count := vs_restart_count stream_status;
     st_last_error := or_else (bs_last_error subscription) (vs_last_error stream_status);
     st_rebuild_duration_ms :=
       match readiness with
       | BackendRebuilding =>
           (λ instant, as_millis_u64 (saturating_duration_since now instant))
             <$> vs_rebuild_started_at stream_status
       | _ => None
       end;
     st_last_update_age_ms := last_update_age_ms;
     st_publisher_to_consumer_delay_ms := bs_publisher_to_consumer_delay_ms subscription;
     st_subscription := if app_enable_vm_pools app then Some subscription else None |}.

Definition rfq_status_snapshot : SimulatorBackendStatusSnapshot :=
  let subscription := app_rfq_subscription app in
  let subscription_reason := subscription_readiness_reason subscription in
  let last_update_age_ms := rfq_update_age_ms in
  let readiness :=
    if negb (app_enable_rfq_pools app) then BackendDisabled
    else if negb (is_none subscription_reason) || negb (is_ready (app_rfq_state_store app)) then
      BackendWarmingUp
    else if is_update_stale last_update_age_ms optional_backend_stale_ms then BackendStale
    else BackendReady in
  let reason :=
    match readiness with
    | BackendDisabled => Some DisabledByConfig
    | BackendWarmingUp => or_else subscription_reason (Some StateWarmingUp)
    | BackendStale => Some StaleReason
    | BackendReady | BackendRebuilding => None
    end in
  {| st_kind := KindRfq; st_enabled := app_enable_rfq_pools app; st_readiness := readiness;
     st_reason := reason; st_block_number := None;
     st_update_timestamp :=
       if is_ready (app_rfq_state_store app)
       then Some (store_block (app_rfq_state_store app)) else None;
     st_pool_count := store_pools (app_rfq_state_store app);
     st_restart_count := bs_restart_count subscription;
     st_last_error := bs_last_error subscription;
     st_rebuild_duration_ms := None; st_last_update_age_ms := last_update_age_ms;
     st_publisher_to_consumer_delay_ms := bs_publisher_to_consumer_delay_ms subscription;
     st_subscription := if app_enable_rfq_pools app then Some subscription else None |}.

Record SimulatorStatusSnapshot := {
  page_status : SimulatorServiceStatus;
  page_chain_id : u64;
  page_backends : list SimulatorBackendStatusSnapshot;
}.

Definition status_snapshot : SimulatorStatusSnapshot :=
  let backends := [native_status_snapshot] in
  let backends :=
    if app_configured_vm app then backends ++ [vm_status_snapshot] else backends in
  let backends :=
    if app_configured_rfq app then backends ++ [rfq_status_snapshot] else backends in
  {| page_status := service_status_from_backends backends;
     page_chain_id := app_chain_id app; page_backends := backends |}.

(** ** Requests and encodings *)

Definition encode_availability (uses_native uses_vm uses_rfq : bool) : EncodeAvailability :=
  let rfq :=
    if uses_rfq then
      match rfq_readiness with
      | RfqDisabled => EncodeRfqDisabled
      | RfqWarmingUp => EncodeRfqWarmingUp
      | RfqRebuilding => EncodeRfqRebuilding
      | RfqReady => EncodeReady
      | RfqStale => EncodeRfqStale
      end
    else EncodeReady in
  let vm :=
    if uses_vm then
      match vm_readiness with
      | VmDisabled => EncodeVmDisabled
      | VmWarmingUp => EncodeVmWarmingUp
      | VmRebuilding => EncodeVmRebuilding
      | VmReady => rfq
      | VmStale => EncodeVmStale
      end
    else rfq in
  if uses_native then
    match native_readiness with
    | NativeReady => vm
    | NativeWarmingUp => EncodeNativeWarmingUp
    | NativeStale => EncodeNativeStale
    end
  else vm.

Definition pool_rebuild_guard_requirements (id : string) :
    result EncodeAvailability (option (bool * bool)) :=
  if has_pool (ss_published (app_native_state_store app)) id then
    match native_readiness with
    | NativeReady => Ok (Some (false, false))
    | NativeWarmingUp => Err EncodeNativeWarmingUp
    | NativeStale => Err EncodeNativeStale
    end
  else if has_pool (ss_published (app_vm_state_store app)) id then
    match vm_readiness with
    | VmDisabled => Err EncodeVmDisabled
    | VmWarmingUp => Err EncodeVmWarmingUp
    | VmRebuilding => Err EncodeVmRebuilding
    | VmReady => Ok (Some (true, false))
    | VmStale => Err EncodeVmStale
    end
  else if has_pool (ss_published (app_rfq_state_store app)) id then
    match rfq_readiness with
    | RfqDisabled => Err EncodeRfqDisabled
    | RfqWarmingUp => Err EncodeRfqWarmingUp
    | RfqRebuilding => Err EncodeRfqRebuilding
    | RfqReady => Ok (Some (false, true))
    | RfqStale => Err EncodeRfqStale
    end
  else Ok None.

Definition pool_by_id (id : string) : result EncodeAvailability (option PoolEntry) :=
  if has_pool (ss_published (app_native_state_store app)) id then
    match native_readiness with
    | NativeReady => Ok (pool_by_id_from_published (pin (app_native_state_store app)) id)
    | NativeWarmingUp => Err EncodeNativeWarmingUp
    | NativeStale => Err EncodeNativeStale
    end
  else if has_pool (ss_published (app_vm_state_store app)) id then
    match vm_readiness with
    | VmDisabled => Err EncodeVmDisabled
    | VmWarmingUp => Err EncodeVmWarmingUp
    | VmRebuilding => Err EncodeVmRebuilding
    | VmReady => Ok (pool_by_id_from_published (pin (app_vm_state_store app)) id)
    | VmStale => Err EncodeVmStale
    end
  else if has_pool (ss_published (app_rfq_state_store app)) id then
    match rfq_readiness with
    | RfqDisabled => Err EncodeRfqDisabled
    | RfqWarmingUp => Err EncodeRfqWarmingUp
    | RfqRebuilding => Err EncodeRfqRebuilding
    | RfqReady => Ok (pool_by_id_from_published (pin (app_rfq_state_store app)) id)
    | RfqStale => Err EncodeRfqStale
    end
  else Ok None.
End now.

(** ** Waiting *)

Definition READINESS_POLL_INTERVAL_MS : u64 := 50.

(** The state of the application over time, and how late each sleep wakes up. *)
Section wait.
Context (app_at : Instant → AppState) (overshoot : nat → Duration).

Fixpoint wait_loop (fuel polls : nat) (now deadline : Instant) : option bool :=
  match fuel with
  | O => None
  | S fuel =>
      if (deadline <=? now)%N then Some (app_is_ready now (app_at now))
      else
        let remaining := saturating_duration_since deadline now in
        let sleep_for := N.min remaining (from_millis READINESS_POLL_INTERVAL_MS) in
        let now := (now + sleep_for + overshoot polls)%N in
        if app_is_ready now (app_at now) then Some true
        else wait_loop fuel (S polls) now deadline
  end.

Definition wait_for_readiness (fuel : nat) (now : Instant) (wait : Duration) : option bool :=
  if app_is_ready now (app_at now) then Some true
  else wait_loop fuel 0 now (now + wait)%N.
End wait.
End app.

(** ** The marks of a subscription *)

Inductive subscription_mark :=
| MarkConnected
| MarkSnapshotStarted (stream_id snapshot_id : string)
| MarkBootstrapComplete (boundary : BroadcasterRedisReplayBoundary)
| MarkRecoveryStarted
| MarkReplayCheckpoint (checkpoint : string)
| MarkCatchUpCheckpoint (checkpoint : string)
| MarkGap (reason : string)
| MarkTransportError (error : string)
| MarkTransportRecovered
| MarkTransportFailed (error : string)
| MarkDelay (now_ms published_at_ms : u64)
| MarkDisconnected (error : option string).

Definition apply_mark (s : BroadcasterSubscriptionStatusData) (m : subscription_mark) :
    BroadcasterSubscriptionStatusData :=
  match m with
  | MarkConnected => mark_connected s
  | MarkSnapshotStarted stream_id snapshot_id => mark_snapshot_started stream_id snapshot_id s
  | MarkBootstrapComplete boundary => mark_bootstrap_complete_with_redis_boundary boundary s
  | MarkRecoveryStarted => mark_recovery_started s
  | MarkReplayCheckpoint checkpoint => mark_redis_replay_checkpoint checkpoint s
  | MarkCatchUpCheckpoint checkpoint => mark_redis_catch_up_checkpoint checkpoint s
  | MarkGap reason => mark_redis_gap reason s
  | MarkTransportError error => mark_redis_transport_error error s
  | MarkTransportRecovered => mark_redis_transport_recovered s
  | MarkTransportFailed error => mark_redis_transport_failed error s
  | MarkDelay now_ms published_at_ms => record_publisher_to_consumer_delay now_ms published_at_ms s
  | MarkDisconnected error => mark_disconnected error s
  end.

(** The marks that leave a caught-up subscription caught up. *)
Definition keeps_ready (m : subscription_mark) : bool :=
  match m with
  | MarkReplayCheckpoint _ | MarkCatchUpCheckpoint _ | MarkTransportError _
  | MarkTransportRecovered | MarkTransportFailed _ | MarkDelay _ _ => true
  | _ => false
  end.

Definition subscribed (s : BroadcasterSubscriptionStatusData) : bool :=
  bs_connected s && bs_bootstrap_complete s.

Lemma ready_iff s :
  subscription_readiness_reason s = None ↔
  bs_redis_gap_reason s = None ∧ subscribed s = true ∧ bs_redis_replay_caught_up s = true.
Proof.
  unfold subscription_readiness_reason, subscribed.
  destruct (bs_redis_gap_reason s), (bs_connected s), (bs_bootstrap_complete s),
    (bs_redis_replay_caught_up s); naive_solver.
Qed.

Lemma keeps_subscribed s m :
  keeps_ready m = true → subscribed (apply_mark s m) = subscribed s.
Proof. by destruct m. Qed.

Lemma keeps_ready_mark s m :
  keeps_ready m = true → subscription_readiness_reason s = None →
  subscription_readiness_reason (apply_mark s m) = None.
Proof. rewrite !ready_iff. unfold subscribed. destruct m; cbn; naive_solver. Qed.

(** A gap is never reported on a caught-up subscription. *)
Definition gap_ok (s : BroadcasterSubscriptionStatusData) : Prop :=
  is_Some (bs_redis_gap_reason s) → bs_redis_replay_caught_up s = false.

Lemma gap_ok_mark s m : gap_ok s → gap_ok (apply_mark s m).
Proof. unfold gap_ok. by destruct m; cbn; intros Hs [? ?]; eauto. Qed.

Lemma gap_ok_marks marks s : gap_ok s → gap_ok (foldl apply_mark s marks).
Proof. revert s. induction marks; intros s Hs; [done|]. by apply IHmarks, gap_ok_mark. Qed.

Lemma ready_mark s m :
  gap_ok s → subscription_readiness_reason (apply_mark s m) = None →
  keeps_ready m = true ∧
  (subscription_readiness_reason s = None ∨
   ∃ checkpoint, m = MarkCatchUpCheckpoint checkpoint ∧ subscribed s = true).
Proof.
  rewrite !ready_iff. unfold gap_ok, subscribed. intros Hg.
  destruct m; cbn; intros (Hn & Hs & Hc); try done; split; try done; try (left; done).
  - left. destruct (bs_redis_gap_reason s); [|done]. by rewrite Hg in Hc by eauto.
  - right. eauto.
Qed.
