(* ===== verification/Requests.v ===== *)
(** * What a simulator answers

    The theorems on [Readiness]: when a subscription is ready, when a request may use the
    state it pinned, that the status page and the admission of requests agree, and that
    waiting for readiness ends. *)

From S2P Require Import Prelude Ordered Text Protocol.
From S2P Require Import Wire Validate RedisEntry TychoFeed.
From S2P Require Import Store StorePools StoreLife StoreQuery.
From S2P Require Import Health Readiness.

(** ** Readiness decisions *)

Definition backend_of_native (r : NativeReadiness) : SimulatorBackendReadiness :=
  match r with
  | NativeReady => BackendReady
  | NativeWarmingUp => BackendWarmingUp
  | NativeStale => BackendStale
  end.

Definition backend_of_vm (r : VmReadiness) : SimulatorBackendReadiness :=
  match r with
  | VmDisabled => BackendDisabled
  | VmWarmingUp => BackendWarmingUp
  | VmRebuilding => BackendRebuilding
  | VmReady => BackendReady
  | VmStale => BackendStale
  end.

Definition backend_of_rfq (r : RfqReadiness) : SimulatorBackendReadiness :=
  match r with
  | RfqDisabled => BackendDisabled
  | RfqWarmingUp => BackendWarmingUp
  | RfqRebuilding => BackendRebuilding
  | RfqReady => BackendReady
  | RfqStale => BackendStale
  end.

Definition service_of_native (r : NativeReadiness) : SimulatorServiceStatus :=
  match r with
  | NativeReady => ServiceReady
  | NativeWarmingUp => ServiceWarmingUp
  | NativeStale => ServiceStale
  end.

(** A status line gives a reason exactly when its backend is not ready. *)
Definition reason_given (st : SimulatorBackendStatusSnapshot) : Prop :=
  st_reason st = None ↔ st_readiness st = BackendReady.

Section decisions.
Context `{TychoTokens} (now : Instant) (app : AppState).

Abbreviation native_store := (app_native_state_store app).

Lemma is_none_true {A} (o : option A) : is_none o = true ↔ o = None.
Proof. by destruct o. Qed.

Lemma native_readiness_ready :
  native_readiness now app = NativeReady ↔
  subscription_readiness_reason (app_native_subscription app) = None ∧
  ps_ready (ss_published native_store) = true ∧
  ps_requests_allowed (ss_published native_store) = true ∧
  is_update_stale (native_update_age_ms now app) (native_progress_lease_ms app) = false.
Proof.
  unfold native_readiness, native_broadcaster_bootstrap_ready, request_snapshot.
  destruct (subscription_readiness_reason _), (ps_ready _), (ps_requests_allowed _),
    (is_update_stale _ _); naive_solver.
Qed.

Lemma native_current generation :
  native_request_is_current now app generation = true ↔
  native_readiness now app = NativeReady ∧
  ps_request_generation (ss_published native_store) = generation.
Proof.
  rewrite native_readiness_ready.
  unfold native_request_is_current, native_broadcaster_bootstrap_ready, request_snapshot.
  destruct (subscription_readiness_reason _), (ps_ready _), (ps_requests_allowed _),
    (is_update_stale _ _); cbn; rewrite ?N.eqb_eq; naive_solver.
Qed.

Lemma native_status :
  st_readiness (native_status_snapshot now app) = backend_of_native (native_readiness now app) ∧
  reason_given (native_status_snapshot now app).
Proof.
  unfold native_status_snapshot, native_readiness, native_broadcaster_bootstrap_ready,
    reason_given, request_snapshot. cbn [st_readiness st_reason].
  destruct (subscription_readiness_reason _), (ps_ready _), (ps_requests_allowed _),
    (is_update_stale _ _); cbn; naive_solver.
Qed.

Lemma vm_status :
  st_readiness (vm_status_snapshot now app) = backend_of_vm (vm_readiness now app) ∧
  reason_given (vm_status_snapshot now app).
Proof.
  unfold vm_status_snapshot, vm_readiness, vm_broadcaster_bootstrap_ready, reason_given.
  cbn [st_readiness st_reason].
  destruct (app_enable_vm_pools app), (vs_rebuilding (app_vm_stream app)),
    (subscription_readiness_reason (app_vm_subscription app)),
    (is_ready (app_vm_state_store app)),
    (is_update_stale (vm_update_age_ms now app) (optional_backend_stale_ms app));
    cbn; naive_solver.
Qed.

Lemma rfq_status :
  st_readiness (rfq_status_snapshot now app) = backend_of_rfq (rfq_readiness now app) ∧
  reason_given (rfq_status_snapshot now app).
Proof.
  unfold rfq_status_snapshot, rfq_readiness, rfq_broadcaster_bootstrap_ready, reason_given.
  cbn [st_readiness st_reason].
  destruct (app_enable_rfq_pools app),
    (subscription_readiness_reason (app_rfq_subscription app)),
    (is_ready (app_rfq_state_store app)),
    (is_update_stale (rfq_update_age_ms now app) (optional_backend_stale_ms app));
    cbn; naive_solver.
Qed.

Lemma encode_ready uses_native uses_vm uses_rfq :
  encode_availability now app uses_native uses_vm uses_rfq = EncodeReady ↔
  (uses_native = true → native_readiness now app = NativeReady) ∧
  (uses_vm = true → vm_readiness now app = VmReady) ∧
  (uses_rfq = true → rfq_readiness now app = RfqReady).
Proof.
  unfold encode_availability.
  destruct uses_native, uses_vm, uses_rfq, (native_readiness now app), (vm_readiness now app),
    (rfq_readiness now app); naive_solver.
Qed.

Lemma encode_message uses_native uses_vm uses_rfq :
  availability_message (encode_availability now app uses_native uses_vm uses_rfq) = None ↔
  encode_availability now app uses_native uses_vm uses_rfq = EncodeReady.
Proof. destruct (encode_availability _ _ _ _ _); naive_solver. Qed.

(** A consistent store that knows a pool has it. *)
Lemma has_pool_entry s id :
  store_wf s → has_pool (ss_published s) id = true →
  ∃ e, pool_by_id_from_published (pin s) id = Some e.
Proof. intros Hs Hp%bool_decide_eq_true. by apply (wf_known _ (pw_pools _ (proj1 Hs))). Qed.
End decisions.

(** ** Waiting *)

Section waiting.
Context `{TychoTokens} (app_at : Instant → AppState) (overshoot : nat → Duration).

Abbreviation ready_at t := (app_is_ready t (app_at t)).
Abbreviation interval := (from_millis READINESS_POLL_INTERVAL_MS).

(** Polls that are enough for a wait. *)
Definition poll_fuel (wait : Duration) : nat := S (S (N.to_nat (wait / interval))).

Lemma wait_loop_S fuel polls now deadline :
  wait_loop app_at overshoot (S fuel) polls now deadline =
  if (deadline <=? now)%N then Some (ready_at now)
  else
    let t := (now + N.min (saturating_duration_since deadline now) interval
              + overshoot polls)%N in
    if ready_at t then Some true else wait_loop app_at overshoot fuel (S polls) t deadline.
Proof. done. Qed.

Lemma wait_loop_done fuel polls now deadline :
  (deadline - now ≤ interval * N.of_nat fuel)%N →
  ∃ b t, wait_loop app_at overshoot (S fuel) polls now deadline = Some b ∧
    (now ≤ t)%N ∧ ready_at t = b ∧ (b = false → (deadline ≤ t)%N).
Proof.
  induction fuel as [|fuel IH] in polls, now |- *; intros Hf; rewrite wait_loop_S;
    (destruct (N.leb_spec deadline now) as [Hd|Hd]; [by eexists _, now|]).
  { exfalso. unfold from_millis, READINESS_POLL_INTERVAL_MS in *. lia. }
  cbn zeta. set (t := (now + _ + _)%N).
  assert (Ht : (now + N.min (deadline - now) interval ≤ t)%N)
    by (unfold t, saturating_duration_since; lia).
  destruct (ready_at t) eqn:Er; [exists true, t; split_and!; [done|lia|done|done]|].
  destruct (IH (S polls) t) as (b & t' & E & Hle & Hb & Hdl).
  - unfold from_millis, READINESS_POLL_INTERVAL_MS in *. lia.
  - exists b, t'. split_and!; [done|lia|done|done].
Qed.
End waiting.

(** ** Properties *)

Section properties.
Context `{TychoTokens, HashOrderLaws}.

(** A subscription is ready exactly when it last caught up with the stream while it
    was connected and bootstrapped, and nothing since was a reconnection, a new snapshot, a
    recovery, a gap or a disconnection; what the transport reports changes nothing. *)
Theorem ready_iff_caught_up (marks : list subscription_mark) :
  let s := foldl apply_mark subscription_default marks in
  subscription_readiness_reason s = None ↔
  ∃ before checkpoint after,
    marks = before ++ MarkCatchUpCheckpoint checkpoint :: after ∧
    subscribed (foldl apply_mark subscription_default before) = true ∧
    Forall (λ m, keeps_ready m = true) after.
Proof.
  cbn zeta. split.
  - induction marks as [|m marks IH] using rev_ind; [done|].
    rewrite foldl_app. cbn [foldl]. intros Hm.
    apply ready_mark in Hm as [Hk [Hr|(checkpoint & -> & Hs)]];
      [|by exists marks, checkpoint, []|apply gap_ok_marks; by intros [? ?]].
    destruct (IH Hr) as (before & checkpoint & after & -> & Hs & Ha).
    exists before, checkpoint, (after ++ [m]). rewrite <- app_assoc. split_and!; [done..|].
    apply Forall_app. split; [done|]. by constructor.
  - intros (before & checkpoint & after & -> & Hs & Ha).
    rewrite foldl_app. cbn [foldl]. apply foldl_inv.
    + by apply ready_iff.
    + intros s m Hin Hr. rewrite Forall_forall in Ha. by apply keeps_ready_mark; [apply Ha|].
Qed.

(** A request that passes the check with the generation it pinned has pinned the very
    state that is published: native is ready, requests are let in, and no operation has
    published anything in between, however many have run. *)
Theorem current_request_reads_published (now : Instant) (app : AppState) (s : StateStore)
    (Hl : rtc (store_step any_candidate any_update) s (app_native_state_store app))
    (Hmax : (ps_request_generation (pin (app_native_state_store app)) < u64_max)%N)
    (Hc : native_request_is_current now app (ps_request_generation (pin s)) = true) :
  native_readiness now app = NativeReady ∧ pin (app_native_state_store app) = pin s.
Proof.
  apply native_current in Hc as [Hr Hg]. split; [done|]. unfold pin in *.
  destruct (later_generation s (app_native_state_store app) Hl Hmax) as [->|Hlt]; [done|].
  exfalso. lia.
Qed.

(** The status page and the admission of requests agree: each line has the readiness
    the requests see, the service as a whole that of native, and a reason is given exactly
    for a backend that is not ready. *)
Theorem status_agrees_with_admission (now : Instant) (app : AppState) :
  let page := status_snapshot now app in
  page_status page = service_of_native (native_readiness now app) ∧
  (page_status page = ServiceReady ↔ app_is_ready now app = true) ∧
  Forall (λ st,
      reason_given st ∧
      st_readiness st =
      match st_kind st with
      | KindNative => backend_of_native (native_readiness now app)
      | KindVm => backend_of_vm (vm_readiness now app)
      | KindRfq => backend_of_rfq (rfq_readiness now app)
      end)
    (page_backends page).
Proof.
  destruct (native_status now app) as [En Hn], (vm_status now app) as [Ev Hv],
    (rfq_status now app) as [Er Hr].
  assert (Hs : page_status (status_snapshot now app) =
    service_of_native (native_readiness now app)).
  { unfold status_snapshot, service_status_from_backends. cbn [page_status].
    assert (Hh : ∀ rest, from_option st_readiness BackendWarmingUp
      (head (native_status_snapshot now app :: rest)) =
      backend_of_native (native_readiness now app)) by done.
    destruct (app_configured_vm app), (app_configured_rfq app);
      rewrite ?app_nil_l, <- ?app_comm_cons, Hh; by destruct (native_readiness now app). }
  cbn zeta. split_and!; [done| |].
  - rewrite Hs. unfold app_is_ready. destruct (native_readiness now app); naive_solver.
  - unfold status_snapshot. cbn [page_backends].
    destruct (app_configured_vm app), (app_configured_rfq app);
      rewrite ?Forall_app, ?Forall_singleton; by split_and?.
Qed.

(** Looking a pool up and asking which rebuilds it must be guarded from agree, and both
    refuse exactly the pools of a backend that is not ready, with a message: a pool is
    returned exactly when its guards are, its backends are then available to encode with,
    and an unknown pool is no error. *)
Theorem pool_lookup_guarded (updates : TychoUpdate → Prop) (now : Instant) (app : AppState)
    (id : string) (Hn : reachable updates (app_native_state_store app))
    (Hv : reachable updates (app_vm_state_store app))
    (Hr : reachable updates (app_rfq_state_store app)) :
  match pool_rebuild_guard_requirements now app id with
  | Ok (Some (uses_vm, uses_rfq)) =>
      (∃ e, pool_by_id now app id = Ok (Some e)) ∧
      encode_availability now app (negb (uses_vm || uses_rfq)) uses_vm uses_rfq = EncodeReady
  | Ok None =>
      pool_by_id now app id = Ok None ∧
      Forall (λ s, has_pool (pin s) id = false)
        [app_native_state_store app; app_vm_state_store app; app_rfq_state_store app]
  | Err a => pool_by_id now app id = Err a ∧ is_Some (availability_message a)
  end.
Proof.
  apply reachable_wf in Hn, Hv, Hr.
  unfold pool_rebuild_guard_requirements, pool_by_id, encode_availability.
  destruct (has_pool (ss_published (app_native_state_store app)) id) eqn:En.
  { destruct (has_pool_entry _ id Hn En) as [e ->].
    destruct (native_readiness now app); cbn; eauto. }
  destruct (has_pool (ss_published (app_vm_state_store app)) id) eqn:Ev.
  { destruct (has_pool_entry _ id Hv Ev) as [e ->].
    destruct (vm_readiness now app); cbn; eauto. }
  destruct (has_pool (ss_published (app_rfq_state_store app)) id) eqn:Er.
  { destruct (has_pool_entry _ id Hr Er) as [e ->].
    destruct (rfq_readiness now app); cbn; eauto. }
  split; [done|]. by repeat constructor.
Qed.

(** Waiting for readiness always returns, after at most one poll per interval of the
    wait and two more, however late the polls wake up; it returns true only when the
    simulator is ready at that moment, and false only when it is not and the wait is
    over. *)
Theorem wait_for_readiness_returns (app_at : Instant → AppState) (overshoot : nat → Duration)
    (now : Instant) (wait : Duration) :
  ∃ b t,
    wait_for_readiness app_at overshoot (poll_fuel wait) now wait = Some b ∧
    (now ≤ t)%N ∧ app_is_ready t (app_at t) = b ∧ (b = false → (now + wait ≤ t)%N).
Proof.
  unfold wait_for_readiness. destruct (app_is_ready now (app_at now)) eqn:E.
  - by exists true, now.
  - apply wait_loop_done. rewrite Nat2N.inj_succ, N2Nat.id.
    assert (Hd := N.div_mod wait (from_millis READINESS_POLL_INTERVAL_MS)).
    assert (Hm := N.mod_lt wait (from_millis READINESS_POLL_INTERVAL_MS)).
    unfold from_millis, READINESS_POLL_INTERVAL_MS in *. lia.
Qed.
End properties.

(** ** Witnesses *)

#[local] Existing Instances demo_tycho demo_tokens demo_order demo_order_laws.

Definition demo_subscription : BroadcasterSubscriptionStatusData :=
  foldl apply_mark subscription_default
    [MarkConnected; MarkSnapshotStarted "stream" "snapshot";
     MarkBootstrapComplete {| bd_stream_key := "events"; bd_stream_id := "stream";
       bd_snapshot_id := "snapshot"; bd_generation := 1; bd_exclusive_message_seq := 4; bd_state_version := 9 |};
     MarkReplayCheckpoint "1-5"; MarkCatchUpCheckpoint "1-6"; MarkTransportError "timeout"].

Definition demo_app : AppState :=
  {| app_chain_id := 1; app_native_subscription := demo_subscription;
     app_vm_subscription := subscription_default; app_rfq_subscription := subscription_default;
     app_native_state_store := demo_second; app_vm_state_store := demo_first;
     app_rfq_state_store := demo_first;
     app_native_stream_health := record_progress 100 7 (mark_started 50 health_default);
     app_vm_stream_health := health_default; app_rfq_stream_health := health_default;
     app_vm_stream := {| vs_rebuilding := false; vs_restart_count := 0; vs_last_error := None;
                         vs_rebuild_started_at := None |};
     app_configured_vm := true; app_configured_rfq := false;
     app_enable_vm_pools := false; app_enable_rfq_pools := false;
     app_native_progress_lease := from_secs 30; app_optional_backend_stale := from_secs 30 |}.

Lemma current_request_reads_published_witness :
  native_readiness 200 demo_app = NativeReady ∧
  pin (app_native_state_store demo_app) = pin demo_second.
Proof.
  apply current_request_reads_published; [apply rtc_refl|by vm_compute|by vm_compute].
Defined.

Lemma pool_lookup_guarded_witness :
  pool_rebuild_guard_requirements 200 demo_app "p1" = Ok (Some (false, false)) ∧
  match pool_rebuild_guard_requirements 200 demo_app "p1" with
  | Ok (Some (uses_vm, uses_rfq)) =>
      (∃ e, pool_by_id 200 demo_app "p1" = Ok (Some e)) ∧
      encode_availability 200 demo_app (negb (uses_vm || uses_rfq)) uses_vm uses_rfq
      = EncodeReady
  | Ok None =>
      pool_by_id 200 demo_app "p1" = Ok None ∧
      Forall (λ s, has_pool (pin s) "p1" = false)
        [app_native_state_store demo_app; app_vm_state_store demo_app;
         app_rfq_state_store demo_app]
  | Err a => pool_by_id 200 demo_app "p1" = Err a ∧ is_Some (availability_message a)
  end.
Proof.
  split; [by vm_compute|].
  apply (pool_lookup_guarded any_update); [by apply demo_second_reachable|apply ReachNew..].
Defined.
