(* ===== verification/Reassembly.v ===== *)
(** * Raw snapshot fragments

    [runtime/src/broadcaster/redis_subscription/snapshot.rs]: the raw messages of one
    protocol arrive in several snapshot chunks and are put together before they are
    decoded.  The fields of a raw message and of a stored account belong to the Tycho
    crates: the class [RawMessages] reads and writes them. *)

From S2P Require Import Prelude Ordered Text Protocol.
From S2P Require Import Wire Validate Codec TychoFeed.
From S2P Require Import RedisEntry Replay Recovery.

(** The compared fields of an account, in the order the code compares them. *)
Inductive AccountField :=
| FieldChain
| FieldAddress
| FieldTitle
| FieldNativeBalance
| FieldTokenBalances
| FieldCode
| FieldCodeHash
| FieldBalanceModifyTx
| FieldCodeModifyTx
| FieldCreationTx.

Definition account_fields : list AccountField :=
  [FieldChain; FieldAddress; FieldTitle; FieldNativeBalance; FieldTokenBalances; FieldCode;
   FieldCodeHash; FieldBalanceModifyTx; FieldCodeModifyTx; FieldCreationTx].

Definition account_field_name (f : AccountField) : string :=
  match f with
  | FieldChain => "chain"
  | FieldAddress => "address"
  | FieldTitle => "title"
  | FieldNativeBalance => "native_balance"
  | FieldTokenBalances => "token_balances"
  | FieldCode => "code"
  | FieldCodeHash => "code_hash"
  | FieldBalanceModifyTx => "balance_modify_tx"
  | FieldCodeModifyTx => "code_modify_tx"
  | FieldCreationTx => "creation_tx"
  end.

(** What the code reads and writes of a raw message: the identifiers of its snapshot
    states and removals, its accounts, and the four maps of its deltas that [merge]
    leaves out, a set being whatever [set_extend] extends. *)
Class RawMessages `{TychoTypes} := {
  BlockHeader_eq_dec :: EqDecision BlockHeader;
  header_debug : BlockHeader → string;
  bytes_display : Bytes → string;
  snapshot_state_ids : StateSyncMessage → list string;
  removed_component_ids : StateSyncMessage → list string;
  ResponseAccount : Type;
  account_field_eqb : AccountField → ResponseAccount → ResponseAccount → bool;
  account_slots : ResponseAccount → hashmap Bytes;
  set_account_slots : hashmap Bytes → ResponseAccount → ResponseAccount;
  vm_storage : StateSyncMessage → hashmap ResponseAccount;
  set_vm_storage : hashmap ResponseAccount → StateSyncMessage → StateSyncMessage;
  NewToken : Type;
  EntryPoints : Type;
  TraceResult : Type;
  no_entrypoints : EntryPoints;
  set_extend : EntryPoints → EntryPoints → EntryPoints;
  has_deltas : StateSyncMessage → bool;
  new_tokens : StateSyncMessage → hashmap NewToken;
  new_entrypoints : StateSyncMessage → hashmap EntryPoints;
  new_entrypoint_params : StateSyncMessage → hashmap EntryPoints;
  trace_results : StateSyncMessage → hashmap TraceResult;
  set_new_tokens : hashmap NewToken → StateSyncMessage → StateSyncMessage;
  set_dci_update : hashmap EntryPoints → hashmap EntryPoints → hashmap TraceResult →
    StateSyncMessage → StateSyncMessage;
  message_merge : StateSyncMessage → StateSyncMessage → StateSyncMessage;
}.

#[export] Instance SynchronizerState_eq_dec `{RawMessages} : EqDecision SynchronizerState.
Proof. solve_decision. Defined.

(** [HashMap::insert]; the order of a map that is written is not observed. *)
Definition hm_insert {V} (k : string) (v : V) (m : hashmap V) : hashmap V :=
  (k, v) :: filter (λ kv, kv.1 ≠ k) m.

Definition hm_extend {V} (m m' : hashmap V) : hashmap V :=
  foldl (λ m '(k, v), hm_insert k v m) m m'.

(** The messages by protocol, in protocol order. *)
Abbreviation RawSnapshotReassembly := (btree string BroadcasterProtocolMessage).

Section reassembly.
Context `{RawMessages}.

Definition synchronizer_debug (state : SynchronizerState) : string :=
  match state with
  | SyncStarted => "Started"
  | SyncReady header => "Ready(" +:+ header_debug header +:+ ")"
  | SyncDelayed header => "Delayed(" +:+ header_debug header +:+ ")"
  | SyncStale header => "Stale(" +:+ header_debug header +:+ ")"
  | SyncAdvanced header => "Advanced(" +:+ header_debug header +:+ ")"
  | SyncEnded reason => "Ended(" +:+ reason +:+ ")"
  end.

Definition ensure_raw_snapshot_fragment_identity
    (existing incoming : BroadcasterProtocolMessage) : anyhow unit :=
  if negb (bool_decide (ssm_header (pm_message existing) = ssm_header (pm_message incoming)))
  then
    anyhow_bail
      ("broadcaster snapshot raw fragment header mismatch for protocol "
         +:+ pm_protocol existing +:+ ": expected "
         +:+ header_debug (ssm_header (pm_message existing)) +:+ ", got "
         +:+ header_debug (ssm_header (pm_message incoming)))
  else if negb (bool_decide (pm_sync_state existing = pm_sync_state incoming)) then
    anyhow_bail
      ("broadcaster snapshot raw fragment sync_state mismatch for protocol "
         +:+ pm_protocol existing +:+ ": expected "
         +:+ synchronizer_debug (pm_sync_state existing) +:+ ", got "
         +:+ synchronizer_debug (pm_sync_state incoming))
  else Ok tt.

Definition ensure_no_duplicate_ids (protocol : string) (existing incoming : list string)
    (kind : string) : anyhow unit :=
  for_each (λ component_id,
      if bool_decide (component_id ∈ existing) then
        anyhow_bail
          ("broadcaster snapshot raw fragment duplicate " +:+ kind +:+ " for protocol "
             +:+ protocol +:+ ": " +:+ component_id)
      else Ok tt)
    incoming.

Definition ensure_no_snapshot_removal_overlap (protocol : string)
    (snapshots removals : list string) : anyhow unit :=
  for_each (λ component_id,
      if bool_decide (component_id ∈ removals) then
        anyhow_bail
          ("broadcaster snapshot raw fragment snapshot/removal overlap for protocol "
             +:+ protocol +:+ ": " +:+ component_id)
      else Ok tt)
    snapshots.

Definition ensure_raw_snapshot_fragment_conflicts
    (existing incoming : BroadcasterProtocolMessage) : anyhow unit :=
  let protocol := pm_protocol existing in
  let states := snapshot_state_ids (pm_message existing) in
  let removed := removed_component_ids (pm_message existing) in
  let incoming_states := snapshot_state_ids (pm_message incoming) in
  let incoming_removed := removed_component_ids (pm_message incoming) in
  ensure_no_duplicate_ids protocol states incoming_states "snapshot state" ;;
  ensure_no_duplicate_ids protocol removed incoming_removed "removed component" ;;
  ensure_no_snapshot_removal_overlap protocol states removed ;;
  ensure_no_snapshot_removal_overlap protocol incoming_states incoming_removed ;;
  ensure_no_snapshot_removal_overlap protocol states incoming_removed ;;
  ensure_no_snapshot_removal_overlap protocol incoming_states removed.

(** ** Accounts *)

Definition ensure_vm_account_metadata_matches (address : Bytes)
    (existing incoming : ResponseAccount) : anyhow unit :=
  match list_find (λ f, account_field_eqb f existing incoming = false) account_fields with
  | Some (_, field) =>
      anyhow_bail
        ("broadcaster snapshot VM storage metadata mismatch for account "
           +:+ bytes_display address +:+ " field " +:+ account_field_name field)
  | None => Ok tt
  end.

Definition merge_slot (address : Bytes) (slots : hashmap Bytes) (entry : Bytes * Bytes) :
    anyhow (hashmap Bytes) :=
  let (slot, value) := entry in
  match hm_get slot slots with
  | None => Ok (hm_insert slot value slots)
  | Some v =>
      if String.eqb v value then Ok slots
      else
        anyhow_bail
          ("broadcaster snapshot VM storage slot mismatch for account "
             +:+ bytes_display address +:+ " slot " +:+ bytes_display slot)
  end.

Definition merge_vm_storage_account (address : Bytes) (existing incoming : ResponseAccount) :
    anyhow ResponseAccount :=
  ensure_vm_account_metadata_matches address existing incoming ;;
  slots ← fold_result (merge_slot address) (account_slots existing) (account_slots incoming);
  Ok (set_account_slots slots existing).

Definition merge_vm_storage (existing incoming : hashmap ResponseAccount) :
    anyhow (hashmap ResponseAccount) :=
  fold_result (λ existing '(address, account),
      match hm_get address existing with
      | None => Ok (hm_insert address account existing)
      | Some present =>
          merged ← merge_vm_storage_account address present account;
          Ok (hm_insert address merged existing)
      end)
    existing incoming.

(** ** Messages *)

(** [entry(id).or_default().extend(set)] for each entry. *)
Definition extend_entrypoints (existing incoming : hashmap EntryPoints) : hashmap EntryPoints :=
  foldl (λ m '(id, entrypoints),
      hm_insert id (set_extend (default no_entrypoints (hm_get id m)) entrypoints) m)
    existing incoming.

Definition merge_snapshot_protocol_message (existing incoming : BroadcasterProtocolMessage) :
    anyhow BroadcasterProtocolMessage :=
  if negb (String.eqb (pm_protocol existing) (pm_protocol incoming)) then
    anyhow_bail
      ("broadcaster snapshot protocol mismatch: expected " +:+ pm_protocol existing
         +:+ ", got " +:+ pm_protocol incoming)
  else
    ensure_raw_snapshot_fragment_identity existing incoming ;;
    ensure_raw_snapshot_fragment_conflicts existing incoming ;;
    merged_vm_storage ←
      merge_vm_storage (vm_storage (pm_message existing)) (vm_storage (pm_message incoming));
    let existing_message := set_vm_storage [] (pm_message existing) in
    let incoming_message := set_vm_storage [] (pm_message incoming) in
    let '(incoming_new_tokens, entrypoints, params, traces) :=
      if has_deltas incoming_message then
        (new_tokens incoming_message, new_entrypoints incoming_message,
         new_entrypoint_params incoming_message, trace_results incoming_message)
      else ([], [], [], []) in
    let incoming_message :=
      if has_deltas incoming_message then
        set_dci_update [] [] [] (set_new_tokens [] incoming_message)
      else incoming_message in
    let merged := message_merge existing_message incoming_message in
    let merged := set_vm_storage merged_vm_storage merged in
    let merged :=
      if has_deltas merged then
        set_dci_update
          (extend_entrypoints (new_entrypoints merged) entrypoints)
          (extend_entrypoints (new_entrypoint_params merged) params)
          (hm_extend (trace_results merged) traces)
          (set_new_tokens (hm_extend (new_tokens merged) incoming_new_tokens) merged)
      else merged in
    Ok {| pm_protocol := pm_protocol existing; pm_sync_state := pm_sync_state existing;
          pm_message := merged |}.

Definition raw_snapshot_reset (self : RawSnapshotReassembly) : RawSnapshotReassembly := ∅.

Definition raw_snapshot_push (self : RawSnapshotReassembly)
    (message : BroadcasterProtocolMessage) : anyhow RawSnapshotReassembly :=
  match self !! pm_protocol message with
  | None => Ok (<[pm_protocol message := message]> self)
  | Some existing =>
      merged ← merge_snapshot_protocol_message existing message;
      Ok (<[pm_protocol message := merged]> self)
  end.

Definition take_messages (self : RawSnapshotReassembly) : list BroadcasterProtocolMessage :=
  bt_values self.
End reassembly.
