(* ===== verification/Processor.v ===== *)
(** * The processor of one backend

    [runtime/src/broadcaster/redis_subscription/processor.rs] and the controls of
    [runtime/src/broadcaster/redis_subscription.rs]: how the subscription of one backend
    applies snapshot and live envelopes to its state store.  The decoder of the Tycho
    crates and the database its simulations share are the class [TychoEngine].  The locks
    that keep simulations away while that database changes are booleans: held by the
    subscription or not.  Waiting for requests to release such a lock ends; waiting for
    the subscription itself does not, and is the outcome [Blocked]. *)

From S2P Require Import Prelude Ordered Text Protocol.
From S2P Require Import Wire Validate TychoFeed Tracker Codec.
From S2P Require Import RedisEntry Replay Recovery Store Health Readiness Reassembly.

(** ** Outside code *)

(** [engine_decode d]: the decoder number [d], which keeps a state of its own and writes
    to the shared database; its error is the text it displays. *)
Class TychoEngine `{TychoTypes} := {
  Engine : Type;
  engine_decode : nat → FeedMessage → Engine → result string TychoUpdate * Engine;
  engine_clear : Engine → Engine;
  update_merge : TychoUpdate → TychoUpdate → TychoUpdate;
}.

(** ** Controls *)

Inductive ControlsKind :=
| NativeControls
| VmControls (wire_backend : BroadcasterBackend) (recovery_guard_held : bool)
| RfqControls.

(** [SubscriptionRebuildState]: the lock it holds. *)
Inductive SubscriptionRebuildState := VmGuard | RfqGuard.

Section processor.
Context `{RawMessages} `{!TychoEngine} `{!TychoTokens}.

Record BroadcasterSubscriptionControls := {
  ct_kind : ControlsKind;
  ct_subscription : BroadcasterSubscriptionStatusData;
  ct_state_store : StateStore;
  ct_stream_health : StreamHealthData;
  ct_protocols : list string;
}.

Definition controls_backend (self : BroadcasterSubscriptionControls) : BroadcasterBackend :=
  match ct_kind self with
  | NativeControls => Native
  | VmControls wire_backend _ => wire_backend
  | RfqControls => Rfq
  end.

Definition logical_backend (self : BroadcasterSubscriptionControls) : BroadcasterBackend :=
  match ct_kind self with
  | NativeControls => Native
  | VmControls _ _ => Vm
  | RfqControls => Rfq
  end.

Definition backend_label (self : BroadcasterSubscriptionControls) : string :=
  BroadcasterBackend_as_str (logical_backend self).

(** What all controls of a subscription share. *)
Record World := {
  wd_tokens : TokenStore;
  wd_engine : Engine;
  wd_vm_stream : VmStreamStatus;
  wd_vm_gate_held : bool;
  wd_rfq_gate_held : bool;
}.

Record BroadcasterSubscriptionProcessor := {
  pr_decoder : nat;
  pr_expected_chain_id : u64;
  pr_controls : BroadcasterSubscriptionControls;
  pr_tracker : BroadcasterSubscriptionTracker;
  pr_raw_snapshot : RawSnapshotReassembly;
  pr_bootstrap_block : option u64;
  pr_bootstrap_redis_replay_boundary : option BroadcasterRedisReplayBoundary;
  pr_rebuild : option SubscriptionRebuildState;
}.

Definition with_decoder (decoder : nat) (expected_chain_id : u64)
    (controls : BroadcasterSubscriptionControls) (rebuild : option SubscriptionRebuildState) :
    BroadcasterSubscriptionProcessor :=
  {| pr_decoder := decoder; pr_expected_chain_id := expected_chain_id;
     pr_controls := controls; pr_tracker := tracker_new; pr_raw_snapshot := ∅;
     pr_bootstrap_block := None; pr_bootstrap_redis_replay_boundary := None;
     pr_rebuild := rebuild |}.

(** Field assignments. *)
Definition ct_set_subscription (f : BroadcasterSubscriptionStatusData →
    BroadcasterSubscriptionStatusData) (c : BroadcasterSubscriptionControls) :=
  {| ct_kind := ct_kind c; ct_subscription := f (ct_subscription c);
     ct_state_store := ct_state_store c; ct_stream_health := ct_stream_health c;
     ct_protocols := ct_protocols c |}.
Definition ct_set_store (f : StateStore → StateStore) (c : BroadcasterSubscriptionControls) :=
  {| ct_kind := ct_kind c; ct_subscription := ct_subscription c;
     ct_state_store := f (ct_state_store c); ct_stream_health := ct_stream_health c;
     ct_protocols := ct_protocols c |}.
Definition ct_set_health (f : StreamHealthData → StreamHealthData)
    (c : BroadcasterSubscriptionControls) :=
  {| ct_kind := ct_kind c; ct_subscription := ct_subscription c;
     ct_state_store := ct_state_store c; ct_stream_health := f (ct_stream_health c);
     ct_protocols := ct_protocols c |}.

Definition pr_set_controls (f : BroadcasterSubscriptionControls →
    BroadcasterSubscriptionControls) (p : BroadcasterSubscriptionProcessor) :=
  {| pr_decoder := pr_decoder p; pr_expected_chain_id := pr_expected_chain_id p;
     pr_controls := f (pr_controls p); pr_tracker := pr_tracker p;
     pr_raw_snapshot := pr_raw_snapshot p; pr_bootstrap_block := pr_bootstrap_block p;
     pr_bootstrap_redis_replay_boundary := pr_bootstrap_redis_replay_boundary p;
     pr_rebuild := pr_rebuild p |}.
Definition pr_set_tracker (tracker : BroadcasterSubscriptionTracker)
    (p : BroadcasterSubscriptionProcessor) :=
  {| pr_decoder := pr_decoder p; pr_expected_chain_id := pr_expected_chain_id p;
     pr_controls := pr_controls p; pr_tracker := tracker;
     pr_raw_snapshot := pr_raw_snapshot p; pr_bootstrap_block := pr_bootstrap_block p;
     pr_bootstrap_redis_replay_boundary := pr_bootstrap_redis_replay_boundary p;
     pr_rebuild := pr_rebuild p |}.
Definition pr_set_snapshot (raw : RawSnapshotReassembly) (block : option u64)
    (p : BroadcasterSubscriptionProcessor) :=
  {| pr_decoder := pr_decoder p; pr_expected_chain_id := pr_expected_chain_id p;
     pr_controls := pr_controls p; pr_tracker := pr_tracker p;
     pr_raw_snapshot := raw; pr_bootstrap_block := block;
     pr_bootstrap_redis_replay_boundary := pr_bootstrap_redis_replay_boundary p;
     pr_rebuild := pr_rebuild p |}.
Definition set_bootstrap_redis_replay_boundary (boundary : BroadcasterRedisReplayBoundary)
    (p : BroadcasterSubscriptionProcessor) : BroadcasterSubscriptionProcessor :=
  {| pr_decoder := pr_decoder p; pr_expected_chain_id := pr_expected_chain_id p;
     pr_controls := pr_controls p; pr_tracker := pr_tracker p;
     pr_raw_snapshot := pr_raw_snapshot p; pr_bootstrap_block := pr_bootstrap_block p;
     pr_bootstrap_redis_replay_boundary := Some boundary; pr_rebuild := pr_rebuild p |}.
Definition pr_set_rebuild (rebuild : option SubscriptionRebuildState)
    (p : BroadcasterSubscriptionProcessor) :=
  {| pr_decoder := pr_decoder p; pr_expected_chain_id := pr_expected_chain_id p;
     pr_controls := pr_controls p; pr_tracker := pr_tracker p;
     pr_raw_snapshot := pr_raw_snapshot p; pr_bootstrap_block := pr_bootstrap_block p;
     pr_bootstrap_redis_replay_boundary := pr_bootstrap_redis_replay_boundary p;
     pr_rebuild := rebuild |}.

Definition wd_set_tokens (tokens : TokenStore) (w : World) : World :=
  {| wd_tokens := tokens; wd_engine := wd_engine w; wd_vm_stream := wd_vm_stream w;
     wd_vm_gate_held := wd_vm_gate_held w; wd_rfq_gate_held := wd_rfq_gate_held w |}.
Definition wd_set_engine (engine : Engine) (w : World) : World :=
  {| wd_tokens := wd_tokens w; wd_engine := engine; wd_vm_stream := wd_vm_stream w;
     wd_vm_gate_held := wd_vm_gate_held w; wd_rfq_gate_held := wd_rfq_gate_held w |}.
Definition wd_set_vm_stream (f : VmStreamStatus → VmStreamStatus) (w : World) : World :=
  {| wd_tokens := wd_tokens w; wd_engine := wd_engine w; wd_vm_stream := f (wd_vm_stream w);
     wd_vm_gate_held := wd_vm_gate_held w; wd_rfq_gate_held := wd_rfq_gate_held w |}.
Definition set_guard (guard : SubscriptionRebuildState) (held : bool) (w : World) : World :=
  {| wd_tokens := wd_tokens w; wd_engine := wd_engine w; wd_vm_stream := wd_vm_stream w;
     wd_vm_gate_held := match guard with VmGuard => held | RfqGuard => wd_vm_gate_held w end;
     wd_rfq_gate_held := match guard with VmGuard => wd_rfq_gate_held w | RfqGuard => held end |}.
Definition guard_held (guard : SubscriptionRebuildState) (w : World) : bool :=
  match guard with VmGuard => wd_vm_gate_held w | RfqGuard => wd_rfq_gate_held w end.

(** ** Running *)

Inductive Stop :=
| Failed_with (error : AnyhowError)
| Blocked.

Abbreviation worldM := (stateR World Stop).
Abbreviation procM := (stateR (World * BroadcasterSubscriptionProcessor) Stop).

Definition or_fail {S A} (r : anyhow A) : stateR S Stop A := lift (map_err Failed_with r).
Definition bail {S A} (message : string) : stateR S Stop A :=
  throw (Failed_with (anyhow_error message)).

(** [gate.write().await]. *)
Definition acquire (guard : SubscriptionRebuildState) : worldM unit :=
  held ← gets (guard_held guard);
  if (held : bool) then throw Blocked else modify (set_guard guard true).

(** Dropping the guard. *)
Definition release (guard : SubscriptionRebuildState) : worldM unit :=
  modify (set_guard guard false).

Definition on_world {A} (m : worldM A) : procM A := λ s,
  let '(r, w) := m s.1 in (r, (w, s.2)).
Definition on_processor (f : BroadcasterSubscriptionProcessor →
    BroadcasterSubscriptionProcessor) : procM unit := modify (λ s, (s.1, f s.2)).
Definition on_controls (f : BroadcasterSubscriptionControls →
    BroadcasterSubscriptionControls) : procM unit := on_processor (pr_set_controls f).
Definition the_controls : procM BroadcasterSubscriptionControls :=
  gets (λ s, pr_controls s.2).
Definition the_backend : procM BroadcasterBackend :=
  gets (λ s, controls_backend (pr_controls s.2)).

(** A step of the tracker, its error in a message. *)
Definition on_tracker {A} (context : string) (m : trackerM A) : procM A := λ s,
  let '(r, tracker) := m (pr_tracker s.2) in
  (map_err (λ e, Failed_with (anyhow_error (context +:+ BroadcasterContractError_fmt e))) r,
   (s.1, pr_set_tracker tracker s.2)).

(** [state_store().apply_update(update)], its metrics dropped. *)
Definition store_apply_update (update : TychoUpdate) : procM unit :=
  modify (λ s,
      let '(_, tokens, store) :=
        apply_update update (wd_tokens s.1) (ct_state_store (pr_controls s.2)) in
      (wd_set_tokens tokens s.1, pr_set_controls (ct_set_store (λ _, store)) s.2)).

Definition StoreError_fmt (e : StoreError) : string :=
  match e with
  | StateVersionNotNewer state_version current_version =>
      "state version " +:+ u64_to_string state_version
        +:+ " must be newer than published version " +:+ u64_to_string current_version
  | CandidateNotNewer target_version current_version =>
      "candidate state version " +:+ u64_to_string target_version
        +:+ " must be newer than published version " +:+ u64_to_string current_version
  end.

Definition store_apply_update_at (update : TychoUpdate) (state_version : u64) : procM unit :=
  λ s,
    match apply_update_at_version update state_version (wd_tokens s.1)
            (ct_state_store (pr_controls s.2)) with
    | Ok (_, tokens, store) =>
        (Ok tt, (wd_set_tokens tokens s.1, pr_set_controls (ct_set_store (λ _, store)) s.2))
    | Err e => (Err (Failed_with (anyhow_error (StoreError_fmt e))), s)
    end.

(** ** Rebuilds *)

Section now.
Context (now : Instant) (now_ms : u64).

Definition begin_or_continue_vm_rebuild (rebuild : option SubscriptionRebuildState) :
    worldM SubscriptionRebuildState :=
  modify (wd_set_vm_stream (λ vm_stream,
      {| vs_rebuilding := true;
         vs_restart_count := saturating_add (vs_restart_count vm_stream) 1;
         vs_last_error := vs_last_error vm_stream;
         vs_rebuild_started_at :=
           match vs_rebuild_started_at vm_stream with
           | None => Some now
           | started => started
           end |})) ;;
  match rebuild with
  | Some rebuild => mret rebuild
  | None =>
      acquire VmGuard ;;
      modify (λ w, wd_set_engine (engine_clear (wd_engine w)) w) ;;
      mret VmGuard
  end.

Definition begin_or_continue_rfq_rebuild (rebuild : option SubscriptionRebuildState) :
    worldM SubscriptionRebuildState :=
  match rebuild with
  | Some rebuild => mret rebuild
  | None => acquire RfqGuard ;; mret RfqGuard
  end.

Definition begin_vm_recovery (controls : BroadcasterSubscriptionControls) :
    worldM (option SubscriptionRebuildState) :=
  match ct_kind controls with
  | VmControls _ _ =>
      rebuild ← begin_or_continue_vm_rebuild None;
      mret (Some rebuild)
  | _ => mret None
  end.

Definition vm_rebuild_finished (vm_stream : VmStreamStatus) : VmStreamStatus :=
  {| vs_rebuilding := false; vs_restart_count := vs_restart_count vm_stream;
     vs_last_error := vs_last_error vm_stream; vs_rebuild_started_at := None |}.

Definition finish_vm_recovery (controls : BroadcasterSubscriptionControls)
    (rebuild : SubscriptionRebuildState) : worldM unit :=
  release rebuild ;;
  match ct_kind controls with
  | VmControls _ _ => modify (wd_set_vm_stream vm_rebuild_finished)
  | _ => mret tt
  end.

Definition finish_rebuild : procM unit :=
  rebuild ← gets (λ s, pr_rebuild s.2);
  match rebuild with
  | None => mret tt
  | Some guard =>
      on_processor (pr_set_rebuild None) ;;
      controls ← the_controls;
      on_world (finish_vm_recovery controls guard)
  end.

Definition vm_last_error (error : option string) (vm_stream : VmStreamStatus) :
    VmStreamStatus :=
  {| vs_rebuilding := vs_rebuilding vm_stream; vs_restart_count := vs_restart_count vm_stream;
     vs_last_error := error; vs_rebuild_started_at := vs_rebuild_started_at vm_stream |}.

(** The reset runs on controls that no processor may hold any more. *)
Definition handle_subscription_reset (last_error : option string)
    (rebuild : option SubscriptionRebuildState) (controls : BroadcasterSubscriptionControls) :
    worldM (BroadcasterSubscriptionControls * option SubscriptionRebuildState) :=
  let controls := ct_set_store fence_requests controls in
  let controls := ct_set_subscription (mark_disconnected last_error) controls in
  let controls :=
    ct_set_health
      (λ h, set_last_error last_error (reset_bursts (increment_restart h).2)) controls in
  match ct_kind controls with
  | NativeControls =>
      match rebuild with
      | Some guard => release guard
      | None => mret tt
      end ;;
      mret (ct_set_store reset controls, None)
  | VmControls _ _ =>
      modify (wd_set_vm_stream (vm_last_error last_error)) ;;
      rebuild ← begin_or_continue_vm_rebuild rebuild;
      mret (ct_set_store reset controls, Some rebuild)
  | RfqControls =>
      rebuild ← begin_or_continue_rfq_rebuild rebuild;
      mret (ct_set_store reset controls, Some rebuild)
  end.

(** ** Updates *)

(** [Update::new] with no removed pairs and no synchronisation states. *)
Definition snapshot_partition_update (partition : BroadcasterSnapshotPartition) : TychoUpdate :=
  let '(states, new_pairs) :=
    foldl (λ '(states, new_pairs) entry,
        (hm_insert (se_component_id entry) (se_state entry) states,
         hm_insert (se_component_id entry) (se_component entry) new_pairs))
      ([], []) (sp_states partition) in
  {| tu_block_number_or_timestamp := sp_block_number partition; tu_states := states;
     tu_new_pairs := new_pairs; tu_removed_pairs := []; tu_sync_states := [] |}.

Definition live_partition_update (partition : BroadcasterUpdatePartition) : TychoUpdate :=
  let '(states, new_pairs) :=
    foldl (λ '(states, new_pairs) entry,
        (hm_insert (se_component_id entry) (se_state entry) states,
         hm_insert (se_component_id entry) (se_component entry) new_pairs))
      ([], []) (up_new_pairs partition) in
  let states :=
    foldl (λ states delta, hm_insert (sd_component_id delta) (sd_state delta) states)
      states (up_updated_states partition) in
  let removed_pairs :=
    foldl (λ removed_pairs removed,
        hm_insert (rp_component_id removed) (rp_component removed) removed_pairs)
      [] (up_removed_pairs partition) in
  {| tu_block_number_or_timestamp := up_block_number partition; tu_states := states;
     tu_new_pairs := new_pairs; tu_removed_pairs := removed_pairs; tu_sync_states := [] |}.

Definition ensure_raw_messages_supported : procM unit :=
  backend ← the_backend;
  if bool_decide (backend = Rfq) then
    bail "raw RFQ broadcaster messages are unsupported; expected decoded RFQ state partitions"
  else mret tt.

(** [current.merge(update)], or the update itself. *)
Definition combine (combined : option TychoUpdate) (update : TychoUpdate) : option TychoUpdate :=
  Some (match combined with Some current => update_merge current update | None => update end).

Definition decode_message (raw : BroadcasterProtocolMessage) : procM TychoUpdate := λ s,
  let feed :=
    {| fm_state_msgs := [(pm_protocol raw, pm_message raw)];
       fm_sync_states := [(pm_protocol raw, pm_sync_state raw)] |} in
  let '(r, engine) := engine_decode (pr_decoder s.2) feed (wd_engine s.1) in
  (map_err (λ error, Failed_with (anyhow_error
      ("failed to decode broadcaster raw payload: " +:+ error))) r,
   (wd_set_engine engine s.1, s.2)).

Fixpoint decode_protocol_messages (combined : option TychoUpdate)
    (messages : list BroadcasterProtocolMessage) : procM (option TychoUpdate) :=
  match messages with
  | [] => mret combined
  | raw :: messages =>
      controls ← the_controls;
      if negb (bool_decide (pm_protocol raw ∈ ct_protocols controls)) then
        decode_protocol_messages combined messages
      else
        update ← decode_message raw;
        decode_protocol_messages (combine combined update) messages
  end.

Definition apply_protocol_messages (messages : list BroadcasterProtocolMessage) : procM unit :=
  update ← decode_protocol_messages None messages;
  match (update : option TychoUpdate) with
  | Some update => store_apply_update update
  | None => mret tt
  end.

Definition apply_reassembled_snapshot_messages : procM unit :=
  raw ← gets (λ s, pr_raw_snapshot s.2);
  on_processor (λ p, pr_set_snapshot ∅ (pr_bootstrap_block p) p) ;;
  apply_protocol_messages (take_messages raw).

Definition apply_snapshot_partition (partition : BroadcasterSnapshotPartition) : procM unit :=
  if negb (bool_decide (length (sp_messages partition) = 0%nat)) then
    bail "raw broadcaster snapshot messages cannot be applied without reassembly"
  else store_apply_update (snapshot_partition_update partition).

Fixpoint push_messages (messages : list BroadcasterProtocolMessage) : procM unit :=
  match messages with
  | [] => mret tt
  | message :: messages =>
      raw ← gets (λ s, pr_raw_snapshot s.2);
      raw ← or_fail (raw_snapshot_push raw message);
      on_processor (λ p, pr_set_snapshot raw (pr_bootstrap_block p) p) ;;
      push_messages messages
  end.

Definition buffer_snapshot_partition (partition : BroadcasterSnapshotPartition) : procM unit :=
  if bool_decide (length (sp_messages partition) = 0%nat) then apply_snapshot_partition partition
  else ensure_raw_messages_supported ;; push_messages (sp_messages partition).

(** Drops [guard] on every way out of [m]. *)
Definition dropping {A} (guard : SubscriptionRebuildState) (m : procM A) : procM A := λ s,
  let '(r, (w, p)) := m s in (r, (set_guard guard false w, p)).

(** The guard on the shared database. *)
Definition with_shared_db_guard {A} (m : procM A) : procM A :=
  controls ← the_controls;
  match ct_kind controls with
  | VmControls _ false =>
      on_world (acquire VmGuard) ;;
      dropping VmGuard m
  | _ => m
  end.

(** What the loop over the partitions of an update accumulates. *)
Record LiveUpdate := {
  lu_combined : option TychoUpdate;
  lu_block_number : option u64;
  lu_complete_native_block : option u64;
}.

Fixpoint live_partitions (partitions : list BroadcasterUpdatePartition) (acc : LiveUpdate) :
    procM LiveUpdate :=
  match partitions with
  | [] => mret acc
  | partition :: partitions =>
      let complete :=
        match BroadcasterUpdatePartition_complete_native_block partition with
        | Some complete_block =>
            Some (N.max (default 0%N (lu_complete_native_block acc)) complete_block)
        | None => lu_complete_native_block acc
        end in
      let block_number :=
        Some (N.max (default 0%N (lu_block_number acc)) (up_block_number partition)) in
      decoded ←
        (if bool_decide (length (up_messages partition) = 0%nat)
         then mret (Some (live_partition_update partition))
         else
           ensure_raw_messages_supported ;;
           decode_protocol_messages None (up_messages partition));
      let combined :=
        match (decoded : option TychoUpdate) with
        | Some decoded => combine (lu_combined acc) decoded
        | None => lu_combined acc
        end in
      live_partitions partitions
        {| lu_combined := combined; lu_block_number := block_number;
           lu_complete_native_block := complete |}
  end.

Definition record_block (complete_native_block : option u64) (block_number : u64) :
    procM unit :=
  backend ← the_backend;
  match (backend : BroadcasterBackend) with
  | Rfq => on_controls (ct_set_health (record_update now block_number))
  | Native =>
      match complete_native_block with
      | Some complete_block => on_controls (ct_set_health (record_progress now complete_block))
      | None => mret tt
      end
  | Vm => on_controls (ct_set_health (record_progress now block_number))
  end.

Definition with_block_number (block_number : u64) (u : TychoUpdate) : TychoUpdate :=
  {| tu_block_number_or_timestamp := block_number; tu_states := tu_states u;
     tu_new_pairs := tu_new_pairs u; tu_removed_pairs := tu_removed_pairs u;
     tu_sync_states := tu_sync_states u |}.

Definition apply_live_update (update : BroadcasterUpdateMessage) (state_version : option u64) :
    procM unit :=
  with_shared_db_guard (
    backend ← the_backend;
    live ← live_partitions (filter (λ p, up_backend p = backend) (um_partitions update))
             {| lu_combined := None; lu_block_number := None;
                lu_complete_native_block := None |};
    match lu_block_number live with
    | None => mret tt
    | Some block_number =>
        match lu_combined live with
        | Some combined =>
            let combined := with_block_number block_number combined in
            match state_version with
            | Some state_version => store_apply_update_at combined state_version
            | None => store_apply_update combined
            end
        | None => mret tt
        end ;;
        record_block (lu_complete_native_block live) block_number
    end).

Definition apply_recovery_update (update : BroadcasterUpdateMessage) : procM unit :=
  apply_live_update update None.

(** ** Envelopes *)

Definition ensure_snapshot_includes_backend (start : BroadcasterSnapshotStart) : procM unit :=
  backend ← the_backend;
  if negb (bool_decide (backend ∈ ss_backends start)) then
    bail ("broadcaster snapshot start " +:+ ss_snapshot_id start +:+ " does not include "
            +:+ BroadcasterBackend_as_str backend +:+ " backend")
  else mret tt.

Definition ensure_snapshot_chain_id (chain_id : u64) : procM unit :=
  expected ← gets (λ s, pr_expected_chain_id s.2);
  controls ← the_controls;
  if negb (chain_id =? expected)%N then
    bail ("broadcaster chain id mismatch for " +:+ backend_label controls
            +:+ " subscription: expected " +:+ u64_to_string expected
            +:+ ", got " +:+ u64_to_string chain_id)
  else mret tt.

Definition bootstrap_complete (p : BroadcasterSubscriptionProcessor) : bool :=
  match tr_state (pr_tracker p) with Live _ => true | _ => false end.

Definition align_redis_replay_boundary (boundary : BroadcasterRedisReplayBoundary) :
    procM unit :=
  on_tracker "invalid broadcaster Redis replay boundary: "
    (align_live_replay_boundary (bd_stream_id boundary) (bd_snapshot_id boundary)
       (bd_exclusive_message_seq boundary)).

Fixpoint observe_partitions (partitions : list BroadcasterSnapshotPartition) : procM unit :=
  match partitions with
  | [] => mret tt
  | partition :: partitions =>
      backend ← the_backend;
      (if bool_decide (sp_backend partition = backend) then
         on_processor (λ p, pr_set_snapshot (pr_raw_snapshot p)
                              (Some (sp_block_number partition)) p) ;;
         buffer_snapshot_partition partition
       else mret tt) ;;
      observe_partitions partitions
  end.

Definition snapshot_end : procM unit :=
  apply_reassembled_snapshot_messages ;;
  boundary ← gets (λ s, pr_bootstrap_redis_replay_boundary s.2);
  match (boundary : option BroadcasterRedisReplayBoundary) with
  | None => bail "HTTP snapshot completed without Redis replay boundary"
  | Some boundary =>
      on_controls (ct_set_store (align_bootstrap_state_version (bd_state_version boundary))) ;;
      on_controls (ct_set_subscription
                     (mark_bootstrap_complete_with_redis_boundary boundary)) ;;
      finish_rebuild
  end.

Definition observe_with_state_version (envelope : BroadcasterEnvelope)
    (state_version : option u64) : procM unit :=
  match env_payload envelope with
  | SnapshotStart start =>
      ensure_snapshot_chain_id (ss_chain_id start) ;; ensure_snapshot_includes_backend start
  | _ => mret tt
  end ;;
  on_tracker "invalid broadcaster envelope: " (observe envelope) ;;
  match env_payload envelope with
  | SnapshotStart start =>
      on_processor (pr_set_snapshot ∅ None) ;;
      on_controls (ct_set_subscription
                     (mark_snapshot_started (env_stream_id envelope) (ss_snapshot_id start)))
  | SnapshotChunk chunk => observe_partitions (sc_partitions chunk)
  | SnapshotEnd _ => snapshot_end
  | Update update => apply_live_update update state_version
  | Heartbeat _ => mret tt
  | Progress _ => mret tt
  | RecoveryStart _ | RecoveryChunk _ | RecoveryCatchUp _ | RecoveryCommit _ =>
      bail "Redis recovery payload reached a backend processor before commit"
  end.

Definition processor_observe (envelope : BroadcasterEnvelope) : procM unit :=
  observe_with_state_version envelope None.

Definition redis_entry_scope_contains (entry : BroadcasterRedisStreamEntry)
    (backend : BroadcasterBackend) : bool :=
  bool_decide (BroadcasterBackend_as_str backend ∈ str_split ","%char (backend_scope entry)).

Definition observe_redis_delta (entry : BroadcasterRedisStreamEntry)
    (envelope : BroadcasterEnvelope) : procM unit :=
  backend ← the_backend;
  if redis_entry_scope_contains entry backend then
    observe_with_state_version envelope (Some (state_version entry)) ;;
    on_controls (ct_set_subscription
                   (record_publisher_to_consumer_delay now_ms (published_at_ms entry)))
  else
    on_tracker "invalid skipped broadcaster Redis envelope: " (skip_live_delta envelope).
End now.

(** A private copy that applies a recovery aside from the live state. *)
Definition controls_recovery_copy (tokens : TokenStore) (self : BroadcasterSubscriptionControls) :
    BroadcasterSubscriptionControls :=
  {| ct_kind :=
       match ct_kind self with
       | VmControls wire_backend _ => VmControls wire_backend true
       | kind => kind
       end;
     ct_subscription := subscription_default;
     ct_state_store := new_private_with_snapshot tokens (TokenStore_snapshot tokens);
     ct_stream_health := health_default;
     ct_protocols := ct_protocols self |}.

Definition recovery_copy (tokens : TokenStore) (replay_boundary : BroadcasterRedisReplayBoundary)
    (self : BroadcasterSubscriptionProcessor) : BroadcasterSubscriptionProcessor :=
  {| pr_decoder := pr_decoder self; pr_expected_chain_id := pr_expected_chain_id self;
     pr_controls := controls_recovery_copy tokens (pr_controls self);
     pr_tracker := tracker_new; pr_raw_snapshot := ∅; pr_bootstrap_block := None;
     pr_bootstrap_redis_replay_boundary := Some replay_boundary; pr_rebuild := None |}.
End processor.
