(* ===== verification/Consumer.v ===== *)
(** * The consumer of the stream

    [runtime/src/broadcaster/redis_subscription.rs]: replay batches, the assembly of a
    recovery transaction and its commit, the replay loop with its transport retries, and
    the bootstrap and reset of all backends.  The connection, the polls and the clock are
    arguments.  A guard that goes out of scope is released where Rust drops it. *)

From S2P Require Import Prelude Ordered Text Protocol.
From S2P Require Import Wire Validate TychoFeed Tracker Codec.
From S2P Require Import RedisEntry Replay Recovery Store Health Readiness Reassembly.
From S2P Require Import Processor.

(** [serde_json::from_str::<Vec<BroadcasterEnvelope>>], up to the structure. *)
Class SnapshotJson `{TychoTypes} := {
  raw_envelopes_of_json : string → result string (list BroadcasterEnvelope);
}.

Definition envelopes_of_json `{SnapshotJson} (s : string) :
    result string (list BroadcasterEnvelope) :=
  raw ← raw_envelopes_of_json s;
  fold_result (λ envelopes raw,
      envelope ← map_err BroadcasterContractError_fmt (decode_envelope raw);
      Ok (envelopes ++ [envelope])) [] raw.

#[export] Instance BroadcasterRecoveryManifest_eq_dec :
  EqDecision BroadcasterRecoveryManifest.
Proof. solve_decision. Defined.

Section consumer.
Context `{RawMessages} `{!TychoEngine} `{!TychoTokens} `{!SnapshotJson} `{!SerdeJson}.
Context `{Keccak} `{HashOrder}.

Record PreparedRedisProcessor := {
  pp_index : nat;
  pp_processor : BroadcasterSubscriptionProcessor;
  pp_replay_boundary : BroadcasterRedisReplayBoundary;
}.

Record RecoveryAssembly := {
  ra_manifest : BroadcasterRecoveryManifest;
  ra_chunks : btree u32 BroadcasterRecoveryChunk;
  ra_buffer_a : btree u32 BroadcasterRecoveryCatchUp;
  ra_vm_rebuild : option SubscriptionRebuildState;
  ra_started_at : Instant;
}.

(** [PreparedBroadcasterRedisSubscription], with the state it shares. *)
Record Prepared := {
  pd_world : World;
  pd_processors : list PreparedRedisProcessor;
  pd_replay_boundary : BroadcasterRedisReplayBoundary;
  pd_expected_chain_id : u64;
  pd_recovery : option RecoveryAssembly;
  pd_redis_maxlen : option u64;
}.

Abbreviation consumerM := (stateR Prepared Stop).
Abbreviation worldM := (stateR World Stop).
Abbreviation procM := (stateR (World * BroadcasterSubscriptionProcessor) Stop).

Definition set_world (w : World) (s : Prepared) : Prepared :=
  {| pd_world := w; pd_processors := pd_processors s;
     pd_replay_boundary := pd_replay_boundary s;
     pd_expected_chain_id := pd_expected_chain_id s; pd_recovery := pd_recovery s;
     pd_redis_maxlen := pd_redis_maxlen s |}.
Definition set_processors (ps : list PreparedRedisProcessor) (s : Prepared) : Prepared :=
  {| pd_world := pd_world s; pd_processors := ps;
     pd_replay_boundary := pd_replay_boundary s;
     pd_expected_chain_id := pd_expected_chain_id s; pd_recovery := pd_recovery s;
     pd_redis_maxlen := pd_redis_maxlen s |}.
Definition set_boundary (b : BroadcasterRedisReplayBoundary) (s : Prepared) : Prepared :=
  {| pd_world := pd_world s; pd_processors := pd_processors s; pd_replay_boundary := b;
     pd_expected_chain_id := pd_expected_chain_id s; pd_recovery := pd_recovery s;
     pd_redis_maxlen := pd_redis_maxlen s |}.
Definition set_recovery (r : option RecoveryAssembly) (s : Prepared) : Prepared :=
  {| pd_world := pd_world s; pd_processors := pd_processors s;
     pd_replay_boundary := pd_replay_boundary s;
     pd_expected_chain_id := pd_expected_chain_id s; pd_recovery := r;
     pd_redis_maxlen := pd_redis_maxlen s |}.

Definition pp_set_processor (p : BroadcasterSubscriptionProcessor) (pp : PreparedRedisProcessor) :
    PreparedRedisProcessor :=
  {| pp_index := pp_index pp; pp_processor := p; pp_replay_boundary := pp_replay_boundary pp |}.
Definition pp_set_boundary (b : BroadcasterRedisReplayBoundary) (pp : PreparedRedisProcessor) :
    PreparedRedisProcessor :=
  {| pp_index := pp_index pp; pp_processor := pp_processor pp; pp_replay_boundary := b |}.

Definition with_world {A} (m : worldM A) : consumerM A := λ s,
  let '(r, w) := m (pd_world s) in (r, set_world w s).

(** [m] on the processor at [i]; there is one. *)
Definition with_processor (i : nat) (m : procM unit) : consumerM unit := λ s,
  match pd_processors s !! i with
  | Some pp =>
      let '(r, (w, p)) := m (pd_world s, pp_processor pp) in
      (r, set_processors (<[i := pp_set_processor p pp]> (pd_processors s)) (set_world w s))
  | None => (Ok tt, s)
  end.

(** [m] on a processor of its own. *)
Definition with_candidate (m : procM unit) (candidate : BroadcasterSubscriptionProcessor) :
    consumerM BroadcasterSubscriptionProcessor := λ s,
  let '(r, (w, candidate)) := m (pd_world s, candidate) in
  (match r with Ok _ => Ok candidate | Err e => Err e end, set_world w s).

Definition prepared_processors : consumerM (list PreparedRedisProcessor) := gets pd_processors.

(** [for prepared in processors { subscription.mark(..).await }]. *)
Definition mark_all (mark : PreparedRedisProcessor → BroadcasterSubscriptionStatusData →
    BroadcasterSubscriptionStatusData) : consumerM unit :=
  modify (λ s, set_processors
      (map (λ pp, pp_set_processor
              (pr_set_controls (ct_set_subscription (mark pp)) (pp_processor pp)) pp)
         (pd_processors s)) s).

Definition mark_redis_transport_errors (error : string) : consumerM unit :=
  mark_all (λ _, mark_redis_transport_error error).
Definition mark_redis_transports_recovered : consumerM unit :=
  mark_all (λ _, mark_redis_transport_recovered).
Definition mark_redis_replay_checkpoints (entry_id : string) (message_seq : u64) :
    consumerM unit :=
  mark_all (λ pp,
      let checkpoint :=
        if (message_seq <? bd_exclusive_message_seq (pp_replay_boundary pp))%N
        then exclusive_entry_id (pp_replay_boundary pp) else entry_id in
      mark_redis_replay_checkpoint checkpoint).
Definition mark_redis_catch_up_checkpoints (checkpoint_entry_id : string) : consumerM unit :=
  mark_all (λ _, mark_redis_catch_up_checkpoint checkpoint_entry_id).

(** ** Recovery transactions *)

Definition validate_recovery_identity (manifest : BroadcasterRecoveryManifest)
    (recovery_id : string) (target_state_version : u64) : anyhow unit :=
  if negb (String.eqb recovery_id (rm_recovery_id manifest))
     || negb (target_state_version =? rm_target_state_version manifest)%N
  then anyhow_bail "recovery identity does not match the active manifest"
  else Ok tt.

Definition drop_rebuild (rebuild : option SubscriptionRebuildState) : consumerM unit :=
  match rebuild with
  | Some guard => with_world (release guard)
  | None => mret tt
  end.

Definition bail_dropping {A} (rebuild : option SubscriptionRebuildState) (message : string) :
    consumerM A :=
  drop_rebuild rebuild ;; bail message.

Section now.
Context (now : Instant) (now_ms : u64).

(** The loop of [RecoveryStart] over the processors, from the one at [i]. *)
Fixpoint start_processors (manifest : BroadcasterRecoveryManifest) (i : nat)
    (processors : list PreparedRedisProcessor) (vm_rebuild : option SubscriptionRebuildState) :
    consumerM (option SubscriptionRebuildState) :=
  match processors with
  | [] => mret vm_rebuild
  | pp :: processors =>
      let controls := pr_controls (pp_processor pp) in
      if negb (bool_decide (controls_backend controls ∈ rm_backends manifest)) then
        start_processors manifest (S i) processors vm_rebuild
      else
        let current_version := store_state_version (ct_state_store controls) in
        if negb (current_version <? rm_target_state_version manifest)%N then
          bail_dropping vm_rebuild
            ("recovery target state version "
               +:+ u64_to_string (rm_target_state_version manifest)
               +:+ " must be newer than published " +:+ backend_label controls
               +:+ " state version " +:+ u64_to_string current_version)
        else
          with_processor i (on_controls (ct_set_store fence_requests)) ;;
          with_processor i (on_controls (ct_set_subscription mark_recovery_started)) ;;
          vm_rebuild ←
            match vm_rebuild with
            | None => with_world (begin_vm_recovery now controls)
            | Some guard => mret (Some guard)
            end;
          start_processors manifest (S i) processors vm_rebuild
  end.

Definition apply_recovery_start (message_seq : u64) (manifest : BroadcasterRecoveryManifest) :
    consumerM unit :=
  or_fail (from_contract (validate_recovery_manifest manifest)) ;;
  expected_commit ←
    or_fail (checked_sum "recovery commit watermark overflow"
      [rm_chunk_count manifest; rm_buffer_a_count manifest; 1]%N message_seq);
  if negb (expected_commit =? rm_commit_watermark manifest)%N then
    bail ("recovery " +:+ rm_recovery_id manifest +:+ " commit watermark mismatch: expected "
            +:+ u64_to_string expected_commit +:+ ", got "
            +:+ u64_to_string (rm_commit_watermark manifest))
  else
    existing ← gets pd_recovery;
    modify (set_recovery None) ;;
    vm_rebuild ←
      match (existing : option RecoveryAssembly) with
      | Some existing =>
          if bool_decide (ra_manifest existing = manifest) then
            bail_dropping (ra_vm_rebuild existing)
              ("recovery " +:+ rm_recovery_id manifest
                 +:+ " repeated RecoveryStart in the stream")
          else mret (ra_vm_rebuild existing)
      | None => mret None
      end;
    processors ← prepared_processors;
    vm_rebuild ← start_processors manifest 0 processors vm_rebuild;
    modify (set_recovery (Some {| ra_manifest := manifest; ra_chunks := ∅; ra_buffer_a := ∅;
                                  ra_vm_rebuild := vm_rebuild; ra_started_at := now |})).

Definition usize_of_u32 (n : u32) : usize := n.

(** The active assembly, which stays in place on an error. *)
Definition active_recovery (message : string) : consumerM RecoveryAssembly :=
  recovery ← gets pd_recovery;
  match (recovery : option RecoveryAssembly) with
  | Some recovery => mret recovery
  | None => bail message
  end.

Definition apply_recovery_chunk (entry : BroadcasterRedisStreamEntry)
    (chunk : BroadcasterRecoveryChunk) : consumerM unit :=
  or_fail (from_contract (validate_recovery_chunk chunk)) ;;
  recovery ← active_recovery "recovery chunk arrived before RecoveryStart";
  let manifest := ra_manifest recovery in
  or_fail (validate_recovery_identity manifest (rc_recovery_id chunk)
             (rc_target_state_version chunk)) ;;
  let chunk_index := rc_chunk_index chunk in
  let received := N.of_nat (size (ra_chunks recovery)) in
  if negb (bool_decide (rc_backends chunk = rm_backends manifest)) then
    bail "recovery chunk backend set does not match manifest"
  else if negb (chunk_index =? received)%N then
    bail ("recovery chunk arrived out of order: expected " +:+ u64_to_string received
            +:+ ", got " +:+ u64_to_string chunk_index)
  else if (rm_chunk_count manifest <=? chunk_index)%N then
    bail ("recovery chunk index " +:+ u64_to_string chunk_index
            +:+ " is outside manifest count " +:+ u64_to_string (rm_chunk_count manifest))
  else if negb (bool_decide (rm_chunk_encoded_bytes manifest !! N.to_nat chunk_index
                             = Some (rc_encoded_bytes chunk))) then
    bail ("recovery chunk " +:+ u64_to_string chunk_index
            +:+ " encoded size does not match manifest")
  else
    boundary ← gets pd_replay_boundary;
    maxlen ← gets pd_redis_maxlen;
    actual_encoded_bytes ←
      or_fail (replay_entry_encoded_size (bd_stream_key boundary) maxlen entry);
    if negb (rc_encoded_bytes chunk =? actual_encoded_bytes)%N then
      bail ("recovery chunk " +:+ u64_to_string chunk_index
              +:+ " encoded size does not match its Redis entry")
    else
      let digest := digest_bytes (rc_payload_fragment chunk) in
      if negb (String.eqb digest (rc_digest chunk))
         || negb (bool_decide (rm_chunk_digests manifest !! N.to_nat chunk_index
                               = Some digest)) then
        bail ("recovery chunk " +:+ u64_to_string chunk_index
                +:+ " digest does not match manifest")
      else
        modify (set_recovery (Some
          {| ra_manifest := manifest; ra_chunks := <[chunk_index := chunk]> (ra_chunks recovery);
             ra_buffer_a := ra_buffer_a recovery; ra_vm_rebuild := ra_vm_rebuild recovery;
             ra_started_at := ra_started_at recovery |})).

Definition apply_recovery_catch_up (catch_up : BroadcasterRecoveryCatchUp) : consumerM unit :=
  or_fail (from_contract (validate_recovery_catch_up catch_up)) ;;
  recovery ← active_recovery "recovery catch-up arrived before RecoveryStart";
  let manifest := ra_manifest recovery in
  or_fail (validate_recovery_identity manifest (cu_recovery_id catch_up)
             (cu_target_state_version catch_up)) ;;
  let block_index := cu_block_index catch_up in
  let received := N.of_nat (size (ra_buffer_a recovery)) in
  if (rm_buffer_a_count manifest <=? block_index)%N then
    bail ("recovery catch-up index " +:+ u64_to_string block_index
            +:+ " is outside manifest count " +:+ u64_to_string (rm_buffer_a_count manifest))
  else if negb (N.of_nat (size (ra_chunks recovery)) =? rm_chunk_count manifest)%N
          || negb (block_index =? received)%N then
    bail ("recovery catch-up arrived out of order: expected " +:+ u64_to_string received
            +:+ ", got " +:+ u64_to_string block_index)
  else
    modify (set_recovery (Some
      {| ra_manifest := manifest; ra_chunks := ra_chunks recovery;
         ra_buffer_a := <[block_index := catch_up]> (ra_buffer_a recovery);
         ra_vm_rebuild := ra_vm_rebuild recovery; ra_started_at := ra_started_at recovery |})).

(** ** The commit *)

Fixpoint observe_all (envelopes : list BroadcasterEnvelope) : procM unit :=
  match envelopes with
  | [] => mret tt
  | envelope :: envelopes => processor_observe now envelope ;; observe_all envelopes
  end.

Fixpoint apply_catch_ups (catch_ups : list BroadcasterRecoveryCatchUp) : procM unit :=
  match catch_ups with
  | [] => mret tt
  | catch_up :: catch_ups =>
      apply_recovery_update now (cu_update catch_up) ;; apply_catch_ups catch_ups
  end.

Definition build_candidate (snapshot : list BroadcasterEnvelope)
    (catch_ups : list BroadcasterRecoveryCatchUp) : procM unit :=
  observe_all snapshot ;;
  complete ← gets (λ s, bootstrap_complete s.2);
  backend ← (the_backend : procM BroadcasterBackend);
  if negb complete then
    bail ("recovery replacement did not complete " +:+ BroadcasterBackend_as_str backend
            +:+ " snapshot bootstrap")
  else apply_catch_ups catch_ups.

(** A candidate: its processor, its backend and the state it has built. *)
Definition Candidate : Type := nat * BroadcasterBackend * PublishedStateStore.

Fixpoint build_candidates (manifest : BroadcasterRecoveryManifest)
    (boundary : BroadcasterRedisReplayBoundary) (snapshot : list BroadcasterEnvelope)
    (catch_ups : list BroadcasterRecoveryCatchUp) (i : nat)
    (processors : list PreparedRedisProcessor) : consumerM (list Candidate) :=
  match processors with
  | [] => mret []
  | pp :: processors =>
      let processor := pp_processor pp in
      if negb (bool_decide (controls_backend (pr_controls processor) ∈ rm_backends manifest))
      then build_candidates manifest boundary snapshot catch_ups (S i) processors
      else
        tokens ← gets (λ s, wd_tokens (pd_world s));
        candidate ← with_candidate (build_candidate snapshot catch_ups)
                      (recovery_copy tokens boundary processor);
        candidates ← build_candidates manifest boundary snapshot catch_ups (S i) processors;
        mret ((i, logical_backend (pr_controls candidate),
               pin (ct_state_store (pr_controls candidate))) :: candidates)
  end.

Definition store_publish_candidate (candidate : PublishedStateStore) (target_version : u64) :
    procM unit := λ s,
  match publish_candidate candidate target_version (wd_tokens s.1)
          (ct_state_store (pr_controls s.2)) with
  | Ok (tokens, store) =>
      (Ok tt, (wd_set_tokens tokens s.1, pr_set_controls (ct_set_store (λ _, store)) s.2))
  | Err e => (Err (Failed_with (anyhow_error (StoreError_fmt e))), s)
  end.

Definition publish_one (boundary : BroadcasterRedisReplayBoundary) (target_version : u64)
    (published_at_ms : u64) (complete_native_block : option u64)
    (backend : BroadcasterBackend) (candidate : PublishedStateStore) : procM unit :=
  let block_number := ps_block_number candidate in
  store_publish_candidate candidate target_version ;;
  match backend with
  | Rfq => on_controls (ct_set_health (record_update now block_number))
  | Native =>
      match complete_native_block with
      | Some complete => on_controls (ct_set_health (record_progress now complete))
      | None => mret tt
      end
  | Vm => on_controls (ct_set_health (record_progress now block_number))
  end ;;
  on_controls (ct_set_subscription (mark_bootstrap_complete_with_redis_boundary boundary)) ;;
  on_controls (ct_set_subscription
                 (record_publisher_to_consumer_delay now_ms published_at_ms)).

Fixpoint publish_candidates (boundary : BroadcasterRedisReplayBoundary) (target_version : u64)
    (published_at_ms : u64) (complete_native_block : option u64)
    (candidates : list Candidate) : consumerM unit :=
  match candidates with
  | [] => mret tt
  | (i, backend, candidate) :: candidates =>
      processors ← prepared_processors;
      match processors !! i with
      | None => bail "recovery candidate lost its live backend"
      | Some _ =>
          with_processor i (publish_one boundary target_version published_at_ms
                              complete_native_block backend candidate)
      end ;;
      publish_candidates boundary target_version published_at_ms complete_native_block candidates
  end.

(** The loop over the [count] processors, from the one at [i]. *)
Fixpoint align_processors (boundary : BroadcasterRedisReplayBoundary) (i count : nat) :
    consumerM unit :=
  match count with
  | O => mret tt
  | S count =>
      with_processor i (align_redis_replay_boundary boundary) ;;
      modify (λ s, set_processors
                     (alter (pp_set_boundary boundary) i (pd_processors s)) s) ;;
      align_processors boundary (S i) count
  end.

Definition is_vm_processor (pp : PreparedRedisProcessor) : bool :=
  match ct_kind (pr_controls (pp_processor pp)) with VmControls _ _ => true | _ => false end.

(** Hands the rebuild to the first VM backend, or drops it. *)
Definition finish_recovery_rebuild (vm_rebuild : option SubscriptionRebuildState) :
    consumerM unit :=
  match vm_rebuild with
  | None => mret tt
  | Some guard =>
      processors ← prepared_processors;
      match list_find (λ pp, is_vm_processor pp = true) processors with
      | Some (_, vm) => with_world (finish_vm_recovery (pr_controls (pp_processor vm)) guard)
      | None => with_world (release guard)
      end
  end.

Definition chunk_native_blocks (envelope : BroadcasterEnvelope) : list u64 :=
  match env_payload envelope with
  | SnapshotChunk chunk =>
      omap (λ partition,
          if bool_decide (sp_backend partition = Native) then
            complete_broadcaster_partition_block (sp_block_number partition)
              (sp_messages partition) (sp_sync_statuses partition)
          else None) (sc_partitions chunk)
  | _ => []
  end.

Definition committed_recovery_complete_native_block (snapshot : list BroadcasterEnvelope)
    (buffer_a : btree u32 BroadcasterRecoveryCatchUp) : option u64 :=
  list_max
    (mbind chunk_native_blocks snapshot
       ++ omap (λ catch_up, BroadcasterUpdateMessage_complete_native_block (cu_update catch_up))
            (bt_values buffer_a)).

(** The checks of [commit_recovery] that only read. *)
Definition commit_matches (manifest : BroadcasterRecoveryManifest) (commit_message_seq : u64)
    (commit : BroadcasterRecoveryCommit) : bool :=
  bool_decide (rt_backends commit = rm_backends manifest)
  && String.eqb (rt_replacement_digest commit) (rm_replacement_digest manifest)
  && (rt_buffer_a_count commit =? rm_buffer_a_count manifest)%N
  && (rt_commit_watermark commit =? rm_commit_watermark manifest)%N
  && (commit_message_seq =? rt_commit_watermark commit)%N.

Definition replacement_json (recovery : RecoveryAssembly) : string :=
  String.concat "" (map rc_payload_fragment (bt_values (ra_chunks recovery))).

Definition committed_snapshot (recovery : RecoveryAssembly) (commit_message_seq : u64)
    (commit : BroadcasterRecoveryCommit) : anyhow (list BroadcasterEnvelope) :=
  let manifest := ra_manifest recovery in
  validate_recovery_identity manifest (rt_recovery_id commit)
    (rt_target_state_version commit) ;;
  if negb (commit_matches manifest commit_message_seq commit) then
    anyhow_bail "RecoveryCommit does not match the active recovery manifest"
  else if negb (N.of_nat (size (ra_chunks recovery)) =? rm_chunk_count manifest)%N
          || negb (N.of_nat (size (ra_buffer_a recovery)) =? rm_buffer_a_count manifest)%N then
    anyhow_bail ("recovery " +:+ rm_recovery_id manifest
                   +:+ " committed before every declared fragment arrived")
  else
    let json := replacement_json recovery in
    if negb (str_len json =? rm_replacement_encoded_bytes manifest)%N
       || negb (String.eqb (digest_bytes json) (rm_replacement_digest manifest)) then
      anyhow_bail ("recovery " +:+ rm_recovery_id manifest
                     +:+ " replacement bytes do not match the manifest")
    else
      map_err (λ error, anyhow_error
                ("failed to decode recovery replacement snapshot: " +:+ error))
        (envelopes_of_json json).

Definition commit_assembled (recovery : RecoveryAssembly) (commit_message_seq published_at_ms : u64)
    (commit : BroadcasterRecoveryCommit) : consumerM unit :=
  let manifest := ra_manifest recovery in
  snapshot ← or_fail (committed_snapshot recovery commit_message_seq commit);
  let complete_native_block :=
    committed_recovery_complete_native_block snapshot (ra_buffer_a recovery) in
  current ← gets pd_replay_boundary;
  boundary ←
    or_fail (from_contract (BroadcasterRedisReplayBoundary_new (bd_stream_key current)
      (bd_stream_id current) (bd_snapshot_id current) (bd_generation current)
      commit_message_seq (rm_target_state_version manifest)));
  processors ← prepared_processors;
  candidates ← build_candidates manifest boundary snapshot (bt_values (ra_buffer_a recovery))
                 0 processors;
  publish_candidates boundary (rm_target_state_version manifest) published_at_ms
    complete_native_block candidates ;;
  align_processors boundary 0 (length processors) ;;
  modify (set_boundary boundary).

(** [m], with [rebuild] dropped when it fails. *)
Definition dropping_on_error {A} (rebuild : option SubscriptionRebuildState)
    (m : consumerM A) : consumerM A := λ s,
  match m s with
  | (Ok a, s) => (Ok a, s)
  | (Err e, s) => (Err e, (drop_rebuild rebuild s).2)
  end.

Definition commit_recovery (commit_message_seq published_at_ms : u64)
    (commit : BroadcasterRecoveryCommit) : consumerM unit :=
  recovery ← active_recovery "RecoveryCommit arrived before RecoveryStart";
  modify (set_recovery None) ;;
  dropping_on_error (ra_vm_rebuild recovery)
    (commit_assembled recovery commit_message_seq published_at_ms commit) ;;
  finish_recovery_rebuild (ra_vm_rebuild recovery).

Definition apply_recovery_commit (commit_message_seq published_at_ms : u64)
    (commit : BroadcasterRecoveryCommit) : consumerM unit :=
  or_fail (from_contract (validate_recovery_commit commit)) ;;
  commit_recovery commit_message_seq published_at_ms commit.

Definition apply_recovery_message (entry : BroadcasterRedisStreamEntry)
    (envelope : BroadcasterEnvelope) : consumerM unit :=
  match env_payload envelope with
  | RecoveryStart start => apply_recovery_start (message_seq entry) (rs_manifest start)
  | RecoveryChunk chunk => apply_recovery_chunk entry chunk
  | RecoveryCatchUp catch_up => apply_recovery_catch_up catch_up
  | RecoveryCommit commit =>
      apply_recovery_commit (message_seq entry) (published_at_ms entry) commit
  | _ => bail "ordinary broadcaster payload interleaved inside a recovery transaction"
  end.

(** ** Replay batches *)

Definition is_recovery_payload (payload : BroadcasterPayload) : bool :=
  match payload with
  | RecoveryStart _ | RecoveryChunk _ | RecoveryCatchUp _ | RecoveryCommit _ => true
  | _ => false
  end.

(** A live entry goes to every processor whose boundary is behind it. *)
Fixpoint observe_delta (entry : BroadcasterRedisStreamEntry) (envelope : BroadcasterEnvelope)
    (i : nat) (processors : list PreparedRedisProcessor) : consumerM unit :=
  match processors with
  | [] => mret tt
  | pp :: processors =>
      (if (message_seq entry <=? bd_exclusive_message_seq (pp_replay_boundary pp))%N
       then mret tt
       else with_processor i (observe_redis_delta now now_ms entry envelope)) ;;
      observe_delta entry envelope (S i) processors
  end.

Definition apply_replay_message (message : ReplayMessage) : consumerM unit :=
  let entry := rmsg_entry message in
  let envelope := rmsg_envelope message in
  recovery ← gets pd_recovery;
  (if is_recovery_payload (env_payload envelope)
      || bool_decide (is_Some (recovery : option RecoveryAssembly))
   then apply_recovery_message entry envelope
   else
     processors ← prepared_processors;
     observe_delta entry envelope 0 processors) ;;
  mark_redis_replay_checkpoints (entry_id (rmsg_checkpoint_after message))
    (last_message_seq (rmsg_checkpoint_after message)).

(** The checkpoint follows the messages applied. *)
Fixpoint apply_replay_batch (items : list ReplayMessage) (checkpoint : ReplayCheckpoint)
    (s : Prepared) : result Stop unit * ReplayCheckpoint * Prepared :=
  match items with
  | [] => (Ok tt, checkpoint, s)
  | message :: items =>
      match apply_replay_message message s with
      | (Ok _, s) => apply_replay_batch items (rmsg_checkpoint_after message) s
      | (Err e, s) => (Err e, checkpoint, s)
      end
  end.
End now.

(** ** Exits *)

Inductive SubscriptionExitReason :=
| ExitRedisCommand
| ExitRedisGap
| ExitRedisDecode
| ExitStateApply.

Definition SubscriptionExitReason_as_str (reason : SubscriptionExitReason) : string :=
  match reason with
  | ExitRedisCommand => "redis_command"
  | ExitRedisGap => "redis_gap"
  | ExitRedisDecode => "redis_decode"
  | ExitStateApply => "state_apply"
  end.

Definition subscription_exit_requires_rebuild (reason : SubscriptionExitReason) : bool :=
  match reason with
  | ExitRedisGap | ExitRedisDecode | ExitStateApply => true
  | ExitRedisCommand => false
  end.

Record SubscriptionExit := {
  ex_message : string;
  ex_reason : SubscriptionExitReason;
}.

Definition exit_error (message : string) : SubscriptionExit :=
  {| ex_message := message; ex_reason := ExitStateApply |}.

Definition redis_transport_error (error : BroadcasterReplayClientError) : bool :=
  match error with
  | RedisReadTransport _ | RedisInspectTransport _ => true
  | _ => false
  end.

Definition redis_transport_operation (error : BroadcasterReplayClientError) : string :=
  match error with
  | RedisReadTransport _ => "xread"
  | RedisInspectTransport _ => "xinfo"
  | _ => "unknown"
  end.

Definition replay_error_exit (error : BroadcasterReplayClientError) : SubscriptionExit :=
  {| ex_message := BroadcasterReplayClientError_fmt error;
     ex_reason :=
       match error with
       | RedisGap _ => ExitRedisGap
       | RedisDecode _ => ExitRedisDecode
       | RedisRead _ | RedisInspect _ => ExitRedisCommand
       | _ => ExitStateApply
       end |}.

Definition next_backoff (current max : Duration) : Duration :=
  N.min (duration_saturating_mul current 2) max.

Definition reset_outer_backoff_after_catch_up (current restart_backoff_min : Duration)
    (caught_up_once : bool) : Duration :=
  if caught_up_once then restart_backoff_min else current.

(** The fields of [StreamSupervisorConfig] that are read here. *)
Record StreamSupervisorConfig := {
  sc_readiness_stale : Duration;
  sc_restart_backoff_min : Duration;
  sc_restart_backoff_max : Duration;
}.

Definition incomplete_recovery_timeout (now : Instant) (cfg : StreamSupervisorConfig)
    (prepared : Prepared) : option string :=
  match pd_recovery prepared with
  | Some recovery =>
      let elapsed := saturating_duration_since now (ra_started_at recovery) in
      if (sc_readiness_stale cfg <=? elapsed)%N then
        Some ("recovery " +:+ rm_recovery_id (ra_manifest recovery)
                +:+ " remained incomplete at the Redis tail for "
                +:+ u64_to_string (as_millis elapsed) +:+ " ms")
      else None
  | None => None
  end.

(** ** The replay loop *)

Record RedisTransportRetry := {
  tr_attempts : u64;
  tr_backoff : Duration;
  tr_started_at : Instant;
}.

Record ReplayLoop := {
  rl_prepared : Prepared;
  rl_checkpoint : ReplayCheckpoint;
  rl_transport_retry : option RedisTransportRetry;
  rl_caught_up_once : bool;
}.

Inductive Turn :=
| Continue (l : ReplayLoop)
| Exit (exit : SubscriptionExit) (l : ReplayLoop)
| TurnBlocked (l : ReplayLoop).

Definition run_marks (m : consumerM unit) (prepared : Prepared) : Prepared := (m prepared).2.

(** The outcome of a turn, unless the recovery has waited at the tail for too long. *)
Definition unless_timeout (now : Instant) (cfg : StreamSupervisorConfig) (l : ReplayLoop) : Turn :=
  match incomplete_recovery_timeout now cfg (rl_prepared l) with
  | Some message => Exit (exit_error message) l
  | None => Continue l
  end.

Definition stop_exit (stop : Stop) (l : ReplayLoop) : Turn :=
  match stop with
  | Failed_with error => Exit (exit_error (error_to_string error)) l
  | Blocked => TurnBlocked l
  end.

(** One turn of the loop of [process_broadcaster_redis_subscription], for the answer
    [poll] to its read. *)
Definition replay_turn (now : Instant) (now_ms : u64) (cfg : StreamSupervisorConfig)
    (poll : replay ReplayPoll) (l : ReplayLoop) : Turn :=
  match poll with
  | Err error =>
      if redis_transport_error error then
        let retry :=
          default {| tr_attempts := 0; tr_backoff := sc_restart_backoff_min cfg;
                     tr_started_at := now |} (rl_transport_retry l) in
        let prepared :=
          run_marks (mark_redis_transport_errors (BroadcasterReplayClientError_fmt error))
            (rl_prepared l) in
        Continue
          {| rl_prepared := prepared; rl_checkpoint := rl_checkpoint l;
             rl_transport_retry :=
               Some {| tr_attempts := saturating_add (tr_attempts retry) 1;
                       tr_backoff := next_backoff (tr_backoff retry) (sc_restart_backoff_max cfg);
                       tr_started_at := tr_started_at retry |};
             rl_caught_up_once := rl_caught_up_once l |}
      else Exit (replay_error_exit error) l
  | Ok poll =>
      let prepared :=
        match rl_transport_retry l with
        | Some _ => run_marks mark_redis_transports_recovered (rl_prepared l)
        | None => rl_prepared l
        end in
      match poll with
      | PollPending =>
          unless_timeout now cfg
            {| rl_prepared := prepared; rl_checkpoint := rl_checkpoint l;
               rl_transport_retry := None; rl_caught_up_once := rl_caught_up_once l |}
      | PollCaughtUp checkpoint =>
          unless_timeout now cfg
            {| rl_prepared :=
                 run_marks (mark_redis_catch_up_checkpoints (entry_id checkpoint)) prepared;
               rl_checkpoint := checkpoint; rl_transport_retry := None;
               rl_caught_up_once := true |}
      | PollBatch batch =>
          let '(r, checkpoint, prepared) :=
            apply_replay_batch now now_ms (items batch) (rl_checkpoint l) prepared in
          match r with
          | Err stop =>
              stop_exit stop
                {| rl_prepared := prepared; rl_checkpoint := checkpoint;
                   rl_transport_retry := None; rl_caught_up_once := rl_caught_up_once l |}
          | Ok _ =>
              if caught_up_after_batch batch then
                unless_timeout now cfg
                  {| rl_prepared :=
                       run_marks (mark_redis_catch_up_checkpoints (entry_id checkpoint)) prepared;
                     rl_checkpoint := checkpoint; rl_transport_retry := None;
                     rl_caught_up_once := true |}
              else
                Continue
                  {| rl_prepared := prepared; rl_checkpoint := checkpoint;
                     rl_transport_retry := None; rl_caught_up_once := rl_caught_up_once l |}
          end
      end
  end.
End consumer.
