(* ===== verification/Supervisor.v ===== *)
(** * The supervisor of a subscription

    [runtime/src/broadcaster/redis_subscription.rs]: preparing the backends, the bootstrap
    from an HTTP snapshot, the replay loop and what follows its end, round after round.
    The connection, the decoders, the snapshot downloads and the polls are the events of a
    round; the clock is read once per event.  A supervisor owns the rebuild guards that no
    processor holds; a guard that is overwritten or goes out of scope is released. *)

From S2P Require Import Prelude Ordered Text Protocol.
From S2P Require Import Wire Validate TychoFeed Tracker Codec.
From S2P Require Import RedisEntry Replay Recovery Store Health Readiness Reassembly.
From S2P Require Import Processor Consumer.

(** [BroadcasterSnapshotSessionResponse]. *)
Record BroadcasterSnapshotSessionResponse := {
  sr_chain_id : u64;
  sr_session_id : u64;
  sr_stream_id : string;
  sr_snapshot_id : string;
  sr_redis_replay_boundary : BroadcasterRedisReplayBoundary;
  sr_payload_count : u32;
  sr_snapshot_chunk_count : u32;
  sr_expires_in_ms : u64;
}.

Section supervisor.
Context `{RawMessages} `{!TychoEngine} `{!TychoTokens} `{!SnapshotJson} `{!SerdeJson}.
Context `{Keccak} `{HashOrder}.

Record PendingRedisProcessor := {
  pn_index : nat;
  pn_processor : BroadcasterSubscriptionProcessor;
}.

(** The state between two replay loops. *)
Record Supervisor := {
  sv_world : World;
  sv_controls : list BroadcasterSubscriptionControls;
  sv_rebuilds : list (option SubscriptionRebuildState);
  sv_pending : list PendingRedisProcessor;
}.

(** [PrepareBroadcasterRedisSubscriptionError], its rebuilds being those of the state. *)
Record PrepareError := {
  pe_message : string;
  pe_event : string;
  pe_detail : string;
}.

Abbreviation supM := (stateR Supervisor Stop).
Abbreviation worldM := (stateR World Stop).
Abbreviation procM := (stateR (World * BroadcasterSubscriptionProcessor) Stop).

Definition sv_set_world (w : World) (s : Supervisor) : Supervisor :=
  {| sv_world := w; sv_controls := sv_controls s; sv_rebuilds := sv_rebuilds s;
     sv_pending := sv_pending s |}.
Definition sv_set_controls (controls : list BroadcasterSubscriptionControls) (s : Supervisor) :
    Supervisor :=
  {| sv_world := sv_world s; sv_controls := controls; sv_rebuilds := sv_rebuilds s;
     sv_pending := sv_pending s |}.
Definition sv_set_rebuilds (rebuilds : list (option SubscriptionRebuildState))
    (s : Supervisor) : Supervisor :=
  {| sv_world := sv_world s; sv_controls := sv_controls s; sv_rebuilds := rebuilds;
     sv_pending := sv_pending s |}.
Definition sv_set_pending (pending : list PendingRedisProcessor) (s : Supervisor) : Supervisor :=
  {| sv_world := sv_world s; sv_controls := sv_controls s; sv_rebuilds := sv_rebuilds s;
     sv_pending := pending |}.

Definition sup_world {A} (m : worldM A) : supM A := λ s,
  let '(r, w) := m (sv_world s) in (r, sv_set_world w s).

Definition release_opt (rebuild : option SubscriptionRebuildState) : worldM unit :=
  match rebuild with
  | Some guard => release guard
  | None => mret tt
  end.

(** [rebuilds.get_mut(index).and_then(Option::take)]. *)
Definition take_rebuild (i : nat) : supM (option SubscriptionRebuildState) :=
  rebuilds ← gets sv_rebuilds;
  modify (λ s, sv_set_rebuilds (<[i := None]> (sv_rebuilds s)) s) ;;
  mret (rebuilds !! i ≫= id).

(** [rebuilds[index] = rebuild]: what was there is dropped; [index] is in range. *)
Definition assign_rebuild (i : nat) (rebuild : option SubscriptionRebuildState) : supM unit :=
  old ← take_rebuild i;
  sup_world (release_opt old) ;;
  modify (λ s, sv_set_rebuilds (<[i := rebuild]> (sv_rebuilds s)) s).

(** [m] on the pending processor at position [i]; there is one. *)
Definition with_pending (i : nat) (m : procM unit) : supM unit := λ s,
  match sv_pending s !! i with
  | Some pending =>
      let '(r, (w, p)) := m (sv_world s, pn_processor pending) in
      (r, sv_set_pending
            (<[i := {| pn_index := pn_index pending; pn_processor := p |}]> (sv_pending s))
            (sv_set_world w s))
  | None => (Ok tt, s)
  end.

(** The [count] pending processors from the one at [i], up to the first failure. *)
Fixpoint each_pending (m : procM unit) (i count : nat) : supM unit :=
  match count with
  | O => mret tt
  | S count => with_pending i m ;; each_pending m (S i) count
  end.

Definition all_pending (m : procM unit) : supM unit :=
  pending ← gets sv_pending;
  each_pending m 0 (length pending).

(** The error of [m] as a value. *)
Definition catch {A} (m : supM A) : supM (anyhow A) := λ s,
  match m s with
  | (Ok a, s) => (Ok (Ok a), s)
  | (Err (Failed_with e), s) => (Ok (Err e), s)
  | (Err Blocked, s) => (Err Blocked, s)
  end.

(** A pending processor that goes away leaves its status, store and health in the shared
    controls and its rebuild in the supervisor's list. *)
Fixpoint merge_pending (pending : list PendingRedisProcessor) : supM unit :=
  match pending with
  | [] => mret tt
  | p :: pending =>
      modify (λ s, sv_set_controls
                     (<[pn_index p := pr_controls (pn_processor p)]> (sv_controls s)) s) ;;
      assign_rebuild (pn_index p) (pr_rebuild (pn_processor p)) ;;
      merge_pending pending
  end.

Definition merge_pending_processor_rebuilds : supM unit :=
  pending ← gets sv_pending;
  modify (sv_set_pending []) ;;
  merge_pending pending.

Definition pending_processor_bootstrap_error {A} (message event detail : string) :
    supM (result PrepareError A) :=
  merge_pending_processor_rebuilds ;;
  mret (Err {| pe_message := message; pe_event := event; pe_detail := detail |}).

Section round.
Context (now : Instant) (expected_chain_id : u64).

(** The rebuild at [i] goes through the reset of the backend there, which is then marked
    if the stream has a gap. *)
Definition reset_backend (message : string) (is_gap : bool) (i : nat)
    (c : BroadcasterSubscriptionControls) : supM unit :=
  rebuild ← take_rebuild i;
  reset ← sup_world (handle_subscription_reset now (Some message) rebuild c);
  let c := if is_gap then ct_set_subscription (mark_redis_gap message) reset.1 else reset.1 in
  modify (λ s, sv_set_controls (<[i := c]> (sv_controls s)) s) ;;
  assign_rebuild i reset.2.

(** ** Preparing the backends *)

(** The loop over the controls; [decoder_of]: the decoder built for each. *)
Fixpoint prepare_processors (decoder_of : nat → result string nat) (i : nat)
    (controls : list BroadcasterSubscriptionControls) (last_backend_error : option string) :
    supM (option string) :=
  match controls with
  | [] => mret last_backend_error
  | c :: controls =>
      match decoder_of i with
      | Err message =>
          reset_backend message false i c ;;
          prepare_processors decoder_of (S i) controls (Some message)
      | Ok decoder =>
          rebuild ← take_rebuild i;
          modify (λ s, sv_set_pending
              (sv_pending s
                 ++ [{| pn_index := i;
                        pn_processor := with_decoder decoder expected_chain_id c rebuild |}]) s) ;;
          prepare_processors decoder_of (S i) controls last_backend_error
      end
  end.

Definition mark_pending_processors_started (boundary : BroadcasterRedisReplayBoundary) :
    supM unit :=
  all_pending (
    on_processor (set_bootstrap_redis_replay_boundary boundary) ;;
    on_controls (ct_set_health (mark_started now))).

Definition apply_snapshot_payload_to_pending_processors (envelope : BroadcasterEnvelope) :
    supM unit := all_pending (processor_observe now envelope).

Definition BOOTSTRAP_FAILED : string := "broadcaster_redis_subscription_bootstrap_failed".

(** The downloads, in order, up to the first failure: its message and detail. *)
Fixpoint apply_snapshot_payloads (payloads : list (replay BroadcasterEnvelope)) :
    supM (option (string * string)) :=
  match payloads with
  | [] => mret None
  | Err error :: _ =>
      mret (Some (BroadcasterReplayClientError_fmt error,
                  "Failed to fetch broadcaster snapshot payload"))
  | Ok envelope :: payloads =>
      applied ← catch (apply_snapshot_payload_to_pending_processors envelope);
      match (applied : anyhow unit) with
      | Err error =>
          mret (Some (error_to_string error, "Failed to apply broadcaster snapshot payload"))
      | Ok _ => apply_snapshot_payloads payloads
      end
  end.

(** The loop over the [count] pending processors from the one at [i]. *)
Fixpoint validate_pending (session : BroadcasterSnapshotSessionResponse) (i count : nat) :
    supM (option PrepareError) :=
  match count with
  | O => mret None
  | S count =>
      pending ← gets sv_pending;
      match pending !! i with
      | None => mret None
      | Some p =>
          if negb (bootstrap_complete (pn_processor p)) then
            mret (Some {|
              pe_message :=
                "broadcaster HTTP snapshot session " +:+ u64_to_string (sr_session_id session)
                  +:+ " ended before " +:+ backend_label (pr_controls (pn_processor p))
                  +:+ " bootstrap completed";
              pe_event := BOOTSTRAP_FAILED;
              pe_detail := "Failed to bootstrap broadcaster subscription from HTTP snapshot" |})
          else
            aligned ←
              catch (with_pending i
                       (align_redis_replay_boundary (sr_redis_replay_boundary session)));
            match (aligned : anyhow unit) with
            | Err error =>
                mret (Some {|
                  pe_message := error_to_string error;
                  pe_event := "broadcaster_redis_subscription_boundary_invalid";
                  pe_detail := "Failed to align broadcaster Redis replay boundary" |})
            | Ok _ => validate_pending session (S i) count
            end
      end
  end.

Definition validate_pending_processors_bootstrapped
    (session : BroadcasterSnapshotSessionResponse) : supM (option PrepareError) :=
  pending ← gets sv_pending;
  validate_pending session 0 (length pending).

Definition bootstrap_pending_processors (session : replay BroadcasterSnapshotSessionResponse)
    (payloads : list (replay BroadcasterEnvelope)) :
    supM (result PrepareError BroadcasterRedisReplayBoundary) :=
  match session with
  | Err error =>
      pending_processor_bootstrap_error (BroadcasterReplayClientError_fmt error)
        BOOTSTRAP_FAILED "Failed to create broadcaster snapshot session"
  | Ok session =>
      mark_pending_processors_started (sr_redis_replay_boundary session) ;;
      failed ← apply_snapshot_payloads payloads;
      match (failed : option (string * string)) with
      | Some (message, detail) =>
          pending_processor_bootstrap_error message BOOTSTRAP_FAILED detail
      | None =>
          invalid ← validate_pending_processors_bootstrapped session;
          match (invalid : option PrepareError) with
          | Some e =>
              pending_processor_bootstrap_error (pe_message e) (pe_event e) (pe_detail e)
          | None => mret (Ok (sr_redis_replay_boundary session))
          end
      end
  end.

Definition finish_prepared_broadcaster_redis_subscription
    (session : replay BroadcasterSnapshotSessionResponse)
    (payloads : list (replay BroadcasterEnvelope)) (last_backend_error : option string) :
    supM (result PrepareError Prepared) :=
  match last_backend_error with
  | Some message =>
      pending_processor_bootstrap_error message BOOTSTRAP_FAILED
        "Failed to bootstrap broadcaster subscription from HTTP snapshot"
  | None =>
      pending ← gets sv_pending;
      if bool_decide (length pending = 0%nat) then
        mret (Err {| pe_message := "no broadcaster backends were prepared";
                     pe_event := BOOTSTRAP_FAILED;
                     pe_detail :=
                       "Failed to bootstrap broadcaster subscription from HTTP snapshot" |})
      else
        booted ← bootstrap_pending_processors session payloads;
        match (booted : result PrepareError BroadcasterRedisReplayBoundary) with
        | Err e => mret (Err e)
        | Ok boundary =>
            pending ← gets sv_pending;
            world ← gets sv_world;
            modify (sv_set_pending []) ;;
            mret (Ok {|
              pd_world := world;
              pd_processors :=
                map (λ p, {| pp_index := pn_index p; pp_processor := pn_processor p;
                             pp_replay_boundary := boundary |}) pending;
              pd_replay_boundary := boundary; pd_expected_chain_id := expected_chain_id;
              pd_recovery := None; pd_redis_maxlen := None |})
        end
  end.

Definition prepare_broadcaster_redis_subscription (decoder_of : nat → result string nat)
    (session : replay BroadcasterSnapshotSessionResponse)
    (payloads : list (replay BroadcasterEnvelope)) : supM (result PrepareError Prepared) :=
  controls ← gets sv_controls;
  last_backend_error ← prepare_processors decoder_of 0 controls None;
  finish_prepared_broadcaster_redis_subscription session payloads last_backend_error.

(** ** After a round *)

(** The loop over the controls and the rebuilds, which are as many. *)
Fixpoint reset_controls (message : string) (is_gap : bool) (i : nat)
    (controls : list BroadcasterSubscriptionControls) : supM unit :=
  match controls with
  | [] => mret tt
  | c :: controls =>
      reset_backend message is_gap i c ;;
      reset_controls message is_gap (S i) controls
  end.

Definition reset_redis_subscription_after_error (cfg : StreamSupervisorConfig)
    (backoff : Duration) (message : string) (is_gap : bool) : supM Duration :=
  controls ← gets sv_controls;
  reset_controls message is_gap 0 controls ;;
  mret (next_backoff backoff (sc_restart_backoff_max cfg)).
End round.

Definition mark_redis_transport_failed_all (error : string) : supM unit :=
  modify (λ s, sv_set_controls
      (map (ct_set_subscription (mark_redis_transport_failed error)) (sv_controls s)) s).

Definition empty_rebuilds (count : nat) : list (option SubscriptionRebuildState) :=
  replicate count None.

Definition redis_processor_rebuilds (processors : list PreparedRedisProcessor) :
    list (option SubscriptionRebuildState) :=
  foldl (λ rebuilds prepared, <[pp_index prepared := pr_rebuild (pp_processor prepared)]> rebuilds)
    (empty_rebuilds (length processors)) processors.

(** The supervisor after the end of a replay loop: an assembly still under way is
    dropped. *)
Definition supervisor_after (prepared : Prepared) (s : Supervisor) : Supervisor :=
  let dropped :=
    match pd_recovery prepared with Some recovery => ra_vm_rebuild recovery | None => None end in
  {| sv_world := (release_opt dropped (pd_world prepared)).2;
     sv_controls :=
       foldl (λ controls pp, <[pp_index pp := pr_controls (pp_processor pp)]> controls)
         (sv_controls s) (pd_processors prepared);
     sv_rebuilds := redis_processor_rebuilds (pd_processors prepared);
     sv_pending := [] |}.

(** [return]: the guards of the list are dropped. *)
Definition drop_rebuilds (s : Supervisor) : Supervisor :=
  sv_set_rebuilds []
    (sv_set_world
       (foldl (λ w rebuild, (release_opt rebuild w).2) (sv_world s) (sv_rebuilds s)) s).

(** ** Rounds *)

(** What a round finds before its replay loop. *)
Record Round := {
  ro_now : Instant;
  ro_connect : option BroadcasterReplayClientError;
  ro_decoder_of : nat → result string nat;
  ro_session : replay BroadcasterSnapshotSessionResponse;
  ro_payloads : list (replay BroadcasterEnvelope);
}.

(** Where [supervise_broadcaster_redis_subscription] stands. *)
Inductive Phase :=
| Connecting (s : Supervisor) (backoff : Duration)
| Replaying (s : Supervisor) (l : ReplayLoop) (backoff : Duration)
| Returned (s : Supervisor)
| Deadlocked.

Inductive SupervisorEvent :=
| RoundStarts (round : Round)
| Polled (now : Instant) (now_ms : u64) (poll : replay ReplayPoll).

Definition restart (now : Instant) (cfg : StreamSupervisorConfig) (backoff : Duration)
    (message : string) (is_gap : bool) (s : Supervisor) : Phase :=
  match reset_redis_subscription_after_error now cfg backoff message is_gap s with
  | (Ok backoff, s) => Connecting s backoff
  | (Err _, _) => Deadlocked
  end.

Definition start_round (expected_chain_id : u64) (redis_maxlen : option u64)
    (cfg : StreamSupervisorConfig) (round : Round) (backoff : Duration) (s : Supervisor) : Phase :=
  match ro_connect round with
  | Some error =>
      restart (ro_now round) cfg backoff (BroadcasterReplayClientError_fmt error) false s
  | None =>
      match prepare_broadcaster_redis_subscription (ro_now round) expected_chain_id
              (ro_decoder_of round) (ro_session round) (ro_payloads round) s with
      | (Err _, _) => Deadlocked
      | (Ok (Err e), s) => restart (ro_now round) cfg backoff (pe_message e) false s
      | (Ok (Ok prepared), s) =>
          let prepared :=
            {| pd_world := pd_world prepared; pd_processors := pd_processors prepared;
               pd_replay_boundary := pd_replay_boundary prepared;
               pd_expected_chain_id := pd_expected_chain_id prepared;
               pd_recovery := pd_recovery prepared; pd_redis_maxlen := redis_maxlen |} in
          Replaying s
            {| rl_prepared := prepared;
               rl_checkpoint :=
                 ReplayCheckpoint_new (pd_replay_boundary prepared)
                   (pd_expected_chain_id prepared);
               rl_transport_retry := None; rl_caught_up_once := false |} backoff
      end
  end.

Definition loop_exit (now : Instant) (cfg : StreamSupervisorConfig) (exit : SubscriptionExit)
    (l : ReplayLoop) (backoff : Duration) (s : Supervisor) : Phase :=
  let s := supervisor_after (rl_prepared l) s in
  if negb (subscription_exit_requires_rebuild (ex_reason exit)) then
    Returned (drop_rebuilds (mark_redis_transport_failed_all (ex_message exit) s).2)
  else
    let backoff :=
      reset_outer_backoff_after_catch_up backoff (sc_restart_backoff_min cfg)
        (rl_caught_up_once l) in
    restart now cfg backoff (ex_message exit)
      match ex_reason exit with ExitRedisGap => true | _ => false end s.

Definition supervisor_step (expected_chain_id : u64) (redis_maxlen : option u64)
    (cfg : StreamSupervisorConfig) (phase : Phase) (event : SupervisorEvent) : Phase :=
  match phase, event with
  | Connecting s backoff, RoundStarts round =>
      start_round expected_chain_id redis_maxlen cfg round backoff s
  | Replaying s l backoff, Polled now now_ms poll =>
      match replay_turn now now_ms cfg poll l with
      | Continue l => Replaying s l backoff
      | Exit exit l => loop_exit now cfg exit l backoff s
      | TurnBlocked _ => Deadlocked
      end
  | phase, _ => phase
  end.

Definition supervise_broadcaster_redis_subscription (expected_chain_id : u64)
    (redis_maxlen : option u64) (cfg : StreamSupervisorConfig)
    (controls : list BroadcasterSubscriptionControls) (world : World)
    (events : list SupervisorEvent) : Phase :=
  let s := {| sv_world := world; sv_controls := controls;
              sv_rebuilds := empty_rebuilds (length controls); sv_pending := [] |} in
  match controls with
  | [] => Returned s
  | _ => foldl (supervisor_step expected_chain_id redis_maxlen cfg)
           (Connecting s (sc_restart_backoff_min cfg)) events
  end.
End supervisor.
