(* ===== verification/ConsumerDemo.v ===== *)
(** * A concrete consumer, for the witnesses

    Instances of the outside code of the consumer, a VM backend, its bootstrap from a
    snapshot and the entries of a recovery as the publisher writes them. *)

From S2P Require Import Prelude Ordered Text Protocol.
From S2P Require Import Wire Validate TychoFeed Tracker Codec.
From S2P Require Import RedisEntry Replay Recovery Store StoreQuery Health Readiness.
From S2P Require Import Reassembly Processor Consumer Supervisor.

#[local] Existing Instances demo_tycho demo_serde demo_keccak demo_tokens demo_order.

(** A raw message is its header; its deltas change nothing. *)
Definition demo_raw : @RawMessages demo_tycho.
Proof.
  refine (@Build_RawMessages demo_tycho demo_block_eq_dec demo_hash id (λ _, []) (λ _, [])
    unit (λ _ _ _, true) (λ _, []) (λ _ a, a) (λ _, []) (λ _ m, m)
    unit unit unit tt (λ _ _, tt) (λ _, false) (λ _, []) (λ _, []) (λ _, []) (λ _, [])
    (λ _ m, m) (λ _ _ _ m, m) (λ _ m, m)).
Defined.

(** A decoder counts what it decodes and yields an empty update of the block. *)
Definition demo_engine : @TychoEngine demo_tycho := {|
  Engine := N;
  engine_decode := λ _ feed engine,
    (Ok (demo_tycho_update []), (engine + len (fm_state_msgs feed))%N);
  engine_clear := λ _, 0%N;
  update_merge := λ a b, {|
    tu_block_number_or_timestamp := tu_block_number_or_timestamp b;
    tu_states := tu_states a ++ tu_states b;
    tu_new_pairs := tu_new_pairs a ++ tu_new_pairs b;
    tu_removed_pairs := tu_removed_pairs a ++ tu_removed_pairs b;
    tu_sync_states := tu_sync_states b |};
|}.

#[local] Existing Instances demo_raw demo_engine.

(** ** A VM backend *)

Definition demo_vm : BroadcasterSubscriptionControls := {|
  ct_kind := VmControls Vm false; ct_subscription := subscription_default;
  ct_state_store := StateStore_new demo_store; ct_stream_health := health_default;
  ct_protocols := [] |}.

Definition demo_world : World := {|
  wd_tokens := demo_store; wd_engine := 0%N;
  wd_vm_stream := {| vs_rebuilding := false; vs_restart_count := 0; vs_last_error := None;
                     vs_rebuild_started_at := None |};
  wd_vm_gate_held := false; wd_rfq_gate_held := false |}.

(** The pools of a snapshot. *)
Definition demo_snapshot (pools : list BroadcasterStateEntry) : list BroadcasterEnvelope :=
  [ {| env_stream_id := "chain-1-stream-7"; env_message_seq := 1;
       env_payload := SnapshotStart {| ss_snapshot_id := "chain-1-snapshot-7"; ss_chain_id := 1;
                                       ss_backends := [Vm]; ss_total_chunks := 1 |} |};
    {| env_stream_id := "chain-1-stream-7"; env_message_seq := 2;
       env_payload := SnapshotChunk {|
         sc_snapshot_id := "chain-1-snapshot-7"; sc_chunk_index := 0;
         sc_partitions := [ {| sp_backend := Vm; sp_block_number := 7; sp_messages := [];
                               sp_states := pools; sp_sync_statuses := ∅ |} ] |} |};
    {| env_stream_id := "chain-1-stream-7"; env_message_seq := 3;
       env_payload := SnapshotEnd {| sn_snapshot_id := "chain-1-snapshot-7" |} |} ].

Definition demo_pool (id : string) (state : N) : BroadcasterStateEntry :=
  {| se_component_id := id; se_component := ("vm:curve", "AB"); se_state := state |}.

(** The text of a snapshot is the name of its pool. *)
Definition demo_snapshot_json : @SnapshotJson demo_tycho := {|
  raw_envelopes_of_json id := Ok (demo_snapshot [demo_pool id 3]) |}.
#[local] Existing Instance demo_snapshot_json.

Definition demo_session : BroadcasterSnapshotSessionResponse := {|
  sr_chain_id := 1; sr_session_id := 1; sr_stream_id := "chain-1-stream-7";
  sr_snapshot_id := "chain-1-snapshot-7"; sr_redis_replay_boundary := demo_boundary;
  sr_payload_count := 3; sr_snapshot_chunk_count := 1; sr_expires_in_ms := 1000 |}.

Definition demo_round : Round := {|
  ro_now := 1; ro_connect := None; ro_decoder_of := λ i, Ok i; ro_session := Ok demo_session;
  ro_payloads := map Ok (demo_snapshot [demo_pool "p1" 1]) |}.

Definition demo_refused : Round := {|
  ro_now := 0; ro_connect := Some (RedisReadTransport "refused");
  ro_decoder_of := λ i, Ok i; ro_session := Ok demo_session; ro_payloads := [] |}.

Definition demo_cfg : StreamSupervisorConfig := {|
  sc_readiness_stale := from_secs 10; sc_restart_backoff_min := from_millis 100;
  sc_restart_backoff_max := from_secs 1 |}.

(** ** A recovery *)

Definition demo_vm_update : BroadcasterUpdateMessage := {|
  um_partitions := [ {| up_backend := Vm; up_block_number := 17; up_messages := [];
                        up_new_pairs := [demo_pool "p2" 2]; up_updated_states := [];
                        up_removed_pairs := []; up_sync_statuses := ∅ |} ] |}.

(** The entries the publisher appends for a replacement with the pool [p3] and one
    buffered block. *)
Definition demo_vm_transaction : BroadcasterRecoveryTransaction := {|
  tx_recovery_id := "recovery-1"; tx_backends := [Vm];
  tx_replacement_json := "p3";
  tx_buffer_a := [demo_vm_update] |}.

Definition demo_vm_recovery : anyhow (list BroadcasterRedisStreamEntry) :=
  fragments ← prepare_recovery_fragments (tx_replacement_json demo_vm_transaction);
  recovery_entries (λ _ _, 1000%N) demo_publisher_config "chain-1-stream-7" 3 12
    demo_vm_transaction fragments.
Definition demo_vm_entries : list BroadcasterRedisStreamEntry :=
  default [] (result_ok demo_vm_recovery).

Definition demo_message (entry : BroadcasterRedisStreamEntry) : option ReplayMessage :=
  envelope ← result_ok (envelope_of_json (payload_json entry));
  let id := default "" (result_ok (publisher_redis_entry_id entry)) in
  Some {| rmsg_entry_id := id; rmsg_entry := entry; rmsg_envelope := envelope;
          rmsg_checkpoint_after :=
            {| boundary := demo_boundary; entry_id := id; last_message_seq := message_seq entry;
               expected_chain_id := 1 |} |}.

Definition demo_batch (entries : list BroadcasterRedisStreamEntry) : replay ReplayPoll :=
  Ok (PollBatch {| items := omap demo_message entries; caught_up_after_batch := false |}).
