(* ===== verification/Guards.v ===== *)
(** * The guards of a subscription

    The theorems on the locks that keep simulations away from the database a VM backend
    rebuilds: in every reachable state of a supervisor a lock is held exactly by a rebuild
    in progress, so it never waits for itself and no lock outlives its rebuild. *)

From S2P Require Import Prelude Ordered Text Protocol.
From S2P Require Import Wire Validate TychoFeed Tracker Codec.
From S2P Require Import RedisEntry Replay Recovery Store Health Readiness Reassembly.
From S2P Require Import Processor Consumer Supervisor.

#[export] Instance SubscriptionRebuildState_eq_dec : EqDecision SubscriptionRebuildState.
Proof. solve_decision. Defined.

(** An operation that ends without waiting for a lock of its own. *)
Definition unblocked {S} (I : S → Prop) (e : Stop) (s : S) : Prop := e ≠ Blocked ∧ I s.
Definition safe {S A} (I : S → Prop) (m : stateR S Stop A) : Prop :=
  triple I m (λ _, I) (unblocked I).

(** An operation that does not fail. *)
Definition never {S} (e : Stop) (s : S) : Prop := False.

Section safe.
Context {S : Type} (I : S → Prop).

Lemma safe_ret {A} (a : A) : safe I (mret a).
Proof. by apply triple_ret. Qed.
Lemma safe_gets {A} (g : S → A) : safe I (gets g).
Proof. by intros s Hs. Qed.
Lemma safe_bail {A} message : safe I (bail message : stateR S Stop A).
Proof. apply triple_throw. by split. Qed.
Lemma safe_or_fail {A} (r : anyhow A) : safe I (or_fail r).
Proof. apply triple_lift; [done|]. intros s e Hs. destruct r; simpl; [done|]. by intros [= <-]. Qed.
Lemma safe_modify (g : S → S) : (∀ s, I s → I (g s)) → safe I (modify g).
Proof. intros Hg. by apply triple_modify. Qed.
Lemma safe_bind {A B} (m : stateR S Stop A) (k : A → stateR S Stop B) :
  safe I m → (∀ a, safe I (k a)) → safe I (m ≫= k).
Proof. intros Hm Hk. by eapply triple_bind. Qed.
End safe.

Create HintDb safe.
#[export] Hint Resolve safe_ret safe_gets safe_bail safe_or_fail : safe.

(** Follows an operation through its binds, tests and matches. *)
Ltac solve_safe :=
  repeat first
    [ progress eauto with safe nocore
    | apply safe_bind; [|intros ?]
    | case_match ].

(** ** One processor *)

Section guards.
Context `{RawMessages} `{!TychoEngine} `{!TychoTokens} `{!SnapshotJson} `{!SerdeJson}.
Context `{Keccak} `{HashOrder}.

Abbreviation proc := (World * BroadcasterSubscriptionProcessor)%type.
Abbreviation procM := (stateR proc Stop).

Definition same_guards (w w' : World) : Prop := ∀ g, guard_held g w' = guard_held g w.

(** What most operations of a processor leave alone. *)
Record still (s s' : proc) : Prop := {
  still_guards : same_guards s.1 s'.1;
  still_kind : ct_kind (pr_controls s'.2) = ct_kind (pr_controls s.2);
  still_rebuild : pr_rebuild s'.2 = pr_rebuild s.2;
  still_tracker : pr_tracker s'.2 = pr_tracker s.2;
}.

Lemma still_refl s : still s s.
Proof. by split. Qed.
Lemma still_trans s1 s2 s3 : still s1 s2 → still s2 s3 → still s1 s3.
Proof. intros [] []. split; [|congruence..]. intros g. congruence. Qed.

Abbreviation quiet m := (∀ s0, safe (still s0) m) (only parsing).

Lemma quiet_modify f : (∀ s, still s (f s)) → quiet (modify f : procM unit).
Proof. intros Hf s0. apply safe_modify. intros s Hs. by eapply still_trans. Qed.

Lemma quiet_on_controls f :
  (∀ c, ct_kind (f c) = ct_kind c) → quiet (on_controls f).
Proof. intros Hf. apply quiet_modify. intros [w p]. split; [done|apply Hf|done|done]. Qed.

Lemma quiet_set_store f : quiet (on_controls (ct_set_store f)).
Proof. by apply quiet_on_controls. Qed.
Lemma quiet_set_health f : quiet (on_controls (ct_set_health f)).
Proof. by apply quiet_on_controls. Qed.
Lemma quiet_set_subscription f : quiet (on_controls (ct_set_subscription f)).
Proof. by apply quiet_on_controls. Qed.
Lemma quiet_set_snapshot raw block : quiet (on_processor (λ p, pr_set_snapshot (raw p) (block p) p)).
Proof. apply quiet_modify. intros [w p]. by split. Qed.

Lemma quiet_apply_update u : quiet (store_apply_update u).
Proof.
  apply quiet_modify. intros [w p]. simpl. by destruct (apply_update _ _ _) as [[? ?] ?].
Qed.

Lemma quiet_apply_update_at u v : quiet (store_apply_update_at u v).
Proof.
  intros s0 [w p] Hs. unfold store_apply_update_at. simpl.
  destruct (apply_update_at_version _ _ _ _) as [[[? ?] ?]|e]; [|by split].
  by eapply still_trans.
Qed.

Lemma quiet_decode raw : quiet (decode_message raw).
Proof.
  intros s0 [w p] Hs. unfold decode_message. simpl.
  destruct (engine_decode _ _ _) as [[u|e] engine]; simpl.
  - by eapply still_trans.
  - split; [done|]. by eapply still_trans.
Qed.

#[local] Hint Resolve quiet_set_store quiet_set_health quiet_set_subscription
  quiet_set_snapshot quiet_apply_update quiet_apply_update_at quiet_decode : safe.

Lemma quiet_raw_supported : quiet ensure_raw_messages_supported.
Proof. intros s0. unfold ensure_raw_messages_supported, the_backend. solve_safe. Qed.

Lemma quiet_decode_messages messages : ∀ combined, quiet (decode_protocol_messages combined messages).
Proof.
  induction messages as [|raw messages IH]; intros combined s0; simpl; unfold the_controls;
    solve_safe.
Qed.
#[local] Hint Resolve quiet_raw_supported quiet_decode_messages : safe.

Lemma quiet_apply_messages messages : quiet (apply_protocol_messages messages).
Proof. intros s0. unfold apply_protocol_messages. solve_safe. Qed.
#[local] Hint Resolve quiet_apply_messages : safe.

Lemma quiet_reassembled : quiet apply_reassembled_snapshot_messages.
Proof. intros s0. unfold apply_reassembled_snapshot_messages. solve_safe. Qed.

Lemma quiet_push_messages messages : quiet (push_messages messages).
Proof. intros s0. induction messages as [|m messages IH]; simpl; solve_safe. Qed.
#[local] Hint Resolve quiet_reassembled quiet_push_messages : safe.

Lemma quiet_buffer partition : quiet (buffer_snapshot_partition partition).
Proof.
  intros s0. unfold buffer_snapshot_partition, apply_snapshot_partition. solve_safe.
Qed.
#[local] Hint Resolve quiet_buffer : safe.

Lemma quiet_partitions partitions : quiet (observe_partitions partitions).
Proof.
  intros s0. induction partitions as [|p partitions IH]; simpl; unfold the_backend; solve_safe.
Qed.

Lemma quiet_live_partitions partitions : ∀ acc, quiet (live_partitions partitions acc).
Proof.
  induction partitions as [|p partitions IH]; intros acc s0; simpl; solve_safe.
Qed.

Lemma quiet_record_block now complete block : quiet (record_block now complete block).
Proof. intros s0. unfold record_block, the_backend. solve_safe. Qed.
#[local] Hint Resolve quiet_partitions quiet_live_partitions quiet_record_block : safe.

Lemma quiet_includes_backend start : quiet (ensure_snapshot_includes_backend start).
Proof. intros s0. unfold ensure_snapshot_includes_backend, the_backend. solve_safe. Qed.
Lemma quiet_chain_id chain_id : quiet (ensure_snapshot_chain_id chain_id).
Proof. intros s0. unfold ensure_snapshot_chain_id, the_controls. solve_safe. Qed.
#[local] Hint Resolve quiet_includes_backend quiet_chain_id : safe.

(** ** Owners of the guards *)

(** A slot: a backend, by its position, and the rebuild it holds. *)
Abbreviation slot := (nat * option SubscriptionRebuildState)%type.

Definition holders (g : SubscriptionRebuildState) (slots : list slot) : list slot :=
  filter (λ x, x.2 = Some g) slots.

Section owners.
Context (guard_at : nat → option SubscriptionRebuildState).
Hypothesis guard_at_inj : ∀ i j g, guard_at i = Some g → guard_at j = Some g → i = j.

(** Every rebuild is one of its backend's, and a lock is held once or not at all. *)
Record owned (w : World) (slots : list slot) : Prop := {
  owned_typed : ∀ i g, (i, Some g) ∈ slots → guard_at i = Some g;
  owned_once : ∀ g, length (holders g slots) = (if guard_held g w then 1 else 0)%nat;
}.

Lemma owned_guards w w' slots : same_guards w w' → owned w slots → owned w' slots.
Proof. intros Hw []. split; [done|]. intros g. by rewrite Hw. Qed.

Lemma owned_perm w slots slots' : slots ≡ₚ slots' → owned w slots → owned w slots'.
Proof.
  intros Hp [Ht Ho]. split.
  - intros j g Hj. apply Ht. rewrite Hp. done.
  - intros g. unfold holders. rewrite <- Hp. apply Ho.
Qed.

Lemma owned_none w i slots : owned w ((i, None) :: slots) ↔ owned w slots.
Proof.
  split; intros [Ht Ho]; split; try done.
  - intros j g Hj. apply Ht. by right.
  - intros j g [[= ]|Hj]%elem_of_cons. by apply Ht.
Qed.

(** Nobody else holds the lock of the backend at [i]. *)
Lemma owned_free w i g slots :
  owned w slots → guard_at i = Some g → (∀ o, (i, o) ∈ slots → o = None) →
  guard_held g w = false.
Proof.
  intros [Ht Ho] Hi Hfree. specialize (Ho g).
  destruct (guard_held g w); [|done].
  destruct (holders g slots) as [|[j o] l] eqn:E; [done|].
  assert ((j, o) ∈ holders g slots) as Hj by (rewrite E; left).
  apply list_elem_of_filter in Hj as [Hg Hj]. simpl in Hg. subst o.
  rewrite (guard_at_inj i j g Hi (Ht j g Hj)) in Hfree. by apply Hfree in Hj.
Qed.

Lemma guard_held_set g g' b w :
  guard_held g (set_guard g' b w) = if decide (g = g') then b else guard_held g w.
Proof. by destruct g, g'. Qed.

Lemma owned_acquire w i g slots :
  owned w slots → guard_at i = Some g → guard_held g w = false →
  owned (set_guard g true w) ((i, Some g) :: slots).
Proof.
  intros [Ht Ho] Hi Hg. split.
  - intros j g' [[= -> ->]|Hj]%elem_of_cons; [done|by apply Ht].
  - intros g'. rewrite guard_held_set. unfold holders. rewrite filter_cons. simpl.
    pose proof (Ho g') as Hc. unfold holders in Hc.
    destruct (decide (g' = g)) as [->|Hne].
    + rewrite decide_True by done. simpl. by rewrite Hc, Hg.
    + rewrite decide_False; [done|congruence].
Qed.

Lemma owned_release w i g slots :
  owned w ((i, Some g) :: slots) → owned (set_guard g false w) slots.
Proof.
  intros [Ht Ho]. split; [intros j g' Hj; apply Ht; by right|].
  intros g'. rewrite guard_held_set. pose proof (Ho g') as Hc.
  unfold holders in *. rewrite filter_cons in Hc. simpl in Hc.
  destruct (decide (g' = g)) as [->|Hne].
  - rewrite decide_True in Hc by done. simpl in Hc. destruct (guard_held g w); lia.
  - rewrite decide_False in Hc by congruence. done.
Qed.

Lemma owned_release_opt w i rebuild slots :
  owned w ((i, rebuild) :: slots) → owned (release_opt rebuild w).2 slots.
Proof. destruct rebuild as [g|]; [apply owned_release|apply owned_none]. Qed.

(** The operations on the locks, for the backend at [i] and the slots of the others. *)
Section slots.
Context (i : nat) (others : list slot).
Hypothesis others_free : ∀ o, (i, o) ∈ others → o = None.

Definition owns (rebuild : option SubscriptionRebuildState) (w : World) : Prop :=
  owned w ((i, rebuild) :: others).

Lemma owns_guards rebuild w w' : same_guards w w' → owns rebuild w → owns rebuild w'.
Proof. apply owned_guards. Qed.

Lemma acquire_owns g :
  guard_at i = Some g →
  triple (owns None) (acquire g) (λ _, owns (Some g)) never.
Proof.
  intros Hi w Hw%owned_none. unfold acquire.
  assert (guard_held g w = false) as Hg by (by eapply owned_free).
  rewrite gets_bind, Hg. by apply owned_acquire.
Qed.

Lemma release_owns g :
  triple (owns (Some g)) (release g) (λ _, owns None) never.
Proof. intros w Hw. apply owned_none. exact (owned_release _ _ _ _ Hw). Qed.

Lemma modify_owns rebuild f :
  (∀ w, same_guards w (f w)) →
  triple (owns rebuild) (modify f) (λ _, owns rebuild) never.
Proof. intros Hf. apply triple_modify. intros w. by apply owns_guards. Qed.

Lemma begin_vm_owns now rebuild :
  guard_at i = Some VmGuard →
  triple (owns rebuild) (begin_or_continue_vm_rebuild now rebuild) (λ r, owns (Some r))
    never.
Proof.
  intros Hi. unfold begin_or_continue_vm_rebuild.
  eapply triple_bind; [by apply modify_owns|intros []].
  destruct rebuild as [r|]; [by apply triple_ret|].
  eapply triple_bind; [by apply acquire_owns|intros []].
  eapply triple_bind with (Q := λ _, owns (Some VmGuard)); [|intros []; by apply triple_ret].
  apply triple_modify. intros w. by apply owns_guards.
Qed.

Lemma begin_rfq_owns rebuild :
  guard_at i = Some RfqGuard →
  triple (owns rebuild) (begin_or_continue_rfq_rebuild rebuild) (λ r, owns (Some r))
    never.
Proof.
  intros Hi. unfold begin_or_continue_rfq_rebuild.
  destruct rebuild as [r|]; [by apply triple_ret|].
  eapply triple_bind; [by apply acquire_owns|intros []; by apply triple_ret].
Qed.
End slots.

(** ** What a processor keeps *)

Section processor.
Context (i : nat) (others : list slot) (k : ControlsKind) (may_hold : bool).
Hypothesis k_guard : ∀ wire_backend, k = VmControls wire_backend false → guard_at i = Some VmGuard.
Hypothesis others_free : ∀ o, (i, o) ∈ others → o = None.

Record proc_ok (s : proc) : Prop := {
  proc_owned : owned s.1 ((i, pr_rebuild s.2) :: others);
  proc_kind : ct_kind (pr_controls s.2) = k;
  proc_none : may_hold = false → pr_rebuild s.2 = None;
}.

(** A backend past its bootstrap holds no rebuild. *)
Definition settled (s : proc) : Prop :=
  bootstrap_complete s.2 = true → pr_rebuild s.2 = None.

Lemma proc_ok_still s s' : still s s' → proc_ok s → proc_ok s'.
Proof.
  intros [Hg Hk Hr Ht] [Ho Hkind Hnone]. split; [|congruence|by rewrite Hr].
  rewrite Hr. by eapply owned_guards.
Qed.

Lemma settled_still s s' : still s s' → settled s → settled s'.
Proof.
  intros [_ _ Hr Ht] Hs. unfold settled, bootstrap_complete. rewrite Hr, Ht. exact Hs.
Qed.

Definition proc_good (s : proc) : Prop := proc_ok s ∧ settled s.

Lemma proc_good_still s s' : still s s' → proc_good s → proc_good s'.
Proof. intros Hs []. split; [by eapply proc_ok_still|by eapply settled_still]. Qed.

Lemma quiet_good {A} (m : procM A) s0 :
  quiet m → proc_good s0 → triple (λ s, s = s0) m (λ _, proc_good) (unblocked proc_ok).
Proof.
  intros Hm Hs0 s ->. specialize (Hm s0 s0 (still_refl s0)).
  destruct (m s0) as [[a|e] s']; simpl in *.
  - by eapply proc_good_still.
  - destruct Hm as [He Hs']. split; [done|]. by eapply proc_ok_still, Hs0.
Qed.

Lemma on_world_acquire g w p :
  guard_held g w = false → on_world (acquire g) (w, p) = (Ok tt, (set_guard g true w, p)).
Proof.
  intros Hg. unfold on_world, acquire. cbn [fst snd]. rewrite gets_bind, Hg. done.
Qed.

Lemma shared_db_still {A} (m : procM A) s0 :
  quiet m → proc_ok s0 → pr_rebuild s0.2 = None →
  triple (λ s, s = s0) (with_shared_db_guard m) (λ _, still s0) (unblocked (still s0)).
Proof.
  intros Hm [Ho Hk _] Hr s ->. unfold with_shared_db_guard, the_controls.
  rewrite gets_bind. rewrite Hk.
  destruct k as [|wb [|]|] eqn:Ek; try apply (Hm s0 s0 (still_refl s0)).
  assert (guard_held VmGuard s0.1 = false) as Hfree.
  { rewrite Hr, owned_none in Ho. eapply owned_free; [done|by eapply k_guard|done]. }
  destruct s0 as [w p]. cbn [fst snd] in *.
  erewrite bind_run by by apply on_world_acquire.
  specialize (Hm (set_guard VmGuard true w, p) _ (still_refl _)). unfold dropping.
  destruct (m (set_guard VmGuard true w, p)) as [r [w' p']]. simpl in *.
  assert (still (set_guard VmGuard true w, p) (w', p') → still (w, p) (set_guard VmGuard false w', p'))
    as Hback.
  { intros [Hg Hk' Hr' Ht']. split; simpl in *; try done.
    intros g. simpl. rewrite guard_held_set. specialize (Hg g). simpl in Hg.
    rewrite guard_held_set in Hg. destruct (decide (g = VmGuard)) as [->|]; [done|exact Hg]. }
  destruct r as [a|e]; [by apply Hback|]. destruct Hm. by split; [|apply Hback].
Qed.

Lemma finish_rebuild_safe :
  triple proc_ok finish_rebuild (λ _ s, proc_ok s ∧ pr_rebuild s.2 = None) (unblocked proc_ok).
Proof.
  intros [w p] [Ho Hk _]. unfold finish_rebuild. rewrite gets_bind. simpl in *.
  destruct (pr_rebuild p) as [g|] eqn:Er; [|split; [split; simpl; [by rewrite Er|done..]|done]].
  unfold on_processor. rewrite modify_bind. unfold the_controls. rewrite gets_bind. simpl.
  unfold on_world, finish_vm_recovery, release. rewrite modify_bind. simpl.
  apply owned_release in Ho.
  destruct (ct_kind (pr_controls p)) as [|wb b|] eqn:Ek; (split; [split|]; simpl; [|congruence|done|done]);
    apply owned_none; by eapply owned_guards, Ho.
Qed.

Lemma bind_good {A B} (m : procM A) (n : procM B) s0 :
  triple (λ s, s = s0) m (λ _, proc_good) (unblocked proc_ok) →
  triple proc_good n (λ _, proc_good) (unblocked proc_ok) →
  triple (λ s, s = s0) (m ;; n) (λ _, proc_good) (unblocked proc_ok).
Proof. intros Hm Hn. by eapply triple_bind. Qed.

Lemma quiet_goods {A} (m : procM A) :
  quiet m → triple proc_good m (λ _, proc_good) (unblocked proc_ok).
Proof. intros Hm s Hs. by apply (quiet_good m s). Qed.

(** The state after the tracker has accepted [e]. *)
Record observed (e : BroadcasterEnvelope) (s s' : proc) : Prop := {
  obs_guards : same_guards s.1 s'.1;
  obs_kind : ct_kind (pr_controls s'.2) = ct_kind (pr_controls s.2);
  obs_rebuild : pr_rebuild s'.2 = pr_rebuild s.2;
  obs_step : ∃ ev, tracker_step (pr_tracker s.2) e ev (pr_tracker s'.2);
}.

Lemma tracker_observed context e s0 :
  triple (still s0) (on_tracker context (observe e)) (λ _, observed e s0)
    (unblocked (still s0)).
Proof.
  intros [w p] [Hg Hk Hr Ht]. unfold on_tracker. cbn [fst snd] in *.
  destruct (observe e (pr_tracker p)) as [[ev|err] t'] eqn:E; cbn.
  - split; cbn; try done. exists ev. apply observe_step_iff. by rewrite <- Ht.
  - apply observe_frame in E as ->. split; [done|]. by split.
Qed.

Lemma observed_ok e s s' : observed e s s' → proc_ok s → proc_ok s'.
Proof.
  intros [Hg Hk Hr _] [Ho Hkind Hnone]. split; [|congruence|by rewrite Hr].
  rewrite Hr. by eapply owned_guards.
Qed.

(** A backend that has left its bootstrap stays settled; only the end of a snapshot
    takes it there. *)
Lemma observed_settled e s s' :
  observed e s s' → settled s →
  settled s' ∨ ∃ n, env_payload e = SnapshotEnd n.
Proof.
  intros [_ _ Hr [ev Hstep]] Hs. unfold settled, bootstrap_complete in *. rewrite Hr.
  destruct Hstep as [? _ _ _ _|? ? _ _ _ _ _|? n _ En _ _ _ _|l ? El _ _]; simpl.
  - by left.
  - by left.
  - right. by exists n.
  - left. intros _. apply Hs. by rewrite El.
Qed.

Lemma observed_update e u s s' :
  observed e s s' → settled s → env_payload e = Update u → pr_rebuild s'.2 = None.
Proof.
  intros [_ _ Hr [ev Hstep]] Hs Hu. unfold settled, bootstrap_complete in *. rewrite Hr.
  destruct Hstep as [? _ E|? ? _ E|? ? _ E|l ? El _ _]; try congruence.
  apply Hs. by rewrite El.
Qed.

Lemma apply_live_update_still now u v s0 :
  proc_ok s0 → pr_rebuild s0.2 = None →
  triple (λ s, s = s0) (apply_live_update now u v) (λ _, still s0) (unblocked (still s0)).
Proof.
  intros Hs0 Hr. apply shared_db_still; [|done..].
  intros s. unfold the_backend. solve_safe.
Qed.

Lemma still_unblocked s0 e s :
  proc_ok s0 → unblocked (still s0) e s → unblocked proc_ok e s.
Proof. intros Hs0 [He Hs]. split; [done|]. by eapply proc_ok_still. Qed.

Lemma apply_live_update_good now u v s0 :
  proc_good s0 → pr_rebuild s0.2 = None →
  triple (λ s, s = s0) (apply_live_update now u v)
    (λ _ s, proc_good s ∧ pr_rebuild s.2 = None) (unblocked proc_ok).
Proof.
  intros Hs0 Hr. eapply triple_error; [|intros e s; by apply still_unblocked, Hs0].
  eapply triple_conseq;
    [apply (apply_live_update_still now u v s0); [apply Hs0|exact Hr]|intros s Es; exact Es|].
  intros a s Hs. split; [exact (proc_good_still _ _ Hs Hs0)|]. by rewrite (still_rebuild _ _ Hs).
Qed.

Lemma snapshot_end_safe :
  triple proc_ok snapshot_end (λ _, proc_good) (unblocked proc_ok).
Proof.
  intros s0 Hs0. unfold snapshot_end.
  assert (∀ A (m : procM A), quiet m → triple proc_ok m (λ _, proc_ok) (unblocked proc_ok)) as Hq.
  { intros A m Hm s Hs. specialize (Hm s s (still_refl s)).
    destruct (m s) as [[a|e] s']; [by eapply proc_ok_still|].
    destruct Hm. split; [done|]. by eapply proc_ok_still. }
  revert s0 Hs0. eapply triple_bind; [apply Hq; solve_safe|intros []].
  eapply triple_bind; [apply Hq; solve_safe|]. intros [b|]; [|by apply triple_throw].
  eapply triple_bind; [apply Hq; solve_safe|intros []].
  eapply triple_bind; [apply Hq; solve_safe|intros []].
  eapply triple_conseq; [apply finish_rebuild_safe|done|].
  intros a s [Hok Hr]. split; [exact Hok|by intros _].
Qed.

(** The payload of an accepted envelope. *)
Lemma observe_payload now envelope version s0 s :
  proc_good s0 → observed envelope s0 s →
  triple (λ s', s' = s)
    match env_payload envelope with
    | SnapshotStart start =>
        on_processor (pr_set_snapshot ∅ None) ;;
        on_controls (ct_set_subscription
                       (mark_snapshot_started (env_stream_id envelope) (ss_snapshot_id start)))
    | SnapshotChunk chunk => observe_partitions (sc_partitions chunk)
    | SnapshotEnd _ => snapshot_end
    | Update update => apply_live_update now update version
    | Heartbeat _ => mret tt
    | Progress _ => mret tt
    | RecoveryStart _ | RecoveryChunk _ | RecoveryCatchUp _ | RecoveryCommit _ =>
        bail "Redis recovery payload reached a backend processor before commit"
    end (λ _, proc_good) (unblocked proc_ok).
Proof.
  intros [Hok Hset] Hobs. pose proof (observed_ok _ _ _ Hobs Hok) as Hok'.
  destruct (observed_settled _ _ _ Hobs Hset) as [Hset'|[n ->]].
  2: { intros s' ->. by apply snapshot_end_safe. }
  assert (proc_good s) as Hgood by done.
  destruct (env_payload envelope) as [start|chunk|n|update| | | | | |] eqn:Ep;
    try (apply triple_throw; by intros s' ->); try (by apply triple_ret; intros s' ->).
  - apply quiet_good; [|done]. intros s1. solve_safe.
  - apply quiet_good; [|done]. intros s1. solve_safe.
  - intros s' ->. by apply snapshot_end_safe.
  - eapply triple_conseq; [apply (apply_live_update_good now update version s)|
      intros s' Es; exact Es|by intros a s' []]; [done|]. by eapply observed_update.
Qed.

Lemma observe_good now envelope version :
  triple proc_good (observe_with_state_version now envelope version)
    (λ _, proc_good) (unblocked proc_ok).
Proof.
  apply triple_pure. intros s0 Hs0. unfold observe_with_state_version.
  eapply triple_bind with (Q := λ _, still s0).
  { eapply triple_error; [|intros e s; by apply still_unblocked, Hs0].
    eapply triple_conseq; [|intros s ->; apply still_refl|intros a s Hs; exact Hs].
    change (safe (still s0) (match env_payload envelope with
      | SnapshotStart start => ensure_snapshot_chain_id (ss_chain_id start) ;;
                               ensure_snapshot_includes_backend start
      | _ => mret tt
      end)). solve_safe. }
  intros []. eapply triple_bind with (Q := λ _, observed envelope s0).
  { eapply triple_error; [apply tracker_observed|intros e s; by apply still_unblocked, Hs0]. }
  intros ev. apply triple_pure. intros s Hs. by apply observe_payload with s0.
Qed.

(** Calls that leave the tracker's state alone. *)
Lemma tracker_state_good context (m : trackerM unit) :
  (∀ t r t', m t = (r, t') → tr_state t' = tr_state t) →
  triple proc_good (on_tracker context m) (λ _, proc_good) (unblocked proc_ok).
Proof.
  intros Hm [w p] [[Ho Hk Hn] Hs]. unfold on_tracker. cbn [fst snd].
  destruct (m (pr_tracker p)) as [r t'] eqn:E. apply Hm in E.
  destruct r as [a|e]; [split; [by split|]|split; [done|by split]].
  unfold settled, bootstrap_complete in *. cbn in *. by rewrite E.
Qed.

Lemma align_good b :
  triple proc_good (align_redis_replay_boundary b) (λ _, proc_good) (unblocked proc_ok).
Proof.
  apply tracker_state_good. intros t r t'. unfold align_live_replay_boundary.
  cbv [mbind stateR_bind gets lift throw set_next_message_seq modify].
  intros Hr. by repeat case_match; simplify_eq/=.
Qed.

Lemma skip_good context e :
  triple proc_good (on_tracker context (skip_live_delta e)) (λ _, proc_good) (unblocked proc_ok).
Proof.
  apply tracker_state_good. intros t r t'. unfold skip_live_delta.
  cbv [mbind stateR_bind gets lift throw set_next_message_seq modify].
  intros Hr. by repeat case_match; simplify_eq/=.
Qed.

Lemma observe_delta_good now now_ms entry envelope :
  triple proc_good (observe_redis_delta now now_ms entry envelope)
    (λ _, proc_good) (unblocked proc_ok).
Proof.
  unfold observe_redis_delta, the_backend.
  eapply triple_bind; [apply quiet_goods; solve_safe|intros backend].
  case_match; [|apply skip_good].
  eapply triple_bind; [apply observe_good|intros []]. apply quiet_goods. solve_safe.
Qed.

(** The private copy of a recovery. *)
Lemma observe_all_good now snapshot :
  triple proc_good (observe_all now snapshot) (λ _, proc_good) (unblocked proc_ok).
Proof.
  induction snapshot as [|e snapshot IH]; simpl; [by apply triple_ret|].
  eapply triple_bind; [apply observe_good|intros []]. apply IH.
Qed.

Lemma apply_catch_ups_good now catch_ups :
  triple (λ s, proc_good s ∧ pr_rebuild s.2 = None) (apply_catch_ups now catch_ups)
    (λ _, proc_good) (unblocked proc_ok).
Proof.
  induction catch_ups as [|c catch_ups IH]; simpl; [apply triple_ret; by intros s []|].
  eapply triple_bind with (Q := λ _ s, proc_good s ∧ pr_rebuild s.2 = None);
    [|intros []; apply IH].
  apply triple_pure. intros s [Hs Hr]. by apply apply_live_update_good.
Qed.

Lemma build_candidate_good now snapshot catch_ups :
  triple proc_good (build_candidate now snapshot catch_ups) (λ _, proc_good) (unblocked proc_ok).
Proof.
  unfold build_candidate, the_backend.
  eapply triple_bind; [apply observe_all_good|intros []].
  eapply triple_bind; [apply triple_gets|]. intros complete.
  eapply triple_bind with (Q := λ _ s, complete = bootstrap_complete s.2 ∧ proc_good s);
    [by intros s Hs|]. intros backend.
  destruct complete; simpl.
  - eapply triple_conseq; [apply apply_catch_ups_good| |done].
    intros s [Hc Hs]. split; [done|]. by apply Hs.
  - apply triple_throw. intros s [_ []]. by split.
Qed.
End processor.
End owners.
End guards.
