(* ===== verification/Deadlock.v ===== *)
(** * A subscription never waits for itself

    The replay loop and the supervisor over the guards of [Guards]: while entries are
    replayed the only rebuild under way is that of the recovery being assembled, and
    between two loops each rebuild belongs to the backend it rebuilds. *)

From S2P Require Import Prelude Ordered Text Protocol.
From S2P Require Import Wire Validate TychoFeed Tracker Codec.
From S2P Require Import RedisEntry Replay Recovery Store Health Readiness Reassembly.
From S2P Require Import Processor Consumer Supervisor Guards.

Definition kind_guard (k : ControlsKind) : option SubscriptionRebuildState :=
  match k with
  | NativeControls => None
  | VmControls _ _ => Some VmGuard
  | RfqControls => Some RfqGuard
  end.

Section deadlock.
Context `{RawMessages} `{!TychoEngine} `{!TychoTokens} `{!SnapshotJson} `{!SerdeJson}.
Context `{Keccak} `{HashOrder}.

Abbreviation proc := (World * BroadcasterSubscriptionProcessor)%type.
Abbreviation procM := (stateR proc Stop).
Abbreviation consumerM := (stateR Prepared Stop).
Abbreviation worldM := (stateR World Stop).
Abbreviation quiet m := (∀ s0, safe (still s0) m) (only parsing).

(** The backends of a subscription: at most one rebuilds a shared database, at most one
    serves quotes, and none of them is the private copy of a recovery. *)
Record backends_ok (kinds : list ControlsKind) : Prop := {
  one_backend_per_guard : ∀ i j k k' g, kinds !! i = Some k → kinds !! j = Some k' →
    kind_guard k = Some g → kind_guard k' = Some g → i = j;
  no_private_copy : ∀ i k wire_backend, kinds !! i = Some k → k ≠ VmControls wire_backend true;
}.

Section kinds.
Context (kinds : list ControlsKind).
Hypothesis kinds_ok : backends_ok kinds.

Definition guard_at (i : nat) : option SubscriptionRebuildState := kinds !! i ≫= kind_guard.

Lemma guard_at_inj i j g : guard_at i = Some g → guard_at j = Some g → i = j.
Proof.
  unfold guard_at. destruct (kinds !! i) eqn:Ei, (kinds !! j) eqn:Ej; simpl; try done.
  intros Hi Hj. by eapply one_backend_per_guard.
Qed.

Lemma guard_at_kind i k g : kinds !! i = Some k → kind_guard k = Some g → guard_at i = Some g.
Proof. intros Hk Hg. unfold guard_at. by rewrite Hk. Qed.

(** [rebuild], of some backend, is all that is under way. *)
Definition holding (rebuild : option SubscriptionRebuildState) (w : World) : Prop :=
  ∃ j, owned guard_at w [(j, rebuild)].

Lemma holding_guards r w w' : same_guards w w' → holding r w → holding r w'.
Proof. intros Hw [j Ho]. exists j. by eapply owned_guards. Qed.

Lemma holding_release r w : holding r w → holding None (release_opt r w).2.
Proof. intros [j Ho]. exists j. by apply owned_none, (owned_release_opt _ _ j). Qed.

Lemma holding_none w : holding None w ↔ owned guard_at w [].
Proof.
  split; [by intros [j Ho%owned_none]|]. intros Ho. exists 0%nat. by apply owned_none.
Qed.

(** ** The replay loop *)

Record procs_ok (ps : list PreparedRedisProcessor) : Prop := {
  procs_len : length ps = length kinds;
  procs_at : ∀ i pp, ps !! i = Some pp → pp_index pp = i ∧
    kinds !! i = Some (ct_kind (pr_controls (pp_processor pp))) ∧
    pr_rebuild (pp_processor pp) = None;
}.

Lemma procs_ok_insert ps i pp pp' :
  procs_ok ps → ps !! i = Some pp → pp_index pp' = pp_index pp →
  ct_kind (pr_controls (pp_processor pp')) = ct_kind (pr_controls (pp_processor pp)) →
  pr_rebuild (pp_processor pp') = None → procs_ok (<[i := pp']> ps).
Proof.
  intros [Hl Hat] Hi Hix Hk Hr. split; [by rewrite length_insert|].
  intros j pp''. rewrite list_lookup_insert_Some. intros [(<- & <- & _)|[_ Hj]]; [|by apply Hat].
  destruct (Hat i pp Hi) as (? & ? & _). rewrite Hix, Hk. done.
Qed.

Lemma procs_ok_map ps (f : PreparedRedisProcessor → PreparedRedisProcessor) :
  (∀ pp, pp_index (f pp) = pp_index pp ∧
     ct_kind (pr_controls (pp_processor (f pp))) = ct_kind (pr_controls (pp_processor pp)) ∧
     pr_rebuild (pp_processor (f pp)) = pr_rebuild (pp_processor pp)) →
  procs_ok ps → procs_ok (map f ps).
Proof.
  intros Hf [Hl Hat]. split; [by rewrite length_map|].
  intros i pp' (pp & -> & Hi)%list_lookup_fmap_Some. destruct (Hf pp) as (E1 & E2 & E3).
  rewrite E1, E2, E3. by apply Hat.
Qed.

Lemma procs_ok_boundary ps b i : procs_ok ps → procs_ok (alter (pp_set_boundary b) i ps).
Proof.
  intros [Hl Hat]. split; [by rewrite length_alter|].
  intros j pp'. rewrite list_lookup_alter. case_decide; [subst j|apply Hat].
  intros (pp & Hj & ->)%fmap_Some_1. exact (Hat i pp Hj).
Qed.

(** [recovery] is the assembly in place, and [rebuild] the rebuild under way. *)
Record loop_ok (recovery : option RecoveryAssembly) (rebuild : option SubscriptionRebuildState)
    (s : Prepared) : Prop := {
  loop_recovery : pd_recovery s = recovery;
  loop_holding : holding rebuild (pd_world s);
  loop_procs : procs_ok (pd_processors s);
}.

Definition rebuild_of (recovery : option RecoveryAssembly) : option SubscriptionRebuildState :=
  recovery ≫= ra_vm_rebuild.

(** Between two messages. *)
Definition loop_inv (s : Prepared) : Prop :=
  loop_ok (pd_recovery s) (rebuild_of (pd_recovery s)) s.

(** What an operation on a live backend keeps. *)
Record proc_live (r : option SubscriptionRebuildState) (k : ControlsKind) (s : proc) : Prop := {
  live_holding : holding r s.1;
  live_kind : ct_kind (pr_controls s.2) = k;
  live_none : pr_rebuild s.2 = None;
}.

Lemma proc_live_still r k s s' : still s s' → proc_live r k s → proc_live r k s'.
Proof.
  intros [] []. split; [by eapply holding_guards|congruence|congruence].
Qed.

Lemma quiet_live r k (m : procM unit) : quiet m → safe (proc_live r k) m.
Proof.
  intros Hm s Hs. specialize (Hm s s (still_refl s)).
  destruct (m s) as [[a|e] s'].
  - exact (proc_live_still _ _ _ _ Hm Hs).
  - destruct Hm as [He Hm]. split; [done|exact (proc_live_still _ _ _ _ Hm Hs)].
Qed.

Lemma good_live r k i (m : procM unit) :
  (∀ j, triple (proc_good guard_at i [(j, r)] k false) m
          (λ _, proc_good guard_at i [(j, r)] k false)
          (unblocked (proc_ok guard_at i [(j, r)] k false))) →
  safe (proc_live r k) m.
Proof.
  intros Hm s [[j Hh] Hk Hn].
  assert (∀ s, proc_ok guard_at i [(j, r)] k false s → proc_live r k s) as Hback.
  { intros s' [Ho Hk' Hn']. specialize (Hn' eq_refl). rewrite Hn', owned_none in Ho.
    split; [by exists j|done..]. }
  assert (proc_good guard_at i [(j, r)] k false s) as Hs.
  { split; [split; [|done..]|by intros ?]. by rewrite Hn, owned_none. }
  specialize (Hm j s Hs). destruct (m s) as [[a|e] s'].
  - by apply Hback, Hm.
  - destruct Hm as [He Hm]. by split; [|apply Hback].
Qed.

Lemma align_live r k b : safe (proc_live r k) (align_redis_replay_boundary b).
Proof. apply good_live with 0%nat. intros j. apply align_good. Qed.

Lemma observe_delta_live i k now now_ms entry envelope :
  kinds !! i = Some k →
  safe (proc_live None k) (observe_redis_delta now now_ms entry envelope).
Proof.
  intros Hk. apply good_live with i. intros j. apply observe_delta_good.
  - exact guard_at_inj.
  - intros wb ->. by apply guard_at_kind with (VmControls wb false).
  - by intros o [= -> ->]%list_elem_of_singleton.
Qed.

(** An operation on the processor at [i], within the loop. *)
Lemma with_processor_ok recovery r i (m : procM unit) :
  (∀ k, kinds !! i = Some k → safe (proc_live r k) m) →
  safe (loop_ok recovery r) (with_processor i m).
Proof.
  intros Hm s [Hrec Hh [Hl Hat]]. unfold with_processor.
  destruct (pd_processors s !! i) as [pp|] eqn:Ei; [|by split].
  destruct (Hat i pp Ei) as (Hix & Hk & Hn).
  specialize (Hm _ Hk (pd_world s, pp_processor pp)). cbn in Hm.
  assert (proc_live r (ct_kind (pr_controls (pp_processor pp))) (pd_world s, pp_processor pp))
    as Hs by done.
  specialize (Hm Hs). destruct (m (pd_world s, pp_processor pp)) as [res [w p]]. cbn.
  assert (proc_live r (ct_kind (pr_controls (pp_processor pp))) (w, p) →
    loop_ok recovery r
      (set_processors (<[i := pp_set_processor p pp]> (pd_processors s)) (set_world w s))) as Hback.
  { intros [Hh' Hk' Hn']. split; [done..|]. cbn in *. by eapply procs_ok_insert. }
  destruct res as [a|e]; [exact (Hback Hm)|]. destruct Hm as [He Hm].
  split; [done|exact (Hback Hm)].
Qed.

Lemma with_processor_quiet recovery r i m :
  quiet m → safe (loop_ok recovery r) (with_processor i m).
Proof. intros Hm. apply with_processor_ok. intros k _. by apply quiet_live. Qed.

Lemma mark_all_ok recovery r mark : safe (loop_ok recovery r) (mark_all mark).
Proof.
  apply safe_modify. intros s [Hrec Hh Hp]. split; [done..|]. by apply procs_ok_map.
Qed.
#[local] Hint Resolve mark_all_ok with_processor_quiet : safe.

Lemma with_world_ok {A} recovery r r' (m : worldM A) :
  triple (holding r) m (λ a, holding (r' a)) (unblocked (holding r)) →
  triple (loop_ok recovery r) (with_world m) (λ a, loop_ok recovery (r' a))
    (unblocked (loop_ok recovery r)).
Proof.
  intros Hm s [Hrec Hh Hp]. unfold with_world. specialize (Hm _ Hh).
  destruct (m (pd_world s)) as [[a|e] w]; [by split|]. destruct Hm as [He Hm]. by split.
Qed.

Lemma release_ok g : triple (holding (Some g)) (release g) (λ _, holding None)
  (unblocked (holding (Some g))).
Proof. intros w Hw. exact (holding_release _ _ Hw). Qed.

Lemma begin_vm_recovery_ok now i c :
  kinds !! i = Some (ct_kind c) →
  triple (holding None) (begin_vm_recovery now c) holding (unblocked (holding None)).
Proof.
  intros Hi. unfold begin_vm_recovery. destruct (ct_kind c) eqn:Ek; try by apply triple_ret.
  apply triple_bind with (Q := λ r, holding (Some r)); [|intros r; by apply triple_ret].
  intros w [j Hw%owned_none].
  pose proof (begin_vm_owns guard_at guard_at_inj i [] ltac:(by intros o Ho%elem_of_nil) now
    None (guard_at_kind _ _ _ Hi eq_refl) w ltac:(by apply owned_none)) as Hb.
  destruct (begin_or_continue_vm_rebuild now None w) as [[r|e] w'].
  - by exists i.
  - done.
Qed.

(** ** The messages of a recovery *)

Abbreviation ends_ok := (λ (_ : unit), loop_inv) (only parsing).
Abbreviation fails_ok := (unblocked loop_inv) (only parsing).

Lemma loop_ok_inv recovery s : loop_ok recovery (rebuild_of recovery) s → loop_inv s.
Proof. intros []. unfold loop_inv. split; [done| |done]. congruence. Qed.

Lemma loop_inv_triple {A} (m : consumerM A) Q :
  (∀ recovery, triple (loop_ok recovery (rebuild_of recovery)) m Q fails_ok) →
  triple loop_inv m Q fails_ok.
Proof. intros Hm s Hs. exact (Hm (pd_recovery s) s Hs). Qed.

(** A step that keeps the state of the loop, then the rest. *)
Lemma then_loop {A B} recovery (m : consumerM A) (k : A → consumerM B) Q :
  safe (loop_ok recovery (rebuild_of recovery)) m →
  (∀ a, triple (loop_ok recovery (rebuild_of recovery)) (k a) Q fails_ok) →
  triple (loop_ok recovery (rebuild_of recovery)) (m ≫= k) Q fails_ok.
Proof.
  intros Hm Hk. eapply triple_bind; [|exact Hk].
  eapply triple_error; [exact Hm|]. intros e s [He Hs]. split; [done|by eapply loop_ok_inv].
Qed.

Lemma bail_loop {A} recovery message Q :
  triple (loop_ok recovery (rebuild_of recovery)) (bail message : consumerM A) Q fails_ok.
Proof. apply triple_throw. intros s Hs. split; [done|by eapply loop_ok_inv]. Qed.

Lemma bail_dropping_ok {A} r message Q :
  triple (loop_ok None r) (bail_dropping r message : consumerM A) Q fails_ok.
Proof.
  intros s [Hrec Hh Hp]. unfold bail_dropping, drop_rebuild.
  assert (loop_inv (set_world (release_opt r (pd_world s)).2 s)) as Hs.
  { apply loop_ok_inv with None. split; [done|by apply holding_release|done]. }
  destruct r as [g|]; (split; [done|]); [exact Hs|]. by destruct s.
Qed.

(** An assignment to the controls of a backend does not fail. *)
Lemma with_controls_ok recovery r i f Q X :
  (∀ c, ct_kind (f c) = ct_kind c) → (∀ s, loop_ok recovery r s → Q tt s) →
  triple (loop_ok recovery r) (with_processor i (on_controls f)) Q X.
Proof.
  intros Hf HQ s Hs.
  pose proof (with_processor_quiet recovery r i (on_controls f) (quiet_on_controls f Hf) s Hs) as H'.
  revert H'. unfold with_processor. destruct (pd_processors s !! i); [|by intros; apply HQ].
  cbn. apply HQ.
Qed.

Lemma start_processors_ok now manifest : ∀ ps i r,
  (∀ j pp, ps !! j = Some pp →
     kinds !! (i + j)%nat = Some (ct_kind (pr_controls (pp_processor pp)))) →
  triple (loop_ok None r) (start_processors now manifest i ps r) (loop_ok None) fails_ok.
Proof.
  induction ps as [|pp ps IH]; intros i r Hps; cbn [start_processors]; [by apply triple_ret|].
  assert (∀ j pp, ps !! j = Some pp →
    kinds !! (S i + j)%nat = Some (ct_kind (pr_controls (pp_processor pp)))) as Hps'.
  { intros j pp' Hj. rewrite <- (Hps (S j) pp') by done. f_equal. lia. }
  pose proof (Hps 0%nat pp eq_refl) as Hk. rewrite Nat.add_0_r in Hk.
  case_match; [by apply IH|]. case_match; [apply bail_dropping_ok|].
  apply triple_bind with (Q := λ _, loop_ok None r); [by apply with_controls_ok|intros []].
  apply triple_bind with (Q := λ _, loop_ok None r); [by apply with_controls_ok|intros []].
  apply triple_bind with (Q := loop_ok None); [|intros r'; by apply IH].
  destruct r as [g|]; [by apply triple_ret|].
  eapply triple_error.
  - apply (with_world_ok None None (λ r, r)). by apply begin_vm_recovery_ok with i.
  - intros e s [He Hs]. split; [done|exact (loop_ok_inv None s Hs)].
Qed.

Lemma set_recovery_ok recovery recovery' r :
  triple (loop_ok recovery r) (modify (set_recovery recovery')) (λ _, loop_ok recovery' r)
    fails_ok.
Proof. apply triple_modify. by intros s []. Qed.

Lemma apply_recovery_start_ok now seq manifest :
  triple loop_inv (apply_recovery_start now seq manifest) ends_ok fails_ok.
Proof.
  apply loop_inv_triple. intros recovery. unfold apply_recovery_start.
  apply then_loop; [apply safe_or_fail|intros []].
  apply then_loop; [apply safe_or_fail|intros expected].
  case_match; [apply bail_loop|].
  eapply triple_bind; [apply triple_gets|]. intros existing.
  eapply triple_bind with (Q := λ _, loop_ok None (rebuild_of existing)).
  { apply triple_modify. intros s [-> [Hrec ? ?]]. by split; [|rewrite Hrec|]. }
  intros []. apply triple_bind with (Q := loop_ok None).
  { destruct existing as [existing|]; [|by apply triple_ret].
    case_match; [apply bail_dropping_ok|by apply triple_ret]. }
  intros r. eapply triple_bind; [apply triple_gets|]. intros ps.
  apply triple_bind with (Q := loop_ok None).
  - intros s [-> Hs]. apply start_processors_ok; [|done].
    intros j pp Hj. by apply (procs_at _ (loop_procs _ _ _ Hs)).
  - intros r'. apply triple_modify. intros s [? ? ?].
    by apply loop_ok_inv with (Some {| ra_manifest := manifest; ra_chunks := ∅;
      ra_buffer_a := ∅; ra_vm_rebuild := r'; ra_started_at := now |}).
Qed.

Lemma active_recovery_ok recovery message :
  triple (loop_ok recovery (rebuild_of recovery)) (active_recovery message)
    (λ a s, recovery = Some a ∧ loop_ok recovery (rebuild_of recovery) s) fails_ok.
Proof.
  intros s Hs. unfold active_recovery. rewrite gets_bind, (loop_recovery _ _ _ Hs).
  destruct recovery as [a|]; [done|]. split; [done|by eapply loop_ok_inv].
Qed.

(** The end of a step that replaces the assembly in place. *)
Lemma replace_recovery_ok recovery recovery' :
  rebuild_of recovery' = rebuild_of recovery →
  triple (loop_ok recovery (rebuild_of recovery)) (modify (set_recovery recovery')) ends_ok
    fails_ok.
Proof.
  intros Hr. apply triple_modify. intros s [? ? ?]. apply loop_ok_inv with recovery'.
  rewrite Hr. by split.
Qed.

Ltac solve_loop :=
  repeat first
    [ apply bail_loop
    | apply then_loop; [by eauto with safe nocore|intros ?]
    | case_match ].

Lemma apply_recovery_chunk_ok entry chunk :
  triple loop_inv (apply_recovery_chunk entry chunk) ends_ok fails_ok.
Proof.
  apply loop_inv_triple. intros recovery. unfold apply_recovery_chunk.
  apply then_loop; [apply safe_or_fail|intros []].
  eapply triple_bind; [apply active_recovery_ok|]. intros a.
  apply triple_pure. intros s0 [-> Hs0]. eapply triple_conseq; [|intros s ->; exact Hs0|intros b s Hs; exact Hs].
  cbv zeta. solve_loop. by apply replace_recovery_ok.
Qed.

Lemma apply_recovery_catch_up_ok catch_up :
  triple loop_inv (apply_recovery_catch_up catch_up) ends_ok fails_ok.
Proof.
  apply loop_inv_triple. intros recovery. unfold apply_recovery_catch_up.
  apply then_loop; [apply safe_or_fail|intros []].
  eapply triple_bind; [apply active_recovery_ok|]. intros a.
  apply triple_pure. intros s0 [-> Hs0]. eapply triple_conseq; [|intros s ->; exact Hs0|intros b s Hs; exact Hs].
  cbv zeta. solve_loop. by apply replace_recovery_ok.
Qed.

(** ** The commit *)

Lemma candidate_kind tokens b p :
  ct_kind (pr_controls (recovery_copy tokens b p)) =
  match ct_kind (pr_controls p) with
  | VmControls wire_backend _ => VmControls wire_backend true
  | kind => kind
  end.
Proof. done. Qed.

Lemma with_candidate_ok recovery r now snapshot catch_ups tokens b p :
  safe (loop_ok recovery r)
    (with_candidate (build_candidate now snapshot catch_ups) (recovery_copy tokens b p)).
Proof.
  intros s [Hrec [j Ho] Hp]. unfold with_candidate.
  set (c := recovery_copy tokens b p).
  pose proof (build_candidate_good guard_at guard_at_inj (S j) [(j, r)]
    (ct_kind (pr_controls c)) false) as Hb.
  specialize (Hb ltac:(intros wb; subst c; rewrite candidate_kind; by case_match)).
  specialize (Hb ltac:(intros o [= ? ?]%list_elem_of_singleton; lia) now snapshot catch_ups).
  specialize (Hb (pd_world s, c)).
  assert (proc_good guard_at (S j) [(j, r)] (ct_kind (pr_controls c)) false (pd_world s, c))
    as Hc by (split; [split; [by apply owned_none|done..]|done]).
  specialize (Hb Hc). destruct (build_candidate now snapshot catch_ups (pd_world s, c)) as [res [w p']].
  assert (proc_ok guard_at (S j) [(j, r)] (ct_kind (pr_controls c)) false (w, p') →
    loop_ok recovery r (set_world w s)) as Hback.
  { intros [Ho' _ Hn]. cbn in *. rewrite (Hn eq_refl), owned_none in Ho'.
    split; [done|by exists j|done]. }
  destruct res as [a|e]; [apply Hback, Hb|]. destruct Hb. by split; [|apply Hback].
Qed.
#[local] Hint Resolve with_candidate_ok : safe.

Lemma build_candidates_ok recovery r now manifest b snapshot catch_ups ps : ∀ i,
  safe (loop_ok recovery r) (build_candidates now manifest b snapshot catch_ups i ps).
Proof. induction ps as [|pp ps IH]; intros i; cbn [build_candidates]; solve_safe. Qed.

Lemma quiet_publish_one now now_ms b v ms complete backend candidate :
  quiet (publish_one now now_ms b v ms complete backend candidate).
Proof.
  intros s0. unfold publish_one. apply safe_bind.
  { intros [w p] Hs. unfold store_publish_candidate. cbn.
    destruct (publish_candidate _ _ _ _) as [[tokens store]|e]; [|by split].
    by eapply still_trans. }
  intros []. apply safe_bind; [destruct backend, complete|intros []; apply safe_bind];
    intros; by first [apply quiet_set_health|apply quiet_set_subscription|apply safe_ret].
Qed.
#[local] Hint Resolve quiet_publish_one : safe.

Lemma publish_candidates_ok recovery r now now_ms b v ms complete candidates :
  safe (loop_ok recovery r) (publish_candidates now now_ms b v ms complete candidates).
Proof.
  induction candidates as [|[[i backend] c] candidates IH]; cbn [publish_candidates]; solve_safe.
Qed.

Lemma align_processors_ok recovery r b count : ∀ i,
  safe (loop_ok recovery r) (align_processors b i count).
Proof.
  induction count as [|count IH]; intros i; cbn [align_processors]; [apply safe_ret|].
  apply safe_bind; [apply with_processor_ok; intros k _; apply align_live|intros []].
  apply safe_bind; [|intros []; apply IH].
  apply safe_modify. intros s [? ? Hp]. split; [done..|]. by apply procs_ok_boundary.
Qed.
#[local] Hint Resolve build_candidates_ok publish_candidates_ok align_processors_ok : safe.

Lemma commit_assembled_ok recovery r now now_ms a seq ms commit :
  safe (loop_ok recovery r) (commit_assembled now now_ms a seq ms commit).
Proof.
  unfold commit_assembled, prepared_processors. solve_safe.
  apply safe_modify. by intros s [].
Qed.

Lemma finish_recovery_rebuild_ok r :
  triple (loop_ok None r) (finish_recovery_rebuild r) ends_ok fails_ok.
Proof.
  unfold finish_recovery_rebuild. destruct r as [g|]; [|apply triple_ret; exact (loop_ok_inv None)].
  intros s [Hrec Hh%holding_release Hp]. unfold prepared_processors. rewrite gets_bind.
  destruct (list_find _ (pd_processors s)) as [[i vm]|];
    [|by apply (loop_ok_inv None)].
  unfold with_world, finish_vm_recovery, release. rewrite modify_bind.
  destruct (ct_kind _); cbn; apply (loop_ok_inv None); split; try done;
    by eapply holding_guards, Hh.
Qed.

Lemma commit_recovery_ok now now_ms seq ms commit :
  triple loop_inv (commit_recovery now now_ms seq ms commit) ends_ok fails_ok.
Proof.
  apply loop_inv_triple. intros recovery. unfold commit_recovery.
  eapply triple_bind; [apply active_recovery_ok|]. intros a.
  apply triple_pure. intros s0 [-> Hs0]. eapply triple_conseq; [|intros s ->; exact Hs0|intros b s Hs; exact Hs].
  eapply triple_bind; [apply set_recovery_ok with (recovery' := None)|intros []].
  apply triple_bind with (Q := λ _, loop_ok None (ra_vm_rebuild a));
    [|intros []; apply finish_recovery_rebuild_ok].
  intros s Hs. unfold dropping_on_error.
  pose proof (commit_assembled_ok _ _ now now_ms a seq ms commit s Hs) as Hc.
  destruct (commit_assembled now now_ms a seq ms commit s) as [[[]|e] s']; [done|].
  destruct Hc as [He Hc].
  pose proof (bail_dropping_ok (A := unit) (ra_vm_rebuild a) "" (λ _ _, True) s' Hc) as Hd.
  split; [done|]. revert Hd. unfold bail_dropping, drop_rebuild.
  destruct (ra_vm_rebuild a); by intros [_ ?].
Qed.

Lemma apply_recovery_message_ok now now_ms entry envelope :
  triple loop_inv (apply_recovery_message now now_ms entry envelope) ends_ok fails_ok.
Proof.
  unfold apply_recovery_message, apply_recovery_commit.
  assert (∀ s, loop_inv s → loop_inv s) as Hid by done.
  case_match; try (by apply triple_throw).
  - apply apply_recovery_start_ok.
  - apply apply_recovery_chunk_ok.
  - apply apply_recovery_catch_up_ok.
  - apply triple_bind with (Q := λ _, loop_inv); [|intros []; apply commit_recovery_ok].
    apply triple_lift; [done|]. intros s e Hs. destruct (from_contract _); by intros [= <-].
Qed.

(** ** Batches and turns *)

Lemma observe_delta_all_ok now now_ms entry envelope ps : ∀ i,
  safe (loop_ok None None) (observe_delta now now_ms entry envelope i ps).
Proof.
  induction ps as [|pp ps IH]; intros i; cbn [observe_delta]; [apply safe_ret|].
  apply safe_bind; [|intros []; apply IH]. case_match; [apply safe_ret|].
  apply with_processor_ok. intros k Hk. by eapply observe_delta_live.
Qed.

Lemma marks_inv mark : triple loop_inv (mark_all mark) ends_ok fails_ok.
Proof.
  apply loop_inv_triple. intros recovery s Hs. exact (loop_ok_inv _ _ (mark_all_ok _ _ mark s Hs)).
Qed.

Lemma apply_replay_message_ok now now_ms message :
  triple loop_inv (apply_replay_message now now_ms message) ends_ok fails_ok.
Proof.
  unfold apply_replay_message. eapply triple_bind; [apply triple_gets|]. intros recovery.
  apply triple_bind with (Q := λ _, loop_inv); [|intros []; apply marks_inv].
  case_match eqn:E.
  - eapply triple_conseq; [apply apply_recovery_message_ok|by intros s []|done].
  - apply orb_false_iff in E as [_ E%bool_decide_eq_false].
    destruct recovery as [a|]; [by destruct E|].
    intros s [Hrec Hs]. unfold loop_inv in Hs. rewrite <- Hrec in Hs.
    unfold prepared_processors. rewrite gets_bind.
    pose proof (observe_delta_all_ok now now_ms (rmsg_entry message) (rmsg_envelope message)
      (pd_processors s) 0 s Hs) as Ho.
    destruct (observe_delta _ _ _ _ _ _ s) as [[[]|e] s'].
    + exact (loop_ok_inv None _ Ho).
    + destruct Ho as [He Ho]. split; [done|exact (loop_ok_inv None _ Ho)].
Qed.

Lemma apply_replay_batch_ok now now_ms items : ∀ checkpoint s,
  loop_inv s →
  let '(r, _, s') := apply_replay_batch now now_ms items checkpoint s in
  loop_inv s' ∧ r ≠ Err Blocked.
Proof.
  induction items as [|message items IH]; intros checkpoint s Hs; cbn [apply_replay_batch];
    [done|].
  pose proof (apply_replay_message_ok now now_ms message s Hs) as Hm.
  destruct (apply_replay_message now now_ms message s) as [[[]|e] s']; [by apply IH|].
  destruct Hm as [He Hm]. split; [done|]. congruence.
Qed.

Definition turn_ok (t : Turn) : Prop :=
  match t with
  | Continue l | Exit _ l => loop_inv (rl_prepared l)
  | TurnBlocked _ => False
  end.

Lemma unless_timeout_ok now cfg l : loop_inv (rl_prepared l) → turn_ok (unless_timeout now cfg l).
Proof. intros Hl. unfold unless_timeout. by case_match. Qed.

Lemma run_marks_ok mark s : loop_inv s → loop_inv (run_marks (mark_all mark) s).
Proof. intros Hs. exact (marks_inv mark s Hs). Qed.

Lemma replay_turn_ok now now_ms cfg poll l :
  loop_inv (rl_prepared l) → turn_ok (replay_turn now now_ms cfg poll l).
Proof.
  intros Hl. unfold replay_turn. destruct poll as [poll|error].
  2: { case_match; [by apply run_marks_ok|done]. }
  set (prepared := match rl_transport_retry l with Some _ => _ | None => _ end).
  assert (loop_inv prepared) as Hp by (subst prepared; case_match; [by apply run_marks_ok|done]).
  destruct poll as [batch|checkpoint|].
  - pose proof (apply_replay_batch_ok now now_ms (items batch) (rl_checkpoint l) prepared Hp) as Hb.
    destruct (apply_replay_batch _ _ _ _ _) as [[[[]|[error|]] checkpoint] s']; destruct Hb as [Hb ?].
    + case_match; [apply unless_timeout_ok; by apply run_marks_ok|done].
    + done.
    + done.
  - apply unless_timeout_ok. by apply run_marks_ok.
  - by apply unless_timeout_ok.
Qed.
End kinds.
End deadlock.
