(* ===== verification/Supervision.v ===== *)
(** * The rounds of a supervisor

    Whatever connections, decoders, snapshots and polls a supervisor meets, it never waits
    for a lock it holds, and a lock is held exactly by a rebuild under way. *)

From S2P Require Import Prelude Ordered Text Protocol.
From S2P Require Import Wire Validate TychoFeed Tracker Codec.
From S2P Require Import RedisEntry Replay Recovery Store Health Readiness Reassembly.
From S2P Require Import Processor Consumer Supervisor ConsumerDemo Guards Deadlock.

Section supervision.
Context `{RawMessages} `{!TychoEngine} `{!TychoTokens} `{!SnapshotJson} `{!SerdeJson}.
Context `{Keccak} `{HashOrder}.

Abbreviation proc := (World * BroadcasterSubscriptionProcessor)%type.
Abbreviation procM := (stateR proc Stop).
Abbreviation supM := (stateR Supervisor Stop).
Abbreviation worldM := (stateR World Stop).
Abbreviation slot := (nat * option SubscriptionRebuildState)%type.
Abbreviation quiet m := (∀ s0, safe (still s0) m) (only parsing).

Section kinds.
Context (kinds : list ControlsKind).
Hypothesis kinds_ok : backends_ok kinds.

Abbreviation at_ := (guard_at kinds).

(** ** Slots *)

Definition rebuild_slots (rebuilds : list (option SubscriptionRebuildState)) : list slot :=
  imap pair rebuilds.
Definition pending_slot (p : PendingRedisProcessor) : slot :=
  (pn_index p, pr_rebuild (pn_processor p)).
Definition slots (s : Supervisor) : list slot :=
  rebuild_slots (sv_rebuilds s) ++ map pending_slot (sv_pending s).

Lemma elem_of_rebuild_slots rebuilds i o :
  (i, o) ∈ rebuild_slots rebuilds ↔ rebuilds !! i = Some o.
Proof.
  unfold rebuild_slots. rewrite elem_of_lookup_imap. split.
  - by intros (j & r & [= -> ->] & Hj).
  - intros Hi. by exists i, o.
Qed.

Lemma rebuild_slots_insert rebuilds i r r' :
  rebuilds !! i = Some r →
  (i, r') :: rebuild_slots rebuilds ≡ₚ (i, r) :: rebuild_slots (<[i := r']> rebuilds).
Proof.
  intros (l1 & l2 & -> & ->)%list_elem_of_split_length.
  unfold rebuild_slots. rewrite insert_app_r_alt, Nat.sub_diag by done. simpl.
  rewrite !imap_app. simpl. rewrite Nat.add_0_r. by rewrite <- !Permutation_middle, Permutation_swap.
Qed.

Lemma owned_forget w l :
  Forall (λ x : slot, x.2 = None) l → ∀ l', owned at_ w (l ++ l') ↔ owned at_ w l'.
Proof.
  induction 1 as [|[i o] l Ho _ IH]; intros l'; [done|]. simpl in *. subst o.
  by rewrite owned_none.
Qed.

(** ** The state between the loops *)

Record sup_ok (pending : list PendingRedisProcessor) (extra : list slot) (s : Supervisor) :
    Prop := {
  sup_kinds : map ct_kind (sv_controls s) = kinds;
  sup_len : length (sv_rebuilds s) = length kinds;
  sup_is : sv_pending s = pending;
  sup_owned : owned at_ (sv_world s) (extra ++ slots s);
  sup_pending : Forall (λ p,
    kinds !! pn_index p = Some (ct_kind (pr_controls (pn_processor p))) ∧
    sv_rebuilds s !! pn_index p = Some None) pending;
  sup_distinct : NoDup (map pn_index pending);
}.

Lemma take_rebuild_ok pending i extra :
  triple (sup_ok pending extra) (take_rebuild i)
    (λ r s, sup_ok pending ((i, r) :: extra) s ∧ (i < length kinds → sv_rebuilds s !! i = Some None)%nat)
    never.
Proof.
  intros s [Hk Hl Hi' Ho Hp Hd]. unfold take_rebuild. rewrite gets_bind, modify_bind.
  set (s' := sv_set_rebuilds _ s).
  assert (sv_rebuilds s' = <[i := None]> (sv_rebuilds s)) as Hs' by done.
  change (sup_ok pending ((i, sv_rebuilds s !! i ≫= id) :: extra) s' ∧
    (i < length kinds → sv_rebuilds s' !! i = Some None)%nat).
  split; [|intros Hi; rewrite Hs', list_lookup_insert_eq; [done|by rewrite Hl]].
  split; [done|by rewrite Hs', length_insert|done| | |done].
  - destruct (sv_rebuilds s !! i) as [r|] eqn:Ei; simpl.
    + apply (owned_perm _ _ ((i, None) :: extra ++ slots s)); [|by apply owned_none].
      unfold slots. rewrite Hs'. cbn [sv_pending].
      change (sv_pending s') with (sv_pending s).
      rewrite !(Permutation_app_comm extra), !app_comm_cons.
      by rewrite (rebuild_slots_insert _ _ _ None Ei).
    + apply owned_none. unfold slots. rewrite Hs', list_insert_ge; [done|].
      by apply lookup_ge_None.
  - eapply Forall_impl; [exact Hp|]. intros p [? Hr]. split; [done|].
    rewrite Hs', list_lookup_insert. by case_decide as E; [destruct E as [-> ?]|].
Qed.

(** ** Resets *)

Lemma handle_reset_owns now error i c others rebuild :
  kinds !! i = Some (ct_kind c) → (∀ o, (i, o) ∈ others → o = None) →
  triple (owns at_ i others rebuild) (handle_subscription_reset now error rebuild c)
    (λ r w, ct_kind r.1 = ct_kind c ∧ owns at_ i others r.2 w)
    never.
Proof.
  intros Hk Hfree. unfold handle_subscription_reset. cbv zeta.
  pose proof (guard_at_inj kinds kinds_ok) as Hinj.
  match goal with |- context [ct_kind ?c'] => change (ct_kind c') with (ct_kind c) end.
  destruct (ct_kind c) as [|wb held|] eqn:Ek.
  - eapply triple_bind with (Q := λ _, owns at_ i others None).
    + destruct rebuild as [g|]; [by apply release_owns|by apply triple_ret].
    + intros []. apply triple_ret. by intros w Hw.
  - eapply triple_bind; [by apply modify_owns|intros []].
    eapply triple_bind; [apply begin_vm_owns; [done..|by eapply guard_at_kind]|].
    intros r. apply triple_ret. by intros w Hw.
  - eapply triple_bind; [apply begin_rfq_owns; [done..|by eapply guard_at_kind]|].
    intros r. apply triple_ret. by intros w Hw.
Qed.

Lemma sup_world_ok {A} pending extra extra' (m : worldM A) :
  (∀ l, triple (λ w, owned at_ w (extra ++ l)) m (λ a w, owned at_ w (extra' a ++ l))
          never) →
  triple (sup_ok pending extra) (sup_world m) (λ a, sup_ok pending (extra' a)) never.
Proof.
  intros Hm s [Hk Hl Hi Ho Hp Hd]. unfold sup_world.
  specialize (Hm (slots s) _ Ho). by destruct (m (sv_world s)) as [[a|e] w].
Qed.

Lemma release_opt_ok pending i old extra :
  triple (sup_ok pending ((i, old) :: extra)) (sup_world (release_opt old))
    (λ _, sup_ok pending extra)
    never.
Proof.
  apply (sup_world_ok pending ((i, old) :: extra) (λ _, extra)). intros l w Hw.
  pose proof (owned_release_opt _ _ _ _ _ Hw) as Hr. by destruct old.
Qed.

(** The rebuild of a backend that no pending processor is for. *)
Lemma assign_rebuild_ok pending i rebuild extra :
  (i < length kinds)%nat → i ∉ map pn_index pending →
  triple (sup_ok pending ((i, rebuild) :: extra)) (assign_rebuild i rebuild)
    (λ _, sup_ok pending extra) never.
Proof.
  intros Hi Hnone. unfold assign_rebuild.
  eapply triple_bind; [apply take_rebuild_ok|]. intros old.
  apply triple_bind with (Q := λ _ s,
    sup_ok pending ((i, rebuild) :: extra) s ∧ sv_rebuilds s !! i = Some None).
  { intros s [Hs Hr]. pose proof (release_opt_ok pending i old _ s Hs) as Hw.
    unfold sup_world in *. destruct (release_opt old (sv_world s)) as [[[]|e] w]; [|done].
    split; [done|by apply Hr]. }
  intros []. apply triple_modify. intros s [[Hk Hl His Ho Hp Hd] Hr].
  split; [done|by cbn; rewrite length_insert|done| | |done]; cbn.
  - apply (owned_none _ _ i). eapply owned_perm; [|exact Ho]. unfold slots. cbn.
    rewrite !(Permutation_app_comm extra), !app_comm_cons.
    by rewrite (rebuild_slots_insert _ _ _ rebuild Hr).
  - apply Forall_forall. intros p Hin. rewrite Forall_forall in Hp.
    destruct (Hp p Hin) as [? Hp']. split; [done|].
    rewrite list_lookup_insert_ne; [done|]. intros ->. apply Hnone. by apply list_elem_of_fmap_2.
Qed.

Lemma kinds_set i c (cs : list BroadcasterSubscriptionControls) :
  map ct_kind cs = kinds → kinds !! i = Some (ct_kind c) →
  map ct_kind (<[i := c]> cs) = kinds.
Proof.
  intros Hk Hi. change (ct_kind <$> <[i := c]> cs = kinds).
  rewrite list_fmap_insert. change (ct_kind <$> cs) with (map ct_kind cs). rewrite Hk.
  by apply list_insert_id.
Qed.

Lemma slots_free pending extra i s :
  sup_ok pending extra s → i ∉ map pn_index pending → sv_rebuilds s !! i = Some None →
  ∀ o, (i, o) ∈ slots s → o = None.
Proof.
  intros Hs Hi Hr o. unfold slots. rewrite elem_of_app, elem_of_rebuild_slots, (sup_is _ _ _ Hs).
  intros [Ho|(p & [= -> ->] & Hp)%list_elem_of_fmap]; [congruence|].
  destruct Hi. by apply list_elem_of_fmap_2.
Qed.

Lemma reset_backend_ok pending now message is_gap i c :
  kinds !! i = Some (ct_kind c) → i ∉ map pn_index pending →
  triple (sup_ok pending []) (reset_backend now message is_gap i c) (λ _, sup_ok pending [])
    never.
Proof.
  intros Hk Hi. pose proof (lookup_lt_Some _ _ _ Hk) as Hlt. unfold reset_backend.
  eapply triple_bind; [apply take_rebuild_ok|]. intros rebuild.
  apply triple_bind with (Q := λ r s, ct_kind r.1 = ct_kind c ∧ sup_ok pending [(i, r.2)] s).
  { intros s [Hs Hr]. specialize (Hr Hlt).
    pose proof (slots_free _ _ _ _ Hs Hi Hr) as Hfree.
    destruct Hs as [Hkinds Hl His Ho Hp Hd]. unfold sup_world.
    pose proof (handle_reset_owns now (Some message) i c (slots s) rebuild Hk Hfree (sv_world s))
      as Hw. specialize (Hw Ho).
    destruct (handle_subscription_reset now (Some message) rebuild c (sv_world s)) as [[r|e] w].
    - destruct Hw as [Hc Ho']. by split.
    - done. }
  intros [c' rebuild']. cbn.
  apply triple_bind with (Q := λ _, sup_ok pending [(i, rebuild')]).
  - apply triple_modify. intros s [Hc [Hkinds Hl His Ho Hp Hd]]. split; try done. cbn.
    apply kinds_set; [done|]. destruct is_gap; cbn; by rewrite Hc.
  - intros []. by apply assign_rebuild_ok.
Qed.

Lemma controls_kind pending extra s i c :
  sup_ok pending extra s → sv_controls s !! i = Some c → kinds !! i = Some (ct_kind c).
Proof.
  intros Hs Hc. rewrite <- (sup_kinds _ _ _ Hs). change (map ct_kind (sv_controls s))
    with (ct_kind <$> sv_controls s). by rewrite list_lookup_fmap, Hc.
Qed.

Lemma reset_controls_ok now message is_gap : ∀ cs i,
  (∀ j c, cs !! j = Some c → kinds !! (i + j)%nat = Some (ct_kind c)) →
  triple (sup_ok [] []) (reset_controls now message is_gap i cs) (λ _, sup_ok [] []) never.
Proof.
  induction cs as [|c cs IH]; intros i Hcs; cbn [reset_controls]; [by apply triple_ret|].
  eapply triple_bind.
  - apply reset_backend_ok; [|by intros ?%elem_of_nil].
    rewrite <- (Hcs 0%nat c eq_refl). f_equal. lia.
  - intros []. apply IH. intros j c' Hj. rewrite <- (Hcs (S j) c' Hj). f_equal. lia.
Qed.

Lemma reset_after_error_ok now cfg backoff message is_gap :
  triple (sup_ok [] []) (reset_redis_subscription_after_error now cfg backoff message is_gap)
    (λ _, sup_ok [] []) never.
Proof.
  unfold reset_redis_subscription_after_error.
  eapply triple_bind; [apply triple_gets|]. intros cs.
  apply triple_bind with (Q := λ _, sup_ok [] []); [|intros []; by apply triple_ret].
  intros s [-> Hs]. apply reset_controls_ok; [|done]. intros j c Hj.
  by eapply controls_kind.
Qed.

(** ** Preparing *)

Lemma NoDup_snoc {A} (l : list A) x : NoDup l → x ∉ l → NoDup (l ++ [x]).
Proof.
  intros Hl Hx. apply NoDup_app. split_and!; [done| |apply NoDup_singleton].
  intros y Hy ->%list_elem_of_singleton. done.
Qed.

(** A backend past its bootstrap holds no rebuild. *)
Definition pending_settled (p : PendingRedisProcessor) : Prop :=
  bootstrap_complete (pn_processor p) = true → pr_rebuild (pn_processor p) = None.

(** The first [n] backends have been dealt with, and none has failed if [all]. *)
Definition prepared_upto (n : nat) (all : bool) (pending : list PendingRedisProcessor) : Prop :=
  Forall (λ i, i < n)%nat (map pn_index pending) ∧
  (all = true → map pn_index pending = seq 0 n) ∧ Forall pending_settled pending.

Lemma push_pending_ok pending i c rebuild decoder chain :
  kinds !! i = Some (ct_kind c) → i ∉ map pn_index pending →
  let p := {| pn_index := i; pn_processor := with_decoder decoder chain c rebuild |} in
  triple (λ s, sup_ok pending [(i, rebuild)] s ∧ sv_rebuilds s !! i = Some None)
    (modify (λ s, sv_set_pending (sv_pending s ++ [p]) s))
    (λ _, sup_ok (pending ++ [p]) []) never.
Proof.
  intros Hk Hi p. apply triple_modify. intros s [[Hkinds Hl His Ho Hp Hd] Hr].
  split; [done|done|cbn; by rewrite His| | |].
  - unfold slots in *. cbn. rewrite map_app, His in *. simpl in *.
    eapply owned_perm; [|exact Ho]. rewrite app_assoc. apply Permutation_cons_append.
  - apply Forall_app. split; [done|]. apply Forall_singleton. by cbn.
  - rewrite map_app. by apply NoDup_snoc.
Qed.

Lemma prepare_processors_ok now chain decoder_of : ∀ cs i pending error,
  (∀ j c, cs !! j = Some c → kinds !! (i + j)%nat = Some (ct_kind c)) →
  prepared_upto i (bool_decide (error = None)) pending →
  triple (sup_ok pending []) (prepare_processors now chain decoder_of i cs error)
    (λ error s, ∃ pending, sup_ok pending [] s ∧
       prepared_upto (i + length cs) (bool_decide (error = None)) pending) never.
Proof.
  induction cs as [|c cs IH]; intros i pending error Hcs Hup; cbn [prepare_processors].
  { apply triple_ret. intros s Hs. exists pending. simpl. by rewrite Nat.add_0_r. }
  assert (∀ j c, cs !! j = Some c → kinds !! (S i + j)%nat = Some (ct_kind c)) as Hcs'.
  { intros j c' Hj. rewrite <- (Hcs (S j) c' Hj). f_equal. lia. }
  pose proof (Hcs 0%nat c eq_refl) as Hk. rewrite Nat.add_0_r in Hk.
  destruct Hup as (Hlt & Hall & Hset).
  assert (i ∉ map pn_index pending) as Hi.
  { intros Hi. rewrite Forall_forall in Hlt. specialize (Hlt i Hi). lia. }
  replace (i + length (c :: cs))%nat with (S i + length cs)%nat by (simpl; lia).
  destruct (decoder_of i) as [decoder|message].
  - eapply triple_bind; [apply take_rebuild_ok|]. intros rebuild.
    eapply triple_bind.
    { eapply triple_conseq; [by apply push_pending_ok| |intros a s Hs; exact Hs].
      intros s [Hs Hr]. split; [done|]. apply Hr. by eapply lookup_lt_Some. }
    intros []. apply IH; [done|]. split_and!.
    + rewrite map_app. apply Forall_app. split; [|by apply Forall_singleton; simpl; lia].
      eapply Forall_impl; [exact Hlt|]. simpl. lia.
    + intros Ha. rewrite map_app, (Hall Ha), seq_S. done.
    + apply Forall_app. split; [done|]. by apply Forall_singleton.
  - eapply triple_bind; [by apply reset_backend_ok|]. intros [].
    apply IH; [done|]. split_and!; [|by rewrite bool_decide_eq_false_2|done].
    eapply Forall_impl; [exact Hlt|]. simpl. lia.
Qed.

(** ** The bootstrap *)

Definition booting (idx : list nat) (s : Supervisor) : Prop :=
  ∃ pending, sup_ok pending [] s ∧ map pn_index pending = idx ∧ Forall pending_settled pending.
(** A processor has failed half-way. *)
Definition torn (s : Supervisor) : Prop := ∃ pending, sup_ok pending [] s.

Lemma booting_torn idx s : booting idx s → torn s.
Proof. intros (pending & Hs & _). by exists pending. Qed.

(** What an operation on a pending processor keeps; [may_hold]: it may hold its
    rebuild. *)
Definition pending_safe (may_hold : bool) (m : procM unit) : Prop :=
  ∀ i others k,
    (∀ wire_backend, k = VmControls wire_backend false → at_ i = Some VmGuard) →
    (∀ o, (i, o) ∈ others → o = None) →
    triple (proc_good at_ i others k may_hold) m (λ _, proc_good at_ i others k may_hold)
      (unblocked (proc_ok at_ i others k may_hold)).

Lemma pending_slots_replace l1 (p : PendingRedisProcessor) l2 rebuilds :
  rebuild_slots rebuilds ++ map pending_slot (l1 ++ p :: l2) ≡ₚ
  pending_slot p :: (rebuild_slots rebuilds ++ map pending_slot (l1 ++ l2)).
Proof.
  rewrite !map_app. simpl. by rewrite <- !Permutation_middle.
Qed.

Lemma with_pending_ok n m may_hold pending p :
  pending_safe may_hold m → pending !! n = Some p → pending_settled p →
  (may_hold = false → pr_rebuild (pn_processor p) = None) →
  triple (sup_ok pending []) (with_pending n m)
    (λ _ s, ∃ p', pn_index p' = pn_index p ∧ pending_settled p' ∧
       (may_hold = false → pr_rebuild (pn_processor p') = None) ∧
       sup_ok (<[n := p']> pending) [] s)
    (unblocked torn).
Proof.
  intros Hm Hn Hset Hhold s Hs. pose proof Hs as [Hk Hl His Ho Hp Hd].
  unfold with_pending. rewrite His, Hn.
  apply list_elem_of_split_length in Hn as (l1 & l2 & -> & ->).
  rewrite Forall_app, Forall_cons in Hp. destruct Hp as (Hp1 & [Hkp Hrp] & Hp2).
  set (others := rebuild_slots (sv_rebuilds s) ++ map pending_slot (l1 ++ l2)).
  assert (∀ o, (pn_index p, o) ∈ others → o = None) as Hfree.
  { intros o. unfold others. rewrite elem_of_app, elem_of_rebuild_slots.
    intros [?|(q & [= Hq ->] & Hin)%list_elem_of_fmap]; [congruence|]. exfalso.
    rewrite map_app in Hd. simpl in Hd. rewrite <- Permutation_middle, NoDup_cons in Hd.
    destruct Hd as [Hnot _]. apply Hnot. rewrite <- map_app, Hq. by apply list_elem_of_fmap_2. }
  pose proof (Hm (pn_index p) others (ct_kind (pr_controls (pn_processor p)))
    ltac:(intros wb Hwb; eapply guard_at_kind; [exact Hkp|by rewrite Hwb]) Hfree
    (sv_world s, pn_processor p)) as Ht.
  assert (proc_good at_ (pn_index p) others (ct_kind (pr_controls (pn_processor p))) may_hold
    (sv_world s, pn_processor p)) as Hgood.
  { split; [|exact Hset]. split; [|done|exact Hhold]. cbn.
    eapply owned_perm; [|exact Ho]. unfold slots. rewrite His. by apply pending_slots_replace. }
  specialize (Ht Hgood). destruct (m (sv_world s, pn_processor p)) as [r [w p']].
  set (q := {| pn_index := pn_index p; pn_processor := p' |}).
  assert (proc_ok at_ (pn_index p) others (ct_kind (pr_controls (pn_processor p))) may_hold (w, p') →
    sup_ok (<[length l1 := q]> (l1 ++ p :: l2)) []
      (sv_set_pending (<[length l1 := q]> (l1 ++ p :: l2)) (sv_set_world w s))) as Hback.
  { intros [Ho' Hk' _]. rewrite insert_app_r_alt, Nat.sub_diag by done. simpl.
    split; [done|done|done| | |].
    - cbn. eapply owned_perm; [|exact Ho']. unfold slots. cbn. symmetry.
      by apply (pending_slots_replace l1 q).
    - rewrite Forall_app, Forall_cons. cbn in *. by rewrite Hk'.
    - rewrite map_app in *. exact Hd. }
  destruct r as [a|e].
  - exists q. destruct Ht as [Hok Hset']. split_and!; [done|exact Hset'| |by apply Hback].
    intros Hf. by apply (proc_none _ _ _ _ _ _ Hok).
  - destruct Ht as [He Hok]. split; [done|]. eexists. by apply Hback.
Qed.

Lemma with_pending_booting n m idx :
  pending_safe true m →
  triple (booting idx) (with_pending n m) (λ _, booting idx) (unblocked torn).
Proof.
  intros Hm s (pending & Hs & Hidx & Hset).
  destruct (pending !! n) as [p|] eqn:Hn.
  2: { unfold with_pending. rewrite (sup_is _ _ _ Hs), Hn. by exists pending. }
  pose proof (with_pending_ok n m true pending p Hm Hn) as Hw.
  specialize (Hw (proj1 (Forall_lookup _ _) Hset _ _ Hn) ltac:(done) s Hs).
  destruct (with_pending n m s) as [[a|e] s']; [|done].
  destruct Hw as (p' & Hix & Hset' & _ & Hs'). eexists. split; [exact Hs'|]. split.
  - change (pn_index <$> <[n := p']> pending = idx). rewrite list_fmap_insert, Hix.
    change (<[n := pn_index p]> (map pn_index pending) = idx). rewrite Hidx.
    apply list_insert_id. rewrite <- Hidx. change (map pn_index pending) with (pn_index <$> pending).
    by rewrite list_lookup_fmap, Hn.
  - by apply Forall_insert.
Qed.

Lemma all_pending_booting m idx :
  pending_safe true m →
  triple (booting idx) (all_pending m) (λ _, booting idx) (unblocked torn).
Proof.
  intros Hm. unfold all_pending. eapply triple_bind; [apply triple_gets|]. intros ps.
  eapply triple_conseq with (P := booting idx) (Q := λ _, booting idx); [|by intros s []|done].
  generalize 0%nat. induction (length ps) as [|count IH]; intros i; cbn [each_pending];
    [by apply triple_ret|].
  eapply triple_bind; [by apply with_pending_booting|intros []; apply IH].
Qed.

Lemma quiet_pending may_hold m : quiet m → pending_safe may_hold m.
Proof. intros Hm i others k _ _. by apply quiet_goods. Qed.

Lemma observe_pending now e may_hold : pending_safe may_hold (processor_observe now e).
Proof. intros i others k Hk Ho. by apply observe_good; [apply guard_at_inj|..]. Qed.

Lemma align_pending b may_hold : pending_safe may_hold (align_redis_replay_boundary b).
Proof. intros i others k _ _. apply align_good. Qed.

Lemma mark_started_ok now b idx :
  triple (booting idx) (mark_pending_processors_started now b) (λ _, booting idx)
    (unblocked torn).
Proof.
  apply all_pending_booting, quiet_pending. intros s0.
  apply safe_bind; [by apply quiet_modify|intros []]. apply quiet_set_health.
Qed.

(** A caught failure leaves the processors as they are. *)
Lemma catch_ok {A} (m : supM A) idx (Q : A → Supervisor → Prop) :
  triple (booting idx) m Q (unblocked torn) →
  triple (booting idx) (catch m) (λ r s, match r with Ok a => Q a s | Err _ => torn s end) never.
Proof.
  intros Hm s Hs. specialize (Hm s Hs). unfold catch.
  destruct (m s) as [[a|[e|]] s']; [done|by destruct Hm|by destruct Hm].
Qed.

Lemma apply_snapshot_payloads_ok now payloads idx :
  triple (booting idx) (apply_snapshot_payloads now payloads)
    (λ r s, match r with None => booting idx s | Some _ => torn s end) never.
Proof.
  induction payloads as [|[envelope|error] payloads IH]; cbn [apply_snapshot_payloads].
  - by apply triple_ret.
  - eapply triple_bind.
    { apply catch_ok. apply all_pending_booting, observe_pending. }
    intros [[]|e]; [apply IH|by apply triple_ret].
  - apply triple_ret. intros s. apply booting_torn.
Qed.

(** The backends up to [n] have completed their bootstrap. *)
Definition booted_upto (n : nat) (idx : list nat) (s : Supervisor) : Prop :=
  ∃ pending, sup_ok pending [] s ∧ map pn_index pending = idx ∧
    Forall pending_settled pending ∧
    ∀ j p, (j < n)%nat → pending !! j = Some p → pr_rebuild (pn_processor p) = None.

Lemma validate_pending_ok session idx : ∀ count i,
  triple (booted_upto i idx) (validate_pending session i count)
    (λ r s, match r with None => booted_upto (i + count) idx s | Some _ => torn s end) never.
Proof.
  induction count as [|count IH]; intros i; cbn [validate_pending].
  { apply triple_ret. by rewrite Nat.add_0_r. }
  eapply triple_bind; [apply triple_gets|]. intros ps. apply triple_pure.
  intros s0 [-> (pending & Hs & Hidx & Hset & Hn)]. rewrite (sup_is _ _ _ Hs).
  destruct (pending !! i) as [p|] eqn:Hi.
  2: { apply triple_ret. intros s ->. exists pending. split_and!; try done.
       intros j q _ Hj. destruct (decide (j < i)%nat); [by eapply Hn|].
       apply lookup_ge_None in Hi. apply lookup_lt_Some in Hj. lia. }
  destruct (bootstrap_complete (pn_processor p)) eqn:Ep; cbn.
  2: { apply triple_ret. intros s ->. by exists pending. }
  pose proof (proj1 (Forall_lookup _ _) Hset _ _ Hi) as Hsp.
  pose proof (with_pending_ok i _ false pending p (align_pending (sr_redis_replay_boundary session) false)
    Hi Hsp (λ _, Hsp Ep)) as Hw.
  eapply triple_bind with (Q := λ r s,
    match r with Ok _ => booted_upto (S i) idx s | Err _ => torn s end).
  - intros s ->. specialize (Hw s0 Hs). unfold catch.
    destruct (with_pending i _ s0) as [[a|[e|]] s']; [|by destruct Hw..].
    destruct Hw as (p' & Hix & Hset' & Hhold & Hs'). eexists. split; [exact Hs'|].
    split_and!; [|by apply Forall_insert|].
    + change (pn_index <$> <[i := p']> pending = idx). rewrite list_fmap_insert, Hix.
      change (<[i := pn_index p]> (map pn_index pending) = idx). rewrite Hidx.
      apply list_insert_id. rewrite <- Hidx.
      change (map pn_index pending) with (pn_index <$> pending). by rewrite list_lookup_fmap, Hi.
    + intros j q Hj. rewrite list_lookup_insert_Some. intros [(<- & <- & _)|[? Hq]];
        [by apply Hhold|]. eapply Hn; [|exact Hq]. lia.
  - intros [[]|e]; [|by apply triple_ret].
    replace (i + S count)%nat with (S i + count)%nat by lia. apply IH.
Qed.

Lemma merge_ok : ∀ ps,
  Forall (λ p, kinds !! pn_index p = Some (ct_kind (pr_controls (pn_processor p)))) ps →
  triple (sup_ok [] (map pending_slot ps)) (merge_pending ps) (λ _, sup_ok [] []) never.
Proof.
  induction 1 as [|p ps Hp _ IH]; cbn [merge_pending]; [by apply triple_ret|].
  apply triple_bind with (Q := λ _, sup_ok [] (pending_slot p :: map pending_slot ps)).
  { apply triple_modify. intros s [Hk Hl His Ho Hpd Hd]. split; try done. by apply kinds_set. }
  intros []. apply triple_bind with (Q := λ _, sup_ok [] (map pending_slot ps)); [|intros []; apply IH].
  apply assign_rebuild_ok; [by eapply lookup_lt_Some|by intros ?%elem_of_nil].
Qed.

Lemma merge_pending_ok : triple torn merge_pending_processor_rebuilds (λ _, sup_ok [] []) never.
Proof.
  intros s [pending Hs]. unfold merge_pending_processor_rebuilds.
  rewrite gets_bind, modify_bind, (sup_is _ _ _ Hs). apply merge_ok.
  - eapply Forall_impl; [exact (sup_pending _ _ _ Hs)|]. by intros p [].
  - destruct Hs as [Hk Hl His Ho Hp Hd]. split; [done|done|done| |done|apply NoDup_nil_2].
    eapply owned_perm; [|exact Ho]. unfold slots. cbn. rewrite app_nil_r, His.
    apply Permutation_app_comm.
Qed.

Lemma bootstrap_error_ok {A} message event detail :
  triple torn (pending_processor_bootstrap_error (A := A) message event detail)
    (λ r s, is_ok r = false ∧ sup_ok [] [] s) never.
Proof.
  unfold pending_processor_bootstrap_error.
  eapply triple_bind; [apply merge_pending_ok|]. intros []. by apply triple_ret.
Qed.

Lemma no_err_never {S A} (P : S → Prop) (m : stateR S Stop A) Q X :
  no_err m → triple P m Q X → triple P m Q never.
Proof.
  intros Hm Ht s Hs. specialize (Ht s Hs). destruct (Hm s) as (a & s' & E). by rewrite E in *.
Qed.

Lemma mark_started_no_err now b : no_err (mark_pending_processors_started now b).
Proof.
  unfold mark_pending_processors_started, all_pending.
  apply no_err_bind; [intros s; by eexists _, _|intros ps].
  generalize 0%nat. induction (length ps) as [|count IH]; intros i; cbn [each_pending];
    [apply no_err_ret|]. apply no_err_bind; [|intros []; apply IH].
  intros s. unfold with_pending. destruct (sv_pending s !! i); by eexists _, _.
Qed.

Lemma bootstrap_ok now session payloads idx :
  triple (booting idx) (bootstrap_pending_processors now session payloads)
    (λ r s, match r with Ok _ => booted_upto (length idx) idx s | Err _ => sup_ok [] [] s end)
    never.
Proof.
  assert (∀ message event detail, triple torn
    (pending_processor_bootstrap_error (A := BroadcasterRedisReplayBoundary) message event detail)
    (λ r s, match r with Ok _ => booted_upto (length idx) idx s | Err _ => sup_ok [] [] s end)
    never) as Herr.
  { intros message event detail. eapply triple_conseq; [apply bootstrap_error_ok|done|].
    intros [b|e] s [Hr Hs]; [done|exact Hs]. }
  unfold bootstrap_pending_processors. destruct session as [session|error].
  2: { eapply triple_conseq; [apply Herr|intros s; apply booting_torn|intros a s Hs; exact Hs]. }
  eapply triple_bind; [eapply no_err_never; [apply mark_started_no_err|apply mark_started_ok]|].
  intros []. eapply triple_bind; [apply apply_snapshot_payloads_ok|].
  intros [[message detail]|]; [apply Herr|].
  apply triple_bind with (Q := λ r s,
    match r with None => booted_upto (length idx) idx s | Some _ => torn s end).
  - unfold validate_pending_processors_bootstrapped.
    eapply triple_bind; [apply triple_gets|]. intros ps. apply triple_pure.
    intros s0 [-> (pending & Hs & Hidx & Hset)].
    rewrite (sup_is _ _ _ Hs), <- (length_map pn_index pending), Hidx.
    eapply triple_conseq; [apply (validate_pending_ok session idx _ 0)| |intros r s Hr; exact Hr].
    intros s ->. exists pending. split_and!; try done. intros j p Hj. lia.
  - intros [e|]; [apply Herr|by apply triple_ret].
Qed.

(** All backends have completed their bootstrap: the replay loop can start. *)
Lemma booted_loop_ok s pending chain b :
  sup_ok pending [] s → map pn_index pending = seq 0 (length kinds) →
  (∀ j p, (j < length (seq 0 (length kinds)))%nat → pending !! j = Some p →
     pr_rebuild (pn_processor p) = None) →
  loop_ok kinds None None
    {| pd_world := sv_world s;
       pd_processors :=
         map (λ p, {| pp_index := pn_index p; pp_processor := pn_processor p;
                      pp_replay_boundary := b |}) (sv_pending s);
       pd_replay_boundary := b; pd_expected_chain_id := chain;
       pd_recovery := None; pd_redis_maxlen := None |}.
Proof.
  intros [Hk Hl His Ho Hp Hd] Hidx Hnone.
  assert (length pending = length kinds) as Hlen
    by (by rewrite <- (length_map pn_index pending), Hidx, length_seq).
  rewrite length_seq in Hnone.
  assert (∀ j p, pending !! j = Some p → pn_index p = j) as Hix.
  { intros j p Hj. pose proof (list_lookup_fmap pn_index pending j) as E.
    change (pn_index <$> pending) with (map pn_index pending) in E. rewrite Hidx, Hj in E.
    simpl in E. apply lookup_seq in E as [-> _]. done. }
  split; [done| |].
  - apply holding_none. cbn. rewrite <- (app_nil_r (slots s)) in Ho. simpl in Ho.
    eapply owned_forget; [|exact Ho]. unfold slots. rewrite His. apply Forall_app. split.
    + apply Forall_forall. intros [i o] Hi%elem_of_rebuild_slots. simpl.
      assert (i < length pending)%nat as Hi'
        by (rewrite Hlen, <- Hl; by eapply lookup_lt_Some).
      apply lookup_lt_is_Some in Hi' as [p Hpi]. rewrite Forall_lookup in Hp.
      destruct (Hp i p Hpi) as [_ Hr]. rewrite (Hix i p Hpi) in Hr. congruence.
    + apply Forall_map, Forall_lookup. intros j p Hj. simpl. eapply Hnone; [|exact Hj].
      rewrite <- Hlen. by eapply lookup_lt_Some.
  - cbn. rewrite His. split; [by rewrite length_map|].
    intros i pp (p & -> & Hi)%list_lookup_fmap_Some. cbn. rewrite Forall_lookup in Hp.
    destruct (Hp i p Hi) as [Hkp _]. pose proof (Hix i p Hi) as Hi'. rewrite Hi' in *.
    split_and!; [done..|]. eapply Hnone; [|exact Hi]. rewrite <- Hlen. by eapply lookup_lt_Some.
Qed.

Lemma prepare_ok now chain decoder_of session payloads :
  triple (sup_ok [] [])
    (prepare_broadcaster_redis_subscription now chain decoder_of session payloads)
    (λ r s, match r with
       | Ok prepared => loop_inv kinds prepared ∧ map ct_kind (sv_controls s) = kinds
       | Err _ => sup_ok [] [] s
       end) never.
Proof.
  unfold prepare_broadcaster_redis_subscription.
  eapply triple_bind; [apply triple_gets|]. intros cs. apply triple_pure. intros s0 [-> Hs0].
  assert (length (sv_controls s0) = length kinds) as Hlen
    by (by rewrite <- (sup_kinds _ _ _ Hs0), length_map).
  eapply triple_bind.
  { eapply triple_conseq;
      [apply (prepare_processors_ok now chain decoder_of (sv_controls s0) 0 [] None)
      |intros s ->; exact Hs0|intros e s He; exact He].
    - intros j c Hj. by eapply controls_kind.
    - by split_and!. }
  intros error. apply triple_pure. intros s1 (pending & Hs1 & Hlt & Hall & Hset).
  rewrite Hlen in *. cbn [Nat.add] in *.
  unfold finish_prepared_broadcaster_redis_subscription. destruct error as [message|].
  { eapply triple_conseq; [apply bootstrap_error_ok|intros s ->; by exists pending|].
    intros [r|e] s [Hr Hs]; [done|exact Hs]. }
  specialize (Hall (bool_decide_eq_true_2 _ eq_refl)).
  eapply triple_bind; [apply triple_gets|]. intros ps. apply triple_pure. intros s [-> ->].
  rewrite (sup_is _ _ _ Hs1). case_bool_decide as Hempty.
  { apply nil_length_inv in Hempty as ->. by apply triple_ret; intros s ->. }
  set (idx := seq 0 (length kinds)).
  eapply triple_bind.
  { eapply triple_conseq; [apply (bootstrap_ok now session payloads idx)| |intros r s Hr; exact Hr].
    intros s ->. exists pending. by split_and!. }
  intros [b|e]; [|by apply triple_ret].
  eapply triple_bind; [apply triple_gets|]. intros ps.
  eapply triple_bind; [apply triple_gets|]. intros w.
  apply triple_pure. intros s2 (-> & -> & booted & Hs2 & Hidx & _ & Hnone).
  intros s ->. rewrite modify_bind. cbn. split; [|exact (sup_kinds _ _ _ Hs2)].
  apply (loop_ok_inv _ None). by apply (booted_loop_ok _ booted).
Qed.

(** ** Phases *)

Definition phase_ok (phase : Phase) : Prop :=
  match phase with
  | Connecting s _ => sup_ok [] [] s
  | Replaying s l _ => loop_inv kinds (rl_prepared l) ∧ map ct_kind (sv_controls s) = kinds
  | Returned s => ∀ g, guard_held g (sv_world s) = false
  | Deadlocked => False
  end.

Lemma owned_nil w : owned at_ w [] ↔ ∀ g, guard_held g w = false.
Proof.
  split.
  - intros [_ Ho] g. specialize (Ho g). by destruct (guard_held g w).
  - intros Hw. split; [by intros i g ?%elem_of_nil|]. intros g. by rewrite Hw.
Qed.

Lemma empty_rebuilds_none n : Forall (λ x : slot, x.2 = None) (rebuild_slots (empty_rebuilds n)).
Proof.
  apply Forall_forall. intros [i o] Hi%elem_of_rebuild_slots. simpl.
  by apply lookup_replicate in Hi as [-> _].
Qed.

Lemma replay_rebuilds ps :
  procs_ok kinds ps → redis_processor_rebuilds ps = empty_rebuilds (length kinds).
Proof.
  intros [Hl Hat]. unfold redis_processor_rebuilds. rewrite Hl.
  apply (foldl_inv (λ rebuilds, rebuilds = empty_rebuilds (length kinds))); [done|].
  intros rebuilds pp Hpp ->. apply list_elem_of_lookup in Hpp as [i Hi].
  destruct (Hat i pp Hi) as (_ & _ & ->). unfold empty_rebuilds. by apply insert_replicate.
Qed.

Lemma supervisor_after_ok prepared s :
  loop_inv kinds prepared → map ct_kind (sv_controls s) = kinds →
  sup_ok [] [] (supervisor_after prepared s).
Proof.
  intros [_ Hh Hp] Hk.
  split; [|cbn; rewrite replay_rebuilds by done; apply length_replicate|done| |done|apply NoDup_nil_2].
  - cbn. apply (foldl_inv (λ cs, map ct_kind cs = kinds)); [done|].
    intros cs pp Hpp Hcs. apply list_elem_of_lookup in Hpp as [i Hi].
    destruct (procs_at _ _ Hp i pp Hi) as (-> & Hki & _). by apply kinds_set.
  - unfold slots. cbn. rewrite replay_rebuilds by done. rewrite app_nil_r.
    rewrite <- (app_nil_r (rebuild_slots _)). apply owned_forget; [apply empty_rebuilds_none|].
    apply holding_none. apply holding_release in Hh.
    unfold rebuild_of in Hh. by destruct (pd_recovery prepared).
Qed.

Lemma restart_ok now cfg backoff message is_gap s :
  sup_ok [] [] s → phase_ok (restart now cfg backoff message is_gap s).
Proof.
  intros Hs. unfold restart. pose proof (reset_after_error_ok now cfg backoff message is_gap s Hs).
  by destruct (reset_redis_subscription_after_error now cfg backoff message is_gap s) as [[b|e] s'].
Qed.

Lemma start_round_ok chain maxlen cfg round backoff s :
  sup_ok [] [] s → phase_ok (start_round chain maxlen cfg round backoff s).
Proof.
  intros Hs. unfold start_round. destruct (ro_connect round); [by apply restart_ok|].
  pose proof (prepare_ok (ro_now round) chain (ro_decoder_of round) (ro_session round)
    (ro_payloads round) s Hs) as Hp.
  destruct (prepare_broadcaster_redis_subscription _ _ _ _ _ s) as [[[prepared|e]|e] s'];
    [|by apply restart_ok|done].
  destruct Hp as [[Hrec Hh Hpr] Hk]. split; [|done]. by split.
Qed.

Lemma drop_nothing n s :
  sv_rebuilds s = empty_rebuilds n → sv_world (drop_rebuilds s) = sv_world s.
Proof.
  intros Hr. cbn. rewrite Hr. apply (foldl_inv (λ w, w = sv_world s)); [done|].
  by intros w r [-> _]%elem_of_replicate ->.
Qed.

Lemma loop_exit_ok now cfg exit l backoff s :
  loop_inv kinds (rl_prepared l) → map ct_kind (sv_controls s) = kinds →
  phase_ok (loop_exit now cfg exit l backoff s).
Proof.
  intros Hl Hk. pose proof (supervisor_after_ok _ _ Hl Hk) as Hs. unfold loop_exit.
  case_match; [|by apply restart_ok].
  set (s' := supervisor_after (rl_prepared l) s) in *.
  assert (sv_rebuilds s' = empty_rebuilds (length kinds)) as Hr
    by apply replay_rebuilds, (loop_procs _ _ _ _ Hl).
  unfold phase_ok.
  rewrite (drop_nothing (length kinds) (mark_redis_transport_failed_all (ex_message exit) s').2 Hr).
  change (∀ g, guard_held g (sv_world s') = false). apply owned_nil.
  destruct Hs as [_ _ His Ho _ _]. unfold slots in Ho. rewrite Hr, His in Ho.
  simpl in Ho. by apply owned_forget in Ho; [|apply empty_rebuilds_none].
Qed.

Lemma supervisor_step_ok chain maxlen cfg phase event :
  phase_ok phase → phase_ok (supervisor_step chain maxlen cfg phase event).
Proof.
  intros Hp. destruct phase as [s b|s l b|s|], event as [round|now now_ms poll]; try done; cbn.
  - by apply start_round_ok.
  - destruct Hp as [Hl Hk]. pose proof (replay_turn_ok kinds kinds_ok now now_ms cfg poll l Hl) as Ht.
    destruct (replay_turn now now_ms cfg poll l); [done|by apply loop_exit_ok|done].
Qed.

Lemma supervise_ok chain maxlen cfg controls world events :
  map ct_kind controls = kinds → (∀ g, guard_held g world = false) →
  phase_ok (supervise_broadcaster_redis_subscription chain maxlen cfg controls world events).
Proof.
  intros Hk Hw. unfold supervise_broadcaster_redis_subscription.
  assert (length controls = length kinds) as Hl by (by rewrite <- Hk, length_map).
  destruct controls as [|c cs]; [done|]. set (controls := c :: cs) in *.
  apply foldl_inv; [|intros phase event _; apply supervisor_step_ok].
  split; [done|cbn; unfold empty_rebuilds; by rewrite length_replicate|done| |done|apply NoDup_nil_2].
  change (owned at_ world (rebuild_slots (empty_rebuilds (length controls)) ++ [])).
  apply owned_forget; [apply empty_rebuilds_none|by apply owned_nil].
Qed.

(** Who holds a lock in a phase. *)
Lemma phase_ok_guards phase :
  phase_ok phase →
  match phase with
  | Connecting s _ => ∀ g, guard_held g (sv_world s) = true ↔
      ∃ i, sv_rebuilds s !! i = Some (Some g)
  | Replaying _ l _ => ∀ g, guard_held g (pd_world (rl_prepared l)) = true ↔
      pd_recovery (rl_prepared l) ≫= ra_vm_rebuild = Some g
  | Returned s => ∀ g, guard_held g (sv_world s) = false
  | Deadlocked => False
  end.
Proof.
  destruct phase as [s b|s l b|s|]; try done.
  - intros [_ _ His Ho _ _] g. unfold slots in Ho. rewrite His in Ho. cbn in Ho.
    rewrite app_nil_r in Ho. destruct Ho as [_ Ho]. specialize (Ho g).
    split.
    + intros Hg. rewrite Hg in Ho.
      destruct (holders g (rebuild_slots (sv_rebuilds s))) as [|[i o] hs] eqn:E; [done|].
      assert ((i, o) ∈ holders g (rebuild_slots (sv_rebuilds s))) as Hi by (rewrite E; left).
      apply list_elem_of_filter in Hi as [Hi1 Hi2%elem_of_rebuild_slots]. simpl in Hi1. subst o.
      by exists i.
    + intros [i Hi%elem_of_rebuild_slots]. destruct (guard_held g (sv_world s)); [done|].
      apply nil_length_inv in Ho.
      assert ((i, Some g) ∈ holders g (rebuild_slots (sv_rebuilds s))) as Hin
        by (by apply list_elem_of_filter). rewrite Ho in Hin. by apply elem_of_nil in Hin.
  - intros [[_ [j [_ Ho]] _] _] g. specialize (Ho g). unfold holders in Ho.
    rewrite filter_cons in Ho. simpl in Ho. unfold rebuild_of in Ho.
    destruct (decide (_ = Some g)) as [E|E].
    + rewrite E. by destruct (guard_held g _).
    + destruct (guard_held g _); naive_solver.
Qed.
End kinds.
End supervision.

(** ** Properties *)

Section properties.
Context `{RawMessages} `{!TychoEngine} `{!TychoTokens} `{!SnapshotJson} `{!SerdeJson}.
Context `{Keccak} `{HashOrder}.

(** C8: Whatever connections, decoders, snapshots and polls a subscription supervisor
    meets, it never waits for a lock it holds itself, and a lock that keeps simulations
    away is held exactly by a rebuild under way: while entries are replayed, that of the
    recovery being assembled; between two replay loops, that of a backend still to be
    bootstrapped; and by nobody once the supervisor has returned. *)
Theorem guards_follow_rebuilds chain maxlen cfg (controls : list BroadcasterSubscriptionControls)
    world events :
  backends_ok (map ct_kind controls) → (∀ g, guard_held g world = false) →
  match supervise_broadcaster_redis_subscription chain maxlen cfg controls world events with
  | Connecting s _ => ∀ g, guard_held g (sv_world s) = true ↔
      ∃ i, sv_rebuilds s !! i = Some (Some g)
  | Replaying _ l _ => ∀ g, guard_held g (pd_world (rl_prepared l)) = true ↔
      pd_recovery (rl_prepared l) ≫= ra_vm_rebuild = Some g
  | Returned s => ∀ g, guard_held g (sv_world s) = false
  | Deadlocked => False
  end.
Proof.
  intros Hkinds Hw. apply (phase_ok_guards (map ct_kind controls)).
  by apply supervise_ok.
Qed.
End properties.

(** ** Witnesses *)

#[local] Existing Instances demo_tycho demo_serde demo_keccak demo_tokens demo_order.
#[local] Existing Instances demo_raw demo_engine demo_snapshot_json.

(** A refused connection, a bootstrap, and the first entry of a recovery. *)
Definition demo_supervised (entries : nat) : Phase :=
  supervise_broadcaster_redis_subscription 1 (Some 1000%N) demo_cfg [demo_vm] demo_world
    [RoundStarts demo_refused; RoundStarts demo_round;
     Polled 2 2000 (demo_batch (take entries demo_vm_entries))].

Lemma demo_backends_ok : backends_ok (map ct_kind [demo_vm]).
Proof.
  split.
  - intros [|i] [|j] k k' g Hi Hj; done.
  - intros [|i] k wb; [by intros [= <-]|done].
Qed.

Lemma guards_follow_rebuilds_witness :
  match demo_supervised 1 with
  | Replaying _ l _ => guard_held VmGuard (pd_world (rl_prepared l)) = true
  | _ => False
  end.
Proof.
  pose proof (guards_follow_rebuilds 1 (Some 1000%N) demo_cfg [demo_vm] demo_world
    [RoundStarts demo_refused; RoundStarts demo_round;
     Polled 2 2000 (demo_batch (take 1 demo_vm_entries))] demo_backends_ok ltac:(by intros [])) as Hg.
  fold (demo_supervised 1) in Hg.
  assert (match demo_supervised 1 with
          | Replaying _ l _ =>
              bool_decide (pd_recovery (rl_prepared l) ≫= ra_vm_rebuild = Some VmGuard)
          | _ => false
          end = true) as Hr by by vm_compute.
  destruct (demo_supervised 1) as [s b|s l b|s|]; [discriminate Hr| |discriminate Hr..].
  apply Hg. exact (bool_decide_unpack _ (proj2 (Is_true_true _) Hr)).
Defined.
