(* ===== verification/RecoveryFeed.v ===== *)
(** * From the publisher to a consumer

    The entries of a recovery, as [publish_recovery] builds them, read by a consumer: each
    one is accepted, and the commit finds the replacement snapshot and the buffered blocks
    the publisher was given. *)

From S2P Require Import Prelude Ordered Text Protocol.
From S2P Require Import Wire Validate TychoFeed Tracker Codec.
From S2P Require Import RedisEntry Replay Recovery Store Health Readiness Reassembly.
From S2P Require Import Processor Consumer Supervisor Guards Deadlock ConsumerDemo.

(** ** The list of a map numbered from zero *)

Definition numbered {V} (l : list V) : list (N * V) := imap (λ i v, (N.of_nat i, v)) l.
Definition indexed {V} (l : list V) : btree N V := list_to_map (numbered l).

Lemma numbered_snoc {V} (l : list V) x : numbered (l ++ [x]) = numbered l ++ [(len l, x)].
Proof. unfold numbered, len. rewrite imap_app. simpl. by rewrite Nat.add_0_r. Qed.

Lemma numbered_keys {V} (l : list V) : (numbered l).*1 = map N.of_nat (seq 0 (length l)).
Proof.
  induction l as [|x l IH] using rev_ind; [done|].
  by rewrite numbered_snoc, fmap_app, IH, length_app, seq_app, map_app.
Qed.

Lemma numbered_NoDup {V} (l : list V) : NoDup (numbered l).*1.
Proof.
  rewrite numbered_keys. apply NoDup_fmap_2; [intros i j; lia|apply NoDup_seq].
Qed.

Lemma indexed_snoc {V} (l : list V) x : <[len l := x]> (indexed l) = indexed (l ++ [x]).
Proof.
  unfold indexed. rewrite numbered_snoc, list_to_map_snoc; [done|].
  rewrite numbered_keys. unfold len. intros (i & Hi & Hin)%list_elem_of_fmap.
  apply elem_of_seq in Hin. lia.
Qed.

Lemma indexed_size {V} (l : list V) : N.of_nat (size (indexed l)) = len l.
Proof.
  unfold indexed, len. f_equal. rewrite map_size_list_to_map by apply numbered_NoDup.
  unfold numbered. by rewrite length_imap.
Qed.

Lemma indexed_values {V} (l : list V) : bt_values (indexed l) = l.
Proof.
  unfold bt_values. replace (bt_iter (indexed l)) with (numbered l).
  - induction l as [|x l IH] using rev_ind; [done|]. by rewrite numbered_snoc, fmap_app, IH.
  - apply (sorted_NoDup_unique fst); [|apply bt_iter_sorted|apply numbered_NoDup|].
    + induction l as [|x l IH] using rev_ind; [constructor|]. rewrite numbered_snoc.
      apply StronglySorted_app_2; [|done|by repeat constructor].
      intros [i v] [j w] Hi [= -> ->]%list_elem_of_singleton.
      assert (i ∈ (numbered l).*1) as Hk by (apply list_elem_of_fmap; by exists (i, v)).
      rewrite numbered_keys in Hk. apply list_elem_of_fmap in Hk as (n & -> & Hn%elem_of_seq).
      unfold key_le, len. simpl. apply N.leb_le. lia.
    + unfold bt_iter. rewrite sort_by_key_perm. unfold indexed.
      symmetry. apply map_to_list_to_map, numbered_NoDup.
Qed.

Lemma concat_fragments {A} (f : A → string) l :
  String.concat "" (map f l) = foldr (λ x rest, f x +:+ rest) "" l.
Proof.
  assert (∀ s, s +:+ "" = s) as Hnil.
  { induction s as [|c s IH]; [done|]. by rewrite str_app_cons, IH. }
  induction l as [|x [|y l] IH]; [done|simpl; by rewrite Hnil|].
  cbn [map String.concat foldr] in *. by rewrite IH.
Qed.

(** One choice for each element of a list. *)
Lemma list_choice {A B} (P : nat → A → B → Prop) l :
  (∀ k x, l !! k = Some x → ∃ y, P k x y) →
  ∃ l', length l' = length l ∧ ∀ k x y, l !! k = Some x → l' !! k = Some y → P k x y.
Proof.
  revert P. induction l as [|x l IH]; intros P Hl.
  { by exists []. }
  destruct (Hl 0%nat x eq_refl) as [y Hy].
  destruct (IH (λ k, P (S k))) as (l' & Hlen & Hl'); [intros k z; exact (Hl (S k) z)|].
  exists (y :: l'). split; [by simpl; f_equal|].
  intros [|k] z w; simpl; [by intros [= <-] [= <-]|apply Hl'].
Qed.

Section feed.
Context `{RawMessages} `{!TychoEngine} `{!TychoTokens} `{!SnapshotJson} `{!SerdeJson}.
Context `{!SerdeJsonLaws} `{Keccak} `{HashOrder}.

Abbreviation consumerM := (stateR Prepared Stop).

(** ** Decoded entries *)

(** The message a replay client makes of an entry. *)
Definition delivered (e : BroadcasterRedisStreamEntry) (m : ReplayMessage) : Prop :=
  rmsg_entry m = e ∧ envelope_of_json (payload_json e) = Ok (rmsg_envelope m).

Lemma delivered_payload config stream version seq payload e m :
  built config stream version seq payload e → delivered e m →
  encodable payload → canonical payload →
  message_seq (rmsg_entry m) = seq ∧
  env_payload (rmsg_envelope m) = map_payload wire_sim payload ∧
  ∃ bs, redis_payload_backend_scope (map_payload wire_sim payload) = Ok (Some bs).
Proof.
  intros Hb [-> Hm] Henc Hcan. split; [by destruct (built_fields _ _ _ _ _ _ Hb)|].
  destruct Hb as (t & (Hk & bs & scope & json & Hs & _ & Hj & _ & -> & _)%from_envelope_at_inv).
  cbn [payload_json entry_of] in Hm.
  set (env := {| env_stream_id := stream; env_message_seq := seq; env_payload := payload |}) in *.
  rewrite (envelope_of_json_encoded env json Henc (canonical_map_payload _ _ Hk Hcan) Hj) in Hm.
  injection Hm as <-. split; [done|].
  exists bs. by destruct (metadata_map_payload wire_sim payload) as (_ & _ & -> & _).
Qed.

(** ** Single messages *)

Definition the_store (pp : PreparedRedisProcessor) : StateStore :=
  ct_state_store (pr_controls (pp_processor pp)).

(** What a consumer keeps while it takes in a recovery. *)
Record feeding (a : RecoveryAssembly) (stores : list StateStore) (key : string)
    (maxlen : option u64) (s : Prepared) : Prop := {
  feeding_recovery : pd_recovery s = Some a;
  feeding_stores : map the_store (pd_processors s) = stores;
  feeding_key : bd_stream_key (pd_replay_boundary s) = key;
  feeding_maxlen : pd_redis_maxlen s = maxlen;
}.

Lemma feeding_next a a' stores key maxlen s :
  feeding a stores key maxlen s → feeding a' stores key maxlen (set_recovery (Some a') s).
Proof. intros []. by split. Qed.

Lemma feeding_marks a stores key maxlen mark s :
  feeding a stores key maxlen s → feeding a stores key maxlen (mark_all mark s).2.
Proof. intros [? Hs ? ?]. split; try done. cbn. rewrite map_map. exact Hs. Qed.

Lemma apply_recovery_message_run now now_ms m a stores key maxlen s s1 :
  is_recovery_payload (env_payload (rmsg_envelope m)) = true →
  apply_recovery_message now now_ms (rmsg_entry m) (rmsg_envelope m) s = (Ok tt, s1) →
  feeding a stores key maxlen s1 →
  ∃ s2, feeding a stores key maxlen s2 ∧ ∀ rest checkpoint,
    apply_replay_batch now now_ms (m :: rest) checkpoint s =
    apply_replay_batch now now_ms rest (rmsg_checkpoint_after m) s2.
Proof.
  intros Hp Hrun Hs1. eexists. split; [by eapply feeding_marks|]. intros rest checkpoint.
  cbn [apply_replay_batch]. unfold apply_replay_message. rewrite gets_bind, Hp. cbn [orb].
  rewrite (bind_run _ _ _ _ _ Hrun). reflexivity.
Qed.

Lemma active_recovery_run a message s :
  pd_recovery s = Some a → active_recovery message s = (Ok a, s).
Proof. intros Hr. unfold active_recovery. by rewrite gets_bind, Hr. Qed.

Lemma identity_run manifest id version (s : Prepared) :
  id = rm_recovery_id manifest → version = rm_target_state_version manifest →
  (or_fail (validate_recovery_identity manifest id version) : consumerM unit) s = (Ok tt, s).
Proof.
  intros -> ->. unfold validate_recovery_identity. by rewrite String.eqb_refl, N.eqb_refl.
Qed.

Lemma apply_chunk_run entry chunk a stores key maxlen s chunks :
  feeding a stores key maxlen s → ra_chunks a = indexed chunks →
  validate_recovery_chunk chunk = Ok tt →
  rc_recovery_id chunk = rm_recovery_id (ra_manifest a) →
  rc_target_state_version chunk = rm_target_state_version (ra_manifest a) →
  rc_backends chunk = rm_backends (ra_manifest a) →
  rc_chunk_index chunk = len chunks → (len chunks < rm_chunk_count (ra_manifest a))%N →
  rm_chunk_encoded_bytes (ra_manifest a) !! length chunks = Some (rc_encoded_bytes chunk) →
  replay_entry_encoded_size key maxlen entry = Ok (rc_encoded_bytes chunk) →
  digest_bytes (rc_payload_fragment chunk) = rc_digest chunk →
  rm_chunk_digests (ra_manifest a) !! length chunks = Some (rc_digest chunk) →
  apply_recovery_chunk entry chunk s =
  (Ok tt, set_recovery (Some
     {| ra_manifest := ra_manifest a; ra_chunks := indexed (chunks ++ [chunk]);
        ra_buffer_a := ra_buffer_a a; ra_vm_rebuild := ra_vm_rebuild a;
        ra_started_at := ra_started_at a |}) s).
Proof.
  intros [Hr _ Hkey Hmax] Hc Hv Hid Hver Hb Hi Hlt Hn Hsize Hdig Hds.
  unfold apply_recovery_chunk. rewrite Hv.
  erewrite bind_run by reflexivity.
  erewrite bind_run by by apply active_recovery_run.
  erewrite bind_run by by apply identity_run.
  cbv zeta. rewrite bool_decide_eq_true_2 by done. cbn [negb].
  rewrite Hc, indexed_size, Hi, N.eqb_refl. cbn [negb].
  destruct (N.leb_spec (rm_chunk_count (ra_manifest a)) (len chunks)); [lia|].
  assert (N.to_nat (len chunks) = length chunks) as -> by (unfold len; lia).
  rewrite bool_decide_eq_true_2 by done. cbn [negb].
  rewrite !gets_bind, Hkey, Hmax, Hsize.
  erewrite bind_run by reflexivity. rewrite N.eqb_refl. cbn [negb].
  rewrite Hdig, String.eqb_refl, bool_decide_eq_true_2 by done. cbn [negb orb].
  by rewrite indexed_snoc.
Qed.

Lemma apply_catch_up_run c a stores key maxlen s blocks :
  feeding a stores key maxlen s → ra_buffer_a a = indexed blocks →
  validate_recovery_catch_up c = Ok tt →
  cu_recovery_id c = rm_recovery_id (ra_manifest a) →
  cu_target_state_version c = rm_target_state_version (ra_manifest a) →
  N.of_nat (size (ra_chunks a)) = rm_chunk_count (ra_manifest a) →
  cu_block_index c = len blocks → (len blocks < rm_buffer_a_count (ra_manifest a))%N →
  apply_recovery_catch_up c s =
  (Ok tt, set_recovery (Some
     {| ra_manifest := ra_manifest a; ra_chunks := ra_chunks a;
        ra_buffer_a := indexed (blocks ++ [c]); ra_vm_rebuild := ra_vm_rebuild a;
        ra_started_at := ra_started_at a |}) s).
Proof.
  intros [Hr _ _ _] Hb Hv Hid Hver Hc Hi Hlt.
  unfold apply_recovery_catch_up. rewrite Hv.
  erewrite bind_run by reflexivity.
  erewrite bind_run by by apply active_recovery_run.
  erewrite bind_run by by apply identity_run.
  cbv zeta. rewrite Hb, indexed_size, Hi.
  destruct (N.leb_spec (rm_buffer_a_count (ra_manifest a)) (len blocks)); [lia|].
  rewrite Hc, !N.eqb_refl. cbn [negb orb]. by rewrite indexed_snoc.
Qed.

(** ** Runs of messages *)

(** The checkpoint after the messages have been applied. *)
Definition checkpoint_past (ms : list ReplayMessage) (checkpoint : ReplayCheckpoint) :
    ReplayCheckpoint :=
  default checkpoint (rmsg_checkpoint_after <$> last ms).

Lemma checkpoint_past_cons m ms checkpoint :
  checkpoint_past (m :: ms) checkpoint = checkpoint_past ms (rmsg_checkpoint_after m).
Proof. unfold checkpoint_past. rewrite last_cons. by destruct (last ms). Qed.

Definition with_chunks (a : RecoveryAssembly) (chunks : list BroadcasterRecoveryChunk) :
    RecoveryAssembly :=
  {| ra_manifest := ra_manifest a; ra_chunks := indexed chunks; ra_buffer_a := ra_buffer_a a;
     ra_vm_rebuild := ra_vm_rebuild a; ra_started_at := ra_started_at a |}.
Definition with_blocks (a : RecoveryAssembly) (blocks : list BroadcasterRecoveryCatchUp) :
    RecoveryAssembly :=
  {| ra_manifest := ra_manifest a; ra_chunks := ra_chunks a; ra_buffer_a := indexed blocks;
     ra_vm_rebuild := ra_vm_rebuild a; ra_started_at := ra_started_at a |}.

Lemma with_chunks_same a chunks : ra_chunks a = indexed chunks → with_chunks a chunks = a.
Proof. intros Hc. unfold with_chunks. rewrite <- Hc. by destruct a. Qed.
Lemma with_blocks_same a blocks : ra_buffer_a a = indexed blocks → with_blocks a blocks = a.
Proof. intros Hb. unfold with_blocks. rewrite <- Hb. by destruct a. Qed.

Section runs.
Context (now : Instant) (now_ms : u64) (manifest : BroadcasterRecoveryManifest).
Context (stores : list StateStore) (key : string) (maxlen : option u64).

(** The chunk of place [k], as the manifest announces it. *)
Record chunk_sent (k : nat) (c : BroadcasterRecoveryChunk) (m : ReplayMessage) : Prop := {
  sent_chunk : env_payload (rmsg_envelope m) = RecoveryChunk c;
  sent_valid : validate_recovery_chunk c = Ok tt;
  sent_id : rc_recovery_id c = rm_recovery_id manifest;
  sent_version : rc_target_state_version c = rm_target_state_version manifest;
  sent_backends : rc_backends c = rm_backends manifest;
  sent_index : rc_chunk_index c = N.of_nat k;
  sent_count : (N.of_nat k < rm_chunk_count manifest)%N;
  sent_bytes : rm_chunk_encoded_bytes manifest !! k = Some (rc_encoded_bytes c);
  sent_size : replay_entry_encoded_size key maxlen (rmsg_entry m) = Ok (rc_encoded_bytes c);
  sent_digest : digest_bytes (rc_payload_fragment c) = rc_digest c;
  sent_announced : rm_chunk_digests manifest !! k = Some (rc_digest c);
}.

Lemma feed_chunks cs : ∀ ms a chunks s,
  feeding a stores key maxlen s → ra_manifest a = manifest → ra_chunks a = indexed chunks →
  length cs = length ms →
  (∀ j c m, cs !! j = Some c → ms !! j = Some m → chunk_sent (length chunks + j) c m) →
  ∃ s', feeding (with_chunks a (chunks ++ cs)) stores key maxlen s' ∧
    ∀ rest checkpoint, apply_replay_batch now now_ms (ms ++ rest) checkpoint s =
      apply_replay_batch now now_ms rest (checkpoint_past ms checkpoint) s'.
Proof.
  induction cs as [|c cs IH]; intros [|m ms] a chunks s Hs Hm Hc Hlen Hsent; try done.
  { exists s. by rewrite app_nil_r, with_chunks_same. }
  pose proof (Hsent 0%nat c m eq_refl eq_refl) as [Hp Hv Hid Hver Hb Hi Hlt Hn Hsize Hd Hds].
  rewrite Nat.add_0_r in *. rewrite <- Hm in Hid, Hver, Hb, Hlt, Hn, Hds.
  pose proof (apply_chunk_run (rmsg_entry m) c a stores key maxlen s chunks Hs Hc Hv Hid Hver Hb
    Hi Hlt Hn Hsize Hd Hds) as Hrun.
  destruct (apply_recovery_message_run now now_ms m (with_chunks a (chunks ++ [c])) stores key
    maxlen s _ ltac:(by rewrite Hp) ltac:(unfold apply_recovery_message; rewrite Hp; exact Hrun)
    (feeding_next _ _ _ _ _ _ Hs)) as (s1 & Hs1 & Happly).
  destruct (IH ms _ (chunks ++ [c]) s1 Hs1 Hm eq_refl) as (s' & Hs' & Hrest).
  - by injection Hlen.
  - intros j c' m' Hj Hj'. rewrite length_app. simpl.
    replace (length chunks + 1 + j)%nat with (length chunks + S j)%nat by lia.
    by apply Hsent.
  - exists s'. split; [by rewrite <- app_assoc in Hs'|].
    intros rest checkpoint. cbn [app]. by rewrite Happly, Hrest, checkpoint_past_cons.
Qed.

(** The buffered block of place [k]. *)
Record block_sent (k : nat) (c : BroadcasterRecoveryCatchUp) (m : ReplayMessage) : Prop := {
  sent_block : env_payload (rmsg_envelope m) = RecoveryCatchUp c;
  sent_block_valid : validate_recovery_catch_up c = Ok tt;
  sent_block_id : cu_recovery_id c = rm_recovery_id manifest;
  sent_block_version : cu_target_state_version c = rm_target_state_version manifest;
  sent_block_index : cu_block_index c = N.of_nat k;
  sent_block_count : (N.of_nat k < rm_buffer_a_count manifest)%N;
}.

Lemma feed_blocks cs : ∀ ms a blocks s,
  feeding a stores key maxlen s → ra_manifest a = manifest → ra_buffer_a a = indexed blocks →
  N.of_nat (size (ra_chunks a)) = rm_chunk_count manifest →
  length cs = length ms →
  (∀ j c m, cs !! j = Some c → ms !! j = Some m → block_sent (length blocks + j) c m) →
  ∃ s', feeding (with_blocks a (blocks ++ cs)) stores key maxlen s' ∧
    ∀ rest checkpoint, apply_replay_batch now now_ms (ms ++ rest) checkpoint s =
      apply_replay_batch now now_ms rest (checkpoint_past ms checkpoint) s'.
Proof.
  induction cs as [|c cs IH]; intros [|m ms] a blocks s Hs Hm Hb Hn Hlen Hsent; try done.
  { exists s. by rewrite app_nil_r, with_blocks_same. }
  pose proof (Hsent 0%nat c m eq_refl eq_refl) as [Hp Hv Hid Hver Hi Hlt].
  rewrite Nat.add_0_r in *. rewrite <- Hm in Hid, Hver, Hlt, Hn.
  pose proof (apply_catch_up_run c a stores key maxlen s blocks Hs Hb Hv Hid Hver Hn Hi Hlt) as Hrun.
  destruct (apply_recovery_message_run now now_ms m (with_blocks a (blocks ++ [c])) stores key
    maxlen s _ ltac:(by rewrite Hp) ltac:(unfold apply_recovery_message; rewrite Hp; exact Hrun)
    (feeding_next _ _ _ _ _ _ Hs)) as (s1 & Hs1 & Happly).
  destruct (IH ms _ (blocks ++ [c]) s1 Hs1 Hm eq_refl ltac:(by rewrite <- Hm)) as (s' & Hs' & Hrest).
  - by injection Hlen.
  - intros j c' m' Hj Hj'. rewrite length_app. simpl.
    replace (length blocks + 1 + j)%nat with (length blocks + S j)%nat by lia.
    by apply Hsent.
  - exists s'. split; [by rewrite <- app_assoc in Hs'|].
    intros rest checkpoint. cbn [app]. by rewrite Happly, Hrest, checkpoint_past_cons.
Qed.
End runs.

(** ** The start *)

Definition targeted (backends : list BroadcasterBackend) (pp : PreparedRedisProcessor) : bool :=
  bool_decide (controls_backend (pr_controls (pp_processor pp)) ∈ backends).

(** The store of a backend during a recovery. *)
Definition fenced (backends : list BroadcasterBackend) (pp : PreparedRedisProcessor) :
    StateStore :=
  if targeted backends pp then fence_requests (the_store pp) else the_store pp.

(** What is not a backend or shared state. *)
Definition same_loop (s s' : Prepared) : Prop :=
  pd_recovery s' = pd_recovery s ∧ pd_replay_boundary s' = pd_replay_boundary s ∧
  pd_redis_maxlen s' = pd_redis_maxlen s.

Lemma begin_vm_run now c (s : Prepared) :
  guard_held VmGuard (pd_world s) = false →
  ∃ r w, with_world (begin_vm_recovery now c) s = (Ok r, set_world w s) ∧
    (r = None → guard_held VmGuard w = false).
Proof.
  intros Hg. unfold with_world, begin_vm_recovery, begin_or_continue_vm_rebuild, acquire.
  destruct (ct_kind c) as [|wb held|].
  - exists None, (pd_world s). by split.
  - exists (Some VmGuard). eexists. split; [|intros [=]].
    unfold mbind, stateR_bind, modify, gets. cbn in *.
    rewrite Hg. cbn. reflexivity.
  - exists None, (pd_world s). by split.
Qed.

Lemma with_controls_run i f pre pp ps s :
  pd_processors s = pre ++ pp :: ps → i = length pre →
  with_processor i (on_controls f) s =
  (Ok tt, set_processors
     (pre ++ pp_set_processor (pr_set_controls f (pp_processor pp)) pp :: ps) s).
Proof.
  intros Hps ->. unfold with_processor. rewrite Hps, list_lookup_middle by done. cbn.
  rewrite insert_app_r_alt, Nat.sub_diag by done. by destruct s.
Qed.

Lemma start_processors_run now manifest : ∀ ps pre i s r,
  pd_processors s = pre ++ ps → i = length pre →
  Forall (λ pp, targeted (rm_backends manifest) pp = true →
    store_state_version (the_store pp) < rm_target_state_version manifest)%N ps →
  (r = None → guard_held VmGuard (pd_world s) = false) →
  ∃ r' s', start_processors now manifest i ps r s = (Ok r', s') ∧
    map the_store (pd_processors s') = map the_store pre ++ map (fenced (rm_backends manifest)) ps ∧
    same_loop s s'.
Proof.
  induction ps as [|pp ps IH]; intros pre i s r Hps Hi Hv Hg; cbn [start_processors].
  { exists r, s. rewrite Hps, !app_nil_r. by repeat split. }
  apply Forall_cons in Hv as [Hpp Hv]. cbn [map]. unfold fenced at 1.
  fold (targeted (rm_backends manifest) pp). destruct (targeted (rm_backends manifest) pp) eqn:Et; cbn [negb].
  2: { destruct (IH (pre ++ [pp]) (S i) s r) as (r' & s' & Hrun & Hst & Hsame).
       - by rewrite <- app_assoc.
       - rewrite length_app. simpl. lia.
       - done.
       - done.
       - exists r', s'. split_and!; [done| |done]. by rewrite Hst, map_app, <- app_assoc. }
  specialize (Hpp eq_refl). unfold the_store in Hpp at 1.
  rewrite (proj2 (N.ltb_lt _ _) Hpp). cbn [negb].
  rewrite (bind_run _ _ _ _ _ (with_controls_run i _ pre pp ps s Hps Hi)).
  set (pp1 := pp_set_processor _ pp). set (s1 := set_processors _ s).
  rewrite (bind_run _ _ _ _ _ (with_controls_run i _ pre pp1 ps s1 eq_refl Hi)).
  set (pp2 := pp_set_processor _ pp1). set (s2 := set_processors _ s1).
  assert (the_store pp2 = fence_requests (the_store pp)) as Hpp2 by done.
  assert (∃ r1 w, match r with
                  | None => with_world (begin_vm_recovery now (pr_controls (pp_processor pp)))
                  | Some guard => mret (Some guard)
                  end s2 = (Ok r1, set_world w s2) ∧
                  (r1 = None → guard_held VmGuard w = false)) as (r1 & w & Hrun1 & Hg1).
  { destruct r as [g|].
    - exists (Some g), (pd_world s2). split; [by destruct s|done].
    - apply begin_vm_run. by apply Hg. }
  rewrite (bind_run _ _ _ _ _ Hrun1).
  destruct (IH (pre ++ [pp2]) (S i) (set_world w s2) r1) as (r' & s' & Hrun & Hst & Hsame).
  - cbn. by rewrite <- app_assoc.
  - rewrite length_app. simpl. lia.
  - done.
  - done.
  - exists r', s'. split_and!; [done| |done]. rewrite Hst, map_app, <- app_assoc. cbn [map app].
    by rewrite Hpp2.
Qed.

Lemma apply_start_run now seq manifest s :
  pd_recovery s = None → guard_held VmGuard (pd_world s) = false →
  manifest_valid manifest →
  checked_sum "" [rm_chunk_count manifest; rm_buffer_a_count manifest; 1]%N seq =
    Ok (rm_commit_watermark manifest) →
  Forall (λ pp, targeted (rm_backends manifest) pp = true →
    store_state_version (the_store pp) < rm_target_state_version manifest)%N (pd_processors s) →
  ∃ r s', apply_recovery_start now seq manifest s = (Ok tt, s') ∧
    feeding {| ra_manifest := manifest; ra_chunks := indexed []; ra_buffer_a := indexed [];
               ra_vm_rebuild := r; ra_started_at := now |}
      (map (fenced (rm_backends manifest)) (pd_processors s)) (bd_stream_key (pd_replay_boundary s))
      (pd_redis_maxlen s) s'.
Proof.
  intros Hr Hg Hv Hsum Hver. unfold apply_recovery_start.
  rewrite (proj2 (validate_recovery_manifest_ok manifest) Hv).
  erewrite bind_run by reflexivity.
  assert (checked_sum "recovery commit watermark overflow"
    [rm_chunk_count manifest; rm_buffer_a_count manifest; 1]%N seq =
    Ok (rm_commit_watermark manifest)) as ->.
  { revert Hsum. unfold checked_sum. rewrite !ok_or_ok. done. }
  erewrite bind_run by reflexivity. rewrite N.eqb_refl. cbn [negb].
  rewrite gets_bind, modify_bind, Hr, ret_bind. unfold prepared_processors. rewrite gets_bind.
  destruct (start_processors_run now manifest (pd_processors s) [] 0 (set_recovery None s) None)
    as (r & s' & Hrun & Hst & Hb & Hk & Hm); [done..|].
  cbn [pd_processors set_recovery] in Hrun |- *.
  rewrite (bind_run _ _ _ _ _ Hrun). exists r. eexists. split; [reflexivity|].
  split; [done|exact Hst| |exact Hm]. by cbn; rewrite Hk.
Qed.
(** ** The entries of one recovery *)

Section handover.
Context (config : BroadcasterRedisPublisherConfig) (stream : string) (next version : u64).
Context (tx : BroadcasterRecoveryTransaction) (fragments : list PreparedRecoveryFragment).
Context (entries : list BroadcasterRedisStreamEntry).
Context (manifest : BroadcasterRecoveryManifest) (commit : BroadcasterRecoveryCommit).
Context (layout : recovery_layout config stream next version tx fragments entries manifest commit).

Lemma start_delivered e m :
  built config stream version next (RecoveryStart {| rs_manifest := manifest |}) e →
  delivered e m →
  message_seq (rmsg_entry m) = next ∧
  env_payload (rmsg_envelope m) = RecoveryStart {| rs_manifest := manifest |}.
Proof.
  intros Hb Hd. destruct (delivered_payload _ _ _ _ _ _ _ Hb Hd) as (Hs & Hp & _); [done| |done].
  apply (layout_canonical _ _ _ _ _ _ _ _ _ layout).
Qed.

Lemma commit_delivered e m :
  built config stream version (rm_commit_watermark manifest) (RecoveryCommit commit) e →
  delivered e m →
  message_seq (rmsg_entry m) = rm_commit_watermark manifest ∧
  env_payload (rmsg_envelope m) = RecoveryCommit commit.
Proof.
  intros Hb Hd. destruct (delivered_payload _ _ _ _ _ _ _ Hb Hd) as (Hs & Hp & _); [done| |done].
  apply (layout_canonical _ _ _ _ _ _ _ _ _ layout).
Qed.

Lemma chunk_delivered k f e n chunk m :
  fragments !! k = Some f → fragment_digest f = digest_bytes (fragment_payload f) →
  rm_chunk_encoded_bytes manifest !! k = Some n →
  chunk_entry config stream
    {| scope_recovery_id := tx_recovery_id tx; scope_target_state_version := version;
       scope_backends := tx_backends tx |} (next + 1 + N.of_nat k) (N.of_nat k) f e n chunk →
  delivered e m →
  chunk_sent manifest (stream_key config) (maxlen config) k chunk m ∧
  rc_payload_fragment chunk = fragment_payload f.
Proof.
  intros Hf Hdf Hn [Hb Hi Hid Hver Hbs Hdig Hpay Hsize Hmeas _ Hcan] Hd.
  destruct (delivered_payload _ _ _ _ _ _ _ Hb Hd I Hcan) as (_ & Hp & bs & Hscope).
  apply seq_ok in Hscope as [Hvalid _].
  destruct (layout_identity _ _ _ _ _ _ _ _ _ layout) as (Hmid & Hmver & Hmbs & Hmc & _).
  pose proof (layout_digests _ _ _ _ _ _ _ _ _ layout) as Hds.
  split; [|done]. simpl in Hid, Hver, Hbs. cbn in Hp. split; try congruence.
  - rewrite Hmc. unfold len. apply lookup_lt_Some in Hf. lia.
  - by destruct Hd as [-> _]; rewrite Hsize.
  - rewrite Hds, Hdig. change (map ?f ?l) with (f <$> l). by rewrite list_lookup_fmap, Hf.
Qed.

Lemma block_delivered k u e m :
  tx_buffer_a tx !! k = Some u → um_partitions u ≠ [] → canonical (Update u) →
  built config stream version (next + 1 + N.of_nat (length fragments) + N.of_nat k)
    (RecoveryCatchUp {| cu_recovery_id := tx_recovery_id tx; cu_target_state_version := version;
                        cu_block_index := N.of_nat k; cu_update := u |}) e →
  delivered e m →
  ∃ c, block_sent manifest k c m ∧ cu_update c = map_update wire_sim u.
Proof.
  intros Hu Hne Hcan Hb Hd.
  assert (canonical (RecoveryCatchUp {| cu_recovery_id := tx_recovery_id tx;
    cu_target_state_version := version; cu_block_index := N.of_nat k; cu_update := u |})) as Hc.
  { unfold canonical. cbn. by rewrite (proj2 (decode_update_canonical u) Hcan). }
  destruct (delivered_payload _ _ _ _ _ _ _ Hb Hd Hne Hc) as (_ & Hp & bs & Hscope).
  apply seq_ok in Hscope as [Hvalid _].
  destruct (layout_identity _ _ _ _ _ _ _ _ _ layout) as (Hmid & Hmver & _ & _ & Hmb).
  eexists. split; [split; try exact Hp; try exact Hvalid; try done|done].
  rewrite Hmb. unfold len. apply lookup_lt_Some in Hu. lia.
Qed.

Lemma targeted_sorted pp : targeted (rm_backends manifest) pp = targeted (tx_backends tx) pp.
Proof.
  destruct (layout_identity _ _ _ _ _ _ _ _ _ layout) as (_ & _ & -> & _).
  apply bool_decide_ext, elem_of_Permutation_proper, sort_by_key_perm.
Qed.

Lemma fenced_sorted ps : map (fenced (rm_backends manifest)) ps = map (fenced (tx_backends tx)) ps.
Proof. apply map_ext. intros pp. unfold fenced. by rewrite targeted_sorted. Qed.

(** The messages of the chunks and of the blocks, with what each carries. *)
Lemma chunks_sent mcs :
  Forall (λ f, fragment_digest f = digest_bytes (fragment_payload f)) fragments →
  length mcs = length fragments →
  (∀ k m, mcs !! k = Some m → ∃ e, entries !! S k = Some e ∧ delivered e m) →
  ∃ cs, length cs = length mcs ∧
    (∀ k c m, cs !! k = Some c → mcs !! k = Some m →
       chunk_sent manifest (stream_key config) (maxlen config) k c m) ∧
    map rc_payload_fragment cs = map fragment_payload fragments.
Proof.
  intros Hds Hlen Hm.
  destruct (list_choice (λ k m c,
    chunk_sent manifest (stream_key config) (maxlen config) k c m ∧
    rc_payload_fragment <$> Some c = fragment_payload <$> fragments !! k) mcs) as (cs & Hcs & Hall).
  { intros k m Hk. destruct (Hm k m Hk) as (e & He & Hd).
    destruct (lookup_lt_is_Some_2 fragments k) as [f Hf].
    { rewrite <- Hlen. by eapply lookup_lt_Some. }
    destruct (layout_chunk _ _ _ _ _ _ _ _ _ layout k f Hf) as (e' & n & c & He' & Hn & Hc).
    assert (e' = e) as -> by congruence. rewrite Forall_lookup in Hds. exists c.
    destruct (chunk_delivered k f e n c m Hf (Hds _ _ Hf) Hn Hc Hd) as [Hsent Hpay].
    split; [done|]. rewrite Hf. cbn. by rewrite Hpay. }
  exists cs. split_and!; [done|intros k c m Hc Hk; by apply (Hall k m c)|].
  apply list_eq. intros k.
  change (map rc_payload_fragment cs) with (rc_payload_fragment <$> cs).
  change (map fragment_payload fragments) with (fragment_payload <$> fragments).
  rewrite !list_lookup_fmap. destruct (cs !! k) as [c|] eqn:Ec.
  - destruct (lookup_lt_is_Some_2 mcs k) as [m Em]; [rewrite <- Hcs; by eapply lookup_lt_Some|].
    apply (Hall k m c Em Ec).
  - apply lookup_ge_None in Ec. rewrite (lookup_ge_None_2 fragments k); [done|lia].
Qed.

Lemma blocks_sent mbs :
  Forall (λ u, um_partitions u ≠ [] ∧ canonical (Update u)) (tx_buffer_a tx) →
  length mbs = length (tx_buffer_a tx) →
  (∀ k m, mbs !! k = Some m →
     ∃ e, entries !! (1 + length fragments + k)%nat = Some e ∧ delivered e m) →
  ∃ cs, length cs = length mbs ∧
    (∀ k c m, cs !! k = Some c → mbs !! k = Some m → block_sent manifest k c m) ∧
    map cu_update cs = map (map_update wire_sim) (tx_buffer_a tx).
Proof.
  intros Hcan Hlen Hm.
  destruct (list_choice (λ k m c, block_sent manifest k c m ∧
    cu_update <$> Some c = map_update wire_sim <$> tx_buffer_a tx !! k) mbs) as (cs & Hcs & Hall).
  { intros k m Hk. destruct (Hm k m Hk) as (e & He & Hd).
    destruct (lookup_lt_is_Some_2 (tx_buffer_a tx) k) as [u Hu].
    { rewrite <- Hlen. by eapply lookup_lt_Some. }
    destruct (layout_catch_up _ _ _ _ _ _ _ _ _ layout k u Hu) as (e' & He' & Hb).
    assert (e' = e) as -> by congruence. rewrite Forall_lookup in Hcan.
    destruct (Hcan _ _ Hu) as [Hne Hc].
    destruct (block_delivered k u e m Hu Hne Hc Hb Hd) as (c & Hsent & Hpay).
    exists c. split; [done|]. rewrite Hu. cbn. by rewrite Hpay. }
  exists cs. split_and!; [done|intros k c m Hc Hk; by apply (Hall k m c)|].
  apply list_eq. intros k. change (map cu_update cs) with (cu_update <$> cs).
  change (map ?f (tx_buffer_a tx)) with (f <$> tx_buffer_a tx).
  rewrite !list_lookup_fmap. destruct (cs !! k) as [c|] eqn:Ec.
  - destruct (lookup_lt_is_Some_2 mbs k) as [m Em]; [rewrite <- Hcs; by eapply lookup_lt_Some|].
    apply (Hall k m c Em Ec).
  - apply lookup_ge_None in Ec. rewrite (lookup_ge_None_2 (tx_buffer_a tx) k); [done|lia].
Qed.
End handover.

(** ** The whole run *)

Lemma entries_watermark clock config stream next version tx fragments entries :
  recovery_entries clock config stream next version tx fragments = Ok entries →
  checked_sum "" [len fragments; len (tx_buffer_a tx); 1]%N next =
    Ok (next + N.of_nat (length fragments) + N.of_nat (length (tx_buffer_a tx)) + 1)%N.
Proof.
  unfold recovery_entries. intros (wm & Hwm & _)%bind_ok.
  pose proof (checked_sum_ok _ _ _ _ Hwm) as Hsum. unfold checked_sum in *.
  apply ok_or_ok in Hwm. apply ok_or_ok. by rewrite Hwm, Hsum.
Qed.

Lemma split_run {A} (l : list A) n m :
  length l = (n + m + 2)%nat →
  ∃ x xs ys y, l = x :: (xs ++ ys) ++ [y] ∧ length xs = n ∧ length ys = m.
Proof.
  destruct l as [|x l]; [simpl; lia|]. destruct (decide (l = [])) as [->|Hl]; [simpl; lia|].
  destruct (exists_last Hl) as (l' & y & ->). simpl. rewrite length_app. simpl. intros Hn.
  exists x, (take n l'), (drop n l'), y.
  rewrite take_drop, length_take, length_drop. split_and!; [done|lia|lia].
Qed.

(** What the consumer has when the messages before the commit are in. *)
Record taken_in (tx : BroadcasterRecoveryTransaction) (commit : BroadcasterRecoveryCommit)
    (s0 s : Prepared) (a : RecoveryAssembly) (m : ReplayMessage) : Prop := {
  taken_recovery : pd_recovery s = Some a;
  taken_stores : map the_store (pd_processors s) = map (fenced (tx_backends tx)) (pd_processors s0);
  taken_commit : env_payload (rmsg_envelope m) = RecoveryCommit commit;
  taken_blocks : map cu_update (bt_values (ra_buffer_a a)) =
    map (map_update wire_sim) (tx_buffer_a tx);
  taken_replacement : replacement_json a = tx_replacement_json tx;
  taken_snapshot : committed_snapshot a (message_seq (rmsg_entry m)) commit =
    map_err (λ error, anyhow_error
               ("failed to decode recovery replacement snapshot: " +:+ error))
      (envelopes_of_json (tx_replacement_json tx));
}.

Lemma committed_snapshot_run config stream next version tx fragments entries manifest commit a
    chunks blocks :
  recovery_layout config stream next version tx fragments entries manifest commit →
  ra_manifest a = manifest → ra_chunks a = indexed chunks → ra_buffer_a a = indexed blocks →
  length chunks = length fragments → length blocks = length (tx_buffer_a tx) →
  replacement_json a = tx_replacement_json tx →
  committed_snapshot a (rm_commit_watermark manifest) commit =
    map_err (λ error, anyhow_error
               ("failed to decode recovery replacement snapshot: " +:+ error))
      (envelopes_of_json (tx_replacement_json tx)).
Proof.
  intros Hl Hm Hc Hb Hlc Hlb Hj. unfold committed_snapshot. rewrite Hm.
  destruct (layout_identity _ _ _ _ _ _ _ _ _ Hl) as (Hid & Hver & Hbs & Hcc & Hbc).
  destruct (layout_commit_identity _ _ _ _ _ _ _ _ _ Hl) as (Hid' & Hver' & Hbs' & Hbc').
  destruct (layout_replacement _ _ _ _ _ _ _ _ _ Hl) as [Hdig Hlen].
  unfold validate_recovery_identity.
  rewrite Hid', Hid, Hver', Hver, String.eqb_refl, N.eqb_refl. cbn [orb negb].
  assert (commit_matches manifest (rm_commit_watermark manifest) commit = true) as ->.
  { unfold commit_matches. rewrite (layout_commit_digest _ _ _ _ _ _ _ _ _ Hl).
    rewrite (layout_commit_watermark _ _ _ _ _ _ _ _ _ Hl), Hbs, Hbs', Hbc, Hbc'.
    rewrite String.eqb_refl, !N.eqb_refl. by rewrite bool_decide_eq_true_2. }
  rewrite Hc, Hb, !indexed_size, Hcc, Hbc. unfold len. rewrite Hlc, Hlb, !N.eqb_refl.
  cbn [orb negb]. rewrite Hj, Hlen, Hdig, N.eqb_refl, String.eqb_refl. done.
Qed.

(** The messages of a run: the start, the chunks, the blocks and the commit. *)
Record run_of (config : BroadcasterRedisPublisherConfig) (next : u64)
    (tx : BroadcasterRecoveryTransaction) (fragments : list PreparedRecoveryFragment)
    (manifest : BroadcasterRecoveryManifest) (commit : BroadcasterRecoveryCommit)
    (m0 : ReplayMessage) (mcs mbs : list ReplayMessage) (ml : ReplayMessage)
    (cs : list BroadcasterRecoveryChunk) (bs : list BroadcasterRecoveryCatchUp) : Prop := {
  run_start : message_seq (rmsg_entry m0) = next ∧
    env_payload (rmsg_envelope m0) = RecoveryStart {| rs_manifest := manifest |};
  run_chunks : length cs = length mcs ∧ length mcs = length fragments ∧
    ∀ k c m, cs !! k = Some c → mcs !! k = Some m →
      chunk_sent manifest (stream_key config) (maxlen config) k c m;
  run_fragments : map rc_payload_fragment cs = map fragment_payload fragments;
  run_blocks : length bs = length mbs ∧ length mbs = length (tx_buffer_a tx) ∧
    ∀ k c m, bs !! k = Some c → mbs !! k = Some m → block_sent manifest k c m;
  run_updates : map cu_update bs = map (map_update wire_sim) (tx_buffer_a tx);
  run_commit : message_seq (rmsg_entry ml) = rm_commit_watermark manifest ∧
    env_payload (rmsg_envelope ml) = RecoveryCommit commit;
}.

Lemma delivered_run config stream next version tx fragments entries manifest commit messages :
  recovery_layout config stream next version tx fragments entries manifest commit →
  Forall (λ f, fragment_digest f = digest_bytes (fragment_payload f)) fragments →
  Forall (λ u, um_partitions u ≠ [] ∧ canonical (Update u)) (tx_buffer_a tx) →
  Forall2 delivered entries messages →
  ∃ m0 mcs mbs ml cs bs, messages = m0 :: (mcs ++ mbs) ++ [ml] ∧
    run_of config next tx fragments manifest commit m0 mcs mbs ml cs bs.
Proof.
  intros Hl Hds Hcan Hdel. pose proof (Forall2_length _ _ _ Hdel) as Hlen.
  rewrite (layout_length _ _ _ _ _ _ _ _ _ Hl) in Hlen.
  destruct (split_run messages _ _ (eq_sym Hlen)) as (m0 & mcs & mbs & ml & -> & Hlc & Hlb).
  assert (∀ i m, (m0 :: (mcs ++ mbs) ++ [ml]) !! i = Some m →
            ∃ e, entries !! i = Some e ∧ delivered e m) as Hd.
  { intros i m Hi. destruct (Forall2_lookup_r _ _ _ _ _ Hdel Hi) as (e & He & Hm). by exists e. }
  destruct (layout_start _ _ _ _ _ _ _ _ _ Hl) as (e0 & He0 & Hb0).
  destruct (Hd 0%nat m0 eq_refl) as (e0' & He0' & Hd0). assert (e0' = e0) as -> by congruence.
  destruct (layout_commit _ _ _ _ _ _ _ _ _ Hl) as (ec & Hec & Hbc).
  destruct (Hd (S (length (mcs ++ mbs))) ml) as (ec' & Hec' & Hdc).
  { simpl. by rewrite lookup_app_r, Nat.sub_diag by done. }
  assert (ec' = ec) as ->.
  { rewrite last_lookup, (layout_length _ _ _ _ _ _ _ _ _ Hl) in Hec. rewrite length_app in Hec'.
    replace (pred _) with (S (length mcs + length mbs)) in Hec by lia. congruence. }
  destruct (chunks_sent _ _ _ _ _ _ _ _ _ Hl mcs Hds Hlc) as (cs & Hcs & Hsent & Hfr).
  { intros k m Hk. apply Hd. simpl. rewrite <- app_assoc. by apply lookup_app_l_Some. }
  destruct (blocks_sent _ _ _ _ _ _ _ _ _ Hl mbs Hcan Hlb) as (bs & Hbs & Hbsent & Hups).
  { intros k m Hk. apply Hd. simpl. rewrite <- Hlc, <- app_assoc.
    rewrite lookup_app_r by lia. apply lookup_app_l_Some. by rewrite Nat.add_comm, Nat.add_sub. }
  exists m0, mcs, mbs, ml, cs, bs. split; [done|]. split; try done.
  - exact (start_delivered _ _ _ _ _ _ _ _ _ Hl e0 m0 Hb0 Hd0).
  - exact (commit_delivered _ _ _ _ _ _ _ _ _ Hl ec ml Hbc Hdc).
Qed.

Section run.
Context (now : Instant) (now_ms : u64) (s : Prepared).

(** The consumer takes in the start, the chunks and the blocks. *)
Lemma feed_run config stream next version tx fragments entries manifest commit m0 mcs mbs ml cs bs :
  recovery_layout config stream next version tx fragments entries manifest commit →
  run_of config next tx fragments manifest commit m0 mcs mbs ml cs bs →
  checked_sum "" [len fragments; len (tx_buffer_a tx); 1]%N next = Ok (rm_commit_watermark manifest) →
  pd_recovery s = None → guard_held VmGuard (pd_world s) = false →
  bd_stream_key (pd_replay_boundary s) = stream_key config → pd_redis_maxlen s = maxlen config →
  Forall (λ pp, targeted (tx_backends tx) pp = true →
    store_state_version (the_store pp) < version)%N (pd_processors s) →
  ∃ r s', feeding
      {| ra_manifest := manifest; ra_chunks := indexed cs; ra_buffer_a := indexed bs;
         ra_vm_rebuild := r; ra_started_at := now |}
      (map (fenced (tx_backends tx)) (pd_processors s)) (stream_key config) (maxlen config) s' ∧
    ∀ checkpoint, apply_replay_batch now now_ms (m0 :: mcs ++ mbs) checkpoint s =
      (Ok tt, checkpoint_past (m0 :: mcs ++ mbs) checkpoint, s').
Proof.
  intros Hl [[Hseq0 Hp0] (Hcs & Hlc & Hsent) _ (Hbs & _ & Hbsent) _ _] Hsum Hrec Hgate Hkey Hmax Hver.
  destruct (layout_identity _ _ _ _ _ _ _ _ _ Hl) as (_ & Hmver & _ & Hmc & Hmb).
  destruct (apply_start_run now next manifest s Hrec Hgate) as (r & s1 & Hrun1 & Hf1).
  { apply (layout_manifest _ _ _ _ _ _ _ _ _ Hl). }
  { by rewrite Hmc, Hmb. }
  { rewrite Hmver. eapply Forall_impl; [exact Hver|]. intros pp Hpp.
    by rewrite (targeted_sorted _ _ _ _ _ _ _ _ _ Hl). }
  rewrite (fenced_sorted _ _ _ _ _ _ _ _ _ Hl), Hkey, Hmax in Hf1.
  destruct (apply_recovery_message_run now now_ms m0 _ _ _ _ s s1 ltac:(by rewrite Hp0)
    ltac:(unfold apply_recovery_message; rewrite Hp0, Hseq0; exact Hrun1) Hf1) as (s2 & Hf2 & Ha2).
  destruct (feed_chunks now now_ms manifest _ _ _ cs mcs _ [] s2 Hf2 eq_refl eq_refl Hcs)
    as (s3 & Hf3 & Ha3); [intros j c m Hj Hjm; by apply Hsent|].
  destruct (feed_blocks now now_ms manifest _ _ _ bs mbs _ [] s3 Hf3 eq_refl eq_refl)
    as (s4 & Hf4 & Ha4); [|done|intros j c m Hj Hjm; by apply Hbsent|].
  { change (N.of_nat (size (indexed cs)) = rm_chunk_count manifest).
    rewrite indexed_size, Hmc. unfold len. congruence. }
  exists r, s4. split; [exact Hf4|]. intros checkpoint.
  rewrite Ha2, Ha3. rewrite <- (app_nil_r mbs) at 1. rewrite Ha4.
  cbn [apply_replay_batch]. f_equal. f_equal.
  rewrite checkpoint_past_cons. unfold checkpoint_past. rewrite last_app. by destruct (last mbs).
Qed.

Lemma recovery_run config stream next version tx fragments entries manifest commit messages :
  recovery_layout config stream next version tx fragments entries manifest commit →
  checked_sum "" [len fragments; len (tx_buffer_a tx); 1]%N next = Ok (rm_commit_watermark manifest) →
  Forall (λ f, fragment_digest f = digest_bytes (fragment_payload f)) fragments →
  foldr (λ f rest, fragment_payload f +:+ rest) "" fragments = tx_replacement_json tx →
  Forall (λ u, um_partitions u ≠ [] ∧ canonical (Update u)) (tx_buffer_a tx) →
  Forall2 delivered entries messages →
  pd_recovery s = None → guard_held VmGuard (pd_world s) = false →
  bd_stream_key (pd_replay_boundary s) = stream_key config → pd_redis_maxlen s = maxlen config →
  Forall (λ pp, targeted (tx_backends tx) pp = true →
    store_state_version (the_store pp) < version)%N (pd_processors s) →
  ∃ init m a s', messages = init ++ [m] ∧
    (∀ checkpoint, apply_replay_batch now now_ms init checkpoint s =
       (Ok tt, checkpoint_past init checkpoint, s')) ∧
    taken_in tx commit s s' a m.
Proof.
  intros Hl Hsum Hds Hjson Hcan Hdel Hrec Hgate Hkey Hmax Hver.
  destruct (delivered_run _ _ _ _ _ _ _ _ _ _ Hl Hds Hcan Hdel)
    as (m0 & mcs & mbs & ml & cs & bs & -> & Hr).
  destruct (feed_run _ _ _ _ _ _ _ _ _ _ _ _ _ _ _ Hl Hr Hsum Hrec Hgate Hkey Hmax Hver)
    as (r & s' & Hf & Happly).
  destruct Hr as [_ (Hcs & Hlc & _) Hfr (Hbs & Hlb & _) Hups [Hseqc Hpc]].
  eexists (m0 :: mcs ++ mbs), ml, _, s'. split; [done|]. split; [exact Happly|].
  assert (replacement_json
    {| ra_manifest := manifest; ra_chunks := indexed cs; ra_buffer_a := indexed bs;
       ra_vm_rebuild := r; ra_started_at := now |} = tx_replacement_json tx) as Hrj.
  { unfold replacement_json. cbn [ra_chunks].
    by rewrite indexed_values, Hfr, concat_fragments. }
  split.
  - apply (feeding_recovery _ _ _ _ _ Hf).
  - apply (feeding_stores _ _ _ _ _ Hf).
  - done.
  - cbn [ra_buffer_a]. by rewrite indexed_values.
  - exact Hrj.
  - rewrite Hseqc. eapply (committed_snapshot_run _ _ _ _ _ _ _ _ _ _ cs bs Hl);
      [done|done|done|congruence|congruence|exact Hrj].
Qed.
End run.
End feed.

(** ** Properties *)

(** C9: a recovery is handed over whole.  When a consumer with no recovery in progress
    reads the entries the publisher appends for a transaction, it accepts each of them up
    to the commit; it then holds exactly the publisher's replacement and the buffered
    blocks as they serialise, has fenced the stores the recovery replaces and no other, and
    every check the commit makes of the snapshot before reading it succeeds. *)
Theorem recovery_handed_over `{RawMessages} `{!TychoEngine} `{!TychoTokens} `{!SnapshotJson}
    `{!SerdeJson} `{!SerdeJsonLaws} `{Keccak} `{HashOrder} clock config stream next version tx
    fragments entries messages now now_ms s :
  tx_replacement_json tx ≠ "" → utf8_spaced (tx_replacement_json tx) →
  (str_len (tx_replacement_json tx) ≤ u64_max)%N →
  Forall (λ u, um_partitions u ≠ [] ∧ canonical (Update u)) (tx_buffer_a tx) →
  prepare_recovery_fragments (tx_replacement_json tx) = Ok fragments →
  recovery_entries clock config stream next version tx fragments = Ok entries →
  Forall2 delivered entries messages →
  pd_recovery s = None → guard_held VmGuard (pd_world s) = false →
  bd_stream_key (pd_replay_boundary s) = stream_key config → pd_redis_maxlen s = maxlen config →
  Forall (λ pp, targeted (tx_backends tx) pp = true →
    store_state_version (the_store pp) < version)%N (pd_processors s) →
  ∃ commit init m a s', messages = init ++ [m] ∧
    (∀ checkpoint, apply_replay_batch now now_ms init checkpoint s =
       (Ok tt, checkpoint_past init checkpoint, s')) ∧
    taken_in tx commit s s' a m.
Proof.
  intros Hne Hsp Hw Hcan Hfr He Hdel Hrec Hgate Hkey Hmax Hver.
  destruct (fragments_rejoin _ Hne Hsp Hw) as (fs & Hfs & Hcat & Hok).
  assert (fs = fragments) as -> by congruence.
  destruct (recovery_entries_layout _ _ _ _ _ _ _ _ He) as (manifest & commit & Hl).
  exists commit. eapply (recovery_run now now_ms s config); try done.
  - by rewrite (entries_watermark _ _ _ _ _ _ _ _ He), (layout_watermark _ _ _ _ _ _ _ _ _ Hl).
  - eapply Forall_impl; [exact Hok|]. by intros f (_ & _ & ?).
Qed.

(** ** A run *)

#[local] Existing Instances demo_tycho demo_serde demo_keccak demo_tokens demo_order.
#[local] Existing Instances demo_raw demo_engine demo_snapshot_json demo_serde_laws.

Definition demo_consumer : Prepared := {|
  pd_world := demo_world;
  pd_processors := [ {| pp_index := 0; pp_processor := with_decoder 0 1 demo_vm None;
                        pp_replay_boundary := demo_boundary |} ];
  pd_replay_boundary := demo_boundary; pd_expected_chain_id := 1; pd_recovery := None;
  pd_redis_maxlen := Some 1000%N |}.

Lemma demo_delivered l :
  forallb (λ e, bool_decide (is_Some (demo_message e))) l = true →
  Forall2 delivered l (omap demo_message l).
Proof.
  induction l as [|e l IH]; [constructor|]. cbn [forallb omap list_omap].
  intros [He%bool_decide_eq_true Hl]%andb_true_iff. destruct He as [m Hm]. rewrite Hm.
  constructor; [|by apply IH]. unfold demo_message in Hm. revert Hm. unfold delivered.
  destruct (envelope_of_json (payload_json e)) as [env|]; [|done]. cbn. by intros [= <-].
Qed.

Lemma recovery_handed_over_witness :
  ∃ commit init m a s', omap demo_message demo_vm_entries = init ++ [m] ∧
    apply_replay_batch 1 0 init demo_checkpoint demo_consumer =
      (Ok tt, checkpoint_past init demo_checkpoint, s') ∧
    taken_in demo_vm_transaction commit demo_consumer s' a m ∧ length init = 3%nat.
Proof.
  assert (demo_vm_recovery = Ok demo_vm_entries) as (fragments & Ef & Ee)%bind_ok.
  { assert (is_ok demo_vm_recovery = true) as Hok by (vm_compute; reflexivity).
    unfold demo_vm_entries. destruct demo_vm_recovery; [reflexivity|discriminate Hok]. }
  destruct (recovery_handed_over (λ _ _, 1000%N) demo_publisher_config "chain-1-stream-7" 3 12
    demo_vm_transaction fragments demo_vm_entries (omap demo_message demo_vm_entries) 1 0
    demo_consumer) as (commit & init & m & a & s' & Hm & Hrun & Htaken).
  - done.
  - intros i Hi. exists i. split_and!; [lia|lia|]. simpl in Hi.
    destruct i as [|[|[|i]]]; [done..|lia].
  - by vm_compute.
  - constructor; [|constructor]. split; [done|by vm_compute].
  - exact Ef.
  - exact Ee.
  - apply demo_delivered. by vm_compute.
  - done.
  - done.
  - done.
  - done.
  - constructor; [|constructor]. intros _. by vm_compute.
  - exists commit, init, m, a, s'. split_and!; [done|apply Hrun|done|].
    assert (length (omap demo_message demo_vm_entries) = 4%nat) as Hl by by vm_compute.
    rewrite Hm, length_app in Hl. simpl in Hl. lia.
Defined.
