(* ===== verification/RawMessage.v ===== *)
(** * The fields of a raw message

    Raw messages, block changes and accounts are structs of the Tycho crates with public
    fields, which the broadcaster reads, builds and edits one by one: [SyncMessage] and
    [BlockChanges] list them as the code does, and the class [SyncFields] says that a
    message is its fields.  What the values of the maps are made of stays with the crates. *)

From S2P Require Import Prelude Ordered Text Protocol.
From S2P Require Import Wire Validate Codec TychoFeed RedisEntry Replay Recovery Reassembly.

(** The structs the code takes as a whole. *)
Class TychoFields `{RawMessages} := {
  bytes_debug : Bytes → string;
  Chain : Type;
  ChangesBlock : Type;
  DtoComponent : Type;
  ComponentWithState : Type;
  ProtocolStateDelta : Type;
  AccountUpdate : Type;
  ComponentBalance : Type;
  AccountBalance : Type;
  ComponentTvl : Type;
}.

Section fields.
Context `{TychoFields}.

Record DciUpdate := {
  dci_new_entrypoints : hashmap EntryPoints;
  dci_new_entrypoint_params : hashmap EntryPoints;
  dci_trace_results : hashmap TraceResult;
}.

Record BlockChanges := {
  bc_extractor : string;
  bc_chain : Chain;
  bc_block : ChangesBlock;
  bc_finalized_block_height : u64;
  bc_revert : bool;
  bc_new_tokens : hashmap NewToken;
  bc_account_updates : hashmap AccountUpdate;
  bc_state_updates : hashmap ProtocolStateDelta;
  bc_new_protocol_components : hashmap DtoComponent;
  bc_deleted_protocol_components : hashmap DtoComponent;
  bc_component_balances : hashmap (hashmap ComponentBalance);
  bc_account_balances : hashmap (hashmap AccountBalance);
  bc_component_tvl : hashmap ComponentTvl;
  bc_dci_update : DciUpdate;
  bc_partial_block_index : option u32;
}.

(** [StateSyncMessage], its [snapshots] spread out. *)
Record SyncMessage := {
  sy_header : BlockHeader;
  sy_states : hashmap ComponentWithState;
  sy_vm_storage : hashmap ResponseAccount;
  sy_deltas : option BlockChanges;
  sy_removed_components : hashmap DtoComponent;
}.

(** Field assignments. *)
Definition dci_set_new_entrypoints (f : hashmap EntryPoints → hashmap EntryPoints) (x : DciUpdate) : DciUpdate :=
  {| dci_new_entrypoints := f (dci_new_entrypoints x); dci_new_entrypoint_params :=
     dci_new_entrypoint_params x; dci_trace_results := dci_trace_results x |}.
Definition dci_set_new_entrypoint_params (f : hashmap EntryPoints → hashmap EntryPoints) (x : DciUpdate) : DciUpdate :=
  {| dci_new_entrypoints := dci_new_entrypoints x; dci_new_entrypoint_params := f
     (dci_new_entrypoint_params x); dci_trace_results := dci_trace_results x |}.
Definition dci_set_trace_results (f : hashmap TraceResult → hashmap TraceResult) (x : DciUpdate) : DciUpdate :=
  {| dci_new_entrypoints := dci_new_entrypoints x; dci_new_entrypoint_params :=
     dci_new_entrypoint_params x; dci_trace_results := f (dci_trace_results x) |}.
Definition bc_set_new_tokens (f : hashmap NewToken → hashmap NewToken) (x : BlockChanges) : BlockChanges :=
  {| bc_extractor := bc_extractor x; bc_chain := bc_chain x; bc_block := bc_block x;
     bc_finalized_block_height := bc_finalized_block_height x; bc_revert := bc_revert x;
     bc_new_tokens := f (bc_new_tokens x); bc_account_updates := bc_account_updates x;
     bc_state_updates := bc_state_updates x; bc_new_protocol_components :=
     bc_new_protocol_components x; bc_deleted_protocol_components :=
     bc_deleted_protocol_components x; bc_component_balances := bc_component_balances x;
     bc_account_balances := bc_account_balances x; bc_component_tvl := bc_component_tvl x;
     bc_dci_update := bc_dci_update x; bc_partial_block_index := bc_partial_block_index x |}.
Definition bc_set_account_updates (f : hashmap AccountUpdate → hashmap AccountUpdate) (x : BlockChanges) : BlockChanges :=
  {| bc_extractor := bc_extractor x; bc_chain := bc_chain x; bc_block := bc_block x;
     bc_finalized_block_height := bc_finalized_block_height x; bc_revert := bc_revert x;
     bc_new_tokens := bc_new_tokens x; bc_account_updates := f (bc_account_updates x);
     bc_state_updates := bc_state_updates x; bc_new_protocol_components :=
     bc_new_protocol_components x; bc_deleted_protocol_components :=
     bc_deleted_protocol_components x; bc_component_balances := bc_component_balances x;
     bc_account_balances := bc_account_balances x; bc_component_tvl := bc_component_tvl x;
     bc_dci_update := bc_dci_update x; bc_partial_block_index := bc_partial_block_index x |}.
Definition bc_set_state_updates (f : hashmap ProtocolStateDelta → hashmap ProtocolStateDelta) (x : BlockChanges) : BlockChanges :=
  {| bc_extractor := bc_extractor x; bc_chain := bc_chain x; bc_block := bc_block x;
     bc_finalized_block_height := bc_finalized_block_height x; bc_revert := bc_revert x;
     bc_new_tokens := bc_new_tokens x; bc_account_updates := bc_account_updates x;
     bc_state_updates := f (bc_state_updates x); bc_new_protocol_components :=
     bc_new_protocol_components x; bc_deleted_protocol_components :=
     bc_deleted_protocol_components x; bc_component_balances := bc_component_balances x;
     bc_account_balances := bc_account_balances x; bc_component_tvl := bc_component_tvl x;
     bc_dci_update := bc_dci_update x; bc_partial_block_index := bc_partial_block_index x |}.
Definition bc_set_new_protocol_components (f : hashmap DtoComponent → hashmap DtoComponent) (x : BlockChanges) : BlockChanges :=
  {| bc_extractor := bc_extractor x; bc_chain := bc_chain x; bc_block := bc_block x;
     bc_finalized_block_height := bc_finalized_block_height x; bc_revert := bc_revert x;
     bc_new_tokens := bc_new_tokens x; bc_account_updates := bc_account_updates x;
     bc_state_updates := bc_state_updates x; bc_new_protocol_components := f
     (bc_new_protocol_components x); bc_deleted_protocol_components :=
     bc_deleted_protocol_components x; bc_component_balances := bc_component_balances x;
     bc_account_balances := bc_account_balances x; bc_component_tvl := bc_component_tvl x;
     bc_dci_update := bc_dci_update x; bc_partial_block_index := bc_partial_block_index x |}.
Definition bc_set_deleted_protocol_components (f : hashmap DtoComponent → hashmap DtoComponent) (x : BlockChanges) : BlockChanges :=
  {| bc_extractor := bc_extractor x; bc_chain := bc_chain x; bc_block := bc_block x;
     bc_finalized_block_height := bc_finalized_block_height x; bc_revert := bc_revert x;
     bc_new_tokens := bc_new_tokens x; bc_account_updates := bc_account_updates x;
     bc_state_updates := bc_state_updates x; bc_new_protocol_components :=
     bc_new_protocol_components x; bc_deleted_protocol_components := f
     (bc_deleted_protocol_components x); bc_component_balances := bc_component_balances x;
     bc_account_balances := bc_account_balances x; bc_component_tvl := bc_component_tvl x;
     bc_dci_update := bc_dci_update x; bc_partial_block_index := bc_partial_block_index x |}.
Definition bc_set_component_balances (f : hashmap (hashmap ComponentBalance) → hashmap (hashmap ComponentBalance)) (x : BlockChanges) : BlockChanges :=
  {| bc_extractor := bc_extractor x; bc_chain := bc_chain x; bc_block := bc_block x;
     bc_finalized_block_height := bc_finalized_block_height x; bc_revert := bc_revert x;
     bc_new_tokens := bc_new_tokens x; bc_account_updates := bc_account_updates x;
     bc_state_updates := bc_state_updates x; bc_new_protocol_components :=
     bc_new_protocol_components x; bc_deleted_protocol_components :=
     bc_deleted_protocol_components x; bc_component_balances := f (bc_component_balances x);
     bc_account_balances := bc_account_balances x; bc_component_tvl := bc_component_tvl x;
     bc_dci_update := bc_dci_update x; bc_partial_block_index := bc_partial_block_index x |}.
Definition bc_set_account_balances (f : hashmap (hashmap AccountBalance) → hashmap (hashmap AccountBalance)) (x : BlockChanges) : BlockChanges :=
  {| bc_extractor := bc_extractor x; bc_chain := bc_chain x; bc_block := bc_block x;
     bc_finalized_block_height := bc_finalized_block_height x; bc_revert := bc_revert x;
     bc_new_tokens := bc_new_tokens x; bc_account_updates := bc_account_updates x;
     bc_state_updates := bc_state_updates x; bc_new_protocol_components :=
     bc_new_protocol_components x; bc_deleted_protocol_components :=
     bc_deleted_protocol_components x; bc_component_balances := bc_component_balances x;
     bc_account_balances := f (bc_account_balances x); bc_component_tvl := bc_component_tvl x;
     bc_dci_update := bc_dci_update x; bc_partial_block_index := bc_partial_block_index x |}.
Definition bc_set_component_tvl (f : hashmap ComponentTvl → hashmap ComponentTvl) (x : BlockChanges) : BlockChanges :=
  {| bc_extractor := bc_extractor x; bc_chain := bc_chain x; bc_block := bc_block x;
     bc_finalized_block_height := bc_finalized_block_height x; bc_revert := bc_revert x;
     bc_new_tokens := bc_new_tokens x; bc_account_updates := bc_account_updates x;
     bc_state_updates := bc_state_updates x; bc_new_protocol_components :=
     bc_new_protocol_components x; bc_deleted_protocol_components :=
     bc_deleted_protocol_components x; bc_component_balances := bc_component_balances x;
     bc_account_balances := bc_account_balances x; bc_component_tvl := f (bc_component_tvl x);
     bc_dci_update := bc_dci_update x; bc_partial_block_index := bc_partial_block_index x |}.
Definition bc_set_dci_update (f : DciUpdate → DciUpdate) (x : BlockChanges) : BlockChanges :=
  {| bc_extractor := bc_extractor x; bc_chain := bc_chain x; bc_block := bc_block x;
     bc_finalized_block_height := bc_finalized_block_height x; bc_revert := bc_revert x;
     bc_new_tokens := bc_new_tokens x; bc_account_updates := bc_account_updates x;
     bc_state_updates := bc_state_updates x; bc_new_protocol_components :=
     bc_new_protocol_components x; bc_deleted_protocol_components :=
     bc_deleted_protocol_components x; bc_component_balances := bc_component_balances x;
     bc_account_balances := bc_account_balances x; bc_component_tvl := bc_component_tvl x;
     bc_dci_update := f (bc_dci_update x); bc_partial_block_index := bc_partial_block_index x
     |}.
Definition sy_set_header (f : BlockHeader → BlockHeader) (x : SyncMessage) : SyncMessage :=
  {| sy_header := f (sy_header x); sy_states := sy_states x; sy_vm_storage := sy_vm_storage x;
     sy_deltas := sy_deltas x; sy_removed_components := sy_removed_components x |}.
Definition sy_set_states (f : hashmap ComponentWithState → hashmap ComponentWithState) (x : SyncMessage) : SyncMessage :=
  {| sy_header := sy_header x; sy_states := f (sy_states x); sy_vm_storage := sy_vm_storage x;
     sy_deltas := sy_deltas x; sy_removed_components := sy_removed_components x |}.
Definition sy_set_vm_storage (f : hashmap ResponseAccount → hashmap ResponseAccount) (x : SyncMessage) : SyncMessage :=
  {| sy_header := sy_header x; sy_states := sy_states x; sy_vm_storage := f (sy_vm_storage x);
     sy_deltas := sy_deltas x; sy_removed_components := sy_removed_components x |}.
Definition sy_set_deltas (f : option BlockChanges → option BlockChanges) (x : SyncMessage) : SyncMessage :=
  {| sy_header := sy_header x; sy_states := sy_states x; sy_vm_storage := sy_vm_storage x;
     sy_deltas := f (sy_deltas x); sy_removed_components := sy_removed_components x |}.
Definition sy_set_removed_components (f : hashmap DtoComponent → hashmap DtoComponent) (x : SyncMessage) : SyncMessage :=
  {| sy_header := sy_header x; sy_states := sy_states x; sy_vm_storage := sy_vm_storage x;
     sy_deltas := sy_deltas x; sy_removed_components := f (sy_removed_components x) |}.

Definition dci_default : DciUpdate :=
  {| dci_new_entrypoints := []; dci_new_entrypoint_params := []; dci_trace_results := [] |}.
End fields.

Class SyncFields `{TychoFields} := {
  of_message : StateSyncMessage → SyncMessage;
  to_message : SyncMessage → StateSyncMessage;
}.

Class SyncFieldsLaws `{SyncFields} := {
  of_to_message r : of_message (to_message r) = r;
  header_of_message m : ssm_header m = sy_header (of_message m);
  vm_storage_of_message m : vm_storage m = sy_vm_storage (of_message m);
  state_ids_of_message m : snapshot_state_ids m = (sy_states (of_message m)).*1;
  removed_ids_of_message m : removed_component_ids m = (sy_removed_components (of_message m)).*1;
  set_vm_storage_fields s m :
    of_message (set_vm_storage s m) = sy_set_vm_storage (λ _, s) (of_message m);
  has_deltas_fields m : has_deltas m = bool_decide (is_Some (sy_deltas (of_message m)));
  new_tokens_fields m :
    new_tokens m = default [] (bc_new_tokens <$> sy_deltas (of_message m));
  new_entrypoints_fields m :
    new_entrypoints m =
      default [] (dci_new_entrypoints ∘ bc_dci_update <$> sy_deltas (of_message m));
  new_entrypoint_params_fields m :
    new_entrypoint_params m =
      default [] (dci_new_entrypoint_params ∘ bc_dci_update <$> sy_deltas (of_message m));
  trace_results_fields m :
    trace_results m =
      default [] (dci_trace_results ∘ bc_dci_update <$> sy_deltas (of_message m));
  set_new_tokens_fields s m :
    of_message (set_new_tokens s m) =
      sy_set_deltas (fmap (bc_set_new_tokens (λ _, s))) (of_message m);
  set_dci_update_fields e p t m :
    of_message (set_dci_update e p t m) =
      sy_set_deltas (fmap (bc_set_dci_update (λ _, {| dci_new_entrypoints := e;
        dci_new_entrypoint_params := p; dci_trace_results := t |}))) (of_message m);
}.

(** The slots of an account are one of its fields, which the comparison of two accounts
    leaves out. *)
Class AccountLaws `{RawMessages} := {
  slots_set_slots s a : account_slots (set_account_slots s a) = s;
  set_set_slots s t a : set_account_slots s (set_account_slots t a) = set_account_slots s a;
  set_slots_slots a : set_account_slots (account_slots a) a = a;
  field_set_slots f s t a :
    account_field_eqb f (set_account_slots s a) (set_account_slots t a) = true;
}.

Section messages.
Context `{SyncFields}.

(** The fields of the message of a protocol. *)
Definition pm_fields (m : BroadcasterProtocolMessage) : SyncMessage := of_message (pm_message m).

Definition pm_update (f : SyncMessage → SyncMessage) (m : BroadcasterProtocolMessage) :
    BroadcasterProtocolMessage :=
  {| pm_protocol := pm_protocol m; pm_sync_state := pm_sync_state m;
     pm_message := to_message (f (pm_fields m)) |}.

Lemma pm_fields_update `{!SyncFieldsLaws} f m : pm_fields (pm_update f m) = f (pm_fields m).
Proof. apply of_to_message. Qed.
End messages.
