(* ===== verification/SnapshotExport.v ===== *)
(** * Exporting snapshots

    [runtime/src/broadcaster/state.rs], from [build_snapshot_chunks] on, with
    [export_snapshot_source], [serialize_recovery_source] and [combine_snapshot_exports]: the
    state of every backend is cut into snapshot chunks whose JSON stays within a byte limit.
    A message that is too large is cut into fragments: its states, each account by ranges of
    its slots, and the entries of its deltas and removals. *)

From S2P Require Import Prelude Ordered Text Protocol.
From S2P Require Import Wire Validate Codec TychoFeed RedisEntry Replay Recovery.
From S2P Require Import Reassembly RawMessage.

(** [serde_json::to_string] of a list of envelopes. *)
Class ListJson `{SerdeJson} := {
  json_of_envelopes : list BroadcasterEnvelope → result string string;
}.

(** [format!("{key:?}")] of a [String]: an escape per quote, backslash or control
    character. *)
Definition hex_nibble (n : N) : string :=
  String (Ascii.ascii_of_N (if (n <? 10)%N then n + 48 else n + 87)) EmptyString.
Definition char_debug (c : ascii) : string :=
  let n := byte_of c in
  if (n =? 0)%N then "\0"
  else if (n =? 9)%N then "\t"
  else if (n =? 10)%N then "\n"
  else if (n =? 13)%N then "\r"
  else if (n =? 34)%N || (n =? 92)%N then "\" +:+ String c EmptyString
  else if (n <? 16)%N then "\u{" +:+ hex_nibble n +:+ "}"
  else if (n <? 32)%N || (n =? 127)%N then
    "\u{" +:+ hex_nibble (n / 16) +:+ hex_nibble (n mod 16) +:+ "}"
  else String c EmptyString.
Definition str_debug (s : string) : string :=
  let quote := String (Ascii.ascii_of_N 34) EmptyString in
  quote +:+ String.concat "" (map char_debug (String.list_ascii_of_string s)) +:+ quote.

(** ** Sizes *)

Section export.
Context `{SyncFields} `{!SerdeJson} `{!ListJson}.

Record BroadcasterPartitionState := {
  ps_block : option u64;
  ps_sync_statuses : btree string BroadcasterProtocolSyncStatus;
  ps_messages : list BroadcasterProtocolMessage;
  ps_states : btree string BroadcasterStateEntry;
}.

Definition partition_default : BroadcasterPartitionState :=
  {| ps_block := None; ps_sync_statuses := ∅; ps_messages := []; ps_states := ∅ |}.

Abbreviation statuses := (btree string BroadcasterProtocolSyncStatus).

Record SnapshotChunkBuildContext := {
  cx_stream_id : string;
  cx_snapshot_id : string;
  cx_backend : BroadcasterBackend;
  cx_block_number : u64;
  cx_max_payload_bytes : usize;
}.

Definition WORST_CASE_SNAPSHOT_CHUNK_INDEX : usize := u32_max.

(** The length of the JSON of an envelope. *)
Definition envelope_size (envelope : BroadcasterEnvelope) : anyhow usize :=
  str_len <$> map_err anyhow_error (json_of_envelope envelope).

Definition payload_size (stream_id : string) (payload : BroadcasterPayload) : anyhow usize :=
  envelope_size {| env_stream_id := stream_id; env_message_seq := u64_max;
                   env_payload := payload |}.

Definition ensure_payload_fits (stream_id : string) (message_seq : u64)
    (payload : BroadcasterPayload) (max_payload_bytes : usize) : anyhow unit :=
  size ← envelope_size {| env_stream_id := stream_id; env_message_seq := message_seq;
                          env_payload := payload |};
  if (size <=? max_payload_bytes)%N then Ok tt
  else
    anyhow_bail ("serialized broadcaster snapshot payload is " +:+ u64_to_string size
                   +:+ " bytes, above configured max " +:+ u64_to_string max_payload_bytes).

Section context.
Context (ctx : SnapshotChunkBuildContext).

Definition snapshot_chunk (chunk_index : usize) (partition : BroadcasterSnapshotPartition) :
    anyhow BroadcasterSnapshotChunk :=
  chunk_index ← with_context "snapshot chunk index exceeds u32 range" (u32_of_usize chunk_index);
  from_contract (BroadcasterSnapshotChunk_new (cx_snapshot_id ctx) chunk_index [partition]).

Definition messages_chunk (chunk_index : usize) (messages : list BroadcasterProtocolMessage)
    (sync_statuses : statuses) : anyhow BroadcasterSnapshotChunk :=
  snapshot_chunk chunk_index
    (BroadcasterSnapshotPartition_with_messages (cx_backend ctx) (cx_block_number ctx)
       messages sync_statuses).

Definition states_chunk (chunk_index : usize) (states : list BroadcasterStateEntry)
    (sync_statuses : statuses) : anyhow BroadcasterSnapshotChunk :=
  snapshot_chunk chunk_index
    (BroadcasterSnapshotPartition_new (cx_backend ctx) (cx_block_number ctx)
       states sync_statuses).

Definition chunk_size (chunk : BroadcasterSnapshotChunk) : anyhow usize :=
  payload_size (cx_stream_id ctx) (SnapshotChunk chunk).

Definition chunk_fits (chunk : BroadcasterSnapshotChunk) : anyhow bool :=
  size ← chunk_size chunk; Ok (size <=? cx_max_payload_bytes ctx)%N.

Definition messages_size (chunk_index : usize) (messages : list BroadcasterProtocolMessage)
    (sync_statuses : statuses) : anyhow usize :=
  chunk ← messages_chunk chunk_index messages sync_statuses; chunk_size chunk.

Definition messages_fit (chunk_index : usize) (messages : list BroadcasterProtocolMessage)
    (sync_statuses : statuses) : anyhow bool :=
  size ← messages_size chunk_index messages sync_statuses;
  Ok (size <=? cx_max_payload_bytes ctx)%N.

Definition states_fit (chunk_index : usize) (states : list BroadcasterStateEntry)
    (sync_statuses : statuses) : anyhow bool :=
  chunk ← states_chunk chunk_index states sync_statuses; chunk_fits chunk.

Definition raw_fragment_size (message : BroadcasterProtocolMessage) (sync_statuses : statuses)
    (include_sync_statuses : bool) : anyhow usize :=
  messages_size WORST_CASE_SNAPSHOT_CHUNK_INDEX [message]
    (if include_sync_statuses then sync_statuses else ∅).

Definition raw_fragment_fits (message : BroadcasterProtocolMessage) (sync_statuses : statuses)
    (include_sync_statuses : bool) : anyhow bool :=
  size ← raw_fragment_size message sync_statuses include_sync_statuses;
  Ok (size <=? cx_max_payload_bytes ctx)%N.

(** ** Fragments of a message *)

(** [empty_protocol_fragment(message, false)]; no caller includes the tail. *)
Definition empty_protocol_fragment (message : BroadcasterProtocolMessage) :
    BroadcasterProtocolMessage :=
  {| pm_protocol := pm_protocol message; pm_sync_state := pm_sync_state message;
     pm_message :=
       to_message {| sy_header := ssm_header (pm_message message); sy_states := [];
                     sy_vm_storage := []; sy_deltas := None; sy_removed_components := [] |} |}.

Definition empty_block_changes_fragment (source : BlockChanges) : BlockChanges :=
  {| bc_extractor := bc_extractor source; bc_chain := bc_chain source;
     bc_block := bc_block source;
     bc_finalized_block_height := bc_finalized_block_height source;
     bc_revert := bc_revert source; bc_new_tokens := []; bc_account_updates := [];
     bc_state_updates := []; bc_new_protocol_components := [];
     bc_deleted_protocol_components := []; bc_component_balances := [];
     bc_account_balances := []; bc_component_tvl := []; bc_dci_update := dci_default;
     bc_partial_block_index := bc_partial_block_index source |}.

Definition insert_fragment_state (component_id : string) (state : ComponentWithState) :
    BroadcasterProtocolMessage → BroadcasterProtocolMessage :=
  pm_update (sy_set_states (hm_insert component_id state)).

(** [HashMap::from_iter]. *)
Definition hm_collect {V} (entries : list (string * V)) : hashmap V := hm_extend [] entries.

Definition vm_storage_account_fragment (message : BroadcasterProtocolMessage) (address : Bytes)
    (account : ResponseAccount) : BroadcasterProtocolMessage :=
  pm_update (sy_set_vm_storage (hm_insert address account)) (empty_protocol_fragment message).

Definition vm_storage_account_fragment_for_slot_range (message : BroadcasterProtocolMessage)
    (address : Bytes) (account : ResponseAccount) (slots : list (Bytes * Bytes)) :
    BroadcasterProtocolMessage :=
  vm_storage_account_fragment message address (set_account_slots (hm_collect slots) account).

Definition hex_json_string_size (bytes : Bytes) : usize :=
  saturating_add 4 (saturating_mul (str_len bytes) 2).

Definition estimated_slot_entry_size (entry : Bytes * Bytes) : usize :=
  saturating_add
    (saturating_add (saturating_add (hex_json_string_size entry.1) 1)
       (hex_json_string_size entry.2)) 1.

(** How many of the slots the estimate lets in. *)
Fixpoint estimated_slots (estimated_size : usize) (slots : list (Bytes * Bytes)) : nat :=
  match slots with
  | [] => 0
  | slot :: slots =>
      let next_size := saturating_add estimated_size (estimated_slot_entry_size slot) in
      if (cx_max_payload_bytes ctx <? next_size)%N then 0
      else S (estimated_slots next_size slots)
  end.

Section accounts.
Context (message : BroadcasterProtocolMessage) (sync_statuses : statuses).
Context (address : Bytes) (account : ResponseAccount).

Definition account_too_large (what : string) : string :=
  "broadcaster snapshot VM storage " +:+ what +:+ " for protocol " +:+ pm_protocol message
    +:+ " account " +:+ bytes_display address +:+ " exceeds "
    +:+ u64_to_string (cx_max_payload_bytes ctx) +:+ " bytes".

(** The largest fragment with at most [count] of the slots that fits. *)
Fixpoint shrink_to_fit (include_sync : bool) (slots : list (Bytes * Bytes)) (count : nat) :
    anyhow (nat * BroadcasterProtocolMessage) :=
  match count with
  | O => anyhow_bail (account_too_large "slot fragment")
  | S count' =>
      let fragment :=
        vm_storage_account_fragment_for_slot_range message address account
          (take (S count') slots) in
      fits ← raw_fragment_fits fragment sync_statuses include_sync;
      if (fits : bool) then Ok (S count', fragment)
      else shrink_to_fit include_sync slots count'
  end.

(** The [while] loop over the slots not yet taken; every turn takes at least one. *)
Fixpoint split_slots (fuel : nat) (include_sync : bool) (slots : list (Bytes * Bytes)) :
    anyhow (list BroadcasterProtocolMessage) :=
  match slots, fuel with
  | [], _ => Ok []
  | _, O => anyhow_bail "out of fuel"
  | _, S fuel =>
      metadata_size ←
        raw_fragment_size
          (vm_storage_account_fragment_for_slot_range message address account [])
          sync_statuses include_sync;
      if negb (metadata_size <? cx_max_payload_bytes ctx)%N then
        anyhow_bail (account_too_large "account metadata")
      else
        let count := estimated_slots metadata_size slots in
        if bool_decide (count = 0%nat) then anyhow_bail (account_too_large "slot fragment")
        else
          x ← shrink_to_fit include_sync slots count;
          fragments ← split_slots fuel false (drop x.1 slots);
          Ok (x.2 :: fragments)
  end.

Definition split_vm_storage_account_for_snapshot (include_sync_statuses : bool) :
    anyhow (list BroadcasterProtocolMessage) :=
  let slots := sort_by_key fst (account_slots account) in
  if bool_decide (slots = []) then
    let fragment := vm_storage_account_fragment_for_slot_range message address account [] in
    fits ← raw_fragment_fits fragment sync_statuses include_sync_statuses;
    if (fits : bool) then Ok [fragment]
    else anyhow_bail (account_too_large "account metadata")
  else split_slots (length slots) include_sync_statuses slots.
End accounts.

(** ** The tail of a message *)

Section tail.
Context (source_message : BroadcasterProtocolMessage) (sync_statuses : statuses).

Record ProtocolTailFragmentBuilder := {
  tb_fragments : list BroadcasterProtocolMessage;
  tb_current : BroadcasterProtocolMessage;
  tb_current_has_payload : bool;
  tb_include_sync_for_current : bool;
}.

Definition tail_builder_new (include_sync_statuses : bool) : ProtocolTailFragmentBuilder :=
  {| tb_fragments := []; tb_current := empty_protocol_fragment source_message;
     tb_current_has_payload := false; tb_include_sync_for_current := include_sync_statuses |}.

Definition ensure_current_fits (self : ProtocolTailFragmentBuilder) : anyhow unit :=
  fits ← raw_fragment_fits (tb_current self) sync_statuses (tb_include_sync_for_current self);
  if (fits : bool) then Ok tt
  else
    anyhow_bail ("broadcaster snapshot delta/removal fragment for protocol "
                   +:+ pm_protocol source_message +:+ " exceeds "
                   +:+ u64_to_string (cx_max_payload_bytes ctx) +:+ " bytes").

(** An empty fragment with the empty deltas of the source. *)
Definition fresh_tail_fragment : BroadcasterProtocolMessage :=
  match sy_deltas (pm_fields source_message) with
  | Some source =>
      pm_update (sy_set_deltas (λ _, Some (empty_block_changes_fragment source)))
        (empty_protocol_fragment source_message)
  | None => empty_protocol_fragment source_message
  end.

Definition append_named (kind key : string)
    (insert : BroadcasterProtocolMessage → BroadcasterProtocolMessage)
    (self : ProtocolTailFragmentBuilder) : anyhow ProtocolTailFragmentBuilder :=
  let candidate := insert (tb_current self) in
  fits ← raw_fragment_fits candidate sync_statuses (tb_include_sync_for_current self);
  if (fits : bool) then
    Ok {| tb_fragments := tb_fragments self; tb_current := candidate;
          tb_current_has_payload := true;
          tb_include_sync_for_current := tb_include_sync_for_current self |}
  else
    flushed ←
      (if tb_current_has_payload self then
         ensure_current_fits self ;;
         Ok (tb_fragments self ++ [tb_current self], false)
       else Ok (tb_fragments self, tb_include_sync_for_current self));
    let current := insert fresh_tail_fragment in
    fits ← raw_fragment_fits current sync_statuses flushed.2;
    if (fits : bool) then
      Ok {| tb_fragments := flushed.1; tb_current := current; tb_current_has_payload := true;
            tb_include_sync_for_current := flushed.2 |}
    else
      size ← raw_fragment_size current sync_statuses flushed.2;
      anyhow_bail ("broadcaster snapshot leaf for protocol " +:+ pm_protocol source_message
                     +:+ " kind " +:+ kind +:+ " key " +:+ key +:+ " is "
                     +:+ u64_to_string size +:+ " bytes, above configured max "
                     +:+ u64_to_string (cx_max_payload_bytes ctx)).

(** [deltas.get_or_insert_with(|| empty)], then an insertion. *)
Definition insert_delta (source : BlockChanges) (insert : BlockChanges → BlockChanges) :
    BroadcasterProtocolMessage → BroadcasterProtocolMessage :=
  pm_update (sy_set_deltas (λ deltas,
      Some (insert (default (empty_block_changes_fragment source) deltas)))).

(** The entries in key order. *)
Definition append_delta_entries {V} (source : BlockChanges) (kind : string)
    (key_label : string → string) (entries : hashmap V)
    (insert : string → V → BlockChanges → BlockChanges) (self : ProtocolTailFragmentBuilder) :
    anyhow ProtocolTailFragmentBuilder :=
  fold_result (λ self '(key, value),
      append_named kind (key_label key) (insert_delta source (insert key value)) self)
    self (sort_by_key fst entries).

Definition tail_finish (self : ProtocolTailFragmentBuilder) :
    anyhow (list BroadcasterProtocolMessage) :=
  if tb_current_has_payload self then
    ensure_current_fits self ;; Ok (tb_fragments self ++ [tb_current self])
  else Ok (tb_fragments self).
End tail.

Definition delta_sections (source : BlockChanges)
    (append : ∀ V, string → (string → string) → hashmap V →
       (string → V → BlockChanges → BlockChanges) →
       ProtocolTailFragmentBuilder → anyhow ProtocolTailFragmentBuilder)
    (self : ProtocolTailFragmentBuilder) : anyhow ProtocolTailFragmentBuilder :=
  let dci f := bc_set_dci_update f in
  self ← append _ "new_tokens" bytes_debug (bc_new_tokens source)
           (λ k v, bc_set_new_tokens (hm_insert k v)) self;
  self ← append _ "state_updates" str_debug (bc_state_updates source)
           (λ k v, bc_set_state_updates (hm_insert k v)) self;
  self ← append _ "account_updates" bytes_debug (bc_account_updates source)
           (λ k v, bc_set_account_updates (hm_insert k v)) self;
  self ← append _ "component_balances" str_debug (bc_component_balances source)
           (λ k v, bc_set_component_balances (hm_insert k v)) self;
  self ← append _ "account_balances" bytes_debug (bc_account_balances source)
           (λ k v, bc_set_account_balances (hm_insert k v)) self;
  self ← append _ "component_tvl" str_debug (bc_component_tvl source)
           (λ k v, bc_set_component_tvl (hm_insert k v)) self;
  self ← append _ "new_protocol_components" str_debug (bc_new_protocol_components source)
           (λ k v, bc_set_new_protocol_components (hm_insert k v)) self;
  self ← append _ "deleted_protocol_components" str_debug
           (bc_deleted_protocol_components source)
           (λ k v, bc_set_deleted_protocol_components (hm_insert k v)) self;
  self ← append _ "dci.new_entrypoints" str_debug
           (dci_new_entrypoints (bc_dci_update source))
           (λ k v, dci (dci_set_new_entrypoints (hm_insert k v))) self;
  self ← append _ "dci.new_entrypoint_params" str_debug
           (dci_new_entrypoint_params (bc_dci_update source))
           (λ k v, dci (dci_set_new_entrypoint_params (hm_insert k v))) self;
  append _ "dci.trace_results" str_debug (dci_trace_results (bc_dci_update source))
    (λ k v, dci (dci_set_trace_results (hm_insert k v))) self.

Definition split_protocol_tail_for_snapshot (message : BroadcasterProtocolMessage)
    (sync_statuses : statuses) (include_sync_statuses : bool) :
    anyhow (list BroadcasterProtocolMessage) :=
  let deltas := sy_deltas (pm_fields message) in
  let removed_components := sy_removed_components (pm_fields message) in
  if bool_decide (¬ is_Some deltas) && bool_decide (length removed_components = 0%nat)
  then Ok []
  else
    let builder := tail_builder_new message include_sync_statuses in
    builder ←
      match deltas with
      | Some source =>
          delta_sections source (λ V, append_delta_entries (V := V) message sync_statuses source)
            builder
      | None => Ok builder
      end;
    builder ←
      fold_result (λ builder '(component_id, component),
          append_named message sync_statuses "removed_components" component_id
            (pm_update (sy_set_removed_components (hm_insert component_id component))) builder)
        builder (sort_by_key fst removed_components);
    tail_finish message sync_statuses builder.

(** ** A whole message *)

(** The sizes the export logs, the largest being kept. *)
Definition log_protocol_snapshot_export (sync_statuses : statuses)
    (fragments : list BroadcasterProtocolMessage) : anyhow usize :=
  fold_result (λ largest '(index, fragment),
      size ← raw_fragment_size fragment sync_statuses (bool_decide (index = 0%nat));
      Ok (N.max largest size))
    0%N (imap pair fragments).

(** The fragments so far, the one being filled and whether it holds anything. *)
Record Splitting := {
  sl_fragments : list BroadcasterProtocolMessage;
  sl_current : BroadcasterProtocolMessage;
  sl_current_has_payload : bool;
}.

Definition no_fragments (fragments : list BroadcasterProtocolMessage) : bool :=
  bool_decide (length fragments = 0%nat).

Definition state_too_large (message : BroadcasterProtocolMessage) : string :=
  "broadcaster snapshot state fragment for protocol " +:+ pm_protocol message +:+ " exceeds "
    +:+ u64_to_string (cx_max_payload_bytes ctx) +:+ " bytes".

Definition split_state (message : BroadcasterProtocolMessage) (sync_statuses : statuses)
    (s : Splitting) (entry : string * ComponentWithState) : anyhow Splitting :=
  let '(component_id, state) := entry in
  let candidate := insert_fragment_state component_id state (sl_current s) in
  fits ← raw_fragment_fits candidate sync_statuses (no_fragments (sl_fragments s));
  if (fits : bool) then
    Ok {| sl_fragments := sl_fragments s; sl_current := candidate;
          sl_current_has_payload := true |}
  else if negb (sl_current_has_payload s) then anyhow_bail (state_too_large message)
  else
    let fragments := sl_fragments s ++ [sl_current s] in
    let current := insert_fragment_state component_id state (empty_protocol_fragment message) in
    fits ← raw_fragment_fits current sync_statuses (no_fragments fragments);
    if (fits : bool) then
      Ok {| sl_fragments := fragments; sl_current := current; sl_current_has_payload := true |}
    else anyhow_bail (state_too_large message).

Definition split_account (message : BroadcasterProtocolMessage) (sync_statuses : statuses)
    (s : Splitting) (entry : Bytes * ResponseAccount) : anyhow Splitting :=
  let '(address, account) := entry in
  let s :=
    if sl_current_has_payload s then
      {| sl_fragments := sl_fragments s ++ [sl_current s];
         sl_current := empty_protocol_fragment message; sl_current_has_payload := false |}
    else s in
  account_fragments ←
    split_vm_storage_account_for_snapshot message sync_statuses address account
      (no_fragments (sl_fragments s));
  Ok {| sl_fragments := sl_fragments s ++ account_fragments; sl_current := sl_current s;
        sl_current_has_payload := sl_current_has_payload s |}.

Definition split_protocol_message_for_snapshot (message : BroadcasterProtocolMessage)
    (sync_statuses : statuses) : anyhow (list BroadcasterProtocolMessage) :=
  let storage := vm_storage (pm_message message) in
  whole ←
    (if bool_decide (length storage = 0%nat)
     then messages_fit WORST_CASE_SNAPSHOT_CHUNK_INDEX [message] sync_statuses
     else Ok false);
  if (whole : bool) then
    log_protocol_snapshot_export sync_statuses [message] ;; Ok [message]
  else
    s ← fold_result (split_state message sync_statuses)
          {| sl_fragments := []; sl_current := empty_protocol_fragment message;
             sl_current_has_payload := false |}
          (sort_by_key fst (sy_states (pm_fields message)));
    s ← fold_result (split_account message sync_statuses) s (sort_by_key fst storage);
    let fragments :=
      if sl_current_has_payload s then sl_fragments s ++ [sl_current s] else sl_fragments s in
    tail_fragments ←
      split_protocol_tail_for_snapshot message sync_statuses (no_fragments fragments);
    let fragments := fragments ++ tail_fragments in
    log_protocol_snapshot_export sync_statuses fragments ;;
    Ok fragments.

(** ** Chunks *)

(** The chunks so far, the items of the next one and the statuses it will carry. *)
Record Packing (A : Type) := {
  pk_chunks : list BroadcasterSnapshotChunk;
  pk_items : list A;
  pk_sync_statuses : statuses;
}.

(** One turn of the loops that fill chunks: [fit] and [chunk] are those of messages or of
    states, and an item that does not fit with nothing before it is [too_large]. *)
Definition pack_item {A} (fit : usize → list A → statuses → anyhow bool)
    (chunk : usize → list A → statuses → anyhow BroadcasterSnapshotChunk)
    (too_large : A → string) (base_chunk_index : usize) (p : Packing A) (item : A) :
    anyhow (Packing A) :=
  let index := (base_chunk_index + len (pk_chunks _ p))%N in
  let candidate := pk_items _ p ++ [item] in
  fits ← fit index candidate (pk_sync_statuses _ p);
  if (fits : bool) then
    Ok {| pk_chunks := pk_chunks _ p; pk_items := candidate;
          pk_sync_statuses := pk_sync_statuses _ p |}
  else
    match pk_items _ p with
    | [] => anyhow_bail (too_large item)
    | items =>
        c ← chunk index items (pk_sync_statuses _ p);
        Ok {| pk_chunks := pk_chunks _ p ++ [c]; pk_items := [item]; pk_sync_statuses := ∅ |}
    end.

(** What is left becomes the last chunk. *)
Definition pack_rest {A} (chunk : usize → list A → statuses → anyhow BroadcasterSnapshotChunk)
    (base_chunk_index : usize) (p : Packing A) : anyhow (list BroadcasterSnapshotChunk) :=
  if negb (bool_decide (length (pk_items _ p) = 0%nat))
     || negb (bool_decide (pk_sync_statuses _ p = ∅)) then
    c ← chunk (base_chunk_index + len (pk_chunks _ p))%N (pk_items _ p) (pk_sync_statuses _ p);
    Ok (pk_chunks _ p ++ [c])
  else Ok (pk_chunks _ p).

Definition packing_start {A} (sync_statuses : statuses) : Packing A :=
  {| pk_chunks := []; pk_items := []; pk_sync_statuses := sync_statuses |}.

Definition message_too_large (fragment : BroadcasterProtocolMessage) : string :=
  "broadcaster snapshot message for protocol " +:+ pm_protocol fragment +:+ " exceeds "
    +:+ u64_to_string (cx_max_payload_bytes ctx) +:+ " bytes".
Definition entry_too_large (state : BroadcasterStateEntry) : string :=
  "broadcaster snapshot state " +:+ se_component_id state +:+ " exceeds "
    +:+ u64_to_string (cx_max_payload_bytes ctx) +:+ " bytes".

(** The fragments of a message are cut with the statuses still to be sent. *)
Definition pack_message (base_chunk_index : usize) (p : Packing BroadcasterProtocolMessage)
    (message : BroadcasterProtocolMessage) : anyhow (Packing BroadcasterProtocolMessage) :=
  fragments ← split_protocol_message_for_snapshot message (pk_sync_statuses _ p);
  fold_result (pack_item messages_fit messages_chunk message_too_large base_chunk_index)
    p fragments.

Definition build_partition_snapshot_chunks (partition : BroadcasterPartitionState)
    (base_chunk_index : usize) : anyhow (list BroadcasterSnapshotChunk) :=
  let start {A} : Packing A := packing_start (ps_sync_statuses partition) in
  match ps_messages partition with
  | [] =>
      p ← fold_result (pack_item states_fit states_chunk entry_too_large base_chunk_index)
            start (bt_values (ps_states partition));
      pack_rest states_chunk base_chunk_index p
  | messages =>
      p ← fold_result (pack_message base_chunk_index) start messages;
      pack_rest messages_chunk base_chunk_index p
  end.
End context.

Section snapshot.
Context (stream_id snapshot_id : string) (max_payload_bytes : usize).

Definition chunk_context (backend : BroadcasterBackend) (partition : BroadcasterPartitionState) :
    SnapshotChunkBuildContext :=
  {| cx_stream_id := stream_id; cx_snapshot_id := snapshot_id; cx_backend := backend;
     cx_block_number := default 0%N (ps_block partition);
     cx_max_payload_bytes := max_payload_bytes |}.

Definition build_snapshot_chunks (configured_backends : list BroadcasterBackend)
    (partitions : btree BroadcasterBackend BroadcasterPartitionState) :
    anyhow (list BroadcasterSnapshotChunk) :=
  fold_result (λ chunks backend,
      match partitions !! backend with
      | None => Ok chunks
      | Some partition =>
          more ← build_partition_snapshot_chunks (chunk_context backend partition) partition
                   (len chunks);
          Ok (chunks ++ more)
      end)
    [] configured_backends.
End snapshot.

(** ** Exports *)

Record BroadcasterSnapshotExport := {
  xp_stream_id : string;
  xp_snapshot_id : string;
  xp_max_payload_bytes : usize;
  xp_payloads : list BroadcasterPayload;
}.

Record BroadcasterSnapshotSource := {
  src_stream_id : string;
  src_snapshot_id : string;
  src_partitions : btree BroadcasterBackend BroadcasterPartitionState;
}.

Record BroadcasterRecoverySource := {
  rsrc_recovery_id : u64;
  rsrc_partitions : btree BroadcasterBackend BroadcasterPartitionState;
}.

(** [n as u32]. *)
Definition as_u32 (n : usize) : u32 := (n mod (u32_max + 1))%N.

(** The payloads of a snapshot around its chunks. *)
Definition snapshot_payloads (snapshot_id : string) (chain_id : u64)
    (backends : list BroadcasterBackend) (total_chunks : u32)
    (chunks : list BroadcasterSnapshotChunk) : anyhow (list BroadcasterPayload) :=
  start ← from_contract (BroadcasterSnapshotStart_new snapshot_id chain_id backends total_chunks);
  Ok (SnapshotStart start :: map SnapshotChunk chunks
        ++ [SnapshotEnd {| sn_snapshot_id := snapshot_id |}]).

Section cache.
Context (chain_id : u64) (configured_backends : list BroadcasterBackend).

Definition export_snapshot_source (source : BroadcasterSnapshotSource)
    (max_payload_bytes : usize) : anyhow BroadcasterSnapshotExport :=
  let snapshot_id := src_snapshot_id source in
  let stream_id := src_stream_id source in
  chunks ← build_snapshot_chunks stream_id snapshot_id max_payload_bytes configured_backends
             (src_partitions source);
  payloads ← snapshot_payloads snapshot_id chain_id configured_backends (as_u32 (len chunks)) chunks;
  for_each (λ '(index, payload),
      with_context ("snapshot payload " +:+ u64_to_string (N.of_nat index) +:+ " exceeds byte cap")
        (ensure_payload_fits stream_id (N.of_nat index + 1) payload max_payload_bytes))
    (imap pair payloads) ;;
  Ok {| xp_stream_id := stream_id; xp_snapshot_id := snapshot_id;
        xp_max_payload_bytes := max_payload_bytes; xp_payloads := payloads |}.

(** The replacement of a recovery, as the JSON of its envelopes. *)
Definition serialize_recovery_source (source : BroadcasterRecoverySource)
    (max_payload_bytes : usize) : anyhow string :=
  let prefix := "chain-" +:+ u64_to_string chain_id in
  let id := u64_to_string (rsrc_recovery_id source) in
  let stream_id := prefix +:+ "-recovery-" +:+ id in
  let snapshot_id := prefix +:+ "-recovery-snapshot-" +:+ id in
  chunks ← build_snapshot_chunks stream_id snapshot_id max_payload_bytes configured_backends
             (rsrc_partitions source);
  total_chunks ← u32_of_usize (len chunks);
  payloads ← snapshot_payloads snapshot_id chain_id configured_backends total_chunks chunks;
  let envelopes :=
    imap (λ index payload,
        {| env_stream_id := stream_id;
           env_message_seq := saturating_add (N.min (N.of_nat index) u64_max) 1;
           env_payload := payload |}) payloads in
  with_context "failed to serialize broadcaster recovery replacement"
    (map_err anyhow_error (json_of_envelopes envelopes)).
End cache.

(** ** Combining exports *)

Definition mismatch (what expected found : string) : string :=
  what +:+ " mismatch: expected " +:+ expected +:+ ", found " +:+ found.

Definition ensure_same (what expected found : string) : anyhow unit :=
  ensure (String.eqb found expected) (anyhow_error (mismatch what expected found)).

Definition ensure_same_number (what : string) (expected found : N) : anyhow unit :=
  ensure (found =? expected)%N
    (anyhow_error (mismatch what (u64_to_string expected) (u64_to_string found))).

Definition collect_payload (chain_id : u64) (snapshot_id : string)
    (parts : list BroadcasterBackend * list BroadcasterSnapshotChunk)
    (payload : BroadcasterPayload) :
    anyhow (list BroadcasterBackend * list BroadcasterSnapshotChunk) :=
  let '(backends, chunks) := parts in
  match payload with
  | SnapshotStart start =>
      ensure_same "snapshot_start id" snapshot_id (ss_snapshot_id start) ;;
      ensure_same_number "snapshot_start chain_id" chain_id (ss_chain_id start) ;;
      Ok (backends ++ ss_backends start, chunks)
  | SnapshotChunk chunk =>
      ensure_same "snapshot_chunk id" snapshot_id (sc_snapshot_id chunk) ;;
      Ok (backends, chunks ++ [chunk])
  | SnapshotEnd end_ =>
      ensure_same "snapshot_end id" snapshot_id (sn_snapshot_id end_) ;;
      Ok (backends, chunks)
  | _ =>
      anyhow_bail ("snapshot export contains non-snapshot payload "
                     +:+ BroadcasterMessageKind_as_str (BroadcasterPayload_kind payload))
  end.

Definition collect_snapshot_export_parts (chain_id : u64) (stream_id snapshot_id : string)
    (max_payload_bytes : usize)
    (parts : list BroadcasterBackend * list BroadcasterSnapshotChunk)
    (export : BroadcasterSnapshotExport) :
    anyhow (list BroadcasterBackend * list BroadcasterSnapshotChunk) :=
  ensure_same "snapshot export stream_id" stream_id (xp_stream_id export) ;;
  ensure_same "snapshot export snapshot_id" snapshot_id (xp_snapshot_id export) ;;
  ensure_same_number "snapshot export max_payload_bytes" max_payload_bytes
    (xp_max_payload_bytes export) ;;
  fold_result (collect_payload chain_id snapshot_id) parts (xp_payloads export).

(** [backends.sort(); backends.dedup()]. *)
Definition sorted_backends (backends : list BroadcasterBackend) : list BroadcasterBackend :=
  foldr backends_dedup_step [] (sort backends).

Definition combine_snapshot_exports (chain_id : u64) (exports : list BroadcasterSnapshotExport) :
    anyhow BroadcasterSnapshotExport :=
  match exports with
  | [] => anyhow_bail "cannot combine empty broadcaster snapshot export set"
  | first :: _ =>
      let stream_id := xp_stream_id first in
      let snapshot_id := xp_snapshot_id first in
      let max_payload_bytes := xp_max_payload_bytes first in
      parts ← fold_result
                (collect_snapshot_export_parts chain_id stream_id snapshot_id max_payload_bytes)
                ([], []) exports;
      let '(backends, chunks) := parts in
      start ← from_contract (BroadcasterSnapshotStart_new snapshot_id chain_id
                (sorted_backends backends) (as_u32 (len chunks)));
      renumbered ←
        mapM (λ '(index, chunk),
            from_contract (BroadcasterSnapshotChunk_new snapshot_id (as_u32 (N.of_nat index))
                             (sc_partitions chunk)))
          (imap pair chunks);
      Ok {| xp_stream_id := stream_id; xp_snapshot_id := snapshot_id;
            xp_max_payload_bytes := max_payload_bytes;
            xp_payloads :=
              SnapshotStart start :: map SnapshotChunk renumbered
                ++ [SnapshotEnd {| sn_snapshot_id := snapshot_id |}] |}
  end.
End export.
