(* ===== verification/ExportSplit.v ===== *)
(** * Cutting a message into fragments

    The fragments a message is cut into for a snapshot hold its entries, each once, within
    the byte limit; its accounts come back from the merge the consumer runs on them.  Every
    fragment keeps the protocol, the header and the synchronizer state of its message, and
    accounts are cut by ranges of their slots. *)

From S2P Require Import Prelude Ordered Text Protocol Wire Validate TychoFeed Codec.
From S2P Require Import RedisEntry Replay Recovery Store StorePools Reassembly RawMessage.
From S2P Require Import SnapshotExport.

(** ** Hash maps as lists *)

Lemma filter_fresh {V} k (m : hashmap V) : k ∉ m.*1 → filter (λ kv, kv.1 ≠ k) m = m.
Proof.
  induction m as [|[k' v] m IH]; [done|]. csimpl. intros Hk.
  rewrite filter_cons_True; [|simpl; set_solver]. f_equal. apply IH. set_solver.
Qed.

Lemma hm_insert_fresh {V} k (v : V) m : k ∉ m.*1 → hm_insert k v m = (k, v) :: m.
Proof. intros Hk. unfold hm_insert. by rewrite filter_fresh. Qed.

Lemma hm_extend_perm {V} (l m : hashmap V) : NoDup (l.*1 ++ m.*1) → hm_extend m l ≡ₚ l ++ m.
Proof.
  unfold hm_extend. revert m. induction l as [|[k v] l IH]; intros m; csimpl; [done|].
  intros [Hk Hnd]%NoDup_cons. rewrite hm_insert_fresh by set_solver.
  rewrite IH; [symmetry; apply Permutation_middle|]. csimpl.
  rewrite <- Permutation_middle. constructor; [set_solver|done].
Qed.

Lemma hm_collect_perm {V} (l : hashmap V) : NoDup l.*1 → hm_collect l ≡ₚ l.
Proof.
  intros Hnd. unfold hm_collect. rewrite hm_extend_perm; [by rewrite app_nil_r|].
  by csimpl; rewrite app_nil_r.
Qed.

(** ** Leaves *)

Section parts.
Context `{SyncFields} `{!SyncFieldsLaws} `{!SerdeJson} `{!ListJson}.

(** An entry of one of the maps of a message, the accounts apart. *)
Inductive Leaf :=
| StateLeaf (k : string) (v : ComponentWithState)
| NewTokenLeaf (k : string) (v : NewToken)
| StateUpdateLeaf (k : string) (v : ProtocolStateDelta)
| AccountUpdateLeaf (k : string) (v : AccountUpdate)
| ComponentBalancesLeaf (k : string) (v : hashmap ComponentBalance)
| AccountBalancesLeaf (k : string) (v : hashmap AccountBalance)
| ComponentTvlLeaf (k : string) (v : ComponentTvl)
| NewComponentLeaf (k : string) (v : DtoComponent)
| DeletedComponentLeaf (k : string) (v : DtoComponent)
| EntrypointsLeaf (k : string) (v : EntryPoints)
| EntrypointParamsLeaf (k : string) (v : EntryPoints)
| TraceResultLeaf (k : string) (v : TraceResult)
| RemovedLeaf (k : string) (v : DtoComponent).

Definition leaves {V} (leaf : string → V → Leaf) (m : hashmap V) : list Leaf :=
  map (λ '(k, v), leaf k v) m.

#[export] Instance leaves_perm {V} (leaf : string → V → Leaf) :
  Proper ((≡ₚ) ==> (≡ₚ)) (leaves leaf).
Proof. intros m m' Hm. unfold leaves. change (map ?f ?l) with (f <$> l). by rewrite Hm. Qed.

Definition delta_leaves (d : BlockChanges) : list Leaf :=
  leaves NewTokenLeaf (bc_new_tokens d) ++ leaves StateUpdateLeaf (bc_state_updates d) ++
  leaves AccountUpdateLeaf (bc_account_updates d) ++
  leaves ComponentBalancesLeaf (bc_component_balances d) ++
  leaves AccountBalancesLeaf (bc_account_balances d) ++
  leaves ComponentTvlLeaf (bc_component_tvl d) ++
  leaves NewComponentLeaf (bc_new_protocol_components d) ++
  leaves DeletedComponentLeaf (bc_deleted_protocol_components d) ++
  leaves EntrypointsLeaf (dci_new_entrypoints (bc_dci_update d)) ++
  leaves EntrypointParamsLeaf (dci_new_entrypoint_params (bc_dci_update d)) ++
  leaves TraceResultLeaf (dci_trace_results (bc_dci_update d)).

Definition tail_leaves (m : SyncMessage) : list Leaf :=
  match sy_deltas m with Some d => delta_leaves d | None => [] end ++
  leaves RemovedLeaf (sy_removed_components m).

Definition message_leaves (m : SyncMessage) : list Leaf :=
  leaves StateLeaf (sy_states m) ++ tail_leaves m.

(** The place of a leaf: its map and its key. *)
Definition leaf_key (l : Leaf) : N * string :=
  match l with
  | StateLeaf k _ => (0%N, k) | NewTokenLeaf k _ => (1%N, k) | StateUpdateLeaf k _ => (2%N, k)
  | AccountUpdateLeaf k _ => (3%N, k) | ComponentBalancesLeaf k _ => (4%N, k)
  | AccountBalancesLeaf k _ => (5%N, k) | ComponentTvlLeaf k _ => (6%N, k)
  | NewComponentLeaf k _ => (7%N, k) | DeletedComponentLeaf k _ => (8%N, k)
  | EntrypointsLeaf k _ => (9%N, k) | EntrypointParamsLeaf k _ => (10%N, k)
  | TraceResultLeaf k _ => (11%N, k) | RemovedLeaf k _ => (12%N, k)
  end.

Definition insert_dci_leaf (l : Leaf) (d : BlockChanges) : BlockChanges :=
  match l with
  | NewTokenLeaf k v => bc_set_new_tokens (hm_insert k v) d
  | StateUpdateLeaf k v => bc_set_state_updates (hm_insert k v) d
  | AccountUpdateLeaf k v => bc_set_account_updates (hm_insert k v) d
  | ComponentBalancesLeaf k v => bc_set_component_balances (hm_insert k v) d
  | AccountBalancesLeaf k v => bc_set_account_balances (hm_insert k v) d
  | ComponentTvlLeaf k v => bc_set_component_tvl (hm_insert k v) d
  | NewComponentLeaf k v => bc_set_new_protocol_components (hm_insert k v) d
  | DeletedComponentLeaf k v => bc_set_deleted_protocol_components (hm_insert k v) d
  | EntrypointsLeaf k v => bc_set_dci_update (dci_set_new_entrypoints (hm_insert k v)) d
  | EntrypointParamsLeaf k v =>
      bc_set_dci_update (dci_set_new_entrypoint_params (hm_insert k v)) d
  | TraceResultLeaf k v => bc_set_dci_update (dci_set_trace_results (hm_insert k v)) d
  | StateLeaf _ _ | RemovedLeaf _ _ => d
  end.

(** How a leaf enters a fragment, [source] being the deltas of the message. *)
Definition insert_leaf (source : option BlockChanges) (l : Leaf) : SyncMessage → SyncMessage :=
  match l with
  | StateLeaf k v => sy_set_states (hm_insert k v)
  | RemovedLeaf k v => sy_set_removed_components (hm_insert k v)
  | l => sy_set_deltas (λ deltas,
      match source with
      | Some source =>
          Some (insert_dci_leaf l (default (empty_block_changes_fragment source) deltas))
      | None => deltas
      end)
  end.

(** A delta leaf needs deltas to come from. *)
Definition leaf_ok (source : option BlockChanges) (l : Leaf) : Prop :=
  match l with StateLeaf _ _ | RemovedLeaf _ _ => True | _ => is_Some source end.

Arguments leaves : simpl never.
Arguments hm_insert : simpl never.

Lemma leaves_insert {V} (leaf : string → V → Leaf) k v (m : hashmap V) :
  k ∉ m.*1 → leaves leaf (hm_insert k v m) = leaf k v :: leaves leaf m.
Proof. intros Hk. by rewrite hm_insert_fresh. Qed.

Lemma leaves_fresh {V} (leaf : string → V → Leaf) n k v (m : hashmap V) :
  (∀ k v, leaf_key (leaf k v) = (n, k)) →
  leaf_key (leaf k v) ∉ map leaf_key (leaves leaf m) → k ∉ m.*1.
Proof.
  intros Hn Hk Hin. apply Hk. rewrite Hn. unfold leaves. rewrite map_map.
  apply list_elem_of_fmap in Hin as ([k' v'] & -> & Hin). apply list_elem_of_fmap.
  exists (k', v'). by rewrite Hn.
Qed.

(** The leaf that enters the map of rank [n] moves to the front. *)
Ltac insert_at n F :=
  rewrite leaves_insert by (by eapply (leaves_fresh _ n); [|exact F]);
  repeat first [progress cbn [app] | rewrite <- Permutation_middle].

Lemma insert_leaf_leaves source l m :
  leaf_ok source l → leaf_key l ∉ map leaf_key (message_leaves m) →
  message_leaves (insert_leaf source l m) ≡ₚ l :: message_leaves m.
Proof.
  intros Hok Hk. unfold message_leaves, tail_leaves in *.
  rewrite !map_app in Hk. unfold delta_leaves in *. rewrite !not_elem_of_app in Hk.
  destruct Hk as (Hk0 & Hd & Hk12).
  destruct l as [k v|k v|k v|k v|k v|k v|k v|k v|k v|k v|k v|k v|k v]; cbn [leaf_ok] in Hok.
  1: { cbn. by rewrite leaves_insert by (by eapply (leaves_fresh _ 0%N); [|exact Hk0]). }
  12: { cbn. by insert_at 12%N Hk12. }
  all: destruct Hok as [src ->]; cbn; destruct (sy_deltas m) as [d|]; cbn;
    [rewrite !map_app, !not_elem_of_app in Hd;
     destruct Hd as (F1 & F2 & F3 & F4 & F5 & F6 & F7 & F8 & F9 & F10 & F11)
    |rewrite leaves_insert by apply not_elem_of_nil; unfold leaves; cbn [map app];
     by repeat first [progress cbn [app] | rewrite <- Permutation_middle]].
  - by insert_at 1%N F1.
  - by insert_at 2%N F2.
  - by insert_at 3%N F3.
  - by insert_at 4%N F4.
  - by insert_at 5%N F5.
  - by insert_at 6%N F6.
  - by insert_at 7%N F7.
  - by insert_at 8%N F8.
  - by insert_at 9%N F9.
  - by insert_at 10%N F10.
  - by insert_at 11%N F11.
Qed.
End parts.

Section split.
Context `{SyncFields} `{!SyncFieldsLaws} `{!SerdeJson} `{!ListJson}.
Context (ctx : SnapshotChunkBuildContext).
Context (message : BroadcasterProtocolMessage).
Context (sync_statuses : btree string BroadcasterProtocolSyncStatus).

Abbreviation source := (sy_deltas (pm_fields message)).
Abbreviation blank := (empty_protocol_fragment message).

(** ** Fragments *)

(** What a block's changes have beside their maps. *)
Definition block_frame (d : BlockChanges) :=
  (bc_extractor d, bc_chain d, bc_block d, bc_finalized_block_height d, bc_revert d,
   bc_partial_block_index d).

Record fragment_of (f : BroadcasterProtocolMessage) : Prop := {
  fo_protocol : pm_protocol f = pm_protocol message;
  fo_sync_state : pm_sync_state f = pm_sync_state message;
  fo_header : sy_header (pm_fields f) = ssm_header (pm_message message);
  fo_deltas d : sy_deltas (pm_fields f) = Some d →
    ∃ d0, source = Some d0 ∧ block_frame d = block_frame d0;
}.

Definition fits_at (n : nat) (f : BroadcasterProtocolMessage) : Prop :=
  raw_fragment_fits ctx f sync_statuses (bool_decide (n = 0%nat)) = Ok true.

Abbreviation leaves_of f := (message_leaves (pm_fields f)).
Abbreviation storage_of f := (sy_vm_storage (pm_fields f)).

Lemma blank_fields :
  pm_fields blank = {| sy_header := ssm_header (pm_message message); sy_states := [];
                       sy_vm_storage := []; sy_deltas := None; sy_removed_components := [] |}.
Proof. apply of_to_message. Qed.

Lemma blank_fragment_of : fragment_of blank.
Proof. split; rewrite ?blank_fields; by simplify_eq/=. Qed.

Lemma fragment_of_update g f :
  fragment_of f → sy_header (g (pm_fields f)) = sy_header (pm_fields f) →
  (∀ d, sy_deltas (g (pm_fields f)) = Some d →
     ∃ d0, source = Some d0 ∧ block_frame d = block_frame d0) →
  fragment_of (pm_update g f).
Proof. intros [Hp Hs Hh Hd] Hg Hgd. split; rewrite ?pm_fields_update, ?Hg; done. Qed.

Lemma insert_dci_leaf_frame l d : block_frame (insert_dci_leaf l d) = block_frame d.
Proof. by destruct l. Qed.

Lemma insert_leaf_fragment_of l f :
  leaf_ok source l → fragment_of f → fragment_of (pm_update (insert_leaf source l) f).
Proof.
  intros Hok Hf. pose proof (fo_deltas _ Hf) as Hd.
  apply fragment_of_update; [done|by destruct l|].
  assert ((∃ k v, l = StateLeaf k v) ∨ (∃ k v, l = RemovedLeaf k v) ∨
    ∃ src, source = Some src ∧ sy_deltas (insert_leaf source l (pm_fields f)) =
      Some (insert_dci_leaf l (default (empty_block_changes_fragment src)
        (sy_deltas (pm_fields f))))) as [(k & v & ->)|[(k & v & ->)|(src & Hsrc & ->)]];
    [|done|done|].
  { destruct l; eauto; destruct Hok as [src Hsrc]; rewrite Hsrc; eauto. }
  intros d [= <-]. rewrite insert_dci_leaf_frame.
  destruct (sy_deltas (pm_fields f)) as [d|]; [by apply Hd|by exists src].
Qed.

Lemma insert_leaf_storage l f : storage_of (pm_update (insert_leaf source l) f) = storage_of f.
Proof. rewrite pm_fields_update. by destruct l. Qed.

(** ** Fragments being filled *)

(** Finished fragments from position [n] on that hold the leaves [ls] and no account. *)
Record filled (n : nat) (fs : list BroadcasterProtocolMessage) (ls : list Leaf) : Prop := {
  fi_fragments : Forall fragment_of fs;
  fi_storage : Forall (λ f, storage_of f = []) fs;
  fi_fits i f : fs !! i = Some f → fits_at (n + i) f;
  fi_leaves : fs ≫= (λ f, leaves_of f) ≡ₚ ls;
}.

Record holds (f : BroadcasterProtocolMessage) (ls : list Leaf) : Prop := {
  ho_fragment : fragment_of f;
  ho_storage : storage_of f = [];
  ho_leaves : leaves_of f ≡ₚ ls;
}.

(** Fragments being cut at position [n], the leaves [ls] having been taken. *)
Definition filling (n : nat) (fs : list BroadcasterProtocolMessage)
    (current : BroadcasterProtocolMessage) (has_payload : bool) (ls : list Leaf) : Prop :=
  if has_payload then
    ∃ ls1 ls2, ls = ls1 ++ ls2 ∧ filled n fs ls1 ∧ holds current ls2 ∧
      fits_at (n + length fs) current
  else fs = [] ∧ ls = [] ∧ current = blank.

Lemma filled_nil n : filled n [] [].
Proof. split; by simpl; try constructor. Qed.

Lemma filled_snoc n fs f ls1 ls2 :
  filled n fs ls1 → holds f ls2 → fits_at (n + length fs) f → filled n (fs ++ [f]) (ls1 ++ ls2).
Proof.
  intros [Ff Fs Fx Fl] [Gf Gs Gl] Hfit. split.
  - by apply Forall_app; split; [|constructor].
  - by apply Forall_app; split; [|constructor].
  - intros i g [Hi|[Hi Hg]]%lookup_app_Some; [by apply Fx|].
    apply list_lookup_singleton_Some in Hg as [Hi0 <-].
    by replace (n + i)%nat with (n + length fs)%nat by lia.
  - rewrite bind_app. simpl. rewrite app_nil_r. by rewrite Fl, Gl.
Qed.

Lemma blank_holds : holds blank [].
Proof. split; [apply blank_fragment_of| |]; by rewrite blank_fields. Qed.

Lemma holds_insert l f ls :
  leaf_ok source l → leaf_key l ∉ map leaf_key ls → holds f ls →
  holds (pm_update (insert_leaf source l) f) (ls ++ [l]).
Proof.
  intros Hok Hk [Ff Fs Fl]. split; [by apply insert_leaf_fragment_of|by rewrite insert_leaf_storage|].
  rewrite pm_fields_update, insert_leaf_leaves; [|done|].
  - rewrite Fl. apply Permutation_cons_append.
  - change (leaf_key l ∉ leaf_key <$> leaves_of f). by rewrite Fl.
Qed.

Lemma filling_finish n fs current has ls :
  filling n fs current has ls → filled n (if has then fs ++ [current] else fs) ls.
Proof.
  destruct has; [intros (? & ? & -> & ? & ? & ?)|intros (-> & -> & _)];
    [by apply filled_snoc|apply filled_nil].
Qed.

Lemma filling_extend n fs current has ls l :
  filling n fs current has ls → leaf_ok source l → leaf_key l ∉ map leaf_key ls →
  fits_at (n + length fs) (pm_update (insert_leaf source l) current) →
  filling n fs (pm_update (insert_leaf source l) current) true (ls ++ [l]).
Proof.
  intros Hf Hok Hk Hfit. destruct has; cbn in Hf |- *.
  - destruct Hf as (ls1 & ls2 & -> & Hfs & Hc & _). rewrite map_app, not_elem_of_app in Hk.
    exists ls1, (ls2 ++ [l]). rewrite app_assoc. split_and!; [done|done| |done].
    apply holds_insert; [done|apply Hk|done].
  - destruct Hf as (-> & -> & ->). exists [], [l]. split_and!; [done|apply filled_nil| |done].
    apply (holds_insert l _ []); [done|done|apply blank_holds].
Qed.

(** A fragment started anew, after the current one has been put away. *)
Lemma filling_restart n fs current has ls l start :
  filling n fs current has ls → leaf_ok source l → holds start [] →
  fits_at (n + length (if has then fs ++ [current] else fs))
    (pm_update (insert_leaf source l) start) →
  filling n (if has then fs ++ [current] else fs) (pm_update (insert_leaf source l) start) true
    (ls ++ [l]).
Proof.
  intros Hf Hok Hs Hfit. exists ls, [l].
  split_and!; [done|by eapply filling_finish| |done].
  by apply (holds_insert l _ []); [|apply not_elem_of_nil|].
Qed.

(** ** States *)

Definition splitting_inv (ls : list Leaf) (s : Splitting) : Prop :=
  filling 0 (sl_fragments s) (sl_current s) (sl_current_has_payload s) ls.

Lemma no_fragments_fits fs f :
  raw_fragment_fits ctx f sync_statuses (no_fragments fs) = Ok true ↔ fits_at (0 + length fs) f.
Proof. done. Qed.

Lemma split_state_inv ls s k v s' :
  splitting_inv ls s → leaf_key (StateLeaf k v) ∉ map leaf_key ls →
  split_state ctx message sync_statuses s (k, v) = Ok s' →
  splitting_inv (ls ++ [StateLeaf k v]) s'.
Proof.
  intros Hs Hk. unfold split_state. set (l := StateLeaf k v) in *.
  change (insert_fragment_state k v) with (pm_update (insert_leaf source l)).
  intros ([] & Hfit & Hr)%bind_ok.
  { injection Hr as <-. by eapply filling_extend. }
  destruct (sl_current_has_payload s) eqn:Hp; [|done]. cbn [negb] in Hr.
  apply bind_ok in Hr as ([] & Hfit' & Hr); [|done]. injection Hr as <-.
  unfold splitting_inv in *. rewrite Hp in Hs. cbn.
  apply (filling_restart 0 _ _ true); [done|done|apply blank_holds|done].
Qed.

Lemma NoDup_keys_app {V} (leaf : string → V → Leaf) n ls (m : hashmap V) :
  (∀ k v, leaf_key (leaf k v) = (n, k)) → NoDup (map leaf_key (ls ++ leaves leaf m)) →
  ∀ m1 k v m2, m = m1 ++ (k, v) :: m2 →
    leaf_key (leaf k v) ∉ map leaf_key (ls ++ leaves leaf m1).
Proof.
  intros Hn Hnd m1 k v m2 ->.
  assert (ls ++ leaves leaf (m1 ++ (k, v) :: m2) =
    (ls ++ leaves leaf m1) ++ leaf k v :: leaves leaf m2) as Heq.
  { unfold leaves. by rewrite map_app, <- app_assoc. }
  rewrite Heq, map_app in Hnd. apply NoDup_app in Hnd as (_ & Hd & _).
  intros Hin. apply (Hd _ Hin), elem_of_cons. by left.
Qed.

Lemma leaves_snoc {V} (leaf : string → V → Leaf) m k v :
  leaves leaf (m ++ [(k, v)]) = leaves leaf m ++ [leaf k v].
Proof. unfold leaves. by rewrite map_app. Qed.

(** A loop that takes the entries of a map one by one takes all of them. *)
Lemma take_leaves {V S} (leaf : string → V → Leaf) n (P : list Leaf → S → Prop)
    (f : S → string * V → anyhow S) ls m s s' :
  (∀ k v, leaf_key (leaf k v) = (n, k)) →
  (∀ ls s k v s', P ls s → leaf_key (leaf k v) ∉ map leaf_key ls → f s (k, v) = Ok s' →
     P (ls ++ [leaf k v]) s') →
  NoDup (map leaf_key (ls ++ leaves leaf m)) → P ls s → fold_result f s m = Ok s' →
  P (ls ++ leaves leaf m) s'.
Proof.
  intros Hn Hstep Hnd Hs Hf.
  apply (fold_result_inv f (λ m1 s, P (ls ++ leaves leaf m1) s) m s s' Hf);
    [by cbn; rewrite app_nil_r|].
  intros m1 [k v] s1 s2 [m2 Hm] Hs1 Hf1. rewrite leaves_snoc, app_assoc.
  apply (Hstep _ _ _ _ _ Hs1); [|done]. by eapply NoDup_keys_app.
Qed.
(** ** Parts of a message *)

(** The fragments from position [n] on hold the leaves [ls] and the accounts [ps]. *)
Record cut (n : nat) (fs : list BroadcasterProtocolMessage) (ls : list Leaf)
    (ps : hashmap ResponseAccount) : Prop := {
  cut_fragments : Forall fragment_of fs;
  cut_fits i f : fs !! i = Some f → fits_at (n + i) f;
  cut_leaves : fs ≫= (λ f, leaves_of f) ≡ₚ ls;
  cut_storage : fs ≫= (λ f, storage_of f) = ps;
  cut_single : Forall (λ f, length (storage_of f) ≤ 1)%nat fs;
}.

Lemma filled_cut n fs ls : filled n fs ls → cut n fs ls [].
Proof.
  intros [Ff Fs Fx Fl]. split; [done|done|done| |].
  - clear -Fs. induction Fs as [|f fs Hf _ IH]; [done|]. csimpl. by rewrite Hf.
  - eapply Forall_impl; [exact Fs|]. cbn. intros f ->. cbn. lia.
Qed.

Lemma cut_app n fs1 fs2 ls1 ls2 ps1 ps2 :
  cut n fs1 ls1 ps1 → cut (n + length fs1) fs2 ls2 ps2 →
  cut n (fs1 ++ fs2) (ls1 ++ ls2) (ps1 ++ ps2).
Proof.
  intros [Ff Fx Fl Fs F1] [Gf Gx Gl Gs G1]. split.
  - by apply Forall_app.
  - intros i f [Hi|[Hi Hf]]%lookup_app_Some; [by apply Fx|].
    replace (n + i)%nat with (n + length fs1 + (i - length fs1))%nat by lia. by apply Gx.
  - rewrite bind_app. by rewrite Fl, Gl.
  - rewrite bind_app. by rewrite Fs, Gs.
  - by apply Forall_app.
Qed.

(** ** Accounts *)

Context `{!AccountLaws}.

Abbreviation range_fragment := (vm_storage_account_fragment_for_slot_range message).

Lemma range_fragment_fields address account slots :
  pm_fields (range_fragment address account slots) =
    {| sy_header := ssm_header (pm_message message); sy_states := [];
       sy_vm_storage := [(address, set_account_slots (hm_collect slots) account)];
       sy_deltas := None; sy_removed_components := [] |}.
Proof.
  unfold vm_storage_account_fragment_for_slot_range, vm_storage_account_fragment.
  by rewrite pm_fields_update, blank_fields.
Qed.

Lemma range_fragment_of address account slots :
  fragment_of (range_fragment address account slots).
Proof. split; rewrite ?range_fragment_fields; by simplify_eq/=. Qed.

Lemma range_fragment_cut n address account slots :
  fits_at n (range_fragment address account slots) →
  cut n [range_fragment address account slots] []
    [(address, set_account_slots (hm_collect slots) account)].
Proof.
  intros Hfit. split.
  - constructor; [apply range_fragment_of|done].
  - intros i f [-> <-]%list_lookup_singleton_Some. by rewrite Nat.add_0_r.
  - cbn. by rewrite range_fragment_fields.
  - cbn. by rewrite range_fragment_fields.
  - constructor; [|done]. by rewrite range_fragment_fields.
Qed.

Lemma shrink_to_fit_ok address account include slots count c f :
  shrink_to_fit ctx message sync_statuses address account include slots count = Ok (c, f) →
  (0 < c ≤ count)%nat ∧ f = range_fragment address account (take c slots) ∧
  raw_fragment_fits ctx f sync_statuses include = Ok true.
Proof.
  induction count as [|count IH]; [done|]. cbn [shrink_to_fit].
  intros ([] & Hfit & Hr)%bind_ok; [|naive_solver lia].
  injection Hr as <- <-. split_and!; [lia..|done|done].
Qed.

Lemma split_slots_cut address account fuel n include slots fs :
  include = bool_decide (n = 0%nat) →
  split_slots ctx message sync_statuses address account fuel include slots = Ok fs →
  ∃ rs, concat rs = slots ∧
    cut n fs [] ((λ r, (address, set_account_slots (hm_collect r) account)) <$> rs).
Proof.
  revert n include slots fs. induction fuel as [|fuel IH]; intros n include slots fs Hinc;
    (destruct slots as [|slot slots];
     [intros [= <-]; exists []; split; [done|]; apply filled_cut, filled_nil|]); [done|].
  cbn [split_slots]. intros (size & _ & Hr)%bind_ok. do 2 (split_if Hr; [done|]).
  apply bind_ok in Hr as ([c f] & Hshrink & Hr). apply bind_ok in Hr as (fs' & Hrest & Hr).
  injection Hr as <-. apply shrink_to_fit_ok in Hshrink as (Hc & -> & Hfit).
  destruct (IH (S n) false _ _ ltac:(done) Hrest) as (rs & Hrs & Hcut).
  exists (take c (slot :: slots) :: rs). split; [cbn [concat]; by rewrite Hrs, take_drop|].
  apply (cut_app n [_] _ [] [] [_]); [apply range_fragment_cut; by subst include|].
  by rewrite Nat.add_1_r.
Qed.

Lemma split_slots_fuel_irrelevant address account fuel1 fuel2 include slots :
  (length slots ≤ fuel1)%nat → (length slots ≤ fuel2)%nat →
  split_slots ctx message sync_statuses address account fuel1 include slots =
    split_slots ctx message sync_statuses address account fuel2 include slots.
Proof.
  revert fuel2 include slots. induction fuel1 as [|fuel1 IH]; intros fuel2 include slots H1' H2';
    (destruct slots as [|slot slots]; [by destruct fuel2|]); [cbn in H1'; lia|].
  destruct fuel2 as [|fuel2]; [cbn in H2'; lia|]. cbn [split_slots].
  destruct (raw_fragment_size _ _ _ _) as [size|]; cbn [mbind result_bind]; [|done].
  destruct (negb _); [done|]. destruct (bool_decide _); [done|].
  destruct (shrink_to_fit _ _ _ _ _ _ _ _) as [[c f]|] eqn:Hshrink; cbn [mbind result_bind]; [|done].
  apply shrink_to_fit_ok in Hshrink as (Hc & _). cbn [fst snd].
  rewrite (IH fuel2); [done|..]; rewrite length_drop; cbn in *; lia.
Qed.

(** The slots of an account, range by range. *)
Definition ranges_of (account : ResponseAccount) (rs : list (list (Bytes * Bytes))) : Prop :=
  rs ≠ [] ∧ concat rs = sort_by_key fst (account_slots account).

Abbreviation range_pieces address account rs :=
  ((λ r, (address, set_account_slots (hm_collect r) account)) <$> rs).

Lemma split_account_cut address account n fs :
  split_vm_storage_account_for_snapshot ctx message sync_statuses address account
    (bool_decide (n = 0%nat)) = Ok fs →
  ∃ rs, ranges_of account rs ∧ cut n fs [] (range_pieces address account rs).
Proof.
  unfold split_vm_storage_account_for_snapshot, ranges_of.
  set (slots := sort_by_key fst (account_slots account)).
  case_bool_decide as Hslots; intros Hr.
  - apply bind_ok in Hr as ([] & Hfit & Hr); [|done]. injection Hr as <-.
    exists [[]]. split; [by rewrite Hslots|]. by apply range_fragment_cut.
  - apply (split_slots_cut _ _ _ n) in Hr as (rs & Hrs & Hcut); [|done].
    exists rs. split_and!; [by intros ->|done|done].
Qed.

(** The accounts [don], each by ranges of its slots. *)
Inductive pieces_of : hashmap ResponseAccount → hashmap ResponseAccount → Prop :=
| pieces_nil : pieces_of [] []
| pieces_snoc don ps address account rs :
    pieces_of don ps → ranges_of account rs →
    pieces_of (don ++ [(address, account)]) (ps ++ range_pieces address account rs).

Definition accounts_inv (ls : list Leaf) (don : hashmap ResponseAccount) (s : Splitting) :
    Prop :=
  if sl_current_has_payload s then don = [] ∧ splitting_inv ls s
  else ∃ ps, pieces_of don ps ∧ cut 0 (sl_fragments s) ls ps.

Lemma accounts_inv_finish ls don s :
  accounts_inv ls don s →
  ∃ ps, pieces_of don ps ∧
    cut 0 (if sl_current_has_payload s then sl_fragments s ++ [sl_current s]
           else sl_fragments s) ls ps.
Proof.
  unfold accounts_inv, splitting_inv. destruct (sl_current_has_payload s); [|done].
  intros [-> Hf%filling_finish]. exists []. split; [constructor|by apply filled_cut].
Qed.

Lemma split_account_inv ls don s entry s' :
  accounts_inv ls don s → split_account ctx message sync_statuses s entry = Ok s' →
  accounts_inv ls (don ++ [entry]) s'.
Proof.
  destruct entry as [address account]. intros (ps & Hps & Hcut)%accounts_inv_finish.
  unfold split_account. intros (fs & Hfs & [= <-])%bind_ok. revert Hfs. unfold accounts_inv.
  destruct (sl_current_has_payload s) eqn:Hp; cbn; rewrite ?Hp;
    intros (rs & Hrs & Hfs)%split_account_cut;
    (exists (ps ++ range_pieces address account rs); split; [by constructor|]);
    rewrite <- (app_nil_r ls); by apply cut_app.
Qed.

(** ** The tail *)

Definition tail_inv (n : nat) (ls : list Leaf) (b : ProtocolTailFragmentBuilder) : Prop :=
  filling n (tb_fragments b) (tb_current b) (tb_current_has_payload b) ls ∧
  tb_include_sync_for_current b = bool_decide (n + length (tb_fragments b) = 0)%nat.

Lemma fresh_holds : holds (fresh_tail_fragment message) [].
Proof.
  unfold fresh_tail_fragment. destruct source as [d|] eqn:Hd; [|apply blank_holds].
  destruct blank_holds as [Ff Fs Fl]. split.
  - apply fragment_of_update; [done|done|]. intros d' [= <-]. by exists d.
  - by rewrite pm_fields_update.
  - by rewrite pm_fields_update, blank_fields.
Qed.

Lemma append_named_inv n ls l kind key insert b b' :
  insert = pm_update (insert_leaf source l) → leaf_ok source l →
  leaf_key l ∉ map leaf_key ls → tail_inv n ls b →
  append_named ctx message sync_statuses kind key insert b = Ok b' →
  tail_inv n (ls ++ [l]) b'.
Proof.
  intros -> Hok Hk [Hf Hi]. unfold append_named. rewrite Hi.
  intros ([] & Hfit & Hr)%bind_ok.
  { injection Hr as <-. split; [|done]. by eapply filling_extend. }
  apply bind_ok in Hr as ([fs inc] & Hflush & Hr). cbn [fst snd] in Hr.
  assert (fs = (if tb_current_has_payload b then tb_fragments b ++ [tb_current b]
                else tb_fragments b) ∧ inc = bool_decide (n + length fs = 0)%nat) as [-> ->].
  { destruct (tb_current_has_payload b); [|by injection Hflush as <- <-].
    apply bind_ok in Hflush as (_ & _ & [= <- <-]). split; [done|].
    rewrite length_app. cbn. by rewrite bool_decide_eq_false_2 by lia. }
  apply bind_ok in Hr as ([] & Hfit' & Hr); [|by apply bind_ok in Hr as (? & _ & ?)].
  injection Hr as <-. split; [|done]. cbn.
  by apply (filling_restart _ _ (tb_current b) _ _ _ _ Hf); [|apply fresh_holds|].
Qed.

Abbreviation sorted m := (sort_by_key fst m).

(** One of the loops of the tail, [rest] being what comes after it. *)
Lemma section_inv {V} (leaf : string → V → Leaf) r n ls rest kind label insert m b b' :
  fold_result (λ b '(k, v),
      append_named ctx message sync_statuses kind (label k) (insert k v) b) b (sorted m) = Ok b' →
  (∀ k v, leaf_key (leaf k v) = (r, k)) → (∀ k v, leaf_ok source (leaf k v)) →
  (∀ k v, insert k v = pm_update (insert_leaf source (leaf k v))) →
  tail_inv n ls b → NoDup (map leaf_key (ls ++ leaves leaf (sorted m) ++ rest)) →
  tail_inv n (ls ++ leaves leaf (sorted m)) b' ∧
  NoDup (map leaf_key ((ls ++ leaves leaf (sorted m)) ++ rest)).
Proof.
  intros Hf Hr Hok Hins Hb Hnd. rewrite app_assoc in Hnd. split; [|done].
  rewrite map_app in Hnd. apply NoDup_app in Hnd as [Hnd _].
  eapply (take_leaves leaf r (tail_inv n) _ ls (sorted m) b b' Hr); [|done..].
  intros ls' s k v s' Hs Hk. by apply append_named_inv; [|apply Hok|..].
Qed.

(** The entries of the deltas in the order they are taken. *)
Definition sorted_delta_leaves (d : BlockChanges) : list Leaf :=
  leaves NewTokenLeaf (sorted (bc_new_tokens d)) ++
  leaves StateUpdateLeaf (sorted (bc_state_updates d)) ++
  leaves AccountUpdateLeaf (sorted (bc_account_updates d)) ++
  leaves ComponentBalancesLeaf (sorted (bc_component_balances d)) ++
  leaves AccountBalancesLeaf (sorted (bc_account_balances d)) ++
  leaves ComponentTvlLeaf (sorted (bc_component_tvl d)) ++
  leaves NewComponentLeaf (sorted (bc_new_protocol_components d)) ++
  leaves DeletedComponentLeaf (sorted (bc_deleted_protocol_components d)) ++
  leaves EntrypointsLeaf (sorted (dci_new_entrypoints (bc_dci_update d))) ++
  leaves EntrypointParamsLeaf (sorted (dci_new_entrypoint_params (bc_dci_update d))) ++
  leaves TraceResultLeaf (sorted (dci_trace_results (bc_dci_update d))).

Lemma leaves_sorted {V} (leaf : string → V → Leaf) m : leaves leaf (sorted m) ≡ₚ leaves leaf m.
Proof. unfold leaves. change (map ?f ?l) with (f <$> l). by rewrite sort_by_key_perm. Qed.

Lemma sorted_delta_leaves_perm d : sorted_delta_leaves d ≡ₚ delta_leaves d.
Proof. unfold sorted_delta_leaves, delta_leaves. by rewrite !leaves_sorted. Qed.

(** The next loop of the tail. *)
Ltac take_section leaf r :=
  lazymatch goal with
  | Hd : source = Some _, Hnd : NoDup _, Hb : tail_inv ?n ?ls ?b, Hr : _ = Ok _ |- _ =>
      let Hs := fresh "Hs" in let Hx := fresh "Hx" in
      apply bind_ok in Hr as (? & Hs & Hr);
      pose proof (λ rest, section_inv leaf r n ls rest _ _ _ _ _ _ Hs) as Hx;
      edestruct Hx as [? ?];
        [done|rewrite Hd; by eexists|by rewrite Hd|exact Hb|exact Hnd|clear Hb Hnd Hs Hx]
  end.

Lemma delta_sections_inv n ls rest d b b' :
  source = Some d → NoDup (map leaf_key (ls ++ sorted_delta_leaves d ++ rest)) →
  tail_inv n ls b →
  delta_sections d (λ V, append_delta_entries ctx (V := V) message sync_statuses d) b = Ok b' →
  tail_inv n (ls ++ sorted_delta_leaves d) b' ∧
  NoDup (map leaf_key ((ls ++ sorted_delta_leaves d) ++ rest)).
Proof.
  intros Hd Hnd Hb Hr. split; [|by rewrite <- app_assoc].
  unfold sorted_delta_leaves in *. rewrite <- !(app_assoc (leaves _ _)) in Hnd.
  unfold delta_sections, append_delta_entries in Hr.
  take_section NewTokenLeaf 1%N. take_section StateUpdateLeaf 2%N.
  take_section AccountUpdateLeaf 3%N. take_section ComponentBalancesLeaf 4%N.
  take_section AccountBalancesLeaf 5%N. take_section ComponentTvlLeaf 6%N.
  take_section NewComponentLeaf 7%N. take_section DeletedComponentLeaf 8%N.
  take_section EntrypointsLeaf 9%N. take_section EntrypointParamsLeaf 10%N.
  eapply (section_inv TraceResultLeaf 11%N) with (rest := rest) in Hr as [Hr _];
    [|done|rewrite Hd; by eexists|by rewrite Hd|done..].
  by rewrite <- !app_assoc in Hr.
Qed.

Definition sorted_tail_leaves : list Leaf :=
  match source with Some d => sorted_delta_leaves d | None => [] end ++
  leaves RemovedLeaf (sorted (sy_removed_components (pm_fields message))).

Lemma sorted_tail_leaves_perm : sorted_tail_leaves ≡ₚ tail_leaves (pm_fields message).
Proof.
  unfold sorted_tail_leaves, tail_leaves. rewrite leaves_sorted.
  destruct source; [by rewrite sorted_delta_leaves_perm|done].
Qed.

Lemma tail_start n :
  tail_inv n [] (tail_builder_new message (bool_decide (n = 0%nat))).
Proof. split; [done|]. cbn. by rewrite Nat.add_0_r. Qed.

Lemma tail_finish_cut n ls b fs :
  tail_inv n ls b → tail_finish ctx message sync_statuses b = Ok fs → cut n fs ls [].
Proof.
  intros [Hf%filling_finish _] Hr. apply filled_cut. unfold tail_finish in Hr.
  destruct (tb_current_has_payload b); [|by injection Hr as <-].
  by apply bind_ok in Hr as (_ & _ & [= <-]).
Qed.

Lemma split_tail_cut n fs :
  NoDup (map leaf_key sorted_tail_leaves) →
  split_protocol_tail_for_snapshot ctx message sync_statuses (bool_decide (n = 0%nat)) = Ok fs →
  cut n fs sorted_tail_leaves [].
Proof.
  unfold split_protocol_tail_for_snapshot, sorted_tail_leaves. intros Hnd Hr.
  destruct (bool_decide (¬ is_Some source) && _) eqn:Hempty.
  - apply andb_true_iff in Hempty as [Hd%bool_decide_eq_true Hm%bool_decide_eq_true].
    injection Hr as <-. destruct source; [by destruct Hd|].
    rewrite (nil_length_inv _ Hm). apply filled_cut, filled_nil.
  - clear Hempty. apply bind_ok in Hr as (b & Hb & Hr). apply bind_ok in Hr as (b' & Hb' & Hr).
    eapply tail_finish_cut; [|exact Hr].
    assert (tail_inv n (match source with Some d => sorted_delta_leaves d | None => [] end) b)
      as Htb.
    { pose proof (tail_start n) as Hstart. destruct source as [d|] eqn:Hd;
        [|by injection Hb as <-].
      by eapply (delta_sections_inv n [] _ d) in Hb as [Hb _]. }
    eapply (take_leaves RemovedLeaf 12%N (tail_inv n)); [done| |exact Hnd|exact Htb|exact Hb'].
    intros ls s k v s' Hs Hk. by apply append_named_inv.
Qed.

(** ** The whole message *)

(** Keys of hash maps. *)
Record distinct_keys (m : SyncMessage) : Prop := {
  dk_leaves : NoDup (map leaf_key (message_leaves m));
  dk_accounts : NoDup (sy_vm_storage m).*1;
  dk_slots a account : (a, account) ∈ sy_vm_storage m → NoDup (account_slots account).*1;
}.

Lemma message_fragment_of : fragment_of message.
Proof. split; [done..|symmetry; apply header_of_message|]. intros d Hd. by exists d. Qed.

Lemma split_states_inv s :
  NoDup (map leaf_key (leaves StateLeaf (sy_states (pm_fields message)))) →
  fold_result (split_state ctx message sync_statuses)
    {| sl_fragments := []; sl_current := blank; sl_current_has_payload := false |}
    (sorted (sy_states (pm_fields message))) = Ok s →
  splitting_inv (leaves StateLeaf (sorted (sy_states (pm_fields message)))) s.
Proof.
  intros Hnd Hs.
  assert (NoDup (map leaf_key ([] ++ leaves StateLeaf (sorted (sy_states (pm_fields message))))))
    as Hnd'.
  { change (map ?f ?l) with (f <$> l). cbn [app]. by rewrite leaves_sorted. }
  eapply (take_leaves StateLeaf 0%N splitting_inv _ []); [done| |exact Hnd'| |exact Hs]; [|done].
  intros ls s1 k v s2 Hs1 Hk. by apply split_state_inv.
Qed.

Lemma split_accounts_inv ls s s' storage :
  splitting_inv ls s → fold_result (split_account ctx message sync_statuses) s storage = Ok s' →
  accounts_inv ls storage s'.
Proof.
  intros Hs Hf. apply (fold_result_inv _ (accounts_inv ls) _ _ _ Hf).
  - unfold accounts_inv. destruct (sl_current_has_payload s) eqn:Hp; [done|].
    unfold splitting_inv in Hs. rewrite Hp in Hs.
    exists []. split; [constructor|]. apply filled_cut. by apply (filling_finish _ _ _ false) in Hs.
  - intros don entry s1 s2 _ Hs1. by apply split_account_inv.
Qed.

Lemma split_message_cut fs :
  distinct_keys (pm_fields message) →
  split_protocol_message_for_snapshot ctx message sync_statuses = Ok fs →
  ∃ ps, pieces_of (sorted (storage_of message)) ps ∧ cut 0 fs (leaves_of message) ps.
Proof.
  intros [Hnd _ _] Hr. unfold split_protocol_message_for_snapshot in Hr.
  rewrite vm_storage_of_message in Hr. fold (pm_fields message) in Hr.
  apply bind_ok in Hr as (whole & Hwhole & Hr). destruct whole.
  - apply bind_ok in Hr as (_ & _ & [= <-]). case_bool_decide as Hl; [|done].
    apply nil_length_inv in Hl. rewrite Hl. exists []. split; [constructor|]. split.
    + by constructor; [apply message_fragment_of|].
    + by intros i f [-> <-]%list_lookup_singleton_Some.
    + cbn. by rewrite app_nil_r.
    + cbn. by rewrite Hl.
    + constructor; [|done]. rewrite Hl. cbn. lia.
  - apply bind_ok in Hr as (s & Hs & Hr). apply bind_ok in Hr as (s' & Hs' & Hr).
    apply bind_ok in Hr as (tail & Htail & Hr). apply bind_ok in Hr as (_ & _ & [= <-]).
    unfold message_leaves in Hnd. rewrite map_app in Hnd. apply NoDup_app in Hnd as (Hn1 & _ & Hn2).
    apply split_states_inv in Hs; [|done]. eapply split_accounts_inv in Hs'; [|done].
    apply accounts_inv_finish in Hs' as (ps & Hps & Hcut). exists ps. split; [done|].
    apply (split_tail_cut (length _)) in Htail.
    + rewrite <- (app_nil_r ps). pose proof (cut_app _ _ _ _ _ _ _ Hcut Htail) as [Ff Fx Fl Fs F1].
      split; [done..| |done|done]. rewrite Fl. unfold message_leaves.
      by rewrite leaves_sorted, sorted_tail_leaves_perm.
    + change (map ?f ?l) with (f <$> l). by rewrite sorted_tail_leaves_perm.
Qed.
(** The loop that cuts an account by ranges of its slots ends within as many turns as
    there are slots: more turns change nothing, the outcome of every one of them included. *)
Theorem split_slots_terminates address account include slots more :
  split_slots ctx message sync_statuses address account (length slots + more) include slots =
    split_slots ctx message sync_statuses address account (length slots) include slots.
Proof. apply split_slots_fuel_irrelevant; lia. Qed.
End split.
