(* ===== verification/ExportMerge.v ===== *)
(** * The fragments of a message, put together again

    What the broadcaster cuts for a snapshot the consumer merges fragment by fragment:
    every fragment passes the checks of the consumer, and what it ends with holds the
    entries and the accounts of the message that was cut. *)

From S2P Require Import Prelude Ordered Text Protocol Wire Validate TychoFeed Codec.
From S2P Require Import RedisEntry Replay Recovery Store StorePools Reassembly RawMessage.
From S2P Require Import SnapshotExport ExportSplit.

(** ** Hash maps *)

Lemma hm_insert_present {V} (m m1 : hashmap V) k v v' :
  NoDup m.*1 → m ≡ₚ (k, v) :: m1 → hm_insert k v' m ≡ₚ (k, v') :: m1.
Proof.
  intros Hnd Hm. assert (NoDup (((k, v) :: m1).*1)) as [Hk _]%NoDup_cons by by rewrite <- Hm.
  unfold hm_insert. constructor. rewrite Hm, filter_cons_False by (cbn; tauto).
  by rewrite filter_fresh.
Qed.

(** ** Accounts *)

Section accounts.
Context `{RawMessages} `{!AccountLaws}.

(** Every slot with its account. *)
Definition flat (m : hashmap ResponseAccount) : list (Bytes * (Bytes * Bytes)) :=
  m ≫= λ '(a, account), pair a <$> account_slots account.

Definition slot_key (s : Bytes * (Bytes * Bytes)) : Bytes * Bytes := (s.1, s.2.1).

Lemma flat_app m1 m2 : flat (m1 ++ m2) = flat m1 ++ flat m2.
Proof. apply bind_app. Qed.

#[export] Instance flat_perm : Proper ((≡ₚ) ==> (≡ₚ)) flat.
Proof. intros m1 m2 Hm. unfold flat. by rewrite Hm. Qed.

Lemma flat_keys_one a account :
  slot_key <$> flat [(a, account)] = pair a <$> (account_slots account).*1.
Proof. unfold flat. cbn. by rewrite app_nil_r, <- !list_fmap_compose. Qed.

Lemma flat_cons entry m : flat (entry :: m) = flat [entry] ++ flat m.
Proof. by rewrite <- flat_app. Qed.

(** An account and what it becomes with other slots. *)
Definition variant_in (m : hashmap ResponseAccount) (entry : Bytes * ResponseAccount) : Prop :=
  ∃ account slots, (entry.1, account) ∈ m ∧ entry.2 = set_account_slots slots account.

Lemma merge_slots_ok address slots slots' :
  NoDup (slots'.*1 ++ slots.*1) →
  ∃ merged, fold_result (merge_slot address) slots slots' = Ok merged ∧ merged ≡ₚ slots' ++ slots.
Proof.
  revert slots. induction slots' as [|[k v] slots' IH]; intros slots; csimpl; [by eexists|].
  intros [Hk Hnd]%NoDup_cons. rewrite (proj2 (hm_get_None _ _)) by set_solver. cbn.
  rewrite hm_insert_fresh by set_solver.
  destruct (IH ((k, v) :: slots)) as (merged & -> & Hm).
  { csimpl. rewrite <- Permutation_middle. by constructor. }
  exists merged. split; [done|]. by rewrite Hm, Permutation_middle.
Qed.

Lemma merge_account_ok address account account' a0 s s' :
  account = set_account_slots s a0 → account' = set_account_slots s' a0 →
  NoDup (s'.*1 ++ s.*1) →
  ∃ merged, merge_vm_storage_account address account account' =
      Ok (set_account_slots merged a0) ∧ merged ≡ₚ s' ++ s.
Proof.
  intros -> -> Hnd. unfold merge_vm_storage_account, ensure_vm_account_metadata_matches.
  assert (list_find (λ f, account_field_eqb f (set_account_slots s a0)
    (set_account_slots s' a0) = false) account_fields = None) as ->.
  { apply list_find_None, Forall_forall. intros f _. by rewrite field_set_slots. }
  cbn. rewrite !slots_set_slots.
  destruct (merge_slots_ok address s s' Hnd) as (merged & -> & Hm).
  exists merged. split; [|done]. cbn. by rewrite set_set_slots.
Qed.

(** What merging the accounts [ps] of the fragments one by one has built. *)
Record merged_accounts (orig ps m : hashmap ResponseAccount) : Prop := {
  ma_nodup : NoDup m.*1;
  ma_flat : flat m ≡ₚ flat ps;
  ma_variants : Forall (variant_in orig) m;
  ma_keys a : a ∈ m.*1 ↔ a ∈ ps.*1;
}.

Lemma merged_accounts_one orig entry :
  variant_in orig entry → merged_accounts orig [entry] [entry].
Proof. split; [apply NoDup_singleton|done|by constructor|done]. Qed.

Lemma merged_accounts_step orig ps m entry :
  NoDup orig.*1 → merged_accounts orig ps m → variant_in orig entry →
  NoDup (slot_key <$> flat (ps ++ [entry])) →
  ∃ m', merge_vm_storage m [entry] = Ok m' ∧ merged_accounts orig (ps ++ [entry]) m'.
Proof.
  intros Ho [Hnd Hflat Hvar Hkeys] Hentry Hslots. destruct entry as [a incoming].
  unfold merge_vm_storage. cbn [fold_result].
  destruct (decide (a ∈ m.*1)) as [Hin|Hout].
  - apply list_elem_of_fmap in Hin as ([a' present] & Heq & Hin). cbn in Heq. subst a'.
    assert (hm_get a m = Some present) as -> by by apply hm_get_Some.
    assert (variant_in orig (a, present)) as (a0 & s & Ha0 & Hs).
    { rewrite Forall_forall in Hvar. by apply Hvar. }
    destruct Hentry as (a1 & s' & Ha1 & Hs'). cbn in *.
    apply hm_get_Some in Ha0, Ha1; [|done..]. rewrite Ha0 in Ha1. injection Ha1 as <-.
    apply elem_of_Permutation in Hin as [m1 Hm].
    destruct (merge_account_ok a present incoming a0 s s' Hs Hs') as (merged & -> & Hmerged).
    { apply (NoDup_fmap_1 (pair a)). rewrite fmap_app. subst present incoming.
      rewrite <- (slots_set_slots s' a0), <- (slots_set_slots s a0), <- !flat_keys_one.
      rewrite flat_app, <- Hflat, Hm, flat_cons, (Permutation_app_comm _ (flat [_])) in Hslots.
      rewrite app_assoc, fmap_app in Hslots. apply NoDup_app in Hslots as [Hslots _].
      by rewrite fmap_app in Hslots. }
    eexists. split; [done|]. pose proof (hm_insert_present _ _ _ _ (set_account_slots merged a0)
      Hnd Hm) as Hins. subst present incoming. split.
    + rewrite Hins. by rewrite Hm in Hnd.
    + rewrite Hins, flat_app, <- Hflat, Hm, !(flat_cons _ m1).
      rewrite <- (Permutation_app_comm (flat [_])), app_assoc. f_equiv. unfold flat. cbn.
      rewrite !app_nil_r, !slots_set_slots, Hmerged, fmap_app. done.
    + rewrite Hins. rewrite Hm in Hvar. apply Forall_cons in Hvar as [_ Hvar].
      constructor; [|done]. exists a0, merged. split; [|done]. by apply hm_get_Some.
    + intros b. rewrite Hins, fmap_app, elem_of_app, <- Hkeys, Hm. set_solver.
  - rewrite (proj2 (hm_get_None _ _)) by done. exists ((a, incoming) :: m).
    rewrite hm_insert_fresh by done. split; [done|]. split.
    + by constructor.
    + rewrite flat_app, <- Hflat. change (flat ((a, incoming) :: m)) with (flat ([(a, incoming)] ++ m)).
      rewrite flat_app. apply Permutation_app_comm.
    + by constructor.
    + intros b. rewrite fmap_app, elem_of_app, <- Hkeys. set_solver.
Qed.
End accounts.

(** ** What merging two messages does

    [StateSyncMessage::merge] unites the maps of two messages that have no key in common.
    It leaves the new tokens and the dynamic entry points of the second one aside, which is
    why the consumer takes them out before and adds them after. *)

Section laws.
Context `{SyncFields}.

Definition plain_deltas (m : SyncMessage) : Prop :=
  ∀ d, sy_deltas m = Some d → bc_new_tokens d = [] ∧ bc_dci_update d = dci_default.

(** No component of [l1] that is removed in [l2]. *)
Definition no_removed (l1 l2 : list Leaf) : Prop :=
  ∀ k v w, StateLeaf k v ∈ l1 → RemovedLeaf k w ∉ l2.
End laws.

Class MergeLaws `{SyncFields} := {
  merge_header a b :
    ssm_header a = ssm_header b → ssm_header (message_merge a b) = ssm_header b;
  merge_leaves a b :
    NoDup (leaf_key <$> message_leaves (of_message a) ++ message_leaves (of_message b)) →
    no_removed (message_leaves (of_message a)) (message_leaves (of_message b)) →
    no_removed (message_leaves (of_message b)) (message_leaves (of_message a)) →
    plain_deltas (of_message b) →
    message_leaves (of_message (message_merge a b)) ≡ₚ
      message_leaves (of_message a) ++ message_leaves (of_message b);
  merge_has_deltas a b :
    is_Some (sy_deltas (of_message (message_merge a b))) ↔
      is_Some (sy_deltas (of_message a)) ∨ is_Some (sy_deltas (of_message b));
  merge_frame frame a b d :
    (∀ d, sy_deltas (of_message a) = Some d ∨ sy_deltas (of_message b) = Some d →
       block_frame d = frame) →
    sy_deltas (of_message (message_merge a b)) = Some d → block_frame d = frame;
  extend_no_entrypoints e : set_extend no_entrypoints e = e;
}.

Section merge.
Context `{MergeLaws} `{!SyncFieldsLaws} `{!AccountLaws}.

Lemma extend_entrypoints_fresh m l :
  NoDup (l.*1 ++ m.*1) → extend_entrypoints m l = hm_extend m l.
Proof.
  unfold extend_entrypoints, hm_extend. revert m.
  induction l as [|[k e] l IH]; intros m; csimpl; [done|].
  intros [Hk Hnd]%NoDup_cons. rewrite (proj2 (hm_get_None _ _)) by set_solver. cbn.
  rewrite extend_no_entrypoints, IH; [done|]. rewrite hm_insert_fresh by set_solver.
  csimpl. rewrite <- Permutation_middle. by constructor.
Qed.

(** What the consumer takes out of a message before it merges it. *)
Definition taken_leaves (m : SyncMessage) : list Leaf :=
  match sy_deltas m with
  | Some d =>
      leaves NewTokenLeaf (bc_new_tokens d) ++
      leaves EntrypointsLeaf (dci_new_entrypoints (bc_dci_update d)) ++
      leaves EntrypointParamsLeaf (dci_new_entrypoint_params (bc_dci_update d)) ++
      leaves TraceResultLeaf (dci_trace_results (bc_dci_update d))
  | None => []
  end.

Definition without_taken : SyncMessage → SyncMessage :=
  sy_set_deltas (fmap (λ d, bc_set_dci_update (λ _, dci_default) (bc_set_new_tokens (λ _, []) d))).

Lemma taken_leaves_perm m :
  message_leaves m ≡ₚ message_leaves (without_taken m) ++ taken_leaves m.
Proof.
  destruct m as [h states vm [d|] removed]; unfold message_leaves, tail_leaves, taken_leaves;
    cbn -[leaves]; [|by rewrite app_nil_r].
  unfold delta_leaves. cbn -[leaves]. unfold leaves at 3. cbn [map app]. solve_Permutation.
Qed.

Lemma leaves_keys {V} (leaf : string → V → Leaf) n (m : hashmap V) :
  (∀ k v, leaf_key (leaf k v) = (n, k)) → leaf_key <$> leaves leaf m = pair n <$> m.*1.
Proof.
  intros Hn. unfold leaves. change (map ?f ?l) with (f <$> l).
  rewrite <- !list_fmap_compose. apply list_fmap_ext. intros i [k v] _. apply Hn.
Qed.

(** Maps whose leaves are among distinct leaves have no key in common. *)
Lemma leaves_disjoint {V} (leaf : string → V → Leaf) n (m m' : hashmap V) ls :
  (∀ k v, leaf_key (leaf k v) = (n, k)) → NoDup (leaf_key <$> ls) →
  leaves leaf m ++ leaves leaf m' ⊆+ ls → NoDup (m'.*1 ++ m.*1).
Proof.
  intros Hn Hnd [rest Hls]%submseteq_Permutation. apply (NoDup_fmap_1 (pair n)).
  rewrite Permutation_app_comm, fmap_app, <- !(leaves_keys leaf n) by done. rewrite <- fmap_app.
  rewrite Hls, fmap_app in Hnd. by apply NoDup_app in Hnd as [Hnd _].
Qed.

(** What the consumer adds to a merged message. *)
Definition with_taken (d0 : option BlockChanges) (d : BlockChanges) : BlockChanges :=
  let field {V} (f : BlockChanges → hashmap V) : hashmap V := default [] (f <$> d0) in
  bc_set_dci_update (λ _, {|
      dci_new_entrypoints :=
        extend_entrypoints (dci_new_entrypoints (bc_dci_update d))
          (field (dci_new_entrypoints ∘ bc_dci_update));
      dci_new_entrypoint_params :=
        extend_entrypoints (dci_new_entrypoint_params (bc_dci_update d))
          (field (dci_new_entrypoint_params ∘ bc_dci_update));
      dci_trace_results :=
        hm_extend (dci_trace_results (bc_dci_update d))
          (field (dci_trace_results ∘ bc_dci_update)) |})
    (bc_set_new_tokens (λ _, hm_extend (bc_new_tokens d) (field bc_new_tokens)) d).

Lemma leaves_app {V} (leaf : string → V → Leaf) (m m' : hashmap V) :
  leaves leaf (m ++ m') = leaves leaf m ++ leaves leaf m'.
Proof. apply map_app. Qed.

Lemma with_taken_none d : with_taken None d = d.
Proof. by destruct d as [?????????????[???]?]. Qed.

Lemma with_taken_leaves m0 d ls :
  NoDup (leaf_key <$> (delta_leaves d ++ taken_leaves m0) ++ ls) →
  delta_leaves (with_taken (sy_deltas m0) d) ≡ₚ delta_leaves d ++ taken_leaves m0.
Proof.
  rewrite fmap_app. intros [Hnd _]%NoDup_app. unfold taken_leaves in *.
  destruct (sy_deltas m0) as [d0|]; [|by rewrite with_taken_none, app_nil_r].
  unfold delta_leaves in *. cbn -[leaves extend_entrypoints hm_extend].
  pose proof (λ V leaf n m m' Hn, @leaves_disjoint V leaf n m m' _ Hn Hnd) as Hdis.
  rewrite !extend_entrypoints_fresh, !hm_extend_perm, !leaves_app; [solve_Permutation|..].
  all: first
    [ apply (Hdis _ NewTokenLeaf 1%N); [done|solve_submseteq]
    | apply (Hdis _ EntrypointsLeaf 9%N); [done|solve_submseteq]
    | apply (Hdis _ EntrypointParamsLeaf 10%N); [done|solve_submseteq]
    | apply (Hdis _ TraceResultLeaf 11%N); [done|solve_submseteq] ].
Qed.
(** ** A fragment merged *)

Abbreviation leaves_of f := (message_leaves (pm_fields f)).
Abbreviation storage_of f := (sy_vm_storage (pm_fields f)).

Lemma state_leaf m k : k ∈ (sy_states m).*1 → ∃ v, StateLeaf k v ∈ message_leaves m.
Proof.
  intros ([k' v] & -> & Hin)%list_elem_of_fmap. exists v. unfold message_leaves.
  apply elem_of_app. left. apply list_elem_of_fmap. by exists (k', v).
Qed.

Lemma removed_leaf m k : k ∈ (sy_removed_components m).*1 → ∃ v, RemovedLeaf k v ∈ message_leaves m.
Proof.
  intros ([k' v] & -> & Hin)%list_elem_of_fmap. exists v. unfold message_leaves, tail_leaves.
  rewrite !elem_of_app. do 2 right. apply list_elem_of_fmap. by exists (k', v).
Qed.

(** A leaf of another map is of neither. *)
Lemma leaf_state_id m k v : StateLeaf k v ∈ message_leaves m → k ∈ (sy_states m).*1.
Proof.
  unfold message_leaves, tail_leaves. rewrite !elem_of_app. intros [Hin|[Hin|Hin]].
  - apply list_elem_of_fmap in Hin as ([k' v'] & [= -> ->] & Hin).
    apply list_elem_of_fmap. by exists (k', v').
  - exfalso. destruct (sy_deltas m) as [d|]; [|by apply elem_of_nil in Hin].
    unfold delta_leaves in Hin. rewrite !elem_of_app in Hin.
    destruct_or! Hin; by apply list_elem_of_fmap in Hin as ([? ?] & [=] & _).
  - exfalso. by apply list_elem_of_fmap in Hin as ([? ?] & [=] & _).
Qed.

Lemma leaf_removed_id m k v :
  RemovedLeaf k v ∈ message_leaves m → k ∈ (sy_removed_components m).*1.
Proof.
  unfold message_leaves, tail_leaves. rewrite !elem_of_app. intros [Hin|[Hin|Hin]].
  - exfalso. by apply list_elem_of_fmap in Hin as ([? ?] & [=] & _).
  - exfalso. destruct (sy_deltas m) as [d|]; [|by apply elem_of_nil in Hin].
    unfold delta_leaves in Hin. rewrite !elem_of_app in Hin.
    destruct_or! Hin; by apply list_elem_of_fmap in Hin as ([? ?] & [=] & _).
  - apply list_elem_of_fmap in Hin as ([k' v'] & [= -> ->] & Hin).
    apply list_elem_of_fmap. by exists (k', v').
Qed.

Lemma no_removed_ids m :
  (∀ k, k ∈ (sy_states m).*1 → k ∉ (sy_removed_components m).*1) →
  no_removed (message_leaves m) (message_leaves m).
Proof. intros Hids k v w Hv Hw. eapply Hids; [by eapply leaf_state_id|by eapply leaf_removed_id]. Qed.

Lemma no_duplicate_ids_ok protocol existing incoming kind :
  (∀ k, k ∈ incoming → k ∉ existing) →
  ensure_no_duplicate_ids protocol existing incoming kind = Ok tt.
Proof.
  intros Hk. apply for_each_ok, Forall_forall. intros k Hin.
  rewrite bool_decide_eq_false_2; [done|by apply Hk].
Qed.

Lemma no_overlap_ok protocol snapshots removals :
  (∀ k, k ∈ snapshots → k ∉ removals) →
  ensure_no_snapshot_removal_overlap protocol snapshots removals = Ok tt.
Proof.
  intros Hk. apply for_each_ok, Forall_forall. intros k Hin.
  rewrite bool_decide_eq_false_2; [done|by apply Hk].
Qed.

(** Two leaves at one place of a list without duplicate places are at one index. *)
Lemma leaf_key_apart ls1 ls2 l l' :
  NoDup (leaf_key <$> ls1 ++ ls2) → l ∈ ls1 → l' ∈ ls2 → leaf_key l ≠ leaf_key l'.
Proof.
  rewrite fmap_app. intros (_ & Hd & _)%NoDup_app Hl Hl' Heq.
  apply (Hd (leaf_key l)); [|rewrite Heq]; by apply list_elem_of_fmap_2.
Qed.

Lemma conflicts_ok e f :
  NoDup (leaf_key <$> leaves_of e ++ leaves_of f) →
  no_removed (leaves_of e ++ leaves_of f) (leaves_of e ++ leaves_of f) →
  ensure_raw_snapshot_fragment_conflicts e f = Ok tt.
Proof.
  intros Hnd Hno. unfold ensure_raw_snapshot_fragment_conflicts.
  rewrite !state_ids_of_message, !removed_ids_of_message. fold (pm_fields e) (pm_fields f).
  assert (∀ m m' k, leaves_of m ⊆ leaves_of e ++ leaves_of f →
    leaves_of m' ⊆ leaves_of e ++ leaves_of f →
    k ∈ (sy_states (pm_fields m)).*1 → k ∉ (sy_removed_components (pm_fields m')).*1) as Hover.
  { intros m m' k Hm Hm' [v Hv]%state_leaf [w Hw]%removed_leaf. eapply Hno; eauto. }
  rewrite !no_duplicate_ids_ok, !no_overlap_ok; [done| | | | | |];
    try (intros k; apply Hover; set_solver).
  - intros k [v Hv]%state_leaf [w Hw]%state_leaf.
    by apply (leaf_key_apart _ _ _ _ Hnd Hw Hv).
  - intros k [v Hv]%removed_leaf [w Hw]%removed_leaf.
    by apply (leaf_key_apart _ _ _ _ Hnd Hw Hv).
Qed.
(** The merge of two messages, their accounts apart. *)
Definition merge_rest (accounts : hashmap ResponseAccount) (existing incoming : StateSyncMessage) :
    StateSyncMessage :=
  let existing := set_vm_storage [] existing in
  let incoming := set_vm_storage [] incoming in
  let '(tokens, entrypoints, params, traces) :=
    if has_deltas incoming then
      (new_tokens incoming, new_entrypoints incoming, new_entrypoint_params incoming,
       trace_results incoming)
    else ([], [], [], []) in
  let incoming :=
    if has_deltas incoming then set_dci_update [] [] [] (set_new_tokens [] incoming)
    else incoming in
  let merged := set_vm_storage accounts (message_merge existing incoming) in
  if has_deltas merged then
    set_dci_update (extend_entrypoints (new_entrypoints merged) entrypoints)
      (extend_entrypoints (new_entrypoint_params merged) params)
      (hm_extend (trace_results merged) traces)
      (set_new_tokens (hm_extend (new_tokens merged) tokens) merged)
  else merged.

Definition without_accounts : SyncMessage → SyncMessage := sy_set_vm_storage (λ _, []).

(** The messages that [message_merge] gets. *)
Definition merge_left (existing : StateSyncMessage) : StateSyncMessage := set_vm_storage [] existing.
Definition merge_right (incoming : StateSyncMessage) : StateSyncMessage :=
  if has_deltas (set_vm_storage [] incoming)
  then set_dci_update [] [] [] (set_new_tokens [] (set_vm_storage [] incoming))
  else set_vm_storage [] incoming.

Lemma merge_left_fields m : of_message (merge_left m) = without_accounts (of_message m).
Proof. apply set_vm_storage_fields. Qed.

Lemma merge_right_fields m :
  of_message (merge_right m) = without_taken (without_accounts (of_message m)).
Proof.
  unfold merge_right. rewrite has_deltas_fields, set_vm_storage_fields. fold without_accounts.
  case_bool_decide as Hd.
  - rewrite set_dci_update_fields, set_new_tokens_fields, set_vm_storage_fields.
    unfold without_taken, sy_set_deltas. cbn.
    by destruct (sy_deltas (of_message m)).
  - rewrite set_vm_storage_fields. fold without_accounts.
    destruct (of_message m) as [? ? ? [d|] ?]; [by destruct Hd|done].
Qed.

Lemma merge_rest_fields accounts m m' :
  of_message (merge_rest accounts m m') =
    sy_set_deltas (fmap (with_taken (sy_deltas (of_message m'))))
      (sy_set_vm_storage (λ _, accounts) (of_message (message_merge (merge_left m) (merge_right m')))).
Proof.
  unfold merge_rest. fold (merge_left m) (merge_right m').
  set (merged := set_vm_storage accounts _).
  assert (of_message merged = sy_set_vm_storage (λ _, accounts)
    (of_message (message_merge (merge_left m) (merge_right m')))) as Hm
    by apply set_vm_storage_fields.
  rewrite <- Hm. clearbody merged. clear Hm.
  rewrite new_tokens_fields, new_entrypoints_fields, new_entrypoint_params_fields,
    trace_results_fields, !has_deltas_fields, !set_vm_storage_fields.
  cbn [sy_deltas sy_set_vm_storage].
  set (d0 := sy_deltas (of_message m')).
  replace (if bool_decide (is_Some d0) then _ else _) with
    (default [] (bc_new_tokens <$> d0), default [] (dci_new_entrypoints ∘ bc_dci_update <$> d0),
     default [] (dci_new_entrypoint_params ∘ bc_dci_update <$> d0),
     default [] (dci_trace_results ∘ bc_dci_update <$> d0)) by by destruct d0.
  case_bool_decide as Hd.
  - rewrite set_dci_update_fields, set_new_tokens_fields, new_tokens_fields,
      new_entrypoints_fields, new_entrypoint_params_fields, trace_results_fields.
    by destruct (of_message merged) as [? ? ? [d|] ?]; [|destruct Hd].
  - destruct (of_message merged) as [? ? ? [d|] ?]; [by destruct Hd|done].
Qed.
Lemma no_removed_mono l1 l2 l1' l2' :
  l1' ⊆ l1 → l2' ⊆ l2 → no_removed l1 l2 → no_removed l1' l2'.
Proof. intros H1' H2' Hno k v w Hv Hw. by apply (Hno k v w); [apply H1'|apply H2']. Qed.

(** The entries of a merged message, before the consumer adds what it has taken out. *)
Lemma message_merge_leaves m m' :
  let L := message_leaves (of_message m) in
  let R := of_message m' in
  NoDup (leaf_key <$> L ++ message_leaves R) →
  no_removed (L ++ message_leaves R) (L ++ message_leaves R) →
  message_leaves (of_message (message_merge (merge_left m) (merge_right m'))) ≡ₚ
    L ++ message_leaves (without_taken R).
Proof.
  intros L R Hnd Hno. pose proof (taken_leaves_perm R) as HR.
  assert (message_leaves (of_message (merge_left m)) = L) as HL by by rewrite merge_left_fields.
  assert (message_leaves (of_message (merge_right m')) = message_leaves (without_taken R))
    as HR' by by rewrite merge_right_fields.
  assert (message_leaves (without_taken R) ⊆ message_leaves R) as Hsub.
  { intros l Hl. rewrite HR. set_solver. }
  rewrite merge_leaves; rewrite ?HL, ?HR'; [done| | | |].
  - rewrite HR, app_assoc, fmap_app in Hnd. by apply NoDup_app in Hnd as [Hnd _].
  - eapply no_removed_mono; [..|exact Hno]; set_solver.
  - eapply no_removed_mono; [..|exact Hno]; set_solver.
  - rewrite merge_right_fields. intros d Hd. cbn in Hd. by destruct (sy_deltas _); simplify_eq/=.
Qed.

(** Adding what was taken out of [m0]. *)
Lemma add_taken_leaves accounts m0 m :
  NoDup (leaf_key <$> message_leaves m ++ taken_leaves m0) →
  (is_Some (sy_deltas m0) → is_Some (sy_deltas m)) →
  message_leaves (sy_set_deltas (fmap (with_taken (sy_deltas m0)))
    (sy_set_vm_storage (λ _, accounts) m)) ≡ₚ message_leaves m ++ taken_leaves m0.
Proof.
  intros Hnd Hdeltas. destruct m as [h states vm [d|] removed].
  - unfold message_leaves, tail_leaves in *.
    cbn [sy_states sy_deltas sy_removed_components sy_set_deltas sy_set_vm_storage fmap option_fmap
         option_map] in *.
    rewrite (with_taken_leaves m0 d (leaves StateLeaf states ++ leaves RemovedLeaf removed));
      [solve_Permutation|].
    eapply NoDup_Permutation_proper; [|exact Hnd]. apply fmap_Permutation. solve_Permutation.
  - unfold taken_leaves. destruct (sy_deltas m0); [by destruct Hdeltas|].
    unfold message_leaves, tail_leaves. cbn. by rewrite app_nil_r.
Qed.

Lemma merge_rest_leaves accounts m m' :
  let ls := message_leaves (of_message m) ++ message_leaves (of_message m') in
  NoDup (leaf_key <$> ls) → no_removed ls ls →
  message_leaves (of_message (merge_rest accounts m m')) ≡ₚ ls.
Proof.
  intros ls Hnd Hno. pose proof (message_merge_leaves m m' Hnd Hno) as HM.
  pose proof (taken_leaves_perm (of_message m')) as HR. unfold ls in *.
  rewrite merge_rest_fields, add_taken_leaves.
  - by rewrite HM, HR, app_assoc.
  - by rewrite HM, <- app_assoc, <- HR.
  - intros Hd. apply merge_has_deltas. right. rewrite merge_right_fields. by apply fmap_is_Some.
Qed.
(** ** Fragments of one message *)

Section fragments.
Context (message : BroadcasterProtocolMessage).

Abbreviation orig := (storage_of message).

Lemma identity_ok e f :
  fragment_of message e → fragment_of message f →
  ensure_raw_snapshot_fragment_identity e f = Ok tt.
Proof.
  intros [Pe Se He _] [Pf Sf Hf _]. unfold ensure_raw_snapshot_fragment_identity.
  rewrite !header_of_message. fold (pm_fields e) (pm_fields f).
  by rewrite He, Hf, Se, Sf, !bool_decide_eq_true_2.
Qed.

Lemma merge_rest_header accounts m m' :
  sy_header (of_message m) = sy_header (of_message m') →
  sy_header (of_message (merge_rest accounts m m')) = sy_header (of_message m').
Proof.
  intros Hh. rewrite merge_rest_fields. cbn. rewrite <- header_of_message, merge_header;
    by rewrite !header_of_message, ?merge_left_fields, !merge_right_fields.
Qed.

Lemma merge_rest_deltas accounts e f d :
  fragment_of message e → fragment_of message f →
  sy_deltas (of_message (merge_rest accounts (pm_message e) (pm_message f))) = Some d →
  ∃ d0, sy_deltas (pm_fields message) = Some d0 ∧ block_frame d = block_frame d0.
Proof.
  intros He Hf. rewrite merge_rest_fields.
  cbn [sy_deltas sy_set_deltas sy_set_vm_storage]. intros (d1 & Hd1 & ->)%fmap_Some.
  set (a := merge_left (pm_message e)) in *. set (b := merge_right (pm_message f)) in *.
  assert (∀ d', sy_deltas (of_message a) = Some d' ∨ sy_deltas (of_message b) = Some d' →
    ∃ d0, sy_deltas (pm_fields message) = Some d0 ∧ block_frame d' = block_frame d0) as Hfrom.
  { unfold a, b. rewrite merge_left_fields, merge_right_fields. intros d' [Hd'|Hd'].
    - by apply (fo_deltas _ _ He).
    - cbn in Hd'. apply fmap_Some in Hd' as (d2 & Hd2 & ->). by apply (fo_deltas _ _ Hf) in Hd2. }
  assert (is_Some (sy_deltas (of_message a)) ∨ is_Some (sy_deltas (of_message b))) as Hsome.
  { apply merge_has_deltas. by exists d1. }
  assert (∃ d0, sy_deltas (pm_fields message) = Some d0) as [d0 Hd0].
  { destruct Hsome as [[d' Hd']|[d' Hd']]; edestruct Hfrom as (d0 & ? & _); eauto. }
  exists d0. split; [done|]. change (block_frame (with_taken _ d1)) with (block_frame d1).
  apply (merge_frame _ a b d1); [|done]. intros d' Hd'.
  apply Hfrom in Hd' as (d2 & Hd2 & ->). by rewrite Hd0 in Hd2; injection Hd2 as ->.
Qed.

(** What the fragments with the leaves [ls] and the accounts [ps] have been merged into. *)
Record assembled (ls : list Leaf) (ps : hashmap ResponseAccount)
    (e : BroadcasterProtocolMessage) : Prop := {
  as_fragment : fragment_of message e;
  as_leaves : leaves_of e ≡ₚ ls;
  as_accounts : merged_accounts orig ps (storage_of e);
}.

Lemma merge_accounts_ok ps m more :
  NoDup orig.*1 → merged_accounts orig ps m → Forall (variant_in orig) more →
  (length more ≤ 1)%nat → NoDup (slot_key <$> flat (ps ++ more)) →
  ∃ m', merge_vm_storage m more = Ok m' ∧ merged_accounts orig (ps ++ more) m'.
Proof.
  intros Ho Hm Hv Hl Hnd. destruct more as [|entry [|]]; [| |by cbn in Hl; lia].
  - exists m. by rewrite app_nil_r.
  - apply merged_accounts_step; [done..|by inversion Hv|done].
Qed.

Lemma merge_fragment ls ps e f :
  NoDup orig.*1 → assembled ls ps e → fragment_of message f →
  NoDup (leaf_key <$> ls ++ leaves_of f) → no_removed (ls ++ leaves_of f) (ls ++ leaves_of f) →
  Forall (variant_in orig) (storage_of f) → (length (storage_of f) ≤ 1)%nat →
  NoDup (slot_key <$> flat (ps ++ storage_of f)) →
  ∃ e', merge_snapshot_protocol_message e f = Ok e' ∧
    assembled (ls ++ leaves_of f) (ps ++ storage_of f) e'.
Proof.
  intros Ho [He Hle Hacc] Hf Hnd Hno Hv Hl Hslots.
  assert (no_removed (leaves_of e ++ leaves_of f) (leaves_of e ++ leaves_of f)) as Hno'.
  { eapply no_removed_mono; [..|exact Hno]; intros l; by rewrite Hle. }
  rewrite <- Hle in Hnd.
  destruct (merge_accounts_ok ps (storage_of e) (storage_of f)) as (accounts & Hmerge & Hm);
    [done..|].
  exists {| pm_protocol := pm_protocol e; pm_sync_state := pm_sync_state e;
            pm_message := merge_rest accounts (pm_message e) (pm_message f) |}.
  unfold merge_snapshot_protocol_message.
  assert (String.eqb (pm_protocol e) (pm_protocol f) = true) as ->.
  { apply String.eqb_eq. by rewrite (fo_protocol _ _ He), (fo_protocol _ _ Hf). }
  cbn [negb]. rewrite identity_ok, conflicts_ok, !vm_storage_of_message by done.
  fold (pm_fields e) (pm_fields f). split.
  - cbn. rewrite Hmerge. cbn. unfold merge_rest.
    by destruct (has_deltas (set_vm_storage [] (pm_message f))).
  - split.
    + destruct He as [Pe Se Hh Hd]. pose proof (fo_header _ _ Hf) as Hhf.
      split; [done|done| |intros d; by apply merge_rest_deltas].
      unfold pm_fields in *. cbn [pm_message]. by rewrite merge_rest_header, Hhf; [|rewrite Hh, Hhf].
    + rewrite <- Hle. by apply merge_rest_leaves.
    + unfold pm_fields. cbn [pm_message]. by rewrite merge_rest_fields.
Qed.
Lemma push_fragments fs ls ps e r :
  NoDup orig.*1 → assembled ls ps e → r !! pm_protocol message = Some e →
  Forall (fragment_of message) fs → Forall (λ f, length (storage_of f) ≤ 1)%nat fs →
  (let all := ls ++ (fs ≫= λ f, leaves_of f) in
   NoDup (leaf_key <$> all) ∧ no_removed all all) →
  Forall (variant_in orig) (fs ≫= λ f, storage_of f) →
  NoDup (slot_key <$> flat (ps ++ (fs ≫= λ f, storage_of f))) →
  ∃ e', fold_result raw_snapshot_push r fs = Ok (<[pm_protocol message := e']> r) ∧
    assembled (ls ++ (fs ≫= λ f, leaves_of f)) (ps ++ (fs ≫= λ f, storage_of f)) e'.
Proof.
  intros Ho. revert ls ps e r. induction fs as [|f fs IH]; intros ls ps e r He Hr; csimpl.
  { exists e. by rewrite !app_nil_r, insert_id. }
  intros [Hf Hfs]%Forall_cons [Hone Hsingle]%Forall_cons [Hnd Hno] [Hvf Hv]%Forall_app Hslots.
  rewrite !app_assoc in Hnd, Hno, Hslots.
  destruct (merge_fragment ls ps e f) as (e1 & Hmerge & He1); [done..| | |done|done| |].
  { rewrite fmap_app in Hnd. by apply NoDup_app in Hnd as [Hnd _]. }
  { eapply no_removed_mono; [..|exact Hno]; set_solver. }
  { rewrite flat_app, fmap_app in Hslots. by apply NoDup_app in Hslots as [Hslots _]. }
  assert (raw_snapshot_push r f = Ok (<[pm_protocol message := e1]> r)) as ->.
  { unfold raw_snapshot_push. by rewrite (fo_protocol _ _ Hf), Hr, Hmerge. }
  cbn [mbind result_bind].
  destruct (IH _ _ _ (<[pm_protocol message := e1]> r) He1) as (e' & -> & He');
    [by rewrite lookup_insert_eq|done..|].
  exists e'. by rewrite insert_insert_eq, !app_assoc.
Qed.

(** ** Ranges of slots *)

Lemma variant_in_mono m m' entry : m ⊆ m' → variant_in m entry → variant_in m' entry.
Proof. intros Hm (account & slots & Ha & Hs). exists account, slots. split; [by apply Hm|done]. Qed.

Lemma pieces_variants don ps : pieces_of don ps → Forall (variant_in don) ps.
Proof.
  induction 1 as [|don ps a account rs _ IH _]; [done|]. apply Forall_app. split.
  - eapply Forall_impl; [exact IH|]. intros entry. apply variant_in_mono. set_solver.
  - apply Forall_fmap, Forall_forall. intros r _. exists account, (hm_collect r).
    split; [set_solver|done].
Qed.

Lemma pieces_keys don ps a : pieces_of don ps → a ∈ ps.*1 ↔ a ∈ don.*1.
Proof.
  induction 1 as [|don ps b account rs _ IH [Hrs _]]; [done|].
  rewrite !fmap_app, !elem_of_app, IH, <- list_fmap_compose. f_equiv.
  rewrite list_elem_of_fmap. cbn. rewrite list_elem_of_singleton. split.
  - by intros (r & -> & _).
  - intros ->. destruct rs as [|r rs]; [done|]. exists r. by split; [|left].
Qed.

Lemma ranges_flat a account rs :
  NoDup (account_slots account).*1 → ranges_of account rs →
  flat ((λ r, (a, set_account_slots (hm_collect r) account)) <$> rs) ≡ₚ flat [(a, account)].
Proof.
  intros Hnd [_ Hrs]. unfold flat at 2. cbn. rewrite app_nil_r.
  rewrite <- (sort_by_key_perm fst (account_slots account)), <- Hrs.
  assert (NoDup (concat rs).*1) as Hnd' by by rewrite Hrs, sort_by_key_perm.
  clear Hrs. induction rs as [|r rs IH]; [done|]. cbn [concat] in *.
  rewrite fmap_app in Hnd'. apply NoDup_app in Hnd' as (Hr & _ & Hrs).
  rewrite fmap_cons, flat_cons, fmap_app, IH by done. f_equiv.
  unfold flat. cbn. rewrite app_nil_r, slots_set_slots. by rewrite hm_collect_perm.
Qed.

Lemma pieces_flat don ps :
  pieces_of don ps → (∀ a account, (a, account) ∈ don → NoDup (account_slots account).*1) →
  flat ps ≡ₚ flat don.
Proof.
  induction 1 as [|don ps a account rs _ IH Hrs]; intros Hnd; [done|].
  rewrite !flat_app, IH, ranges_flat; [done| |done|].
  - apply (Hnd a). set_solver.
  - intros b account' Hb. apply (Hnd b). set_solver.
Qed.
(** ** The message rebuilt *)

Record reassembled (e : BroadcasterProtocolMessage) : Prop := {
  re_fragment : fragment_of message e;
  re_leaves : leaves_of e ≡ₚ leaves_of message;
  re_addresses : (storage_of e).*1 ≡ₚ orig.*1;
  re_accounts a account : (a, account) ∈ orig →
    ∃ slots, (a, set_account_slots slots account) ∈ storage_of e ∧
      slots ≡ₚ account_slots account;
}.

Lemma account_unique (m : hashmap ResponseAccount) a x y :
  NoDup m.*1 → (a, x) ∈ m → (a, y) ∈ m → x = y.
Proof. intros Hnd Hx%hm_get_Some Hy%hm_get_Some; [|done..]. by rewrite Hx in Hy; injection Hy. Qed.

(** The slots of one account among those of all. *)
Lemma flat_at (m : hashmap ResponseAccount) a account :
  NoDup m.*1 → (a, account) ∈ m →
  filter (λ x, x.1 = a) (flat m) ≡ₚ pair a <$> account_slots account.
Proof.
  intros Hnd [m' Hm]%elem_of_Permutation. rewrite Hm in Hnd |- *. rewrite flat_cons, filter_app.
  apply NoDup_cons in Hnd as [Ha _]. unfold flat at 1. cbn. rewrite app_nil_r.
  assert (filter (λ x, x.1 = a) (flat m') = []) as ->.
  { apply elem_of_nil_inv. intros x [Hxa Hx]%list_elem_of_filter.
    apply list_elem_of_bind in Hx as ([b account'] & Hin & Hb).
    apply list_elem_of_fmap in Hin as (s & -> & _). cbn in Hxa. subst b. apply Ha.
    apply list_elem_of_fmap. by exists (a, account'). }
  rewrite app_nil_r. clear. induction (account_slots account) as [|s slots IH]; [done|].
  rewrite fmap_cons, filter_cons_True by done. by rewrite IH.
Qed.

Lemma assembled_reassembled ps e :
  distinct_keys (pm_fields message) → pieces_of (sort_by_key fst orig) ps →
  assembled (leaves_of message) ps e → reassembled e.
Proof.
  intros [_ Ho Hslots] Hps [He Hl [Hnd Hflat Hvar Hkeys]].
  assert (∀ a, a ∈ (storage_of e).*1 ↔ a ∈ orig.*1) as Haddr.
  { intros a. by rewrite Hkeys, (pieces_keys _ _ _ Hps), sort_by_key_perm. }
  split; [done|done|by apply NoDup_Permutation|].
  intros a account Ha. assert (a ∈ (storage_of e).*1) as Hin.
  { apply Haddr, list_elem_of_fmap. by exists (a, account). }
  apply list_elem_of_fmap in Hin as ([b account'] & Hb & Hin). cbn in Hb. subst b.
  rewrite Forall_forall in Hvar. destruct (Hvar _ Hin) as (account0 & slots & Ha0 & Hs).
  cbn in Ha0, Hs. rewrite (account_unique orig a account0 account Ho Ha0 Ha) in Hs. subst account'.
  exists slots. split; [done|].
  assert (flat (storage_of e) ≡ₚ flat orig) as Hfl.
  { rewrite Hflat, (pieces_flat _ _ Hps), sort_by_key_perm; [done|].
    intros b acc. rewrite sort_by_key_perm. apply Hslots. }
  pose proof (flat_at _ _ _ Hnd Hin) as H1'. rewrite Hfl, (flat_at _ _ _ Ho Ha) in H1'.
  apply (fmap_Permutation snd) in H1'. rewrite <- !list_fmap_compose in H1'.
  rewrite !list_fmap_id, slots_set_slots in H1'. done.
Qed.
Lemma flat_nodup (m : hashmap ResponseAccount) :
  NoDup m.*1 → (∀ a account, (a, account) ∈ m → NoDup (account_slots account).*1) →
  NoDup (slot_key <$> flat m).
Proof.
  induction m as [|[a account] m IH]; [constructor|].
  rewrite fmap_cons. intros [Ha Hnd]%NoDup_cons Hslots.
  rewrite flat_cons, fmap_app, flat_keys_one. apply NoDup_app. split_and!.
  - apply NoDup_fmap; [by intros ? ? [=]|]. apply (Hslots a). by left.
  - intros key (k & -> & _)%list_elem_of_fmap ([b [k' v]] & [= <- _] & Hin)%list_elem_of_fmap.
    apply Ha. apply list_elem_of_bind in Hin as ([b' account'] & Hin & Hm).
    apply list_elem_of_fmap in Hin as (s & [= -> _] & _). apply list_elem_of_fmap.
    by exists (b', account').
  - apply IH; [done|]. intros b account' Hb. apply (Hslots b). by right.
Qed.

Lemma first_assembled f :
  fragment_of message f → Forall (variant_in orig) (storage_of f) →
  (length (storage_of f) ≤ 1)%nat → assembled (leaves_of f) (storage_of f) f.
Proof.
  intros Hf Hv Hl. split; [done..|]. destruct (storage_of f) as [|entry [|]]; [| |by cbn in Hl; lia].
  - by repeat constructor.
  - apply merged_accounts_one. by inversion Hv.
Qed.
End fragments.

Section export.
Context `{!SerdeJson} `{!ListJson}.

(** C18: the fragments a message is cut into for a snapshot, pushed one by one into the
    consumer's reassembly, pass all of its checks and give the message back: its protocol,
    synchronizer state and header, every entry of every map once, and every account with
    all of its slots.  No component of the message may be removed by it, and a message with
    nothing in it yields no fragment. *)
Theorem fragments_reassemble ctx message sync_statuses r fs :
  distinct_keys (pm_fields message) →
  (∀ k, k ∈ (sy_states (pm_fields message)).*1 →
     k ∉ (sy_removed_components (pm_fields message)).*1) →
  split_protocol_message_for_snapshot ctx message sync_statuses = Ok fs →
  fs ≠ [] → r !! pm_protocol message = None →
  ∃ e, fold_result raw_snapshot_push r fs = Ok (<[pm_protocol message := e]> r) ∧
    reassembled message e.
Proof.
  intros Hdist Hno%no_removed_ids Hsplit Hne Hr. pose proof Hdist as [Hnd Ho Hslots].
  apply split_message_cut in Hsplit as (ps & Hps & [Hf Hfits Hl Hs H1s]); [|done].
  destruct fs as [|f fs]; [done|]. csimpl in *. cbn [fold_result].
  apply Forall_cons in Hf as [Hf Hfs]. apply Forall_cons in H1s as [Hone Hsingle].
  assert (Forall (variant_in (storage_of message)) ps) as Hv.
  { eapply Forall_impl; [exact (pieces_variants _ _ Hps)|]. intros entry. apply variant_in_mono.
    intros x. by rewrite sort_by_key_perm. }
  rewrite <- Hs in Hv. apply Forall_app in Hv as [Hvf Hv].
  assert (raw_snapshot_push r f = Ok (<[pm_protocol message := f]> r)) as ->.
  { unfold raw_snapshot_push. by rewrite (fo_protocol _ _ Hf), Hr. }
  cbn [mbind result_bind].
  destruct (push_fragments message fs (leaves_of f) (storage_of f) f
    (<[pm_protocol message := f]> r)) as (e & Hpush & He);
    [done|by apply first_assembled|by rewrite lookup_insert_eq|done|done| |done| |].
  - cbn. split; [change (map ?g ?l) with (g <$> l) in Hnd; by rewrite Hl|].
    eapply no_removed_mono; [..|exact Hno]; intros l; by rewrite Hl.
  - rewrite Hs, (pieces_flat _ _ Hps), sort_by_key_perm; [by apply flat_nodup|].
    intros a account. rewrite sort_by_key_perm. apply Hslots.
  - rewrite insert_insert_eq in Hpush. exists e. split; [done|]. rewrite Hs in He.
    eapply assembled_reassembled; [done|exact Hps|]. destruct He as [Ff Fl Fa].
    split; [done|by rewrite Fl|done].
Qed.

(** Every fragment of a message keeps its protocol, synchronizer state and header, the
    block of its deltas included, and its chunk stays within the byte limit, the first
    fragment together with the synchronizer statuses. *)
Theorem fragments_bounded ctx message sync_statuses fs i f :
  distinct_keys (pm_fields message) →
  split_protocol_message_for_snapshot ctx message sync_statuses = Ok fs → fs !! i = Some f →
  fragment_of message f ∧
  ∃ size, raw_fragment_size ctx f sync_statuses (bool_decide (i = 0%nat)) = Ok size ∧
    (size ≤ cx_max_payload_bytes ctx)%N.
Proof.
  intros Hdist Hsplit Hi. apply split_message_cut in Hsplit as (ps & _ & [Hf Hfits _ _ _]); [|done].
  split; [by apply (Forall_lookup_1 _ _ _ _ Hf Hi)|]. apply Hfits in Hi.
  unfold fits_at, raw_fragment_fits in Hi. apply bind_ok in Hi as (size & Hsize & [= Hle]).
  exists size. split; [done|]. by apply N.leb_le.
Qed.
End export.
End merge.
