(* ===== verification/ExportChunks.v ===== *)
(** * The chunks of a snapshot

    The chunks of an export carry the states or the fragments of every backend in order,
    each once, under consecutive indices, the statuses in the first chunk of a backend; and
    a consumer that follows the export ends live exactly when no declared backend is left
    without a chunk. *)

From S2P Require Import Prelude Ordered Text Protocol Wire Validate TychoFeed Tracker Codec.
From S2P Require Import RedisEntry Replay Recovery Reassembly RawMessage SnapshotExport.
From S2P Require Import ExportSplit.

Section chunks.
Context `{SyncFields} `{!SerdeJson} `{!ListJson}.

(** ** Filling chunks *)

Section packing.
Context {A : Type} (ctx : SnapshotChunkBuildContext).
Context (fit : usize → list A → btree string BroadcasterProtocolSyncStatus → anyhow bool).
Context (chunk : usize → list A → btree string BroadcasterProtocolSyncStatus →
  anyhow BroadcasterSnapshotChunk).
Context (too_large : A → string) (base : usize).
Context (statuses : btree string BroadcasterProtocolSyncStatus).

Definition statuses_at (i : nat) : btree string BroadcasterProtocolSyncStatus :=
  if bool_decide (i = 0%nat) then statuses else ∅.

(** The chunks of the groups, the first with the statuses. *)
Definition chunks_of (groups : list (list A)) (chunks : list BroadcasterSnapshotChunk) : Prop :=
  length groups = length chunks ∧
  ∀ i g c, groups !! i = Some g → chunks !! i = Some c →
    chunk (base + N.of_nat i) g (statuses_at i) = Ok c.

Definition packed (all : list A) (p : Packing A) : Prop :=
  (∃ groups, chunks_of groups (pk_chunks _ p) ∧ concat groups ++ pk_items _ p = all) ∧
  pk_sync_statuses _ p = statuses_at (length (pk_chunks _ p)) ∧
  (pk_chunks _ p ≠ [] → pk_items _ p ≠ []).

Lemma chunks_of_snoc groups chunks g c :
  chunks_of groups chunks → chunk (base + len chunks) g (statuses_at (length chunks)) = Ok c →
  chunks_of (groups ++ [g]) (chunks ++ [c]).
Proof.
  intros [Hl Hc] Hchunk. split; [rewrite !length_app; cbn; lia|].
  intros i g' c' [Hg|[Hi Hg]]%lookup_app_Some Hc'.
  - rewrite lookup_app_l in Hc'; [by apply Hc|]. rewrite <- Hl. by eapply lookup_lt_Some.
  - apply list_lookup_singleton_Some in Hg as [Hi0 <-].
    assert (i = length chunks) as -> by lia.
    rewrite list_lookup_middle in Hc' by done. injection Hc' as <-. done.
Qed.

Lemma packing_start_packed : packed [] (packing_start statuses).
Proof.
  split; [|by split]. exists []. split; [|done]. split; [done|]. intros i g c Hg. done.
Qed.

Lemma pack_item_packed all p item p' :
  packed all p → pack_item fit chunk too_large base p item = Ok p' → packed (all ++ [item]) p'.
Proof.
  intros ((groups & Hgroups & <-) & Hst & Hne). unfold pack_item.
  intros ([] & _ & Hr)%bind_ok.
  - injection Hr as <-. unfold packed. cbn. split; [|split; [done|by intros _ [_ ?]%app_nil]].
    exists groups. split; [done|]. apply app_assoc.
  - destruct (pk_items A p) as [|x items] eqn:Hitems; [done|].
    apply bind_ok in Hr as (c & Hc & [= <-]). unfold packed. cbn. split; [|split].
    + exists (groups ++ [x :: items]). split.
      * rewrite Hst in Hc. by apply chunks_of_snoc.
      * rewrite concat_app. cbn. by rewrite app_nil_r.
    + unfold statuses_at. rewrite length_app. by rewrite bool_decide_eq_false_2 by (cbn; lia).
    + done.
Qed.

Lemma pack_items_packed all p items p' :
  packed all p → fold_result (pack_item fit chunk too_large base) p items = Ok p' →
  packed (all ++ items) p'.
Proof.
  intros Hp Hf. apply (fold_result_inv _ (λ l p, packed (all ++ l) p) _ _ _ Hf);
    [by rewrite app_nil_r|].
  intros don x p1 p2 _ Hp1 Hx. rewrite app_assoc. by eapply pack_item_packed.
Qed.

Lemma pack_rest_packed all p chunks :
  packed all p → pack_rest chunk base p = Ok chunks →
  (∃ groups, chunks_of groups chunks ∧ concat groups = all) ∧
  (chunks = [] ↔ all = [] ∧ statuses = ∅).
Proof.
  intros ((groups & Hgroups & <-) & Hst & Hne). unfold pack_rest. intros Hr.
  destruct (negb _ || negb _) eqn:Hrest.
  - apply bind_ok in Hr as (c & Hc & [= <-]). rewrite Hst in Hc. split.
    + exists (groups ++ [pk_items A p]). split; [by apply chunks_of_snoc|].
      by rewrite concat_app; cbn; rewrite app_nil_r.
    + split; [by intros [_ ?]%app_nil|]. intros [[_ Hitems]%app_nil Hs]. exfalso.
      assert (statuses_at (length (pk_chunks A p)) = ∅) as Hnone.
      { unfold statuses_at. rewrite Hs. by destruct (bool_decide (length (pk_chunks A p) = 0%nat)). }
      by rewrite Hitems, Hst, Hnone in Hrest.
  - injection Hr as <-. apply orb_false_iff in Hrest as [Hi Hs].
    apply negb_false_iff, bool_decide_eq_true, nil_length_inv in Hi.
    apply negb_false_iff, bool_decide_eq_true in Hs.
    assert (pk_chunks A p = []) as Hnil.
    { destruct (pk_chunks A p); [done|]. by destruct Hne. }
    rewrite Hi, app_nil_r. rewrite Hnil in Hst, Hgroups |- *. rewrite Hs in Hst. split.
    + by exists groups.
    + destruct Hgroups as [Hl _]. rewrite (nil_length_inv groups Hl). by rewrite Hst.
Qed.
End packing.
(** ** One backend *)

(** The chunk of one partition. *)
Definition single_chunk (snapshot_id : string) (index : N)
    (p : BroadcasterSnapshotPartition) : BroadcasterSnapshotChunk :=
  {| sc_snapshot_id := snapshot_id; sc_chunk_index := index; sc_partitions := [p] |}.

Lemma snapshot_chunk_ok ctx i p c :
  snapshot_chunk ctx i p = Ok c →
  c = single_chunk (cx_snapshot_id ctx) i p ∧ snapshot_content_ok p ∧ (i ≤ u32_max)%N.
Proof.
  unfold snapshot_chunk. intros (i' & Hi & Hc)%bind_ok.
  assert (i' = i ∧ (i ≤ u32_max)%N) as [-> Hle].
  { unfold u32_of_usize, with_context, map_err, ok_or in Hi.
    destruct (u32_try_from i) eqn:Hu; [|done]. injection Hi as <-. by apply u32_try_from_Some. }
  unfold from_contract, map_err in Hc.
  destruct (BroadcasterSnapshotChunk_new _ _ _) as [c'|] eqn:Hnew; [|done]. injection Hc as ->.
  apply seq_ok in Hnew as [Hv [= <-]]. apply validate_snapshot_chunk_partitions_ok in Hv as [_ Hv].
  split; [done|]. split; [|done]. cbn in Hv. by inversion Hv.
Qed.

(** The fragments of the messages of a partition, cut with or without the statuses. *)
Definition cut_from (ctx : SnapshotChunkBuildContext) (partition : BroadcasterPartitionState)
    (m : BroadcasterProtocolMessage) (fs : list BroadcasterProtocolMessage) : Prop :=
  split_protocol_message_for_snapshot ctx m (ps_sync_statuses partition) = Ok fs ∨
  split_protocol_message_for_snapshot ctx m ∅ = Ok fs.

(** The partitions that carry the state of a backend. *)
Record carries (ctx : SnapshotChunkBuildContext) (partition : BroadcasterPartitionState)
    (parts : list BroadcasterSnapshotPartition) : Prop := {
  ca_backend : Forall (λ p, sp_backend p = cx_backend ctx) parts;
  ca_block : Forall (λ p, sp_block_number p = cx_block_number ctx) parts;
  ca_statuses i p : parts !! i = Some p →
    sp_sync_statuses p = statuses_at (ps_sync_statuses partition) i;
  ca_states : ps_messages partition = [] →
    parts ≫= sp_states ≡ₚ bt_values (ps_states partition) ∧ parts ≫= sp_messages = [];
  ca_messages : ps_messages partition ≠ [] →
    ∃ fss, Forall2 (cut_from ctx partition) (ps_messages partition) fss ∧
      parts ≫= sp_messages = concat fss ∧ parts ≫= sp_states = [];
  ca_silent : parts = [] → ps_sync_statuses partition = ∅ ∧
    (ps_messages partition = [] → bt_values (ps_states partition) = []);
  ca_void : ps_sync_statuses partition = ∅ → ps_messages partition = [] →
    bt_values (ps_states partition) = [] → parts = [];
}.

(** Chunks with one partition each, numbered from [base]. *)
Definition numbered_chunks (snapshot_id : string) (base : N)
    (parts : list BroadcasterSnapshotPartition) (chunks : list BroadcasterSnapshotChunk) : Prop :=
  chunks = imap (λ i p, single_chunk snapshot_id (base + N.of_nat i) p) parts ∧
  Forall snapshot_content_ok parts.

(** The partitions behind the chunks of groups. *)
Lemma chunks_of_parts {A} ctx (make : list A → btree string BroadcasterProtocolSyncStatus →
    BroadcasterSnapshotPartition) base statuses groups chunks :
  chunks_of (λ i g st, snapshot_chunk ctx i (make g st)) base statuses groups chunks →
  numbered_chunks (cx_snapshot_id ctx) base (imap (λ i g, make g (statuses_at statuses i)) groups)
    chunks.
Proof.
  intros [Hl Hc]. split.
  - apply list_eq. intros i. rewrite !list_lookup_imap.
    destruct (groups !! i) as [g|] eqn:Hg; cbn.
    + assert (is_Some (chunks !! i)) as [c Hci].
      { apply lookup_lt_is_Some. rewrite <- Hl. by eapply lookup_lt_Some. }
      rewrite Hci. f_equal. by apply (Hc _ _ _ Hg), snapshot_chunk_ok in Hci as (-> & _ & _).
    + apply lookup_ge_None. rewrite <- Hl. by apply lookup_ge_None.
  - apply Forall_lookup. intros i p Hp. rewrite list_lookup_imap in Hp.
    apply fmap_Some in Hp as (g & Hg & ->).
    assert (is_Some (chunks !! i)) as [c Hci].
    { apply lookup_lt_is_Some. rewrite <- Hl. by eapply lookup_lt_Some. }
    by apply (Hc _ _ _ Hg), snapshot_chunk_ok in Hci as (_ & ? & _).
Qed.
Lemma statuses_at_cases statuses i : statuses_at statuses i = statuses ∨ statuses_at statuses i = ∅.
Proof. unfold statuses_at. case_bool_decide; [by left|by right]. Qed.

Section partition.
Context (ctx : SnapshotChunkBuildContext) (partition : BroadcasterPartitionState) (base : usize).

Abbreviation statuses := (ps_sync_statuses partition).
Abbreviation packed_states := (packed (states_chunk ctx) base statuses).
Abbreviation packed_messages := (packed (messages_chunk ctx) base statuses).

Lemma pack_message_packed all p m p' :
  packed_messages all p → pack_message ctx base p m = Ok p' →
  ∃ fs, cut_from ctx partition m fs ∧ packed_messages (all ++ fs) p'.
Proof.
  intros Hp (fs & Hfs & Hr)%bind_ok. exists fs. split; [|by eapply pack_items_packed].
  destruct Hp as (_ & Hst & _). rewrite Hst in Hfs. unfold cut_from.
  by destruct (statuses_at_cases statuses (length (pk_chunks _ p))) as [<-|<-]; [left|right].
Qed.

Lemma pack_messages_packed p ms p' :
  packed_messages [] p → fold_result (pack_message ctx base) p ms = Ok p' →
  ∃ fss, Forall2 (cut_from ctx partition) ms fss ∧ packed_messages (concat fss) p'.
Proof.
  intros Hp Hf.
  apply (fold_result_inv _ (λ l p, ∃ fss, Forall2 (cut_from ctx partition) l fss ∧
    packed_messages (concat fss) p) _ _ _ Hf); [by exists []|].
  intros don m p1 p2 _ (fss & Hfss & Hp1) Hm.
  apply (pack_message_packed _ _ _ _ Hp1) in Hm as (fs & Hfs & Hp2).
  exists (fss ++ [fs]). split; [by apply Forall2_app; [|constructor]|].
  rewrite concat_app. cbn. by rewrite app_nil_r.
Qed.

Lemma imap_bind {A B C} (f : nat → A → B) (field : B → list C) (h : A → list C) l :
  (∀ i x, field (f i x) = h x) → imap f l ≫= field = l ≫= h.
Proof.
  revert f. induction l as [|x l IH]; intros f Hf; [done|]. csimpl. rewrite Hf. f_equal.
  apply IH. intros i y. apply Hf.
Qed.

Lemma bind_id {A} (l : list (list A)) : l ≫= id = concat l.
Proof. induction l as [|x l IH]; [done|]. csimpl. by rewrite IH. Qed.

Lemma bind_nil {A B} (l : list A) : l ≫= (λ _, []) = ([] : list B).
Proof. by induction l. Qed.

Lemma bind_sorted {A K} `{TotalOrder K} (key : A → K) (l : list (list A)) :
  l ≫= sort_by_key key ≡ₚ concat l.
Proof. induction l as [|x l IH]; [done|]. csimpl. by rewrite IH, sort_by_key_perm. Qed.

Lemma forall_imap {A B} (f : nat → A → B) (P : B → Prop) l :
  (∀ i x, P (f i x)) → Forall P (imap f l).
Proof.
  intros Hf. apply Forall_lookup. intros i y. rewrite list_lookup_imap.
  intros (x & _ & ->)%fmap_Some. apply Hf.
Qed.

Lemma imap_statuses {A} (make : list A → btree string BroadcasterProtocolSyncStatus →
    BroadcasterSnapshotPartition) groups i p :
  (∀ g st, sp_sync_statuses (make g st) = st) →
  imap (λ i g, make g (statuses_at statuses i)) groups !! i = Some p →
  sp_sync_statuses p = statuses_at statuses i.
Proof. intros Hm. rewrite list_lookup_imap. intros (g & _ & ->)%fmap_Some. apply Hm. Qed.

Lemma partition_carried chunks :
  build_partition_snapshot_chunks ctx partition base = Ok chunks →
  ∃ parts, numbered_chunks (cx_snapshot_id ctx) base parts chunks ∧ carries ctx partition parts.
Proof.
  unfold build_partition_snapshot_chunks.
  destruct (ps_messages partition) as [|m ms] eqn:Hms; intros (p & Hp & Hr)%bind_ok.
  - eapply pack_items_packed in Hp; [|apply packing_start_packed].
    eapply pack_rest_packed in Hr as [(groups & Hgroups & Hall) Hnil]; [|exact Hp].
    apply chunks_of_parts in Hgroups. eexists. split; [exact Hgroups|].
    split; [by apply forall_imap..|intros i q; by apply imap_statuses| | | |].
    + intros _. rewrite (imap_bind _ sp_states (sort_by_key se_component_id)) by done.
      rewrite (imap_bind _ sp_messages (λ _, [])), bind_nil, bind_sorted by done.
      by rewrite Hall.
    + by rewrite Hms.
    + intros Hparts. destruct Hgroups as [-> _]. rewrite Hparts in Hnil. naive_solver.
    + intros Hs _ Hv. destruct Hgroups as [Hchunks _]. destruct Hnil as [_ Hnil].
      rewrite Hnil in Hchunks by done. by destruct groups.
  - eapply pack_messages_packed in Hp as (fss & Hfss & Hp); [|apply packing_start_packed].
    eapply pack_rest_packed in Hr as [(groups & Hgroups & Hall) Hnil]; [|exact Hp].
    apply chunks_of_parts in Hgroups. eexists. split; [exact Hgroups|].
    split; [by apply forall_imap..|intros i q; by apply imap_statuses|by rewrite Hms| | |by rewrite Hms].
    + intros _. exists fss. split; [by rewrite Hms|].
      rewrite (imap_bind _ sp_messages id), (imap_bind _ sp_states (λ _, [])) by done.
      by rewrite bind_id, bind_nil.
    + intros Hparts. destruct Hgroups as [-> _]. rewrite Hparts in Hnil.
      split; [naive_solver|]. by rewrite Hms.
Qed.
End partition.
(** ** All backends *)

Lemma numbered_chunks_app id parts1 parts2 chunks1 chunks2 :
  numbered_chunks id 0 parts1 chunks1 → numbered_chunks id (len chunks1) parts2 chunks2 →
  numbered_chunks id 0 (parts1 ++ parts2) (chunks1 ++ chunks2).
Proof.
  intros [Hc1 Hf1] [Hc2 Hf2]. split; [|by apply Forall_app].
  rewrite imap_app, <- Hc1, Hc2. f_equal. apply imap_ext. intros i p _. cbn. f_equal.
  rewrite Hc1. unfold len. rewrite length_imap. lia.
Qed.

Section snapshot.
Context (stream_id snapshot_id : string) (max_payload_bytes : usize).

(** The partitions of a configured backend: none when there is no state for it. *)
Definition backend_parts (partitions : btree BroadcasterBackend BroadcasterPartitionState)
    (backend : BroadcasterBackend) (parts : list BroadcasterSnapshotPartition) : Prop :=
  match partitions !! backend with
  | None => parts = []
  | Some partition =>
      carries (chunk_context stream_id snapshot_id max_payload_bytes backend partition)
        partition parts
  end.

Lemma chunks_carried configured partitions chunks :
  build_snapshot_chunks stream_id snapshot_id max_payload_bytes configured partitions = Ok chunks →
  ∃ pss, Forall2 (backend_parts partitions) configured pss ∧
    numbered_chunks snapshot_id 0 (concat pss) chunks.
Proof.
  intros Hf. apply (fold_result_inv _ (λ bs chunks, ∃ pss,
    Forall2 (backend_parts partitions) bs pss ∧
    numbered_chunks snapshot_id 0 (concat pss) chunks) _ _ _ Hf); [by exists []|].
  intros don b chunks1 chunks2 _ (pss & Hpss & Hnum) Hb.
  destruct (partitions !! b) as [partition|] eqn:Hp.
  - apply bind_ok in Hb as (more & Hmore & [= <-]).
    apply partition_carried in Hmore as (parts & Hparts & Hcarries).
    exists (pss ++ [parts]). split.
    + apply Forall2_app; [done|]. constructor; [|done]. unfold backend_parts. by rewrite Hp.
    + rewrite concat_app. cbn. rewrite app_nil_r. by apply numbered_chunks_app.
  - injection Hb as <-. exists (pss ++ [[]]). split.
    + apply Forall2_app; [done|]. constructor; [|done]. unfold backend_parts. by rewrite Hp.
    + rewrite concat_app. cbn. by rewrite !app_nil_r.
Qed.

Lemma backend_parts_backend partitions b parts p :
  backend_parts partitions b parts → p ∈ parts → sp_backend p = b.
Proof.
  unfold backend_parts. destruct (partitions !! b) as [partition|]; [|by intros ->; intros ?%elem_of_nil].
  intros [Hb _ _ _ _ _ _] Hp. rewrite Forall_forall in Hb. by apply Hb.
Qed.

(** The backends that have a chunk. *)
Lemma parts_backends partitions configured pss b :
  Forall2 (backend_parts partitions) configured pss →
  b ∈ map sp_backend (concat pss) ↔
  ∃ i parts, configured !! i = Some b ∧ pss !! i = Some parts ∧ parts ≠ [].
Proof.
  intros Hpss. change (map ?f ?l) with (f <$> l). rewrite list_elem_of_fmap. split.
  - intros (p & -> & Hp). rewrite <- bind_id in Hp. apply list_elem_of_bind in Hp as (parts & Hp & Hin).
    apply list_elem_of_lookup in Hin as [i Hi].
    destruct (Forall2_lookup_r _ _ _ _ _ Hpss Hi) as (b & Hb & Hparts).
    exists i, parts. rewrite (backend_parts_backend _ _ _ _ Hparts Hp).
    split_and!; [done|done|]. intros ->. by apply elem_of_nil in Hp.
  - intros (i & [|p parts] & Hb & Hi & Hne); [done|].
    destruct (Forall2_lookup_r _ _ _ _ _ Hpss Hi) as (b' & Hb' & Hparts).
    rewrite Hb in Hb'. injection Hb' as <-. exists p. split.
    + symmetry. eapply backend_parts_backend; [exact Hparts|by left].
    + rewrite <- bind_id. apply list_elem_of_bind. exists (p :: parts). split; [by left|].
      by eapply list_elem_of_lookup_2.
Qed.
End snapshot.
(** ** Exports *)

(** The envelopes a session hands out for an export. *)
Definition session_envelopes (export : BroadcasterSnapshotExport) : list BroadcasterEnvelope :=
  imap (λ i payload, {| env_stream_id := xp_stream_id export;
                        env_message_seq := N.of_nat i + 1; env_payload := payload |})
    (xp_payloads export).

Definition exported_payloads (start : BroadcasterSnapshotStart) (id : string)
    (chunks : list BroadcasterSnapshotChunk) : list BroadcasterPayload :=
  SnapshotStart start :: map SnapshotChunk chunks ++ [SnapshotEnd {| sn_snapshot_id := id |}].

Definition payload_fits (max : usize) (envelope : BroadcasterEnvelope) : Prop :=
  ∃ size, envelope_size envelope = Ok size ∧ (size ≤ max)%N.

Section exports.
Context (chain_id : u64) (configured : list BroadcasterBackend).
Context (source : BroadcasterSnapshotSource) (max : usize).

Abbreviation parts_of := (backend_parts (src_stream_id source) (src_snapshot_id source) max
  (src_partitions source)).

Record exported (pss : list (list BroadcasterSnapshotPartition))
    (chunks : list BroadcasterSnapshotChunk) (export : BroadcasterSnapshotExport) : Prop := {
  ex_stream : xp_stream_id export = src_stream_id source;
  ex_snapshot : xp_snapshot_id export = src_snapshot_id source;
  ex_unique : NoDup configured;
  ex_payloads :
    xp_payloads export =
      exported_payloads {| ss_snapshot_id := src_snapshot_id source; ss_chain_id := chain_id;
                           ss_backends := sort configured; ss_total_chunks := as_u32 (len chunks) |}
        (src_snapshot_id source) chunks;
  ex_chunks : numbered_chunks (src_snapshot_id source) 0 (concat pss) chunks;
  ex_parts : Forall2 parts_of configured pss;
  ex_fits : Forall (payload_fits max) (session_envelopes export);
}.

Lemma ensure_payload_fits_ok stream_id seq payload :
  ensure_payload_fits stream_id seq payload max = Ok tt →
  payload_fits max {| env_stream_id := stream_id; env_message_seq := seq; env_payload := payload |}.
Proof.
  intros (size & Hsize & Hle)%bind_ok. exists size. split; [done|].
  destruct (N.leb_spec size max); [done|]. discriminate.
Qed.

Lemma export_exported export :
  export_snapshot_source chain_id configured source max = Ok export →
  ∃ pss chunks, exported pss chunks export.
Proof.
  unfold export_snapshot_source, snapshot_payloads. intros (chunks & Hchunks & Hr)%bind_ok.
  apply bind_ok in Hr as (payloads & Hp & Hr). apply bind_ok in Hp as (start & Hstart & [= <-]).
  apply seq_ok in Hr as [Hfit [= <-]].
  apply chunks_carried in Hchunks as (pss & Hpss & Hnum). exists pss, chunks.
  unfold from_contract, map_err in Hstart.
  destruct (BroadcasterSnapshotStart_new _ _ _ _) as [s|] eqn:Hs; [|done].
  injection Hstart as <-. apply seq_ok in Hs as [Hv [= <-]].
  unfold validate_snapshot_start_backends, validate_unique_backends in Hv.
  apply validate_unique_backend_entries_ok in Hv. rewrite (sort_by_key_perm id) in Hv.
  split; [done..|].
  unfold session_envelopes. apply Forall_lookup. intros i e. rewrite list_lookup_imap.
  intros (payload & Hi & ->)%fmap_Some. apply ensure_payload_fits_ok.
  apply for_each_ok in Hfit. rewrite Forall_forall in Hfit.
  assert ((i, payload) ∈ imap pair (exported_payloads {| ss_snapshot_id := src_snapshot_id source;
    ss_chain_id := chain_id; ss_backends := sort configured;
    ss_total_chunks := as_u32 (len chunks) |} (src_snapshot_id source) chunks)) as Hin.
  { apply list_elem_of_lookup_2 with (i := i). rewrite list_lookup_imap.
    cbn [xp_payloads] in Hi. unfold exported_payloads. by rewrite Hi. }
  apply Hfit in Hin. cbn in Hin. unfold with_context, map_err in Hin. cbn.
  by destruct (ensure_payload_fits _ _ _ _) as [[]|].
Qed.
End exports.
(** ** Sessions *)

Definition numbered_from (stream_id : string) (n : N) (payloads : list BroadcasterPayload) :
    list BroadcasterEnvelope :=
  imap (λ i payload, {| env_stream_id := stream_id; env_message_seq := n + N.of_nat i;
                        env_payload := payload |}) payloads.

Lemma numbered_from_cons stream_id n payload payloads :
  numbered_from stream_id n (payload :: payloads) =
    {| env_stream_id := stream_id; env_message_seq := n; env_payload := payload |}
      :: numbered_from stream_id (n + 1) payloads.
Proof.
  unfold numbered_from. cbn. rewrite N.add_0_r. f_equal. apply imap_ext. intros i x _. cbn.
  f_equal. lia.
Qed.

Lemma imap_chunks_cons id k p parts :
  imap (λ i p, single_chunk id (k + N.of_nat i) p) (p :: parts) =
    single_chunk id k p :: imap (λ i p, single_chunk id (k + 1 + N.of_nat i) p) parts.
Proof.
  cbn. rewrite N.add_0_r. f_equal. apply imap_ext. intros i x _. cbn. f_equal. lia.
Qed.

(** The rest of a session, from a chunk on. *)
Lemma session_tail_iff s n parts :
  (so_next_chunk_index s + len parts = so_total_chunks s)%N →
  Forall snapshot_content_ok parts →
  Forall (λ p, sp_backend p ∈ so_declared_backends s) parts →
  (n + len parts + 1 ≤ u64_max)%N →
  session_tail s n (numbered_from (so_stream_id s) n
    (map SnapshotChunk (imap (λ i p, single_chunk (so_snapshot_id s)
       (so_next_chunk_index s + N.of_nat i) p) parts)
     ++ [SnapshotEnd {| sn_snapshot_id := so_snapshot_id s |}])) ↔
  so_declared_backends s ⊆ so_observed_backends s ∪ list_to_set (map sp_backend parts).
Proof.
  revert s n. induction parts as [|p parts IH]; intros s n Htotal Hok Hdecl Hmax.
  - cbn [imap map app]. rewrite numbered_from_cons. erewrite session_tail_end by done.
    unfold len in *. cbn in *. split; [set_solver|]. intros Hd.
    split_and!; [done|done|lia|done|done|lia|set_solver|done].
  - apply Forall_cons in Hok as [Hp Hok]. apply Forall_cons in Hdecl as [Hb Hdecl].
    rewrite len_cons in *. rewrite imap_chunks_cons. cbn [map app].
    rewrite numbered_from_cons. erewrite session_tail_chunk by done.
    specialize (IH (chunked s (single_chunk (so_snapshot_id s) (so_next_chunk_index s) p)) (n + 1)%N).
    cbn [chunked so_next_chunk_index so_total_chunks so_declared_backends so_stream_id
         so_snapshot_id so_observed_backends] in IH.
    rewrite IH; [|lia|done|done|lia]. clear IH.
    assert (chunk_ok (so_snapshot_id s) (so_declared_backends s) (so_next_chunk_index s)
      (single_chunk (so_snapshot_id s) (so_next_chunk_index s) p)) as Hchunk.
    { split_and!; [done|done|apply NoDup_singleton|by constructor|]. intros q. cbn. set_solver. }
    cbn [env_stream_id env_message_seq]. unfold chunk_backends. cbn. split.
    + intros (_ & _ & _ & _ & _ & Hd). set_solver.
    + intros Hd. split_and!; [done|done|lia|lia|done|set_solver].
Qed.
Lemma session_envelopes_numbered export :
  session_envelopes export = numbered_from (xp_stream_id export) 1 (xp_payloads export).
Proof. apply imap_ext. intros i p _. cbn. f_equal. lia. Qed.

Section properties.
Context (chain_id : u64) (configured : list BroadcasterBackend).
Context (source : BroadcasterSnapshotSource) (max : usize).

Lemma parts_declared pss chunks export :
  exported chain_id configured source max pss chunks export →
  Forall (λ p, sp_backend p ∈@{gset BroadcasterBackend} list_to_set (sort configured)) (concat pss).
Proof.
  intros [_ _ _ _ _ Hpss _]. apply Forall_forall. intros p Hp.
  assert (sp_backend p ∈ map sp_backend (concat pss)) as Hin by by apply list_elem_of_fmap_2.
  apply (parts_backends _ _ _ _ _ _ _ Hpss) in Hin as (i & parts & Hi & _).
  apply elem_of_list_to_set. rewrite (sort_by_key_perm id). by eapply list_elem_of_lookup_2.
Qed.

(** The configured backends are all seen when each has a chunk. *)
Lemma backends_covered pss chunks export :
  exported chain_id configured source max pss chunks export →
  (list_to_set (sort configured) : gset BroadcasterBackend)
    ⊆ list_to_set (map sp_backend (concat pss)) ↔ Forall (λ parts, parts ≠ []) pss.
Proof.
  intros [_ _ Hnd _ _ Hpss _]. split.
  - intros Hsub. apply Forall_lookup. intros i parts Hi.
    destruct (Forall2_lookup_r _ _ _ _ _ Hpss Hi) as (b & Hb & _).
    assert (b ∈ (list_to_set (sort configured) : gset BroadcasterBackend)) as Hin.
    { apply elem_of_list_to_set. rewrite (sort_by_key_perm id). by eapply list_elem_of_lookup_2. }
    apply Hsub, elem_of_list_to_set in Hin.
    apply (parts_backends _ _ _ _ _ _ _ Hpss) in Hin as (j & parts' & Hj & Hparts' & Hne).
    rewrite (NoDup_lookup _ _ _ _ Hnd Hb Hj) in Hi. by rewrite Hi in Hparts'; injection Hparts' as ->.
  - intros Hall b Hb. apply elem_of_list_to_set in Hb. rewrite (sort_by_key_perm id) in Hb.
    apply elem_of_list_to_set. apply (parts_backends _ _ _ _ _ _ _ Hpss).
    apply list_elem_of_lookup in Hb as [i Hi].
    destruct (Forall2_lookup_l _ _ _ _ _ Hpss Hi) as (parts & Hparts & _).
    exists i, parts. split_and!; [done|done|]. by apply (Forall_lookup_1 _ _ _ _ Hall Hparts).
Qed.

Lemma bt_no_values {V} (m : btree string V) : bt_values m = [] ↔ m = ∅.
Proof. unfold bt_values. rewrite <- bt_iter_nil. split; [apply fmap_nil_inv|by intros ->]. Qed.

Lemma content_parts pss chunks export :
  exported chain_id configured source max pss chunks export →
  (∀ b, b ∈ configured → ∃ partition, src_partitions source !! b = Some partition ∧
     (ps_sync_statuses partition ≠ ∅ ∨ ps_messages partition = [] ∧ ps_states partition ≠ ∅)) →
  Forall (λ parts, parts ≠ []) pss.
Proof.
  intros Hex Hall. apply Forall_lookup. intros i parts Hi ->.
  destruct (Forall2_lookup_r _ _ _ _ _ (ex_parts _ _ _ _ _ _ _ Hex) Hi) as (b & Hb & Hparts).
  destruct (Hall b) as (partition & Hp & Hcontent); [by eapply list_elem_of_lookup_2|].
  unfold backend_parts in Hparts. rewrite Hp in Hparts.
  destruct (ca_silent _ _ _ Hparts eq_refl) as [Hs Hv].
  destruct Hcontent as [?|[Hm Hstates]]; [done|]. by apply Hstates, bt_no_values, Hv.
Qed.

Lemma parts_content pss chunks export :
  exported chain_id configured source max pss chunks export →
  Forall (λ parts, parts ≠ []) pss →
  ∀ b, b ∈ configured → ∃ partition, src_partitions source !! b = Some partition ∧
     (ps_sync_statuses partition ≠ ∅ ∨ ps_messages partition ≠ [] ∨ ps_states partition ≠ ∅).
Proof.
  intros Hex Hall b [i Hb]%list_elem_of_lookup.
  destruct (Forall2_lookup_l _ _ _ _ _ (ex_parts _ _ _ _ _ _ _ Hex) Hb) as (parts & Hi & Hparts).
  pose proof (Forall_lookup_1 _ _ _ _ Hall Hi) as Hne. unfold backend_parts in Hparts.
  destruct (src_partitions source !! b) as [partition|]; [|done]. exists partition. split; [done|].
  destruct (decide (ps_sync_statuses partition = ∅)) as [Hs|]; [|by left]. right.
  destruct (ps_messages partition) as [|m ms] eqn:Hm; [|by left]. right. intros Hv%bt_no_values.
  by apply Hne, (ca_void _ _ _ Hparts).
Qed.

Lemma exported_session_iff pss chunks export :
  exported chain_id configured source max pss chunks export → (len chunks ≤ u32_max)%N →
  valid_session (session_envelopes export) ↔ Forall (λ parts, parts ≠ []) pss.
Proof.
  intros Hex Hlen. rewrite <- (backends_covered _ _ _ Hex). pose proof (parts_declared _ _ _ Hex) as Hd.
  destruct Hex as [Hs _ Hnd Hp [Hc Hok] _ _].
  rewrite session_envelopes_numbered, Hs, Hp. unfold exported_payloads. rewrite numbered_from_cons.
  assert (len chunks = len (concat pss)) as Hl.
  { rewrite Hc. unfold len. by rewrite length_imap. }
  assert (as_u32 (len chunks) = len (concat pss)) as Htotal.
  { unfold as_u32. rewrite N.mod_small by lia. done. }
  rewrite Htotal. rewrite Hc. unfold valid_session.
  set (start := {| ss_snapshot_id := _ |}). set (e0 := {| env_stream_id := _ |}).
  pose proof (session_tail_iff (started e0 start) 2 (concat pss)) as Htail.
  cbn [started so_next_chunk_index so_total_chunks so_declared_backends so_stream_id so_snapshot_id
       so_observed_backends ss_total_chunks ss_backends ss_snapshot_id start env_stream_id e0] in Htail.
  rewrite <- (union_empty_l_L (list_to_set (map sp_backend _))), <- Htail;
    [|lia|done|done|rewrite Hl in Hlen; unfold u32_max, u64_max in *; lia].
  split.
  - by intros (e & st & rest & [= <- <-] & [= <-] & _ & _ & Hrest).
  - intros Hrest. exists e0, start. eexists. split; [done|]. split; [done|].
    split; [by cbn; rewrite (sort_by_key_perm id)|]. split; [by vm_compute|done].
Qed.
(** C19: an export is complete and bounded: it declares every configured backend once and the
    number of its chunks, holds the chunks in order under consecutive indices and ends with
    the end marker; every payload fits the byte limit under the sequence number it is sent
    with; and the chunks of a backend carry its block, its statuses in the first of them,
    and either all its states or, in order, all the fragments of its messages. *)
Theorem export_carries_state export :
  export_snapshot_source chain_id configured source max = Ok export →
  ∃ pss chunks, exported chain_id configured source max pss chunks export.
Proof. apply export_exported. Qed.

(** A consumer that observes the envelopes of an export ends live when every configured
    backend has statuses or, not being followed by messages, states; and it does so only
    when none of them is without statuses, messages and states. *)
Theorem exported_session_live export :
  export_snapshot_source chain_id configured source max = Ok export →
  (len (xp_payloads export) ≤ u32_max)%N →
  let live := ∃ t l, tracker_run tracker_new (session_envelopes export) t ∧ tr_state t = Live l in
  let all (P : BroadcasterPartitionState → Prop) :=
    ∀ b, b ∈ configured → ∃ partition, src_partitions source !! b = Some partition ∧ P partition in
  (all (λ p, ps_sync_statuses p ≠ ∅ ∨ ps_messages p = [] ∧ ps_states p ≠ ∅) → live) ∧
  (live → all (λ p, ps_sync_statuses p ≠ ∅ ∨ ps_messages p ≠ [] ∨ ps_states p ≠ ∅)).
Proof.
  intros Hexport Hlen. apply export_exported in Hexport as (pss & chunks & Hex).
  cbn zeta. rewrite session_live, (exported_session_iff _ _ _ Hex).
  - split; [by apply (content_parts _ _ _ Hex)|by apply (parts_content _ _ _ Hex)].
  - rewrite (ex_payloads _ _ _ _ _ _ _ Hex) in Hlen. unfold exported_payloads in Hlen.
    rewrite len_cons in Hlen. unfold len in *. rewrite length_app, length_map in Hlen. lia.
Qed.
End properties.
End chunks.
