(* ===== verification/ExportDemo.v ===== *)
(** * A concrete snapshot, for the witnesses

    Messages with all their fields, their merge, a text whose length counts what an
    envelope holds, a message that needs several fragments and a backend with three
    chunks. *)

From S2P Require Import Prelude Ordered Text Protocol Wire Validate TychoFeed Tracker Codec.
From S2P Require Import RedisEntry Replay Recovery Store StorePools Reassembly RawMessage.
From S2P Require Import SnapshotExport ExportSplit ExportMerge ExportChunks.

(** ** Messages *)

Record DemoChanges := {
  dc_extractor : string;
  dc_block : N;
  dc_revert : bool;
  dc_tokens : hashmap N;
  dc_accounts : hashmap N;
  dc_states : hashmap N;
  dc_new : hashmap N;
  dc_deleted : hashmap N;
  dc_balances : hashmap (hashmap N);
  dc_account_balances : hashmap (hashmap N);
  dc_tvl : hashmap N;
  dc_entrypoints : hashmap (list string);
  dc_params : hashmap (list string);
  dc_traces : hashmap N;
  dc_rest : N * option N;
}.

Record DemoAccount := { da_slots : hashmap string; da_code : string }.

Record DemoMessage := {
  dm_header : DemoHeader;
  dm_states : hashmap N;
  dm_accounts : hashmap DemoAccount;
  dm_deltas : option DemoChanges;
  dm_removed : hashmap N;
}.

Definition fields_tycho : TychoTypes := {|
  ProtocolComponent := string * string;
  protocol_system := fst;
  protocol_type_name := snd;
  ProtocolSim := N;
  BlockHeader := DemoHeader;
  bh_hash := demo_hash;
  bh_number := demo_number;
  bh_parent_hash := λ _, "";
  bh_revert := λ _, false;
  bh_timestamp := λ _, 0%N;
  bh_partial_block_index := demo_partial;
  block_number_or_timestamp := demo_number;
  StateSyncMessage := DemoMessage;
  ssm_header := dm_header;
|}.
#[local] Existing Instance fields_tycho.

Definition dm_set_deltas (f : option DemoChanges → option DemoChanges) (m : DemoMessage) :
    DemoMessage :=
  {| dm_header := dm_header m; dm_states := dm_states m; dm_accounts := dm_accounts m;
     dm_deltas := f (dm_deltas m); dm_removed := dm_removed m |}.

Definition dc_set_taken (tokens : hashmap N) (entrypoints params : hashmap (list string))
    (traces : hashmap N) (d : DemoChanges) : DemoChanges :=
  {| dc_extractor := dc_extractor d; dc_block := dc_block d; dc_revert := dc_revert d;
     dc_tokens := tokens; dc_accounts := dc_accounts d; dc_states := dc_states d;
     dc_new := dc_new d; dc_deleted := dc_deleted d; dc_balances := dc_balances d;
     dc_account_balances := dc_account_balances d; dc_tvl := dc_tvl d;
     dc_entrypoints := entrypoints; dc_params := params; dc_traces := traces;
     dc_rest := dc_rest d |}.

(** The merge keeps the new tokens and entry points of the first message. *)
Definition dc_merge (a b : DemoChanges) : DemoChanges :=
  {| dc_extractor := dc_extractor a; dc_block := dc_block b; dc_revert := dc_revert b;
     dc_tokens := dc_tokens a; dc_accounts := dc_accounts a ++ dc_accounts b;
     dc_states := dc_states a ++ dc_states b; dc_new := dc_new a ++ dc_new b;
     dc_deleted := dc_deleted a ++ dc_deleted b; dc_balances := dc_balances a ++ dc_balances b;
     dc_account_balances := dc_account_balances a ++ dc_account_balances b;
     dc_tvl := dc_tvl a ++ dc_tvl b; dc_entrypoints := dc_entrypoints a;
     dc_params := dc_params a; dc_traces := dc_traces a; dc_rest := dc_rest a |}.

Definition dm_merge (a b : DemoMessage) : DemoMessage :=
  {| dm_header := dm_header b; dm_states := dm_states a ++ dm_states b;
     dm_accounts := dm_accounts a ++ dm_accounts b;
     dm_deltas := union_with (λ d d', Some (dc_merge d d')) (dm_deltas a) (dm_deltas b);
     dm_removed := dm_removed a ++ dm_removed b |}.

Definition fields_raw : @RawMessages fields_tycho := {|
  BlockHeader_eq_dec := DemoHeader_eq_dec;
  header_debug := demo_hash;
  bytes_display := id;
  snapshot_state_ids := λ m : DemoMessage, (dm_states m).*1;
  removed_component_ids := λ m : DemoMessage, (dm_removed m).*1;
  ResponseAccount := DemoAccount;
  account_field_eqb := λ _ a b, String.eqb (da_code a) (da_code b);
  account_slots := da_slots;
  set_account_slots := λ slots a, {| da_slots := slots; da_code := da_code a |};
  vm_storage := dm_accounts;
  set_vm_storage := λ accounts m,
    {| dm_header := dm_header m; dm_states := dm_states m; dm_accounts := accounts;
       dm_deltas := dm_deltas m; dm_removed := dm_removed m |};
  NewToken := N;
  EntryPoints := list string;
  TraceResult := N;
  no_entrypoints := [];
  set_extend := λ a b, a ++ b;
  has_deltas := λ m, bool_decide (is_Some (dm_deltas m));
  new_tokens := λ m, default [] (dc_tokens <$> dm_deltas m);
  new_entrypoints := λ m, default [] (dc_entrypoints <$> dm_deltas m);
  new_entrypoint_params := λ m, default [] (dc_params <$> dm_deltas m);
  trace_results := λ m, default [] (dc_traces <$> dm_deltas m);
  set_new_tokens := λ tokens, dm_set_deltas (fmap (λ d,
    dc_set_taken tokens (dc_entrypoints d) (dc_params d) (dc_traces d) d));
  set_dci_update := λ e p t, dm_set_deltas (fmap (λ d, dc_set_taken (dc_tokens d) e p t d));
  message_merge := dm_merge;
|}.
#[local] Existing Instance fields_raw.

Definition fields_leaves : @TychoFields fields_tycho fields_raw := {|
  bytes_debug := id; Chain := unit; ChangesBlock := N; DtoComponent := N;
  ComponentWithState := N; ProtocolStateDelta := N; AccountUpdate := N; ComponentBalance := N;
  AccountBalance := N; ComponentTvl := N |}.
#[local] Existing Instance fields_leaves.

Definition changes_of (d : DemoChanges) : BlockChanges := {|
  bc_extractor := dc_extractor d; bc_chain := tt : Chain; bc_block := dc_block d;
  bc_finalized_block_height := fst (dc_rest d); bc_revert := dc_revert d;
  bc_new_tokens := dc_tokens d; bc_account_updates := dc_accounts d;
  bc_state_updates := dc_states d; bc_new_protocol_components := dc_new d;
  bc_deleted_protocol_components := dc_deleted d; bc_component_balances := dc_balances d;
  bc_account_balances := dc_account_balances d; bc_component_tvl := dc_tvl d;
  bc_dci_update := {| dci_new_entrypoints := dc_entrypoints d;
                      dci_new_entrypoint_params := dc_params d;
                      dci_trace_results := dc_traces d |};
  bc_partial_block_index := snd (dc_rest d) |}.

Definition changes_to (d : BlockChanges) : DemoChanges := {|
  dc_extractor := bc_extractor d; dc_block := bc_block d; dc_revert := bc_revert d;
  dc_tokens := bc_new_tokens d; dc_accounts := bc_account_updates d;
  dc_states := bc_state_updates d; dc_new := bc_new_protocol_components d;
  dc_deleted := bc_deleted_protocol_components d; dc_balances := bc_component_balances d;
  dc_account_balances := bc_account_balances d; dc_tvl := bc_component_tvl d;
  dc_entrypoints := dci_new_entrypoints (bc_dci_update d);
  dc_params := dci_new_entrypoint_params (bc_dci_update d);
  dc_traces := dci_trace_results (bc_dci_update d);
  dc_rest := (bc_finalized_block_height d, bc_partial_block_index d) |}.

Definition dm_fields (m : DemoMessage) : SyncMessage :=
  {| sy_header := (dm_header m : BlockHeader); sy_states := dm_states m;
     sy_vm_storage := dm_accounts m; sy_deltas := changes_of <$> dm_deltas m;
     sy_removed_components := dm_removed m |}.

Definition dm_of_fields (r : SyncMessage) : DemoMessage :=
  {| dm_header := sy_header r; dm_states := sy_states r; dm_accounts := sy_vm_storage r;
     dm_deltas := changes_to <$> sy_deltas r; dm_removed := sy_removed_components r |}.

Definition fields_sync : @SyncFields fields_tycho fields_raw fields_leaves :=
  @Build_SyncFields fields_tycho fields_raw fields_leaves dm_fields dm_of_fields.
#[local] Existing Instance fields_sync.

#[export] Instance fields_sync_laws : SyncFieldsLaws.
Proof.
  split; try done.
  - by intros [h s a [[? [] ???????????[???]?]|] r].
  - intros m. apply bool_decide_ext. cbn. by rewrite fmap_is_Some.
  - intros m. cbn. by destruct (dm_deltas m).
  - intros m. cbn. by destruct (dm_deltas m).
  - intros m. cbn. by destruct (dm_deltas m).
  - intros m. cbn. by destruct (dm_deltas m).
  - by intros s [h st a [d|] r].
  - by intros e p t [h st a [d|] r].
Qed.

#[export] Instance fields_account_laws : AccountLaws.
Proof. split; [done|done|by intros []|]. intros f s t a. cbn. apply String.eqb_refl. Qed.

#[export] Instance fields_merge_laws : MergeLaws.
Proof.
  split.
  - done.
  - intros [h s a d r] [h' s' a' d' r'] _ _ _ Hplain.
    unfold message_leaves, tail_leaves in *. cbn -[leaves] in *. rewrite !leaves_app.
    destruct d as [d|], d' as [d'|]; cbn -[leaves] in *; try solve_Permutation.
    destruct (Hplain _ eq_refl) as [Ht Hd]. cbn in Ht, Hd. injection Hd as He Hp Htr.
    unfold delta_leaves. cbn -[leaves]. rewrite !leaves_app, Ht, He, Hp, Htr.
    unfold leaves at 20. solve_Permutation.
  - intros [h s a [d|] r] [h' s' a' [d'|] r']; cbn; split; intros; eauto; naive_solver.
  - intros frame [h s a [d|] r] [h' s' a' [d'|] r'] x Hall; cbn in *; intros [= <-];
      try (apply Hall; by eauto).
    pose proof (Hall _ (or_introl eq_refl)) as H1. pose proof (Hall _ (or_intror eq_refl)) as H2.
    rewrite <- H1 in *. injection H2 as ? ? ? ? ?. by unfold block_frame; cbn; congruence.
  - done.
Qed.

(** ** Sizes *)

(** Ten bytes, and six for each thing an envelope holds. *)
Definition message_weight (m : BroadcasterProtocolMessage) : nat :=
  length (message_leaves (pm_fields m)) + length (sy_vm_storage (pm_fields m)) +
  length (flat (sy_vm_storage (pm_fields m))).

Definition envelope_weight (e : BroadcasterEnvelope) : nat :=
  match env_payload e with
  | SnapshotChunk c =>
      sum_list (p ← sc_partitions c;
        (message_weight <$> sp_messages p) ++ [length (sp_states p); size (sp_sync_statuses p)])
  | _ => 0
  end.

Definition text_of_length (n : nat) : string :=
  String.string_of_list_ascii (replicate n "x"%char).

Definition fields_serde : @SerdeJson fields_tycho := {|
  json_of_envelope e := Ok (text_of_length (10 + 6 * envelope_weight e));
  raw_envelope_of_json _ := Err "";
  wire_sim s := s |}.
#[local] Existing Instance fields_serde.

Definition fields_json : @ListJson fields_tycho fields_serde := {|
  json_of_envelopes es := Ok (text_of_length (sum_list (envelope_weight <$> es))) |}.
#[local] Existing Instance fields_json.

(** ** A message in several fragments *)

Definition header_7 : BlockHeader := {| demo_hash := "h"; demo_number := 7; demo_partial := None |}.

Definition demo_changes : DemoChanges := {|
  dc_extractor := "vm:curve"; dc_block := 7; dc_revert := false;
  dc_tokens := [("t2", 2%N); ("t1", 1%N)]; dc_accounts := [("a", 1%N)]; dc_states := [("p1", 4%N)];
  dc_new := []; dc_deleted := []; dc_balances := [("p1", [("t1", 9%N)])];
  dc_account_balances := []; dc_tvl := []; dc_entrypoints := [("p1", ["e"])]; dc_params := [];
  dc_traces := [("e", 3%N)]; dc_rest := (7%N, None) |}.

Definition demo_export_message : BroadcasterProtocolMessage :=
  {| pm_protocol := "vm:curve"; pm_sync_state := SyncReady header_7;
     pm_message := {|
       dm_header := header_7; dm_states := [("p3", 3%N); ("p1", 1%N); ("p2", 2%N)];
       dm_accounts := [("a", {| da_slots := [("2", "v"); ("1", "u"); ("3", "w")]; da_code := "c" |})];
       dm_deltas := Some demo_changes; dm_removed := [("p9", 9%N)] |} |}.

Definition demo_context (max : N) : SnapshotChunkBuildContext := {|
  cx_stream_id := "chain-1-stream-7"; cx_snapshot_id := "chain-1-snapshot-7"; cx_backend := Vm;
  cx_block_number := 7; cx_max_payload_bytes := max |}.

Definition demo_fragments : anyhow (list BroadcasterProtocolMessage) :=
  split_protocol_message_for_snapshot (demo_context 50) demo_export_message ∅.

(** The states, the slots of the account in two ranges, and the deltas with the removal. *)
Example demo_fragment_contents :
  map (λ f, (length (message_leaves (pm_fields f)), length (flat (sy_vm_storage (pm_fields f)))))
    (default [] (result_ok demo_fragments)) = [(3, 0); (0, 2); (0, 1); (6, 0); (2, 0)].
Proof. by vm_compute. Qed.

Lemma demo_distinct_keys : distinct_keys (pm_fields demo_export_message).
Proof.
  split.
  - apply (bool_decide_unpack _). by vm_compute.
  - apply (bool_decide_unpack _). by vm_compute.
  - intros a account [= -> ->]%list_elem_of_singleton. apply (bool_decide_unpack _). by vm_compute.
Qed.

Lemma demo_no_removed k :
  k ∈ (sy_states (pm_fields demo_export_message)).*1 →
  k ∉ (sy_removed_components (pm_fields demo_export_message)).*1.
Proof.
  revert k. apply Forall_forall.
  apply (bool_decide_unpack _). by vm_compute.
Qed.

Lemma fragments_reassemble_witness :
  ∃ fs e, demo_fragments = Ok fs ∧ length fs = 5%nat ∧
    fold_result raw_snapshot_push ∅ fs = Ok (<["vm:curve" := e]> ∅) ∧
    reassembled demo_export_message e.
Proof.
  assert (∃ fs, demo_fragments = Ok fs ∧ length fs = 5%nat) as (fs & Hfs & Hl).
  { eexists. split; [vm_compute; reflexivity|reflexivity]. }
  destruct (fragments_reassemble (demo_context 50) demo_export_message ∅ ∅ fs
    demo_distinct_keys demo_no_removed Hfs) as (e & Hpush & He);
    [intros ->; discriminate Hl|apply lookup_empty|].
  exists fs, e. split_and!; assumption.
Defined.

Lemma fragments_bounded_witness :
  ∃ f, fragment_of demo_export_message f ∧
    ∃ size, raw_fragment_size (demo_context 50) f ∅ false = Ok size ∧ (size ≤ 50)%N.
Proof.
  assert (∃ fs f, demo_fragments = Ok fs ∧ fs !! 3%nat = Some f) as (fs & f & Hfs & Hf).
  { do 2 eexists. split; [vm_compute; reflexivity|reflexivity]. }
  exists f. exact (fragments_bounded (demo_context 50) demo_export_message ∅ fs 3 f
    demo_distinct_keys Hfs Hf).
Defined.

(** ** An export *)

Definition demo_entry (id : string) (state : N) : BroadcasterStateEntry :=
  {| se_component_id := id; se_component := ("uniswap_v2", "AB"); se_state := state |}.

Definition demo_native : BroadcasterPartitionState :=
  {| ps_block := Some 7%N; ps_sync_statuses := ∅; ps_messages := [];
     ps_states := list_to_map (map (λ id, (id, demo_entry id 1)) ["p1"; "p2"; "p3"]) |}.

Definition demo_status : BroadcasterProtocolSyncStatus :=
  {| sst_kind := StatusReady; sst_block := None; sst_reason := None |}.

Definition demo_curve : BroadcasterPartitionState :=
  {| ps_block := Some 7%N; ps_sync_statuses := {["vm:curve" := demo_status]}; ps_messages := [demo_export_message];
     ps_states := ∅ |}.

Definition demo_source : BroadcasterSnapshotSource := {|
  src_stream_id := "chain-1-stream-7"; src_snapshot_id := "chain-1-snapshot-7";
  src_partitions := <[Native := demo_native]> (<[Vm := demo_curve]> ∅) |}.

Definition demo_export : anyhow BroadcasterSnapshotExport :=
  export_snapshot_source 1 [Native; Vm] demo_source 50.

Lemma demo_export_ok :
  ∃ export, demo_export = Ok export ∧ length (xp_payloads export) = 7%nat.
Proof. eexists. split; [vm_compute; reflexivity|vm_compute; reflexivity]. Qed.

Lemma export_carries_state_witness :
  ∃ export pss chunks, demo_export = Ok export ∧
    exported 1 [Native; Vm] demo_source 50 pss chunks export.
Proof.
  destruct demo_export_ok as (export & Hex & _).
  destruct (export_carries_state 1 [Native; Vm] demo_source 50 export Hex) as (pss & chunks & He).
  exists export, pss, chunks. split; [exact Hex|exact He].
Defined.

Lemma exported_session_live_witness :
  ∃ export t l, demo_export = Ok export ∧
    tracker_run tracker_new (session_envelopes export) t ∧ tr_state t = Live l.
Proof.
  destruct demo_export_ok as (export & Hex & Hlen).
  destruct (exported_session_live 1 [Native; Vm] demo_source 50 export Hex) as [Hlive _].
  - unfold len. rewrite Hlen. unfold u32_max. lia.
  - destruct Hlive as (t & l & Hrun & Hl).
    + intros b Hb. apply elem_of_cons in Hb as [->|Hb].
      * exists demo_native. split; [reflexivity|]. right. split; [reflexivity|].
        intros Hs. discriminate Hs.
      * apply list_elem_of_singleton in Hb as ->. exists demo_curve. split; [reflexivity|]. left.
        exact (map_non_empty_singleton _ _).
    + exists export, t, l. split; [exact Hex|]. split; [exact Hrun|exact Hl].
Defined.
