(* ===== verification/RawCompaction.v ===== *)
(** * Raw messages in the cache

    [runtime/src/broadcaster/state.rs], the functions on raw messages: an incoming message
    is merged into the one of its protocol and folded into its snapshot, and the accounts
    that several protocols hold are made to agree. *)

From S2P Require Import Prelude Ordered Text Protocol.
From S2P Require Import Wire Validate Codec TychoFeed RedisEntry Replay Recovery Store.
From S2P Require Import Reassembly RawMessage SnapshotExport.

(** [dto::ChangeType]. *)
Inductive ChangeType :=
| ChangeUpdate
| ChangeDeletion
| ChangeCreation
| ChangeUnspecified.

#[export] Instance ChangeType_eq_dec : EqDecision ChangeType.
Proof. solve_decision. Defined.

(** The fields of the values of the maps that the code reads and writes. *)
Class TychoState `{TychoFields} := {
  cw_attributes : ComponentWithState → hashmap Bytes;
  cw_set_attributes : hashmap Bytes → ComponentWithState → ComponentWithState;
  cw_balances : ComponentWithState → hashmap Bytes;
  cw_set_balances : hashmap Bytes → ComponentWithState → ComponentWithState;
  cw_set_tvl : option ComponentTvl → ComponentWithState → ComponentWithState;
  psd_deleted_attributes : ProtocolStateDelta → list string;
  psd_updated_attributes : ProtocolStateDelta → hashmap Bytes;
  cb_balance : ComponentBalance → Bytes;
  ab_balance : AccountBalance → Bytes;
  account_balance_eqb : AccountBalance → AccountBalance → bool;
  au_change : AccountUpdate → ChangeType;
  au_slots : AccountUpdate → hashmap Bytes;
  au_balance : AccountUpdate → option Bytes;
  au_code : AccountUpdate → option Bytes;
  account_update_eqb : AccountUpdate → AccountUpdate → bool;
  ra_address : ResponseAccount → Bytes;
  ra_title : ResponseAccount → string;
  ra_set_title : string → ResponseAccount → ResponseAccount;
  ra_token_balances : ResponseAccount → hashmap Bytes;
  ra_set_token_balances : hashmap Bytes → ResponseAccount → ResponseAccount;
  ra_set_native_balance : Bytes → ResponseAccount → ResponseAccount;
  ra_set_code : Bytes → ResponseAccount → ResponseAccount;
  external_ids : EntryPoints → list string;
}.

(** ** Hash maps *)

(** [get_mut], and a change of what is found. *)
Definition hm_alter {V} (f : V → V) (k : string) (m : hashmap V) : hashmap V :=
  map (λ '(k', v), (k', if String.eqb k k' then f v else v)) m.

(** [retain] with a closure that folds some of the entries into a state. *)
Definition retain_fold {V S} (f : S → string → V → option S) (s : S) (m : hashmap V) :
    S * hashmap V * nat :=
  foldl (λ '(s, kept, folded) '(k, v),
      match f s k v with
      | Some s => (s, kept, Datatypes.S folded)
      | None => (s, kept ++ [(k, v)], folded)
      end)
    (s, [], 0%nat) m.

(** Equality of hash maps, whatever the order of their entries. *)
Definition hm_eqb {V} (eqb : V → V → bool) (m m' : hashmap V) : bool :=
  bool_decide (length m = length m')
  && forallb (λ '(k, v), match hm_get k m' with Some v' => eqb v v' | None => false end) m.

(** ** Folding block changes into a snapshot *)

Section compaction.
Context `{SyncFields} `{!TychoState}.

Record RawCompactionStats := {
  folded_state_updates : nat;
  folded_component_balances : nat;
  folded_component_tvl : nat;
  folded_account_updates : nat;
  folded_account_balances : nat;
  residual_entries : nat;
}.

Definition stats_default : RawCompactionStats :=
  {| folded_state_updates := 0; folded_component_balances := 0; folded_component_tvl := 0;
     folded_account_updates := 0; folded_account_balances := 0; residual_entries := 0 |}.

Definition apply_protocol_delta_to_snapshot (component : ComponentWithState)
    (delta : ProtocolStateDelta) : ComponentWithState :=
  cw_set_attributes
    (hm_extend (foldl (λ m k, hm_remove k m) (cw_attributes component) (psd_deleted_attributes delta))
       (psd_updated_attributes delta))
    component.

Definition fold_account_update_into_snapshot (account : ResponseAccount)
    (update : AccountUpdate) : ResponseAccount :=
  let account := set_account_slots (hm_extend (account_slots account) (au_slots update)) account in
  let account :=
    match au_balance update with
    | Some balance => ra_set_native_balance balance account
    | None => account
    end in
  match au_code update with Some code => ra_set_code code account | None => account end.

(** [snapshots.states] and [snapshots.vm_storage]. *)
Abbreviation states := (hashmap ComponentWithState).
Abbreviation storage := (hashmap ResponseAccount).

(** Folds a change into the component it is of, if that is in the snapshot. *)
Definition fold_into {V A} (apply : A → V → A) (snapshot : hashmap A) (k : string) (change : V) :
    option (hashmap A) :=
  if hm_contains_key k snapshot then Some (hm_alter (λ a, apply a change) k snapshot) else None.

Definition is_deletion (update : AccountUpdate) : bool :=
  bool_decide (au_change update = ChangeDeletion).
Definition is_creation (update : AccountUpdate) : bool :=
  bool_decide (au_change update = ChangeCreation).

(** The turn of [account_updates.retain]. *)
Definition fold_account_update (s : storage * nat) (address : Bytes) (update : AccountUpdate) :
    storage * nat * bool :=
  let '(vm, folded) := s in
  if is_deletion update then (vm, S folded, false)
  else if is_creation update then (hm_remove address vm, folded, true)
  else
    match fold_into fold_account_update_into_snapshot vm address update with
    | None => (vm, folded, true)
    | Some vm => (vm, S folded, false)
    end.

Definition fold_account_updates (vm : storage) (updates : hashmap AccountUpdate) :
    storage * hashmap AccountUpdate * nat :=
  foldl (λ '(vm, kept, folded) '(address, update),
      let '(vm, folded, keep) := fold_account_update (vm, folded) address update in
      (vm, (if (keep : bool) then kept ++ [(address, update)] else kept), folded))
    (vm, [], 0%nat) updates.

Definition deleted_component_step (s : states * BlockChanges) (component_id : string) :
    states * BlockChanges :=
  (hm_remove component_id s.1,
   bc_set_dci_update (dci_set_new_entrypoints (hm_remove component_id))
     (bc_set_new_protocol_components (hm_remove component_id)
        (bc_set_component_tvl (hm_remove component_id)
           (bc_set_component_balances (hm_remove component_id)
              (bc_set_state_updates (hm_remove component_id) s.2))))).

Definition apply_component_balances (component : ComponentWithState)
    (balances : hashmap ComponentBalance) : ComponentWithState :=
  cw_set_balances
    (hm_extend (cw_balances component) (map (λ '(token, b), (token, cb_balance b)) balances))
    component.

Definition apply_account_balances (account : ResponseAccount) (balances : hashmap AccountBalance) :
    ResponseAccount :=
  ra_set_token_balances
    (hm_extend (ra_token_balances account) (map (λ '(token, b), (token, ab_balance b)) balances))
    account.

Definition active_entrypoint_ids (d : BlockChanges) : list string :=
  dci_new_entrypoints (bc_dci_update d) ≫= λ '(_, entrypoints), external_ids entrypoints.

Definition retain_keys {V} (keep : string → bool) (m : hashmap V) : hashmap V :=
  filter (λ kv, keep kv.1) m.

Definition fold_block_changes_into_snapshot (snapshot_states : states) (vm : storage)
    (deltas : BlockChanges) : states * storage * BlockChanges * RawCompactionStats :=
  let deltas := bc_set_new_tokens (λ _, []) deltas in
  let '(snapshot_states, deltas) :=
    foldl deleted_component_step (snapshot_states, deltas)
      (bc_deleted_protocol_components deltas).*1 in
  let deltas := bc_set_deleted_protocol_components (λ _, []) deltas in
  let deltas :=
    bc_set_new_protocol_components (retain_keys (λ k, negb (hm_contains_key k snapshot_states)))
      deltas in
  let '(snapshot_states, state_updates, folded_states) :=
    retain_fold (fold_into apply_protocol_delta_to_snapshot) snapshot_states
      (bc_state_updates deltas) in
  let '(snapshot_states, balances, folded_balances) :=
    retain_fold (fold_into apply_component_balances) snapshot_states
      (bc_component_balances deltas) in
  let '(snapshot_states, tvls, folded_tvl) :=
    retain_fold (fold_into (λ component tvl, cw_set_tvl (Some tvl) component)) snapshot_states
      (bc_component_tvl deltas) in
  let deleted_accounts :=
    (filter (λ u : Bytes * AccountUpdate, is_deletion u.2) (bc_account_updates deltas)).*1 in
  let vm := foldl (λ m a, hm_remove a m) vm deleted_accounts in
  let account_balances :=
    foldl (λ m a, hm_remove a m) (bc_account_balances deltas) deleted_accounts in
  let '(vm, account_updates, folded_accounts) :=
    fold_account_updates vm (bc_account_updates deltas) in
  let '(vm, account_balances, folded_account_balances) :=
    retain_fold (fold_into apply_account_balances) vm account_balances in
  let active := active_entrypoint_ids deltas in
  let is_active (k : string) : bool := bool_decide (k ∈ active) in
  let deltas :=
    bc_set_dci_update
      (λ dci, dci_set_trace_results (retain_keys is_active)
                (dci_set_new_entrypoint_params (retain_keys is_active) dci))
      (bc_set_account_balances (λ _, account_balances)
         (bc_set_account_updates (λ _, account_updates)
            (bc_set_component_tvl (λ _, tvls)
               (bc_set_component_balances (λ _, balances)
                  (bc_set_state_updates (λ _, state_updates) deltas))))) in
  (snapshot_states, vm, deltas,
   {| folded_state_updates := folded_states; folded_component_balances := folded_balances;
      folded_component_tvl := folded_tvl; folded_account_updates := folded_accounts;
      folded_account_balances := folded_account_balances; residual_entries := 0 |}).

Definition changes_lengths (d : BlockChanges) : list nat :=
  [length (bc_new_tokens d); length (bc_account_updates d); length (bc_state_updates d);
   length (bc_new_protocol_components d); length (bc_deleted_protocol_components d);
   length (bc_component_balances d); length (bc_account_balances d);
   length (bc_component_tvl d); length (dci_new_entrypoints (bc_dci_update d));
   length (dci_new_entrypoint_params (bc_dci_update d));
   length (dci_trace_results (bc_dci_update d))].

Definition block_changes_has_bootstrap_residue (d : BlockChanges) : bool :=
  existsb (λ n, negb (bool_decide (n = 0%nat))) (changes_lengths d).

Definition raw_residue_entry_count (message : SyncMessage) : nat :=
  match sy_deltas message with Some d => sum_list (changes_lengths d) | None => 0 end
  + length (sy_removed_components message).

Definition removed_component_step (message : SyncMessage) (component_id : string) : SyncMessage :=
  sy_set_deltas (fmap (λ d,
      bc_set_deleted_protocol_components (hm_remove component_id)
        (bc_set_new_protocol_components (hm_remove component_id)
           (bc_set_component_tvl (hm_remove component_id)
              (bc_set_component_balances (hm_remove component_id)
                 (bc_set_state_updates (hm_remove component_id) d))))))
    (sy_set_states (hm_remove component_id) message).

Definition compact_raw_state_sync_message (message : SyncMessage) :
    SyncMessage * RawCompactionStats :=
  let removed_components := sy_removed_components message in
  let message := sy_set_removed_components (λ _, []) message in
  let message := foldl removed_component_step message removed_components.*1 in
  let '(message, stats) :=
    match sy_deltas message with
    | Some deltas =>
        let '(snapshot_states, vm, deltas, stats) :=
          fold_block_changes_into_snapshot (sy_states message) (sy_vm_storage message) deltas in
        (sy_set_deltas (λ _, Some deltas)
           (sy_set_vm_storage (λ _, vm) (sy_set_states (λ _, snapshot_states) message)), stats)
    | None => (message, stats_default)
    end in
  let message :=
    match sy_deltas message with
    | Some deltas =>
        if block_changes_has_bootstrap_residue deltas then message
        else sy_set_deltas (λ _, None) message
    | None => message
    end in
  (message,
   {| folded_state_updates := folded_state_updates stats;
      folded_component_balances := folded_component_balances stats;
      folded_component_tvl := folded_component_tvl stats;
      folded_account_updates := folded_account_updates stats;
      folded_account_balances := folded_account_balances stats;
      residual_entries := raw_residue_entry_count message |}).

(** ** Merging a message into the one of its protocol *)

(** [existing.message.merge(incoming.message)] with what surrounds it. *)
Definition merge_existing (existing incoming : StateSyncMessage) : SyncMessage :=
  let deltas := sy_deltas (of_message incoming) in
  let field {V} (f : BlockChanges → hashmap V) : hashmap V := default [] (f <$> deltas) in
  let incoming_account_lifecycle :=
    filter (λ u : Bytes * AccountUpdate, is_creation u.2 || is_deletion u.2)
      (field bc_account_updates) in
  let incoming_rest :=
    sy_set_deltas (fmap (λ d, bc_set_dci_update (λ _, dci_default) (bc_set_new_tokens (λ _, []) d)))
      (of_message incoming) in
  let merged := of_message (message_merge existing (to_message incoming_rest)) in
  sy_set_deltas (fmap (λ d,
      bc_set_account_updates (λ m, hm_extend m incoming_account_lifecycle)
        (bc_set_dci_update (λ dci, {|
             dci_new_entrypoints :=
               extend_entrypoints (dci_new_entrypoints dci)
                 (field (dci_new_entrypoints ∘ bc_dci_update));
             dci_new_entrypoint_params :=
               extend_entrypoints (dci_new_entrypoint_params dci)
                 (field (dci_new_entrypoint_params ∘ bc_dci_update));
             dci_trace_results :=
               hm_extend (dci_trace_results dci) (field (dci_trace_results ∘ bc_dci_update)) |})
           (bc_set_new_tokens (λ m, hm_extend m (field bc_new_tokens)) d))))
    merged.

Definition compacted (protocol : string) (sync_state : SynchronizerState) (message : SyncMessage) :
    BroadcasterProtocolMessage :=
  {| pm_protocol := protocol; pm_sync_state := sync_state;
     pm_message := to_message (compact_raw_state_sync_message message).1 |}.

Definition merge_raw_message (messages : list BroadcasterProtocolMessage)
    (incoming : BroadcasterProtocolMessage) : list BroadcasterProtocolMessage :=
  sort_by_key pm_protocol
    match list_find (λ m, pm_protocol m = pm_protocol incoming) messages with
    | Some (existing_index, existing) =>
        delete existing_index messages
          ++ [compacted (pm_protocol existing) (pm_sync_state incoming)
                (merge_existing (pm_message existing) (pm_message incoming))]
    | None =>
        messages ++ [compacted (pm_protocol incoming) (pm_sync_state incoming)
                       (of_message (pm_message incoming))]
    end.
End compaction.
