(* ===== verification/SharedAccounts.v ===== *)
(** * Accounts that several protocols hold

    [runtime/src/broadcaster/state.rs]: every raw message of a backend has its own view of
    the accounts its protocol touches; the cache makes the views of one account agree and
    refuses updates whose views contradict each other. *)

From S2P Require Import Prelude Ordered Text Protocol.
From S2P Require Import Wire Validate Codec TychoFeed RedisEntry Replay Recovery Store.
From S2P Require Import Reassembly RawMessage SnapshotExport RawCompaction.

(** A loop in the state monad. *)
Fixpoint for_eachM {A S E} (f : A → stateR S E unit) (l : list A) : stateR S E unit :=
  match l with
  | [] => mret tt
  | x :: l => f x ;; for_eachM f l
  end.

Section accounts.
Context `{SyncFields} `{!TychoState}.

Abbreviation partitions := (btree BroadcasterBackend BroadcasterPartitionState).
Abbreviation messages := (list BroadcasterProtocolMessage).
Abbreviation anyhowM S := (stateR S AnyhowError).

Definition pm_storage (m : BroadcasterProtocolMessage) : hashmap ResponseAccount :=
  sy_vm_storage (pm_fields m).
Definition pm_number (m : BroadcasterProtocolMessage) : u64 := bh_number (ssm_header (pm_message m)).

(** ** Merging two views *)

(** [entry(key).or_insert(value)] for each entry. *)
Definition merge_vm_account_map (target incoming : hashmap Bytes) : hashmap Bytes :=
  foldl (λ target '(key, value),
      if hm_contains_key key target then target else hm_insert key value target)
    target incoming.

(** [str::cmp]: [String::min] keeps the first of equal strings. *)
Definition deterministic_account_title (left right : string) : string :=
  match left, right with
  | EmptyString, String _ _ => right
  | _, EmptyString => left
  | _, _ => if leb left right then left else right
  end.

(** The fields two views of an account must share. *)
Definition shared_account_fields : list AccountField :=
  [FieldChain; FieldAddress; FieldNativeBalance; FieldCode; FieldCodeHash;
   FieldBalanceModifyTx; FieldCodeModifyTx; FieldCreationTx].

Definition conflicting_account (address : Bytes) (block_number : u64) : AnyhowError :=
  anyhow_error ("conflicting VM account " +:+ bytes_display address +:+ " values at block "
                  +:+ u64_to_string block_number).

Definition merge_shared_vm_accounts (left right : ResponseAccount) (block_number : u64) :
    anyhow ResponseAccount :=
  ensure (forallb (λ f, account_field_eqb f left right) shared_account_fields)
    (conflicting_account (ra_address left) block_number) ;;
  let merged := set_account_slots (merge_vm_account_map (account_slots left) (account_slots right)) left in
  let merged :=
    ra_set_token_balances
      (merge_vm_account_map (ra_token_balances left) (ra_token_balances right)) merged in
  Ok (ra_set_title (deterministic_account_title (ra_title left) (ra_title right)) merged).

(** [try_fold] from [None]. *)
Definition canonical_account (block_number : u64) (accounts : list ResponseAccount) :
    anyhow (option ResponseAccount) :=
  fold_result (λ canonical account,
      match canonical with
      | Some canonical => Some <$> merge_shared_vm_accounts canonical account block_number
      | None => Ok (Some account)
      end)
    None accounts.

(** ** Making the views agree *)

(** The views of the messages that [p] selects, by protocol. *)
Definition account_views (p : BroadcasterProtocolMessage → bool) (address : Bytes)
    (ms : messages) : list ResponseAccount :=
  (sort_by_key fst
     (omap (λ m, if p m then pair (pm_protocol m) <$> hm_get address (pm_storage m) else None)
        ms)).*2.

(** Gives [canonical] to every message that holds the account. *)
Definition share_account (address : Bytes) (canonical : ResponseAccount) (ms : messages) : messages :=
  map (λ m,
      if hm_contains_key address (pm_storage m)
      then pm_update (sy_set_vm_storage (hm_insert address canonical)) m
      else m)
    ms.

Definition share_canonical (address : Bytes) (canonical : option ResponseAccount) :
    anyhowM messages unit :=
  match canonical with
  | Some canonical => modify (share_account address canonical)
  | None => mret tt
  end.

Definition btree_set (l : list string) : list string := sort (elements (list_to_set l : gset string)).

Definition touched_vm_addresses (message : BroadcasterProtocolMessage) : list Bytes :=
  btree_set ((pm_storage message).*1 ++
    match sy_deltas (pm_fields message) with
    | Some changes => (bc_account_updates changes).*1 ++ (bc_account_balances changes).*1
    | None => []
    end).

Definition deleted_vm_addresses (message : BroadcasterProtocolMessage) : list Bytes :=
  match sy_deltas (pm_fields message) with
  | Some changes =>
      (filter (λ u : Bytes * AccountUpdate, is_deletion u.2) (bc_account_updates changes)).*1
  | None => []
  end.

Definition propagate_touched_vm_accounts (incoming : BroadcasterProtocolMessage) :
    anyhowM messages unit :=
  let block_number := pm_number incoming in
  let deleted := deleted_vm_addresses incoming in
  for_eachM (λ address,
      if bool_decide (address ∈ deleted) then
        modify (map (pm_update (sy_set_vm_storage (hm_remove address))))
      else
        ms ← gets id;
        let same_block := account_views (λ m, (pm_number m =? block_number)%N) address ms in
        canonical ← lift (canonical_account block_number same_block);
        share_canonical address canonical)
    (touched_vm_addresses incoming).

(** [iter().max().unwrap_or_default()]. *)
Definition max_or_default (l : list u64) : u64 := default 0%N (list_max l).

(** The turn of the loop for an address. *)
Definition canonicalize_account (address : Bytes) : anyhowM messages unit :=
  ms ← gets id;
  let latest_block :=
    max_or_default
      (map pm_number (filter (λ m, hm_contains_key address (pm_storage m)) ms)) in
  let latest := account_views (λ m, (pm_number m =? latest_block)%N) address ms in
  canonical ← lift (canonical_account latest_block latest);
  share_canonical address canonical.

Definition canonicalize_shared_vm_accounts : anyhowM messages unit :=
  ms ← gets id;
  for_eachM canonicalize_account (btree_set (ms ≫= λ m, (pm_storage m).*1)).

(** ** Checking an update before it is applied *)

Inductive ProjectedVmAccount :=
| Materialized (account : option ResponseAccount)
| Residual (update : option AccountUpdate) (balances : hashmap AccountBalance).

Definition option_eqb {A} (eqb : A → A → bool) (x y : option A) : bool :=
  match x, y with Some x, Some y => eqb x y | None, None => true | _, _ => false end.

Definition merge_projected_vm_accounts (left right : ProjectedVmAccount) (address : Bytes)
    (block_number : u64) : anyhow ProjectedVmAccount :=
  match left, right with
  | Materialized (Some l), Materialized (Some r) =>
      (λ account, Materialized (Some account)) <$> merge_shared_vm_accounts l r block_number
  | Materialized None, Materialized None => Ok (Materialized None)
  | Residual update balances, Residual update' balances' =>
      if option_eqb account_update_eqb update update'
         && hm_eqb account_balance_eqb balances balances'
      then Ok left
      else Err (conflicting_account address block_number)
  | _, _ => Err (conflicting_account address block_number)
  end.

(** The view of an account in a backend: that of the protocol, else any. *)
Definition stored_account (partition : option BroadcasterPartitionState) (protocol : string)
    (address : Bytes) : option ResponseAccount :=
  match partition with
  | None => None
  | Some partition =>
      let ms := ps_messages partition in
      let own :=
        x ← list_find (λ m, pm_protocol m = protocol) ms; hm_get address (pm_storage x.2) in
      match own with
      | Some account => Some account
      | None => head (omap (λ m, hm_get address (pm_storage m)) ms)
      end
  end.

Definition project_vm_account (partition : option BroadcasterPartitionState)
    (incoming : BroadcasterProtocolMessage) (address : Bytes) : ProjectedVmAccount :=
  let changes := sy_deltas (pm_fields incoming) in
  let update := changes ≫= λ changes, hm_get address (bc_account_updates changes) in
  let balances :=
    default [] (changes ≫= λ changes, hm_get address (bc_account_balances changes)) in
  if default false (is_deletion <$> update) then Materialized None
  else if default false (is_creation <$> update) then Residual update balances
  else
    let account :=
      match hm_get address (pm_storage incoming) with
      | Some account => Some account
      | None => stored_account partition (pm_protocol incoming) address
      end in
    match account with
    | Some account =>
        let account :=
          match update with
          | Some update => fold_account_update_into_snapshot account update
          | None => account
          end in
        Materialized (Some (apply_account_balances account balances))
    | None => Residual update balances
    end.

Abbreviation projections := (gmap (u64 * Bytes) (string * ProjectedVmAccount)).

(** The projection of one account, reconciled with the other views at its block. *)
Definition reconciled_account (partition : option BroadcasterPartitionState) (incoming_messages : messages)
    (incoming : BroadcasterProtocolMessage) (address : Bytes) : anyhow ProjectedVmAccount :=
  let number := pm_number incoming in
  fold_result (λ projected existing,
      match hm_get address (pm_storage existing) with
      | None => Ok projected
      | Some account =>
          map_err (λ error, anyhow_error ("while reconciling VM protocols "
                     +:+ pm_protocol incoming +:+ " and " +:+ pm_protocol existing +:+ ": "
                     +:+ error_chain error))
            (merge_projected_vm_accounts projected (Materialized (Some account)) address number)
      end)
    (project_vm_account partition incoming address)
    (filter (λ m, pm_protocol m ≠ pm_protocol incoming ∧ pm_number m = number)
       (default [] (ps_messages <$> partition) ++ incoming_messages)).

Definition project_address (partition : option BroadcasterPartitionState)
    (incoming_messages : messages) (incoming : BroadcasterProtocolMessage)
    (projected_by_block_and_address : projections) (address : Bytes) : anyhow projections :=
  projected ← reconciled_account partition incoming_messages incoming address;
  let key := (pm_number incoming, address) in
  match projected_by_block_and_address !! key with
  | Some (protocol, previous) =>
      merged ←
        with_context
          ("conflicting VM account " +:+ bytes_display address +:+ " values from protocols "
             +:+ protocol +:+ " and " +:+ pm_protocol incoming)
          (merge_projected_vm_accounts previous projected address (pm_number incoming));
      Ok (<[key := (protocol, merged)]> projected_by_block_and_address)
  | None => Ok (<[key := (pm_protocol incoming, projected)]> projected_by_block_and_address)
  end.

Definition validate_raw_update_message (ps : partitions) (update : BroadcasterUpdateMessage) :
    anyhow unit :=
  for_each (λ partition,
      fold_result (λ projected incoming,
          fold_result
            (project_address (ps !! up_backend partition) (up_messages partition) incoming)
            projected (touched_vm_addresses incoming))
        (∅ : projections) (sort_by_key pm_protocol (up_messages partition)) ;;
      Ok tt)
    (um_partitions update).

(** ** Applying an update *)

Definition ps_set_messages (ms : messages) (p : BroadcasterPartitionState) :
    BroadcasterPartitionState :=
  {| ps_block := ps_block p; ps_sync_statuses := ps_sync_statuses p; ps_messages := ms;
     ps_states := ps_states p |}.

Definition ps_set_head (block_number : u64)
    (sync_statuses : btree string BroadcasterProtocolSyncStatus) (p : BroadcasterPartitionState) :
    BroadcasterPartitionState :=
  {| ps_block := Some block_number; ps_sync_statuses := sync_statuses;
     ps_messages := ps_messages p; ps_states := ps_states p |}.

(** Runs on the messages of a backend, where an error leaves what was done. *)
Definition on_messages {A} (backend : BroadcasterBackend) (m : anyhowM messages A) :
    anyhowM partitions A :=
  λ ps,
    let partition := default partition_default (ps !! backend) in
    let '(r, ms) := m (ps_messages partition) in
    (r, <[backend := ps_set_messages ms partition]> ps).

(** [merge_raw_message] and [propagate_touched_vm_accounts] for each message, by protocol,
    then [canonicalize_shared_vm_accounts]. *)
Definition merge_raw_messages (incoming : messages) : anyhowM messages unit :=
  for_eachM (λ message,
      modify (λ ms, merge_raw_message ms message) ;; propagate_touched_vm_accounts message)
    (sort_by_key pm_protocol incoming) ;;
  canonicalize_shared_vm_accounts.

Definition apply_raw_partition (partition : BroadcasterUpdatePartition) : anyhowM partitions unit :=
  modify (λ ps : partitions,
      bt_entry_update partition_default
        (ps_set_head (up_block_number partition) (up_sync_statuses partition))
        (up_backend partition) ps) ;;
  on_messages (up_backend partition) (merge_raw_messages (up_messages partition)).

Definition apply_raw_update_message (message : BroadcasterUpdateMessage) : anyhowM partitions unit :=
  for_eachM apply_raw_partition (um_partitions message).
End accounts.
