(* ===== verification/SnapshotCache.v ===== *)
(** * The broadcaster's snapshot cache

    [runtime/src/broadcaster/state.rs]: the state of the upstream connection and the cache
    of what the upstream stream has delivered, by backend.  An update is staged on the cache
    as it is, published, and then committed; after a discontinuity the cache collects a
    replacement of everything it holds and swaps it in when the protocols are aligned.  The
    locks are held from end to end of an operation, so it is a function on what they guard;
    an operation that reads the clock takes its reading. *)

From S2P Require Import Prelude Ordered Text Protocol.
From S2P Require Import Wire Validate Codec TychoFeed RedisEntry Replay Recovery Store.
From S2P Require Import Health Publisher.
From S2P Require Import Reassembly RawMessage SnapshotExport RawCompaction SharedAccounts.

(** ** The upstream connection *)

Record BroadcasterUpstreamStateData := {
  us_connected : bool;
  us_restart_count : u64;
  us_last_error : option string;
  us_last_disconnect_reason : option string;
  us_last_update_at : option Instant;
  us_last_native_block : option u64;
}.

Definition upstream_default : BroadcasterUpstreamStateData :=
  {| us_connected := false; us_restart_count := 0; us_last_error := None;
     us_last_disconnect_reason := None; us_last_update_at := None;
     us_last_native_block := None |}.

Definition mark_connected (u : BroadcasterUpstreamStateData) : BroadcasterUpstreamStateData :=
  {| us_connected := true; us_restart_count := us_restart_count u;
     us_last_error := us_last_error u; us_last_disconnect_reason := None;
     us_last_update_at := us_last_update_at u; us_last_native_block := us_last_native_block u |}.

Definition record_update (now : Instant) (u : BroadcasterUpstreamStateData) :
    BroadcasterUpstreamStateData :=
  {| us_connected := true; us_restart_count := us_restart_count u;
     us_last_error := us_last_error u; us_last_disconnect_reason := us_last_disconnect_reason u;
     us_last_update_at := Some now; us_last_native_block := us_last_native_block u |}.

Definition record_native_progress (now : Instant) (block_number : u64)
    (u : BroadcasterUpstreamStateData) : bool * BroadcasterUpstreamStateData :=
  if default false ((λ last_block, (block_number <=? last_block)%N) <$> us_last_native_block u)
  then (false, u)
  else
    (true,
     {| us_connected := true; us_restart_count := us_restart_count u;
        us_last_error := us_last_error u;
        us_last_disconnect_reason := us_last_disconnect_reason u;
        us_last_update_at := Some now; us_last_native_block := Some block_number |}).

Definition mark_disconnected (reason : string) (last_error : option string)
    (u : BroadcasterUpstreamStateData) : BroadcasterUpstreamStateData :=
  {| us_connected := false; us_restart_count := saturating_add (us_restart_count u) 1;
     us_last_error := last_error; us_last_disconnect_reason := Some reason;
     us_last_update_at := us_last_update_at u; us_last_native_block := us_last_native_block u |}.

Definition mark_build_failed (error : string) (u : BroadcasterUpstreamStateData) :
    BroadcasterUpstreamStateData :=
  {| us_connected := false; us_restart_count := us_restart_count u;
     us_last_error := Some error; us_last_disconnect_reason := Some "build_failed";
     us_last_update_at := us_last_update_at u; us_last_native_block := us_last_native_block u |}.

Record BroadcasterUpstreamSnapshot := {
  un_connected : bool;
  un_restart_count : u64;
  un_last_error : option string;
  un_last_disconnect_reason : option string;
  un_last_update_age_ms : option u64;
}.

Definition upstream_snapshot (now : Instant) (u : BroadcasterUpstreamStateData) :
    BroadcasterUpstreamSnapshot :=
  {| un_connected := us_connected u; un_restart_count := us_restart_count u;
     un_last_error := us_last_error u;
     un_last_disconnect_reason := us_last_disconnect_reason u;
     un_last_update_age_ms :=
       (λ instant, as_millis_u64 (saturating_duration_since now instant))
         <$> us_last_update_at u |}.

(** ** Status *)

Inductive BroadcasterReadiness :=
| BrReady
| RedisPublisherPassive
| RedisPublisherRetired
| RedisPublisherUnhealthy
| SnapshotWarmingUp
| UpstreamRecovering
| SnapshotUnexportable
| UpstreamDisconnected
| NativeProgressStale.

Definition BroadcasterReadiness_as_str (readiness : BroadcasterReadiness) : string :=
  match readiness with
  | UpstreamDisconnected => "upstream_disconnected"
  | NativeProgressStale => "native_progress_stale"
  | SnapshotWarmingUp => "snapshot_warming_up"
  | UpstreamRecovering | SnapshotUnexportable => "degraded"
  | RedisPublisherPassive => "redis_publisher_passive"
  | RedisPublisherRetired => "redis_publisher_retired"
  | RedisPublisherUnhealthy => "redis_publisher_unhealthy"
  | BrReady => "ready"
  end.

Record BroadcasterRecoveryStatus := {
  rst_active : bool;
  rst_phase : string;
  rst_age_ms : option u64;
  rst_attempt : N;
  rst_buffer_a_count : usize;
  rst_buffer_b_count : usize;
  rst_oldest_buffered_age_ms : option u64;
  rst_last_outcome : option string;
  rst_last_duration_ms : option u64;
  rst_last_encoded_bytes : option usize;
  rst_last_chunk_count : option usize;
  rst_last_error : option string;
}.

Definition recovery_status_default : BroadcasterRecoveryStatus :=
  {| rst_active := false; rst_phase := "idle"; rst_age_ms := None; rst_attempt := 0;
     rst_buffer_a_count := 0; rst_buffer_b_count := 0; rst_oldest_buffered_age_ms := None;
     rst_last_outcome := None; rst_last_duration_ms := None; rst_last_encoded_bytes := None;
     rst_last_chunk_count := None; rst_last_error := None |}.

Record BroadcasterSnapshotStatus := {
  nst_ready : bool;
  nst_stream_id : string;
  nst_snapshot_id : string;
  nst_configured_backends : list BroadcasterBackend;
  nst_total_states : usize;
  nst_max_payload_bytes : usize;
  nst_exportable : bool;
  nst_last_export_check_age_ms : option u64;
  nst_last_export_success_age_ms : option u64;
  nst_last_export_duration_ms : option u64;
  nst_last_export_payload_count : option usize;
  nst_largest_payload_bytes : option usize;
  nst_payload_limit_utilization_bps : option N;
  nst_last_export_error : option string;
  nst_recovery_pending : bool;
  nst_recovery_id : option u64;
  nst_recovery_error : option string;
}.

Record BroadcasterSnapshotSessionsSnapshot := {
  sns_active : usize;
  sns_last_error : option string;
}.

Record BroadcasterBackendStatus := {
  bst_block_number : option u64;
  bst_pool_count : usize;
  bst_sync_statuses : btree string BroadcasterProtocolSyncStatus;
}.

Record BroadcasterStatusSnapshot := {
  bss_readiness : BroadcasterReadiness;
  bss_chain_id : u64;
  bss_upstream : BroadcasterUpstreamSnapshot;
  bss_recovery : BroadcasterRecoveryStatus;
  bss_snapshot : BroadcasterSnapshotStatus;
  bss_snapshot_sessions : BroadcasterSnapshotSessionsSnapshot;
  bss_backends : btree BroadcasterBackend BroadcasterBackendStatus;
  bss_redis_publisher : option BroadcasterRedisPublisherStatus;
  bss_deployment_admission : BroadcasterDeploymentAdmissionSnapshot;
}.

(** ** The cache *)

(** A failed operation, and the panic of an [assert!]. *)
Inductive CacheError :=
| CacheFailed (error : AnyhowError)
| CachePanicked (message : string).

Definition format_stream_id (chain_id generation : u64) : string :=
  "chain-" +:+ u64_to_string chain_id +:+ "-stream-" +:+ u64_to_string generation.

Definition format_snapshot_id (chain_id generation : u64) : string :=
  "chain-" +:+ u64_to_string chain_id +:+ "-snapshot-" +:+ u64_to_string generation.

Section cache.
Context `{SyncFields} `{!TychoState} `{!SerdeJson} `{!ListJson}.
Context (chain_id : u64) (configured_backends : list BroadcasterBackend).

Abbreviation partitions := (btree BroadcasterBackend BroadcasterPartitionState).

Record UpstreamReplacementState := {
  rp_id : u64;
  rp_started_at : Instant;
  rp_candidates : partitions;
}.

Record BroadcasterSnapshotCacheData := {
  cd_generation : u64;
  cd_stream_id : string;
  cd_snapshot_id : string;
  cd_partitions : partitions;
  cd_known_backends : gmap string BroadcasterBackend;
  cd_expected_protocols : gset string;
  cd_replacement : option UpstreamReplacementState;
  cd_next_recovery_id : u64;
}.

Definition set_partitions (f : partitions → partitions) (d : BroadcasterSnapshotCacheData) :
    BroadcasterSnapshotCacheData :=
  {| cd_generation := cd_generation d; cd_stream_id := cd_stream_id d;
     cd_snapshot_id := cd_snapshot_id d; cd_partitions := f (cd_partitions d);
     cd_known_backends := cd_known_backends d;
     cd_expected_protocols := cd_expected_protocols d; cd_replacement := cd_replacement d;
     cd_next_recovery_id := cd_next_recovery_id d |}.

Definition set_known_backends
    (f : gmap string BroadcasterBackend → gmap string BroadcasterBackend)
    (d : BroadcasterSnapshotCacheData) : BroadcasterSnapshotCacheData :=
  {| cd_generation := cd_generation d; cd_stream_id := cd_stream_id d;
     cd_snapshot_id := cd_snapshot_id d; cd_partitions := cd_partitions d;
     cd_known_backends := f (cd_known_backends d);
     cd_expected_protocols := cd_expected_protocols d; cd_replacement := cd_replacement d;
     cd_next_recovery_id := cd_next_recovery_id d |}.

Definition set_expected_protocols (expected : gset string) (d : BroadcasterSnapshotCacheData) :
    BroadcasterSnapshotCacheData :=
  {| cd_generation := cd_generation d; cd_stream_id := cd_stream_id d;
     cd_snapshot_id := cd_snapshot_id d; cd_partitions := cd_partitions d;
     cd_known_backends := cd_known_backends d; cd_expected_protocols := expected;
     cd_replacement := cd_replacement d; cd_next_recovery_id := cd_next_recovery_id d |}.

Definition set_replacement (replacement : option UpstreamReplacementState)
    (next_recovery_id : u64) (d : BroadcasterSnapshotCacheData) : BroadcasterSnapshotCacheData :=
  {| cd_generation := cd_generation d; cd_stream_id := cd_stream_id d;
     cd_snapshot_id := cd_snapshot_id d; cd_partitions := cd_partitions d;
     cd_known_backends := cd_known_backends d;
     cd_expected_protocols := cd_expected_protocols d; cd_replacement := replacement;
     cd_next_recovery_id := next_recovery_id |}.

(** The backends a cache is created with. *)
Definition new_configured_backends (backends : list BroadcasterBackend) :
    list BroadcasterBackend := sorted_backends backends.

Definition new_with_initial_generation (generation : u64) : BroadcasterSnapshotCacheData :=
  let generation := N.max generation 1 in
  {| cd_generation := generation; cd_stream_id := format_stream_id chain_id generation;
     cd_snapshot_id := format_snapshot_id chain_id generation; cd_partitions := ∅;
     cd_known_backends := ∅; cd_expected_protocols := ∅; cd_replacement := None;
     cd_next_recovery_id := 1 |}.

Definition relabel_generation (generation : u64) (d : BroadcasterSnapshotCacheData) :
    BroadcasterSnapshotCacheData :=
  let generation := N.max generation 1 in
  {| cd_generation := generation; cd_stream_id := format_stream_id chain_id generation;
     cd_snapshot_id := format_snapshot_id chain_id generation;
     cd_partitions := cd_partitions d; cd_known_backends := cd_known_backends d;
     cd_expected_protocols := cd_expected_protocols d; cd_replacement := cd_replacement d;
     cd_next_recovery_id := cd_next_recovery_id d |}.

Definition reset_same_generation (d : BroadcasterSnapshotCacheData) :
    BroadcasterSnapshotCacheData :=
  {| cd_generation := cd_generation d; cd_stream_id := cd_stream_id d;
     cd_snapshot_id := cd_snapshot_id d; cd_partitions := ∅; cd_known_backends := ∅;
     cd_expected_protocols := ∅; cd_replacement := None;
     cd_next_recovery_id := cd_next_recovery_id d |}.

Definition reset_to_generation (generation : u64) (d : BroadcasterSnapshotCacheData) :
    BroadcasterSnapshotCacheData :=
  reset_same_generation (relabel_generation generation d).

Definition begin_recovery (now : Instant) (candidates : partitions)
    (d : BroadcasterSnapshotCacheData) : BroadcasterSnapshotCacheData :=
  set_replacement
    (Some {| rp_id := cd_next_recovery_id d; rp_started_at := now;
             rp_candidates := candidates |})
    (saturating_add (cd_next_recovery_id d) 1) d.

Definition begin_same_generation_recovery (now : Instant) :
    BroadcasterSnapshotCacheData → BroadcasterSnapshotCacheData := begin_recovery now ∅.

Definition begin_same_generation_recovery_from_current (now : Instant)
    (d : BroadcasterSnapshotCacheData) : BroadcasterSnapshotCacheData :=
  match cd_replacement d with
  | Some _ => d
  | None => begin_recovery now (cd_partitions d) d
  end.

Definition replacement_pending (d : BroadcasterSnapshotCacheData) : bool :=
  bool_decide (is_Some (cd_replacement d)).

(** ** Checks on an update *)

Definition find_raw_protocol_message (ps : partitions) (protocol : string) :
    option BroadcasterProtocolMessage :=
  head (filter (λ m, pm_protocol m = protocol) (bt_values ps ≫= ps_messages)).

Definition raw_header_is_discontinuous (previous incoming : BlockHeader) : bool :=
  negb (String.eqb (bh_hash incoming) (bh_hash previous))
  && negb (String.eqb (bh_parent_hash incoming) (bh_hash previous)).

(** Whether a message carries a snapshot. *)
Definition has_snapshot (m : BroadcasterProtocolMessage) : bool :=
  negb (bool_decide (length (sy_states (pm_fields m)) = 0))
  || negb (bool_decide (length (pm_storage m) = 0)).

Definition pm_header (m : BroadcasterProtocolMessage) : BlockHeader := ssm_header (pm_message m).

Definition raw_message_has_header_gap (ps : partitions) (update : BroadcasterUpdateMessage) :
    bool :=
  existsb (λ partition,
      existsb (λ incoming,
          match find_raw_protocol_message ps (pm_protocol incoming) with
          | Some previous =>
              raw_header_is_discontinuous (pm_header previous) (pm_header incoming)
              && has_snapshot incoming
          | None => false
          end)
        (up_messages partition))
    (um_partitions update).

Definition ensure_configured_update_backends (message : BroadcasterUpdateMessage) : anyhow unit :=
  for_each (λ partition,
      ensure (bool_decide (up_backend partition ∈ configured_backends))
        (anyhow_error ("update partition backend "
           +:+ BroadcasterBackend_as_str (up_backend partition) +:+ " is not configured")))
    (um_partitions message).

(** The check of one partition, given the state of its backend. *)
Definition validate_partition_applicable (state : option BroadcasterPartitionState)
    (partition : BroadcasterUpdatePartition) : anyhow unit :=
  let backend := up_backend partition in
  let new_pair_ids := map se_component_id (up_new_pairs partition) in
  for_each (λ delta,
      let id := sd_component_id delta in
      if negb (bool_decide (sd_backend delta = backend)) then
        anyhow_bail ("backend mismatch for " +:+ id +:+ ": expected "
                       +:+ BroadcasterBackend_as_str backend +:+ ", found "
                       +:+ BroadcasterBackend_as_str (sd_backend delta))
      else
        let is_known :=
          bool_decide (is_Some (state ≫= λ state, ps_states state !! id))
          || bool_decide (id ∈ new_pair_ids) in
        ensure is_known
          (anyhow_error ("missing tracked broadcaster state for " +:+ id +:+ " on backend "
                           +:+ BroadcasterBackend_as_str backend)))
    (up_updated_states partition).

Definition validate_update_message_applicable (ps : partitions)
    (message : BroadcasterUpdateMessage) : anyhow unit :=
  for_each (λ partition, validate_partition_applicable (ps !! up_backend partition) partition)
    (um_partitions message).

(** ** Applying a decoded update *)

Definition ps_set_states (f : btree string BroadcasterStateEntry → btree string BroadcasterStateEntry)
    (p : BroadcasterPartitionState) : BroadcasterPartitionState :=
  {| ps_block := ps_block p; ps_sync_statuses := ps_sync_statuses p;
     ps_messages := ps_messages p; ps_states := f (ps_states p) |}.

Definition set_state (state : ProtocolSim) (entry : BroadcasterStateEntry) :
    BroadcasterStateEntry :=
  {| se_component_id := se_component_id entry; se_component := se_component entry;
     se_state := state |}.

Abbreviation cacheM A := (stateR BroadcasterSnapshotCacheData CacheError A).

(** [assert!] *)
Definition assertM (b : bool) (message : string) : cacheM unit :=
  if b then mret tt else throw (CachePanicked message).

(** The state of a backend that has an entry. *)
Definition backend_state (backend : BroadcasterBackend) (d : BroadcasterSnapshotCacheData) :
    BroadcasterPartitionState := default partition_default (cd_partitions d !! backend).

Definition update_backend (backend : BroadcasterBackend)
    (f : BroadcasterPartitionState → BroadcasterPartitionState) : cacheM unit :=
  modify (set_partitions (bt_entry_update partition_default f backend)).

Definition apply_state_delta (backend : BroadcasterBackend) (delta : BroadcasterStateDelta) :
    cacheM unit :=
  let id := sd_component_id delta in
  assertM (bool_decide (sd_backend delta = backend))
    ("staged broadcaster delta backend mismatch for " +:+ id) ;;
  states ← gets (λ d, ps_states (backend_state backend d));
  assertM (bool_decide (is_Some (states !! id)))
    ("staged broadcaster delta missing tracked state for " +:+ id +:+ " on backend "
       +:+ BroadcasterBackend_as_str backend) ;;
  update_backend backend (ps_set_states (alter (set_state (sd_state delta)) id)).

Definition insert_new_pair (backend : BroadcasterBackend) (entry : BroadcasterStateEntry) :
    cacheM unit :=
  let id := se_component_id entry in
  modify (set_known_backends <[id := backend]>) ;;
  update_backend backend (ps_set_states <[id := entry]>).

Definition remove_pair (backend : BroadcasterBackend) (removed : BroadcasterRemovedPair) :
    cacheM unit :=
  let id := rp_component_id removed in
  modify (set_known_backends (delete id)) ;;
  update_backend backend (ps_set_states (delete id)).

Definition apply_update_partition (partition : BroadcasterUpdatePartition) : cacheM unit :=
  let backend := up_backend partition in
  update_backend backend (ps_set_head (up_block_number partition) (up_sync_statuses partition)) ;;
  for_eachM (insert_new_pair backend) (up_new_pairs partition) ;;
  for_eachM (apply_state_delta backend) (up_updated_states partition) ;;
  for_eachM (remove_pair backend) (up_removed_pairs partition).

Definition apply_update_message (message : BroadcasterUpdateMessage) : cacheM unit :=
  for_eachM apply_update_partition (um_partitions message).

(** ** Collecting a replacement *)

(** A change of the message [find_raw_protocol_message_mut] finds. *)
Definition alter_raw_protocol_message
    (f : BroadcasterProtocolMessage → BroadcasterProtocolMessage) (protocol : string)
    (ps : partitions) : partitions :=
  let found '(backend, partition) :=
    '(index, _) ← list_find (λ m, pm_protocol m = protocol) (ps_messages partition);
    Some (backend, ps_set_messages (alter f index (ps_messages partition)) partition) in
  match head (omap found (bt_iter ps)) with
  | Some (backend, partition) => <[backend := partition]> ps
  | None => ps
  end.

Definition set_sync_state (sync_state : SynchronizerState) (m : BroadcasterProtocolMessage) :
    BroadcasterProtocolMessage :=
  {| pm_protocol := pm_protocol m; pm_sync_state := sync_state; pm_message := pm_message m |}.

(** What the feed says of a protocol, on the candidate of the protocol. *)
Definition apply_feed_sync_state (feed : FeedMessage) (protocol : string)
    (sync_state : SynchronizerState) (candidate : BroadcasterProtocolMessage) :
    BroadcasterProtocolMessage :=
  let candidate := set_sync_state sync_state candidate in
  match hm_get protocol (fm_state_msgs feed), sync_state with
  | None, SyncReady header => pm_update (sy_set_header (λ _, header)) candidate
  | _, _ => candidate
  end.

(** [sort_by] and the [max] of the headers. *)
Definition settle_candidate (p : BroadcasterPartitionState) : BroadcasterPartitionState :=
  let messages := sort_by_key pm_protocol (ps_messages p) in
  {| ps_block := list_max (map pm_number messages); ps_sync_statuses := ps_sync_statuses p;
     ps_messages := messages; ps_states := ps_states p |}.

Definition apply_replacement_feed_message (candidates : partitions)
    (update : BroadcasterUpdateMessage) (feed : FeedMessage) : anyhow partitions :=
  ensure (negb (raw_message_has_header_gap candidates update))
    (anyhow_error "fresh Tycho replacement became discontinuous before it aligned") ;;
  validate_raw_update_message candidates update ;;
  let '(r, candidates) := apply_raw_update_message update candidates in
  r ;;
  let candidates :=
    foldl (λ candidates '(protocol, sync_state),
        alter_raw_protocol_message (apply_feed_sync_state feed protocol sync_state) protocol
          candidates)
      candidates (fm_sync_states feed) in
  Ok (settle_candidate <$> candidates).

Definition partition_complete (p : BroadcasterPartitionState) : bool :=
  match ps_block p with
  | None => false
  | Some block_number =>
      bool_decide (complete_broadcaster_partition_block block_number (ps_messages p)
                     (ps_sync_statuses p) = Some block_number)
  end.

Definition replacement_is_aligned (candidates : partitions) (expected_protocols : gset string) :
    bool :=
  let messages := bt_values candidates ≫= ps_messages in
  if bool_decide (expected_protocols = ∅) then false
  else if negb (bool_decide (length messages = size expected_protocols))
       || existsb (λ m, negb (bool_decide (pm_protocol m ∈ expected_protocols))) messages
       || existsb (λ p, negb (partition_complete p)) (bt_values candidates)
  then false
  else
    match messages with
    | [] => false
    | first :: _ =>
        forallb (λ m, (pm_number m =? pm_number first)%N
                      && String.eqb (bh_hash (pm_header m)) (bh_hash (pm_header first)))
          messages
    end.

(** ** Staging *)

Inductive BroadcasterStagedUpdateApplyMode :=
| Decoded
| RawNormal (expected_protocols : gset string) (next_recovery_id : u64)
| Replacement (ps : partitions) (expected_protocols : gset string)
    (pending : option UpstreamReplacementState) (next_recovery_id : u64).

Record BroadcasterStagedUpdate := {
  su_message : option BroadcasterUpdateMessage;
  su_apply_mode : BroadcasterStagedUpdateApplyMode;
  su_replacement_ready : bool;
  su_recovery_id : option u64;
}.

Definition publishes_update (staged : BroadcasterStagedUpdate) : bool :=
  bool_decide (is_Some (su_message staged)) || su_replacement_ready staged.

Definition recovery_partitions (staged : BroadcasterStagedUpdate) : option partitions :=
  match su_apply_mode staged with
  | Replacement ps _ None _ => if su_replacement_ready staged then Some ps else None
  | _ => None
  end.

Definition stage_update (update : TychoUpdate) (d : BroadcasterSnapshotCacheData) :
    anyhow BroadcasterStagedUpdate :=
  message ← from_contract (from_tycho_update update (cd_known_backends d));
  ensure_configured_update_backends message ;;
  validate_update_message_applicable (cd_partitions d) message ;;
  Ok {| su_message := Some message; su_apply_mode := Decoded; su_replacement_ready := false;
        su_recovery_id := None |}.

(** The expected protocols once a feed message is taken in. *)
Definition expected_with (feed : FeedMessage) (d : BroadcasterSnapshotCacheData) : gset string :=
  cd_expected_protocols d ∪ list_to_set (fm_sync_states feed).*1.

Definition stage_replacement (feed : FeedMessage) (message : BroadcasterUpdateMessage)
    (pending : UpstreamReplacementState) (d : BroadcasterSnapshotCacheData) :
    anyhow BroadcasterStagedUpdate :=
  let expected_protocols := expected_with feed d in
  candidates ← apply_replacement_feed_message (rp_candidates pending) message feed;
  if replacement_is_aligned candidates expected_protocols then
    Ok {| su_message := None;
          su_apply_mode :=
            Replacement candidates expected_protocols None (cd_next_recovery_id d);
          su_replacement_ready := true; su_recovery_id := Some (rp_id pending) |}
  else
    let pending :=
      {| rp_id := rp_id pending; rp_started_at := rp_started_at pending;
         rp_candidates := candidates |} in
    Ok {| su_message := None;
          su_apply_mode :=
            Replacement (cd_partitions d) expected_protocols (Some pending)
              (cd_next_recovery_id d);
          su_replacement_ready := false; su_recovery_id := None |}.

Definition stage_feed_message (feed : FeedMessage) (d : BroadcasterSnapshotCacheData) :
    anyhow BroadcasterStagedUpdate :=
  message ← from_contract (from_tycho_feed_message feed);
  ensure_configured_update_backends message ;;
  match cd_replacement d with
  | Some pending => stage_replacement feed message pending d
  | None =>
      ensure (negb (raw_message_has_header_gap (cd_partitions d) message))
        (anyhow_error
           "Tycho header gap requires reconnect and a fresh authoritative replacement") ;;
      validate_raw_update_message (cd_partitions d) message ;;
      Ok {| su_message := Some message;
            su_apply_mode := RawNormal (expected_with feed d) (cd_next_recovery_id d);
            su_replacement_ready := false; su_recovery_id := None |}
  end.

(** ** Committing *)

Definition on_partitions {A} (m : stateR partitions AnyhowError A) : cacheM A :=
  λ d, let '(r, ps) := m (cd_partitions d) in (map_err CacheFailed r, set_partitions (λ _, ps) d).

Definition commit_staged_update (staged : BroadcasterStagedUpdate) : cacheM unit :=
  match su_apply_mode staged with
  | Decoded =>
      match su_message staged with
      | Some message => apply_update_message message
      | None => mret tt
      end
  | RawNormal expected_protocols next_recovery_id =>
      match su_message staged with
      | Some message => on_partitions (apply_raw_update_message message)
      | None => mret tt
      end ;;
      modify (set_expected_protocols expected_protocols) ;;
      modify (λ d, set_replacement (cd_replacement d) next_recovery_id d)
  | Replacement ps expected_protocols pending next_recovery_id =>
      modify (set_partitions (λ _, ps)) ;;
      modify (set_expected_protocols expected_protocols) ;;
      modify (set_replacement pending next_recovery_id)
  end.

Definition apply_update (update : TychoUpdate) : cacheM BroadcasterUpdateMessage :=
  d ← gets id;
  staged ← lift (map_err CacheFailed (stage_update update d));
  message ← lift (ok_or (su_message staged)
              (CacheFailed (anyhow_error "decoded staged update is missing its Redis payload")));
  commit_staged_update staged ;;
  mret message.

Definition apply_feed_message (feed : FeedMessage) : cacheM (option BroadcasterUpdateMessage) :=
  d ← gets id;
  staged ← lift (map_err CacheFailed (stage_feed_message feed d));
  commit_staged_update staged ;;
  mret (su_message staged).

(** ** Reading *)

Definition is_ready_locked (d : BroadcasterSnapshotCacheData) : bool :=
  forallb (λ backend, bool_decide (is_Some (cd_partitions d !! backend ≫= ps_block)))
    configured_backends.

Definition backend_heads_locked (d : BroadcasterSnapshotCacheData) :
    list BroadcasterBackendHead :=
  omap (λ backend,
      (λ block_number, {| bh_backend := backend; bh_block_number := block_number |})
        <$> (cd_partitions d !! backend ≫= ps_block))
    configured_backends.

Definition current_source (d : BroadcasterSnapshotCacheData) : BroadcasterSnapshotSource :=
  {| src_stream_id := cd_stream_id d; src_snapshot_id := cd_snapshot_id d;
     src_partitions := cd_partitions d |}.

Definition export_snapshot (max_payload_bytes : usize) (d : BroadcasterSnapshotCacheData) :
    anyhow BroadcasterSnapshotExport :=
  export_snapshot_source chain_id configured_backends (current_source d) max_payload_bytes.

Definition pin_snapshot_source (d : BroadcasterSnapshotCacheData) :
    option BroadcasterSnapshotSource :=
  if is_ready_locked d then Some (current_source d) else None.

(** [BroadcasterSnapshotSource::backend_heads]. *)
Definition source_backend_heads (source : BroadcasterSnapshotSource) :
    list BroadcasterBackendHead :=
  omap (λ '(backend, partition),
      (λ block_number, {| bh_backend := backend; bh_block_number := block_number |})
        <$> ps_block partition)
    (bt_iter (src_partitions source)).

Definition recovery_source (staged : BroadcasterStagedUpdate) : anyhow BroadcasterRecoverySource :=
  ps ← ok_or (recovery_partitions staged)
         (anyhow_error "staged update does not contain a ready replacement");
  recovery_id ← ok_or (su_recovery_id staged)
                  (anyhow_error "ready replacement is missing its recovery identity");
  Ok {| rsrc_recovery_id := recovery_id; rsrc_partitions := ps |}.

Definition pin_recovery_source (recovery_id : u64) (d : BroadcasterSnapshotCacheData) :
    BroadcasterRecoverySource :=
  {| rsrc_recovery_id := recovery_id; rsrc_partitions := cd_partitions d |}.

(** [BroadcasterRecoverySource::complete_native_block]. *)
Definition source_complete_native_block (source : BroadcasterRecoverySource) : option u64 :=
  partition ← rsrc_partitions source !! Native;
  block_number ← ps_block partition;
  complete_broadcaster_partition_block block_number (ps_messages partition)
    (ps_sync_statuses partition).

Definition heartbeat (d : BroadcasterSnapshotCacheData) : anyhow (option BroadcasterPayload) :=
  if negb (is_ready_locked d) then Ok None
  else
    heartbeat ← from_contract (BroadcasterHeartbeat_new chain_id (cd_snapshot_id d)
                  (backend_heads_locked d));
    Ok (Some (Heartbeat heartbeat)).

(** ** Status of the cache *)

Definition entry_count (p : BroadcasterPartitionState) : usize :=
  match ps_messages p with
  | [] => N.of_nat (size (ps_states p))
  | messages => N.of_nat (sum_list (map (λ m, length (sy_states (pm_fields m))) messages))
  end.

Definition native_progress_stale (upstream : BroadcasterUpstreamSnapshot)
    (native_progress_lease : Duration) : bool :=
  bool_decide (Native ∈ configured_backends)
  && match un_last_update_age_ms upstream with
     | None => true
     | Some age_ms => (as_millis_u64 native_progress_lease <=? age_ms)%N
     end.

Definition cache_readiness (upstream : BroadcasterUpstreamSnapshot)
    (native_progress_lease : Duration) (d : BroadcasterSnapshotCacheData) : BroadcasterReadiness :=
  if negb (un_connected upstream) then UpstreamDisconnected
  else if replacement_pending d then UpstreamRecovering
  else if negb (is_ready_locked d) then SnapshotWarmingUp
  else if native_progress_stale upstream native_progress_lease then NativeProgressStale
  else BrReady.

Definition backend_status (d : BroadcasterSnapshotCacheData) (backend : BroadcasterBackend) :
    BroadcasterBackendStatus :=
  let status := backend_state backend d in
  {| bst_block_number := ps_block status; bst_pool_count := entry_count status;
     bst_sync_statuses := ps_sync_statuses status |}.

Definition status_snapshot (max_payload_bytes : usize) (upstream : BroadcasterUpstreamSnapshot)
    (snapshot_sessions : BroadcasterSnapshotSessionsSnapshot)
    (native_progress_lease : Duration) (d : BroadcasterSnapshotCacheData) :
    BroadcasterStatusSnapshot :=
  {| bss_readiness := cache_readiness upstream native_progress_lease d;
     bss_chain_id := chain_id; bss_upstream := upstream;
     bss_recovery := recovery_status_default;
     bss_snapshot :=
       {| nst_ready := is_ready_locked d; nst_stream_id := cd_stream_id d;
          nst_snapshot_id := cd_snapshot_id d; nst_configured_backends := configured_backends;
          nst_total_states := foldr N.add 0%N (map entry_count (bt_values (cd_partitions d)));
          nst_max_payload_bytes := max_payload_bytes; nst_exportable := true;
          nst_last_export_check_age_ms := None; nst_last_export_success_age_ms := None;
          nst_last_export_duration_ms := None; nst_last_export_payload_count := None;
          nst_largest_payload_bytes := None; nst_payload_limit_utilization_bps := None;
          nst_last_export_error := None; nst_recovery_pending := replacement_pending d;
          nst_recovery_id := rp_id <$> cd_replacement d; nst_recovery_error := None |};
     bss_snapshot_sessions := snapshot_sessions;
     bss_backends :=
       list_to_map (map (λ backend, (backend, backend_status d backend)) configured_backends);
     bss_redis_publisher := None;
     bss_deployment_admission :=
       {| adm_admitted := false; adm_phase := PhaseWarming; adm_last_error := None |} |}.
End cache.
