(* ===== verification/CompactionFacts.v ===== *)
(** * What compaction leaves, and the views of an account

    A message whose changes are folded into its snapshot keeps only the changes that have
    nothing there to go into; folding it again changes nothing.  After the accounts of a
    backend are canonicalised, the messages that hold an account hold the same one; what
    merges and shares messages keeps one message per protocol. *)

From S2P Require Import Prelude Ordered Text Protocol Wire Validate TychoFeed Codec.
From S2P Require Import RedisEntry Replay Recovery Store StorePools Reassembly RawMessage.
From S2P Require Import SnapshotExport ExportSplit RawCompaction SharedAccounts.

(** ** Folding entries *)

Lemma hm_alter_keys {V} (f : V → V) k (m : hashmap V) : (hm_alter f k m).*1 = m.*1.
Proof. unfold hm_alter. induction m as [|[k' v] m IH]; [done|]. csimpl. by rewrite IH. Qed.

Lemma hm_remove_fresh {V} k (m : hashmap V) : k ∉ m.*1 → hm_remove k m = m.
Proof. apply filter_fresh. Qed.

Lemma hm_remove_elem {V} k (m : hashmap V) j : j ∈ (hm_remove k m).*1 ↔ j ≠ k ∧ j ∈ m.*1.
Proof.
  unfold hm_remove. rewrite !list_elem_of_fmap. split.
  - intros ([j' v] & -> & [Hne Hin]%list_elem_of_filter). split; [done|]. by exists (j', v).
  - intros (Hne & [j' v] & -> & Hin). exists (j', v). split; [done|].
    by apply list_elem_of_filter.
Qed.

Lemma hm_contains_false {V} k (m : hashmap V) : hm_contains_key k m = false ↔ k ∉ m.*1.
Proof. rewrite <- hm_contains_key_elem. by destruct (hm_contains_key k m). Qed.

Lemma fold_into_None {V A} (apply : A → V → A) s k v :
  fold_into apply s k v = None ↔ k ∉ s.*1.
Proof.
  unfold fold_into. rewrite <- hm_contains_false. by destruct (hm_contains_key k s).
Qed.

Lemma fold_into_keys {V A} (apply : A → V → A) s k v s' :
  fold_into apply s k v = Some s' → s'.*1 = s.*1.
Proof.
  unfold fold_into. case_match; intros; simplify_eq. apply hm_alter_keys.
Qed.

(** What a fold does not take in has no entry to go into, and the entries keep their keys. *)
Lemma retain_fold_left {V A} (apply : A → V → A) s m s' kept n :
  retain_fold (fold_into apply) s m = (s', kept, n) →
  s'.*1 = s.*1 ∧ Forall (λ k, k ∉ s.*1) kept.*1.
Proof.
  unfold retain_fold. intros Heq.
  set (P := λ r : hashmap A * hashmap V * nat,
              r.1.1.*1 = s.*1 ∧ Forall (λ k, k ∉ s.*1) r.1.2.*1).
  cut (P (s', kept, n)); [done|]. rewrite <- Heq. apply foldl_inv.
  - by split; [|apply Forall_nil].
  - intros [[s0 kept0] n0] [k v] _ [Hs Hk]. unfold P in *. cbn in *.
    destruct (fold_into apply s0 k v) as [s1|] eqn:E; cbn.
    + split; [|done]. by rewrite (fold_into_keys _ _ _ _ _ E).
    + apply fold_into_None in E. split; [done|]. rewrite fmap_app. apply Forall_app.
      split; [done|]. apply Forall_singleton. by rewrite <- Hs.
Qed.

Lemma retain_fold_none {V A} (apply : A → V → A) s m :
  Forall (λ k, k ∉ s.*1) m.*1 → retain_fold (fold_into apply) s m = (s, m, 0%nat).
Proof.
  intros Hm. unfold retain_fold. match goal with |- foldl ?f _ _ = _ => set (step := f) end.
  cut (∀ kept, foldl step (s, kept, 0%nat) m = (s, kept ++ m, 0%nat)); [intros E; apply E|].
  induction m as [|[k v] m IH]; intros kept; cbn; [by rewrite app_nil_r|].
  apply Forall_cons in Hm as [Hk Hm].
  rewrite (proj2 (fold_into_None apply s k v) Hk).
  fold step. rewrite IH by done. by rewrite <- app_assoc.
Qed.

Lemma retain_keys_all {V} (keep : string → bool) (m : hashmap V) :
  Forall (λ k, keep k = true) m.*1 → retain_keys keep m = m.
Proof.
  unfold retain_keys. induction m as [|[k v] m IH]; csimpl; [done|]. intros [Hk Hm]%Forall_cons.
  rewrite filter_cons_True by (cbn in *; by rewrite Hk). by rewrite IH.
Qed.

Lemma retain_keys_kept {V} (keep : string → bool) (m : hashmap V) :
  Forall (λ k, keep k = true) (retain_keys keep m).*1.
Proof.
  unfold retain_keys. apply Forall_forall. intros k ([k' v] & -> & Hin)%list_elem_of_fmap.
  apply list_elem_of_filter in Hin as [Hk _]. by apply Is_true_true in Hk.
Qed.

#[local] Arguments retain_keys : simpl never.
#[local] Arguments retain_fold : simpl never.
#[local] Arguments fold_account_updates : simpl never.
#[local] Arguments active_entrypoint_ids : simpl never.
#[local] Arguments block_changes_has_bootstrap_residue : simpl never.
#[local] Arguments fold_block_changes_into_snapshot : simpl never.

Section facts.
Context `{SyncFields} `{!TychoState}.

(** ** Account updates *)

(** An update that stays: not a deletion, and of no account of the snapshot. *)
Definition unsettled (vm : hashmap ResponseAccount) (u : string * AccountUpdate) : Prop :=
  is_deletion u.2 = false ∧ u.1 ∉ vm.*1.

Lemma fold_account_updates_left vm updates vm' kept n :
  fold_account_updates vm updates = (vm', kept, n) → Forall (unsettled vm') kept.
Proof.
  unfold fold_account_updates. intros Heq.
  set (P := λ r : hashmap ResponseAccount * hashmap AccountUpdate * nat,
              Forall (unsettled r.1.1) r.1.2).
  cut (P (vm', kept, n)); [done|]. rewrite <- Heq. apply foldl_inv; [by apply Forall_nil|].
  intros [[vm0 kept0] n0] [a u] _ Hk. unfold P, fold_account_update in *. cbn in *.
  destruct (is_deletion u) eqn:Ed; cbn; [done|].
  destruct (is_creation u) eqn:Ec; cbn.
  - apply Forall_app. split.
    + eapply Forall_impl; [done|]. intros [b w] [Hw Hb]. split; [done|]. simpl in *.
      rewrite hm_remove_elem. naive_solver.
    + apply Forall_singleton. split; [done|]. rewrite hm_remove_elem. naive_solver.
  - destruct (fold_into _ vm0 a u) as [vm1|] eqn:E; cbn.
    + eapply Forall_impl; [done|]. intros [b w] [Hw Hb]. split; [done|].
      by rewrite (fold_into_keys _ _ _ _ _ E).
    + apply fold_into_None in E. apply Forall_app. split; [done|]. by apply Forall_singleton.
Qed.

Lemma fold_account_updates_none vm updates :
  Forall (unsettled vm) updates → fold_account_updates vm updates = (vm, updates, 0%nat).
Proof.
  intros Hu. unfold fold_account_updates. match goal with |- foldl ?f _ _ = _ => set (step := f) end.
  cut (∀ kept, foldl step (vm, kept, 0%nat) updates = (vm, kept ++ updates, 0%nat));
    [intros E; apply E|].
  induction updates as [|[a u] updates IH]; intros kept; cbn; [by rewrite app_nil_r|].
  apply Forall_cons in Hu as [[Hd Ha] Hu]. simpl in *. unfold fold_account_update.
  rewrite Hd. rewrite (hm_remove_fresh _ _ Ha).
  rewrite (proj2 (fold_into_None fold_account_update_into_snapshot vm a u) Ha).
  destruct (is_creation u); fold step; rewrite IH by done; by rewrite <- app_assoc.
Qed.

(** ** Block changes *)

(** Changes that have nothing to go into. *)
Record settled (states : hashmap ComponentWithState) (vm : hashmap ResponseAccount)
    (d : BlockChanges) : Prop := {
  settled_tokens : bc_new_tokens d = [];
  settled_deleted : bc_deleted_protocol_components d = [];
  settled_new : Forall (λ k, k ∉ states.*1) (bc_new_protocol_components d).*1;
  settled_states : Forall (λ k, k ∉ states.*1) (bc_state_updates d).*1;
  settled_balances : Forall (λ k, k ∉ states.*1) (bc_component_balances d).*1;
  settled_tvl : Forall (λ k, k ∉ states.*1) (bc_component_tvl d).*1;
  settled_accounts : Forall (unsettled vm) (bc_account_updates d);
  settled_account_balances : Forall (λ k, k ∉ vm.*1) (bc_account_balances d).*1;
  settled_params :
    Forall (λ k, k ∈ active_entrypoint_ids d) (dci_new_entrypoint_params (bc_dci_update d)).*1;
  settled_traces :
    Forall (λ k, k ∈ active_entrypoint_ids d) (dci_trace_results (bc_dci_update d)).*1;
}.

Lemma retain_active (active : list string) {V} (m : hashmap V) :
  Forall (λ k, k ∈ active) (retain_keys (λ k, bool_decide (k ∈ active)) m).*1.
Proof.
  eapply Forall_impl; [apply retain_keys_kept|]. intros k Hk. by apply bool_decide_eq_true in Hk.
Qed.

Lemma fold_block_changes_settled states vm d states' vm' d' stats :
  fold_block_changes_into_snapshot states vm d = (states', vm', d', stats) →
  settled states' vm' d'.
Proof.
  unfold fold_block_changes_into_snapshot.
  destruct (foldl deleted_component_step _ _) as [s1 d1] eqn:Ed.
  assert (bc_new_tokens d1 = []) as Htok.
  { set (P := λ r : hashmap ComponentWithState * BlockChanges, bc_new_tokens r.2 = []).
    change (P (s1, d1)). rewrite <- Ed. apply foldl_inv; [done|].
    intros [s0 d0] k _. unfold P. by destruct d0. }
  destruct d1 as [????? tokens updates state_updates new deleted balances acct tvl dci ?].
  cbn in Htok. subst tokens.
  destruct (retain_fold (fold_into apply_protocol_delta_to_snapshot) _ _) as [[s2 su] n1] eqn:E1.
  destruct (retain_fold (fold_into apply_component_balances) _ _) as [[s3 cb] n2] eqn:E2.
  destruct (retain_fold (fold_into (λ c t, cw_set_tvl (Some t) c)) _ _) as [[s4 ct] n3] eqn:E3.
  destruct (fold_account_updates _ _) as [[vm2 au] n4] eqn:E4.
  destruct (retain_fold (fold_into apply_account_balances) _ _) as [[vm3 ab] n5] eqn:E5.
  intros [= <- <- <- <-].
  apply retain_fold_left in E1 as [K1 F1]. apply retain_fold_left in E2 as [K2 F2].
  apply retain_fold_left in E3 as [K3 F3]. apply fold_account_updates_left in E4.
  apply retain_fold_left in E5 as [K5 F5]. cbn in *.
  assert (s4.*1 = s1.*1) as K by congruence.
  split; cbn; rewrite ?K, ?K5; try done.
  - eapply Forall_impl; [apply retain_keys_kept|]. intros k Hk. simpl in Hk.
    apply hm_contains_false. by destruct (hm_contains_key k s1).
  - by rewrite K1 in F2.
  - by rewrite K2, K1 in F3.
  - eapply Forall_impl; [done|]. intros u [Hu Ha]. split; [done|]. by rewrite K5.
  - apply retain_active.
  - apply retain_active.
Qed.

Lemma no_deletions vm (updates : hashmap AccountUpdate) :
  Forall (unsettled vm) updates →
  filter (λ u : Bytes * AccountUpdate, is_deletion u.2) updates = [].
Proof.
  induction updates as [|[a u] l IH]; [done|]. intros [[Hu _] Hl]%Forall_cons.
  rewrite filter_cons_False; [by apply IH|].
  simpl in *. rewrite Hu. by intros [].
Qed.

Lemma fold_settled states vm d :
  settled states vm d →
  fold_block_changes_into_snapshot states vm d = (states, vm, d, stats_default).
Proof.
  intros [Ht Hd Hn Hs Hb Hv Ha Hab Hp Htr]. unfold fold_block_changes_into_snapshot.
  destruct d as [????? tokens updates state_updates new deleted balances acct tvl dci ?].
  destruct dci as [entry params traces]. cbn in *. subst tokens deleted. cbn.
  rewrite !retain_fold_none by done. rewrite (no_deletions _ _ Ha). cbn.
  rewrite fold_account_updates_none by done. rewrite retain_fold_none by done.
  unfold bc_set_dci_update, dci_set_trace_results, dci_set_new_entrypoint_params. cbn.
  rewrite !retain_keys_all; [done|..].
  - eapply Forall_impl; [exact Htr|]. intros k Hk. by apply bool_decide_eq_true.
  - eapply Forall_impl; [exact Hp|]. intros k Hk. by apply bool_decide_eq_true.
  - eapply Forall_impl; [exact Hn|]. intros k Hk. simpl in Hk. apply hm_contains_false in Hk.
    by rewrite Hk.
Qed.

(** ** Messages *)

Definition residue_only (m : SyncMessage) : RawCompactionStats :=
  {| folded_state_updates := 0; folded_component_balances := 0; folded_component_tvl := 0;
     folded_account_updates := 0; folded_account_balances := 0;
     residual_entries := raw_residue_entry_count m |}.

(** A compacted message: what stays of its changes has nothing to go into. *)
Definition compact_message (m : SyncMessage) : Prop :=
  sy_removed_components m = [] ∧
  ∀ d, sy_deltas m = Some d →
       settled (sy_states m) (sy_vm_storage m) d ∧ block_changes_has_bootstrap_residue d = true.

Lemma removed_steps_removed m removed :
  sy_removed_components (foldl removed_component_step m removed) = sy_removed_components m.
Proof. revert m. induction removed as [|k l IH]; intros m; cbn; [done|]. by rewrite IH. Qed.

Lemma compacted_message m : compact_message (compact_raw_state_sync_message m).1.
Proof.
  unfold compact_raw_state_sync_message.
  set (m1 := foldl removed_component_step _ _).
  assert (sy_removed_components m1 = []) as Hr by apply removed_steps_removed.
  destruct (sy_deltas m1) as [d|] eqn:Ed; cbn.
  - destruct (fold_block_changes_into_snapshot _ _ _) as [[[s vm] d'] st] eqn:Ef. cbn.
    apply fold_block_changes_settled in Ef.
    destruct (block_changes_has_bootstrap_residue d') eqn:Eb; (split; [exact Hr|]); cbn.
    + by intros d0 [= <-].
    + done.
  - rewrite Ed. split; [exact Hr|]. intros d. by rewrite Ed.
Qed.

Lemma compact_fixed m :
  compact_message m → compact_raw_state_sync_message m = (m, residue_only m).
Proof.
  intros [Hr Hd]. unfold compact_raw_state_sync_message. destruct m as [h s vm d r].
  cbn in *. subst r. cbn. destruct d as [d|]; cbn; [|done].
  destruct (Hd d eq_refl) as [Hs Hb]. rewrite fold_settled by done. cbn. by rewrite Hb.
Qed.

(** ** Compaction settles a message *)

(** Compacting a raw message leaves no removed component and only changes that have
    nothing in the snapshot to go into: no new token, no deleted component, no account
    deletion, no update, balance or TVL of a component the snapshot holds, no update or
    balance of an account it holds, no parameters or traces of an entry point without one;
    if no change is left the deltas are dropped.  Compacting again changes nothing and
    folds nothing. *)
Theorem compaction_settles m :
  let m' := (compact_raw_state_sync_message m).1 in
  compact_message m' ∧ compact_raw_state_sync_message m' = (m', residue_only m').
Proof. split; [apply compacted_message|apply compact_fixed, compacted_message]. Qed.
End facts.

(** ** Accounts *)

Lemma hm_get_insert {V} k k' (v : V) m :
  hm_get k (hm_insert k' v m) = if decide (k = k') then Some v else hm_get k m.
Proof.
  unfold hm_insert. cbn. destruct (String.eqb_spec k k') as [->|Hne]; [by rewrite decide_True|].
  rewrite decide_False by done. change (filter _ m) with (hm_remove k' m).
  by rewrite hm_get_remove, decide_False.
Qed.

Lemma hm_contains_get {V} k (m : hashmap V) : hm_contains_key k m = true ↔ is_Some (hm_get k m).
Proof. unfold hm_contains_key. by destruct (hm_get k m); split; [eauto| |done|intros [??]]. Qed.

Lemma hm_keys_get {V} k (m : hashmap V) : k ∈ m.*1 ↔ is_Some (hm_get k m).
Proof. by rewrite <- hm_contains_key_elem, hm_contains_get. Qed.

Lemma for_eachM_moves {A S E} (R : S → S → Prop) `{!PreOrder R} (f : A → stateR S E unit) l :
  (∀ x, x ∈ l → moves R (f x)) → moves R (for_eachM f l).
Proof.
  induction l as [|x l IH]; intros Hf; [by apply (moves_ret _)|].
  apply (moves_bind _); [apply Hf; left|]. intros _. apply IH. intros y Hy. apply Hf. by right.
Qed.

Lemma filter_all {A} (P : A → Prop) `{∀ x, Decision (P x)} (l : list A) :
  (∀ x, x ∈ l → P x) → filter P l = l.
Proof.
  induction l as [|x l IH]; [done|]. intros Hl. rewrite filter_cons_True by (apply Hl; left).
  rewrite IH; [done|]. intros y Hy. apply Hl. by right.
Qed.

Section facts.
Context `{SyncFields} `{!TychoState} `{!SyncFieldsLaws}.

Abbreviation messages := (list BroadcasterProtocolMessage).

Definition protocols (ms : messages) : list string := map pm_protocol ms.

(** The account of an address in the view of a message. *)
Definition view (a : Bytes) (m : BroadcasterProtocolMessage) : option ResponseAccount :=
  hm_get a (pm_storage m).

Definition agree_on (ms : messages) (a : Bytes) : Prop :=
  ∀ m1 m2 x y, m1 ∈ ms → m2 ∈ ms → view a m1 = Some x → view a m2 = Some y → x = y.

Definition agree (ms : messages) : Prop := ∀ a, agree_on ms a.

Definition held (a : Bytes) (ms : messages) : Prop := ∃ m, m ∈ ms ∧ is_Some (view a m).

(** ** Sharing an account *)

Lemma view_storage f a m : view a (pm_update (sy_set_vm_storage f) m) = hm_get a (f (pm_storage m)).
Proof. unfold view, pm_storage. by rewrite pm_fields_update. Qed.

Lemma elem_of_shared a c ms m' :
  m' ∈ share_account a c ms → ∃ m, m ∈ ms ∧
    (∀ a', view a' m' = if decide (a' = a) then (λ _, c) <$> view a m else view a' m).
Proof.
  intros (m & -> & Hm)%list_elem_of_fmap. exists m. split; [done|]. intros a'.
  unfold view at 2. destruct (hm_contains_key a (pm_storage m)) eqn:Ec.
  - apply hm_contains_get in Ec as [x Ex]. rewrite view_storage, hm_get_insert, Ex. by case_decide.
  - case_decide as Ha; [subst|done]. unfold view.
    destruct (hm_get a (pm_storage m)) eqn:E; [|done].
    assert (hm_contains_key a (pm_storage m) = true) by (apply hm_contains_get; eauto). congruence.
Qed.

Lemma share_agree a c ms : agree_on (share_account a c ms) a.
Proof.
  intros m1 m2 x y (m1' & _ & E1)%elem_of_shared (m2' & _ & E2)%elem_of_shared.
  rewrite E1, E2, !decide_True by done.
  destruct (view a m1'), (view a m2'); cbn; congruence.
Qed.

Lemma share_others a c ms a' : a' ≠ a → agree_on ms a' → agree_on (share_account a c ms) a'.
Proof.
  intros Hne Hag m1 m2 x y (m1' & H1' & E1)%elem_of_shared (m2' & H2' & E2)%elem_of_shared.
  rewrite E1, E2, !decide_False by done. by apply Hag.
Qed.

Lemma share_held a c ms a' : held a' (share_account a c ms) → held a' ms.
Proof.
  intros (m & (m' & Hm' & E)%elem_of_shared & Hv). exists m'. split; [done|].
  rewrite E in Hv. case_decide as Ha; [subst|done]. by destruct (view a m'); [|destruct Hv].
Qed.

Lemma share_protocols a c ms : protocols (share_account a c ms) = protocols ms.
Proof. unfold protocols, share_account. rewrite map_map. apply map_ext. intros m. by case_match. Qed.

(** ** Canonicalisation *)

Lemma canonical_account_some n l c :
  canonical_account n l = Ok c → l ≠ [] → is_Some c.
Proof.
  unfold canonical_account. destruct l as [|x l]; [done|]. cbn. intros Hc _.
  apply (fold_result_inv _ (λ _ c, is_Some c)) in Hc; [done|by eauto|].
  intros dn y [c0|] c1 _ Hc0 E; [|by destruct Hc0].
  by destruct (merge_shared_vm_accounts _ _ _); simplify_eq/=.
Qed.

Lemma account_views_nil p a ms :
  account_views p a ms = [] → ∀ m, m ∈ ms → p m = true → view a m = None.
Proof.
  unfold account_views. intros E m Hm Hp. apply fmap_nil_inv in E.
  destruct (view a m) as [x|] eqn:Ex; [|done]. exfalso.
  assert ((pm_protocol m, x) ∈ @nil (string * ResponseAccount)) as Hin; [|by apply elem_of_nil in Hin].
  rewrite <- E, sort_by_key_perm. apply list_elem_of_omap. exists m. split; [done|].
  rewrite Hp. unfold view in Ex. by rewrite Ex.
Qed.

Lemma list_max_elem (l : list N) : l ≠ [] → max_or_default l ∈ l.
Proof.
  destruct l as [|x l]; [done|]. intros _. unfold max_or_default. cbn.
  revert x. induction l as [|y l IH]; intros x; cbn; [left|].
  destruct (N.max_spec x y) as [[_ E]|[_ E]]; rewrite E.
  - right. apply IH.
  - specialize (IH x). set_solver.
Qed.

(** One turn of the loop: nothing changes if no message holds the account. *)
Lemma canonical_step_agree a ms canonical :
  (let n := max_or_default (map pm_number (filter (λ m, hm_contains_key a (pm_storage m)) ms)) in
   canonical_account n (account_views (λ m, (pm_number m =? n)%N) a ms) = Ok canonical) →
  canonical = None → agree_on ms a.
Proof.
  cbv zeta. set (holders := filter _ ms). set (n := max_or_default _). intros Hc -> .
  intros m1 m2 x y Hm1 _ Hx _. exfalso.
  assert (holders ≠ []) as Hne.
  { intros E. assert (m1 ∈ @nil BroadcasterProtocolMessage) as Hin; [|by apply elem_of_nil in Hin].
    rewrite <- E. apply list_elem_of_filter. split; [|done]. apply Is_true_true.
    apply hm_contains_get. by exists x. }
  assert (n ∈ map pm_number holders) as Hn.
  { apply list_max_elem. intros E%map_eq_nil. done. }
  apply list_elem_of_fmap in Hn as (m & Hn & [Hm Hin]%list_elem_of_filter).
  apply Is_true_true, hm_contains_get in Hm as [z Hz].
  destruct (account_views (λ m, (pm_number m =? n)%N) a ms) as [|v vs] eqn:Ev.
  - pose proof (account_views_nil _ _ _ Ev m Hin) as Hnone. unfold view in Hnone.
    rewrite Hnone in Hz; [done|]. by apply N.eqb_eq.
  - by apply canonical_account_some in Hc as [? ?].
Qed.

(** What the loop does to the messages. *)
Record shared_from (ms ms' : messages) (done : list Bytes) : Prop := {
  sf_agree a : a ∈ done ∨ agree_on ms a → agree_on ms' a;
  sf_held a : held a ms' → held a ms;
}.

Lemma canonicalize_account_run a ms ms' :
  canonicalize_account a ms = (Ok tt, ms') → shared_from ms ms' [a].
Proof.
  unfold canonicalize_account. rewrite gets_bind. cbn [id]. rewrite lift_bind_ok.
  intros (canonical & Hc & Hs). destruct canonical as [c|]; cbn in Hs; injection Hs as <-.
  - split; [|apply share_held]. intros a' Ha'.
    destruct (decide (a' = a)) as [->|Hne]; [apply share_agree|]. apply share_others; [done|].
    destruct Ha' as [Ha'%list_elem_of_singleton|Ha']; done.
  - split; [|done]. intros a' [->%list_elem_of_singleton|Ha']; [|done].
    by apply (canonical_step_agree _ _ _ Hc).
Qed.

Lemma canonicalize_loop l ms ms' :
  for_eachM canonicalize_account l ms = (Ok tt, ms') → shared_from ms ms' l.
Proof.
  revert ms. induction l as [|a l IH]; intros ms; cbn [for_eachM].
  { intros [= ->]. split; [|done]. intros a [Ha|Ha]; [by apply elem_of_nil in Ha|done]. }
  rewrite stateR_bind_ok. intros ([] & ms1 & Hstep & Hrest).
  apply canonicalize_account_run in Hstep as [Ha1 Hh1]. apply IH in Hrest as [Ha2 Hh2].
  split; [|by eauto]. intros a' Ha'. apply Ha2.
  destruct (decide (a' ∈ l)) as [?|Hl]; [by left|]. right. apply Ha1.
  destruct Ha' as [[->|Ha']%elem_of_cons|Ha']; [left; by apply list_elem_of_singleton|done|by right].
Qed.

Lemma elem_of_btree_set l x : x ∈ btree_set l ↔ x ∈ l.
Proof. unfold btree_set. by rewrite sort_by_key_perm, elem_of_elements, elem_of_list_to_set. Qed.

(** After canonicalisation the views of every account agree. *)
Lemma canonicalize_agree ms ms' :
  canonicalize_shared_vm_accounts ms = (Ok tt, ms') → agree ms'.
Proof.
  unfold canonicalize_shared_vm_accounts. rewrite gets_bind. cbn [id].
  intros [Ha Hh]%canonicalize_loop a.
  destruct (decide (a ∈ btree_set (ms ≫= λ m, (pm_storage m).*1))) as [Hin|Hin];
    [apply Ha; by left|].
  intros m1 m2 x y Hm1 _ Hx _. exfalso. apply Hin, elem_of_btree_set.
  destruct (Hh a) as (m & Hm & Hv); [by exists m1; split; [|exists x]|].
  apply list_elem_of_bind. exists m. split; [|done]. by apply hm_keys_get.
Qed.

(** ** Protocols *)

Definition same_protocols (ms ms' : messages) : Prop := protocols ms' = protocols ms.

#[export] Instance same_protocols_preorder : PreOrder same_protocols.
Proof. split; [done|]. intros ms1 ms2 ms3 E1 E2. by transitivity (protocols ms2). Qed.

Lemma map_protocols (f : BroadcasterProtocolMessage → BroadcasterProtocolMessage) ms :
  (∀ m, pm_protocol (f m) = pm_protocol m) → protocols (map f ms) = protocols ms.
Proof. intros Hf. unfold protocols. rewrite map_map. by apply map_ext. Qed.

Lemma share_canonical_moves a c : moves same_protocols (share_canonical a c).
Proof.
  destruct c as [c|]; cbn; [|apply (moves_ret _)]. apply (moves_modify _). intros ms.
  apply share_protocols.
Qed.

Lemma canonicalize_moves : moves same_protocols canonicalize_shared_vm_accounts.
Proof.
  apply (moves_bind _); [apply (moves_gets _)|]. intros ms. apply (for_eachM_moves _). intros a _.
  apply (moves_bind _); [apply (moves_gets _)|]. intros ms'.
  apply (moves_bind _); [apply (moves_lift _)|]. intros c. apply share_canonical_moves.
Qed.

Lemma propagate_moves m : moves same_protocols (propagate_touched_vm_accounts m).
Proof.
  apply (for_eachM_moves _). intros a _. case_match.
  - apply (moves_modify _). intros ms. by apply map_protocols.
  - apply (moves_bind _); [apply (moves_gets _)|]. intros ms'.
    apply (moves_bind _); [apply (moves_lift _)|]. intros c. apply share_canonical_moves.
Qed.

Lemma merge_raw_protocols ms m :
  NoDup (protocols ms) →
  protocols (merge_raw_message ms m) ≡ₚ
    pm_protocol m :: filter (λ q, q ≠ pm_protocol m) (protocols ms).
Proof.
  intros Hnd. unfold merge_raw_message, protocols in *.
  change (map ?f ?l) with (f <$> l) in *. rewrite sort_by_key_perm.
  destruct (list_find _ ms) as [[i e]|] eqn:E.
  - apply list_find_Some in E as (Hi & He & _). simpl in He.
    pose proof (delete_Permutation ms i e Hi) as Hp. rewrite fmap_app. cbn. rewrite He.
    rewrite (comm (++)). cbn. f_equiv.
    pose proof (fmap_Permutation pm_protocol _ _ Hp) as Hp2. cbn in Hp2. rewrite He in Hp2.
    rewrite Hp2 in Hnd |- *. apply NoDup_cons in Hnd as [Hin Hnd].
    rewrite filter_cons_False by naive_solver.
    rewrite filter_all; [done|]. intros q Hq ->. done.
  - apply list_find_None in E. rewrite fmap_app, (comm (++)). cbn. f_equiv.
    rewrite filter_all; [done|]. intros q (m' & -> & Hm')%list_elem_of_fmap.
    rewrite Forall_forall in E. by apply E.
Qed.
End facts.
