(* ===== verification/CacheDecoded.v ===== *)
(** * Decoded updates on the cache

    What a decoded Tycho update does to the cache: the entries of the new pairs are in, the
    states of the updated ones replaced, the removed ones out; the delta of every pair whose
    backend the cache knows finds its entry, so that the assertions hold. *)

From S2P Require Import Prelude Ordered Text Protocol.
From S2P Require Import Wire Validate Codec TychoFeed RedisEntry Replay Recovery Store StorePools.
From S2P Require Import Health Publisher.
From S2P Require Import Reassembly RawMessage SnapshotExport RawCompaction SharedAccounts.
From S2P Require Import SnapshotCache.

(** A loop of steps that succeed while [P] holds. *)
Lemma for_eachM_run {A S E} (f : A → stateR S E unit) (g : A → S → S) (P : A → S → Prop) l s :
  (∀ x s, x ∈ l → P x s → f x s = (Ok tt, g x s)) →
  (∀ x y s, x ∈ l → y ∈ l → P x s → P y s → P y (g x s)) →
  (∀ x, x ∈ l → P x s) →
  for_eachM f l s = (Ok tt, foldl (λ s x, g x s) s l).
Proof.
  revert s. induction l as [|x l IH]; intros s Hf Hp Hs; [done|]. cbn [for_eachM foldl].
  rewrite (bind_run _ _ _ tt (g x s)) by (apply Hf; [left|apply Hs; left]).
  apply IH.
  - intros y s' Hy. apply Hf. by right.
  - intros y z s' Hy Hz. apply Hp; by right.
  - intros y Hy. apply Hp; [left|by right|apply Hs; left|apply Hs; by right].
Qed.

Section decoded.
Context `{SyncFields} `{!TychoState} `{!SerdeJson} `{!ListJson}.

Implicit Types d : BroadcasterSnapshotCacheData.
Implicit Types p : BroadcasterUpdatePartition.

(** The entries the cache has for a backend. *)
Definition cached (d : BroadcasterSnapshotCacheData) (b : BroadcasterBackend) :
    btree string BroadcasterStateEntry := ps_states (backend_state b d).

(** ** The steps *)

Definition set_backend (b : BroadcasterBackend)
    (f : BroadcasterPartitionState → BroadcasterPartitionState) (d : BroadcasterSnapshotCacheData) :
    BroadcasterSnapshotCacheData :=
  set_partitions (bt_entry_update partition_default f b) d.

Definition pair_added (b : BroadcasterBackend) (e : BroadcasterStateEntry) d :=
  set_backend b (ps_set_states <[se_component_id e := e]>)
    (set_known_backends <[se_component_id e := b]> d).

Definition state_set (b : BroadcasterBackend) (x : BroadcasterStateDelta) d :=
  set_backend b (ps_set_states (alter (set_state (sd_state x)) (sd_component_id x))) d.

Definition pair_gone (b : BroadcasterBackend) (r : BroadcasterRemovedPair) d :=
  set_backend b (ps_set_states (delete (rp_component_id r)))
    (set_known_backends (delete (rp_component_id r)) d).

Lemma backend_state_set b f d : backend_state b (set_backend b f d) = f (backend_state b d).
Proof. unfold backend_state, set_backend. cbn. by rewrite bt_entry_update_eq. Qed.

Lemma lookup_set_ne b f d b' :
  b' ≠ b → cd_partitions (set_backend b f d) !! b' = cd_partitions d !! b'.
Proof. intros Hb. unfold set_backend. cbn. by rewrite bt_entry_update_ne. Qed.

Lemma insert_new_pair_run b e d : insert_new_pair b e d = (Ok tt, pair_added b e d).
Proof. done. Qed.

Lemma remove_pair_run b r d : remove_pair b r d = (Ok tt, pair_gone b r d).
Proof. done. Qed.

Lemma apply_state_delta_run b x d :
  sd_backend x = b → is_Some (cached d b !! sd_component_id x) →
  apply_state_delta b x d = (Ok tt, state_set b x d).
Proof.
  intros Hb Hid. unfold apply_state_delta, assertM. rewrite bool_decide_eq_true_2 by done.
  rewrite ret_bind, gets_bind. by rewrite bool_decide_eq_true_2 by done.
Qed.

(** ** Loops *)

(** The entry of a key after the steps of a list whose elements have keys. *)
Definition act_list {X V} (key : X → string) (act : X → V → V) (l : list X) (k : string) (v : V) :
    V :=
  foldl (λ v x, if decide (key x = k) then act x v else v) v l.

Lemma foldl_act {X S V} (g : S → X → S) (look : S → string → V) (key : X → string)
    (act : X → V → V) l s k :
  (∀ s x, look (g s x) k = if decide (key x = k) then act x (look s k) else look s k) →
  look (foldl g s l) k = act_list key act l k (look s k).
Proof.
  intros Hg. revert s. induction l as [|x l IH]; intros s; [done|]. cbn. rewrite IH, Hg. done.
Qed.

Lemma act_list_fresh {X V} (key : X → string) (act : X → V → V) l k v :
  k ∉ key <$> l → act_list key act l k v = v.
Proof.
  unfold act_list. revert v. induction l as [|x l IH]; intros v; csimpl; [done|]. intros Hk.
  rewrite decide_False by set_solver. apply IH. set_solver.
Qed.

Lemma act_list_one {X V} (key : X → string) (act : X → V → V) l x v :
  NoDup (key <$> l) → x ∈ l → act_list key act l (key x) v = act x v.
Proof.
  unfold act_list. revert v. induction l as [|y l IH]; intros v; csimpl; [set_solver|].
  intros [Hy Hnd]%NoDup_cons [->|Hx]%elem_of_cons.
  - rewrite decide_True by done. by apply act_list_fresh.
  - rewrite decide_False; [by apply IH|]. intros E. apply Hy. rewrite E.
    by apply list_elem_of_fmap_2.
Qed.

Lemma cached_set b f d b' :
  cached (set_backend b (ps_set_states f) d) b' = if decide (b' = b) then f (cached d b) else cached d b'.
Proof.
  unfold cached. case_decide as Hb; [subst; by rewrite backend_state_set|].
  unfold backend_state. by rewrite lookup_set_ne.
Qed.

Lemma act_list_some {X V} (key : X → string) (f : X → V) l k (v : option V) :
  is_Some v ∨ k ∈ key <$> l → is_Some (act_list key (λ x _, Some (f x)) l k v).
Proof.
  unfold act_list. revert v. induction l as [|x l IH]; intros v; csimpl; [set_solver|].
  intros Hk. case_decide as Hx; apply IH; set_solver.
Qed.

(** ** A partition *)

Definition partition_applied p d : BroadcasterSnapshotCacheData :=
  let b := up_backend p in
  let d := set_backend b (ps_set_head (up_block_number p) (up_sync_statuses p)) d in
  let d := foldl (λ d e, pair_added b e d) d (up_new_pairs p) in
  let d := foldl (λ d x, state_set b x d) d (up_updated_states p) in
  foldl (λ d r, pair_gone b r d) d (up_removed_pairs p).

(** What a partition does to the entry of a component, and to its backend. *)
Definition entry_acts p (id : string) (v : option BroadcasterStateEntry) :
    option BroadcasterStateEntry :=
  act_list rp_component_id (λ _ _, None) (up_removed_pairs p) id
    (act_list sd_component_id (λ x v, set_state (sd_state x) <$> v) (up_updated_states p) id
       (act_list se_component_id (λ e _, Some e) (up_new_pairs p) id v)).

Definition known_acts p (id : string) (v : option BroadcasterBackend) :
    option BroadcasterBackend :=
  act_list rp_component_id (λ _ _, None) (up_removed_pairs p) id
    (act_list se_component_id (λ _ _, Some (up_backend p)) (up_new_pairs p) id v).

(** Every delta is of the backend and has an entry. *)
Definition applicable p d : Prop :=
  ∀ x, x ∈ up_updated_states p →
       sd_backend x = up_backend p ∧
       (is_Some (cached d (up_backend p) !! sd_component_id x) ∨
        sd_component_id x ∈ map se_component_id (up_new_pairs p)).

Lemma added_cached b l d id :
  cached (foldl (λ d e, pair_added b e d) d l) b !! id =
  act_list se_component_id (λ e _, Some e) l id (cached d b !! id).
Proof.
  apply (foldl_act _ (λ d id, cached d b !! id)). intros d0 e. unfold pair_added.
  rewrite cached_set, decide_True by done.
  case_decide as He; [subst; apply lookup_insert_eq|by apply lookup_insert_ne].
Qed.

Lemma states_cached b l d id :
  cached (foldl (λ d x, state_set b x d) d l) b !! id =
  act_list sd_component_id (λ x v, set_state (sd_state x) <$> v) l id (cached d b !! id).
Proof.
  apply (foldl_act _ (λ d id, cached d b !! id)). intros d0 x. unfold state_set.
  rewrite cached_set, decide_True by done.
  case_decide as Hx; [subst; apply lookup_alter_eq|by apply lookup_alter_ne].
Qed.

Lemma gone_cached b l d id :
  cached (foldl (λ d r, pair_gone b r d) d l) b !! id =
  act_list rp_component_id (λ _ _, None) l id (cached d b !! id).
Proof.
  apply (foldl_act _ (λ d id, cached d b !! id)). intros d0 r. unfold pair_gone.
  rewrite cached_set, decide_True by done.
  case_decide as Hr; [subst; apply lookup_delete_eq|by apply lookup_delete_ne].
Qed.

Lemma applied_cached p d id :
  cached (partition_applied p d) (up_backend p) !! id =
  entry_acts p id (cached d (up_backend p) !! id).
Proof.
  unfold partition_applied, entry_acts. rewrite gone_cached, states_cached, added_cached.
  do 3 f_equal. unfold cached. by rewrite backend_state_set.
Qed.

Lemma applied_known p d id :
  cd_known_backends (partition_applied p d) !! id =
  known_acts p id (cd_known_backends d !! id).
Proof.
  unfold partition_applied, known_acts.
  rewrite (foldl_act _ (λ d id, cd_known_backends d !! id) rp_component_id (λ _ _, None)).
  2:{ intros d0 r. cbn. case_decide; [subst; apply lookup_delete_eq|by apply lookup_delete_ne]. }
  f_equal. set (d1 := foldl _ _ (up_new_pairs p)).
  rewrite (foldl_inv (λ d, cd_known_backends d = cd_known_backends d1)) by done.
  unfold d1.
  rewrite (foldl_act _ (λ d id, cd_known_backends d !! id) se_component_id
             (λ _ _, Some (up_backend p))); [done|].
  intros d0 e. cbn. case_decide; [subst; apply lookup_insert_eq|by apply lookup_insert_ne].
Qed.

Lemma applied_others p d b :
  b ≠ up_backend p → cd_partitions (partition_applied p d) !! b = cd_partitions d !! b.
Proof.
  intros Hb. unfold partition_applied.
  apply (foldl_inv (λ d', cd_partitions d' !! b = cd_partitions d !! b)).
  2:{ intros d0 r _ IH. unfold pair_gone. by rewrite lookup_set_ne. }
  apply (foldl_inv (λ d', cd_partitions d' !! b = cd_partitions d !! b)).
  2:{ intros d0 x _ IH. unfold state_set. by rewrite lookup_set_ne. }
  apply (foldl_inv (λ d', cd_partitions d' !! b = cd_partitions d !! b)).
  2:{ intros d0 e _ IH. unfold pair_added. by rewrite lookup_set_ne. }
  by rewrite lookup_set_ne.
Qed.

Lemma apply_partition_run p d :
  applicable p d → apply_update_partition p d = (Ok tt, partition_applied p d).
Proof.
  intros Hp. unfold apply_update_partition, partition_applied. unfold update_backend.
  rewrite modify_bind. fold (set_backend (up_backend p)
    (ps_set_head (up_block_number p) (up_sync_statuses p)) d).
  set (d0 := set_backend _ _ d).
  rewrite (bind_run _ _ _ tt (foldl (λ d e, pair_added (up_backend p) e d) d0 (up_new_pairs p)))
    by (apply (for_eachM_run _ _ (λ _ _, True)); by eauto using insert_new_pair_run).
  set (d1 := foldl _ d0 _).
  rewrite (bind_run _ _ _ tt
             (foldl (λ d x, state_set (up_backend p) x d) d1 (up_updated_states p))).
  - by rewrite (for_eachM_run _ (pair_gone (up_backend p)) (λ _ _, True)).
  - apply (for_eachM_run _ _ (λ x s, sd_backend x = up_backend p ∧
             is_Some (cached s (up_backend p) !! sd_component_id x))).
    + intros x s _ [Hb Hs]. by apply apply_state_delta_run.
    + intros x y s _ _ _ [Hb Hs]. split; [done|]. unfold state_set.
      rewrite cached_set, decide_True by done.
      destruct (decide (sd_component_id x = sd_component_id y)) as [->|Hne];
        [rewrite lookup_alter_eq; by apply fmap_is_Some|by rewrite lookup_alter_ne].
    + intros x Hx. destruct (Hp x Hx) as [Hb Hid]. split; [done|]. unfold d1.
      rewrite added_cached. apply (act_list_some se_component_id id).
      destruct Hid as [Hid|Hid]; [left|by right]. unfold d0, cached in *.
      by rewrite backend_state_set.
Qed.

(** ** A message *)

Definition message_applied (ps : list BroadcasterUpdatePartition) d :
    BroadcasterSnapshotCacheData := foldl (λ d p, partition_applied p d) d ps.

#[local] Arguments message_applied : simpl never.

Lemma message_applied_cons p ps d :
  message_applied (p :: ps) d = message_applied ps (partition_applied p d).
Proof. done. Qed.

Lemma applicable_other p q d :
  up_backend p ≠ up_backend q → applicable q d → applicable q (partition_applied p d).
Proof.
  intros Hne Hq x Hx. destruct (Hq x Hx) as [Hb Hid]. split; [done|].
  unfold cached, backend_state in *. by rewrite applied_others.
Qed.

Lemma apply_message_run ps d :
  NoDup (up_backend <$> ps) → (∀ p, p ∈ ps → applicable p d) →
  for_eachM apply_update_partition ps d = (Ok tt, message_applied ps d).
Proof.
  revert d. induction ps as [|p ps IH]; intros d; csimpl; [done|].
  intros [Hp Hnd]%NoDup_cons Hall. cbn [for_eachM].
  rewrite (bind_run _ _ _ tt (partition_applied p d)) by (apply apply_partition_run, Hall; left).
  apply IH; [done|]. intros q Hq. apply applicable_other; [|apply Hall; by right].
  intros E. apply Hp. rewrite E. by apply list_elem_of_fmap_2.
Qed.

(** The partitions of a message, by backend. *)
Definition of_backends (f : BroadcasterBackend → option BroadcasterUpdatePartition) : Prop :=
  ∀ b p, f b = Some p → up_backend p = b.

Lemma message_cached f bs d b id :
  of_backends f → NoDup bs → b ∈ bs →
  cached (message_applied (omap f bs) d) b !! id =
  match f b with Some p => entry_acts p id (cached d b !! id) | None => cached d b !! id end.
Proof.
  intros Hf. revert d. induction bs as [|b0 bs IH]; intros d; [set_solver|].
  intros [Hb0 Hnd]%NoDup_cons Hb. cbn.
  assert (∀ d, b ∉ bs → cached (message_applied (omap f bs) d) b = cached d b) as Hout.
  { clear -Hf. intros d Hb. unfold message_applied.
    apply (foldl_inv (λ d', cached d' b = cached d b)); [done|].
    intros d' p (b' & Hb' & Hp)%list_elem_of_omap IH. unfold cached, backend_state in *.
    rewrite applied_others; [done|]. rewrite (Hf _ _ Hp). by intros ->. }
  apply elem_of_cons in Hb as [->|Hb].
  - destruct (f b0) as [p|] eqn:E; cbn.
    + rewrite message_applied_cons, Hout by done. rewrite <- (Hf _ _ E). apply applied_cached.
    + by rewrite Hout.
  - destruct (f b0) as [p|] eqn:E; cbn; [|by apply IH].
    rewrite message_applied_cons, IH by done. unfold cached, backend_state. rewrite applied_others; [done|].
    rewrite (Hf _ _ E). by intros ->.
Qed.

Lemma message_known f bs d id :
  of_backends f →
  cd_known_backends (message_applied (omap f bs) d) !! id =
  foldl (λ k b, match f b with Some p => known_acts p id k | None => k end)
    (cd_known_backends d !! id) bs.
Proof.
  intros Hf. revert d. induction bs as [|b bs IH]; intros d; [done|]. cbn.
  destruct (f b) as [p|]; cbn; [|done]. by rewrite message_applied_cons, IH, applied_known.
Qed.

(** ** An update *)

#[local] Arguments gather : simpl never.
#[local] Arguments act_list : simpl never.

(** The item of a key that a loop of [from_tycho_update] gives to a backend. *)
Definition item_of {X Y} (item : string * X → contract (option (BroadcasterBackend * Y)))
    (m : hashmap X) (b : BroadcasterBackend) (id : string) : option Y :=
  x ← hm_get id m;
  match item (id, x) with
  | Ok (Some (b', y)) => if decide (b' = b) then Some y else None
  | _ => None
  end.

Lemma act_gathered {X Y V} (item : string * X → contract (option (BroadcasterBackend * Y)))
    (key : Y → string) (act : Y → V → V) (m : hashmap X) b id v :
  (∀ x y b, item x = Ok (Some (b, y)) → key y = x.1) → NoDup m.*1 →
  act_list key act (sort_by_key key (gather item b m)) id v =
  match item_of item m b id with Some y => act y v | None => v end.
Proof.
  intros Hkey Hnd.
  assert (∀ y, y ∈ sort_by_key key (gather item b m) ↔
               ∃ x, x ∈ m ∧ item x = Ok (Some (b, y))) as Hin.
  { intros y. by rewrite sort_by_key_perm, elem_of_gather. }
  assert (NoDup (key <$> sort_by_key key (gather item b m))) as Hk.
  { rewrite sort_by_key_perm. apply (gather_NoDup item fst); [|done]. intros x y. apply Hkey. }
  destruct (item_of item m b id) as [y|] eqn:E.
  - unfold item_of in E. destruct (hm_get id m) as [x|] eqn:Ex; cbn in E; [|done].
    destruct (item (id, x)) as [[[b' y']|]|] eqn:Ei; try done. case_decide; simplify_eq.
    pose proof (Hkey _ _ _ Ei) as Hid. simpl in Hid. subst id. apply act_list_one; [done|].
    apply Hin. eexists. split; [by apply hm_get_Some|done].
  - apply act_list_fresh. intros (y & -> & Hy)%list_elem_of_fmap.
    apply Hin in Hy as ([k x] & Hx & Ei). pose proof (Hkey _ _ _ Ei) as Hid. simpl in Hid.
    subst k. apply hm_get_Some in Hx; [|done]. unfold item_of in E. rewrite Hx in E. cbn in E.
    rewrite Ei in E. by rewrite decide_True in E.
Qed.

(** Whether a map of components has one of a backend. *)
Definition in_backend (m : hashmap ProtocolComponent) (b : BroadcasterBackend) (id : string) : bool :=
  match hm_get id m with
  | Some c => match backend_for_component id c with Ok b' => bool_decide (b' = b) | Err _ => false end
  | None => false
  end.

(** The entry of a component in a backend after an update. *)
Definition updated_entry (u : TychoUpdate) (known : gmap string BroadcasterBackend)
    (b : BroadcasterBackend) (id : string) (old : option BroadcasterStateEntry) :
    option BroadcasterStateEntry :=
  if in_backend (tu_removed_pairs u) b id then None
  else
    match hm_get id (tu_new_pairs u), hm_get id (tu_states u) with
    | Some c, Some s =>
        if in_backend (tu_new_pairs u) b id
        then Some {| se_component_id := id; se_component := c; se_state := s |} else old
    | None, Some s => if decide (known !! id = Some b) then set_state s <$> old else old
    | _, None => old
    end.

(** The backend of a component after an update: the partitions are taken in order. *)
Definition updated_backend (u : TychoUpdate) (known : gmap string BroadcasterBackend) (id : string) :
    option BroadcasterBackend :=
  foldl (λ k b,
      if in_backend (tu_removed_pairs u) b id then None
      else if in_backend (tu_new_pairs u) b id then Some b else k)
    (known !! id) [Native; Vm; Rfq].

Lemma removed_item_of u b id :
  item_of removed_item (tu_removed_pairs u) b id =
  match hm_get id (tu_removed_pairs u) with
  | Some c =>
      if in_backend (tu_removed_pairs u) b id
      then Some {| rp_component_id := id; rp_component := c |} else None
  | None => None
  end.
Proof.
  unfold item_of, in_backend. destruct (hm_get id _) as [c|]; [|done]. cbn.
  unfold removed_item. cbn. destruct (backend_for_component id c) as [b'|]; [|done]. cbn.
  by destruct (decide (b' = b)) as [->|Hb]; [rewrite bool_decide_eq_true_2|rewrite bool_decide_eq_false_2].
Qed.

Lemma new_item_of u b id :
  item_of (new_item u) (tu_new_pairs u) b id =
  match hm_get id (tu_new_pairs u), hm_get id (tu_states u) with
  | Some c, Some s =>
      if in_backend (tu_new_pairs u) b id
      then Some {| se_component_id := id; se_component := c; se_state := s |} else None
  | _, _ => None
  end.
Proof.
  unfold item_of, in_backend. destruct (hm_get id (tu_new_pairs u)) as [c|]; [|done]. cbn.
  unfold new_item. cbn. destruct (hm_get id (tu_states u)) as [s|]; [|done]. cbn.
  destruct (backend_for_component id c) as [b'|]; [|done]. cbn.
  by destruct (decide (b' = b)) as [->|Hb]; [rewrite bool_decide_eq_true_2|rewrite bool_decide_eq_false_2].
Qed.

Lemma state_item_of u known b id :
  item_of (state_item u known) (tu_states u) b id =
  match hm_get id (tu_new_pairs u), hm_get id (tu_states u) with
  | None, Some s =>
      if decide (known !! id = Some b)
      then Some {| sd_component_id := id; sd_backend := b; sd_state := s |} else None
  | _, _ => None
  end.
Proof.
  unfold item_of. destruct (hm_get id (tu_states u)) as [s|]; cbn; [|by case_match].
  unfold state_item, hm_contains_key. cbn.
  destruct (hm_get id (tu_new_pairs u)) as [c|]; cbn; [done|].
  destruct (known !! id) as [b'|]; cbn; [|done].
  destruct (decide (b' = b)) as [->|Hb]; [by rewrite decide_True|].
  rewrite decide_False; [done|]. by intros [= ->].
Qed.

Lemma new_item_key u x y b : new_item u x = Ok (Some (b, y)) → se_component_id y = x.1.
Proof.
  unfold new_item. intros E. apply bind_ok in E as (? & _ & E).
  by apply bind_ok in E as (? & _ & [= _ <-]).
Qed.

Lemma state_item_key u known x y b :
  state_item u known x = Ok (Some (b, y)) → sd_component_id y = x.1.
Proof.
  unfold state_item. intros E. case_match; [done|]. by apply bind_ok in E as (? & _ & [= _ <-]).
Qed.

Lemma removed_item_key x y b :
  removed_item x = Ok (Some (b, y)) → rp_component_id y = x.1.
Proof. unfold removed_item. intros E. by apply bind_ok in E as (? & _ & [= _ <-]). Qed.

(** The lists of a partition, or of one that is not sent because it is empty. *)
Definition sorted_builder (u : TychoUpdate) (known : gmap string BroadcasterBackend)
    (b : BroadcasterBackend) : BroadcasterUpdatePartition :=
  BroadcasterUpdatePartition_new b (tu_block_number_or_timestamp u)
    (ub_new_pairs (tycho_builder u known b)) (ub_updated_states (tycho_builder u known b))
    (ub_removed_pairs (tycho_builder u known b)) (ub_sync_statuses (tycho_builder u known b)).

Lemma tycho_partition_acts {V} (acts : BroadcasterUpdatePartition → V → V) u known b v :
  (∀ p, up_new_pairs p = [] → up_updated_states p = [] → up_removed_pairs p = [] → acts p v = v) →
  match tycho_partition u known b with Some p => acts p v | None => v end =
  acts (sorted_builder u known b) v.
Proof.
  intros Hnil. unfold tycho_partition, emit_partition.
  destruct (UpdatePartitionBuilder_is_empty _) eqn:E; [|done].
  unfold UpdatePartitionBuilder_is_empty in E. repeat apply andb_true_iff in E as [E ?].
  rewrite !bool_decide_eq_true in *. symmetry.
  by apply Hnil; cbn; apply nil_length_inv; rewrite sort_nil_iff.
Qed.

Lemma partition_entry u known b id v :
  update_maps u →
  match tycho_partition u known b with Some p => entry_acts p id v | None => v end =
  updated_entry u known b id v.
Proof.
  intros (Hnew & Hst & Hrem).
  rewrite (tycho_partition_acts (λ p v, entry_acts p id v)).
  2:{ intros p E1 E2 E3. unfold entry_acts. by rewrite E1, E2, E3. }
  unfold entry_acts, sorted_builder, tycho_builder. cbn.
  rewrite (act_gathered removed_item) by eauto using removed_item_key.
  rewrite (act_gathered (state_item u known)) by eauto using state_item_key.
  rewrite (act_gathered (new_item u)) by eauto using new_item_key.
  rewrite removed_item_of, state_item_of, new_item_of. unfold updated_entry.
  destruct (in_backend (tu_removed_pairs u) b id) eqn:Er.
  - unfold in_backend in Er. by destruct (hm_get id (tu_removed_pairs u)).
  - destruct (hm_get id (tu_removed_pairs u)), (hm_get id (tu_new_pairs u)),
      (hm_get id (tu_states u)), (decide (known !! id = Some b)),
      (in_backend (tu_new_pairs u) b id); done.
Qed.

Lemma partition_known u known b id k :
  update_maps u → tycho_classified u known →
  match tycho_partition u known b with Some p => known_acts p id k | None => k end =
  if in_backend (tu_removed_pairs u) b id then None
  else if in_backend (tu_new_pairs u) b id then Some b else k.
Proof.
  intros (Hnew & Hst & Hrem) (Hcl & _).
  rewrite (tycho_partition_acts (λ p k, known_acts p id k)).
  2:{ intros p E1 E2 E3. unfold known_acts. by rewrite E1, E3. }
  unfold known_acts, sorted_builder, tycho_builder. cbn.
  rewrite (act_gathered removed_item) by eauto using removed_item_key.
  rewrite (act_gathered (new_item u)) by eauto using new_item_key.
  rewrite removed_item_of, new_item_of.
  assert (∀ c, hm_get id (tu_new_pairs u) = Some c → is_Some (hm_get id (tu_states u))) as Hs.
  { intros c Hc. rewrite Forall_forall in Hcl. apply hm_get_Some in Hc; [|done].
    specialize (Hcl _ Hc). unfold new_item in Hcl. cbn in Hcl.
    by destruct (hm_get id (tu_states u)). }
  destruct (in_backend (tu_removed_pairs u) b id) eqn:Er.
  - unfold in_backend in Er. by destruct (hm_get id (tu_removed_pairs u)).
  - destruct (in_backend (tu_new_pairs u) b id) eqn:En.
    + pose proof En as En'. unfold in_backend in En'.
      destruct (hm_get id (tu_new_pairs u)) as [c|]; [|done].
      destruct (Hs c eq_refl) as [s ->]. by destruct (hm_get id (tu_removed_pairs u)).
    + destruct (hm_get id (tu_removed_pairs u)), (hm_get id (tu_new_pairs u)),
        (hm_get id (tu_states u)); done.
Qed.

(** ** Staging finds every delta *)

(** The backends the cache knows are those it has an entry in. *)
Definition known_cached (d : BroadcasterSnapshotCacheData) : Prop :=
  ∀ id b, cd_known_backends d !! id = Some b → is_Some (cached d b !! id).

Lemma partitions_applicable u d p :
  known_cached d → p ∈ tycho_partitions u (cd_known_backends d) → applicable p d.
Proof.
  intros Hd (b & _ & Hp)%list_elem_of_omap x Hx.
  pose proof (tycho_partition_backend _ _ _ _ Hp) as Hb.
  unfold tycho_partition, emit_partition in Hp. case_match; [done|]. injection Hp as <-.
  cbn in Hx, Hb. rewrite sort_by_key_perm in Hx.
  apply elem_of_gather in Hx as (y & _ & E). unfold state_item in E. case_match; [done|].
  apply bind_ok in E as (b' & Hk & [= -> <-]). apply ok_or_ok in Hk. cbn.
  split; [done|]. left. by apply Hd.
Qed.

Lemma applicable_validates ps d :
  (∀ p, p ∈ ps → applicable p d) →
  validate_update_message_applicable (cd_partitions d) {| um_partitions := ps |} = Ok tt.
Proof.
  intros Hps. apply for_each_ok. apply Forall_forall. intros p Hp.
  apply for_each_ok. apply Forall_forall. intros x Hx.
  destruct (Hps p Hp x Hx) as [Hb Hid]. cbv zeta.
  rewrite (bool_decide_eq_true_2 (sd_backend x = _)) by done. cbn. apply ensure_ok.
  apply orb_true_iff. rewrite !bool_decide_eq_true. destruct Hid as [Hid|Hid]; [left|by right].
  unfold cached, backend_state in Hid.
  destruct (cd_partitions d !! up_backend p) as [q|]; cbn in *; [done|].
  rewrite lookup_empty in Hid. by destruct Hid.
Qed.

Lemma updated_entry_known u known id b v :
  (known !! id = Some b → is_Some v) → tycho_classified u known → update_maps u →
  updated_backend u known id = Some b → is_Some (updated_entry u known b id v).
Proof.
  intros Hv (Hcl & _) (Hnew & _) Hb.
  assert (in_backend (tu_removed_pairs u) b id = false ∧
          (in_backend (tu_new_pairs u) b id = true ∨
           known !! id = Some b ∧ in_backend (tu_new_pairs u) b id = false)) as [Hr Hk].
  { clear Hv Hcl. unfold updated_backend in Hb. cbn in Hb.
    destruct (in_backend (tu_removed_pairs u) Native id) eqn:R1,
      (in_backend (tu_removed_pairs u) Vm id) eqn:R2,
      (in_backend (tu_removed_pairs u) Rfq id) eqn:R3,
      (in_backend (tu_new_pairs u) Native id) eqn:N1,
      (in_backend (tu_new_pairs u) Vm id) eqn:N2,
      (in_backend (tu_new_pairs u) Rfq id) eqn:N3; simplify_eq; try (split; [done|by left]);
    destruct b; try (split; [done|by (left; done) || by (right; done)]). }
  unfold updated_entry. rewrite Hr.
  destruct (hm_get id (tu_new_pairs u)) as [c|] eqn:En.
  - rewrite Forall_forall in Hcl. pose proof En as Hin. apply hm_get_Some in Hin; [|done].
    specialize (Hcl _ Hin). unfold new_item in Hcl. cbn in Hcl.
    destruct (hm_get id (tu_states u)) as [s|]; [|done].
    destruct Hk as [->|[Hk ->]]; [done|]. by apply Hv.
  - destruct Hk as [Hk|[Hk _]]; [unfold in_backend in Hk; by rewrite En in Hk|].
    destruct (hm_get id (tu_states u)) as [s|]; [|by apply Hv].
    case_decide; [apply fmap_is_Some|]; by apply Hv.
Qed.

Context (configured_backends : list BroadcasterBackend).

(** The outcome of an update. *)
Record update_applied (u : TychoUpdate) d (msg : BroadcasterUpdateMessage) d' : Prop := {
  ua_message : from_tycho_update u (cd_known_backends d) = Ok msg;
  ua_configured : Forall (λ p, up_backend p ∈ configured_backends) (um_partitions msg);
  ua_entries b id :
    cached d' b !! id = updated_entry u (cd_known_backends d) b id (cached d b !! id);
  ua_known id :
    cd_known_backends d' !! id = updated_backend u (cd_known_backends d) id;
  ua_known_cached : known_cached d';
}.

Lemma ensure_configured_ok msg :
  ensure_configured_update_backends configured_backends msg = Ok tt ↔
  Forall (λ p, up_backend p ∈ configured_backends) (um_partitions msg).
Proof.
  unfold ensure_configured_update_backends. rewrite for_each_ok, !Forall_forall.
  split; intros Hp p Hin; specialize (Hp p Hin); [|by apply ensure_ok, bool_decide_eq_true].
  by apply ensure_ok, bool_decide_eq_true in Hp.
Qed.

(** Staging and committing an update that is a message of configured backends. *)
Lemma apply_update_run u d msg :
  known_cached d → update_maps u → from_tycho_update u (cd_known_backends d) = Ok msg →
  Forall (λ p, up_backend p ∈ configured_backends) (um_partitions msg) →
  ∃ d', apply_update configured_backends u d = (Ok msg, d') ∧ update_applied u d msg d'.
Proof.
  intros Hd Hu Hmsg Hconf. set (known := cd_known_backends d).
  pose proof (proj1 (from_tycho_update_ok _ _ _) Hmsg) as (Hcl & _ & ->).
  exists (message_applied (tycho_partitions u known) d). split.
  - unfold apply_update. rewrite gets_bind. cbn [id].
    unfold stage_update. rewrite Hmsg. cbn [from_contract map_err ok_bind].
    rewrite ok_bind, (proj2 (ensure_configured_ok _) Hconf), ok_bind.
    rewrite applicable_validates by (intros p; by apply partitions_applicable). rewrite ok_bind.
    cbn [map_err]. rewrite lift_bind. cbn [su_message ok_or]. rewrite lift_bind.
    unfold commit_staged_update. cbn [su_apply_mode su_message].
    rewrite (bind_run _ _ _ tt (message_applied (tycho_partitions u known) d)); [done|].
    apply apply_message_run; [|intros p; by apply partitions_applicable].
    apply omap_backends_keys, tycho_partition_backend.
  - assert (∀ b id, cached (message_applied (tycho_partitions u known) d) b !! id =
                    updated_entry u known b id (cached d b !! id)) as Hentries.
    { intros b id. unfold tycho_partitions.
      rewrite message_cached
        by first [exact (tycho_partition_backend u known)|apply backends_NoDup|apply backends_all].
      by apply partition_entry. }
    assert (∀ id, cd_known_backends (message_applied (tycho_partitions u known) d) !! id =
                  updated_backend u known id) as Hknown.
    { intros id. unfold tycho_partitions.
      rewrite message_known by (intros b p; apply tycho_partition_backend).
      unfold updated_backend. cbn [foldl]. by rewrite !partition_known. }
    split; [done|done|done|done|]. intros id b Hb. rewrite Hentries. rewrite Hknown in Hb.
    apply updated_entry_known; [apply Hd|done|done|done].
Qed.

(** An update that is no message of the configured backends. *)
Definition update_refused (u : TychoUpdate) d : Prop :=
  ∀ msg, from_tycho_update u (cd_known_backends d) = Ok msg →
         ¬ Forall (λ p, up_backend p ∈ configured_backends) (um_partitions msg).

Lemma apply_update_refused u d r d' :
  update_refused u d → apply_update configured_backends u d = (r, d') →
  d' = d ∧ ∃ e, r = Err (CacheFailed e).
Proof.
  intros Hu. unfold apply_update. rewrite gets_bind. cbn [id]. unfold stage_update.
  destruct (from_tycho_update u (cd_known_backends d)) as [msg|e] eqn:E; cbn [from_contract map_err].
  2:{ cbn. intros [= <- <-]. by eauto. }
  rewrite ok_bind. destruct (ensure_configured_update_backends _ msg) as [[]|e] eqn:Ec.
  - destruct (Hu msg E). by apply ensure_configured_ok.
  - cbn. intros [= <- <-]. by eauto.
Qed.

(** ** Histories of decoded updates *)

Context (chain_id : u64).

Inductive decoded_step (d : BroadcasterSnapshotCacheData) : BroadcasterSnapshotCacheData → Prop :=
| DecodedUpdate u r d' :
    update_maps u → apply_update configured_backends u d = (r, d') → decoded_step d d'
| DecodedReset generation : decoded_step d (reset_to_generation chain_id generation d)
| DecodedRelabel generation : decoded_step d (relabel_generation chain_id generation d)
| DecodedClear : decoded_step d (reset_same_generation d)
| DecodedRecovery now : decoded_step d (begin_same_generation_recovery now d)
| DecodedRecoveryFromCurrent now :
    decoded_step d (begin_same_generation_recovery_from_current now d).

Definition decoded_reachable (d : BroadcasterSnapshotCacheData) : Prop :=
  ∃ generation, rtc decoded_step (new_with_initial_generation chain_id generation) d.

Lemma update_applied_or_refused u d :
  (∃ msg, from_tycho_update u (cd_known_backends d) = Ok msg ∧
          Forall (λ p, up_backend p ∈ configured_backends) (um_partitions msg)) ∨
  update_refused u d.
Proof.
  destruct (from_tycho_update u (cd_known_backends d)) as [msg|e] eqn:E.
  - destruct (decide (Forall (λ p, up_backend p ∈ configured_backends) (um_partitions msg))).
    + left. by eauto.
    + right. intros msg' Hm. rewrite E in Hm. by simplify_eq.
  - right. intros msg' Hm. by rewrite E in Hm.
Qed.

Lemma no_known_cached d : cd_known_backends d = ∅ → known_cached d.
Proof. intros E id b. by rewrite E, lookup_empty. Qed.

Lemma decoded_reachable_known d : decoded_reachable d → known_cached d.
Proof.
  intros [generation Hd]. assert (known_cached (new_with_initial_generation chain_id generation))
    as Hnew by by apply no_known_cached.
  induction Hd as [|d d1 d2 Hs _ IH]; [done|]. apply IH. clear IH.
  destruct Hs as [u r d' Hu Hr|g|g| |now|now].
  - destruct (update_applied_or_refused u d) as [(msg & Hm & Hc)|Href].
    + destruct (apply_update_run u d msg) as (d2' & E & Ha); [done..|].
      rewrite Hr in E. injection E as _ ->. apply Ha.
    + by apply apply_update_refused in Hr as [-> _].
  - by apply no_known_cached.
  - done.
  - by apply no_known_cached.
  - done.
  - unfold begin_same_generation_recovery_from_current. by case_match.
Qed.

(** C15: On a cache that only decoded updates, resets and recoveries have touched, an update
    either is refused, because it cannot be classified or speaks of a backend that is not
    configured, and leaves the cache as it was; or it is applied: every entry of every
    backend is afterwards what the update says, removed, new or with its new state, or else
    what it was, and so is the backend of every component.  The check of the staged deltas
    never fails and the assertions of the commit never panic. *)
Theorem decoded_updates_applied d u :
  decoded_reachable d → update_maps u →
  match apply_update configured_backends u d with
  | (Ok msg, d') => update_applied u d msg d'
  | (Err e, d') => update_refused u d ∧ d' = d ∧ ∃ e', e = CacheFailed e'
  end.
Proof.
  intros Hd Hu. apply decoded_reachable_known in Hd.
  destruct (update_applied_or_refused u d) as [(msg & Hm & Hc)|Href].
  - destruct (apply_update_run u d msg) as (d' & -> & Ha); done.
  - destruct (apply_update _ u d) as [r d'] eqn:E.
    destruct (apply_update_refused _ _ _ _ Href E) as (-> & e & ->). by eauto.
Qed.
End decoded.
