(* ===== verification/CacheRaw.v ===== *)
(** * Raw messages on the cache

    What feed messages do to the cache: every backend keeps one message per protocol, each
    of its own protocols, and the views of an account agree; a replacement that is ready to
    publish holds exactly the protocols the feed has spoken of, all at one block. *)

From S2P Require Import Prelude Ordered Text Protocol Wire Validate TychoFeed Codec.
From S2P Require Import RedisEntry Replay Recovery Publisher Store StorePools Health.
From S2P Require Import Reassembly RawMessage SnapshotExport RawCompaction SharedAccounts.
From S2P Require Import SnapshotCache CompactionFacts.

Section raw.
Context `{SyncFields} `{!TychoState} `{!SyncFieldsLaws} `{!SerdeJson} `{!ListJson}.

Abbreviation messages := (list BroadcasterProtocolMessage).
Abbreviation partitions := (btree BroadcasterBackend BroadcasterPartitionState).

(** ** Well-formed messages of a backend *)

Definition owned (b : BroadcasterBackend) (ms : messages) : Prop :=
  NoDup (protocols ms) ∧ Forall (λ q, backend_for_sync_state q = Ok b) (protocols ms).

Definition messages_ok (b : BroadcasterBackend) (ms : messages) : Prop := owned b ms ∧ agree ms.

(** A property of the messages of every backend. *)
Definition raw_all (P : BroadcasterBackend → messages → Prop) (ps : partitions) : Prop :=
  ∀ b p, ps !! b = Some p → P b (ps_messages p).

Abbreviation raw_ok := (raw_all messages_ok).

Lemma raw_all_empty P : raw_all P ∅.
Proof. intros b p. by rewrite lookup_empty. Qed.

Lemma raw_all_insert P b p ps : P b (ps_messages p) → raw_all P ps → raw_all P (<[b := p]> ps).
Proof.
  intros Hp Hps b' p' Hb. destruct (decide (b = b')) as [<-|Hne].
  - rewrite lookup_insert_eq in Hb. by simplify_eq.
  - rewrite lookup_insert_ne in Hb by done. by apply Hps.
Qed.

(** What every operation of the cache keeps on the messages of a backend. *)
Class RawInvariant (P : BroadcasterBackend → messages → Prop) : Prop := {
  ri_none b : P b [];
  ri_alter b f i ms :
    (∀ m, pm_protocol (f m) = pm_protocol m ∧ ∀ a, view a (f m) = view a m) →
    P b ms → P b (alter f i ms);
  ri_sort b ms : P b ms → P b (sort_by_key pm_protocol ms);
  ri_merge b incoming ms ms' :
    (∀ m, m ∈ incoming → backend_for_sync_state (pm_protocol m) = Ok b) →
    P b ms → merge_raw_messages incoming ms = (Ok tt, ms') → P b ms';
}.

(** Messages with the views of others agree if those do. *)
Lemma agree_views ms ms' :
  (∀ m', m' ∈ ms' → ∃ m, m ∈ ms ∧ ∀ a, view a m' = view a m) → agree ms → agree ms'.
Proof.
  intros Hv Hag a m1 m2 x y (m1' & H1' & E1)%Hv (m2' & H2' & E2)%Hv.
  rewrite E1, E2. by apply Hag.
Qed.

(** ** Merging messages *)

Lemma owned_moves {A} b (m : stateR messages AnyhowError A) :
  moves same_protocols m → moves (λ ms ms', owned b ms → owned b ms') m.
Proof. intros Hm ms r ms' E [? ?]. unfold owned. by rewrite (Hm _ _ _ E). Qed.

#[local] Instance owned_preorder b : PreOrder (λ ms ms', owned b ms → owned b ms').
Proof. split; [by intros ?|]. intros ms1 ms2 ms3. eauto. Qed.

Lemma merge_owned b ms m :
  backend_for_sync_state (pm_protocol m) = Ok b → owned b ms → owned b (merge_raw_message ms m).
Proof.
  intros Hm [Hnd Hall]. pose proof (merge_raw_protocols ms m Hnd) as Hp. unfold owned.
  rewrite Hp. split.
  - constructor; [|by apply NoDup_filter]. rewrite list_elem_of_filter. naive_solver.
  - constructor; [done|]. apply Forall_forall. intros q [_ Hq]%list_elem_of_filter.
    rewrite Forall_forall in Hall. by apply Hall.
Qed.

(** However the merge ends. *)
Lemma merge_raw_messages_owned b incoming :
  (∀ m, m ∈ incoming → backend_for_sync_state (pm_protocol m) = Ok b) →
  moves (λ ms ms', owned b ms → owned b ms') (merge_raw_messages incoming).
Proof.
  intros Hin. apply (moves_bind _).
  - apply (for_eachM_moves _). intros m Hm. rewrite sort_by_key_perm in Hm. apply (moves_bind _).
    + apply (moves_modify _). intros ms2. apply merge_owned. by apply Hin.
    + intros _. apply owned_moves, propagate_moves.
  - intros _. apply owned_moves, canonicalize_moves.
Qed.

Lemma merge_raw_messages_agree incoming ms ms' :
  merge_raw_messages incoming ms = (Ok tt, ms') → agree ms'.
Proof.
  intros ([] & ms1 & _ & Hcan)%stateR_bind_ok. by eapply canonicalize_agree.
Qed.

Lemma alter_protocols f i (ms : messages) :
  (∀ m, pm_protocol (f m) = pm_protocol m) → protocols (alter f i ms) = protocols ms.
Proof.
  intros Hf. unfold protocols. revert i. induction ms as [|m ms IH]; intros i; [done|].
  destruct i as [|i]; csimpl; [by rewrite Hf|]. f_equal. apply IH.
Qed.

Lemma alter_elem {A} (f : A → A) (i : nat) (l : list A) y : y ∈ alter f i l → ∃ x, x ∈ l ∧ (y = x ∨ y = f x).
Proof.
  intros [j Hj]%list_elem_of_lookup. destruct (decide (i = j)) as [->|Hne].
  - rewrite list_lookup_alter_eq in Hj. apply fmap_Some in Hj as (x & Hx & ->).
    exists x. split; [by eapply list_elem_of_lookup_2|by right].
  - rewrite list_lookup_alter_ne in Hj by done. exists y.
    split; [by eapply list_elem_of_lookup_2|by left].
Qed.

#[local] Instance owned_invariant : RawInvariant owned.
Proof.
  split.
  - by split; constructor.
  - intros b f i ms Hf. unfold owned. by rewrite alter_protocols by (intros m; apply Hf).
  - intros b ms. unfold owned.
    assert (protocols (sort_by_key pm_protocol ms) ≡ₚ protocols ms) as ->; [|done].
    unfold protocols. change (map ?f ?l) with (f <$> l). by rewrite sort_by_key_perm.
  - intros b incoming ms ms' Hin Hms Hrun. by eapply merge_raw_messages_owned.
Qed.

#[local] Instance messages_ok_invariant : RawInvariant messages_ok.
Proof.
  split.
  - intros b. split; [apply ri_none|]. intros a m1 m2 x y Hm. by apply elem_of_nil in Hm.
  - intros b f i ms Hf [Hown Hag]. split; [by apply ri_alter|].
    eapply agree_views; [|exact Hag]. intros m' (m & Hm & [->| ->])%alter_elem.
    + by exists m.
    + exists m. split; [done|]. apply Hf.
  - intros b ms [Hown Hag]. split; [by apply ri_sort|]. eapply agree_views; [|exact Hag].
    intros m Hm. rewrite sort_by_key_perm in Hm. by exists m.
  - intros b incoming ms ms' Hin [Hown _] Hrun.
    split; [by eapply ri_merge|by eapply merge_raw_messages_agree].
Qed.

(** ** Applying an update *)

(** Whatever the outcome, a partition of an update is merged into the messages of its backend. *)
Lemma apply_raw_partition_inv up ps r ps' :
  apply_raw_partition up ps = (r, ps') →
  ∃ p', ps' = <[up_backend up := p']> (bt_entry_update partition_default
          (ps_set_head (up_block_number up) (up_sync_statuses up)) (up_backend up) ps) ∧
    merge_raw_messages (up_messages up)
      (default [] (ps_messages <$> ps !! up_backend up)) = (r, ps_messages p').
Proof.
  unfold apply_raw_partition. rewrite modify_bind. unfold on_messages.
  rewrite bt_entry_update_eq. cbn [default ps_set_head ps_messages].
  destruct (merge_raw_messages _ _) as [r' ms'] eqn:E. intros [= <- <-].
  eexists. split; [done|]. cbn. rewrite <- E. f_equal. by destruct (ps !! up_backend up).
Qed.

Lemma entry_messages P `{!RawInvariant P} b ps :
  raw_all P ps → P b (default [] (ps_messages <$> ps !! b)).
Proof.
  intros Hps. destruct (ps !! b) as [p|] eqn:Ep; cbn; [by apply (Hps _ _ Ep)|apply ri_none].
Qed.

Lemma apply_raw_partition_all P `{!RawInvariant P} up ps r ps' :
  (∀ ms', P (up_backend up) (default [] (ps_messages <$> ps !! up_backend up)) →
     merge_raw_messages (up_messages up) (default [] (ps_messages <$> ps !! up_backend up)) = (r, ms') →
     P (up_backend up) ms') →
  raw_all P ps → apply_raw_partition up ps = (r, ps') → raw_all P ps'.
Proof.
  intros Hmerge Hps (p' & -> & Hrun)%apply_raw_partition_inv.
  pose proof (entry_messages P (up_backend up) ps Hps) as Hent.
  apply raw_all_insert; [by apply Hmerge|]. apply raw_all_insert; [|done]. cbn.
  by destruct (ps !! up_backend up).
Qed.

Lemma apply_raw_update_all P `{!RawInvariant P} msg ps ps' :
  Forall update_content_ok (um_partitions msg) → raw_all P ps →
  apply_raw_update_message msg ps = (Ok tt, ps') → raw_all P ps'.
Proof.
  unfold apply_raw_update_message. generalize (um_partitions msg). intros l Hl.
  revert ps. induction Hl as [|up l Hup _ IH]; intros ps Hps; [by intros [= <-]|].
  cbn [for_eachM]. rewrite stateR_bind_ok. intros ([] & ps1 & Hr1 & Hr2).
  apply IH in Hr2; [done|]. eapply apply_raw_partition_all; [done| |exact Hps|exact Hr1].
  intros ms' Hms. apply ri_merge; [apply Hup|done].
Qed.

#[local] Instance raw_all_preorder P : PreOrder (λ ps ps', raw_all P ps → raw_all P ps').
Proof. split; [by intros ?|]. intros ps1 ps2 ps3. eauto. Qed.

(** An update that fails half way has merged messages of its backends all the same. *)
Lemma apply_raw_update_owned msg :
  Forall update_content_ok (um_partitions msg) →
  moves (λ ps ps', raw_all owned ps → raw_all owned ps') (apply_raw_update_message msg).
Proof.
  intros Hmsg. unfold apply_raw_update_message.
  apply (for_eachM_moves _). intros up Hup ps r ps' Hrun Hps.
  eapply (apply_raw_partition_all owned); [|exact Hps|exact Hrun].
  intros ms' Hms Hm. eapply merge_raw_messages_owned; [|exact Hm|exact Hms].
  rewrite Forall_forall in Hmsg. apply Hmsg, Hup.
Qed.

(** An update that goes through makes every backend it speaks of agree. *)
Lemma apply_raw_update_agrees msg ps ps' b p :
  apply_raw_update_message msg ps = (Ok tt, ps') → ps' !! b = Some p →
  agree (ps_messages p) ∨ ps !! b = Some p.
Proof.
  unfold apply_raw_update_message. generalize (um_partitions msg). intros l.
  revert ps. induction l as [|up l IH]; intros ps; [intros [= <-]; by right|].
  cbn [for_eachM]. rewrite stateR_bind_ok. intros ([] & ps1 & Hr1 & Hr2) Hb.
  destruct (IH _ Hr2 Hb) as [Hag|Hb1]; [by left|].
  apply apply_raw_partition_inv in Hr1 as (p' & -> & Hrun).
  destruct (decide (up_backend up = b)) as [<-|Hne].
  - rewrite lookup_insert_eq in Hb1. injection Hb1 as <-. left. by eapply merge_raw_messages_agree.
  - rewrite lookup_insert_ne in Hb1 by done. right.
    unfold bt_entry_update in Hb1. by rewrite lookup_insert_ne in Hb1.
Qed.

(** ** The candidates of a replacement *)

Lemma feed_sync_state_view feed q st m :
  pm_protocol (apply_feed_sync_state feed q st m) = pm_protocol m ∧
  ∀ a, view a (apply_feed_sync_state feed q st m) = view a m.
Proof.
  unfold apply_feed_sync_state. repeat case_match; try done. split; [done|]. intros a.
  unfold view, pm_storage. by rewrite pm_fields_update.
Qed.

Lemma alter_raw_all P `{!RawInvariant P} f q ps :
  (∀ m, pm_protocol (f m) = pm_protocol m ∧ ∀ a, view a (f m) = view a m) →
  raw_all P ps → raw_all P (alter_raw_protocol_message f q ps).
Proof.
  intros Hf Hps. unfold alter_raw_protocol_message.
  destruct (head _) as [[b p]|] eqn:E; [|done].
  apply head_Some_elem_of, list_elem_of_omap in E as ([b0 p0] & Hin & E).
  apply elem_of_bt_iter in Hin. cbn in E. destruct (list_find _ _) as [[i m]|]; [|done].
  cbn in E. injection E as <- <-. apply raw_all_insert; [|done]. cbn.
  apply ri_alter; [done|]. by apply Hps.
Qed.

Lemma settle_raw_all P `{!RawInvariant P} (ps : partitions) :
  raw_all P ps → raw_all P (settle_candidate <$> ps).
Proof.
  intros Hps b p Hb. rewrite lookup_fmap in Hb. apply fmap_Some in Hb as (p0 & Hp0 & ->).
  cbn. by apply ri_sort, Hps.
Qed.

Lemma apply_replacement_all P `{!RawInvariant P} candidates msg feed candidates' :
  Forall update_content_ok (um_partitions msg) → raw_all P candidates →
  apply_replacement_feed_message candidates msg feed = Ok candidates' → raw_all P candidates'.
Proof.
  intros Hmsg Hc. unfold apply_replacement_feed_message. rewrite seq_ok. intros [_ Hr].
  rewrite seq_ok in Hr. destruct Hr as [_ Hr].
  destruct (apply_raw_update_message msg candidates) as [r c1] eqn:E.
  apply seq_ok in Hr as [-> [= <-]]. apply (settle_raw_all P), foldl_inv.
  - by eapply (apply_raw_update_all P).
  - intros ps [q st] _ Hps. apply (alter_raw_all P); [|done]. intros m. apply feed_sync_state_view.
Qed.

(** ** The messages of all backends *)

Definition all_messages (ps : partitions) : messages := bt_values ps ≫= ps_messages.

Lemma owned_all (l : list (BroadcasterBackend * BroadcasterPartitionState)) :
  NoDup l.*1 → (∀ b p, (b, p) ∈ l → owned b (ps_messages p)) →
  NoDup (protocols (l.*2 ≫= ps_messages)).
Proof.
  unfold protocols. induction l as [|[b p] l IH]; csimpl; [by constructor|].
  intros [Hb Hnd]%NoDup_cons Hl. rewrite map_app. apply NoDup_app. split_and!.
  - apply (Hl b p). left.
  - intros q Hq Hq'. apply list_elem_of_fmap in Hq' as (m & -> & Hm).
    apply list_elem_of_bind in Hm as (p' & Hm & Hp').
    apply list_elem_of_fmap in Hp' as ([b' p''] & -> & Hp'').
    destruct (Hl b p) as [_ H1']; [left|]. destruct (Hl b' p'') as [_ H2']; [by right|].
    rewrite Forall_forall in H1', H2'. specialize (H1' _ Hq).
    specialize (H2' (pm_protocol m) ltac:(by apply list_elem_of_fmap_2)).
    rewrite H1' in H2'. injection H2' as <-. apply Hb, list_elem_of_fmap. by exists (b, p'').
  - apply IH; [done|]. intros b' p' Hp'. apply Hl. by right.
Qed.

Lemma all_protocols_unique ps : raw_all owned ps → NoDup (protocols (all_messages ps)).
Proof.
  intros Hps. apply owned_all; [apply NoDup_bt_keys|].
  intros b p Hp%elem_of_bt_iter. by apply Hps.
Qed.

Lemma elem_of_all_messages ps m :
  m ∈ all_messages ps ↔ ∃ b p, ps !! b = Some p ∧ m ∈ ps_messages p.
Proof.
  unfold all_messages. rewrite list_elem_of_bind. setoid_rewrite elem_of_bt_values. naive_solver.
Qed.

(** ** Alignment *)

(** A replacement at one block: the expected protocols, each once, all of them ready at the
    block, and every backend complete at it. *)
Record aligned (ps : partitions) (expected : gset string) (n : u64) (h : Bytes) : Prop := {
  al_protocols : protocols (all_messages ps) ≡ₚ elements expected;
  al_messages m : m ∈ all_messages ps → message_at n h m;
  al_complete b p :
    ps !! b = Some p → ps_block p = Some n ∧
    complete_broadcaster_partition_block n (ps_messages p) (ps_sync_statuses p) = Some n;
}.

(** The block of a candidate is that of its newest message. *)
Definition heads_settled (ps : partitions) : Prop :=
  ∀ b p, ps !! b = Some p → ps_block p = list_max (map pm_number (ps_messages p)).

Lemma replacement_heads candidates msg feed candidates' :
  apply_replacement_feed_message candidates msg feed = Ok candidates' → heads_settled candidates'.
Proof.
  unfold apply_replacement_feed_message. rewrite seq_ok. intros [_ Hr].
  rewrite seq_ok in Hr. destruct Hr as [_ Hr].
  destruct (apply_raw_update_message msg candidates) as [r c1].
  apply seq_ok in Hr as [-> [= <-]]. intros b p Hp. rewrite lookup_fmap in Hp.
  by apply fmap_Some in Hp as (p0 & _ & ->).
Qed.

Lemma same_protocols_as_expected ms (expected : gset string) :
  NoDup (protocols ms) → length ms = size expected →
  (∀ m, m ∈ ms → pm_protocol m ∈ expected) → protocols ms ≡ₚ elements expected.
Proof.
  intros Hnd Hlen Hin. apply submseteq_length_Permutation.
  - apply NoDup_submseteq; [done|]. intros q (m & -> & Hm)%list_elem_of_fmap.
    apply elem_of_elements. by apply Hin.
  - unfold protocols. rewrite length_map, Hlen. reflexivity.
Qed.

Lemma existsb_negb_false {A} (f : A → bool) l :
  existsb (λ x, negb (f x)) l = false ↔ ∀ x, x ∈ l → f x = true.
Proof.
  induction l as [|x l IH]; cbn; [split; [by intros _ x Hx; apply elem_of_nil in Hx|done]|].
  rewrite orb_false_iff, negb_false_iff, IH. split.
  - intros [Hx Hl] y [->|Hy]%elem_of_cons; auto.
  - intros Hl. split; [apply Hl; left|]. intros y Hy. apply Hl. by right.
Qed.

Lemma replacement_is_aligned_true ps expected :
  raw_all owned ps → heads_settled ps → replacement_is_aligned ps expected = true →
  ∃ n h, aligned ps expected n h.
Proof.
  intros Hps Hheads. unfold replacement_is_aligned. fold (all_messages ps).
  case_bool_decide; [done|].
  destruct (_ || _) eqn:Econd; [done|]. rewrite !orb_false_iff in Econd.
  destruct Econd as [[Hlen%negb_false_iff%bool_decide_eq_true Hexp] Hcomp].
  rewrite existsb_negb_false in Hexp. rewrite existsb_negb_false in Hcomp.
  destruct (all_messages ps) as [|first rest] eqn:Eall; [done|]. rewrite <- Eall in *.
  intros Hsame. rewrite forallb_forall in Hsame.
  assert (∀ m, m ∈ all_messages ps → pm_number m = pm_number first ∧
               bh_hash (pm_header m) = bh_hash (pm_header first)) as Hm.
  { intros m Hm%list_elem_of_In. apply Hsame, andb_true_iff in Hm as [Hn Hh].
    by apply N.eqb_eq in Hn; apply String.eqb_eq in Hh. }
  assert (∀ b p, ps !! b = Some p → ps_block p = Some (pm_number first) ∧
    complete_broadcaster_partition_block (pm_number first) (ps_messages p) (ps_sync_statuses p) =
      Some (pm_number first)) as Hc.
  { intros b p Hp. assert (partition_complete p = true) as Hpc.
    { apply Hcomp, elem_of_bt_values. by exists b. }
    unfold partition_complete in Hpc. destruct (ps_block p) as [bn|] eqn:Ebn; [|done].
    apply bool_decide_eq_true in Hpc.
    assert (bn = pm_number first) as ->; [|done].
    rewrite (Hheads b p Hp) in Ebn. destruct (ps_messages p) as [|m ms] eqn:Ems; [done|].
    assert (m ∈ all_messages ps) as Hin.
    { apply elem_of_all_messages. exists b, p. split; [done|]. rewrite Ems. left. }
    apply complete_block_ok in Hpc as (_ & _ & h & Hat & _).
    destruct (Hat m) as [[Hn _] _]; [left|]. destruct (Hm m Hin) as [<- _]. symmetry. exact Hn. }
  exists (pm_number first), (bh_hash (pm_header first)). split; [| |exact Hc].
  - apply same_protocols_as_expected; [by apply all_protocols_unique|done|].
    intros m Hin. by apply Hexp, bool_decide_eq_true in Hin.
  - intros m Hin. pose proof Hin as (b & p & Hp & Hmp)%elem_of_all_messages.
    destruct (Hc b p Hp) as [_ Hcb]. apply complete_block_ok in Hcb as (_ & _ & h & Hat & _).
    pose proof (Hat m Hmp) as Hmat. destruct (Hm m Hin) as [_ Hh].
    replace (bh_hash (pm_header first)) with h; [done|]. rewrite <- Hh.
    by destruct Hmat as [(_ & _ & <-) _].
Qed.

(** ** Histories of feed messages *)

Context (chain_id : u64) (configured_backends : list BroadcasterBackend).

Implicit Types d : BroadcasterSnapshotCacheData.

(** A property of the messages served and of those of a replacement being collected. *)
Definition cache_all (P : BroadcasterBackend → messages → Prop) (d : BroadcasterSnapshotCacheData) :
    Prop :=
  raw_all P (cd_partitions d) ∧
  ∀ pending, cd_replacement d = Some pending → raw_all P (rp_candidates pending).

Lemma from_feed_content feed msg :
  from_tycho_feed_message feed = Ok msg → Forall update_content_ok (um_partitions msg).
Proof.
  unfold from_tycho_feed_message. intros E. apply bind_ok in E as (maps & _ & E).
  apply bind_ok in E as (maps' & _ & E). apply BroadcasterUpdateMessage_new_ok in E as [Hv ->].
  cbn. rewrite sort_by_key_perm. apply Hv.
Qed.

Lemma stage_replacement_all P `{!RawInvariant P} feed msg pending d staged :
  Forall update_content_ok (um_partitions msg) → raw_all P (rp_candidates pending) →
  stage_replacement feed msg pending d = Ok staged →
  su_message staged = None ∧
  ∃ candidates, raw_all P candidates ∧ heads_settled candidates ∧
    if su_replacement_ready staged then
      su_apply_mode staged =
        Replacement candidates (expected_with feed d) None (cd_next_recovery_id d) ∧
      su_recovery_id staged = Some (rp_id pending) ∧
      replacement_is_aligned candidates (expected_with feed d) = true
    else
      su_apply_mode staged =
        Replacement (cd_partitions d) (expected_with feed d)
          (Some {| rp_id := rp_id pending; rp_started_at := rp_started_at pending;
                   rp_candidates := candidates |}) (cd_next_recovery_id d) ∧
      su_recovery_id staged = None.
Proof.
  intros Hmsg Hp. unfold stage_replacement. rewrite bind_ok. intros (candidates & Hc & E).
  pose proof (apply_replacement_all P _ _ _ _ Hmsg Hp Hc) as Hok.
  apply replacement_heads in Hc.
  destruct (replacement_is_aligned candidates (expected_with feed d)) eqn:Ea;
    injection E as <-; (split; [done|]); exists candidates; (split; [done|]); by split_and!.
Qed.

Lemma stage_feed_replacement feed d staged pending :
  cd_replacement d = Some pending → stage_feed_message configured_backends feed d = Ok staged →
  ∃ msg, Forall update_content_ok (um_partitions msg) ∧
         stage_replacement feed msg pending d = Ok staged.
Proof.
  intros Hr. unfold stage_feed_message. rewrite bind_ok. intros (msg & Hmsg & E).
  apply seq_ok in E as [_ E]. rewrite Hr in E. exists msg. split; [|done].
  destruct (from_tycho_feed_message feed) as [m|] eqn:Em; [|done].
  injection Hmsg as <-. by eapply from_feed_content.
Qed.

Lemma stage_feed_raw feed d staged :
  cd_replacement d = None → stage_feed_message configured_backends feed d = Ok staged →
  ∃ msg, Forall update_content_ok (um_partitions msg) ∧
    staged = {| su_message := Some msg;
                su_apply_mode := RawNormal (expected_with feed d) (cd_next_recovery_id d);
                su_replacement_ready := false; su_recovery_id := None |}.
Proof.
  intros Hr. unfold stage_feed_message. rewrite bind_ok. intros (msg & Hmsg & E).
  apply seq_ok in E as [_ E]. rewrite Hr in E. apply seq_ok in E as [_ E].
  apply seq_ok in E as [_ [= <-]]. exists msg. split; [|done].
  destruct (from_tycho_feed_message feed) as [m|] eqn:Em; [|done].
  injection Hmsg as <-. by eapply from_feed_content.
Qed.

Lemma stage_replacement_ends feed msg pending d staged :
  stage_replacement feed msg pending d = Ok staged →
  su_message staged = None ∧ ∃ d', commit_staged_update staged d = (Ok tt, d').
Proof.
  unfold stage_replacement. rewrite bind_ok. intros (candidates & _ & E).
  destruct (replacement_is_aligned _ _); injection E as <-; (split; [done|]); by eexists.
Qed.

(** ** The outcomes of a feed message *)

(** It is refused before the cache is touched; it fails while it is merged; it is merged;
    or it goes to the candidates of the recovery. *)
Inductive feed_outcome (feed : FeedMessage) (d : BroadcasterSnapshotCacheData) :
    result CacheError (option BroadcasterUpdateMessage) * BroadcasterSnapshotCacheData → Prop :=
| FeedRefused error :
    is_ok (stage_feed_message configured_backends feed d) = false →
    feed_outcome feed d (Err error, d)
| FeedMergeFailed msg error ps :
    is_ok (stage_feed_message configured_backends feed d) = true → cd_replacement d = None →
    Forall update_content_ok (um_partitions msg) →
    apply_raw_update_message msg (cd_partitions d) = (Err error, ps) →
    feed_outcome feed d (Err (CacheFailed error), set_partitions (λ _, ps) d)
| FeedMerged msg ps d' :
    cd_replacement d = None → Forall update_content_ok (um_partitions msg) →
    apply_raw_update_message msg (cd_partitions d) = (Ok tt, ps) →
    cd_partitions d' = ps → cd_replacement d' = None →
    feed_outcome feed d (Ok (Some msg), d')
| FeedCollected msg pending staged d' :
    cd_replacement d = Some pending → Forall update_content_ok (um_partitions msg) →
    stage_replacement feed msg pending d = Ok staged →
    commit_staged_update staged d = (Ok tt, d') →
    feed_outcome feed d (Ok None, d').

Lemma apply_feed_outcome feed d :
  feed_outcome feed d (apply_feed_message configured_backends feed d).
Proof.
  unfold apply_feed_message. rewrite gets_bind, lift_bind. cbn [id].
  destruct (stage_feed_message configured_backends feed d) as [staged|error] eqn:Es; cbn [map_err];
    [|by apply FeedRefused; rewrite Es].
  destruct (cd_replacement d) as [pending|] eqn:Er.
  - destruct (stage_feed_replacement _ _ _ _ Er Es) as (m & Hm & Est).
    pose proof (stage_replacement_ends _ _ _ _ _ Est) as (Hnone & d' & Hc).
    unfold mbind, stateR_bind. rewrite Hc, Hnone. by eapply FeedCollected.
  - destruct (stage_feed_raw _ _ _ Er Es) as (m & Hm & ->).
    unfold commit_staged_update, on_partitions. cbn [su_apply_mode su_message].
    destruct (apply_raw_update_message m (cd_partitions d)) as [r ps] eqn:Ea.
    unfold mbind, stateR_bind. rewrite Ea. destruct r as [[]|error]; cbn.
    + by eapply FeedMerged.
    + eapply FeedMergeFailed; [by rewrite Es|done..].
Qed.

Lemma collected_all P `{!RawInvariant P} feed msg pending staged d d' :
  cache_all P d → cd_replacement d = Some pending → Forall update_content_ok (um_partitions msg) →
  stage_replacement feed msg pending d = Ok staged →
  commit_staged_update staged d = (Ok tt, d') → cache_all P d'.
Proof.
  intros [Hd Hp] Hr Hm Hs Hc.
  apply (stage_replacement_all P) in Hs as (_ & candidates & Hcand & _ & Est); [|done|by apply Hp].
  unfold commit_staged_update in Hc.
  destruct (su_replacement_ready staged); destruct Est as [Emode _]; rewrite Emode in Hc;
    cbn in Hc; injection Hc as <-; (split; [done|]); cbn; [done|].
  by intros ? [= <-].
Qed.

(** A feed message that is staged, and then fails while it is merged. *)
Definition commit_failed (feed : FeedMessage) (d : BroadcasterSnapshotCacheData) : Prop :=
  is_ok (stage_feed_message configured_backends feed d) = true ∧
  is_ok (apply_feed_message configured_backends feed d).1 = false.

Lemma feed_owned feed d :
  cache_all owned d → cache_all owned (apply_feed_message configured_backends feed d).2.
Proof.
  intros [Hd Hp]. destruct (apply_feed_outcome feed d) as [error _|msg error ps _ Hr Hm Ha
    |msg ps d' Hr Hm Ha Hps Hr'|msg pending staged d' Hr Hm Hs Hc]; cbn [snd].
  - by split.
  - split; [|cbn; by rewrite Hr]. by eapply apply_raw_update_owned.
  - split; [rewrite Hps|by rewrite Hr']. by eapply apply_raw_update_owned.
  - by eapply (collected_all owned).
Qed.

Lemma feed_agrees feed d :
  ¬ commit_failed feed d → cache_all messages_ok d →
  cache_all messages_ok (apply_feed_message configured_backends feed d).2.
Proof.
  unfold commit_failed. intros Hno [Hd Hp]. revert Hno.
  destruct (apply_feed_outcome feed d) as [error _|msg error ps Hs Hr Hm Ha
    |msg ps d' Hr Hm Ha Hps Hr'|msg pending staged d' Hr Hm Hs Hc]; cbn [fst snd]; intros Hno.
  - by split.
  - by destruct Hno.
  - split; [rewrite Hps|by rewrite Hr']. by eapply (apply_raw_update_all messages_ok).
  - by eapply (collected_all messages_ok).
Qed.

(** What happens to the cache; with [failures], feed messages may also fail while they are
    merged. *)
Inductive raw_step (failures : bool) (d : BroadcasterSnapshotCacheData) :
    BroadcasterSnapshotCacheData → Prop :=
| RawFeed feed :
    failures = true ∨ ¬ commit_failed feed d →
    raw_step failures d (apply_feed_message configured_backends feed d).2
| RawReset generation : raw_step failures d (reset_to_generation chain_id generation d)
| RawRelabel generation : raw_step failures d (relabel_generation chain_id generation d)
| RawClear : raw_step failures d (reset_same_generation d)
| RawRecovery now : raw_step failures d (begin_same_generation_recovery now d)
| RawRecoveryFromCurrent now :
    raw_step failures d (begin_same_generation_recovery_from_current now d).

Definition raw_reachable (failures : bool) (d : BroadcasterSnapshotCacheData) : Prop :=
  ∃ generation, rtc (raw_step failures) (new_with_initial_generation chain_id generation) d.

Lemma raw_reachable_all P `{!RawInvariant P} failures d :
  (∀ feed d, failures = true ∨ ¬ commit_failed feed d → cache_all P d →
     cache_all P (apply_feed_message configured_backends feed d).2) →
  raw_reachable failures d → cache_all P d.
Proof.
  intros Hfeed [generation Hd].
  assert (cache_all P (new_with_initial_generation chain_id generation)) as Hnew
    by (split; [apply raw_all_empty|done]).
  induction Hd as [|d d1 d2 Hs _ IH]; [done|]. apply IH. clear IH. destruct Hnew as [Hd Hp].
  destruct Hs as [feed Hf|g|g| |now|now].
  - by apply Hfeed.
  - split; [apply raw_all_empty|done].
  - done.
  - split; [apply raw_all_empty|done].
  - split; [done|]. intros pending [= <-]. apply raw_all_empty.
  - unfold begin_same_generation_recovery_from_current.
    destruct (cd_replacement d) as [pending|] eqn:Er; [by split; [|rewrite Er]|].
    split; [done|]. by intros ? [= <-].
Qed.

Lemma raw_reachable_owned failures d : raw_reachable failures d → cache_all owned d.
Proof. apply (raw_reachable_all owned). intros feed d' _. apply feed_owned. Qed.

(** ** Properties *)

(** C17: Whatever feed messages are applied, those that are refused and those that fail
    while they are merged included, and whenever the cache is reset or a recovery begun,
    the raw messages the cache serves, and those of a replacement it collects, are one per
    protocol and each with the backend of its protocol.  As long as no message that was
    staged has failed while it was merged ([raw_reachable false]), the messages of a
    backend that hold an account hold the same one.  A message that fails either leaves
    the cache as it was, or, with no recovery pending, was staged and then failed half
    merged, which touches nothing but the partitions; and one merged with no recovery
    pending makes every backend it changes agree again. *)
Theorem raw_cache_consistent failures d :
  raw_reachable failures d →
  cache_all owned d ∧
  (failures = false → cache_all messages_ok d) ∧
  ∀ feed r d', apply_feed_message configured_backends feed d = (r, d') →
  match r with
  | Ok _ => cd_replacement d = None →
      ∀ b p, cd_partitions d' !! b = Some p →
             agree (ps_messages p) ∨ cd_partitions d !! b = Some p
  | Err _ => d' = d ∨
      commit_failed feed d ∧ cd_replacement d = None ∧ ∃ ps, d' = set_partitions (λ _, ps) d
  end.
Proof.
  intros Hd. split; [by eapply raw_reachable_owned|]. split.
  - intros ->. revert Hd. apply (raw_reachable_all messages_ok).
    intros feed' d' [?|Hno]; [done|]. by apply feed_agrees.
  - intros feed r d' Hrun. pose proof (apply_feed_outcome feed d) as Hout. unfold commit_failed.
    rewrite Hrun in *. inversion Hout; subst.
    + by left.
    + right. split; [done|]. split; [done|]. by eexists.
    + intros _ b p. by eapply apply_raw_update_agrees.
    + congruence.
Qed.

(** C16: While a recovery is pending, committing a staged feed message leaves what the cache
    serves as it is, publishes no update, and offers no recovery source, until the
    candidates are aligned: they are then exactly the protocols the feed has spoken of,
    each once, all ready at one block with one hash, every backend complete at it.  Then
    the recovery source is the candidates, which the commit makes what the cache serves,
    and the recovery is over. *)
Theorem replacement_swapped_when_aligned failures d feed staged pending :
  raw_reachable failures d → cd_replacement d = Some pending →
  stage_feed_message configured_backends feed d = Ok staged →
  ∃ d', commit_staged_update staged d = (Ok tt, d') ∧ su_message staged = None ∧
    cd_expected_protocols d' = expected_with feed d ∧
    if su_replacement_ready staged then
      recovery_source staged =
        Ok {| rsrc_recovery_id := rp_id pending; rsrc_partitions := cd_partitions d' |} ∧
      cd_replacement d' = None ∧
      ∃ n h, aligned (cd_partitions d') (expected_with feed d) n h
    else
      is_ok (recovery_source staged) = false ∧ cd_partitions d' = cd_partitions d ∧
      ∃ candidates, cd_replacement d' =
        Some {| rp_id := rp_id pending; rp_started_at := rp_started_at pending;
                rp_candidates := candidates |}.
Proof.
  intros [_ Hp]%raw_reachable_owned Hr Hs.
  destruct (stage_feed_replacement _ _ _ _ Hr Hs) as (msg & Hm & Est).
  apply (stage_replacement_all owned) in Est as (Hmsg & candidates & Hown & Hheads & Est);
    [|done|by apply Hp].
  unfold commit_staged_update, recovery_source, recovery_partitions.
  destruct (su_replacement_ready staged).
  - destruct Est as (-> & -> & Hal). eexists. split; [done|]. split_and!; [done..|].
    by apply replacement_is_aligned_true.
  - destruct Est as (-> & _). eexists. split; [done|]. split_and!; [done..|]. by exists candidates.
Qed.
End raw.
