(* ===== verification/CacheDemo.v ===== *)
(** * A concrete cache, for the witnesses

    Two decoded updates, a feed message of two protocols that hold one account, one that is
    staged and fails while it is merged, and a recovery that two feed messages complete. *)

From S2P Require Import Prelude Ordered Text Protocol Wire Validate TychoFeed Codec.
From S2P Require Import RedisEntry Replay Recovery Publisher Store StorePools Health.
From S2P Require Import Reassembly RawMessage SnapshotExport ExportDemo RawCompaction.
From S2P Require Import SharedAccounts SnapshotCache CompactionFacts CacheDecoded CacheRaw.

#[local] Existing Instance fields_tycho.
#[local] Existing Instance fields_raw.
#[local] Existing Instance fields_leaves.
#[local] Existing Instance fields_sync.
#[local] Existing Instance fields_serde.
#[local] Existing Instance fields_json.

(** Components are numbers without attributes, an account has its slots and its code; the
    update of an account is the number of its kind. *)
Definition demo_change (n : N) : ChangeType :=
  if (n =? 0)%N then ChangeDeletion else if (n =? 1)%N then ChangeCreation else ChangeUpdate.

Definition fields_state : @TychoState fields_tycho fields_raw fields_leaves :=
  @Build_TychoState fields_tycho fields_raw fields_leaves
    (λ _, []) (λ _ c, c) (λ _, []) (λ _ c, c) (λ tvl c, default c (tvl : option N) : N)
    (λ _, []) (λ _, []) u64_to_string u64_to_string N.eqb
    demo_change (λ n, [("updated", u64_to_string n)]) (λ _, None) (λ _, None) N.eqb
    da_code (λ _, "") (λ _ a, a) (λ _, []) (λ _ a, a) (λ _ a, a)
    (λ code a, {| da_slots := da_slots a; da_code := code |}) (λ ids : list string, ids).
#[local] Existing Instance fields_state.

(** ** Decoded updates *)

Definition decoded_update (states : hashmap N) (news gone : hashmap (string * string)) :
    TychoUpdate :=
  {| tu_block_number_or_timestamp := 7; tu_states := states; tu_new_pairs := news;
     tu_removed_pairs := gone; tu_sync_states := [] |}.

Definition first_update : TychoUpdate :=
  decoded_update [("p1", 1%N); ("p2", 2%N)]
    [("p1", ("uniswap_v2", "uniswap_v2_pool")); ("p2", ("vm:curve", "curve_pool"))] [].

Definition second_update : TychoUpdate :=
  decoded_update [("p2", 5%N)] [] [("p1", ("uniswap_v2", "uniswap_v2_pool"))].

Definition demo_cache : BroadcasterSnapshotCacheData := new_with_initial_generation 1 7.
Definition demo_updated : result CacheError BroadcasterUpdateMessage * BroadcasterSnapshotCacheData :=
  apply_update [Native; Vm] first_update demo_cache.

Lemma first_update_maps : update_maps first_update.
Proof. split_and!; apply (bool_decide_unpack _); by vm_compute. Qed.

Lemma second_update_maps : update_maps second_update.
Proof. split_and!; apply (bool_decide_unpack _); by vm_compute. Qed.

Lemma demo_updated_reachable : decoded_reachable [Native; Vm] 1 demo_updated.2.
Proof.
  exists 7%N. apply rtc_once. apply (DecodedUpdate _ _ _ first_update demo_updated.1);
    [exact first_update_maps|apply surjective_pairing].
Qed.

(** The second update replaces the state of one pair and removes the other. *)
Lemma decoded_updates_applied_witness :
  ∃ msg d', apply_update [Native; Vm] second_update demo_updated.2 = (Ok msg, d') ∧
    update_applied [Native; Vm] second_update demo_updated.2 msg d'.
Proof.
  pose proof (decoded_updates_applied [Native; Vm] 1 demo_updated.2 second_update
                demo_updated_reachable second_update_maps) as Happlied.
  assert (∃ msg d', apply_update [Native; Vm] second_update demo_updated.2 = (Ok msg, d'))
    as (msg & d' & Hrun) by (do 2 eexists; vm_compute; reflexivity).
  rewrite Hrun in Happlied. exists msg, d'. split; [exact Hrun|exact Happlied].
Defined.

(** ** Feed messages *)

Definition feed_message (accounts : hashmap DemoAccount) (states : hashmap N) : DemoMessage :=
  {| dm_header := header_7; dm_states := states; dm_accounts := accounts; dm_deltas := None;
     dm_removed := [] |}.

Definition account (slots : hashmap string) : DemoAccount := {| da_slots := slots; da_code := "c" |}.

(** Two views of one account. *)
Definition shared_feed : FeedMessage :=
  {| fm_state_msgs :=
       [("vm:curve", feed_message [("a", account [("1", "u")])] [("p1", 1%N)]);
        ("vm:balancer_v2", feed_message [("a", account [("2", "v")])] [("p2", 2%N)])];
     fm_sync_states :=
       [("vm:curve", SyncReady header_7); ("vm:balancer_v2", SyncReady header_7)] |}.

Definition demo_fed : result CacheError (option BroadcasterUpdateMessage) *
    BroadcasterSnapshotCacheData := apply_feed_message [Native; Vm] shared_feed demo_cache.

(** Both protocols hold the slots of both. *)
Example demo_fed_slots :
  map (λ m, map (λ '(a, acc), (a, length (da_slots acc))) (pm_storage m))
    (all_messages (cd_partitions demo_fed.2)) = [[("a", 2)]; [("a", 2)]].
Proof. by vm_compute. Qed.

(** A protocol that lags behind, and another one with an account. *)
Definition header_at (number : u64) (hash : string) : BlockHeader :=
  {| demo_hash := hash; demo_number := number; demo_partial := None |}.

Definition message_of_accounts (header : BlockHeader) (accounts : hashmap DemoAccount) : DemoMessage :=
  {| dm_header := header; dm_states := []; dm_accounts := accounts; dm_deltas := None;
     dm_removed := [] |}.
Definition coded (code : string) : DemoAccount := {| da_slots := []; da_code := code |}.

Definition lagging_feed : FeedMessage :=
  {| fm_state_msgs :=
       [("vm:balancer_v2", message_of_accounts (header_at 5 "") [("b", coded "e")]);
        ("vm:maverick_v2", message_of_accounts (header_at 7 "h7") [("a", coded "c")])];
     fm_sync_states :=
       [("vm:balancer_v2", SyncReady (header_at 5 ""));
        ("vm:maverick_v2", SyncReady (header_at 7 "h7"))] |}.

(** The lagging protocol brings the account as it was at block 6, and a third protocol
    comes with the account as it is at block 7. *)
Definition catching_up_feed : FeedMessage :=
  {| fm_state_msgs :=
       [("vm:balancer_v2", message_of_accounts (header_at 6 "h6") [("a", coded "d")]);
        ("vm:curve", message_of_accounts (header_at 7 "h7") [("a", coded "c")])];
     fm_sync_states :=
       [("vm:balancer_v2", SyncReady (header_at 6 "h6"));
        ("vm:curve", SyncReady (header_at 7 "h7"))] |}.

Definition demo_lagging : BroadcasterSnapshotCacheData :=
  (apply_feed_message [Native; Vm] lagging_feed demo_cache).2.

Definition account_codes (ps : btree BroadcasterBackend BroadcasterPartitionState) :
    list (string * option string) :=
  map (λ m, (pm_protocol m, option_map da_code (hm_get "a" (pm_storage m)))) (all_messages ps).

(** Every account is compared at its own block, so that the message is staged; merging it
    gives the account of block 6 to the protocol at block 7, which the third protocol then
    contradicts.  The commit fails and leaves the views different from one another. *)
Example commit_fails_half_merged :
  account_codes (cd_partitions demo_lagging) = [("vm:balancer_v2", None); ("vm:maverick_v2", Some "c")] ∧
  is_ok (stage_feed_message [Native; Vm] catching_up_feed demo_lagging) = true ∧
  let after := apply_feed_message [Native; Vm] catching_up_feed demo_lagging in
  is_ok after.1 = false ∧
  account_codes (cd_partitions after.2) =
    [("vm:balancer_v2", Some "d"); ("vm:curve", Some "c"); ("vm:maverick_v2", Some "d")].
Proof. by vm_compute. Qed.

Lemma demo_lagging_reachable : raw_reachable 1 [Native; Vm] false demo_lagging.
Proof. exists 7%N. apply rtc_once. apply RawFeed. right. intros [_ Hf]. by vm_compute in Hf. Qed.

(** Before the message the views agree; it fails, having merged a part of it. *)
Lemma raw_cache_consistent_witness :
  cache_all messages_ok demo_lagging ∧
  cache_all owned (apply_feed_message [Native; Vm] catching_up_feed demo_lagging).2 ∧
  ∃ ps, (apply_feed_message [Native; Vm] catching_up_feed demo_lagging).2 =
          set_partitions (λ _, ps) demo_lagging.
Proof.
  split; [|split].
  - exact (proj1 (proj2 (raw_cache_consistent 1 [Native; Vm] false demo_lagging
                           demo_lagging_reachable)) eq_refl).
  - refine (proj1 (raw_cache_consistent 1 [Native; Vm] true _ _)).
    exists 7%N. eapply rtc_l; [apply (RawFeed _ _ _ _ lagging_feed); by left|].
    apply rtc_once. apply RawFeed. by left.
  - assert (Hfailed : is_ok (apply_feed_message [Native; Vm] catching_up_feed demo_lagging).1 = false)
      by (vm_compute; reflexivity).
    assert (Hchanged : length (all_messages (cd_partitions
              (apply_feed_message [Native; Vm] catching_up_feed demo_lagging).2)) ≠
            length (all_messages (cd_partitions demo_lagging))) by (vm_compute; discriminate).
    destruct (apply_feed_message [Native; Vm] catching_up_feed demo_lagging) as [r d'] eqn:Hrun.
    pose proof (proj2 (proj2 (raw_cache_consistent 1 [Native; Vm] false demo_lagging
                  demo_lagging_reachable)) _ _ _ Hrun) as Hend.
    destruct r as [msg|error]; [discriminate Hfailed|].
    destruct Hend as [Heq|(_ & _ & Hps)]; [|exact Hps].
    exfalso. apply Hchanged. by rewrite Heq.
Defined.

(** ** A recovery *)

(** The native protocol comes first, the other one with the next message. *)
Definition recovery_feed_1 : FeedMessage :=
  {| fm_state_msgs := [("uniswap_v2", feed_message [] [("p1", 1%N)])];
     fm_sync_states := [("uniswap_v2", SyncReady header_7); ("vm:curve", SyncStarted)] |}.

Definition recovery_feed_2 : FeedMessage :=
  {| fm_state_msgs := [("vm:curve", feed_message [("a", account [])] [("p2", 2%N)])];
     fm_sync_states := [("vm:curve", SyncReady header_7); ("uniswap_v2", SyncReady header_7)] |}.

Definition demo_recovering : BroadcasterSnapshotCacheData :=
  (apply_feed_message [Native; Vm] recovery_feed_1
     (begin_same_generation_recovery 5 demo_cache)).2.

Lemma demo_recovering_reachable : raw_reachable 1 [Native; Vm] false demo_recovering.
Proof.
  exists 7%N. eapply rtc_l; [apply (RawRecovery _ _ _ _ 5)|]. apply rtc_once. apply RawFeed.
  right. intros [_ Hf]. by vm_compute in Hf.
Qed.

Lemma replacement_swapped_when_aligned_witness :
  ∃ staged pending d', stage_feed_message [Native; Vm] recovery_feed_2 demo_recovering = Ok staged ∧
    su_replacement_ready staged = true ∧ cd_replacement demo_recovering = Some pending ∧
    commit_staged_update staged demo_recovering = (Ok tt, d') ∧
    recovery_source staged =
      Ok {| rsrc_recovery_id := rp_id pending; rsrc_partitions := cd_partitions d' |} ∧
    ∃ n h, aligned (cd_partitions d') (expected_with recovery_feed_2 demo_recovering) n h.
Proof.
  assert (∃ staged, stage_feed_message [Native; Vm] recovery_feed_2 demo_recovering = Ok staged ∧
                    su_replacement_ready staged = true) as (staged & Hs & Hready).
  { eexists. split; [vm_compute; reflexivity|vm_compute; reflexivity]. }
  assert (∃ pending, cd_replacement demo_recovering = Some pending) as (pending & Hp)
    by (eexists; vm_compute; reflexivity).
  destruct (replacement_swapped_when_aligned 1 [Native; Vm] false demo_recovering recovery_feed_2
              staged pending demo_recovering_reachable Hp Hs) as (d' & Hc & _ & _ & Hend).
  rewrite Hready in Hend. destruct Hend as (Hsrc & _ & Hal).
  exists staged, pending, d'. split_and!; assumption.
Defined.
