(* ===== verification/RecoveryWork.v ===== *)
(** * Recovery publication of the broadcaster service

    [runtime/src/broadcaster/service.rs]: the feed handler and the workers that publish the
    replacement of a recovery.  They share the cache, which only the holder of the lifecycle
    gate changes, and the state of the recovery, which each of them changes in short
    sections under its lock.  An event is one such section with what follows it up to the
    next call or lock; what a call of the publisher returns, and the readings of the clock,
    come with the event. *)

From S2P Require Import Prelude Ordered Text Protocol.
From S2P Require Import Wire Validate Codec TychoFeed RedisEntry Replay Recovery Store.
From S2P Require Import Health Publisher.
From S2P Require Import Reassembly RawMessage SnapshotExport RawCompaction SharedAccounts.
From S2P Require Import SnapshotCache.

Definition RECOVERY_WARN_AFTER : Duration := from_secs 30.
Definition RECOVERY_ABORT_AFTER : Duration := from_secs 60.
Definition RECOVERY_MAX_LOCAL_FAILURES : N := 1.
Definition BROADCASTER_SNAPSHOT_ENVELOPE_MAX_BYTES : usize := 8388608.

Inductive RecoveryPublicationPhase := Idle | Building | Publishing | Draining | Fatal.

#[export] Instance RecoveryPublicationPhase_eq_dec : EqDecision RecoveryPublicationPhase.
Proof. solve_decision. Defined.

Definition RecoveryPublicationPhase_as_str (phase : RecoveryPublicationPhase) : string :=
  match phase with
  | Idle => "idle" | Building => "building" | Publishing => "publishing"
  | Draining => "draining" | Fatal => "fatal"
  end.

Definition is_active (phase : RecoveryPublicationPhase) : bool :=
  match phase with Building | Publishing | Draining => true | _ => false end.

Section service.
Context `{SyncFields} `{!TychoState} `{!SerdeJson} `{!ListJson}.
Context (chain_id : u64) (configured_backends : list BroadcasterBackend).
Context (recovery_max_buffered_native_blocks : usize).

Abbreviation Update := BroadcasterUpdateMessage.

(** [cancelled] is the number of a flag shared with the publisher and the monitors. *)
Record RecoveryPublicationState := {
  rv_work_id : u64;
  rv_phase : RecoveryPublicationPhase;
  rv_local_failures : N;
  rv_started_at : Instant;
  rv_warned : bool;
  rv_complete_native_blocks : gset u64;
  rv_buffer_a : list Update;
  rv_buffer_a_oldest_at : option Instant;
  rv_cancelled : N;
  rv_publisher_recovery_id : option string;
  rv_fatal_error : option string;
  rv_max_buffer_a_count : usize;
  rv_max_buffer_b_count : usize;
  rv_last_outcome : option string;
  rv_last_duration_ms : option u64;
  rv_last_encoded_bytes : option usize;
  rv_last_chunk_count : option usize;
}.

(** [started_at.elapsed().as_millis() as u64]. *)
Definition elapsed_ms (now : Instant) (r : RecoveryPublicationState) : u64 :=
  as_millis_u64 (saturating_duration_since now (rv_started_at r)).

(** ** Sections on the state of the recovery *)

Definition cancel_recovery_publication_locked (now : Instant) (r : RecoveryPublicationState) :
    RecoveryPublicationState :=
  let active := is_active (rv_phase r) in
  {| rv_work_id := saturating_add (rv_work_id r) 1; rv_phase := Idle;
     rv_local_failures := rv_local_failures r; rv_started_at := rv_started_at r;
     rv_warned := rv_warned r; rv_complete_native_blocks := ∅; rv_buffer_a := [];
     rv_buffer_a_oldest_at := None; rv_cancelled := rv_cancelled r;
     rv_publisher_recovery_id := None; rv_fatal_error := None;
     rv_max_buffer_a_count := rv_max_buffer_a_count r;
     rv_max_buffer_b_count := rv_max_buffer_b_count r;
     rv_last_outcome := if active then Some "aborted" else rv_last_outcome r;
     rv_last_duration_ms := if active then Some (elapsed_ms now r) else rv_last_duration_ms r;
     rv_last_encoded_bytes := rv_last_encoded_bytes r;
     rv_last_chunk_count := rv_last_chunk_count r |}.

(** The first section of [start_recovery_publication], with the new flag. *)
Definition start_recovery_locked (now : Instant) (flag : N) (r : RecoveryPublicationState) :
    RecoveryPublicationState :=
  {| rv_work_id := saturating_add (rv_work_id r) 1; rv_phase := Building;
     rv_local_failures := 0; rv_started_at := now; rv_warned := false;
     rv_complete_native_blocks := ∅; rv_buffer_a := []; rv_buffer_a_oldest_at := None;
     rv_cancelled := flag; rv_publisher_recovery_id := None; rv_fatal_error := None;
     rv_max_buffer_a_count := 0; rv_max_buffer_b_count := 0; rv_last_outcome := None;
     rv_last_duration_ms := None; rv_last_encoded_bytes := None;
     rv_last_chunk_count := None |}.

Definition prepare_recovery_retry_locked (now : Instant) (flag : N)
    (r : RecoveryPublicationState) : RecoveryPublicationState :=
  {| rv_work_id := rv_work_id r; rv_phase := Building;
     rv_local_failures := rv_local_failures r; rv_started_at := now; rv_warned := false;
     rv_complete_native_blocks := ∅; rv_buffer_a := []; rv_buffer_a_oldest_at := None;
     rv_cancelled := flag; rv_publisher_recovery_id := None;
     rv_fatal_error := rv_fatal_error r; rv_max_buffer_a_count := rv_max_buffer_a_count r;
     rv_max_buffer_b_count := rv_max_buffer_b_count r; rv_last_outcome := rv_last_outcome r;
     rv_last_duration_ms := rv_last_duration_ms r;
     rv_last_encoded_bytes := rv_last_encoded_bytes r;
     rv_last_chunk_count := rv_last_chunk_count r |}.

Definition set_phase (phase : RecoveryPublicationPhase) (r : RecoveryPublicationState) :
    RecoveryPublicationState :=
  {| rv_work_id := rv_work_id r; rv_phase := phase;
     rv_local_failures := rv_local_failures r; rv_started_at := rv_started_at r;
     rv_warned := rv_warned r; rv_complete_native_blocks := rv_complete_native_blocks r;
     rv_buffer_a := rv_buffer_a r; rv_buffer_a_oldest_at := rv_buffer_a_oldest_at r;
     rv_cancelled := rv_cancelled r; rv_publisher_recovery_id := rv_publisher_recovery_id r;
     rv_fatal_error := rv_fatal_error r; rv_max_buffer_a_count := rv_max_buffer_a_count r;
     rv_max_buffer_b_count := rv_max_buffer_b_count r; rv_last_outcome := rv_last_outcome r;
     rv_last_duration_ms := rv_last_duration_ms r;
     rv_last_encoded_bytes := rv_last_encoded_bytes r;
     rv_last_chunk_count := rv_last_chunk_count r |}.

Definition set_buffer (buffer : list Update) (oldest : option Instant)
    (r : RecoveryPublicationState) : RecoveryPublicationState :=
  {| rv_work_id := rv_work_id r; rv_phase := rv_phase r;
     rv_local_failures := rv_local_failures r; rv_started_at := rv_started_at r;
     rv_warned := rv_warned r; rv_complete_native_blocks := rv_complete_native_blocks r;
     rv_buffer_a := buffer; rv_buffer_a_oldest_at := oldest;
     rv_cancelled := rv_cancelled r; rv_publisher_recovery_id := rv_publisher_recovery_id r;
     rv_fatal_error := rv_fatal_error r; rv_max_buffer_a_count := rv_max_buffer_a_count r;
     rv_max_buffer_b_count := rv_max_buffer_b_count r; rv_last_outcome := rv_last_outcome r;
     rv_last_duration_ms := rv_last_duration_ms r;
     rv_last_encoded_bytes := rv_last_encoded_bytes r;
     rv_last_chunk_count := rv_last_chunk_count r |}.

Definition set_publisher_recovery_id (id : string) (r : RecoveryPublicationState) :
    RecoveryPublicationState :=
  {| rv_work_id := rv_work_id r; rv_phase := rv_phase r;
     rv_local_failures := rv_local_failures r; rv_started_at := rv_started_at r;
     rv_warned := rv_warned r; rv_complete_native_blocks := rv_complete_native_blocks r;
     rv_buffer_a := rv_buffer_a r; rv_buffer_a_oldest_at := rv_buffer_a_oldest_at r;
     rv_cancelled := rv_cancelled r; rv_publisher_recovery_id := Some id;
     rv_fatal_error := rv_fatal_error r; rv_max_buffer_a_count := rv_max_buffer_a_count r;
     rv_max_buffer_b_count := rv_max_buffer_b_count r; rv_last_outcome := rv_last_outcome r;
     rv_last_duration_ms := rv_last_duration_ms r;
     rv_last_encoded_bytes := rv_last_encoded_bytes r;
     rv_last_chunk_count := rv_last_chunk_count r |}.

(** What [buffer_recovery_update] notes of an update before it looks at the phase. *)
Definition note_update (now : Instant) (update : Update) (r : RecoveryPublicationState) :
    RecoveryPublicationState :=
  let spent := saturating_duration_since now (rv_started_at r) in
  {| rv_work_id := rv_work_id r; rv_phase := rv_phase r;
     rv_local_failures := rv_local_failures r; rv_started_at := rv_started_at r;
     rv_warned := rv_warned r || (RECOVERY_WARN_AFTER <=? spent)%N;
     rv_complete_native_blocks :=
       match BroadcasterUpdateMessage_complete_native_block update with
       | Some block_number => {[ block_number ]} ∪ rv_complete_native_blocks r
       | None => rv_complete_native_blocks r
       end;
     rv_buffer_a := rv_buffer_a r; rv_buffer_a_oldest_at := rv_buffer_a_oldest_at r;
     rv_cancelled := rv_cancelled r; rv_publisher_recovery_id := rv_publisher_recovery_id r;
     rv_fatal_error := rv_fatal_error r; rv_max_buffer_a_count := rv_max_buffer_a_count r;
     rv_max_buffer_b_count := rv_max_buffer_b_count r; rv_last_outcome := rv_last_outcome r;
     rv_last_duration_ms := rv_last_duration_ms r;
     rv_last_encoded_bytes := rv_last_encoded_bytes r;
     rv_last_chunk_count := rv_last_chunk_count r |}.

(** Whether the bounds of the recovery are exceeded. *)
Definition out_of_bounds (now : Instant) (r : RecoveryPublicationState) : bool :=
  (RECOVERY_ABORT_AFTER <=? saturating_duration_since now (rv_started_at r))%N
  || (recovery_max_buffered_native_blocks <=? N.of_nat (size (rv_complete_native_blocks r)))%N.

Definition push_buffer_a (now : Instant) (update : Update) (r : RecoveryPublicationState) :
    RecoveryPublicationState :=
  let buffer := rv_buffer_a r ++ [update] in
  {| rv_work_id := rv_work_id r; rv_phase := rv_phase r;
     rv_local_failures := rv_local_failures r; rv_started_at := rv_started_at r;
     rv_warned := rv_warned r; rv_complete_native_blocks := rv_complete_native_blocks r;
     rv_buffer_a := buffer;
     rv_buffer_a_oldest_at := Some (default now (rv_buffer_a_oldest_at r));
     rv_cancelled := rv_cancelled r; rv_publisher_recovery_id := rv_publisher_recovery_id r;
     rv_fatal_error := rv_fatal_error r;
     rv_max_buffer_a_count := N.max (rv_max_buffer_a_count r) (len buffer);
     rv_max_buffer_b_count := rv_max_buffer_b_count r; rv_last_outcome := rv_last_outcome r;
     rv_last_duration_ms := rv_last_duration_ms r;
     rv_last_encoded_bytes := rv_last_encoded_bytes r;
     rv_last_chunk_count := rv_last_chunk_count r |}.

(** Whether an update goes to Buffer A, with the flag it raises. *)
Definition buffer_recovery_update (now : Instant) (update : Update)
    (r : RecoveryPublicationState) : anyhow (bool * RecoveryPublicationState * option N) :=
  match rv_phase r with
  | Fatal =>
      anyhow_bail ("broadcaster recovery worker terminated: "
                     +:+ default "unknown recovery failure" (rv_fatal_error r))
  | Idle => Ok (false, r, None)
  | phase =>
      let r := note_update now update r in
      let flag := if out_of_bounds now r then Some (rv_cancelled r) else None in
      match phase with
      | Building => Ok (true, push_buffer_a now update r, flag)
      | _ => Ok (false, r, flag)
      end
  end.

(** [phase = Fatal] with its error. *)
Definition set_fatal (reason : string) (outcome : option string) (duration_ms : option u64)
    (r : RecoveryPublicationState) : RecoveryPublicationState :=
  {| rv_work_id := rv_work_id r; rv_phase := Fatal;
     rv_local_failures := rv_local_failures r; rv_started_at := rv_started_at r;
     rv_warned := rv_warned r; rv_complete_native_blocks := rv_complete_native_blocks r;
     rv_buffer_a := rv_buffer_a r; rv_buffer_a_oldest_at := rv_buffer_a_oldest_at r;
     rv_cancelled := rv_cancelled r; rv_publisher_recovery_id := rv_publisher_recovery_id r;
     rv_fatal_error := Some reason; rv_max_buffer_a_count := rv_max_buffer_a_count r;
     rv_max_buffer_b_count := rv_max_buffer_b_count r;
     rv_last_outcome := outcome; rv_last_duration_ms := duration_ms;
     rv_last_encoded_bytes := rv_last_encoded_bytes r;
     rv_last_chunk_count := rv_last_chunk_count r |}.

Definition count_local_failure (r : RecoveryPublicationState) : RecoveryPublicationState :=
  {| rv_work_id := rv_work_id r; rv_phase := rv_phase r;
     rv_local_failures := N.min (rv_local_failures r + 1) 255;
     rv_started_at := rv_started_at r; rv_warned := rv_warned r;
     rv_complete_native_blocks := rv_complete_native_blocks r;
     rv_buffer_a := rv_buffer_a r; rv_buffer_a_oldest_at := rv_buffer_a_oldest_at r;
     rv_cancelled := rv_cancelled r; rv_publisher_recovery_id := rv_publisher_recovery_id r;
     rv_fatal_error := rv_fatal_error r; rv_max_buffer_a_count := rv_max_buffer_a_count r;
     rv_max_buffer_b_count := rv_max_buffer_b_count r; rv_last_outcome := rv_last_outcome r;
     rv_last_duration_ms := rv_last_duration_ms r;
     rv_last_encoded_bytes := rv_last_encoded_bytes r;
     rv_last_chunk_count := rv_last_chunk_count r |}.

(** The section between a committed transaction and the end of the recovery. *)
Definition note_publication (publication : BroadcasterRecoveryPublication)
    (r : RecoveryPublicationState) : RecoveryPublicationState :=
  {| rv_work_id := rv_work_id r; rv_phase := Draining;
     rv_local_failures := rv_local_failures r; rv_started_at := rv_started_at r;
     rv_warned := rv_warned r; rv_complete_native_blocks := rv_complete_native_blocks r;
     rv_buffer_a := rv_buffer_a r; rv_buffer_a_oldest_at := rv_buffer_a_oldest_at r;
     rv_cancelled := rv_cancelled r; rv_publisher_recovery_id := rv_publisher_recovery_id r;
     rv_fatal_error := rv_fatal_error r; rv_max_buffer_a_count := rv_max_buffer_a_count r;
     rv_max_buffer_b_count := rv_max_buffer_b_count r; rv_last_outcome := rv_last_outcome r;
     rv_last_duration_ms := rv_last_duration_ms r;
     rv_last_encoded_bytes := Some (pub_encoded_bytes publication);
     rv_last_chunk_count := Some (pub_chunk_count publication) |}.

Definition finish_recovery_locked (now : Instant) (publisher_max_buffer_count : usize)
    (r : RecoveryPublicationState) : RecoveryPublicationState :=
  {| rv_work_id := rv_work_id r; rv_phase := Idle;
     rv_local_failures := rv_local_failures r; rv_started_at := rv_started_at r;
     rv_warned := rv_warned r; rv_complete_native_blocks := ∅;
     rv_buffer_a := rv_buffer_a r; rv_buffer_a_oldest_at := rv_buffer_a_oldest_at r;
     rv_cancelled := rv_cancelled r; rv_publisher_recovery_id := None;
     rv_fatal_error := rv_fatal_error r; rv_max_buffer_a_count := rv_max_buffer_a_count r;
     rv_max_buffer_b_count := N.max (rv_max_buffer_b_count r) publisher_max_buffer_count;
     rv_last_outcome := Some "committed"; rv_last_duration_ms := Some (elapsed_ms now r);
     rv_last_encoded_bytes := rv_last_encoded_bytes r;
     rv_last_chunk_count := rv_last_chunk_count r |}.

(** ** The service *)

(** Calls of the publisher, as history. *)
Inductive PublisherCall :=
| CallBeginRecovery (cancelled : N)
| CallPublishUpdate (update : Update)
| CallPublishRecovery (source : BroadcasterRecoverySource)
    (transaction : BroadcasterRecoveryTransaction) (cancelled : N)
| CallSelfFence (reason : string)
| CallPauseFeeds.

(** Where the feed handler is: between two messages, at the gate with one, before a commit,
    in a call that publishes an update, or in the reservation of a recovery it starts.  From
    the commit on it holds the gate. *)
Inductive FeedTask :=
| FeedIdle
| FeedWaiting (feed : FeedMessage)
| FeedCommit (staged : BroadcasterStagedUpdate)
| FeedPublish (staged : BroadcasterStagedUpdate) (native_progress : option u64)
| FeedStarting (work_id : u64) (source : BroadcasterRecoverySource).

(** Where a worker is: in the serialisation of its source, in [publish_recovery], before the
    end of a committed recovery, asleep before a retry, in the reservation of a retry, which
    it makes holding the gate, or in the loop of [handle_external_recovery_failure], before
    or after it has looked at the flag. *)
Inductive WorkerTask :=
| Serializing (source : BroadcasterRecoverySource)
| InPublication (source : BroadcasterRecoverySource)
    (transaction : BroadcasterRecoveryTransaction)
| Finishing (replacement_complete_native_block : option u64)
| Retrying (retry_id : u64)
| Capturing (source : BroadcasterRecoverySource)
| WaitingExternally
| InModeCheck.

Record Service := {
  sv_cache : BroadcasterSnapshotCacheData;
  sv_upstream : BroadcasterUpstreamStateData;
  sv_recovery : RecoveryPublicationState;
  sv_flags : gmap N bool;
  sv_next_flag : N;
  sv_next_recovery_source_id : u64;
  sv_feed : FeedTask;
  sv_workers : list (u64 * WorkerTask);
  sv_calls : list PublisherCall;
}.

Definition with_cache (f : BroadcasterSnapshotCacheData → BroadcasterSnapshotCacheData)
    (s : Service) : Service :=
  {| sv_cache := f (sv_cache s); sv_upstream := sv_upstream s; sv_recovery := sv_recovery s;
     sv_flags := sv_flags s; sv_next_flag := sv_next_flag s;
     sv_next_recovery_source_id := sv_next_recovery_source_id s; sv_feed := sv_feed s;
     sv_workers := sv_workers s; sv_calls := sv_calls s |}.
Definition with_upstream (f : BroadcasterUpstreamStateData → BroadcasterUpstreamStateData)
    (s : Service) : Service :=
  {| sv_cache := sv_cache s; sv_upstream := f (sv_upstream s); sv_recovery := sv_recovery s;
     sv_flags := sv_flags s; sv_next_flag := sv_next_flag s;
     sv_next_recovery_source_id := sv_next_recovery_source_id s; sv_feed := sv_feed s;
     sv_workers := sv_workers s; sv_calls := sv_calls s |}.
Definition with_recovery (f : RecoveryPublicationState → RecoveryPublicationState)
    (s : Service) : Service :=
  {| sv_cache := sv_cache s; sv_upstream := sv_upstream s; sv_recovery := f (sv_recovery s);
     sv_flags := sv_flags s; sv_next_flag := sv_next_flag s;
     sv_next_recovery_source_id := sv_next_recovery_source_id s; sv_feed := sv_feed s;
     sv_workers := sv_workers s; sv_calls := sv_calls s |}.
Definition raise (flag : N) (s : Service) : Service :=
  {| sv_cache := sv_cache s; sv_upstream := sv_upstream s; sv_recovery := sv_recovery s;
     sv_flags := <[flag := true]> (sv_flags s); sv_next_flag := sv_next_flag s;
     sv_next_recovery_source_id := sv_next_recovery_source_id s; sv_feed := sv_feed s;
     sv_workers := sv_workers s; sv_calls := sv_calls s |}.
(** [Arc::new(AtomicBool::new(false))]. *)
Definition take_flag (s : Service) : Service :=
  {| sv_cache := sv_cache s; sv_upstream := sv_upstream s; sv_recovery := sv_recovery s;
     sv_flags := sv_flags s; sv_next_flag := sv_next_flag s + 1;
     sv_next_recovery_source_id := sv_next_recovery_source_id s; sv_feed := sv_feed s;
     sv_workers := sv_workers s; sv_calls := sv_calls s |}.
(** [next_recovery_source_id.fetch_add(1)]. *)
Definition take_source_id (s : Service) : Service :=
  {| sv_cache := sv_cache s; sv_upstream := sv_upstream s; sv_recovery := sv_recovery s;
     sv_flags := sv_flags s; sv_next_flag := sv_next_flag s;
     sv_next_recovery_source_id := ((sv_next_recovery_source_id s + 1) mod 2 ^ 64)%N;
     sv_feed := sv_feed s; sv_workers := sv_workers s; sv_calls := sv_calls s |}.
Definition with_feed (feed : FeedTask) (s : Service) : Service :=
  {| sv_cache := sv_cache s; sv_upstream := sv_upstream s; sv_recovery := sv_recovery s;
     sv_flags := sv_flags s; sv_next_flag := sv_next_flag s;
     sv_next_recovery_source_id := sv_next_recovery_source_id s; sv_feed := feed;
     sv_workers := sv_workers s; sv_calls := sv_calls s |}.
Definition with_workers (f : list (u64 * WorkerTask) → list (u64 * WorkerTask)) (s : Service) :
    Service :=
  {| sv_cache := sv_cache s; sv_upstream := sv_upstream s; sv_recovery := sv_recovery s;
     sv_flags := sv_flags s; sv_next_flag := sv_next_flag s;
     sv_next_recovery_source_id := sv_next_recovery_source_id s; sv_feed := sv_feed s;
     sv_workers := f (sv_workers s); sv_calls := sv_calls s |}.
Definition with_call (call : PublisherCall) (s : Service) : Service :=
  {| sv_cache := sv_cache s; sv_upstream := sv_upstream s; sv_recovery := sv_recovery s;
     sv_flags := sv_flags s; sv_next_flag := sv_next_flag s;
     sv_next_recovery_source_id := sv_next_recovery_source_id s; sv_feed := sv_feed s;
     sv_workers := sv_workers s; sv_calls := sv_calls s ++ [call] |}.

Definition recovery_state_default (now : Instant) : RecoveryPublicationState :=
  {| rv_work_id := 0; rv_phase := Idle; rv_local_failures := 0; rv_started_at := now;
     rv_warned := false; rv_complete_native_blocks := ∅; rv_buffer_a := [];
     rv_buffer_a_oldest_at := None; rv_cancelled := 0; rv_publisher_recovery_id := None;
     rv_fatal_error := None; rv_max_buffer_a_count := 0; rv_max_buffer_b_count := 0;
     rv_last_outcome := None; rv_last_duration_ms := None; rv_last_encoded_bytes := None;
     rv_last_chunk_count := None |}.

Definition service_new (now : Instant) (generation : u64) : Service :=
  {| sv_cache := new_with_initial_generation chain_id generation;
     sv_upstream := upstream_default; sv_recovery := recovery_state_default now;
     sv_flags := ∅; sv_next_flag := 1; sv_next_recovery_source_id := 1; sv_feed := FeedIdle;
     sv_workers := []; sv_calls := [] |}.

(** Whether a worker holds the gate. *)
Definition worker_holds_gate (w : u64 * WorkerTask) : bool :=
  match w.2 with Capturing _ => true | _ => false end.

Definition gate_is_free (s : Service) : bool :=
  match sv_feed s with
  | FeedIdle | FeedWaiting _ => negb (existsb worker_holds_gate (sv_workers s))
  | _ => false
  end.

(** ** The feed handler *)

(** [commit_staged_update]. *)
Definition commit (staged : BroadcasterStagedUpdate) (s : Service) : bool * Service :=
  let '(r, cache) := commit_staged_update staged (sv_cache s) in
  (match r with Ok _ => true | Err _ => false end, with_cache (λ _, cache) s).

(** The first section of [start_recovery_publication] and the call after it. *)
Definition start_recovery (now : Instant) (source : BroadcasterRecoverySource) (s : Service) :
    Service :=
  let flag := sv_next_flag s in
  let s := take_flag (raise (rv_cancelled (sv_recovery s)) s) in
  let s := with_recovery (start_recovery_locked now flag) s in
  with_feed (FeedStarting (rv_work_id (sv_recovery s)) source)
    (with_call (CallBeginRecovery flag) s).

(** [native_progress] of a staged update. *)
Definition staged_progress (staged : BroadcasterStagedUpdate) : option u64 :=
  if su_replacement_ready staged then None
  else su_message staged ≫= BroadcasterUpdateMessage_complete_native_block.

(** [recovery_fatal_error] *)
Definition recovery_fatal_error (r : RecoveryPublicationState) : option string :=
  match rv_phase r with Fatal => rv_fatal_error r | _ => None end.

(** [apply_feed_message_with_progress] up to the gate; [paused] is what the publisher says of
    its feeds. *)
Definition feed_arrives (paused : bool) (feed : FeedMessage) (s : Service) : option Service :=
  match sv_feed s with
  | FeedIdle =>
      if paused then Some s
      else match recovery_fatal_error (sv_recovery s) with
           | Some _ => Some s
           | None => Some (with_feed (FeedWaiting feed) s)
           end
  | _ => None
  end.

(** From the gate to the first commit or call; [None] when the gate is taken. *)
Definition feed_enters (now : Instant) (s : Service) : option Service :=
  match sv_feed s with
  | FeedWaiting feed =>
      if negb (gate_is_free s) then None
      else
        let s := with_feed FeedIdle s in
        match stage_feed_message configured_backends feed (sv_cache s) with
        | Err _ => Some s
        | Ok staged =>
            if su_replacement_ready staged then
              match recovery_source staged with
              | Err _ => Some s
              | Ok source =>
                  let '(committed, s) := commit staged s in
                  Some (if (committed : bool) then start_recovery now source s else s)
              end
            else
              match su_message staged with
              | None => Some (commit staged s).2
              | Some update =>
                  match buffer_recovery_update now update (sv_recovery s) with
                  | Err _ => Some s
                  | Ok (buffered, recovery, flag) =>
                      let s := with_recovery (λ _, recovery) s in
                      let s := match flag with Some flag => raise flag s | None => s end in
                      Some (if (buffered : bool) then with_feed (FeedCommit staged) s
                            else with_feed (FeedPublish staged (staged_progress staged))
                                   (with_call (CallPublishUpdate update) s))
                  end
              end
        end
  | _ => None
  end.

(** The commit of a buffered update, and the end of the handler. *)
Definition feed_commits (s : Service) : option Service :=
  match sv_feed s with
  | FeedCommit staged => Some (with_feed FeedIdle (commit staged s).2)
  | _ => None
  end.

(** What follows the reply to an update that was published. *)
Definition feed_published (now : Instant) (reply : anyhow unit) (s : Service) : option Service :=
  match sv_feed s with
  | FeedPublish staged native_progress =>
      Some (with_feed FeedIdle
        match reply with
        | Ok _ =>
            let '(committed, s) := commit staged s in
            match native_progress with
            | Some block =>
                if (committed : bool) then with_upstream (λ u, (record_native_progress now block u).2) s
                else s
            | None => s
            end
        | Err error =>
            match error_root error with
            | OversizedRedisEntry _ _ _ =>
                let '(committed, s) := commit staged s in
                if (committed : bool)
                then with_cache (begin_same_generation_recovery_from_current now) s else s
            | _ => s
            end
        end)
  | _ => None
  end.

(** The reservation of a recovery is made: its worker starts. *)
Definition feed_reserved (recovery_id : string) (s : Service) : option Service :=
  match sv_feed s with
  | FeedStarting work_id source =>
      let r := sv_recovery s in
      let s := with_feed FeedIdle s in
      if negb ((rv_work_id r =? work_id)%N && bool_decide (rv_phase r = Building)) then Some s
      else
        Some (with_workers (λ ws, ws ++ [(work_id, Serializing source)])
                (with_recovery (set_publisher_recovery_id recovery_id) s))
  | _ => None
  end.

(** [mark_stream_disconnected]. *)
Definition stream_disconnects (now : Instant) (reason : string) (last_error : option string)
    (s : Service) : option Service :=
  if negb (gate_is_free s) then None
  else
    let s := with_recovery (cancel_recovery_publication_locked now)
               (raise (rv_cancelled (sv_recovery s)) s) in
    let s := with_upstream (mark_disconnected reason last_error) s in
    Some (with_cache
            (if existsb (λ b, negb (bool_decide (b = Rfq))) configured_backends
             then begin_same_generation_recovery now else reset_same_generation) s).

(** A new generation, under the gate: a promotion, or the recovery of the writer. *)
Definition relabelled (generation : u64) (s : Service) : option Service :=
  if gate_is_free s then Some (with_cache (relabel_generation chain_id generation) s) else None.

(** ** The workers *)

Definition set_worker (i : nat) (work_id : u64) (task : WorkerTask) : Service → Service :=
  with_workers <[i := (work_id, task)]>.
Definition end_worker (i : nat) : Service → Service := with_workers (delete i).

(** [recovery.work_id == work_id] *)
Definition is_current (work_id : u64) (s : Service) : bool :=
  (rv_work_id (sv_recovery s) =? work_id)%N.
Definition is_building (work_id : u64) (s : Service) : bool :=
  is_current work_id s && bool_decide (rv_phase (sv_recovery s) = Building).

Definition cancelled (s : Service) : bool :=
  default false (sv_flags s !! rv_cancelled (sv_recovery s)).

(** [handle_recovery_worker_termination] *)
Definition handle_recovery_worker_termination (work_id : u64) (reason : string) (s : Service) :
    Service :=
  let r := sv_recovery s in
  if negb (is_current work_id s) || negb (is_active (rv_phase r)) then s
  else
    let s := raise (rv_cancelled r) s in
    let s := with_recovery (set_fatal reason (Some "failed") (rv_last_duration_ms r)) s in
    let s := with_call (CallSelfFence ("broadcaster recovery worker terminated: " +:+ reason)) s in
    with_upstream (mark_disconnected "recovery_worker_terminated" (Some reason)) s.

(** [prepare_recovery_retry_locked], and the wait for the gate. *)
Definition prepare_retry (now : Instant) (i : nat) (work_id : u64) (s : Service) : Service :=
  let retry_id := sv_next_recovery_source_id s in
  let flag := sv_next_flag s in
  set_worker i work_id (Retrying retry_id)
    (with_recovery (prepare_recovery_retry_locked now flag) (take_source_id (take_flag s))).

Definition handle_local_recovery_failure (now : Instant) (i : nat) (work_id : u64)
    (reason : string) (s : Service) : Service :=
  let r := sv_recovery s in
  if negb (is_current work_id s) then end_worker i s
  else if (RECOVERY_MAX_LOCAL_FAILURES <=? rv_local_failures r)%N then
    let s := raise (rv_cancelled r) s in
    let s := with_recovery (set_fatal reason (Some "failed") (Some (elapsed_ms now r))) s in
    let s := with_call (CallSelfFence
      ("broadcaster recovery self-fenced after its superseding attempt failed: " +:+ reason)) s in
    end_worker i (with_upstream (mark_disconnected "recovery_self_fenced" (Some reason)) s)
  else prepare_retry now i work_id (with_recovery count_local_failure s).

(** The serialisation is done; [join_error] when its thread died. *)
Definition serialized (now : Instant) (i : nat) (work_id : u64)
    (source : BroadcasterRecoverySource) (join_error : option string) (s : Service) : Service :=
  match join_error with
  | Some error =>
      handle_local_recovery_failure now i work_id
        ("recovery serialization worker failed: " +:+ error) s
  | None =>
      match serialize_recovery_source chain_id configured_backends source
              BROADCASTER_SNAPSHOT_ENVELOPE_MAX_BYTES with
      | Err error =>
          handle_local_recovery_failure now i work_id
            ("failed to serialize recovery replacement: " +:+ error_chain error) s
      | Ok replacement_json =>
          if negb (is_building work_id s) then end_worker i s
          else if cancelled s then
            handle_local_recovery_failure now i work_id
              "recovery exceeded its Buffer A bounds before publication" s
          else
            let r := sv_recovery s in
            let s := with_recovery (λ r, set_buffer [] None (set_phase Publishing r)) s in
            match rv_publisher_recovery_id r with
            | None =>
                end_worker i
                  (handle_recovery_worker_termination work_id
                     "recovery publication has no publisher reservation" s)
            | Some recovery_id =>
                let transaction :=
                  {| tx_recovery_id := recovery_id; tx_backends := configured_backends;
                     tx_replacement_json := replacement_json; tx_buffer_a := rv_buffer_a r |} in
                set_worker i work_id (InPublication source transaction)
                  (with_call (CallPublishRecovery source transaction (rv_cancelled r)) s)
            end
      end
  end.

(** [publish_recovery] has returned. *)
Definition publication_returned (now : Instant) (i : nat) (work_id : u64)
    (source : BroadcasterRecoverySource) (reply : anyhow BroadcasterRecoveryPublication)
    (s : Service) : Service :=
  match reply with
  | Err error =>
      match error_root error with
      | RecoveryPublicationCancelled | OversizedRedisEntry _ _ _ =>
          handle_local_recovery_failure now i work_id (error_chain error) s
      | RecoveryCommitAdoptionUncertain _ =>
          end_worker i (handle_recovery_worker_termination work_id (error_chain error) s)
      | _ => set_worker i work_id WaitingExternally s
      end
  | Ok publication =>
      if negb (is_current work_id s) then end_worker i s
      else
        set_worker i work_id (Finishing (source_complete_native_block source))
          (with_recovery (note_publication publication) s)
  end.

(** [finish_recovery_publication], once it knows how many payloads the publisher held back. *)
Definition publication_finished (now : Instant) (i : nat) (work_id : u64)
    (replacement_complete_native_block : option u64) (publisher_max_buffer_count : usize)
    (s : Service) : Service :=
  let r := sv_recovery s in
  let s := end_worker i s in
  if negb (is_current work_id s && bool_decide (rv_phase r = Draining)) then s
  else
    let complete_native_block :=
      list_max (elements (rv_complete_native_blocks r)
                  ++ option_list replacement_complete_native_block) in
    let s := with_recovery (finish_recovery_locked now publisher_max_buffer_count) s in
    match complete_native_block with
    | Some block => with_upstream (λ u, (record_native_progress now block u).2) s
    | None => s
    end.

(** [capture_retry_source] up to the reservation; [None] when the gate is taken. *)
Definition retry_captured (i : nat) (work_id : u64) (retry_id : u64) (s : Service) :
    option Service :=
  if negb (gate_is_free s) then None
  else if negb (is_building work_id s) then Some (end_worker i s)
  else
    let source := pin_recovery_source retry_id (sv_cache s) in
    let s := with_recovery (set_buffer [] None) s in
    Some (set_worker i work_id (Capturing source)
            (with_call (CallBeginRecovery (rv_cancelled (sv_recovery s))) s)).

Definition retry_reserved (i : nat) (work_id : u64) (source : BroadcasterRecoverySource)
    (recovery_id : string) (s : Service) : Service :=
  if negb (is_building work_id s) then end_worker i s
  else
    set_worker i work_id (Serializing source)
      (with_recovery (set_publisher_recovery_id recovery_id) s).

(** The turn of the loop of [handle_external_recovery_failure] that looks at the flag. *)
Definition external_turn (now : Instant) (i : nat) (work_id : u64) (s : Service) : Service :=
  if negb (is_current work_id s) then end_worker i s
  else if cancelled s then
    let s := with_recovery (cancel_recovery_publication_locked now)
               (raise (rv_cancelled (sv_recovery s)) s) in
    end_worker i (with_call CallPauseFeeds s)
  else set_worker i work_id InModeCheck s.

Definition fence_lost_error : string := "active Redis writer fence was lost during recovery".

(** The publisher's mode, and whether the lease was renewed. *)
Definition mode_checked (now : Instant) (i : nat) (work_id : u64)
    (mode : BroadcasterRedisPublisherMode) (renewed : bool) (s : Service) : Service :=
  match mode with
  | Retired =>
      let r := sv_recovery s in
      let s := if is_current work_id s
               then with_recovery (set_fatal fence_lost_error (rv_last_outcome r)
                                     (rv_last_duration_ms r)) s
               else s in
      end_worker i
        (with_upstream (mark_disconnected "writer_fence_lost" (Some fence_lost_error)) s)
  | Passive => set_worker i work_id WaitingExternally s
  | Active | Unhealthy =>
      if (renewed : bool) then
        if negb (is_current work_id s) then end_worker i s else prepare_retry now i work_id s
      else set_worker i work_id WaitingExternally s
  end.

(** ** Events *)

Inductive WorkerReply :=
| SerializeJoined (join_error : option string)
| PublicationReply (reply : anyhow BroadcasterRecoveryPublication)
| BufferStats (publisher_max_buffer_count : usize)
| GateAcquired
| ReservationReply (recovery_id : string)
| LoopTurn
| ModeReply (mode : BroadcasterRedisPublisherMode) (renewed : bool)
| WorkerPanicked.

Definition worker_replies (now : Instant) (i : nat) (reply : WorkerReply) (s : Service) :
    option Service :=
  '(work_id, task) ← sv_workers s !! i;
  match task, reply with
  | Serializing source, SerializeJoined join_error =>
      Some (serialized now i work_id source join_error s)
  | InPublication source _, PublicationReply reply =>
      Some (publication_returned now i work_id source reply s)
  | Finishing block, BufferStats count => Some (publication_finished now i work_id block count s)
  | Retrying retry_id, GateAcquired => retry_captured i work_id retry_id s
  | Capturing source, ReservationReply recovery_id =>
      Some (retry_reserved i work_id source recovery_id s)
  | WaitingExternally, LoopTurn => Some (external_turn now i work_id s)
  | InModeCheck, ModeReply mode renewed => Some (mode_checked now i work_id mode renewed s)
  | _, WorkerPanicked =>
      Some (end_worker i (handle_recovery_worker_termination work_id "recovery worker panicked" s))
  | _, _ => None
  end.

Definition set_warned (r : RecoveryPublicationState) : RecoveryPublicationState :=
  {| rv_work_id := rv_work_id r; rv_phase := rv_phase r;
     rv_local_failures := rv_local_failures r; rv_started_at := rv_started_at r;
     rv_warned := true; rv_complete_native_blocks := rv_complete_native_blocks r;
     rv_buffer_a := rv_buffer_a r; rv_buffer_a_oldest_at := rv_buffer_a_oldest_at r;
     rv_cancelled := rv_cancelled r; rv_publisher_recovery_id := rv_publisher_recovery_id r;
     rv_fatal_error := rv_fatal_error r; rv_max_buffer_a_count := rv_max_buffer_a_count r;
     rv_max_buffer_b_count := rv_max_buffer_b_count r; rv_last_outcome := rv_last_outcome r;
     rv_last_duration_ms := rv_last_duration_ms r;
     rv_last_encoded_bytes := rv_last_encoded_bytes r;
     rv_last_chunk_count := rv_last_chunk_count r |}.

(** The monitor of [spawn_recovery_bounds_monitor] after its first and its second sleep. *)
Definition monitor_wakes (abort : bool) (work_id : u64) (flag : N) (s : Service) : Service :=
  let r := sv_recovery s in
  if is_current work_id s && is_active (rv_phase r) && (rv_cancelled r =? flag)%N
  then if abort then raise flag s else with_recovery set_warned s
  else s.

Inductive Event :=
| FeedArrives (paused : bool) (feed : FeedMessage)
| FeedEnters (now : Instant)
| FeedCommits
| FeedPublished (now : Instant) (reply : anyhow unit)
| FeedReserved (recovery_id : string)
| StreamDisconnects (now : Instant) (reason : string) (last_error : option string)
| WorkerReplies (now : Instant) (i : nat) (reply : WorkerReply)
| Relabelled (generation : u64)
| MonitorWakes (abort : bool) (work_id : u64) (flag : N)
| PublisherRaises (flag : N).

(** The service after an event, [None] where the event cannot happen. *)
Definition step (e : Event) (s : Service) : option Service :=
  match e with
  | FeedArrives paused feed => feed_arrives paused feed s
  | FeedEnters now => feed_enters now s
  | FeedCommits => feed_commits s
  | FeedPublished now reply => feed_published now reply s
  | FeedReserved recovery_id => feed_reserved recovery_id s
  | StreamDisconnects now reason last_error => stream_disconnects now reason last_error s
  | WorkerReplies now i reply => worker_replies now i reply s
  | Relabelled generation => relabelled generation s
  | MonitorWakes abort work_id flag => Some (monitor_wakes abort work_id flag s)
  | PublisherRaises flag => Some (raise flag s)
  end.

(** A service after a run of events. *)
Inductive reaches (now : Instant) (generation : u64) : Service → Prop :=
| ReachesNew : reaches now generation (service_new now generation)
| ReachesStep e s s' : reaches now generation s → step e s = Some s' → reaches now generation s'.

Definition run (es : list Event) (s : Service) : option Service :=
  foldl (λ s e, s ← s; step e s) (Some s) es.
End service.
