(* ===== verification/RecoveryFacts.v ===== *)
(** * The recovery publication

    Runs of the service: every active recovery has one owner, a failed one stops the feed,
    and a transaction holds what its replacement and its buffered updates need to rebuild the
    cache. *)

From S2P Require Import Prelude Ordered Text Protocol.
From S2P Require Import Wire Validate Codec TychoFeed RedisEntry Replay Recovery Store StorePools.
From S2P Require Import Health Publisher.
From S2P Require Import Reassembly RawMessage SnapshotExport RawCompaction SharedAccounts.
From S2P Require Import SnapshotCache RecoveryWork.

Section facts.
Context `{SyncFields} `{!TychoState} `{!SerdeJson} `{!ListJson}.
Context (chain_id : u64) (configured_backends : list BroadcasterBackend).
Context (recovery_max_buffered_native_blocks : usize).

Abbreviation partitions := (btree BroadcasterBackend BroadcasterPartitionState).
Abbreviation step := (step chain_id configured_backends recovery_max_buffered_native_blocks).
Abbreviation reaches := (reaches chain_id configured_backends recovery_max_buffered_native_blocks).

(** ** What a transaction rebuilds *)

(** The partitions after the updates are applied, as the cache applies them. *)
Definition replayed (source : BroadcasterRecoverySource)
    (updates : list BroadcasterUpdateMessage) : partitions :=
  foldl (λ ps update, (apply_raw_update_message update ps).2) (rsrc_partitions source) updates.

(** The partitions of the cache once the commit under way is done. *)
Definition settled (s : Service) : partitions :=
  match sv_feed s with
  | FeedCommit staged => cd_partitions (sv_cache (commit staged s).2)
  | _ => cd_partitions (sv_cache s)
  end.

(** ** Owners of a recovery *)

(** The feed handler does not hold the gate. *)
Definition at_rest (feed : FeedTask) : bool :=
  match feed with FeedIdle | FeedWaiting _ => true | _ => false end.

Definition in_publish (feed : FeedTask) : bool :=
  match feed with FeedPublish _ _ => true | _ => false end.

(** The state of the recovery of a worker, by where the worker is. *)
Definition task_ok (s : Service) (task : WorkerTask) : Prop :=
  let r := sv_recovery s in
  match task with
  | Serializing source =>
      rv_phase r = Building ∧ in_publish (sv_feed s) = false
      ∧ replayed source (rv_buffer_a r) = settled s
  | Capturing source =>
      rv_phase r = Building ∧ rv_buffer_a r = []
      ∧ rsrc_partitions source = cd_partitions (sv_cache s)
  | Retrying _ => rv_phase r = Building
  | InPublication _ _ | WaitingExternally | InModeCheck => rv_phase r = Publishing
  | Finishing _ => rv_phase r = Draining
  end.

(** The same of a feed handler that starts a recovery. *)
Definition starting_ok (s : Service) : Prop :=
  match sv_feed s with
  | FeedStarting work_id source =>
      (work_id ≤ rv_work_id (sv_recovery s))%N ∧ work_id ∉ (sv_workers s).*1
      ∧ (work_id = rv_work_id (sv_recovery s) →
         rv_phase (sv_recovery s) = Building ∧ rv_buffer_a (sv_recovery s) = []
         ∧ rsrc_partitions source = cd_partitions (sv_cache s))
  | _ => True
  end.

(** The identity of the work the feed handler starts. *)
Definition starting (feed : FeedTask) : list u64 :=
  match feed with FeedStarting work_id _ => [work_id] | _ => [] end.

(** The tasks that own a recovery. *)
Definition owners (s : Service) : list u64 := starting (sv_feed s) ++ (sv_workers s).*1.

Record recovery_ok (s : Service) : Prop := {
  ok_unique : NoDup (sv_workers s).*1;
  ok_bounded : ∀ work_id task, (work_id, task) ∈ sv_workers s →
    (work_id ≤ rv_work_id (sv_recovery s))%N;
  ok_starting : starting_ok s;
  ok_gate : ∀ w, w ∈ sv_workers s → worker_holds_gate w = true → at_rest (sv_feed s) = true;
  ok_tasks : ∀ task, (rv_work_id (sv_recovery s), task) ∈ sv_workers s → task_ok s task;
  ok_owned : is_active (rv_phase (sv_recovery s)) = true → rv_work_id (sv_recovery s) ∈ owners s;
  ok_failures : (rv_local_failures (sv_recovery s) ≤ RECOVERY_MAX_LOCAL_FAILURES)%N;
}.

Lemma service_new_ok now generation : recovery_ok (service_new chain_id now generation).
Proof.
  split; cbn; try done; try (by constructor); try (by intros ? ?%elem_of_nil).
  by intros ? ? ?%elem_of_nil.
Qed.

(** ** Workers *)

Lemma gate_free_rest (s : Service) :
  gate_is_free s = true →
  at_rest (sv_feed s) = true ∧ ∀ w, w ∈ sv_workers s → worker_holds_gate w = false.
Proof.
  unfold gate_is_free. intros Hg.
  assert (negb (existsb worker_holds_gate (sv_workers s)) = true ∧ at_rest (sv_feed s) = true)
    as [Hw Hf] by (destruct (sv_feed s); done).
  split; [done|]. intros w Hin. apply negb_true_iff in Hw.
  destruct (worker_holds_gate w) eqn:E; [|done]. exfalso.
  apply not_true_iff_false in Hw. apply Hw, existsb_exists. exists w.
  split; [by apply list_elem_of_In|done].
Qed.

Lemma elem_of_delete_NoDup {A B} (l : list (A * B)) i k x y :
  NoDup l.*1 → l !! i = Some (k, x) → y ∈ delete i l → y ∈ l ∧ y.1 ≠ k.
Proof.
  intros Hnd Hi Hy. pose proof (delete_Permutation _ _ _ Hi) as Hp.
  split; [rewrite Hp; by right|]. intros <-.
  rewrite Hp in Hnd. cbn in Hnd. apply NoDup_cons in Hnd as [Hnot _].
  apply Hnot. by apply list_elem_of_fmap_2.
Qed.

Lemma keys_delete {A B} (l : list (A * B)) i : (delete i l).*1 = delete i l.*1.
Proof. apply list_fmap_delete. Qed.

Lemma NoDup_delete {A} (l : list A) i : NoDup l → NoDup (delete i l).
Proof. intros Hnd. eapply sublist_NoDup; [exact Hnd|apply sublist_delete]. Qed.

Lemma keys_insert {A B} (l : list (A * B)) i k x y :
  l !! i = Some (k, x) → (<[i := (k, y)]> l).*1 = l.*1.
Proof.
  intros Hi. rewrite list_fmap_insert. apply list_insert_id.
  by rewrite list_lookup_fmap, Hi.
Qed.

Lemma elem_of_insert_NoDup {A B} (l : list (A * B)) i k x y z :
  NoDup l.*1 → l !! i = Some (k, x) → z ∈ <[i := (k, y)]> l →
  z = (k, y) ∨ (z ∈ l ∧ z.1 ≠ k).
Proof.
  intros Hnd Hi Hz. apply list_elem_of_lookup in Hz as [j Hj].
  destruct (decide (i = j)) as [<-|Hne].
  - left. rewrite list_lookup_insert_eq in Hj; [by simplify_eq|]. by eapply lookup_lt_Some.
  - right. rewrite list_lookup_insert_ne in Hj by done. split; [by eapply list_elem_of_lookup_2|].
    intros <-. apply Hne. eapply (NoDup_lookup l.*1); [done| |].
    + by rewrite list_lookup_fmap, Hi.
    + by rewrite list_lookup_fmap, Hj.
Qed.

Lemma settled_same (s s' : Service) :
  sv_feed s' = sv_feed s → sv_cache s' = sv_cache s → settled s' = settled s.
Proof.
  intros Hfeed Hcache. unfold settled, commit. rewrite Hfeed, Hcache.
  destruct (sv_feed s); try done. by destruct (commit_staged_update _ _).
Qed.

Lemma task_same (s s' : Service) task :
  sv_feed s' = sv_feed s → sv_cache s' = sv_cache s →
  rv_phase (sv_recovery s') = rv_phase (sv_recovery s) →
  rv_buffer_a (sv_recovery s') = rv_buffer_a (sv_recovery s) →
  task_ok s task → task_ok s' task.
Proof.
  intros Hfeed Hcache Hphase Hbuf. pose proof (settled_same s s' Hfeed Hcache) as Hset.
  unfold task_ok. by rewrite Hset, Hfeed, Hphase, Hbuf, Hcache.
Qed.

(** The owner of the recovery has moved on. *)
Lemma owner_moves (s s' : Service) i task task' :
  recovery_ok s → sv_workers s !! i = Some (rv_work_id (sv_recovery s), task) →
  sv_workers s' = <[i := (rv_work_id (sv_recovery s), task')]> (sv_workers s) →
  sv_feed s' = sv_feed s →
  rv_work_id (sv_recovery s') = rv_work_id (sv_recovery s) →
  (rv_local_failures (sv_recovery s') ≤ RECOVERY_MAX_LOCAL_FAILURES)%N →
  (worker_holds_gate (rv_work_id (sv_recovery s), task') = true → at_rest (sv_feed s) = true) →
  task_ok s' task' → recovery_ok s'.
Proof.
  intros [Hnd Hb Hst Hg Ht Ho Hf] Hi Hws Hfeed Hid Hfail Hgate Htask.
  assert (Hkeys : (sv_workers s').*1 = (sv_workers s).*1)
    by (rewrite Hws; by eapply keys_insert).
  assert (Hin : rv_work_id (sv_recovery s) ∈ (sv_workers s).*1)
    by (apply list_elem_of_fmap; eexists; split; [|by eapply list_elem_of_lookup_2]; done).
  split.
  - by rewrite Hkeys.
  - intros k t. rewrite Hid, Hws. intros [[= -> ->]|[Hz _]]%(elem_of_insert_NoDup _ _ _ _ _ _ Hnd Hi);
      [done|by eapply Hb].
  - unfold starting_ok in *. rewrite Hfeed. destruct (sv_feed s) as [| | | |w src]; try done.
    rewrite Hid, Hkeys. destruct Hst as (? & Hnot & _). split_and!; [done..|].
    intros ->. by destruct Hnot.
  - intros w. rewrite Hws, Hfeed.
    intros [->|[Hz _]]%(elem_of_insert_NoDup _ _ _ _ _ _ Hnd Hi); [by apply Hgate|by apply Hg].
  - intros t. rewrite Hid, Hws.
    intros [[= ->]|[_ Hne]]%(elem_of_insert_NoDup _ _ _ _ _ _ Hnd Hi); [done|by destruct Hne].
  - intros _. unfold owners. rewrite Hid, Hkeys. apply elem_of_app. by right.
  - done.
Qed.

(** The owner of the recovery has ended. *)
Lemma owner_ends (s s' : Service) i task :
  recovery_ok s → sv_workers s !! i = Some (rv_work_id (sv_recovery s), task) →
  sv_workers s' = delete i (sv_workers s) → sv_feed s' = sv_feed s →
  rv_work_id (sv_recovery s') = rv_work_id (sv_recovery s) →
  (rv_local_failures (sv_recovery s') ≤ RECOVERY_MAX_LOCAL_FAILURES)%N →
  is_active (rv_phase (sv_recovery s')) = false → recovery_ok s'.
Proof.
  intros [Hnd Hb Hst Hg Ht Ho Hf] Hi Hws Hfeed Hid Hfail Hphase.
  assert (Hleft : ∀ w, w ∈ sv_workers s' → w ∈ sv_workers s ∧ w.1 ≠ rv_work_id (sv_recovery s))
    by (intros w; rewrite Hws; by apply elem_of_delete_NoDup with (x := task)).
  assert (Hin : rv_work_id (sv_recovery s) ∈ (sv_workers s).*1)
    by (apply list_elem_of_fmap; eexists; split; [|by eapply list_elem_of_lookup_2]; done).
  split.
  - rewrite Hws, keys_delete. by apply NoDup_delete.
  - intros k t [Hw _]%Hleft. rewrite Hid. by eapply Hb.
  - unfold starting_ok in *. rewrite Hfeed. destruct (sv_feed s) as [| | | |w src]; try done.
    rewrite Hid. destruct Hst as (? & Hnot & _). split_and!; [done| |].
    + intros (y & -> & [Hy _]%Hleft)%list_elem_of_fmap. apply Hnot. by apply list_elem_of_fmap_2.
    + intros ->. by destruct Hnot.
  - intros w [Hw _]%Hleft. rewrite Hfeed. by apply Hg.
  - intros t [_ Hne]%Hleft. by rewrite Hid in Hne.
  - by rewrite Hphase.
  - done.
Qed.

(** A worker whose recovery is over ends. *)
Lemma stale_ends (s : Service) i work_id task :
  recovery_ok s → sv_workers s !! i = Some (work_id, task) →
  work_id ≠ rv_work_id (sv_recovery s) → recovery_ok (end_worker i s).
Proof.
  intros [Hnd Hb Hst Hg Ht Ho Hf] Hi Hne.
  assert (Hleft : ∀ w, w ∈ delete i (sv_workers s) → w ∈ sv_workers s)
    by (intros w Hw; by apply (elem_of_delete_NoDup _ _ _ _ _ Hnd Hi) in Hw as [? _]).
  assert (Hkept : ∀ k, k ≠ work_id → k ∈ (sv_workers s).*1 → k ∈ (delete i (sv_workers s)).*1).
  { intros k Hk. rewrite (delete_Permutation _ _ _ Hi) at 1. cbn.
    intros [->|?]%elem_of_cons; done. }
  split; cbn.
  - rewrite keys_delete. by apply NoDup_delete.
  - intros k t Hw%Hleft. by eapply Hb.
  - unfold starting_ok in *. cbn. destruct (sv_feed s) as [| | | |w src]; try done.
    destruct Hst as (? & Hnot & Hc). split_and!; [done| |done].
    intros (y & -> & Hy%Hleft)%list_elem_of_fmap. apply Hnot. by apply list_elem_of_fmap_2.
  - intros w Hw%Hleft. by apply Hg.
  - intros t Hw%Hleft. by apply (task_same s); [..|apply Ht].
  - intros Ha%Ho. unfold owners in *. cbn. apply elem_of_app in Ha as [Ha|Ha]; apply elem_of_app;
      [by left|right]. by apply Hkept.
  - done.
Qed.

(** The workers stay where they are. *)
Lemma workers_stay (s s' : Service) :
  recovery_ok s → sv_workers s' = sv_workers s →
  rv_work_id (sv_recovery s') = rv_work_id (sv_recovery s) →
  rv_local_failures (sv_recovery s') = rv_local_failures (sv_recovery s) →
  rv_phase (sv_recovery s') = rv_phase (sv_recovery s) →
  starting_ok s' → starting (sv_feed s') = starting (sv_feed s) →
  (∀ w, w ∈ sv_workers s → worker_holds_gate w = true → at_rest (sv_feed s') = true) →
  (∀ task, (rv_work_id (sv_recovery s), task) ∈ sv_workers s → task_ok s task → task_ok s' task) →
  recovery_ok s'.
Proof.
  intros [Hnd Hb Hst Hg Ht Ho Hf] Hws Hid Hfail Hphase Hst' Hstart Hgate Htask.
  split; rewrite ?Hws, ?Hid, ?Hfail, ?Hphase; try done.
  - intros task Hin. by apply Htask, Ht.
  - unfold owners. by rewrite Hstart, Hws.
Qed.

(** Nothing changes that the recovery depends on. *)
Lemma nothing_moves (s s' : Service) :
  recovery_ok s → sv_workers s' = sv_workers s → sv_feed s' = sv_feed s →
  sv_cache s' = sv_cache s →
  rv_work_id (sv_recovery s') = rv_work_id (sv_recovery s) →
  rv_local_failures (sv_recovery s') = rv_local_failures (sv_recovery s) →
  rv_phase (sv_recovery s') = rv_phase (sv_recovery s) →
  rv_buffer_a (sv_recovery s') = rv_buffer_a (sv_recovery s) → recovery_ok s'.
Proof.
  intros Hok Hws Hfeed Hcache Hid Hfail Hphase Hbuf.
  apply (workers_stay s s'); try done.
  - pose proof (ok_starting s Hok) as Hst. unfold starting_ok in *.
    by rewrite Hfeed, Hid, Hws, Hphase, Hbuf, Hcache.
  - by rewrite Hfeed.
  - rewrite Hfeed. apply Hok.
  - intros task _. by apply task_same.
Qed.

Lemma sublist_keys {A B} (l k : list (A * B)) : l `sublist_of` k → l.*1 `sublist_of` k.*1.
Proof. induction 1; cbn; by constructor. Qed.

(** The recovery of every worker is over. *)
Lemma superseded (s s' : Service) :
  recovery_ok s → sv_workers s' `sublist_of` sv_workers s →
  rv_work_id (sv_recovery s') = (rv_work_id (sv_recovery s) + 1)%N →
  (rv_local_failures (sv_recovery s') ≤ RECOVERY_MAX_LOCAL_FAILURES)%N →
  starting_ok s' →
  (is_active (rv_phase (sv_recovery s')) = true →
   rv_work_id (sv_recovery s') ∈ starting (sv_feed s')) →
  (∀ w, w ∈ sv_workers s' → worker_holds_gate w = true → at_rest (sv_feed s') = true) →
  recovery_ok s'.
Proof.
  intros [Hnd Hb Hst Hg Ht Ho Hf] Hws Hid Hfail Hst' Hactive Hgate.
  assert (Hleft : ∀ w, w ∈ sv_workers s' → w ∈ sv_workers s)
    by (intros w; by apply sublist_subseteq).
  split; try done.
  - eapply sublist_NoDup; [exact Hnd|]. by apply sublist_keys.
  - intros k t Hw%Hleft%Hb. rewrite Hid. lia.
  - intros t Hw%Hleft%Hb. rewrite Hid in Hw. lia.
  - intros Ha%Hactive. unfold owners. apply elem_of_app. by left.
Qed.

Lemma saturating_succ n m :
  saturating_add n 1 = m → (m < u64_max)%N → m = (n + 1)%N.
Proof. unfold saturating_add. lia. Qed.

(** ** The feed handler *)

Lemma commit_frame staged s :
  sv_recovery (commit staged s).2 = sv_recovery s ∧ sv_workers (commit staged s).2 = sv_workers s
  ∧ sv_feed (commit staged s).2 = sv_feed s.
Proof. unfold commit. by destruct (commit_staged_update staged (sv_cache s)). Qed.

(** What the commit of a staged feed message does to the partitions. *)
Definition staged_partitions (staged : BroadcasterStagedUpdate) (ps : partitions) : partitions :=
  match su_apply_mode staged with
  | Replacement ps' _ _ _ => ps'
  | _ => match su_message staged with
         | Some update => (apply_raw_update_message update ps).2
         | None => ps
         end
  end.

Definition staged_raw (staged : BroadcasterStagedUpdate) : Prop :=
  match su_apply_mode staged with Decoded => False | _ => True end.

Lemma commit_partitions staged s :
  staged_raw staged →
  cd_partitions (sv_cache (commit staged s).2)
  = staged_partitions staged (cd_partitions (sv_cache s)).
Proof.
  unfold staged_raw, commit, commit_staged_update, staged_partitions.
  destruct (su_apply_mode staged) as [|expected next|ps expected pending next] eqn:E; [done| |done].
  intros _. destruct (su_message staged) as [update|]; [|done].
  unfold on_partitions, mbind, stateR_bind. cbn.
  by destruct (apply_raw_update_message update (cd_partitions (sv_cache s))) as [[e|[]] ps].
Qed.

(** A staged feed message is either a replacement without an update, which leaves the
    partitions alone until it is ready, or an update. *)
Lemma staged_feed feed d staged :
  stage_feed_message configured_backends feed d = Ok staged →
  staged_raw staged
  ∧ match su_message staged with
    | Some update => ∃ expected next, su_apply_mode staged = RawNormal expected next
    | None =>
        ∃ ps expected pending next,
          su_apply_mode staged = Replacement ps expected pending next
          ∧ (su_replacement_ready staged = false → ps = cd_partitions d)
    end.
Proof.
  unfold stage_feed_message. intros (message & _ & ([] & _ & Hs)%bind_ok)%bind_ok.
  destruct (cd_replacement d) as [pending|].
  - unfold stage_replacement in Hs. apply bind_ok in Hs as (candidates & _ & Hs).
    destruct (replacement_is_aligned _ _); injection Hs as <-; cbn; (split; [done|]); eauto 10.
    eexists _, _, _, _. done.
  - apply bind_ok in Hs as ([] & _ & ([] & _ & [= <-])%bind_ok).
    split; [done|]. cbn. eauto.
Qed.

(** The feed handler takes its turn while nobody else holds the gate. *)
Lemma feed_turns (s s' : Service) :
  recovery_ok s → gate_is_free s = true → sv_workers s' = sv_workers s →
  rv_work_id (sv_recovery s') = rv_work_id (sv_recovery s) →
  rv_local_failures (sv_recovery s') = rv_local_failures (sv_recovery s) →
  rv_phase (sv_recovery s') = rv_phase (sv_recovery s) →
  starting (sv_feed s') = [] →
  (∀ source, task_ok s (Serializing source) → task_ok s' (Serializing source)) →
  recovery_ok s'.
Proof.
  intros Hok Hfree Hws Hid Hfail Hphase Hstart Hser.
  destruct (gate_free_rest s Hfree) as [Hrest Hnone].
  apply (workers_stay s s'); try done.
  - unfold starting_ok. by destruct (sv_feed s').
  - rewrite Hstart. by destruct (sv_feed s).
  - intros w Hw Hh. by rewrite (Hnone w Hw) in Hh.
  - intros task Hin. destruct task; try done; cbn; try by rewrite Hphase.
    + apply Hser.
    + by specialize (Hnone _ Hin).
Qed.

Lemma settled_rest (s : Service) :
  at_rest (sv_feed s) = true → settled s = cd_partitions (sv_cache s).
Proof. unfold settled. by destruct (sv_feed s). Qed.

Lemma rest_not_publish feed : at_rest feed = true → in_publish feed = false.
Proof. by destruct feed. Qed.

(** ... and leaves the partitions and the buffer alone. *)
Lemma feed_turns_idly (s s' : Service) :
  recovery_ok s → gate_is_free s = true → sv_workers s' = sv_workers s →
  sv_recovery s' = sv_recovery s → at_rest (sv_feed s') = true →
  cd_partitions (sv_cache s') = cd_partitions (sv_cache s) →
  recovery_ok s'.
Proof.
  intros Hok Hfree Hws Hrec Hrest' Hps. destruct (gate_free_rest s Hfree) as [Hrest _].
  apply (feed_turns s s'); rewrite ?Hrec; try done.
  - by destruct (sv_feed s').
  - intros source (Hb & Hp & Hr). cbn. rewrite Hrec. split_and!; [done|by apply rest_not_publish|].
    by rewrite Hr, !settled_rest, Hps.
Qed.

Lemma recovery_source_partitions staged source s :
  recovery_source staged = Ok source →
  (commit staged s).1 = true
  ∧ cd_partitions (sv_cache (commit staged s).2) = rsrc_partitions source.
Proof.
  unfold recovery_source. intros (ps & Hps & (id & _ & [= <-])%bind_ok)%bind_ok. cbn.
  unfold recovery_partitions in Hps. unfold commit, commit_staged_update.
  destruct (su_apply_mode staged) as [| |ps' expected [pending|] next]; try done.
  destruct (su_replacement_ready staged); [|done]. injection Hps as ->. done.
Qed.

Lemma start_recovery_ok now source (s s1 : Service) :
  recovery_ok s → gate_is_free s = true → sv_workers s1 = sv_workers s →
  sv_recovery s1 = sv_recovery s → cd_partitions (sv_cache s1) = rsrc_partitions source →
  (rv_work_id (sv_recovery (start_recovery now source s1)) < u64_max)%N →
  recovery_ok (start_recovery now source s1).
Proof.
  intros Hok Hfree Hws Hrec Hps Hmax. destruct (gate_free_rest s Hfree) as [_ Hnone].
  assert (Hid : rv_work_id (sv_recovery (start_recovery now source s1))
                = (rv_work_id (sv_recovery s) + 1)%N).
  { apply saturating_succ; [|done]. cbn. by rewrite Hrec. }
  apply (superseded s); [done|..]; cbn -[saturating_add] in *.
  - by rewrite Hws.
  - done.
  - done.
  - unfold starting_ok. cbn -[saturating_add]. rewrite Hws, Hid. split_and!; [done| |done].
    intros (y & Hy & Hin)%list_elem_of_fmap. destruct y as [k t]. apply (ok_bounded s Hok) in Hin.
    cbn in Hy. lia.
  - intros _. by apply list_elem_of_singleton.
  - intros w. rewrite Hws. intros Hw Hh. by rewrite (Hnone w Hw) in Hh.
Qed.

(** An update on its way to Buffer A. *)
Lemma buffer_update_ok now update r buffered r' flag :
  buffer_recovery_update recovery_max_buffered_native_blocks now update r = Ok (buffered, r', flag) →
  rv_work_id r' = rv_work_id r ∧ rv_local_failures r' = rv_local_failures r
  ∧ rv_phase r' = rv_phase r ∧ rv_phase r ≠ Fatal
  ∧ buffered = bool_decide (rv_phase r = Building)
  ∧ rv_buffer_a r' = if bool_decide (rv_phase r = Building) then rv_buffer_a r ++ [update]
                     else rv_buffer_a r.
Proof.
  unfold buffer_recovery_update.
  destruct (rv_phase r) eqn:E; intros [= <- <- <-]; cbn; rewrite E; done.
Qed.

Lemma raised_fields flag (s : Service) :
  sv_recovery (raise flag s) = sv_recovery s ∧ sv_workers (raise flag s) = sv_workers s
  ∧ sv_feed (raise flag s) = sv_feed s ∧ sv_cache (raise flag s) = sv_cache s.
Proof. done. Qed.

Lemma feed_buffers_ok now staged update feed (s : Service) buffered r flag :
  recovery_ok s → gate_is_free s = true → sv_feed s = FeedWaiting feed →
  su_message staged = Some update →
  (∃ expected next, su_apply_mode staged = RawNormal expected next) →
  buffer_recovery_update recovery_max_buffered_native_blocks now update (sv_recovery s)
    = Ok (buffered, r, flag) →
  let s1 := with_recovery (λ _, r) (with_feed FeedIdle s) in
  let s1 := match flag with Some flag => raise flag s1 | None => s1 end in
  recovery_ok (if (buffered : bool) then with_feed (FeedCommit staged) s1
               else with_feed (FeedPublish staged (staged_progress staged))
                      (with_call (CallPublishUpdate update) s1)).
Proof.
  intros Hok Hfree Hfeed Hm (expected & next & Hmode) Hbuf s0 s1.
  destruct (buffer_update_ok _ _ _ _ _ _ Hbuf) as (Hid & Hfail & Hphase & Hfatal & Hb & Hbuffer).
  assert (Hs1 : sv_recovery s1 = r ∧ sv_workers s1 = sv_workers s ∧ sv_cache s1 = sv_cache s)
    by (subst s1; by destruct flag).
  destruct Hs1 as (Hr1 & Hw1 & Hc1). clearbody s1. clear s0.
  destruct buffered; symmetry in Hb.
  - apply bool_decide_eq_true in Hb. rewrite bool_decide_eq_true_2 in Hbuffer by done.
    apply (feed_turns s); cbn; rewrite ?Hr1; try done.
    intros source (_ & _ & Hrep). split_and!; [congruence|done|].
    rewrite Hbuffer. unfold replayed. rewrite foldl_app. cbn.
    change (foldl _ _ (rv_buffer_a (sv_recovery s))) with (replayed source (rv_buffer_a (sv_recovery s))).
    rewrite Hrep, settled_rest by (by rewrite Hfeed).
    unfold settled. cbn. rewrite commit_partitions by (unfold staged_raw; by rewrite Hmode).
    unfold staged_partitions. cbn. by rewrite Hmode, Hm, Hc1.
  - apply bool_decide_eq_false in Hb. 
    apply (feed_turns s); cbn; rewrite ?Hr1; try done.
    by intros source (Hbuild & _).
Qed.

Lemma feed_enters_ok now (s s' : Service) :
  recovery_ok s →
  feed_enters configured_backends recovery_max_buffered_native_blocks now s = Some s' →
  (rv_work_id (sv_recovery s') < u64_max)%N → recovery_ok s'.
Proof.
  intros Hok. unfold feed_enters. destruct (sv_feed s) as [|feed| | |] eqn:Hfeed; try done.
  destruct (gate_is_free s) eqn:Hfree; [|done]. cbn [negb]. cbv zeta.
  assert (Hidle : recovery_ok (with_feed FeedIdle s)) by (by apply (feed_turns_idly s)).
  destruct (stage_feed_message _ _ _) as [staged|e] eqn:Hst; [|by intros [= <-] _].
  apply staged_feed in Hst as [Hraw Hst].
  destruct (commit_frame staged (with_feed FeedIdle s)) as (Hcr & Hcw & Hcf).
  destruct (su_replacement_ready staged) eqn:Hready.
  - destruct (recovery_source staged) as [source|e] eqn:Hsrc; [|by intros [= <-] _].
    destruct (recovery_source_partitions _ _ (with_feed FeedIdle s) Hsrc) as [Hc Hps].
    destruct (commit staged (with_feed FeedIdle s)) as [committed s1]. cbn in *. subst committed.
    intros [= <-] Hmax. by apply (start_recovery_ok now source s s1).
  - destruct (su_message staged) as [update|] eqn:Hm.
    + destruct (buffer_recovery_update _ _ _ _) as [[[buffered r] flag]|e] eqn:Hbuf;
        [|by intros [= <-] _].
      intros [= <-] _. by eapply feed_buffers_ok.
    + intros [= <-] _. destruct Hst as (ps & expected & pending & next & Hmode & Hsame).
      apply (feed_turns_idly s); try done.
      * by rewrite Hcf.
      * rewrite commit_partitions by done. unfold staged_partitions. rewrite Hmode.
        by apply Hsame.
Qed.

Lemma feed_arrives_ok paused feed (s s' : Service) :
  recovery_ok s → feed_arrives paused feed s = Some s' → recovery_ok s'.
Proof.
  intros Hok. unfold feed_arrives. destruct (sv_feed s) eqn:Hfeed; try done.
  destruct paused; [by intros [= <-]|].
  destruct (recovery_fatal_error _); intros [= <-]; [done|].
  apply (workers_stay s); try done.
  - by rewrite Hfeed.
  - intros task _. destruct task; try done. intros (? & _ & Hr). split_and!; [done..|].
    etrans; [exact Hr|]. by rewrite !settled_rest by (by rewrite ?Hfeed).
Qed.

(** The end of a feed message that was on its way, with the gate. *)
Lemma feed_leaves (s s' : Service) :
  recovery_ok s → at_rest (sv_feed s) = false → starting (sv_feed s) = [] →
  sv_feed s' = FeedIdle → sv_workers s' = sv_workers s → sv_recovery s' = sv_recovery s →
  (in_publish (sv_feed s) = false → cd_partitions (sv_cache s') = settled s) →
  recovery_ok s'.
Proof.
  intros Hok Hrest Hstart Hfeed Hws Hrec Hset.
  apply (workers_stay s); rewrite ?Hrec; try done.
  - unfold starting_ok. by rewrite Hfeed.
  - by rewrite Hfeed.
  - by rewrite Hfeed.
  - intros task Hin. destruct task; cbn; rewrite ?Hrec; try done.
    + intros (? & Hp & Hr). rewrite Hfeed. split_and!; [done..|].
      etrans; [exact Hr|]. rewrite (settled_rest s') by (by rewrite Hfeed). by rewrite Hset.
    + pose proof (ok_gate s Hok _ Hin eq_refl) as Hg. by rewrite Hrest in Hg.
Qed.

Lemma feed_commits_ok (s s' : Service) :
  recovery_ok s → feed_commits s = Some s' → recovery_ok s'.
Proof.
  intros Hok. unfold feed_commits. destruct (sv_feed s) as [| |staged| |] eqn:Hfeed; try done.
  intros [= <-]. destruct (commit_frame staged s) as (Hr & Hw & _).
  apply (feed_leaves s); rewrite ?Hfeed; try done. intros _. unfold settled. by rewrite Hfeed.
Qed.

Lemma feed_published_ok now reply (s s' : Service) :
  recovery_ok s → feed_published now reply s = Some s' → recovery_ok s'.
Proof.
  intros Hok. unfold feed_published.
  destruct (sv_feed s) as [| | |staged progress|] eqn:Hfeed; try done. intros [= <-].
  destruct (commit_frame staged s) as (Hr & Hw & _). destruct (commit staged s) as [committed s1].
  cbn in Hr, Hw.
  apply (feed_leaves s); rewrite ?Hfeed; try done.
  - destruct reply as [u|error]; [destruct progress, committed; done|].
    destruct (error_root error); try done. by destruct committed.
  - destruct reply as [u|error]; [destruct progress, committed; done|].
    destruct (error_root error); try done. by destruct committed.
Qed.

Lemma feed_reserved_ok recovery_id (s s' : Service) :
  recovery_ok s → feed_reserved recovery_id s = Some s' → recovery_ok s'.
Proof.
  intros Hok. unfold feed_reserved.
  destruct (sv_feed s) as [| | | |work_id source] eqn:Hfeed; try done. cbv zeta.
  pose proof (ok_starting s Hok) as Hst. unfold starting_ok in Hst. rewrite Hfeed in Hst.
  destruct Hst as (Hle & Hnew & Hcur).
  assert (Hnogate : ∀ w, w ∈ sv_workers s → worker_holds_gate w = false).
  { intros w Hw. destruct (worker_holds_gate w) eqn:E; [|done].
    pose proof (ok_gate s Hok w Hw E) as Hg. by rewrite Hfeed in Hg. }
  destruct (rv_work_id (sv_recovery s) =? work_id)%N eqn:Eid; cbn [andb negb].
  - apply N.eqb_eq in Eid. destruct (Hcur (eq_sym Eid)) as (Hb & Hbuf & Hps).
    rewrite bool_decide_eq_true_2 by done. cbn [negb]. intros [= <-].
    destruct Hok as [Hnd Hbd Hst Hg Ht Ho Hf].
    assert (Hother : ∀ task, (work_id, task) ∉ sv_workers s)
      by (intros task Hin; apply Hnew; by apply list_elem_of_fmap_2 with (f := fst) in Hin).
    split; cbn.
    + rewrite fmap_app. cbn. apply NoDup_app. split_and!; [done| |apply NoDup_singleton].
      intros k Hk ->%list_elem_of_singleton. done.
    + intros k t [Hin|[= -> ->]%list_elem_of_singleton]%elem_of_app; [by eapply Hbd|lia].
    + done.
    + done.
    + rewrite Eid. intros t [Hin|[= ->]%list_elem_of_singleton]%elem_of_app; [by destruct (Hother t)|].
      cbn. split_and!; [done..|]. by rewrite Hbuf, <-Hps.
    + intros _. unfold owners. cbn. rewrite fmap_app, Eid. apply elem_of_app. right.
      by apply list_elem_of_singleton.
    + done.
  - apply N.eqb_neq in Eid. intros [= <-].
    destruct Hok as [Hnd Hbd Hst Hg Ht Ho Hf]. split; cbn; try done.
    + intros t Hin. pose proof (Ht t Hin) as Hok. destruct t; try done.
      * destruct Hok as (? & ? & Hr). cbn. split_and!; [done..|].
        etrans; [exact Hr|]. unfold settled. by rewrite Hfeed.
    + intros Ha%Ho. unfold owners in *. rewrite Hfeed in Ha. cbn in *.
      by apply elem_of_cons in Ha as [?|?].
Qed.

Lemma stream_disconnects_ok now reason last_error (s s' : Service) :
  recovery_ok s → stream_disconnects configured_backends now reason last_error s = Some s' →
  (rv_work_id (sv_recovery s') < u64_max)%N → recovery_ok s'.
Proof.
  intros Hok. unfold stream_disconnects. destruct (gate_is_free s) eqn:Hfree; [|done].
  destruct (gate_free_rest s Hfree) as [Hrest Hnone]. cbn [negb]. cbv zeta.
  intros [= <-] Hmax. apply (superseded s); try done.
  - by apply saturating_succ.
  - apply Hok.
  - unfold starting_ok. cbn. by destruct (sv_feed s).
Qed.

Lemma relabelled_ok generation (s s' : Service) :
  recovery_ok s → relabelled chain_id generation s = Some s' → recovery_ok s'.
Proof.
  intros Hok. unfold relabelled. destruct (gate_is_free s) eqn:Hfree; [|done]. intros [= <-].
  destruct (gate_free_rest s Hfree) as [Hrest _]. by apply (feed_turns_idly s).
Qed.

Lemma monitor_wakes_ok abort work_id flag (s : Service) :
  recovery_ok s → recovery_ok (monitor_wakes abort work_id flag s).
Proof.
  intros Hok. unfold monitor_wakes. destruct (_ && _); [|done].
  destruct abort; by apply (nothing_moves s).
Qed.

(** ** The workers *)

Lemma owner_active (s : Service) task :
  recovery_ok s → (rv_work_id (sv_recovery s), task) ∈ sv_workers s →
  is_active (rv_phase (sv_recovery s)) = true.
Proof.
  intros Hok Hin%(ok_tasks s Hok).
  destruct task; cbn in Hin; try (by rewrite Hin); by destruct Hin as [-> _].
Qed.

Section worker.
Context (s : Service) (i : nat) (work_id : u64) (task : WorkerTask).
Hypothesis Hok : recovery_ok s.
Hypothesis Hi : sv_workers s !! i = Some (work_id, task).

Lemma worker_in : (work_id, task) ∈ sv_workers s.
Proof. by eapply list_elem_of_lookup_2. Qed.

Lemma current_spec : is_current work_id s = bool_decide (work_id = rv_work_id (sv_recovery s)).
Proof.
  unfold is_current. rewrite N.eqb_sym. destruct (N.eqb_spec work_id (rv_work_id (sv_recovery s)));
    [by rewrite bool_decide_eq_true_2|by rewrite bool_decide_eq_false_2].
Qed.

Lemma building_spec :
  is_building work_id s = is_current work_id s && bool_decide (rv_phase (sv_recovery s) = Building).
Proof. done. Qed.

Lemma worker_stale : is_current work_id s = false → recovery_ok (end_worker i s).
Proof.
  rewrite current_spec. intros Hne%bool_decide_eq_false. by apply (stale_ends s i work_id task).
Qed.

Lemma worker_terminates reason :
  recovery_ok (end_worker i (handle_recovery_worker_termination work_id reason s)).
Proof.
  unfold handle_recovery_worker_termination. destruct (is_current work_id s) eqn:Hc; cbn [negb orb].
  - pose proof Hi as Hi'. pose proof worker_in as Hin.
    rewrite current_spec in Hc. apply bool_decide_eq_true in Hc. rewrite Hc in Hi', Hin.
    rewrite (owner_active s task) by done. cbn [negb].
    apply (owner_ends s _ i task); try done. apply Hok.
  - by apply worker_stale.
Qed.

Lemma worker_prepares_retry now :
  is_current work_id s = true → recovery_ok (prepare_retry now i work_id s).
Proof.
  rewrite current_spec. intros Hc%bool_decide_eq_true. pose proof Hi as Hi'. rewrite Hc in Hi'.
  apply (owner_moves s _ i task (Retrying (sv_next_recovery_source_id s))); try done.
  - cbn. by rewrite Hc.
  - apply Hok.
Qed.

Lemma worker_fails_locally now reason :
  recovery_ok (handle_local_recovery_failure now i work_id reason s).
Proof.
  unfold handle_local_recovery_failure.
  destruct (is_current work_id s) eqn:Hc; cbn [negb]; [|by apply worker_stale].
  rewrite current_spec in Hc. apply bool_decide_eq_true in Hc. pose proof Hi as Hi'.
  rewrite Hc in Hi'. pose proof (ok_failures s Hok) as Hf. unfold RECOVERY_MAX_LOCAL_FAILURES in *.
  destruct (N.leb_spec 1 (rv_local_failures (sv_recovery s))).
  - by apply (owner_ends s _ i task).
  - apply (owner_moves s _ i task (Retrying (sv_next_recovery_source_id s))); try done.
    + cbn. by rewrite Hc.
    + cbn -[N.min]. unfold RECOVERY_MAX_LOCAL_FAILURES. lia.
Qed.

(** A worker whose recovery is over goes on. *)
Lemma stale_moves task' :
  work_id ≠ rv_work_id (sv_recovery s) → worker_holds_gate (work_id, task') = false →
  recovery_ok (set_worker i work_id task' s).
Proof.
  intros Hne Hgate. destruct Hok as [Hnd Hb Hst Hg Ht Ho Hf].
  assert (Hkeys : (<[i := (work_id, task')]> (sv_workers s)).*1 = (sv_workers s).*1)
    by (by eapply keys_insert).
  assert (Hleft : ∀ w, w ∈ <[i := (work_id, task')]> (sv_workers s) →
            w = (work_id, task') ∨ w ∈ sv_workers s)
    by (intros w [?|[? _]]%(elem_of_insert_NoDup _ _ _ _ _ _ Hnd Hi); auto).
  split; cbn; rewrite ?Hkeys; try done.
  - intros k t [[= -> ->]|Hw]%Hleft; [by eapply Hb, worker_in|by eapply Hb].
  - unfold starting_ok in *. cbn. by rewrite Hkeys.
  - intros w [->|Hw]%Hleft; [by rewrite Hgate|by apply Hg].
  - intros t [[= Heq _]|Hw]%Hleft; [by destruct Hne|by apply (task_same s); [..|apply Ht]].
  - unfold owners in *. cbn. by rewrite Hkeys.
Qed.

(** A worker waits in the loop of an external failure. *)
Lemma worker_waits task' :
  (rv_work_id (sv_recovery s) = work_id → rv_phase (sv_recovery s) = Publishing) →
  task' = WaitingExternally ∨ task' = InModeCheck →
  recovery_ok (set_worker i work_id task' s).
Proof.
  intros Hphase Htask. destruct (decide (work_id = rv_work_id (sv_recovery s))) as [->|Hne].
  - apply (owner_moves s _ i task task'); try done; [apply Hok| |];
      destruct Htask as [-> | ->]; first [done|by apply Hphase].
  - apply stale_moves; [done|]. by destruct Htask as [-> | ->].
Qed.

Lemma task_here : rv_work_id (sv_recovery s) = work_id → task_ok s task.
Proof. intros <-. apply (ok_tasks s Hok). by eapply list_elem_of_lookup_2. Qed.

Lemma publication_returned_ok now source transaction reply :
  task = InPublication source transaction →
  recovery_ok (publication_returned now i work_id source reply s).
Proof.
  intros Et. pose proof task_here as Hhere. rewrite Et in Hhere. cbn in Hhere.
  unfold publication_returned. destruct reply as [publication|error].
  - destruct (is_current work_id s) eqn:Hc; cbn [negb]; [|by apply worker_stale].
    rewrite current_spec in Hc. apply bool_decide_eq_true in Hc. pose proof Hi as Hi'.
    rewrite Hc in Hi'.
    apply (owner_moves s _ i task (Finishing (source_complete_native_block source))); try done.
    + cbn. by rewrite Hc.
    + apply Hok.
  - destruct (error_root error);
      first [apply worker_fails_locally|apply worker_terminates|apply worker_waits; auto].
Qed.

Lemma publication_finished_ok now block count :
  task = Finishing block →
  recovery_ok (publication_finished now i work_id block count s).
Proof.
  intros Et. pose proof task_here as Hhere. rewrite Et in Hhere. cbn in Hhere.
  unfold publication_finished. destruct (is_current work_id s) eqn:Hc.
  - rewrite current_spec in Hc. apply bool_decide_eq_true in Hc. pose proof Hi as Hi'.
    rewrite Hc in Hi'. rewrite bool_decide_eq_true_2 by auto.
    unfold is_current. cbn. rewrite Hc, N.eqb_refl. cbn.
    destruct (list_max _); apply (owner_ends s _ i task); try done; apply Hok.
  - unfold is_current in *. cbn. rewrite Hc. by apply worker_stale.
Qed.

Lemma serialized_ok now source join_error :
  task = Serializing source →
  recovery_ok (serialized chain_id configured_backends now i work_id source join_error s).
Proof.
  intros Et. unfold serialized. destruct join_error; [apply worker_fails_locally|].
  destruct (serialize_recovery_source _ _ _ _) as [json|error]; [|apply worker_fails_locally].
  rewrite building_spec. destruct (is_current work_id s) eqn:Hc; [|by apply worker_stale].
  pose proof Hc as Hid. rewrite current_spec in Hid. apply bool_decide_eq_true in Hid.
  pose proof (task_here (eq_sym Hid)) as Hhere. rewrite Et in Hhere.
  destruct Hhere as (Hb & _). rewrite bool_decide_eq_true_2 by done. cbn [andb negb].
  destruct (cancelled s); [apply worker_fails_locally|]. cbv zeta.
  pose proof Hi as Hi'. rewrite Hid in Hi'. pose proof (ok_failures s Hok) as Hf.
  destruct (rv_publisher_recovery_id (sv_recovery s)) as [recovery_id|].
  - eapply (owner_moves s _ i task); [exact Hok|exact Hi'|cbn; by rewrite Hid|done..].
  - unfold handle_recovery_worker_termination, is_current. cbn. rewrite Hid, N.eqb_refl. cbn.
    by apply (owner_ends s _ i task).
Qed.

Lemma retry_captured_ok retry_id s' :
  task = Retrying retry_id → retry_captured i work_id retry_id s = Some s' → recovery_ok s'.
Proof.
  intros Et. unfold retry_captured. destruct (gate_is_free s) eqn:Hfree; [|done]. cbn [negb].
  destruct (gate_free_rest s Hfree) as [Hrest _].
  rewrite building_spec. destruct (is_current work_id s) eqn:Hc; [|intros [= <-]; by apply worker_stale].
  pose proof Hc as Hid. rewrite current_spec in Hid. apply bool_decide_eq_true in Hid.
  pose proof (task_here (eq_sym Hid)) as Hhere. rewrite Et in Hhere. cbn in Hhere.
  rewrite bool_decide_eq_true_2 by done. cbn [andb negb]. cbv zeta. intros [= <-].
  pose proof Hi as Hi'. rewrite Hid in Hi'. pose proof (ok_failures s Hok) as Hf.
  eapply (owner_moves s _ i task); [exact Hok|exact Hi'|cbn; by rewrite Hid|done..].
Qed.

Lemma retry_reserved_ok source recovery_id :
  task = Capturing source → recovery_ok (retry_reserved i work_id source recovery_id s).
Proof.
  intros Et. unfold retry_reserved. rewrite building_spec.
  destruct (is_current work_id s) eqn:Hc; [|by apply worker_stale].
  pose proof Hc as Hid. rewrite current_spec in Hid. apply bool_decide_eq_true in Hid.
  pose proof (task_here (eq_sym Hid)) as Hhere. rewrite Et in Hhere.
  destruct Hhere as (Hb & Hbuf & Hps). rewrite bool_decide_eq_true_2 by done. cbn [andb negb].
  pose proof Hi as Hi'. rewrite Hid in Hi'. pose proof (ok_failures s Hok) as Hf.
  assert (Hrest : at_rest (sv_feed s) = true)
    by (eapply (ok_gate s Hok _ worker_in); by rewrite Et).
  eapply (owner_moves s _ i task (Serializing source)); try done.
  - cbn. by rewrite Hid.
  - split_and!; [done|by apply rest_not_publish|]. rewrite settled_rest by done.
    cbn. by rewrite Hbuf.
Qed.

Lemma external_turn_ok now :
  task = WaitingExternally →
  (rv_work_id (sv_recovery (external_turn now i work_id s)) < u64_max)%N →
  recovery_ok (external_turn now i work_id s).
Proof.
  intros Et. unfold external_turn. destruct (is_current work_id s) eqn:Hc; [|intros _; by apply worker_stale].
  rewrite current_spec in Hc. apply bool_decide_eq_true in Hc. cbn [negb].
  destruct (cancelled s).
  - intros Hmax. apply (superseded s); try done.
    + apply sublist_delete.
    + by apply saturating_succ.
    + apply Hok.
    + pose proof (ok_starting s Hok) as Hst. unfold starting_ok in *. cbn -[saturating_add] in *.
      destruct (sv_feed s); try done. destruct Hst as (Hle & Hnew & _).
      assert (E := saturating_succ (rv_work_id (sv_recovery s)) _ eq_refl Hmax).
      rewrite E. split_and!; [lia| |lia].
      intros Hin. apply Hnew. rewrite keys_delete in Hin. revert Hin.
      apply sublist_subseteq, sublist_delete.
    + intros w Hw. apply (ok_gate s Hok w). revert Hw. apply sublist_subseteq, sublist_delete.
  - intros _. apply worker_waits; [|by right]. intros Hid. pose proof (task_here Hid) as Hhere.
    by rewrite Et in Hhere.
Qed.

Lemma mode_checked_ok now mode renewed :
  task = InModeCheck → recovery_ok (mode_checked now i work_id mode renewed s).
Proof.
  intros Et. pose proof task_here as Hhere. rewrite Et in Hhere. cbn in Hhere.
  assert (Hwait : recovery_ok (set_worker i work_id WaitingExternally s))
    by (apply worker_waits; auto).
  assert (Hretry : recovery_ok (if renewed then
            if negb (is_current work_id s) then end_worker i s else prepare_retry now i work_id s
          else set_worker i work_id WaitingExternally s)).
  { destruct renewed; [|done]. destruct (is_current work_id s) eqn:Hc; cbn [negb];
      [by apply worker_prepares_retry|by apply worker_stale]. }
  destruct mode; try done. unfold mode_checked. cbv zeta.
  destruct (is_current work_id s) eqn:Hc.
  - rewrite current_spec in Hc. apply bool_decide_eq_true in Hc. pose proof Hi as Hi'.
    rewrite Hc in Hi'. apply (owner_ends s _ i task); try done. apply Hok.
  - pose proof (worker_stale Hc) as Hend. by apply (nothing_moves (end_worker i s)).
Qed.
End worker.

Lemma worker_replies_ok now i reply (s s' : Service) :
  recovery_ok s → worker_replies chain_id configured_backends now i reply s = Some s' →
  (rv_work_id (sv_recovery s') < u64_max)%N → recovery_ok s'.
Proof.
  intros Hok. unfold worker_replies.
  destruct (sv_workers s !! i) as [[work_id task]|] eqn:Hi; [|done]. cbn.
  intros Hstep Hmax. destruct reply; destruct task; try done;
    try (injection Hstep as <-).
  all: first
    [ by eapply serialized_ok | by eapply publication_returned_ok
    | by eapply publication_finished_ok | by eapply retry_captured_ok
    | by eapply retry_reserved_ok | by eapply external_turn_ok | by eapply mode_checked_ok
    | by eapply worker_terminates ].
Qed.

Lemma step_ok e (s s' : Service) :
  recovery_ok s → step e s = Some s' → (rv_work_id (sv_recovery s') < u64_max)%N →
  recovery_ok s'.
Proof.
  intros Hok. destruct e; cbn.
  - intros ? _. by eapply feed_arrives_ok.
  - by apply feed_enters_ok.
  - intros ? _. by eapply feed_commits_ok.
  - intros ? _. by eapply feed_published_ok.
  - intros ? _. by eapply feed_reserved_ok.
  - by apply stream_disconnects_ok.
  - by apply worker_replies_ok.
  - intros ? _. by eapply relabelled_ok.
  - intros [= <-] _. by apply monitor_wakes_ok.
  - intros [= <-] _. by apply (nothing_moves s).
Qed.

(** ** What an event does to the recovery *)

(** The events of the feed handler and of the monitors, by their sections. *)
Inductive effect (s s' : Service) : Event → Prop :=
| Untouched e : sv_recovery s' = sv_recovery s → sv_calls s' = sv_calls s → effect s s' e
| Buffers e now update buffered r flag :
    buffer_recovery_update recovery_max_buffered_native_blocks now update (sv_recovery s)
      = Ok (buffered, r, flag) →
    sv_recovery s' = r →
    sv_calls s' = sv_calls s ++ (if (buffered : bool) then [] else [CallPublishUpdate update]) →
    effect s s' e
| Starts now flag source :
    sv_recovery s' = start_recovery_locked now flag (sv_recovery s) →
    sv_calls s' = sv_calls s ++ [CallBeginRecovery flag] →
    sv_feed s' = FeedStarting (rv_work_id (sv_recovery s')) source →
    effect s s' (FeedEnters now)
| Reserves e recovery_id :
    sv_recovery s' = set_publisher_recovery_id recovery_id (sv_recovery s) →
    sv_calls s' = sv_calls s → is_active (rv_phase (sv_recovery s)) = true → effect s s' e
| Disconnects now reason last_error :
    sv_recovery s' = cancel_recovery_publication_locked now (sv_recovery s) →
    sv_calls s' = sv_calls s → effect s s' (StreamDisconnects now reason last_error)
| Warns e :
    sv_recovery s' = set_warned (sv_recovery s) → sv_calls s' = sv_calls s →
    effect s s' e.

Lemma commit_calls staged s : sv_calls (commit staged s).2 = sv_calls s.
Proof. unfold commit. by destruct (commit_staged_update _ _). Qed.

Lemma feed_enters_effect now (s s' : Service) :
  feed_enters configured_backends recovery_max_buffered_native_blocks now s = Some s' →
  effect s s' (FeedEnters now).
Proof.
  unfold feed_enters. destruct (sv_feed s) as [|feed| | |]; try done.
  destruct (gate_is_free s); [|done]. cbn [negb]. cbv zeta.
  destruct (stage_feed_message _ _ _) as [staged|e]; [|intros [= <-]; by apply Untouched].
  destruct (commit_frame staged (with_feed FeedIdle s)) as (Hcr & _).
  pose proof (commit_calls staged (with_feed FeedIdle s)) as Hcc.
  destruct (commit staged (with_feed FeedIdle s)) as [committed s1]. cbn in Hcr, Hcc.
  destruct (su_replacement_ready staged).
  - destruct (recovery_source staged) as [source|e]; [|intros [= <-]; by apply Untouched].
    destruct committed; intros [= <-]; [|by apply Untouched].
    eapply Starts; cbn; by rewrite ?Hcr, ?Hcc.
  - destruct (su_message staged) as [update|]; [|intros [= <-]; by apply Untouched].
    destruct (buffer_recovery_update _ _ _ _) as [[[buffered r] flag]|e] eqn:Hb;
      [|intros [= <-]; by apply Untouched].
    intros [= <-]. eapply Buffers; [exact Hb|by destruct buffered, flag|].
    destruct buffered, flag; cbn; by rewrite ?app_nil_r.
Qed.

Lemma step_effect e (s s' : Service) :
  (∀ now i reply, e ≠ WorkerReplies now i reply) → step e s = Some s' → effect s s' e.
Proof.
  intros Hne. destruct e as [paused feed|now| |now reply|id|now reason last|now i reply|generation
                            |abort work_id flag|flag]; cbn.
  - unfold feed_arrives. intros Hs. repeat case_match; simplify_eq/=; by apply Untouched.
  - apply feed_enters_effect.
  - unfold feed_commits. destruct (sv_feed s) as [| |staged| |]; try done. intros [= <-].
    apply Untouched; [apply commit_frame|apply commit_calls].
  - unfold feed_published. destruct (sv_feed s) as [| | |staged progress|]; try done.
    destruct (commit_frame staged s) as (Hcr & _). pose proof (commit_calls staged s) as Hcc.
    destruct (commit staged s) as [committed s1]. intros [= <-].
    apply Untouched; repeat case_match; done.
  - unfold feed_reserved. destruct (sv_feed s) as [| | | |work_id source]; try done. cbv zeta.
    destruct (_ && _) eqn:E; cbn [negb]; intros [= <-]; [|by apply Untouched].
    apply andb_true_iff in E as [_ E%bool_decide_eq_true].
    eapply Reserves; [done..|]. by rewrite E.
  - unfold stream_disconnects. intros Hs. repeat case_match; simplify_eq/=; by apply Disconnects.
  - by destruct (Hne now i reply).
  - unfold relabelled. intros Hs. repeat case_match; simplify_eq/=; by apply Untouched.
  - intros [= <-]. unfold monitor_wakes.
    repeat case_match; [by apply Untouched|by apply Warns|by apply Untouched].
  - intros [= <-]. by apply Untouched.
Qed.

Lemma worker_event e : (∃ now i reply, e = WorkerReplies now i reply) ∨ ∀ now i reply, e ≠ WorkerReplies now i reply.
Proof. destruct e; try (by right); left; eauto. Qed.

(** ** Runs *)

(** The identity of the work does not go back, short of its last value. *)
Definition work_grows (s s' : Service) : Prop :=
  (rv_work_id (sv_recovery s') < u64_max →
   rv_work_id (sv_recovery s) ≤ rv_work_id (sv_recovery s'))%N.

Lemma work_same s s' : rv_work_id (sv_recovery s') = rv_work_id (sv_recovery s) → work_grows s s'.
Proof. unfold work_grows. intros ->. lia. Qed.

Lemma work_next s s' :
  rv_work_id (sv_recovery s') = saturating_add (rv_work_id (sv_recovery s)) 1 → work_grows s s'.
Proof. unfold work_grows, saturating_add. intros ->. lia. Qed.

Lemma worker_replies_grow now i reply (s s' : Service) :
  worker_replies chain_id configured_backends now i reply s = Some s' → work_grows s s'.
Proof.
  unfold worker_replies. destruct (sv_workers s !! i) as [[work_id task]|]; [|done]. cbn.
  intros Hstep. destruct reply; destruct task; try done; try (injection Hstep as <-);
    try (unfold retry_captured in Hstep; repeat case_match; simplify_eq/=);
    unfold serialized, publication_returned, publication_finished, retry_reserved, external_turn,
      mode_checked, handle_local_recovery_failure, handle_recovery_worker_termination;
    cbv zeta; repeat case_match; first [by apply work_same|by apply work_next].
Qed.

Lemma step_grows e (s s' : Service) : step e s = Some s' → work_grows s s'.
Proof.
  destruct (worker_event e) as [(now & i & reply & ->)|Hne]; [apply worker_replies_grow|].
  intros He%step_effect; [|done].
  destruct He as [e Hr|e now update buffered r flag Hb Hr|now flag source Hr|e id Hr|now reason last Hr|e Hr];
    first [apply work_same; rewrite Hr; done|apply work_next; rewrite Hr; done|idtac].
  apply work_same. rewrite Hr. by apply buffer_update_ok in Hb as [-> _].
Qed.

Lemma reaches_ok now generation (s : Service) :
  reaches now generation s → (rv_work_id (sv_recovery s) < u64_max)%N → recovery_ok s.
Proof.
  induction 1 as [|e s s' Hr IH Hstep]; intros Hmax; [apply service_new_ok|].
  eapply step_ok; [|exact Hstep|done]. apply IH. pose proof (step_grows _ _ _ Hstep Hmax). lia.
Qed.

(** ** Calls of the publisher *)

(** The calls that an event adds. *)
Definition calls_by (P : PublisherCall → Prop) (s s' : Service) : Prop :=
  sv_calls s' = sv_calls s ∨ ∃ call, sv_calls s' = sv_calls s ++ [call] ∧ P call.

Lemma calls_none P s s' : sv_calls s' = sv_calls s → calls_by P s s'.
Proof. by left. Qed.

Lemma calls_one (P : PublisherCall → Prop) s s' call :
  sv_calls s' = sv_calls s ++ [call] → P call → calls_by P s s'.
Proof. right. eauto. Qed.

Lemma calls_added P s s' call :
  calls_by P s s' → sv_calls s' = sv_calls s ++ [call] → P call.
Proof.
  intros [-> | (call' & -> & Hp)] Heq.
  - exfalso. apply (f_equal length) in Heq. rewrite length_app in Heq. cbn in Heq. lia.
  - apply app_inv_head in Heq. by injection Heq as ->.
Qed.

(** A transaction goes to the publisher from the serialisation of the owner's source. *)
Definition publishes (e : Event) (s s' : Service) (call : PublisherCall) : Prop :=
  match call with
  | CallPublishRecovery source transaction flag =>
      ∃ i work_id,
        sv_workers s !! i = Some (work_id, Serializing source)
        ∧ is_building work_id s = true ∧ cancelled s = false
        ∧ serialize_recovery_source chain_id configured_backends source
            BROADCASTER_SNAPSHOT_ENVELOPE_MAX_BYTES = Ok (tx_replacement_json transaction)
        ∧ rv_publisher_recovery_id (sv_recovery s) = Some (tx_recovery_id transaction)
        ∧ tx_backends transaction = configured_backends
        ∧ tx_buffer_a transaction = rv_buffer_a (sv_recovery s)
        ∧ flag = rv_cancelled (sv_recovery s)
        ∧ sv_feed s' = sv_feed s ∧ sv_cache s' = sv_cache s
        ∧ rv_phase (sv_recovery s') = Publishing ∧ rv_buffer_a (sv_recovery s') = []
  | CallPublishUpdate _ => rv_phase (sv_recovery s) ≠ Building ∧ rv_phase (sv_recovery s) ≠ Fatal
  | _ => True
  end.

Lemma worker_replies_calls now i reply (s s' : Service) :
  worker_replies chain_id configured_backends now i reply s = Some s' →
  calls_by (publishes (WorkerReplies now i reply) s s') s s'.
Proof.
  unfold worker_replies. destruct (sv_workers s !! i) as [[work_id task]|] eqn:Hi; [|done]. cbn.
  intros Hstep. destruct reply; destruct task; try done; try (injection Hstep as <-);
    try (unfold retry_captured in Hstep; repeat case_match; simplify_eq/=);
    unfold serialized, publication_returned, publication_finished, retry_reserved, external_turn,
      mode_checked, handle_local_recovery_failure, handle_recovery_worker_termination;
    cbv zeta; repeat case_match; try (by apply calls_none); try (by eapply calls_one).
  eapply calls_one; [done|]. cbn. exists i, work_id.
  repeat match goal with H : negb _ = false |- _ => apply negb_false_iff in H end.
  split_and!; done.
Qed.

Lemma step_calls e (s s' : Service) : step e s = Some s' → calls_by (publishes e s s') s s'.
Proof.
  destruct (worker_event e) as [(now & i & reply & ->)|Hne]; [apply worker_replies_calls|].
  intros He%step_effect; [|done].
  destruct He as [e _ Hc|e now update buffered r flag Hb _ Hc|now flag source _ Hc _|e id _ Hc _
                 |now reason last _ Hc|e _ Hc]; try (by apply calls_none).
  - apply buffer_update_ok in Hb as (_ & _ & _ & Hfatal & Hbuilding & _).
    destruct buffered; [apply calls_none; by rewrite app_nil_r in Hc|].
    eapply calls_one; [exact Hc|]. symmetry in Hbuilding.
    by apply bool_decide_eq_false in Hbuilding.
  - by eapply calls_one.
Qed.

(** C11: every recovery that is active has exactly one owner, the worker or the feed handler
    that carries its identity, and no other task does; a recovery that is idle or fatal has
    none, so nothing can publish for it any more; and a recovery has at most one local
    failure behind it. *)
Theorem recovery_has_one_owner now generation (s : Service) :
  reaches now generation s → (rv_work_id (sv_recovery s) < u64_max)%N →
  NoDup (owners s)
  ∧ (rv_work_id (sv_recovery s) ∈ owners s ↔ is_active (rv_phase (sv_recovery s)) = true)
  ∧ (rv_local_failures (sv_recovery s) ≤ RECOVERY_MAX_LOCAL_FAILURES)%N.
Proof.
  intros Hr Hmax. pose proof (reaches_ok _ _ _ Hr Hmax) as Hok. destruct (Hok) as [Hnd _ Hst _ _ Ho Hf].
  split_and!; [|split; [|done]|done].
  - unfold owners, starting_ok in *. destruct (sv_feed s); try done. cbn.
    apply NoDup_cons. by destruct Hst as (_ & Hnew & _).
  - unfold owners. intros [Hin|([k task] & Heq & Hin)%list_elem_of_fmap]%elem_of_app.
    + unfold starting_ok in Hst. destruct (sv_feed s) as [| | | |work_id source]; cbn in Hin;
        try (by apply elem_of_nil in Hin).
      apply list_elem_of_singleton in Hin. by destruct Hst as (_ & _ & [-> _]).
    + cbn in Heq. subst k. by apply (owner_active s task).
Qed.

(** C10: the transaction of a recovery carries the serialised replacement of its source, and
    the updates in its buffer turn that source into the partitions the cache has, or has
    once the commit under way is done: between the capture of the source and the call no
    update is lost, and none is sent twice, since the buffer is empty afterwards and later
    updates go to the publisher. *)
Theorem transaction_rebuilds_cache now generation (s s' : Service) e source transaction flag :
  reaches now generation s → step e s = Some s' → (rv_work_id (sv_recovery s') < u64_max)%N →
  sv_calls s' = sv_calls s ++ [CallPublishRecovery source transaction flag] →
  serialize_recovery_source chain_id configured_backends source
    BROADCASTER_SNAPSHOT_ENVELOPE_MAX_BYTES = Ok (tx_replacement_json transaction)
  ∧ tx_backends transaction = configured_backends
  ∧ rv_publisher_recovery_id (sv_recovery s) = Some (tx_recovery_id transaction)
  ∧ replayed source (tx_buffer_a transaction) = settled s'
  ∧ rv_phase (sv_recovery s') = Publishing ∧ rv_buffer_a (sv_recovery s') = [].
Proof.
  intros Hr Hstep Hmax Hcalls.
  destruct (calls_added _ _ _ _ (step_calls _ _ _ Hstep) Hcalls)
    as (i & work_id & Hi & Hb & _ & Hjson & Hid & Hbackends & Hbuf & _ & Hfeed & Hcache & ? & ?).
  assert (Hok : recovery_ok s).
  { eapply reaches_ok; [exact Hr|]. pose proof (step_grows _ _ _ Hstep Hmax). lia. }
  unfold is_building in Hb. apply andb_true_iff in Hb as [Hc%N.eqb_eq _].
  pose proof (ok_tasks s Hok (Serializing source)) as (_ & _ & Hrep);
    [rewrite Hc; by eapply list_elem_of_lookup_2|].
  split_and!; try done. rewrite Hbuf, Hrep. symmetry. by apply settled_same.
Qed.

(** What a worker does whose recovery is over. *)
Lemma stale_worker now i reply work_id task (s s' : Service) :
  sv_workers s !! i = Some (work_id, task) → is_current work_id s = false →
  worker_replies chain_id configured_backends now i reply s = Some s' →
  sv_recovery s' = sv_recovery s ∧ sv_calls s' = sv_calls s.
Proof.
  unfold worker_replies. intros -> Hc. cbn. intros Hstep.
  destruct reply; destruct task; try done; try (injection Hstep as <-);
    try (unfold retry_captured, is_building in Hstep; rewrite Hc in Hstep; repeat case_match;
         simplify_eq/=; done);
    unfold serialized, publication_returned, publication_finished, retry_reserved, external_turn,
      mode_checked, handle_local_recovery_failure, handle_recovery_worker_termination, is_building,
      is_current in *; cbv zeta; cbn; rewrite Hc; cbn; repeat case_match; done.
Qed.

(** C12: a recovery that has failed for good stays so and the publisher is not called again,
    until the stream disconnects, or a feed message that was let through before the failure
    completes a new replacement, whose recovery then has an owner of its own. *)
Theorem fatal_recovery_stops_publication now generation (s s' : Service) e :
  reaches now generation s → step e s = Some s' → (rv_work_id (sv_recovery s) < u64_max)%N →
  rv_phase (sv_recovery s) = Fatal →
  (rv_phase (sv_recovery s') = Fatal ∧ sv_calls s' = sv_calls s
   ∧ rv_fatal_error (sv_recovery s') = rv_fatal_error (sv_recovery s))
  ∨ (∃ now reason last_error, e = StreamDisconnects now reason last_error
       ∧ rv_phase (sv_recovery s') = Idle)
  ∨ (∃ now source, e = FeedEnters now ∧ rv_phase (sv_recovery s') = Building
       ∧ sv_feed s' = FeedStarting (rv_work_id (sv_recovery s')) source).
Proof.
  intros Hr Hstep Hmax Hfatal. pose proof (reaches_ok _ _ _ Hr Hmax) as Hok.
  destruct (worker_event e) as [(now' & i & reply & ->)|Hne].
  - left. cbn in Hstep. pose proof Hstep as Hs. unfold worker_replies in Hs.
    destruct (sv_workers s !! i) as [[work_id task]|] eqn:Hi; [|done].
    assert (Hstale : is_current work_id s = false).
    { unfold is_current. apply N.eqb_neq. intros Heq.
      pose proof (owner_active s task Hok) as Ha. rewrite Hfatal in Ha. discriminate Ha.
      rewrite Heq. by eapply list_elem_of_lookup_2. }
    by destruct (stale_worker _ _ _ _ _ _ _ Hi Hstale Hstep) as [-> ->].
  - destruct (step_effect _ _ _ Hne Hstep) as [e Hr' Hc|e now' update buffered r flag Hb|now' flag source Hr'
        |e id Hr' Hc Ha|now' reason last Hr' Hc|e Hr' Hc].
    + left. by rewrite Hr'.
    + exfalso. by apply buffer_update_ok in Hb as (_ & _ & _ & ? & _).
    + right; right. eexists _, _. split_and!; [done|by rewrite Hr'|done].
    + by rewrite Hfatal in Ha.
    + right; left. eexists _, _, _. split; [done|]. by rewrite Hr'.
    + left. by rewrite Hr'.
Qed.

(** ** Fences *)

Abbreviation run := (run chain_id configured_backends recovery_max_buffered_native_blocks).

Lemma run_cons e es (s s' : Service) :
  run (e :: es) s = Some s' ↔ ∃ s1, step e s = Some s1 ∧ run es s1 = Some s'.
Proof.
  unfold RecoveryWork.run. cbn. destruct (step e s) as [s1|].
  - split; [by eauto|]. by intros (s2 & [= <-] & ?).
  - split; [|by intros (s2 & ? & _)]. intros Hr. exfalso. by induction es.
Qed.

Lemma run_grows es (s s' : Service) : run es s = Some s' → work_grows s s'.
Proof.
  revert s. induction es as [|e es IH]; intros s; [intros [= <-]; by apply work_same|].
  intros (s1 & Hstep & Hrun)%run_cons. intros Hmax.
  pose proof (IH s1 Hrun Hmax). pose proof (step_grows _ _ _ Hstep). unfold work_grows in *. lia.
Qed.

(** A step that does not change the identity of a recovery that is not active. *)
Lemma quiet_step now generation e (s s' : Service) :
  reaches now generation s → step e s = Some s' → (rv_work_id (sv_recovery s) < u64_max)%N →
  rv_work_id (sv_recovery s') = rv_work_id (sv_recovery s) →
  is_active (rv_phase (sv_recovery s)) = false →
  is_active (rv_phase (sv_recovery s')) = false
  ∧ ∃ calls, sv_calls s' = sv_calls s ++ calls
      ∧ Forall (λ call, ∃ update, call = CallPublishUpdate update) calls.
Proof.
  intros Hr Hstep Hmax Hsame Hidle. pose proof (reaches_ok _ _ _ Hr Hmax) as Hok.
  assert (Hnone : ∀ s1 : Service, sv_recovery s1 = sv_recovery s → sv_calls s1 = sv_calls s →
    is_active (rv_phase (sv_recovery s1)) = false ∧ ∃ calls, sv_calls s1 = sv_calls s ++ calls
      ∧ Forall (λ call, ∃ update, call = CallPublishUpdate update) calls).
  { intros s1 -> ->. split; [done|]. exists []. by rewrite app_nil_r. }
  destruct (worker_event e) as [(now' & i & reply & ->)|Hne].
  - pose proof Hstep as Hs. cbn in Hs. unfold worker_replies in Hs.
    destruct (sv_workers s !! i) as [[work_id task]|] eqn:Hi; [|done].
    assert (Hstale : is_current work_id s = false).
    { unfold is_current. apply N.eqb_neq. intros Heq.
      pose proof (owner_active s task Hok) as Ha. rewrite Hidle in Ha. discriminate Ha.
      rewrite Heq. by eapply list_elem_of_lookup_2. }
    destruct (stale_worker _ _ _ _ _ _ _ Hi Hstale Hstep). by apply Hnone.
  - destruct (step_effect _ _ _ Hne Hstep) as [e Hr' Hc|e now' update buffered r flag Hb Hr' Hc
        |now' flag source Hr'|e id Hr' Hc Ha|now' reason last Hr' Hc|e Hr' Hc].
    + by apply Hnone.
    + apply buffer_update_ok in Hb as (_ & _ & Hphase & _ & Hbuf & _). rewrite Hr', Hphase.
      split; [done|]. eexists. split; [exact Hc|]. destruct buffered; [by constructor|].
      constructor; [|by constructor]. by eexists.
    + exfalso. rewrite Hr' in Hsame. cbn in Hsame. unfold saturating_add in Hsame. lia.
    + by rewrite Hidle in Ha.
    + exfalso. rewrite Hr' in Hsame. cbn in Hsame. unfold saturating_add in Hsame. lia.
    + rewrite Hr'. cbn. split; [done|]. exists []. by rewrite app_nil_r.
Qed.

(** A recovery that is not active when its identity is taken, and has the same identity
    later, has not run in between: the publisher was called for live updates only.  This is
    the fence of a snapshot artifact between its capture and its installation. *)
Theorem unchanged_work_excludes_recovery now generation es (s s' : Service) :
  reaches now generation s → run es s = Some s' →
  rv_work_id (sv_recovery s') = rv_work_id (sv_recovery s) →
  (rv_work_id (sv_recovery s) < u64_max)%N → is_active (rv_phase (sv_recovery s)) = false →
  is_active (rv_phase (sv_recovery s')) = false
  ∧ ∃ calls, sv_calls s' = sv_calls s ++ calls
      ∧ Forall (λ call, ∃ update, call = CallPublishUpdate update) calls.
Proof.
  revert s. induction es as [|e es IH]; intros s Hr Hrun Hsame Hmax Hidle.
  - injection Hrun as <-. split; [done|]. exists []. by rewrite app_nil_r.
  - apply run_cons in Hrun as (s1 & Hstep & Hrun).
    pose proof (run_grows _ _ _ Hrun) as Hg1. pose proof (step_grows _ _ _ Hstep) as Hg0.
    unfold work_grows in *. assert (Hid1 : rv_work_id (sv_recovery s1) = rv_work_id (sv_recovery s)) by lia.
    destruct (quiet_step _ _ _ _ _ Hr Hstep Hmax Hid1 Hidle) as (Hidle1 & calls1 & Hc1 & Hf1).
    destruct (IH s1) as (Hend & calls2 & Hc2 & Hf2); [by eapply ReachesStep|done|congruence|congruence|done|].
    split; [done|]. exists (calls1 ++ calls2). rewrite Hc2, Hc1, app_assoc. split; [done|].
    by apply Forall_app.
Qed.
End facts.
