(* ===== verification/RecoveryDemo.v ===== *)
(** * A run of the recovery publication, for the witnesses *)

From S2P Require Import Prelude Ordered Text Protocol.
From S2P Require Import Wire Validate Codec TychoFeed RedisEntry Replay Recovery Store StorePools.
From S2P Require Import Health Publisher.
From S2P Require Import Reassembly RawMessage SnapshotExport RawCompaction SharedAccounts.
From S2P Require Import SnapshotCache ExportDemo CacheDemo RecoveryWork RecoveryFacts.

#[local] Existing Instance fields_tycho.
#[local] Existing Instance fields_raw.
#[local] Existing Instance fields_leaves.
#[local] Existing Instance fields_sync.
#[local] Existing Instance fields_serde.
#[local] Existing Instance fields_json.
#[local] Existing Instance fields_state.

Definition header_8 : BlockHeader :=
  {| demo_hash := "h"; demo_number := 8; demo_partial := None |}.

(** A live update after the replacement. *)
Definition live_feed : FeedMessage :=
  {| fm_state_msgs :=
       [("uniswap_v2", {| dm_header := header_8; dm_states := [("p3", 3%N)]; dm_accounts := [];
                          dm_deltas := None; dm_removed := [] |})];
     fm_sync_states := [("uniswap_v2", SyncReady header_8)] |}.

(** The stream comes back, two messages complete a replacement, and a live update follows
    while the replacement is serialised. *)
Definition recovery_events : list Event :=
  [StreamDisconnects 5 "restart" None;
   FeedArrives false recovery_feed_1; FeedEnters 6;
   FeedArrives false recovery_feed_2; FeedEnters 7; FeedReserved "recovery-1";
   FeedArrives false live_feed; FeedEnters 8].

Definition demo_run (es : list Event) : option Service :=
  run 1 [Native; Vm] 8 es (service_new 1 0 7).

Definition serialize_event : Event := WorkerReplies 9 0 (SerializeJoined None).

Lemma run_reaches es s :
  demo_run es = Some s → reaches 1 [Native; Vm] 8 0 7 s.
Proof.
  unfold demo_run, run. revert s. induction es as [|e es IH] using rev_ind; intros s.
  - intros [= <-]. apply ReachesNew.
  - rewrite foldl_app. cbn. destruct (foldl _ _ es) as [s0|] eqn:E; [|done]. cbn.
    intros Hstep. eapply ReachesStep; [|exact Hstep]. by apply IH.
Qed.

Lemma demo_runs es (P : Service → bool) :
  default false (P <$> demo_run es) = true → ∃ s, demo_run es = Some s ∧ P s = true.
Proof. destruct (demo_run es) as [s|]; [|done]. cbn. eauto. Qed.

(** While the replacement is serialised its worker owns the recovery. *)
Lemma recovery_has_one_owner_witness :
  ∃ s, demo_run recovery_events = Some s ∧ owners s = [2%N] ∧ NoDup (owners s)
    ∧ is_active (rv_phase (sv_recovery s)) = true.
Proof.
  destruct (demo_runs recovery_events
    (λ s, bool_decide (rv_work_id (sv_recovery s) = 2%N) && bool_decide (owners s = [2%N])))
    as (s & Hrun & Hs); [vm_compute; reflexivity|].
  apply andb_true_iff in Hs as [Hid%bool_decide_eq_true Ho%bool_decide_eq_true].
  destruct (recovery_has_one_owner 1 [Native; Vm] 8 0 7 s (run_reaches _ _ Hrun))
    as (Hnd & Hact & _); [rewrite Hid; reflexivity|].
  exists s. split_and!; [exact Hrun|exact Ho|exact Hnd|].
  apply Hact. rewrite Hid, Ho. apply list_elem_of_here.
Defined.

(** The transaction holds the live update, whose commit is still to come. *)
Lemma transaction_rebuilds_cache_witness :
  ∃ s s' source transaction flag,
    demo_run recovery_events = Some s
    ∧ step 1 [Native; Vm] 8 serialize_event s = Some s'
    ∧ sv_calls s' = sv_calls s ++ [CallPublishRecovery source transaction flag]
    ∧ length (tx_buffer_a transaction) = 1
    ∧ replayed source (tx_buffer_a transaction) = settled s'.
Proof.
  assert (∃ s s' source transaction flag,
    demo_run recovery_events = Some s
    ∧ step 1 [Native; Vm] 8 serialize_event s = Some s'
    ∧ sv_calls s' = sv_calls s ++ [CallPublishRecovery source transaction flag]
    ∧ length (tx_buffer_a transaction) = 1
    ∧ (rv_work_id (sv_recovery s') <? u64_max)%N = true)
    as (s & s' & source & transaction & flag & Hrun & Hstep & Hcalls & Hlen & Hmax%N.ltb_lt).
  { do 5 eexists. split; [vm_compute; reflexivity|]. split; [vm_compute; reflexivity|].
    split; [cbn [sv_calls app]; reflexivity|]. split; vm_compute; reflexivity. }
  exists s, s', source, transaction, flag.
  split_and!; [exact Hrun|exact Hstep|exact Hcalls|exact Hlen|].
  apply (transaction_rebuilds_cache 1 [Native; Vm] 8 0 7 s s' serialize_event source transaction flag
           (run_reaches _ _ Hrun) Hstep Hmax Hcalls).
Defined.

(** The worker panics, and then a feed message comes. *)
Definition fatal_events : list Event := recovery_events ++ [WorkerReplies 9 0 WorkerPanicked].

Lemma fatal_recovery_stops_publication_witness :
  ∃ s s', demo_run fatal_events = Some s ∧ rv_phase (sv_recovery s) = Fatal
    ∧ step 1 [Native; Vm] 8 FeedCommits s = Some s'
    ∧ rv_phase (sv_recovery s') = Fatal ∧ sv_calls s' = sv_calls s.
Proof.
  destruct (demo_runs fatal_events
    (λ s, bool_decide (rv_work_id (sv_recovery s) = 2%N)
          && bool_decide (rv_phase (sv_recovery s) = Fatal)
          && bool_decide (is_Some (step 1 [Native; Vm] 8 FeedCommits s))))
    as (s & Hrun & Hs); [vm_compute; reflexivity|].
  apply andb_true_iff in Hs as [Hs [s' Hstep]%bool_decide_eq_true].
  apply andb_true_iff in Hs as [Hid%bool_decide_eq_true Hf%bool_decide_eq_true].
  destruct (fatal_recovery_stops_publication 1 [Native; Vm] 8 0 7 s s' FeedCommits
              (run_reaches _ _ Hrun) Hstep) as [(Hp & Hc & _)|[(?&?&?&He&_)|(?&?&He&_)]];
    [rewrite Hid; reflexivity|exact Hf| |discriminate He|discriminate He].
  exists s, s'. split_and!; [exact Hrun|exact Hf|exact Hstep|exact Hp|exact Hc].
Defined.

(** The first message of the replacement changes nothing yet. *)
Lemma unchanged_work_excludes_recovery_witness :
  ∃ s s', demo_run [StreamDisconnects 5 "restart" None] = Some s
    ∧ run 1 [Native; Vm] 8 [FeedArrives false recovery_feed_1; FeedEnters 6] s = Some s'
    ∧ is_active (rv_phase (sv_recovery s')) = false
    ∧ ∃ calls, sv_calls s' = sv_calls s ++ calls
        ∧ Forall (λ call, ∃ update, call = CallPublishUpdate update) calls.
Proof.
  destruct (demo_runs [StreamDisconnects 5 "restart" None]
    (λ s, match run 1 [Native; Vm] 8 [FeedArrives false recovery_feed_1; FeedEnters 6] s with
          | Some s' => bool_decide (rv_work_id (sv_recovery s') = rv_work_id (sv_recovery s))
                       && (rv_work_id (sv_recovery s) <? u64_max)%N
                       && negb (is_active (rv_phase (sv_recovery s)))
          | None => false
          end))
    as (s & Hrun & Hs); [vm_compute; reflexivity|].
  destruct (run 1 [Native; Vm] 8 _ s) as [s'|] eqn:Hlater; [|discriminate Hs].
  apply andb_true_iff in Hs as [Hs Hidle%negb_true_iff].
  apply andb_true_iff in Hs as [Hid%bool_decide_eq_true Hmax%N.ltb_lt].
  exists s, s'. split; [exact Hrun|]. split; [exact Hlater|].
  exact (unchanged_work_excludes_recovery 1 [Native; Vm] 8 0 7 _ s s' (run_reaches _ _ Hrun)
           Hlater Hid Hmax Hidle).
Defined.
