(* ===== verification/SnapshotArtifact.v ===== *)
(** * Snapshot artifacts of the broadcaster service

    [runtime/src/broadcaster/service.rs]: an export with its payloads in numbered envelopes,
    which snapshot sessions read.  At startup the candidate is measured before the generation
    is known, with the longest identities there are, and gets its own when the writer is
    promoted. *)

From S2P Require Import Prelude Ordered Text Protocol.
From S2P Require Import Wire Validate Codec TychoFeed RedisEntry Replay Recovery Store.
From S2P Require Import Reassembly RawMessage SnapshotExport.

Section artifact.
Context `{TychoTypes} `{!SerdeJson} `{Keccak}.

Record BroadcasterSnapshotArtifact := {
  ar_chain_id : u64;
  ar_stream_id : string;
  ar_snapshot_id : string;
  ar_redis_replay_boundary : BroadcasterRedisReplayBoundary;
  ar_payloads : list BroadcasterEnvelope;
  ar_snapshot_chunk_count : u32;
  ar_encoded_bytes : usize;
}.

Record BroadcasterSnapshotCandidate := {
  ca_chain_id : u64;
  ca_export : BroadcasterSnapshotExport;
  ca_base_heads : list BroadcasterBackendHead;
  ca_captured_recovery_work_ids : list u64;
  ca_handoff_id : u64;
  ca_snapshot_chunk_count : u32;
  ca_encoded_bytes_upper_bound : usize;
  ca_largest_payload_bytes_upper_bound : usize;
  ca_payload_digests : list string;
}.

Definition relabel_payload (snapshot_id : string) (payload : BroadcasterPayload) :
    BroadcasterPayload :=
  match payload with
  | SnapshotStart start =>
      SnapshotStart {| ss_snapshot_id := snapshot_id; ss_chain_id := ss_chain_id start;
                       ss_backends := ss_backends start; ss_total_chunks := ss_total_chunks start |}
  | SnapshotChunk chunk =>
      SnapshotChunk {| sc_snapshot_id := snapshot_id; sc_chunk_index := sc_chunk_index chunk;
                       sc_partitions := sc_partitions chunk |}
  | SnapshotEnd _ => SnapshotEnd {| sn_snapshot_id := snapshot_id |}
  | _ => payload
  end.

Definition relabel_snapshot_export (stream_id snapshot_id : string)
    (export : BroadcasterSnapshotExport) : BroadcasterSnapshotExport :=
  {| xp_stream_id := stream_id; xp_snapshot_id := snapshot_id;
     xp_max_payload_bytes := xp_max_payload_bytes export;
     xp_payloads := map (relabel_payload snapshot_id) (xp_payloads export) |}.

Definition is_snapshot_payload (payload : BroadcasterPayload) : bool :=
  match payload with SnapshotStart _ | SnapshotChunk _ | SnapshotEnd _ => true | _ => false end.
Definition is_snapshot_chunk (payload : BroadcasterPayload) : bool :=
  match payload with SnapshotChunk _ => true | _ => false end.

(** [u64::try_from(index).unwrap_or(u64::MAX).saturating_add(1)]. *)
Definition payload_seq (index : nat) : u64 := saturating_add (N.min (N.of_nat index) u64_max) 1.

(** The envelopes of the payloads, numbered from one. *)
Definition number_payloads (stream_id : string) (payloads : list BroadcasterPayload) :
    list BroadcasterEnvelope :=
  imap (λ index payload,
      {| env_stream_id := stream_id; env_message_seq := payload_seq index;
         env_payload := payload |}) payloads.

Definition above_max (what : string) (index : nat) (size max : usize) : AnyhowError :=
  anyhow_error (what +:+ u64_to_string (N.of_nat index) +:+ " is " +:+ u64_to_string size
                  +:+ " bytes, above configured max " +:+ u64_to_string max).

(** What the loop over the payloads of a candidate measures. *)
Record Measured := {
  me_encoded_bytes : usize;
  me_largest : usize;
  me_digests : list string;
}.

Definition measure_payload (export : BroadcasterSnapshotExport) (m : Measured)
    (payload : nat * BroadcasterPayload) : anyhow Measured :=
  let '(index, payload) := payload in
  ensure (is_snapshot_payload payload)
    (anyhow_error "startup snapshot candidate contains a non-snapshot payload") ;;
  encoded ← map_err anyhow_error
              (json_of_envelope
                 {| env_stream_id := xp_stream_id export; env_message_seq := payload_seq index;
                    env_payload := payload |});
  ensure (str_len encoded <=? xp_max_payload_bytes export)%N
    (above_max "startup snapshot payload " index (str_len encoded) (xp_max_payload_bytes export)) ;;
  Ok {| me_encoded_bytes := saturating_add (me_encoded_bytes m) (str_len encoded);
        me_largest := N.max (me_largest m) (str_len encoded);
        me_digests := me_digests m ++ [digest_bytes encoded] |}.

Definition count_chunks (payloads : list BroadcasterPayload) : u32 :=
  as_u32 (len (filter (λ payload, is_snapshot_chunk payload = true) payloads)).

Definition build_snapshot_candidate (chain_id : u64) (export : BroadcasterSnapshotExport)
    (base_heads : list BroadcasterBackendHead) (captured_recovery_work_ids : list u64)
    (handoff_id : u64) : anyhow BroadcasterSnapshotCandidate :=
  let export :=
    relabel_snapshot_export (format_redis_stream_id chain_id u64_max)
      (format_redis_snapshot_id chain_id u64_max) export in
  measured ← fold_result (measure_payload export)
               {| me_encoded_bytes := 0; me_largest := 0; me_digests := [] |}
               (imap pair (xp_payloads export));
  Ok {| ca_chain_id := chain_id; ca_export := export; ca_base_heads := base_heads;
        ca_captured_recovery_work_ids := captured_recovery_work_ids;
        ca_handoff_id := handoff_id;
        ca_snapshot_chunk_count := count_chunks (xp_payloads export);
        ca_encoded_bytes_upper_bound := me_encoded_bytes measured;
        ca_largest_payload_bytes_upper_bound := me_largest measured;
        ca_payload_digests := me_digests measured |}.

Definition finalize_snapshot_candidate (candidate : BroadcasterSnapshotCandidate)
    (redis_replay_boundary : BroadcasterRedisReplayBoundary) : BroadcasterSnapshotArtifact :=
  let export :=
    relabel_snapshot_export (bd_stream_id redis_replay_boundary)
      (bd_snapshot_id redis_replay_boundary) (ca_export candidate) in
  {| ar_chain_id := ca_chain_id candidate;
     ar_stream_id := bd_stream_id redis_replay_boundary;
     ar_snapshot_id := bd_snapshot_id redis_replay_boundary;
     ar_redis_replay_boundary := redis_replay_boundary;
     ar_payloads := number_payloads (bd_stream_id redis_replay_boundary) (xp_payloads export);
     ar_snapshot_chunk_count := ca_snapshot_chunk_count candidate;
     ar_encoded_bytes := ca_encoded_bytes_upper_bound candidate |}.

(** The envelopes of [build_snapshot_artifact]: the counter runs along. *)
Fixpoint envelopes_from (stream_id : string) (message_seq : u64)
    (payloads : list BroadcasterPayload) : list BroadcasterEnvelope :=
  match payloads with
  | [] => []
  | payload :: payloads =>
      {| env_stream_id := stream_id; env_message_seq := message_seq; env_payload := payload |}
      :: envelopes_from stream_id (saturating_add message_seq 1) payloads
  end.

Definition weigh_envelope (max_payload_bytes : usize) (sizes : usize * usize)
    (envelope : nat * BroadcasterEnvelope) : anyhow (usize * usize) :=
  let '(largest, encoded) := sizes in
  let '(index, envelope) := envelope in
  bytes ← envelope_size envelope;
  ensure (bytes <=? max_payload_bytes)%N
    (above_max "snapshot payload " index bytes max_payload_bytes) ;;
  Ok (N.max largest bytes, saturating_add encoded bytes).

Definition build_snapshot_artifact (chain_id : u64) (export : BroadcasterSnapshotExport)
    (redis_replay_boundary : BroadcasterRedisReplayBoundary) :
    anyhow (BroadcasterSnapshotArtifact * usize) :=
  ensure (String.eqb (xp_stream_id export) (bd_stream_id redis_replay_boundary))
    (anyhow_error "snapshot stream_id mismatch with Redis replay boundary") ;;
  ensure (String.eqb (xp_snapshot_id export) (bd_snapshot_id redis_replay_boundary))
    (anyhow_error "snapshot_id mismatch with Redis replay boundary") ;;
  let payloads := envelopes_from (xp_stream_id export) 1 (xp_payloads export) in
  sizes ← fold_result (weigh_envelope (xp_max_payload_bytes export)) (0, 0)%N
            (imap pair payloads);
  Ok ({| ar_chain_id := chain_id; ar_stream_id := xp_stream_id export;
         ar_snapshot_id := xp_snapshot_id export;
         ar_redis_replay_boundary := redis_replay_boundary; ar_payloads := payloads;
         ar_snapshot_chunk_count := count_chunks (map env_payload payloads);
         ar_encoded_bytes := sizes.2 |}, sizes.1).

Definition artifact_matches_current_boundary (artifact : BroadcasterSnapshotArtifact)
    (current : BroadcasterRedisReplayBoundary) : bool :=
  String.eqb (ar_stream_id artifact) (bd_stream_id current)
  && String.eqb (ar_snapshot_id artifact) (bd_snapshot_id current)
  && (bd_generation (ar_redis_replay_boundary artifact) =? bd_generation current)%N
  && (bd_exclusive_message_seq (ar_redis_replay_boundary artifact)
        <=? bd_exclusive_message_seq current)%N.
End artifact.
