(* ===== verification/ArtifactFacts.v ===== *)
(** * The snapshot artifact that is published

    A candidate is measured with the labels of the largest generation; relabelling it with
    those of the promoted one makes no payload longer, so that what was measured bounds what
    sessions are served. *)

From S2P Require Import Prelude Ordered Text Protocol.
From S2P Require Import Wire Validate Codec TychoFeed RedisEntry Replay Recovery Store.
From S2P Require Import Reassembly RawMessage SnapshotExport SnapshotArtifact.

(** ** Labels *)

(** A character that JSON writes as it is. *)
Definition plain_char (c : ascii) : bool :=
  let n := byte_of c in
  ((32 <=? n) && (n <=? 126))%N && negb (n =? 34)%N && negb (n =? 92)%N.

Fixpoint plain (s : string) : bool :=
  match s with EmptyString => true | String c s => plain_char c && plain s end.

Lemma plain_append a b : plain (a +:+ b) = plain a && plain b.
Proof.
  induction a as [|c a IH]; [done|]. change (String c a +:+ b) with (String c (a +:+ b)). cbn.
  by rewrite IH, andb_assoc.
Qed.

Lemma plain_digit d : (d < 10)%N → plain_char (digit_char d) = true.
Proof.
  intros Hd. destruct d as [|p]; [done|].
  do 4 (destruct p as [p|p|]; try done; try lia).
Qed.

Lemma plain_digits fuel n acc : plain acc = true → plain (dec_digits fuel n acc) = true.
Proof.
  revert n acc. induction fuel as [|fuel IH]; intros n acc Ha; [done|]. cbn [dec_digits].
  assert (plain (String (digit_char (n mod 10)) acc) = true).
  { cbn [plain]. rewrite plain_digit, Ha; [done|]. by apply N.mod_lt. }
  case_match; [done|]. by apply IH.
Qed.

Lemma digits_length fuel n acc :
  (String.length (dec_digits fuel n acc) ≤ fuel + String.length acc)%nat.
Proof.
  revert n acc. induction fuel as [|fuel IH]; intros n acc; [done|]. cbn [dec_digits].
  case_match; cbn; [lia|]. etrans; [apply IH|]. cbn. lia.
Qed.

(** ** Redis identities *)

Lemma plain_number n : plain (u64_to_string n) = true.
Proof. by apply plain_digits. Qed.

Lemma number_shorter n : (str_len (u64_to_string n) ≤ str_len (u64_to_string u64_max))%N.
Proof.
  change (str_len (u64_to_string u64_max)) with 20%N. unfold str_len, u64_to_string.
  pose proof (digits_length 20 n ""). cbn in *. lia.
Qed.

(** The identity of a generation, and that of the largest. *)
Definition label_ok (label longest : string) : Prop :=
  plain label = true ∧ plain longest = true ∧ (str_len label ≤ str_len longest)%N.

Lemma stream_id_label chain generation :
  label_ok (format_redis_stream_id chain generation) (format_redis_stream_id chain u64_max).
Proof.
  unfold label_ok, format_redis_stream_id. rewrite !plain_append, !plain_number, !str_len_app.
  pose proof (number_shorter generation). split_and!; [done..|lia].
Qed.

Lemma snapshot_id_label chain generation :
  label_ok (format_redis_snapshot_id chain generation) (format_redis_snapshot_id chain u64_max).
Proof.
  unfold label_ok, format_redis_snapshot_id. rewrite !plain_append, !plain_number, !str_len_app.
  pose proof (number_shorter generation). split_and!; [done..|lia].
Qed.

Section facts.
Context `{TychoTypes} `{!SerdeJson} `{Keccak}.

Definition labelled (stream_id snapshot_id : string) (index : nat) (payload : BroadcasterPayload) :
    BroadcasterEnvelope :=
  {| env_stream_id := stream_id; env_message_seq := payload_seq index;
     env_payload := relabel_payload snapshot_id payload |}.

(** What [serde_json] does with strings: one of plain characters is written as it is between
    quotes, so shorter identities make the JSON of an envelope no longer. *)
Class LabelJson := {
  relabelled_size stream stream' snapshot snapshot' index payload n :
    label_ok stream stream' → label_ok snapshot snapshot' →
    envelope_size (labelled stream' snapshot' index payload) = Ok n →
    ∃ m, envelope_size (labelled stream snapshot index payload) = Ok m ∧ (m ≤ n)%N;
}.

(** ** Measuring *)

Lemma relabel_relabel a b payload :
  relabel_payload a (relabel_payload b payload) = relabel_payload a payload.
Proof. by destruct payload. Qed.

Lemma imap_shift {A B} (f : nat → A → B) x l :
  imap f (x :: l) = f 0 x :: imap (λ i, f (S i)) l.
Proof. done. Qed.

Definition numbered_from {A} (k : nat) (l : list A) : list (nat * A) := imap (λ i x, (k + i, x)) l.

Lemma numbered_cons {A} k (x : A) l : numbered_from k (x :: l) = (k, x) :: numbered_from (S k) l.
Proof.
  unfold numbered_from. rewrite imap_shift, Nat.add_0_r. f_equal. apply imap_ext.
  intros i y _. cbn. f_equal. lia.
Qed.

Lemma numbered_zero {A} (l : list A) : imap pair l = numbered_from 0 l.
Proof. done. Qed.

(** The sizes of the envelopes of a measured candidate. *)
Lemma measured_sizes export stream snapshot k l m m' :
  xp_stream_id export = stream →
  fold_result (measure_payload export) m
    (numbered_from k (map (relabel_payload snapshot) l)) = Ok m' →
  (me_encoded_bytes m ≤ u64_max)%N →
  ∃ sizes,
    Forall2 (λ '(i, p) n, envelope_size (labelled stream snapshot i p) = Ok n)
      (numbered_from k l) sizes
    ∧ Forall (λ n, n ≤ me_largest m' ∧ n ≤ xp_max_payload_bytes export)%N sizes
    ∧ (me_largest m ≤ me_largest m')%N
    ∧ me_encoded_bytes m' = N.min (me_encoded_bytes m + foldr N.add 0%N sizes) u64_max.
Proof.
  intros Hstream. revert k m. induction l as [|p l IH]; intros k m.
  - intros [= <-] Hm. exists []. split_and!; [constructor..|done|]. cbn. lia.
  - cbn [map]. rewrite numbered_cons. cbn [fold_result measure_payload].
    intros (m1 & Hp & Hrest)%bind_ok Hm.
    apply seq_ok in Hp as [_ (encoded & He & Hp)%bind_ok].
    apply seq_ok in Hp as [Hfit%ensure_ok [= <-]]. apply N.leb_le in Hfit.
    destruct (IH _ _ Hrest) as (sizes & Hs & Hl & Hgrow & Hsum);
      [cbn; unfold saturating_add; lia|].
    cbn in Hgrow, Hsum. exists (str_len encoded :: sizes). split_and!.
    + rewrite numbered_cons. constructor; [|done]. unfold envelope_size, labelled.
      rewrite <- Hstream. by rewrite He.
    + constructor; [|done]. lia.
    + lia.
    + rewrite Hsum. cbn. unfold saturating_add. lia.
Qed.

Lemma map_fmap {A B} (f : A → B) l : map f l = f <$> l.
Proof. done. Qed.

(** The artifact of a candidate, in terms of the export. *)
Lemma finalized_payloads chain_id export base_heads work_ids handoff candidate boundary :
  build_snapshot_candidate chain_id export base_heads work_ids handoff = Ok candidate →
  ar_payloads (finalize_snapshot_candidate candidate boundary)
  = imap (labelled (bd_stream_id boundary) (bd_snapshot_id boundary)) (xp_payloads export).
Proof.
  intros (measured & _ & [= <-])%bind_ok. cbn. unfold number_payloads.
  rewrite !map_fmap, !imap_fmap. apply imap_ext. intros i p _. cbn. unfold labelled. by rewrite relabel_relabel.
Qed.

Lemma labelled_shrinks `{!LabelJson} stream stream' snapshot snapshot' k l sizes :
  label_ok stream stream' → label_ok snapshot snapshot' →
  Forall2 (λ '(i, p) n, envelope_size (labelled stream' snapshot' i p) = Ok n)
    (numbered_from k l) sizes →
  ∃ sizes', Forall2 (λ '(i, p) n, envelope_size (labelled stream snapshot i p) = Ok n)
              (numbered_from k l) sizes'
    ∧ Forall2 N.le sizes' sizes.
Proof.
  intros Hst Hsn. revert k sizes. induction l as [|p l IH]; intros k sizes.
  - intros ->%Forall2_nil_inv_l. exists []. split; constructor.
  - rewrite numbered_cons. intros (n & sizes1 & Hn & Hrest & ->)%Forall2_cons_inv_l.
    destruct (IH _ _ Hrest) as (sizes' & Hs & Hle).
    destruct (relabelled_size _ _ _ _ _ _ _ Hst Hsn Hn) as (m & Hm & Hmn).
    exists (m :: sizes'). by split; constructor.
Qed.

Lemma smaller_sums (sizes' sizes : list N) :
  Forall2 N.le sizes' sizes → (foldr N.add 0 sizes' ≤ foldr N.add 0 sizes)%N.
Proof. induction 1; cbn; lia. Qed.

Lemma sizes_of_envelopes stream snapshot l sizes :
  Forall2 (λ '(i, p) n, envelope_size (labelled stream snapshot i p) = Ok n)
    (numbered_from 0 l) sizes →
  Forall2 (λ e n, envelope_size e = Ok n) (imap (labelled stream snapshot) l) sizes.
Proof.
  intros Hs. replace (imap (labelled stream snapshot) l)
    with ((λ '(i, p), labelled stream snapshot i p) <$> numbered_from 0 l).
  - apply Forall2_fmap_l. eapply Forall2_impl; [exact Hs|]. by intros [i p] n.
  - unfold numbered_from. rewrite fmap_imap. done.
Qed.

(** C13: what was measured of a startup candidate, before its generation was known, holds for
    the artifact of the generation that is promoted: the artifact has the payloads of the
    export, numbered from one under the identities of the boundary, no payload is longer than
    the largest that was measured nor than the configured maximum, and together they are no
    longer than the bytes the artifact is charged with. *)
Theorem startup_artifact_within_bounds `{!LabelJson} chain_id export base_heads work_ids handoff
    candidate boundary :
  build_snapshot_candidate chain_id export base_heads work_ids handoff = Ok candidate →
  bd_stream_id boundary = format_redis_stream_id chain_id (bd_generation boundary) →
  bd_snapshot_id boundary = format_redis_snapshot_id chain_id (bd_generation boundary) →
  let artifact := finalize_snapshot_candidate candidate boundary in
  ar_payloads artifact
    = imap (labelled (bd_stream_id boundary) (bd_snapshot_id boundary)) (xp_payloads export)
  ∧ artifact_matches_current_boundary artifact boundary = true
  ∧ ∃ sizes,
      Forall2 (λ envelope n, envelope_size envelope = Ok n) (ar_payloads artifact) sizes
      ∧ Forall (λ n, n ≤ ca_largest_payload_bytes_upper_bound candidate
                     ∧ n ≤ xp_max_payload_bytes export)%N sizes
      ∧ (N.min (foldr N.add 0 sizes) u64_max ≤ ar_encoded_bytes artifact)%N.
Proof.
  intros Hc Hst Hsn artifact.
  pose proof (finalized_payloads _ _ _ _ _ _ boundary Hc) as Hpay. fold artifact in Hpay.
  split_and!; [done| |].
  { unfold artifact_matches_current_boundary. cbn. by rewrite !String.eqb_refl, N.eqb_refl, N.leb_refl. }
  apply bind_ok in Hc as (measured & Hm & [= <-]). cbn in Hm.
  destruct (measured_sizes _ _ _ 0 _ _ _ eq_refl Hm) as (sizes & Hs & Hl & _ & Hsum); [done|].
  destruct (labelled_shrinks (bd_stream_id boundary) _ (bd_snapshot_id boundary) _ _ _ _
              ltac:(rewrite Hst; apply stream_id_label)
              ltac:(rewrite Hsn; apply snapshot_id_label) Hs) as (sizes' & Hs' & Hle).
  exists sizes'. rewrite Hpay. split_and!; [by apply sizes_of_envelopes| |].
  - clear -Hle Hl. induction Hle; [constructor|].
    apply Forall_cons in Hl as [[? ?] ?]. constructor; [cbn in *; lia|auto].
  - cbn. rewrite Hsum. cbn. pose proof (smaller_sums _ _ Hle). lia.
Qed.

(** ** Refreshing *)

Lemma envelopes_numbered stream k payloads :
  envelopes_from stream (payload_seq k) payloads
  = imap (λ i p, {| env_stream_id := stream; env_message_seq := payload_seq (k + i);
                    env_payload := p |}) payloads.
Proof.
  revert k. induction payloads as [|p l IH]; intros k; [done|].
  cbn [envelopes_from]. rewrite imap_shift, Nat.add_0_r. f_equal.
  replace (saturating_add (payload_seq k) 1) with (payload_seq (S k))
    by (unfold payload_seq, saturating_add; lia).
  rewrite IH. apply imap_ext. intros i x _. cbn. by replace (k + S i)%nat with (S (k + i))%nat by lia.
Qed.

Lemma mapM_ok {E A B} (f : A → result E B) l k :
  mapM f l = Ok k → Forall (λ y, ∃ x, f x = Ok y) k.
Proof.
  revert k. induction l as [|x l IH]; intros k; cbn; [by intros [= <-]; constructor|].
  intros (y & Hy & (k1 & Hk & [= <-])%bind_ok)%bind_ok. constructor; eauto.
Qed.

(** Every payload of a combined export carries its identity. *)
Definition self_labelled (export : BroadcasterSnapshotExport) : Prop :=
  Forall (λ payload, relabel_payload (xp_snapshot_id export) payload = payload)
    (xp_payloads export).

Lemma combined_labels chain_id exports export :
  combine_snapshot_exports chain_id exports = Ok export → self_labelled export.
Proof.
  unfold combine_snapshot_exports. destruct exports as [|first rest]; [done|].
  intros ([backends chunks] & _ & Hrest)%bind_ok.
  apply bind_ok in Hrest as (start & Hstart & (renumbered & Hch & [= <-])%bind_ok).
  unfold self_labelled. cbn. constructor; [|apply Forall_app; split; [|by repeat constructor]].
  - destruct (BroadcasterSnapshotStart_new _ _ _ _) as [st|] eqn:E; [|done].
    cbn in Hstart. injection Hstart as ->. apply seq_ok in E as [_ [= <-]]. done.
  - apply Forall_map, Forall_impl with (2 := ltac:(intros ? Hx; exact Hx)).
    apply mapM_ok in Hch. eapply Forall_impl; [exact Hch|]. intros chunk [[i c] Hc]. cbn.
    destruct (BroadcasterSnapshotChunk_new _ _ _) as [ck|] eqn:E; [|done].
    cbn in Hc. injection Hc as ->. apply seq_ok in E as [_ [= <-]]. done.
Qed.

Lemma self_labelled_envelopes export i p :
  self_labelled export → xp_payloads export !! i = Some p →
  relabel_payload (xp_snapshot_id export) p = p.
Proof. intros Hall Hi. by eapply (proj1 (Forall_lookup _ _) Hall). Qed.

Lemma envelopes_payloads stream n payloads :
  map env_payload (envelopes_from stream n payloads) = payloads.
Proof. revert n. induction payloads as [|p l IH]; intros n; cbn; by rewrite ?IH. Qed.

Lemma count_relabelled snapshot payloads :
  count_chunks (map (relabel_payload snapshot) payloads) = count_chunks payloads.
Proof.
  unfold count_chunks, len. do 2 f_equal. induction payloads as [|p l IH]; [done|].
  cbn [map]. rewrite !filter_cons.
  replace (is_snapshot_chunk (relabel_payload snapshot p)) with (is_snapshot_chunk p) by (by destruct p).
  case_decide; cbn; by rewrite IH.
Qed.

(** The artifact of a promoted startup candidate is the one that a refresh builds from
    the same export at the same boundary: the same envelopes, identities, boundary and number
    of chunks. *)
Theorem startup_and_refresh_agree chain_id exports export base_heads work_ids handoff
    candidate boundary artifact largest :
  combine_snapshot_exports chain_id exports = Ok export →
  build_snapshot_candidate chain_id export base_heads work_ids handoff = Ok candidate →
  build_snapshot_artifact chain_id export boundary = Ok (artifact, largest) →
  let promoted := finalize_snapshot_candidate candidate boundary in
  ar_payloads promoted = ar_payloads artifact
  ∧ ar_stream_id promoted = ar_stream_id artifact
  ∧ ar_snapshot_id promoted = ar_snapshot_id artifact
  ∧ ar_chain_id promoted = ar_chain_id artifact
  ∧ ar_redis_replay_boundary promoted = ar_redis_replay_boundary artifact
  ∧ ar_snapshot_chunk_count promoted = ar_snapshot_chunk_count artifact.
Proof.
  intros Hcomb%combined_labels Hc Ha promoted.
  pose proof (finalized_payloads _ _ _ _ _ _ boundary Hc) as Hpay. fold promoted in Hpay.
  apply seq_ok in Ha as [Hst%ensure_ok%String.eqb_eq Ha].
  apply seq_ok in Ha as [Hsn%ensure_ok%String.eqb_eq Ha].
  apply bind_ok in Ha as (sizes & _ & [= <- _]). cbn [ar_payloads].
  assert (Hsame : imap (labelled (bd_stream_id boundary) (bd_snapshot_id boundary)) (xp_payloads export)
                  = envelopes_from (xp_stream_id export) 1 (xp_payloads export)).
  { rewrite (envelopes_numbered _ 0). apply imap_ext. intros i p Hp. unfold labelled.
    by rewrite <- Hsn, (self_labelled_envelopes export i p), Hst. }
  apply bind_ok in Hc as (measured & _ & [= <-]).
  split; [by rewrite Hpay|]. split_and!; try done.
  cbn. by rewrite envelopes_payloads, count_relabelled.
Qed.
End facts.
