(* ===== verification/SnapshotSessions.v ===== *)
(** * Snapshot sessions of the broadcaster service

    [BroadcasterSnapshotSessionRegistry] and its callers in
    [runtime/src/broadcaster/service.rs].  A session keeps an artifact alive until it expires
    and serves its payloads by index; the registry bounds the number of sessions and the
    bytes of the artifacts they keep. *)

From S2P Require Import Prelude Ordered Text Protocol.
From S2P Require Import Wire Validate Codec TychoFeed RedisEntry Replay Recovery Store.
From S2P Require Import Health Reassembly RawMessage SnapshotExport SnapshotArtifact.
From S2P Require Import Processor Consumer Supervisor.

Definition SNAPSHOT_BOUNDARY_RETENTION_CACHE_TTL : Duration := from_secs 5.
Definition MAX_SNAPSHOT_SESSIONS : usize := 128.
Definition MAX_CONCURRENT_SNAPSHOT_FETCHES : usize := 64.
Definition MAX_RETAINED_SNAPSHOT_BYTES : usize := 512 * 1024 * 1024.

Inductive SnapshotSessionError := SessionNotFound | SessionExpired | PayloadOutOfRange | SessionBusy.

Inductive SessionCloseReason := CloseExpired | CloseWriterFenceLost.

Definition SessionCloseReason_label (reason : SessionCloseReason) : string :=
  match reason with CloseExpired => "expired" | CloseWriterFenceLost => "writer_fence_lost" end.

(** The artifact is an [Arc], by its identity. *)
Record PendingSnapshotSession := { pss_artifact : N; pss_expires_at : Instant }.

Definition session_is_expired (now : Instant) (session : PendingSnapshotSession) : bool :=
  (pss_expires_at session <=? now)%N.

Record SnapshotSessionRegistry := {
  reg_next_session_id : u64;
  reg_last_error : option string;
  reg_pending : gmap u64 PendingSnapshotSession;
}.

Definition registry_new : SnapshotSessionRegistry :=
  {| reg_next_session_id := 1; reg_last_error := None; reg_pending := ∅ |}.

Definition with_pending (f : gmap u64 PendingSnapshotSession → gmap u64 PendingSnapshotSession)
    (reg : SnapshotSessionRegistry) : SnapshotSessionRegistry :=
  {| reg_next_session_id := reg_next_session_id reg; reg_last_error := reg_last_error reg;
     reg_pending := f (reg_pending reg) |}.

Definition record_last_error (message : string) (reg : SnapshotSessionRegistry) :
    SnapshotSessionRegistry :=
  {| reg_next_session_id := reg_next_session_id reg; reg_last_error := Some message;
     reg_pending := reg_pending reg |}.

Definition record_session_closed (session_id : u64) (reason : SessionCloseReason) :
    SnapshotSessionRegistry → SnapshotSessionRegistry :=
  record_last_error ("snapshot session " +:+ u64_to_string session_id +:+ " closed: "
                       +:+ SessionCloseReason_label reason).

(** [next_session_id.fetch_add(1)]. *)
Definition take_session_id (reg : SnapshotSessionRegistry) : SnapshotSessionRegistry :=
  {| reg_next_session_id := (reg_next_session_id reg + 1) mod 2 ^ 64;
     reg_last_error := reg_last_error reg; reg_pending := reg_pending reg |}.

(** [ttl.as_millis().try_into().unwrap_or(u64::MAX)]. *)
Definition ttl_millis (ttl : Duration) : u64 := N.min (as_millis ttl) u64_max.

Section sessions.
Context `{TychoTypes}.
(** What an identity stands for, and the order in which a [HashMap] is visited. *)
Context (deref : N → BroadcasterSnapshotArtifact).
Context (iter : gmap u64 PendingSnapshotSession → list (u64 * PendingSnapshotSession)).

(** The loop over the sessions: the identities seen, and the bytes they keep. *)
Definition retain_artifact (seen : gset N * usize) (artifact : N) : gset N * usize :=
  let '(artifacts, bytes) := seen in
  if bool_decide (artifact ∈ artifacts) then seen
  else ({[ artifact ]} ∪ artifacts, saturating_add bytes (ar_encoded_bytes (deref artifact))).

Definition retained_with (sessions : gmap u64 PendingSnapshotSession) (artifact : N) : usize :=
  (foldl retain_artifact (∅, 0%N) (map (λ s, pss_artifact s.2) (iter sessions) ++ [artifact])).2.

(** [now] is read for the expiry, [now'] under the lock. *)
Definition create_snapshot_session (artifact : N) (ttl : Duration) (now now' : Instant)
    (reg : SnapshotSessionRegistry) :
    anyhow BroadcasterSnapshotSessionResponse * SnapshotSessionRegistry :=
  let session_id := reg_next_session_id reg in
  let reg := take_session_id reg in
  let expires_at := (now + ttl)%N in
  let reg := with_pending (filter (λ x, session_is_expired now' x.2 = false)) reg in
  if negb (N.of_nat (size (reg_pending reg)) <? MAX_SNAPSHOT_SESSIONS)%N
  then (anyhow_bail "snapshot session capacity reached", reg)
  else if negb (retained_with (reg_pending reg) artifact <=? MAX_RETAINED_SNAPSHOT_BYTES)%N
  then (anyhow_bail "snapshot artifact retention capacity reached", reg)
  else
    (Ok {| sr_chain_id := ar_chain_id (deref artifact); sr_session_id := session_id;
           sr_stream_id := ar_stream_id (deref artifact);
           sr_snapshot_id := ar_snapshot_id (deref artifact);
           sr_redis_replay_boundary := ar_redis_replay_boundary (deref artifact);
           sr_payload_count := as_u32 (len (ar_payloads (deref artifact)));
           sr_snapshot_chunk_count := ar_snapshot_chunk_count (deref artifact);
           sr_expires_in_ms := ttl_millis ttl |},
     with_pending <[session_id := {| pss_artifact := artifact; pss_expires_at := expires_at |}]> reg).

(** [in_flight] fetches hold a permit. *)
Definition snapshot_payload (in_flight : usize) (now : Instant) (session_id : u64) (index : u32)
    (reg : SnapshotSessionRegistry) :
    result SnapshotSessionError BroadcasterEnvelope * SnapshotSessionRegistry :=
  if (MAX_CONCURRENT_SNAPSHOT_FETCHES <=? in_flight)%N then (Err SessionBusy, reg)
  else
    match reg_pending reg !! session_id with
    | None => (Err SessionNotFound, reg)
    | Some session =>
        if session_is_expired now session then
          (Err SessionExpired,
           record_session_closed session_id CloseExpired (with_pending (delete session_id) reg))
        else
          match ar_payloads (deref (pss_artifact session)) !! N.to_nat index with
          | None => (Err PayloadOutOfRange, reg)
          | Some envelope => (Ok envelope, reg)
          end
    end.

Definition cleanup_expired_snapshot_sessions (now : Instant) (reg : SnapshotSessionRegistry) :
    SnapshotSessionRegistry :=
  let expired :=
    (filter (λ x, session_is_expired now x.2 = true) (iter (reg_pending reg))).*1 in
  let reg := with_pending (λ sessions, foldl (λ sessions id, delete id sessions) sessions expired) reg in
  foldl (λ reg id, record_session_closed id CloseExpired reg) reg expired.

Definition disconnect_all (reason : SessionCloseReason) (reg : SnapshotSessionRegistry) :
    SnapshotSessionRegistry :=
  record_last_error ("all snapshot sessions closed: " +:+ SessionCloseReason_label reason)
    (with_pending (λ _, ∅) reg).

(** ** Sessions of the service *)

Inductive SnapshotBoundaryRetention := Retained | NotRetained | InspectionFailed (error : string).

Record CachedSnapshotBoundaryRetention := {
  cb_boundary : BroadcasterRedisReplayBoundary;
  cb_checked_at : Instant;
  cb_verdict : SnapshotBoundaryRetention;
}.

(** [snapshot_boundary_is_retained], with the artifact, the publisher's boundary and what it
    says of the artifact's when it is asked. *)
Definition snapshot_boundary_is_retained (artifact : option N)
    (current : option BroadcasterRedisReplayBoundary) (now now' : Instant)
    (reply : anyhow bool) (cached : option CachedSnapshotBoundaryRetention) :
    SnapshotBoundaryRetention * option CachedSnapshotBoundaryRetention :=
  match artifact, current with
  | Some artifact, Some current =>
      let boundary := ar_redis_replay_boundary (deref artifact) in
      if negb (artifact_matches_current_boundary (deref artifact) current)
      then (NotRetained, cached)
      else
        let fresh :=
          c ← cached;
          if bool_decide (cb_boundary c = boundary)
             && (saturating_duration_since now (cb_checked_at c)
                   <? SNAPSHOT_BOUNDARY_RETENTION_CACHE_TTL)%N
          then Some (cb_verdict c) else None in
        match fresh with
        | Some verdict => (verdict, cached)
        | None =>
            let verdict :=
              match reply with
              | Ok true => Retained
              | Ok false => NotRetained
              | Err error => InspectionFailed (error_chain error)
              end in
            (verdict, Some {| cb_boundary := boundary; cb_checked_at := now'; cb_verdict := verdict |})
        end
  | _, _ => (NotRetained, cached)
  end.

(** What the publisher answers while a session is created. *)
Record SessionReplies := {
  rp_writer_active : bool;
  rp_boundary : option BroadcasterRedisReplayBoundary;
  rp_boundary_again : option BroadcasterRedisReplayBoundary;
  rp_retained : anyhow bool;
}.

(** [create_snapshot_session_for_services], for services that share their lifecycle.  The
    artifact is read once here and once for its retention. *)
Definition create_session_for_services (artifact artifact_again : option N) (ttl : Duration)
    (now now' : Instant) (replies : SessionReplies)
    (state : SnapshotSessionRegistry * option CachedSnapshotBoundaryRetention) :
    anyhow (option BroadcasterSnapshotSessionResponse)
    * (SnapshotSessionRegistry * option CachedSnapshotBoundaryRetention) :=
  let '(reg, cached) := state in
  if negb (rp_writer_active replies) then (Ok None, state)
  else
    match artifact, rp_boundary replies with
    | Some artifact, Some current =>
        let '(verdict, cached) :=
          snapshot_boundary_is_retained artifact_again (rp_boundary_again replies) now now'
            (rp_retained replies) cached in
        match verdict with
        | Retained =>
            if negb (artifact_matches_current_boundary (deref artifact) current)
            then (Ok None, (reg, cached))
            else
              let '(response, reg) := create_snapshot_session artifact ttl now now' reg in
              (Some <$> with_context "failed to create combined broadcaster snapshot session" response,
               (reg, cached))
        | _ => (Ok None, (reg, cached))
        end
    | _, _ => (Ok None, state)
    end.

(** [snapshot_session_payload] *)
Definition snapshot_session_payload (writer_active : bool) (in_flight : usize) (now : Instant)
    (session_id : u64) (index : u32) (reg : SnapshotSessionRegistry) :
    result SnapshotSessionError BroadcasterEnvelope * SnapshotSessionRegistry :=
  if writer_active then snapshot_payload in_flight now session_id index reg
  else (Err SessionNotFound, disconnect_all CloseWriterFenceLost reg).

(** ** Runs *)

Inductive SessionOp :=
| OpCreate (artifact : N) (ttl : Duration) (now now' : Instant)
| OpPayload (writer_active : bool) (in_flight : usize) (now : Instant) (session_id : u64) (index : u32)
| OpCleanup (now : Instant)
| OpDisconnect (reason : SessionCloseReason).

Definition apply_op (op : SessionOp) (reg : SnapshotSessionRegistry) : SnapshotSessionRegistry :=
  match op with
  | OpCreate artifact ttl now now' => (create_snapshot_session artifact ttl now now' reg).2
  | OpPayload active in_flight now id index =>
      (snapshot_session_payload active in_flight now id index reg).2
  | OpCleanup now => cleanup_expired_snapshot_sessions now reg
  | OpDisconnect reason => disconnect_all reason reg
  end.

Definition apply_ops (ops : list SessionOp) (reg : SnapshotSessionRegistry) :
    SnapshotSessionRegistry := foldl (λ reg op, apply_op op reg) reg ops.
End sessions.
