(* ===== verification/SessionFacts.v ===== *)
(** * What snapshot sessions promise

    The registry keeps at most so many sessions and so many bytes of artifacts, and a session
    serves the artifact it was created for, payload by payload, until it expires. *)

From S2P Require Import Prelude Ordered Text Protocol.
From S2P Require Import Wire Validate Codec TychoFeed RedisEntry Replay Recovery Store.
From S2P Require Import Health Reassembly RawMessage SnapshotExport SnapshotArtifact.
From S2P Require Import Processor Consumer Supervisor SnapshotSessions.

Section facts.
Context `{TychoTypes}.
Context (deref : N → BroadcasterSnapshotArtifact).
Context (iter : gmap u64 PendingSnapshotSession → list (u64 * PendingSnapshotSession)).
Hypothesis iter_visits : ∀ sessions, iter sessions ≡ₚ map_to_list sessions.

Abbreviation apply_op := (apply_op deref iter).
Abbreviation apply_ops := (apply_ops deref iter).
Abbreviation create := (create_snapshot_session deref iter).

(** ** Bytes of distinct artifacts *)

Definition artifact_bytes (ids : list N) : N :=
  foldr (λ id bytes, ar_encoded_bytes (deref id) + bytes)%N 0%N ids.

(** The artifacts that the sessions keep alive, each once. *)
Definition kept_artifacts (sessions : gmap u64 PendingSnapshotSession) : gset N :=
  list_to_set (map (λ s, pss_artifact s.2) (map_to_list sessions)).

Definition kept_bytes (sessions : gmap u64 PendingSnapshotSession) : N :=
  artifact_bytes (elements (kept_artifacts sessions)).

#[local] Instance artifact_bytes_perm : Proper ((≡ₚ) ==> eq) artifact_bytes.
Proof. intros l l' Hp. unfold artifact_bytes. induction Hp; cbn; lia. Qed.

Lemma bytes_union id (X : gset N) :
  id ∉ X → artifact_bytes (elements ({[id]} ∪ X)) = (ar_encoded_bytes (deref id) + artifact_bytes (elements X))%N.
Proof. intros Hid. by rewrite elements_union_singleton. Qed.

Lemma bytes_mono (X Y : gset N) : X ⊆ Y → (artifact_bytes (elements X) ≤ artifact_bytes (elements Y))%N.
Proof.
  intros Hsub. rewrite (union_difference_L X Y) by done.
  rewrite elements_disj_union by set_solver. unfold artifact_bytes.
  rewrite foldr_app. generalize (elements (Y ∖ X)). intros l.
  generalize (elements X). induction l0 as [|x l0 IH]; cbn; lia.
Qed.

Lemma retain_loop l X b :
  b = N.min (artifact_bytes (elements X)) u64_max →
  (foldl (retain_artifact deref) (X, b) l).2
  = N.min (artifact_bytes (elements (list_to_set l ∪ X))) u64_max.
Proof.
  revert X b. induction l as [|id l IH]; intros X b Hb; cbn [foldl].
  - cbn. rewrite Hb. by replace (∅ ∪ X) with X by set_solver.
  - unfold retain_artifact at 2. case_bool_decide as Hin; rewrite IH; cbn; try done.
    + do 3 f_equal. set_solver.
    + do 3 f_equal. set_solver.
    + rewrite bytes_union by done. unfold saturating_add. lia.
Qed.

Lemma retained_spec sessions artifact :
  retained_with deref iter sessions artifact
  = N.min (artifact_bytes (elements ({[artifact]} ∪ kept_artifacts sessions))) u64_max.
Proof.
  unfold retained_with. rewrite retain_loop by done. do 3 f_equal.
  unfold kept_artifacts. rewrite list_to_set_app_L. cbn.
  rewrite (iter_visits sessions). set_solver.
Qed.

(** ** Bounds *)

Record registry_ok (reg : SnapshotSessionRegistry) : Prop := {
  ro_sessions : (N.of_nat (size (reg_pending reg)) ≤ MAX_SNAPSHOT_SESSIONS)%N;
  ro_bytes : (kept_bytes (reg_pending reg) ≤ MAX_RETAINED_SNAPSHOT_BYTES)%N;
}.

Lemma kept_mono m m' : m ⊆ m' → (kept_bytes m ≤ kept_bytes m')%N.
Proof.
  intros Hsub. apply bytes_mono. unfold kept_artifacts. intros id.
  rewrite !elem_of_list_to_set, !list_elem_of_fmap. intros ([k s] & -> & Hin).
  exists (k, s). split; [done|]. apply elem_of_map_to_list in Hin. apply elem_of_map_to_list.
  by eapply lookup_weaken.
Qed.

Lemma shrinks_ok reg f :
  registry_ok reg → f (reg_pending reg) ⊆ reg_pending reg → registry_ok (with_pending f reg).
Proof.
  intros [Hs Hb] Hsub. split; cbn.
  - apply map_subseteq_size in Hsub. lia.
  - pose proof (kept_mono _ _ Hsub). lia.
Qed.

Lemma pending_ok reg reg' :
  reg_pending reg' = reg_pending reg → registry_ok reg → registry_ok reg'.
Proof. intros Hp [Hs Hb]. by split; rewrite Hp. Qed.

Lemma create_ok artifact ttl now now' reg :
  registry_ok reg → registry_ok (create artifact ttl now now' reg).2.
Proof.
  intros Hok. unfold create_snapshot_session.
  set (reg1 := with_pending _ (take_session_id reg)).
  assert (Hok1 : registry_ok reg1).
  { apply shrinks_ok; [by apply (pending_ok reg)|]. apply map_filter_subseteq. }
  clearbody reg1. destruct (negb _) eqn:Hn; [done|]. destruct (negb (_ <=? _)%N) eqn:Hb; [done|].
  apply negb_false_iff, N.ltb_lt in Hn. apply negb_false_iff, N.leb_le in Hb.
  rewrite retained_spec in Hb. split; cbn.
  - etrans; [|apply N.le_succ_l, Hn]. rewrite map_size_insert. case_match; cbn; lia.
  - assert (Hsub : (kept_bytes (<[reg_next_session_id reg :=
        {| pss_artifact := artifact; pss_expires_at := (now + ttl)%N |}]> (reg_pending reg1))
      ≤ artifact_bytes (elements ({[artifact]} ∪ kept_artifacts (reg_pending reg1))))%N).
    { apply bytes_mono. unfold kept_artifacts. intros id.
      rewrite elem_of_union, elem_of_singleton, !elem_of_list_to_set, !list_elem_of_fmap.
      intros ([k s] & -> & Hin%elem_of_map_to_list). apply lookup_insert_Some in Hin as [[_ <-]|[_ Hin]].
      - by left.
      - right. exists (k, s). split; [done|]. by apply elem_of_map_to_list. }
    unfold MAX_RETAINED_SNAPSHOT_BYTES in *. unfold u64_max in *. lia.
Qed.

Lemma foldl_delete_subseteq (ids : list u64) (m : gmap u64 PendingSnapshotSession) :
  foldl (λ m id, delete id m) m ids ⊆ m.
Proof.
  revert m. induction ids as [|id ids IH]; intros m; [done|]. cbn.
  etrans; [apply IH|apply delete_subseteq].
Qed.

Lemma foldl_closed_pending ids reg :
  reg_pending (foldl (λ reg id, record_session_closed id CloseExpired reg) reg ids) = reg_pending reg.
Proof. revert reg. induction ids as [|id ids IH]; intros reg; [done|]. cbn. by rewrite IH. Qed.

Lemma foldl_closed_next ids reg :
  reg_next_session_id (foldl (λ reg id, record_session_closed id CloseExpired reg) reg ids)
  = reg_next_session_id reg.
Proof. revert reg. induction ids as [|id ids IH]; intros reg; [done|]. cbn. by rewrite IH. Qed.

Lemma payload_ok in_flight now id index reg :
  registry_ok reg → registry_ok (snapshot_payload deref in_flight now id index reg).2.
Proof.
  intros Hok. unfold snapshot_payload. repeat case_match; try done.
  apply (pending_ok (with_pending (delete id) reg)); [done|].
  apply shrinks_ok; [done|apply delete_subseteq].
Qed.

Lemma op_ok op reg : registry_ok reg → registry_ok (apply_op op reg).
Proof.
  intros Hok. destruct op as [artifact ttl now now'|active in_flight now id index|now|reason]; cbn.
  - by apply create_ok.
  - unfold snapshot_session_payload. destruct active; [by apply payload_ok|]. cbn.
    split; cbn; [by rewrite map_size_empty|done].
  - unfold cleanup_expired_snapshot_sessions.
    eapply pending_ok; [apply foldl_closed_pending|].
    apply shrinks_ok; [done|apply foldl_delete_subseteq].
  - split; cbn; [by rewrite map_size_empty|done].
Qed.

Lemma registry_new_ok : registry_ok registry_new.
Proof. split; cbn; [by rewrite map_size_empty|done]. Qed.

Lemma ops_ok ops reg : registry_ok reg → registry_ok (apply_ops ops reg).
Proof.
  revert reg. induction ops as [|op ops IH]; intros reg Hok; [done|].
  cbn. apply IH. by apply op_ok.
Qed.

(** Whatever sessions are created, fetched, cleaned up and closed, there are never more
    than 128 of them, and the distinct artifacts they keep alive are never more than 512 MiB
    together. *)
Theorem sessions_bounded ops :
  let sessions := reg_pending (apply_ops ops registry_new) in
  (N.of_nat (size sessions) ≤ MAX_SNAPSHOT_SESSIONS)%N
  ∧ (kept_bytes sessions ≤ MAX_RETAINED_SNAPSHOT_BYTES)%N.
Proof. destruct (ops_ok ops registry_new registry_new_ok). done. Qed.

(** ** A session *)

(** The session is there, and its identity will not be given again. *)
Definition serves (id : u64) (artifact : N) (expires_at : Instant) (reg : SnapshotSessionRegistry) :
    Prop :=
  reg_pending reg !! id = Some {| pss_artifact := artifact; pss_expires_at := expires_at |}
  ∧ (id < reg_next_session_id reg)%N.

(** Operations before the session expires that close nothing else than expired sessions. *)
Definition harmless (expires_at : Instant) (op : SessionOp) : Prop :=
  match op with
  | OpCreate _ _ _ now' => (now' < expires_at)%N
  | OpPayload active _ now _ _ => active = true ∧ (now < expires_at)%N
  | OpCleanup now => (now < expires_at)%N
  | OpDisconnect _ => False
  end.

Lemma not_expired now expires_at artifact :
  (now < expires_at)%N →
  session_is_expired now {| pss_artifact := artifact; pss_expires_at := expires_at |} = false.
Proof. intros. apply N.leb_gt. done. Qed.

Lemma foldl_delete_other (ids : list u64) (m : gmap u64 PendingSnapshotSession) id :
  id ∉ ids → foldl (λ m id, delete id m) m ids !! id = m !! id.
Proof.
  revert m. induction ids as [|id' ids IH]; intros m Hid; [done|]. cbn.
  apply not_elem_of_cons in Hid as [Hne Hid]. by rewrite IH, lookup_delete_ne.
Qed.

Lemma op_serves op id artifact expires_at reg :
  serves id artifact expires_at reg → harmless expires_at op →
  (reg_next_session_id reg < u64_max)%N → serves id artifact expires_at (apply_op op reg).
Proof.
  intros [Hid Hlt] Hop Hmax.
  destruct op as [artifact' ttl now now'|active in_flight now id' index|now|reason]; cbn in Hop.
  - assert (Hnext : ((reg_next_session_id reg + 1) mod 2 ^ 64 = reg_next_session_id reg + 1)%N)
      by (apply N.mod_small; unfold u64_max in Hmax; lia).
    assert (Hkeep : filter (λ x : u64 * PendingSnapshotSession, session_is_expired now' x.2 = false)
              (reg_pending reg) !! id
            = Some {| pss_artifact := artifact; pss_expires_at := expires_at |}).
    { apply map_lookup_filter_Some. split; [done|]. by apply not_expired. }
    cbn [apply_op SnapshotSessions.apply_op]. unfold create_snapshot_session.
    repeat case_match; (split; cbn in *; [|rewrite Hnext; lia]); try done.
    rewrite lookup_insert_ne by lia. done.
  - destruct Hop as [-> Hnow]. cbn. unfold snapshot_payload.
    destruct (decide (id' = id)) as [->|Hne].
    + rewrite Hid, not_expired by done. repeat case_match; done.
    + repeat case_match; try done. split; cbn; [|done]. by rewrite lookup_delete_ne.
  - cbn. unfold cleanup_expired_snapshot_sessions.
    set (expired := (filter _ (iter (reg_pending reg))).*1).
    assert (Hnot : id ∉ expired).
    { subst expired. intros ([k s] & -> & Hin)%list_elem_of_fmap.
      apply list_elem_of_filter in Hin as [He Hin]. rewrite (iter_visits (reg_pending reg)) in Hin.
      apply elem_of_map_to_list in Hin. cbn in *. rewrite Hid in Hin. injection Hin as <-.
      by rewrite not_expired in He. }
    clearbody expired. split.
    + rewrite foldl_closed_pending. cbn. by rewrite foldl_delete_other.
    + by rewrite foldl_closed_next.
  - done.
Qed.

(** No operation of a run uses up the identities. *)
Fixpoint ids_left (ops : list SessionOp) (reg : SnapshotSessionRegistry) : Prop :=
  match ops with
  | [] => True
  | op :: ops => (reg_next_session_id reg < u64_max)%N ∧ ids_left ops (apply_op op reg)
  end.

Lemma ops_serve ops id artifact expires_at reg :
  serves id artifact expires_at reg → Forall (harmless expires_at) ops → ids_left ops reg →
  serves id artifact expires_at (apply_ops ops reg).
Proof.
  revert reg. induction ops as [|op ops IH]; intros reg Hs Hops Hids; [done|].
  apply Forall_cons in Hops as [Hop Hops]. destruct Hids as [Hmax Hids]. cbn.
  apply IH; [by apply op_serves|done|done].
Qed.

Lemma create_serves artifact ttl now now' reg response reg' :
  (reg_next_session_id reg < u64_max)%N →
  create artifact ttl now now' reg = (Ok response, reg') →
  serves (sr_session_id response) artifact (now + ttl) reg'
  ∧ sr_payload_count response = as_u32 (len (ar_payloads (deref artifact))).
Proof.
  intros Hmax. unfold create_snapshot_session. repeat case_match; try done. intros [= <- <-].
  split; [|done]. split; cbn.
  - by rewrite lookup_insert_eq.
  - rewrite N.mod_small; unfold u64_max in Hmax; lia.
Qed.

(** The session is closed, and its identity will not be given again. *)
Definition gone (id : u64) (reg : SnapshotSessionRegistry) : Prop :=
  reg_pending reg !! id = None ∧ (id < reg_next_session_id reg)%N.

Lemma op_gone op id reg :
  gone id reg → (reg_next_session_id reg < u64_max)%N → gone id (apply_op op reg).
Proof.
  intros [Hid Hlt] Hmax.
  destruct op as [artifact ttl now now'|active in_flight now id' index|now|reason].
  - assert (Hnext : ((reg_next_session_id reg + 1) mod 2 ^ 64 = reg_next_session_id reg + 1)%N)
      by (apply N.mod_small; unfold u64_max in Hmax; lia).
    assert (Hkeep : filter (λ x : u64 * PendingSnapshotSession, session_is_expired now' x.2 = false)
              (reg_pending reg) !! id = None) by (apply map_lookup_filter_None; by left).
    cbn [apply_op SnapshotSessions.apply_op]. unfold create_snapshot_session.
    repeat case_match; (split; cbn in *; [|rewrite Hnext; lia]); try done.
    rewrite lookup_insert_ne by lia. done.
  - cbn. unfold snapshot_session_payload, snapshot_payload.
    repeat case_match; try done; (split; [|done]); cbn; try apply lookup_empty.
    destruct (decide (id' = id)) as [->|Hne]; [by rewrite lookup_delete_eq|by rewrite lookup_delete_ne].
  - cbn. unfold cleanup_expired_snapshot_sessions. split.
    + rewrite foldl_closed_pending. cbn. eapply lookup_weaken_None; [|apply foldl_delete_subseteq]. done.
    + by rewrite foldl_closed_next.
  - split; [cbn; apply lookup_empty|done].
Qed.

Lemma ops_gone ops id reg : gone id reg → ids_left ops reg → gone id (apply_ops ops reg).
Proof.
  revert reg. induction ops as [|op ops IH]; intros reg Hg Hids; [done|].
  destruct Hids as [Hmax Hids]. cbn. apply IH; [by apply op_gone|done].
Qed.

Lemma gone_not_found in_flight t id index reg :
  gone id reg → (MAX_CONCURRENT_SNAPSHOT_FETCHES <=? in_flight)%N = false →
  snapshot_payload deref in_flight t id index reg = (Err SessionNotFound, reg).
Proof. intros [Hid _] Hfree. unfold snapshot_payload. by rewrite Hfree, Hid. Qed.

(** C14: a session that was created serves its artifact until it expires.  What may happen
    in between is [harmless]: before the expiry, sessions are created, fetched while the
    writer is active, and cleaned up; nothing disconnects them all, as a fetch under a
    lost fence does.  Session identities must not be used up ([ids_left]).  Then a fetch
    that finds all the permits taken is told that the service is busy and changes nothing;
    any other one before the expiry returns the payload at its index, or says that the
    index is out of range; and one after it says that the session expired and closes it
    for good: whatever happens afterwards, a disconnection included, no fetch finds the
    session again. *)
Theorem session_serves_artifact artifact ttl now now' reg response reg' ops :
  (reg_next_session_id reg < u64_max)%N →
  create artifact ttl now now' reg = (Ok response, reg') →
  Forall (harmless (now + ttl)) ops → ids_left ops reg' →
  let id := sr_session_id response in
  let later := apply_ops ops reg' in
  sr_payload_count response = as_u32 (len (ar_payloads (deref artifact)))
  ∧ ∀ in_flight t index,
      if (MAX_CONCURRENT_SNAPSHOT_FETCHES <=? in_flight)%N then
        snapshot_payload deref in_flight t id index later = (Err SessionBusy, later)
      else if (t <? now + ttl)%N then
        snapshot_payload deref in_flight t id index later
        = (ok_or (ar_payloads (deref artifact) !! N.to_nat index) PayloadOutOfRange, later)
      else ∃ closed,
        snapshot_payload deref in_flight t id index later = (Err SessionExpired, closed)
        ∧ ∀ after in_flight' t' index',
            ids_left after closed → (in_flight' < MAX_CONCURRENT_SNAPSHOT_FETCHES)%N →
            snapshot_payload deref in_flight' t' id index' (apply_ops after closed)
            = (Err SessionNotFound, apply_ops after closed).
Proof.
  intros Hmax Hcreate Hops Hids id later.
  destruct (create_serves _ _ _ _ _ _ _ Hmax Hcreate) as [Hserves Hcount].
  split; [done|]. intros in_flight t index.
  destruct (ops_serve ops _ _ _ _ Hserves Hops Hids) as [Hid Hlt]. fold later id in Hid, Hlt.
  unfold snapshot_payload at 1 2 3. destruct (_ <=? _)%N; [done|]. rewrite Hid.
  destruct (N.ltb_spec t (now + ttl)) as [Ht|Ht].
  - rewrite not_expired by done. cbn. by case_match.
  - assert (Hexp : session_is_expired t {| pss_artifact := artifact; pss_expires_at := (now + ttl)%N |} = true)
      by (by apply N.leb_le).
    rewrite Hexp. eexists. split; [done|]. intros after in_flight' t' index' Hleft Hfree.
    apply gone_not_found; [|by apply N.leb_gt]. apply ops_gone; [|done].
    split; [cbn; apply lookup_delete_eq|done].
Qed.
End facts.
