(* ===== verification/ServiceSnapshots.v ===== *)
(** * Snapshot publication of the broadcaster service

    [runtime/src/broadcaster/service.rs]: what several services that share a publisher
    capture for an artifact, at startup and in a refresh, how an artifact is installed or a
    candidate promoted, and the status of a service.  What the publisher answers comes as an
    argument; its own operations are those of the publisher's model. *)

From S2P Require Import Prelude Ordered Text Protocol.
From S2P Require Import Wire Validate Codec TychoFeed RedisEntry Replay Recovery Store.
From S2P Require Import Health Publisher.
From S2P Require Import Reassembly RawMessage SnapshotExport RawCompaction SharedAccounts.
From S2P Require Import SnapshotCache SnapshotArtifact SnapshotSessions RecoveryWork.

#[export] Instance BroadcasterReadiness_eq_dec : EqDecision BroadcasterReadiness.
Proof. solve_decision. Defined.

Section service.
Context `{SyncFields} `{!TychoState} `{!SerdeJson} `{!ListJson} `{Keccak}.
Context (deref : N → BroadcasterSnapshotArtifact).

Record BroadcasterSnapshotPreflightState := {
  pf_checked_at : option Instant;
  pf_succeeded_at : option Instant;
  pf_duration_ms : option u64;
  pf_payload_count : option usize;
  pf_largest_payload_bytes : option usize;
  pf_last_error : option string;
}.

Definition preflight_default : BroadcasterSnapshotPreflightState :=
  {| pf_checked_at := None; pf_succeeded_at := None; pf_duration_ms := None;
     pf_payload_count := None; pf_largest_payload_bytes := None; pf_last_error := None |}.

(** The fields of a service that this file reads; the artifact by its identity. *)
Record ServiceState := {
  sd_snapshot_max_payload_bytes : usize;
  sd_native_progress_lease : Duration;
  sd_configured_backends : list BroadcasterBackend;
  sd_chain_id : u64;
  sd_cache : BroadcasterSnapshotCacheData;
  sd_upstream : BroadcasterUpstreamStateData;
  sd_sessions : SnapshotSessionRegistry;
  sd_preflight : BroadcasterSnapshotPreflightState;
  sd_artifact : option N;
  sd_recovery : RecoveryPublicationState;
}.

Definition with_preflight
    (f : BroadcasterSnapshotPreflightState → BroadcasterSnapshotPreflightState) (s : ServiceState) :
    ServiceState :=
  {| sd_snapshot_max_payload_bytes := sd_snapshot_max_payload_bytes s;
     sd_native_progress_lease := sd_native_progress_lease s;
     sd_configured_backends := sd_configured_backends s; sd_chain_id := sd_chain_id s;
     sd_cache := sd_cache s; sd_upstream := sd_upstream s; sd_sessions := sd_sessions s;
     sd_preflight := f (sd_preflight s); sd_artifact := sd_artifact s;
     sd_recovery := sd_recovery s |}.
Definition set_artifact (artifact : N) (s : ServiceState) : ServiceState :=
  {| sd_snapshot_max_payload_bytes := sd_snapshot_max_payload_bytes s;
     sd_native_progress_lease := sd_native_progress_lease s;
     sd_configured_backends := sd_configured_backends s; sd_chain_id := sd_chain_id s;
     sd_cache := sd_cache s; sd_upstream := sd_upstream s; sd_sessions := sd_sessions s;
     sd_preflight := sd_preflight s; sd_artifact := Some artifact;
     sd_recovery := sd_recovery s |}.
Definition set_generation (generation : u64) (s : ServiceState) : ServiceState :=
  {| sd_snapshot_max_payload_bytes := sd_snapshot_max_payload_bytes s;
     sd_native_progress_lease := sd_native_progress_lease s;
     sd_configured_backends := sd_configured_backends s; sd_chain_id := sd_chain_id s;
     sd_cache := relabel_generation (sd_chain_id s) generation (sd_cache s);
     sd_upstream := sd_upstream s; sd_sessions := sd_sessions s;
     sd_preflight := sd_preflight s; sd_artifact := sd_artifact s;
     sd_recovery := sd_recovery s |}.

(** ** Status *)

Definition opt_max (x y : option N) : option N := list_max (option_list x ++ option_list y).

(** [recovery_status], with what the publisher says of its buffer. *)
Definition recovery_status (now : Instant) (publisher_buffer_count : usize)
    (publisher_oldest_age_ms : option u64) (r : RecoveryPublicationState) :
    BroadcasterRecoveryStatus :=
  let active := is_active (rv_phase r) in
  {| rst_active := active;
     rst_phase := RecoveryPublicationPhase_as_str (rv_phase r);
     rst_age_ms :=
       if active || bool_decide (rv_phase r = Fatal) then Some (elapsed_ms now r) else None;
     rst_attempt :=
       if active then N.min (rv_local_failures r + 1) 255 else rv_local_failures r;
     rst_buffer_a_count := len (rv_buffer_a r);
     rst_buffer_b_count := publisher_buffer_count;
     rst_oldest_buffered_age_ms :=
       opt_max ((λ at_, as_millis_u64 (saturating_duration_since now at_)) <$> rv_buffer_a_oldest_at r)
         publisher_oldest_age_ms;
     rst_last_outcome := rv_last_outcome r; rst_last_duration_ms := rv_last_duration_ms r;
     rst_last_encoded_bytes := rv_last_encoded_bytes r;
     rst_last_chunk_count := rv_last_chunk_count r;
     rst_last_error := rv_fatal_error r |}.

(** [has_current_snapshot_artifact] *)
Definition has_current_snapshot_artifact (boundary : option BroadcasterRedisReplayBoundary)
    (s : ServiceState) : bool :=
  match sd_artifact s, boundary with
  | Some artifact, Some boundary => artifact_matches_current_boundary (deref artifact) boundary
  | _, _ => false
  end.

(** Of the limit, in units of a ten thousandth. *)
Definition utilization_bps (max_payload_bytes bytes : usize) : N :=
  N.min (N.min (bytes * 10000) u64_max / N.max max_payload_bytes 1) 10000.

Definition service_status_snapshot (now : Instant)
    (boundary : option BroadcasterRedisReplayBoundary) (publisher_buffer_count : usize)
    (publisher_oldest_age_ms : option u64) (s : ServiceState) : BroadcasterStatusSnapshot :=
  let sessions :=
    {| sns_active := N.of_nat (size (reg_pending (sd_sessions s)));
       sns_last_error := reg_last_error (sd_sessions s) |} in
  let snapshot :=
    status_snapshot (sd_chain_id s) (sd_configured_backends s)
      (sd_snapshot_max_payload_bytes s) (upstream_snapshot now (sd_upstream s)) sessions
      (sd_native_progress_lease s) (sd_cache s) in
  let artifact_available := has_current_snapshot_artifact boundary s in
  let preflight := sd_preflight s in
  let age at_ := as_millis_u64 (saturating_duration_since now at_) in
  let n := bss_snapshot snapshot in
  let recovery := recovery_status now publisher_buffer_count publisher_oldest_age_ms (sd_recovery s) in
  {| bss_readiness :=
       if rst_active recovery then UpstreamRecovering
       else if bool_decide (bss_readiness snapshot = BrReady) && negb artifact_available
       then SnapshotUnexportable else bss_readiness snapshot;
     bss_chain_id := bss_chain_id snapshot; bss_upstream := bss_upstream snapshot;
     bss_recovery := recovery;
     bss_snapshot :=
       {| nst_ready := nst_ready n; nst_stream_id := nst_stream_id n;
          nst_snapshot_id := nst_snapshot_id n;
          nst_configured_backends := nst_configured_backends n;
          nst_total_states := nst_total_states n;
          nst_max_payload_bytes := nst_max_payload_bytes n;
          nst_exportable := artifact_available;
          nst_last_export_check_age_ms := age <$> pf_checked_at preflight;
          nst_last_export_success_age_ms := age <$> pf_succeeded_at preflight;
          nst_last_export_duration_ms := pf_duration_ms preflight;
          nst_last_export_payload_count := pf_payload_count preflight;
          nst_largest_payload_bytes := pf_largest_payload_bytes preflight;
          nst_payload_limit_utilization_bps :=
            utilization_bps (sd_snapshot_max_payload_bytes s) <$> pf_largest_payload_bytes preflight;
          nst_last_export_error := pf_last_error preflight;
          nst_recovery_pending := nst_recovery_pending n; nst_recovery_id := nst_recovery_id n;
          nst_recovery_error := nst_recovery_error n |};
     bss_snapshot_sessions := bss_snapshot_sessions snapshot;
     bss_backends := bss_backends snapshot;
     bss_redis_publisher := bss_redis_publisher snapshot;
     bss_deployment_admission := bss_deployment_admission snapshot |}.

(** [reconnect_backoff_can_reset] *)
Definition reconnect_backoff_can_reset (now : Instant) (freshness : Duration) (s : ServiceState) :
    bool :=
  negb (replacement_pending (sd_cache s))
  && (bool_decide (rv_phase (sd_recovery s) = Idle)
      && bool_decide (rv_last_outcome (sd_recovery s) = Some "committed"))
  && (let upstream := upstream_snapshot now (sd_upstream s) in
      un_connected upstream
      && match un_last_update_age_ms upstream with
         | Some age_ms => (age_ms <? as_millis_u64 freshness)%N
         | None => false
         end).

(** ** Capturing *)

Record StartupCandidateCapture := {
  sc_chain_id : u64;
  sc_captured : list (list BroadcasterBackend * BroadcasterSnapshotSource * usize);
  sc_base_heads : list BroadcasterBackendHead;
  sc_recovery_work_ids : list u64;
}.

Definition capture_source (s : ServiceState) (source : BroadcasterSnapshotSource) :
    list BroadcasterBackend * BroadcasterSnapshotSource * usize :=
  (sd_configured_backends s, source, sd_snapshot_max_payload_bytes s).

(** The turn of the loop of [startup_candidate_sources]; [None] where it returns. *)
Definition capture_service (chain_id : u64) (capture : option StartupCandidateCapture)
    (service : nat * ServiceState) : anyhow (option StartupCandidateCapture) :=
  let '(index, s) := service in
  match capture with
  | None => Ok None
  | Some c =>
      ensure (sd_chain_id s =? chain_id)%N
        (anyhow_error "combined broadcaster snapshot chain_id mismatch") ;;
      if is_active (rv_phase (sd_recovery s)) then Ok None
      else
        let work_ids := sc_recovery_work_ids c ++ [rv_work_id (sd_recovery s)] in
        match pin_snapshot_source (sd_configured_backends s) (sd_cache s) with
        | Some source =>
            Ok (Some {| sc_chain_id := sc_chain_id c;
                        sc_captured := sc_captured c ++ [capture_source s source];
                        sc_base_heads := sc_base_heads c ++ source_backend_heads source;
                        sc_recovery_work_ids := work_ids |})
        | None =>
            if Nat.eqb index 0 then Ok None
            else Ok (Some {| sc_chain_id := sc_chain_id c; sc_captured := sc_captured c;
                             sc_base_heads := sc_base_heads c; sc_recovery_work_ids := work_ids |})
        end
  end.

(** [startup_candidate_sources] up to the reservation of the handoff, under the gate. *)
Definition startup_candidate_sources (mode : BroadcasterRedisPublisherMode)
    (services : list ServiceState) : anyhow (option StartupCandidateCapture) :=
  match services with
  | [] => Ok None
  | first :: _ =>
      if negb (bool_decide (mode = Passive))
         || negb (is_ready_locked (sd_configured_backends first) (sd_cache first))
      then Ok None
      else
        fold_result (capture_service (sd_chain_id first))
          (Some {| sc_chain_id := sd_chain_id first; sc_captured := []; sc_base_heads := [];
                   sc_recovery_work_ids := [] |})
          (imap pair services)
  end.

(** The export of what was captured. *)
Definition export_captured (chain_id : u64)
    (captured : list (list BroadcasterBackend * BroadcasterSnapshotSource * usize)) :
    anyhow BroadcasterSnapshotExport :=
  exports ← mapM (λ '(backends, source, max_payload_bytes),
                export_snapshot_source chain_id backends source max_payload_bytes) captured;
  combine_snapshot_exports chain_id exports.

Definition startup_candidate (capture : StartupCandidateCapture) (handoff_id : u64) :
    anyhow BroadcasterSnapshotCandidate :=
  export ← export_captured (sc_chain_id capture) (sc_captured capture);
  build_snapshot_candidate (sc_chain_id capture) export (sc_base_heads capture)
    (sc_recovery_work_ids capture) handoff_id.

(** The section of [run_snapshot_export_preflight] under the gate. *)
Definition refresh_sources (boundary : option BroadcasterRedisReplayBoundary)
    (services : list ServiceState) :
    anyhow (option (u64 * BroadcasterRedisReplayBoundary
                    * list (list BroadcasterBackend * BroadcasterSnapshotSource * usize)
                    * list u64)) :=
  if existsb (λ s, is_active (rv_phase (sd_recovery s))) services then Ok None
  else
    match services with
    | [] => Ok None
    | first :: rest =>
        match pin_snapshot_source (sd_configured_backends first) (sd_cache first) with
        | None => Ok None
        | Some raw_source =>
            boundary ← ok_or boundary (anyhow_error "active Redis replay boundary is unavailable");
            for_each (λ s,
                ensure (sd_chain_id s =? sd_chain_id first)%N
                  (anyhow_error "combined broadcaster snapshot chain_id mismatch")) rest ;;
            Ok (Some (sd_chain_id first, boundary,
                  capture_source first raw_source
                  :: omap (λ s, capture_source s
                                  <$> pin_snapshot_source (sd_configured_backends s) (sd_cache s)) rest,
                  map (λ s, rv_work_id (sd_recovery s)) services))
        end
    end.

Definition refreshed_artifact (chain_id : u64)
    (captured : list (list BroadcasterBackend * BroadcasterSnapshotSource * usize))
    (boundary : BroadcasterRedisReplayBoundary) : anyhow (BroadcasterSnapshotArtifact * usize) :=
  export ← export_captured chain_id captured;
  build_snapshot_artifact chain_id export boundary.

(** ** Installing *)

(** Every service is where it was when its recovery was captured. *)
Definition recoveries_unchanged (services : list ServiceState) (work_ids : list u64) : bool :=
  forallb (λ '(s, work_id), (rv_work_id (sd_recovery s) =? work_id)%N
                            && negb (is_active (rv_phase (sd_recovery s)))) (zip services work_ids).

Definition ensure_recovery_work_ids_current (services : list ServiceState) (work_ids : list u64) :
    anyhow unit :=
  ensure (len work_ids =? len services)%N
    (anyhow_error "startup snapshot candidate recovery fence count changed") ;;
  ensure (recoveries_unchanged services work_ids)
    (anyhow_error "startup snapshot candidate crossed a recovery publication boundary").

Definition install_snapshot_artifact_if_current (current : option BroadcasterRedisReplayBoundary)
    (retained : anyhow bool) (artifact : N) (work_ids : list u64) (services : list ServiceState) :
    anyhow (list ServiceState) :=
  ensure (len work_ids =? len services)%N
    (anyhow_error "snapshot artifact recovery fence count changed before publication") ;;
  ensure (recoveries_unchanged services work_ids)
    (anyhow_error "snapshot artifact crossed a recovery publication boundary") ;;
  current ← ok_or current (anyhow_error "active Redis replay boundary disappeared");
  ensure (artifact_matches_current_boundary (deref artifact) current)
    (anyhow_error "snapshot artifact became stale before publication") ;;
  retained ← retained;
  ensure retained
    (anyhow_error "snapshot artifact replay boundary was trimmed before publication") ;;
  Ok (map (set_artifact artifact) services).

(** The checks of [promote_prepared_startup_candidate] before the publisher is promoted, and
    what follows its boundary. *)
Definition promotion_allowed (mode : BroadcasterRedisPublisherMode) (services : list ServiceState)
    (candidate : BroadcasterSnapshotCandidate) : anyhow unit :=
  ensure (bool_decide (mode = Passive))
    (anyhow_error "startup snapshot candidate can only promote a passive publisher") ;;
  ensure_recovery_work_ids_current services (ca_captured_recovery_work_ids candidate).

Definition promoted_services (boundary : BroadcasterRedisReplayBoundary) (artifact : N)
    (services : list ServiceState) : list ServiceState :=
  map (λ s, set_artifact artifact (set_generation (bd_generation boundary) s)) services.

Definition record_preflight (checked_at : Instant) (duration_ms : u64)
    (outcome : result string (usize * usize)) (p : BroadcasterSnapshotPreflightState) :
    BroadcasterSnapshotPreflightState :=
  match outcome with
  | Ok (payload_count, largest_payload_bytes) =>
      {| pf_checked_at := Some checked_at; pf_succeeded_at := Some checked_at;
         pf_duration_ms := Some duration_ms; pf_payload_count := Some payload_count;
         pf_largest_payload_bytes := Some largest_payload_bytes; pf_last_error := None |}
  | Err error =>
      {| pf_checked_at := Some checked_at; pf_succeeded_at := pf_succeeded_at p;
         pf_duration_ms := Some duration_ms; pf_payload_count := None;
         pf_largest_payload_bytes := None; pf_last_error := Some error |}
  end.
End service.
