(* ===== verification/ServiceDemo.v ===== *)
(** * Artifacts and sessions of a concrete export, for the witnesses *)

From S2P Require Import Prelude Ordered Text Protocol.
From S2P Require Import Wire Validate Codec TychoFeed RedisEntry Replay Recovery Store.
From S2P Require Import Health Reassembly RawMessage SnapshotExport SnapshotArtifact.
From S2P Require Import Processor Consumer Supervisor SnapshotSessions SessionFacts ArtifactFacts.
From S2P Require Import ExportDemo.

#[local] Existing Instance fields_tycho.
#[local] Existing Instance fields_raw.
#[local] Existing Instance fields_leaves.
#[local] Existing Instance fields_sync.
#[local] Existing Instance fields_serde.
#[local] Existing Instance fields_json.
#[local] Existing Instance demo_keccak.

(** The sizes of the demo do not count the identities. *)
#[local] Instance demo_label_json : LabelJson.
Proof. split. intros stream stream' snapshot snapshot' i p n _ _ Hn. exists n. split; [by destruct p|done]. Qed.

Definition demo_boundary : BroadcasterRedisReplayBoundary := {|
  bd_stream_key := "events"; bd_stream_id := format_redis_stream_id 1 7;
  bd_snapshot_id := format_redis_snapshot_id 1 7; bd_generation := 7;
  bd_exclusive_message_seq := 4; bd_state_version := 9 |}.

Definition demo_combined : anyhow BroadcasterSnapshotExport :=
  export ← demo_export; combine_snapshot_exports 1 [export].

Definition demo_candidate : anyhow BroadcasterSnapshotCandidate :=
  export ← demo_combined; build_snapshot_candidate 1 export [] [0%N] 3.

Lemma demo_candidate_built :
  ∃ exports export candidate, combine_snapshot_exports 1 exports = Ok export
    ∧ build_snapshot_candidate 1 export [] [0%N] 3 = Ok candidate
    ∧ length (xp_payloads export) = 7%nat
    ∧ is_ok (build_snapshot_artifact 1 export demo_boundary) = true.
Proof.
  assert (∃ first export candidate, demo_export = Ok first
    ∧ combine_snapshot_exports 1 [first] = Ok export
    ∧ build_snapshot_candidate 1 export [] [0%N] 3 = Ok candidate
    ∧ length (xp_payloads export) = 7%nat
    ∧ is_ok (build_snapshot_artifact 1 export demo_boundary) = true)
    as (first & export & candidate & _ & H1 & H2 & H3 & H4).
  { do 3 eexists. split; [vm_compute; reflexivity|]. split; [vm_compute; reflexivity|].
    split; [vm_compute; reflexivity|]. split; vm_compute; reflexivity. }
  exists [first], export, candidate. split_and!; assumption.
Qed.

Lemma startup_artifact_within_bounds_witness :
  ∃ export candidate, build_snapshot_candidate 1 export [] [0%N] 3 = Ok candidate
    ∧ length (ar_payloads (finalize_snapshot_candidate candidate demo_boundary)) = 7%nat
    ∧ ∃ sizes,
        Forall2 (λ envelope n, envelope_size envelope = Ok n)
          (ar_payloads (finalize_snapshot_candidate candidate demo_boundary)) sizes
        ∧ Forall (λ n, n ≤ ca_largest_payload_bytes_upper_bound candidate
                       ∧ n ≤ xp_max_payload_bytes export)%N sizes.
Proof.
  destruct demo_candidate_built as (exports & export & candidate & _ & Hc & Hlen & _).
  destruct (startup_artifact_within_bounds 1 export [] [0%N] 3 candidate demo_boundary Hc
              eq_refl eq_refl) as (Hpay & _ & sizes & Hs & Hb & _).
  exists export, candidate. split; [exact Hc|]. split.
  - rewrite Hpay, length_imap. exact Hlen.
  - exists sizes. split; [exact Hs|exact Hb].
Defined.

Lemma startup_and_refresh_agree_witness :
  ∃ export candidate artifact largest,
    build_snapshot_candidate 1 export [] [0%N] 3 = Ok candidate
    ∧ build_snapshot_artifact 1 export demo_boundary = Ok (artifact, largest)
    ∧ ar_payloads (finalize_snapshot_candidate candidate demo_boundary) = ar_payloads artifact.
Proof.
  destruct demo_candidate_built as (exports & export & candidate & Hcomb & Hc & _ & Ha).
  destruct (build_snapshot_artifact 1 export demo_boundary) as [[artifact largest]|e] eqn:Hb;
    [|discriminate Ha].
  destruct (startup_and_refresh_agree 1 exports export [] [0%N] 3 candidate demo_boundary artifact
              largest Hcomb Hc Hb) as (Hpay & _).
  exists export, candidate, artifact, largest.
  split; [exact Hc|]. split; [exact Hb|exact Hpay].
Defined.

(** ** Sessions *)

(** Two artifacts of 300 MiB, with one payload each. *)
Definition demo_artifact (n : N) : BroadcasterSnapshotArtifact := {|
  ar_chain_id := 1; ar_stream_id := bd_stream_id demo_boundary;
  ar_snapshot_id := bd_snapshot_id demo_boundary; ar_redis_replay_boundary := demo_boundary;
  ar_payloads := [{| env_stream_id := bd_stream_id demo_boundary; env_message_seq := 1;
                     env_payload := SnapshotEnd {| sn_snapshot_id := u64_to_string n |} |}];
  ar_snapshot_chunk_count := 0; ar_encoded_bytes := 300 * 1024 * 1024 |}.

Definition demo_ops : list SessionOp :=
  [OpCreate 1 1000 5 5; OpCreate 1 1000 6 6; OpCreate 2 1000 7 7; OpCleanup 8].

(** The second artifact does not fit next to the first. *)
Example demo_second_refused :
  size (reg_pending (apply_ops demo_artifact map_to_list demo_ops registry_new)) = 2%nat.
Proof. by vm_compute. Qed.

Lemma sessions_bounded_witness :
  let sessions := reg_pending (apply_ops demo_artifact map_to_list demo_ops registry_new) in
  size sessions = 2%nat
  ∧ (N.of_nat (size sessions) ≤ MAX_SNAPSHOT_SESSIONS)%N
  ∧ (kept_bytes demo_artifact sessions ≤ MAX_RETAINED_SNAPSHOT_BYTES)%N.
Proof.
  split; [vm_compute; reflexivity|].
  apply (sessions_bounded demo_artifact map_to_list (λ sessions, Permutation_refl _) demo_ops).
Defined.

Lemma session_serves_artifact_witness :
  ∃ response reg, create_snapshot_session demo_artifact map_to_list 1 1000 5 5 registry_new
      = (Ok response, reg)
    ∧ let later := apply_ops demo_artifact map_to_list [OpCreate 2 1000 7 7; OpCleanup 8] reg in
      snapshot_payload demo_artifact 0 900 (sr_session_id response) 0 later
      = (ok_or (ar_payloads (demo_artifact 1) !! 0%nat) PayloadOutOfRange, later)
    ∧ snapshot_payload demo_artifact 64 900 (sr_session_id response) 0 later = (Err SessionBusy, later)
    ∧ ∃ closed, snapshot_payload demo_artifact 0 2000 (sr_session_id response) 0 later
        = (Err SessionExpired, closed).
Proof.
  assert (∃ response reg, create_snapshot_session demo_artifact map_to_list 1 1000 5 5 registry_new
      = (Ok response, reg) ∧ (reg_next_session_id reg =? 2)%N
          && (reg_next_session_id (apply_op demo_artifact map_to_list (OpCreate 2 1000 7 7) reg) =? 3)%N
        = true) as (response & reg & Hc & Hn).
  { do 2 eexists. split; [vm_compute; reflexivity|vm_compute; reflexivity]. }
  apply andb_true_iff in Hn as [Hn1%N.eqb_eq Hn2%N.eqb_eq].
  assert (Hids : ids_left demo_artifact map_to_list [OpCreate 2 1000 7 7; OpCleanup 8] reg).
  { split; [rewrite Hn1; reflexivity|]. split; [rewrite Hn2; reflexivity|exact I]. }
  destruct (session_serves_artifact demo_artifact map_to_list (λ sessions, Permutation_refl _)
              1 1000 5 5 registry_new response reg [OpCreate 2 1000 7 7; OpCleanup 8]) as (_ & Hserve).
  - reflexivity.
  - exact Hc.
  - repeat constructor.
  - exact Hids.
  - exists response, reg. split; [exact Hc|]. cbv zeta.
    split; [exact (Hserve 0%N 900%N 0%N)|split; [exact (Hserve 64%N 900%N 0%N)|]].
    destruct (Hserve 0%N 2000%N 0%N) as (closed & Hclosed & _). exists closed. exact Hclosed.
Defined.
