(* ===== verification/RouteTypes.v ===== *)
(** * Route requests and what encoding reads of them

    [simulator-core/src/models/messages.rs] (the request and the response of the
    encoding endpoint), [runtime/src/services/encode/model.rs], [error.rs], [backend.rs],
    [wire.rs] and [request.rs], and the ERC-4626 pair policies of
    [runtime/src/models/erc4626.rs].  Amounts are natural numbers, as [BigUint] is. *)

From S2P Require Import Prelude Ordered Text Protocol Store.

(** ** Outside types

    Chains, the id of a component, and the conversions of [Bytes] and [BigUint] to and
    from text and bytes. *)
Class RouteApi `{TychoTokens} := {
  Chain : Type;
  Chain_id : Chain → u64;
  chain_native_token : Chain → Token;
  chain_wrapped_native_token : Chain → Token;
  component_id : ProtocolComponent → Bytes;
  Bytes_from_str : string → result string Bytes;
  Bytes_to_string : Bytes → string;
  Bytes_lower_hex : Bytes → string;
  BigUint_from_str : string → option N;
  BigUint_to_string : N → string;
  to_bytes_be : N → string;
  U256_from_be_slice : string → N;
}.

(** Big-endian bytes are as few as the number needs, and a word reads them back. *)
Class RouteApiLaws `{RouteApi} := {
  to_bytes_be_length : ∀ n, (String.length (to_bytes_be n) ≤ 32)%nat ↔ (n < 2 ^ 256)%N;
  U256_from_to : ∀ n, (n < 2 ^ 256)%N → U256_from_be_slice (to_bytes_be n) = n;
}.

(** ** Trimming *)

(** [str::trim_start] and [str::trim_end]. *)
Fixpoint trim_start (s : string) : string :=
  match s with
  | EmptyString => EmptyString
  | String a r1 =>
      if ascii_whitespace a then trim_start r1
      else match r1 with
           | EmptyString => s
           | String b r2 =>
               if wide_whitespace2 a b then trim_start r2
               else match r2 with
                    | EmptyString => s
                    | String c r3 => if wide_whitespace3 a b c then trim_start r3 else s
                    end
           end
  end.

Fixpoint trim_end (s : string) : string :=
  match s with
  | EmptyString => EmptyString
  | String c r => if str_blank s then EmptyString else String c (trim_end r)
  end.

Definition str_trim (s : string) : string := trim_end (trim_start s).

(** [str::strip_prefix]. *)
Definition strip_prefix (prefix s : string) : option string :=
  if String.prefix prefix s
  then Some (String.substring (String.length prefix) (String.length s - String.length prefix) s)
  else None.

(** ** Errors *)

Inductive EncodeErrorKind :=
| InvalidRequest
| NotFound
| Unavailable
| Simulation
| Encoding
| Internal.

#[export] Instance EncodeErrorKind_eq_dec : EqDecision EncodeErrorKind.
Proof. solve_decision. Defined.

Record EncodeError := { ee_kind : EncodeErrorKind; ee_message : string }.

Definition encode_error (kind : EncodeErrorKind) (message : string) : EncodeError :=
  {| ee_kind := kind; ee_message := message |}.
Definition invalid : string → EncodeError := encode_error InvalidRequest.
Definition not_found : string → EncodeError := encode_error NotFound.
Definition simulation : string → EncodeError := encode_error Simulation.
Definition unavailable : string → EncodeError := encode_error Unavailable.
Definition encoding : string → EncodeError := encode_error Encoding.
Definition internal : string → EncodeError := encode_error Internal.

Abbreviation encodeR := (result EncodeError).

(** ** Requests and responses *)

Record PoolRef := {
  pr_protocol : string;
  pr_component_id : string;
  pr_pool_address : option string;
}.

Record PoolSwapDraft := {
  psd_pool : PoolRef;
  psd_token_in : string;
  psd_token_out : string;
  psd_split_bps : u32;
}.

Record HopDraft := {
  hd_token_in : string;
  hd_token_out : string;
  hd_swaps : list PoolSwapDraft;
}.

Inductive SwapKind := SimpleSwap | MultiSwap | MegaSwap.

#[export] Instance SwapKind_eq_dec : EqDecision SwapKind.
Proof. solve_decision. Defined.

Record SegmentDraft := {
  sd_kind : SwapKind;
  sd_share_bps : u32;
  sd_hops : list HopDraft;
}.

Record RouteEncodeRequest := {
  re_chain_id : u64;
  re_token_in : string;
  re_token_out : string;
  re_amount_in : string;
  re_min_amount_out : string;
  re_settlement_address : string;
  re_tycho_router_address : string;
  re_swap_kind : SwapKind;
  re_segments : list SegmentDraft;
  re_request_id : option string;
  re_estimated_amount_in : option string;
}.

Inductive InteractionKind := Erc20Approve | Call.

Record Interaction := {
  ia_kind : InteractionKind;
  ia_target : string;
  ia_value : string;
  ia_calldata : string;
}.

Record ResimulationDebug := {
  rd_block_number : option u64;
  rd_tycho_state_tag : option string;
}.

Record RouteDebug := {
  rd_request_id : option string;
  rd_resimulation : option ResimulationDebug;
}.

Record RouteEncodeResponse := {
  rr_interactions : list Interaction;
  rr_debug : option RouteDebug;
}.

(** ** Backends of pools *)

Inductive PoolBackend := PoolNative | PoolVm | PoolRfq.

#[export] Instance PoolBackend_eq_dec : EqDecision PoolBackend.
Proof. solve_decision. Defined.

Definition from_kind (kind : option ProtocolKind) : PoolBackend :=
  match kind with
  | Some (Curve | BalancerV2 | MaverickV2 | UniswapV4) => PoolVm
  | Some (Hashflow | Bebop | Liquorice) => PoolRfq
  | _ => PoolNative
  end.

Definition PoolBackend_from_component `{TychoTypes} (component : ProtocolComponent) : PoolBackend :=
  from_kind (ProtocolKind_from_component component).
Definition PoolBackend_from_protocol_hint (protocol : string) : PoolBackend :=
  from_kind (ProtocolKind_from_protocol_hint protocol).

Definition is_native (b : PoolBackend) : bool :=
  match b with PoolNative => true | _ => false end.
Definition is_vm (b : PoolBackend) : bool := match b with PoolVm => true | _ => false end.
Definition is_rfq (b : PoolBackend) : bool := match b with PoolRfq => true | _ => false end.
Definition uses_rebuild_guard (b : PoolBackend) : bool :=
  match b with PoolVm | PoolRfq => true | _ => false end.

(** ** Routes *)

Record NormalizedSwapDraftInternal := {
  ns_pool : PoolRef;
  ns_token_in : Bytes;
  ns_token_out : Bytes;
  ns_split_bps : u32;
}.

Record NormalizedHopInternal := {
  nh_token_in : Bytes;
  nh_token_out : Bytes;
  nh_swaps : list NormalizedSwapDraftInternal;
}.

Record NormalizedSegmentInternal := {
  nseg_share_bps : u32;
  nseg_amount_in : N;
  nseg_hops : list NormalizedHopInternal;
}.

Record NormalizedRouteInternal := { nr_segments : list NormalizedSegmentInternal }.

Section resimulated.
Context `{TychoTypes}.

Record ResimulatedSwapInternal := {
  rs_pool : PoolRef;
  rs_backend : PoolBackend;
  rs_token_in : Bytes;
  rs_token_out : Bytes;
  rs_split_bps : u32;
  rs_amount_in : N;
  rs_expected_amount_out : N;
  rs_pool_state : ProtocolSim;
  rs_component : ProtocolComponent;
}.

Record ResimulatedHopInternal := {
  rh_token_in : Bytes;
  rh_token_out : Bytes;
  rh_amount_in : N;
  rh_expected_amount_out : N;
  rh_swaps : list ResimulatedSwapInternal;
}.

Record ResimulatedSegmentInternal := {
  rseg_share_bps : u32;
  rseg_amount_in : N;
  rseg_expected_amount_out : N;
  rseg_hops : list ResimulatedHopInternal;
}.

Record ResimulatedRouteInternal := { rroute_segments : list ResimulatedSegmentInternal }.
End resimulated.

(** ** Text on the wire *)

Section wire.
Context `{RouteApi}.

Definition parse_amount (value : string) : encodeR N :=
  ok_or (BigUint_from_str value) (invalid ("Invalid amount: " +:+ value)).

Definition parse_address (value : string) : encodeR Bytes :=
  let trimmed := str_trim value in
  bytes ← map_err (λ err, invalid ("Invalid address " +:+ value +:+ ": " +:+ err))
            (Bytes_from_str trimmed);
  ensure (bool_decide (String.length bytes = 20%nat))
    (invalid ("Invalid address length for " +:+ value)) ;;
  Ok bytes.

Definition format_0x_hex (raw : string) : string :=
  let raw := str_trim raw in
  let stripped :=
    match strip_prefix "0x" raw with
    | Some stripped => stripped
    | None => match strip_prefix "0X" raw with Some stripped => stripped | None => raw end
    end in
  "0x" +:+ to_ascii_lowercase stripped.

Definition format_address (bytes : Bytes) : string := format_0x_hex (Bytes_lower_hex bytes).
Definition format_calldata (data : Bytes) : string := format_0x_hex (Bytes_lower_hex data).

Definition biguint_to_u256_checked (value : N) (label : string) : encodeR N :=
  let bytes := to_bytes_be value in
  if bool_decide (32 < String.length bytes)%nat
  then Err (invalid (label +:+ " must fit uint256"))
  else Ok (U256_from_be_slice bytes).

(** ** Checks of a request *)

Definition validate_chain (chain_id : u64) (expected : Chain) : encodeR Chain :=
  ensure (Chain_id expected =? chain_id)%N
    (invalid ("Unsupported chainId: " +:+ u64_to_string chain_id
                +:+ " (this instance serves chain " +:+ u64_to_string (Chain_id expected)
                +:+ ")")) ;;
  Ok expected.

Definition normalize_protocol_id (protocol_id : string) : string :=
  replace_chars ["-"; " "]%char "_" (to_ascii_lowercase (str_trim protocol_id)).

Definition is_native_protocol_allowlisted (protocol_id : string) (allowlist : list string) :
    bool :=
  let normalized := normalize_protocol_id protocol_id in
  existsb (λ candidate, bool_decide (normalize_protocol_id candidate = normalized)) allowlist.

Definition format_native_protocol_allowlist (allowlist : list string) : string :=
  str_join ", " allowlist.

Definition should_reset_allowance (reset_allowance_tokens : gmap u64 (gset Bytes))
    (chain_id : u64) (token_in : Bytes) : bool :=
  match reset_allowance_tokens !! chain_id with
  | Some tokens => bool_decide (token_in ∈ tokens)
  | None => false
  end.

Definition infer_route_kind (segments : list SegmentDraft) : SwapKind :=
  if bool_decide (1 < length segments)%nat then MegaSwap
  else
    let hops_len := match segments with [] => 0%nat | segment :: _ => length (sd_hops segment) end in
    if bool_decide (1 < hops_len)%nat then MultiSwap else SimpleSwap.

Definition infer_segment_kind (segment : SegmentDraft) : SwapKind :=
  if bool_decide (1 < length (sd_hops segment))%nat then MultiSwap else SimpleSwap.

Definition SwapKind_debug (kind : SwapKind) : string :=
  match kind with
  | SimpleSwap => "SimpleSwap"
  | MultiSwap => "MultiSwap"
  | MegaSwap => "MegaSwap"
  end.

(** [segment[index]]. *)
Definition segment_label (index : nat) : string :=
  "segment[" +:+ u64_to_string (N.of_nat index) +:+ "]".

Definition validate_swap_kinds (request : RouteEncodeRequest) : encodeR unit :=
  ensure (negb (bool_decide (re_segments request = [])))
    (invalid "segments must not be empty") ;;
  let expected_route_kind := infer_route_kind (re_segments request) in
  ensure (bool_decide (re_swap_kind request = expected_route_kind))
    (invalid ("swapKind mismatch: expected " +:+ SwapKind_debug expected_route_kind)) ;;
  for_each (λ '(index, segment),
      let expected_segment_kind := infer_segment_kind segment in
      ensure (bool_decide (sd_kind segment = expected_segment_kind))
        (invalid (segment_label index +:+ ".kind mismatch: expected "
                    +:+ SwapKind_debug expected_segment_kind)))
    (imap pair (re_segments request)).

(** ** ERC-4626 pairs *)

Record Erc4626PairPolicy := {
  ep_asset_symbol : string;
  ep_share_symbol : string;
  ep_asset : Bytes;
  ep_share : Bytes;
  ep_allow_asset_to_share : bool;
  ep_allow_share_to_asset : bool;
}.

Definition supports_direction (pair : Erc4626PairPolicy) (token_in token_out : Bytes)
    (deposits_enabled : bool) : bool :=
  (deposits_enabled && ep_allow_asset_to_share pair
     && bool_decide (token_in = ep_asset pair) && bool_decide (token_out = ep_share pair))
  || (ep_allow_share_to_asset pair && bool_decide (token_in = ep_share pair)
        && bool_decide (token_out = ep_asset pair)).

Definition component_matches (pair : Erc4626PairPolicy) (component : ProtocolComponent) : bool :=
  let tokens := component_tokens component in
  bool_decide (component_id component = ep_share pair)
  && bool_decide (length tokens = 2%nat)
  && existsb (λ token, bool_decide (token_address token = ep_asset pair)) tokens
  && existsb (λ token, bool_decide (token_address token = ep_share pair)) tokens.

Definition direction_label (pair : Erc4626PairPolicy) (token_in token_out : Bytes) :
    option string :=
  if bool_decide (token_in = ep_asset pair) && bool_decide (token_out = ep_share pair)
  then Some (ep_asset_symbol pair +:+ " -> " +:+ ep_share_symbol pair)
  else if bool_decide (token_in = ep_share pair) && bool_decide (token_out = ep_asset pair)
  then Some (ep_share_symbol pair +:+ " -> " +:+ ep_asset_symbol pair)
  else None.

Definition is_erc4626_protocol (protocol : string) : bool :=
  bool_decide (normalize_protocol_id protocol = "erc4626").

Definition component_is_erc4626 (component : ProtocolComponent) : bool :=
  bool_decide (ProtocolKind_from_component component = Some ERC4626).

Definition request_direction_supported (protocol : string) (token_in token_out : Bytes)
    (deposits_enabled : bool) (pair_policies : list Erc4626PairPolicy) : bool :=
  negb (is_erc4626_protocol protocol)
  || existsb (λ pair, supports_direction pair token_in token_out deposits_enabled) pair_policies.

Definition component_direction_supported (component : ProtocolComponent)
    (token_in token_out : Bytes) (deposits_enabled : bool)
    (pair_policies : list Erc4626PairPolicy) : bool :=
  negb (component_is_erc4626 component)
  || existsb (λ pair, supports_direction pair token_in token_out deposits_enabled
                       && component_matches pair component) pair_policies.

Definition supported_direction_labels (deposits_enabled : bool)
    (pair_policies : list Erc4626PairPolicy) : list string :=
  flat_map (λ pair,
      (if deposits_enabled && ep_allow_asset_to_share pair
       then [ep_asset_symbol pair +:+ " -> " +:+ ep_share_symbol pair] else [])
      ++ (if ep_allow_share_to_asset pair
          then [ep_share_symbol pair +:+ " -> " +:+ ep_asset_symbol pair] else []))
    pair_policies.

(** [iter().find_map]. *)
Fixpoint find_map {A B} (f : A → option B) (l : list A) : option B :=
  match l with
  | [] => None
  | x :: l => match f x with Some y => Some y | None => find_map f l end
  end.

Definition unsupported_direction_message (token_in token_out : Bytes) (deposits_enabled : bool)
    (pair_policies : list Erc4626PairPolicy) : string :=
  let requested :=
    default (Bytes_to_string token_in +:+ " -> " +:+ Bytes_to_string token_out)
      (find_map (λ pair, direction_label pair token_in token_out) pair_policies) in
  let supported := str_join ", " (supported_direction_labels deposits_enabled pair_policies) in
  "ERC4626 direction " +:+ requested
    +:+ " is not currently supported by this server; supported directions are [" +:+ supported
    +:+ "]".
End wire.

(** ** Lemmas *)

Section laws.
Context `{RouteApi} `{!RouteApiLaws}.

Lemma u256_checked_ok value label word :
  biguint_to_u256_checked value label = Ok word ↔ word = value ∧ (value < 2 ^ 256)%N.
Proof.
  unfold biguint_to_u256_checked. case_bool_decide as Hlen.
  - split; [done|]. intros [_ Hlt%to_bytes_be_length]. lia.
  - apply Nat.nlt_ge, to_bytes_be_length in Hlen. rewrite U256_from_to by done.
    split; [by intros [= <-]|by intros [-> _]].
Qed.

Lemma parse_address_ok value bytes :
  parse_address value = Ok bytes →
  Bytes_from_str (str_trim value) = Ok bytes ∧ String.length bytes = 20%nat.
Proof.
  unfold parse_address. intros (b & Hb & [He [= ->]]%seq_ok)%bind_ok.
  apply ensure_ok, bool_decide_eq_true in He. split; [|done].
  destruct (Bytes_from_str _); [by injection Hb as ->|done].
Qed.
End laws.
