(* ===== verification/RouteNormalize.v ===== *)
(** * Allocating amounts and normalising a route

    [runtime/src/services/encode/allocation.rs] and [normalize.rs]: a route request, whose
    segments and swaps have shares in basis points, becomes a route whose segments have
    amounts and whose hops form a chain from the input token to the output token. *)

From S2P Require Import Prelude Ordered Text Protocol Store RouteTypes.

(** ** Allocation *)

Definition BPS_DENOMINATOR : u32 := 10000.

Definition mul_bps (amount : N) (bps : u32) : N :=
  if (bps =? 0)%N then 0%N else (amount * bps / BPS_DENOMINATOR)%N.

(** The variables of the loop of [allocate_amounts_by_bps]. *)
Record Allocation := {
  al_sum_bps : u32;
  al_allocated : N;
  al_amounts : list N;
}.

(** One turn.  The subtraction of the last one is on [BigUint], which panics below zero:
    what has been allocated is at most the total, as [allocate_spec] shows. *)
Definition allocate_step (total : N) (last_index : nat) (label field_name : string)
    (a : Allocation) (x : nat * u32) : encodeR Allocation :=
  let '(index, share) := x in
  ensure (share <=? BPS_DENOMINATOR)%N
    (invalid (label +:+ " " +:+ field_name +:+ " must be <= 10000")) ;;
  if bool_decide (index < last_index)%nat then
    ensure (negb (share =? 0)%N)
      (invalid (label +:+ " " +:+ field_name +:+ " remainder must be last")) ;;
    let sum_bps := N.min (al_sum_bps a + share) u32_max in
    ensure (sum_bps <=? BPS_DENOMINATOR)%N
      (invalid (label +:+ " " +:+ field_name +:+ " sum exceeds 10000")) ;;
    let amount := mul_bps total share in
    ensure (negb (bool_decide (0 < last_index)%nat && (amount =? 0)%N))
      (invalid (label +:+ " " +:+ field_name
                  +:+ " rounds down to zero for this amountIn; increase amountIn or adjust "
                  +:+ field_name)) ;;
    Ok {| al_sum_bps := sum_bps; al_allocated := al_allocated a + amount;
          al_amounts := al_amounts a ++ [amount] |}
  else
    ensure (share =? 0)%N
      (invalid (label +:+ " last " +:+ field_name +:+ " must be 0 to take remainder")) ;;
    let amount := (total - al_allocated a)%N in
    ensure (negb (bool_decide (0 < last_index)%nat && (amount =? 0)%N))
      (invalid (label +:+ " " +:+ field_name +:+ " must leave a remainder for the last entry")) ;;
    Ok {| al_sum_bps := al_sum_bps a; al_allocated := al_allocated a;
          al_amounts := al_amounts a ++ [amount] |}.

Definition allocate_amounts_by_bps (total : N) (shares : list u32) (label field_name : string) :
    encodeR (list N) :=
  ensure (negb (bool_decide (shares = [])))
    (invalid (label +:+ " " +:+ field_name +:+ " must not be empty")) ;;
  let last_index := (length shares - 1)%nat in
  a ← fold_result (allocate_step total last_index label field_name)
        {| al_sum_bps := 0; al_allocated := 0; al_amounts := [] |} (imap pair shares);
  Ok (al_amounts a).

Record AllocatedSwap := {
  as_pool : PoolRef;
  as_token_in : Bytes;
  as_token_out : Bytes;
  as_split_bps : u32;
  as_amount_in : N;
}.

Definition allocate_swaps_by_bps (hop_amount_in : N) (swaps : list NormalizedSwapDraftInternal)
    (segment_index hop_index : nat) : encodeR (list AllocatedSwap) :=
  ensure (negb (bool_decide (length swaps = 0%nat))) (invalid "hop.swaps must not be empty") ;;
  ensure (negb (hop_amount_in =? 0)%N) (invalid "hop amountIn must be > 0") ;;
  amounts ← allocate_amounts_by_bps hop_amount_in (map ns_split_bps swaps)
              (segment_label segment_index +:+ ".hop[" +:+ u64_to_string (N.of_nat hop_index)
                 +:+ "].swap") "splitBps";
  fold_result (λ allocations '(index, swap),
      amount_in ← ok_or (amounts !! index) (internal "Missing swap amount allocation");
      Ok (allocations ++ [{| as_pool := ns_pool swap; as_token_in := ns_token_in swap;
                             as_token_out := ns_token_out swap;
                             as_split_bps := ns_split_bps swap; as_amount_in := amount_in |}]))
    [] (imap pair swaps).

(** ** Normalisation *)

(** [iter().map(f).collect::<Result<_, _>>()]: the first error ends it. *)
Fixpoint try_map {E A B} (f : A → result E B) (l : list A) : result E (list B) :=
  match l with
  | [] => Ok []
  | x :: l => y ← f x; ys ← try_map f l; Ok (y :: ys)
  end.

(** The settings of the server that normalisation and resimulation read. *)
Record RouteSettings := {
  set_erc4626_deposits_enabled : bool;
  set_erc4626_pair_policies : list Erc4626PairPolicy;
  set_native_token_protocol_allowlist : list string;
}.

Section normalize.
Context `{RouteApi} (settings : RouteSettings).

Definition validate_segment_shape (segment : SegmentDraft) (segment_index : nat) : encodeR unit :=
  ensure (negb (bool_decide (length (sd_hops segment) = 0%nat)))
    (invalid (segment_label segment_index +:+ ".hops must not be empty")).

Fixpoint validate_windows (hops : list HopDraft) : encodeR unit :=
  match hops with
  | prev :: (next :: _) as rest =>
      prev_out ← parse_address (hd_token_out prev);
      next_in ← parse_address (hd_token_in next);
      ensure (bool_decide (prev_out = next_in))
        (invalid "hop token continuity mismatch within segment") ;;
      validate_windows rest
  | _ => Ok tt
  end.

Definition validate_hop_continuity (segment : SegmentDraft)
    (request_token_in request_token_out : Bytes) : encodeR unit :=
  first ← ok_or (head (sd_hops segment)) (invalid "segment.hops must not be empty");
  last ← ok_or (last (sd_hops segment)) (invalid "segment.hops must not be empty");
  first_in ← parse_address (hd_token_in first);
  ensure (bool_decide (first_in = request_token_in))
    (invalid "segment first hop tokenIn does not match request tokenIn") ;;
  last_out ← parse_address (hd_token_out last);
  ensure (bool_decide (last_out = request_token_out))
    (invalid "segment last hop tokenOut does not match request tokenOut") ;;
  validate_windows (sd_hops segment).

Definition validate_erc4626_swap_supported (swap : PoolSwapDraft) (token_in token_out : Bytes) :
    encodeR unit :=
  if negb (is_erc4626_protocol (pr_protocol (psd_pool swap))) then Ok tt
  else if request_direction_supported (pr_protocol (psd_pool swap)) token_in token_out
            (set_erc4626_deposits_enabled settings) (set_erc4626_pair_policies settings)
  then Ok tt
  else Err (invalid (unsupported_direction_message token_in token_out
                       (set_erc4626_deposits_enabled settings)
                       (set_erc4626_pair_policies settings))).

Definition normalize_swap (swap : PoolSwapDraft) (hop_token_in hop_token_out : Bytes) :
    encodeR NormalizedSwapDraftInternal :=
  token_in ← parse_address (psd_token_in swap);
  token_out ← parse_address (psd_token_out swap);
  ensure (bool_decide (token_in = hop_token_in))
    (invalid "swap tokenIn does not match hop tokenIn") ;;
  ensure (bool_decide (token_out = hop_token_out))
    (invalid "swap tokenOut does not match hop tokenOut") ;;
  validate_erc4626_swap_supported swap token_in token_out ;;
  ensure (psd_split_bps swap <=? BPS_DENOMINATOR)%N
    (invalid "swap splitBps must be <= 10000") ;;
  Ok {| ns_pool := psd_pool swap; ns_token_in := token_in; ns_token_out := token_out;
        ns_split_bps := psd_split_bps swap |}.

Definition native_only_for (protocol : string) : EncodeError :=
  invalid ("native tokenIn/tokenOut is only supported for protocols ["
             +:+ format_native_protocol_allowlist (set_native_token_protocol_allowlist settings)
             +:+ "]; got " +:+ protocol).

Definition normalize_hop (hop : HopDraft) (native_address : Bytes) :
    encodeR NormalizedHopInternal :=
  ensure (negb (bool_decide (length (hd_swaps hop) = 0%nat)))
    (invalid "hop.swaps must not be empty") ;;
  token_in ← parse_address (hd_token_in hop);
  token_out ← parse_address (hd_token_out hop);
  (if bool_decide (token_in = native_address) || bool_decide (token_out = native_address) then
     for_each (λ swap,
         ensure (is_native_protocol_allowlisted (pr_protocol (psd_pool swap))
                   (set_native_token_protocol_allowlist settings))
           (native_only_for (pr_protocol (psd_pool swap))))
       (hd_swaps hop)
   else Ok tt) ;;
  swaps ← try_map (λ swap, normalize_swap swap token_in token_out) (hd_swaps hop);
  Ok {| nh_token_in := token_in; nh_token_out := token_out; nh_swaps := swaps |}.

(** The body of the loop of [normalize_route]. *)
Definition normalize_segment (request_token_in request_token_out native_address : Bytes)
    (segment_amounts : list N) (normalized : list NormalizedSegmentInternal)
    (x : nat * SegmentDraft) : encodeR (list NormalizedSegmentInternal) :=
  let '(segment_index, segment) := x in
  validate_segment_shape segment segment_index ;;
  validate_hop_continuity segment request_token_in request_token_out ;;
  hops ← try_map (λ hop, normalize_hop hop native_address) (sd_hops segment);
  segment_amount_in ← ok_or (segment_amounts !! segment_index)
                        (internal "Missing segment amount allocation");
  ensure (negb (segment_amount_in =? 0)%N)
    (invalid (segment_label segment_index +:+ " amountIn must be > 0")) ;;
  Ok (normalized ++ [{| nseg_share_bps := sd_share_bps segment;
                        nseg_amount_in := segment_amount_in; nseg_hops := hops |}]).

Definition normalize_route (request : RouteEncodeRequest)
    (request_token_in request_token_out : Bytes) (total_amount_in : N)
    (native_address : Bytes) : encodeR NormalizedRouteInternal :=
  ensure (negb (bool_decide (length (re_segments request) = 0%nat)))
    (invalid "segments must not be empty") ;;
  ensure (negb (total_amount_in =? 0)%N) (invalid "amountIn must be > 0") ;;
  segment_amounts ← allocate_amounts_by_bps total_amount_in
                      (map sd_share_bps (re_segments request)) "segment" "shareBps";
  segments ← fold_result
               (normalize_segment request_token_in request_token_out native_address
                  segment_amounts) [] (imap pair (re_segments request));
  Ok {| nr_segments := segments |}.
End normalize.

Definition route_swaps (normalized : NormalizedRouteInternal) : list NormalizedSwapDraftInternal :=
  flat_map nh_swaps (flat_map nseg_hops (nr_segments normalized)).

(** The loop of [route_backend_usage], which stops once every backend is used. *)
Fixpoint backend_usage_from (usage : bool * bool * bool) (swaps : list NormalizedSwapDraftInternal) :
    bool * bool * bool :=
  match swaps with
  | [] => usage
  | swap :: swaps =>
      let '(uses_native, uses_vm, uses_rfq) := usage in
      let usage :=
        match PoolBackend_from_protocol_hint (pr_protocol (ns_pool swap)) with
        | PoolNative => (true, uses_vm, uses_rfq)
        | PoolVm => (uses_native, true, uses_rfq)
        | PoolRfq => (uses_native, uses_vm, true)
        end in
      if bool_decide (usage = (true, true, true)) then usage else backend_usage_from usage swaps
  end.

Definition route_backend_usage (normalized : NormalizedRouteInternal) : bool * bool * bool :=
  backend_usage_from (false, false, false) (route_swaps normalized).
