(* ===== verification/RouteAllocFacts.v ===== *)
(** * What allocation and normalisation promise

    An allocation spends exactly the amount it divides; a normalised route carries the whole
    amount of the request from the input token to the output token. *)

From S2P Require Import Prelude Ordered Text Protocol Store RouteTypes RouteNormalize.

Definition N_sum (l : list N) : N := foldr N.add 0%N l.

Lemma N_sum_app l1 l2 : N_sum (l1 ++ l2) = (N_sum l1 + N_sum l2)%N.
Proof. unfold N_sum. induction l1 as [|x l1 IH]; simpl; [done|]. rewrite IH. lia. Qed.

(** ** Loops *)

Lemma try_map_ok {E A B} (f : A → result E B) l ys :
  try_map f l = Ok ys ↔ Forall2 (λ x y, f x = Ok y) l ys.
Proof.
  revert ys. induction l as [|x l IH]; intros ys; simpl.
  - split; [by intros [= <-]|]. by intros ->%Forall2_nil_inv_l.
  - rewrite bind_ok. setoid_rewrite bind_ok. split.
    + intros (y & Hy & ys' & Hys & [= <-]). constructor; [done|by apply IH].
    + intros (y & ys' & Hy & Hys & ->)%Forall2_cons_inv_l. exists y. split; [done|].
      exists ys'. split; [by apply IH|done].
Qed.

(** A loop that appends one element per turn relates the elements pairwise. *)
Lemma append_loop_ok {E A B} (R : A → B → Prop) (g : list B → A → result E (list B)) l acc ys :
  (∀ acc x ys, g acc x = Ok ys ↔ ∃ y, ys = acc ++ [y] ∧ R x y) →
  fold_result g acc l = Ok ys ↔ ∃ zs, ys = acc ++ zs ∧ Forall2 R l zs.
Proof.
  intros Hg. revert acc. induction l as [|x l IH]; intros acc; simpl.
  - split; [intros [= <-]; exists []; by rewrite app_nil_r|].
    intros (zs & -> & ->%Forall2_nil_inv_l). by rewrite app_nil_r.
  - rewrite bind_ok. split.
    + intros (acc' & (y & -> & Hy)%Hg & Hl). apply IH in Hl as (zs & -> & Hzs).
      exists (y :: zs). rewrite <- app_assoc. split; [done|by constructor].
    + intros (? & -> & (y & zs & Hy & Hzs & ->)%Forall2_cons_inv_l).
      exists (acc ++ [y]). split; [apply Hg; by exists y|]. apply IH. exists zs.
      by rewrite <- app_assoc.
Qed.

(** ** Allocation *)

(** How an amount is divided: every share but the last is a positive number of basis points,
    the last takes the remainder, and no part of several is zero. *)
Definition allocation_of (total : N) (shares : list u32) (amounts : list N) : Prop :=
  ∃ firsts, shares = firsts ++ [0%N] ∧
    Forall (λ share, 0 < share ≤ BPS_DENOMINATOR)%N firsts ∧
    (N_sum firsts ≤ BPS_DENOMINATOR)%N ∧
    amounts = map (mul_bps total) firsts ++ [total - N_sum (map (mul_bps total) firsts)]%N ∧
    (firsts ≠ [] → Forall (λ amount, 0 < amount)%N amounts).

Lemma mul_bps_eq total share : mul_bps total share = (total * share / BPS_DENOMINATOR)%N.
Proof. unfold mul_bps. destruct (N.eqb_spec share 0) as [->|]; [|done]. by rewrite N.mul_0_r. Qed.

Lemma mul_bps_sum total shares :
  (N_sum (map (mul_bps total) shares) ≤ total * N_sum shares / BPS_DENOMINATOR)%N.
Proof.
  unfold N_sum. induction shares as [|s shares IH]; simpl; [apply N.le_0_l|].
  rewrite mul_bps_eq. rewrite N.mul_add_distr_l. unfold BPS_DENOMINATOR in *.
  set (x := foldr N.add 0%N (map _ shares)) in *. clearbody x.
  set (a := (total * s)%N). set (b := (total * foldr N.add 0 shares)%N) in *. clearbody a b.
  assert (10000 ≠ 0)%N as Hd by done.
  pose proof (N.Div0.mul_div_le a 10000). pose proof (N.Div0.mul_div_le b 10000).
  apply N.div_le_lower_bound; [done|]. lia.
Qed.

Lemma mul_bps_sum_le total shares :
  (N_sum shares ≤ BPS_DENOMINATOR)%N → (N_sum (map (mul_bps total) shares) ≤ total)%N.
Proof.
  intros Hs. etrans; [apply mul_bps_sum|]. unfold BPS_DENOMINATOR in *.
  apply N.Div0.div_le_upper_bound. nia.
Qed.

Section allocate.
Context (total : N) (last_index : nat) (label field_name : string).

(** The turns before the last. *)
Lemma allocate_firsts k a firsts a' :
  (k + length firsts ≤ last_index)%nat → (al_sum_bps a ≤ BPS_DENOMINATOR)%N →
  fold_result (allocate_step total last_index label field_name) a
    (imap (λ i share, (k + i, share)%nat) firsts) = Ok a' ↔
  Forall (λ share, 0 < share ≤ BPS_DENOMINATOR ∧ 0 < mul_bps total share)%N firsts ∧
  (al_sum_bps a + N_sum firsts ≤ BPS_DENOMINATOR)%N ∧
  a' = {| al_sum_bps := al_sum_bps a + N_sum firsts;
          al_allocated := al_allocated a + N_sum (map (mul_bps total) firsts);
          al_amounts := al_amounts a ++ map (mul_bps total) firsts |}.
Proof.
  revert k a. induction firsts as [|s firsts IH]; intros k a Hk Hsum.
  - simpl. rewrite !N.add_0_r, app_nil_r. destruct a as [sb al am]; simpl in *. split.
    + intros [= <-]. by split_and!.
    + by intros (_ & _ & ->).
  - rewrite imap_cons. cbn [fold_result]. rewrite bind_ok.
    assert (Hstep : ∀ a1, allocate_step total last_index label field_name a (k + 0, s)%nat = Ok a1 ↔
      (0 < s ≤ BPS_DENOMINATOR ∧ 0 < mul_bps total s)%N ∧ (al_sum_bps a + s ≤ BPS_DENOMINATOR)%N ∧
      a1 = {| al_sum_bps := al_sum_bps a + s; al_allocated := al_allocated a + mul_bps total s;
              al_amounts := al_amounts a ++ [mul_bps total s] |}).
    { intros a1. unfold allocate_step. simpl in Hk.
      rewrite (bool_decide_eq_true_2 (k + 0 < last_index)%nat) by lia.
      rewrite (bool_decide_eq_true_2 (0 < last_index)%nat) by lia.
      rewrite !seq_ok, !ensure_ok. unfold BPS_DENOMINATOR, u32_max in *. split.
      - intros (Hs%N.leb_le & Hz & Hsb%N.leb_le & Ha & [= <-]).
        apply negb_true_iff, N.eqb_neq in Hz. simpl in Ha. apply negb_true_iff, N.eqb_neq in Ha.
        rewrite N.min_l in * by lia. split_and!; [lia|lia|lia|lia|done].
      - intros ((Hs & Ha) & Hsb & ->). rewrite N.min_l by lia.
        rewrite !N.leb_le, !negb_true_iff, andb_true_l, !N.eqb_neq. split_and!; (done || lia). }
    setoid_rewrite Hstep. clear Hstep. rewrite Forall_cons. simpl in Hk.
    assert (Himap : imap ((λ i share, (k + i, share)%nat) ∘ S) firsts
                    = imap (λ i share, (S k + i, share)%nat) firsts).
    { apply imap_ext. intros i x _. simpl. f_equal. lia. }
    rewrite Himap. split.
    + intros (a1 & (Hs & Hle & ->) & Hr). apply (IH (S k)) in Hr as (Hf & Hle' & ->); [|lia|done].
      simpl in *. rewrite <- app_assoc, !N.add_assoc. unfold N_sum in *. simpl.
      split; [by split|]. by split.
    + intros ((Hs & Hf) & Hle & ->). unfold N_sum in *. simpl in *. eexists. split.
      { split; [exact Hs|]. split; [lia|reflexivity]. }
      apply (IH (S k)); [lia|simpl; lia|]. simpl. split; [done|]. split; [lia|].
      rewrite <- app_assoc, !N.add_assoc. done.
Qed.
End allocate.

Lemma allocate_spec total shares label field_name amounts :
  allocate_amounts_by_bps total shares label field_name = Ok amounts ↔
  allocation_of total shares amounts.
Proof.
  unfold allocate_amounts_by_bps. rewrite seq_ok, ensure_ok, negb_true_iff, bool_decide_eq_false.
  destruct shares as [|s firsts _] using rev_ind.
  { split; [by intros []|]. by intros ([|] & [=] & _). }
  replace (length (firsts ++ [s]) - 1)%nat with (length firsts) by (rewrite length_app; simpl; lia).
  rewrite imap_app, bind_ok.
  assert (imap pair firsts = imap (λ i share, (0 + i, share)%nat) firsts) as ->
    by (apply imap_ext; done).
  split.
  - intros (_ & a & Hloop & [= <-]). rewrite fold_result_app in Hloop.
    apply bind_ok in Hloop as (a1 & Hf & Hlast).
    apply allocate_firsts in Hf as (Hf & Hsum & ->); [|simpl; lia|done].
    simpl in Hlast. rewrite Nat.add_0_r, bool_decide_eq_false_2 in Hlast by lia.
    apply bind_ok in Hlast as (a2 & Hlast & [= <-]). invert_ok Hlast. injection Hlast as <-.
    rewrite ?N.add_0_l in *. repeat match goal with u : unit |- _ => destruct u end.
    repeat match goal with H : ensure _ _ = Ok _ |- _ => apply ensure_ok in H end.
    match goal with H : (s =? 0)%N = true |- _ => apply N.eqb_eq in H as -> end.
    match goal with H : negb _ = true |- _ => rename H into Hrem end.
    exists firsts. split; [done|]. split; [eapply Forall_impl; [exact Hf|]; simpl; tauto|].
    split; [done|]. split; [done|].
    intros Hne. apply Forall_app. split.
    { apply Forall_map. eapply Forall_impl; [exact Hf|]. simpl. tauto. }
    constructor; [|done].
    rewrite bool_decide_eq_true_2 in Hrem by (destruct firsts; [done|simpl; lia]).
    simpl in Hrem. apply negb_true_iff, N.eqb_neq in Hrem. lia.
  - intros (fs & [-> [= ->]]%app_inj_tail & Hf & Hsum & -> & Hpos).
    assert (negb (bool_decide (0 < length fs)%nat
              && (total - N_sum (map (mul_bps total) fs) =? 0)%N) = true) as Hrem.
    { destruct fs as [|x fs]; [done|]. apply negb_true_iff, andb_false_iff. right.
      specialize (Hpos ltac:(done)). apply Forall_app in Hpos as [_ Hpos].
      apply Forall_inv in Hpos. apply N.eqb_neq. lia. }
    split; [by destruct fs|].
    exists {| al_sum_bps := N_sum fs; al_allocated := N_sum (map (mul_bps total) fs);
              al_amounts := map (mul_bps total) fs
                              ++ [total - N_sum (map (mul_bps total) fs)]%N |}.
    split; [|done]. rewrite fold_result_app. apply bind_ok. eexists. split.
    + apply allocate_firsts; [simpl; lia|done|]. split; [|split; [exact Hsum|reflexivity]].
      apply Forall_forall. intros x Hx.
      assert (fs ≠ []) as Hne by (intros ->; by apply elem_of_nil in Hx).
      apply Hpos, Forall_app in Hne as [Hne _].
      rewrite Forall_forall in Hf, Hne. split; [by apply Hf|].
      apply Hne, list_elem_of_In, in_map, list_elem_of_In, Hx.
    + simpl. rewrite Nat.add_0_r, bool_decide_eq_false_2, ?N.add_0_l, Hrem by lia. done.
Qed.

(** Nothing is lost and nothing is made up. *)
Lemma allocation_sum total shares amounts :
  allocation_of total shares amounts → N_sum amounts = total.
Proof.
  intros (firsts & _ & _ & Hsum & -> & _). rewrite N_sum_app. simpl.
  pose proof (mul_bps_sum_le total firsts Hsum). lia.
Qed.

Lemma allocation_length total shares amounts :
  allocation_of total shares amounts → length amounts = length shares.
Proof. intros (firsts & -> & _ & _ & -> & _). by rewrite !length_app, length_map. Qed.

Lemma allocation_pos total shares amounts :
  (0 < total)%N → allocation_of total shares amounts → Forall (λ amount, 0 < amount)%N amounts.
Proof.
  intros Htotal (firsts & _ & _ & _ & -> & Hpos). destruct firsts as [|s firsts]; [|by apply Hpos].
  constructor; [simpl; lia|done].
Qed.

Definition allocated_from (swap : NormalizedSwapDraftInternal) (a : AllocatedSwap) : Prop :=
  as_pool a = ns_pool swap ∧ as_token_in a = ns_token_in swap ∧
  as_token_out a = ns_token_out swap ∧ as_split_bps a = ns_split_bps swap.

Lemma imap_pair_lookup {A} (l : list A) (i : nat) x :
  imap pair l !! i = Some x ↔ ∃ y, l !! i = Some y ∧ x = (i, y).
Proof.
  rewrite list_lookup_imap. destruct (l !! i) as [y|]; simpl; split.
  - intros [= <-]. by exists y.
  - by intros (? & [= <-] & ->).
  - done.
  - by intros (? & [=] & _).
Qed.

(** A loop over the elements with their indices that appends one element per turn. *)
Lemma append_imap_ok {E A B} (R : nat → A → B → Prop)
    (g : list B → nat * A → result E (list B)) l ys :
  (∀ acc i x ys, g acc (i, x) = Ok ys ↔ ∃ y, ys = acc ++ [y] ∧ R i x y) →
  fold_result g [] (imap pair l) = Ok ys ↔
  length ys = length l ∧ ∀ i x y, l !! i = Some x → ys !! i = Some y → R i x y.
Proof.
  intros Hg. rewrite (append_loop_ok (λ '(i, x), R i x)) by (by intros acc [i x]).
  split.
  - intros (zs & -> & Hzs). simpl. split; [by rewrite <- (Forall2_length _ _ _ Hzs), length_imap|].
    intros i x y Hx Hy. rewrite Forall2_lookup in Hzs. specialize (Hzs i). rewrite Hy in Hzs.
    assert (imap pair l !! i = Some (i, x)) as Hi by (apply imap_pair_lookup; by exists x).
    rewrite Hi in Hzs. by inversion Hzs.
  - intros [Hlen Hf]. exists ys. split; [done|]. apply Forall2_same_length_lookup_2.
    { by rewrite length_imap. }
    intros i [j x] y (x' & Hx & [= -> ->])%imap_pair_lookup Hy. by apply (Hf i).
Qed.

Lemma allocate_swaps_ok hop_amount_in swaps si hi allocations :
  allocate_swaps_by_bps hop_amount_in swaps si hi = Ok allocations →
  (0 < hop_amount_in)%N ∧ swaps ≠ [] ∧ Forall2 allocated_from swaps allocations ∧
  allocation_of hop_amount_in (map ns_split_bps swaps) (map as_amount_in allocations).
Proof.
  unfold allocate_swaps_by_bps. rewrite !seq_ok, !ensure_ok.
  intros (Hne%negb_true_iff%bool_decide_eq_false & Hpos%negb_true_iff%N.eqb_neq & Hrest).
  apply bind_ok in Hrest as (amounts & Hal%allocate_spec & Hloop).
  apply (append_imap_ok (λ index swap a,
    allocated_from swap a ∧ amounts !! index = Some (as_amount_in a))) in Hloop as [Hlen Hat]; cycle 1.
  { intros acc i x ys. destruct (amounts !! i) as [amount|]; simpl; split.
    - intros [= <-]. by eexists.
    - intros ([] & -> & (? & ? & ? & ?) & [= ->]). simpl in *. by subst.
    - done.
    - by intros (? & _ & _ & [=]). }
  pose proof (allocation_length _ _ _ Hal) as Hlen'. rewrite length_map in Hlen'.
  split; [lia|]. split; [by intros ->|]. split.
  - apply Forall2_same_length_lookup_2; [done|]. intros i s a Hs Ha. by apply (Hat i).
  - enough (map as_amount_in allocations = amounts) as -> by done.
    apply list_eq_same_length with (length amounts); [done|by rewrite length_map; congruence|].
    intros i x y _ Hx Hy. rewrite list_lookup_fmap in Hx.
    destruct (allocations !! i) as [a|] eqn:Ha; [|done]. injection Hx as <-.
    destruct (lookup_lt_is_Some_2 swaps i) as [s Hs].
    { rewrite <- Hlen. by eapply lookup_lt_Some. }
    destruct (Hat i s a Hs Ha) as [_ Hat']. congruence.
Qed.

(** ** Normalisation *)

(** Hops that lead from one token to another. *)
Fixpoint hop_chain (from to : Bytes) (hops : list NormalizedHopInternal) : Prop :=
  match hops with
  | [] => from = to
  | hop :: hops => nh_token_in hop = from ∧ hop_chain (nh_token_out hop) to hops
  end.

Section normalized.
Context `{RouteApi} (settings : RouteSettings) (native_address : Bytes).

Definition protocol_allowlisted (protocol : string) : Prop :=
  is_native_protocol_allowlisted protocol (set_native_token_protocol_allowlist settings) = true.

(** What a normalised swap, hop and segment are made of. *)
Record swap_of (hop : NormalizedHopInternal) (draft : PoolSwapDraft)
    (swap : NormalizedSwapDraftInternal) : Prop := {
  so_in : parse_address (psd_token_in draft) = Ok (nh_token_in hop);
  so_out : parse_address (psd_token_out draft) = Ok (nh_token_out hop);
  so_direction :
    request_direction_supported (pr_protocol (psd_pool draft)) (nh_token_in hop)
      (nh_token_out hop) (set_erc4626_deposits_enabled settings)
      (set_erc4626_pair_policies settings) = true;
  so_split : (psd_split_bps draft ≤ BPS_DENOMINATOR)%N;
  so_swap : swap = {| ns_pool := psd_pool draft; ns_token_in := nh_token_in hop;
                      ns_token_out := nh_token_out hop; ns_split_bps := psd_split_bps draft |};
}.

Record hop_of (draft : HopDraft) (hop : NormalizedHopInternal) : Prop := {
  ho_in : parse_address (hd_token_in draft) = Ok (nh_token_in hop);
  ho_out : parse_address (hd_token_out draft) = Ok (nh_token_out hop);
  ho_nonempty : hd_swaps draft ≠ [];
  ho_native : nh_token_in hop = native_address ∨ nh_token_out hop = native_address →
    Forall (λ swap, protocol_allowlisted (pr_protocol (psd_pool swap))) (hd_swaps draft);
  ho_swaps : Forall2 (swap_of hop) (hd_swaps draft) (nh_swaps hop);
}.

Record segment_of (token_in token_out : Bytes) (draft : SegmentDraft)
    (segment : NormalizedSegmentInternal) : Prop := {
  sg_share : nseg_share_bps segment = sd_share_bps draft;
  sg_nonempty : nseg_hops segment ≠ [];
  sg_chain : hop_chain token_in token_out (nseg_hops segment);
  sg_hops : Forall2 hop_of (sd_hops draft) (nseg_hops segment);
}.

Lemma validate_erc4626_ok swap token_in token_out :
  validate_erc4626_swap_supported settings swap token_in token_out = Ok tt ↔
  request_direction_supported (pr_protocol (psd_pool swap)) token_in token_out
    (set_erc4626_deposits_enabled settings) (set_erc4626_pair_policies settings) = true.
Proof.
  unfold validate_erc4626_swap_supported, request_direction_supported.
  destruct (is_erc4626_protocol _); simpl; [|done]. by destruct (existsb _ _).
Qed.

Lemma normalize_swap_ok draft hop swap :
  normalize_swap settings draft (nh_token_in hop) (nh_token_out hop) = Ok swap ↔
  swap_of hop draft swap.
Proof.
  unfold normalize_swap. split.
  - intros (tin & Hin & (tout & Hout & Hrest)%bind_ok)%bind_ok.
    rewrite !seq_ok, !ensure_ok, validate_erc4626_ok, !bool_decide_eq_true, N.leb_le in Hrest.
    destruct Hrest as (-> & -> & Hdir & Hsplit & [= <-]). by constructor.
  - intros [Hin Hout Hdir Hsplit ->]. rewrite Hin, Hout, !ok_bind, !seq_ok, !ensure_ok.
    rewrite validate_erc4626_ok, !bool_decide_eq_true, N.leb_le. by split_and!.
Qed.

Lemma normalize_hop_ok draft hop :
  normalize_hop settings draft native_address = Ok hop ↔ hop_of draft hop.
Proof.
  unfold normalize_hop. rewrite seq_ok, ensure_ok, negb_true_iff, bool_decide_eq_false.
  assert (Hnative : ∀ tin tout,
    (if bool_decide (tin = native_address) || bool_decide (tout = native_address) then
       for_each (λ swap, ensure (is_native_protocol_allowlisted (pr_protocol (psd_pool swap))
                                   (set_native_token_protocol_allowlist settings))
         (native_only_for settings (pr_protocol (psd_pool swap)))) (hd_swaps draft)
     else Ok tt) = Ok tt ↔
    (tin = native_address ∨ tout = native_address →
     Forall (λ swap, protocol_allowlisted (pr_protocol (psd_pool swap))) (hd_swaps draft))).
  { intros tin tout. unfold protocol_allowlisted. rewrite <- bool_decide_or.
    case_bool_decide as Hor; [|by split]. rewrite for_each_ok. setoid_rewrite ensure_ok.
    by split; [intros ? _|intros Himp; apply Himp]. }
  split.
  - intros (Hne & (tin & Hin & (tout & Hout & Hrest)%bind_ok)%bind_ok).
    rewrite seq_ok, Hnative in Hrest. destruct Hrest as [Hnat (swaps & Hswaps & [= <-])%bind_ok].
    apply try_map_ok in Hswaps. constructor; simpl; try done; [by intros Hnil; rewrite Hnil in Hne|].
    eapply Forall2_impl; [exact Hswaps|]. intros d s. apply (normalize_swap_ok d {|
      nh_token_in := tin; nh_token_out := tout; nh_swaps := swaps |}).
  - intros [Hin Hout Hne Hnat Hswaps]. split; [by intros Hz%length_zero_iff_nil|].
    rewrite Hin, Hout, !ok_bind, seq_ok, Hnative. split; [done|].
    apply bind_ok. exists (nh_swaps hop). split; [|by destruct hop].
    apply try_map_ok. eapply Forall2_impl; [exact Hswaps|]. intros d s. apply normalize_swap_ok.
Qed.
End normalized.

Section chains.
Context `{RouteApi} (settings : RouteSettings) (native_address : Bytes).

Abbreviation hops_of := (Forall2 (hop_of settings native_address)).

(** The windows of a segment's drafts say that its hops form a chain. *)
Lemma windows_chain draft drafts hop hops to :
  hops_of (draft :: drafts) (hop :: hops) →
  validate_windows (draft :: drafts) = Ok tt
    ∧ (∃ d, last (draft :: drafts) = Some d ∧ parse_address (hd_token_out d) = Ok to) ↔
  hop_chain (nh_token_out hop) to hops.
Proof.
  revert draft hop hops. induction drafts as [|draft' drafts IH]; intros draft hop hops
    [Hhop Hhops]%Forall2_cons.
  - apply Forall2_nil_inv_l in Hhops as ->. simpl. split.
    + intros (_ & d & [= <-] & Hto). rewrite (ho_out _ _ _ _ Hhop) in Hto. by injection Hto.
    + intros <-. split; [done|]. exists draft. split; [done|apply (ho_out _ _ _ _ Hhop)].
  - pose proof Hhops as (hop' & hops' & Hhop' & _ & ->)%Forall2_cons_inv_l.
    specialize (IH draft' hop' hops' Hhops). rewrite last_cons_cons. cbn [validate_windows hop_chain].
    rewrite (ho_out _ _ _ _ Hhop), (ho_in _ _ _ _ Hhop'), !ok_bind, seq_ok, ensure_ok,
      bool_decide_eq_true.
    fold (validate_windows (draft' :: drafts)). naive_solver.
Qed.

Lemma validate_hop_continuity_ok segment hops from to :
  hops_of (sd_hops segment) hops →
  validate_hop_continuity segment from to = Ok tt ↔ hops ≠ [] ∧ hop_chain from to hops.
Proof.
  intros Hhops. unfold validate_hop_continuity.
  destruct (sd_hops segment) as [|draft drafts].
  { apply Forall2_nil_inv_l in Hhops as ->. simpl. split; [done|by intros []]. }
  pose proof Hhops as (hop & hops' & Hhop & _ & ->)%Forall2_cons_inv_l.
  cbn [hop_chain].
  assert (∃ d, last (draft :: drafts) = Some d) as [d Hd].
  { destruct (last (draft :: drafts)) as [d|] eqn:E; [by exists d|].
    by apply last_None in E. }
  rewrite Hd. change (head (draft :: drafts)) with (Some draft). unfold ok_or.
  rewrite (ok_bind _ draft), (ok_bind _ d), (ho_in _ _ _ _ Hhop), ok_bind, seq_ok,
    ensure_ok, bool_decide_eq_true.
  rewrite <- (windows_chain draft drafts hop hops' to Hhops), Hd. split.
  - intros (-> & (out & Hout & [Ho%ensure_ok%bool_decide_eq_true Hw]%seq_ok)%bind_ok). subst out.
    split; [done|]. split; [done|]. split; [done|]. by exists d.
  - intros (_ & -> & Hw & d' & [= <-] & Hout). split; [done|]. rewrite Hout, ok_bind.
    rewrite bool_decide_eq_true_2 by done. done.
Qed.

Lemma normalize_segment_ok from to amounts acc i draft segments :
  normalize_segment settings from to native_address amounts acc (i, draft) = Ok segments ↔
  ∃ segment, segments = acc ++ [segment] ∧
    amounts !! i = Some (nseg_amount_in segment) ∧ (0 < nseg_amount_in segment)%N ∧
    segment_of settings native_address from to draft segment.
Proof.
  unfold normalize_segment, validate_segment_shape. rewrite !seq_ok, ensure_ok, bind_ok.
  setoid_rewrite try_map_ok.
  assert (Hhop : ∀ drafts hops, Forall2 (λ x y, normalize_hop settings x native_address = Ok y)
    drafts hops ↔ hops_of drafts hops).
  { intros drafts hops. split; intros Hall; (eapply Forall2_impl; [exact Hall|]);
      intros d h; apply normalize_hop_ok. }
  setoid_rewrite Hhop. split.
  - intros (_ & Hcont & hops & Hhops & (amount & Ham%ok_or_ok & Hrest)%bind_ok).
    apply seq_ok in Hrest as [Hpos%ensure_ok%negb_true_iff%N.eqb_neq [= <-]].
    destruct (proj1 (validate_hop_continuity_ok _ _ _ _ Hhops) Hcont) as [Hne Hchain].
    eexists. split; [reflexivity|]. simpl. split; [done|]. split; [lia|]. by constructor.
  - intros (segment & -> & Ham & Hpos & [Hshare Hne Hchain Hhops]).
    split.
    { apply negb_true_iff, bool_decide_eq_false. intros Hz.
      apply length_zero_iff_nil in Hz. rewrite Hz in Hhops. by apply Forall2_nil_inv_l in Hhops. }
    split; [by apply (validate_hop_continuity_ok _ _ _ _ Hhops)|].
    exists (nseg_hops segment). split; [done|]. rewrite Ham. cbn [ok_or]. rewrite ok_bind, seq_ok.
    split; [by apply ensure_ok, negb_true_iff, N.eqb_neq; lia|].
    do 3 f_equal. rewrite <- Hshare. by destruct segment.
Qed.

(** Normalisation accepts exactly the routes that are chains of hops, with these amounts. *)
Lemma normalize_route_ok request from to total route :
  normalize_route settings request from to total native_address = Ok route ↔
  (0 < total)%N ∧
  allocation_of total (map sd_share_bps (re_segments request))
    (map nseg_amount_in (nr_segments route)) ∧
  Forall2 (segment_of settings native_address from to) (re_segments request) (nr_segments route).
Proof.
  unfold normalize_route. rewrite !seq_ok, !ensure_ok, !negb_true_iff, N.eqb_neq.
  assert (Hloop : ∀ amounts segments, (0 < total)%N →
    allocation_of total (map sd_share_bps (re_segments request)) amounts →
    fold_result (normalize_segment settings from to native_address amounts) []
      (imap pair (re_segments request)) = Ok segments ↔
    amounts = map nseg_amount_in segments ∧
    Forall2 (segment_of settings native_address from to) (re_segments request) segments).
  { intros amounts segments Htotal Hal.
    pose proof (allocation_length _ _ _ Hal) as Hlen. rewrite length_map in Hlen.
    pose proof (allocation_pos _ _ _ Htotal Hal) as Hpos.
    rewrite (append_imap_ok (λ i draft segment, amounts !! i = Some (nseg_amount_in segment) ∧
      (0 < nseg_amount_in segment)%N ∧ segment_of settings native_address from to draft segment))
      by (intros; apply normalize_segment_ok).
    split.
    - intros [Hl Hall]. split.
      + apply list_eq_same_length with (length amounts); [by rewrite length_map; congruence|done|].
        intros i x y Hi Hx Hy. rewrite list_lookup_fmap in Hy.
        destruct (segments !! i) as [segment|] eqn:Hs; [|done]. injection Hy as <-.
        destruct (lookup_lt_is_Some_2 (re_segments request) i) as [draft Hd]; [lia|].
        destruct (Hall i draft segment Hd Hs) as [Ha _]. congruence.
      + apply Forall2_same_length_lookup_2; [done|]. intros i d s Hd Hs. by apply (Hall i).
    - intros [-> Hall]. split; [by rewrite (Forall2_length _ _ _ Hall)|].
      intros i d s Hd Hs. rewrite list_lookup_fmap, Hs. split; [done|]. split.
      + rewrite Forall_lookup in Hpos. apply (Hpos i). by rewrite list_lookup_fmap, Hs.
      + rewrite Forall2_lookup in Hall. specialize (Hall i). rewrite Hd, Hs in Hall.
        by inversion Hall. }
  split.
  - intros (_ & Hne & (amounts & Hal%allocate_spec & (segments & Hsegs & [= <-])%bind_ok)%bind_ok).
    assert (0 < total)%N by lia.
    simpl. by apply Hloop in Hsegs as [-> ?].
  - intros (Hpos & Hal & Hall). split_and!; [|lia|].
    + apply bool_decide_eq_false. destruct Hal as (firsts & Hf & _). intros Hz.
      apply (f_equal length) in Hf. rewrite length_map, length_app, Hz in Hf. simpl in Hf. lia.
    + apply bind_ok. eexists. split; [by apply allocate_spec|].
      apply bind_ok. exists (nr_segments route).
      split; [by apply Hloop|by destruct route].
Qed.
End chains.
