(* ===== verification/RouteResimulate.v ===== *)
(** * Simulating a route again before encoding it

    [runtime/src/services/encode/resimulate.rs], with the executor's errors
    ([services/simulation_executor.rs]), the cache lookup of [TokenStore::ensure] and the
    rebuild guard of [models/state.rs].  The hops of all segments are simulated depth by
    depth, each from the amounts the hop before it produced; a pool used twice is simulated
    from the state its previous swap left.

    The task waits at many points, and the rest of the server goes on: the state of the
    server at the n-th wait is the n-th [RouteWorld] of an arbitrary sequence. *)

From S2P Require Import Prelude Ordered Text Protocol Store Health Readiness.
From S2P Require Import RouteTypes RouteNormalize SharedAccounts.
From Stdlib Require Import SpecFloat.

Abbreviation f64 := spec_float.

(** ** Simulations and clients of market makers *)

(** [ProtocolSim::get_amount_out], and the credentialed clients a request gives the states
    of RFQ pools: [with_bebop_client] is the state with another client, where the state is
    Bebop's. *)
Class RouteSim `{RouteApi} := {
  get_amount_out : ProtocolSim → N → Token → Token → result string (N * ProtocolSim);
  BebopClient : Type;
  HashflowClient : Type;
  LiquoriceClient : Type;
  BebopClient_new : Chain → gset Bytes → f64 → string → string → gset Bytes → Duration →
    result string BebopClient;
  HashflowClient_new : Chain → gset Bytes → f64 → gset Bytes → string → string → Duration →
    Duration → result string HashflowClient;
  LiquoriceClient_new : Chain → gset Bytes → f64 → gset Bytes → string → string → Duration →
    Duration → u64 → result string LiquoriceClient;
  with_bebop_client : ProtocolSim → option (BebopClient → ProtocolSim);
  with_hashflow_client : ProtocolSim → option (HashflowClient → ProtocolSim);
  with_liquorice_client : ProtocolSim → option (LiquoriceClient → ProtocolSim);
}.

Record RfqClientConfig := {
  rc_tvl_threshold : f64;
  rc_bebop_user : string;
  rc_bebop_key : string;
  rc_hashflow_user : string;
  rc_hashflow_key : string;
  rc_liquorice_user : string;
  rc_liquorice_key : string;
}.

Definition RFQ_POLL_TIME : Duration := from_secs 5.
Definition ENCODE_RFQ_QUOTE_TIMEOUT : Duration := from_secs 3.
Definition LIQUORICE_QUOTE_EXPIRY_SECS : u64 := 300.
Definition ENCODE_QUOTE_TIMEOUT_HEADROOM : Duration := from_millis 200.

Inductive SimulationExecutionError := WorkerPanicked | ResultDropped.

Record SimulationRebuildGuard := { vm_read_guard : bool; rfq_read_guard : bool }.

Definition blocks_required_rebuilds (guard : SimulationRebuildGuard) (uses_vm uses_rfq : bool) :
    bool :=
  (negb uses_vm || vm_read_guard guard) && (negb uses_rfq || rfq_read_guard guard).

(** Once both read locks are granted. *)
Definition acquire_simulation_rebuild_guard (uses_vm uses_rfq : bool) : SimulationRebuildGuard :=
  {| vm_read_guard := uses_vm; rfq_read_guard := uses_rfq |}.

(** What the fields of [AppState] that never change say about routes. *)
Record RouteServer `{RouteApi} := {
  rv_chain : Chain;
  rv_settings : RouteSettings;
  rv_rfq_client_config : RfqClientConfig;
  rv_request_timeout : Duration;
  rv_reset_allowance_tokens : gmap u64 (gset Bytes);
}.

(** The server at one instant: its state, its token cache, the answer to a token lookup
    that misses the cache, and the failure of the executor, if it fails. *)
Record RouteWorld `{RouteApi} := {
  rw_now : Instant;
  rw_app : AppState;
  rw_tokens : TokenStore;
  rw_fetch_token : Bytes → result string (option Token);
  rw_worker_failure : option SimulationExecutionError;
}.

(** [TokenStore::ensure]. *)
Definition ensure_token `{RouteApi} (w : RouteWorld) (address : Bytes) :
    result string (option Token) :=
  match TokenStore_get (rw_tokens w) address with
  | Some token => Ok (Some token)
  | None => rw_fetch_token w address
  end.

Section resimulate.
Context `{RouteSim} (server : RouteServer) (world : nat → RouteWorld).
Context (native_pin : option PublishedStateStore) (normalized : NormalizedRouteInternal).

Abbreviation chain := (rv_chain server).

Record CachedPoolEntry := {
  ce_pool_state : ProtocolSim;
  ce_component : ProtocolComponent;
  ce_backend : PoolBackend;
}.

Record SegmentSimState := {
  sim_next_amount_in : N;
  sim_hops : list (option ResimulatedHopInternal);
}.

(** [RouteResimulator], with the number of waits so far. *)
Record RouteResimulator := {
  rx_segment_states : list SegmentSimState;
  rx_token_cache : gmap Bytes Token;
  rx_pool_cache : gmap string CachedPoolEntry;
  rx_rebuild_guard : SimulationRebuildGuard;
  rx_waits : nat;
}.

Definition rx_set_segments (states : list SegmentSimState) (r : RouteResimulator) :
    RouteResimulator :=
  {| rx_segment_states := states; rx_token_cache := rx_token_cache r;
     rx_pool_cache := rx_pool_cache r; rx_rebuild_guard := rx_rebuild_guard r;
     rx_waits := rx_waits r |}.
Definition rx_cache_token (address : Bytes) (token : Token) (r : RouteResimulator) :
    RouteResimulator :=
  {| rx_segment_states := rx_segment_states r;
     rx_token_cache := <[address := token]> (rx_token_cache r);
     rx_pool_cache := rx_pool_cache r; rx_rebuild_guard := rx_rebuild_guard r;
     rx_waits := rx_waits r |}.
Definition rx_cache_pool (pool_id : string) (entry : CachedPoolEntry) (r : RouteResimulator) :
    RouteResimulator :=
  {| rx_segment_states := rx_segment_states r; rx_token_cache := rx_token_cache r;
     rx_pool_cache := <[pool_id := entry]> (rx_pool_cache r);
     rx_rebuild_guard := rx_rebuild_guard r; rx_waits := rx_waits r |}.
Definition rx_set_guard (guard : SimulationRebuildGuard) (r : RouteResimulator) :
    RouteResimulator :=
  {| rx_segment_states := rx_segment_states r; rx_token_cache := rx_token_cache r;
     rx_pool_cache := rx_pool_cache r; rx_rebuild_guard := guard; rx_waits := rx_waits r |}.

Abbreviation simM := (stateR RouteResimulator EncodeError).

(** The server when a wait ends. *)
Definition await : simM RouteWorld := λ r,
  (Ok (world (rx_waits r)),
   {| rx_segment_states := rx_segment_states r; rx_token_cache := rx_token_cache r;
      rx_pool_cache := rx_pool_cache r; rx_rebuild_guard := rx_rebuild_guard r;
      rx_waits := S (rx_waits r) |}).

(** ** Errors *)

(** An availability that is not [EncodeReady] has a message. *)
Definition availability_error (availability : EncodeAvailability) : EncodeError :=
  unavailable (default "" (availability_message availability)).

Definition execution_error (pool_id : string) (err : SimulationExecutionError) : EncodeError :=
  match err with
  | WorkerPanicked => internal ("Pool " +:+ pool_id +:+ " simulation worker panicked")
  | ResultDropped => internal ("Pool " +:+ pool_id +:+ " simulation result was dropped")
  end.

Definition rfq_hydration_error (pool_id provider error : string) : EncodeError :=
  internal ("Failed to hydrate " +:+ provider +:+ " client for RFQ pool " +:+ pool_id +:+ ": "
              +:+ error).

(** ** Pools and tokens *)

Definition encode_rfq_quote_timeout (request_timeout : Duration) : Duration :=
  N.min ENCODE_RFQ_QUOTE_TIMEOUT (request_timeout - ENCODE_QUOTE_TIMEOUT_HEADROOM).

Definition hydrate_rfq_pool_state (pool_id : string) (pool_state : ProtocolSim)
    (quote_timeout : Duration) : encodeR ProtocolSim :=
  let config := rv_rfq_client_config server in
  match with_bebop_client pool_state with
  | Some hydrated =>
      client ← map_err (rfq_hydration_error pool_id "Bebop")
                 (BebopClient_new chain ∅ (rc_tvl_threshold config) (rc_bebop_user config)
                    (rc_bebop_key config) ∅ quote_timeout);
      Ok (hydrated client)
  | None =>
  match with_hashflow_client pool_state with
  | Some hydrated =>
      client ← map_err (rfq_hydration_error pool_id "Hashflow")
                 (HashflowClient_new chain ∅ (rc_tvl_threshold config) ∅
                    (rc_hashflow_user config) (rc_hashflow_key config) RFQ_POLL_TIME
                    quote_timeout);
      Ok (hydrated client)
  | None =>
  match with_liquorice_client pool_state with
  | Some hydrated =>
      client ← map_err (rfq_hydration_error pool_id "Liquorice")
                 (LiquoriceClient_new chain ∅ (rc_tvl_threshold config) ∅
                    (rc_liquorice_user config) (rc_liquorice_key config) RFQ_POLL_TIME
                    quote_timeout LIQUORICE_QUOTE_EXPIRY_SECS);
      Ok (hydrated client)
  | None => Err (internal ("RFQ pool " +:+ pool_id +:+ " has unsupported state type"))
  end end end.

(** Read locks for the backends of a pool that the route's hints have missed. *)
Definition extend_rebuild_guard (requirements : option (bool * bool)) : simM unit :=
  match requirements with
  | Some (uses_vm, uses_rfq) =>
      guard ← gets rx_rebuild_guard;
      if (uses_vm || uses_rfq) && negb (blocks_required_rebuilds guard uses_vm uses_rfq)
      then await ;; modify (rx_set_guard (acquire_simulation_rebuild_guard uses_vm uses_rfq))
      else mret tt
  | None => mret tt
  end.

Definition cache_new_pool (pool_id : string) (pool_state : ProtocolSim)
    (component : ProtocolComponent) : simM CachedPoolEntry :=
  let entry := {| ce_pool_state := pool_state; ce_component := component;
                  ce_backend := PoolBackend_from_component component |} in
  modify (rx_cache_pool pool_id entry) ;;
  mret entry.

(** The backend whose store has the pool: a wait for each store that is asked. *)
Definition in_backend {A} (pool_id : string) (native vm rfq : simM (option A)) : simM (option A) :=
  w ← await;
  if has_pool (ss_published (app_native_state_store (rw_app w))) pool_id then native
  else
    w ← await;
    if has_pool (ss_published (app_vm_state_store (rw_app w))) pool_id then vm
    else
      w ← await;
      if has_pool (ss_published (app_rfq_state_store (rw_app w))) pool_id then rfq else mret None.

(** A wait for the readiness of a backend. *)
Definition await_ready (uses_native uses_vm uses_rfq : bool) : simM unit :=
  w ← await;
  match encode_availability (rw_now w) (rw_app w) uses_native uses_vm uses_rfq with
  | EncodeReady => mret tt
  | availability => throw (availability_error availability)
  end.

(** [AppState::pool_rebuild_guard_requirements], wait by wait. *)
Definition await_rebuild_guard_requirements (pool_id : string) : simM (option (bool * bool)) :=
  in_backend pool_id
    (await_ready true false false ;; mret (Some (false, false)))
    (await_ready false true false ;; mret (Some (true, false)))
    (await_ready false false true ;; mret (Some (false, true))).

(** [AppState::pool_by_id], wait by wait. *)
Definition await_pool_by_id (pool_id : string) : simM (option PoolEntry) :=
  let lookup (store : AppState → StateStore) : simM (option PoolEntry) :=
    w ← await; mret (pool_by_id_from_published (pin (store (rw_app w))) pool_id) in
  in_backend pool_id
    (await_ready true false false ;; lookup app_native_state_store)
    (await_ready false true false ;; lookup app_vm_state_store)
    (await_ready false false true ;; lookup app_rfq_state_store).

Definition load_pool_entry (pool_id : string) : simM CachedPoolEntry :=
  cached ← gets (λ r, rx_pool_cache r !! pool_id);
  match cached with
  | Some entry => mret entry
  | None =>
      match native_pin ≫= λ pin, pool_by_id_from_published pin pool_id with
      | Some (pool_state, component) => cache_new_pool pool_id pool_state component
      | None =>
          requirements ← await_rebuild_guard_requirements pool_id;
          extend_rebuild_guard requirements ;;
          found ← await_pool_by_id pool_id;
          pool ← lift (ok_or found (not_found ("Pool " +:+ pool_id +:+ " not found")));
          let '(pool_state, component) := pool in
          pool_state ← lift (if is_rfq (PoolBackend_from_component component)
                             then hydrate_rfq_pool_state pool_id pool_state
                                    (encode_rfq_quote_timeout (rv_request_timeout server))
                             else Ok pool_state);
          cache_new_pool pool_id pool_state component
      end
  end.

(** [TokenCache::get]. *)
Definition token_cache_get (address : Bytes) (native_pin : option PublishedStateStore) :
    simM Token :=
  cached ← gets (λ r, rx_token_cache r !! address);
  match cached with
  | Some token => mret token
  | None =>
      match native_pin with
      | Some native_pin =>
          token ← lift (ok_or (ps_tokens native_pin !! address) (invalid "Token not found"));
          modify (rx_cache_token address token) ;;
          mret token
      | None =>
          w ← await;
          found ← lift (map_err (λ err, simulation ("Token lookup failed: " +:+ err))
                          (ensure_token w address));
          token ← lift (ok_or found (invalid "Token not found"));
          modify (rx_cache_token address token) ;;
          mret token
      end
  end.

Definition native_address : Bytes := token_address (chain_native_token chain).

Definition ensure_erc4626_swap_supported (component : ProtocolComponent)
    (token_in token_out : Bytes) : encodeR unit :=
  let deposits_enabled := set_erc4626_deposits_enabled (rv_settings server) in
  let policies := set_erc4626_pair_policies (rv_settings server) in
  if negb (component_is_erc4626 component) then Ok tt
  else if component_direction_supported component token_in token_out deposits_enabled policies
  then Ok tt
  else Err (invalid (unsupported_direction_message token_in token_out deposits_enabled policies)).

Definition ensure_native_swap_supported (token_in token_out : Bytes)
    (component : ProtocolComponent) (component_id : string) : encodeR bool :=
  let allowlist := set_native_token_protocol_allowlist (rv_settings server) in
  let swap_uses_native :=
    bool_decide (token_in = native_address) || bool_decide (token_out = native_address) in
  let protocol_supports_native :=
    is_native_protocol_allowlisted (protocol_system component) allowlist in
  ensure (negb (swap_uses_native && negb protocol_supports_native))
    (invalid ("native tokenIn/tokenOut is only supported for protocols ["
                +:+ format_native_protocol_allowlist allowlist +:+ "]; pool " +:+ component_id
                +:+ " uses " +:+ protocol_system component)) ;;
  Ok protocol_supports_native.

Definition map_swap_token (address : Bytes) (keep_native_unwrapped : bool) : Bytes :=
  if negb keep_native_unwrapped && bool_decide (address = native_address)
  then token_address (chain_wrapped_native_token chain) else address.

(** ** One swap *)

Record SwapSimulationRequest := {
  sr_pool_state : ProtocolSim;
  sr_amount_in_for_sim : N;
  sr_token_in : Token;
  sr_token_out : Token;
  sr_pool_id : string;
  sr_rebuild_guard : option SimulationRebuildGuard;
}.

Definition simulate_swap (request : SwapSimulationRequest) :
    simM (ProtocolSim * (N * ProtocolSim)) :=
  w ← await;
  match rw_worker_failure w with
  | Some err => throw (execution_error (sr_pool_id request) err)
  | None =>
      let pre_state := sr_pool_state request in
      result ← lift (map_err (λ err, simulation ("Pool " +:+ sr_pool_id request
                                                   +:+ " simulation failed: " +:+ err))
                       (get_amount_out pre_state (sr_amount_in_for_sim request)
                          (sr_token_in request) (sr_token_out request)));
      mret (pre_state, result)
  end.

Definition require_non_zero_amount_out (pool_id : string) (expected_out : N) : encodeR N :=
  ensure (negb (expected_out =? 0)%N)
    (simulation ("Pool " +:+ pool_id +:+ " returned zero amountOut")) ;;
  Ok expected_out.

Definition swap_request (allocated : AllocatedSwap) (pool_entry : CachedPoolEntry)
    (token_in token_out : Token) (guard : SimulationRebuildGuard) : SwapSimulationRequest :=
  {| sr_pool_state := ce_pool_state pool_entry;
     sr_amount_in_for_sim := as_amount_in allocated;
     sr_token_in := token_in;
     sr_token_out := token_out;
     sr_pool_id := pr_component_id (as_pool allocated);
     sr_rebuild_guard :=
       if uses_rebuild_guard (ce_backend pool_entry) then Some guard else None |}.

Definition simulate_allocated_swap (allocated : AllocatedSwap) : simM ResimulatedSwapInternal :=
  let pool_id := pr_component_id (as_pool allocated) in
  pool_entry ← load_pool_entry pool_id;
  lift (ensure_erc4626_swap_supported (ce_component pool_entry) (as_token_in allocated)
          (as_token_out allocated)) ;;
  keep_native_unwrapped ← lift (ensure_native_swap_supported (as_token_in allocated)
                                  (as_token_out allocated) (ce_component pool_entry) pool_id);
  let sim_token_in := map_swap_token (as_token_in allocated) keep_native_unwrapped in
  let sim_token_out := map_swap_token (as_token_out allocated) keep_native_unwrapped in
  let pin := if is_native (ce_backend pool_entry) then native_pin else None in
  token_in ← token_cache_get sim_token_in pin;
  token_out ← token_cache_get sim_token_out pin;
  guard ← gets rx_rebuild_guard;
  simulated ← simulate_swap (swap_request allocated pool_entry token_in token_out guard);
  let '(pre_state, (amount, new_state)) := simulated in
  expected_out ← lift (require_non_zero_amount_out pool_id amount);
  modify (rx_cache_pool pool_id
            {| ce_pool_state := new_state; ce_component := ce_component pool_entry;
               ce_backend := ce_backend pool_entry |}) ;;
  mret {| rs_pool := as_pool allocated;
          rs_backend := ce_backend pool_entry;
          rs_token_in := as_token_in allocated;
          rs_token_out := as_token_out allocated;
          rs_split_bps := as_split_bps allocated;
          rs_amount_in := as_amount_in allocated;
          rs_expected_amount_out := expected_out;
          rs_pool_state := pre_state;
          rs_component := ce_component pool_entry |}.

(** ** One hop of one segment *)

(** The loop of [simulate_allocated_swaps], with its two variables. *)
Fixpoint simulate_swaps_from (swap_results : list ResimulatedSwapInternal) (hop_expected : N)
    (allocated_swaps : list AllocatedSwap) : simM (list ResimulatedSwapInternal * N) :=
  match allocated_swaps with
  | [] => mret (swap_results, hop_expected)
  | allocated :: allocated_swaps =>
      swap ← simulate_allocated_swap allocated;
      simulate_swaps_from (swap_results ++ [swap])
        (hop_expected + rs_expected_amount_out swap) allocated_swaps
  end.

Definition simulate_allocated_swaps (allocated_swaps : list AllocatedSwap) (hop_amount_in : N) :
    simM (list ResimulatedSwapInternal * N) :=
  simulated ← simulate_swaps_from [] 0%N allocated_swaps;
  let '(swap_results, hop_expected) := simulated in
  if (hop_expected =? 0)%N
  then throw (simulation ("hop amountIn " +:+ BigUint_to_string hop_amount_in
                            +:+ " produced zero amountOut"))
  else mret (swap_results, hop_expected).

Definition require_hop_amount_in (segment_state : SegmentSimState)
    (segment_index hop_index : nat) : encodeR N :=
  let hop_amount_in := sim_next_amount_in segment_state in
  ensure (negb (hop_amount_in =? 0)%N)
    (invalid (segment_label segment_index +:+ ".hop[" +:+ u64_to_string (N.of_nat hop_index)
                +:+ "] amountIn is zero")) ;;
  Ok hop_amount_in.

Definition segment_state_missing : EncodeError :=
  internal "Segment state missing after resimulation".

(** [hops[hop_index]] exists: every state has as many hops as its segment
    ([progress_length]). *)
Definition resimulate_segment_hop (segment_index hop_index : nat) : simM unit :=
  match nr_segments normalized !! segment_index ≫= λ segment, nseg_hops segment !! hop_index with
  | None => mret tt
  | Some hop =>
      segment_state ← gets (λ r, rx_segment_states r !! segment_index);
      segment_state ← lift (ok_or segment_state segment_state_missing);
      hop_amount_in ← lift (require_hop_amount_in segment_state segment_index hop_index);
      allocated_swaps ← lift (allocate_swaps_by_bps hop_amount_in (nh_swaps hop)
                                segment_index hop_index);
      simulated ← simulate_allocated_swaps allocated_swaps hop_amount_in;
      let '(swap_results, hop_expected) := simulated in
      segment_state ← gets (λ r, rx_segment_states r !! segment_index);
      segment_state ← lift (ok_or segment_state segment_state_missing);
      modify (λ r, rx_set_segments
        (<[segment_index :=
             {| sim_next_amount_in := hop_expected;
                sim_hops :=
                  <[hop_index :=
                      Some {| rh_token_in := nh_token_in hop; rh_token_out := nh_token_out hop;
                              rh_amount_in := hop_amount_in;
                              rh_expected_amount_out := hop_expected;
                              rh_swaps := swap_results |}]> (sim_hops segment_state) |}]>
           (rx_segment_states r)) r)
  end.

(** ** The route *)

Definition max_hop_depth : nat :=
  foldr Nat.max 0%nat (map (λ segment, length (nseg_hops segment)) (nr_segments normalized)).

Definition initialize_segment_states : list SegmentSimState :=
  map (λ segment, {| sim_next_amount_in := nseg_amount_in segment;
                     sim_hops := replicate (length (nseg_hops segment)) None |})
    (nr_segments normalized).

Definition RouteResimulator_new (rebuild_guard : SimulationRebuildGuard) (waits : nat) :
    RouteResimulator :=
  {| rx_segment_states := initialize_segment_states; rx_token_cache := ∅; rx_pool_cache := ∅;
     rx_rebuild_guard := rebuild_guard; rx_waits := waits |}.

(** [hops[hop_index].take()], for each hop in turn. *)
Definition take_segment_hops (segment_states : list SegmentSimState)
    (segment_index hop_len : nat) :
    encodeR (list ResimulatedHopInternal * list SegmentSimState) :=
  segment_state ← ok_or (segment_states !! segment_index) segment_state_missing;
  taken ← fold_result (λ '(resim_hops, hops) hop_index,
            resim_hop ← ok_or (mjoin (hops !! hop_index))
                          (internal "Segment hops missing after resimulation");
            Ok (resim_hops ++ [resim_hop], <[hop_index := None]> hops))
          ([], sim_hops segment_state) (seq 0 hop_len);
  let '(resim_hops, hops) := taken in
  Ok (resim_hops,
      <[segment_index := {| sim_next_amount_in := sim_next_amount_in segment_state;
                            sim_hops := hops |}]> segment_states).

Definition build_resimulated_segments (segment_states : list SegmentSimState) :
    encodeR (list ResimulatedSegmentInternal) :=
  built ← fold_result (λ '(resim_segments, segment_states) '(segment_index, segment),
            taken ← take_segment_hops segment_states segment_index (length (nseg_hops segment));
            let '(resim_hops, segment_states) := taken in
            last_hop ← ok_or (last resim_hops)
                         (internal "Segment hops missing after resimulation");
            Ok (resim_segments ++
                  [{| rseg_share_bps := nseg_share_bps segment;
                      rseg_amount_in := nseg_amount_in segment;
                      rseg_expected_amount_out := rh_expected_amount_out last_hop;
                      rseg_hops := resim_hops |}], segment_states))
          ([], segment_states) (imap pair (nr_segments normalized));
  Ok built.1.

Definition validate_request_tokens (request_token_in request_token_out : Bytes) : encodeR unit :=
  ensure (negb (bool_decide (request_token_in = "") || bool_decide (request_token_out = "")))
    (internal "Request tokens missing after resimulation").

Definition validate_native_request_tokens : encodeR unit :=
  for_each (λ hop,
      if bool_decide (nh_token_in hop = native_address)
         || bool_decide (nh_token_out hop = native_address)
      then for_each (λ swap,
               ensure (is_native_protocol_allowlisted (pr_protocol (ns_pool swap))
                         (set_native_token_protocol_allowlist (rv_settings server)))
                 (native_only_for (rv_settings server) (pr_protocol (ns_pool swap))))
             (nh_swaps hop)
      else Ok tt)
    (flat_map nseg_hops (nr_segments normalized)).

Definition resimulate_route_with_native_pin (request_token_in request_token_out : Bytes) :
    simM ResimulatedRouteInternal :=
  for_eachM (λ hop_index,
      for_eachM (λ segment_index, resimulate_segment_hop segment_index hop_index)
        (seq 0 (length (nr_segments normalized))))
    (seq 0 max_hop_depth) ;;
  lift (validate_request_tokens request_token_in request_token_out) ;;
  lift validate_native_request_tokens ;;
  segment_states ← gets rx_segment_states;
  segments ← lift (build_resimulated_segments segment_states);
  mret {| rroute_segments := segments |}.
End resimulate.
