(* ===== verification/RouteSimFacts.v ===== *)
(** * What a resimulated route is

    The amounts of a resimulated route flow from hop to hop without loss, and its pools have
    been run one swap after another in the order in which the route will execute. *)

From S2P Require Import Prelude Ordered Text Protocol Store Health Readiness.
From S2P Require Import RouteTypes RouteNormalize RouteAllocFacts SharedAccounts RouteResimulate.

Section simulated.
Context `{RouteSim} (server : RouteServer) (world : nat → RouteWorld).
Context (native_pin : option PublishedStateStore) (normalized : NormalizedRouteInternal).

(** ** One swap *)

(** The pool of a backend that was found ready at the wait before it was looked up. *)
Definition looked_up (id : string) (entry : PoolEntry) : Prop :=
  ∃ n, let ready := world n in let app := rw_app (world (S n)) in
    (native_readiness (rw_now ready) (rw_app ready) = NativeReady ∧
     pool_by_id_from_published (pin (app_native_state_store app)) id = Some entry) ∨
    (vm_readiness (rw_now ready) (rw_app ready) = VmReady ∧
     pool_by_id_from_published (pin (app_vm_state_store app)) id = Some entry) ∨
    (rfq_readiness (rw_now ready) (rw_app ready) = RfqReady ∧
     pool_by_id_from_published (pin (app_rfq_state_store app)) id = Some entry).

(** Where a pool a route has not used yet comes from: the pinned native state, or the state
    that a ready backend published while the route was simulated. *)
Definition loaded (id : string) (pool_state : ProtocolSim) (component : ProtocolComponent) : Prop :=
  (∃ pin, native_pin = Some pin ∧
     pool_by_id_from_published pin id = Some (pool_state, component)) ∨
  (∃ found, looked_up id (found, component) ∧
     (if is_rfq (PoolBackend_from_component component)
      then hydrate_rfq_pool_state server id found
             (encode_rfq_quote_timeout (rv_request_timeout server))
      else Ok found) = Ok pool_state).

(** What waiting leaves of a simulator. *)
Definition same_but_waits (r r' : RouteResimulator) : Prop :=
  rx_segment_states r' = rx_segment_states r ∧ rx_token_cache r' = rx_token_cache r ∧
  rx_pool_cache r' = rx_pool_cache r.

#[local] Instance same_but_waits_preorder : PreOrder same_but_waits.
Proof. split; [by intros ?|]. intros r1 r2 r3 (?&?&?) (?&?&?). split_and!; congruence. Qed.

Lemma await_moves : moves same_but_waits (await world).
Proof. by intros r w r' [= _ <-]. Qed.

Lemma await_ready_moves uses_native uses_vm uses_rfq :
  moves same_but_waits (await_ready world uses_native uses_vm uses_rfq).
Proof.
  apply (moves_bind _); [apply await_moves|]. intros w.
  destruct (encode_availability _ _ _ _ _); first [apply (moves_ret _)|apply (moves_throw _)].
Qed.

Lemma in_backend_moves {A} id (native vm rfq : stateR RouteResimulator EncodeError (option A)) :
  moves same_but_waits native → moves same_but_waits vm → moves same_but_waits rfq →
  moves same_but_waits (in_backend world id native vm rfq).
Proof.
  intros Hn Hv Hr. unfold in_backend.
  apply (moves_bind _); [apply await_moves|]. intros w. destruct (has_pool _ id); [done|].
  apply (moves_bind _); [apply await_moves|]. intros w'. destruct (has_pool _ id); [done|].
  apply (moves_bind _); [apply await_moves|]. intros w''. destruct (has_pool _ id); [done|].
  apply (moves_ret _).
Qed.

Lemma await_requirements_moves id :
  moves same_but_waits (await_rebuild_guard_requirements world id).
Proof.
  apply in_backend_moves; (apply (moves_bind _); [apply await_ready_moves|]; intros; apply (moves_ret _)).
Qed.

Lemma await_pool_moves id : moves same_but_waits (await_pool_by_id world id).
Proof.
  apply in_backend_moves; (apply (moves_bind _); [apply await_ready_moves|]; intros _;
    apply (moves_bind _); [apply await_moves|]; intros; apply (moves_ret _)).
Qed.

(** One of the three answers, once the store that has the pool is known. *)
Lemma in_backend_some {A} id (native vm rfq : stateR RouteResimulator EncodeError (option A)) r a r' :
  in_backend world id native vm rfq r = (Ok (Some a), r') →
  ∃ r1, native r1 = (Ok (Some a), r') ∨ vm r1 = (Ok (Some a), r') ∨ rfq r1 = (Ok (Some a), r').
Proof.
  unfold in_backend. rewrite stateR_bind_ok. intros (w & r1 & _ & Hrun).
  destruct (has_pool _ id); [by exists r1; left|].
  apply stateR_bind_ok in Hrun as (w' & r2 & _ & Hrun).
  destruct (has_pool _ id); [by exists r2; right; left|].
  apply stateR_bind_ok in Hrun as (w'' & r3 & _ & Hrun).
  destruct (has_pool _ id); [by exists r3; right; right|done].
Qed.

Lemma await_ready_ok uses_native uses_vm uses_rfq r u r' :
  await_ready world uses_native uses_vm uses_rfq r = (Ok u, r') →
  rx_waits r' = S (rx_waits r) ∧
  encode_availability (rw_now (world (rx_waits r))) (rw_app (world (rx_waits r)))
    uses_native uses_vm uses_rfq = EncodeReady.
Proof.
  unfold await_ready. rewrite stateR_bind_ok. intros (w & r1 & [= <- <-] & Hrun).
  destruct (encode_availability _ _ _ _ _); try done. by injection Hrun as _ <-.
Qed.

Lemma await_pool_ok id r entry r' :
  await_pool_by_id world id r = (Ok (Some entry), r') → looked_up id entry.
Proof.
  intros (r1 & Hrun)%in_backend_some. unfold looked_up.
  destruct Hrun as [Hrun|[Hrun|Hrun]];
    apply stateR_bind_ok in Hrun as (u & r2 & (Hw & Hready)%await_ready_ok & Hrun);
    apply stateR_bind_ok in Hrun as (w & r3 & [= <- <-] & [= Hfound _]);
    rewrite Hw in Hfound; exists (rx_waits r1); unfold encode_availability in Hready; simpl in *.
  - left. split; [|done]. by destruct (native_readiness _ _).
  - right; left. split; [|done]. by destruct (vm_readiness _ _).
  - right; right. split; [|done]. by destruct (rfq_readiness _ _).
Qed.

Lemma await_ok r w r' : await world r = (Ok w, r') →
  rx_segment_states r' = rx_segment_states r ∧ rx_token_cache r' = rx_token_cache r ∧
  rx_pool_cache r' = rx_pool_cache r ∧ w = world (rx_waits r).
Proof. by intros [= <- <-]. Qed.

Lemma extend_guard_ok requirements r u r' :
  extend_rebuild_guard world requirements r = (Ok u, r') →
  rx_segment_states r' = rx_segment_states r ∧ rx_token_cache r' = rx_token_cache r ∧
  rx_pool_cache r' = rx_pool_cache r.
Proof.
  unfold extend_rebuild_guard. destruct requirements as [[vm rfq]|]; [|by intros [= _ <-]].
  rewrite gets_bind. case_match; [|by intros [= _ <-]].
  rewrite stateR_bind_ok. intros (w & r1 & (Hs & Ht & Hp & _)%await_ok & [= _ <-]). done.
Qed.

Lemma cache_new_pool_ok id pool_state component r entry r' :
  cache_new_pool id pool_state component r = (Ok entry, r') →
  ce_pool_state entry = pool_state ∧ ce_component entry = component ∧
  ce_backend entry = PoolBackend_from_component component ∧ r' = rx_cache_pool id entry r.
Proof. by intros [= <- <-]. Qed.

Lemma load_pool_entry_ok id r entry r' :
  load_pool_entry server world native_pin id r = (Ok entry, r') →
  rx_segment_states r' = rx_segment_states r ∧ rx_token_cache r' = rx_token_cache r ∧
  rx_pool_cache r' = <[id := entry]> (rx_pool_cache r) ∧
  (rx_pool_cache r !! id = Some entry ∨
   rx_pool_cache r !! id = None ∧ loaded id (ce_pool_state entry) (ce_component entry) ∧
     ce_backend entry = PoolBackend_from_component (ce_component entry)).
Proof.
  unfold load_pool_entry. rewrite gets_bind. destruct (rx_pool_cache r !! id) as [e|] eqn:Hid.
  { intros [= <- <-]. split_and!; [done|done|by rewrite insert_id|by left]. }
  destruct (native_pin ≫= λ pin, pool_by_id_from_published pin id) as [[st c]|] eqn:Hpin.
  { intros (Hst & Hc & Hb & ->)%cache_new_pool_ok. split_and!; [done|done|done|]. right.
    split; [done|]. rewrite Hst, Hc. split; [|done]. left.
    apply bind_Some in Hpin as (pin & Hpin & Hst'). by exists pin. }
  rewrite stateR_bind_ok. intros (req & r1 & (Hs1 & Ht1 & Hp1)%await_requirements_moves & Hrun).
  apply stateR_bind_ok in Hrun as (u & r2 & (Hs2 & Ht2 & Hp2)%extend_guard_ok & Hrun).
  apply stateR_bind_ok in Hrun as (found & r3 & Hfound & Hrun).
  pose proof (await_pool_moves _ _ _ _ Hfound) as (Hs3 & Ht3 & Hp3).
  apply lift_bind_ok in Hrun as ([st c] & ->%ok_or_ok & Hrun).
  apply lift_bind_ok in Hrun as (st' & Hst' & (Hst & Hc & Hb & ->)%cache_new_pool_ok).
  simpl. rewrite Hs3, Ht3, Hp3, Hs2, Ht2, Hp2, Hs1, Ht1, Hp1. split_and!; [done|done|done|].
  right. split; [done|]. rewrite Hst, Hc. split; [|done]. right. exists st.
  split; [by eapply await_pool_ok|done].
Qed.

Lemma token_cache_get_ok address pin r token r' :
  token_cache_get world address pin r = (Ok token, r') →
  rx_segment_states r' = rx_segment_states r ∧ rx_pool_cache r' = rx_pool_cache r ∧
  rx_token_cache r ⊆ rx_token_cache r' ∧ rx_token_cache r' !! address = Some token.
Proof.
  unfold token_cache_get. rewrite gets_bind.
  destruct (rx_token_cache r !! address) as [t|] eqn:Hat; [by intros [= <- <-]|].
  destruct pin as [pin|].
  - intros (t & _ & [= <- <-])%lift_bind_ok. simpl.
    split_and!; [done|done|by apply insert_subseteq|apply lookup_insert_eq].
  - rewrite stateR_bind_ok. intros (w & r1 & (Hs & Ht & Hp & _)%await_ok & Hrun).
    apply lift_bind_ok in Hrun as (found & _ & (t & _ & [= <- <-])%lift_bind_ok). simpl.
    rewrite Hs, Ht, Hp. split_and!; [done|done|by apply insert_subseteq|apply lookup_insert_eq].
Qed.

Lemma simulate_swap_ok request r pre amount new r' :
  simulate_swap world request r = (Ok (pre, (amount, new)), r') →
  rx_segment_states r' = rx_segment_states r ∧ rx_token_cache r' = rx_token_cache r ∧
  rx_pool_cache r' = rx_pool_cache r ∧ pre = sr_pool_state request ∧
  get_amount_out (sr_pool_state request) (sr_amount_in_for_sim request) (sr_token_in request)
    (sr_token_out request) = Ok (amount, new).
Proof.
  unfold simulate_swap. rewrite stateR_bind_ok.
  intros (w & r1 & (Hs & Ht & Hp & _)%await_ok & Hrun). destruct (rw_worker_failure w); [done|].
  apply lift_bind_ok in Hrun as ([a n] & Hsim & [= <- <- <- <-]).
  split_and!; [done|done|done|done|]. destruct (get_amount_out _ _ _ _); [|done].
  by injection Hsim as ->.
Qed.

(** ** The pools of a route, run swap by swap *)

(** The token a swap is simulated with. *)
Definition swap_token (tokens : gmap Bytes Token) (swap : ResimulatedSwapInternal)
    (address : Bytes) : option Token :=
  tokens !! map_swap_token server address
    (is_native_protocol_allowlisted (protocol_system (rs_component swap))
       (set_native_token_protocol_allowlist (rv_settings server))).

(** The state a swap starts from: what the pool's last swap left, or what was loaded. *)
Definition starts_from (known : gmap string (ProtocolSim * ProtocolComponent))
    (swap : ResimulatedSwapInternal) : Prop :=
  let id := pr_component_id (rs_pool swap) in
  match known !! id with
  | Some entry => entry = (rs_pool_state swap, rs_component swap)
  | None => loaded id (rs_pool_state swap) (rs_component swap)
  end.

Inductive replays (tokens : gmap Bytes Token) :
    gmap string (ProtocolSim * ProtocolComponent) → list ResimulatedSwapInternal →
    gmap string (ProtocolSim * ProtocolComponent) → Prop :=
| replays_nil known : replays tokens known [] known
| replays_cons known swap swaps final token_in token_out after :
    starts_from known swap →
    rs_backend swap = PoolBackend_from_component (rs_component swap) →
    swap_token tokens swap (rs_token_in swap) = Some token_in →
    swap_token tokens swap (rs_token_out swap) = Some token_out →
    get_amount_out (rs_pool_state swap) (rs_amount_in swap) token_in token_out =
      Ok (rs_expected_amount_out swap, after) →
    replays tokens
      (<[pr_component_id (rs_pool swap) := (after, rs_component swap)]> known) swaps final →
    replays tokens known (swap :: swaps) final.

Lemma replays_mono tokens tokens' known swaps final :
  tokens ⊆ tokens' → replays tokens known swaps final → replays tokens' known swaps final.
Proof.
  intros Hsub. induction 1 as [|known swap swaps final tin tout after Hst Hb Hin Hout Hsim _ IH];
    [constructor|].
  apply (replays_cons _ _ _ _ _ tin tout after); try done; by eapply lookup_weaken.
Qed.

Lemma replays_app tokens known swaps1 known1 swaps2 final :
  replays tokens known swaps1 known1 → replays tokens known1 swaps2 final →
  replays tokens known (swaps1 ++ swaps2) final.
Proof. induction 1; [done|]. intros. simpl. by eapply replays_cons; eauto. Qed.

(** Every pool of a replay was loaded, when it was first used. *)
Lemma replays_loaded tokens known swaps final :
  replays tokens known swaps final →
  (∀ id, is_Some (known !! id) → ∃ st c, loaded id st c) →
  Forall (λ swap, ∃ st c, loaded (pr_component_id (rs_pool swap)) st c) swaps.
Proof.
  induction 1 as [|known swap swaps final tin tout after Hst _ _ _ _ _ IH]; intros Hknown;
    [constructor|].
  assert (∃ st c, loaded (pr_component_id (rs_pool swap)) st c) as Hload.
  { unfold starts_from in Hst. destruct (known !! _) eqn:E; [by apply Hknown; rewrite E|eauto]. }
  constructor; [done|]. apply IH. intros id.
  destruct (decide (pr_component_id (rs_pool swap) = id)) as [<-|Hne]; [done|].
  rewrite lookup_insert_ne by done. apply Hknown.
Qed.

(** The simulator once the swaps [run] have been simulated, and the pools they left. *)
Record ran (run : list ResimulatedSwapInternal)
    (known : gmap string (ProtocolSim * ProtocolComponent)) (r : RouteResimulator) : Prop := {
  ran_replays : replays (rx_token_cache r) ∅ run known;
  ran_cache : ∀ id, (λ e, (ce_pool_state e, ce_component e)) <$> rx_pool_cache r !! id
                    = known !! id;
  ran_backends : map_Forall (λ _ e,
    ce_backend e = PoolBackend_from_component (ce_component e)) (rx_pool_cache r);
}.

(** What a simulated swap keeps of the allocated one. *)
Definition swap_run (a : AllocatedSwap) (swap : ResimulatedSwapInternal) : Prop :=
  rs_pool swap = as_pool a ∧ rs_token_in swap = as_token_in a ∧
  rs_token_out swap = as_token_out a ∧ rs_split_bps swap = as_split_bps a ∧
  rs_amount_in swap = as_amount_in a.

Lemma simulate_allocated_swap_ok a run known r swap r' :
  simulate_allocated_swap server world native_pin a r = (Ok swap, r') → ran run known r →
  rx_segment_states r' = rx_segment_states r ∧ swap_run a swap ∧
  (0 < rs_expected_amount_out swap)%N ∧ ∃ known', ran (run ++ [swap]) known' r'.
Proof.
  unfold simulate_allocated_swap. intros Hrun [Hrep Hcache Hback].
  apply stateR_bind_ok in Hrun as (entry & r1 & (Hs1 & Ht1 & Hp1 & Hload)%load_pool_entry_ok & Hrun).
  apply lift_bind_ok in Hrun as (u & _ & Hrun).
  apply lift_bind_ok in Hrun as (keep & Hkeep & Hrun).
  apply seq_ok in Hkeep as [_ [= <-]].
  apply stateR_bind_ok in Hrun as (tin & r2 & (Hs2 & Hp2 & Ht2 & Hin)%token_cache_get_ok & Hrun).
  apply stateR_bind_ok in Hrun as (tout & r3 & (Hs3 & Hp3 & Ht3 & Hout)%token_cache_get_ok & Hrun).
  rewrite gets_bind in Hrun.
  apply stateR_bind_ok in Hrun as ([pre [amount new]] & r4 &
    (Hs4 & Ht4 & Hp4 & -> & Hsim)%simulate_swap_ok & Hrun).
  apply lift_bind_ok in Hrun as (expected & Hexp & Hrun).
  unfold require_non_zero_amount_out in Hexp.
  apply seq_ok in Hexp as [Hpos%ensure_ok%negb_true_iff%N.eqb_neq [= <-]].
  injection Hrun as <- <-. simpl in *.
  split; [congruence|]. split; [done|]. split; [lia|].
  set (id := pr_component_id (as_pool a)) in *.
  assert (Hb : ce_backend entry = PoolBackend_from_component (ce_component entry)).
  { destruct Hload as [Hid|(_ & _ & Hb)]; [by apply (Hback id)|done]. }
  exists (<[id := (new, ce_component entry)]> known). split; simpl.
  - assert (Hsub : rx_token_cache r ⊆ rx_token_cache r4).
    { rewrite Ht4, <- Ht1. by etrans. }
    eapply replays_app; [by eapply replays_mono|].
    eapply (replays_cons _ _ _ _ _ tin tout new); simpl; [| |by rewrite ?Ht4; eapply lookup_weaken|
      by rewrite Ht4|exact Hsim|constructor].
    + unfold starts_from. simpl. fold id. specialize (Hcache id).
      destruct Hload as [Hid|(Hid & Hl & _)]; rewrite Hid in Hcache; simpl in Hcache;
        by rewrite <- Hcache.
    + done.
  - intros id'. rewrite Hp4, Hp3, Hp2, Hp1. destruct (decide (id = id')) as [<-|Hne].
    + by rewrite !lookup_insert_eq.
    + rewrite !lookup_insert_ne by done. apply Hcache.
  - rewrite Hp4, Hp3, Hp2, Hp1. apply map_Forall_insert_2; [done|].
    by apply map_Forall_insert_2.
Qed.

Lemma simulate_swaps_ok allocated : ∀ results expected run known r results' expected' r',
  simulate_swaps_from server world native_pin results expected allocated r
    = (Ok (results', expected'), r') → ran run known r →
  rx_segment_states r' = rx_segment_states r ∧
  ∃ new, results' = results ++ new ∧
    expected' = (expected + N_sum (map rs_expected_amount_out new))%N ∧
    Forall2 swap_run allocated new ∧
    Forall (λ swap, 0 < rs_expected_amount_out swap)%N new ∧
    ∃ known', ran (run ++ new) known' r'.
Proof.
  induction allocated as [|a allocated IH]; intros results expected run known r results' expected' r'
    Hrun Hran; simpl in Hrun.
  - injection Hrun as <- <- <-. split; [done|]. exists []. rewrite !app_nil_r. simpl.
    split; [done|]. split; [lia|]. split; [done|]. split; [done|]. by exists known.
  - apply stateR_bind_ok in Hrun as (swap & r1 & Hswap & Hrun).
    apply (simulate_allocated_swap_ok _ run known) in Hswap as (Hs1 & Hsr & Hpos & known1 & Hran1);
      [|done].
    apply (IH _ _ (run ++ [swap]) known1) in Hrun as (Hs2 & new & -> & -> & Hall & Hposs & known2 & Hran2);
      [|done].
    split; [congruence|]. exists (swap :: new). rewrite <- !app_assoc in *. simpl in *.
    split; [done|]. split; [unfold N_sum in *; simpl; lia|]. split; [by constructor|].
    split; [by constructor|]. by exists known2.
Qed.

(** ** One hop *)

(** A resimulated hop, of the hop it comes from and the amount that reached it. *)
Record hop_run (draft : NormalizedHopInternal) (amount : N) (hop : ResimulatedHopInternal) :
    Prop := {
  hr_token_in : rh_token_in hop = nh_token_in draft;
  hr_token_out : rh_token_out hop = nh_token_out draft;
  hr_amount_in : rh_amount_in hop = amount;
  hr_amount_pos : (0 < amount)%N;
  hr_allocation : allocation_of amount (map ns_split_bps (nh_swaps draft))
                    (map rs_amount_in (rh_swaps hop));
  hr_swaps : Forall2 (λ d swap, rs_pool swap = ns_pool d ∧ rs_token_in swap = ns_token_in d ∧
                        rs_token_out swap = ns_token_out d ∧ rs_split_bps swap = ns_split_bps d)
               (nh_swaps draft) (rh_swaps hop);
  hr_expected : rh_expected_amount_out hop
                = N_sum (map rs_expected_amount_out (rh_swaps hop));
  hr_expected_pos : Forall (λ swap, 0 < rs_expected_amount_out swap)%N (rh_swaps hop);
}.

(** Hops that hand their output on: [next] is what the last of them produced. *)
Fixpoint hops_linked (amount : N) (drafts : list NormalizedHopInternal)
    (hops : list ResimulatedHopInternal) (next : N) {struct hops} : Prop :=
  match hops, drafts with
  | [], _ => next = amount
  | hop :: hops, draft :: drafts =>
      hop_run draft amount hop ∧ hops_linked (rh_expected_amount_out hop) drafts hops next
  | _ :: _, [] => False
  end.

Lemma hops_linked_snoc drafts : ∀ amount hops next draft hop,
  hops_linked amount drafts hops next → drafts !! length hops = Some draft →
  hop_run draft next hop → hops_linked amount drafts (hops ++ [hop]) (rh_expected_amount_out hop).
Proof.
  induction drafts as [|d drafts IH]; intros amount [|h hops] next draft hop Hl Hd Hr; simpl in *;
    try done.
  - injection Hd as <-. subst. by split.
  - destruct Hl as [Hh Hl]. split; [done|]. by eapply IH.
Qed.

(** A segment [depth] hops into its simulation. *)
Definition progress (depth : nat) (segment : NormalizedSegmentInternal) (state : SegmentSimState) :
    Prop :=
  ∃ hops, length hops = Nat.min depth (length (nseg_hops segment)) ∧
    sim_hops state = map Some hops ++ replicate (length (nseg_hops segment) - length hops) None ∧
    hops_linked (nseg_amount_in segment) (nseg_hops segment) hops (sim_next_amount_in state).

Lemma progress_length depth segment state :
  progress depth segment state → length (sim_hops state) = length (nseg_hops segment).
Proof.
  intros (hops & Hlen & Hsim & _). rewrite Hsim, length_app, length_map, length_replicate. lia.
Qed.

(** The swaps of the hop at a depth of a segment, and of all segments, depth by depth. *)
Definition swaps_at (states : list SegmentSimState) (depth index : nat) :
    list ResimulatedSwapInternal :=
  match states !! index ≫= λ state, sim_hops state !! depth with
  | Some (Some hop) => rh_swaps hop
  | _ => []
  end.

Definition swaps_before (states : list SegmentSimState) (depth index : nat) :
    list ResimulatedSwapInternal :=
  flat_map (λ d, flat_map (swaps_at states d) (seq 0 (length states))) (seq 0 depth)
  ++ flat_map (swaps_at states depth) (seq 0 index).

(** The simulator before the hop at [depth] of the segment at [index]. *)
Record midway (depth index : nat) (r : RouteResimulator) : Prop := {
  mid_progress : ∀ i segment, nr_segments normalized !! i = Some segment →
    ∃ state, rx_segment_states r !! i = Some state ∧
      progress (if bool_decide (i < index)%nat then S depth else depth) segment state;
  mid_length : length (rx_segment_states r) = length (nr_segments normalized);
  mid_ran : ∃ known, ran (swaps_before (rx_segment_states r) depth index) known r;
}.

(** ** The steps of the loops *)

Lemma flat_map_ext_in {A B} (f g : A → list B) l :
  (∀ x, x ∈ l → f x = g x) → flat_map f l = flat_map g l.
Proof.
  intros Hfg. induction l as [|x l IH]; simpl; [done|]. rewrite (Hfg x) by left.
  f_equal. apply IH. intros y Hy. apply Hfg. by right.
Qed.

Lemma flat_map_seq_S {B} (f : nat → list B) n :
  flat_map f (seq 0 (S n)) = flat_map f (seq 0 n) ++ f n.
Proof. rewrite seq_S, flat_map_app. simpl. by rewrite app_nil_r. Qed.

Lemma swaps_before_next states depth index :
  swaps_before states depth (S index) = swaps_before states depth index ++ swaps_at states depth index.
Proof. unfold swaps_before. by rewrite flat_map_seq_S, app_assoc. Qed.

Lemma swaps_before_depth states depth :
  swaps_before states depth (length states) = swaps_before states (S depth) 0.
Proof. unfold swaps_before. by rewrite flat_map_seq_S, app_nil_r. Qed.

(** Recording a hop leaves the swaps of the hops before it. *)
Lemma swaps_before_insert states depth index state state' :
  states !! index = Some state →
  (∀ d, d ≠ depth → sim_hops state' !! d = sim_hops state !! d) →
  swaps_before (<[index := state']> states) depth index = swaps_before states depth index.
Proof.
  intros Hst Hsame. unfold swaps_before. rewrite length_insert.
  assert (Hat : ∀ d i, i ≠ index ∨ d ≠ depth →
    swaps_at (<[index := state']> states) d i = swaps_at states d i).
  { intros d i Hdi. unfold swaps_at. destruct (decide (i = index)) as [->|Hne].
    - rewrite list_lookup_insert_eq by (by eapply lookup_lt_Some). rewrite Hst. simpl.
      rewrite Hsame; [done|]. by destruct Hdi.
    - by rewrite list_lookup_insert_ne. }
  f_equal; apply flat_map_ext_in.
  - intros d Hd%elem_of_seq. apply flat_map_ext_in. intros i _. apply Hat. right. lia.
  - intros i Hi%elem_of_seq. apply Hat. left. lia.
Qed.

Lemma hop_run_of draft si hi amount allocated swaps expected :
  allocate_swaps_by_bps amount (nh_swaps draft) si hi = Ok allocated →
  Forall2 swap_run allocated swaps → expected = N_sum (map rs_expected_amount_out swaps) →
  Forall (λ swap, 0 < rs_expected_amount_out swap)%N swaps →
  hop_run draft amount
    {| rh_token_in := nh_token_in draft; rh_token_out := nh_token_out draft;
       rh_amount_in := amount; rh_expected_amount_out := expected; rh_swaps := swaps |}.
Proof.
  intros (Hpos & _ & Hfrom & Hal)%allocate_swaps_ok Hrun -> Hexp.
  assert (map rs_amount_in swaps = map as_amount_in allocated) as Ham.
  { clear -Hrun. induction Hrun as [|a swap allocated swaps (_ & _ & _ & _ & Ha) _ IH]; simpl;
      [done|]. by rewrite Ha, IH. }
  constructor; simpl; try done; [by rewrite Ham|].
  clear -Hfrom Hrun. revert swaps Hrun.
  induction Hfrom as [|d a ds allocated (Hp & Hi & Ho & Hs) _ IH]; intros swaps Hrun.
  - apply Forall2_nil_inv_l in Hrun as ->. constructor.
  - apply Forall2_cons_inv_l in Hrun as (swap & swaps' & (Hp' & Hi' & Ho' & Hs' & _) & Hrun & ->).
    constructor; [|by apply IH]. by rewrite Hp', Hi', Ho', Hs'.
Qed.

Lemma progress_step depth segment state draft hop :
  progress depth segment state → nseg_hops segment !! depth = Some draft →
  hop_run draft (sim_next_amount_in state) hop →
  progress (S depth) segment
    {| sim_next_amount_in := rh_expected_amount_out hop;
       sim_hops := <[depth := Some hop]> (sim_hops state) |} ∧
  (∀ d, d ≠ depth → <[depth := Some hop]> (sim_hops state) !! d = sim_hops state !! d) ∧
  <[depth := Some hop]> (sim_hops state) !! depth = Some (Some hop).
Proof.
  intros Hpr Hd Hhop. pose proof (progress_length _ _ _ Hpr) as Hl.
  pose proof (lookup_lt_Some _ _ _ Hd) as Hlt.
  destruct Hpr as (hops & Hlen & Hsim & Hlink). rewrite Nat.min_l in Hlen by lia.
  split.
  - exists (hops ++ [hop]). rewrite length_app, Hlen. cbn [length]. split; [lia|]. split.
    + rewrite Hsim, insert_app_r_alt by (rewrite length_map, Hlen; done).
      rewrite length_map, Hlen, Nat.sub_diag, map_app, <- app_assoc.
      destruct (length (nseg_hops segment) - depth)%nat as [|k] eqn:Hk; [lia|]. simpl.
      do 3 f_equal. lia.
    + eapply hops_linked_snoc; [exact Hlink|by rewrite Hlen|done].
  - split; [intros d Hne; by rewrite list_lookup_insert_ne|].
    apply list_lookup_insert_eq. rewrite Hl. lia.
Qed.

Lemma segment_hop_step depth index r u r' :
  (index < length (nr_segments normalized))%nat →
  resimulate_segment_hop server world native_pin normalized index depth r = (Ok u, r') →
  midway depth index r → midway depth (S index) r'.
Proof.
  intros Hindex Hrun [Hpr Hlen [known Hran]].
  destruct (lookup_lt_is_Some_2 _ _ Hindex) as [segment Hseg].
  destruct (Hpr index segment Hseg) as (state & Hstate & Hprog).
  rewrite bool_decide_eq_false_2 in Hprog by lia.
  assert (Hother : ∀ i segment', i ≠ index → nr_segments normalized !! i = Some segment' →
    ∃ state, rx_segment_states r !! i = Some state ∧
      progress (if bool_decide (i < S index)%nat then S depth else depth) segment' state).
  { intros i segment' Hne Hi. destruct (Hpr i segment' Hi) as (st & Hst & Hp). exists st.
    split; [done|]. rewrite (bool_decide_ext _ (i < index)%nat) by lia. done. }
  unfold resimulate_segment_hop in Hrun. rewrite Hseg in Hrun. simpl in Hrun.
  destruct (nseg_hops segment !! depth) as [draft|] eqn:Hdraft.
  - rewrite gets_bind, Hstate in Hrun. apply lift_bind_ok in Hrun as (st & [= <-] & Hrun).
    apply lift_bind_ok in Hrun as (amount & Hamount & Hrun).
    apply seq_ok in Hamount as [_ [= <-]].
    apply lift_bind_ok in Hrun as (allocated & Hallocated & Hrun).
    apply stateR_bind_ok in Hrun as ([swaps expected] & r1 & Hswaps & Hrun).
    unfold simulate_allocated_swaps in Hswaps.
    apply stateR_bind_ok in Hswaps as ([swaps' expected'] & r2 & Hswaps & Hpos).
    destruct (expected' =? 0)%N; [done|]. injection Hpos as -> -> ->.
    eapply simulate_swaps_ok in Hswaps as (Hsegs & new & -> & Hexp & Hall & Hposs & known' & Hran');
      [|exact Hran]. simpl in Hexp.
    rewrite gets_bind, Hsegs, Hstate in Hrun.
    apply lift_bind_ok in Hrun as (st & [= <-] & Hrun). injection Hrun as _ <-.
    pose proof (hop_run_of _ _ _ _ _ _ _ Hallocated Hall Hexp Hposs) as Hhop.
    destruct (progress_step _ _ _ _ _ Hprog Hdraft Hhop) as (Hprog' & Hsame & Hnew).
    constructor; simpl; rewrite ?Hsegs.
    + intros i segment' Hi. destruct (decide (i = index)) as [->|Hne].
      * rewrite Hseg in Hi. injection Hi as <-. eexists.
        split; [apply list_lookup_insert_eq; by eapply lookup_lt_Some|].
        rewrite bool_decide_eq_true_2 by lia. exact Hprog'.
      * rewrite list_lookup_insert_ne by done. by apply Hother.
    + by rewrite length_insert.
    + exists known'. rewrite swaps_before_next.
      rewrite (swaps_before_insert _ _ _ state) by done.
      unfold swaps_at. rewrite list_lookup_insert_eq by (by eapply lookup_lt_Some). simpl.
      rewrite Hnew. simpl. destruct Hran' as [Hrep Hcache Hback]. by constructor.
  - injection Hrun as _ <-. apply lookup_ge_None in Hdraft. constructor; [|done|].
    + intros i segment' Hi. destruct (decide (i = index)) as [->|Hne]; [|by apply Hother].
      rewrite Hseg in Hi. injection Hi as <-. exists state. split; [done|].
      rewrite bool_decide_eq_true_2 by lia. destruct Hprog as (hops & Hl & Hrest). exists hops.
      split; [lia|done].
    + exists known. rewrite swaps_before_next. unfold swaps_at. rewrite Hstate. simpl.
      rewrite (lookup_ge_None_2 (sim_hops state)); [by rewrite app_nil_r|].
      by rewrite (progress_length _ _ _ Hprog).
Qed.

(** A loop over a range keeps an invariant that its turns hand on. *)
Lemma for_seq_inv {S E} (P : nat → S → Prop) (f : nat → stateR S E unit) n s u s' :
  for_eachM f (seq 0 n) s = (Ok u, s') → P 0%nat s →
  (∀ k s u s', (k < n)%nat → f k s = (Ok u, s') → P k s → P (Datatypes.S k) s') → P n s'.
Proof.
  intros Hloop HP Hstep.
  enough (Hgen : ∀ m k s u s', (k + m = n)%nat → for_eachM f (seq k m) s = (Ok u, s') → P k s →
    P n s') by (by eapply (Hgen n 0%nat)).
  clear s u s' Hloop HP. induction m as [|m IH]; intros k s u s' Hk Hloop HP; simpl in Hloop.
  - injection Hloop as _ <-. by replace n with k by lia.
  - apply stateR_bind_ok in Hloop as (v & s1 & Hf & Hloop).
    eapply (IH (Datatypes.S k)); [lia|exact Hloop|]. eapply Hstep; [lia|exact Hf|done].
Qed.

Lemma midway_new guard waits : midway 0 0 (RouteResimulator_new normalized guard waits).
Proof.
  constructor; simpl.
  - intros i segment Hi. unfold initialize_segment_states. rewrite list_lookup_fmap, Hi. simpl.
    eexists. split; [done|]. exists []. simpl. by rewrite Nat.sub_0_r.
  - by unfold initialize_segment_states; rewrite length_map.
  - exists ∅. split; simpl; [constructor|done|apply map_Forall_empty].
Qed.

Lemma midway_depth depth r :
  midway depth (length (nr_segments normalized)) r → midway (S depth) 0 r.
Proof.
  intros [Hpr Hlen [known Hran]]. constructor; [|done|].
  - intros i segment Hi. destruct (Hpr i segment Hi) as (state & Hst & Hp). exists state.
    split; [done|]. rewrite bool_decide_eq_true_2 in Hp by (by eapply lookup_lt_Some). done.
  - exists known. by rewrite <- swaps_before_depth, Hlen.
Qed.

Lemma resimulation_loop guard waits u r' :
  for_eachM (λ hop_index,
      for_eachM (λ segment_index,
          resimulate_segment_hop server world native_pin normalized segment_index hop_index)
        (seq 0 (length (nr_segments normalized))))
    (seq 0 (max_hop_depth normalized)) (RouteResimulator_new normalized guard waits)
    = (Ok u, r') →
  midway (max_hop_depth normalized) 0 r'.
Proof.
  intros Hloop.
  apply (for_seq_inv (λ depth, midway depth 0)) in Hloop; [done|apply midway_new|].
  intros depth s v s' _ Hinner Hmid. apply midway_depth.
  apply (for_seq_inv (λ index, midway depth index)) in Hinner; [done|done|].
  intros index s1 w s2 Hindex Hhop Hm. by eapply segment_hop_step.
Qed.
End simulated.
