(* ===== verification/RouteCalldata.v ===== *)
(** * Swaps and calldata of a route

    [runtime/src/services/encode/tycho_swaps.rs] and [calldata.rs]: a resimulated route
    becomes the swaps of a Tycho solution, in the order in which they execute and with the
    share of its input token each of them spends; the encoded solution becomes the
    interactions of the settlement. *)

From S2P Require Import Prelude Ordered Text Protocol Store Recovery.
From S2P Require Import RouteTypes RouteNormalize RouteResimulate.
From Stdlib Require Import SpecFloat.

(** ** Swaps and solutions *)

(** The encoder of [tycho-execution], ABI encoding, and the conversion of [BigUint] to
    [f64]. *)
Class RouteEncoder `{RouteSim} := {
  CommonProtocolComponent : Type;
  common_component : ProtocolComponent → CommonProtocolComponent;
  BigUint_to_f64 : N → option f64;
  Address : Type;
  EncodingError : Type;
  is_invalid_input : EncodingError → bool;
  EncodingError_to_string : EncodingError → string;
  bytes_to_address : Bytes → result EncodingError Address;
  abi_encode_approve : Address → N → string;
  abi_encode_split_params :
    N → Address → Address → N → bool → bool → N → Address → bool → string → string;
  abi_encode_params : N → Address → Address → N → bool → bool → Address → bool → string → string;
  SwapEncoderRegistry : Type;
  registry_with_default_encoders : Chain → result string SwapEncoderRegistry;
  EncodedSolution : Type;
  es_permit_is_some : EncodedSolution → bool;
  es_function_signature : EncodedSolution → string;
  es_interacting_with : EncodedSolution → Bytes;
  es_swaps : EncodedSolution → string;
  es_n_tokens : EncodedSolution → usize;
}.

Section swaps.
Context `{RouteEncoder}.

(** [Swap], as its builder fills it. *)
Record Swap := {
  sw_component : CommonProtocolComponent;
  sw_token_in : Bytes;
  sw_token_out : Bytes;
  sw_split : f64;
  sw_protocol_state : ProtocolSim;
  sw_estimated_amount_in : option N;
}.

Record Solution := {
  so_sender : Bytes;
  so_receiver : Bytes;
  so_given_token : Bytes;
  so_given_amount : N;
  so_checked_token : Bytes;
  so_exact_out : bool;
  so_checked_amount : N;
  so_swaps : list Swap;
}.

(** [TychoEncoder::encode_solutions]. *)
Definition TychoEncoder : Type := list Solution → result EncodingError (list EncodedSolution).

(** ** Ordering swaps *)

(** The loops of [ensure_token_in_single_depth], with the depth of each swap. *)
Definition swap_depths (route : ResimulatedRouteInternal) : list (nat * ResimulatedSwapInternal) :=
  flat_map (λ segment,
      flat_map (λ '(hop_index, hop), map (pair hop_index) (rh_swaps hop))
        (imap pair (rseg_hops segment)))
    (rroute_segments route).

Definition record_depth (token_depths : gmap Bytes nat) (x : nat * ResimulatedSwapInternal) :
    encodeR (gmap Bytes nat) :=
  let '(hop_index, swap) := x in
  match token_depths !! rs_token_in swap with
  | Some existing_depth =>
      ensure (bool_decide (existing_depth = hop_index))
        (invalid ("tokenIn " +:+ format_address (rs_token_in swap)
                    +:+ " appears at multiple hop depths")) ;;
      Ok token_depths
  | None => Ok (<[rs_token_in swap := hop_index]> token_depths)
  end.

Definition ensure_token_in_single_depth (route : ResimulatedRouteInternal) : encodeR unit :=
  fold_result record_depth ∅ (swap_depths route) ;;
  Ok tt.

(** The swaps of a route, by hop depth across its segments. *)
Definition ordered_swaps (route : ResimulatedRouteInternal) : list ResimulatedSwapInternal :=
  let max_hops :=
    foldr Nat.max 0%nat (map (λ segment, length (rseg_hops segment)) (rroute_segments route)) in
  flat_map (λ hop_index,
      flat_map (λ segment,
          match rseg_hops segment !! hop_index with
          | Some hop => rh_swaps hop
          | None => []
          end)
        (rroute_segments route))
    (seq 0 max_hops).

(** ** Shares *)

Record SplitStats := {
  sp_total_amount : N;
  sp_count : nat;
  sp_last_index : nat;
}.

Definition count_split (stats : gmap Bytes SplitStats) (x : nat * ResimulatedSwapInternal) :
    gmap Bytes SplitStats :=
  let '(index, swap) := x in
  let entry := default {| sp_total_amount := 0; sp_count := 0; sp_last_index := index |}
                 (stats !! rs_token_in swap) in
  <[rs_token_in swap :=
      {| sp_total_amount := sp_total_amount entry + rs_amount_in swap;
         sp_count := S (sp_count entry); sp_last_index := index |}]> stats.

Definition split_stats (swaps : list ResimulatedSwapInternal) : gmap Bytes SplitStats :=
  foldl count_split ∅ (imap pair swaps).

(** Binary64. *)
Definition f64_zero : f64 := S754_zero false.
Definition f64_one : f64 := S754_finite false 4503599627370496 (-52).
Definition f64_epsilon : f64 := S754_finite false 4503599627370496 (-104).
Definition f64_min_positive : f64 := S754_finite false 4503599627370496 (-1074).
Definition f64_div : f64 → f64 → f64 := SFdiv 53 1024.
Definition f64_sub : f64 → f64 → f64 := SFsub 53 1024.
Definition is_finite (x : f64) : bool :=
  match x with S754_zero _ | S754_finite _ _ _ => true | _ => false end.

Definition compute_split_fraction (amount_in total_in : N) (is_remainder : bool) (count : nat)
    (token_in : Bytes) : encodeR f64 :=
  if bool_decide (count ≤ 1)%nat || is_remainder then Ok f64_zero
  else
    ensure (negb (total_in =? 0)%N)
      (invalid "TokenIn total amount must be positive for split calculation") ;;
    ensure (negb ((amount_in =? 0)%N || (total_in <=? amount_in)%N))
      (invalid ("Invalid split ratio for tokenIn " +:+ format_address token_in)) ;;
    amount_in ← ok_or (BigUint_to_f64 amount_in)
                  (invalid "Failed to convert swap amountIn for split calculation");
    total_in ← ok_or (BigUint_to_f64 total_in)
                 (invalid "Failed to convert tokenIn total amount for split calculation");
    let split := f64_div amount_in total_in in
    ensure (is_finite split) (invalid "Invalid split ratio for tokenIn") ;;
    Ok (if SFleb split f64_zero then f64_min_positive
        else if SFleb f64_one split then f64_sub f64_one f64_epsilon
        else split).

(** The body of the loop of [build_route_swaps]. *)
Definition route_swap (stats : gmap Bytes SplitStats) (index : nat)
    (swap : ResimulatedSwapInternal) : encodeR Swap :=
  stats ← ok_or (stats !! rs_token_in swap) (internal "Missing split stats for swap tokenIn");
  let is_remainder :=
    bool_decide (sp_count stats = 1%nat) || bool_decide (sp_last_index stats = index) in
  split ← compute_split_fraction (rs_amount_in swap) (sp_total_amount stats) is_remainder
            (sp_count stats) (rs_token_in swap);
  Ok {| sw_component := common_component (rs_component swap);
        sw_token_in := rs_token_in swap; sw_token_out := rs_token_out swap;
        sw_split := split; sw_protocol_state := rs_pool_state swap;
        sw_estimated_amount_in :=
          if is_rfq (rs_backend swap) then Some (rs_amount_in swap) else None |}.

Definition build_route_swaps (resimulated : ResimulatedRouteInternal) : encodeR (list Swap) :=
  ensure_token_in_single_depth resimulated ;;
  let ordered_swaps := ordered_swaps resimulated in
  let split_stats := split_stats ordered_swaps in
  fold_result (λ swaps '(index, swap),
      swap ← route_swap split_stats index swap;
      Ok (swaps ++ [swap]))
    [] (imap pair ordered_swaps).

(** ** Calldata *)

Context `{Keccak}.

Definition map_encoding_error (err : EncodingError) : EncodeError :=
  if is_invalid_input err
  then invalid ("Tycho encoding error: " +:+ EncodingError_to_string err)
  else encoding ("Tycho encoding error: " +:+ EncodingError_to_string err).

Definition function_selector (signature : string) : encodeR string :=
  let normalized := str_trim signature in
  ensure (str_elem "(" normalized)
    (encoding ("Invalid function signature: " +:+ signature)) ;;
  Ok (String.substring 0 4 (digest_bytes normalized)).

Definition encode_function_call (signature encoded_args : string) : encodeR string :=
  selector ← function_selector signature;
  Ok (selector +:+ encoded_args).

Definition ERC20_APPROVE_SIGNATURE : string := "approve(address,uint256)".

Definition encode_erc20_approve_calldata (spender : Bytes) (amount : N) : encodeR string :=
  spender ← map_err map_encoding_error (bytes_to_address spender);
  amount ← biguint_to_u256_checked amount "approve amount";
  encode_function_call ERC20_APPROVE_SIGNATURE (abi_encode_approve spender amount).

Definition build_erc20_approve_interaction (token spender : Bytes) (amount : N) :
    encodeR Interaction :=
  calldata ← encode_erc20_approve_calldata spender amount;
  Ok {| ia_kind := Erc20Approve; ia_target := format_address token; ia_value := "0";
        ia_calldata := format_calldata calldata |}.

Record CallDataPayload := {
  cp_target : Bytes;
  cp_value : N;
  cp_calldata : string;
}.

Record RouteContext := {
  rc_request : RouteEncodeRequest;
  rc_token_in : Bytes;
  rc_token_out : Bytes;
  rc_amount_in : N;
  rc_router_address : Bytes;
  rc_is_native_input : bool;
}.

(** [SwapEncoderRegistry::new(chain).add_default_encoders(None)] and the builder of the
    router's encoder. *)
Definition build_encoder
    (build : Chain → SwapEncoderRegistry → Bytes → result string TychoEncoder)
    (Chain_to_string : Chain → string) (chain : Chain) (router_address : Bytes) :
    encodeR TychoEncoder :=
  registry ← map_err (λ err, encoding ("Failed to build swap encoder registry for "
                                         +:+ Chain_to_string chain +:+ ": " +:+ err))
               (registry_with_default_encoders chain);
  map_err (λ err, encoding ("Failed to build Tycho encoder: " +:+ err))
    (build chain registry router_address).

Definition encode_route_calldata (encoded_solution : EncodedSolution) (solution : Solution)
    (receiver : Bytes) (is_transfer_from_allowed : bool) : encodeR string :=
  let signature := es_function_signature encoded_solution in
  given_amount ← biguint_to_u256_checked (so_given_amount solution) "amountIn";
  checked_amount ← biguint_to_u256_checked (so_checked_amount solution) "minAmountOut";
  calldata_args ←
    (if str_contains "splitSwap" signature then
       given_token ← map_err map_encoding_error (bytes_to_address (so_given_token solution));
       checked_token ← map_err map_encoding_error (bytes_to_address (so_checked_token solution));
       receiver ← map_err map_encoding_error (bytes_to_address receiver);
       Ok (abi_encode_split_params given_amount given_token checked_token checked_amount false
             false (es_n_tokens encoded_solution) receiver is_transfer_from_allowed
             (es_swaps encoded_solution))
     else if str_contains "singleSwap" signature || str_contains "sequentialSwap" signature then
       given_token ← map_err map_encoding_error (bytes_to_address (so_given_token solution));
       checked_token ← map_err map_encoding_error (bytes_to_address (so_checked_token solution));
       receiver ← map_err map_encoding_error (bytes_to_address receiver);
       Ok (abi_encode_params given_amount given_token checked_token checked_amount false false
             receiver is_transfer_from_allowed (es_swaps encoded_solution))
     else Err (encoding ("Unsupported Tycho function signature: " +:+ signature)));
  encode_function_call signature calldata_args.

Definition build_route_calldata_tx (context : RouteContext)
    (resimulated : ResimulatedRouteInternal) (encoder : TychoEncoder) (min_amount_out : N) :
    encodeR CallDataPayload :=
  swaps ← build_route_swaps resimulated;
  sender ← parse_address (re_settlement_address (rc_request context));
  let receiver := sender in
  let solution :=
    {| so_sender := sender; so_receiver := receiver; so_given_token := rc_token_in context;
       so_given_amount := rc_amount_in context; so_checked_token := rc_token_out context;
       so_exact_out := false; so_checked_amount := min_amount_out; so_swaps := swaps |} in
  encoded_solutions ← map_err (λ err,
                          let message := "Route encoding failed: " +:+ EncodingError_to_string err in
                          if is_invalid_input err then invalid message else encoding message)
                        (encoder [solution]);
  encoded_solution ← ok_or (head encoded_solutions)
                       (encoding "Route encoding returned no solutions");
  ensure (negb (es_permit_is_some encoded_solution
                || str_contains "Permit2" (es_function_signature encoded_solution)
                || str_contains "permit2" (es_function_signature encoded_solution)))
    (encoding "Permit2 encodings are not supported for route calldata") ;;
  ensure (bool_decide (es_interacting_with encoded_solution = rc_router_address context))
    (encoding "Encoded router address does not match request tychoRouterAddress") ;;
  let is_transfer_from_allowed := negb (rc_is_native_input context) in
  calldata ← encode_route_calldata encoded_solution solution receiver is_transfer_from_allowed;
  let value := if rc_is_native_input context then rc_amount_in context else 0%N in
  Ok {| cp_target := es_interacting_with encoded_solution; cp_value := value;
        cp_calldata := calldata |}.

Definition build_settlement_interactions (token_in : Bytes) (amount_in : N)
    (router_call : CallDataPayload) (reset_approval is_native_input : bool) :
    encodeR (list Interaction) :=
  approvals ←
    (if negb is_native_input then
       reset ← (if reset_approval then
                  reset ← build_erc20_approve_interaction token_in (cp_target router_call) 0;
                  Ok [reset]
                else Ok []);
       set_approval ← build_erc20_approve_interaction token_in (cp_target router_call) amount_in;
       Ok (reset ++ [set_approval])
     else Ok []);
  let router_interaction :=
    {| ia_kind := Call; ia_target := format_address (cp_target router_call);
       ia_value := BigUint_to_string (cp_value router_call);
       ia_calldata := format_calldata (cp_calldata router_call) |} in
  Ok (approvals ++ [router_interaction]).
End swaps.
