(* ===== verification/RouteEncode.v ===== *)
(** * Encoding a route

    [runtime/src/services/encode.rs] and [encode/response.rs]: the whole request, from its
    validation to the interactions, the classification of failures for the logs, and the
    timeout of the service. *)

From S2P Require Import Prelude Ordered Text Protocol Store Recovery Health Readiness.
From S2P Require Import RouteTypes RouteNormalize RouteResimulate RouteCalldata.

Record EncodeComputation := {
  ec_response : RouteEncodeResponse;
  ec_expected_amount_out : string;
  ec_amount_out_delta : string;
  ec_reset_approval : bool;
}.

Section encode.
Context `{RouteEncoder} `{Keccak} (server : RouteServer) (world : nat → RouteWorld).
Context (encoder_factory : Chain → Bytes → encodeR TychoEncoder).

Definition compute_expected_total (resimulated : ResimulatedRouteInternal) : N :=
  foldl (λ expected_total segment, expected_total + rseg_expected_amount_out segment)%N 0%N
    (rroute_segments resimulated).

Definition build_debug (w : RouteWorld) (request : RouteEncodeRequest) : option RouteDebug :=
  request_id ← re_request_id request;
  let block_number := ps_block_number (ss_published (app_native_state_store (rw_app w))) in
  Some {| rd_request_id := Some request_id;
          rd_resimulation := Some {| rd_block_number := Some block_number;
                                     rd_tycho_state_tag := None |} |}.

Definition ensure_native_encode_current (native_is_current : bool) : encodeR unit :=
  ensure native_is_current
    (unavailable "Native state changed while the route was being encoded; retry against the current version").

(** [AppState::encode_availability]: a wait for each backend, from the wait [from] on; the
    waits of backends that are not used are passed over. *)
Definition await_encode_availability (from : nat) (usage : bool * bool * bool) :
    EncodeAvailability :=
  let '(uses_native, uses_vm, uses_rfq) := usage in
  let at_wait k := encode_availability (rw_now (world k)) (rw_app (world k)) in
  match at_wait from uses_native false false with
  | EncodeReady =>
      match at_wait (S from) false uses_vm false with
      | EncodeReady => at_wait (S (S from)) false false uses_rfq
      | availability => availability
      end
  | availability => availability
  end.

(** [if let Some(message) = availability.availability_message()]. *)
Definition require_available (from : nat) (usage : bool * bool * bool) : encodeR unit :=
  match availability_message (await_encode_availability from usage) with
  | Some message => Err (unavailable message)
  | None => Ok tt
  end.

(** The waits before the resimulation: the first check of availability, the pin, the guard,
    and the second check. *)
Definition FIRST_CHECK : nat := 0.
Definition PIN_WAIT : nat := 3.
Definition SECOND_CHECK : nat := 5.
Definition WAITS_BEFORE : nat := 8.

Definition encode_route (request : RouteEncodeRequest) : encodeR EncodeComputation :=
  chain ← validate_chain (re_chain_id request) (rv_chain server);
  validate_swap_kinds request ;;
  token_in ← parse_address (re_token_in request);
  token_out ← parse_address (re_token_out request);
  amount_in ← parse_amount (re_amount_in request);
  min_amount_out ← parse_amount (re_min_amount_out request);
  router_address ← parse_address (re_tycho_router_address request);
  biguint_to_u256_checked amount_in "amountIn" ;;
  biguint_to_u256_checked min_amount_out "minAmountOut" ;;
  let native_address := token_address (chain_native_token chain) in
  let is_native_input := bool_decide (token_in = native_address) in
  normalized ← normalize_route (rv_settings server) request token_in token_out amount_in
                 native_address;
  let '(uses_native, uses_vm, uses_rfq) := route_backend_usage normalized in
  require_available FIRST_CHECK (uses_native, uses_vm, uses_rfq) ;;
  let native_pin :=
    if uses_native then Some (pin (app_native_state_store (rw_app (world PIN_WAIT)))) else None in
  let native_request_generation := ps_request_generation <$> native_pin in
  let rebuild_guard := acquire_simulation_rebuild_guard uses_vm uses_rfq in
  require_available SECOND_CHECK (uses_native, uses_vm, uses_rfq) ;;
  let '(resimulated, resimulator) :=
    resimulate_route_with_native_pin server world native_pin normalized token_in token_out
      (RouteResimulator_new normalized rebuild_guard WAITS_BEFORE) in
  resimulated ← resimulated;
  let expected_total := compute_expected_total resimulated in
  ensure (negb (expected_total <? min_amount_out)%N)
    (simulation "Route expectedAmountOut below minAmountOut") ;;
  let amount_out_delta := BigUint_to_string (expected_total - min_amount_out) in
  encoder ← encoder_factory chain router_address;
  router_call ← build_route_calldata_tx
                  {| rc_request := request; rc_token_in := token_in; rc_token_out := token_out;
                     rc_amount_in := amount_in; rc_router_address := router_address;
                     rc_is_native_input := is_native_input |}
                  resimulated encoder min_amount_out;
  let reset_approval :=
    should_reset_allowance (rv_reset_allowance_tokens server) (re_chain_id request) token_in in
  interactions ← build_settlement_interactions token_in amount_in router_call reset_approval
                   is_native_input;
  let waits := rx_waits resimulator in
  let debug := build_debug (world waits) request in
  match native_request_generation with
  | Some native_request_generation =>
      ensure_native_encode_current
        (native_request_is_current (rw_now (world (S waits))) (rw_app (world (S waits)))
           native_request_generation)
  | None => Ok tt
  end ;;
  Ok {| ec_response := {| rr_interactions := interactions; rr_debug := debug |};
        ec_expected_amount_out := BigUint_to_string expected_total;
        ec_amount_out_delta := amount_out_delta;
        ec_reset_approval := reset_approval |}.

(** ** The service *)

Record EncodeServiceSuccess := {
  es_computation : EncodeComputation;
  es_latency_ms : u64;
}.

Inductive EncodeServiceError :=
| EncodeTimeout (timeout_ms latency_ms : u64)
| EncodeFailed (error : EncodeError) (latency_ms : u64).

(** [EncodeService::encode]: [elapsed] is the time taken, and [in_time] says that the
    computation ended before the timer did. *)
Definition EncodeService_encode (in_time : bool) (elapsed : Duration)
    (request : RouteEncodeRequest) : result EncodeServiceError EncodeServiceSuccess :=
  let request_timeout := rv_request_timeout server in
  let latency_ms := as_millis_u64 elapsed in
  if in_time then
    match encode_route request with
    | Ok computation => Ok {| es_computation := computation; es_latency_ms := latency_ms |}
    | Err error => Err (EncodeFailed error latency_ms)
    end
  else Err (EncodeTimeout (as_millis_u64 request_timeout) latency_ms).
End encode.

(** ** Failures in the logs *)

Inductive EncodeFailureStage :=
| StageValidation
| StageNormalization
| StageReadiness
| StageResimulation
| StageMinAmountOutGuard
| StageEncoding
| StageInteractionBuild
| StageInternal
| StageHandlerTimeout.

Definition EncodeFailureStage_label (stage : EncodeFailureStage) : string :=
  match stage with
  | StageValidation => "validation"
  | StageNormalization => "normalization"
  | StageReadiness => "readiness"
  | StageResimulation => "resimulation"
  | StageMinAmountOutGuard => "min_amount_out_guard"
  | StageEncoding => "encoding"
  | StageInteractionBuild => "interaction_build"
  | StageInternal => "internal"
  | StageHandlerTimeout => "handler_timeout"
  end.

Definition normalization_markers : list string :=
  ["segment["; "segment "; "hop "; "hop["; "sharebps"; "splitbps"; "continuity";
   "native tokenin/tokenout"; "erc4626"].

Definition classify_failure_stage (kind : EncodeErrorKind) (message : string) :
    EncodeFailureStage :=
  let lowered := to_ascii_lowercase message in
  match kind with
  | InvalidRequest =>
      if existsb (λ marker, str_contains marker lowered) normalization_markers
      then StageNormalization else StageValidation
  | Unavailable => StageReadiness
  | NotFound | Simulation =>
      if str_contains "below minamountout" lowered then StageMinAmountOutGuard
      else StageResimulation
  | Encoding =>
      if str_contains "approve" lowered || str_contains "interaction" lowered
      then StageInteractionBuild else StageEncoding
  | Internal =>
      if str_contains "approve" lowered || str_contains "interaction" lowered
      then StageInteractionBuild else StageInternal
  end.

Definition encode_error_kind_label (kind : EncodeErrorKind) : string :=
  match kind with
  | InvalidRequest => "invalid_request"
  | NotFound => "not_found"
  | Unavailable => "unavailable"
  | Simulation => "simulation"
  | Encoding => "encoding"
  | Internal => "internal"
  end.

Definition swap_kind_label (kind : SwapKind) : string :=
  match kind with
  | SimpleSwap => "simple_swap"
  | MultiSwap => "multi_swap"
  | MegaSwap => "mega_swap"
  end.

Definition NATIVE_TOKEN_ADDRESS : string := "0x0000000000000000000000000000000000000000".

(** [eq_ignore_ascii_case]. *)
Definition is_native_address (value : string) : bool :=
  bool_decide (to_ascii_lowercase (str_trim value) = to_ascii_lowercase NATIVE_TOKEN_ADDRESS).

Record EncodeRequestSummary := {
  sum_request_id : option string;
  sum_chain_id : u64;
  sum_swap_kind : string;
  sum_segments : usize;
  sum_hops : usize;
  sum_swaps : usize;
  sum_route_protocols : string;
  sum_route_uses_vm : bool;
  sum_route_uses_rfq : bool;
  sum_token_in : string;
  sum_token_out : string;
  sum_amount_in : string;
  sum_min_amount_out : string;
  sum_is_native_input : bool;
}.

Definition draft_swaps (request : RouteEncodeRequest) : list PoolSwapDraft :=
  flat_map hd_swaps (flat_map sd_hops (re_segments request)).

Definition uses_backend (test : PoolBackend → bool) (swaps : list PoolSwapDraft) : bool :=
  existsb (λ swap, test (PoolBackend_from_protocol_hint (pr_protocol (psd_pool swap)))) swaps.

Definition summarize_request (request : RouteEncodeRequest) : EncodeRequestSummary :=
  let swaps := draft_swaps request in
  let protocols : gset string :=
    list_to_set (map (λ swap, to_ascii_lowercase (str_trim (pr_protocol (psd_pool swap)))) swaps) in
  {| sum_request_id := re_request_id request;
     sum_chain_id := re_chain_id request;
     sum_swap_kind := swap_kind_label (re_swap_kind request);
     sum_segments := N.of_nat (length (re_segments request));
     sum_hops := N.of_nat (length (flat_map sd_hops (re_segments request)));
     sum_swaps := N.of_nat (length swaps);
     sum_route_protocols := str_join "," (sort_by_key id (elements protocols));
     sum_route_uses_vm := uses_backend is_vm swaps;
     sum_route_uses_rfq := uses_backend is_rfq swaps;
     sum_token_in := re_token_in request;
     sum_token_out := re_token_out request;
     sum_amount_in := re_amount_in request;
     sum_min_amount_out := re_min_amount_out request;
     sum_is_native_input := is_native_address (re_token_in request) |}.

Definition response_block_number (response : RouteEncodeResponse) : option u64 :=
  debug ← rr_debug response;
  resimulation ← rd_resimulation debug;
  rd_block_number resimulation.
