(* ===== verification/RouteFacts.v ===== *)
(** * Swaps, errors and the route as a whole

    Where the swaps of a solution come from, which of them take the remainder of their input
    token, which errors a request can be refused with, and what a whole request has done
    when it succeeds. *)

From S2P Require Import Prelude Ordered Text Protocol Recovery Store Health Readiness.
From S2P Require Import SharedAccounts RouteTypes RouteNormalize RouteAllocFacts.
From S2P Require Import RouteResimulate RouteSimFacts RouteCalldata RouteEncode.
From Stdlib Require Import SpecFloat.

(** ** Depths *)

Section depths.
Context `{RouteEncoder}.

Abbreviation depth_of := (@fst nat ResimulatedSwapInternal).
Abbreviation token_of := (λ x : nat * ResimulatedSwapInternal, rs_token_in x.2).

Lemma record_depths_ok l : ∀ depths,
  (∃ depths', fold_result record_depth depths l = Ok depths') ↔
  (∀ x d, x ∈ l → depths !! token_of x = Some d → d = depth_of x) ∧
  (∀ x y, x ∈ l → y ∈ l → token_of x = token_of y → depth_of x = depth_of y).
Proof.
  induction l as [|[d s] l IH]; intros depths; cbn [fold_result].
  { split; [|by eexists]. intros _. split; [by intros x d Hx%elem_of_nil|].
    by intros x y Hx%elem_of_nil. }
  assert ((∃ depths', (record_depth depths (d, s) ≫= λ m, fold_result record_depth m l)
                       = Ok depths') ↔
    ∃ m, record_depth depths (d, s) = Ok m ∧ ∃ depths', fold_result record_depth m l = Ok depths')
    as -> by (setoid_rewrite bind_ok; naive_solver).
  setoid_rewrite IH. unfold record_depth.
  destruct (depths !! rs_token_in s) as [d0|] eqn:Hs.
  - split.
    + intros (m & [Hd%ensure_ok%bool_decide_eq_true [= <-]]%seq_ok & Hold & Hnew). subst d0. split.
      * intros x dx [->|Hx]%elem_of_cons Hm; [simpl in *; congruence|by eapply Hold].
      * intros x y [->|Hx]%elem_of_cons [->|Hy]%elem_of_cons Hxy; simpl in *.
        -- done.
        -- apply (Hold y d Hy). by rewrite <- Hxy.
        -- symmetry. apply (Hold x d Hx). by rewrite Hxy.
        -- by apply Hnew.
    + intros [Hold Hnew]. exists depths. split; [|split].
      * apply seq_ok. split; [|done]. apply ensure_ok, bool_decide_eq_true.
        by apply (Hold (d, s) d0); [left|].
      * intros x dx Hx. apply Hold. by right.
      * intros x y Hx Hy. apply Hnew; by right.
  - split.
    + intros (m & [= <-] & Hold & Hnew).
      assert (Hhead : ∀ y, y ∈ l → rs_token_in s = token_of y → d = depth_of y).
      { intros y Hy Hxy. apply (Hold y d Hy). rewrite <- Hxy. apply lookup_insert_eq. }
      split.
      * intros x dx [->|Hx]%elem_of_cons Hm; [simpl in *; congruence|].
        apply (Hold x dx Hx). rewrite lookup_insert_ne; [done|]. intros Hxy. simpl in *. congruence.
      * intros x y [->|Hx]%elem_of_cons [->|Hy]%elem_of_cons Hxy; simpl in *;
          [done|by apply Hhead|symmetry; by apply Hhead|by apply Hnew].
    + intros [Hold Hnew]. eexists. split; [done|]. split.
      * intros x dx Hx Hm. destruct (decide (rs_token_in s = token_of x)) as [Heq|Hne].
        -- simpl in Heq. rewrite Heq, lookup_insert_eq in Hm. injection Hm as <-.
           by apply (Hnew (d, s) x); [left|right|].
        -- rewrite lookup_insert_ne in Hm by done. by apply (Hold x dx); [right|].
      * intros x y Hx Hy. apply Hnew; by right.
Qed.

(** ** Shares *)

Lemma f64_positive x :
  is_finite x = true → SFleb x f64_zero = false → SFltb f64_zero x = true.
Proof. destruct x as [[]|[]| |[] m e]; done. Qed.

Lemma f64_below_one x :
  is_finite x = true → SFleb f64_one x = false → SFltb x f64_one = true.
Proof.
  destruct x as [[]|[]| |[] m e]; try done. intros _. unfold SFleb, SFltb, f64_one, SFcompare.
  set (p := 4503599627370496%positive). clearbody p.
  rewrite (Z.compare_antisym (-52) e).
  pose proof (Pos.compare_cont_antisym p m Eq) as Hanti. cbn [CompOpp] in Hanti. rewrite <- Hanti.
  destruct (-52 ?= e)%Z; cbn [CompOpp]; try done. by destruct (Pos.compare_cont Eq p m).
Qed.

(** A share is zero for a remainder, and strictly between zero and one otherwise. *)
Lemma split_fraction_ok amount total is_remainder count token split :
  compute_split_fraction amount total is_remainder count token = Ok split →
  if bool_decide (count ≤ 1)%nat || is_remainder then split = f64_zero
  else SFltb f64_zero split = true ∧ SFltb split f64_one = true.
Proof.
  unfold compute_split_fraction. destruct (bool_decide _ || is_remainder); [by intros [= <-]|].
  rewrite !seq_ok. intros (_ & _ & Hrest).
  apply bind_ok in Hrest as (a & _ & Hrest). apply bind_ok in Hrest as (t & _ & Hrest).
  apply seq_ok in Hrest as [Hfinite%ensure_ok [= <-]].
  destruct (SFleb (f64_div a t) f64_zero) eqn:Hzero; [by vm_compute|].
  destruct (SFleb f64_one (f64_div a t)) eqn:Hone; [by vm_compute|].
  split; [by apply f64_positive|by apply f64_below_one].
Qed.

(** What the statistics say of one token. *)
Record stats_of (swaps : list ResimulatedSwapInternal) (token : Bytes) (stats : SplitStats) :
    Prop := {
  st_count : (0 < sp_count stats)%nat;
  st_unique : sp_count stats = 1%nat → ∀ i swap, swaps !! i = Some swap →
    rs_token_in swap = token → i = sp_last_index stats;
  st_last : ∃ swap, swaps !! sp_last_index stats = Some swap ∧ rs_token_in swap = token;
  st_later : ∀ i swap, swaps !! i = Some swap → rs_token_in swap = token →
    (i ≤ sp_last_index stats)%nat;
}.

Lemma split_stats_ok swaps token :
  match split_stats swaps !! token with
  | Some stats => stats_of swaps token stats
  | None => ∀ i swap, swaps !! i = Some swap → rs_token_in swap ≠ token
  end.
Proof.
  unfold split_stats. induction swaps as [|s swaps IH] using rev_ind; [by cbn; rewrite lookup_empty; intros i swap|].
  rewrite imap_app, foldl_app. simpl. rewrite Nat.add_0_r.
  set (stats := foldl count_split ∅ (imap pair swaps)) in *. clearbody stats.
  assert (Hat : ∀ i swap, (swaps ++ [s]) !! i = Some swap →
    swaps !! i = Some swap ∨ i = length swaps ∧ swap = s).
  { intros i swap Hi. apply lookup_app_Some in Hi as [Hi|[Hlen Hi]]; [by left|right].
    apply list_lookup_singleton_Some in Hi as [Hz ->]. split; [lia|done]. }
  assert (Hlast : (swaps ++ [s]) !! length swaps = Some s) by (by apply list_lookup_middle).
  destruct (decide (rs_token_in s = token)) as [<-|Hne].
  - rewrite lookup_insert_eq. constructor; simpl; [lia| |by exists s|].
    + intros Hone i swap Hi Htok. apply Hat in Hi as [Hi|[-> _]]; [|done].
      destruct (stats !! rs_token_in s) as [st|]; simpl in Hone.
      * pose proof (st_count _ _ _ IH). lia.
      * by destruct (IH i swap Hi).
    + intros i swap Hi _. apply Hat in Hi as [Hi%lookup_lt_Some|[-> _]]; lia.
  - rewrite lookup_insert_ne by done. destruct (stats !! token) as [st|].
    + destruct IH as [Hcount Huniq (swap & Hswap & Htok) Hlater].
      constructor; [done| |exists swap; split; [by apply lookup_app_l_Some|done]|].
      * intros Hone i x Hi Hx. apply Hat in Hi as [Hi|[_ ->]]; [by eapply Huniq|done].
      * intros i x Hi Hx. apply Hat in Hi as [Hi|[_ ->]]; [by eapply Hlater|done].
    + intros i swap Hi. apply Hat in Hi as [Hi|[_ ->]]; [by eapply IH|done].
Qed.

(** The same token is spent again later in the route. *)
Definition spent_again (swaps : list ResimulatedSwapInternal) (i : nat) : Prop :=
  ∃ j x y, (i < j)%nat ∧ swaps !! i = Some x ∧ swaps !! j = Some y ∧
    rs_token_in y = rs_token_in x.

(** The swap of a solution, of a swap of the route. *)
Record solution_swap (swaps : list ResimulatedSwapInternal) (i : nat)
    (swap : ResimulatedSwapInternal) (result : Swap) : Prop := {
  ss_component : sw_component result = common_component (rs_component swap);
  ss_token_in : sw_token_in result = rs_token_in swap;
  ss_token_out : sw_token_out result = rs_token_out swap;
  ss_state : sw_protocol_state result = rs_pool_state swap;
  ss_estimate : sw_estimated_amount_in result =
    if is_rfq (rs_backend swap) then Some (rs_amount_in swap) else None;
  ss_remainder : ¬ spent_again swaps i → sw_split result = f64_zero;
  ss_share : spent_again swaps i →
    SFltb f64_zero (sw_split result) = true ∧ SFltb (sw_split result) f64_one = true;
}.

Lemma route_swap_ok swaps i swap result :
  swaps !! i = Some swap → route_swap (split_stats swaps) i swap = Ok result →
  solution_swap swaps i swap result.
Proof.
  intros Hi (stats & Hstats%ok_or_ok & Hrest)%bind_ok.
  apply bind_ok in Hrest as (split & Hsplit%split_fraction_ok & [= <-]).
  pose proof (split_stats_ok swaps (rs_token_in swap)) as Hof. rewrite Hstats in Hof.
  destruct Hof as [Hcount Huniq (l & Hl & Hltok) Hlater].
  assert (Hagain : spent_again swaps i ↔ sp_last_index stats ≠ i).
  { split.
    - intros (j & x & y & Hij & Hx & Hy & Htok). rewrite Hi in Hx. injection Hx as <-.
      specialize (Hlater j y Hy Htok). lia.
    - intros Hne. exists (sp_last_index stats), swap, l.
      split; [specialize (Hlater i swap Hi eq_refl); lia|done]. }
  constructor; simpl; try done; intros Hsp; rewrite Hagain in Hsp.
  - assert (sp_last_index stats = i) as <- by (destruct (decide (sp_last_index stats = i)); tauto).
    rewrite (bool_decide_eq_true_2 (sp_last_index stats = sp_last_index stats)) in Hsplit by done.
    by rewrite !orb_true_r in Hsplit.
  - rewrite (bool_decide_eq_false_2 (sp_last_index stats = i)), orb_false_r in Hsplit by done.
    assert (sp_count stats ≠ 1%nat) as Hc.
    { intros Hone. apply Hsp. symmetry. by eapply Huniq. }
    rewrite (bool_decide_eq_false_2 (sp_count stats = 1%nat)) in Hsplit by done.
    rewrite bool_decide_eq_false_2 in Hsplit by lia. done.
Qed.

Lemma route_swaps_ok route swaps :
  build_route_swaps route = Ok swaps →
  length swaps = length (ordered_swaps route) ∧
  ∀ i swap result, ordered_swaps route !! i = Some swap → swaps !! i = Some result →
    solution_swap (ordered_swaps route) i swap result.
Proof.
  unfold build_route_swaps. intros [_ Hloop]%seq_ok.
  apply (append_imap_ok (λ i swap result,
    route_swap (split_stats (ordered_swaps route)) i swap = Ok result)) in Hloop as [Hlen Hall].
  - split; [done|]. intros i swap result Hi Hr. eapply route_swap_ok; [done|by eapply Hall].
  - intros acc i x ys. rewrite bind_ok. split.
    + intros (y & Hy & [= <-]). by exists y.
    + intros (y & -> & Hy). by exists y.
Qed.
End depths.

(** ** Collecting the hops *)

Section built.
Context `{RouteSim} (server : RouteServer) (world : nat → RouteWorld).
Context (native_pin : option PublishedStateStore) (normalized : NormalizedRouteInternal).

Lemma take_hops_ok {E} (err : E) (hops : list (option ResimulatedHopInternal)) n taken hops' :
  fold_result (λ '(resim_hops, hops) hop_index,
      resim_hop ← ok_or (mjoin (hops !! hop_index)) err;
      Ok (resim_hops ++ [resim_hop], <[hop_index := None]> hops)) ([], hops) (seq 0 n)
    = Ok (taken, hops') →
  length taken = n ∧ (∀ j, (n ≤ j)%nat → hops' !! j = hops !! j) ∧
  ∀ j hop, taken !! j = Some hop → hops !! j = Some (Some hop).
Proof.
  revert taken hops'. induction n as [|n IH]; intros taken hops' Hrun.
  { injection Hrun as <- <-. by split_and!. }
  rewrite seq_S, fold_result_app in Hrun. apply bind_ok in Hrun as ([t1 h1] & Hfirst & Hrun).
  apply IH in Hfirst as (Hlen & Hkept & Htaken). cbn [fold_result] in Hrun.
  apply bind_ok in Hrun as ([t2 h2] & Hstep & [= <- <-]).
  apply bind_ok in Hstep as (hop & Hhop%ok_or_ok & [= <- <-]). simpl in Hhop.
  rewrite length_app. split; [simpl; lia|]. split.
  - intros j Hj. rewrite list_lookup_insert_ne by lia. apply Hkept. lia.
  - intros j x Hj. destruct (decide (j < length t1)%nat) as [Hlt|Hge].
    + rewrite lookup_app_l in Hj by done. by apply Htaken.
    + rewrite lookup_app_r in Hj by lia. apply list_lookup_singleton_Some in Hj as [Hz <-].
      assert (j = n) as -> by lia. rewrite <- Hkept by done.
      destruct (h1 !! n) as [[h|]|]; [|done|done]. by injection Hhop as ->.
Qed.

(** What is taken from the state of a segment. *)
Record taken_from (segment : NormalizedSegmentInternal) (state : SegmentSimState)
    (result : ResimulatedSegmentInternal) : Prop := {
  tf_share : rseg_share_bps result = nseg_share_bps segment;
  tf_amount : rseg_amount_in result = nseg_amount_in segment;
  tf_length : length (rseg_hops result) = length (nseg_hops segment);
  tf_hops : ∀ j hop, rseg_hops result !! j = Some hop → sim_hops state !! j = Some (Some hop);
  tf_last : ∃ hop, last (rseg_hops result) = Some hop ∧
    rseg_expected_amount_out result = rh_expected_amount_out hop;
}.

Lemma take_segment_hops_ok states index segment taken states' :
  take_segment_hops states index (length (nseg_hops segment)) = Ok (taken, states') →
  (∀ i, i ≠ index → states' !! i = states !! i) ∧
  ∃ state, states !! index = Some state ∧ length taken = length (nseg_hops segment) ∧
    ∀ j hop, taken !! j = Some hop → sim_hops state !! j = Some (Some hop).
Proof.
  unfold take_segment_hops. intros (state & Hstate%ok_or_ok & Hrun)%bind_ok.
  apply bind_ok in Hrun as ([t h] & (Hlen & _ & Htaken)%take_hops_ok & [= <- <-]).
  split; [|by exists state]. intros i Hne. by rewrite list_lookup_insert_ne.
Qed.

Lemma build_segments_ok states segments :
  build_resimulated_segments normalized states = Ok segments →
  length segments = length (nr_segments normalized) ∧
  ∀ i result, segments !! i = Some result → ∃ segment state,
    nr_segments normalized !! i = Some segment ∧ states !! i = Some state ∧
    taken_from segment state result.
Proof.
  unfold build_resimulated_segments. intros ([built states'] & Hrun & [= <-])%bind_ok. simpl.
  apply (fold_result_inv _ (λ run x, length x.1 = length run ∧
    (∀ i, (length run ≤ i)%nat → x.2 !! i = states !! i) ∧
    ∀ i result, x.1 !! i = Some result → ∃ segment state,
      nr_segments normalized !! i = Some segment ∧ states !! i = Some state ∧
      taken_from segment state result)) in Hrun.
  - destruct Hrun as (Hlen & _ & Hall). rewrite length_imap in Hlen. done.
  - by split_and!.
  - clear. intros run [index segment] [built st] [built' st'] [rest Hl] (Hlen & Hkept & Hall) Hstep.
    simpl in *. apply (f_equal (.!! length run)) in Hl. rewrite list_lookup_middle in Hl by done.
    apply imap_pair_lookup in Hl as (? & Hseg & [= -> <-]).
    apply bind_ok in Hstep as ([taken st2] & (Hother & state & Hstate & Htl & Ht)%take_segment_hops_ok
      & Hstep).
    apply bind_ok in Hstep as (hop & Hlast%ok_or_ok & [= <- <-]).
    rewrite !length_app. split; [simpl; lia|]. split.
    { intros i Hi. simpl in Hi. rewrite Hother by lia. apply Hkept. lia. }
    intros i result Hi. destruct (decide (i < length built)%nat) as [Hlt|Hge].
    + rewrite lookup_app_l in Hi by done. by apply Hall.
    + rewrite lookup_app_r in Hi by lia. apply list_lookup_singleton_Some in Hi as [Hz <-].
      assert (i = length run) as -> by lia. exists segment, state.
      split; [done|]. split; [rewrite <- Hkept by lia; done|].
      constructor; simpl; try done. by exists hop.
Qed.

(** ** Segments and their order *)

(** A resimulated segment, of the segment it comes from. *)
Definition segment_run (segment : NormalizedSegmentInternal)
    (result : ResimulatedSegmentInternal) : Prop :=
  rseg_share_bps result = nseg_share_bps segment ∧
  rseg_amount_in result = nseg_amount_in segment ∧
  rseg_hops result ≠ [] ∧ length (rseg_hops result) = length (nseg_hops segment) ∧
  hops_linked (rseg_amount_in result) (nseg_hops segment) (rseg_hops result)
    (rseg_expected_amount_out result).

Lemma hops_linked_last drafts : ∀ amount hops next hop,
  hops_linked amount drafts hops next → last hops = Some hop → next = rh_expected_amount_out hop.
Proof.
  induction drafts as [|d drafts IH]; intros amount [|h hops] next hop Hl Hlast; simpl in *;
    try done.
  destruct Hl as [_ Hl]. destruct hops as [|h' hops].
  - injection Hlast as <-. done.
  - by eapply IH.
Qed.

Lemma progress_done depth segment state result :
  progress depth segment state → (length (nseg_hops segment) ≤ depth)%nat →
  taken_from segment state result →
  sim_hops state = map Some (rseg_hops result) ∧ segment_run segment result.
Proof.
  intros (hops & Hlen & Hsim & Hlink) Hdepth [Hshare Ham Hl Hhops (hop & Hlast & Hexp)].
  rewrite Nat.min_r in Hlen by done. rewrite Hlen, Nat.sub_diag, app_nil_r in Hsim.
  assert (rseg_hops result = hops) as Heq.
  { apply list_eq_same_length with (length hops); [done|lia|].
    intros j x y _ Hx Hy. apply Hhops in Hx. rewrite Hsim, list_lookup_fmap, Hy in Hx.
    by injection Hx. }
  subst hops. split; [done|]. split; [done|]. split; [done|].
  split; [by intros Hnil; rewrite Hnil in Hlast|]. split; [done|].
  rewrite Ham, Hexp. by rewrite <- (hops_linked_last _ _ _ _ _ Hlink Hlast).
Qed.

Lemma flat_map_lookup {A B} (f : A → list B) l :
  flat_map f l
  = flat_map (λ i, match l !! i with Some x => f x | None => [] end) (seq 0 (length l)).
Proof.
  induction l as [|x l IH] using rev_ind; [done|].
  rewrite flat_map_app, length_app. simpl. rewrite Nat.add_comm, flat_map_seq_S.
  rewrite list_lookup_middle by done. f_equal; [|by rewrite app_nil_r].
  rewrite IH. apply flat_map_ext_in. intros i Hi%elem_of_seq. by rewrite lookup_app_l by lia.
Qed.

Lemma foldr_max_ge (l : list nat) x : x ∈ l → (x ≤ foldr Nat.max 0 l)%nat.
Proof. induction 1 as [|y z l _ IH]; simpl; lia. Qed.

Lemma max_hop_depth_ge segment i :
  nr_segments normalized !! i = Some segment →
  (length (nseg_hops segment) ≤ max_hop_depth normalized)%nat.
Proof.
  intros Hi. apply foldr_max_ge. apply list_elem_of_In, in_map_iff. exists segment.
  split; [done|]. apply list_elem_of_In. by eapply list_elem_of_lookup_2.
Qed.

(** The swaps, in the order in which they were simulated, are those of [build_route_swaps]. *)
Lemma simulated_in_order depth states segments :
  depth = max_hop_depth normalized → length states = length (nr_segments normalized) →
  length segments = length (nr_segments normalized) →
  (∀ i result, segments !! i = Some result → ∃ segment state,
     nr_segments normalized !! i = Some segment ∧ states !! i = Some state ∧
     length (rseg_hops result) = length (nseg_hops segment) ∧
     sim_hops state = map Some (rseg_hops result)) →
  swaps_before states depth 0 = ordered_swaps {| rroute_segments := segments |}.
Proof.
  intros -> Hstates Hlen Hall. unfold swaps_before, ordered_swaps. simpl. rewrite app_nil_r.
  assert (max_hop_depth normalized
    = foldr Nat.max 0%nat (map (λ segment, length (rseg_hops segment)) segments)) as ->.
  { unfold max_hop_depth. f_equal. symmetry.
    apply list_eq_same_length with (length segments); [by rewrite length_map|
      by rewrite !length_map|].
    intros i x y _ Hx Hy. rewrite list_lookup_fmap in Hx; rewrite list_lookup_fmap in Hy.
    destruct (segments !! i) as [result|] eqn:Hi; [|done]. injection Hx as <-.
    destruct (Hall i result Hi) as (segment & state & Hseg & _ & Hl & _).
    rewrite Hseg in Hy. injection Hy as <-. done. }
  apply flat_map_ext_in. intros d _. rewrite (flat_map_lookup _ segments), Hstates, Hlen.
  apply flat_map_ext_in. intros i Hi%elem_of_seq. unfold swaps_at.
  destruct (lookup_lt_is_Some_2 segments i) as [result Hres]; [lia|].
  destruct (Hall i result Hres) as (segment & state & Hseg & Hstate & _ & Hsim).
  rewrite Hres, Hstate. simpl. rewrite Hsim, list_lookup_fmap.
  by destruct (rseg_hops result !! d).
Qed.

(** ** A successful resimulation *)

Lemma resimulated guard waits token_in token_out route r' :
  resimulate_route_with_native_pin server world native_pin normalized token_in token_out
    (RouteResimulator_new normalized guard waits) = (Ok route, r') →
  Forall2 segment_run (nr_segments normalized) (rroute_segments route) ∧
  ∃ known, replays server world native_pin (rx_token_cache r') ∅ (ordered_swaps route) known.
Proof.
  unfold resimulate_route_with_native_pin. intros Hrun.
  apply stateR_bind_ok in Hrun as (u & r1 & Hloop & Hrun).
  apply resimulation_loop in Hloop as [Hpr Hlen [known Hran]].
  apply lift_seq_ok in Hrun as [_ [_ Hrun]%lift_seq_ok]. rewrite gets_bind in Hrun.
  apply lift_bind_ok in Hrun as (segments & (Hl & Hall)%build_segments_ok & [= <- <-]).
  assert (Hdone : ∀ i result, segments !! i = Some result → ∃ segment state,
    nr_segments normalized !! i = Some segment ∧ rx_segment_states r1 !! i = Some state ∧
    sim_hops state = map Some (rseg_hops result) ∧ segment_run segment result).
  { intros i result Hi. destruct (Hall i result Hi) as (segment & state & Hseg & Hst & Htaken).
    destruct (Hpr i segment Hseg) as (state' & Hst' & Hprog). rewrite Hst in Hst'.
    injection Hst' as <-. rewrite bool_decide_eq_false_2 in Hprog by lia.
    exists segment, state. split; [done|]. split; [done|].
    eapply progress_done; [exact Hprog|by eapply max_hop_depth_ge|done]. }
  split.
  - apply Forall2_same_length_lookup_2; [done|]. simpl. intros i segment result Hseg Hres.
    destruct (Hdone i result Hres) as (segment' & state & Hseg' & _ & _ & Hrunseg). congruence.
  - exists known. rewrite <- (simulated_in_order (max_hop_depth normalized) (rx_segment_states r1));
      [apply (ran_replays _ _ _ _ _ _ Hran)|done|done|done|].
    intros i result Hi. destruct (Hdone i result Hi) as (segment & state & Hseg & Hst & Hsim & Hr).
    exists segment, state. split_and!; [done|done|apply Hr|done].
Qed.
End built.
