(* ===== verification/RouteProps.v ===== *)
(** * What encoding a route promises

    The properties of allocation, normalisation, resimulation and encoding, with the
    inversion of a whole request they are drawn from. *)

From S2P Require Import Prelude Ordered Text Protocol Recovery Store Health Readiness.
From S2P Require Import Requests SharedAccounts RouteTypes RouteNormalize RouteAllocFacts.
From S2P Require Import RouteResimulate RouteSimFacts RouteCalldata RouteEncode RouteFacts.
From Stdlib Require Import SpecFloat.

(** ** Errors of one kind *)

Definition fails_with {A} (kind : EncodeErrorKind) (r : encodeR A) : Prop :=
  ∀ e, r = Err e → ee_kind e = kind.

Section fails.
Context (kind : EncodeErrorKind).

Lemma fails_ok {A} (a : A) : fails_with kind (Ok a).
Proof. done. Qed.
Lemma fails_err {A} e : ee_kind e = kind → fails_with kind (Err e : encodeR A).
Proof. by intros He ? [= <-]. Qed.
Lemma fails_bind {A B} (r : encodeR A) (k : A → encodeR B) :
  fails_with kind r → (∀ a, r = Ok a → fails_with kind (k a)) → fails_with kind (r ≫= k).
Proof. intros Hr Hk e [He|(a & Ha & He)]%bind_err; [by apply Hr|by apply (Hk a)]. Qed.
Lemma fails_ensure b e : ee_kind e = kind → fails_with kind (ensure b e).
Proof. destruct b; [done|]. by intros He ? [= <-]. Qed.
Lemma fails_for_each {A} (f : A → encodeR unit) l :
  (∀ x, fails_with kind (f x)) → fails_with kind (for_each f l).
Proof.
  intros Hf. induction l as [|x l IH]; simpl; [done|]. apply fails_bind; [apply Hf|done].
Qed.
Lemma fails_try_map {A B} (f : A → encodeR B) l :
  (∀ x, fails_with kind (f x)) → fails_with kind (try_map f l).
Proof.
  intros Hf. induction l as [|x l IH]; simpl; [done|]. apply fails_bind; [apply Hf|].
  intros y _. by apply fails_bind.
Qed.
Lemma fails_fold {A S} (f : S → A → encodeR S) l s :
  (∀ s x, x ∈ l → fails_with kind (f s x)) → fails_with kind (fold_result f s l).
Proof.
  revert s. induction l as [|x l IH]; intros s Hf; simpl; [done|].
  apply fails_bind; [apply Hf; left|]. intros s' _. apply IH. intros s1 y Hy. apply Hf. by right.
Qed.
Lemma fails_map_err {E A} (f : E → EncodeError) (r : result E A) :
  (∀ e, ee_kind (f e) = kind) → fails_with kind (map_err f r).
Proof. intros Hf e. destruct r; [done|]. by intros [= <-]. Qed.
Lemma fails_ok_or {A} (o : option A) e : ee_kind e = kind → fails_with kind (ok_or o e).
Proof. destruct o; [done|]. by intros He ? [= <-]. Qed.
End fails.

Create HintDb fails.
#[export] Hint Resolve fails_ok_or : fails.
#[export] Hint Resolve fails_ok fails_err fails_ensure fails_for_each fails_try_map fails_map_err : fails.

Ltac solve_fails :=
  repeat first [ apply fails_bind; [|intros ? _] | case_match | solve [eauto with fails] ].

Section requests.
Context `{RouteApi} (settings : RouteSettings) (native_address : Bytes).

Lemma parse_address_fails value : fails_with InvalidRequest (parse_address value).
Proof. unfold parse_address. solve_fails. Qed.

Lemma allocate_fails total shares label field_name :
  fails_with InvalidRequest (allocate_amounts_by_bps total shares label field_name).
Proof.
  unfold allocate_amounts_by_bps. solve_fails. apply fails_fold. intros turn [i share] _.
  unfold allocate_step. solve_fails.
Qed.

#[local] Hint Resolve parse_address_fails allocate_fails : fails.

Lemma windows_fails hops : fails_with InvalidRequest (validate_windows hops).
Proof.
  induction hops as [|hop [|hop' hops] IH]; [done|done|].
  change (validate_windows (hop :: hop' :: hops)) with
    (prev_out ← parse_address (hd_token_out hop);
     next_in ← parse_address (hd_token_in hop');
     ensure (bool_decide (prev_out = next_in))
       (invalid "hop token continuity mismatch within segment") ;;
     validate_windows (hop' :: hops)).
  revert IH. generalize (validate_windows (hop' :: hops)). intros rest Hrest. solve_fails.
Qed.

Lemma normalize_hop_fails hop :
  fails_with InvalidRequest (normalize_hop settings hop native_address).
Proof.
  unfold normalize_hop. solve_fails. apply fails_try_map. intros swap.
  unfold normalize_swap, validate_erc4626_swap_supported. solve_fails.
Qed.
End requests.

(** ** The interactions of a settlement *)

Section settlement.
Context `{RouteEncoder} `{Keccak}.

(** An approval of [amount] for the router. *)
Record approval (token spender : Bytes) (amount : N) (i : Interaction) : Prop := {
  ap_kind : ia_kind i = Erc20Approve;
  ap_target : ia_target i = format_address token;
  ap_value : ia_value i = "0";
  ap_calldata : ∃ address word, bytes_to_address spender = Ok address ∧
    biguint_to_u256_checked amount "approve amount" = Ok word ∧
    ia_calldata i = format_calldata (String.substring 0 4 (digest_bytes "approve(address,uint256)")
                                       +:+ abi_encode_approve address word);
}.

Lemma approve_ok token spender amount i :
  build_erc20_approve_interaction token spender amount = Ok i → approval token spender amount i.
Proof.
  unfold build_erc20_approve_interaction, encode_erc20_approve_calldata.
  intros (calldata & Hcall & [= <-])%bind_ok.
  apply bind_ok in Hcall as (address & Haddress & Hcall).
  apply bind_ok in Hcall as (word & Hword & Hcall).
  apply bind_ok in Hcall as (selector & Hselector & [= <-]).
  unfold function_selector in Hselector. apply seq_ok in Hselector as [_ [= <-]].
  constructor; try done. exists address, word.
  destruct (bytes_to_address spender) as [a|]; [|done]. by injection Haddress as ->.
Qed.

(** What a settlement runs: approvals of the input token, then the router. *)
Definition settlement (token_in : Bytes) (amount_in : N) (router_call : CallDataPayload)
    (reset_approval is_native_input : bool) (interactions : list Interaction) : Prop :=
  ∃ approvals call, interactions = approvals ++ [call] ∧
    ia_kind call = Call ∧ ia_target call = format_address (cp_target router_call) ∧
    ia_value call = BigUint_to_string (cp_value router_call) ∧
    ia_calldata call = format_calldata (cp_calldata router_call) ∧
    Forall2 (approval token_in (cp_target router_call))
      (if is_native_input then [] else if reset_approval then [0%N; amount_in] else [amount_in])
      approvals.

Lemma settlement_ok token_in amount_in router_call reset_approval is_native_input interactions :
  build_settlement_interactions token_in amount_in router_call reset_approval is_native_input
    = Ok interactions →
  settlement token_in amount_in router_call reset_approval is_native_input interactions.
Proof.
  unfold build_settlement_interactions. intros (approvals & Hap & [= <-])%bind_ok.
  exists approvals. eexists. split; [reflexivity|]. do 4 (split; [done|]).
  destruct is_native_input; simpl in *; [injection Hap as <-; constructor|].
  apply bind_ok in Hap as (reset & Hreset & Hap).
  apply bind_ok in Hap as (set & Hset%approve_ok & [= <-]). destruct reset_approval.
  - apply bind_ok in Hreset as (r & Hr%approve_ok & [= <-]). constructor; [exact Hr|constructor; [exact Hset|constructor]].
  - injection Hreset as <-. constructor; [exact Hset|constructor].
Qed.
End settlement.

(** ** The router call *)

Section router_call.
Context `{RouteEncoder} `{Keccak}.

(** The solution a request is encoded as. *)
Record solution_of (context : RouteContext) (route : ResimulatedRouteInternal)
    (min_amount_out : N) (solution : Solution) : Prop := {
  sn_sender : parse_address (re_settlement_address (rc_request context)) = Ok (so_sender solution);
  sn_receiver : so_receiver solution = so_sender solution;
  sn_given : so_given_token solution = rc_token_in context ∧
    so_given_amount solution = rc_amount_in context;
  sn_checked : so_checked_token solution = rc_token_out context ∧
    so_checked_amount solution = min_amount_out;
  sn_exact_out : so_exact_out solution = false;
  sn_swaps : build_route_swaps route = Ok (so_swaps solution);
}.

(** A call of the request's router, without permits, that carries the input only where it is
    the native token. *)
Record router_call_of (context : RouteContext) (solution : Solution) (encoder : TychoEncoder)
    (call : CallDataPayload) : Prop := {
  rl_target : cp_target call = rc_router_address context;
  rl_value : cp_value call = if rc_is_native_input context then rc_amount_in context else 0%N;
  rl_calldata : ∃ encoded rest, encoder [solution] = Ok (encoded :: rest) ∧
    es_permit_is_some encoded = false ∧
    encode_route_calldata encoded solution (so_receiver solution)
      (negb (rc_is_native_input context)) = Ok (cp_calldata call);
}.

Lemma router_call_ok context route encoder min_amount_out call :
  build_route_calldata_tx context route encoder min_amount_out = Ok call →
  ∃ solution, solution_of context route min_amount_out solution ∧
    router_call_of context solution encoder call.
Proof.
  unfold build_route_calldata_tx. intros (swaps & Hswaps & Hrun)%bind_ok.
  apply bind_ok in Hrun as (sender & Hsender & Hrun).
  match type of Hrun with context[encoder [?s]] => set (solution := s) in * end.
  apply bind_ok in Hrun as (encodeds & Hencoded & Hrun).
  apply bind_ok in Hrun as (encoded & Hhead%ok_or_ok & Hrun).
  apply seq_ok in Hrun as [Hpermit%ensure_ok%negb_true_iff Hrun].
  apply seq_ok in Hrun as [Htarget%ensure_ok%bool_decide_eq_true Hrun].
  apply bind_ok in Hrun as (calldata & Hcall & [= <-]).
  exists solution. split; [by constructor|]. constructor; simpl; [done|done|].
  destruct encodeds as [|e rest]; [done|]. injection Hhead as ->.
  apply orb_false_iff in Hpermit as [Hpermit _]. apply orb_false_iff in Hpermit as [Hpermit _].
  exists encoded, rest. split; [|done].
  destruct (encoder [solution]) as [es|]; [|done]. by injection Hencoded as ->.
Qed.
End router_call.

(** ** A whole request *)

Section encoded.
Context `{RouteEncoder} `{Keccak} (server : RouteServer) (world : nat → RouteWorld).
Context (encoder_factory : Chain → Bytes → encodeR TychoEncoder).

Abbreviation usage_of normalized := (route_backend_usage normalized).
Abbreviation native_of := (native_address server).

(** The state a route pins, when it uses a native pool. *)
Definition pinned (normalized : NormalizedRouteInternal) : option PublishedStateStore :=
  if (usage_of normalized).1.1
  then Some (pin (app_native_state_store (rw_app (world PIN_WAIT)))) else None.

Definition initial_simulator (normalized : NormalizedRouteInternal) : RouteResimulator :=
  RouteResimulator_new normalized
    (acquire_simulation_rebuild_guard (usage_of normalized).1.2 (usage_of normalized).2)
    WAITS_BEFORE.

(** The intermediate results of a request that succeeds. *)
Record EncodedRoute := {
  er_token_in : Bytes;
  er_token_out : Bytes;
  er_amount_in : N;
  er_min_amount_out : N;
  er_router : Bytes;
  er_normalized : NormalizedRouteInternal;
  er_resimulated : ResimulatedRouteInternal;
  er_resimulator : RouteResimulator;
  er_encoder : TychoEncoder;
  er_router_call : CallDataPayload;
}.

Record encodes (request : RouteEncodeRequest) (x : EncodedRoute) (c : EncodeComputation) :
    Prop := {
  en_chain : Chain_id (rv_chain server) = re_chain_id request;
  en_token_in : parse_address (re_token_in request) = Ok (er_token_in x);
  en_token_out : parse_address (re_token_out request) = Ok (er_token_out x);
  en_amount_in : parse_amount (re_amount_in request) = Ok (er_amount_in x);
  en_min_amount_out : parse_amount (re_min_amount_out request) = Ok (er_min_amount_out x);
  en_router : parse_address (re_tycho_router_address request) = Ok (er_router x);
  en_words : is_ok (biguint_to_u256_checked (er_amount_in x) "amountIn") = true ∧
    is_ok (biguint_to_u256_checked (er_min_amount_out x) "minAmountOut") = true;
  en_normalized : normalize_route (rv_settings server) request (er_token_in x) (er_token_out x)
    (er_amount_in x) native_of = Ok (er_normalized x);
  en_available : require_available world FIRST_CHECK (usage_of (er_normalized x)) = Ok tt ∧
    require_available world SECOND_CHECK (usage_of (er_normalized x)) = Ok tt;
  en_resimulated : resimulate_route_with_native_pin server world (pinned (er_normalized x))
    (er_normalized x) (er_token_in x) (er_token_out x) (initial_simulator (er_normalized x))
    = (Ok (er_resimulated x), er_resimulator x);
  en_minimum : (er_min_amount_out x ≤ compute_expected_total (er_resimulated x))%N;
  en_encoder : encoder_factory (rv_chain server) (er_router x) = Ok (er_encoder x);
  en_router_call : build_route_calldata_tx
    {| rc_request := request; rc_token_in := er_token_in x; rc_token_out := er_token_out x;
       rc_amount_in := er_amount_in x; rc_router_address := er_router x;
       rc_is_native_input := bool_decide (er_token_in x = native_of) |}
    (er_resimulated x) (er_encoder x) (er_min_amount_out x) = Ok (er_router_call x);
  en_interactions : build_settlement_interactions (er_token_in x) (er_amount_in x)
    (er_router_call x) (ec_reset_approval c) (bool_decide (er_token_in x = native_of))
    = Ok (rr_interactions (ec_response c));
  en_reset : ec_reset_approval c =
    should_reset_allowance (rv_reset_allowance_tokens server) (re_chain_id request)
      (er_token_in x);
  en_expected : ec_expected_amount_out c
    = BigUint_to_string (compute_expected_total (er_resimulated x));
  en_delta : ec_amount_out_delta c
    = BigUint_to_string (compute_expected_total (er_resimulated x) - er_min_amount_out x);
  en_current : ∀ pin, pinned (er_normalized x) = Some pin →
    let w := world (S (rx_waits (er_resimulator x))) in
    native_request_is_current (rw_now w) (rw_app w) (ps_request_generation pin) = true;
}.

Lemma encode_route_ok request c :
  encode_route server world encoder_factory request = Ok c → ∃ x, encodes request x c.
Proof.
  unfold encode_route. intros (chain & Hchain & Hrun)%bind_ok.
  apply seq_ok in Hchain as [Hchain%ensure_ok%N.eqb_eq [= <-]]. apply seq_ok in Hrun as [_ Hrun].
  apply bind_ok in Hrun as (token_in & Hin & Hrun).
  apply bind_ok in Hrun as (token_out & Hout & Hrun).
  apply bind_ok in Hrun as (amount & Hamount & Hrun).
  apply bind_ok in Hrun as (min & Hmin & Hrun).
  apply bind_ok in Hrun as (router & Hrouter & Hrun).
  apply bind_ok in Hrun as (word1 & Hword1 & Hrun).
  apply bind_ok in Hrun as (word2 & Hword2 & Hrun).
  apply bind_ok in Hrun as (normalized & Hnorm & Hrun).
  destruct (usage_of normalized) as [[native vm] rfq] eqn:Husage.
  apply seq_ok in Hrun as [Hready0 Hrun]. apply seq_ok in Hrun as [Hready3 Hrun].
  destruct (resimulate_route_with_native_pin _ _ _ _ _ _ _) as [[resimulated|] simulator] eqn:Hresim;
    [|done]. rewrite ok_bind in Hrun.
  apply seq_ok in Hrun as [Hleast%ensure_ok%negb_true_iff%N.ltb_ge Hrun].
  apply bind_ok in Hrun as (encoder & Hencoder & Hrun).
  apply bind_ok in Hrun as (call & Hcall & Hrun).
  apply bind_ok in Hrun as (interactions & Hints & Hrun).
  apply seq_ok in Hrun as [Hcurrent [= <-]].
  exists {| er_token_in := token_in; er_token_out := token_out; er_amount_in := amount;
            er_min_amount_out := min; er_router := router; er_normalized := normalized;
            er_resimulated := resimulated; er_resimulator := simulator; er_encoder := encoder;
            er_router_call := call |}.
  constructor; simpl; try done.
  - by rewrite Hword1, Hword2.
  - by rewrite Husage.
  - unfold pinned, initial_simulator. rewrite Husage. exact Hresim.
  - intros pin Hpin. unfold pinned in Hpin. rewrite Husage in Hpin. simpl in Hpin.
    rewrite Hpin in Hcurrent. simpl in Hcurrent. by apply ensure_ok in Hcurrent.
Qed.

Lemma expected_total_sum route :
  compute_expected_total route = N_sum (map rseg_expected_amount_out (rroute_segments route)).
Proof.
  unfold compute_expected_total.
  enough (Hgen : ∀ n l, foldl (λ total segment, total + rseg_expected_amount_out segment)%N n l
    = (n + N_sum (map rseg_expected_amount_out l))%N) by (by rewrite Hgen).
  intros n l. revert n. induction l as [|s l IH]; intros n; simpl; [lia|].
  rewrite IH. unfold N_sum. simpl. lia.
Qed.

Lemma segments_amounts normalized segments :
  Forall2 segment_run normalized segments →
  map rseg_amount_in segments = map nseg_amount_in normalized.
Proof. induction 1 as [|d s ds ss (_ & Ha & _) _ IH]; simpl; [done|]. by rewrite Ha, IH. Qed.
End encoded.

(** ** Properties of the parts *)

(** An amount is divided exactly when its shares are positive numbers of basis points, at
    most ten thousand in sum, followed by a zero, and no part comes out empty; the parts then
    add up to the amount, the last one taking what rounding leaves. *)
Theorem allocation_spends_all total shares label field_name amounts :
  allocate_amounts_by_bps total shares label field_name = Ok amounts ↔
  allocation_of total shares amounts ∧ N_sum amounts = total.
Proof.
  rewrite allocate_spec. split; [|by intros []]. intros Hal. split; [done|].
  by eapply allocation_sum.
Qed.

(** C37: normalisation accepts exactly the requests whose segments are chains of hops from the
    input token to the output token, over swaps between the tokens of their hop, with native
    tokens and vaults only where the server supports them; the segments share out the whole
    amount. *)
Theorem normalized_route_is_chain `{RouteApi} settings native_address request token_in token_out
    total route :
  normalize_route settings request token_in token_out total native_address = Ok route ↔
  (0 < total)%N ∧ N_sum (map nseg_amount_in (nr_segments route)) = total ∧
  allocation_of total (map sd_share_bps (re_segments request))
    (map nseg_amount_in (nr_segments route)) ∧
  Forall2 (segment_of settings native_address token_in token_out)
    (re_segments request) (nr_segments route).
Proof.
  rewrite normalize_route_ok. split; [|naive_solver]. intros (Hpos & Hal & Hall).
  split_and!; [done|by eapply allocation_sum|done|done].
Qed.

(** A route that normalisation refuses is the fault of its request: the lookups that would
    be internal errors always succeed. *)
Theorem bad_route_is_invalid_request `{RouteApi} settings native_address request token_in token_out
    total e :
  normalize_route settings request token_in token_out total native_address = Err e →
  ee_kind e = InvalidRequest.
Proof.
  enough (fails_with InvalidRequest
    (normalize_route settings request token_in token_out total native_address)) by auto.
  unfold normalize_route. apply fails_bind; [by apply fails_ensure|]. intros _ _.
  apply fails_bind; [by apply fails_ensure|]. intros _ _.
  apply fails_bind; [apply allocate_fails|]. intros amounts Hal%allocate_spec%allocation_length.
  rewrite length_map in Hal. apply fails_bind; [|done].
  apply fails_fold. intros acc [i segment] Hi.
  apply list_elem_of_lookup in Hi as (j & (? & Hseg & [= -> <-])%imap_pair_lookup).
  destruct (lookup_lt_is_Some_2 amounts j) as [amount Hamount].
  { rewrite Hal. by eapply lookup_lt_Some. }
  unfold normalize_segment. apply fails_bind; [unfold validate_segment_shape; solve_fails|]. intros _ _.
  apply fails_bind.
  { unfold validate_hop_continuity.
    repeat first [ apply fails_bind; [|intros ? _]
                 | solve [eauto using windows_fails, parse_address_fails with fails] ]. }
  intros _ _. apply fails_bind; [apply fails_try_map; intros hop; apply normalize_hop_fails|].
  intros hops _. rewrite Hamount. apply fails_bind; [done|]. intros ? _.
  by apply fails_bind; [apply fails_ensure|].
Qed.

(** A route is encoded only if it spends each token at one hop depth, as the router's
    remainders need, and for that reason no route is refused that does. *)
Theorem token_spent_at_one_depth `{RouteEncoder} route :
  ensure_token_in_single_depth route = Ok tt ↔
  ∀ x y, x ∈ swap_depths route → y ∈ swap_depths route →
    rs_token_in x.2 = rs_token_in y.2 → x.1 = y.1.
Proof.
  unfold ensure_token_in_single_depth.
  assert ((fold_result record_depth ∅ (swap_depths route) ;; Ok tt) = Ok tt ↔
    ∃ depths, fold_result record_depth ∅ (swap_depths route) = Ok depths) as ->.
  { rewrite bind_ok. naive_solver. }
  rewrite record_depths_ok. split; [by intros []|]. intros Hall. split; [|done].
  intros x d _ Hd. by rewrite lookup_empty in Hd.
Qed.

Section resimulation.
Context `{RouteEncoder} (server : RouteServer) (world : nat → RouteWorld).
Context (native_pin : option PublishedStateStore) (normalized : NormalizedRouteInternal).

Abbreviation resimulation guard waits token_in token_out :=
  (resimulate_route_with_native_pin server world native_pin normalized token_in token_out
     (RouteResimulator_new normalized guard waits)).

(** The amounts of a hop: what its swaps spend and produce is what the hop does. *)
Definition hop_balanced (hop : ResimulatedHopInternal) : Prop :=
  N_sum (map rs_amount_in (rh_swaps hop)) = rh_amount_in hop ∧
  N_sum (map rs_expected_amount_out (rh_swaps hop)) = rh_expected_amount_out hop ∧
  Forall (λ swap, 0 < rs_amount_in swap ∧ 0 < rs_expected_amount_out swap)%N (rh_swaps hop).

Lemma hop_run_balanced draft amount hop : hop_run draft amount hop → hop_balanced hop.
Proof.
  intros [_ _ Ham Hpos Hal _ Hexp Hexps]. split; [rewrite Ham; by eapply allocation_sum|].
  split; [done|]. apply Forall_forall. intros swap Hswap.
  rewrite Forall_forall in Hexps. split; [|by apply Hexps].
  apply (allocation_pos _ _ _ Hpos) in Hal. rewrite Forall_forall in Hal.
  apply Hal, list_elem_of_In, in_map, list_elem_of_In, Hswap.
Qed.

Lemma hops_linked_balanced drafts : ∀ amount hops next,
  hops_linked amount drafts hops next → Forall hop_balanced hops.
Proof.
  induction drafts as [|d drafts IH]; intros amount [|h hops] next Hl; simpl in *; try done.
  destruct Hl as [Hh Hl]. constructor; [by eapply hop_run_balanced|by eapply IH].
Qed.

Lemma segments_balanced drafts segments :
  Forall2 segment_run drafts segments → Forall hop_balanced (flat_map rseg_hops segments).
Proof.
  induction 1 as [|draft segment drafts segments (_ & _ & _ & _ & Hl) _ IH]; simpl; [done|].
  apply Forall_app. split; [by eapply hops_linked_balanced|done].
Qed.

(** C33: in a route simulated again every segment spends its share, every hop divides exactly
    what the hop before it produced, all its swaps spend and produce something, and a segment
    is expected to yield what its last hop does; pools, tokens and shares are those of the
    route that was asked for.  This holds whatever happens to the server meanwhile. *)
Theorem resimulated_amounts_flow guard waits token_in token_out route r' :
  resimulation guard waits token_in token_out = (Ok route, r') →
  Forall2 segment_run (nr_segments normalized) (rroute_segments route) ∧
  Forall hop_balanced (flat_map rseg_hops (rroute_segments route)).
Proof.
  intros [Hsegs _]%resimulated. split; [done|]. by eapply segments_balanced.
Qed.

(** C32: the swaps of the solution are those simulated, in the order in which they were: each
    pool was run from the state its previous swap in that order left, or from the published
    state at its first, and yielded the amount recorded; of the swaps that spend one token,
    exactly the last takes the remainder. *)
Theorem solution_executes_as_simulated guard waits token_in token_out route r' swaps :
  resimulation guard waits token_in token_out = (Ok route, r') →
  build_route_swaps route = Ok swaps →
  (∃ known, replays server world native_pin (rx_token_cache r') ∅ (ordered_swaps route) known) ∧
  length swaps = length (ordered_swaps route) ∧
  ∀ i swap result, ordered_swaps route !! i = Some swap → swaps !! i = Some result →
    solution_swap (ordered_swaps route) i swap result.
Proof. intros [_ Hreplays]%resimulated Hswaps%route_swaps_ok. by split. Qed.

(** An RFQ pool the route's hints missed costs the lock against VM rebuilds: the simulator
    takes the lock of RFQ rebuilds in place of the one it held, and a VM pool it has cached is
    then simulated without any. *)
Theorem rebuild_guard_forgets_vm r u r' pool_id entry allocated token_in token_out :
  rx_rebuild_guard r = acquire_simulation_rebuild_guard true false →
  extend_rebuild_guard world (Some (false, true)) r = (Ok u, r') →
  rx_pool_cache r !! pool_id = Some entry → ce_backend entry = PoolVm →
  load_pool_entry server world native_pin pool_id r' = (Ok entry, r') ∧
  ∃ guard,
    sr_rebuild_guard (swap_request allocated entry token_in token_out (rx_rebuild_guard r'))
      = Some guard ∧
    vm_read_guard guard = false.
Proof.
  intros Hguard Hrun Hentry Hvm. unfold extend_rebuild_guard in Hrun.
  rewrite gets_bind, Hguard in Hrun. simpl in Hrun. injection Hrun as _ <-. split.
  - unfold load_pool_entry. rewrite gets_bind. simpl. by rewrite Hentry.
  - eexists. simpl. rewrite Hvm. by split.
Qed.
End resimulation.

(** ** Properties of a request *)

Section request.
Context `{RouteEncoder} `{!RouteApiLaws} `{Keccak}.
Context (server : RouteServer) (world : nat → RouteWorld).
Context (encoder_factory : Chain → Bytes → encodeR TychoEncoder).

(** The context of the router call of an encoded route. *)
Definition request_context (request : RouteEncodeRequest) (x : EncodedRoute) : RouteContext :=
  {| rc_request := request; rc_token_in := er_token_in x; rc_token_out := er_token_out x;
     rc_amount_in := er_amount_in x; rc_router_address := er_router x;
     rc_is_native_input := bool_decide (er_token_in x = native_address server) |}.

(** The calldata of the last interaction is that of the router call. *)
Definition calls_router (call : CallDataPayload) (interactions : list Interaction) : Prop :=
  ∃ i, last interactions = Some i ∧ ia_target i = format_address (cp_target call) ∧
       ia_calldata i = format_calldata (cp_calldata call).

Lemma settlement_calls token_in amount_in call reset native interactions :
  settlement token_in amount_in call reset native interactions → calls_router call interactions.
Proof.
  intros (approvals & i & -> & _ & Ht & _ & Hc & _). exists i. by rewrite last_snoc.
Qed.

(** C34: the route that is encoded is conserved from the request to the calldata.  The
    segments of the route as it was simulated again are those of the request
    ([segment_run]: their hops are the hops asked for, at least one, each over the pools
    asked for; the first spends the segment's share, every other one what the one before
    it yields, and the segment yields what the last one does), and together they spend
    exactly the amount asked for, which is positive and fits a word.  Their hops are
    balanced, and together they yield at least the minimum asked for; the response reports
    their sum and its margin.  The solution that the router is called with, in the last
    interaction, gives that amount, asks for that minimum, and consists of the swaps of
    those segments. *)
Theorem encoded_route_conserves request c :
  encode_route server world encoder_factory request = Ok c →
  ∃ x solution, encodes server world encoder_factory request x c ∧
    let segments := rroute_segments (er_resimulated x) in
    let expected := N_sum (map rseg_expected_amount_out segments) in
    parse_amount (re_amount_in request) = Ok (er_amount_in x) ∧
    parse_amount (re_min_amount_out request) = Ok (er_min_amount_out x) ∧
    (0 < er_amount_in x < 2 ^ 256)%N ∧
    length segments = length (re_segments request) ∧
    Forall2 segment_run (nr_segments (er_normalized x)) segments ∧
    N_sum (map rseg_amount_in segments) = er_amount_in x ∧
    Forall hop_balanced (flat_map rseg_hops segments) ∧
    (er_min_amount_out x ≤ expected)%N ∧
    ec_expected_amount_out c = BigUint_to_string expected ∧
    ec_amount_out_delta c = BigUint_to_string (expected - er_min_amount_out x) ∧
    solution_of (request_context request x) (er_resimulated x) (er_min_amount_out x) solution ∧
    router_call_of (request_context request x) solution (er_encoder x) (er_router_call x) ∧
    calls_router (er_router_call x) (rr_interactions (ec_response c)).
Proof.
  intros [x Hx]%encode_route_ok.
  pose proof (router_call_ok _ _ _ _ _ (en_router_call _ _ _ _ _ _ Hx)) as (solution & Hsol & Hcall).
  pose proof (settlement_ok _ _ _ _ _ _ (en_interactions _ _ _ _ _ _ Hx)) as Hset.
  exists x, solution. split; [done|]. destruct Hx.
  pose proof (proj1 (normalize_route_ok _ _ _ _ _ _ _) en_normalized0) as (Hpos & Hal & Hsegs).
  pose proof (resimulated _ _ _ _ _ _ _ _ _ _ en_resimulated0) as [Hrun _].
  cbv zeta. rewrite <- expected_total_sum. split_and!; try done.
  - destruct en_words0 as [Hword _].
    destruct (biguint_to_u256_checked (er_amount_in x) "amountIn") as [w|] eqn:Hw; [|done].
    by apply u256_checked_ok in Hw as [_ Hw].
  - by rewrite <- (Forall2_length _ _ _ Hrun), (Forall2_length _ _ _ Hsegs).
  - rewrite (segments_amounts _ _ Hrun). by eapply allocation_sum.
  - by eapply segments_balanced.
  - by eapply settlement_calls.
Qed.

(** The readiness of the backends a route uses, each at its wait. *)
Definition backends_ready (from : nat) (usage : bool * bool * bool) : Prop :=
  let '(uses_native, uses_vm, uses_rfq) := usage in
  let at_wait {A} (readiness : Instant → AppState → A) k :=
    readiness (rw_now (world k)) (rw_app (world k)) in
  (uses_native = true → at_wait native_readiness from = NativeReady) ∧
  (uses_vm = true → at_wait vm_readiness (S from) = VmReady) ∧
  (uses_rfq = true → at_wait rfq_readiness (S (S from)) = RfqReady).

Lemma available_ready from usage :
  require_available world from usage = Ok tt → backends_ready from usage.
Proof.
  destruct usage as [[uses_native uses_vm] uses_rfq]. unfold require_available.
  destruct (await_encode_availability _ _ _) eqn:E; try done. intros _.
  unfold await_encode_availability in E.
  destruct (encode_availability _ _ uses_native false false) eqn:E1; try done.
  destruct (encode_availability _ _ false uses_vm false) eqn:E2; try done.
  apply encode_ready in E1 as [? _], E2 as (_ & ? & _), E as (_ & _ & ?). done.
Qed.

(** C35: every backend that the protocol hints of a route name is ready both before and
    after the rebuild locks are taken.  A route with a hint of a native pool is encoded
    only if the generation it pinned is still the one requests are served from when the
    response is built.  Whatever the hints are, every pool the route swaps through was,
    when it was first used, in that pinned state, or in the state of a backend found ready
    at the wait before it was looked up.  The hints are the request's: a backend they do
    not name is not checked otherwise ([RouteDemo.hint_hides_native_pool]). *)
Theorem encoded_route_current request c :
  encode_route server world encoder_factory request = Ok c →
  ∃ x, encodes server world encoder_factory request x c ∧
    backends_ready FIRST_CHECK (route_backend_usage (er_normalized x)) ∧
    backends_ready SECOND_CHECK (route_backend_usage (er_normalized x)) ∧
    ((route_backend_usage (er_normalized x)).1.1 = true →
     let store w := app_native_state_store (rw_app w) in
     let last := world (S (rx_waits (er_resimulator x))) in
     native_readiness (rw_now last) (rw_app last) = NativeReady ∧
     ps_request_generation (pin (store last)) = ps_request_generation (pin (store (world PIN_WAIT)))) ∧
    Forall (λ swap, ∃ pool_state component,
        loaded server world (pinned world (er_normalized x))
          (pr_component_id (rs_pool swap)) pool_state component)
      (ordered_swaps (er_resimulated x)).
Proof.
  intros [x Hx]%encode_route_ok. exists x. split; [done|]. destruct Hx, en_available0.
  split; [by apply available_ready|]. split; [by apply available_ready|]. split.
  - intros Hn. unfold pinned in en_current0. rewrite Hn in en_current0.
    specialize (en_current0 _ eq_refl). by apply native_current in en_current0.
  - pose proof (resimulated _ _ _ _ _ _ _ _ _ _ en_resimulated0) as [_ [known Hrep]].
    apply (replays_loaded _ _ _ _ _ _ _ Hrep). intros id [? Hid]. by rewrite lookup_empty in Hid.
Qed.

(** C36: the interactions of an encoded route are the approvals its input token needs (none for
    the native token, a reset first for the tokens that ask for one), then one call of the
    router the request names, which carries the amount exactly when the input is native; its
    calldata encodes the simulated swaps, from and to the settlement contract. *)
Theorem encoded_route_settles request c :
  encode_route server world encoder_factory request = Ok c →
  ∃ x solution, encodes server world encoder_factory request x c ∧
    let native := bool_decide (er_token_in x = native_address server) in
    let context :=
      {| rc_request := request; rc_token_in := er_token_in x; rc_token_out := er_token_out x;
         rc_amount_in := er_amount_in x; rc_router_address := er_router x;
         rc_is_native_input := native |} in
    solution_of context (er_resimulated x) (er_min_amount_out x) solution ∧
    router_call_of context solution (er_encoder x) (er_router_call x) ∧
    settlement (er_token_in x) (er_amount_in x) (er_router_call x)
      (should_reset_allowance (rv_reset_allowance_tokens server) (re_chain_id request)
         (er_token_in x)) native
      (rr_interactions (ec_response c)).
Proof.
  intros [x Hx]%encode_route_ok. pose proof (en_router_call _ _ _ _ _ _ Hx) as Hcall.
  apply router_call_ok in Hcall as (solution & Hsolution & Hcall).
  exists x, solution. split; [done|]. split; [done|]. split; [done|].
  rewrite <- (en_reset _ _ _ _ _ _ Hx). apply settlement_ok, (en_interactions _ _ _ _ _ _ Hx).
Qed.
End request.
