(* ===== verification/RouteDemo.v ===== *)
(** * A route, encoded

    Concrete chains, tokens, pools and an encoder, on which the theorems of route encoding
    apply: a pool multiplies amounts by its state, which every swap lowers by one; and a
    route that is encoded against the intent of the checks of readiness. *)

From S2P Require Import Prelude Ordered Text Protocol Wire Validate TychoFeed Recovery.
From S2P Require Import Store StoreQuery Health Readiness Requests SharedAccounts.
From S2P Require Import RouteTypes RouteNormalize RouteAllocFacts RouteResimulate.
From S2P Require Import RouteSimFacts RouteCalldata RouteEncode RouteFacts RouteProps.
From Stdlib Require Import SpecFloat.

#[local] Existing Instances demo_tycho demo_tokens demo_order demo_order_laws demo_keccak.

(** ** Words *)

(** The low bytes of a number, least significant first. *)
Fixpoint low_bytes (k : nat) (n : N) : string :=
  match k with
  | O => EmptyString
  | S k => String (Ascii.ascii_of_N (n mod 256)) (low_bytes k (n / 256))
  end.

Fixpoint bytes_value (s : string) : N :=
  match s with
  | EmptyString => 0
  | String c s => Ascii.N_of_ascii c + 256 * bytes_value s
  end.

Lemma low_bytes_length k n : String.length (low_bytes k n) = k.
Proof. revert n. induction k; intros n; simpl; auto. Qed.

Lemma bytes_value_low k n : (n < 256 ^ N.of_nat k)%N → bytes_value (low_bytes k n) = n.
Proof.
  revert n. induction k as [|k IH]; intros n Hn; cbn [low_bytes bytes_value].
  { simpl in Hn. lia. }
  rewrite Nat2N.inj_succ, N.pow_succ_r' in Hn.
  rewrite IH by (apply N.Div0.div_lt_upper_bound; lia).
  rewrite Ascii.N_ascii_embedding by (apply N.mod_lt; done).
  pose proof (N.div_mod n 256 ltac:(done)). lia.
Qed.

Definition demo_to_bytes (n : N) : string :=
  low_bytes (if (n <? 2 ^ 256)%N then 32 else 33) n.

(** The value of a computation that succeeds. *)
Definition value_of {A} (dflt : A) (r : encodeR A) : A :=
  match r with Ok a => a | Err _ => dflt end.

Lemma value_of_ok {A} (dflt : A) (r : encodeR A) : is_ok r = true → r = Ok (value_of dflt r).
Proof. by destruct r. Qed.

(** ** Instances *)

Definition demo_route_api : @RouteApi demo_tycho demo_tokens := {|
  Chain := N;
  Chain_id := id;
  chain_native_token := λ _, native_token_address;
  chain_wrapped_native_token := λ _, "WWWWWWWWWWWWWWWWWWWW";
  component_id := fst;
  Bytes_from_str := Ok;
  Bytes_to_string := id;
  Bytes_lower_hex := id;
  BigUint_from_str := parse_u64;
  BigUint_to_string := u64_to_string;
  to_bytes_be := demo_to_bytes;
  U256_from_be_slice := bytes_value;
|}.

#[local] Existing Instance demo_route_api.

Definition demo_route_laws : @RouteApiLaws demo_tycho demo_tokens demo_route_api.
Proof.
  split; intros n; cbn [to_bytes_be U256_from_be_slice demo_route_api]; unfold demo_to_bytes.
  - rewrite low_bytes_length. destruct (N.ltb_spec n (2 ^ 256)); split; intros; (done || lia).
  - intros Hn. destruct (N.ltb_spec n (2 ^ 256)); [|lia]. by apply bytes_value_low.
Defined.

Definition demo_amount_out (state amount : N) (token_in token_out : string) :
    result string (N * N) :=
  if (state =? 0)%N then Err "empty" else Ok (amount * state, state - 1)%N.

Definition demo_route_sim : @RouteSim demo_tycho demo_tokens demo_route_api := {|
  get_amount_out := demo_amount_out;
  BebopClient := unit;
  HashflowClient := unit;
  LiquoriceClient := unit;
  BebopClient_new := λ _ _ _ _ _ _ _, Ok tt;
  HashflowClient_new := λ _ _ _ _ _ _ _ _, Ok tt;
  LiquoriceClient_new := λ _ _ _ _ _ _ _ _ _, Ok tt;
  with_bebop_client := λ state, Some (λ _, state);
  with_hashflow_client := λ _, None;
  with_liquorice_client := λ _, None;
|}.

#[local] Existing Instances demo_route_laws demo_route_sim.

Definition demo_route_encoder :
  @RouteEncoder demo_tycho demo_tokens demo_route_api demo_route_sim := {|
  CommonProtocolComponent := string * string;
  common_component := id;
  BigUint_to_f64 := λ n, Some (binary_normalize 53 1024 (Z.of_N n) 0 false);
  Address := string;
  EncodingError := string;
  is_invalid_input := λ _, true;
  EncodingError_to_string := id;
  bytes_to_address := Ok;
  abi_encode_approve := λ spender amount, spender +:+ u64_to_string amount;
  abi_encode_split_params := λ amount _ _ min _ _ _ receiver _ swaps,
    u64_to_string amount +:+ u64_to_string min +:+ receiver +:+ swaps;
  abi_encode_params := λ amount _ _ min _ _ receiver _ swaps,
    u64_to_string amount +:+ u64_to_string min +:+ receiver +:+ swaps;
  SwapEncoderRegistry := unit;
  registry_with_default_encoders := λ _, Ok tt;
  EncodedSolution := string;
  es_permit_is_some := λ _, false;
  es_function_signature := λ _, "splitSwap(uint256)";
  es_interacting_with := λ _, "RRRRRRRRRRRRRRRRRRRR";
  es_swaps := id;
  es_n_tokens := λ _, 3%N;
|}.

#[local] Existing Instance demo_route_encoder.

Definition demo_tycho_encoder : TychoEncoder := λ solutions,
  Ok (map (λ solution, String.concat ";" (map sw_token_in (so_swaps solution))) solutions).

(** ** A request *)

Definition token_a : string := "AAAAAAAAAAAAAAAAAAAA".
Definition token_b : string := "BBBBBBBBBBBBBBBBBBBB".
Definition token_c : string := "CCCCCCCCCCCCCCCCCCCC".

Definition demo_swap (pool token_in token_out : string) (split : u32) : PoolSwapDraft :=
  {| psd_pool := {| pr_protocol := "uniswap_v2"; pr_component_id := pool;
                    pr_pool_address := None |};
     psd_token_in := token_in; psd_token_out := token_out; psd_split_bps := split |}.

(** Pool [p1] is used at both depths, and by both segments. *)
Definition demo_route_request : RouteEncodeRequest :=
  {| re_chain_id := 1;
     re_token_in := token_a;
     re_token_out := token_c;
     re_amount_in := "1001";
     re_min_amount_out := "50000";
     re_settlement_address := " SSSSSSSSSSSSSSSSSSSS ";
     re_tycho_router_address := "RRRRRRRRRRRRRRRRRRRR";
     re_swap_kind := MegaSwap;
     re_segments :=
       [{| sd_kind := MultiSwap; sd_share_bps := 6000;
           sd_hops :=
             [{| hd_token_in := token_a; hd_token_out := token_b;
                 hd_swaps := [demo_swap "p1" token_a token_b 3333;
                              demo_swap "p3" token_a token_b 0] |};
              {| hd_token_in := token_b; hd_token_out := token_c;
                 hd_swaps := [demo_swap "p1" token_b token_c 0] |}] |};
        {| sd_kind := SimpleSwap; sd_share_bps := 0;
           sd_hops :=
             [{| hd_token_in := token_a; hd_token_out := token_c;
                 hd_swaps := [demo_swap "p1" token_a token_c 0] |}] |}];
     re_request_id := Some "request";
     re_estimated_amount_in := None |}.

Definition demo_route_update : TychoUpdate :=
  {| tu_block_number_or_timestamp := 7;
     tu_states := [("p1", 11%N); ("p3", 12%N)];
     tu_new_pairs := [("p1", ("uniswap_v2", "AB")); ("p3", ("uniswap_v3", "AB"))];
     tu_removed_pairs := [];
     tu_sync_states := [] |}.

(** The native store, with the tokens of the request. *)
Definition demo_route_store : StateStore :=
  let s := (apply_update demo_route_update demo_store demo_first).2 in
  let tokens : gmap string string :=
    list_to_map (map (λ t, (t, t)) [token_a; token_b; token_c]) in
  publish (set_tokens tokens (ss_published s)) s.

Definition demo_vm_store : StateStore :=
  (apply_update
     {| tu_block_number_or_timestamp := 7; tu_states := [("v1", 9%N)];
        tu_new_pairs := [("v1", ("vm:curve", "AB"))]; tu_removed_pairs := [];
        tu_sync_states := [] |} demo_store demo_first).2.

Definition demo_route_app : AppState :=
  {| app_chain_id := 1; app_native_subscription := demo_subscription;
     app_vm_subscription := subscription_default; app_rfq_subscription := subscription_default;
     app_native_state_store := demo_route_store; app_vm_state_store := demo_first;
     app_rfq_state_store := demo_first;
     app_native_stream_health := record_progress 100 7 (mark_started 50 health_default);
     app_vm_stream_health := health_default; app_rfq_stream_health := health_default;
     app_vm_stream := {| vs_rebuilding := false; vs_restart_count := 0; vs_last_error := None;
                         vs_rebuild_started_at := None |};
     app_configured_vm := true; app_configured_rfq := false;
     app_enable_vm_pools := false; app_enable_rfq_pools := false;
     app_native_progress_lease := from_secs 30; app_optional_backend_stale := from_secs 30 |}.

Definition demo_world (n : nat) : RouteWorld :=
  {| rw_now := 200; rw_app := demo_route_app; rw_tokens := demo_store;
     rw_fetch_token := λ _, Ok None; rw_worker_failure := None |}.

Definition demo_route_settings : RouteSettings :=
  {| set_erc4626_deposits_enabled := false; set_erc4626_pair_policies := [];
     set_native_token_protocol_allowlist := ["uniswap_v4"] |}.

Definition demo_server : RouteServer :=
  {| rv_chain := 1%N; rv_settings := demo_route_settings;
     rv_rfq_client_config :=
       {| rc_tvl_threshold := f64_one; rc_bebop_user := ""; rc_bebop_key := "";
          rc_hashflow_user := ""; rc_hashflow_key := ""; rc_liquorice_user := "";
          rc_liquorice_key := "" |};
     rv_request_timeout := from_secs 3;
     rv_reset_allowance_tokens := {[1%N := {[token_a]}]} |}.

Definition demo_factory (chain : Chain) (router_address : Bytes) : encodeR TychoEncoder :=
  Ok demo_tycho_encoder.

Abbreviation demo_encode :=
  (encode_route demo_server demo_world demo_factory demo_route_request).

Definition demo_computation : EncodeComputation :=
  value_of {| ec_response := {| rr_interactions := []; rr_debug := None |};
              ec_expected_amount_out := ""; ec_amount_out_delta := "";
              ec_reset_approval := false |} demo_encode.

Lemma demo_encoded : demo_encode = Ok demo_computation.
Proof. apply value_of_ok. vm_compute. reflexivity. Qed.

(** ** Witnesses *)

Definition demo_normalized : NormalizedRouteInternal :=
  value_of {| nr_segments := [] |}
    (normalize_route demo_route_settings demo_route_request token_a token_c 1001
       native_token_address).

Definition demo_pin : option PublishedStateStore := Some (pin demo_route_store).

Definition demo_resimulated : encodeR ResimulatedRouteInternal * RouteResimulator :=
  resimulate_route_with_native_pin demo_server demo_world demo_pin demo_normalized token_a token_c
    (RouteResimulator_new demo_normalized (acquire_simulation_rebuild_guard false false) 4).

Definition demo_route : ResimulatedRouteInternal :=
  value_of {| rroute_segments := [] |} demo_resimulated.1.

(** Four swaps, by depth: [p1] loses one at each. *)
Example demo_order_of_swaps :
  map (λ swap, (pr_component_id (rs_pool swap), rs_pool_state swap, rs_amount_in swap,
                rs_expected_amount_out swap)) (ordered_swaps demo_route)
  = [("p1", 11, 199, 2189); ("p3", 12, 401, 4812); ("p1", 10, 401, 4010);
     ("p1", 9, 7001, 63009)]%N.
Proof. vm_compute. reflexivity. Qed.

Lemma demo_resimulated_ok : demo_resimulated = (Ok demo_route, demo_resimulated.2).
Proof.
  unfold demo_route. rewrite <- value_of_ok by (vm_compute; reflexivity).
  apply surjective_pairing.
Qed.

Definition demo_swaps : list Swap := value_of [] (build_route_swaps demo_route).

Lemma demo_swaps_ok : build_route_swaps demo_route = Ok demo_swaps.
Proof. apply value_of_ok. vm_compute. reflexivity. Qed.

Lemma bad_route_is_invalid_request_witness :
  ∃ e, normalize_route demo_route_settings demo_route_request token_a token_b 1001
         native_token_address = Err e ∧ ee_kind e = InvalidRequest.
Proof.
  eexists. split; [vm_compute; reflexivity|].
  apply (bad_route_is_invalid_request demo_route_settings native_token_address demo_route_request
           token_a token_b 1001). vm_compute. reflexivity.
Defined.

Lemma resimulated_amounts_flow_witness :
  demo_resimulated = (Ok demo_route, demo_resimulated.2) ∧
  Forall2 segment_run (nr_segments demo_normalized) (rroute_segments demo_route) ∧
  Forall hop_balanced (flat_map rseg_hops (rroute_segments demo_route)).
Proof.
  split; [exact demo_resimulated_ok|].
  exact (resimulated_amounts_flow demo_server demo_world demo_pin demo_normalized
           (acquire_simulation_rebuild_guard false false) 4 token_a token_c demo_route
           demo_resimulated.2 demo_resimulated_ok).
Defined.

Lemma solution_executes_as_simulated_witness :
  build_route_swaps demo_route = Ok demo_swaps ∧
  map sw_split demo_swaps
  = [S754_finite false 7162568038735095 (-55); S754_finite false 7216557245057218 (-54);
     f64_zero; f64_zero] ∧
  length demo_swaps = length (ordered_swaps demo_route).
Proof.
  split; [exact demo_swaps_ok|]. split; [vm_compute; reflexivity|].
  exact (proj1 (proj2 (solution_executes_as_simulated demo_server demo_world demo_pin
           demo_normalized (acquire_simulation_rebuild_guard false false) 4 token_a token_c
           demo_route demo_resimulated.2 demo_swaps demo_resimulated_ok demo_swaps_ok))).
Defined.

(** A simulator that holds the VM lock and has a VM pool in its cache. *)
Definition demo_vm_entry : CachedPoolEntry :=
  {| ce_pool_state := (5%N : ProtocolSim); ce_component := ("vm:curve", "BC");
     ce_backend := PoolVm |}.

Definition demo_vm_simulator : RouteResimulator :=
  rx_cache_pool "p2" demo_vm_entry
    (RouteResimulator_new demo_normalized (acquire_simulation_rebuild_guard true false) 4).

Definition demo_allocated : AllocatedSwap :=
  {| as_pool := {| pr_protocol := "uniswap_v2"; pr_component_id := "p2";
                   pr_pool_address := None |};
     as_token_in := token_b; as_token_out := token_c; as_split_bps := 0; as_amount_in := 7 |}.

Lemma rebuild_guard_forgets_vm_witness :
  ∃ r', extend_rebuild_guard demo_world (Some (false, true)) demo_vm_simulator = (Ok tt, r') ∧
    load_pool_entry demo_server demo_world demo_pin "p2" r' = (Ok demo_vm_entry, r') ∧
    ∃ guard,
      sr_rebuild_guard (swap_request demo_allocated demo_vm_entry token_b token_c
                          (rx_rebuild_guard r')) = Some guard ∧
      vm_read_guard guard = false.
Proof.
  eexists. split; [reflexivity|].
  eapply (rebuild_guard_forgets_vm demo_server demo_world demo_pin demo_vm_simulator tt);
    reflexivity.
Defined.

Lemma encoded_route_conserves_witness :
  demo_encode = Ok demo_computation ∧ ec_expected_amount_out demo_computation = "67019" ∧
  ∃ x solution, encodes demo_server demo_world demo_factory demo_route_request x
                  demo_computation ∧
    N_sum (map rseg_amount_in (rroute_segments (er_resimulated x))) = 1001%N ∧
    build_route_swaps (er_resimulated x) = Ok (so_swaps solution).
Proof.
  split; [exact demo_encoded|]. split; [vm_compute; reflexivity|].
  destruct (encoded_route_conserves demo_server demo_world demo_factory
              demo_route_request demo_computation demo_encoded)
    as (x & solution & Hx & Hamount & _ & _ & _ & _ & Hsum & _ & _ & _ & _ & Hsolution & _).
  exists x, solution. split; [exact Hx|]. split; [|apply (sn_swaps _ _ _ _ Hsolution)].
  assert (parse_amount (re_amount_in demo_route_request) = Ok 1001%N) as Hvalue
    by (vm_compute; reflexivity).
  rewrite Hvalue in Hamount. injection Hamount as Hvalue'. rewrite Hsum. symmetry. exact Hvalue'.
Defined.

(** Native pools: ready at both checks, and the pools are those of the pinned state. *)
Lemma encoded_route_current_witness :
  demo_encode = Ok demo_computation ∧
  ∃ x, encodes demo_server demo_world demo_factory demo_route_request x demo_computation ∧
    backends_ready demo_world FIRST_CHECK (route_backend_usage (er_normalized x)) ∧
    backends_ready demo_world SECOND_CHECK (route_backend_usage (er_normalized x)).
Proof.
  split; [exact demo_encoded|].
  destruct (encoded_route_current demo_server demo_world demo_factory
              demo_route_request demo_computation demo_encoded) as (x & Hx & Hfirst & Hsecond & _).
  exists x. exact (conj Hx (conj Hfirst Hsecond)).
Defined.

Lemma encoded_route_settles_witness :
  demo_encode = Ok demo_computation ∧
  map ia_kind (rr_interactions (ec_response demo_computation)) = [Erc20Approve; Erc20Approve; Call] ∧
  ∃ x solution, encodes demo_server demo_world demo_factory demo_route_request x
                  demo_computation ∧
    so_exact_out solution = false.
Proof.
  split; [exact demo_encoded|]. split; [vm_compute; reflexivity|].
  destruct (encoded_route_settles demo_server demo_world demo_factory
              demo_route_request demo_computation demo_encoded)
    as (x & solution & Hx & Hsolution & _).
  exists x, solution. split; [exact Hx|apply (sn_exact_out _ _ _ _ Hsolution)].
Defined.

(** ** Against the intent *)

(** A route over the native pool [p1], which its request calls a VM pool. *)
Definition hinted_request : RouteEncodeRequest :=
  {| re_chain_id := 1; re_token_in := token_a; re_token_out := token_b; re_amount_in := "1001";
     re_min_amount_out := "1"; re_settlement_address := "SSSSSSSSSSSSSSSSSSSS";
     re_tycho_router_address := "RRRRRRRRRRRRRRRRRRRR"; re_swap_kind := SimpleSwap;
     re_segments :=
       [{| sd_kind := SimpleSwap; sd_share_bps := 0;
           sd_hops :=
             [{| hd_token_in := token_a; hd_token_out := token_b;
                 hd_swaps :=
                   [{| psd_pool := {| pr_protocol := "vm:curve"; pr_component_id := "p1";
                                      pr_pool_address := None |};
                       psd_token_in := token_a; psd_token_out := token_b;
                       psd_split_bps := 0 |}] |}] |}];
     re_request_id := None; re_estimated_amount_in := None |}.

(** The VM backend is ready; the native one is with [native_ready]. *)
Definition hinted_app (native_ready : bool) : AppState :=
  {| app_chain_id := 1;
     app_native_subscription := if native_ready then demo_subscription else subscription_default;
     app_vm_subscription := demo_subscription; app_rfq_subscription := subscription_default;
     app_native_state_store := demo_route_store; app_vm_state_store := demo_vm_store;
     app_rfq_state_store := demo_first;
     app_native_stream_health := record_progress 100 7 (mark_started 50 health_default);
     app_vm_stream_health := record_update 100 7 (mark_started 50 health_default);
     app_rfq_stream_health := health_default;
     app_vm_stream := app_vm_stream demo_route_app;
     app_configured_vm := true; app_configured_rfq := false;
     app_enable_vm_pools := true; app_enable_rfq_pools := false;
     app_native_progress_lease := from_secs 3600; app_optional_backend_stale := from_secs 3600 |}.

(** The native backend is warming up but while the pool is looked up. *)
Definition hinted_world (n : nat) : RouteWorld :=
  {| rw_now := 200; rw_app := hinted_app ((8 <=? n) && (n <? 12))%nat; rw_tokens := demo_store;
     rw_fetch_token := λ address, Ok (Some address); rw_worker_failure := None |}.

Example hint_hides_native_pool :
  map (λ n, native_readiness 200 (rw_app (hinted_world n)))
    [FIRST_CHECK; PIN_WAIT; SECOND_CHECK; 12; 20]%nat
  = [NativeWarmingUp; NativeWarmingUp; NativeWarmingUp; NativeWarmingUp; NativeWarmingUp] ∧
  pool_by_id_from_published (pin demo_route_store) "p1" = Some (11%N, ("uniswap_v2", "AB")) ∧
  match encode_route demo_server hinted_world demo_factory hinted_request with
  | Ok c => ec_expected_amount_out c = "11011"
  | Err _ => False
  end.
Proof. vm_compute. split_and!; reflexivity. Qed.
