(* ===== verification/QuoteTypes.v ===== *)
(** * Quote requests, their answers and what quoting reads

    The quote half of [simulator-core/src/models/messages.rs], [SlippageConfig] of
    [runtime/src/config/mod.rs], [TokenStoreError] of [models/tokens.rs] and the executor of
    [services/simulation_executor.rs].  Amounts are natural numbers, as [BigUint] is. *)

From S2P Require Import Prelude Ordered Text Protocol Store Health Readiness.
From S2P Require Import RouteTypes RouteResimulate.

(** ** Outside types

    What quoting reads of tokens, components and pools besides what routes read.
    [amount_out_gas] is the gas of the result of [get_amount_out] on the same arguments;
    [str_to_lowercase] is [str::to_lowercase], which follows Unicode's tables. *)
Class QuoteApi `{RouteSim} := {
  token_chain : Token → Chain;
  token_symbol : Token → string;
  static_attributes : ProtocolComponent → gmap string Bytes;
  amount_out_gas : ProtocolSim → N → Token → Token → N;
  get_limits : ProtocolSim → Bytes → Bytes → result string (N * N);
  BigUint_parse_error : string → string;
  str_to_lowercase : string → string;
}.

(** Numbers are read back from their text, and zero's is ["0"]. *)
Class QuoteApiLaws `{QuoteApi} := {
  BigUint_from_to : ∀ n, BigUint_from_str (BigUint_to_string n) = Some n;
  BigUint_to_zero : BigUint_to_string 0 = "0";
}.

(** ** Machine integers

    Arithmetic on [u32] in a release build. *)
Definition u32_wrap (n : N) : u32 := (n mod 2 ^ 32)%N.
Definition u32_add (a b : u32) : u32 := u32_wrap (a + b).
Definition u32_mul (a b : u32) : u32 := u32_wrap (a * b).
Definition u32_sub (a b : u32) : u32 := u32_wrap (a + 2 ^ 32 - b).

(** [BigUint::to_u64]. *)
Definition to_u64 (n : N) : option u64 := if (n <=? u64_max)%N then Some n else None.

(** [u32::from_str]. *)
Definition parse_u32 (s : string) : option u32 := n ← parse_u64 s; u32_try_from n.

(** The order of pairs, first components first: [cmp(..).then(..)]. *)
#[export] Program Instance prod_TotalOrder {A B} `{TotalOrder A, TotalOrder B} :
  TotalOrder (A * B) :=
  {| leb x y := if leb y.1 x.1 then leb x.1 y.1 && leb x.2 y.2 else true |}.
Next Obligation.
  intros A B ?? [a b] [c d]; simpl. destruct (leb c a) eqn:E1, (leb a c) eqn:E2; simpl; auto.
  apply leb_total.
Qed.
Next Obligation.
  intros A B ?? [a b] [c d] [e f]; simpl.
  destruct (leb c a) eqn:Eca; [|apply leb_false in Eca as Eac].
  - intros [Eac Ebd]%andb_true_iff. destruct (leb e c) eqn:Eec.
    + intros [Ece Edf]%andb_true_iff.
      rewrite (leb_trans e c a), (leb_trans a c e) by done. by rewrite (leb_trans b d f).
    + intros _. destruct (leb e a) eqn:Eea; [|done].
      by rewrite (leb_trans e a c) in Eec.
  - intros _. destruct (leb e c) eqn:Eec.
    + intros [Ece Edf]%andb_true_iff. destruct (leb e a) eqn:Eea; [|done].
      by rewrite (leb_trans c e a) in Eca.
    + intros _. destruct (leb e a) eqn:Eea; [|done].
      by rewrite (leb_trans e a c) in Eec.
Qed.
Next Obligation.
  intros A B ?? [a b] [c d]; simpl. destruct (leb c a) eqn:E1, (leb a c) eqn:E2; simpl; try done.
  - intros. f_equal; by apply leb_antisym.
  - apply leb_false in E1. congruence.
Qed.

(** ** Text *)

(** [str::from_utf8] succeeds. *)
Definition byte_in (lo hi : N) (c : ascii) : bool := (lo <=? byte_of c)%N && (byte_of c <=? hi)%N.
Definition is_continuation : ascii → bool := byte_in 128 191.

Fixpoint utf8_valid (s : string) : bool :=
  match s with
  | EmptyString => true
  | String a r1 =>
      if byte_in 0 127 a then utf8_valid r1
      else match r1 with
           | EmptyString => false
           | String b r2 =>
               if byte_in 194 223 a then is_continuation b && utf8_valid r2
               else match r2 with
                    | EmptyString => false
                    | String c r3 =>
                        let second :=
                          if byte_in 224 224 a then byte_in 160 191 b
                          else if byte_in 237 237 a then byte_in 128 159 b
                          else byte_in 225 239 a && is_continuation b in
                        if byte_in 224 239 a then second && is_continuation c && utf8_valid r3
                        else match r3 with
                             | EmptyString => false
                             | String d r4 =>
                                 let second :=
                                   if byte_in 240 240 a then byte_in 144 191 b
                                   else if byte_in 244 244 a then byte_in 128 143 b
                                   else byte_in 241 243 a && is_continuation b in
                                 second && is_continuation c && is_continuation d
                                 && utf8_valid r4
                             end
                    end
           end
  end.

(** [while matches!(bytes.last(), Some(&0)) { bytes.pop(); }]. *)
Fixpoint pop_zeros (s : string) : string :=
  match s with
  | EmptyString => EmptyString
  | String c r =>
      let r := pop_zeros r in
      if bool_decide (r = "" ∧ c = Ascii.zero) then EmptyString else String c r
  end.

(** [trim_start_matches("0x")]. *)
Fixpoint trim_0x (s : string) : string :=
  match s with
  | String a (String b r) =>
      if bool_decide (a = "0"%char ∧ b = "x"%char) then trim_0x r else s
  | _ => s
  end.

(** ** Requests and answers *)

Record AmountOutRequest := {
  ar_request_id : string;
  ar_auction_id : option string;
  ar_token_in : string;
  ar_token_out : string;
  ar_amounts : list string;
}.

Record AmountOutResponse := {
  ao_pool : string;
  ao_pool_name : string;
  ao_pool_address : string;
  ao_amounts_out : list string;
  ao_slippage : list u32;
  ao_limit_max_in : option string;
  ao_gas_used : list u64;
  ao_block_number : u64;
}.

Inductive QuoteStatus :=
| StatusReady
| StatusWarmingUp
| StatusTokenMissing
| StatusNoLiquidity
| StatusInvalidRequest
| StatusInternalError.

Inductive QuoteResultQuality := Complete | Partial | NoResults | RequestLevelFailure.

Inductive QuotePartialKind := AmountLadders | PoolCoverage | Mixed.

Inductive PoolOutcomeKind :=
| PartialOutput
| ZeroOutput
| TimedOut
| SimulatorError
| InternalError.

Inductive QuoteFailureKind :=
| FailureWarmUp
| FailureStaleNativeState
| FailureTokenValidation
| FailureTokenCoverage
| FailureTimeout
| FailureOverflow
| FailureSimulator
| FailureNoPools
| FailureInconsistentResult
| FailureInternal
| FailureInvalidRequest.

#[export] Instance QuoteStatus_eq_dec : EqDecision QuoteStatus.
Proof. solve_decision. Defined.
#[export] Instance QuoteResultQuality_eq_dec : EqDecision QuoteResultQuality.
Proof. solve_decision. Defined.
#[export] Instance QuotePartialKind_eq_dec : EqDecision QuotePartialKind.
Proof. solve_decision. Defined.
#[export] Instance PoolOutcomeKind_eq_dec : EqDecision PoolOutcomeKind.
Proof. solve_decision. Defined.
#[export] Instance QuoteFailureKind_eq_dec : EqDecision QuoteFailureKind.
Proof. solve_decision. Defined.

Definition QuoteFailureKind_label (kind : QuoteFailureKind) : string :=
  match kind with
  | FailureWarmUp => "warm_up"
  | FailureStaleNativeState => "stale_native_state"
  | FailureTokenValidation => "token_validation"
  | FailureTokenCoverage => "token_coverage"
  | FailureTimeout => "timeout"
  | FailureOverflow => "overflow"
  | FailureSimulator => "simulator"
  | FailureNoPools => "no_pools"
  | FailureInconsistentResult => "inconsistent_result"
  | FailureInternal => "internal"
  | FailureInvalidRequest => "invalid_request"
  end.

(** [Deserialize for QuoteFailureKind]. *)
Definition QuoteFailureKind_deserialize (value : string) : result string QuoteFailureKind :=
  ok_or (str_match value
           [("warm_up", FailureWarmUp); ("stale_native_state", FailureStaleNativeState);
            ("token_validation", FailureTokenValidation);
            ("token_coverage", FailureTokenCoverage); ("timeout", FailureTimeout);
            ("overflow", FailureOverflow); ("simulator", FailureSimulator);
            ("no_pools", FailureNoPools); ("inconsistent_result", FailureInconsistentResult);
            ("internal", FailureInternal); ("invalid_request", FailureInvalidRequest)])
    ("unknown quote failure kind: " +:+ value).

Record QuoteFailure := {
  qf_kind : QuoteFailureKind;
  qf_message : string;
  qf_pool : option string;
  qf_pool_name : option string;
  qf_pool_address : option string;
  qf_protocol : option string;
}.

Record PoolSimulationOutcome := {
  po_pool : string;
  po_pool_name : string;
  po_pool_address : string;
  po_protocol : string;
  po_outcome : PoolOutcomeKind;
  po_reported_steps : nat;
  po_expected_steps : nat;
  po_reason : option string;
}.

Record QuoteMeta := {
  me_status : QuoteStatus;
  me_result_quality : QuoteResultQuality;
  me_partial_kind : option QuotePartialKind;
  me_block_number : u64;
  me_vm_block_number : option u64;
  me_rfq_update_timestamp : option u64;
  me_matching_pools : nat;
  me_candidate_pools : nat;
  me_total_pools : option nat;
  me_auction_id : option string;
  me_pool_results : list PoolSimulationOutcome;
  me_vm_unavailable : bool;
  me_rfq_unavailable : bool;
  me_failures : list QuoteFailure;
}.

Record QuoteResult := {
  qres_request_id : string;
  qres_data : list AmountOutResponse;
  qres_meta : QuoteMeta;
}.

(** ** Slippage configuration *)

Record SlippageConfig := {
  min_dynamic_slippage_bps : u32;
  max_dynamic_slippage_bps : u32;
  utilization_coefficient_bps : u32;
  sensitivity_coefficient_bps : u32;
  soft_ladder_utilization_cap_bps : u32;
  cumulative_degradation_coefficient_bps : u32;
  saturation_ramp_start_slippage_bps : u32;
}.

Definition SlippageConfig_default : SlippageConfig :=
  {| min_dynamic_slippage_bps := 1;
     max_dynamic_slippage_bps := 200;
     utilization_coefficient_bps := 60;
     sensitivity_coefficient_bps := 2500;
     soft_ladder_utilization_cap_bps := 3500;
     cumulative_degradation_coefficient_bps := 300;
     saturation_ramp_start_slippage_bps := 45 |}.

(** Startup panics are errors. *)
Definition parse_value_or_panic (key value : string) : result string u32 :=
  ok_or (parse_u32 value) ("Invalid " +:+ key).

Definition optional_parsed_env (env : string → option string) (key : string) :
    result string (option u32) :=
  match env key with
  | Some value => parsed ← parse_value_or_panic key value; Ok (Some parsed)
  | None => Ok None
  end.

Definition env_u32_or (env : string → option string) (key : string) (dflt : u32) :
    result string u32 :=
  parsed ← optional_parsed_env env key; Ok (default dflt parsed).

Definition load_slippage_config (env : string → option string) : result string SlippageConfig :=
  let defaults := SlippageConfig_default in
  min ← env_u32_or env "MIN_DYNAMIC_SLIPPAGE_BPS" (min_dynamic_slippage_bps defaults);
  max ← env_u32_or env "MAX_DYNAMIC_SLIPPAGE_BPS" (max_dynamic_slippage_bps defaults);
  utilization ← env_u32_or env "UTILIZATION_COEFFICIENT_BPS"
                  (utilization_coefficient_bps defaults);
  sensitivity ← env_u32_or env "SENSITIVITY_COEFFICIENT_BPS"
                  (sensitivity_coefficient_bps defaults);
  soft_cap ← env_u32_or env "SOFT_LADDER_UTILIZATION_CAP_BPS"
               (soft_ladder_utilization_cap_bps defaults);
  degradation ← env_u32_or env "CUMULATIVE_DEGRADATION_COEFFICIENT_BPS"
                  (cumulative_degradation_coefficient_bps defaults);
  ramp_start ← env_u32_or env "SATURATION_RAMP_START_SLIPPAGE_BPS"
                 (saturation_ramp_start_slippage_bps defaults);
  ensure (min <=? max)%N "slippage min must be <= max" ;;
  ensure (ramp_start <=? max)%N "saturation ramp start slippage must be <= slippage max" ;;
  Ok {| min_dynamic_slippage_bps := min; max_dynamic_slippage_bps := max;
        utilization_coefficient_bps := utilization;
        sensitivity_coefficient_bps := sensitivity;
        soft_ladder_utilization_cap_bps := soft_cap;
        cumulative_degradation_coefficient_bps := degradation;
        saturation_ramp_start_slippage_bps := ramp_start |}.

(** ** The executor and the token store *)

(** A panic's payload, as [downcast_ref] finds it. *)
Inductive PanicPayload := PanicStr (message : string) | PanicString (message : string) | PanicOther.

Inductive WorkerFailure := WorkerFailurePanicked (panic : PanicPayload) | WorkerFailureDropped.

(** [SimulationExecutor::run]: the worker may fail instead of returning. *)
Definition SimulationExecutor_run {R} (failure : option WorkerFailure) (work : R) :
    result WorkerFailure R :=
  match failure with Some e => Err e | None => Ok work end.

Inductive TokenStoreError := FetchTimeout (duration : Duration) | RequestFailed (message : string).

(** ** Lemmas *)

Lemma u32_wrap_small n : (n < 2 ^ 32)%N → u32_wrap n = n.
Proof. apply N.mod_small. Qed.

Lemma u32_wrap_lt n : (u32_wrap n < 2 ^ 32)%N.
Proof. by apply N.mod_lt. Qed.

Lemma failure_kind_label_roundtrip kind :
  QuoteFailureKind_deserialize (QuoteFailureKind_label kind) = Ok kind.
Proof. by destruct kind. Qed.

Lemma parse_u32_bound s n : parse_u32 s = Some n → (n < 2 ^ 32)%N.
Proof.
  unfold parse_u32. intros (m & _ & Hm)%bind_Some. apply u32_try_from_Some in Hm as [-> Hle].
  unfold u32_max in Hle. lia.
Qed.

Lemma env_u32_or_bound env key dflt n :
  (dflt < 2 ^ 32)%N → env_u32_or env key dflt = Ok n → (n < 2 ^ 32)%N.
Proof.
  unfold env_u32_or, optional_parsed_env, parse_value_or_panic. intros Hd.
  destruct (env key) as [value|]; simpl; [|by intros [= <-]].
  destruct (parse_u32 value) as [m|] eqn:E; simpl; [|done]. intros [= <-].
  by eapply parse_u32_bound.
Qed.
