(* ===== verification/QuoteSlippage.v ===== *)
(** * Slippage of a quote

    The arithmetic of [runtime/src/services/quotes.rs]: rounding division, utilisation,
    sensitivity and saturation terms, degradation along the ladder of requested amounts,
    and the limits a pool is reported with.  [BigUint]s are natural numbers; [u32]
    arithmetic wraps as in a release build. *)

From S2P Require Import Prelude Ordered Text Protocol Store RouteTypes QuoteTypes.

Definition BPS_DENOMINATOR : u32 := 10000.
Definition STRESS_INPUT_DIVISOR : u32 := 100.
Definition MIN_STRESS_INPUT : N := 1.
Definition SATURATION_THRESHOLD_BPS : u32 := 9999.
Definition SATURATION_RAMP_START_UTILIZATION_BPS : u32 := 9500.
Definition SATURATION_MAX_UTILIZATION_BPS : u32 := 9990.
Definition SLIPPAGE_SCALE : u32 := 1000000.
Definition SOFT_LADDER_ACTIVATION_DEGRADATION_BPS : u32 := 10.

Definition round_div_biguint (numerator denominator : N) : N :=
  if (denominator =? 0)%N then 0%N else ((numerator + denominator / 2) / denominator)%N.

(** [to_u32().unwrap_or(dflt)]. *)
Definition to_u32_or (dflt : u32) (n : N) : u32 := default dflt (u32_try_from n).

(** [limit.filter(|value| !value.is_zero())]. *)
Definition non_zero (limit : option N) : option N :=
  value ← limit; if (value =? 0)%N then None else Some value.

Definition compute_stress_input (amount_in : N) : N :=
  N.max (amount_in / STRESS_INPUT_DIVISOR) MIN_STRESS_INPUT.

(** ** Rates *)

Definition any_zero (l : list N) : bool := existsb (λ n, (n =? 0)%N) l.

Definition rate_degradation_bps (base_amount_in base_amount_out amount_in amount_out : N) : u32 :=
  if any_zero [base_amount_in; base_amount_out; amount_in; amount_out] then 0%N
  else
    let base_rate_numerator := (base_amount_out * amount_in)%N in
    let current_rate_numerator := (amount_out * base_amount_in)%N in
    if (base_rate_numerator <=? current_rate_numerator)%N then 0%N
    else
      to_u32_or BPS_DENOMINATOR
        (round_div_biguint ((base_rate_numerator - current_rate_numerator) * BPS_DENOMINATOR)
           base_rate_numerator).

Definition cumulative_degradation_slippage_bps
    (base_amount_in base_amount_out amount_in amount_out : N) (slippage : SlippageConfig) : u32 :=
  if any_zero [base_amount_in; base_amount_out; amount_in; amount_out] then 0%N
  else
    let base_rate_numerator := (base_amount_out * amount_in)%N in
    let current_rate_numerator := (amount_out * base_amount_in)%N in
    if (base_rate_numerator <=? current_rate_numerator)%N then 0%N
    else
      let penalty :=
        round_div_biguint
          ((base_rate_numerator - current_rate_numerator)
             * cumulative_degradation_coefficient_bps slippage) base_rate_numerator in
      to_u32_or (max_dynamic_slippage_bps slippage) penalty.

(** ** Terms *)

Definition effective_output_utilization_scaled (amount_out : N)
    (limit_max_out soft_ladder_max_out : option N) (scale : N) (slippage : SlippageConfig) : N :=
  let hard_utilization_scaled :=
    match non_zero limit_max_out with
    | Some max_out => round_div_biguint (amount_out * scale) max_out
    | None => 0%N
    end in
  let soft_utilization_scaled :=
    match non_zero soft_ladder_max_out with
    | Some max_out =>
        round_div_biguint (amount_out * soft_ladder_utilization_cap_bps slippage * scale)
          (max_out * BPS_DENOMINATOR)
    | None => 0%N
    end in
  N.min (N.max hard_utilization_scaled soft_utilization_scaled) scale.

Definition utilization_term_scaled (utilization_scaled scale : N) (slippage : SlippageConfig) : N :=
  let numerator :=
    (utilization_coefficient_bps slippage * utilization_scaled * utilization_scaled)%N in
  round_div_biguint numerator scale.

Definition sensitivity_term_scaled
    (amount_in amount_out stressed_amount_in stressed_amount_out scale : N)
    (slippage : SlippageConfig) : N :=
  let current_rate_numerator := (amount_out * stressed_amount_in)%N in
  let stressed_rate_numerator := (stressed_amount_out * amount_in)%N in
  if (current_rate_numerator <=? stressed_rate_numerator)%N then 0%N
  else
    let numerator :=
      ((current_rate_numerator - stressed_rate_numerator)
         * sensitivity_coefficient_bps slippage * scale)%N in
    round_div_biguint numerator current_rate_numerator.

Definition saturation_slippage_floor_bps (amount_out : N) (limit_max_out : option N)
    (slippage : SlippageConfig) : option u32 :=
  limit_max_out ← non_zero limit_max_out;
  let utilization_bps :=
    N.min (to_u32_or BPS_DENOMINATOR
             (round_div_biguint (amount_out * BPS_DENOMINATOR) limit_max_out)) BPS_DENOMINATOR in
  if (SATURATION_MAX_UTILIZATION_BPS <=? utilization_bps)%N
  then Some (max_dynamic_slippage_bps slippage)
  else if (utilization_bps <=? SATURATION_RAMP_START_UTILIZATION_BPS)%N then None
  else
    let ramp_progress := u32_sub utilization_bps SATURATION_RAMP_START_UTILIZATION_BPS in
    let ramp_width :=
      u32_sub SATURATION_MAX_UTILIZATION_BPS SATURATION_RAMP_START_UTILIZATION_BPS in
    let ramp_span :=
      u32_sub (max_dynamic_slippage_bps slippage) (saturation_ramp_start_slippage_bps slippage) in
    Some (u32_add (saturation_ramp_start_slippage_bps slippage)
            (u32_add (u32_mul ramp_span ramp_progress) (ramp_width / 2) / ramp_width)%N).

(** [Ord::clamp], for [min <= max]. *)
Definition clamp (value min max : N) : N :=
  if (value <? min)%N then min else if (max <? value)%N then max else value.

Definition compute_dynamic_slippage_bps (amount_in amount_out : N)
    (stressed_amount_in stressed_amount_out limit_max_out soft_ladder_max_out : option N)
    (slippage : SlippageConfig) : u32 :=
  if (amount_out =? 0)%N then 0%N
  else
    let scale : N := SLIPPAGE_SCALE in
    let total_scaled := (min_dynamic_slippage_bps slippage * scale)%N in
    let effective_utilization_scaled :=
      effective_output_utilization_scaled amount_out limit_max_out soft_ladder_max_out scale
        slippage in
    let total_scaled :=
      (total_scaled + utilization_term_scaled effective_utilization_scaled scale slippage)%N in
    let total_scaled :=
      match stressed_amount_in, stressed_amount_out with
      | Some stressed_amount_in, Some stressed_amount_out =>
          if negb (stressed_amount_in =? 0)%N && negb (stressed_amount_out =? 0)%N
          then (total_scaled
                + sensitivity_term_scaled amount_in amount_out stressed_amount_in
                    stressed_amount_out scale slippage)%N
          else total_scaled
      | _, _ => total_scaled
      end in
    let total_bps :=
      to_u32_or (max_dynamic_slippage_bps slippage) (round_div_biguint total_scaled scale) in
    let saturation_floor_bps :=
      default (min_dynamic_slippage_bps slippage)
        (saturation_slippage_floor_bps amount_out limit_max_out slippage) in
    clamp (N.max total_bps saturation_floor_bps) (min_dynamic_slippage_bps slippage)
      (max_dynamic_slippage_bps slippage).

(** ** Ladders *)

Section ladder.
Context `{RouteApi}.

(** An output as text that reads as a positive number. *)
Definition usable_amount (amount_out : string) : option N := non_zero (BigUint_from_str amount_out).

Definition amounts_out_include_positive_quote (amounts_out : list string) : bool :=
  existsb (λ amount, negb (amount =? 0)%N) (omap BigUint_from_str amounts_out).

Definition observed_soft_ladder_max_out (amounts_in : list N) (amounts_out : list string) :
    option N :=
  let usable_quotes :=
    omap (λ '(amount_in, amount_out), (amount_in,.) <$> usable_amount amount_out)
      (zip amounts_in amounts_out) in
  let usable_quotes := sort_by_key fst usable_quotes in
  '(base_amount_in, base_amount_out) ← head usable_quotes;
  if bool_decide (length usable_quotes < 2)%nat
     || negb (existsb (λ '(amount_in, amount_out),
          (SOFT_LADDER_ACTIVATION_DEGRADATION_BPS
             <=? rate_degradation_bps base_amount_in base_amount_out amount_in amount_out)%N)
          (tail usable_quotes))
  then None
  else Some (foldr N.max 0%N (snd <$> usable_quotes)).

Fixpoint enforce_non_decreasing_slippage (running_max : u32) (amounts_out : list string)
    (slippage : list u32) : list u32 :=
  match amounts_out, slippage with
  | amount_out :: amounts_out, slippage_bps :: slippage =>
      match usable_amount amount_out with
      | None => slippage_bps :: enforce_non_decreasing_slippage running_max amounts_out slippage
      | Some _ =>
          let running_max := N.max running_max slippage_bps in
          running_max :: enforce_non_decreasing_slippage running_max amounts_out slippage
      end
  | _, _ => slippage
  end.

Definition sanitize_limit_max_in (amounts_in : list N) (amounts_out : list string)
    (limit_max_in limit_max_out : option N) : option N :=
  raw_limit_max_in ← limit_max_in;
  match non_zero limit_max_out with
  | None => Some raw_limit_max_in
  | Some limit_max_out =>
      let saturation_threshold_numerator := (limit_max_out * SATURATION_THRESHOLD_BPS)%N in
      let saturated_amount_in :=
        find_map (λ '(amount_in, amount_out),
            amount_out ← BigUint_from_str amount_out;
            if (saturation_threshold_numerator <=? amount_out * BPS_DENOMINATOR)%N
            then Some amount_in else None)
          (zip amounts_in amounts_out) in
      Some (match saturated_amount_in with
            | Some observed_cap => N.min raw_limit_max_in observed_cap
            | None => raw_limit_max_in
            end)
  end.
End ladder.
