(* ===== verification/QuotePools.v ===== *)
(** * Quoting one pool

    The per-pool half of [runtime/src/services/quotes.rs]: the names of a pool, the tokens it
    is asked with, [PoolSimulationRunner], the outcome a result is classified as, and the
    failures it is reported with.

    A pool is quoted on a worker.  What the worker sees of the cancellation of the request,
    at each of its checks, and how it may fail, are the fields of a [PoolView]; what one
    check sees says nothing of another. *)

From S2P Require Import Prelude Ordered Text Protocol Store.
From S2P Require Import RouteTypes RouteResimulate QuoteTypes QuoteSlippage.

Abbreviation nat_to_string n := (u64_to_string (N.of_nat n)).

(** ** Failures *)

Record FailureContext := {
  fc_pool_id : string;
  fc_pool_name : option string;
  fc_pool_address : option string;
  fc_protocol : option string;
}.

Definition make_failure (kind : QuoteFailureKind) (message : string)
    (pool : option FailureContext) : QuoteFailure :=
  {| qf_kind := kind; qf_message := message;
     qf_pool := fc_pool_id <$> pool;
     qf_pool_name := context ← pool; fc_pool_name context;
     qf_pool_address := context ← pool; fc_pool_address context;
     qf_protocol := context ← pool; fc_protocol context |}.

Definition not_empty (s : string) : bool := negb (bool_decide (s = "")).

Definition format_pool_descriptor (context : FailureContext) : string :=
  let present (o : option string) :=
    match o with Some s => if not_empty s then [s] else [] | None => [] end in
  let head := present (fc_protocol context) ++ present (fc_pool_name context) in
  let label :=
    if negb (bool_decide (head = [])) then str_join "::" head else fc_pool_id context in
  match fc_pool_address context with
  | Some address =>
      if not_empty address then label +:+ " [" +:+ address +:+ "]" else label
  | None => label
  end.

Definition contains_any (needles : list string) (hay : string) : bool :=
  existsb (λ needle, str_contains needle hay) needles.

Definition classify_failure (message : string) (from_pool : bool) : QuoteFailureKind :=
  let lowered := to_ascii_lowercase message in
  if str_contains "cancelled" lowered || str_contains "canceled" lowered then FailureTimeout
  else if str_contains "warm" lowered then FailureWarmUp
  else if str_contains "overflow" lowered then FailureOverflow
  else if str_contains "timeout" lowered then FailureTimeout
  else if negb from_pool && str_contains "token" lowered then FailureTokenCoverage
  else FailureSimulator.

Definition is_timeout_message (message : string) : bool :=
  contains_any ["timeout"; "timed out"; "cancelled"; "canceled"] (to_ascii_lowercase message).

Definition is_limit_like_error_message (message : string) : bool :=
  contains_any
    ["max_in"; "get_limits"; "sell amount exceeds limit"; "exceeds limit";
     "exceeds available liquidity"; "borrowable limit"; "insufficient reserve";
     "ticks exceeded"; "not enough liquidity"; "support complete swap"]
    (to_ascii_lowercase message).

Definition is_liquidity_like_failure (failure : QuoteFailure) : bool :=
  match qf_kind failure with
  | FailureNoPools => true
  | FailureSimulator =>
      is_limit_like_error_message (qf_message failure)
      || str_contains "all pools returned zero amounts" (to_ascii_lowercase (qf_message failure))
  | FailureWarmUp | FailureStaleNativeState | FailureTokenValidation | FailureTokenCoverage
  | FailureTimeout | FailureOverflow | FailureInconsistentResult | FailureInternal
  | FailureInvalidRequest => false
  end.

(** ** Outcomes *)

Record PoolDescriptor := {
  pd_id : string;
  pd_name : string;
  pd_address : string;
  pd_protocol : string;
}.

Record PoolQuoteResult := {
  pq_pool : string;
  pq_pool_name : string;
  pq_pool_address : string;
  pq_protocol : string;
  pq_amounts_out : list string;
  pq_slippage : list u32;
  pq_limit_max_in : option N;
  pq_gas_used : list u64;
  pq_successful_steps : nat;
  pq_first_successful_gas_used : option u64;
  pq_errors : list string;
  pq_timed_out : bool;
}.

Inductive PoolSimOutcome := Simulated (result : PoolQuoteResult).

Definition make_pool_outcome (descriptor : PoolDescriptor) (outcome : PoolOutcomeKind)
    (reported_steps expected_steps : nat) (reason : option string) : PoolSimulationOutcome :=
  {| po_pool := pd_id descriptor; po_pool_name := pd_name descriptor;
     po_pool_address := pd_address descriptor; po_protocol := pd_protocol descriptor;
     po_outcome := outcome; po_reported_steps := reported_steps;
     po_expected_steps := expected_steps; po_reason := reason |}.

Definition outcome_kind_label (kind : PoolOutcomeKind) : string :=
  match kind with
  | PartialOutput => "partial_output"
  | ZeroOutput => "zero_output"
  | TimedOut => "timed_out"
  | SimulatorError => "simulator_error"
  | InternalError => "internal_error"
  end.

Definition is_timeout_like_outcome (result : PoolQuoteResult) : bool :=
  pq_timed_out result || existsb is_timeout_message (pq_errors result).

Definition failure_context (descriptor : PoolDescriptor) : FailureContext :=
  {| fc_pool_id := pd_id descriptor; fc_pool_name := Some (pd_name descriptor);
     fc_pool_address := Some (pd_address descriptor);
     fc_protocol := Some (pd_protocol descriptor) |}.

Definition pool_outcome_from_failure (failure : QuoteFailure) (expected_len : nat) :
    option PoolSimulationOutcome :=
  pool ← qf_pool failure;
  outcome ← match qf_kind failure with
            | FailureTimeout => Some TimedOut
            | FailureInternal => Some InternalError
            | FailureSimulator | FailureOverflow | FailureInconsistentResult =>
                Some SimulatorError
            | _ => None
            end;
  Some (make_pool_outcome
          {| pd_id := pool; pd_name := default "unknown" (qf_pool_name failure);
             pd_address := default "unknown" (qf_pool_address failure);
             pd_protocol := default "unknown" (qf_protocol failure) |}
          outcome 0 expected_len (Some (qf_message failure))).

Definition panic_payload_message (payload : PanicPayload) : string :=
  match payload with
  | PanicStr message => message
  | PanicString message => message
  | PanicOther => "unknown panic payload"
  end.

(** ** Names and tokens of a pool *)

Section pool.
Context `{QuoteApi}.

Definition decode_attribute (value : Bytes) : option string :=
  if bool_decide (value = "") then None
  else
    let bytes := pop_zeros value in
    if utf8_valid bytes then
      let s := str_trim bytes in
      if not_empty s then Some s else None
    else None.

Definition derive_pool_name (component : ProtocolComponent) : string :=
  match find_map (λ key, label ← static_attributes component !! key;
                         label ← decode_attribute label;
                         if not_empty label then Some label else None)
          ["pool_name"; "name"; "label"] with
  | Some label => label
  | None =>
      let symbols :=
        filter (λ symbol, Is_true (not_empty symbol)) (token_symbol <$> component_tokens component) in
      if negb (bool_decide (symbols = [])) then
        protocol_system component +:+ "::" +:+ str_join "/" symbols
      else if not_empty (protocol_type_name component) then
        protocol_system component +:+ "::" +:+ protocol_type_name component
      else protocol_system component
  end.

Definition pool_descriptor (id : string) (component : ProtocolComponent) : PoolDescriptor :=
  {| pd_name := derive_pool_name component;
     pd_address := Bytes_to_string (component_id component);
     pd_protocol :=
       match ProtocolKind_from_component component with
       | Some kind => ProtocolKind_as_str kind
       | None => protocol_system component
       end;
     pd_id := id |}.

Definition has_token (component : ProtocolComponent) (address : Bytes) : bool :=
  existsb (λ token, bool_decide (token_address token = address)) (component_tokens component).

Definition remap_request_token_for_pool (request_token : Token) (component : ProtocolComponent) :
    Token :=
  let native := chain_native_token (token_chain request_token) in
  let wrapped_native := chain_wrapped_native_token (token_chain request_token) in
  if bool_decide (token_address native = token_address wrapped_native) then request_token
  else
    let pool_has_native := has_token component (token_address native) in
    let pool_has_wrapped := has_token component (token_address wrapped_native) in
    if bool_decide (token_address request_token = token_address wrapped_native)
       && pool_has_native && negb pool_has_wrapped then native
    else if bool_decide (token_address request_token = token_address native)
       && pool_has_wrapped && negb pool_has_native then wrapped_native
    else request_token.

Definition simulation_tokens_for_pool (request_token_in request_token_out : Token)
    (component : ProtocolComponent) : Token * Token :=
  (remap_request_token_for_pool request_token_in component,
   remap_request_token_for_pool request_token_out component).

Definition is_directional_rfq_component (component : ProtocolComponent) : bool :=
  bool_decide (protocol_system component = "rfq:hashflow")
  || bool_decide (protocol_type_name component = "hashflow_pool")
  || bool_decide (protocol_system component = "rfq:liquorice")
  || bool_decide (protocol_type_name component = "liquorice_pool").

Definition directional_rfq_candidate_matches_direction
    (request_token_in request_token_out : Token) (component : ProtocolComponent) : bool :=
  match component_tokens component with
  | expected_token_in :: expected_token_out :: _ =>
      let '(sim_token_in, sim_token_out) :=
        simulation_tokens_for_pool request_token_in request_token_out component in
      bool_decide (token_address sim_token_in = token_address expected_token_in)
      && bool_decide (token_address sim_token_out = token_address expected_token_out)
  | _ => false
  end.

Definition is_direct_native_wrapped_pair (token_in token_out : Bytes)
    (wrapped_native : option Bytes) : bool :=
  match wrapped_native with
  | None => false
  | Some wrapped_native =>
      (bool_decide (token_in = native_token_address) && bool_decide (token_out = wrapped_native))
      || (bool_decide (token_in = wrapped_native)
            && bool_decide (token_out = native_token_address))
  end.
End pool.

(** ** One pool's simulations *)

(** What the worker of a pool sees: the cancellation before it starts, before each amount
    and before each stress quote, and its own failure. *)
Record PoolView := {
  pv_cancelled_before : bool;
  pv_cancelled_amount : nat → bool;
  pv_cancelled_stress : nat → bool;
  pv_worker_failure : option WorkerFailure;
}.

Inductive AmountQuoteOutcome :=
| Quoted (amount_out : N) (gas_used : u64)
| QuoteError (message : string)
| MissingGas
| QuoteCancelled.

Record AmountQuote := { aq_amount_in : N; aq_outcome : AmountQuoteOutcome }.

Record PoolQuoteAccumulator := {
  acc_amounts_out : list string;
  acc_gas_used : list u64;
  acc_successful_steps : nat;
  acc_first_successful_gas_used : option u64;
  acc_errors : list string;
  acc_timed_out : bool;
}.

Definition PoolQuoteAccumulator_new : PoolQuoteAccumulator :=
  {| acc_amounts_out := []; acc_gas_used := []; acc_successful_steps := 0;
     acc_first_successful_gas_used := None; acc_errors := []; acc_timed_out := false |}.

Inductive LadderStressQuote :=
| StressQuote (quote : N * N)
| PartialTail
| Missing.

Section runner.
Context `{QuoteApi} (descriptor : PoolDescriptor) (pool_state : ProtocolSim).
Context (token_in token_out : Token) (amounts : list N) (slippage : SlippageConfig).
Context (expected_len : nat) (view : PoolView).

Definition immediate_outcome (error : string) (timed_out : bool) : PoolSimOutcome :=
  Simulated
    {| pq_pool := pd_id descriptor; pq_pool_name := pd_name descriptor;
       pq_pool_address := pd_address descriptor; pq_protocol := pd_protocol descriptor;
       pq_amounts_out := []; pq_slippage := []; pq_limit_max_in := None; pq_gas_used := [];
       pq_successful_steps := 0; pq_first_successful_gas_used := None; pq_errors := [error];
       pq_timed_out := timed_out |}.

Definition preflight_outcome : option PoolSimOutcome :=
  if pv_cancelled_before view then Some (immediate_outcome "Cancelled" false) else None.

Definition quote_requested_amount (index : nat) (amount_in : N) : AmountQuote :=
  if pv_cancelled_amount view index
  then {| aq_amount_in := amount_in; aq_outcome := QuoteCancelled |}
  else
    match get_amount_out pool_state amount_in token_in token_out with
    | Ok (amount_out, _) =>
        match to_u64 (amount_out_gas pool_state amount_in token_in token_out) with
        | None => {| aq_amount_in := amount_in; aq_outcome := MissingGas |}
        | Some gas_used =>
            {| aq_amount_in := amount_in; aq_outcome := Quoted amount_out gas_used |}
        end
    | Err error => {| aq_amount_in := amount_in; aq_outcome := QuoteError error |}
    end.

(** A parallel map keeps the order of the amounts. *)
Definition quote_requested_amounts : list AmountQuote := imap quote_requested_amount amounts.

(** The flag says that the ladder stops here. *)
Definition record_amount_quote (quote : AmountQuote) (run : PoolQuoteAccumulator) :
    bool * PoolQuoteAccumulator :=
  match aq_outcome quote with
  | Quoted amount_out gas_used =>
      if (amount_out =? 0)%N then
        (false,
         {| acc_amounts_out := acc_amounts_out run ++ ["0"];
            acc_gas_used := acc_gas_used run ++ [0%N];
            acc_successful_steps := acc_successful_steps run;
            acc_first_successful_gas_used := acc_first_successful_gas_used run;
            acc_errors := acc_errors run; acc_timed_out := acc_timed_out run |})
      else
        (false,
         {| acc_amounts_out := acc_amounts_out run ++ [BigUint_to_string amount_out];
            acc_gas_used := acc_gas_used run ++ [gas_used];
            acc_successful_steps := S (acc_successful_steps run);
            acc_first_successful_gas_used :=
              Some (default gas_used (acc_first_successful_gas_used run));
            acc_errors := acc_errors run; acc_timed_out := acc_timed_out run |})
  | QuoteError message =>
      (false,
       {| acc_amounts_out := acc_amounts_out run ++ ["0"];
          acc_gas_used := acc_gas_used run ++ [0%N];
          acc_successful_steps := acc_successful_steps run;
          acc_first_successful_gas_used := acc_first_successful_gas_used run;
          acc_errors := acc_errors run ++ [message]; acc_timed_out := acc_timed_out run |})
  | MissingGas =>
      (true,
       {| acc_amounts_out := []; acc_gas_used := []; acc_successful_steps := 0;
          acc_first_successful_gas_used := None;
          acc_errors := acc_errors run ++ ["no gas reported"];
          acc_timed_out := acc_timed_out run |})
  | QuoteCancelled =>
      (true,
       {| acc_amounts_out := acc_amounts_out run; acc_gas_used := acc_gas_used run;
          acc_successful_steps := acc_successful_steps run;
          acc_first_successful_gas_used := acc_first_successful_gas_used run;
          acc_errors := acc_errors run ++ ["Cancelled"]; acc_timed_out := true |})
  end.

(** The loop over the quotes. *)
Fixpoint record_amount_quotes (quotes : list AmountQuote) (run : PoolQuoteAccumulator) :
    PoolQuoteAccumulator :=
  match quotes with
  | [] => run
  | quote :: quotes =>
      let '(stop, run) := record_amount_quote quote run in
      if stop then run else record_amount_quotes quotes run
  end.

Definition pool_limits : option N * option N :=
  match get_limits pool_state (token_address token_in) (token_address token_out) with
  | Ok (max_in, max_out) => (Some max_in, Some max_out)
  | Err _ => (None, None)
  end.

Definition next_ladder_stress_quote (index : nat) (amounts_out : list string) :
    LadderStressQuote :=
  match amounts !! S index with
  | None => Missing
  | Some stressed_amount_in =>
      match amounts_out !! S index ≫= BigUint_from_str with
      | None => Missing
      | Some stressed_amount_out =>
          if (stressed_amount_out =? 0)%N then PartialTail
          else StressQuote (stressed_amount_in, stressed_amount_out)
      end
  end.

Definition compute_local_stress_quote (index : nat) (amount_in : N) : option (N * N) :=
  if pv_cancelled_stress view index then None
  else
    let stress_in := compute_stress_input amount_in in
    let stressed_amount_in := (amount_in + stress_in)%N in
    '(stressed_amount_out, _) ←
      result_ok (get_amount_out pool_state stressed_amount_in token_in token_out);
    if (stressed_amount_out =? 0)%N then None
    else Some (stressed_amount_in, stressed_amount_out).

Definition stress_quote_for_index (index : nat) (amount_in : N) (amounts_out : list string) :
    option (N * N) :=
  match next_ladder_stress_quote index amounts_out with
  | StressQuote quote => Some quote
  | PartialTail => None
  | Missing => compute_local_stress_quote index amount_in
  end.

Definition first_usable_quote (amounts_out : list string) : option (N * N) :=
  find_map (λ '(index, amount_out),
      amount_in ← amounts !! index;
      (amount_in,.) <$> usable_amount amount_out)
    (imap pair amounts_out).

Definition ladder_slippage_bps (amounts_out : list string) (limit_max_out : option N)
    (index : nat) (amount_out : string) : u32 :=
  match amounts !! index with
  | None => 0%N
  | Some amount_in =>
      match usable_amount amount_out with
      | None => 0%N
      | Some amount_out =>
          let stress_quote := stress_quote_for_index index amount_in amounts_out in
          let base_slippage :=
            compute_dynamic_slippage_bps amount_in amount_out (fst <$> stress_quote)
              (snd <$> stress_quote) limit_max_out
              (observed_soft_ladder_max_out amounts amounts_out) slippage in
          let cumulative_penalty :=
            match first_usable_quote amounts_out with
            | Some (base_in, base_out) =>
                cumulative_degradation_slippage_bps base_in base_out amount_in amount_out slippage
            | None => 0%N
            end in
          N.min (u32_add base_slippage cumulative_penalty) (max_dynamic_slippage_bps slippage)
      end
  end.

Definition compute_local_slippage_ladder (amounts_out : list string) (limit_max_out : option N) :
    list u32 :=
  enforce_non_decreasing_slippage 0 amounts_out
    (imap (ladder_slippage_bps amounts_out limit_max_out) amounts_out).

Definition finish_quote_amounts (run : PoolQuoteAccumulator) (limit_max_in limit_max_out : option N) :
    PoolSimOutcome :=
  let missing := (expected_len - length (acc_amounts_out run))%nat in
  let '(amounts_out, gas_used, slippage_bps, limit_max_in) :=
    if bool_decide (0 < acc_successful_steps run)%nat then
      let effective_limit_max_in :=
        sanitize_limit_max_in amounts (acc_amounts_out run) limit_max_in limit_max_out in
      let slippage_bps := compute_local_slippage_ladder (acc_amounts_out run) limit_max_out in
      (acc_amounts_out run ++ replicate missing "0", acc_gas_used run ++ replicate missing 0%N,
       slippage_bps ++ replicate missing 0%N, effective_limit_max_in)
    else (acc_amounts_out run, acc_gas_used run, [], limit_max_in) in
  Simulated
    {| pq_pool := pd_id descriptor; pq_pool_name := pd_name descriptor;
       pq_pool_address := pd_address descriptor; pq_protocol := pd_protocol descriptor;
       pq_amounts_out := amounts_out; pq_slippage := slippage_bps;
       pq_limit_max_in := limit_max_in; pq_gas_used := gas_used;
       pq_successful_steps := acc_successful_steps run;
       pq_first_successful_gas_used := acc_first_successful_gas_used run;
       pq_errors := acc_errors run; pq_timed_out := acc_timed_out run |}.

Definition quote_amounts : PoolSimOutcome :=
  let '(limit_max_in, limit_max_out) := pool_limits in
  let quotes := quote_requested_amounts in
  let run := record_amount_quotes quotes PoolQuoteAccumulator_new in
  finish_quote_amounts run limit_max_in limit_max_out.

Definition run_pool_simulation : PoolSimOutcome :=
  match preflight_outcome with
  | Some outcome => outcome
  | None => quote_amounts
  end.

Definition simulate_pool : result QuoteFailure PoolSimOutcome :=
  match SimulationExecutor_run (pv_worker_failure view) run_pool_simulation with
  | Ok result => Ok result
  | Err (WorkerFailurePanicked panic) =>
      let context := failure_context descriptor in
      let message :=
        format_pool_descriptor context +:+ ": Quote computation panicked: "
          +:+ panic_payload_message panic in
      Err (make_failure FailureInternal message (Some context))
  | Err WorkerFailureDropped =>
      let context := failure_context descriptor in
      let message := format_pool_descriptor context +:+ ": Quote computation result dropped" in
      Err (make_failure FailureInternal message (Some context))
  end.
End runner.

(** [classify_pool_outcome]. *)
Definition classify_pool_outcome `{RouteApi} (result : PoolQuoteResult) (expected_len : nat) :
    option (PoolOutcomeKind * option string) :=
  let steps := pq_successful_steps result in
  let first_error := head (pq_errors result) in
  if is_timeout_like_outcome result then
    Some (TimedOut,
          Some (default ("Pool simulation timed out after " +:+ nat_to_string steps
                           +:+ " reported step(s)") first_error))
  else if bool_decide (steps = 0)%nat then
    if negb (bool_decide (pq_errors result = [])) then Some (SimulatorError, first_error)
    else Some (ZeroOutput, None)
  else if bool_decide (pq_errors result = [])
          && negb (amounts_out_include_positive_quote (pq_amounts_out result)) then
    Some (ZeroOutput, None)
  else if bool_decide (steps < expected_len)%nat then
    Some (PartialOutput,
          Some ("Pool returned usable quotes for " +:+ nat_to_string steps +:+ " of "
                  +:+ nat_to_string expected_len +:+ " requested amounts"))
  else if negb (bool_decide (pq_errors result = [])) then Some (SimulatorError, first_error)
  else None.
