(* ===== verification/QuoteRun.v ===== *)
(** * Classifying and collecting quotes

    The state of a request in [runtime/src/services/quotes.rs]: metrics, classification, the
    exits, and the collection of the results of pools.  Pools are quoted by concurrent
    tasks, which end in any order: a schedule lists the tasks as the runner finds them ended,
    and the cancellation of the request if it sees it first. *)

From S2P Require Import Prelude Ordered Text Protocol Store.
From S2P Require Import RouteTypes RouteResimulate QuoteTypes QuoteSlippage QuotePools.
From Stdlib Require Import SpecFloat.

(** ** Metrics *)

(** The fields [{vm,rfq}_completed_pools], [_median_first_gas], [_low_first_gas_count],
    [_low_first_gas_ratio] and [_low_first_gas_samples]. *)
Record GasMetrics := {
  gm_completed_pools : nat;
  gm_median_first_gas : option u64;
  gm_low_first_gas_count : nat;
  gm_low_first_gas_ratio : option f64;
  gm_low_first_gas_samples : list string;
}.

Definition GasMetrics_default : GasMetrics :=
  {| gm_completed_pools := 0; gm_median_first_gas := None; gm_low_first_gas_count := 0;
     gm_low_first_gas_ratio := None; gm_low_first_gas_samples := [] |}.

Record QuoteMetrics := {
  qm_scheduled_native_pools : nat;
  qm_scheduled_vm_pools : nat;
  qm_scheduled_rfq_pools : nat;
  qm_skipped_vm_unavailable : bool;
  qm_skipped_rfq_unavailable : bool;
  qm_vm : GasMetrics;
  qm_rfq : GasMetrics;
}.

Definition QuoteMetrics_default : QuoteMetrics :=
  {| qm_scheduled_native_pools := 0; qm_scheduled_vm_pools := 0; qm_scheduled_rfq_pools := 0;
     qm_skipped_vm_unavailable := false; qm_skipped_rfq_unavailable := false;
     qm_vm := GasMetrics_default; qm_rfq := GasMetrics_default |}.

Inductive ScheduledPoolKind := ScheduledNative | ScheduledVm | ScheduledRfq.

Definition scheduled_uses_rebuild_guard (kind : ScheduledPoolKind) : bool :=
  match kind with ScheduledVm | ScheduledRfq => true | ScheduledNative => false end.

Definition mark_scheduled (kind : ScheduledPoolKind) (m : QuoteMetrics) : QuoteMetrics :=
  let bump (b : bool) n := if b then S n else n in
  {| qm_scheduled_native_pools :=
       bump (match kind with ScheduledNative => true | _ => false end)
         (qm_scheduled_native_pools m);
     qm_scheduled_vm_pools :=
       bump (match kind with ScheduledVm => true | _ => false end) (qm_scheduled_vm_pools m);
     qm_scheduled_rfq_pools :=
       bump (match kind with ScheduledRfq => true | _ => false end) (qm_scheduled_rfq_pools m);
     qm_skipped_vm_unavailable := qm_skipped_vm_unavailable m;
     qm_skipped_rfq_unavailable := qm_skipped_rfq_unavailable m;
     qm_vm := qm_vm m; qm_rfq := qm_rfq m |}.

Definition set_skipped (vm rfq : bool) (m : QuoteMetrics) : QuoteMetrics :=
  {| qm_scheduled_native_pools := qm_scheduled_native_pools m;
     qm_scheduled_vm_pools := qm_scheduled_vm_pools m;
     qm_scheduled_rfq_pools := qm_scheduled_rfq_pools m;
     qm_skipped_vm_unavailable := qm_skipped_vm_unavailable m || vm;
     qm_skipped_rfq_unavailable := qm_skipped_rfq_unavailable m || rfq;
     qm_vm := qm_vm m; qm_rfq := qm_rfq m |}.

Definition set_gas (vm rfq : GasMetrics) (m : QuoteMetrics) : QuoteMetrics :=
  {| qm_scheduled_native_pools := qm_scheduled_native_pools m;
     qm_scheduled_vm_pools := qm_scheduled_vm_pools m;
     qm_scheduled_rfq_pools := qm_scheduled_rfq_pools m;
     qm_skipped_vm_unavailable := qm_skipped_vm_unavailable m;
     qm_skipped_rfq_unavailable := qm_skipped_rfq_unavailable m; qm_vm := vm; qm_rfq := rfq |}.

Definition VM_LOW_FIRST_GAS_THRESHOLD : u64 := 600000.
Definition VM_LOW_FIRST_GAS_SAMPLE_CAP : nat := 3.

(** [record_vm_first_gas_metrics] for the prefix ["vm:"], [record_rfq_first_gas_metrics]
    for ["rfq:"], with the list of gases they push to. *)
Definition record_first_gas_metrics (prefix : string) (protocol pool_id : string)
    (first_gas : option u64) (m : GasMetrics * list u64) : GasMetrics * list u64 :=
  let '(metrics, first_gases) := m in
  if negb (String.prefix prefix protocol) then m
  else
    match first_gas with
    | None => m
    | Some first_gas =>
        let low := (first_gas <? VM_LOW_FIRST_GAS_THRESHOLD)%N in
        let samples := gm_low_first_gas_samples metrics in
        ({| gm_completed_pools := S (gm_completed_pools metrics);
            gm_median_first_gas := gm_median_first_gas metrics;
            gm_low_first_gas_count :=
              if low then S (gm_low_first_gas_count metrics) else gm_low_first_gas_count metrics;
            gm_low_first_gas_ratio := gm_low_first_gas_ratio metrics;
            gm_low_first_gas_samples :=
              if low && bool_decide (length samples < VM_LOW_FIRST_GAS_SAMPLE_CAP)%nat
              then samples ++ [protocol +:+ ":" +:+ pool_id +:+ ":" +:+ u64_to_string first_gas]
              else samples |},
         first_gases ++ [first_gas])
    end.

Definition median_u64 (values : list u64) : option u64 :=
  if bool_decide (values = []) then None
  else
    let values := sort values in
    let mid := (length values / 2)%nat in
    if bool_decide (length values mod 2 = 1)%nat then values !! mid
    else
      low ← values !! (mid - 1)%nat;
      high ← values !! mid;
      Some ((low + high) / 2)%N.

(** [n as f64]. *)
Definition f64_of_nat (n : nat) : f64 := binary_normalize 53 1024 (Z.of_nat n) 0 false.

(** [finalize_vm_first_gas_metrics] and [finalize_rfq_first_gas_metrics]. *)
Definition finalize_first_gas_metrics (metrics : GasMetrics) (first_gases : list u64) : GasMetrics :=
  match median_u64 first_gases with
  | None => metrics
  | Some median_gas =>
      {| gm_completed_pools := gm_completed_pools metrics;
         gm_median_first_gas := Some median_gas;
         gm_low_first_gas_count := gm_low_first_gas_count metrics;
         gm_low_first_gas_ratio :=
           Some (SFdiv 53 1024 (f64_of_nat (gm_low_first_gas_count metrics))
                   (f64_of_nat (gm_completed_pools metrics)));
         gm_low_first_gas_samples := gm_low_first_gas_samples metrics |}
  end.

(** ** Classification *)

Inductive PartialClassification :=
| PartialNone
| PartialAmountLadders
| PartialPoolCoverage
| PartialMixed.

Definition note_partial_amount_coverage (p : PartialClassification) : PartialClassification :=
  match p with
  | PartialNone | PartialAmountLadders => PartialAmountLadders
  | PartialPoolCoverage | PartialMixed => PartialMixed
  end.

Definition note_pool_coverage_gap (p : PartialClassification) : PartialClassification :=
  match p with
  | PartialNone | PartialPoolCoverage => PartialPoolCoverage
  | PartialAmountLadders | PartialMixed => PartialMixed
  end.

Definition as_partial_kind (p : PartialClassification) : option QuotePartialKind :=
  match p with
  | PartialNone => None
  | PartialAmountLadders => Some AmountLadders
  | PartialPoolCoverage => Some PoolCoverage
  | PartialMixed => Some Mixed
  end.

Inductive NoResultFailureClassification := LiquidityLike | OperationallyDegraded.

#[export] Instance NoResultFailureClassification_eq_dec :
  EqDecision NoResultFailureClassification.
Proof. solve_decision. Defined.

Record QuoteClassification := {
  qc_partial : PartialClassification;
  qc_had_usable_response : bool;
  qc_no_result_failures : NoResultFailureClassification;
}.

Definition QuoteClassification_new : QuoteClassification :=
  {| qc_partial := PartialNone; qc_had_usable_response := false;
     qc_no_result_failures := LiquidityLike |}.

Definition mark_request_degradation (c : QuoteClassification) : QuoteClassification :=
  {| qc_partial := qc_partial c; qc_had_usable_response := qc_had_usable_response c;
     qc_no_result_failures := OperationallyDegraded |}.

Definition note_response (c : QuoteClassification) : QuoteClassification :=
  {| qc_partial := qc_partial c; qc_had_usable_response := true;
     qc_no_result_failures := qc_no_result_failures c |}.

Definition note_pool_outcome_with_steps (outcome : PoolOutcomeKind)
    (reported_steps expected_steps : nat) (c : QuoteClassification) : QuoteClassification :=
  let note :=
    if bool_decide (outcome = TimedOut) && bool_decide (0 < reported_steps)%nat
       && bool_decide (reported_steps < expected_steps)%nat
    then note_partial_amount_coverage
    else match outcome with
         | PartialOutput => note_partial_amount_coverage
         | ZeroOutput | TimedOut | SimulatorError | InternalError => note_pool_coverage_gap
         end in
  {| qc_partial := note (qc_partial c); qc_had_usable_response := qc_had_usable_response c;
     qc_no_result_failures := qc_no_result_failures c |}.

Definition note_pool_outcome (outcome : PoolOutcomeKind) : QuoteClassification → QuoteClassification :=
  note_pool_outcome_with_steps outcome 0 0.

Definition note_failure (failure : QuoteFailure) (c : QuoteClassification) : QuoteClassification :=
  if is_liquidity_like_failure failure then c else mark_request_degradation c.

(** ** The run of a request *)

Record QuoteRunState := {
  run_responses : list AmountOutResponse;
  run_failures : list QuoteFailure;
  run_pool_results : list PoolSimulationOutcome;
  run_metrics : QuoteMetrics;
  run_meta : QuoteMeta;
  run_classification : QuoteClassification;
}.

Record QuoteComputation := {
  qcomp_responses : list AmountOutResponse;
  qcomp_meta : QuoteMeta;
  qcomp_metrics : QuoteMetrics;
}.

Record RequestExit := {
  rx_status : QuoteStatus;
  rx_result_quality : QuoteResultQuality;
  rx_partial_kind : option QuotePartialKind;
}.

Definition RequestExit_new (status : QuoteStatus) (result_quality : QuoteResultQuality) :
    RequestExit :=
  {| rx_status := status; rx_result_quality := result_quality; rx_partial_kind := None |}.

Definition with_partial_kind (kind : QuotePartialKind) (exit : RequestExit) : RequestExit :=
  {| rx_status := rx_status exit; rx_result_quality := rx_result_quality exit;
     rx_partial_kind := Some kind |}.

Definition request_failure (status : QuoteStatus) : RequestExit :=
  RequestExit_new status RequestLevelFailure.

Definition build_request_exit (run : QuoteRunState) (exit : RequestExit) : QuoteComputation :=
  let meta := run_meta run in
  let metrics := run_metrics run in
  {| qcomp_responses := run_responses run;
     qcomp_meta :=
       {| me_status := rx_status exit; me_result_quality := rx_result_quality exit;
          me_partial_kind := rx_partial_kind exit; me_block_number := me_block_number meta;
          me_vm_block_number := me_vm_block_number meta;
          me_rfq_update_timestamp := me_rfq_update_timestamp meta;
          me_matching_pools := me_matching_pools meta;
          me_candidate_pools := me_candidate_pools meta; me_total_pools := me_total_pools meta;
          me_auction_id := me_auction_id meta; me_pool_results := run_pool_results run;
          me_vm_unavailable := qm_skipped_vm_unavailable metrics;
          me_rfq_unavailable := qm_skipped_rfq_unavailable metrics;
          me_failures := run_failures run |};
     qcomp_metrics := metrics |}.

(** Field assignments. *)
Definition over_classification (f : QuoteClassification → QuoteClassification)
    (run : QuoteRunState) : QuoteRunState :=
  {| run_responses := run_responses run; run_failures := run_failures run;
     run_pool_results := run_pool_results run; run_metrics := run_metrics run;
     run_meta := run_meta run; run_classification := f (run_classification run) |}.
Definition over_metrics (f : QuoteMetrics → QuoteMetrics) (run : QuoteRunState) : QuoteRunState :=
  {| run_responses := run_responses run; run_failures := run_failures run;
     run_pool_results := run_pool_results run; run_metrics := f (run_metrics run);
     run_meta := run_meta run; run_classification := run_classification run |}.
Definition set_meta (meta : QuoteMeta) (run : QuoteRunState) : QuoteRunState :=
  {| run_responses := run_responses run; run_failures := run_failures run;
     run_pool_results := run_pool_results run; run_metrics := run_metrics run;
     run_meta := meta; run_classification := run_classification run |}.
Definition set_responses (responses : list AmountOutResponse) (run : QuoteRunState) :
    QuoteRunState :=
  {| run_responses := responses; run_failures := run_failures run;
     run_pool_results := run_pool_results run; run_metrics := run_metrics run;
     run_meta := run_meta run; run_classification := run_classification run |}.
Definition set_pool_results (pool_results : list PoolSimulationOutcome) (run : QuoteRunState) :
    QuoteRunState :=
  {| run_responses := run_responses run; run_failures := run_failures run;
     run_pool_results := pool_results; run_metrics := run_metrics run;
     run_meta := run_meta run; run_classification := run_classification run |}.

Definition push_failure (failure : QuoteFailure) (run : QuoteRunState) : QuoteRunState :=
  {| run_responses := run_responses run; run_failures := run_failures run ++ [failure];
     run_pool_results := run_pool_results run; run_metrics := run_metrics run;
     run_meta := run_meta run;
     run_classification := note_failure failure (run_classification run) |}.

Definition classify_ready_exit (run : QuoteRunState) : RequestExit :=
  let classification := run_classification run in
  if qc_had_usable_response classification then
    if bool_decide (length (run_pool_results run) = 0%nat)
       && bool_decide (length (run_failures run) = 0%nat)
    then RequestExit_new StatusReady Complete
    else
      with_partial_kind (default PoolCoverage (as_partial_kind (qc_partial classification)))
        (RequestExit_new StatusReady Partial)
  else if bool_decide (qc_no_result_failures classification = LiquidityLike)
  then RequestExit_new StatusNoLiquidity NoResults
  else request_failure StatusInternalError.

Definition classify_current_exit (run : QuoteRunState) : RequestExit :=
  match me_status (run_meta run) with
  | StatusReady => classify_ready_exit run
  | StatusNoLiquidity => RequestExit_new StatusNoLiquidity NoResults
  | status => request_failure status
  end.

Definition finalize_responses (run : QuoteRunState) : QuoteRunState :=
  set_responses (sort_by_key (λ r, (ao_pool r, ao_pool_address r)) (run_responses run)) run.

Definition pool_result_key (r : PoolSimulationOutcome) : string * (string * (string * string)) :=
  (po_protocol r, (po_pool r, (po_pool_address r, outcome_kind_label (po_outcome r)))).

Definition finalize_pool_results (run : QuoteRunState) : QuoteRunState :=
  set_pool_results (sort_by_key pool_result_key (run_pool_results run)) run.

Definition finish_current_state (run : QuoteRunState) : QuoteComputation :=
  let run := finalize_pool_results (finalize_responses run) in
  build_request_exit run (classify_current_exit run).

(** ** Collecting the results of the pools *)

Record PoolCollection := {
  col_run : QuoteRunState;
  col_vm_first_gases : list u64;
  col_rfq_first_gases : list u64;
}.

Definition over_run (f : QuoteRunState → QuoteRunState) (col : PoolCollection) : PoolCollection :=
  {| col_run := f (col_run col); col_vm_first_gases := col_vm_first_gases col;
     col_rfq_first_gases := col_rfq_first_gases col |}.

Section collect.
Context `{QuoteApi} (expected_len : nat).

Definition record_first_gas (result : PoolQuoteResult) (col : PoolCollection) : PoolCollection :=
  let metrics := run_metrics (col_run col) in
  let record prefix m :=
    record_first_gas_metrics prefix (pq_protocol result) (pq_pool result)
      (pq_first_successful_gas_used result) m in
  let '(vm, vm_first_gases) := record "vm:" (qm_vm metrics, col_vm_first_gases col) in
  let '(rfq, rfq_first_gases) := record "rfq:" (qm_rfq metrics, col_rfq_first_gases col) in
  {| col_run := over_metrics (set_gas vm rfq) (col_run col);
     col_vm_first_gases := vm_first_gases; col_rfq_first_gases := rfq_first_gases |}.

Definition result_descriptor (result : PoolQuoteResult) : PoolDescriptor :=
  {| pd_id := pq_pool result; pd_name := pq_pool_name result;
     pd_address := pq_pool_address result; pd_protocol := pq_protocol result |}.

Definition record_pool_outcome (result : PoolQuoteResult) (run : QuoteRunState) : QuoteRunState :=
  match classify_pool_outcome result expected_len with
  | None => run
  | Some (outcome, reason) =>
      let run :=
        over_classification
          (note_pool_outcome_with_steps outcome (pq_successful_steps result) expected_len) run in
      set_pool_results
        (run_pool_results run
           ++ [make_pool_outcome (result_descriptor result) outcome (pq_successful_steps result)
                 expected_len reason]) run
  end.

(** The failure a result is reported with, if any. *)
Definition pool_error (result : PoolQuoteResult) (had_timeout is_partial : bool) :
    option QuoteFailure :=
  if bool_decide (pq_errors result = []) && negb is_partial then None
  else
    let context := failure_context (result_descriptor result) in
    let descriptor := format_pool_descriptor context in
    let steps := pq_successful_steps result in
    message ←
      (if had_timeout then
         Some (descriptor +:+ ": Pool quote stopped after " +:+ nat_to_string steps +:+ " of "
                 +:+ nat_to_string expected_len +:+ " requested amounts produced usable quotes")
       else if bool_decide (steps = 0)%nat then
         Some (descriptor +:+ ": "
                 +:+ default "Pool returned no quotes" (head (pq_errors result)))
       else if is_partial then
         base_error ← head (pq_errors result); Some (descriptor +:+ ": " +:+ base_error)
       else
         Some (descriptor +:+ ": "
                 +:+ default "Pool returned a malformed result" (head (pq_errors result))));
    let kind := if had_timeout then FailureTimeout else classify_failure message true in
    Some (make_failure kind message (Some context)).

Definition record_pool_errors (result : PoolQuoteResult) (had_timeout is_partial : bool)
    (run : QuoteRunState) : QuoteRunState :=
  match pool_error result had_timeout is_partial with
  | Some failure => push_failure failure run
  | None => run
  end.

(** [while amounts_out.len() < expected_len]. *)
Definition pad_result (result : PoolQuoteResult) : PoolQuoteResult :=
  if bool_decide (0 < pq_successful_steps result)%nat then
    let missing := (expected_len - length (pq_amounts_out result))%nat in
    {| pq_pool := pq_pool result; pq_pool_name := pq_pool_name result;
       pq_pool_address := pq_pool_address result; pq_protocol := pq_protocol result;
       pq_amounts_out := pq_amounts_out result ++ replicate missing "0";
       pq_slippage := pq_slippage result; pq_limit_max_in := pq_limit_max_in result;
       pq_gas_used := pq_gas_used result ++ replicate missing 0%N;
       pq_successful_steps := pq_successful_steps result;
       pq_first_successful_gas_used := pq_first_successful_gas_used result;
       pq_errors := pq_errors result; pq_timed_out := pq_timed_out result |}
  else result.

Definition pool_response (result : PoolQuoteResult) (block_number : u64) : AmountOutResponse :=
  {| ao_pool := pq_pool result; ao_pool_name := pq_pool_name result;
     ao_pool_address := pq_pool_address result; ao_amounts_out := pq_amounts_out result;
     ao_slippage := pq_slippage result;
     ao_limit_max_in := BigUint_to_string <$> pq_limit_max_in result;
     ao_gas_used := pq_gas_used result; ao_block_number := block_number |}.

Definition handle_simulated_pool_result (result : PoolQuoteResult) (col : PoolCollection) :
    PoolCollection :=
  let result := pad_result result in
  let has_usable_output := amounts_out_include_positive_quote (pq_amounts_out result) in
  let had_timeout := is_timeout_like_outcome result in
  let is_partial :=
    has_usable_output && bool_decide (pq_successful_steps result < expected_len)%nat in
  let col := record_first_gas result col in
  let col := over_run (record_pool_outcome result) col in
  let col := over_run (record_pool_errors result had_timeout is_partial) col in
  if has_usable_output then
    over_run (λ run,
        over_classification note_response
          (set_responses
             (run_responses run ++ [pool_response result (me_block_number (run_meta run))]) run))
      col
  else col.

Definition handle_pool_failure (failure : QuoteFailure) (run : QuoteRunState) : QuoteRunState :=
  let run :=
    match pool_outcome_from_failure failure expected_len with
    | Some pool_outcome =>
        let run := over_classification (note_pool_outcome (po_outcome pool_outcome)) run in
        set_pool_results (run_pool_results run ++ [pool_outcome]) run
    | None => run
    end in
  push_failure failure run.

Abbreviation PoolTaskOutcome := (result QuoteFailure PoolSimOutcome).

Definition handle_pool_task_outcome (outcome : PoolTaskOutcome) (col : PoolCollection) :
    PoolCollection :=
  match outcome with
  | Ok (Simulated result) => handle_simulated_pool_result result col
  | Err failure => over_run (handle_pool_failure failure) col
  end.

(** What [select!] finds: the task with this number has ended, or the request is
    cancelled. *)
Inductive SelectEvent := TaskEnded (task : nat) | RequestCancelled.

Definition cancel_collection (run : QuoteRunState) : QuoteRunState :=
  push_failure
    (make_failure FailureTimeout "Quote computation cancelled before all pools completed" None)
    (over_classification (note_pool_outcome TimedOut)
       (over_classification mark_request_degradation run)).

(** [None]: the schedule ends while tasks are running.  A number that is not a running
    task's is no event. *)
Fixpoint collect_pool_task_results (schedule : list SelectEvent)
    (tasks : gmap nat PoolTaskOutcome) (col : PoolCollection) : option PoolCollection :=
  if bool_decide (tasks = ∅) then Some col
  else
    match schedule with
    | [] => None
    | RequestCancelled :: _ => Some (over_run cancel_collection col)
    | TaskEnded task :: schedule =>
        match tasks !! task with
        | None => collect_pool_task_results schedule tasks col
        | Some outcome =>
            collect_pool_task_results schedule (delete task tasks)
              (handle_pool_task_outcome outcome col)
        end
    end.

Definition apply_empty_response_state (run : QuoteRunState) : QuoteRunState :=
  if qc_had_usable_response (run_classification run) then run
  else if bool_decide (length (run_failures run) = 0%nat) then
    push_failure (make_failure FailureSimulator "All pools returned zero amounts" None) run
  else run.
End collect.

Abbreviation PoolTaskOutcome := (result QuoteFailure PoolSimOutcome).
