(* ===== verification/QuoteRequest.v ===== *)
(** * A quote request

    [QuoteRequestRunner] and [get_amounts_out] of [runtime/src/services/quotes.rs], and
    [runtime/src/services/quote_service.rs] with its timeout.

    The task waits at many points, and the rest of the server goes on: the state of the
    server at the n-th wait is the n-th [QuoteWorld] of an arbitrary sequence.  What the
    request sees of its cancellation, at each of its checks, is a [CancelView]. *)

From S2P Require Import Prelude Ordered Text Protocol Store Health Readiness Requests.
From S2P Require Import RouteTypes RouteResimulate QuoteTypes QuoteSlippage QuotePools QuoteRun.

(** What the fields of [AppState] that never change say about quotes. *)
Record QuoteServer `{RouteApi} := {
  qv_slippage : SlippageConfig;
  qv_erc4626_deposits_enabled : bool;
  qv_erc4626_pair_policies : list Erc4626PairPolicy;
  qv_wrapped_native_token : option Bytes;
  qv_request_timeout : Duration;
}.

(** The server at one instant. *)
Record QuoteWorld `{RouteApi} := {
  qw_now : Instant;
  qw_app : AppState;
  qw_tokens : TokenStore;
  qw_fetch_token : Bytes → result TokenStoreError (option Token);
}.

(** [TokenStore::ensure]. *)
Definition ensure_quote_token `{RouteApi} (w : QuoteWorld) (address : Bytes) :
    result TokenStoreError (option Token) :=
  match TokenStore_get (qw_tokens w) address with
  | Some token => Ok (Some token)
  | None => qw_fetch_token w address
  end.

(** What the checks of the request's cancellation see: before execution, before each
    candidate of a group is scheduled, and in each task. *)
Record CancelView := {
  cv_before : bool;
  cv_scheduling : ScheduledPoolKind → nat → bool;
  cv_pool : nat → PoolView;
}.

Section request.
Context `{QuoteApi} `{HashOrder} (server : QuoteServer) (world : nat → QuoteWorld).
Context (app_at : Instant → AppState) (overshoot : nat → Duration).
Context (request : AmountOutRequest) (cancel : CancelView).

Abbreviation CandidatePool := (string * PoolEntry)%type.

Record RequestPair := {
  pair_token_in_address : string;
  pair_token_out_address : string;
  pair_token_in_bytes : Bytes;
  pair_token_out_bytes : Bytes;
}.

Record CandidateSets := {
  cs_native_candidates : list CandidatePool;
  cs_vm_candidates : list CandidatePool;
  cs_rfq_candidates : list CandidatePool;
}.

Record PreparedQuoteExecution := {
  pe_rebuild_guard : SimulationRebuildGuard;
  pe_token_in : Token;
  pe_token_out : Token;
  pe_amounts_in : list N;
  pe_expected_len : nat;
  pe_candidates : CandidateSets;
}.

Record NativeFence := {
  nf_request_generation : u64;
  nf_native_pool_ids : gset string;
}.

(** [QuoteRequestRunner], with the number of waits so far. *)
Record QuoteRequestRunner := {
  qr_run : QuoteRunState;
  qr_native_pin : option PublishedStateStore;
  qr_native_pool_ids : gset string;
  qr_waits : nat;
}.

Abbreviation quoteM := (stateR QuoteRequestRunner RequestExit).

Definition over_runner (f : QuoteRunState → QuoteRunState) (r : QuoteRequestRunner) :
    QuoteRequestRunner :=
  {| qr_run := f (qr_run r); qr_native_pin := qr_native_pin r;
     qr_native_pool_ids := qr_native_pool_ids r; qr_waits := qr_waits r |}.
Definition set_native_pin (pin : PublishedStateStore) (r : QuoteRequestRunner) :
    QuoteRequestRunner :=
  {| qr_run := qr_run r; qr_native_pin := Some pin;
     qr_native_pool_ids := qr_native_pool_ids r; qr_waits := qr_waits r |}.
Definition set_native_pool_ids (ids : gset string) (r : QuoteRequestRunner) :
    QuoteRequestRunner :=
  {| qr_run := qr_run r; qr_native_pin := qr_native_pin r; qr_native_pool_ids := ids;
     qr_waits := qr_waits r |}.

(** The server when a wait ends. *)
Definition quote_await : quoteM QuoteWorld := λ r,
  (Ok (world (qr_waits r)),
   {| qr_run := qr_run r; qr_native_pin := qr_native_pin r;
      qr_native_pool_ids := qr_native_pool_ids r; qr_waits := S (qr_waits r) |}).

(** [self.push_failure(make_failure(kind, message, None)); Err(exit)]. *)
Definition fail {A} (kind : QuoteFailureKind) (message : string) (exit : RequestExit) : quoteM A :=
  modify (over_runner (push_failure (make_failure kind message None))) ;; throw exit.

Definition native_block (w : QuoteWorld) : u64 := store_block (app_native_state_store (qw_app w)).
Definition vm_block (w : QuoteWorld) : option u64 := current_vm_block (qw_now w) (qw_app w).
Definition rfq_timestamp (w : QuoteWorld) : option u64 :=
  current_rfq_update_timestamp (qw_now w) (qw_app w).

(** [QuoteRequestRunner::new], after four waits. *)
Definition QuoteRequestRunner_new : QuoteRequestRunner :=
  {| qr_run :=
       {| run_responses := []; run_failures := []; run_pool_results := [];
          run_metrics := QuoteMetrics_default;
          run_meta :=
            {| me_status := StatusReady; me_result_quality := RequestLevelFailure;
               me_partial_kind := None;
               me_block_number := native_block (world 0);
               me_vm_block_number := vm_block (world 1);
               me_rfq_update_timestamp := rfq_timestamp (world 2);
               me_matching_pools := 0; me_candidate_pools := 0;
               me_total_pools := Some (total_pools (qw_app (world 3)));
               me_auction_id := ar_auction_id request; me_pool_results := [];
               me_vm_unavailable := false; me_rfq_unavailable := false; me_failures := [] |};
          run_classification := QuoteClassification_new |};
     qr_native_pin := None; qr_native_pool_ids := ∅; qr_waits := 4 |}.

(** ** Validation *)

Definition parse_token_address (raw field : string) : quoteM (string * Bytes) :=
  let address := str_to_lowercase (trim_0x raw) in
  match Bytes_from_str address with
  | Ok bytes => mret (address, bytes)
  | Err err =>
      fail FailureTokenValidation ("Invalid " +:+ field +:+ " address: " +:+ err)
        (request_failure StatusInvalidRequest)
  end.

Definition parse_pair : quoteM RequestPair :=
  '(token_in_address, token_in_bytes) ← parse_token_address (ar_token_in request) "token_in";
  '(token_out_address, token_out_bytes) ← parse_token_address (ar_token_out request) "token_out";
  if bool_decide (token_in_bytes = token_out_bytes) then
    fail FailureInvalidRequest "Same-token quotes are unsupported"
      (request_failure StatusInvalidRequest)
  else if is_direct_native_wrapped_pair token_in_bytes token_out_bytes
            (qv_wrapped_native_token server) then
    fail FailureInvalidRequest "Direct native/wrapped quotes are unsupported"
      (request_failure StatusInvalidRequest)
  else
    mret {| pair_token_in_address := token_in_address;
            pair_token_out_address := token_out_address;
            pair_token_in_bytes := token_in_bytes; pair_token_out_bytes := token_out_bytes |}.

Fixpoint parse_amount_list (amounts : list string) : result string (list N) :=
  match amounts with
  | [] => Ok []
  | amount :: amounts =>
      n ← ok_or (BigUint_from_str amount) (BigUint_parse_error amount);
      ns ← parse_amount_list amounts;
      Ok (n :: ns)
  end.

Definition parse_amounts : quoteM (list N) :=
  match parse_amount_list (ar_amounts request) with
  | Ok amounts_in => mret amounts_in
  | Err err =>
      fail FailureInvalidRequest ("Invalid amount: " +:+ err) (request_failure StatusInvalidRequest)
  end.

(** ** Readiness and tokens *)

Definition refresh_meta_snapshot : quoteM unit :=
  native_pin ← gets qr_native_pin;
  vm ← quote_await;
  rfq ← quote_await;
  totals ← quote_await;
  let native_pools := from_option total_states 0%nat native_pin in
  let app := qw_app totals in
  modify (over_runner (λ run,
      let meta := run_meta run in
      set_meta
        {| me_status := me_status meta; me_result_quality := me_result_quality meta;
           me_partial_kind := me_partial_kind meta;
           me_block_number := from_option ps_block_number 0%N native_pin;
           me_vm_block_number := vm_block vm; me_rfq_update_timestamp := rfq_timestamp rfq;
           me_matching_pools := me_matching_pools meta;
           me_candidate_pools := me_candidate_pools meta;
           me_total_pools :=
             Some (native_pools + store_pools (app_vm_state_store app)
                     + store_pools (app_rfq_state_store app))%nat;
           me_auction_id := me_auction_id meta; me_pool_results := me_pool_results meta;
           me_vm_unavailable := me_vm_unavailable meta;
           me_rfq_unavailable := me_rfq_unavailable meta; me_failures := me_failures meta |}
        run)).

Definition READINESS_WAIT : Duration := from_secs 2.

(** Waiting for readiness returns: [wait_for_readiness_returns]. *)
Definition becomes_ready (now : Instant) : bool :=
  default false
    (wait_for_readiness app_at overshoot (poll_fuel READINESS_WAIT) now READINESS_WAIT).

Definition pin_native : quoteM unit :=
  w ← quote_await;
  modify (set_native_pin (pin (app_native_state_store (qw_app w)))) ;;
  refresh_meta_snapshot.

Definition ensure_ready : quoteM unit :=
  w ← quote_await;
  if app_is_ready (qw_now w) (qw_app w) then pin_native
  else
    w ← quote_await;
    if becomes_ready (qw_now w) then pin_native
    else
      meta ← gets (λ r, run_meta (qr_run r));
      fail FailureWarmUp
        ("Service warming up: block=" +:+ u64_to_string (me_block_number meta) +:+ ", pools="
           +:+ nat_to_string (default 0%nat (me_total_pools meta)))
        (request_failure StatusWarmingUp).

Definition handle_token_lookup (lookup : result TokenStoreError (option Token))
    (token_address : string) : quoteM Token :=
  let missing message :=
    fail FailureTokenCoverage message (request_failure StatusTokenMissing) in
  match lookup with
  | Ok (Some token) => mret token
  | Ok None => missing ("Token not found: " +:+ token_address)
  | Err (FetchTimeout duration) =>
      missing ("Token metadata fetch timed out after " +:+ u64_to_string (as_millis_u64 duration)
                 +:+ "ms: " +:+ token_address)
  | Err (RequestFailed message) => missing ("Token metadata fetch failed: " +:+ message)
  end.

Definition load_tokens (pair : RequestPair) : quoteM (Token * Token) :=
  native_pin ← gets qr_native_pin;
  let pinned address := native_pin ← native_pin; ps_tokens native_pin !! address in
  match pinned (pair_token_in_bytes pair), pinned (pair_token_out_bytes pair) with
  | Some token_in, Some token_out => mret (token_in, token_out)
  | _, _ =>
      w_in ← quote_await;
      w_out ← quote_await;
      token_in ← handle_token_lookup (ensure_quote_token w_in (pair_token_in_bytes pair))
                   (pair_token_in_address pair);
      token_out ← handle_token_lookup (ensure_quote_token w_out (pair_token_out_bytes pair))
                    (pair_token_out_address pair);
      mret (token_in, token_out)
  end.

(** ** Candidates *)

Definition filter_unsupported_erc4626_candidates (candidates : list CandidatePool)
    (token_in token_out : Bytes) : list CandidatePool :=
  filter (λ candidate,
      Is_true (component_direction_supported candidate.2.2 token_in token_out
                 (qv_erc4626_deposits_enabled server) (qv_erc4626_pair_policies server)))
    candidates.

Definition filter_directional_rfq_candidates (candidates : list CandidatePool)
    (request_token_in request_token_out : Token) : list CandidatePool :=
  filter (λ candidate,
      let component := candidate.2.2 in
      Is_true (negb (is_directional_rfq_component component)
               || directional_rfq_candidate_matches_direction request_token_in request_token_out
                    component))
    candidates.

Definition load_candidate_sets (pair : RequestPair) (vm_ready rfq_ready : bool) :
    quoteM CandidateSets :=
  native_pin ← gets qr_native_pin;
  let token_in := pair_token_in_bytes pair in
  let token_out := pair_token_out_bytes pair in
  match native_pin with
  | None =>
      fail FailureInternal "Native state pin missing after readiness"
        (request_failure StatusInternalError)
  | Some native_pin =>
      let native_candidates :=
        filter_unsupported_erc4626_candidates
          (matching_pools_from_published native_pin token_in token_out) token_in token_out in
      vm_candidates ←
        (if (vm_ready : bool) then
           w ← quote_await;
           mret (matching_pools_from_published (ss_published (app_vm_state_store (qw_app w)))
                   token_in token_out)
         else mret []);
      rfq_candidates ←
        (if (rfq_ready : bool) then
           w ← quote_await;
           mret (matching_pools_from_published (ss_published (app_rfq_state_store (qw_app w)))
                   token_in token_out)
         else mret []);
      mret {| cs_native_candidates := native_candidates; cs_vm_candidates := vm_candidates;
              cs_rfq_candidates := rfq_candidates |}
  end.

Definition total_candidates (candidates : CandidateSets) : nat :=
  (length (cs_native_candidates candidates) + length (cs_vm_candidates candidates)
   + length (cs_rfq_candidates candidates))%nat.

Definition count_candidates (total : nat) (run : QuoteRunState) : QuoteRunState :=
  let meta := run_meta run in
  set_meta
    {| me_status := me_status meta; me_result_quality := me_result_quality meta;
       me_partial_kind := me_partial_kind meta; me_block_number := me_block_number meta;
       me_vm_block_number := me_vm_block_number meta;
       me_rfq_update_timestamp := me_rfq_update_timestamp meta;
       me_matching_pools := total; me_candidate_pools := total;
       me_total_pools := me_total_pools meta; me_auction_id := me_auction_id meta;
       me_pool_results := me_pool_results meta; me_vm_unavailable := me_vm_unavailable meta;
       me_rfq_unavailable := me_rfq_unavailable meta; me_failures := me_failures meta |} run.

Definition prepare_candidate_metadata (pair : RequestPair) (candidates : CandidateSets) :
    quoteM CandidateSets :=
  let total := total_candidates candidates in
  modify (over_runner (count_candidates total)) ;;
  if bool_decide (total = 0)%nat then
    fail FailureNoPools
      ("No matching pools found for pair " +:+ pair_token_in_address pair +:+ "-"
         +:+ pair_token_out_address pair)
      (RequestExit_new StatusNoLiquidity NoResults)
  else
    mret {| cs_native_candidates := sort_by_key fst (cs_native_candidates candidates);
            cs_vm_candidates := sort_by_key fst (cs_vm_candidates candidates);
            cs_rfq_candidates := sort_by_key fst (cs_rfq_candidates candidates) |}.

Definition prepare_execution (pair : RequestPair) (token_in token_out : Token)
    (amounts_in : list N) : quoteM PreparedQuoteExecution :=
  w ← quote_await;
  let initial_vm_ready := vm_ready (qw_now w) (qw_app w) in
  w ← quote_await;
  let initial_rfq_ready := rfq_ready (qw_now w) (qw_app w) in
  _ ← quote_await;
  let rebuild_guard := acquire_simulation_rebuild_guard initial_vm_ready initial_rfq_ready in
  w ← quote_await;
  let vm_ready := initial_vm_ready && vm_ready (qw_now w) (qw_app w) in
  w ← quote_await;
  let rfq_ready := initial_rfq_ready && rfq_ready (qw_now w) (qw_app w) in
  modify (over_runner (over_metrics
    (set_skipped (app_enable_vm_pools (qw_app w) && negb vm_ready)
       (app_enable_rfq_pools (qw_app w) && negb rfq_ready)))) ;;
  refresh_meta_snapshot ;;
  candidates ← load_candidate_sets pair vm_ready rfq_ready;
  candidates ←
    prepare_candidate_metadata pair
      {| cs_native_candidates := cs_native_candidates candidates;
         cs_vm_candidates := cs_vm_candidates candidates;
         cs_rfq_candidates :=
           filter_directional_rfq_candidates (cs_rfq_candidates candidates) token_in token_out |};
  modify (set_native_pool_ids (list_to_set (cs_native_candidates candidates).*1)) ;;
  mret {| pe_rebuild_guard := rebuild_guard; pe_token_in := token_in; pe_token_out := token_out;
          pe_amounts_in := amounts_in; pe_expected_len := length amounts_in;
          pe_candidates := candidates |}.

(** ** Execution *)

(** The input of the task of one pool. *)
Record SimulatePoolInput := {
  si_descriptor : PoolDescriptor;
  si_pool_state : ProtocolSim;
  si_rebuild_guard : option SimulationRebuildGuard;
  si_token_in : Token;
  si_token_out : Token;
}.

Definition prepare_pool_simulation (prepared : PreparedQuoteExecution) (kind : ScheduledPoolKind)
    (candidate : CandidatePool) : SimulatePoolInput :=
  let '(id, (pool_state, component)) := candidate in
  let '(sim_token_in, sim_token_out) :=
    simulation_tokens_for_pool (pe_token_in prepared) (pe_token_out prepared) component in
  {| si_descriptor := pool_descriptor id component; si_pool_state := pool_state;
     si_rebuild_guard :=
       if scheduled_uses_rebuild_guard kind then Some (pe_rebuild_guard prepared) else None;
     si_token_in := sim_token_in; si_token_out := sim_token_out |}.

(** The index counts the candidates of the group seen so far. *)
Fixpoint schedule_pool_group (prepared : PreparedQuoteExecution) (kind : ScheduledPoolKind)
    (index : nat) (candidates : list CandidatePool) (s : QuoteMetrics * list SimulatePoolInput) :
    QuoteMetrics * list SimulatePoolInput :=
  match candidates with
  | [] => s
  | candidate :: candidates =>
      if cv_scheduling cancel kind index then s
      else
        schedule_pool_group prepared kind (S index) candidates
          (mark_scheduled kind s.1, s.2 ++ [prepare_pool_simulation prepared kind candidate])
  end.

Definition schedule_pool_tasks (prepared : PreparedQuoteExecution) (metrics : QuoteMetrics) :
    QuoteMetrics * list SimulatePoolInput :=
  let candidates := pe_candidates prepared in
  foldl (λ s '(kind, candidates), schedule_pool_group prepared kind 0 candidates s) (metrics, [])
    [(ScheduledNative, cs_native_candidates candidates);
     (ScheduledVm, cs_vm_candidates candidates);
     (ScheduledRfq, cs_rfq_candidates candidates)].

(** What the task with this number returns. *)
Definition run_pool_task (prepared : PreparedQuoteExecution) (task : nat)
    (input : SimulatePoolInput) : PoolTaskOutcome :=
  simulate_pool (si_descriptor input) (si_pool_state input) (si_token_in input)
    (si_token_out input) (pe_amounts_in prepared) (qv_slippage server) (pe_expected_len prepared)
    (cv_pool cancel task).

Definition pool_tasks (prepared : PreparedQuoteExecution) (inputs : list SimulatePoolInput) :
    gmap nat PoolTaskOutcome :=
  map_seq 0 (imap (run_pool_task prepared) inputs).

Definition execute_pool_quotes (schedule : list SelectEvent) (prepared : PreparedQuoteExecution)
    (run : QuoteRunState) : option QuoteRunState :=
  let '(metrics, inputs) := schedule_pool_tasks prepared (run_metrics run) in
  let col := {| col_run := over_metrics (λ _, metrics) run; col_vm_first_gases := [];
                col_rfq_first_gases := [] |} in
  col ← collect_pool_task_results (pe_expected_len prepared) schedule (pool_tasks prepared inputs)
          col;
  let run := col_run col in
  let metrics := run_metrics run in
  let run :=
    over_metrics
      (set_gas (finalize_first_gas_metrics (qm_vm metrics) (col_vm_first_gases col))
         (finalize_first_gas_metrics (qm_rfq metrics) (col_rfq_first_gases col))) run in
  Some (apply_empty_response_state run).

(** Everything before the execution. *)
Definition prepare_request : quoteM PreparedQuoteExecution :=
  if cv_before cancel then
    modify (over_runner (over_classification mark_request_degradation)) ;;
    fail FailureTimeout "Quote request cancelled before execution" (request_failure StatusReady)
  else
    pair ← parse_pair;
    ensure_ready ;;
    '(token_in, token_out) ← load_tokens pair;
    amounts_in ← parse_amounts;
    prepare_execution pair token_in token_out amounts_in.

Definition run_request (schedule : list SelectEvent) (r : QuoteRequestRunner) :
    option (QuoteComputation * option NativeFence * nat) :=
  match prepare_request r with
  | (Err exit, r) => Some (build_request_exit (qr_run r) exit, None, qr_waits r)
  | (Ok prepared, r) =>
      run ← execute_pool_quotes schedule prepared (qr_run r);
      let fence :=
        if bool_decide (qr_native_pool_ids r = ∅) then None
        else
          native_pin ← qr_native_pin r;
          Some {| nf_request_generation := ps_request_generation native_pin;
                  nf_native_pool_ids := qr_native_pool_ids r |} in
      Some (finish_current_state run, fence, qr_waits r)
  end.

(** ** The fence *)

Definition from_native (native_pool_ids : gset string) (response : AmountOutResponse) : bool :=
  bool_decide (ao_pool response ∈ native_pool_ids).

Definition discard_stale_native_responses (native_pool_ids : gset string)
    (computation : QuoteComputation) : QuoteComputation :=
  let response_count := length (qcomp_responses computation) in
  let responses :=
    filter (λ response, Is_true (negb (from_native native_pool_ids response)))
      (qcomp_responses computation) in
  let dropped := (response_count - length responses)%nat in
  let meta := qcomp_meta computation in
  if bool_decide (dropped = 0)%nat then
    {| qcomp_responses := responses; qcomp_meta := meta;
       qcomp_metrics := qcomp_metrics computation |}
  else
    let failure :=
      make_failure FailureStaleNativeState
        ("Native state changed while the quote was running; dropped " +:+ nat_to_string dropped
           +:+ " native pool result(s), retry against the current version") None in
    let '(result_quality, partial_kind) :=
      if bool_decide (responses = []) then (RequestLevelFailure, None)
      else
        (Partial,
         Some (match me_partial_kind meta with
               | None | Some PoolCoverage => PoolCoverage
               | Some AmountLadders | Some Mixed => Mixed
               end)) in
    {| qcomp_responses := responses;
       qcomp_meta :=
         {| me_status := StatusReady; me_result_quality := result_quality;
            me_partial_kind := partial_kind; me_block_number := me_block_number meta;
            me_vm_block_number := me_vm_block_number meta;
            me_rfq_update_timestamp := me_rfq_update_timestamp meta;
            me_matching_pools := me_matching_pools meta;
            me_candidate_pools := me_candidate_pools meta;
            me_total_pools := me_total_pools meta; me_auction_id := me_auction_id meta;
            me_pool_results := me_pool_results meta;
            me_vm_unavailable := me_vm_unavailable meta;
            me_rfq_unavailable := me_rfq_unavailable meta;
            me_failures := me_failures meta ++ [failure] |};
       qcomp_metrics := qcomp_metrics computation |}.

Definition apply_fence (w : QuoteWorld) (fence : option NativeFence)
    (computation : QuoteComputation) : QuoteComputation :=
  match fence with
  | Some fence =>
      if existsb (from_native (nf_native_pool_ids fence)) (qcomp_responses computation)
         && negb (native_request_is_current (qw_now w) (qw_app w) (nf_request_generation fence))
      then discard_stale_native_responses (nf_native_pool_ids fence) computation
      else computation
  | None => computation
  end.

(** [None]: tasks are still running where the schedule ends. *)
Definition get_amounts_out (schedule : list SelectEvent) : option QuoteComputation :=
  '(computation, fence, waits) ← run_request schedule QuoteRequestRunner_new;
  Some (apply_fence (world waits) fence computation).
End request.

(** ** The service *)

Definition simulate_timeout_meta (block_number : u64)
    (vm_block_number rfq_update_timestamp : option u64) (total_pools : option nat)
    (auction_id : option string) (message : string) : QuoteMeta :=
  {| me_status := StatusReady; me_result_quality := RequestLevelFailure; me_partial_kind := None;
     me_block_number := block_number; me_vm_block_number := vm_block_number;
     me_rfq_update_timestamp := rfq_update_timestamp; me_matching_pools := 0;
     me_candidate_pools := 0; me_total_pools := total_pools; me_auction_id := auction_id;
     me_pool_results := []; me_vm_unavailable := false; me_rfq_unavailable := false;
     me_failures :=
       [{| qf_kind := FailureTimeout; qf_message := message; qf_pool := None;
           qf_pool_name := None; qf_pool_address := None; qf_protocol := None |}] |}.

Section service.
Context `{QuoteApi} `{HashOrder} (server : QuoteServer).

(** From the waits after the timer: the block, the VM block, the RFQ timestamp and the
    pools. *)
Definition build_request_guard_timeout_result (world : nat → QuoteWorld)
    (request : AmountOutRequest) : QuoteResult :=
  let timeout_ms := as_millis_u64 (qv_request_timeout server) in
  {| qres_request_id := ar_request_id request; qres_data := [];
     qres_meta :=
       simulate_timeout_meta (native_block (world 0)) (vm_block (world 1))
         (rfq_timestamp (world 2)) (Some (total_pools (qw_app (world 3))))
         (ar_auction_id request)
         ("Simulate request timed out after " +:+ u64_to_string timeout_ms +:+ "ms") |}.

(** [QuoteService::quote]: the timer ends first, or the computation is returned. *)
Definition QuoteService_quote (after_timer : nat → QuoteWorld) (request : AmountOutRequest)
    (in_time : option QuoteComputation) : QuoteResult :=
  match in_time with
  | None => build_request_guard_timeout_result after_timer request
  | Some computation =>
      {| qres_request_id := ar_request_id request; qres_data := qcomp_responses computation;
         qres_meta := qcomp_meta computation |}
  end.

(** [log_completion]'s answer. *)
Definition completed_with_timeout (computation : QuoteComputation) : bool :=
  existsb (λ failure, bool_decide (qf_kind failure = FailureTimeout))
    (me_failures (qcomp_meta computation)).

Definition first_amount_out_value (response : AmountOutResponse) : N :=
  default 0%N (head (ao_amounts_out response) ≫= BigUint_from_str).

Definition best_response (responses : list AmountOutResponse) : option AmountOutResponse :=
  (foldl (λ '(best_response, best_amount) response,
       let amount := first_amount_out_value response in
       match best_response with
       | None => (Some response, amount)
       | Some _ =>
           if (best_amount <? amount)%N then (Some response, amount)
           else (best_response, best_amount)
       end) (None, 0%N) responses).1.
End service.
