(* ===== verification/QuoteLadder.v ===== *)
(** * Slippage along a ladder, and the results of a pool

    The slippage of the usable quotes of a ladder is within the configured bounds and never
    falls; a pool's result lines up with the requested amounts, and holds what the pool
    answered. *)

From S2P Require Import Prelude Ordered Text Protocol Store.
From S2P Require Import RouteTypes RouteResimulate QuoteTypes QuoteSlippage QuotePools.

(** ** Arithmetic *)

Lemma round_div_le n d k : (n ≤ k * d)%N → (round_div_biguint n d ≤ k)%N.
Proof.
  unfold round_div_biguint. intros Hn. destruct (N.eqb_spec d 0) as [->|Hd]; [lia|].
  apply N.lt_succ_r, N.Div0.div_lt_upper_bound.
  pose proof (N.div_lt d 2 ltac:(lia) ltac:(lia)). nia.
Qed.

Lemma to_u32_or_small dflt n : (n < 2 ^ 32)%N → to_u32_or dflt n = n.
Proof.
  intros Hn. unfold to_u32_or, u32_try_from. destruct (N.leb_spec n u32_max); [done|].
  unfold u32_max in *. lia.
Qed.

Lemma clamp_bounds v lo hi : (lo ≤ hi)%N → (lo ≤ clamp v lo hi ≤ hi)%N.
Proof. unfold clamp. destruct (N.ltb_spec v lo), (N.ltb_spec hi v); lia. Qed.

Lemma non_zero_Some o n : non_zero o = Some n ↔ o = Some n ∧ n ≠ 0%N.
Proof.
  unfold non_zero. destruct o as [m|]; simpl; [|naive_solver].
  destruct (N.eqb_spec m 0); naive_solver.
Qed.

(** What [load_slippage_config] asserts, with room for one addition. *)
Record config_sound (c : SlippageConfig) : Prop := {
  cfg_min_max : (min_dynamic_slippage_bps c ≤ max_dynamic_slippage_bps c)%N;
  cfg_ramp_max : (saturation_ramp_start_slippage_bps c ≤ max_dynamic_slippage_bps c)%N;
  cfg_no_overflow :
    (max_dynamic_slippage_bps c + cumulative_degradation_coefficient_bps c < 2 ^ 32)%N;
}.

Lemma loaded_config_sound env c :
  load_slippage_config env = Ok c →
  (max_dynamic_slippage_bps c + cumulative_degradation_coefficient_bps c < 2 ^ 32)%N →
  config_sound c.
Proof.
  unfold load_slippage_config. intros Hl Ho. invert_ok Hl. injection Hl as <-.
  repeat match goal with u : unit |- _ => destruct u end.
  repeat match goal with E : ensure _ _ = Ok tt |- _ => apply ensure_ok, N.leb_le in E end.
  by split.
Qed.

Lemma dynamic_slippage_bounds c amount_in amount_out stress_in stress_out max_out soft_out :
  config_sound c → amount_out ≠ 0%N →
  (min_dynamic_slippage_bps c
     ≤ compute_dynamic_slippage_bps amount_in amount_out stress_in stress_out max_out soft_out c
     ≤ max_dynamic_slippage_bps c)%N.
Proof.
  intros Hc Hout. unfold compute_dynamic_slippage_bps. rewrite (proj2 (N.eqb_neq _ _) Hout).
  cbn zeta. apply clamp_bounds, Hc.
Qed.

Lemma degradation_bound c base_in base_out amount_in amount_out :
  config_sound c →
  (cumulative_degradation_slippage_bps base_in base_out amount_in amount_out c
     ≤ cumulative_degradation_coefficient_bps c)%N.
Proof.
  intros Hc. unfold cumulative_degradation_slippage_bps.
  destruct (any_zero _); [lia|]. cbn zeta.
  set (b := (base_out * amount_in)%N). set (a := (amount_out * base_in)%N).
  destruct (N.leb_spec b a) as [_|Hlt]; [lia|].
  set (k := cumulative_degradation_coefficient_bps c).
  assert (round_div_biguint ((b - a) * k) b ≤ k)%N as Hr by (apply round_div_le; nia).
  rewrite to_u32_or_small; [done|]. pose proof (cfg_no_overflow c Hc). lia.
Qed.

(** ** Ladders *)

Section ladder.
Context `{QuoteApi} `{!QuoteApiLaws}.

Lemma usable_to_string n : n ≠ 0%N → usable_amount (BigUint_to_string n) = Some n.
Proof. intros Hn. apply non_zero_Some. by rewrite BigUint_from_to. Qed.

Lemma usable_zero : usable_amount "0" = None.
Proof. unfold usable_amount. by rewrite <- BigUint_to_zero, BigUint_from_to. Qed.

Lemma include_positive_iff l :
  amounts_out_include_positive_quote l = true ↔ omap usable_amount l ≠ [].
Proof.
  unfold amounts_out_include_positive_quote, usable_amount.
  induction l as [|s l IH]; [done|]. cbn [omap list_omap].
  destruct (BigUint_from_str s) as [n|]; cbn [existsb non_zero mbind option_bind]; [|done].
  destruct (N.eqb_spec n 0); simpl; [done|by split].
Qed.

(** Slippage [s] of the outputs [am], after a usable output of slippage [prev]. *)
Fixpoint ladder_ok (lo hi prev : N) (am : list string) (s : list N) : Prop :=
  match am, s with
  | [], [] => True
  | a :: am, x :: s =>
      match usable_amount a with
      | None => x = 0%N ∧ ladder_ok lo hi prev am s
      | Some _ => (prev ≤ x)%N ∧ (lo ≤ x ≤ hi)%N ∧ ladder_ok lo hi x am s
      end
  | _, _ => False
  end.

Lemma enforce_ladder_ok lo hi prev am s :
  (prev ≤ hi)%N → length am = length s →
  (∀ i a x, am !! i = Some a → s !! i = Some x →
     match usable_amount a with None => x = 0%N | Some _ => (lo ≤ x ≤ hi)%N end) →
  ladder_ok lo hi prev am (enforce_non_decreasing_slippage prev am s).
Proof.
  revert prev s. induction am as [|a am IH]; intros prev [|x s] Hprev Hlen Hs; try done.
  cbn [enforce_non_decreasing_slippage]. pose proof (Hs 0%nat a x eq_refl eq_refl) as Hx.
  assert (∀ prev, (prev ≤ hi)%N →
            ladder_ok lo hi prev am (enforce_non_decreasing_slippage prev am s)) as Htail.
  { intros prev' Hp. apply IH; [done|by injection Hlen|]. intros i b y Hb Hy.
    by apply (Hs (S i)). }
  destruct (usable_amount a) as [n|] eqn:Ea; cbn [ladder_ok]; rewrite Ea.
  - split_and!; [lia|lia|lia|apply Htail; lia].
  - auto.
Qed.

Lemma ladder_ok_length lo hi prev am s : ladder_ok lo hi prev am s → length am = length s.
Proof.
  revert prev s. induction am as [|a am IH]; intros prev [|x s]; cbn [ladder_ok]; try done.
  destruct (usable_amount a); intros Hl; simpl; f_equal; by eapply IH, Hl.
Qed.

Lemma ladder_ok_pad lo hi prev am s n :
  ladder_ok lo hi prev am s →
  ladder_ok lo hi prev (am ++ replicate n "0") (s ++ replicate n 0%N).
Proof.
  revert prev s. induction am as [|a am IH]; intros prev [|x s]; cbn [ladder_ok app]; try done.
  - intros _. induction n as [|n IHn]; [done|]. cbn [replicate ladder_ok].
    by rewrite usable_zero.
  - destruct (usable_amount a); naive_solver.
Qed.

Lemma ladder_ok_lookup lo hi prev am s i a x :
  ladder_ok lo hi prev am s → am !! i = Some a → s !! i = Some x →
  match usable_amount a with
  | None => x = 0%N
  | Some _ => (prev ≤ x)%N ∧ (lo ≤ x ≤ hi)%N
  end.
Proof.
  revert prev s i. induction am as [|b am IH]; intros prev [|y s] i Hl Ha Hx; try done.
  cbn [ladder_ok] in Hl. destruct i as [|i].
  { injection Ha as ->. injection Hx as ->. destruct (usable_amount a); naive_solver. }
  destruct (usable_amount b) as [n|].
  - destruct Hl as (Hp & _ & Hl). specialize (IH y s i Hl Ha Hx).
    destruct (usable_amount a); [lia|done].
  - destruct Hl as [_ Hl]. by apply (IH prev s i).
Qed.

Lemma ladder_ok_mono lo hi prev am s i j a b x y :
  ladder_ok lo hi prev am s → (i ≤ j)%nat →
  am !! i = Some a → s !! i = Some x → is_Some (usable_amount a) →
  am !! j = Some b → s !! j = Some y → is_Some (usable_amount b) → (x ≤ y)%N.
Proof.
  revert prev s i j. induction am as [|c am IH]; intros prev [|z s] i j Hl Hij Ha Hx Hua Hb Hy Hub;
    try done.
  cbn [ladder_ok] in Hl. destruct i as [|i].
  - injection Ha as ->. injection Hx as ->. destruct Hua as [n Hn]. rewrite Hn in Hl.
    destruct Hl as (_ & _ & Hl). destruct j as [|j]; [by injection Hy as ->|].
    pose proof (ladder_ok_lookup _ _ _ _ _ _ _ _ Hl Hb Hy) as Hj.
    destruct Hub as [m Hm]. rewrite Hm in Hj. lia.
  - destruct j as [|j]; [lia|]. destruct (usable_amount c).
    + destruct Hl as (_ & _ & Hl). apply (IH z s i j Hl); (done || lia).
    + destruct Hl as [_ Hl]. apply (IH prev s i j Hl); (done || lia).
Qed.
End ladder.

(** ** One pool *)

Section pool.
Context `{QuoteApi} `{!QuoteApiLaws} (descriptor : PoolDescriptor) (pool_state : ProtocolSim).
Context (token_in token_out : Token) (amounts : list N) (slippage : SlippageConfig).
Context (view : PoolView).

Abbreviation len_amounts := (length amounts).

(** The pool answered [amount_in] with [out], for [gas]; or has no usable answer. *)
Definition answers (amount_in : N) (out : string) (gas : u64) : Prop :=
  (∃ n next, get_amount_out pool_state amount_in token_in token_out = Ok (n, next) ∧ n ≠ 0%N ∧
     to_u64 (amount_out_gas pool_state amount_in token_in token_out) = Some gas ∧
     out = BigUint_to_string n) ∨
  (out = "0" ∧ gas = 0%N).

Record recorded (acc : PoolQuoteAccumulator) : Prop := {
  rec_gas_length : length (acc_gas_used acc) = length (acc_amounts_out acc);
  rec_steps : acc_successful_steps acc = length (omap usable_amount (acc_amounts_out acc));
  rec_answers : ∀ i amount_in out gas, amounts !! i = Some amount_in →
    acc_amounts_out acc !! i = Some out → acc_gas_used acc !! i = Some gas →
    answers amount_in out gas;
}.

Lemma answers_push acc acc' amount_in out gas :
  recorded acc → amounts !! length (acc_amounts_out acc) = Some amount_in →
  answers amount_in out gas →
  acc_amounts_out acc' = acc_amounts_out acc ++ [out] →
  acc_gas_used acc' = acc_gas_used acc ++ [gas] →
  acc_successful_steps acc'
  = (acc_successful_steps acc + match usable_amount out with Some _ => 1 | None => 0 end)%nat →
  recorded acc'.
Proof.
  intros [Hg Hs Ha] Hamount Hans Eo Eg Es. split.
  - rewrite Eo, Eg, !length_app, Hg. done.
  - rewrite Es, Eo, omap_app, length_app, Hs. simpl. by destruct (usable_amount out).
  - intros i a o g Hi. rewrite Eo, Eg. intros Ho Hgi.
    apply lookup_app_Some in Ho as [Ho|[Hle Ho]].
    + rewrite lookup_app_l in Hgi by (rewrite Hg; by eapply lookup_lt_Some). by eapply Ha.
    + apply list_lookup_singleton_Some in Ho as [Hz <-].
      rewrite lookup_app_r in Hgi by lia. rewrite Hg, Hz in Hgi. injection Hgi as <-.
      replace i with (length (acc_amounts_out acc)) in Hi by lia. congruence.
Qed.

Lemma record_step index amount_in acc stop acc' :
  recorded acc → amounts !! index = Some amount_in → length (acc_amounts_out acc) = index →
  record_amount_quote (quote_requested_amount pool_state token_in token_out view index amount_in)
    acc = (stop, acc') →
  recorded acc' ∧ (stop = false → length (acc_amounts_out acc') = S index) ∧
  (length (acc_amounts_out acc') ≤ S index)%nat.
Proof.
  intros Hr Hi Hlen. subst index. unfold record_amount_quote, quote_requested_amount.
  destruct (pv_cancelled_amount view _); cbn [aq_outcome].
  { intros [= <- <-]. split_and!; [by destruct Hr; split|done|simpl; lia]. }
  destruct (get_amount_out _ _ _ _) as [[n next]|error] eqn:Eout.
  2:{ intros [= <- <-]. split_and!; [|intros _; simpl; rewrite length_app; simpl; lia|
        simpl; rewrite length_app; simpl; lia].
      eapply (answers_push acc _ _ "0" 0%N); [done|done|by right|done|done|].
      rewrite usable_zero. simpl. lia. }
  destruct (to_u64 _) as [gas|] eqn:Egas; cbn [aq_outcome].
  2:{ intros [= <- <-]. split_and!; [|done|simpl; lia]. by split. }
  destruct (N.eqb_spec n 0) as [->|Hn]; intros [= <- <-];
    (split_and!; [|intros _; simpl; rewrite length_app; simpl; lia|
       simpl; rewrite length_app; simpl; lia]).
  - eapply (answers_push acc _ _ "0" 0%N); [done|done|by right|done|done|].
    rewrite usable_zero. simpl. lia.
  - eapply (answers_push acc _ _ (BigUint_to_string n) gas); [done|done| |done|done|].
    + left. by exists n, next.
    + rewrite usable_to_string by done. simpl. lia.
Qed.

Lemma record_quotes_ok rest index acc :
  (∀ i, amounts !! (index + i)%nat = rest !! i) → recorded acc →
  length (acc_amounts_out acc) = index → (index + length rest = len_amounts)%nat →
  let acc' := record_amount_quotes
    (imap (λ i, quote_requested_amount pool_state token_in token_out view (index + i)) rest) acc in
  recorded acc' ∧ (length (acc_amounts_out acc') ≤ len_amounts)%nat.
Proof.
  revert index acc. induction rest as [|amount_in rest IH]; intros index acc Hrest Hr Hlen Htot.
  { simpl. split; [done|simpl in *; lia]. }
  cbn [imap record_amount_quotes]. rewrite Nat.add_0_r.
  destruct (record_amount_quote _ _) as [stop acc1] eqn:E.
  apply (record_step index) in E as (Hr1 & Hstop & Hle);
    [|done|by specialize (Hrest 0%nat); rewrite Nat.add_0_r in Hrest|done].
  destruct stop; [split; [done|simpl in *; lia]|].
  rewrite (imap_ext _ (λ i, quote_requested_amount pool_state token_in token_out view (S index + i)))
    by (intros i x _; unfold compose; by rewrite <- Nat.add_succ_comm).
  apply IH; [|done|auto|simpl in *; lia].
  intros i. specialize (Hrest (S i)). by replace (S index + i)%nat with (index + S i)%nat by lia.
Qed.

(** A result with usable answers holds one answer per amount; every count is exact. *)
Record good_result (r : PoolQuoteResult) : Prop := {
  good_pool : pq_pool r = pd_id descriptor;
  good_name : pq_pool_name r = pd_name descriptor;
  good_address : pq_pool_address r = pd_address descriptor;
  good_protocol : pq_protocol r = pd_protocol descriptor;
  good_steps : pq_successful_steps r = length (omap usable_amount (pq_amounts_out r));
  good_answers : (0 < pq_successful_steps r)%nat →
    length (pq_amounts_out r) = len_amounts ∧ length (pq_gas_used r) = len_amounts ∧
    ∀ i amount_in out gas, amounts !! i = Some amount_in → pq_amounts_out r !! i = Some out →
      pq_gas_used r !! i = Some gas → answers amount_in out gas;
  good_slippage : (0 < pq_successful_steps r)%nat → config_sound slippage →
    ladder_ok (min_dynamic_slippage_bps slippage) (max_dynamic_slippage_bps slippage) 0
      (pq_amounts_out r) (pq_slippage r);
}.

Lemma ladder_entry amounts_out limit_max_out i out :
  config_sound slippage → (i < len_amounts)%nat →
  match usable_amount out with
  | None =>
      ladder_slippage_bps pool_state token_in token_out amounts slippage view amounts_out
        limit_max_out i out = 0%N
  | Some _ =>
      (min_dynamic_slippage_bps slippage
         ≤ ladder_slippage_bps pool_state token_in token_out amounts slippage view amounts_out
             limit_max_out i out
         ≤ max_dynamic_slippage_bps slippage)%N
  end.
Proof.
  intros Hc [amount_in Hi]%lookup_lt_is_Some. unfold ladder_slippage_bps. rewrite Hi.
  destruct (usable_amount out) as [n|] eqn:Hn; [|done].
  apply non_zero_Some in Hn as [_ Hn]. cbn zeta.
  set (stress := stress_quote_for_index _ _ _ _ _ _ _ _).
  pose proof (dynamic_slippage_bounds slippage amount_in n (fst <$> stress) (snd <$> stress)
    limit_max_out (observed_soft_ladder_max_out amounts amounts_out) Hc Hn) as Hb.
  set (base := compute_dynamic_slippage_bps _ _ _ _ _ _ _) in *.
  match goal with |- context [u32_add base ?p] => set (pen := p) end.
  assert (pen ≤ cumulative_degradation_coefficient_bps slippage)%N as Hp.
  { subst pen. destruct (first_usable_quote _ _) as [[??]|]; [by apply degradation_bound|lia]. }
  pose proof (cfg_no_overflow slippage Hc). unfold u32_add. rewrite u32_wrap_small by lia. lia.
Qed.

Lemma local_ladder_ok amounts_out limit_max_out :
  config_sound slippage → (length amounts_out ≤ len_amounts)%nat →
  ladder_ok (min_dynamic_slippage_bps slippage) (max_dynamic_slippage_bps slippage) 0 amounts_out
    (compute_local_slippage_ladder pool_state token_in token_out amounts slippage view amounts_out
       limit_max_out).
Proof.
  intros Hc Hlen. apply enforce_ladder_ok; [lia|by rewrite length_imap|].
  intros i out x Ho Hx. rewrite list_lookup_imap, Ho in Hx. injection Hx as <-.
  apply ladder_entry; [done|]. apply lookup_lt_Some in Ho. lia.
Qed.

Lemma finish_good acc limit_max_in limit_max_out r :
  recorded acc → (length (acc_amounts_out acc) ≤ len_amounts)%nat →
  finish_quote_amounts descriptor pool_state token_in token_out amounts slippage len_amounts view
    acc limit_max_in limit_max_out = Simulated r →
  good_result r.
Proof.
  intros [Hg Hs Ha] Hle. unfold finish_quote_amounts. case_bool_decide as Hpos.
  2:{ intros [= <-]. split; simpl; (done || lia). }
  intros [= <-]. split; simpl; [done..| | |].
  - rewrite omap_app, length_app, Hs.
    enough (∀ n, omap usable_amount (replicate n "0") = []) as -> by (simpl; lia).
    intros n. induction n as [|n IH]; [done|]. cbn [replicate omap list_omap].
    by rewrite usable_zero.
  - intros _. rewrite !length_app, !length_replicate. split_and!; [lia|lia|].
    intros i amount_in out gas Hi Ho Hgas.
    apply lookup_app_Some in Ho as [Ho|[Hge Ho]].
    + rewrite lookup_app_l in Hgas by (rewrite Hg; by eapply lookup_lt_Some). by eapply Ha.
    + rewrite lookup_app_r in Hgas by lia. right.
      apply lookup_replicate in Ho as [-> _]. by apply lookup_replicate in Hgas as [-> _].
  - intros _ Hc. by apply ladder_ok_pad, local_ladder_ok.
Qed.

Lemma simulated_good r :
  simulate_pool descriptor pool_state token_in token_out amounts slippage len_amounts view
  = Ok (Simulated r) → good_result r.
Proof.
  unfold simulate_pool, SimulationExecutor_run.
  destruct (pv_worker_failure view) as [[]|]; [done|done|]. intros [= Hr].
  unfold run_pool_simulation, preflight_outcome in Hr. destruct (pv_cancelled_before view).
  { injection Hr as <-. by split; simpl; try lia. }
  unfold quote_amounts in Hr. destruct (pool_limits _ _ _) as [max_in max_out].
  pose proof (record_quotes_ok amounts 0 PoolQuoteAccumulator_new (λ i, eq_refl)
    ltac:(by split) eq_refl eq_refl) as [Hrec Hle].
  by eapply finish_good.
Qed.

(** A worker's failure names its pool. *)
Lemma simulate_pool_err f :
  simulate_pool descriptor pool_state token_in token_out amounts slippage len_amounts view = Err f →
  qf_kind f = FailureInternal ∧ qf_pool f = Some (pd_id descriptor).
Proof.
  unfold simulate_pool, SimulationExecutor_run.
  destruct (pv_worker_failure view) as [[]|]; by intros [= <-].
Qed.
End pool.
