(* ===== verification/QuoteFacts.v ===== *)
(** * What a request collects

    The results of the tasks that have ended add up: each gives its response, outcome and
    failure, and its part of the classification, whatever came before it.  So neither the
    order in which tasks end nor the metrics change an answer. *)

From S2P Require Import Prelude Ordered Text Protocol Store.
From S2P Require Import RouteTypes RouteResimulate QuoteTypes QuoteSlippage QuotePools QuoteRun.
From S2P Require Import QuoteLadder.

(** ** Partial classifications form a semilattice *)

Definition pjoin (p q : PartialClassification) : PartialClassification :=
  match p, q with
  | PartialNone, x | x, PartialNone => x
  | PartialAmountLadders, PartialAmountLadders => PartialAmountLadders
  | PartialPoolCoverage, PartialPoolCoverage => PartialPoolCoverage
  | _, _ => PartialMixed
  end.

Lemma pjoin_comm p q r : pjoin (pjoin p q) r = pjoin (pjoin p r) q.
Proof. by destruct p, q, r. Qed.

Lemma foldl_pjoin_perm l1 l2 p : l1 ≡ₚ l2 → foldl pjoin p l1 = foldl pjoin p l2.
Proof.
  intros Hp. revert p. induction Hp as [|x l1 l2 _ IH|x y l|l1 l2 l3 _ IH1 _ IH2]; intros p;
    simpl; [done|apply IH|by rewrite pjoin_comm|by rewrite IH1].
Qed.

(** What an outcome makes of the classification. *)
Definition outcome_partial (outcome : PoolOutcomeKind) (reported expected : nat) :
    PartialClassification :=
  qc_partial (note_pool_outcome_with_steps outcome reported expected QuoteClassification_new).

Lemma note_outcome_partial outcome reported expected c :
  qc_partial (note_pool_outcome_with_steps outcome reported expected c)
  = pjoin (qc_partial c) (outcome_partial outcome reported expected).
Proof.
  unfold outcome_partial, note_pool_outcome_with_steps. simpl.
  destruct (_ && _ && _); [|destruct outcome]; by destruct (qc_partial c).
Qed.

(** ** Consistent runs *)

(** The classification knows whether there are responses, and failures that are not about
    liquidity. *)
Record consistent (run : QuoteRunState) : Prop := {
  con_usable :
    qc_had_usable_response (run_classification run) = true ↔ run_responses run ≠ [];
  con_liquidity :
    qc_no_result_failures (run_classification run) = LiquidityLike ↔
    Forall (λ f, is_liquidity_like_failure f = true) (run_failures run);
}.

Lemma push_failure_consistent f run : consistent run → consistent (push_failure f run).
Proof.
  intros [Hu Hl]. split; simpl; unfold note_failure; destruct (is_liquidity_like_failure f) eqn:E.
  - done.
  - done.
  - rewrite Forall_app, Forall_singleton, <- Hl. naive_solver.
  - rewrite Forall_app, Forall_singleton. simpl. naive_solver congruence.
Qed.

(** Degradation is marked together with a failure that is not about liquidity. *)
Lemma push_degraded_consistent f note run :
  consistent run → is_liquidity_like_failure f = false →
  (∀ c, qc_had_usable_response (note c) = qc_had_usable_response c) →
  consistent (push_failure f (over_classification note run)).
Proof.
  intros [Hu Hl] Hf Hn. split; simpl; unfold note_failure; rewrite Hf; simpl.
  - by rewrite Hn.
  - rewrite Forall_app, Forall_singleton, Hf. naive_solver congruence.
Qed.

Lemma cancel_consistent run : consistent run → consistent (cancel_collection run).
Proof.
  intros [Hu Hl]. unfold cancel_collection. split; simpl; [done|].
  rewrite Forall_app, Forall_singleton. by split; [|intros [_ ?]].
Qed.

Lemma apply_empty_consistent run : consistent run → consistent (apply_empty_response_state run).
Proof.
  intros Hc. unfold apply_empty_response_state.
  destruct (qc_had_usable_response _); [done|].
  case_bool_decide; [by apply push_failure_consistent|done].
Qed.

Section collect.
Context `{QuoteApi} (expected_len : nat).

(** ** What one task adds *)

Definition result_partial (result : PoolQuoteResult) : bool :=
  amounts_out_include_positive_quote (pq_amounts_out result)
  && bool_decide (pq_successful_steps result < expected_len)%nat.

Definition task_responses (block_number : u64) (o : PoolTaskOutcome) : list AmountOutResponse :=
  match o with
  | Ok (Simulated result) =>
      let result := pad_result expected_len result in
      if amounts_out_include_positive_quote (pq_amounts_out result)
      then [pool_response result block_number] else []
  | Err _ => []
  end.

Definition task_results (o : PoolTaskOutcome) : list PoolSimulationOutcome :=
  match o with
  | Ok (Simulated result) =>
      let result := pad_result expected_len result in
      match classify_pool_outcome result expected_len with
      | Some (outcome, reason) =>
          [make_pool_outcome (result_descriptor result) outcome (pq_successful_steps result)
             expected_len reason]
      | None => []
      end
  | Err failure => option_list (pool_outcome_from_failure failure expected_len)
  end.

Definition task_failures (o : PoolTaskOutcome) : list QuoteFailure :=
  match o with
  | Ok (Simulated result) =>
      let result := pad_result expected_len result in
      option_list
        (pool_error expected_len result (is_timeout_like_outcome result) (result_partial result))
  | Err failure => [failure]
  end.

Definition task_partial (o : PoolTaskOutcome) : PartialClassification :=
  match o with
  | Ok (Simulated result) =>
      let result := pad_result expected_len result in
      match classify_pool_outcome result expected_len with
      | Some (outcome, _) => outcome_partial outcome (pq_successful_steps result) expected_len
      | None => PartialNone
      end
  | Err failure =>
      match pool_outcome_from_failure failure expected_len with
      | Some outcome => outcome_partial (po_outcome outcome) 0 0
      | None => PartialNone
      end
  end.

(** The backends a request goes without. *)
Definition skipped (run : QuoteRunState) : bool * bool :=
  (qm_skipped_vm_unavailable (run_metrics run), qm_skipped_rfq_unavailable (run_metrics run)).

Record adds (os : list PoolTaskOutcome) (run run' : QuoteRunState) : Prop := {
  adds_meta : run_meta run' = run_meta run;
  adds_skipped : skipped run' = skipped run;
  adds_responses :
    run_responses run'
    = run_responses run ++ (os ≫= task_responses (me_block_number (run_meta run)));
  adds_failures : run_failures run' = run_failures run ++ (os ≫= task_failures);
  adds_results : run_pool_results run' = run_pool_results run ++ (os ≫= task_results);
  adds_partial :
    qc_partial (run_classification run')
    = foldl pjoin (qc_partial (run_classification run)) (task_partial <$> os);
}.

Lemma adds_nil run : adds [] run run.
Proof. split; simpl; by rewrite ?app_nil_r. Qed.

Lemma adds_trans os1 os2 run1 run2 run3 :
  adds os1 run1 run2 → adds os2 run2 run3 → adds (os1 ++ os2) run1 run3.
Proof.
  intros [Hm1 Hs1 Hr1 Hf1 Hp1 Hc1] [Hm2 Hs2 Hr2 Hf2 Hp2 Hc2]. split.
  - congruence.
  - congruence.
  - by rewrite Hr2, Hr1, Hm1, bind_app, app_assoc.
  - by rewrite Hf2, Hf1, bind_app, app_assoc.
  - by rewrite Hp2, Hp1, bind_app, app_assoc.
  - by rewrite Hc2, Hc1, fmap_app, foldl_app.
Qed.

Lemma pjoin_none_r p : pjoin p PartialNone = p.
Proof. by destruct p. Qed.

(** The parts of a run that recording a pool changes. *)
Lemma record_outcome_eq result run :
  let run' := record_pool_outcome expected_len result run in
  run_meta run' = run_meta run ∧ skipped run' = skipped run ∧
  run_responses run' = run_responses run ∧
  run_failures run' = run_failures run ∧
  run_pool_results run' = run_pool_results run ++
    match classify_pool_outcome result expected_len with
    | Some (outcome, reason) =>
        [make_pool_outcome (result_descriptor result) outcome (pq_successful_steps result)
           expected_len reason]
    | None => []
    end ∧
  qc_partial (run_classification run') = pjoin (qc_partial (run_classification run))
    match classify_pool_outcome result expected_len with
    | Some (outcome, _) => outcome_partial outcome (pq_successful_steps result) expected_len
    | None => PartialNone
    end ∧
  (consistent run → consistent run').
Proof.
  unfold record_pool_outcome. destruct (classify_pool_outcome _ _) as [[outcome reason]|].
  - split_and!; try done; [apply note_outcome_partial|by intros [? ?]].
  - split_and!; try done; by rewrite ?app_nil_r, ?pjoin_none_r.
Qed.

Lemma record_errors_eq result had_timeout is_partial run :
  let run' := record_pool_errors expected_len result had_timeout is_partial run in
  run_meta run' = run_meta run ∧ skipped run' = skipped run ∧
  run_responses run' = run_responses run ∧
  run_failures run' = run_failures run
    ++ option_list (pool_error expected_len result had_timeout is_partial) ∧
  run_pool_results run' = run_pool_results run ∧
  qc_partial (run_classification run') = qc_partial (run_classification run) ∧
  (consistent run → consistent run').
Proof.
  unfold record_pool_errors. destruct (pool_error _ _ _ _) as [f|].
  - split_and!; try done; [|apply push_failure_consistent].
    simpl. unfold note_failure. by destruct (is_liquidity_like_failure f).
  - split_and!; try done. by rewrite app_nil_r.
Qed.

Lemma handle_outcome_adds o col :
  adds [o] (col_run col) (col_run (handle_pool_task_outcome expected_len o col)) ∧
  (consistent (col_run col) → consistent (col_run (handle_pool_task_outcome expected_len o col))).
Proof.
  destruct o as [[result]|failure]; cbn [handle_pool_task_outcome].
  - unfold handle_simulated_pool_result. set (r := pad_result expected_len result).
    set (col1 := record_first_gas r col).
    assert (∃ vm rfq, col_run col1 = over_metrics (set_gas vm rfq) (col_run col))
      as (vm & rfq & Eg).
    { subst col1. unfold record_first_gas.
      destruct (record_first_gas_metrics "vm:" _ _ _ _), (record_first_gas_metrics "rfq:" _ _ _ _).
      simpl. eauto. }
    destruct (record_outcome_eq r (col_run col1)) as (Hm2 & Hs2 & Hr2 & Hf2 & Hp2 & Hc2 & Hcon2).
    set (run2 := record_pool_outcome expected_len r (col_run col1)) in *.
    destruct (record_errors_eq r (is_timeout_like_outcome r) (result_partial r) run2)
      as (Hm3 & Hs3 & Hr3 & Hf3 & Hp3 & Hc3 & Hcon3).
    set (run3 := record_pool_errors _ _ _ _ _) in *.
    assert (consistent (col_run col) → consistent run3) as Hcon.
    { intros Hc. apply Hcon3, Hcon2. rewrite Eg. by destruct Hc. }
    fold (result_partial r). rewrite Eg in *.
    destruct (amounts_out_include_positive_quote (pq_amounts_out r)) eqn:Eusable.
    + split.
      * split; cbn [col_run over_run over_classification set_responses run_meta run_responses
                      run_failures run_pool_results run_classification note_response qc_partial
                      mbind list_bind fmap list_fmap foldl]; fold run2; fold run3;
          rewrite ?app_nil_r.
        -- by rewrite Hm3, Hm2.
        -- change (skipped run3 = skipped (col_run col)). by rewrite Hs3, Hs2.
        -- rewrite Hr3, Hr2, Hm3, Hm2. cbn [task_responses]. fold r. by rewrite Eusable.
        -- by rewrite Hf3, Hf2.
        -- by rewrite Hp3, Hp2.
        -- by rewrite Hc3, Hc2.
      * intros [Hu Hl]%Hcon. split; simpl; [|done]. split; [|done].
        intros _ E. by apply app_eq_nil in E as [_ ?].
    + split; [|done]. split; cbn [col_run over_run mbind list_bind fmap list_fmap foldl];
        fold run2; fold run3; rewrite ?app_nil_r.
      * by rewrite Hm3, Hm2.
      * by rewrite Hs3, Hs2.
      * rewrite Hr3, Hr2. cbn [task_responses]. fold r. by rewrite Eusable, app_nil_r.
      * by rewrite Hf3, Hf2.
      * by rewrite Hp3, Hp2.
      * by rewrite Hc3, Hc2.
  - cbn [col_run over_run]. unfold handle_pool_failure.
    destruct (pool_outcome_from_failure failure expected_len) as [outcome|] eqn:E; split.
    + split; simpl; rewrite ?E, ?app_nil_r; try done.
      unfold note_failure. destruct (is_liquidity_like_failure failure); apply note_outcome_partial.
    + intros [Hu Hl]. apply push_failure_consistent. by split.
    + split; simpl; rewrite ?E, ?app_nil_r; try done. unfold note_failure.
      destruct (is_liquidity_like_failure failure); simpl; by rewrite pjoin_none_r.
    + apply push_failure_consistent.
Qed.

Lemma is_Some_then {A B} (m : option A) (f : A → B) :
  is_Some (a ← m; Some (f a)) ↔ is_Some m.
Proof. destruct m; split; intros [? ?]; done || by eexists. Qed.

(** ** What a schedule collects *)

Definition outcomes (tasks : gmap nat PoolTaskOutcome) : list PoolTaskOutcome :=
  (map_to_list tasks).*2.

(** The tasks that have ended when the collection does: all, unless it is cancelled. *)
Lemma collect_adds schedule tasks col col' :
  collect_pool_task_results expected_len schedule tasks col = Some col' →
  ∃ ended running run1, outcomes tasks ≡ₚ ended ++ running ∧
    adds ended (col_run col) run1 ∧
    (consistent (col_run col) → consistent run1) ∧
    (running = [] ∧ col_run col' = run1 ∨
     RequestCancelled ∈ schedule ∧ col_run col' = cancel_collection run1).
Proof.
  revert tasks col. induction schedule as [|event schedule IH]; intros tasks col;
    cbn [collect_pool_task_results]; case_bool_decide as He.
  1,3: intros [= <-]; subst tasks; exists [], [], (col_run col); unfold outcomes;
    rewrite map_to_list_empty; (split_and!; [done|apply adds_nil|done|by left]).
  - done.
  - destruct event as [task|].
    + destruct (tasks !! task) as [o|] eqn:Ho.
      * intros (ended & running & run1 & Hp & Hadds & Hcon & Hend)%IH.
        destruct (handle_outcome_adds o col) as [Hone Hcon1].
        exists (o :: ended), running, run1. split_and!.
        -- unfold outcomes. rewrite <- (insert_delete_id tasks task o) by done.
           rewrite map_to_list_insert by apply lookup_delete_eq. simpl. by rewrite Hp.
        -- by apply (adds_trans [o] ended _ _ _ Hone).
        -- auto.
        -- destruct Hend as [?|[??]]; [by left|right]. split; [by right|done].
      * intros (ended & running & run1 & Hp & Hadds & Hcon & Hend)%IH.
        exists ended, running, run1. split_and!; [done..|].
        destruct Hend as [?|[??]]; [by left|right]. split; [by right|done].
    + intros [= <-]. exists [], (outcomes tasks), (col_run col).
      split_and!; [done|apply adds_nil|done|right]. split; [by left|done].
Qed.

(** A collection ends exactly when every running task does, or the request is cancelled. *)
Lemma collect_ends schedule tasks col :
  is_Some (collect_pool_task_results expected_len schedule tasks col) ↔
  RequestCancelled ∈ schedule ∨ (∀ k, is_Some (tasks !! k) → TaskEnded k ∈ schedule).
Proof.
  revert tasks col. induction schedule as [|event schedule IH]; intros tasks col;
    cbn [collect_pool_task_results]; case_bool_decide as He.
  1,3: split; [intros _; right; intros k [o Ho]; by rewrite He, lookup_empty in Ho|by eexists].
  - split; [by intros [??]|]. intros [Hs|Hs]; [by apply elem_of_nil in Hs|].
    destruct (map_choose tasks He) as (k & o & Ho).
    by destruct (elem_of_nil (TaskEnded k)) as [[] _]; apply Hs; eexists.
  - destruct event as [task|]; [|split; [intros _; left; by left|by eexists]].
    rewrite elem_of_cons. destruct (tasks !! task) as [o|] eqn:Ho; rewrite IH; split.
    + intros [?|Hs]; [left; by right|right]. intros k Hk. apply elem_of_cons.
      destruct (decide (k = task)) as [->|Hne]; [by left|right]. apply Hs.
      by rewrite lookup_delete_ne.
    + intros [[?|Hs]|Hs]; [done|by left|right].
      intros k Hk. destruct (decide (k = task)) as [->|Hne].
      { rewrite lookup_delete_eq in Hk. by destruct Hk. }
      rewrite lookup_delete_ne in Hk by done.
      by destruct (proj1 (elem_of_cons _ _ _) (Hs k Hk)) as [[= ->]|?].
    + intros [?|Hs]; [left; by right|right]. intros k Hk. right. by apply Hs.
    + intros [[?|Hs]|Hs]; [done|by left|right].
      intros k Hk. destruct (proj1 (elem_of_cons _ _ _) (Hs k Hk)) as [[= ->]|?]; [|done].
      rewrite Ho in Hk. by destruct Hk.
Qed.
End collect.
