(* ===== verification/QuotePrepare.v ===== *)
(** * Preparing a quote request

    Every step of [QuoteRequestRunner] before the execution either goes on with a fresh run
    or rejects the request with one failure, which says whether liquidity is to blame; and
    what a prepared request quotes comes from states that were published. *)

From S2P Require Import Prelude Ordered Text Protocol Store StoreQuery Health Readiness Requests.
From S2P Require Import RouteTypes RouteResimulate QuoteTypes QuoteSlippage QuotePools QuoteRun.
From S2P Require Import QuoteRequest QuoteLadder QuoteFacts.

(** ** Fresh and rejected runs *)

Record fresh (run : QuoteRunState) : Prop := {
  fresh_responses : run_responses run = [];
  fresh_failures : run_failures run = [];
  fresh_results : run_pool_results run = [];
  fresh_classification : run_classification run = QuoteClassification_new;
  fresh_status : me_status (run_meta run) = StatusReady;
}.

Lemma fresh_consistent run : fresh run → consistent run.
Proof. intros [Hr Hf _ Hc _]. split; rewrite Hc, ?Hr, ?Hf; by simpl. Qed.

Record rejected (exit : RequestExit) (run : QuoteRunState) : Prop := {
  rej_responses : run_responses run = [];
  rej_results : run_pool_results run = [];
  rej_failure : ∃ f, run_failures run = [f] ∧
    if is_liquidity_like_failure f
    then rx_status exit = StatusNoLiquidity ∧ rx_result_quality exit = NoResults
    else rx_result_quality exit = RequestLevelFailure;
  rej_partial : rx_partial_kind exit = None;
}.

Section prepare.
Context `{QuoteApi} `{HashOrder} (server : QuoteServer) (world : nat → QuoteWorld).
Context (app_at : Instant → AppState) (overshoot : nat → Duration).
Context (request : AmountOutRequest) (cancel : CancelView).

Abbreviation quoteM := (stateR QuoteRequestRunner RequestExit).

(** From a state of [P], [m] rejects the request or ends in [Q]. *)
Abbreviation gives P m Q := (triple P m Q (λ exit r, rejected exit (qr_run r))).

Lemma triple_gets_bind {A B} P (f : QuoteRequestRunner → A) (k : A → quoteM B) Q :
  (∀ a, gives (λ r, P r ∧ f r = a) (k a) Q) → gives P (gets f ≫= k) Q.
Proof. intros Hk r Hr. apply (Hk (f r)). by split. Qed.

Lemma triple_modify_bind {B} P P' f (k : unit → quoteM B) Q :
  (∀ r, P r → P' (f r)) → gives P' (k tt) Q → gives P (modify f ≫= k) Q.
Proof. intros Hf Hk r Hr. apply (Hk (f r)). by apply Hf. Qed.

(** What waiting leaves alone. *)
Definition unwaited (P : QuoteRequestRunner → Prop) : Prop :=
  ∀ r waits, P r →
    P {| qr_run := qr_run r; qr_native_pin := qr_native_pin r;
         qr_native_pool_ids := qr_native_pool_ids r; qr_waits := waits |}.

Lemma triple_await {B} P (k : QuoteWorld → quoteM B) Q :
  unwaited P → (∀ n, gives P (k (world n)) Q) → gives P (quote_await world ≫= k) Q.
Proof. intros HP Hk r Hr. apply (Hk (qr_waits r)). by apply HP. Qed.

Lemma triple_fail {A} P kind message exit (Q : A → QuoteRequestRunner → Prop) :
  (∀ r, P r → fresh (qr_run r)) → rx_partial_kind exit = None →
  (if is_liquidity_like_failure (make_failure kind message None)
   then rx_status exit = StatusNoLiquidity ∧ rx_result_quality exit = NoResults
   else rx_result_quality exit = RequestLevelFailure) →
  gives P (fail kind message exit) Q.
Proof.
  intros HP Hpart Hf r [Hr Hfl Hres _ _]%HP. simpl. split; simpl; [done..| |done].
  rewrite Hfl. by eexists.
Qed.

(** Runs that are fresh, with what is pinned. *)
Definition clean (pin : option PublishedStateStore) (r : QuoteRequestRunner) : Prop :=
  fresh (qr_run r) ∧ qr_native_pin r = pin.

Lemma clean_unwaited pin : unwaited (clean pin).
Proof. by intros r waits. Qed.

Lemma clean_meta pin (f : QuoteMeta → QuoteMeta) r :
  (∀ meta, me_status (f meta) = me_status meta) →
  clean pin r → clean pin (over_runner (λ run, set_meta (f (run_meta run)) run) r).
Proof. intros Hf [[Hr Hfl Hp Hc Hs] Hpin]. split; [|done]. split; simpl; congruence. Qed.

#[local] Hint Resolve clean_unwaited : core.

(** [(m; k); l] runs as [m; (k; l)]. *)
Lemma bind_assoc_run {A B C} (m : quoteM A) (k : A → quoteM B) (l : B → quoteM C) r :
  ((m ≫= k) ≫= l) r = (m ≫= λ a, k a ≫= l) r.
Proof. unfold mbind, stateR_bind. by destruct (m r) as [[a|e] r']. Qed.

(** ** Steps *)

Lemma parse_token_address_triple pin raw field :
  gives (clean pin) (parse_token_address raw field) (λ x r, clean pin r ∧
    Bytes_from_str (str_to_lowercase (trim_0x raw)) = Ok x.2).
Proof.
  unfold parse_token_address. destruct (Bytes_from_str _) as [bytes|err].
  - by apply triple_ret.
  - by apply triple_fail; [intros r [? _]| |].
Qed.

(** The bytes of the tokens of a request. *)
Definition pair_of_request (pair : RequestPair) : Prop :=
  Bytes_from_str (str_to_lowercase (trim_0x (ar_token_in request)))
  = Ok (pair_token_in_bytes pair) ∧
  Bytes_from_str (str_to_lowercase (trim_0x (ar_token_out request)))
  = Ok (pair_token_out_bytes pair) ∧
  pair_token_in_bytes pair ≠ pair_token_out_bytes pair ∧
  is_direct_native_wrapped_pair (pair_token_in_bytes pair) (pair_token_out_bytes pair)
    (qv_wrapped_native_token server) = false.

Lemma parse_pair_triple pin :
  gives (clean pin) (parse_pair server request) (λ pair r, clean pin r ∧ pair_of_request pair).
Proof.
  unfold parse_pair. eapply triple_bind; [apply parse_token_address_triple|].
  intros [address_in bytes_in]. eapply triple_bind.
  { intros r [Hr Hin]. pose proof (parse_token_address_triple pin (ar_token_out request)
      "token_out" r Hr) as Ht. destruct (parse_token_address _ _ r) as [[x|exit] r']; [|done].
    exact (conj Hin Ht). }
  intros [address_out bytes_out]. case_bool_decide as Hne.
  { apply triple_fail; [|done|done]. by intros r (_ & [? _] & _). }
  destruct (is_direct_native_wrapped_pair _ _ _) eqn:Hdirect.
  { apply triple_fail; [|done|done]. by intros r (_ & [? _] & _). }
  apply triple_ret. by intros r (Hin & Hr & Hout).
Qed.

Lemma refresh_triple {B} pin (k : unit → quoteM B) Q :
  gives (clean pin) (k tt) Q → gives (clean pin) (refresh_meta_snapshot world ≫= k) Q.
Proof.
  intros Hk. apply (triple_bind _ _ (λ _, clean pin)); [|by intros []].
  unfold refresh_meta_snapshot.
  apply triple_gets_bind. intros native_pin.
  apply (triple_conseq _ (clean pin) _ (λ _, clean pin)); [|by intros r [? _]|done].
  do 3 (apply triple_await; [done|intros ?]).
  intros r Hr. simpl. destruct Hr as [[Hre Hfl Hp Hc Hs] Hpin]. by split; [split|].
Qed.

(** A pin is a published native state. *)
Definition native_published (p : PublishedStateStore) : Prop :=
  ∃ n, p = ss_published (app_native_state_store (qw_app (world n))).

Lemma ensure_ready_triple :
  gives (clean None) (ensure_ready world app_at overshoot)
    (λ _ r, ∃ p, native_published p ∧ clean (Some p) r).
Proof.
  assert (gives (clean None) (pin_native world)
            (λ _ r, ∃ p, native_published p ∧ clean (Some p) r)) as Hpin.
  { unfold pin_native. apply triple_await; [done|]. intros n.
    set (p := ss_published (app_native_state_store (qw_app (world n)))).
    apply (triple_modify_bind _ (clean (Some p))); [by intros r [? _]|].
    intros r Hr. pose proof (refresh_triple (Some p) mret (λ _, clean (Some p))
      (triple_ret _ _ _ _ (λ r Hr, Hr)) r Hr) as Ht. unfold mbind, stateR_bind in Ht.
    destruct (refresh_meta_snapshot world r) as [[[]|exit] r']; [|done].
    exists p. split; [by exists n|done]. }
  unfold ensure_ready. apply triple_await; [done|]. intros n.
  destruct (app_is_ready _ _); [done|]. apply triple_await; [done|]. intros m.
  destruct (becomes_ready _ _ _); [done|].
  apply triple_gets_bind. intros meta. by apply triple_fail; [intros r [[? _] _]| |].
Qed.

(** A token the request may be quoted with. *)
Definition known_token (p : PublishedStateStore) (address : Bytes) (token : Token) : Prop :=
  ps_tokens p !! address = Some token ∨
  ∃ n, ensure_quote_token (world n) address = Ok (Some token).

Lemma token_lookup_triple {B} pin lookup address (k : Token → quoteM B) Q :
  (∀ token, lookup = Ok (Some token) → gives (clean pin) (k token) Q) →
  gives (clean pin) (handle_token_lookup lookup address ≫= k) Q.
Proof.
  intros Hk. apply (triple_bind _ _ (λ token r, clean pin r ∧ lookup = Ok (Some token))).
  - unfold handle_token_lookup. destruct lookup as [[token|]|[|]];
      [by apply triple_ret|by apply triple_fail; [intros r [? _]| |]..].
  - intros token r [Hr Hl]. by apply Hk.
Qed.

Lemma load_tokens_triple p pair :
  gives (clean (Some p)) (load_tokens world pair) (λ x r, clean (Some p) r ∧
    known_token p (pair_token_in_bytes pair) x.1 ∧ known_token p (pair_token_out_bytes pair) x.2).
Proof.
  unfold load_tokens. apply triple_gets_bind. intros pin.
  intros r [Hr <-]. destruct Hr as [Hf Hp]. rewrite Hp. simpl.
  assert (gives (clean (Some p))
    (w_in ← quote_await world; w_out ← quote_await world;
     token_in ← handle_token_lookup (ensure_quote_token w_in (pair_token_in_bytes pair))
                  (pair_token_in_address pair);
     token_out ← handle_token_lookup (ensure_quote_token w_out (pair_token_out_bytes pair))
                   (pair_token_out_address pair);
     mret (token_in, token_out))
    (λ x r, clean (Some p) r ∧ known_token p (pair_token_in_bytes pair) x.1 ∧
       known_token p (pair_token_out_bytes pair) x.2)) as Hfetch.
  { apply triple_await; [done|]. intros n. apply triple_await; [done|]. intros m.
    apply token_lookup_triple. intros token_in Hin.
    apply token_lookup_triple. intros token_out Hout.
    apply triple_ret. intros r' Hr'. split; [done|]. split; right; eauto. }
  specialize (Hfetch r (conj Hf Hp)).
  destruct (ps_tokens p !! pair_token_in_bytes pair) as [token_in|] eqn:Hin; [|done].
  destruct (ps_tokens p !! pair_token_out_bytes pair) as [token_out|] eqn:Hout; [|done].
  split; [done|]. split; by left.
Qed.

Lemma parse_amounts_triple pin :
  gives (clean pin) (parse_amounts request) (λ amounts r, clean pin r ∧
    parse_amount_list (ar_amounts request) = Ok amounts).
Proof.
  unfold parse_amounts. destruct (parse_amount_list _) as [amounts|err].
  - by apply triple_ret.
  - by apply triple_fail; [intros r [? _]| |].
Qed.

(** ** Candidates *)

(** The candidates [cs] of a pair, each at most once, were found in [p]. *)
Definition candidates_of (pair : RequestPair) (p : PublishedStateStore)
    (cs : list (string * PoolEntry)) : Prop :=
  NoDup cs.*1 ∧
  ∀ c, c ∈ cs → c ∈ matching_pools_from_published p (pair_token_in_bytes pair)
                      (pair_token_out_bytes pair).

Lemma candidates_perm pair p cs cs' :
  candidates_of pair p cs → cs' ≡ₚ cs → candidates_of pair p cs'.
Proof. intros [Hn Hc] Hp. split; [by rewrite Hp|]. intros c. rewrite Hp. apply Hc. Qed.

Lemma candidates_filter pair p cs (P : string * PoolEntry → Prop) `{∀ c, Decision (P c)} :
  candidates_of pair p cs → candidates_of pair p (filter P cs).
Proof.
  intros [Hn Hc]. split.
  - eapply sublist_NoDup; [apply Hn|]. apply fmap_sublist, sublist_filter.
  - intros c [_ ?]%list_elem_of_filter. by apply Hc.
Qed.

(** The VM and RFQ candidates: none, or found in a published state of their backend. *)
Definition backend_candidates (store : AppState → StateStore) (pair : RequestPair)
    (cs : list (string * PoolEntry)) : Prop :=
  cs = [] ∨ ∃ n, candidates_of pair (ss_published (store (qw_app (world n)))) cs.

Record candidate_sets_ok (pair : RequestPair) (p : PublishedStateStore) (cs : CandidateSets) :
    Prop := {
  cok_native : candidates_of pair p (cs_native_candidates cs);
  cok_vm : backend_candidates app_vm_state_store pair (cs_vm_candidates cs);
  cok_rfq : backend_candidates app_rfq_state_store pair (cs_rfq_candidates cs);
}.

Lemma backend_perm store pair cs cs' :
  backend_candidates store pair cs → cs' ≡ₚ cs → backend_candidates store pair cs'.
Proof.
  intros [->|[n Hc]] Hp; [left; by apply Permutation_nil_r|right; exists n].
  by eapply candidates_perm.
Qed.

Context `{!HashOrderLaws}.

Lemma matching_found p token_in token_out :
  ∃ P, found p P (matching_pools_from_published p token_in token_out).
Proof.
  assert (∀ P : string → Prop, (∀ id, ¬ P id) → found p P []) as Hnil.
  { intros P HP. split; [constructor|]. set_solver. }
  unfold matching_pools_from_published.
  destruct (negb _).
  - destruct (ps_token_index p !! token_in), (ps_token_index p !! token_out);
      [eexists; apply intersect_found|exists (λ _, False); apply Hnil; by intros ? []..].
  - destruct (ids_for_token p token_in), (ids_for_token p token_out);
      [eexists; apply intersect_found|exists (λ _, False); apply Hnil; by intros ? []..].
Qed.

Lemma matching_candidates pair p :
  candidates_of pair p
    (matching_pools_from_published p (pair_token_in_bytes pair) (pair_token_out_bytes pair)).
Proof.
  split; [|done].
  by destruct (matching_found p (pair_token_in_bytes pair) (pair_token_out_bytes pair))
    as [P Hf]; destruct Hf.
Qed.

Lemma candidate_pool pair p cs id e :
  candidates_of pair p cs → (id, e) ∈ cs → pool_by_id_from_published p id = Some e.
Proof.
  intros [Hn Hc] Hin. apply Hc in Hin. destruct (matching_found p (pair_token_in_bytes pair)
    (pair_token_out_bytes pair)) as [P [Hnd HP]]. apply HP in Hin. by destruct Hin.
Qed.

Lemma backend_triple {B} p store pair (ready : bool) (k : list (string * PoolEntry) → quoteM B) Q :
  (∀ cs, backend_candidates store pair cs → gives (clean (Some p)) (k cs) Q) →
  gives (clean (Some p))
    ((if ready then
        w ← quote_await world;
        mret (matching_pools_from_published (ss_published (store (qw_app w)))
                (pair_token_in_bytes pair) (pair_token_out_bytes pair))
      else mret []) ≫= k) Q.
Proof.
  intros Hk. apply (triple_bind _ _ (λ cs r, clean (Some p) r ∧ backend_candidates store pair cs)).
  - destruct ready; [|apply triple_ret; by split; [|left]].
    apply triple_await; [done|]. intros n. apply triple_ret. intros r Hr. split; [done|].
    right. exists n. apply matching_candidates.
  - intros cs r [Hr Hcs]. by apply Hk.
Qed.

Lemma load_candidates_triple p pair vm_ready rfq_ready :
  gives (clean (Some p)) (load_candidate_sets server world pair vm_ready rfq_ready)
    (λ cs r, clean (Some p) r ∧ candidate_sets_ok pair p cs).
Proof.
  unfold load_candidate_sets. apply triple_gets_bind. intros pin r [Hr <-].
  destruct Hr as [Hf Hp]. rewrite Hp. generalize (conj Hf Hp : clean (Some p) r).
  generalize r. clear r Hf Hp.
  match goal with |- ∀ r, _ → match ?m r with _ => _ end => change (gives (clean (Some p)) m
    (λ cs r, clean (Some p) r ∧ candidate_sets_ok pair p cs)) end.
  apply (backend_triple p app_vm_state_store). intros vm Hvm.
  apply (backend_triple p app_rfq_state_store). intros rfq Hrfq.
  apply triple_ret. intros r Hr. split; [done|]. split; [|done|done].
  apply candidates_filter, matching_candidates.
Qed.

(** ** A prepared request *)

Record prepared_well (p : PublishedStateStore) (pair : RequestPair)
    (prepared : PreparedQuoteExecution) (r : QuoteRequestRunner) : Prop := {
  pw_clean : clean (Some p) r;
  pw_amounts : parse_amount_list (ar_amounts request) = Ok (pe_amounts_in prepared);
  pw_len : pe_expected_len prepared = length (pe_amounts_in prepared);
  pw_candidates : candidate_sets_ok pair p (pe_candidates prepared);
  pw_count :
    me_candidate_pools (run_meta (qr_run r)) = total_candidates (pe_candidates prepared);
  pw_native_ids :
    qr_native_pool_ids r = list_to_set (cs_native_candidates (pe_candidates prepared)).*1;
  pw_token_in : known_token p (pair_token_in_bytes pair) (pe_token_in prepared);
  pw_token_out : known_token p (pair_token_out_bytes pair) (pe_token_out prepared);
}.

Lemma prepare_execution_triple p pair token_in token_out amounts :
  known_token p (pair_token_in_bytes pair) token_in →
  known_token p (pair_token_out_bytes pair) token_out →
  parse_amount_list (ar_amounts request) = Ok amounts →
  gives (clean (Some p)) (prepare_execution server world pair token_in token_out amounts)
    (prepared_well p pair).
Proof.
  intros Hin Hout Ham. unfold prepare_execution.
  do 5 (apply triple_await; [done|intros ?]).
  apply (triple_modify_bind _ (clean (Some p))).
  { intros r' [[Hr Hfl Hp Hc Hs] Hpin]. by split; [split|]. }
  apply refresh_triple. eapply triple_bind; [apply load_candidates_triple|].
  intros cs r [Hr [Hn Hvm Hrfq]].
  set (cs' := {| cs_native_candidates := cs_native_candidates cs |}).
  assert (candidate_sets_ok pair p cs') as Hcs'.
  { split; [done|done|]. destruct Hrfq as [E|[m Hm]].
    - left. simpl. by rewrite E.
    - right. exists m. by apply candidates_filter. }
  clearbody cs'. clear cs Hn Hvm Hrfq.
  unfold prepare_candidate_metadata. rewrite bind_assoc_run, modify_bind.
  set (r1 := over_runner _ r).
  assert (clean (Some p) r1 ∧
          me_candidate_pools (run_meta (qr_run r1)) = total_candidates cs') as [Hr1 Hcount].
  { destruct Hr as [[Hre Hfl Hp Hc Hs] Hpin]. by split; [split; [split|]|]. }
  clearbody r1. clear r Hr. case_bool_decide.
  { apply (triple_fail (clean (Some p)) _ _ _ (λ (_ : PreparedQuoteExecution) _, True));
      [by intros r [? _]|done|done|done]. }
  set (cs := {| cs_native_candidates := sort_by_key fst (cs_native_candidates cs') |}).
  split; try done.
  - destruct Hcs' as [Hn Hvm Hrfq]. split; simpl;
      [eapply candidates_perm; [done|]|eapply backend_perm; [done|]|eapply backend_perm; [done|]];
      apply sort_by_key_perm.
  - simpl. rewrite Hcount. unfold total_candidates, cs; simpl. by rewrite !sort_by_key_perm.
Qed.

Lemma prepare_request_triple :
  gives (clean None) (prepare_request server world app_at overshoot request cancel)
    (λ prepared r, ∃ p pair, native_published p ∧ pair_of_request pair ∧
       prepared_well p pair prepared r).
Proof.
  unfold prepare_request. destruct (cv_before cancel).
  { intros r [[Hr Hfl Hp Hc Hs] Hpin]. simpl. split; simpl; [done..| |done].
    rewrite Hfl. by eexists. }
  eapply triple_bind; [apply parse_pair_triple|]. intros pair r [Hr Hpair].
  generalize Hr. generalize r. clear r Hr. apply triple_bind with (Q := λ _ r,
    ∃ p, native_published p ∧ clean (Some p) r); [apply ensure_ready_triple|].
  intros _ r (p & Hp & Hr). generalize Hr. generalize r. clear r Hr.
  eapply triple_bind; [apply load_tokens_triple|]. intros [token_in token_out] r (Hr & Hin & Hout).
  generalize Hr. generalize r. clear r Hr.
  eapply triple_bind; [apply parse_amounts_triple|]. intros amounts r [Hr Ham].
  pose proof (prepare_execution_triple p pair token_in token_out amounts Hin Hout Ham r Hr) as Ht.
  destruct (prepare_execution _ _ _ _ _ _ r) as [[prepared|exit] r']; [|done].
  by exists p, pair.
Qed.

Lemma new_clean : clean None (QuoteRequestRunner_new world request).
Proof. by split; [split|]. Qed.
End prepare.
