(* ===== verification/QuoteAnswers.v ===== *)
(** * What an executed request answers

    The tasks a request schedules are its candidates', in order; its run, whatever the order
    in which they end, is the sum of what they add, and is classified by what it holds. *)

From S2P Require Import Prelude Ordered Text Protocol Store Readiness Requests.
From S2P Require Import RouteTypes RouteResimulate QuoteTypes QuoteSlippage QuotePools QuoteRun.
From S2P Require Import QuoteRequest QuoteLadder QuoteFacts QuotePrepare.

(** ** Scheduled tasks *)

Section execute.
Context `{QuoteApi} `{HashOrder} (server : QuoteServer) (cancel : CancelView).

Definition all_candidates (cs : CandidateSets) : list (ScheduledPoolKind * (string * PoolEntry)) :=
  ((ScheduledNative,.) <$> cs_native_candidates cs)
  ++ ((ScheduledVm,.) <$> cs_vm_candidates cs)
  ++ ((ScheduledRfq,.) <$> cs_rfq_candidates cs).

Definition prepare_chosen (prepared : PreparedQuoteExecution)
    (x : ScheduledPoolKind * (string * PoolEntry)) : SimulatePoolInput :=
  prepare_pool_simulation prepared x.1 x.2.

Definition never_cancelled : Prop := ∀ kind index, cv_scheduling cancel kind index = false.

Lemma schedule_group_chosen prepared kind index cs s :
  ∃ chosen, (schedule_pool_group cancel prepared kind index cs s).2
            = s.2 ++ (prepare_chosen prepared <$> chosen) ∧
    chosen `sublist_of` ((kind,.) <$> cs) ∧ (never_cancelled → chosen = (kind,.) <$> cs).
Proof.
  revert index s. induction cs as [|c cs IH]; intros index s; cbn [schedule_pool_group].
  { exists []. split_and!; [by rewrite app_nil_r|constructor|done]. }
  destruct (cv_scheduling cancel kind index) eqn:E.
  { exists []. split_and!; [by rewrite app_nil_r|apply sublist_nil_l|].
    intros Hn. by rewrite Hn in E. }
  destruct (IH (S index) (mark_scheduled kind s.1, s.2 ++ [prepare_pool_simulation prepared kind c]))
    as (chosen & Hc & Hs & Hn).
  exists ((kind, c) :: chosen). split_and!.
  - rewrite Hc. simpl. by rewrite <- app_assoc.
  - by constructor.
  - intros Hnc. simpl. by rewrite (Hn Hnc).
Qed.

Lemma schedule_chosen prepared metrics :
  ∃ chosen, (schedule_pool_tasks cancel prepared metrics).2 = prepare_chosen prepared <$> chosen ∧
    chosen `sublist_of` all_candidates (pe_candidates prepared) ∧
    (never_cancelled → chosen = all_candidates (pe_candidates prepared)).
Proof.
  unfold schedule_pool_tasks, all_candidates. cbn [foldl].
  set (cs := pe_candidates prepared).
  destruct (schedule_group_chosen prepared ScheduledNative 0 (cs_native_candidates cs)
    (metrics, [])) as (c1 & E1 & S1 & N1). set (s1 := schedule_pool_group _ _ _ _ _ _) in *.
  destruct (schedule_group_chosen prepared ScheduledVm 0 (cs_vm_candidates cs) s1)
    as (c2 & E2 & S2 & N2). set (s2 := schedule_pool_group _ _ _ _ _ s1) in *.
  destruct (schedule_group_chosen prepared ScheduledRfq 0 (cs_rfq_candidates cs) s2)
    as (c3 & E3 & S3 & N3).
  exists (c1 ++ c2 ++ c3). split_and!.
  - by rewrite E3, E2, E1, !fmap_app, <- app_assoc.
  - by repeat apply sublist_app.
  - intros Hn. by rewrite N1, N2, N3.
Qed.

Lemma outcomes_seq (l : list PoolTaskOutcome) : outcomes (map_seq 0 l) ≡ₚ l.
Proof.
  unfold outcomes. rewrite map_to_list_seq, snd_zip; [done|]. by rewrite length_seq.
Qed.

(** ** Runs *)

(** The failures of a run that no task cancelled. *)
Definition closing_failures (responses : list AmountOutResponse) (failures : list QuoteFailure) :
    list QuoteFailure :=
  match responses, failures with
  | [], [] => [make_failure FailureSimulator "All pools returned zero amounts" None]
  | _, _ => failures
  end.

(** The run of a prepared request, of whose tasks [ended] have ended. *)
Record executed (schedule : list SelectEvent) (prepared : PreparedQuoteExecution)
    (run0 run : QuoteRunState) (ended : list PoolTaskOutcome) : Prop := {
  ex_meta : run_meta run = run_meta run0;
  ex_skipped : ∃ metrics, (schedule_pool_tasks cancel prepared (run_metrics run0)).1 = metrics ∧
    skipped run = (qm_skipped_vm_unavailable metrics, qm_skipped_rfq_unavailable metrics);
  ex_responses : run_responses run
    = ended ≫= task_responses (pe_expected_len prepared) (me_block_number (run_meta run0));
  ex_results : run_pool_results run = ended ≫= task_results (pe_expected_len prepared);
  ex_consistent : consistent run;
  ex_explained : run_responses run = [] → run_failures run ≠ [];
  ex_tasks : ∃ running,
    imap (run_pool_task server cancel prepared)
      (schedule_pool_tasks cancel prepared (run_metrics run0)).2 ≡ₚ ended ++ running ∧
    (running = [] ∧
     run_failures run
     = closing_failures (run_responses run) (ended ≫= task_failures (pe_expected_len prepared)) ∧
     qc_partial (run_classification run)
     = foldl pjoin PartialNone (task_partial (pe_expected_len prepared) <$> ended) ∨
     RequestCancelled ∈ schedule ∧ run_failures run ≠ []);
}.

Lemma apply_empty_eq run :
  consistent run →
  let run' := apply_empty_response_state run in
  run_meta run' = run_meta run ∧ skipped run' = skipped run ∧
  run_responses run' = run_responses run ∧
  run_pool_results run' = run_pool_results run ∧
  run_failures run' = closing_failures (run_responses run) (run_failures run) ∧
  qc_partial (run_classification run') = qc_partial (run_classification run).
Proof.
  intros [Hu _]. unfold apply_empty_response_state, closing_failures.
  destruct (qc_had_usable_response _).
  - by destruct (run_responses run); [destruct (proj1 Hu eq_refl)|].
  - destruct (run_responses run) eqn:Er; [|by discriminate (proj2 Hu ltac:(done))].
    destruct (run_failures run) eqn:Ef; case_bool_decide as El; try done;
      split_and!; try done; simpl; by rewrite Ef.
Qed.

Lemma execute_executed schedule prepared run0 run :
  execute_pool_quotes server cancel schedule prepared run0 = Some run → fresh run0 →
  ∃ ended, executed schedule prepared run0 run ended.
Proof.
  unfold execute_pool_quotes. intros Hex Hfresh.
  destruct (schedule_pool_tasks cancel prepared (run_metrics run0)) as [metrics inputs] eqn:Es.
  apply bind_Some in Hex as (col & Hcol & [= <-]).
  apply collect_adds in Hcol as (ended & running & run1 & Hp & Hadds & Hcon & Hend).
  unfold pool_tasks in Hp. rewrite outcomes_seq in Hp. cbn [col_run] in *.
  assert (consistent (over_metrics (λ _, metrics) run0)) as Hc0.
  { by destruct (fresh_consistent run0 Hfresh). }
  apply Hcon in Hc0. clear Hcon. destruct Hfresh as [Hr Hf Hres Hcl Hst].
  destruct Hadds as [Am As Ar Af Ap Ac]. cbn [over_metrics run_meta run_responses run_failures
    run_pool_results run_classification] in *. rewrite Hr, Hf, Hres, Hcl in *. simpl in Ar, Af, Ap, Ac.
  assert (∃ run2, col_run col = run2 ∧ consistent run2 ∧ run_meta run2 = run_meta run1 ∧
    skipped run2 = skipped run1 ∧
    run_responses run2 = run_responses run1 ∧ run_pool_results run2 = run_pool_results run1 ∧
    (running = [] ∧ run2 = run1 ∨ RequestCancelled ∈ schedule ∧ run_failures run2 ≠ []))
    as (run2 & E2 & Hc2 & Hm2 & Hs2 & Hr2 & Hp2 & Hend2).
  { destruct Hend as [[-> ->]|[Hcancel ->]].
    - exists run1. split_and!; [done..|by left].
    - exists (cancel_collection run1). split_and!; try done; [by apply cancel_consistent|].
      right. split; [done|]. simpl. by intros [_ ?]%app_eq_nil. }
  rewrite E2. clear E2 Hend.
  match goal with |- ∃ _, executed _ _ _ (apply_empty_response_state (over_metrics ?g _)) _ =>
    set (run3 := over_metrics g run2) end.
  assert (consistent run3) as Hc3 by by destruct Hc2.
  destruct (apply_empty_eq run3 Hc3) as (Hm & Hsk & Hre & Hpr & Hfl & Hpa).
  exists ended. split.
  - by rewrite Hm, <- Am, <- Hm2.
  - exists metrics. rewrite Es, Hsk. split; [done|].
    change (skipped run2 = skipped (over_metrics (λ _, metrics) run0)). by rewrite Hs2.
  - rewrite Hre. simpl. by rewrite Hr2, Ar.
  - rewrite Hpr. simpl. by rewrite Hp2, Ap.
  - by apply apply_empty_consistent.
  - rewrite Hre, Hfl. intros ->. simpl. by destruct (run_failures run2).
  - exists running. rewrite Es. simpl. split; [done|].
    destruct Hend2 as [[-> ->]|[Hcancel Hne]]; [left|right].
    + split_and!; [done|by rewrite Hfl, Hre; simpl; rewrite Af|by rewrite Hpa; simpl].
    + split; [done|]. rewrite Hfl. simpl. by destruct (run_responses run2), (run_failures run2).
Qed.

(** The execution ends exactly when each task that was scheduled does, or the request is
    cancelled. *)
Lemma execute_ends schedule prepared run0 :
  is_Some (execute_pool_quotes server cancel schedule prepared run0) ↔
  RequestCancelled ∈ schedule ∨
  (∀ k, (k < length (schedule_pool_tasks cancel prepared (run_metrics run0)).2)%nat →
     TaskEnded k ∈ schedule).
Proof.
  unfold execute_pool_quotes.
  destruct (schedule_pool_tasks cancel prepared (run_metrics run0)) as [metrics inputs]. cbn [snd].
  assert (∀ k, is_Some (pool_tasks server cancel prepared inputs !! k) ↔ (k < length inputs)%nat) as Ht.
  { intros k. unfold pool_tasks.
    rewrite lookup_map_seq_0, lookup_lt_is_Some, length_imap. done. }
  setoid_rewrite <- Ht. rewrite <- collect_ends. by rewrite is_Some_then.
Qed.
End execute.

(** ** Answers *)

(** The quality of an answer is what its responses and failures say. *)
Definition quality_exact (c : QuoteComputation) : Prop :=
  let meta := qcomp_meta c in
  let liquidity := Forall (λ f, is_liquidity_like_failure f = true) (me_failures meta) in
  match me_result_quality meta with
  | Complete =>
      qcomp_responses c ≠ [] ∧ me_failures meta = [] ∧ me_pool_results meta = [] ∧
      me_status meta = StatusReady ∧ me_partial_kind meta = None
  | Partial =>
      qcomp_responses c ≠ [] ∧ (me_failures meta ≠ [] ∨ me_pool_results meta ≠ []) ∧
      me_status meta = StatusReady ∧ is_Some (me_partial_kind meta)
  | NoResults =>
      qcomp_responses c = [] ∧ me_failures meta ≠ [] ∧ liquidity ∧
      me_status meta = StatusNoLiquidity ∧ me_partial_kind meta = None
  | RequestLevelFailure =>
      qcomp_responses c = [] ∧ ¬ liquidity ∧ me_partial_kind meta = None
  end.

Lemma rejected_quality exit run : rejected exit run → quality_exact (build_request_exit run exit).
Proof.
  intros [Hr Hp (f & Hf & Hx) Hpart]. unfold quality_exact. simpl. rewrite Hf, Hr, Hpart.
  destruct (is_liquidity_like_failure f) eqn:E.
  - destruct Hx as [-> ->]. split_and!; [done..| |done|done]. by constructor.
  - rewrite Hx. split_and!; [done| |done]. rewrite Forall_singleton. congruence.
Qed.

Lemma finished_quality run :
  consistent run → me_status (run_meta run) = StatusReady →
  (run_responses run = [] → run_failures run ≠ []) → quality_exact (finish_current_state run).
Proof.
  intros [Hu Hl] Hst Hne. unfold finish_current_state, quality_exact. simpl.
  unfold classify_current_exit. simpl. rewrite Hst. unfold classify_ready_exit. simpl.
  set (responses := sort_by_key _ (run_responses run)).
  set (results := sort_by_key pool_result_key _).
  assert (responses = [] ↔ run_responses run = []) as Hr.
  { unfold responses. split; intros E; [|by rewrite E].
    apply Permutation_nil_r. by rewrite <- E, sort_by_key_perm. }
  clearbody responses.
  destruct (qc_had_usable_response _) eqn:Eu.
  - assert (responses ≠ []) by (rewrite Hr; by apply Hu).
    case_bool_decide as Hres; simpl.
    + apply length_zero_iff_nil in Hres. case_bool_decide as Hf; simpl.
      * apply length_zero_iff_nil in Hf. by split_and!.
      * split_and!; [done| |done|done]. left. intros E. by rewrite E in Hf.
    + split_and!; [done| |done|done]. right. intros E. by rewrite E in Hres.
  - assert (run_responses run = []) as Hnil.
    { destruct (run_responses run); [done|]. by discriminate (proj2 Hu ltac:(done)). }
    case_bool_decide as El; simpl.
    + split_and!; [by apply Hr|by apply Hne|by apply Hl|done|done].
    + split_and!; [by apply Hr| |done]. by rewrite <- Hl.
Qed.

Lemma sublist_full {A} (l1 l2 : list A) :
  l1 `sublist_of` l2 → (length l2 ≤ length l1)%nat → l1 = l2.
Proof.
  induction 1 as [|x l1 l2 _ IH|x l1 l2 Hs IH]; intros Hlen; simpl in *; [done| |].
  - f_equal. apply IH. lia.
  - apply sublist_length in Hs. lia.
Qed.

Lemma discard_quality ids c : quality_exact c → quality_exact (discard_stale_native_responses ids c).
Proof.
  intros Hq. unfold discard_stale_native_responses.
  set (responses := filter _ (qcomp_responses c)). case_bool_decide as Hd.
  - assert (responses = qcomp_responses c) as E.
    { apply sublist_full; [apply sublist_filter|]. lia. }
    by rewrite E; destruct c.
  - case_bool_decide as Hn; unfold quality_exact; simpl.
    + split_and!; [done| |done]. rewrite Forall_app, Forall_singleton. by intros [_ ?].
    + split_and!; [done| |done|done]. left. by intros [_ ?]%app_eq_nil.
Qed.
