(* ===== verification/QuoteProps.v ===== *)
(** * Quotes: what an answer is

    What a quote request returns, for any server over time, any cancellation and any order
    in which its tasks end: the answers of published pools, within the slippage configured,
    from native state that is still served, classified by what the answer holds. *)

From S2P Require Import Prelude Ordered Text Protocol Store StoreLife StorePools StoreQuery.
From S2P Require Import Health Readiness Requests.
From S2P Require Import RouteTypes RouteResimulate QuoteTypes QuoteSlippage QuotePools QuoteRun.
From S2P Require Import QuoteRequest QuoteLadder QuoteFacts QuotePrepare QuoteAnswers.

Section quotes.
Context `{QuoteApi} `{!QuoteApiLaws} `{HashOrder} `{!HashOrderLaws}.
Context (server : QuoteServer) (world : nat → QuoteWorld).
Context (app_at : Instant → AppState) (overshoot : nat → Duration).
Context (request : AmountOutRequest) (cancel : CancelView).

Abbreviation answer := (get_amounts_out server world app_at overshoot request cancel).
Abbreviation prepared_run :=
  (prepare_request server world app_at overshoot request cancel
     (QuoteRequestRunner_new world request)).

(** The number of waits before the execution: the next is that of the fence. *)
Definition fence_wait : nat := qr_waits prepared_run.2.

Definition fence_of (p : PublishedStateStore) (ids : gset string) : option NativeFence :=
  if bool_decide (ids = ∅) then None
  else Some {| nf_request_generation := ps_request_generation p; nf_native_pool_ids := ids |}.

Lemma get_amounts_out_inv schedule c :
  answer schedule = Some c →
  (∃ exit r, prepared_run = (Err exit, r) ∧ rejected exit (qr_run r) ∧
     c = build_request_exit (qr_run r) exit) ∨
  (∃ p pair prepared r run ended, prepared_run = (Ok prepared, r) ∧
     native_published world p ∧ pair_of_request server request pair ∧
     prepared_well world request p pair prepared r ∧
     executed server cancel schedule prepared (qr_run r) run ended ∧
     c = apply_fence (world (qr_waits r)) (fence_of p (qr_native_pool_ids r))
           (finish_current_state run)).
Proof.
  unfold get_amounts_out, run_request.
  pose proof (prepare_request_triple server world app_at overshoot request cancel
    (QuoteRequestRunner_new world request) (new_clean world request)) as Ht.
  destruct prepared_run as [[prepared|exit] r] eqn:Ep; intros Hc.
  - right. destruct Ht as (p & pair & Hp & Hpair & Hw).
    apply bind_Some in Hc as ([[computation fence] waits] & Hrun & [= <-]).
    apply bind_Some in Hrun as (run & Hex & [= <- <- <-]).
    pose proof (pw_clean _ _ _ _ _ _ Hw) as [Hfresh Hpin].
    destruct (execute_executed _ _ _ _ _ _ Hex Hfresh) as [ended He].
    exists p, pair, prepared, r, run, ended. split_and!; try done.
    rewrite Hpin. unfold fence_of. by case_bool_decide.
  - left. injection Hc as <-. exists exit, r. split_and!; [done..|]. by destruct (qr_run r).
Qed.

Lemma fence_responses w fence c response :
  response ∈ qcomp_responses (apply_fence w fence c) → response ∈ qcomp_responses c.
Proof.
  unfold apply_fence, discard_stale_native_responses. destruct fence as [fence|]; [|done].
  destruct (_ && _); [|done]. case_bool_decide as Hd; [|case_bool_decide]; simpl;
    by intros [_ ?]%list_elem_of_filter.
Qed.

Lemma fence_quality w fence c : quality_exact c → quality_exact (apply_fence w fence c).
Proof.
  intros Hq. unfold apply_fence. destruct fence as [fence|]; [|done].
  destruct (_ && _); [|done]. by apply discard_quality.
Qed.

(** C20: every answer is classified by the quotes, failures and pool outcomes it holds:
    complete when there are quotes and neither a failure nor a pool outcome is reported,
    partial when there are quotes and one is, no results when there are none and every
    failure is about liquidity, and a request-level failure when there are none for any
    other reason.  Pools that are not asked at all, those of a VM or RFQ backend that is
    not ready, report nothing: an answer without them may be complete
    ([QuoteDemo.skipped_pools_are_complete]), and only [vm_unavailable] and
    [rfq_unavailable] tell. *)
Theorem answer_quality_exact schedule c :
  answer schedule = Some c → quality_exact c.
Proof.
  intros [(exit & r & _ & Hr & ->)|(p & pair & prepared & r & run & ended & _ & _ & _ & Hw & He & ->)]
    %get_amounts_out_inv; [by apply rejected_quality|].
  apply fence_quality, finished_quality; [apply He| |apply He].
  rewrite (ex_meta _ _ _ _ _ _ _ He). by destruct (pw_clean _ _ _ _ _ _ Hw) as [[] _].
Qed.

(** The tasks that the request schedules: none when it is rejected before its execution. *)
Definition request_tasks : nat :=
  match prepared_run with
  | (Ok prepared, r) =>
      length (schedule_pool_tasks cancel prepared (run_metrics (qr_run r))).2
  | (Err _, _) => 0
  end.

(** C26: the collection of a request waits for its own tasks and for nothing else: it
    gives an answer exactly when each of the tasks the request has scheduled ends, or the
    request is cancelled, in whatever order; a request that is rejected before it
    schedules a task is answered at once. *)
Theorem every_request_is_answered schedule :
  is_Some (get_amounts_out server world app_at overshoot request cancel schedule) ↔
  RequestCancelled ∈ schedule ∨ (∀ k, (k < request_tasks)%nat → TaskEnded k ∈ schedule).
Proof.
  unfold get_amounts_out, run_request, request_tasks.
  destruct prepared_run as [[prepared|exit] r].
  - rewrite <- (execute_ends server cancel).
    destruct (execute_pool_quotes _ _ _ _ _); split; intros [? ?]; done || by eexists.
  - split; [intros _; right; lia|by eexists].
Qed.

(** ** Where responses come from *)

Definition backend_published (store : AppState → StateStore) (p : PublishedStateStore) : Prop :=
  ∃ n, p = ss_published (store (qw_app (world n))).

(** A native candidate is in the pinned state, another in a state its backend published. *)
Definition candidate_source (p : PublishedStateStore) (ids : gset string)
    (x : ScheduledPoolKind * (string * PoolEntry)) : Prop :=
  match x.1 with
  | ScheduledNative => pool_by_id_from_published p x.2.1 = Some x.2.2 ∧ x.2.1 ∈ ids
  | ScheduledVm => ∃ q, backend_published app_vm_state_store q ∧
      pool_by_id_from_published q x.2.1 = Some x.2.2
  | ScheduledRfq => ∃ q, backend_published app_rfq_state_store q ∧
      pool_by_id_from_published q x.2.1 = Some x.2.2
  end.

Lemma backend_source store pair cs c :
  backend_candidates world store pair cs → c ∈ cs →
  ∃ q, backend_published store q ∧ pool_by_id_from_published q c.1 = Some c.2.
Proof.
  intros [->|[n Hc]] Hin; [by apply elem_of_nil in Hin|].
  destruct c as [id e]. eexists. split; [by exists n|]. by eapply candidate_pool.
Qed.

Lemma candidates_sourced p pair prepared r x :
  prepared_well world request p pair prepared r → x ∈ all_candidates (pe_candidates prepared) →
  candidate_source p (qr_native_pool_ids r) x.
Proof.
  intros [_ _ _ [Hn Hvm Hrfq] _ Hids _ _] Hx. unfold all_candidates in Hx.
  rewrite !elem_of_app, !list_elem_of_fmap in Hx.
  destruct Hx as [(c & -> & Hc)|[(c & -> & Hc)|(c & -> & Hc)]]; unfold candidate_source; simpl.
  - destruct c as [id e]. split; [by eapply candidate_pool|].
    rewrite Hids. apply elem_of_list_to_set, list_elem_of_fmap. by exists (id, e).
  - by eapply backend_source.
  - by eapply backend_source.
Qed.

(** The pool, the tokens and the view behind the result of a task. *)
Definition task_of (prepared : PreparedQuoteExecution)
    (x : ScheduledPoolKind * (string * PoolEntry)) (view : PoolView) : PoolTaskOutcome :=
  let input := prepare_chosen prepared x in
  simulate_pool (si_descriptor input) (si_pool_state input) (si_token_in input)
    (si_token_out input) (pe_amounts_in prepared) (qv_slippage server) (pe_expected_len prepared)
    view.

Lemma tasks_chosen prepared metrics :
  ∃ chosen, chosen `sublist_of` all_candidates (pe_candidates prepared) ∧
    (never_cancelled cancel → chosen = all_candidates (pe_candidates prepared)) ∧
    imap (run_pool_task server cancel prepared)
      (schedule_pool_tasks cancel prepared metrics).2
    = imap (λ k x, task_of prepared x (cv_pool cancel k)) chosen.
Proof.
  destruct (schedule_chosen cancel prepared metrics) as (chosen & E & Hs & Hn).
  exists chosen. split_and!; [done..|]. by rewrite E, imap_fmap.
Qed.

Lemma ended_task schedule prepared run0 run ended o :
  executed server cancel schedule prepared run0 run ended → o ∈ ended →
  ∃ x view, x ∈ all_candidates (pe_candidates prepared) ∧ o = task_of prepared x view.
Proof.
  intros He Ho. destruct (ex_tasks _ _ _ _ _ _ _ He) as (running & Hp & _).
  destruct (tasks_chosen prepared (run_metrics run0)) as (chosen & Hs & _ & E).
  assert (o ∈ ended ++ running) as Hin by (apply elem_of_app; by left).
  rewrite <- Hp, E in Hin. apply elem_of_lookup_imap in Hin as (k & x & -> & Hx).
  exists x, (cv_pool cancel k). split; [|done].
  by eapply elem_of_submseteq; [eapply list_elem_of_lookup_2|apply sublist_submseteq].
Qed.

(** The result behind a response. *)
Lemma task_response_inv prepared x view block response :
  pe_expected_len prepared = length (pe_amounts_in prepared) →
  response ∈ task_responses (pe_expected_len prepared) block (task_of prepared x view) →
  let input := prepare_chosen prepared x in
  ∃ result, task_of prepared x view = Ok (Simulated result) ∧
    response = pool_response result block ∧ (0 < pq_successful_steps result)%nat ∧
    good_result (si_descriptor input) (si_pool_state input) (si_token_in input)
      (si_token_out input) (pe_amounts_in prepared) (qv_slippage server) result.
Proof.
  intros Hlen Hr. cbn zeta. unfold task_of in *. rewrite Hlen in *.
  destruct (simulate_pool _ _ _ _ _ _ _ view) as [[result]|f] eqn:E; [|by apply elem_of_nil in Hr].
  pose proof (simulated_good _ _ _ _ _ _ _ _ E) as Hg. exists result.
  cbn [task_responses] in Hr.
  assert (pad_result (length (pe_amounts_in prepared)) result = result) as Hpad.
  { unfold pad_result. case_bool_decide as Hpos; [|done].
    destruct (good_answers _ _ _ _ _ _ _ Hg Hpos) as (-> & _ & _).
    rewrite Nat.sub_diag. simpl. rewrite !app_nil_r. by destruct result. }
  rewrite Hpad in Hr. destruct (amounts_out_include_positive_quote _) eqn:Ep;
    [|by apply elem_of_nil in Hr].
  apply list_elem_of_singleton in Hr as ->. split_and!; [done|done| |done].
  apply include_positive_iff in Ep. rewrite (good_steps _ _ _ _ _ _ _ Hg).
  by destruct (omap _ _); [|simpl; lia].
Qed.

(** Every response of an answer comes from a candidate. *)
Lemma response_inv schedule c response :
  answer schedule = Some c → response ∈ qcomp_responses c →
  ∃ p pair prepared r x view result,
    native_published world p ∧ pair_of_request server request pair ∧
    prepared_well world request p pair prepared r ∧
    x ∈ all_candidates (pe_candidates prepared) ∧
    response = pool_response result (me_block_number (run_meta (qr_run r))) ∧
    (0 < pq_successful_steps result)%nat ∧
    task_of prepared x view = Ok (Simulated result) ∧
    let input := prepare_chosen prepared x in
    good_result (si_descriptor input) (si_pool_state input) (si_token_in input)
      (si_token_out input) (pe_amounts_in prepared) (qv_slippage server) result ∧
    prepared_run = (Ok prepared, r) ∧
    ∃ run ended, executed server cancel schedule prepared (qr_run r) run ended ∧
      c = apply_fence (world (qr_waits r)) (fence_of p (qr_native_pool_ids r))
            (finish_current_state run).
Proof.
  intros [(exit & r & _ & [Hr _ _ _] & ->)|
    (p & pair & prepared & r & run & ended & Hrun & Hp & Hpair & Hw & He & Hc)]%get_amounts_out_inv
    Hin; [simpl in Hin; rewrite Hr in Hin; by apply elem_of_nil in Hin|].
  pose proof Hin as Hin'. rewrite Hc in Hin'. apply fence_responses in Hin'. simpl in Hin'.
  rewrite sort_by_key_perm, (ex_responses _ _ _ _ _ _ _ He) in Hin'.
  apply list_elem_of_bind in Hin' as (o & Hresp & Ho).
  destruct (ended_task _ _ _ _ _ _ He Ho) as (x & view & Hx & ->).
  apply task_response_inv in Hresp as (result & Et & -> & Hpos & Hg);
    [|by eapply pw_len].
  exists p, pair, prepared, r, x, view, result.
  do 7 (split; [done|]). split; [exact Hg|]. split; [done|]. by exists run, ended.
Qed.

(** ** What responses hold *)

(** [token] is the one the address in the request names, in the pinned state or when its
    metadata was asked for. *)
Definition requested_token (p : PublishedStateStore) (raw : string) (token : Token) : Prop :=
  ∃ bytes, Bytes_from_str (str_to_lowercase (trim_0x raw)) = Ok bytes ∧
    known_token world p bytes token.

(** A state a backend has published, [p] being the pinned native one. *)
Definition quotable_state (p q : PublishedStateStore) : Prop :=
  q = p ∨ backend_published app_vm_state_store q ∨ backend_published app_rfq_state_store q.

(** C21: every response is what a published pool answered: its pool is in the native state
    the request pinned or in one a VM or RFQ backend published; it has one output and one
    gas per requested amount, each what the pool answers that amount with, for the request's
    tokens as the pool trades them, or zero for both; and one output at least is positive. *)
Theorem quotes_are_pool_answers schedule c response :
  answer schedule = Some c → response ∈ qcomp_responses c →
  ∃ p q amounts state component token_in token_out,
    native_published world p ∧ quotable_state p q ∧
    pool_by_id_from_published q (ao_pool response) = Some (state, component) ∧
    requested_token p (ar_token_in request) token_in ∧
    requested_token p (ar_token_out request) token_out ∧
    parse_amount_list (ar_amounts request) = Ok amounts ∧
    length (ao_amounts_out response) = length amounts ∧
    length (ao_gas_used response) = length amounts ∧
    (∃ out, out ∈ ao_amounts_out response ∧ is_Some (usable_amount out)) ∧
    let '(sim_token_in, sim_token_out) :=
      simulation_tokens_for_pool token_in token_out component in
    ∀ i amount_in, amounts !! i = Some amount_in →
      ∃ out gas, ao_amounts_out response !! i = Some out ∧
        ao_gas_used response !! i = Some gas ∧
        answers state sim_token_in sim_token_out amount_in out gas.
Proof.
  intros Hc Hin. destruct (response_inv _ _ _ Hc Hin)
    as (p & pair & prepared & r & x & view & result & Hp & (Hbin & Hbout & _) & Hw & Hx & -> & Hpos
        & _ & Hg & _).
  pose proof (candidates_sourced _ _ _ _ _ Hw Hx) as Hsrc.
  destruct x as [kind [id [state component]]].
  assert (∃ q, quotable_state p q ∧ pool_by_id_from_published q id = Some (state, component))
    as (q & Hq & Hpool).
  { unfold candidate_source, quotable_state in *. simpl in Hsrc. destruct kind.
    - exists p. destruct Hsrc. by split; [left|].
    - destruct Hsrc as (q & ? & ?). exists q. split; [by right; left|done].
    - destruct Hsrc as (q & ? & ?). exists q. split; [by right; right|done]. }
  unfold prepare_chosen, prepare_pool_simulation in Hg. cbn [fst snd] in Hg.
  exists p, q, (pe_amounts_in prepared), state, component, (pe_token_in prepared),
    (pe_token_out prepared).
  destruct (simulation_tokens_for_pool _ _ component) as [sim_in sim_out].
  destruct (good_answers _ _ _ _ _ _ _ Hg Hpos) as (Hlo & Hlg & Hans).
  split; [done|]. split; [done|].
  split; [cbn [pool_response ao_pool]; by rewrite (good_pool _ _ _ _ _ _ _ Hg)|].
  split; [exists (pair_token_in_bytes pair); split; [done|by eapply pw_token_in]|].
  split; [exists (pair_token_out_bytes pair); split; [done|by eapply pw_token_out]|].
  split; [by eapply pw_amounts|]. split; [done|]. split; [done|]. split.
  - rewrite (good_steps _ _ _ _ _ _ _ Hg) in Hpos.
    destruct (omap usable_amount (pq_amounts_out result)) as [|n l] eqn:E; [simpl in Hpos; lia|].
    assert (n ∈ omap usable_amount (pq_amounts_out result)) as Hn by (rewrite E; left).
    apply list_elem_of_omap in Hn as (out & Ho & Hn). exists out. split; [done|by eexists].
  - intros i amount_in Hi. pose proof (lookup_lt_Some _ _ _ Hi) as Hlt. cbn [pool_response].
    destruct (lookup_lt_is_Some_2 (pq_amounts_out result) i) as [out Ho]; [by rewrite Hlo|].
    destruct (lookup_lt_is_Some_2 (pq_gas_used result) i) as [gas Hgas]; [by rewrite Hlg|].
    exists out, gas. split_and!; [done|done|by eapply Hans].
Qed.

(** C22: the slippage of a response: one figure per output, zero where the output is not
    usable, and for usable outputs within the configured bounds and never falling along the
    ladder, when the configuration is one the server starts with and its maximum and its
    degradation coefficient can be added. *)
Theorem quoted_slippage_bounded env schedule c response :
  load_slippage_config env = Ok (qv_slippage server) →
  (max_dynamic_slippage_bps (qv_slippage server)
   + cumulative_degradation_coefficient_bps (qv_slippage server) < 2 ^ 32)%N →
  answer schedule = Some c → response ∈ qcomp_responses c →
  length (ao_slippage response) = length (ao_amounts_out response) ∧
  (∀ i out x, ao_amounts_out response !! i = Some out → ao_slippage response !! i = Some x →
     usable_amount out = None → x = 0%N) ∧
  (∀ i j out out' x y, (i ≤ j)%nat →
     ao_amounts_out response !! i = Some out → ao_slippage response !! i = Some x →
     is_Some (usable_amount out) →
     ao_amounts_out response !! j = Some out' → ao_slippage response !! j = Some y →
     is_Some (usable_amount out') →
     (min_dynamic_slippage_bps (qv_slippage server) ≤ x ∧ x ≤ y ∧
      y ≤ max_dynamic_slippage_bps (qv_slippage server))%N).
Proof.
  intros Henv Hroom Hc Hin. pose proof (loaded_config_sound _ _ Henv Hroom) as Hs.
  destruct (response_inv _ _ _ Hc Hin)
    as (p & pair & prepared & r & x & view & result & _ & _ & _ & _ & -> & Hpos & _ & Hg & _).
  cbn [pool_response ao_slippage ao_amounts_out].
  pose proof (good_slippage _ _ _ _ _ _ _ Hg Hpos Hs) as Hl. split_and!.
  - by rewrite (ladder_ok_length _ _ _ _ _ Hl).
  - intros i out y Ho Hy Hu. pose proof (ladder_ok_lookup _ _ _ _ _ _ _ _ Hl Ho Hy) as Hz.
    by rewrite Hu in Hz.
  - intros i j out out' y z Hij Ho Hy Hu Ho' Hz Hu'.
    pose proof (ladder_ok_mono _ _ _ _ _ _ _ _ _ _ _ Hl Hij Ho Hy Hu Ho' Hz Hu').
    pose proof (ladder_ok_lookup _ _ _ _ _ _ _ _ Hl Ho Hy) as Hb1.
    pose proof (ladder_ok_lookup _ _ _ _ _ _ _ _ Hl Ho' Hz) as Hb2.
    destruct Hu as [n Hn], Hu' as [m Hm]. rewrite Hn in Hb1. rewrite Hm in Hb2. lia.
Qed.

(** C23: a response is from native state that is still served: its pool was found in a state
    a VM or RFQ backend published, or in the pinned native state, whose generation is
    current when the answer is made. *)
Theorem native_quotes_current schedule c response :
  answer schedule = Some c → response ∈ qcomp_responses c →
  (∃ q, (backend_published app_vm_state_store q ∨ backend_published app_rfq_state_store q) ∧
     is_Some (pool_by_id_from_published q (ao_pool response))) ∨
  (∃ p, native_published world p ∧ is_Some (pool_by_id_from_published p (ao_pool response)) ∧
     native_request_is_current (qw_now (world fence_wait)) (qw_app (world fence_wait))
       (ps_request_generation p) = true).
Proof.
  intros Hc Hin. destruct (response_inv _ _ _ Hc Hin)
    as (p & pair & prepared & r & x & view & result & Hp & _ & Hw & Hx & Hresp & _ & _ & Hg & Hrun
        & run & ended & _ & Efence).
  pose proof (candidates_sourced _ _ _ _ _ Hw Hx) as Hsrc.
  assert (ao_pool response = x.2.1) as Eid.
  { rewrite Hresp. cbn [pool_response ao_pool]. rewrite (good_pool _ _ _ _ _ _ _ Hg).
    destruct x as [kind [id [state component]]]. unfold prepare_chosen, prepare_pool_simulation.
    by destruct (simulation_tokens_for_pool (pe_token_in prepared) (pe_token_out prepared) component). }
  unfold fence_wait. rewrite Hrun, Eid. cbn [snd].
  unfold candidate_source in Hsrc. destruct x.1.
  2,3: left; destruct Hsrc as (q & Hq & Hpool); exists q; split; [tauto|by eexists].
  right. destruct Hsrc as [Hpool Hid]. exists p. split_and!; [done|by eexists|].
  assert (from_native (qr_native_pool_ids r) response = true) as Hnat.
  { unfold from_native. rewrite Eid. by apply bool_decide_eq_true. }
  assert (response ∈ qcomp_responses (finish_current_state run)) as Hfin.
  { rewrite Efence in Hin. by apply fence_responses in Hin. }
  unfold fence_of in Efence. case_bool_decide as Hempty; [set_solver|].
  destruct (native_request_is_current _ _ _) eqn:Ecur; [done|]. exfalso.
  unfold apply_fence in Efence. cbn [nf_native_pool_ids nf_request_generation] in Efence.
  rewrite Ecur, andb_true_r, (proj2 (existsb_exists _ _)) in Efence
    by (exists response; split; [by apply list_elem_of_In|done]).
  rewrite Efence in Hin. unfold discard_stale_native_responses in Hin.
  assert (response ∈ filter (λ r0, Is_true (negb (from_native (qr_native_pool_ids r) r0)))
    (qcomp_responses (finish_current_state run))) as Hf.
  { case_bool_decide; [done|]. by case_bool_decide. }
  apply list_elem_of_filter in Hf as [Hf _]. by rewrite Hnat in Hf.
Qed.

(** ** Complete answers *)

Lemma fence_complete w fence c :
  me_result_quality (qcomp_meta (apply_fence w fence c)) = Complete → apply_fence w fence c = c.
Proof.
  unfold apply_fence. destruct fence as [fence|]; [|done]. destruct (_ && _); [|done].
  unfold discard_stale_native_responses. set (responses := filter _ (qcomp_responses c)).
  case_bool_decide as Hd; [|by case_bool_decide]. intros _.
  assert (responses = qcomp_responses c) as ->; [|by destruct c].
  apply sublist_full; [apply sublist_filter|]. lia.
Qed.

Lemma omap_full {A B} (f : A → option B) l a :
  (length l ≤ length (omap f l))%nat → a ∈ l → is_Some (f a).
Proof.
  assert (∀ l, (length (omap f l) ≤ length l)%nat) as Hle.
  { intros l'. induction l' as [|b l' IH]; [done|]. cbn. destruct (f b); simpl; lia. }
  induction l as [|b l IH]; intros Hlen Hin; [by apply elem_of_nil in Hin|].
  specialize (Hle l). cbn in Hlen. apply elem_of_cons in Hin as [->|Hin].
  - destruct (f b); [by eexists|simpl in *; lia].
  - apply IH; [|done]. destruct (f b); simpl in *; lia.
Qed.

(** A task that adds no outcome and no failure adds a response, all of it usable. *)
Lemma clean_task prepared x view block :
  pe_expected_len prepared = length (pe_amounts_in prepared) →
  task_results (pe_expected_len prepared) (task_of prepared x view) = [] →
  task_failures (pe_expected_len prepared) (task_of prepared x view) = [] →
  ∃ response, task_responses (pe_expected_len prepared) block (task_of prepared x view) = [response] ∧
    ∀ out, out ∈ ao_amounts_out response → is_Some (usable_amount out).
Proof.
  intros Hlen Hres Hfail.
  assert (∃ result, task_of prepared x view = Ok (Simulated result)) as [result E].
  { destruct (task_of prepared x view) as [[result]|f]; [by eexists|done]. }
  pose proof E as Hg. unfold task_of in Hg. rewrite Hlen in Hg. apply simulated_good in Hg.
  rewrite E in *. cbn [task_results task_failures task_responses] in *.
  set (r := pad_result (pe_expected_len prepared) result) in *.
  assert (pq_successful_steps r = pq_successful_steps result) as Hsteps.
  { subst r. unfold pad_result. by case_bool_decide. }
  destruct (classify_pool_outcome r _) as [[outcome reason]|] eqn:Ec; [done|].
  unfold classify_pool_outcome in Ec.
  destruct (is_timeout_like_outcome r); [done|].
  case_bool_decide as Hzero; [by destruct (negb _)|].
  destruct (bool_decide (pq_errors r = []) && _) eqn:Eerr; [done|].
  case_bool_decide as Hlt; [done|].
  case_bool_decide as Herr; [|done]. simpl in Eerr.
  apply negb_false_iff in Eerr. rewrite Eerr. eexists. split; [done|].
  rewrite Hsteps in Hzero, Hlt.
  destruct (good_answers _ _ _ _ _ _ _ Hg ltac:(lia)) as (Hl & _ & _).
  assert (pq_amounts_out r = pq_amounts_out result) as Hr.
  { subst r. unfold pad_result. case_bool_decide; [|done]. simpl. rewrite Hlen, Hl, Nat.sub_diag.
    simpl. by rewrite app_nil_r. }
  cbn [pool_response ao_amounts_out]. rewrite Hr. intros out Hout.
  eapply omap_full; [|done]. rewrite (good_steps _ _ _ _ _ _ _ Hg) in Hlt. lia.
Qed.

Lemma bind_nil_each {A B} (f : A → list B) l x : l ≫= f = [] → x ∈ l → f x = [].
Proof.
  induction l as [|y l IH]; simpl; intros E Hin; [by apply elem_of_nil in Hin|].
  apply app_eq_nil in E as [Ey E]. apply elem_of_cons in Hin as [->|Hin]; [done|by apply IH].
Qed.

Lemma bind_singletons {A B} (f : A → list B) l :
  (∀ x, x ∈ l → ∃ y, f x = [y]) → length (l ≫= f) = length l.
Proof.
  induction l as [|x l IH]; intros Hf; [done|]. simpl. destruct (Hf x) as [y ->]; [left|].
  simpl. f_equal. apply IH. intros z Hz. apply Hf. by right.
Qed.

(** C24: a complete answer covers the market: when nothing cancels the scheduling, every
    candidate pool has a response, and every output of every response is positive. *)
Theorem complete_quote_covers_pools schedule c :
  never_cancelled cancel → answer schedule = Some c →
  me_result_quality (qcomp_meta c) = Complete →
  length (qcomp_responses c) = me_candidate_pools (qcomp_meta c) ∧
  ∀ response out, response ∈ qcomp_responses c → out ∈ ao_amounts_out response →
    is_Some (usable_amount out).
Proof.
  intros Hnc Hc Hq. pose proof Hc as Hinv. apply get_amounts_out_inv in Hinv.
  destruct Hinv as [(exit & r & _ & [_ _ (f & _ & Hx) _] & ->)|
    (p & pair & prepared & r & run & ended & _ & _ & _ & Hw & He & Ec)].
  { simpl in Hq. rewrite Hq in Hx. by destruct (is_liquidity_like_failure f); [destruct Hx|]. }
  rewrite Ec in Hq. apply fence_complete in Hq as Hfin. rewrite Hfin in Ec, Hq.
  assert (quality_exact (finish_current_state run)) as Hquality.
  { apply finished_quality; [apply He| |apply He]. rewrite (ex_meta _ _ _ _ _ _ _ He).
    by destruct (pw_clean _ _ _ _ _ _ Hw) as [[] _]. }
  unfold quality_exact in Hquality. rewrite Hq in Hquality.
  destruct Hquality as (_ & Hfail & Hres & _ & _). simpl in Hfail, Hres.
  assert (run_pool_results run = []) as Hres'.
  { apply Permutation_nil_r. by rewrite <- Hres, sort_by_key_perm. }
  rewrite (ex_results _ _ _ _ _ _ _ He) in Hres'.
  destruct (ex_tasks _ _ _ _ _ _ _ He) as (running & Hp & [(-> & Hclose & _)|[_ ?]]); [|done].
  rewrite Hfail in Hclose.
  assert (ended ≫= task_failures (pe_expected_len prepared) = []) as Hnone.
  { revert Hclose. generalize (ended ≫= task_failures (pe_expected_len prepared)).
    intros [|f l]; [done|]. unfold closing_failures. by destruct (run_responses run). }
  pose proof (pw_len _ _ _ _ _ _ Hw) as Hlen.
  assert (∀ o, o ∈ ended → ∃ response,
    task_responses (pe_expected_len prepared) (me_block_number (run_meta (qr_run r))) o = [response] ∧
    ∀ out, out ∈ ao_amounts_out response → is_Some (usable_amount out)) as Hall.
  { intros o Ho. destruct (ended_task _ _ _ _ _ _ He Ho) as (x & view & _ & ->).
    apply clean_task; [done|by apply (bind_nil_each _ _ _ Hres')|by apply (bind_nil_each _ _ _ Hnone)]. }
  rewrite Ec. simpl. split.
  - rewrite sort_by_key_perm, (ex_responses _ _ _ _ _ _ _ He), bind_singletons
      by (intros o Ho; destruct (Hall o Ho) as (y & ? & _); by exists y).
    destruct (tasks_chosen prepared (run_metrics (qr_run r))) as (chosen & _ & Hch & Etasks).
    rewrite app_nil_r, Etasks, (Hch Hnc) in Hp. rewrite <- Hp, length_imap.
    rewrite (ex_meta _ _ _ _ _ _ _ He), (pw_count _ _ _ _ _ _ Hw).
    unfold all_candidates, total_candidates. rewrite !length_app, !length_fmap. lia.
  - intros response out Hin Hout.
    rewrite sort_by_key_perm, (ex_responses _ _ _ _ _ _ _ He) in Hin.
    apply list_elem_of_bind in Hin as (o & Hresp & Ho).
    destruct (Hall o Ho) as (y & Ey & Hy). rewrite Ey in Hresp.
    apply list_elem_of_singleton in Hresp as ->. by apply Hy.
Qed.

(** ** The order of completion *)

Definition with_failures (failures : list QuoteFailure) (meta : QuoteMeta) : QuoteMeta :=
  {| me_status := me_status meta; me_result_quality := me_result_quality meta;
     me_partial_kind := me_partial_kind meta; me_block_number := me_block_number meta;
     me_vm_block_number := me_vm_block_number meta;
     me_rfq_update_timestamp := me_rfq_update_timestamp meta;
     me_matching_pools := me_matching_pools meta; me_candidate_pools := me_candidate_pools meta;
     me_total_pools := me_total_pools meta; me_auction_id := me_auction_id meta;
     me_pool_results := me_pool_results meta; me_vm_unavailable := me_vm_unavailable meta;
     me_rfq_unavailable := me_rfq_unavailable meta; me_failures := failures |}.

(** The same answer, but for the order of its failures (and for the metrics). *)
Record same_answer (c1 c2 : QuoteComputation) : Prop := {
  same_responses : qcomp_responses c1 = qcomp_responses c2;
  same_failures : me_failures (qcomp_meta c1) ≡ₚ me_failures (qcomp_meta c2);
  same_meta : with_failures [] (qcomp_meta c1) = with_failures [] (qcomp_meta c2);
}.

Lemma same_answer_refl c : same_answer c c.
Proof. by split. Qed.

Lemma fence_same w fence c1 c2 :
  same_answer c1 c2 → same_answer (apply_fence w fence c1) (apply_fence w fence c2).
Proof.
  intros [Hr Hf Hm]. unfold apply_fence. destruct fence as [fence|]; [|done].
  rewrite Hr. destruct (_ && _); [|done]. unfold discard_stale_native_responses. rewrite Hr.
  case_bool_decide; [done|]. unfold with_failures in Hm. injection Hm. intros.
  assert (me_partial_kind (qcomp_meta c1) = me_partial_kind (qcomp_meta c2)) as Hk by done.
  rewrite Hk. clear Hm.
  case_bool_decide; (split; [done|cbn [qcomp_meta me_failures]; by rewrite Hf|]);
    unfold with_failures; cbn [qcomp_meta me_status me_result_quality me_partial_kind
      me_block_number me_vm_block_number me_rfq_update_timestamp me_matching_pools
      me_candidate_pools me_total_pools me_auction_id me_pool_results me_vm_unavailable
      me_rfq_unavailable]; by f_equal.
Qed.

Lemma finish_same run1 run2 :
  consistent run1 → consistent run2 → run_meta run1 = run_meta run2 → skipped run1 = skipped run2 →
  run_responses run1 ≡ₚ run_responses run2 → NoDup (ao_pool <$> run_responses run1) →
  run_pool_results run1 ≡ₚ run_pool_results run2 → NoDup (po_pool <$> run_pool_results run1) →
  run_failures run1 ≡ₚ run_failures run2 →
  qc_partial (run_classification run1) = qc_partial (run_classification run2) →
  same_answer (finish_current_state run1) (finish_current_state run2).
Proof.
  intros [Hu1 Hl1] [Hu2 Hl2] Hm [= Hvm Hrfq] Hr Hndr Hp Hndp Hf Hpart.
  assert (sort_by_key (λ r, (ao_pool r, ao_pool_address r)) (run_responses run1)
          = sort_by_key (λ r, (ao_pool r, ao_pool_address r)) (run_responses run2)) as Er.
  { apply sort_by_key_det; [|done]. apply (NoDup_fmap_1 fst). by rewrite <- list_fmap_compose. }
  assert (sort_by_key pool_result_key (run_pool_results run1)
          = sort_by_key pool_result_key (run_pool_results run2)) as Ep.
  { apply sort_by_key_det; [|done]. apply (NoDup_fmap_1 (fst ∘ snd)).
    by rewrite <- list_fmap_compose. }
  assert (qc_had_usable_response (run_classification run1)
          = qc_had_usable_response (run_classification run2)) as Eu.
  { apply eq_iff_eq_true. rewrite Hu1, Hu2. split; intros Hne E; apply Hne;
      apply Permutation_nil_r; [by rewrite Hr, E|by rewrite <- Hr, E]. }
  assert (qc_no_result_failures (run_classification run1)
          = qc_no_result_failures (run_classification run2)) as El.
  { rewrite <- Hf in Hl2. destruct (qc_no_result_failures (run_classification run1)),
      (qc_no_result_failures (run_classification run2)); try done; naive_solver. }
  assert (length (run_failures run1) = length (run_failures run2)) as Efl by by rewrite Hf.
  assert (classify_current_exit (finalize_pool_results (finalize_responses run1))
          = classify_current_exit (finalize_pool_results (finalize_responses run2))) as Ex.
  { unfold classify_current_exit, classify_ready_exit. simpl.
    by rewrite Hm, Eu, El, Ep, Efl, Hpart. }
  unfold finish_current_state. rewrite Ex. split; simpl; [done|done|].
  unfold with_failures. simpl. by rewrite Hm, Ep, Hvm, Hrfq.
Qed.

Lemma closing_perm r1 r2 f1 f2 :
  r1 ≡ₚ r2 → f1 ≡ₚ f2 → closing_failures r1 f1 ≡ₚ closing_failures r2 f2.
Proof.
  intros Hr Hf. unfold closing_failures. destruct r1 as [|x1 r1].
  - apply Permutation_nil_l in Hr as <-. destruct f1 as [|y1 f1].
    + by apply Permutation_nil_l in Hf as <-.
    + destruct f2; [by apply Permutation_nil_r in Hf|done].
  - destruct r2; [by apply Permutation_nil_r in Hr|done].
Qed.

(** No pool is in the published states of two backends. *)
Definition backends_disjoint : Prop :=
  ∀ m n id,
    let in_store store k :=
      is_Some (pool_by_id_from_published (ss_published (store (qw_app (world k)))) id) in
    ¬ (in_store app_native_state_store m ∧ in_store app_vm_state_store n) ∧
    ¬ (in_store app_native_state_store m ∧ in_store app_rfq_state_store n) ∧
    ¬ (in_store app_vm_state_store m ∧ in_store app_rfq_state_store n).

Lemma backend_ids store pair cs :
  backend_candidates world store pair cs → NoDup cs.*1 ∧
  ∀ id, id ∈ cs.*1 →
    ∃ n, is_Some (pool_by_id_from_published (ss_published (store (qw_app (world n)))) id).
Proof.
  intros Hc. split; [by destruct Hc as [->|[n [? _]]]; [constructor|]|].
  intros id (c & -> & Hin)%list_elem_of_fmap.
  destruct (backend_source _ _ _ _ Hc Hin) as (q & [n ->] & Hq). exists n. by eexists.
Qed.

Lemma candidate_ids_NoDup p pair prepared r :
  backends_disjoint → native_published world p → prepared_well world request p pair prepared r →
  NoDup ((λ x, x.2.1) <$> all_candidates (pe_candidates prepared)).
Proof.
  intros Hd [n0 ->] [_ _ _ [Hn Hvm Hrfq] _ _ _ _].
  unfold all_candidates. rewrite !fmap_app, <- !list_fmap_compose.
  assert (∀ kind cs, ((λ x : ScheduledPoolKind * (string * PoolEntry), x.2.1) ∘ (kind,.)) <$> cs
                     = cs.*1) as E by (intros kind cs; by apply list_fmap_ext).
  rewrite !E. destruct (backend_ids _ _ _ Hvm) as [Nvm Ivm].
  destruct (backend_ids _ _ _ Hrfq) as [Nrfq Irfq].
  assert (∀ id, id ∈ (cs_native_candidates (pe_candidates prepared)).*1 → is_Some
    (pool_by_id_from_published (ss_published (app_native_state_store (qw_app (world n0)))) id))
    as In.
  { intros id ([id' e] & -> & Hin)%list_elem_of_fmap. eexists. by eapply candidate_pool. }
  rewrite !NoDup_app. split_and!; [apply Hn| |done| |done].
  - intros id Hid [Hv|Hv]%elem_of_app; apply In in Hid.
    + destruct (Ivm id Hv) as [n Hn']. by apply (proj1 (Hd n0 n id)).
    + destruct (Irfq id Hv) as [n Hn']. by apply (proj1 (proj2 (Hd n0 n id))).
  - intros id Hv Hr'. destruct (Ivm id Hv) as [m Hm], (Irfq id Hr') as [n Hn'].
    by apply (proj2 (proj2 (Hd m n id))).
Qed.

(** What a task adds bears the name of its pool, once. *)
Lemma task_ids prepared x view block :
  pe_expected_len prepared = length (pe_amounts_in prepared) →
  (ao_pool <$> task_responses (pe_expected_len prepared) block (task_of prepared x view))
    `sublist_of` [x.2.1] ∧
  (po_pool <$> task_results (pe_expected_len prepared) (task_of prepared x view))
    `sublist_of` [x.2.1].
Proof.
  intros Hlen. destruct x as [kind [id [state component]]].
  assert (pd_id (si_descriptor (prepare_chosen prepared (kind, (id, (state, component))))) = id)
    as Eid.
  { unfold prepare_chosen, prepare_pool_simulation. cbn [fst snd].
    by destruct (simulation_tokens_for_pool (pe_token_in prepared) (pe_token_out prepared) component). }
  cbn [fst snd]. destruct (task_of prepared _ view) as [[result]|f] eqn:E.
  - pose proof E as Hg. unfold task_of in Hg. rewrite Hlen in Hg. apply simulated_good in Hg.
    pose proof (good_pool _ _ _ _ _ _ _ Hg) as Hpool. rewrite Eid in Hpool.
    assert (pq_pool (pad_result (pe_expected_len prepared) result) = id) as Hpad.
    { unfold pad_result. by case_bool_decide. }
    cbn [task_responses task_results]. split.
    + destruct (amounts_out_include_positive_quote _); simpl; [|apply sublist_nil_l].
      by rewrite Hpad.
    + destruct (classify_pool_outcome _ _) as [[outcome reason]|]; simpl; [|apply sublist_nil_l].
      by rewrite Hpad.
  - unfold task_of in E. rewrite Hlen in E. apply simulate_pool_err in E as [Hk Hpool].
    rewrite Eid in Hpool. cbn [task_responses task_results]. split; [apply sublist_nil_l|].
    unfold pool_outcome_from_failure. rewrite Hpool, Hk. done.
Qed.

Lemma bind_ids {A B} (f : A → list B) (name : B → string) (ids : list string) (l : list A) :
  Forall2 (λ o id, (name <$> f o) `sublist_of` [id]) l ids →
  (name <$> (l ≫= f)) `sublist_of` ids.
Proof.
  induction 1 as [|o id l ids Ho _ IH]; [constructor|]. cbn. rewrite fmap_app.
  by apply (sublist_app _ [id]).
Qed.

(** C25: the order in which the tasks of a request end does not change its answer: with no
    pool shared between backends and no cancellation, the responses, the outcomes of pools
    and the whole classification are the same, and so are the failures up to their order. *)
Theorem completion_order_irrelevant schedule1 schedule2 c1 c2 :
  backends_disjoint → RequestCancelled ∉ schedule1 → RequestCancelled ∉ schedule2 →
  answer schedule1 = Some c1 → answer schedule2 = Some c2 → same_answer c1 c2.
Proof.
  intros Hd Hs1 Hs2 Hc1 Hc2. apply get_amounts_out_inv in Hc1, Hc2.
  destruct Hc1 as [(exit1 & r1 & E1 & _ & ->)|
    (p & pair & prepared & r & run1 & ended1 & E1 & Hp & _ & Hw & He1 & ->)],
    Hc2 as [(exit2 & r2 & E2 & _ & ->)|
    (p2 & pair2 & prepared2 & r2 & run2 & ended2 & E2 & Hp2 & _ & Hw2 & He2 & ->)];
    rewrite E2 in E1; [by injection E1 as -> ->; apply same_answer_refl|done|done|].
  injection E1 as -> ->.
  destruct (pw_clean _ _ _ _ _ _ Hw) as [_ Hpin]. destruct (pw_clean _ _ _ _ _ _ Hw2) as [_ Hpin2].
  rewrite Hpin in Hpin2. injection Hpin2 as <-. apply fence_same.
  destruct (ex_tasks _ _ _ _ _ _ _ He1) as (running1 & P1 & [(-> & F1 & C1)|[? _]]); [|done].
  destruct (ex_tasks _ _ _ _ _ _ _ He2) as (running2 & P2 & [(-> & F2 & C2)|[? _]]); [|done].
  rewrite app_nil_r in P1, P2. assert (ended1 ≡ₚ ended2) as P by by rewrite <- P1, P2.
  pose proof (pw_len _ _ _ _ _ _ Hw) as Hlen.
  pose proof (candidate_ids_NoDup _ _ _ _ Hd Hp Hw) as Hnd.
  destruct (tasks_chosen prepared (run_metrics (qr_run r))) as (chosen & Hsub & _ & Et).
  apply (fmap_sublist (λ x, x.2.1)) in Hsub. apply (sublist_NoDup _ _ Hnd) in Hsub.
  assert (∀ block, NoDup (ao_pool <$> (ended1 ≫= task_responses (pe_expected_len prepared) block)) ∧
    NoDup (po_pool <$> (ended1 ≫= task_results (pe_expected_len prepared)))) as Hnames.
  { intros block. rewrite <- P1, Et.
    split; (eapply sublist_NoDup; [apply Hsub|]); apply bind_ids, Forall2_fmap_r, Forall2_lookup;
      intros k; rewrite list_lookup_imap; destruct (chosen !! k) as [x|]; constructor;
      by apply (task_ids prepared x _ block). }
  pose proof (ex_responses _ _ _ _ _ _ _ He1) as R1. pose proof (ex_responses _ _ _ _ _ _ _ He2) as R2.
  pose proof (ex_results _ _ _ _ _ _ _ He1) as Q1. pose proof (ex_results _ _ _ _ _ _ _ He2) as Q2.
  assert (run_responses run1 ≡ₚ run_responses run2) as PR by by rewrite R1, R2, P.
  assert (run_failures run1 ≡ₚ run_failures run2) as PF.
  { rewrite F1, F2. apply closing_perm; [done|by rewrite P]. }
  destruct (ex_skipped _ _ _ _ _ _ _ He1) as (m1 & M1 & S1).
  destruct (ex_skipped _ _ _ _ _ _ _ He2) as (m2 & M2 & S2).
  apply finish_same; [apply He1|apply He2| | |done| | | |done|].
  - by rewrite (ex_meta _ _ _ _ _ _ _ He1), (ex_meta _ _ _ _ _ _ _ He2).
  - congruence.
  - rewrite R1. apply Hnames.
  - by rewrite Q1, Q2, P.
  - rewrite Q1. apply (Hnames 0%N).
  - rewrite C1, C2. apply foldl_pjoin_perm. by rewrite P.
Qed.
End quotes.

(** ** The tokens a pool is asked with *)

Section traded.
Context `{QuoteApi} `{HashOrder} `{!HashOrderLaws}.

Lemma has_token_iff component a :
  has_token component a = true ↔ a ∈ addresses (component_tokens component).
Proof.
  unfold has_token, addresses. rewrite existsb_exists, list_elem_of_fmap. split.
  - intros (t & Ht & <-%bool_decide_eq_true). exists t. split; [done|by apply list_elem_of_In].
  - intros (t & -> & Ht). exists t. split; [by apply list_elem_of_In|by apply bool_decide_eq_true].
Qed.

(** Every pool found for a pair trades both tokens, up to the native token's wrapped form. *)
Lemma matching_trades catalog s token_in token_out id e :
  reachable (conforming catalog) s →
  (id, e) ∈ matching_pools_from_published (ss_published s) token_in token_out →
  ¬ ¬ (∃ a b, alias (ss_published s) token_in a ∧ alias (ss_published s) token_out b ∧
         a ∈ addresses (component_tokens e.2) ∧ b ∈ addresses (component_tokens e.2)).
Proof.
  intros Hr Hin Hno. destruct (matching_pools_exact catalog s token_in token_out Hr) as [Hex1 Hex2].
  set (p := ss_published s) in *.
  assert (∀ a b, alias p token_in a → alias p token_out b → trades p a id → trades p b id →
            pool_by_id_from_published p id = Some e → False) as Hall.
  { intros a b Ha Hb (e1 & E1 & T1) (e2 & E2 & T2) E. rewrite E in E1, E2. simplify_eq.
    apply Hno. by exists a, b. }
  destruct Hex2 as [_ Hf].
  - intros Hex. destruct (Hex1 Hex) as [_ Hf]. apply Hf in Hin as (E & T1 & T2).
    by apply (Hall token_in token_out); [left|left|..].
  - apply Hf in Hin as (E & (a & Ha & T1) & (b & Hb & T2)). by apply (Hall a b).
Qed.

(** The store of a chain: its native token is the zero address, and its wrapped token is
    known unless it is the native one. *)
Definition chain_agrees (p : PublishedStateStore) (chain : Chain) : Prop :=
  let native := token_address (chain_native_token chain) in
  let wrapped := token_address (chain_wrapped_native_token chain) in
  native = native_token_address ∧
  ps_wrapped_native_token p = if bool_decide (wrapped = native) then None else Some wrapped.

Lemma remap_cases token component :
  let native := chain_native_token (token_chain token) in
  let wrapped := chain_wrapped_native_token (token_chain token) in
  remap_request_token_for_pool token component = token ∨
  (has_token component (token_address token) = false ∧
   token_address native ≠ token_address wrapped ∧
   (token_address token = token_address wrapped ∧
    remap_request_token_for_pool token component = native ∨
    token_address token = token_address native ∧
    remap_request_token_for_pool token component = wrapped)).
Proof.
  cbn zeta. unfold remap_request_token_for_pool. case_bool_decide as Hsame; [by left|].
  destruct (bool_decide (_ = token_address (chain_wrapped_native_token _)) && _ && _) eqn:E1.
  { right. apply andb_true_iff in E1 as [[E1 _]%andb_true_iff Eh].
    apply bool_decide_eq_true in E1. apply negb_true_iff in Eh. rewrite E1. auto. }
  destruct (bool_decide (_ = token_address (chain_native_token _)) && _ && _) eqn:E2; [|by left].
  right. apply andb_true_iff in E2 as [[E2 _]%andb_true_iff Eh].
  apply bool_decide_eq_true in E2. apply negb_true_iff in Eh. rewrite E2. auto.
Qed.

Lemma remap_traded p token component a :
  chain_agrees p (token_chain token) → alias p (token_address token) a →
  a ∈ addresses (component_tokens component) →
  token_address (remap_request_token_for_pool token component)
    ∈ addresses (component_tokens component).
Proof.
  intros [Hnat Hwrap] Halias Ha. cbn zeta in Hnat, Hwrap.
  apply has_token_iff in Ha. apply has_token_iff.
  unfold remap_request_token_for_pool.
  destruct (decide (token_address (chain_native_token (token_chain token))
                    = token_address (chain_wrapped_native_token (token_chain token)))) as [Hsame|Hsame].
  { rewrite bool_decide_true in Hwrap by done. rewrite bool_decide_true by done.
    destruct Halias as [<-|[[E _]|[_ E]]]; [done|by rewrite Hwrap in E..]. }
  rewrite bool_decide_false in Hwrap by congruence. rewrite bool_decide_false by done.
  set (native := token_address (chain_native_token (token_chain token))) in *.
  set (wrapped := token_address (chain_wrapped_native_token (token_chain token))) in *.
  case_bool_decide as Ew; cbn [andb].
  - rewrite (bool_decide_false (token_address token = native)) by congruence. cbn [andb].
    destruct (has_token component native) eqn:En, (has_token component wrapped) eqn:Ewr; simpl;
      rewrite ?Ew; try done.
    exfalso. destruct Halias as [<-|[[_ ->]|[E _]]]; congruence.
  - case_bool_decide as En; cbn [andb].
    + destruct (has_token component wrapped) eqn:Ewr, (has_token component native) eqn:Enat; simpl;
        rewrite ?En; try done.
      exfalso. destruct Halias as [<-|[[E _]|[_ E]]]; congruence.
    + destruct Halias as [<-|[[E _]|[E _]]]; [done|congruence|congruence].
Qed.

(** The token a pool is asked with for a token of the request: that token when the pool
    trades it, and otherwise the wrapped token for the native one and the native one for the
    wrapped. *)
Definition stands_for (component : ProtocolComponent) (token sim : Token) : Prop :=
  let native := chain_native_token (token_chain token) in
  let wrapped := chain_wrapped_native_token (token_chain token) in
  let traded a := a ∈ addresses (component_tokens component) in
  traded (token_address sim) ∧
  ((traded (token_address token) ∧ sim = token) ∨
   (¬ traded (token_address token) ∧
    (token_address token = token_address native ∧ sim = wrapped ∨
     token_address token = token_address wrapped ∧ sim = native))).

Lemma remap_stands token component :
  token_address (remap_request_token_for_pool token component)
    ∈ addresses (component_tokens component) →
  stands_for component token (remap_request_token_for_pool token component).
Proof.
  intros Ht. split; [done|]. cbv beta. rewrite <- (has_token_iff component (token_address token)).
  destruct (remap_cases token component) as [E|(Hno & _ & Hor)].
  - left. split; [|done]. by rewrite has_token_iff, <- E at 1.
  - right. rewrite Hno. split; [done|]. destruct Hor as [[??]|[??]]; [by right|by left].
Qed.

(** C27: in a store whose pools keep their components ([conforming]), for two different
    tokens of the store's chain that are not the native token and its wrapped form, every
    pool found for the pair is simulated from the token that stands for the first to the
    token that stands for the second, and those differ: each is the token of the request
    when the pool trades it, and otherwise the wrapped form of the native token or the
    native token of the wrapped form, which the pool does trade. *)
Theorem simulated_tokens_are_traded catalog s token_in token_out id state component :
  reachable (conforming catalog) s →
  chain_agrees (ss_published s) (token_chain token_in) →
  token_chain token_out = token_chain token_in →
  token_address token_in ≠ token_address token_out →
  is_direct_native_wrapped_pair (token_address token_in) (token_address token_out)
    (ps_wrapped_native_token (ss_published s)) = false →
  (id, (state, component)) ∈
    matching_pools_from_published (ss_published s) (token_address token_in) (token_address token_out) →
  let '(sim_token_in, sim_token_out) := simulation_tokens_for_pool token_in token_out component in
  stands_for component token_in sim_token_in ∧ stands_for component token_out sim_token_out ∧
  token_address sim_token_in ≠ token_address sim_token_out.
Proof.
  intros Hr Hchain Heq Hne Hdirect Hin. unfold simulation_tokens_for_pool.
  set (a := remap_request_token_for_pool token_in component).
  set (b := remap_request_token_for_pool token_out component).
  assert (token_address a ∈ addresses (component_tokens component) ∧
          token_address b ∈ addresses (component_tokens component)) as [Sa Sb].
  { apply dec_stable. intros Hno.
    apply (matching_trades _ _ _ _ _ _ Hr Hin). intros (x & y & Hx & Hy & Tx & Ty). apply Hno.
    split; [by eapply remap_traded|]. eapply remap_traded; [rewrite Heq; exact Hchain|done|done]. }
  split; [by apply remap_stands|]. split; [by apply remap_stands|].
  destruct Hchain as [Hnat Hwrap]. cbn zeta in Hnat, Hwrap. rewrite Hwrap in Hdirect.
  pose proof (remap_cases token_in component) as Ca. pose proof (remap_cases token_out component) as Cb.
  rewrite Heq in Cb. fold a in Ca. fold b in Cb. cbn zeta in Ca, Cb.
  set (native := chain_native_token (token_chain token_in)) in *.
  set (wrapped := chain_wrapped_native_token (token_chain token_in)) in *.
  assert (token_address native ≠ token_address wrapped →
    ¬ (token_address token_in = token_address native ∧
       token_address token_out = token_address wrapped) ∧
    ¬ (token_address token_in = token_address wrapped ∧
       token_address token_out = token_address native)) as Hd.
  { intros Hnw. rewrite bool_decide_false in Hdirect by congruence.
    unfold is_direct_native_wrapped_pair in Hdirect. rewrite <- Hnat in Hdirect.
    apply orb_false_iff in Hdirect as [D1 D2]. split; intros [Ea Eb].
    - by rewrite Ea, Eb, !bool_decide_true in D1.
    - by rewrite Ea, Eb, !bool_decide_true in D2. }
  clear Sa Sb. clearbody a b.
  destruct Ca as [->|(_ & Hnw & [[Ea ->]|[Ea ->]])], Cb as [->|(_ & Hnw' & [[Eb ->]|[Eb ->]])];
    naive_solver congruence.
Qed.
End traded.
