(* ===== verification/QuoteDemo.v ===== *)
(** * A quote, answered

    Concrete pools, whose rate falls as the amount grows, on which the theorems of quotes
    apply; and three requests the code answers against its intent or its documentation. *)

From S2P Require Import Prelude Ordered Text Protocol TychoFeed Store StoreLife StorePools.
From S2P Require Import StoreQuery Health Readiness Requests.
From S2P Require Import RouteTypes RouteResimulate RouteDemo QuoteTypes QuoteSlippage QuotePools.
From S2P Require Import QuoteRun QuoteRequest QuoteLadder QuoteFacts QuotePrepare QuoteAnswers.
From S2P Require Import QuoteProps.

#[local] Existing Instances demo_tycho demo_tokens demo_order demo_order_laws.

(** ** Instances *)

(** Numbers of any size as text: those of 64 bits in decimal, others in binary after a
    ["b"], least significant digit first and without the leading one. *)
Fixpoint positive_text (p : positive) : string :=
  match p with
  | xH => ""
  | xO p => String "0" (positive_text p)
  | xI p => String "1" (positive_text p)
  end.

Fixpoint positive_value (s : string) : positive :=
  match s with
  | EmptyString => xH
  | String c s => if bool_decide (c = "1"%char) then xI (positive_value s) else xO (positive_value s)
  end.

Definition demo_number_text (n : N) : string :=
  if (n <=? u64_max)%N then u64_to_string n
  else match n with N0 => "0" | Npos p => String "b" (positive_text p) end.

Definition demo_number_value (s : string) : option N :=
  match s with
  | String c r =>
      if bool_decide (c = "b"%char) then Some (Npos (positive_value r)) else parse_u64 s
  | EmptyString => None
  end.

Lemma positive_value_text p : positive_value (positive_text p) = p.
Proof. induction p as [p IH|p IH|]; simpl; by rewrite ?IH. Qed.

Lemma demo_number_value_text n : demo_number_value (demo_number_text n) = Some n.
Proof.
  unfold demo_number_text. destruct (N.leb_spec n u64_max) as [Hle|Hgt].
  - pose proof (parse_u64_to_string n Hle) as Hp.
    destruct (u64_to_string_head n) as (d & s & Hd & E). rewrite E in *.
    unfold demo_number_value. case_bool_decide as Hc; [|done]. exfalso.
    apply (f_equal byte_of) in Hc. rewrite digit_byte in Hc by done.
    assert (48 + d = 98)%N by (rewrite Hc; reflexivity). lia.
  - destruct n as [|p]; [unfold u64_max in Hgt; lia|]. unfold demo_number_value.
    rewrite bool_decide_true by done. by rewrite positive_value_text.
Qed.

Definition demo_quote_api : @RouteApi demo_tycho demo_tokens := {|
  Chain := N;
  Chain_id := id;
  chain_native_token := λ _, native_token_address;
  chain_wrapped_native_token := λ _, "W";
  component_id := fst;
  Bytes_from_str := Ok;
  Bytes_to_string := id;
  Bytes_lower_hex := id;
  BigUint_from_str := demo_number_value;
  BigUint_to_string := demo_number_text;
  to_bytes_be := demo_to_bytes;
  U256_from_be_slice := bytes_value;
|}.

#[local] Existing Instance demo_quote_api.

(** A pool of depth [1000000] and of this price. *)
Definition demo_curve (state amount : N) (token_in token_out : string) :
    result string (N * N) :=
  if (state =? 0)%N then Err "insufficient reserve"
  else Ok (state * 1000000 * amount / (1000000 + amount), state)%N.

Definition demo_quote_sim : @RouteSim demo_tycho demo_tokens demo_quote_api := {|
  get_amount_out := demo_curve;
  BebopClient := unit;
  HashflowClient := unit;
  LiquoriceClient := unit;
  BebopClient_new := λ _ _ _ _ _ _ _, Ok tt;
  HashflowClient_new := λ _ _ _ _ _ _ _ _, Ok tt;
  LiquoriceClient_new := λ _ _ _ _ _ _ _ _ _, Ok tt;
  with_bebop_client := λ _, None;
  with_hashflow_client := λ _, None;
  with_liquorice_client := λ _, None;
|}.

#[local] Existing Instance demo_quote_sim.

Definition demo_quotes : @QuoteApi demo_tycho demo_tokens demo_quote_api demo_quote_sim := {|
  token_chain := λ _, 1%N;
  token_symbol := id;
  static_attributes := λ _, ∅;
  amount_out_gas := λ _ _ _ _, 21000%N;
  get_limits := λ state _ _, Ok (1000000, state * 1000000)%N;
  BigUint_parse_error := λ s, "invalid digit in " +:+ s;
  str_to_lowercase := id;
|}.

#[local] Existing Instance demo_quotes.

Definition demo_quotes_laws : @QuoteApiLaws demo_tycho demo_tokens demo_quote_api demo_quote_sim
  demo_quotes.
Proof. split; [apply demo_number_value_text|reflexivity]. Defined.

#[local] Existing Instance demo_quotes_laws.

(** ** A request *)

Definition demo_quote_request : AmountOutRequest :=
  {| ar_request_id := "request"; ar_auction_id := None; ar_token_in := "0xA";
     ar_token_out := "B"; ar_amounts := ["1000"; "3000"; "5000"] |}.

Definition demo_quote_server : QuoteServer :=
  {| qv_slippage := SlippageConfig_default; qv_erc4626_deposits_enabled := false;
     qv_erc4626_pair_policies := []; qv_wrapped_native_token := Some "W";
     qv_request_timeout := from_secs 3 |}.

Definition demo_quote_world (n : nat) : QuoteWorld :=
  {| qw_now := 200; qw_app := demo_route_app; qw_tokens := demo_store;
     qw_fetch_token := λ address, Ok (Some address) |}.

Definition demo_view : PoolView :=
  {| pv_cancelled_before := false; pv_cancelled_amount := λ _, false;
     pv_cancelled_stress := λ _, false; pv_worker_failure := None |}.

Definition demo_cancel : CancelView :=
  {| cv_before := false; cv_scheduling := λ _ _, false; cv_pool := λ _, demo_view |}.

Definition demo_app_at (now : Instant) : AppState := demo_route_app.
Definition demo_overshoot (polls : nat) : Duration := 0%N.

Abbreviation demo_answer :=
  (get_amounts_out demo_quote_server demo_quote_world demo_app_at demo_overshoot
     demo_quote_request demo_cancel).

Definition empty_computation : QuoteComputation :=
  {| qcomp_responses := [];
     qcomp_meta := simulate_timeout_meta 0 None None None None "";
     qcomp_metrics := QuoteMetrics_default |}.

Lemma default_of {A} (dflt : A) (o : option A) :
  match o with Some _ => true | None => false end = true → o = Some (default dflt o).
Proof. by destruct o. Qed.

(** The two pools end in either order. *)
Definition first_schedule : list SelectEvent := [TaskEnded 0; TaskEnded 1].
Definition second_schedule : list SelectEvent := [TaskEnded 7; TaskEnded 1; TaskEnded 0].

Definition demo_quote : QuoteComputation :=
  default empty_computation (demo_answer first_schedule).
Definition demo_quote' : QuoteComputation :=
  default empty_computation (demo_answer second_schedule).

Lemma demo_answered : demo_answer first_schedule = Some demo_quote.
Proof. apply default_of. vm_compute. reflexivity. Qed.

Lemma demo_answered' : demo_answer second_schedule = Some demo_quote'.
Proof. apply default_of. vm_compute. reflexivity. Qed.

Example demo_quote_responses :
  map (λ r, (ao_pool r, ao_amounts_out r, ao_slippage r, ao_limit_max_in r))
    (qcomp_responses demo_quote)
  = [("p1", ["10989"; "32901"; "54726"], [6; 10; 10]%N, Some "1000000");
     ("p3", ["11988"; "35892"; "59701"], [6; 10; 10]%N, Some "1000000")].
Proof. vm_compute. reflexivity. Qed.

Definition demo_response : AmountOutResponse :=
  default {| ao_pool := ""; ao_pool_name := ""; ao_pool_address := ""; ao_amounts_out := [];
             ao_slippage := []; ao_limit_max_in := None; ao_gas_used := [];
             ao_block_number := 0 |} (head (qcomp_responses demo_quote)).

Lemma demo_response_in : demo_response ∈ qcomp_responses demo_quote.
Proof. vm_compute. constructor. Qed.

(** ** Witnesses *)

Lemma answer_quality_exact_witness :
  me_result_quality (qcomp_meta demo_quote) = Complete ∧ quality_exact demo_quote.
Proof.
  split; [vm_compute; reflexivity|].
  exact (answer_quality_exact demo_quote_server demo_quote_world demo_app_at demo_overshoot
           demo_quote_request demo_cancel first_schedule demo_quote demo_answered).
Defined.

Lemma quotes_are_pool_answers_witness :
  ao_pool demo_response = "p1" ∧
  ∃ amounts, parse_amount_list (ar_amounts demo_quote_request) = Ok amounts ∧
    length (ao_amounts_out demo_response) = length amounts.
Proof.
  split; [vm_compute; reflexivity|].
  destruct (quotes_are_pool_answers demo_quote_server demo_quote_world demo_app_at demo_overshoot
              demo_quote_request demo_cancel first_schedule demo_quote demo_response demo_answered
              demo_response_in)
    as (p & q & amounts & state & component & token_in & token_out & _ & _ & _ & _ & _ & Ha & Hl & _).
  exists amounts. exact (conj Ha Hl).
Defined.

Lemma quoted_slippage_bounded_witness :
  load_slippage_config (λ _, None) = Ok (qv_slippage demo_quote_server) ∧
  length (ao_slippage demo_response) = length (ao_amounts_out demo_response).
Proof.
  split; [reflexivity|].
  refine (proj1 (quoted_slippage_bounded demo_quote_server demo_quote_world demo_app_at
           demo_overshoot demo_quote_request demo_cancel (λ _, None) first_schedule demo_quote
           demo_response _ _ demo_answered demo_response_in)); reflexivity.
Defined.

Lemma native_quotes_current_witness :
  (∃ q, (backend_published demo_quote_world app_vm_state_store q ∨
         backend_published demo_quote_world app_rfq_state_store q) ∧
     is_Some (pool_by_id_from_published q (ao_pool demo_response))) ∨
  (∃ p, native_published demo_quote_world p ∧
     is_Some (pool_by_id_from_published p (ao_pool demo_response)) ∧
     native_request_is_current 200 demo_route_app (ps_request_generation p) = true).
Proof.
  exact (native_quotes_current demo_quote_server demo_quote_world demo_app_at demo_overshoot
           demo_quote_request demo_cancel first_schedule demo_quote demo_response demo_answered
           demo_response_in).
Defined.

Lemma complete_quote_covers_pools_witness :
  me_candidate_pools (qcomp_meta demo_quote) = 2%nat ∧ length (qcomp_responses demo_quote) = 2%nat.
Proof.
  split; [vm_compute; reflexivity|].
  refine (eq_trans (proj1 (complete_quote_covers_pools demo_quote_server demo_quote_world
            demo_app_at demo_overshoot demo_quote_request demo_cancel first_schedule demo_quote
            _ demo_answered _)) _); vm_compute; reflexivity.
Defined.

(** The answer waits for both pools, and for nothing else. *)
Lemma every_request_is_answered_witness :
  request_tasks demo_quote_server demo_quote_world demo_app_at demo_overshoot
    demo_quote_request demo_cancel = 2%nat ∧
  is_Some (demo_answer second_schedule) ∧ ¬ is_Some (demo_answer [TaskEnded 7; TaskEnded 1]).
Proof.
  assert (request_tasks demo_quote_server demo_quote_world demo_app_at demo_overshoot
            demo_quote_request demo_cancel = 2%nat) as Htasks by (vm_compute; reflexivity).
  pose proof (every_request_is_answered demo_quote_server demo_quote_world demo_app_at
                demo_overshoot demo_quote_request demo_cancel) as Hends.
  rewrite Htasks in Hends. split; [exact Htasks|split].
  - apply Hends. right. intros [|[|k]] Hk; [do 2 apply list_elem_of_further; apply list_elem_of_here
      |apply list_elem_of_further; apply list_elem_of_here|lia].
  - intros [Hc|Hall]%Hends; [revert Hc|specialize (Hall 0%nat ltac:(lia)); revert Hall];
      (repeat (apply not_elem_of_cons; split; [discriminate|]); apply not_elem_of_nil).
Defined.

Lemma demo_backends_disjoint : backends_disjoint demo_quote_world.
Proof.
  assert (∀ id, pool_by_id_from_published (ss_published demo_first) id = None) as Hnone.
  { intros id. vm_compute. reflexivity. }
  intros m n id. cbn [demo_quote_world qw_app demo_route_app app_native_state_store
    app_vm_state_store app_rfq_state_store]. rewrite Hnone.
  split_and!; intros [? [? ?]]; congruence.
Qed.

Lemma completion_order_irrelevant_witness : same_answer demo_quote demo_quote'.
Proof.
  refine (completion_order_irrelevant demo_quote_server demo_quote_world demo_app_at
            demo_overshoot demo_quote_request demo_cancel first_schedule second_schedule demo_quote
            demo_quote' demo_backends_disjoint _ _ demo_answered demo_answered');
    (repeat (apply not_elem_of_cons; split; [discriminate|]); apply not_elem_of_nil).
Defined.

(** A pool that trades both tokens is asked with them; the native token stands for ["W"] in
    a pool that has only the latter. *)
Lemma simulated_tokens_are_traded_witness :
  (stands_for ("uniswap_v2", "AB") "A" (remap_request_token_for_pool "A" ("uniswap_v2", "AB")) ∧
   remap_request_token_for_pool "A" ("uniswap_v2", "AB") = "A") ∧
  remap_request_token_for_pool native_token_address ("uniswap_v2", "WB") = "W".
Proof.
  split; [split|]; [|vm_compute; reflexivity|vm_compute; reflexivity].
  refine (proj1 (simulated_tokens_are_traded demo_catalog demo_second "A" "B" "p1" 11%N
            ("uniswap_v2", "AB") _ _ _ _ _ _)).
  - apply demo_second_reachable, demo_conforming.
  - split; vm_compute; reflexivity.
  - reflexivity.
  - discriminate.
  - vm_compute. reflexivity.
  - vm_compute. constructor.
Defined.

(** ** Against the intent *)

(** A configuration the server starts with, whose minimum a quote falls below: the sum of
    two figures of slippage leaves 32 bits. *)
Definition wide_env (key : string) : option string :=
  str_match key
    [("MIN_DYNAMIC_SLIPPAGE_BPS", "4000000000"); ("MAX_DYNAMIC_SLIPPAGE_BPS", "4000000000");
     ("CUMULATIVE_DEGRADATION_COEFFICIENT_BPS", "4000000000")].

Definition wide_config : SlippageConfig :=
  {| min_dynamic_slippage_bps := 4000000000; max_dynamic_slippage_bps := 4000000000;
     utilization_coefficient_bps := 60; sensitivity_coefficient_bps := 2500;
     soft_ladder_utilization_cap_bps := 3500;
     cumulative_degradation_coefficient_bps := 4000000000;
     saturation_ramp_start_slippage_bps := 45 |}.

Example slippage_sum_wraps :
  load_slippage_config wide_env = Ok wide_config ∧
  ladder_slippage_bps (11%N : ProtocolSim) "A" "B" [100; 200]%N wide_config demo_view
    ["1000"; "1800"] None 1 "1800" = 105032704%N.
Proof. split; vm_compute; reflexivity. Qed.

(** A request cancelled between its first check and the scheduling of its first pool is
    answered as if the pools had no liquidity. *)
Definition late_cancel : CancelView :=
  {| cv_before := false; cv_scheduling := λ _ _, true; cv_pool := λ _, demo_view |}.

Example cancelled_scheduling_reports_no_liquidity :
  match get_amounts_out demo_quote_server demo_quote_world demo_app_at demo_overshoot
          demo_quote_request late_cancel [RequestCancelled] with
  | Some c =>
      me_status (qcomp_meta c) = StatusNoLiquidity ∧ me_candidate_pools (qcomp_meta c) = 2%nat ∧
      map qf_message (me_failures (qcomp_meta c)) = ["All pools returned zero amounts"]
  | None => False
  end.
Proof. vm_compute. split_and!; reflexivity. Qed.

(** VM pools are enabled, and the VM backend has never been ready: they are not asked, and
    the answer is complete without them, where the documentation announces a partial one. *)
Definition vm_pools_app : AppState :=
  {| app_chain_id := 1; app_native_subscription := app_native_subscription demo_route_app;
     app_vm_subscription := subscription_default; app_rfq_subscription := subscription_default;
     app_native_state_store := app_native_state_store demo_route_app;
     app_vm_state_store := demo_first; app_rfq_state_store := demo_first;
     app_native_stream_health := app_native_stream_health demo_route_app;
     app_vm_stream_health := health_default; app_rfq_stream_health := health_default;
     app_vm_stream := app_vm_stream demo_route_app;
     app_configured_vm := true; app_configured_rfq := false;
     app_enable_vm_pools := true; app_enable_rfq_pools := false;
     app_native_progress_lease := from_secs 30; app_optional_backend_stale := from_secs 30 |}.

Definition vm_pools_world (n : nat) : QuoteWorld :=
  {| qw_now := 200; qw_app := vm_pools_app; qw_tokens := demo_store;
     qw_fetch_token := λ address, Ok (Some address) |}.

Example skipped_pools_are_complete :
  match get_amounts_out demo_quote_server vm_pools_world (λ _, vm_pools_app) demo_overshoot
          demo_quote_request demo_cancel first_schedule with
  | Some c =>
      me_vm_unavailable (qcomp_meta c) = true ∧ me_status (qcomp_meta c) = StatusReady ∧
      me_result_quality (qcomp_meta c) = Complete ∧ length (qcomp_responses c) = 2%nat
  | None => False
  end.
Proof. vm_compute. split_and!; reflexivity. Qed.
