(* ===== verification/TokenFetch.v ===== *)
(** * Looking a token up

    [TokenStore::ensure] and [fetch_token] of [runtime/src/models/tokens.rs], with the
    broadcaster's answer to a lookup: [BroadcasterTokenDto] of
    [simulator-core/src/broadcaster.rs], [lookup_tokens] of [runtime/src/broadcaster/app.rs]
    and the handler [token_lookup] of [rpc/src/handlers/broadcaster.rs].

    Lookups are tasks that run concurrently: one fetches an unknown address, others wait for
    its result on a channel.  A task is at one of the points where it waits, and a step takes
    it to its next one; an event runs a task, starts one, drops one (its caller has been
    cancelled) or caches tokens found elsewhere.  What the network answers is part of the
    event. *)

From S2P Require Import Prelude Ordered Text Protocol Wire Store Replay RouteTypes QuoteTypes.

(** The fields of a token, and its constructor. *)
Class TokenFields `{QuoteApi} := {
  token_decimals : Token → u32;
  token_tax : Token → u64;
  token_gas : Token → list (option u64);
  token_quality : Token → u32;
  Token_new : Bytes → string → u32 → u64 → list (option u64) → Chain → u32 → Token;
}.

(** The token of a Tycho reply, and the conversion of one into a [Token]. *)
Class TychoTokenReply `{TokenFields} := {
  ResponseToken : Type;
  rt_address : ResponseToken → Bytes;
  Token_try_from : ResponseToken → option Token;
}.

(** Conversions keep addresses, and a token is its fields. *)
Class TokenLaws `{TychoTokenReply} := {
  try_from_address : ∀ r t, Token_try_from r = Some t → token_address t = rt_address r;
  Token_new_address : ∀ a symbol decimals tax gas chain quality,
    token_address (Token_new a symbol decimals tax gas chain quality) = a;
  Token_new_fields : ∀ t,
    Token_new (token_address t) (token_symbol t) (token_decimals t) (token_tax t)
      (token_gas t) (token_chain t) (token_quality t) = t;
}.

(** ** The lookup contract *)

Record BroadcasterTokenDto := {
  td_address : Bytes;
  td_symbol : string;
  td_decimals : u32;
  td_tax : u64;
  td_gas : list (option u64);
  td_chain_id : u64;
  td_quality : u32;
}.

Record BroadcasterTokenLookupRequest := {
  tlq_chain_id : u64;
  tlq_addresses : list Bytes;
}.

Record BroadcasterTokenLookupResponse := {
  tlr_tokens : list BroadcasterTokenDto;
  tlr_missing : list Bytes;
}.

Record BroadcasterTokenSnapshotResponse := {
  tsr_chain_id : u64;
  tsr_tokens : list BroadcasterTokenDto;
}.

Definition TokenStoreError_fmt (error : TokenStoreError) : string :=
  match error with
  | FetchTimeout duration =>
      "token fetch timed out after " +:+ u64_to_string (as_millis duration) +:+ " ms"
  | RequestFailed message => "token fetch failed: " +:+ message
  end.

Abbreviation FetchResult T := (result TokenStoreError (option T)).

Section dto.
Context `{TokenFields}.

Definition into_token (chain : Chain) (dto : BroadcasterTokenDto) :
    result BroadcasterContractError Token :=
  if negb (td_chain_id dto =? Chain_id chain)%N then
    Err (TokenChainMismatch (Chain_id chain) (td_chain_id dto))
  else
    Ok (Token_new (td_address dto) (td_symbol dto) (td_decimals dto) (td_tax dto) (td_gas dto)
          chain (td_quality dto)).

Definition dto_from_token (token : Token) : BroadcasterTokenDto :=
  {| td_address := token_address token; td_symbol := token_symbol token;
     td_decimals := token_decimals token; td_tax := token_tax token;
     td_gas := token_gas token; td_chain_id := Chain_id (token_chain token);
     td_quality := token_quality token |}.

(** ** The broadcaster's side *)

(** [ensure] is what the n-th lookup of the request returns. *)
Fixpoint lookup_tokens (ensure : nat → Bytes → FetchResult Token) (n : nat)
    (addresses : list Bytes) : result TokenStoreError BroadcasterTokenLookupResponse :=
  match addresses with
  | [] => Ok {| tlr_tokens := []; tlr_missing := [] |}
  | address :: addresses =>
      found ← ensure n address;
      rest ← lookup_tokens ensure (S n) addresses;
      Ok (match found with
          | Some token =>
              {| tlr_tokens := dto_from_token token :: tlr_tokens rest;
                 tlr_missing := tlr_missing rest |}
          | None =>
              {| tlr_tokens := tlr_tokens rest; tlr_missing := address :: tlr_missing rest |}
          end)
  end.

(** The map's values, in any order. *)
Definition token_snapshot (chain_id : u64) (values : list Token) :
    BroadcasterTokenSnapshotResponse :=
  {| tsr_chain_id := chain_id; tsr_tokens := dto_from_token <$> values |}.

Inductive LookupReply :=
| ReplyBadRequest (error : string)
| ReplyBadGateway (error : string)
| ReplyOk (response : BroadcasterTokenLookupResponse).

(** [payload] is the request as decoded, or why it could not be. *)
Definition token_lookup (chain_id : u64) (ensure : nat → Bytes → FetchResult Token)
    (payload : result string BroadcasterTokenLookupRequest) : LookupReply :=
  match payload with
  | Err error => ReplyBadRequest ("invalid token lookup request: " +:+ error)
  | Ok request =>
      if negb (tlq_chain_id request =? chain_id)%N then
        ReplyBadRequest
          ("token lookup chain_id " +:+ u64_to_string (tlq_chain_id request)
             +:+ " does not match broadcaster chain_id " +:+ u64_to_string chain_id)
      else
        match List.find (λ address, negb (bool_decide (String.length address = 20%nat)))
                (tlq_addresses request) with
        | Some address =>
            ReplyBadRequest
              ("token lookup address " +:+ Bytes_to_string address
                 +:+ " is not a 20-byte EVM address")
        | None =>
            match lookup_tokens ensure 0 (tlq_addresses request) with
            | Ok response => ReplyOk response
            | Err error => ReplyBadGateway (TokenStoreError_fmt error)
            end
        end
  end.
End dto.

(** ** Requests and replies *)

Inductive TokenFetchSource :=
| SourceTycho (tycho_url api_key : string)
| SourceBroadcaster (lookup_url : string)
| SourceLocalOnly.

(** How [reqwest] ends: no reply in time or at all, or a status and the decoded body. *)
Inductive HttpReply (B : Type) :=
| SendFailed (is_timeout : bool) (err : string)
| Answered (is_success : bool) (status : string) (body : result string B).
Arguments SendFailed {B}.
Arguments Answered {B}.

Section fetch.
Context `{TychoTokenReply}.

(** The fields of [TokenStore] that never change. *)
Record TokenFetcher := {
  tf_fetch_source : TokenFetchSource;
  tf_chain : Chain;
  tf_fetch_timeout : Duration;
}.

Inductive RequestBody :=
| TokensRequestBody (token_addresses : list Bytes) (chain : Chain)
| LookupRequestBody (request : BroadcasterTokenLookupRequest).

Record HttpRequest := {
  hr_url : string;
  hr_authorization : option string;
  hr_body : RequestBody;
  hr_timeout : Duration;
}.

Context (self : TokenFetcher).

Definition tycho_rpc_base_url (tycho_url : string) : string :=
  if String.prefix "http://" tycho_url || String.prefix "https://" tycho_url
  then trim_end_matches slash tycho_url
  else "https://" +:+ trim_end_matches slash tycho_url.

(** [None]: a store that looks nothing up. *)
Definition fetch_request (address : Bytes) : option HttpRequest :=
  match tf_fetch_source self with
  | SourceTycho tycho_url api_key =>
      Some {| hr_url := tycho_rpc_base_url tycho_url +:+ "/v1/tokens";
              hr_authorization := Some api_key;
              hr_body := TokensRequestBody [address] (tf_chain self);
              hr_timeout := tf_fetch_timeout self |}
  | SourceBroadcaster lookup_url =>
      Some {| hr_url := lookup_url; hr_authorization := None;
              hr_body :=
                LookupRequestBody
                  {| tlq_chain_id := Chain_id (tf_chain self); tlq_addresses := [address] |};
              hr_timeout := tf_fetch_timeout self |}
  | SourceLocalOnly => None
  end.

Definition map_fetch_error (is_timeout : bool) (err : string) : TokenStoreError :=
  if is_timeout then FetchTimeout (tf_fetch_timeout self) else RequestFailed err.

Definition parse_tycho_token_response (address : Bytes) (reply : HttpReply (list ResponseToken)) :
    FetchResult Token :=
  match reply with
  | SendFailed is_timeout err => Err (map_fetch_error is_timeout err)
  | Answered false status _ =>
      Err (RequestFailed ("Tycho RPC returned status " +:+ status +:+ " when fetching token "
                            +:+ Bytes_to_string address))
  | Answered true _ (Err err) => Err (RequestFailed ("Failed to parse token response: " +:+ err))
  | Answered true _ (Ok tokens) =>
      Ok (List.find (λ token, bool_decide (rt_address token = address)) tokens ≫= Token_try_from)
  end.

Definition parse_broadcaster_token_response (address : Bytes)
    (reply : HttpReply BroadcasterTokenLookupResponse) : FetchResult Token :=
  match reply with
  | SendFailed is_timeout err => Err (map_fetch_error is_timeout err)
  | Answered false status _ =>
      Err (RequestFailed ("broadcaster token lookup returned status " +:+ status
                            +:+ " when fetching token " +:+ Bytes_to_string address))
  | Answered true _ (Err err) =>
      Err (RequestFailed ("Failed to parse broadcaster token response: " +:+ err))
  | Answered true _ (Ok body) =>
      match List.find (λ token, bool_decide (td_address token = address)) (tlr_tokens body) with
      | None => Ok None
      | Some dto =>
          match into_token (tf_chain self) dto with
          | Ok token => Ok (Some token)
          | Err err => Err (RequestFailed (BroadcasterContractError_fmt err))
          end
      end
  end.

Inductive FetchReply :=
| TychoReply (reply : HttpReply (list ResponseToken))
| BroadcasterReply (reply : HttpReply BroadcasterTokenLookupResponse).

(** [fetch_token_result] on a reply; [None]: not one of this source. *)
Definition fetch_token_result (address : Bytes) (reply : FetchReply) : option (FetchResult Token) :=
  match tf_fetch_source self, reply with
  | SourceTycho _ _, TychoReply reply => Some (parse_tycho_token_response address reply)
  | SourceBroadcaster _, BroadcasterReply reply =>
      Some (parse_broadcaster_token_response address reply)
  | _, _ => None
  end.

(** ** Tasks *)

(** A [watch] channel: what was sent, and whether the sender still lives. *)
Record WatchChannel := {
  ch_value : option (FetchResult Token);
  ch_open : bool;
}.

Definition channel_new : WatchChannel := {| ch_value := None; ch_open := true |}.

(** The channel of an owner, by its number. *)
Inductive LookupPoint :=
| AtEnsure
| AtInflight
| WaitingFor (channel : nat)
| AtNewOwner
| AtSemaphore (channel : nat)
| Permitted (channel : nat)
| Fetching (channel : nat)
| Removing (res : FetchResult Token)
| Finished (res : FetchResult Token)
| Dropped.

Record LookupTask := {
  lk_address : Bytes;
  lk_point : LookupPoint;
}.

Record TokenSystem := {
  sy_tokens : gmap Bytes Token;
  sy_inflight : gmap Bytes nat;
  sy_channels : list WatchChannel;
  sy_permits : nat;
  sy_tasks : list LookupTask;
}.

Definition FETCH_PERMITS : nat := 16.

(** [TokenStore::with_source]. *)
Definition TokenSystem_new (initial : gmap Bytes Token) : TokenSystem :=
  {| sy_tokens := initial; sy_inflight := ∅; sy_channels := []; sy_permits := FETCH_PERMITS;
     sy_tasks := [] |}.

Definition set_tokens (tokens : gmap Bytes Token) (s : TokenSystem) : TokenSystem :=
  {| sy_tokens := tokens; sy_inflight := sy_inflight s; sy_channels := sy_channels s;
     sy_permits := sy_permits s; sy_tasks := sy_tasks s |}.
Definition set_inflight (inflight : gmap Bytes nat) (s : TokenSystem) : TokenSystem :=
  {| sy_tokens := sy_tokens s; sy_inflight := inflight; sy_channels := sy_channels s;
     sy_permits := sy_permits s; sy_tasks := sy_tasks s |}.
Definition set_permits (permits : nat) (s : TokenSystem) : TokenSystem :=
  {| sy_tokens := sy_tokens s; sy_inflight := sy_inflight s; sy_channels := sy_channels s;
     sy_permits := permits; sy_tasks := sy_tasks s |}.
Definition set_channels (channels : list WatchChannel) (s : TokenSystem) : TokenSystem :=
  {| sy_tokens := sy_tokens s; sy_inflight := sy_inflight s; sy_channels := channels;
     sy_permits := sy_permits s; sy_tasks := sy_tasks s |}.
Definition move_task (k : nat) (task : LookupTask) (point : LookupPoint) (s : TokenSystem) :
    TokenSystem :=
  {| sy_tokens := sy_tokens s; sy_inflight := sy_inflight s; sy_channels := sy_channels s;
     sy_permits := sy_permits s;
     sy_tasks := <[k := {| lk_address := lk_address task; lk_point := point |}]> (sy_tasks s) |}.

(** [inflight.insert(address, rx)] of a new channel. *)
Definition open_channel (address : Bytes) (s : TokenSystem) : TokenSystem :=
  set_inflight (<[address := length (sy_channels s)]> (sy_inflight s))
    (set_channels (sy_channels s ++ [channel_new]) s).

(** [tx] goes out of scope, after [tx.send(value)] if there is one. *)
Definition close_channel (channel : nat) (value : option (FetchResult Token)) (s : TokenSystem) :
    TokenSystem :=
  set_channels (<[channel := {| ch_value := value; ch_open := false |}]> (sy_channels s)) s.

(** The end of [fetch_token_inner]. *)
Definition settle (k : nat) (task : LookupTask) (channel : nat) (res : FetchResult Token)
    (s : TokenSystem) : TokenSystem :=
  move_task k task (Removing res)
    (set_permits (S (sy_permits s)) (close_channel channel (Some res) s)).

(** The cache after a fetch. *)
Definition cache_result (res : FetchResult Token) (tokens : gmap Bytes Token) : gmap Bytes Token :=
  match res with Ok (Some token) => or_insert_token tokens token | _ => tokens end.

(** One task goes on to its next wait; [None]: it has to wait, or has ended. *)
Definition run_task (k : nat) (reply : option FetchReply) (s : TokenSystem) : option TokenSystem :=
  task ← sy_tasks s !! k;
  let address := lk_address task in
  match lk_point task with
  | AtEnsure =>
      match sy_tokens s !! address with
      | Some token => Some (move_task k task (Finished (Ok (Some token))) s)
      | None => Some (move_task k task AtInflight s)
      end
  | AtInflight =>
      match sy_inflight s !! address with
      | Some channel => Some (move_task k task (WaitingFor channel) s)
      | None =>
          Some (move_task k task (AtSemaphore (length (sy_channels s))) (open_channel address s))
      end
  | WaitingFor channel =>
      c ← sy_channels s !! channel;
      match ch_value c with
      | Some res => Some (move_task k task (Finished res) s)
      | None => if ch_open c then None else Some (move_task k task AtNewOwner s)
      end
  | AtNewOwner =>
      Some (move_task k task (AtSemaphore (length (sy_channels s))) (open_channel address s))
  | AtSemaphore channel =>
      match sy_permits s with
      | O => None
      | S permits => Some (move_task k task (Permitted channel) (set_permits permits s))
      end
  | Permitted channel =>
      match sy_tokens s !! address with
      | Some token => Some (settle k task channel (Ok (Some token)) s)
      | None =>
          match tf_fetch_source self with
          | SourceLocalOnly => Some (settle k task channel (Ok None) s)
          | _ => Some (move_task k task (Fetching channel) s)
          end
      end
  | Fetching channel =>
      reply ← reply;
      res ← fetch_token_result address reply;
      Some (settle k task channel res (set_tokens (cache_result res (sy_tokens s)) s))
  | Removing res =>
      Some (move_task k task (Finished res) (set_inflight (delete address (sy_inflight s)) s))
  | Finished _ | Dropped => None
  end.

(** The future of a lookup is dropped where it waits. *)
Definition drop_task (k : nat) (s : TokenSystem) : option TokenSystem :=
  task ← sy_tasks s !! k;
  let dropped s := Some (move_task k task Dropped s) in
  match lk_point task with
  | AtSemaphore channel => dropped (close_channel channel None s)
  | Permitted channel | Fetching channel =>
      dropped (set_permits (S (sy_permits s)) (close_channel channel None s))
  | Finished _ | Dropped => None
  | _ => dropped s
  end.

Inductive TokenEvent :=
| Lookup (address : Bytes)
| RunTask (task : nat) (reply : option FetchReply)
| DropTask (task : nat)
| InsertBatch (tokens : list Token).

(** An event that cannot happen changes nothing. *)
Definition token_event (s : TokenSystem) (event : TokenEvent) : TokenSystem :=
  match event with
  | Lookup address =>
      {| sy_tokens := sy_tokens s; sy_inflight := sy_inflight s; sy_channels := sy_channels s;
         sy_permits := sy_permits s;
         sy_tasks := sy_tasks s ++ [{| lk_address := address; lk_point := AtEnsure |}] |}
  | RunTask k reply => default s (run_task k reply s)
  | DropTask k => default s (drop_task k s)
  | InsertBatch tokens => set_tokens (foldl or_insert_token (sy_tokens s) tokens) s
  end.

Definition run_events (s : TokenSystem) (events : list TokenEvent) : TokenSystem :=
  foldl token_event s events.
End fetch.
