(* ===== verification/TokenProps.v ===== *)
(** * Lookups of tokens: what is promised

    Whatever lookups run, wait, are dropped or find the token cached meanwhile: what they
    return, how many of them fetch at once, and that they end.  First the invariants of
    every run of [TokenFetch], then the theorems, on a concrete store, and two runs in which
    dropped lookups show. *)

From S2P Require Import Prelude Ordered Text Protocol Wire Replay Store StoreQuery.
From S2P Require Import RouteTypes RouteDemo QuoteTypes QuoteDemo TokenFetch.

(** ** Sums over tasks *)

Lemma sum_list_with_insert {A} (f : A → nat) l k x y :
  l !! k = Some x →
  (sum_list_with f (<[k:=y]> l) + f x = sum_list_with f l + f y)%nat.
Proof.
  revert k. induction l as [|z l IH]; intros [|k] Hk; simpl in *; simplify_eq; [lia|].
  apply IH in Hk. lia.
Qed.

Lemma sum_list_with_pos {A} (f : A → nat) l :
  (0 < sum_list_with f l)%nat → ∃ k x, l !! k = Some x ∧ (0 < f x)%nat.
Proof.
  induction l as [|z l IH]; simpl; intros Hpos; [lia|].
  destruct (f z) eqn:E; [|exists 0%nat, z; split; [done|lia]].
  destruct IH as (k & x & ? & ?); [lia|]. by exists (S k), x.
Qed.

(** A property of every element survives the change of one that has it. *)
Lemma lookup_insert_all {A} (P : nat → A → Prop) (l : list A) k y :
  (∀ j x, l !! j = Some x → j ≠ k → P j x) → ((k < length l)%nat → P k y) →
  ∀ j x, <[k:=y]> l !! j = Some x → P j x.
Proof.
  intros Hl Hy j x [(<- & <- & ?)|[? ?]]%list_lookup_insert_Some; auto.
Qed.

Lemma lookup_snoc_all {A} (P : nat → A → Prop) (l : list A) y :
  (∀ j x, l !! j = Some x → P j x) → P (length l) y →
  ∀ j x, (l ++ [y]) !! j = Some x → P j x.
Proof. intros Hl Hy j x [?|[-> ->]]%lookup_snoc_Some; [|done]. naive_solver. Qed.

Section facts.
Context `{TokenLaws} (self : TokenFetcher).

Abbreviation run_task := (run_task self).
Abbreviation token_event := (token_event self).
Abbreviation run_events := (run_events self).

(** ** Points *)

(** The channel a task owns. *)
Definition owned_channel (point : LookupPoint) : option nat :=
  match point with
  | AtSemaphore channel | Permitted channel | Fetching channel => Some channel
  | _ => None
  end.

Definition holds_permit (point : LookupPoint) : bool :=
  match point with Permitted _ | Fetching _ => true | _ => false end.

(** A task whose address is in the table of lookups in flight. *)
Definition in_flight (point : LookupPoint) : bool :=
  match point with
  | AtSemaphore _ | Permitted _ | Fetching _ | Removing _ => true
  | _ => false
  end.

Definition lookup_ended (task : LookupTask) : bool :=
  match lk_point task with Finished _ | Dropped => true | _ => false end.

Definition holders (s : TokenSystem) : nat :=
  sum_list_with (λ task, if holds_permit (lk_point task) then 1 else 0)%nat (sy_tasks s).

(** The waits a task still has before it. *)
Definition point_rank (point : LookupPoint) : nat :=
  match point with
  | AtEnsure => 8
  | AtInflight => 7
  | WaitingFor _ => 6
  | AtNewOwner => 5
  | AtSemaphore _ => 4
  | Permitted _ => 3
  | Fetching _ => 2
  | Removing _ => 1
  | Finished _ | Dropped => 0
  end.

Definition lookup_measure (s : TokenSystem) : nat :=
  sum_list_with (λ task, point_rank (lk_point task)) (sy_tasks s).

(** Every step takes one task closer to its end. *)
Lemma run_task_moves k reply s s' :
  run_task k reply s = Some s' →
  ∃ task point, sy_tasks s !! k = Some task ∧ (point_rank point < point_rank (lk_point task))%nat ∧
    sy_tasks s' = <[k := {| lk_address := lk_address task; lk_point := point |}]> (sy_tasks s).
Proof.
  unfold TokenFetch.run_task. intros (task & Hk & Hr)%bind_Some. exists task.
  destruct (lk_point task) eqn:Ep; simplify_eq/=; repeat (case_match; simplify_eq/=);
    try (eexists; split; [done|]; split; [|done]; simpl; lia).
  - apply bind_Some in Hr as (c & _ & Hr). repeat (case_match; simplify_eq/=);
      (eexists; split; [done|]; split; [|done]; simpl; lia).
  - apply bind_Some in Hr as (r & -> & (res & _ & [= <-])%bind_Some).
    eexists; split; [done|]; split; [|done]. simpl. lia.
Qed.

Lemma run_task_measure k reply s s' :
  run_task k reply s = Some s' → (lookup_measure s' < lookup_measure s)%nat.
Proof.
  intros (task & point & Hk & Hlt & E)%run_task_moves. unfold lookup_measure. rewrite E.
  pose proof (sum_list_with_insert (λ t, point_rank (lk_point t)) (sy_tasks s) k task
    {| lk_address := lk_address task; lk_point := point |} Hk) as Hsum. simpl in Hsum. lia.
Qed.
(** ** Steps

    What a step of a task does, whichever wait it ends. *)

Definition result_at (point : LookupPoint) : option (FetchResult Token) :=
  match point with Removing res | Finished res => Some res | _ => None end.

(** The channels, by what the task owns before and after and what it leaves behind. *)
Inductive channels_change (cs : list WatchChannel) (value : option (FetchResult Token)) :
    option nat → option nat → list WatchChannel → Prop :=
| ChannelsKept o : channels_change cs value o o cs
| ChannelOpened : channels_change cs value None (Some (length cs)) (cs ++ [channel_new])
| ChannelClosed c :
    channels_change cs value (Some c) None (<[c := {| ch_value := value; ch_open := false |}]> cs).

(** The table of lookups in flight. *)
Inductive inflight_change (address : Bytes) (m : gmap Bytes nat) (fresh : nat) :
    LookupPoint → LookupPoint → gmap Bytes nat → Prop :=
| InflightKept p q : in_flight p = in_flight q → inflight_change address m fresh p q m
| InflightDropped p : inflight_change address m fresh p Dropped m
| InflightAdded p :
    (p = AtInflight ∧ m !! address = None) ∨ p = AtNewOwner →
    inflight_change address m fresh p (AtSemaphore fresh) (<[address := fresh]> m)
| InflightRemoved res :
    inflight_change address m fresh (Removing res) (Finished res) (delete address m).

(** Where a result can be from, the channels apart. *)
Inductive fresh_result (address : Bytes) (tokens tokens' : gmap Bytes Token)
    (reply : option FetchReply) : FetchResult Token → Prop :=
| FromCache token :
    tokens !! address = Some token → fresh_result address tokens tokens' reply (Ok (Some token))
| FromNowhere :
    tf_fetch_source self = SourceLocalOnly → fresh_result address tokens tokens' reply (Ok None)
| FromReply r res :
    reply = Some r → fetch_token_result self address r = Some res →
    tokens' = cache_result res tokens → fresh_result address tokens tokens' reply res.

Record task_step (reply : option FetchReply) (k : nat) (task : LookupTask) (point : LookupPoint)
    (s s' : TokenSystem) : Prop := {
  st_task : sy_tasks s !! k = Some task;
  st_tasks :
    sy_tasks s' = <[k := {| lk_address := lk_address task; lk_point := point |}]> (sy_tasks s);
  st_channels :
    channels_change (sy_channels s) (result_at point) (owned_channel (lk_point task))
      (owned_channel point) (sy_channels s');
  st_inflight :
    inflight_change (lk_address task) (sy_inflight s) (length (sy_channels s)) (lk_point task)
      point (sy_inflight s');
  st_permits :
    (sy_permits s' + (if holds_permit point then 1 else 0)
     = sy_permits s + (if holds_permit (lk_point task) then 1 else 0))%nat;
  st_wait : ∀ c, point = WaitingFor c → sy_inflight s !! lk_address task = Some c;
  st_fetch : ∀ c, point = Fetching c → tf_fetch_source self ≠ SourceLocalOnly;
  st_new_owner :
    point = AtNewOwner →
    ∃ c, lk_point task = WaitingFor c ∧
      sy_channels s !! c = Some {| ch_value := None; ch_open := false |};
  st_result : ∀ res, result_at point = Some res →
    result_at (lk_point task) = Some res ∨
    (∃ c ch, lk_point task = WaitingFor c ∧ sy_channels s !! c = Some ch ∧ ch_value ch = Some res) ∨
    fresh_result (lk_address task) (sy_tokens s) (sy_tokens s') reply res;
  st_tokens :
    sy_tokens s' = sy_tokens s ∨
    ∃ res, point = Removing res ∧ sy_tokens s' = cache_result res (sy_tokens s);
}.

Ltac solve_step Ep :=
  split; rewrite ?Ep; simpl; try done; try (by constructor);
  try (let E := fresh in intros ? E; injection E as <-; assumption);
  try (constructor; by left); try (constructor; by right);
  try lia; try (by left); try (intros; congruence); try (intros; simplify_eq/=; by eauto 10 using fresh_result).
Ltac step_to p Ep := exists p; split; [solve_step Ep|done].

Lemma run_task_step k reply s s' :
  run_task k reply s = Some s' →
  ∃ task point, task_step reply k task point s s' ∧ point ≠ Dropped.
Proof.
  unfold TokenFetch.run_task. intros (task & Hk & Hr)%bind_Some. exists task.
  destruct (lk_point task) as [| |ch| |ch|ch|ch|res|res|] eqn:Ep; simplify_eq/=.
  - destruct (sy_tokens s !! _) as [token|] eqn:Et; simplify_eq.
    + step_to (Finished (Ok (Some token))) Ep.
    + step_to AtInflight Ep.
  - destruct (sy_inflight s !! _) as [c|] eqn:Ei; simplify_eq.
    + step_to (WaitingFor c) Ep.
    + step_to (AtSemaphore (length (sy_channels s))) Ep.
  - apply bind_Some in Hr as ([value open] & Hc & Hr). simpl in Hr.
    destruct value as [res|]; [|destruct open]; simplify_eq.
    + step_to (Finished res) Ep.
    + step_to AtNewOwner Ep.
  - step_to (AtSemaphore (length (sy_channels s))) Ep.
  - destruct (sy_permits s) as [|permits] eqn:E; simplify_eq. step_to (Permitted ch) Ep.
  - destruct (sy_tokens s !! _) as [token|] eqn:Et; simplify_eq.
    + step_to (Removing (Ok (Some token))) Ep.
    + destruct (tf_fetch_source self) eqn:Es; simplify_eq;
        [step_to (Fetching ch) Ep|step_to (Fetching ch) Ep|step_to (Removing (Ok None)) Ep].
  - apply bind_Some in Hr as (r & -> & (res & Hres & [= <-])%bind_Some).
    step_to (Removing res) Ep.
  - step_to (Finished res) Ep.
Qed.

Lemma drop_task_step k s s' :
  drop_task k s = Some s' → ∃ task, task_step None k task Dropped s s'.
Proof.
  unfold drop_task. intros (task & Hk & Hr)%bind_Some. exists task.
  destruct (lk_point task) as [| |ch| |ch|ch|ch|res|res|] eqn:Ep; simplify_eq/=; solve_step Ep.
Qed.
(** ** Every lookup ends *)

Record lookups_live (s : TokenSystem) : Prop := {
  ll_permits : (sy_permits s + holders s)%nat = FETCH_PERMITS;
  ll_wait : ∀ k task c, sy_tasks s !! k = Some task → lk_point task = WaitingFor c →
    (c < length (sy_channels s))%nat;
  ll_inflight : ∀ a c, sy_inflight s !! a = Some c → (c < length (sy_channels s))%nat;
  ll_open : ∀ c ch, sy_channels s !! c = Some ch → ch_open ch = true →
    ∃ k task, sy_tasks s !! k = Some task ∧ owned_channel (lk_point task) = Some c;
  ll_fetch : ∀ k task c, sy_tasks s !! k = Some task → lk_point task = Fetching c →
    tf_fetch_source self ≠ SourceLocalOnly;
}.

Lemma channels_change_length cs value o o' cs' :
  channels_change cs value o o' cs' → (length cs ≤ length cs')%nat.
Proof. destruct 1; rewrite ?length_app, ?length_insert; simpl; lia. Qed.

Lemma step_tasks reply k task point s s' :
  task_step reply k task point s s' →
  sy_tasks s' !! k = Some {| lk_address := lk_address task; lk_point := point |} ∧
  ∀ j, j ≠ k → sy_tasks s' !! j = sy_tasks s !! j.
Proof.
  intros Hs. rewrite (st_tasks _ _ _ _ _ _ Hs). split.
  - apply list_lookup_insert_eq. by eapply lookup_lt_Some, st_task.
  - intros j Hj. by apply list_lookup_insert_ne.
Qed.

(** A property of the tasks holds after a step if it does for the others and for this one. *)
Lemma step_tasks_all reply k task point s s' (P : nat → LookupTask → Prop) :
  task_step reply k task point s s' →
  (∀ j t, sy_tasks s !! j = Some t → P j t) →
  (P k task → P k {| lk_address := lk_address task; lk_point := point |}) →
  ∀ j t, sy_tasks s' !! j = Some t → P j t.
Proof.
  intros Hs Hall Hk j t Ht. destruct (step_tasks _ _ _ _ _ _ Hs) as [Hsame Hother].
  destruct (decide (j = k)) as [->|Hne].
  - rewrite Hsame in Ht. injection Ht as <-. apply Hk, Hall, Hs.
  - rewrite Hother in Ht by done. by apply Hall.
Qed.

Lemma step_holders reply k task point s s' :
  task_step reply k task point s s' →
  (sy_permits s + holders s = sy_permits s' + holders s')%nat.
Proof.
  intros Hs. pose proof (st_permits _ _ _ _ _ _ Hs) as Hp. unfold holders.
  rewrite (st_tasks _ _ _ _ _ _ Hs).
  pose proof (sum_list_with_insert (λ t, if holds_permit (lk_point t) then 1 else 0)%nat
    (sy_tasks s) k task {| lk_address := lk_address task; lk_point := point |}
    (st_task _ _ _ _ _ _ Hs)) as Hsum. simpl in Hsum. lia.
Qed.

Lemma step_owner reply k task point s s' c ch :
  task_step reply k task point s s' →
  (∀ c ch, sy_channels s !! c = Some ch → ch_open ch = true →
    ∃ k task, sy_tasks s !! k = Some task ∧ owned_channel (lk_point task) = Some c) →
  sy_channels s' !! c = Some ch → ch_open ch = true →
  ∃ k task, sy_tasks s' !! k = Some task ∧ owned_channel (lk_point task) = Some c.
Proof.
  intros Hs Hopen Hc Ho. destruct (step_tasks _ _ _ _ _ _ Hs) as [Hsame Hother].
  pose proof (st_channels _ _ _ _ _ _ Hs) as Hch.
  pose proof (st_task _ _ _ _ _ _ Hs) as Hk.
  assert (∀ j t, sy_tasks s !! j = Some t → owned_channel (lk_point t) = Some c →
    (j = k → owned_channel point = Some c) →
    ∃ k task, sy_tasks s' !! k = Some task ∧ owned_channel (lk_point task) = Some c) as Hkeep.
  { intros j t Ht Hown Hjk. destruct (decide (j = k)) as [->|Hne].
    - eexists k, _. split; [exact Hsame|]. by apply Hjk.
    - exists j, t. by rewrite Hother. }
  inversion Hch as [o E1 E2 E3|E1 E2 E3|c0 E1 E2 E3].
  - rewrite <- E3 in Hc. destruct (Hopen _ _ Hc Ho) as (j & t & Ht & Hown).
    apply (Hkeep j t Ht Hown). intros ->. congruence.
  - rewrite <- E3 in Hc. apply lookup_snoc_Some in Hc as [[_ Hc]|[-> <-]].
    + destruct (Hopen _ _ Hc Ho) as (j & t & Ht & Hown).
      apply (Hkeep j t Ht Hown). intros ->. congruence.
    + eexists k, _. split; [exact Hsame|]. done.
  - rewrite <- E3 in Hc. apply list_lookup_insert_Some in Hc as [(-> & <- & _)|[Hne Hc]]; [done|].
    destruct (Hopen _ _ Hc Ho) as (j & t & Ht & Hown).
    apply (Hkeep j t Ht Hown). intros ->. congruence.
Qed.

Lemma step_live reply k task point s s' :
  task_step reply k task point s s' → lookups_live s → lookups_live s'.
Proof.
  intros Hs [Hp Hw Hi Ho Hf].
  pose proof (channels_change_length _ _ _ _ _ (st_channels _ _ _ _ _ _ Hs)) as Hlen.
  split.
  - by rewrite <- (step_holders _ _ _ _ _ _ Hs).
  - intros j t c Ht. revert c.
    refine (step_tasks_all _ _ _ _ _ _ (λ _ t, ∀ c, lk_point t = WaitingFor c →
      (c < length (sy_channels s'))%nat) Hs _ _ j t Ht).
    + intros j' t' Ht' c Hc. specialize (Hw _ _ _ Ht' Hc). lia.
    + simpl. intros _ c ->. specialize (Hi _ _ (st_wait _ _ _ _ _ _ Hs c eq_refl)). lia.
  - intros a c Ha. pose proof (st_channels _ _ _ _ _ _ Hs) as Hch.
    pose proof (st_inflight _ _ _ _ _ _ Hs) as Hin.
    inversion Hin as [p q _ E1 E2 E3|p E1 E2 E3|p E E1 E2 E3|res E1 E2 E3];
      rewrite <- E3 in Ha; try (specialize (Hi _ _ Ha); lia).
    + apply lookup_insert_Some in Ha as [[<- <-]|[_ Ha]]; [|specialize (Hi _ _ Ha); lia].
      assert (owned_channel (lk_point task) = None) as Eo by (by destruct E as [[-> _]| ->]).
      rewrite Eo, <- E2 in Hch. inversion Hch. rewrite length_app. simpl. lia.
    + apply lookup_delete_Some in Ha as [_ Ha]. specialize (Hi _ _ Ha). lia.
  - intros c ch. by eapply step_owner.
  - intros j t c Ht. revert c.
    refine (step_tasks_all _ _ _ _ _ _ (λ _ t, ∀ c, lk_point t = Fetching c →
      tf_fetch_source self ≠ SourceLocalOnly) Hs _ _ j t Ht).
    + intros j' t' Ht' c Hc. by eapply Hf.
    + simpl. intros _ c Hc. by eapply st_fetch.
Qed.
Lemma new_live initial : lookups_live (TokenSystem_new initial).
Proof. by split. Qed.

(** A new lookup owns nothing and waits for nothing. *)
Lemma added_live address s : lookups_live s → lookups_live (token_event s (Lookup address)).
Proof.
  intros [Hp Hw Hi Ho Hf]. split; simpl; try done.
  - unfold holders in *. simpl. rewrite sum_list_with_app. simpl. lia.
  - intros j x c Hx. revert c. revert j x Hx.
    by apply (lookup_snoc_all (λ _ t, ∀ c, lk_point t = WaitingFor c →
      (c < length (sy_channels s))%nat)); [eauto|].
  - intros c ch Hc Hopen. destruct (Ho _ _ Hc Hopen) as (k & t & Ht & E).
    exists k, t. split; [by apply lookup_app_l_Some|done].
  - intros j x c Hx. revert c. revert j x Hx.
    by apply (lookup_snoc_all (λ _ t, ∀ c, lk_point t = Fetching c →
      tf_fetch_source self ≠ SourceLocalOnly)); [eauto|].
Qed.

Lemma event_live s event : lookups_live s → lookups_live (token_event s event).
Proof.
  intros Hl. destruct event as [address|k reply|k|tokens]; simpl.
  - by apply added_live.
  - destruct (run_task k reply s) as [s'|] eqn:E; [|done].
    apply run_task_step in E as (task & point & Hs & _). by eapply step_live.
  - destruct (drop_task k s) as [s'|] eqn:E; [|done].
    apply drop_task_step in E as (task & Hs). by eapply step_live.
  - destruct Hl. by split.
Qed.

Lemma events_live s events : lookups_live s → lookups_live (run_events s events).
Proof.
  intros Hl. apply (foldl_inv lookups_live); [done|]. intros s' event _. apply event_live.
Qed.

(** Some reply ends a fetch. *)
Lemma reply_exists address :
  tf_fetch_source self ≠ SourceLocalOnly →
  ∃ reply res, fetch_token_result self address reply = Some res.
Proof.
  unfold fetch_token_result. destruct (tf_fetch_source self); intros Hs; [| |done].
  - exists (TychoReply (SendFailed true "")). by eexists.
  - exists (BroadcasterReply (SendFailed true "")). by eexists.
Qed.

(** Who holds a permit, or owns a channel with a permit to be had, can go on. *)
Lemma holder_runs s k task :
  lookups_live s → sy_tasks s !! k = Some task → holds_permit (lk_point task) = true →
  ∃ reply s', run_task k reply s = Some s'.
Proof.
  intros Hl Hk Hh. unfold TokenFetch.run_task. rewrite Hk. simpl.
  destruct (lk_point task) as [| | | | |c|c| | |] eqn:Ep; simplify_eq/=.
  - exists None. destruct (sy_tokens s !! _); [by eexists|].
    destruct (tf_fetch_source self); by eexists.
  - destruct (reply_exists (lk_address task)) as (reply & res & Hr).
    { by eapply ll_fetch. }
    exists (Some reply). simpl. rewrite Hr. by eexists.
Qed.

Lemma some_task_runs s k task :
  lookups_live s → sy_tasks s !! k = Some task → lookup_ended task = false →
  ∃ j reply s', run_task j reply s = Some s'.
Proof.
  intros Hl Hk He.
  assert (∀ k task c, sy_tasks s !! k = Some task → owned_channel (lk_point task) = Some c →
    ∃ j reply s', run_task j reply s = Some s') as Howner.
  { intros k' task' c Hk' Hc. destruct (holds_permit (lk_point task')) eqn:Eh.
    { exists k'. by eapply holder_runs. }
    destruct (lk_point task') eqn:Ep; simplify_eq/=.
    destruct (sy_permits s) as [|permits] eqn:Es.
    - pose proof (ll_permits _ Hl) as Hp. rewrite Es in Hp. unfold FETCH_PERMITS in Hp.
      destruct (sum_list_with_pos (λ t, if holds_permit (lk_point t) then 1 else 0)%nat (sy_tasks s))
        as (j & t & Hj & Ht); [unfold holders in Hp; lia|].
      exists j. eapply holder_runs; [done..|]. by destruct (holds_permit _); [|lia].
    - exists k', None. unfold TokenFetch.run_task. rewrite Hk'. simpl. rewrite Ep, Es. by eexists. }
  destruct (owned_channel (lk_point task)) as [c|] eqn:Ec; [by eapply Howner|].
  unfold lookup_ended in He.
  destruct (lk_point task) as [| |c| | | | |res| |] eqn:Ep; simplify_eq/=.
  3: { destruct (lookup_lt_is_Some_2 (sy_channels s) c) as [[value open] Hc];
         [by eapply ll_wait|].
       destruct value as [res|] eqn:Ev; [|destruct open eqn:Eo].
       - exists k, None. unfold TokenFetch.run_task. rewrite Hk. simpl. rewrite Ep, Hc. by eexists.
       - destruct (ll_open _ Hl _ _ Hc eq_refl) as (j & t & Hj & Hown). by eapply Howner.
       - exists k, None. unfold TokenFetch.run_task. rewrite Hk. simpl. rewrite Ep, Hc. by eexists. }
  all: exists k, None; unfold TokenFetch.run_task; rewrite Hk; simpl; rewrite Ep.
  - destruct (sy_tokens s !! _); by eexists.
  - destruct (sy_inflight s !! _); by eexists.
  - by eexists.
  - by eexists.
Qed.
(** ** What lookups return *)

Definition keyed (tokens : gmap Bytes Token) : Prop :=
  ∀ a token, tokens !! a = Some token → token_address token = a.

Lemma or_insert_grows tokens token : tokens ⊆ or_insert_token tokens token.
Proof.
  unfold or_insert_token. destruct (tokens !! token_address token) eqn:E; [done|].
  by apply insert_subseteq.
Qed.

Lemma or_insert_keyed tokens token : keyed tokens → keyed (or_insert_token tokens token).
Proof.
  intros Hk. unfold or_insert_token. destruct (tokens !! token_address token); [done|].
  intros a t [[<- <-]|[_ Ha]]%lookup_insert_Some; [done|by apply Hk].
Qed.

Lemma or_insert_found tokens token : is_Some (or_insert_token tokens token !! token_address token).
Proof.
  unfold or_insert_token. destruct (tokens !! token_address token) eqn:E; [by eexists|].
  rewrite lookup_insert_eq. by eexists.
Qed.

Lemma cache_grows res tokens : tokens ⊆ cache_result res tokens.
Proof. destruct res as [[token|]|]; [apply or_insert_grows|done|done]. Qed.

Lemma cache_keyed res tokens : keyed tokens → keyed (cache_result res tokens).
Proof. destruct res as [[token|]|]; [apply or_insert_keyed|done|done]. Qed.

Lemma find_address {A} (f : A → Bytes) l a x :
  List.find (λ y, bool_decide (f y = a)) l = Some x → f x = a.
Proof. intros [_ E]%List.find_some. by apply bool_decide_eq_true in E. Qed.

(** A fetch finds a token of the address it is for. *)
Lemma fetched_address address reply token :
  fetch_token_result self address reply = Some (Ok (Some token)) → token_address token = address.
Proof.
  unfold fetch_token_result, parse_tycho_token_response, parse_broadcaster_token_response, into_token.
  destruct (tf_fetch_source self), reply as [[]|[]]; repeat case_match; intros; simplify_eq.
  - match goal with Ht : _ ≫= _ = Some _ |- _ =>
      apply bind_Some in Ht as (r & Hr%find_address & ->%try_from_address) end. done.
  - rewrite Token_new_address. by eapply find_address.
Qed.

Definition replied (history : list TokenEvent) (address : Bytes) (res : FetchResult Token) : Prop :=
  ∃ k reply, RunTask k (Some reply) ∈ history ∧ fetch_token_result self address reply = Some res.

(** A result is a token of the address, cached or fetched, and the address is cached; or it
    is what a fetch of the address was answered, unless the store fetches nothing. *)
Definition justified (history : list TokenEvent) (tokens : gmap Bytes Token) (address : Bytes)
    (res : FetchResult Token) : Prop :=
  match res with
  | Ok (Some token) =>
      token_address token = address ∧ is_Some (tokens !! address) ∧
      (tokens !! address = Some token ∨ replied history address res)
  | _ => (tf_fetch_source self = SourceLocalOnly ∧ res = Ok None) ∨ replied history address res
  end.

Lemma justified_mono history history' tokens tokens' address res :
  history ⊆ history' → tokens ⊆ tokens' →
  justified history tokens address res → justified history' tokens' address res.
Proof.
  intros Hh Ht.
  assert (replied history address res → replied history' address res) as Hr.
  { intros (k & reply & Hin & E). exists k, reply. auto. }
  destruct res as [[token|]|e]; simpl; [|tauto|tauto].
  intros (E & [t Hs] & Hc). split; [done|]. split; [eexists; by eapply lookup_weaken|].
  destruct Hc as [Hc|Hc]; [left; by eapply lookup_weaken|by right; apply Hr].
Qed.

(** [owner] has the address each channel was opened for. *)
Record results_ok (history : list TokenEvent) (owner : list Bytes) (s : TokenSystem) : Prop := {
  ro_keyed : keyed (sy_tokens s);
  ro_length : length owner = length (sy_channels s);
  ro_inflight : ∀ a c, sy_inflight s !! a = Some c → owner !! c = Some a;
  ro_wait : ∀ k task, sy_tasks s !! k = Some task → ∀ c, lk_point task = WaitingFor c →
    owner !! c = Some (lk_address task);
  ro_owned : ∀ k task, sy_tasks s !! k = Some task → ∀ c, owned_channel (lk_point task) = Some c →
    owner !! c = Some (lk_address task);
  ro_value : ∀ c ch res a, sy_channels s !! c = Some ch → ch_value ch = Some res →
    owner !! c = Some a → justified history (sy_tokens s) a res;
  ro_result : ∀ k task, sy_tasks s !! k = Some task → ∀ res, result_at (lk_point task) = Some res →
    justified history (sy_tokens s) (lk_address task) res;
}.

Lemma step_cache_grows reply k task point s s' :
  task_step reply k task point s s' → sy_tokens s ⊆ sy_tokens s'.
Proof. intros Hs. destruct (st_tokens _ _ _ _ _ _ Hs) as [->|(res & _ & ->)]; [done|apply cache_grows]. Qed.

(** What a step finds out is justified after it. *)
Lemma step_result history history' owner reply k task point s s' res :
  task_step reply k task point s s' → results_ok history owner s →
  history ⊆ history' → (∀ r, reply = Some r → RunTask k (Some r) ∈ history') →
  result_at point = Some res → justified history' (sy_tokens s') (lk_address task) res.
Proof.
  intros Hs Ho Hh Hr Hres. pose proof (step_cache_grows _ _ _ _ _ _ Hs) as Hg.
  pose proof (st_task _ _ _ _ _ _ Hs) as Hk.
  destruct (st_result _ _ _ _ _ _ Hs res Hres) as [E|[(c & ch & E & Hc & Hv)|Hf]].
  - apply (justified_mono history history' (sy_tokens s)); [done..|]. by eapply ro_result.
  - apply (justified_mono history history' (sy_tokens s)); [done..|].
    eapply ro_value; [done..|]. by eapply ro_wait.
  - destruct Hf as [token Ht|Hl|r res Er Ef Et]; simpl.
    + split; [by eapply ro_keyed|]. pose proof (lookup_weaken _ _ _ _ Ht Hg).
      split; [by eexists|by left].
    + by left.
    + assert (replied history' (lk_address task) res) as Hrep.
      { exists k, r. split; [by apply Hr|done]. }
      destruct res as [[token|]|e]; simpl; [|by right|by right].
      pose proof (fetched_address _ _ _ Ef) as Ea. split; [done|]. split; [|by right].
      rewrite Et, <- Ea. apply or_insert_found.
Qed.
(** The channels after a step, and whose they are. *)
Lemma step_owners history owner reply k task point s s' :
  task_step reply k task point s s' → results_ok history owner s →
  ∃ owner', (∀ c a, owner !! c = Some a → owner' !! c = Some a) ∧
    length owner' = length (sy_channels s') ∧
    (∀ c, owned_channel point = Some c → owner' !! c = Some (lk_address task)) ∧
    (∀ c ch a res, sy_channels s' !! c = Some ch → ch_value ch = Some res →
      owner' !! c = Some a →
      (sy_channels s !! c = Some ch ∧ owner !! c = Some a) ∨
      (a = lk_address task ∧ result_at point = Some res)).
Proof.
  intros Hs Ho. pose proof (st_channels _ _ _ _ _ _ Hs) as Hch.
  pose proof (ro_owned _ _ _ Ho _ _ (st_task _ _ _ _ _ _ Hs)) as Hown.
  pose proof (ro_length _ _ _ Ho) as Hlen.
  inversion Hch as [o E1 E2 E3|E1 E2 E3|c0 E1 E2 E3].
  - exists owner. split_and!; [done|done| |naive_solver]. intros c Hc. apply Hown. congruence.
  - exists (owner ++ [lk_address task]). split_and!.
    + intros c a Hc. by apply lookup_app_l_Some.
    + by rewrite !length_app, Hlen.
    + intros c [= <-]. rewrite <- Hlen. apply lookup_snoc_Some. by right.
    + intros c ch a res [[Hlt Hc]|[-> <-]]%lookup_snoc_Some Hv Ha; [|done].
      left. split; [done|]. by rewrite lookup_app_l in Ha by lia.
  - exists owner. split_and!; [done|by rewrite length_insert|done|].
    intros c ch a res [(-> & <- & _)|[_ Hc]]%list_lookup_insert_Some Hv Ha; [|by left].
    right. simpl in Hv. split; [|done].
    rewrite (Hown c) in Ha by done. by injection Ha.
Qed.

Lemma step_results history history' owner reply k task point s s' :
  task_step reply k task point s s' → results_ok history owner s →
  history ⊆ history' → (∀ r, reply = Some r → RunTask k (Some r) ∈ history') →
  ∃ owner', results_ok history' owner' s'.
Proof.
  intros Hs Ho Hh Hr. pose proof (step_cache_grows _ _ _ _ _ _ Hs) as Hg.
  destruct (step_owners _ _ _ _ _ _ _ _ Hs Ho) as (owner' & Hext & Hlen & Hown & Hval).
  assert (∀ res, result_at point = Some res →
    justified history' (sy_tokens s') (lk_address task) res) as Hnew.
  { intros res. by apply (step_result history history' owner reply k task point s s'). }
  exists owner'. split.
  - destruct (st_tokens _ _ _ _ _ _ Hs) as [->|(res & _ & ->)];
      [by eapply ro_keyed|by eapply cache_keyed, ro_keyed].
  - done.
  - pose proof (st_inflight _ _ _ _ _ _ Hs) as Hin. intros a c Ha.
    inversion Hin as [p q _ E1 E2 E3|p E1 E2 E3|p E E1 E2 E3|res E1 E2 E3];
      try rewrite <- E3 in Ha; try (by eapply Hext, ro_inflight).
    + apply lookup_insert_Some in Ha as [[<- <-]|[_ Ha]]; [|by eapply Hext, ro_inflight].
      apply Hown. by rewrite <- E2.
    + apply lookup_delete_Some in Ha as [_ Ha]. by eapply Hext, ro_inflight.
  - refine (step_tasks_all _ _ _ _ _ _ (λ _ t, _) Hs _ _).
    + intros j t Ht c Hc. eapply Hext, ro_wait; done.
    + simpl. intros _ c Hc. eapply Hext, ro_inflight; [done|]. by eapply st_wait.
  - refine (step_tasks_all _ _ _ _ _ _ (λ _ t, _) Hs _ _).
    + intros j t Ht c Hc. eapply Hext, ro_owned; done.
    + simpl. intros _ c Hc. by apply Hown.
  - intros c ch res a Hc Hv Ha. destruct (Hval _ _ _ _ Hc Hv Ha) as [[Hc' Ha']|[-> Hres]].
    + eapply justified_mono; [done..|]. by eapply ro_value.
    + by apply Hnew.
  - refine (step_tasks_all _ _ _ _ _ _ (λ _ t, _) Hs _ _).
    + intros j t Ht res Hres. eapply justified_mono; [done..|]. by eapply ro_result.
    + simpl. intros _ res Hres. by apply Hnew.
Qed.

Lemma results_mono history history' tokens owner s :
  history ⊆ history' → keyed tokens → sy_tokens s ⊆ tokens → results_ok history owner s →
  results_ok history' owner (set_tokens tokens s).
Proof.
  intros Hh Hk Hg []. split; simpl; try done; intros;
    (eapply justified_mono; [done|done|]; eauto).
Qed.

Lemma set_tokens_same s : set_tokens (sy_tokens s) s = s.
Proof. by destruct s. Qed.

Lemma event_results history owner s event :
  results_ok history owner s → ∃ owner', results_ok (history ++ [event]) owner' (token_event s event).
Proof.
  intros Ho.
  assert (history ⊆ history ++ [event]) as Hh by set_solver.
  assert (results_ok (history ++ [event]) owner s) as Hsame.
  { rewrite <- (set_tokens_same s). eapply results_mono; [done| |done|done]. apply Ho. }
  destruct event as [address|k reply|k|tokens]; simpl.
  - exists owner. destruct Hsame as [Hk Hl Hi Hw Hown Hv Hr].
    split; simpl; try done; by refine (lookup_snoc_all (λ _ t, _) _ _ _ _).
  - destruct (run_task k reply s) as [s'|] eqn:E; [|by exists owner].
    apply run_task_step in E as (task & point & Hs & _).
    apply (step_results history _ owner _ _ _ _ _ _ Hs Ho Hh). intros r ->. set_solver.
  - destruct (drop_task k s) as [s'|] eqn:E; [|by exists owner].
    apply drop_task_step in E as (task & Hs).
    by apply (step_results history _ owner _ _ _ _ _ _ Hs Ho Hh).
  - exists owner. eapply (results_mono (history ++ [InsertBatch tokens])); [done| | |done].
    + apply foldl_inv; [apply Ho|]. intros. by apply or_insert_keyed.
    + apply (foldl_inv (λ m, sy_tokens s ⊆ m)); [done|]. intros m t _ Hm.
      etrans; [done|]. apply or_insert_grows.
Qed.

Lemma new_results initial : keyed initial → results_ok [] [] (TokenSystem_new initial).
Proof. by split. Qed.

Lemma events_results initial events :
  keyed initial → ∃ owner, results_ok events owner (run_events (TokenSystem_new initial) events).
Proof.
  intros Hk. induction events as [|event events IH] using rev_ind.
  - exists []. by apply new_results.
  - destruct IH as [owner Ho]. unfold TokenFetch.run_events. rewrite foldl_app. simpl.
    by eapply event_results.
Qed.

(** ** One fetch per address *)

Record coalesced (s : TokenSystem) : Prop := {
  co_in_flight : ∀ k task, sy_tasks s !! k = Some task → in_flight (lk_point task) = true →
    is_Some (sy_inflight s !! lk_address task);
  co_one : ∀ j k task task', sy_tasks s !! j = Some task → sy_tasks s !! k = Some task' →
    in_flight (lk_point task) = true → in_flight (lk_point task') = true →
    lk_address task = lk_address task' → j = k;
  co_points : ∀ k task, sy_tasks s !! k = Some task → lk_point task ≠ AtNewOwner;
  co_channels : ∀ c ch, sy_channels s !! c = Some ch → ch_value ch = None → ch_open ch = true;
}.
(** What a step that drops nothing does to the table, when it is kept right. *)
Lemma step_table reply k task point s s' :
  task_step reply k task point s s' → point ≠ Dropped → coalesced s →
  (in_flight (lk_point task) = in_flight point ∧ sy_inflight s' = sy_inflight s) ∨
  (∃ c, point = AtSemaphore c ∧ sy_inflight s !! lk_address task = None ∧
     owned_channel (lk_point task) = None ∧
     sy_inflight s' = <[lk_address task := c]> (sy_inflight s)) ∨
  (∃ res, lk_point task = Removing res ∧ point = Finished res ∧
     sy_inflight s' = delete (lk_address task) (sy_inflight s)).
Proof.
  intros Hs Hd Hc. pose proof (st_inflight _ _ _ _ _ _ Hs) as Hin.
  pose proof (co_points _ Hc _ _ (st_task _ _ _ _ _ _ Hs)) as Hp.
  inversion Hin as [p q E E1 E2 E3|p E1 E2 E3|p E E1 E2 E3|res E1 E2 E3]; [by left|done| |].
  - right. left. destruct E as [[Ep Em]|Ep]; [|congruence]. eexists. split; [done|].
    split; [done|]. split; [by rewrite Ep|done].
  - right. right. by exists res.
Qed.

Lemma step_coalesced reply k task point s s' :
  task_step reply k task point s s' → point ≠ Dropped → coalesced s → coalesced s'.
Proof.
  intros Hs Hd Hc. pose proof (step_table _ _ _ _ _ _ Hs Hd Hc) as Ht.
  pose proof (st_task _ _ _ _ _ _ Hs) as Hk. destruct Hc as [Hf Hone Hp Hch].
  destruct (step_tasks _ _ _ _ _ _ Hs) as [Hsame Hother].
  assert (∀ j t, j ≠ k → sy_tasks s !! j = Some t → in_flight (lk_point t) = true →
    in_flight point = true → lk_address t = lk_address task → False) as Hnot.
  { intros j t Hj Htj Hft Hfp Ha.
    destruct Ht as [[E _]|[(c & -> & En & _)|(res & _ & -> & _)]]; [|..|done].
    - apply Hj. eapply Hone; [done..| |done]. by rewrite E.
    - destruct (Hf _ _ Htj Hft) as [c' Hc']. rewrite Ha in Hc'. congruence. }
  split.
  - intros j t Hj Hft. destruct (decide (j = k)) as [->|Hjk].
    + rewrite Hsame in Hj. injection Hj as <-. simpl in *.
      destruct Ht as [[E ->]|[(c & _ & _ & _ & ->)|(res & _ & -> & _)]]; [|by rewrite lookup_insert_eq|done].
      eapply Hf; [done|by rewrite E].
    + rewrite Hother in Hj by done. destruct (Hf _ _ Hj Hft) as [c' Hc'].
      destruct Ht as [[_ ->]|[(c & _ & _ & _ & ->)|(res & Er & _ & ->)]]; [by eexists|..].
      * destruct (decide (lk_address t = lk_address task)) as [->|Hne];
          [by rewrite lookup_insert_eq|by rewrite lookup_insert_ne].
      * rewrite lookup_delete_ne; [by eexists|]. intros Ha. apply Hjk.
        eapply Hone; [done..| |done]. by rewrite Er.
  - intros i j t t' Hi Hj Hfi Hfj Ha.
    destruct (decide (i = k)) as [->|Hik], (decide (j = k)) as [->|Hjk]; [done| | |].
    + rewrite Hsame in Hi. injection Hi as <-. rewrite Hother in Hj by done. simpl in *.
      exfalso. by eapply Hnot.
    + rewrite Hsame in Hj. injection Hj as <-. rewrite Hother in Hi by done. simpl in *.
      exfalso. by eapply (Hnot i).
    + rewrite Hother in Hi, Hj by done. by eapply Hone.
  - refine (step_tasks_all _ _ _ _ _ _ (λ _ t, _) Hs _ _); [done|]. simpl. intros _ Hn.
    destruct (st_new_owner _ _ _ _ _ _ Hs Hn) as (c & _ & Hcl). by specialize (Hch _ _ Hcl eq_refl).
  - pose proof (st_channels _ _ _ _ _ _ Hs) as Hcc. intros c ch Hc Hv.
    inversion Hcc as [o E1 E2 E3|E1 E2 E3|c0 E1 E2 E3]; try rewrite <- E3 in Hc.
    + by eapply Hch.
    + apply lookup_snoc_Some in Hc as [[_ Hc]|[_ <-]]; [by eapply Hch|done].
    + apply list_lookup_insert_Some in Hc as [(_ & <- & _)|[_ Hc]]; [|by eapply Hch].
      simpl in Hv. exfalso. destruct Ht as [[E _]|[(c' & -> & _)|(res & Er & _)]].
      * destruct (lk_point task), point; simplify_eq/=.
      * done.
      * by rewrite Er in E1.
Qed.

Lemma event_coalesced s event :
  (∀ k, event ≠ DropTask k) → coalesced s → coalesced (token_event s event).
Proof.
  intros Hd Hc. destruct event as [address|k reply|k|tokens]; simpl.
  - destruct Hc as [Hf Hone Hp Hch]. split; simpl; [| | |done].
    + by refine (lookup_snoc_all (λ _ t, _) _ _ _ _).
    + intros j k t t' [Hj|[-> <-]]%lookup_snoc_Some [Hk|[-> <-]]%lookup_snoc_Some; try done.
      destruct Hj, Hk. by eapply Hone.
    + by refine (lookup_snoc_all (λ _ t, _) _ _ _ _).
  - destruct (run_task k reply s) as [s'|] eqn:E; [|done].
    apply run_task_step in E as (task & point & Hs & Hp). by eapply step_coalesced.
  - by destruct (Hd k).
  - destruct Hc. by split.
Qed.

Lemma events_coalesced initial events :
  (∀ k, DropTask k ∉ events) → coalesced (run_events (TokenSystem_new initial) events).
Proof.
  intros Hd. apply (foldl_inv coalesced); [by split|]. intros s event Hin.
  apply event_coalesced. intros k ->. by apply (Hd k).
Qed.
End facts.

Section properties.
Context `{TokenLaws} (self : TokenFetcher).

Abbreviation run_task := (run_task self).
Abbreviation run_events := (run_events self).

Lemma tokens_kept s events : sy_tokens s ⊆ sy_tokens (run_events s events).
Proof.
  apply (foldl_inv (λ s', sy_tokens s ⊆ sy_tokens s')); [done|]. intros s' event _ Hg.
  etrans; [exact Hg|]. destruct event as [address|k reply|k|tokens]; simpl; [done|..].
  - destruct (run_task k reply s') as [s''|] eqn:E; [|done].
    apply run_task_step in E as (task & point & Hs & _). by eapply step_cache_grows.
  - destruct (drop_task k s') as [s''|] eqn:E; [|done].
    apply (drop_task_step self) in E as (task & Hs). by eapply step_cache_grows.
  - apply (foldl_inv (λ m, sy_tokens s' ⊆ m)); [done|]. intros m t _ Hm.
    etrans; [done|]. apply or_insert_grows.
Qed.

(** C28: whatever lookups run, wait for one another or are dropped, a lookup that ends has
    found a token of its address, cached or fetched for it, and the address is cached; or
    its result is what a fetch of that address was answered.  A cached token stays. *)
Theorem lookups_justified initial events k task res :
  keyed initial →
  let s := run_events (TokenSystem_new initial) events in
  sy_tasks s !! k = Some task → lk_point task = Finished res →
  justified self events (sy_tokens s) (lk_address task) res ∧
  ∀ more, sy_tokens s ⊆ sy_tokens (run_events s more).
Proof.
  intros Hk s Ht Hp. destruct (events_results self initial events Hk) as [owner Ho].
  split; [|intros more; apply tokens_kept].
  eapply (ro_result _ _ _ _ Ho); [done|by rewrite Hp].
Qed.

(** C29: at most sixteen lookups fetch at once, and as long as no lookup is dropped at most
    one per address. *)
Theorem lookups_coalesced initial events :
  let s := run_events (TokenSystem_new initial) events in
  (holders s ≤ FETCH_PERMITS)%nat ∧
  ((∀ k, DropTask k ∉ events) →
   ∀ j k task task', sy_tasks s !! j = Some task → sy_tasks s !! k = Some task' →
     in_flight (lk_point task) = true → in_flight (lk_point task') = true →
     lk_address task = lk_address task' → j = k).
Proof.
  intros s. split.
  - pose proof (ll_permits self _ (events_live self _ events (new_live self initial))) as Hp.
    fold s in Hp. lia.
  - intros Hd. exact (co_one _ (events_coalesced self initial events Hd)).
Qed.

Definition all_ended (s : TokenSystem) : Prop :=
  ∀ k task, sy_tasks s !! k = Some task → lookup_ended task = true.

Lemma ended_or_runs s :
  lookups_live self s → all_ended s ∨ ∃ k reply s', run_task k reply s = Some s'.
Proof.
  intros Hl. destruct (decide (Exists (λ task, lookup_ended task = false) (sy_tasks s))) as [He|He].
  - right. apply Exists_exists in He as (task & [k Hk]%list_elem_of_lookup & He).
    by eapply some_task_runs.
  - left. intros k task Hk. destruct (lookup_ended task) eqn:E; [done|].
    destruct He. apply Exists_exists. exists task. split; [by eapply list_elem_of_lookup_2|done].
Qed.

Lemma ends_from n s :
  lookups_live self s → (lookup_measure s < n)%nat →
  ∃ more, (∀ event, event ∈ more → ∃ k reply, event = RunTask k reply) ∧
    all_ended (run_events s more).
Proof.
  revert s. induction n as [|n IH]; intros s Hl Hn; [lia|].
  destruct (ended_or_runs s Hl) as [He|(k & reply & s' & Hr)]; [by exists []; set_solver|].
  pose proof (event_live self s (RunTask k reply) Hl) as Hl'. simpl in Hl'. rewrite Hr in Hl'.
  destruct (IH s' Hl') as (more & Hmore & He).
  { pose proof (run_task_measure self k reply s s' Hr). lia. }
  exists (RunTask k reply :: more). split; [set_solver|]. simpl. by rewrite Hr.
Qed.

(** C30: every lookup ends: from any state, running tasks takes each step closer to the end
    of all of them, whatever the replies, none waits for something that does not come, and
    there are steps after which all have ended. *)
Theorem lookups_end initial events :
  let s := run_events (TokenSystem_new initial) events in
  (∀ k reply s', run_task k reply s = Some s' → (lookup_measure s' < lookup_measure s)%nat) ∧
  ((∀ k reply, run_task k reply s = None) → all_ended s) ∧
  ∃ more, (∀ event, event ∈ more → ∃ k reply, event = RunTask k reply) ∧
    all_ended (run_events s more).
Proof.
  intros s. pose proof (events_live self _ events (new_live self initial)) as Hl. fold s in Hl.
  split_and!.
  - intros k reply s' Hr. by apply (run_task_measure self k reply).
  - intros Hn. destruct (ended_or_runs s Hl) as [He|(k & reply & s' & Hr)]; [done|].
    by rewrite Hn in Hr.
  - by apply (ends_from (S (lookup_measure s))); [|lia].
Qed.

(** A simulator that looks an address up at a broadcaster is told what the broadcaster
    finds: its request is accepted, and the reply is parsed into the same token, or into
    none if the broadcaster has none. *)
Theorem broadcaster_lookup_answers lookup_url chain_id ensure address found :
  tf_fetch_source self = SourceBroadcaster lookup_url → Chain_id (tf_chain self) = chain_id →
  String.length address = 20%nat → ensure 0%nat address = Ok found →
  (∀ token, found = Some token → token_address token = address ∧ token_chain token = tf_chain self) →
  ∃ request sent response,
    fetch_request self address = Some sent ∧ hr_url sent = lookup_url ∧
    hr_body sent = LookupRequestBody request ∧
    token_lookup chain_id ensure (Ok request) = ReplyOk response ∧
    ∀ status, fetch_token_result self address (BroadcasterReply (Answered true status (Ok response)))
      = Some (Ok found).
Proof.
  intros Hs Hc Hlen He Hf. unfold fetch_request, fetch_token_result. rewrite Hs.
  do 2 eexists. exists (match found with
    | Some token => {| tlr_tokens := [dto_from_token token]; tlr_missing := [] |}
    | None => {| tlr_tokens := []; tlr_missing := [address] |} end).
  split; [reflexivity|]. split; [done|]. split; [reflexivity|].
  unfold token_lookup, lookup_tokens. simpl. rewrite Hc, N.eqb_refl, Hlen, He. simpl.
  destruct found as [token|]; [|done]. destruct (Hf token eq_refl) as [Ha Ht].
  split; [done|]. intros status. unfold parse_broadcaster_token_response, into_token. simpl.
  rewrite Ha, bool_decide_eq_true_2 by done. simpl.
  rewrite <- Ht, N.eqb_refl. simpl. by rewrite Token_new_fields.
Qed.
End properties.

(** ** Witnesses *)

#[local] Existing Instances demo_tycho demo_tokens demo_quote_api demo_quote_sim demo_quotes.

Definition demo_fields : @TokenFields demo_tycho demo_tokens demo_quote_api demo_quote_sim demo_quotes :=
  {| token_decimals := λ _, 18%N; token_tax := λ _, 0%N; token_gas := λ _, [];
     token_quality := λ _, 100%N; Token_new := λ address _ _ _ _ _ _, address |}.

#[local] Existing Instance demo_fields.

Definition demo_token_reply :
  @TychoTokenReply demo_tycho demo_tokens demo_quote_api demo_quote_sim demo_quotes demo_fields :=
  {| ResponseToken := string; rt_address := id; Token_try_from := Some |}.

#[local] Existing Instance demo_token_reply.

Definition demo_token_laws :
  @TokenLaws demo_tycho demo_tokens demo_quote_api demo_quote_sim demo_quotes demo_fields
    demo_token_reply.
Proof. split; [by intros ? ? [= <-]|done|done]. Defined.

#[local] Existing Instance demo_token_laws.

Definition demo_fetcher : TokenFetcher :=
  {| tf_fetch_source := SourceTycho "tycho.example/" "key"; tf_chain := 1%N;
     tf_fetch_timeout := from_millis 500 |}.

Definition run (k : nat) : TokenEvent := RunTask k None.
Definition answer (k : nat) (tokens : list string) : TokenEvent :=
  RunTask k (Some (TychoReply (Answered true "200 OK" (Ok tokens)))).
Definition time_out (k : nat) : TokenEvent :=
  RunTask k (Some (TychoReply (SendFailed true "operation timed out"))).

Abbreviation demo_run := (run_events demo_fetcher (TokenSystem_new ∅)).
Abbreviation points s := (lk_point <$> sy_tasks s).

(** Two lookups, one fetch. *)
Definition shared_fetch : list TokenEvent :=
  [Lookup "A"; Lookup "A"; run 0; run 1; run 0; run 1; run 0; run 0; answer 0 ["B"; "A"]; run 1;
   run 0].

Example shared_fetch_points :
  points (demo_run shared_fetch) = [Finished (Ok (Some "A")); Finished (Ok (Some "A"))].
Proof. vm_compute. reflexivity. Qed.

Lemma lookups_justified_witness :
  justified demo_fetcher shared_fetch (sy_tokens (demo_run shared_fetch)) "A" (Ok (Some "A")).
Proof.
  refine (proj1 (lookups_justified demo_fetcher ∅ shared_fetch 1
    {| lk_address := "A"; lk_point := Finished (Ok (Some "A")) |} (Ok (Some "A")) _ _ _)).
  - intros a t Ha. by rewrite lookup_empty in Ha.
  - vm_compute. reflexivity.
  - reflexivity.
Defined.

(** While the first lookup fetches, the second waits for it. *)
Definition fetch_under_way : list TokenEvent :=
  [Lookup "A"; Lookup "A"; run 0; run 1; run 0; run 1; run 0; run 0].

Lemma lookups_coalesced_witness :
  points (demo_run fetch_under_way) = [Fetching 0; WaitingFor 0] ∧
  ∀ j k task task', sy_tasks (demo_run fetch_under_way) !! j = Some task →
    sy_tasks (demo_run fetch_under_way) !! k = Some task' →
    in_flight (lk_point task) = true → in_flight (lk_point task') = true →
    lk_address task = lk_address task' → j = k.
Proof.
  split; [vm_compute; reflexivity|].
  refine (proj2 (lookups_coalesced demo_fetcher ∅ fetch_under_way) _).
  intros k. unfold fetch_under_way.
  repeat (apply not_elem_of_cons; split; [discriminate|]). apply not_elem_of_nil.
Defined.

Lemma lookups_end_witness :
  lookup_measure (demo_run fetch_under_way) = 8%nat ∧
  all_ended (demo_run shared_fetch).
Proof.
  split; [vm_compute; reflexivity|].
  refine (proj1 (proj2 (lookups_end demo_fetcher ∅ shared_fetch)) _).
  intros [|[|k]] reply; vm_compute; reflexivity.
Defined.

Definition demo_lookup_fetcher : TokenFetcher :=
  {| tf_fetch_source := SourceBroadcaster "http://b/tokens/lookup"; tf_chain := 1%N;
     tf_fetch_timeout := from_millis 500 |}.

Lemma broadcaster_lookup_answers_witness :
  ∃ request sent response,
    fetch_request demo_lookup_fetcher native_token_address = Some sent ∧
    hr_url sent = "http://b/tokens/lookup" ∧ hr_body sent = LookupRequestBody request ∧
    token_lookup 1 (λ _ a, Ok (Some a)) (Ok request) = ReplyOk response ∧
    ∀ status, fetch_token_result demo_lookup_fetcher native_token_address
      (BroadcasterReply (Answered true status (Ok response))) = Some (Ok (Some native_token_address)).
Proof.
  refine (broadcaster_lookup_answers demo_lookup_fetcher "http://b/tokens/lookup" 1
    (λ _ a, Ok (Some a)) native_token_address (Some native_token_address) _ _ _ _ _);
    [reflexivity|reflexivity|vm_compute; reflexivity|reflexivity|].
  intros token E. injection E as <-. split; reflexivity.
Defined.

(** ** Dropped lookups *)

(** A lookup dropped after it has sent its result, while it waits to take its address out of
    the table, leaves the result there for good: a later lookup returns the old error and
    fetches nothing. *)
Example dropped_remover_keeps_error :
  points (demo_run [Lookup "A"; run 0; run 0; run 0; run 0; time_out 0; DropTask 0;
                    Lookup "A"; run 1; run 1; run 1])
  = [Dropped; Finished (Err (FetchTimeout (from_millis 500)))].
Proof. vm_compute. reflexivity. Qed.

(** The lookups that waited for a dropped one all fetch, though fetches of an address are
    meant to be shared. *)
Example dropped_owner_multiplies_fetches :
  points (demo_run [Lookup "A"; Lookup "A"; Lookup "A"; run 0; run 0; run 1; run 1; run 2; run 2;
                    DropTask 0; run 1; run 2; run 1; run 2; run 1; run 2; run 1; run 2])
  = [Dropped; Fetching 1; Fetching 2].
Proof. vm_compute. reflexivity. Qed.
