(* ===== verification/FeedStream.v ===== *)
(** * Following a feed

    [runtime/src/stream.rs]: the loop that builds the stream of a feed, hands what it yields
    to the service of the broadcaster, and restarts it when it is stale, ends, fails too
    often, stays advanced for too long or when the shared publisher pauses.  There is one
    supervisor for decoded updates and one for raw messages.

    A supervisor is a state with the place where it waits; an event ends the wait, with what
    the stream yields, the time, and what the service answers to the calls it makes.  Calls
    of the service are recorded in the order in which they are made.  The delay of a restart
    is the backoff with random jitter: only the backoff is kept.

    Over every sequence of events a supervisor tells the service of each connection and its
    end once, applies the updates that are due once and in between only, keeps its backoff
    within the configured bounds and follows a stream only below the limits of its failures. *)

From S2P Require Import Prelude Ordered Text Protocol Wire TychoFeed Health.

Inductive StreamRestartReason :=
| RestartMissingBlock
| RestartError
| RestartAdvanced
| RestartSharedPublisherPaused
| RestartStale
| RestartEnded.

Definition StreamRestartReason_as_str (reason : StreamRestartReason) : string :=
  match reason with
  | RestartMissingBlock => "missing_block"
  | RestartError => "error"
  | RestartAdvanced => "advanced"
  | RestartSharedPublisherPaused => "shared_publisher_paused"
  | RestartStale => "stale"
  | RestartEnded => "ended"
  end.

Record StreamExit := {
  ex_reason : StreamRestartReason;
  ex_last_error : option string;
}.

Definition stream_exit (reason : StreamRestartReason) (last_error : option string) : StreamExit :=
  {| ex_reason := reason; ex_last_error := last_error |}.

Record StreamSupervisorConfig := {
  fc_readiness_stale : Duration;
  fc_stream_stale : Duration;
  fc_missing_block_burst : u64;
  fc_missing_block_window : Duration;
  fc_error_burst : u64;
  fc_error_window : Duration;
  fc_resync_grace : Duration;
  fc_restart_backoff_min : Duration;
  fc_restart_backoff_max : Duration;
}.

(** What [timeout(.., stream.next())] returns. *)
Inductive StreamPoll (A : Type) :=
| PollElapsed
| PollEnded
| PollItem (item : A)
| PollFailed (err : string).
Arguments PollElapsed {A}.
Arguments PollEnded {A}.
Arguments PollItem {A}.
Arguments PollFailed {A}.

Inductive StreamMessage (A : Type) :=
| MessageStale
| MessageEnded
| MessageUpdate (update : A)
| MessageError (err : string).
Arguments MessageStale {A}.
Arguments MessageEnded {A}.
Arguments MessageUpdate {A}.
Arguments MessageError {A}.

Definition message_of {A} (poll : StreamPoll A) : StreamMessage A :=
  match poll with
  | PollElapsed => MessageStale
  | PollEnded => MessageEnded
  | PollItem item => MessageUpdate item
  | PollFailed err => MessageError err
  end.

(** The calls of [BroadcasterServiceState] that change it. *)
Inductive ServiceCall (A : Type) :=
| ServiceConnected
| ServiceBuildFailed (error : string)
| ServiceApply (update : A)
| ServiceDisconnected (reason : string) (last_error : option string).
Arguments ServiceConnected {A}.
Arguments ServiceBuildFailed {A}.
Arguments ServiceApply {A}.
Arguments ServiceDisconnected {A}.

(** [applied] of [apply_feed_message_with_progress]. *)
Record FeedApplied := {
  fa_published : bool;
  fa_native_progress : option u64;
}.

Section stream.
Context `{TychoTypes} (cfg : StreamSupervisorConfig).

(** ** Messages *)

(** How long [next_stream_message] waits. *)
Definition stream_timeout (h : StreamHealthData) : Duration :=
  if has_received_update h then fc_stream_stale cfg else fc_readiness_stale cfg.

(** How long [next_broadcaster_raw_stream_message] waits; [None]: it is stale already. *)
Definition raw_stream_timeout (now : Instant) (h : StreamHealthData) : option Duration :=
  let progress_age :=
    match last_update_age_ms now h with
    | Some age => from_millis age
    | None => from_millis (default 0%N (started_age_ms now h))
    end in
  if (fc_readiness_stale cfg <=? progress_age)%N then None
  else Some (saturating_sub (fc_readiness_stale cfg) progress_age).

Definition next_broadcaster_raw_stream_message (now : Instant) (h : StreamHealthData)
    (poll : StreamPoll FeedMessage) : StreamMessage FeedMessage :=
  match raw_stream_timeout now h with
  | None => MessageStale
  | Some _ => message_of poll
  end.

Definition is_missing_block_error (message : string) : bool :=
  str_contains "missing block" (to_ascii_lowercase message).

Definition handle_stream_error (now : Instant) (err_msg : string) (h : StreamHealthData) :
    option StreamExit * StreamHealthData :=
  if is_missing_block_error err_msg then
    let h := set_last_error (Some err_msg) h in
    let '(burst, h) := record_missing_block now (fc_missing_block_window cfg) h in
    (if (fc_missing_block_burst cfg <=? bu_burst_count burst)%N
     then Some (stream_exit RestartMissingBlock (Some err_msg)) else None, h)
  else
    let '(burst, h) := record_error now (fc_error_window cfg) h in
    let h := set_last_error (Some err_msg) h in
    (if (fc_error_burst cfg <=? bu_burst_count burst)%N
     then Some (stream_exit RestartError (Some err_msg)) else None, h).

Definition is_advanced (state : SynchronizerState) : bool :=
  match state with SyncAdvanced _ => true | _ => false end.

(** The start of both handlers: the exit of a feed that stays advanced. *)
Definition note_advanced (now : Instant) (sync_states : hashmap SynchronizerState)
    (h : StreamHealthData) : option StreamExit * StreamHealthData :=
  if existsb is_advanced sync_states.*2 then
    let '(advanced, h) := record_advanced now h in
    (if (fc_resync_grace cfg <=? au_elapsed advanced)%N
     then Some (stream_exit RestartAdvanced (Some "advanced_state_grace_exceeded")) else None, h)
  else (None, clear_advanced h).

Definition broadcaster_update_is_empty (update : TychoUpdate) : bool :=
  bool_decide (tu_states update = []) && bool_decide (tu_new_pairs update = [])
  && bool_decide (tu_removed_pairs update = []) && bool_decide (tu_sync_states update = []).

(** [handle_broadcaster_update]; [reply] is [apply_update]'s and [later] the time at
    the end. *)
Definition handle_broadcaster_update (now later : Instant) (update : TychoUpdate)
    (reply : result string unit) (h : StreamHealthData) :
    list (ServiceCall TychoUpdate) * option StreamExit * StreamHealthData :=
  let '(exit, h) := note_advanced now (tu_sync_states update) h in
  match exit with
  | Some exit => ([], Some exit, h)
  | None =>
      let block_number := tu_block_number_or_timestamp update in
      if broadcaster_update_is_empty update then ([], None, record_update later block_number h)
      else
        match reply with
        | Err error =>
            ([ServiceApply update], Some (stream_exit RestartError (Some error)),
             set_last_error (Some error) h)
        | Ok _ => ([ServiceApply update], None, record_progress later block_number h)
        end
  end.

(** [handle_broadcaster_raw_update]. *)
Definition handle_broadcaster_raw_update (now later : Instant) (update : FeedMessage)
    (reply : result string FeedApplied) (h : StreamHealthData) :
    list (ServiceCall FeedMessage) * option StreamExit * StreamHealthData :=
  let '(exit, h) := note_advanced now (fm_sync_states update) h in
  match exit with
  | Some exit => ([], Some exit, h)
  | None =>
      match reply with
      | Err error =>
          ([ServiceApply update], Some (stream_exit RestartError (Some error)),
           set_last_error (Some error) h)
      | Ok applied =>
          if negb (fa_published applied) then ([ServiceApply update], None, h)
          else
            ([ServiceApply update], None,
             match fa_native_progress applied with
             | Some native_block => record_progress later native_block h
             | None => h
             end)
      end
  end.

Definition next_backoff (current max : Duration) : Duration :=
  let doubled := duration_saturating_mul current 2 in
  if (max <? doubled)%N then max else doubled.

(** ** The supervisors *)

(** A kind of stream: its items, what a service replies to one, how one is handled, and
    whether the backoff starts again after it. *)
Record StreamKind := {
  sk_item : Type;
  sk_reply : Type;
  sk_started : Instant → StreamHealthData → StreamHealthData;
  sk_next : Instant → StreamHealthData → StreamPoll sk_item → StreamMessage sk_item;
  sk_handle : Instant → Instant → sk_item → sk_reply → StreamHealthData →
    list (ServiceCall sk_item) * option StreamExit * StreamHealthData;
  sk_resets_backoff : bool → StreamHealthData → bool;
}.

(** [supervise_broadcaster_stream] and [process_broadcaster_stream]. *)
Definition decoded_stream : StreamKind :=
  {| sk_item := TychoUpdate; sk_reply := result string unit; sk_started := mark_started;
     sk_next := λ _ _, message_of; sk_handle := handle_broadcaster_update;
     sk_resets_backoff := λ _, has_received_update |}.

(** [supervise_broadcaster_raw_stream] and [process_broadcaster_raw_stream], whose backoff
    starts again when the service says so. *)
Definition raw_stream : StreamKind :=
  {| sk_item := FeedMessage; sk_reply := result string FeedApplied;
     sk_started := mark_started_preserving_head;
     sk_next := next_broadcaster_raw_stream_message; sk_handle := handle_broadcaster_raw_update;
     sk_resets_backoff := λ recovery_completed _, recovery_completed |}.

(** Where a supervisor waits: for the publisher to resume, for a stream, for a message or a
    pause, or before a restart.  [pause_epoch] is the publisher's before the build. *)
Inductive FeedPhase :=
| FeedResuming
| FeedBuilding (pause_epoch : u64)
| FeedFollowing (pause_epoch : u64)
| FeedSleeping
| FeedTerminated.

Record FeedSupervisor := {
  fd_phase : FeedPhase;
  fd_backoff : Duration;
  fd_health : StreamHealthData;
}.

Definition feed_supervisor_new : FeedSupervisor :=
  {| fd_phase := FeedResuming; fd_backoff := fc_restart_backoff_min cfg;
     fd_health := health_default |}.

Section supervise.
Context (kind : StreamKind).

(** What the service answers when a stream has ended. *)
Record ExitReplies := {
  er_reconnect_backoff_can_reset : bool;
  er_publisher_is_retired : bool;
}.

Inductive FeedEvent :=
| FeedResumed (pause_epoch : u64)
| FeedBuilt (now : Instant) (built : result string unit)
| FeedPaused (pause_epoch : u64) (replies : ExitReplies)
| FeedPolled (asked now later : Instant) (poll : StreamPoll (sk_item kind)) (reply : sk_reply kind)
    (replies : ExitReplies)
| FeedWoke.

Abbreviation Calls := (list (ServiceCall (sk_item kind))).

(** From the end of a stream to the wait before its restart. *)
Definition finish_stream (exit : StreamExit) (replies : ExitReplies) (h : StreamHealthData)
    (s : FeedSupervisor) : Calls * FeedSupervisor :=
  let h := reset_bursts (increment_restart h).2 in
  let backoff :=
    if sk_resets_backoff kind (er_reconnect_backoff_can_reset replies) h
    then fc_restart_backoff_min cfg else fd_backoff s in
  ([ServiceDisconnected (StreamRestartReason_as_str (ex_reason exit)) (ex_last_error exit)],
   {| fd_phase := if er_publisher_is_retired replies then FeedTerminated else FeedSleeping;
      fd_backoff := backoff; fd_health := h |}).

(** One turn of the loop over messages: [asked] is when the wait starts, [now] when it
    ends. *)
Definition process_message (asked now later : Instant) (poll : StreamPoll (sk_item kind))
    (reply : sk_reply kind) (h : StreamHealthData) : Calls * option StreamExit * StreamHealthData :=
  match sk_next kind asked h poll with
  | MessageStale => ([], Some (stream_exit RestartStale None), h)
  | MessageEnded => ([], Some (stream_exit RestartEnded None), h)
  | MessageError err_msg =>
      let '(exit, h) := handle_stream_error now err_msg h in ([], exit, h)
  | MessageUpdate update => sk_handle kind now later update reply h
  end.

(** [None]: not what the supervisor waits for. *)
Definition feed_step (event : FeedEvent) (s : FeedSupervisor) : option (Calls * FeedSupervisor) :=
  match fd_phase s, event with
  | FeedResuming, FeedResumed pause_epoch =>
      Some ([], {| fd_phase := FeedBuilding pause_epoch; fd_backoff := fd_backoff s;
                   fd_health := fd_health s |})
  | FeedBuilding pause_epoch, FeedBuilt now (Ok _) =>
      Some ([ServiceConnected],
            {| fd_phase := FeedFollowing pause_epoch; fd_backoff := fd_backoff s;
               fd_health := sk_started kind now (fd_health s) |})
  | FeedBuilding _, FeedBuilt _ (Err err) =>
      Some ([ServiceBuildFailed err],
            {| fd_phase := FeedSleeping; fd_backoff := fd_backoff s; fd_health := fd_health s |})
  | FeedFollowing pause_epoch, FeedPaused epoch replies =>
      if (epoch <=? pause_epoch)%N then None
      else
        Some (finish_stream (stream_exit RestartSharedPublisherPaused None) replies (fd_health s) s)
  | FeedFollowing pause_epoch, FeedPolled asked now later poll reply replies =>
      let '(calls, exit, h) := process_message asked now later poll reply (fd_health s) in
      match exit with
      | Some exit =>
          let '(closing, s) := finish_stream exit replies h s in Some (calls ++ closing, s)
      | None =>
          Some (calls, {| fd_phase := FeedFollowing pause_epoch; fd_backoff := fd_backoff s;
                          fd_health := h |})
      end
  | FeedSleeping, FeedWoke =>
      Some ([], {| fd_phase := FeedResuming;
                   fd_backoff := next_backoff (fd_backoff s) (fc_restart_backoff_max cfg);
                   fd_health := fd_health s |})
  | _, _ => None
  end.

(** The calls made so far, and the state. *)
Definition feed_run (events : list FeedEvent) : Calls * FeedSupervisor :=
  foldl (λ '(calls, s) event,
      match feed_step event s with
      | Some (more, s) => (calls ++ more, s)
      | None => (calls, s)
      end) ([], feed_supervisor_new) events.
End supervise.
End stream.

(** ** What is promised *)

Section feed.
Context `{TychoTypes} (cfg : StreamSupervisorConfig).

Definition is_following (phase : FeedPhase) : bool :=
  match phase with FeedFollowing _ => true | _ => false end.

(** Whether the service is connected after these calls, [None] where one is out of place. *)
Fixpoint follow_calls {A} (connected : bool) (calls : list (ServiceCall A)) : option bool :=
  match calls with
  | [] => Some connected
  | ServiceConnected :: calls => if connected then None else follow_calls true calls
  | ServiceBuildFailed _ :: calls => if connected then None else follow_calls false calls
  | ServiceApply _ :: calls => if connected then follow_calls true calls else None
  | ServiceDisconnected _ _ :: calls => if connected then follow_calls false calls else None
  end.

Lemma follow_calls_app {A} connected (calls more : list (ServiceCall A)) :
  follow_calls connected (calls ++ more) =
  (follow_calls connected calls ≫= λ connected, follow_calls connected more).
Proof.
  revert connected. induction calls as [|[] calls IH]; intros []; simpl; try done; apply IH.
Qed.

(** The bursts of failures that restart a stream. *)
Definition bursts (h : StreamHealthData) : u64 * u64 :=
  (sh_missing_block_burst h, sh_error_burst h).

Definition below (burst limit : u64) : Prop := burst = 0%N ∨ (burst < limit)%N.

Definition bursts_below (h : StreamHealthData) : Prop :=
  below (sh_missing_block_burst h) (fc_missing_block_burst cfg) ∧
  below (sh_error_burst h) (fc_error_burst cfg).

Lemma bursts_below_eq h h' : bursts h' = bursts h → bursts_below h → bursts_below h'.
Proof. unfold bursts, bursts_below. by intros [= -> ->]. Qed.

(** ** The updates that are due *)

(** A feed that is advanced at this time has been so for less than the grace. *)
Definition within_grace (now : Instant) (states : hashmap SynchronizerState)
    (h : StreamHealthData) : Prop :=
  (∃ name state, (name, SyncAdvanced state) ∈ states) →
  (now - default now (sh_advanced_window_start h) < fc_resync_grace cfg)%N.

(** The decoded updates the service is to apply are those that hold something. *)
Definition decoded_due (now : Instant) (update : TychoUpdate) (h : StreamHealthData) : Prop :=
  within_grace now (tu_sync_states update) h ∧
  ¬ (tu_states update = [] ∧ tu_new_pairs update = [] ∧ tu_removed_pairs update = [] ∧
     tu_sync_states update = []).

Definition raw_due (now : Instant) (update : FeedMessage) (h : StreamHealthData) : Prop :=
  within_grace now (fm_sync_states update) h.

(** The updates handed to the service, in order. *)
Definition applied {A} (calls : list (ServiceCall A)) : list A :=
  omap (λ call, match call with ServiceApply item => Some item | _ => None end) calls.

Lemma applied_app {A} (calls more : list (ServiceCall A)) :
  applied (calls ++ more) = applied calls ++ applied more.
Proof. apply omap_app. Qed.

(** What a poll yields to a supervisor that follows a stream. *)
Definition polled_item (kind : StreamKind) (event : FeedEvent kind) (s : FeedSupervisor) :
    option (Instant * sk_item kind) :=
  match fd_phase s, event with
  | FeedFollowing _, FeedPolled _ asked now _ poll _ _ =>
      match sk_next kind asked (fd_health s) poll with
      | MessageUpdate item => Some (now, item)
      | _ => None
      end
  | _, _ => None
  end.

(** The updates of a step: the one polled, when it is due. *)
Definition applied_when_due (kind : StreamKind)
    (due : Instant → sk_item kind → StreamHealthData → Prop) (event : FeedEvent kind)
    (s : FeedSupervisor) (items : list (sk_item kind)) : Prop :=
  match polled_item kind event s with
  | Some (now, item) =>
      due now item (fd_health s) ∧ items = [item] ∨ ¬ due now item (fd_health s) ∧ items = []
  | None => items = []
  end.

(** ** The two kinds *)

Record kind_regular (kind : StreamKind)
    (due : Instant → sk_item kind → StreamHealthData → Prop) : Prop := {
  kr_started : ∀ now h, bursts (sk_started kind now h) = bursts h;
  kr_calls : ∀ now later item reply h,
    let '(calls, _, _) := sk_handle kind now later item reply h in
    due now item h ∧ calls = [ServiceApply item] ∨ ¬ due now item h ∧ calls = [];
  kr_bursts : ∀ now later item reply h,
    let '(_, _, h') := sk_handle kind now later item reply h in bursts h' = bursts h;
}.

Lemma note_advanced_bursts now states h : bursts (note_advanced cfg now states h).2 = bursts h.
Proof. unfold note_advanced. by destruct (existsb _ _). Qed.

Lemma record_progress_bursts now block h : bursts (record_progress now block h) = bursts h.
Proof. unfold record_progress. by destruct (_ <? _)%N. Qed.

Lemma note_advanced_grace now states h :
  (note_advanced cfg now states h).1 = None ↔ within_grace now states h.
Proof.
  unfold note_advanced, within_grace.
  assert (existsb is_advanced states.*2 = true ↔ ∃ name state, (name, SyncAdvanced state) ∈ states)
    as Hex.
  { rewrite existsb_exists. split.
    - intros (state & ([name st] & -> & Hin)%list_elem_of_In%list_elem_of_fmap & Ha).
      destruct st; try done. eauto.
    - intros (name & state & Hin). exists (SyncAdvanced state). split; [|done].
      apply list_elem_of_In, list_elem_of_fmap. by exists (name, SyncAdvanced state). }
  destruct (existsb _ _) eqn:E.
  - assert (au_elapsed (record_advanced now h).1 = now - default now (sh_advanced_window_start h))%N
      as Hel.
    { unfold record_advanced, saturating_duration_since. simpl.
      destruct (sh_advanced_window_start h); simpl; [done|by rewrite N.sub_diag]. }
    destruct (record_advanced now h) as [advanced h1]. simpl in *. rewrite Hel.
    pose proof (proj1 Hex eq_refl) as Hin.
    destruct (N.leb_spec (fc_resync_grace cfg) (now - default now (sh_advanced_window_start h)));
      simpl; split; try done.
    intros Hw. specialize (Hw Hin). lia.
  - simpl. split; [|done]. intros _ Hin%Hex. done.
Qed.

Lemma empty_update update :
  broadcaster_update_is_empty update = true ↔
  tu_states update = [] ∧ tu_new_pairs update = [] ∧ tu_removed_pairs update = [] ∧
  tu_sync_states update = [].
Proof.
  unfold broadcaster_update_is_empty. rewrite !andb_true_iff, !bool_decide_eq_true. tauto.
Qed.

Lemma decoded_regular : kind_regular (decoded_stream cfg) decoded_due.
Proof.
  split; [done|..]; intros now later update reply h; simpl; unfold handle_broadcaster_update;
    pose proof (note_advanced_bursts now (tu_sync_states update) h) as Hb;
    pose proof (note_advanced_grace now (tu_sync_states update) h) as Hg;
    destruct (note_advanced _ _ _ _) as [[exit|] h']; simpl in *; try done; unfold decoded_due.
  - right. split; [|done]. by intros [Hw%Hg _].
  - pose proof (empty_update update) as He. apply proj1 in Hg. specialize (Hg eq_refl).
    destruct (broadcaster_update_is_empty update).
    + right. split; [|done]. intros [_ Hno]. by apply Hno, He.
    + destruct reply; left; (split; [split; [done|by intros ?%He]|done]).
  - destruct (broadcaster_update_is_empty update); [done|].
    destruct reply; [by rewrite record_progress_bursts|done].
Qed.

Lemma raw_regular : kind_regular (raw_stream cfg) raw_due.
Proof.
  split; [done|..]; intros now later update reply h; simpl; unfold handle_broadcaster_raw_update;
    pose proof (note_advanced_bursts now (fm_sync_states update) h) as Hb;
    pose proof (note_advanced_grace now (fm_sync_states update) h) as Hg;
    destruct (note_advanced _ _ _ _) as [[exit|] h']; simpl in *; try done; unfold raw_due.
  - right. split; [|done]. by intros Hw%Hg.
  - destruct reply as [applied'|]; [destruct (negb _)|]; left; (split; [by apply Hg|done]).
  - destruct reply as [applied'|]; [destruct (negb _)|]; [done| |done].
    destruct (fa_native_progress applied'); [by rewrite record_progress_bursts|done].
Qed.

(** ** Runs *)

Record supervised (connected : option bool) (s : FeedSupervisor) : Prop := {
  su_connected : connected = Some (is_following (fd_phase s));
  su_backoff : (fc_restart_backoff_min cfg ≤ fd_backoff s ≤ fc_restart_backoff_max cfg)%N;
  su_bursts : bursts_below (fd_health s);
  su_restarting : ∀ epoch, fd_phase s = FeedSleeping ∨ fd_phase s = FeedResuming ∨
    fd_phase s = FeedBuilding epoch → bursts (fd_health s) = (0, 0)%N;
}.

Lemma error_bursts now err h exit h' :
  handle_stream_error cfg now err h = (exit, h') → bursts_below h →
  exit = None → bursts_below h'.
Proof.
  unfold handle_stream_error. intros E [Hm He] ->. destruct (is_missing_block_error err).
  - destruct (record_missing_block _ _ _) as [burst h1] eqn:Er.
    destruct (N.leb_spec (fc_missing_block_burst cfg) (bu_burst_count burst)); simplify_eq.
    unfold record_missing_block in Er. destruct (burst_window _ _ _ _) as [[b st] started].
    simplify_eq/=. split; [by right|done].
  - destruct (record_error _ _ _) as [burst h1] eqn:Er.
    destruct (N.leb_spec (fc_error_burst cfg) (bu_burst_count burst)); simplify_eq.
    unfold record_error in Er. destruct (burst_window _ _ _ _) as [[b st] started].
    simplify_eq/=. split; [done|by right].
Qed.

Lemma next_backoff_bounds current :
  (fc_restart_backoff_max cfg ≤ DURATION_MAX)%N →
  (fc_restart_backoff_min cfg ≤ current ≤ fc_restart_backoff_max cfg)%N →
  (fc_restart_backoff_min cfg ≤ next_backoff current (fc_restart_backoff_max cfg)
   ≤ fc_restart_backoff_max cfg)%N.
Proof.
  intros Hmax Hc. unfold next_backoff, duration_saturating_mul.
  destruct (N.ltb_spec (fc_restart_backoff_max cfg) (N.min (current * 2) DURATION_MAX)); lia.
Qed.

Context (kind : StreamKind) (due : Instant → sk_item kind → StreamHealthData → Prop).
Context (Hkind : kind_regular kind due).

Lemma message_regular asked now later poll reply h calls exit h' :
  process_message cfg kind asked now later poll reply h = (calls, exit, h') → bursts_below h →
  follow_calls true calls = Some true ∧ (exit = None → bursts_below h').
Proof.
  unfold process_message. intros E Hb.
  destruct (sk_next kind asked h poll) as [| |update|err]; simplify_eq/=; [done..| |].
  - pose proof (kr_calls _ _ Hkind now later update reply h) as Hc.
    pose proof (kr_bursts _ _ Hkind now later update reply h) as Hh. rewrite E in Hc, Hh.
    split; [by destruct Hc as [[_ ->]|[_ ->]]|]. intros _. by apply (bursts_below_eq h).
  - destruct (handle_stream_error cfg now err h) as [exit' h1] eqn:Ee. simplify_eq.
    split; [done|]. by apply (error_bursts now err h).
Qed.

Lemma finish_regular exit replies h s :
  (fc_restart_backoff_min cfg ≤ fd_backoff s ≤ fc_restart_backoff_max cfg)%N →
  (fc_restart_backoff_min cfg ≤ fc_restart_backoff_max cfg)%N →
  supervised (follow_calls true (finish_stream cfg kind exit replies h s).1)
    (finish_stream cfg kind exit replies h s).2.
Proof.
  intros Hb Hle. split; simpl.
  - by destruct (er_publisher_is_retired replies).
  - destruct (sk_resets_backoff _ _ _); [lia|done].
  - split; by left.
  - done.
Qed.
Lemma step_supervised event connected s more s' :
  (fc_restart_backoff_min cfg ≤ fc_restart_backoff_max cfg)%N →
  (fc_restart_backoff_max cfg ≤ DURATION_MAX)%N →
  supervised (Some connected) s → feed_step cfg kind event s = Some (more, s') →
  supervised (follow_calls connected more) s'.
Proof.
  intros Hle Hmax [Hc Hb Hbelow Hr] E. injection Hc as ->. unfold feed_step in E.
  destruct (fd_phase s) as [|epoch|epoch| |] eqn:Ep, event as
    [epoch'|now [[]|err]|epoch' replies|asked now later poll reply replies|];
    simplify_eq/=.
  - split; simpl; [done..|]. intros _ _. apply (Hr 0%N). by auto.
  - split; simpl; [done|done| |by intros ? [?|[?|?]]].
    by apply (bursts_below_eq (fd_health s)); [apply Hkind|].
  - split; simpl; [done..|]. intros _ _. apply (Hr epoch). by auto.
  - destruct (N.leb_spec epoch' epoch); simplify_eq.
    pose proof (finish_regular (stream_exit RestartSharedPublisherPaused None) replies
      (fd_health s) s Hb Hle) as Hf. by rewrite E in Hf.
  - destruct (process_message _ _ _ _ _ _ _ _) as [[calls exit] h'] eqn:Em.
    destruct (message_regular _ _ _ _ _ _ _ _ _ Em Hbelow) as [Hcalls Hh].
    destruct exit as [exit|].
    + injection E as <- <-. rewrite follow_calls_app, Hcalls.
      exact (finish_regular exit replies h' s Hb Hle).
    + simplify_eq. rewrite Hcalls. split; simpl; [done|done|by apply Hh|by intros ? [?|[?|?]]].
  - split; simpl; [done|by apply next_backoff_bounds|done|]. intros _ _. apply (Hr 0%N). by auto.
Qed.

Lemma run_supervised events :
  (fc_restart_backoff_min cfg ≤ fc_restart_backoff_max cfg)%N →
  (fc_restart_backoff_max cfg ≤ DURATION_MAX)%N →
  supervised (follow_calls false (feed_run cfg kind events).1) (feed_run cfg kind events).2.
Proof.
  intros Hle Hmax. unfold feed_run.
  apply (foldl_inv (λ x, supervised (follow_calls false x.1) x.2)).
  - split; simpl; [done|lia|split; by left|done].
  - intros [calls s] event _ Hs. simpl in *.
    destruct (feed_step cfg kind event s) as [[more s']|] eqn:E; [|done]. simpl.
    rewrite follow_calls_app. pose proof (su_connected _ _ Hs) as Hc. rewrite Hc in *.
    by apply (step_supervised event _ s).
Qed.

(** A step hands over the update that is due, and an event that is not awaited none. *)
Lemma step_applies event s :
  applied_when_due kind due event s
    (match feed_step cfg kind event s with Some (more, _) => applied more | None => [] end).
Proof.
  unfold applied_when_due, polled_item, feed_step.
  destruct (fd_phase s) as [|epoch|epoch| |], event as
    [epoch'|now [[]|err]|epoch' replies|asked now later poll reply replies|]; try done.
  { by destruct (epoch' <=? epoch)%N. }
  unfold process_message. destruct (sk_next kind asked (fd_health s) poll) as [| |item|err]; try done.
  - pose proof (kr_calls _ _ Hkind now later item reply (fd_health s)) as Hc.
    destruct (sk_handle _ _ _ _ _ _) as [[calls exit] h'].
    assert (due now item (fd_health s) ∧ applied calls = [item] ∨
            ¬ due now item (fd_health s) ∧ applied calls = []) as Ha
      by (destruct Hc as [[? ->]|[? ->]]; [by left|by right]).
    destruct exit; simpl; [|done]. by rewrite applied_app, app_nil_r.
  - by destruct (handle_stream_error _ _ _ _) as [[exit|] h'].
Qed.

Lemma run_applies events event :
  ∃ items, applied_when_due kind due event (feed_run cfg kind events).2 items ∧
    applied (feed_run cfg kind (events ++ [event])).1 =
      applied (feed_run cfg kind events).1 ++ items.
Proof.
  pose proof (step_applies event (feed_run cfg kind events).2) as Hstep.
  eexists. split; [exact Hstep|]. unfold feed_run. rewrite foldl_app. simpl.
  destruct (foldl _ _ events) as [calls s]. simpl.
  destruct (feed_step cfg kind event s) as [[more s']|]; simpl; [apply applied_app|].
  by rewrite app_nil_r.
Qed.

(** What holds of every run of a supervisor, and of every event after it. *)
Definition runs_regular : Prop :=
  ∀ events,
    supervised (follow_calls false (feed_run cfg kind events).1) (feed_run cfg kind events).2 ∧
    ∀ event, ∃ items, applied_when_due kind due event (feed_run cfg kind events).2 items ∧
      applied (feed_run cfg kind (events ++ [event])).1 =
        applied (feed_run cfg kind events).1 ++ items.
End feed.

(** C31: whatever happens to a supervisor of a feed, it tells the service of a connection
    before any update and of its end once, and of nothing in between two streams but
    failed builds.  Each update the stream yields is handed over for application exactly
    once and in order when it is due, and not at all otherwise; an update is not due when
    the feed has been advanced for the grace or longer, and a decoded one also when it is
    empty.  The backoff stays within the configured bounds (which must be in order and
    representable); a stream is followed only while the failures of both sorts are below
    the limits in their windows, and started without any. *)
Theorem feed_supervised `{TychoTypes} cfg :
  (fc_restart_backoff_min cfg ≤ fc_restart_backoff_max cfg)%N →
  (fc_restart_backoff_max cfg ≤ DURATION_MAX)%N →
  runs_regular cfg (decoded_stream cfg) (decoded_due cfg) ∧
  runs_regular cfg (raw_stream cfg) (raw_due cfg).
Proof.
  intros Hle Hmax. pose proof (decoded_regular cfg) as Hd. pose proof (raw_regular cfg) as Hr.
  split; intros events; (split; [by eapply run_supervised|]); intros event;
    by apply run_applies.
Qed.

(** ** A feed that fails *)

#[local] Existing Instance demo_tycho.

Definition demo_feed_config : StreamSupervisorConfig :=
  {| fc_readiness_stale := from_secs 120; fc_stream_stale := from_secs 60;
     fc_missing_block_burst := 2; fc_missing_block_window := from_secs 60;
     fc_error_burst := 3; fc_error_window := from_secs 60; fc_resync_grace := from_secs 60;
     fc_restart_backoff_min := from_millis 500; fc_restart_backoff_max := from_secs 1 |}.

Abbreviation demo_kind := (decoded_stream demo_feed_config).

Definition demo_replies : ExitReplies :=
  {| er_reconnect_backoff_can_reset := false; er_publisher_is_retired := false |}.

Definition demo_feed_update (block : u64) : TychoUpdate :=
  {| tu_block_number_or_timestamp := block; tu_states := []; tu_new_pairs := [];
     tu_removed_pairs := [("p1", ("uniswap_v2", "AB"))]; tu_sync_states := [] |}.

Definition demo_polled (now : Instant) (poll : StreamPoll TychoUpdate) : FeedEvent demo_kind :=
  FeedPolled demo_kind now now now poll (Ok tt) demo_replies.

(** A build fails, an update is applied, and two missing blocks restart the stream. *)
Definition demo_feed_events : list (FeedEvent demo_kind) :=
  [FeedResumed demo_kind 0; FeedBuilt demo_kind 10 (Err "no route"); FeedWoke demo_kind;
   FeedResumed demo_kind 0; FeedBuilt demo_kind 20 (Ok tt);
   demo_polled 30 (PollItem (demo_feed_update 7)); demo_polled 40 (PollFailed "Missing block 8");
   demo_polled 50 (PollFailed "missing block 9"); FeedWoke demo_kind].

Example demo_feed_calls :
  (feed_run demo_feed_config demo_kind demo_feed_events).1
  = [ServiceBuildFailed "no route"; ServiceConnected; ServiceApply (demo_feed_update 7);
     ServiceDisconnected "missing_block" (Some "missing block 9")].
Proof. vm_compute. reflexivity. Qed.

(** The next update is applied once more; an empty one is dropped. *)
Definition demo_empty_update : TychoUpdate :=
  {| tu_block_number_or_timestamp := 8; tu_states := []; tu_new_pairs := [];
     tu_removed_pairs := []; tu_sync_states := [] |}.

Lemma feed_supervised_witness :
  let run := feed_run demo_feed_config demo_kind in
  fd_backoff (run demo_feed_events).2 = from_secs 1 ∧
  supervised demo_feed_config (follow_calls false (run demo_feed_events).1) (run demo_feed_events).2 ∧
  let following := take 6 demo_feed_events in
  applied (run (following ++ [demo_polled 40 (PollItem (demo_feed_update 8))])).1 =
    [demo_feed_update 7; demo_feed_update 8] ∧
  applied_when_due demo_kind (decoded_due demo_feed_config)
    (demo_polled 40 (PollItem demo_empty_update)) (run following).2 [].
Proof.
  assert (runs_regular demo_feed_config demo_kind (decoded_due demo_feed_config)) as Hruns
    by (refine (proj1 (feed_supervised demo_feed_config _ _)); vm_compute; discriminate).
  split; [vm_compute; reflexivity|split; [exact (proj1 (Hruns demo_feed_events))|]].
  split; [vm_compute; reflexivity|].
  destruct (proj2 (Hruns (take 6 demo_feed_events)) (demo_polled 40 (PollItem demo_empty_update)))
    as (items & Hdue & Happ).
  assert (items = []) as ->; [|exact Hdue].
  apply (app_inv_head (applied (feed_run demo_feed_config demo_kind (take 6 demo_feed_events)).1)).
  rewrite <- Happ. vm_compute. reflexivity.
Defined.
